(* ===== verification/_CoqProject ===== *)
-Q . S2P
Prelude.v
CMem.v
OverlayBuffer.v
OverlayBufferCodec.v
RotBuf.v
Fifo.v
Crc32.v
Str.v
DataFormats.v
Slip.v
Strlcpy.v
SubscriberTree.v
OverlayAddress.v
Jitter.v
Vomp.v
VompCalls.v
VompInv.v
VompAudio.v
VompProps.v
Fdqueue.v
FdqueueInv.v
PacketFormats.v
PacketRoundtrip.v
PacketSafety.v
PacketFrames.v
RouteLinks.v
Route.v
RouteBest.v
RouteWire.v
RouteOps.v
RouteReceive.v
RouteWindow.v
RouteProps.v
Limit.v
TxState.v
OverlayQueue.v
QueueInv.v
QueueProps.v
QueueAck.v
QueueLimits.v
Nonce.v
Crypto.v
MdpBindings.v
Effects.v
MdpState.v
Mdp.v
MdpServices.v
MdpClients.v
Receive.v
SystemInv.v
ReceiveProps.v
MdpAnswers.v
MdpProps.v
MdpWire.v
ConfOm.v
ConfKeys.v
ConfTree.v
ConfRefine.v
Conf.v
ConfIter.v
ConfMatch.v
ConfProps.v
Strbuf.v
StrbufHelpers.v
Cli.v
CliProps.v
Keyring.v
KeyringFile.v
KeyringSlot.v
KeyringProps.v
KeyringInv.v
KeyringFind.v
