(* ===== verification/Prelude.v ===== *)
(** * A verification of the core of serval-dna, the mesh networking daemon of Batphone

    The program is the C code under src/jni/serval-dna: a daemon that carries
    packets between phones over a mesh, addresses them by 32-byte subscriber
    identifiers, and runs voice calls (VoMP) on top.  This library models the
    parts of it that carry its own logic, function by function, and proves what
    makes them correct.  The C functions become Rocq functions on explicit state.

    ** Parts and files

    - Prelude: what all files share (below).
    - CMem: a block memory with allocation, for code that shares or frees memory.
    - OverlayBuffer, OverlayBufferCodec (overlay_buffer.c): packet buffers that
      grow, are sliced and share bytes; the integers and length fields written to
      and read from them.
    - RotBuf (rotbuf.c, rotbuf.h), Fifo (fifo.c): a window that wraps around a
      buffer, and the byte queue of the radio code.
    - Crc32 (crc32.c), Str (str.c, str.h), DataFormats (dataformats.c), Strlcpy
      (strlcpy.c): checksums, strings, identifier and number formats.
    - Slip (slip.c, interface_read_stream of overlay_interface.c): the two
      encapsulations of packets on a serial line, UPPER7 with its header and
      checksum among RSSI reports of the radio.
    - SubscriberTree (find_subscriber and walk_tree of overlay_address.c): the
      directory, a tree on the nibbles of identifiers.  A subscriber is an index
      into the list of the subscribers allocated so far.
    - OverlayAddress (the rest of overlay_address.c): abbreviated addresses in
      packets, with the context of the packet, and requests to explain them.
    - PacketFormats (overlay_payload.c, overlay_packetformats.c): the headers of
      packets and of the frames in them, built and parsed.  PacketRoundtrip proves
      that the parser reads what the builder wrote, PacketFrames extends this to whole
      frames with their payload, PacketSafety shows which frames are processed and
      forwarded.
    - Routing (route_link.c): RouteLinks has the links a neighbour reports, a tree of
      records reached by receiver, and the score of the path they make; Route the
      state (neighbours, the route of each subscriber, the route version) and the
      choice of the best route; RouteBest proves that choice.  RouteWire has the
      records of link state messages, written and read; RouteOps the expiry of links
      and what is sent, RouteReceive what is received.  RouteWindow proves the
      detection of duplicates, RouteProps expiry and the loop over received
      records.
    - Transmit queues (overlay_queue.c, the sending side of overlay_interface.c, the
      probes of overlay_link.c, olsr_send): Limit has the rate limit; TxState the
      interfaces, the frames in memory and the monad their code runs in; OverlayQueue
      the queues by class of traffic, the choice of destinations, the packets
      assembled and sent, acknowledgements and retransmission.  QueueInv states
      the shape of the doubly-linked queues and what keeps it, QueueProps the
      invariant over runs, QueueAck what acknowledgements do, QueueLimits
      termination and what the queues get wrong.
    - Jitter (vomp.c, up to is_codec_set): the ordered delays of received audio,
      whose pointers into the sample array are indices of a heap of samples.
    - Vomp (the rest of vomp.c): the call table and its handlers, in a state monad
      over the table, the clock readings, the random numbers to come and the
      messages sent.  VompCalls proves what the handlers do to one call, VompInv the
      invariant of the table for each handler, VompProps the theorems on runs,
      VompAudio those on audio.
    - Mesh datagrams (nonce.c, crypto.c, overlay_mdp.c, overlay_mdp_services.c, the
      probes and STUN messages of overlay_link.c): Nonce has the counter behind nonces;
      Crypto the signatures of messages over an interface of the NaCl library;
      MdpBindings the ports clients are bound to; MdpState what is in a datagram and its
      protection; Mdp delivering and sending; MdpServices the services that answer
      datagrams and the dispatch with them; MdpClients the requests of clients.
    - A received packet (the rest of overlay_packetformats.c): Effects hands the calls
      that the address code and routing record to the parts they are for; Receive
      goes from the header of the packet through its frames, forwarding and the services.
      SystemInv has the state of the whole daemon and its invariant, ReceiveProps,
      MdpAnswers, MdpProps and MdpWire what the layers guarantee together.
    - Keyring (keyring.c): Keyring has key pairs, identities, the packing of an identity
      into a rotated buffer of a slot and its encryption; KeyringFile the file with its
      bitmaps, pins, new identities, committing, unlocking and finding keys.  KeyringSlot
      proves that a slot is read back, KeyringProps that a committed file is, KeyringInv what
      the operations keep, KeyringFind how keys are found and the cache of shared secrets.
    - Configuration (conf_om.c, conf.c, parts of mem.c): ConfOm has the tree of options
      with its sorted children, names and patterns, ConfKeys the order of keys, ConfTree
      what the operations do to the tree, ConfRefine that it is a map; Conf loads, saves and puts
      in force the file, ConfIter walks the tree, ConfMatch has the patterns, ConfProps
      what the whole does.
    - Text output (strbuf.c, strbuf.h, strbuf_helpers.c, toprint of str.c): Strbuf has the
      buffers that text is assembled in, StrbufHelpers printing with escapes, quoting
      for a shell and joining paths.
    - Command line (cli.c): Cli matches arguments with the patterns of commands, finds
      labelled arguments and prints the usage; CliProps has the syntax of patterns, the rules by
      which they match and the proof that the code follows them.
    - Fdqueue (fdqueue.c): the doubly-linked lists of alarms by time and of due
      alarms by deadline, the watched file handles and a turn of the main loop;
      FdqueueInv: the invariant and the refinement to two sets.

    Buffers hold what a packet parser reads (OverlayAddress uses OverlayBuffer and
    SubscriberTree, PacketFormats uses all three), routing writes and reads its
    messages with both and sets the reachability the addresses depend on, the transmit
    queues hold the frames that routing, calls and the packet code send and write them
    with PacketFormats, the datagram service resolves addresses, queues frames and binds
    clients, and Receive runs all of them on a packet; the keyring packs identities with rotated
    buffers and gives the datagram service its keys; the usage message is assembled with strbufs; calls use the directory, the jitter code, strlcpy and an alarm of
    the queue each.

    ** What the theorems show

    - refinement: appending to an overlay buffer implements a bounded byte sequence; the
      byte queue a list; the alarm queue two sets, and its lists sorted lists;
      table-driven CRC-32 polynomial division.
    - round trips: a stream of UPPER7 frames, however it is read and whatever RSSI reports are
      among them, yields the packets sent; SLIP; packed integers; addresses, whole frames (of
      the queue two bits) and link state records (of the version eight), which another node
      reads that knows the parties and nobody whom the sender does not know; hexadecimal;
      audio as the clients of the other party get it.
    - routes: scoring ends whatever loops neighbours report and gives hops and loss
      of the path, by the parents that are on record, which need not be the transmitters reported
      last; the route chosen is a best one among the live candidates by such paths; expiry
      forgets exactly the dead links; the 64-bit window of frame numbers implements
      the set of all numbers seen; reading a message always ends.
    - transmission: a rate limit lets through what it promises; an acknowledgement
      takes exactly the frames it covers off the queues, in a state in which no best link
      dangles; filling a packet and queueing a frame end.
    - datagrams: what is sent in clear, signed or boxed is read back by its receiver; bind
      requests implement a map, apart from those of sockets without a name; a client that is
      not bound to the port it names has its datagrams refused, unless the port is 0; the
      answers of the daemon to itself by echo, trace and STUN end (those of VoMP, the
      keyring, the directory and rhizome are not followed), and so does the walk through the
      frames of a packet.
    - keyring: after a commit every identity can be unlocked again with its pins and has the
      keys it had, whatever the random salts and rotation (of several copies the last); from
      opening on, each identity has keys of the lengths of their types and a slot that is marked as
      used, which is its own until a pin is entered; a search finds the first key that matches.
    - configuration: setting and getting options by name implements a finite map; what
      is saved is loaded again as it was; an option matches a pattern as the rules of
      patterns say; strict loading puts exactly what the lines of a file without a defect
      say in force, and changes nothing otherwise.
    - text: whatever is called on a strbuf of a positive size, nothing is written outside of it and
      a NUL stays in it; the start of the text that fits is in the buffer, if no length past the
      end of a text is given; bytes printed with escapes are read back, and so is what
      is quoted for a shell.
    - command line: parsing ends, and finds exactly one, none or several commands as the rules
      for patterns say, with their labelled arguments.
    - invariants: the whole daemon for any sequence of packets, requests, alarms and
      acknowledgements; the linked queues of frames for any sequence of operations, the
      subscriber tree, the jitter order, the UPPER7 receiver for any
      input byte, and the call table for any sequence of commands, packets and
      alarms, of which commands and alarms are always defined.
    - safety and liveness of calls: no call is answered without vomp_pickup; an
      expired call is ended and its slot freed by its next alarm, unless its other end has sent a
      state that the protocol does not have; an abbreviation
      never resolves to a subscriber it does not match; a frame is processed only
      if it is for us or for everyone, and forwarded only by its next hop.
    - error behaviour: theorems that pin down what the code gets wrong, among them
      the call table overflow, the never-destroyed call, the buffer overflows of
      the SLIP code, the 64-bit reader that does not invert its writer, the route
      lost to a stale parent, the dangling best link, the undefined retransmission,
      the frame repeated by itself, the links that outlive their interface, the nonces
      that repeat, the goodbye that releases nothing, the port 0 that anyone may hold, the identity
      that is loaded twice, the acknowledgement that reads a freed link, the negative length of a short
      signed message, the datagram larger than its array, the option too deep for
      the stack of the iterator and the counts of strbufs that are not as documented.

    ** Undefined behaviour, fuel and bounds

    Every definition that can meet undefined behaviour of C returns an [option];
    [None] is undefined behaviour, or where a file says so the abort of FATAL;
    error codes are ordinary values.  The sign bit of an int made by shifting 1 by 31 is taken
    as compilers make it.  Loops take as fuel a number that bounds their
    passes: the length of the data left, the number of digits of an
    identifier (twice its bytes), the number of entries or calls, or the size of an
    integer; for routes the number of links of a table (scores), of subscribers plus
    one (best routes), of bytes of a message (records), 256 (missed frame numbers); for queues the number of frames in memory;
    two for queueing a frame, which may queue one probe; for datagrams two for a nonce
    (the counter is filled at most once), 200 for a scan of addresses, 2206 for
    dispatching (twice the room that is left in a payload of 1100 bytes and a little
    more, because each trace of the daemon to itself takes room), the bytes of a packet for its frames;
    for the configuration the number of children (binary search), the length of a name and
    two (paths), the depth of the stack and one or the number of nodes (the iterator), the bytes
    of the file (lines); for a slot of the keyring its bytes, two for the chunks left in it, for
    the search of a key the number of key pairs, identities and contexts; for a command its words, the arguments and the labels there is room for.
    Theorems that a function returns include that the fuel suffices.
    The loop on random numbers of vomp_generate_session_id runs over the list
    of numbers to come and is undefined when it ends; its theorems assume a run in
    which it returned, or that a number that is free is among them.

    ** What is a parameter

    The memory allocator (may fail), the clock, random numbers, poll, the
    functions of alarms, what the monitor says of its clients, the interfaces of
    the node and whether the frame queue takes a frame (for routing), the results of
    write and sendto, the functions of NaCl with their documented laws, the keys the
    keyring gives out, whether random bytes can be had, what the services of VoMP, the keyring, the
    directory and rhizome return for a datagram, whether OLSR is in use, the layout of struct probe_contents (for
    the transmit queues), whether there is memory for an option, the parser and the
    defaults of the schema of the configuration, which calls of the keyring fail and the
    random bytes it gets, the key pairs NaCl makes and how many are tried for an identity, the results of stat, open, read and write on its file,
    the text that a format of printf makes, and whether char is signed, where it matters.  Sending a packet
    is an output, so a call to the node itself, whose packets the code
    delivers while sending, is delivered in a later step.  Frames, acknowledgements
    and explanations that the address code and routing cause reach the queues when the
    function that causes them returns.

    ** Not modelled

    Log and debug output; sockets and system calls (the set-up and polling of
    overlay_interface.c, the opening of the sockets of overlay_mdp.c, net.c, monitor.c,
    server.c, directory_service.c); the configuration schema, which macros generate; names of poll
    events, socket addresses and dates in messages; the
    exchange of signing keys between keyrings; rhizome, which is storage over SQLite; the commands of
    commandline.c, which are processes and output; the vendored libraries beside
    src/jni/serval-dna.

    ** This file

    - machine integers: [u8], [u16], [u32], [u64] (unsigned wrap-around), [i32]
      (two's complement reinterpretation) and [ci], a C [int] computation that
      is undefined when it leaves the 32-bit range;
    - memory regions as lists of cells addressed by a [Z] offset: [zget],
      [zset] and [zblit] (memcpy/bcopy); an access outside the region is [None];
    - list, arithmetic and bit lemmas used by several components, the hint
      databases [cmem] and [cbits] and the tactics of the development. *)

From stdpp Require Export base tactics numbers list list_numbers option gmap strings.
From Stdlib Require Export Ascii.
#[global] Open Scope Z_scope.


(** ** Machine integers *)

Definition INT_MAX : Z := 2147483647.
Definition INT_MIN : Z := -2147483648.

Definition u8 (z : Z) : Z := z mod 2 ^ 8.
Definition u16 (z : Z) : Z := z mod 2 ^ 16.
Definition u32 (z : Z) : Z := z mod 2 ^ 32.
Definition u64 (z : Z) : Z := z mod 2 ^ 64.

(** Conversion of an out-of-range value to [int] (two's complement). *)
Definition i32 (z : Z) : Z := (z + 2 ^ 31) mod 2 ^ 32 - 2 ^ 31.

(** A signed [int] result: undefined when it is not representable. *)
Definition ci (z : Z) : option Z :=
  if (INT_MIN <=? z) && (z <=? INT_MAX) then Some z else None.

Definition is_byte (z : Z) : Prop := 0 <= z < 256.
Abbreviation are_bytes := (Forall is_byte).

(** C truth values. *)
Definition Zb (b : bool) : Z := if b then 1 else 0.

(** ** Regions *)

Abbreviation zlen l := (Z.of_nat (length l)).


Section regions.
Context {A : Type}.
Implicit Types (l : list A) (i n : Z).

Definition zget l i : option A :=
  if 0 <=? i then l !! Z.to_nat i else None.

Definition zset l i (x : A) : option (list A) :=
  if (0 <=? i) && (i <? zlen l) then Some (<[Z.to_nat i := x]> l) else None.

(** [n] cells from offset [i]: the source side of a memcpy. *)
Definition zslice l i n : option (list A) :=
  if (0 <=? i) && (0 <=? n) && (i + n <=? zlen l)
  then Some (take (Z.to_nat n) (drop (Z.to_nat i) l)) else None.

(** Write [src] at offset [i]: the destination side of a memcpy. *)
Definition zblit l i (src : list A) : option (list A) :=
  if (0 <=? i) && (i + zlen src <=? zlen l)
  then Some (take (Z.to_nat i) l ++ src ++ drop (Z.to_nat i + length src) l)
  else None.
End regions.

(** ** Tactics *)

(** Turn boolean tests into propositions and close by linear arithmetic. *)
Ltac zify_bool :=
  repeat match goal with
  | H : _ && _ = true |- _ => apply andb_true_iff in H; destruct H
  | H : _ && _ = false |- _ => apply andb_false_iff in H
  | H : _ || _ = true |- _ => apply orb_true_iff in H
  | H : _ || _ = false |- _ => apply orb_false_iff in H; destruct H
  | H : negb _ = true |- _ => apply negb_true_iff in H
  | H : negb _ = false |- _ => apply negb_false_iff in H
  | H : (_ <=? _) = true |- _ => apply Z.leb_le in H
  | H : (_ <=? _) = false |- _ => apply Z.leb_gt in H
  | H : (_ <? _) = true |- _ => apply Z.ltb_lt in H
  | H : (_ <? _) = false |- _ => apply Z.ltb_ge in H
  | H : (_ =? _) = true |- _ => apply Z.eqb_eq in H
  | H : (_ =? _) = false |- _ => apply Z.eqb_neq in H
  end.

(** Decide every boolean comparison of the goal that [lia] can settle. *)
Ltac zdecide_step :=
  match goal with
  | |- context [?a <=? ?b] =>
      first [ rewrite (proj2 (Z.leb_le a b)) by lia
            | rewrite (proj2 (Z.leb_gt a b)) by lia ]
  | |- context [?a <? ?b] =>
      first [ rewrite (proj2 (Z.ltb_lt a b)) by lia
            | rewrite (proj2 (Z.ltb_ge a b)) by lia ]
  | |- context [?a =? ?b] =>
      first [ rewrite (proj2 (Z.eqb_eq a b)) by lia
            | rewrite (proj2 (Z.eqb_neq a b)) by lia ]
  end.
Ltac zdecide := repeat (zdecide_step; cbn [andb orb negb]).

(** Case on the comparisons of the goal, as propositions. *)
Ltac zcases :=
  repeat match goal with
  | |- context [?a <=? ?b] => destruct (Z.leb_spec a b); cbn [andb orb negb]
  | |- context [?a <? ?b] => destruct (Z.ltb_spec a b); cbn [andb orb negb]
  | |- context [?a =? ?b] => destruct (Z.eqb_spec a b); cbn [andb orb negb]
  end.

(** Split the boolean test that guards a hypothesis of the form
    [(if b then _ else _) = _]. *)
Ltac case_if_in H :=
  match type of H with
  | context [if ?b then _ else _] => destruct b eqn:?; zify_bool
  end.

Create HintDb cmem.
Create Rewrite HintDb cbits.

(** ** Regions: lemmas *)

Section region_lemmas.
Context {A : Type}.
Implicit Types (l k : list A) (i j n : Z).

Lemma zget_Some_range l i x : zget l i = Some x -> 0 <= i < zlen l.
Proof.
  unfold zget. destruct (Z.leb_spec 0 i); [|done].
  intros Hl%lookup_lt_Some. lia.
Qed.

Lemma zget_is_Some l i : 0 <= i < zlen l -> exists x, zget l i = Some x.
Proof.
  intros. unfold zget. zdecide. apply lookup_lt_is_Some. lia.
Qed.

Lemma zget_app_r l k i : zlen l <= i -> zget (l ++ k) i = zget k (i - zlen l).
Proof.
  intros. unfold zget. zdecide. rewrite lookup_app_r by lia. f_equal. lia.
Qed.

Lemma zget_app_l l k i : i < zlen l -> zget (l ++ k) i = zget l i.
Proof.
  intros. unfold zget. destruct (Z.leb_spec 0 i); [|done].
  apply lookup_app_l. lia.
Qed.

Lemma zget_Forall (P : A -> Prop) l i x : Forall P l -> zget l i = Some x -> P x.
Proof.
  intros HP Hx. pose proof (zget_Some_range _ _ _ Hx). unfold zget in Hx.
  destruct (Z.leb_spec 0 i); [|lia].
  by eapply Forall_lookup_1 in Hx.
Qed.

Lemma zset_Some l i x : 0 <= i < zlen l -> zset l i x = Some (<[Z.to_nat i := x]> l).
Proof. intros. unfold zset. by zdecide. Qed.

Lemma zset_inv l i x k :
  zset l i x = Some k -> 0 <= i < zlen l /\ k = <[Z.to_nat i := x]> l.
Proof.
  unfold zset. intros H. case_if_in H; [|done]. simplify_eq. auto.
Qed.

Lemma zset_length l i x k : zset l i x = Some k -> length k = length l.
Proof. intros [? ->]%zset_inv. apply length_insert. Qed.

Lemma zget_zset_eq l i x k : zset l i x = Some k -> zget k i = Some x.
Proof.
  intros [? ->]%zset_inv. unfold zget. zdecide.
  apply list_lookup_insert_eq. lia.
Qed.

Lemma zget_zset_ne l i j x k :
  zset l i x = Some k -> i <> j -> zget k j = zget l j.
Proof.
  intros [? ->]%zset_inv Hne. unfold zget. destruct (Z.leb_spec 0 j); [|done].
  apply list_lookup_insert_ne. lia.
Qed.

Lemma zset_Forall (P : A -> Prop) l i x k :
  Forall P l -> P x -> zset l i x = Some k -> Forall P k.
Proof. intros ?? [? ->]%zset_inv. by apply Forall_insert. Qed.

(** Setting one cell keeps the prefix before it and the suffix after it. *)
Lemma zset_split l i x k :
  zset l i x = Some k ->
  k = take (Z.to_nat i) l ++ x :: drop (S (Z.to_nat i)) l.
Proof. intros [? ->]%zset_inv. apply insert_take_drop. lia. Qed.

Lemma zslice_Some l i n :
  0 <= i -> 0 <= n -> i + n <= zlen l ->
  zslice l i n = Some (take (Z.to_nat n) (drop (Z.to_nat i) l)).
Proof. intros. unfold zslice. by zdecide. Qed.

Lemma zslice_inv l i n k :
  zslice l i n = Some k ->
  0 <= i /\ 0 <= n /\ i + n <= zlen l /\
  k = take (Z.to_nat n) (drop (Z.to_nat i) l).
Proof.
  unfold zslice. intros H. case_if_in H; [|done]. by simplify_eq.
Qed.

Lemma zslice_prefix l k : zslice (l ++ k) 0 (zlen l) = Some l.
Proof.
  rewrite zslice_Some by (rewrite ?length_app; lia).
  change (Z.to_nat 0) with 0%nat. by rewrite drop_0, Nat2Z.id, take_app_length.
Qed.

Lemma zslice_all l : zslice l 0 (zlen l) = Some l.
Proof. rewrite <- (app_nil_r l) at 1. apply zslice_prefix. Qed.

Lemma zblit_Some l i k :
  0 <= i -> i + zlen k <= zlen l ->
  zblit l i k = Some (take (Z.to_nat i) l ++ k ++ drop (Z.to_nat i + length k) l).
Proof. intros. unfold zblit. by zdecide. Qed.

Lemma zblit_inv l i k l' :
  zblit l i k = Some l' ->
  0 <= i /\ i + zlen k <= zlen l /\
  l' = take (Z.to_nat i) l ++ k ++ drop (Z.to_nat i + length k) l.
Proof. unfold zblit. intros H. case_if_in H; [|done]. by simplify_eq. Qed.

Lemma zblit_length l i k l' : zblit l i k = Some l' -> length l' = length l.
Proof.
  intros (? & ? & ->)%zblit_inv.
  rewrite !length_app, length_take, length_drop. lia.
Qed.

Lemma zblit_take l i k l' :
  zblit l i k = Some l' ->
  take (Z.to_nat i + length k) l' = take (Z.to_nat i) l ++ k.
Proof.
  intros (? & ? & ->)%zblit_inv. rewrite app_assoc, take_app_length'; [done|].
  rewrite length_app, length_take. lia.
Qed.

Lemma zblit_Forall (P : A -> Prop) l i k l' :
  Forall P l -> Forall P k -> zblit l i k = Some l' -> Forall P l'.
Proof.
  intros ?? (? & ? & ->)%zblit_inv.
  auto using Forall_app_2, Forall_take, Forall_drop.
Qed.
End region_lemmas.

#[export] Hint Resolve zset_length zblit_length zset_Forall zblit_Forall : cmem.

(** ** Integers and bits *)

Lemma ci_Some z : INT_MIN <= z <= INT_MAX -> ci z = Some z.
Proof. intros. unfold ci. by zdecide. Qed.

Lemma ci_inv z x : ci z = Some x -> x = z /\ INT_MIN <= z <= INT_MAX.
Proof. unfold ci. intros H. case_if_in H; by simplify_eq. Qed.

Lemma u8_byte z : is_byte (u8 z).
Proof. apply Z.mod_pos_bound. lia. Qed.

Lemma u8_id z : is_byte z -> u8 z = z.
Proof. intros. apply Z.mod_small. exact H. Qed.

Lemma u32_id z : 0 <= z < 2 ^ 32 -> u32 z = z.
Proof. apply Z.mod_small. Qed.

Lemma i32_id z : INT_MIN <= z <= INT_MAX -> i32 z = z.
Proof.
  unfold i32, INT_MIN, INT_MAX. intros. rewrite Z.mod_small; lia.
Qed.

Lemma land_255 z : Z.land z 255 = z mod 256.
Proof. exact (Z.land_ones z 8 ltac:(lia)). Qed.

Lemma land_127 z : Z.land z 127 = z mod 128.
Proof. exact (Z.land_ones z 7 ltac:(lia)). Qed.

Lemma land_15 z : Z.land z 15 = z mod 16.
Proof. exact (Z.land_ones z 4 ltac:(lia)). Qed.

Lemma land_byte z : is_byte (Z.land z 255).
Proof. rewrite land_255. apply Z.mod_pos_bound. lia. Qed.

(** Or-ing a value below [2 ^ n] into the space a shift by [n] freed. *)
Lemma lor_shiftl_add a b n :
  0 <= n -> 0 <= b < 2 ^ n -> Z.lor (Z.shiftl a n) b = a * 2 ^ n + b.
Proof.
  intros Hn Hb. rewrite <- Z.shiftl_mul_pow2 by lia. symmetry. apply Z.add_nocarry_lor.
  apply Z.bits_inj'. intros i Hi. rewrite Z.land_spec, Z.bits_0.
  destruct (Z.lt_ge_cases i n).
  - rewrite Z.shiftl_spec_low by lia. done.
  - rewrite <- (Z.mod_small b (2 ^ n)) by lia.
    rewrite Z.mod_pow2_bits_high by lia. apply andb_false_r.
Qed.

Lemma lor_add_shiftl a b n :
  0 <= n -> 0 <= b < 2 ^ n -> Z.lor b (Z.shiftl a n) = a * 2 ^ n + b.
Proof. intros. rewrite Z.lor_comm. by apply lor_shiftl_add. Qed.

Lemma mod_pow2_lor a b n :
  0 <= n -> Z.lor a b mod 2 ^ n = Z.lor (a mod 2 ^ n) (b mod 2 ^ n).
Proof. intros. rewrite <- !Z.land_ones by lia. apply Z.land_lor_distr_l. Qed.

Lemma u32_lor a b : u32 (Z.lor a b) = Z.lor (u32 a) (u32 b).
Proof. by apply mod_pow2_lor. Qed.

Lemma u32_i32 z : u32 (i32 z) = u32 z.
Proof.
  unfold u32, i32. rewrite Zminus_mod_idemp_l. f_equal. lia.
Qed.

(** Seven bits and a continuation flag. *)
Lemma lor_128 x : 0 <= x < 128 -> Z.lor x 128 = 128 + x.
Proof.
  intros. change 128 with (Z.shiftl 1 7). rewrite lor_add_shiftl by lia.
  change (Z.shiftl 1 7) with 128. lia.
Qed.

Lemma lor_byte a b : is_byte a -> is_byte b -> is_byte (Z.lor a b).
Proof.
  unfold is_byte. intros Ha Hb. split; [apply Z.lor_nonneg; lia|].
  destruct (decide (Z.lor a b = 0)) as [->|]; [lia|].
  assert (0 <= Z.lor a b) by (apply Z.lor_nonneg; lia).
  apply (Z.log2_lt_pow2 _ 8); [lia|]. rewrite Z.log2_lor by lia.
  apply Z.max_lub_lt.
  - destruct (decide (a = 0)) as [->|]; [done|]. apply Z.log2_lt_pow2; lia.
  - destruct (decide (b = 0)) as [->|]; [done|]. apply Z.log2_lt_pow2; lia.
Qed.

Lemma shiftr_byte a n : is_byte a -> 0 <= n -> is_byte (Z.shiftr a n).
Proof.
  unfold is_byte. intros. rewrite Z.shiftr_div_pow2 by lia.
  pose proof (Z.pow_pos_nonneg 2 n). split; [apply Z.div_pos; lia|].
  apply Z.div_lt_upper_bound; nia.
Qed.

#[export] Hint Resolve u8_byte land_byte lor_byte shiftr_byte : cmem.

#[export] Hint Rewrite land_255 land_127 land_15 : cbits.

(** A statement about every byte, decided by running it on the 256 values. *)
Lemma byte_cases (P : Z -> bool) :
  forallb P (seqZ 0 256) = true -> forall b, is_byte b -> P b = true.
Proof.
  intros H b Hb. eapply forallb_forall in H; [exact H|].
  apply list_elem_of_In, elem_of_seqZ. unfold is_byte in Hb. lia.
Qed.

(** ** Lists *)

Lemma zget_of_nat {A} (l : list A) n : zget l (Z.of_nat n) = l !! n.
Proof. unfold zget. zdecide. by rewrite Nat2Z.id. Qed.

Lemma zset_of_nat {A} (l : list A) n x :
  (n < length l)%nat -> zset l (Z.of_nat n) x = Some (<[n := x]> l).
Proof. intros. rewrite zset_Some by lia. by rewrite Nat2Z.id. Qed.

Lemma take_S_zget {A} (l : list A) i x :
  zget l i = Some x -> take (S (Z.to_nat i)) l = take (Z.to_nat i) l ++ [x].
Proof.
  intros H. pose proof (zget_Some_range _ _ _ H). unfold zget in H.
  destruct (Z.leb_spec 0 i); [|lia]. by apply take_S_r.
Qed.

Lemma drop_zget {A} (l : list A) i x :
  zget l i = Some x -> drop (Z.to_nat i) l = x :: drop (S (Z.to_nat i)) l.
Proof.
  intros H. pose proof (zget_Some_range _ _ _ H). unfold zget in H.
  destruct (Z.leb_spec 0 i); [|lia]. by apply drop_S.
Qed.

(** Strings as the source writes them: the byte values of the characters. *)

Definition chr (c : ascii) : Z := Z.of_N (N_of_ascii c).
Definition bytes_of_string (s : string) : list Z := chr <$> String.list_ascii_of_string s.
