(* ===== verification/CMem.v ===== *)
(** CMem: a block memory for the components whose buffers alias.

    A memory maps block identifiers to regions of bytes; a pointer is a block
    and an offset.  Reading or writing outside a live block is undefined
    behaviour ([None]).  The C library's allocator is an interface, [Allocator]:
    it may refuse, and the contents of a fresh region are arbitrary bytes. *)

From S2P Require Import Prelude.

Record ptr := mkptr { p_blk : positive; p_off : Z }.

#[export] Instance ptr_eq_dec : EqDecision ptr.
Proof. solve_decision. Defined.

Abbreviation mem := (gmap positive (list Z)).

(** What the program relies on of malloc(3) and calloc(3). *)
Class Allocator := {
  malloc_bytes : Z -> option (list Z);
  calloc_ok : bool;
  malloc_bytes_length n l :
    0 <= n -> malloc_bytes n = Some l -> zlen l = n;
  malloc_bytes_are n l :
    malloc_bytes n = Some l -> are_bytes l
}.

(** An allocator that never refuses and clears what it returns. *)
#[export] Program Instance zero_allocator : Allocator := {
  malloc_bytes n := Some (replicate (Z.to_nat n) 0);
  calloc_ok := true
}.
Next Obligation. intros n l Hn [= <-]. rewrite length_replicate. lia. Qed.
Next Obligation. intros n l [= <-]. apply Forall_replicate. unfold is_byte. lia. Qed.

(** An allocator that always refuses. *)
#[export] Program Instance null_allocator : Allocator | 10 := {
  malloc_bytes n := None;
  calloc_ok := false
}.
Solve Obligations with done.

Definition malloc `{Allocator} (m : mem) (n : Z) : option (ptr * mem) :=
  match malloc_bytes n with
  | Some l => let blk := fresh (dom m) in Some (mkptr blk 0, <[blk := l]> m)
  | None => None
  end.

Definition free (m : mem) (p : ptr) : option mem :=
  match m !! p_blk p with
  | Some _ => if p_off p =? 0 then Some (delete (p_blk p) m) else None
  | None => None
  end.

(** [p[i]]. *)
Definition load (m : mem) (p : ptr) (i : Z) : option Z :=
  l ← m !! p_blk p; zget l (p_off p + i).

(** [p[i] = x]. *)
Definition store (m : mem) (p : ptr) (i x : Z) : option mem :=
  l ← m !! p_blk p; l' ← zset l (p_off p + i) x; Some (<[p_blk p := l']> m).

(** The source side of [bcopy(p + i, _, n)]. *)
Definition loadbytes (m : mem) (p : ptr) (i n : Z) : option (list Z) :=
  l ← m !! p_blk p; zslice l (p_off p + i) n.

(** The destination side of [bcopy(_, p + i, n)]. *)
Definition storebytes (m : mem) (p : ptr) (i : Z) (src : list Z) : option mem :=
  l ← m !! p_blk p; l' ← zblit l (p_off p + i) src; Some (<[p_blk p := l']> m).

(** ** Lemmas *)

(** [p] gives access to [n] bytes. *)
Definition valid_ptr (m : mem) (p : ptr) (n : Z) : Prop :=
  exists l, m !! p_blk p = Some l /\ are_bytes l /\ 0 <= p_off p /\ p_off p + n <= zlen l.

Lemma valid_ptr_le m p n n' : n' <= n -> valid_ptr m p n -> valid_ptr m p n'.
Proof. intros ? (l & ? & ? & ? & ?). exists l. repeat split; auto; lia. Qed.

Lemma load_valid m p n i :
  valid_ptr m p n -> 0 <= i < n -> exists x, load m p i = Some x /\ is_byte x.
Proof.
  intros (l & Hl & Hb & ? & ?) Hi. unfold load. rewrite Hl; simpl.
  destruct (zget_is_Some l (p_off p + i)) as [x Hx]; [lia|].
  exists x. split; [done|]. by eapply zget_Forall.
Qed.

Lemma loadbytes_valid m p n i k :
  valid_ptr m p n -> 0 <= i -> 0 <= k -> i + k <= n ->
  exists d, loadbytes m p i k = Some d /\ zlen d = k /\ are_bytes d.
Proof.
  intros (l & Hl & Hb & ? & ?) ???. unfold loadbytes. rewrite Hl; simpl.
  rewrite zslice_Some by lia. eexists. split; [done|]. split.
  - rewrite length_take, length_drop. lia.
  - by apply Forall_take, Forall_drop.
Qed.

Lemma loadbytes_are m p n i k d :
  valid_ptr m p n -> loadbytes m p i k = Some d -> are_bytes d.
Proof.
  intros (l & Hl & Hb & ? & ?). unfold loadbytes. rewrite Hl; simpl.
  intros (? & ? & ? & ->)%zslice_inv. by apply Forall_take, Forall_drop.
Qed.

Lemma storebytes_valid m p n i d :
  valid_ptr m p n -> are_bytes d -> 0 <= i -> i + zlen d <= n ->
  exists m', storebytes m p i d = Some m' /\
    valid_ptr m' p n /\
    (forall b, b <> p_blk p -> m' !! b = m !! b).
Proof.
  intros (l & Hl & Hb & ? & ?) ???. unfold storebytes. rewrite Hl; simpl.
  destruct (zblit l (p_off p + i) d) as [l'|] eqn:E; simpl.
  2:{ rewrite zblit_Some in E by lia. done. }
  eexists. split; [done|]. split.
  - exists l'. split; [by rewrite lookup_insert_eq|].
    rewrite (zblit_length _ _ _ _ E). split; [|lia].
    eapply zblit_Forall; [apply Hb|done|exact E].
  - intros b Hne. by rewrite lookup_insert_ne.
Qed.

(** Writing at [i] leaves what was before it and adds the new bytes. *)
Lemma loadbytes_storebytes m p i d m' pre :
  0 <= i -> loadbytes m p 0 i = Some pre -> storebytes m p i d = Some m' ->
  loadbytes m' p 0 (i + zlen d) = Some (pre ++ d).
Proof.
  unfold loadbytes, storebytes. intros Hi.
  destruct (m !! p_blk p) as [l|]; simpl; [|done].
  intros (? & ? & ? & ->)%zslice_inv.
  destruct (zblit l (p_off p + i) d) as [l'|] eqn:E; simpl; [|done].
  intros [= <-]. rewrite lookup_insert_eq; simpl.
  pose proof (zblit_length _ _ _ _ E) as HL.
  pose proof (zblit_take _ _ _ _ E) as HT.
  apply zblit_inv in E as (? & ? & _).
  rewrite zslice_Some by lia. f_equal.
  rewrite Z.add_0_r, take_drop_commute.
  replace (Z.to_nat (p_off p) + Z.to_nat (i + zlen d))%nat
    with (Z.to_nat (p_off p + i) + length d)%nat by lia.
  rewrite HT, drop_app_le by (rewrite length_take; lia).
  rewrite Z2Nat.inj_add by lia. by rewrite <- take_drop_commute.
Qed.

(** Overwriting inside the data keeps its length and replaces the window. *)
Lemma loadbytes_storebytes_mid m p n d0 i d m' :
  loadbytes m p 0 n = Some d0 -> 0 <= i -> i + zlen d <= n ->
  storebytes m p i d = Some m' ->
  loadbytes m' p 0 n =
    Some (take (Z.to_nat i) d0 ++ d ++ drop (Z.to_nat i + length d) d0).
Proof.
  unfold loadbytes, storebytes.
  destruct (m !! p_blk p) as [l|]; simpl; [|done].
  intros (? & ? & ? & ->)%zslice_inv ??.
  destruct (zblit l (p_off p + i) d) as [l'|] eqn:E; simpl; [|done].
  intros [= <-]. rewrite lookup_insert_eq; simpl.
  pose proof (zblit_length _ _ _ _ E) as HL.
  apply zblit_inv in E as (? & ? & ->).
  rewrite zslice_Some by lia. f_equal. rewrite Z.add_0_r.
  rewrite drop_app_le by (rewrite length_take; lia).
  rewrite Z2Nat.inj_add by lia.
  rewrite <- (take_drop_commute l (Z.to_nat i) (Z.to_nat (p_off p))).
  set (o := Z.to_nat (p_off p)). set (j := Z.to_nat i).
  rewrite take_app_ge by (rewrite length_take, length_drop; lia).
  rewrite length_take, length_drop.
  rewrite take_app_ge by lia.
  rewrite take_take, Nat.min_l by lia. do 2 f_equal.
  { lia. }
  rewrite (skipn_firstn_comm (j + length d)), drop_drop.
  f_equal; [lia|]. f_equal. lia.
Qed.

Lemma loadbytes_load m p n i d :
  loadbytes m p 0 n = Some d -> 0 <= i < n -> load m p i = zget d i.
Proof.
  unfold loadbytes, load. destruct (m !! p_blk p) as [l|]; simpl; [|done].
  intros (? & ? & ? & ->)%zslice_inv Hi. unfold zget. zdecide.
  rewrite lookup_take_lt by lia. rewrite lookup_drop. f_equal. lia.
Qed.

Lemma loadbytes_sub m p n i k d :
  loadbytes m p 0 n = Some d -> 0 <= i -> 0 <= k -> i + k <= n ->
  loadbytes m p i k = zslice d i k.
Proof.
  unfold loadbytes. destruct (m !! p_blk p) as [l|]; simpl; [|done].
  intros (? & ? & ? & ->)%zslice_inv ???.
  rewrite !zslice_Some by (rewrite ?length_take, ?length_drop; lia).
  f_equal. rewrite skipn_firstn_comm, take_take, drop_drop. f_equal; [lia|].
  f_equal. lia.
Qed.

Lemma malloc_fresh `{Allocator} m n p m' :
  0 <= n -> malloc m n = Some (p, m') ->
  m !! p_blk p = None /\ p_off p = 0 /\ valid_ptr m' p n /\
  (forall b l, m !! b = Some l -> m' !! b = Some l).
Proof.
  unfold malloc. intros Hn. destruct (malloc_bytes n) as [l|] eqn:E; [|done].
  intros [= <- <-]. simpl.
  assert (Hf : m !! fresh (dom m) = None)
    by (apply not_elem_of_dom, is_fresh).
  split_and!; auto.
  - exists l. rewrite lookup_insert_eq. split_and!; simpl; auto.
    + by eapply malloc_bytes_are.
    + lia.
    + apply malloc_bytes_length in E; [lia|done].
  - intros b l' Hb. rewrite lookup_insert_ne; [done|]. congruence.
Qed.

#[export] Hint Resolve valid_ptr_le : cmem.
