(* ===== verification/OverlayBuffer.v ===== *)
(** OverlayBuffer: overlay_buffer.c, the byte buffers every packet is built in
    and parsed from.

    A [struct overlay_buffer] is a record over the block memory of [CMem]: its
    [bytes] pointer may be NULL, point into memory of its own ([allocated]), or
    alias memory of somebody else ([ob_static], [ob_slice]).  Every operation
    passes the memory explicitly and returns the C return value, the updated
    struct and the updated memory; [None] is undefined behaviour (an access
    outside a live block or a signed overflow). *)

From S2P Require Import Prelude CMem.

Record overlay_buffer := mk_ob {
  bytes : option ptr;
  checkpointLength : Z;
  position : Z;
  sizeLimit : Z;
  allocSize : Z;
  allocated : option ptr;
  var_length_offset : Z
}.

Definition ob_zero : overlay_buffer := mk_ob None 0 0 0 0 None 0.

Definition set_checkpointLength (b : overlay_buffer) (x : Z) : overlay_buffer :=
  mk_ob (bytes b) x (position b) (sizeLimit b) (allocSize b) (allocated b) (var_length_offset b).
Definition set_position (b : overlay_buffer) (x : Z) : overlay_buffer :=
  mk_ob (bytes b) (checkpointLength b) x (sizeLimit b) (allocSize b) (allocated b) (var_length_offset b).
Definition set_sizeLimit (b : overlay_buffer) (x : Z) : overlay_buffer :=
  mk_ob (bytes b) (checkpointLength b) (position b) x (allocSize b) (allocated b) (var_length_offset b).
Definition set_var_length_offset (b : overlay_buffer) (x : Z) : overlay_buffer :=
  mk_ob (bytes b) (checkpointLength b) (position b) (sizeLimit b) (allocSize b) (allocated b) x.
Definition set_memory (b : overlay_buffer) (p a : option ptr) (n : Z) : overlay_buffer :=
  mk_ob p (checkpointLength b) (position b) (sizeLimit b) n a (var_length_offset b).

(** [n] bytes from offset [i] of a possibly NULL pointer. *)
Definition bytes_at (m : mem) (p : option ptr) (i n : Z) : option (list Z) :=
  match p with
  | Some q => loadbytes m q i n
  | None => if n =? 0 then Some [] else None
  end.

Definition set_at (m : mem) (p : option ptr) (i : Z) (d : list Z) : option mem :=
  match p with
  | Some q => storebytes m q i d
  | None => if zlen d =? 0 then Some m else None
  end.

(** [e << n] on an [int] operand. *)
Definition ishl (e n : Z) : option Z :=
  if (0 <=? n) && (n <? 32) then Some (i32 (Z.shiftl e n)) else None.

(** ** Construction *)

Definition ob_unlimitsize (b : option overlay_buffer) : Z * option overlay_buffer :=
  match b with
  | None => (-1, None)
  | Some b => (0, Some (set_sizeLimit b (-1)))
  end.

Definition ob_new `{Allocator} : option overlay_buffer :=
  if calloc_ok then snd (ob_unlimitsize (Some ob_zero)) else None.

Definition ob_static `{Allocator} (p : ptr) (size : Z) : option overlay_buffer :=
  if calloc_ok then
    snd (ob_unlimitsize (Some (set_memory ob_zero (Some p) None size)))
  else None.

(** The outer option is undefined behaviour, the inner one the NULL result. *)
Definition ob_slice `{Allocator} (b : overlay_buffer) (offset length : Z)
    : option (option overlay_buffer) :=
  e ← ci (offset + length);
  if allocSize b <? e then Some None
  else if calloc_ok then
    match bytes b with
    | Some p =>
        Some (snd (ob_unlimitsize (Some
          (set_memory ob_zero (Some (mkptr (p_blk p) (p_off p + offset))) None length))))
    | None =>
        Some (snd (ob_unlimitsize (Some (set_memory ob_zero None None length))))
    end
  else Some None.

Definition ob_checkpoint (b : option overlay_buffer) : Z * option overlay_buffer :=
  match b with
  | None => (-1, None)
  | Some b => (0, Some (set_checkpointLength b (position b)))
  end.

Definition ob_rewind (b : option overlay_buffer) : Z * option overlay_buffer :=
  match b with
  | None => (-1, None)
  | Some b => (0, Some (set_position b (checkpointLength b)))
  end.

Definition ob_limitsize (b : option overlay_buffer) (n : Z) : Z * option overlay_buffer :=
  match b with
  | None => (-1, None)
  | Some b =>
      if n <? position b then (-1, Some b)
      else if n <? checkpointLength b then (-1, Some b)
      else if bool_decide (is_Some (bytes b)) && negb (bool_decide (is_Some (allocated b)))
              && (allocSize b <? n) then (-1, Some b)
      else if n <? 0 then (-1, Some b)
      else (0, Some (set_sizeLimit b n))
  end.

(** Frees the owned memory and the struct itself. *)
Definition ob_free (b : option overlay_buffer) (m : mem) : option (Z * mem) :=
  match b with
  | None => Some (-1, m)
  | Some b =>
      match bytes b, allocated b with
      | Some _, Some a => m' ← free m a; Some (0, m')
      | _, _ => Some (0, m)
      end
  end.

(** ** Growth *)

Definition round_up_int (n k : Z) : option Z :=
  if Z.land n (k - 1) =? 0 then Some n else ci (n + (k - Z.land n (k - 1))).

(** The size to allocate for [need] bytes. *)
Definition ob_newSize (need : Z) : option Z :=
  let n0 := if need <? 64 then 64 else need in
  n1 ← round_up_int n0 64;
  n2 ← (if 1024 <? n1 then round_up_int n1 1024 else Some n1);
  if 65536 <? n2 then round_up_int n2 65536 else Some n2.

Definition ob_makespace `{Allocator} (b : overlay_buffer) (m : mem) (n : Z)
    : option (Z * overlay_buffer * mem) :=
  need ← ci (position b + n);
  if negb (sizeLimit b =? -1) && (sizeLimit b <? need) then Some (-1, b, m)
  else if need <=? allocSize b then Some (0, b, m)
  else if bool_decide (is_Some (bytes b)) && negb (bool_decide (is_Some (allocated b)))
  then Some (-1, b, m)
  else
    newSize ← ob_newSize need;
    (* the result of malloc is not checked *)
    let '(new, m1) := match malloc m newSize with
                      | Some (p, m1) => (Some p, m1)
                      | None => (None, m)
                      end in
    old ← bytes_at m1 (bytes b) 0 (position b);
    m2 ← set_at m1 new 0 old;
    m3 ← (match allocated b with Some a => free m2 a | None => Some m2 end);
    Some (0, set_memory b new new newSize, m3).

(** ** Appending *)

(** Make room for [count] bytes, copy them from what [rd] reads, advance. *)
Definition ob_append_from `{Allocator} (b : overlay_buffer) (m : mem)
    (rd : mem -> option (list Z)) (count : Z) : option (Z * overlay_buffer * mem) :=
  '(r, b1, m1) ← ob_makespace b m count;
  if negb (r =? 0) then Some (-1, b1, m1)
  else
    d ← rd m1;
    m2 ← set_at m1 (bytes b1) (position b1) d;
    p ← ci (position b1 + count);
    Some (0, set_position b1 p, m2).

(** The array [src] is memory outside the block memory. *)
Definition ob_append_bytes `{Allocator} (b : overlay_buffer) (m : mem)
    (src : list Z) (count : Z) : option (Z * overlay_buffer * mem) :=
  ob_append_from b m (fun _ => zslice src 0 count) count.

Definition ob_append_byte `{Allocator} (b : overlay_buffer) (m : mem) (byte : Z)
    : option (Z * overlay_buffer * mem) :=
  ob_append_from b m (fun _ => Some [u8 byte]) 1.

Definition ob_append_buffer `{Allocator} (b : overlay_buffer) (m : mem) (s : overlay_buffer)
    : option (Z * overlay_buffer * mem) :=
  ob_append_from b m (fun m' => bytes_at m' (bytes s) 0 (position s)) (position s).

(** Returns the address of the reserved space, NULL on failure. *)
Definition ob_append_space `{Allocator} (b : overlay_buffer) (m : mem) (count : Z)
    : option (option ptr * overlay_buffer * mem) :=
  '(r, b1, m1) ← ob_makespace b m count;
  if negb (r =? 0) then Some (None, b1, m1)
  else
    p ← ci (position b1 + count);
    Some ((fun q => mkptr (p_blk q) (p_off q + position b1)) <$> bytes b1,
          set_position b1 p, m1).

Definition be16 (v : Z) : list Z := [Z.land (Z.shiftr v 8) 255; Z.land v 255].
Definition be32 (v : Z) : list Z :=
  [Z.land (Z.shiftr v 24) 255; Z.land (Z.shiftr v 16) 255;
   Z.land (Z.shiftr v 8) 255; Z.land v 255].
Definition be64 (v : Z) : list Z :=
  [Z.land (Z.shiftr v 56) 255; Z.land (Z.shiftr v 48) 255;
   Z.land (Z.shiftr v 40) 255; Z.land (Z.shiftr v 32) 255;
   Z.land (Z.shiftr v 24) 255; Z.land (Z.shiftr v 16) 255;
   Z.land (Z.shiftr v 8) 255; Z.land v 255].

Definition ob_append_ui16 `{Allocator} (b : overlay_buffer) (m : mem) (v : Z)
    : option (Z * overlay_buffer * mem) :=
  ob_append_from b m (fun _ => Some (be16 (u16 v))) 2.
Definition ob_append_ui32 `{Allocator} (b : overlay_buffer) (m : mem) (v : Z)
    : option (Z * overlay_buffer * mem) :=
  ob_append_from b m (fun _ => Some (be32 (u32 v))) 4.
Definition ob_append_ui64 `{Allocator} (b : overlay_buffer) (m : mem) (v : Z)
    : option (Z * overlay_buffer * mem) :=
  ob_append_from b m (fun _ => Some (be64 (u64 v))) 8.

(** The do-while loop of the packed encoders; every pass shifts seven bits out
    of an unsigned value, so ten passes exhaust 64 bits. *)
Fixpoint append_packed `{Allocator} (fuel : nat) (b : overlay_buffer) (m : mem) (v : Z)
    : option (Z * overlay_buffer * mem) :=
  match fuel with
  | O => None
  | S fuel =>
      '(r, b1, m1) ← ob_append_byte b m
         (Z.lor (Z.land v 127) (if 127 <? v then 128 else 0));
      if negb (r =? 0) then Some (-1, b1, m1)
      else
        let v := Z.shiftr v 7 in
        if v =? 0 then Some (0, b1, m1) else append_packed fuel b1 m1 v
  end.

Definition ob_append_packed_ui32 `{Allocator} (b : overlay_buffer) (m : mem) (v : Z)
    : option (Z * overlay_buffer * mem) :=
  append_packed 10 b m (u32 v).
Definition ob_append_packed_ui64 `{Allocator} (b : overlay_buffer) (m : mem) (v : Z)
    : option (Z * overlay_buffer * mem) :=
  append_packed 10 b m (u64 v).

Definition ob_append_rfs `{Allocator} (b : overlay_buffer) (m : mem) (l : Z)
    : option (Z * overlay_buffer * mem) :=
  if (l <? 0) || (65535 <? l) then Some (-1, b, m)
  else ob_append_ui16 (set_var_length_offset b (position b)) m l.

(** Copying constructor; the result of calloc is not checked. *)
Definition ob_dup `{Allocator} (b : overlay_buffer) (m : mem)
    : option (overlay_buffer * mem) :=
  if calloc_ok then
    let ret := set_checkpointLength
                 (set_position (set_sizeLimit ob_zero (sizeLimit b)) (position b))
                 (checkpointLength b) in
    if bool_decide (is_Some (bytes b)) && negb (allocSize b =? 0) then
      let n := sizeLimit b in
      let n := if n <? position b then position b else n in
      let n := if allocSize b <? n then allocSize b else n in
      '(_, ret, m) ← ob_append_from ret m (fun m' => bytes_at m' (bytes b) 0 n) n;
      Some (ret, m)
    else Some (ret, m)
  else None.

(** ** Reading and writing inside the limits *)

Definition test_offset (b : option overlay_buffer) (start length : Z) : option Z :=
  match b with
  | None => Some (-1)
  | Some b =>
      if start <? 0 then Some (-1)
      else
        e ← ci (start + length);
        if (0 <=? sizeLimit b) && (sizeLimit b <? e) then Some (-1)
        else if allocSize b <? e then Some (-1)
        else Some 0
  end.

Definition ob_getbyte (b : overlay_buffer) (m : mem) (ofs : Z) : option Z :=
  t ← test_offset (Some b) ofs 1;
  if negb (t =? 0) then Some (-1)
  else p ← bytes b; load m p ofs.

(** [Some d]: returned 0 with [d] copied to the caller's array. *)
Definition ob_get_bytes (b : overlay_buffer) (m : mem) (n : Z)
    : option (option (list Z) * overlay_buffer) :=
  t ← test_offset (Some b) (position b) n;
  if negb (t =? 0) then Some (None, b)
  else
    d ← bytes_at m (bytes b) (position b) n;
    Some (Some d, set_position b (position b + n)).

Definition ob_get_bytes_ptr (b : overlay_buffer) (n : Z)
    : option (option ptr * overlay_buffer) :=
  t ← test_offset (Some b) (position b) n;
  if negb (t =? 0) then Some (None, b)
  else
    Some ((fun q => mkptr (p_blk q) (p_off q + position b)) <$> bytes b,
          set_position b (position b + n)).

(** The four bytes as the C expression computes them: every operand of the or
    is an [int], the result is converted to the return type. *)
Definition ob_get_ui32 (b : overlay_buffer) (m : mem) : option (Z * overlay_buffer) :=
  t ← test_offset (Some b) (position b) 4;
  if negb (t =? 0) then Some (4294967295, b)
  else
    p ← bytes b;
    b0 ← load m p (position b); b1 ← load m p (position b + 1);
    b2 ← load m p (position b + 2); b3 ← load m p (position b + 3);
    Some (u32 (Z.lor (Z.lor (Z.lor (i32 (Z.shiftl b0 24)) (i32 (Z.shiftl b1 16)))
                            (i32 (Z.shiftl b2 8))) b3),
          set_position b (position b + 4)).

Definition ob_get_ui64 (b : overlay_buffer) (m : mem) : option (Z * overlay_buffer) :=
  t ← test_offset (Some b) (position b) 8;
  if negb (t =? 0) then Some (4294967295, b)
  else
    d ← bytes_at m (bytes b) (position b) 8;
    match d with
    | [b0; b1; b2; b3; b4; b5; b6; b7] =>
        Some (fold_left Z.lor
                [u64 (Z.shiftl b1 48); u64 (Z.shiftl b2 40); u64 (Z.shiftl b3 36);
                 u64 (i32 (Z.shiftl b4 24)); u64 (i32 (Z.shiftl b5 16));
                 u64 (i32 (Z.shiftl b6 8)); b7]
                (u64 (Z.shiftl b0 56)),
              set_position b (position b + 8))
    | _ => None
    end.

Definition ob_get_ui16 (b : overlay_buffer) (m : mem) : option (Z * overlay_buffer) :=
  t ← test_offset (Some b) (position b) 2;
  if negb (t =? 0) then Some (65535, b)
  else
    p ← bytes b;
    b0 ← load m p (position b); b1 ← load m p (position b + 1);
    Some (u16 (Z.lor (Z.shiftl b0 8) b1), set_position b (position b + 2)).

Definition ob_get (b : overlay_buffer) (m : mem) : option (Z * overlay_buffer) :=
  t ← test_offset (Some b) (position b) 1;
  if negb (t =? 0) then Some (-1, b)
  else
    p ← bytes b; x ← load m p (position b);
    Some (x, set_position b (position b + 1)).

(** The loop of the packed decoders; [wrap] converts to the accumulator's type.
    The sixth pass shifts an [int] by 35, which is undefined, so six passes
    are all there can be. *)
Fixpoint get_packed (wrap : Z -> Z) (fuel : nat) (b : overlay_buffer) (m : mem)
    (ret shift : Z) : option (Z * overlay_buffer) :=
  match fuel with
  | O => None
  | S fuel =>
      '(byte, b1) ← ob_get b m;
      if byte <? 0 then Some (wrap (-1), b1)
      else
        s ← ishl (Z.land byte 127) shift;
        let ret := Z.lor ret (wrap s) in
        if Z.land byte 128 =? 0 then Some (ret, b1)
        else get_packed wrap fuel b1 m ret (shift + 7)
  end.

Definition ob_get_packed_ui32 (b : overlay_buffer) (m : mem) : option (Z * overlay_buffer) :=
  get_packed u32 6 b m 0 0.
Definition ob_get_packed_ui64 (b : overlay_buffer) (m : mem) : option (Z * overlay_buffer) :=
  get_packed u64 6 b m 0 0.

Definition ob_set_ui16 (b : overlay_buffer) (m : mem) (offset v : Z) : option (Z * mem) :=
  t ← test_offset (Some b) offset 2;
  if negb (t =? 0) then Some (-1, m)
  else m' ← set_at m (bytes b) offset (be16 (u16 v)); Some (0, m').

Definition ob_set (b : overlay_buffer) (m : mem) (ofs byte : Z) : option (Z * mem) :=
  t ← test_offset (Some b) ofs 1;
  if negb (t =? 0) then Some (-1, m)
  else m' ← set_at m (bytes b) ofs [u8 byte]; Some (0, m').

Definition ob_patch_rfs (b : overlay_buffer) (m : mem) : option (Z * mem) :=
  e ← ci (var_length_offset b + 2);
  l ← ci (position b - e);
  ob_set_ui16 b m (var_length_offset b) l.

Definition ob_position (b : overlay_buffer) : Z := position b.
Definition ob_limit (b : overlay_buffer) : Z := sizeLimit b.
Definition ob_remaining (b : overlay_buffer) : option Z := ci (sizeLimit b - position b).
Definition ob_ptr (b : overlay_buffer) : option ptr := bytes b.

Definition asprintable (c : Z) : Z :=
  if c <? 32 then 46 else if 126 <? c then 46 else c.

(** ** Invariant *)

(** No allocation request is ever refused. *)
Definition never_refuses `{Allocator} : Prop := forall n, is_Some (malloc_bytes n).

(** The bound under which no [int] of [ob_makespace] overflows. *)
Definition OB_MAX : Z := 2 ^ 30.

Record ob_wf (m : mem) (b : overlay_buffer) : Prop := {
  wf_position : 0 <= position b <= allocSize b;
  wf_checkpoint : 0 <= checkpointLength b <= allocSize b;
  wf_allocSize : allocSize b <= INT_MAX;
  wf_limit : sizeLimit b = -1 \/
    (position b <= sizeLimit b <= INT_MAX /\ checkpointLength b <= sizeLimit b);
  wf_bytes : match bytes b with
             | Some p => valid_ptr m p (allocSize b)
             | None => allocSize b = 0
             end;
  wf_owned : forall a, allocated b = Some a -> bytes b = Some a /\ p_off a = 0
}.

(** The bytes written so far. *)
Definition ob_data (m : mem) (b : overlay_buffer) : option (list Z) :=
  bytes_at m (bytes b) 0 (position b).

(** Where reading has to stop, and the bytes still to be read. *)
Definition ob_read_end (b : overlay_buffer) : Z :=
  if 0 <=? sizeLimit b then Z.min (sizeLimit b) (allocSize b) else allocSize b.
Definition ob_rest (m : mem) (b : overlay_buffer) : option (list Z) :=
  bytes_at m (bytes b) (position b) (ob_read_end b - position b).

(** A buffer over memory of somebody else cannot grow. *)
Definition ob_is_static (b : overlay_buffer) : bool :=
  bool_decide (is_Some (bytes b)) && negb (bool_decide (is_Some (allocated b))).

(** ** The abstract buffer: a byte sequence with an optional size limit and an
    optional capacity. *)

Record abuf := mk_abuf { a_data : list Z; a_limit : option Z; a_cap : option Z }.

Definition fits (o : option Z) (n : Z) : bool :=
  match o with None => true | Some k => n <=? k end.

Definition abuf_append (a : abuf) (d : list Z) : option abuf :=
  if fits (a_limit a) (zlen (a_data a ++ d)) && fits (a_cap a) (zlen (a_data a ++ d))
  then Some (mk_abuf (a_data a ++ d) (a_limit a) (a_cap a)) else None.

Record ob_abs (m : mem) (b : overlay_buffer) (a : abuf) : Prop := {
  abs_wf : ob_wf m b;
  abs_data : ob_data m b = Some (a_data a);
  abs_limit : a_limit a = if sizeLimit b =? -1 then None else Some (sizeLimit b);
  abs_cap : a_cap a = if ob_is_static b then Some (allocSize b) else None
}.

(** ** Growth *)

Lemma round_up_int_spec n k :
  k = 64 \/ k = 1024 \/ k = 65536 -> 0 <= n -> n + k <= INT_MAX ->
  exists r, round_up_int n k = Some r /\ n <= r < n + k /\ r mod k = 0.
Proof.
  intros Hk Hn HM. unfold round_up_int.
  assert (Hl : Z.land n (k - 1) = n mod k).
  { destruct Hk as [-> | [-> | ->]].
    - exact (Z.land_ones n 6 ltac:(lia)).
    - exact (Z.land_ones n 10 ltac:(lia)).
    - exact (Z.land_ones n 16 ltac:(lia)). }
  rewrite Hl. pose proof (Z.mod_pos_bound n k ltac:(lia)).
  destruct (Z.eqb_spec (n mod k) 0).
  - exists n. split; [done|]. lia.
  - rewrite ci_Some by (unfold INT_MIN, INT_MAX in *; lia).
    eexists. split; [done|]. split; [lia|].
    replace (n + (k - n mod k)) with ((n / k + 1) * k)
      by (pose proof (Z.div_mod n k ltac:(lia)); lia).
    apply Z.mod_mul. lia.
Qed.

Lemma ob_newSize_spec need :
  0 <= need <= OB_MAX ->
  exists n, ob_newSize need = Some n /\ need <= n <= INT_MAX /\ 64 <= n /\ n mod 64 = 0.
Proof.
  unfold OB_MAX. intros Hn. unfold ob_newSize.
  set (n0 := if need <? 64 then 64 else need).
  assert (need <= n0 /\ 64 <= n0 <= 2 ^ 30) as [? ?]
    by (unfold n0; destruct (Z.ltb_spec need 64); lia).
  destruct (round_up_int_spec n0 64) as (n1 & -> & ? & Hm1);
    [auto|lia|unfold INT_MAX; lia|]. simpl.
  assert (exists n2, (if 1024 <? n1 then round_up_int n1 1024 else Some n1) = Some n2
            /\ n1 <= n2 < n1 + 1024 /\ n2 mod 64 = 0) as (n2 & -> & ? & ?).
  { destruct (1024 <? n1); [|eexists; split; [done|]; lia].
    destruct (round_up_int_spec n1 1024) as (r & -> & ? & Hr);
      [auto|lia|unfold INT_MAX; lia|].
    exists r. split_and!; try done; try lia.
    apply Z.mod_divide in Hr as [q ->]; [|lia].
    replace (q * 1024) with (q * 16 * 64) by lia. apply Z.mod_mul. lia. }
  simpl. destruct (65536 <? n2); [|eexists; split; [done|]; unfold INT_MAX; lia].
  destruct (round_up_int_spec n2 65536) as (r & -> & ? & Hr);
    [auto|lia|unfold INT_MAX; lia|].
  exists r. split_and!; try done; try (unfold INT_MAX; lia).
  apply Z.mod_divide in Hr as [q ->]; [|lia].
  replace (q * 65536) with (q * 1024 * 64) by lia. apply Z.mod_mul. lia.
Qed.

(** Whether an append of [n] bytes is granted. *)
Definition ob_room (b : overlay_buffer) (n : Z) : bool :=
  ((sizeLimit b =? -1) || (position b + n <=? sizeLimit b)) &&
  ((position b + n <=? allocSize b) || negb (ob_is_static b)).

(** What a successful [ob_makespace] leaves behind. *)
Record made_space (b b' : overlay_buffer) (m m' : mem) (n : Z) : Prop := {
  ms_wf : ob_wf m' b';
  ms_room : position b + n <= allocSize b';
  ms_position : position b' = position b;
  ms_checkpoint : checkpointLength b' = checkpointLength b;
  ms_limit : sizeLimit b' = sizeLimit b;
  ms_static : ob_is_static b' = ob_is_static b;
  ms_cap : ob_is_static b = true -> allocSize b' = allocSize b;
  ms_vlo : var_length_offset b' = var_length_offset b;
  ms_data : ob_data m' b' = ob_data m b;
  ms_frame : forall k l, m !! k = Some l ->
    (forall a, allocated b = Some a -> k <> p_blk a) -> m' !! k = Some l;
  ms_bytes : bytes b' = bytes b \/ exists p, bytes b' = Some p /\ m !! p_blk p = None
}.

Lemma ob_wf_data m b : ob_wf m b ->
  exists d, ob_data m b = Some d /\ zlen d = position b /\ are_bytes d.
Proof.
  intros W. unfold ob_data, bytes_at. pose proof (wf_position _ _ W).
  pose proof (wf_bytes _ _ W) as Hb. destruct (bytes b) as [p|].
  - eapply loadbytes_valid; [exact Hb|lia..].
  - exists []. rewrite (proj2 (Z.eqb_eq _ _)) by lia. split; [done|].
    split; [simpl; lia|constructor].
Qed.

Lemma made_space_refl b m n :
  ob_wf m b -> position b + n <= allocSize b -> made_space b b m m n.
Proof. intros. constructor; auto. Qed.

(** The growth path: allocate, copy, release the old block. *)
Lemma ob_grow_spec `{Allocator} b m n newSize :
  never_refuses -> ob_wf m b -> ob_is_static b = false ->
  0 <= n -> allocSize b <= newSize <= INT_MAX -> position b + n <= newSize ->
  exists new m1 old m2 m3,
    malloc m newSize = Some (new, m1) /\
    bytes_at m1 (bytes b) 0 (position b) = Some old /\
    set_at m1 (Some new) 0 old = Some m2 /\
    match allocated b with Some a => free m2 a | None => Some m2 end = Some m3 /\
    made_space b (set_memory b (Some new) (Some new) newSize) m m3 n.
Proof.
  intros HA W Hst ? ? ?. destruct (ob_wf_data _ _ W) as (d & Hd & Hdl & Hdb).
  pose proof (wf_position _ _ W). pose proof (wf_checkpoint _ _ W).
  pose proof (wf_limit _ _ W).
  destruct (malloc m newSize) as [[new m1]|] eqn:Em.
  2:{ unfold malloc in Em. destruct (HA newSize) as [l Hl]. by rewrite Hl in Em. }
  destruct (malloc_fresh m newSize new m1 ltac:(lia) Em) as (Hfresh & Hoff & Hv & Hkeep).
  assert (Hold : bytes_at m1 (bytes b) 0 (position b) = Some d).
  { rewrite <- Hd. unfold ob_data, bytes_at. pose proof (wf_bytes _ _ W) as Hb.
    destruct (bytes b) as [p|]; [|done]. destruct Hb as (l & Hl & _).
    unfold loadbytes. by rewrite Hl, (Hkeep _ _ Hl). }
  destruct (storebytes_valid m1 new newSize 0 d Hv Hdb ltac:(lia) ltac:(lia))
    as (m2 & Hm2 & Hv2 & Hf2).
  exists new, m1, d, m2,
    (match allocated b with Some a => delete (p_blk a) m2 | None => m2 end).
  assert (Hne : forall a, allocated b = Some a -> p_blk a <> p_blk new /\ p_off a = 0
                  /\ is_Some (m2 !! p_blk a)).
  { intros a Ha. destruct (wf_owned _ _ W a Ha) as [Hba Hoa].
    pose proof (wf_bytes _ _ W) as Hb. rewrite Hba in Hb.
    destruct Hb as (l & Hl & _). assert (p_blk a <> p_blk new) by congruence.
    split_and!; auto. rewrite Hf2 by done. rewrite (Hkeep _ _ Hl). eauto. }
  assert (Hdata2 : loadbytes m2 new 0 (position b) = Some d).
  { rewrite <- Hdl. replace (zlen d) with (0 + zlen d) by lia.
    rewrite (loadbytes_storebytes m1 new 0 d m2 []); [done|lia| |exact Hm2].
    destruct Hv as (l & Hl & ? & ? & ?). unfold loadbytes. rewrite Hl; simpl.
    by rewrite zslice_Some by lia. }
  split_and!; auto.
  - destruct (allocated b) as [a|] eqn:Ea; [|done].
    destruct (Hne a eq_refl) as (_ & Ho & l & Hl).
    unfold free. rewrite Hl, Ho. done.
  - assert (Hkeep3 : forall k l, (forall a, allocated b = Some a -> k <> p_blk a) ->
      m2 !! k = Some l ->
      match allocated b with Some a => delete (p_blk a) m2 | None => m2 end !! k = Some l).
    { intros k l Hk Hl. destruct (allocated b) as [a|]; [|done].
      rewrite lookup_delete_ne; [done|]. intros E. by eapply (Hk a). }
    destruct Hv2 as (l2 & Hl2 & Hlb & Hlo & Hlen).
    assert (Hnew : match allocated b with Some a => delete (p_blk a) m2 | None => m2 end
               !! p_blk new = Some l2).
    { apply Hkeep3; [|done]. intros a Ha E. destruct (Hne a Ha) as [Hx _]. congruence. }
    constructor; simpl; auto.
    + constructor; simpl; auto; try lia.
      * exists l2. auto.
      * intros a [= <-]. auto.
    + by rewrite Hst.
    + unfold ob_data; simpl. rewrite <- Hd in Hdata2.
      unfold loadbytes in *. rewrite Hnew. by rewrite Hl2 in Hdata2.
    + intros k l Hk Hka. apply Hkeep3; [done|].
      rewrite Hf2 by congruence. by apply Hkeep.
    + right. exists new. auto.
Qed.

Lemma ob_makespace_spec `{Allocator} b m n :
  never_refuses -> ob_wf m b -> 0 <= n -> position b + n <= OB_MAX ->
  if ob_room b n
  then exists b' m', ob_makespace b m n = Some (0, b', m') /\ made_space b b' m m' n
  else ob_makespace b m n = Some (-1, b, m).
Proof.
  intros HA W Hn HM. pose proof (wf_position _ _ W). pose proof (wf_limit _ _ W).
  unfold ob_room, ob_makespace.
  rewrite ci_Some by (unfold INT_MIN, INT_MAX, OB_MAX in *; lia). simpl.
  destruct (Z.eqb_spec (sizeLimit b) (-1)) as [E|E]; simpl.
  2: destruct (Z.leb_spec (position b + n) (sizeLimit b)); simpl; zdecide; [|done].
  all: destruct (Z.leb_spec (position b + n) (allocSize b)); simpl;
    [exists b, m; split; [done|by apply made_space_refl]|].
  all: fold (ob_is_static b); destruct (ob_is_static b) eqn:Hst; simpl; [done|].
  all: destruct (ob_newSize_spec (position b + n) ltac:(lia)) as (ns & -> & ? & _); simpl.
  all: destruct (ob_grow_spec b m n ns HA W Hst Hn ltac:(lia) ltac:(lia))
      as (new & m1 & old & m2 & m3 & Em & Eo & Es & Ef & MS).
  all: rewrite Em; simpl; rewrite Eo; simpl; simpl in Es; rewrite Es; simpl.
  all: rewrite Ef; simpl; eauto.
Qed.

(** ** Appending *)

(** The memory effect of writing at the end of the data. *)
Lemma set_at_end m b n d :
  ob_wf m b -> are_bytes d -> zlen d = n -> position b + n <= allocSize b ->
  0 <= n -> (sizeLimit b = -1 \/ position b + n <= sizeLimit b) ->
  exists m', set_at m (bytes b) (position b) d = Some m' /\
    ob_wf m' (set_position b (position b + n)) /\
    (forall d0, ob_data m b = Some d0 ->
       ob_data m' (set_position b (position b + n)) = Some (d0 ++ d)) /\
    (forall k, (forall p, bytes b = Some p -> k <> p_blk p) -> m' !! k = m !! k).
Proof.
  intros W Hd Hl Hr Hn Hlim. pose proof (wf_position _ _ W). pose proof (wf_checkpoint _ _ W).
  pose proof (wf_limit _ _ W). pose proof (wf_allocSize _ _ W).
  pose proof (wf_bytes _ _ W) as Hb. pose proof (wf_owned _ _ W) as Ho.
  unfold set_at, ob_data, bytes_at; simpl. destruct (bytes b) as [p|] eqn:Eb.
  - destruct (storebytes_valid m p (allocSize b) (position b) d Hb Hd)
      as (m' & Em & Hv & Hf); [lia..|].
    exists m'. split_and!; auto.
    + constructor; simpl; auto; try lia. by rewrite Eb.
      intros a Ha. rewrite Eb. auto.
    + intros d0 Hd0. rewrite <- Hl.
      eapply loadbytes_storebytes; [lia|exact Hd0|exact Em].
  - assert (n = 0) by lia. subst n. destruct d; [|simpl in *; lia]. simpl.
    exists m. rewrite Z.add_0_r. split_and!; auto.
    + constructor; simpl; auto; try lia. by rewrite Eb.
      intros a Ha. rewrite Eb. auto.
    + intros d0. by rewrite app_nil_r.
Qed.

(** The block [k] is not the one the buffer writes to. *)
Definition apart (b : overlay_buffer) (k : positive) : Prop := forall p, bytes b = Some p -> k <> p_blk p.

Lemma made_space_apart b b' m m' n k l :
  ob_wf m b -> made_space b b' m m' n -> m !! k = Some l -> apart b k -> m' !! k = Some l /\ apart b' k.
Proof.
  intros W MS Hk Ha. split.
  - apply (ms_frame _ _ _ _ _ MS); [done |]. intros a Hal. destruct (wf_owned _ _ W a Hal) as [Hb _]. by apply Ha.
  - intros p Hp. destruct (ms_bytes _ _ _ _ _ MS) as [E | (q & E & Hq)].
    + apply Ha. by rewrite <- E.
    + rewrite E in Hp. injection Hp as <-. intros ->. congruence.
Qed.

Lemma ob_append_from_spec `{Allocator} b m rd n d :
  never_refuses -> ob_wf m b -> are_bytes d -> zlen d = n ->
  position b + n <= OB_MAX ->
  (forall b' m', made_space b b' m m' n -> rd m' = Some d) ->
  if ob_room b n
  then exists b' m', ob_append_from b m rd n = Some (0, b', m') /\
    ob_wf m' b' /\ position b' = position b + n /\
    sizeLimit b' = sizeLimit b /\ checkpointLength b' = checkpointLength b /\
    ob_is_static b' = ob_is_static b /\ var_length_offset b' = var_length_offset b /\
    (ob_is_static b = true -> allocSize b' = allocSize b) /\
    (forall d0, ob_data m b = Some d0 -> ob_data m' b' = Some (d0 ++ d)) /\
    (forall k l, m !! k = Some l -> apart b k -> m' !! k = Some l /\ apart b' k)
  else ob_append_from b m rd n = Some (-1, b, m).
Proof.
  intros HA W Hd Hl HM Hrd.
  pose proof (ob_makespace_spec b m n HA W ltac:(lia) HM) as HS.
  unfold ob_append_from. destruct (ob_room b n) eqn:Er.
  2:{ by rewrite HS. }
  destruct HS as (b1 & m1 & -> & MS). simpl. rewrite (Hrd _ _ MS); simpl.
  assert (Hlim : sizeLimit b = -1 \/ position b + n <= sizeLimit b).
  { unfold ob_room in Er. zify_bool. destruct H0; zify_bool; auto. }
  pose proof (fun k l => made_space_apart b b1 m m1 n k l W MS) as A1.
  destruct MS as [W1 R1 P1 C1 L1 S1 K1 V1 D1 F1 B1].
  destruct (set_at_end m1 b1 n d W1 Hd Hl) as (m2 & -> & W2 & D2 & F2);
    [lia|lia|rewrite L1, P1; done|].
  simpl. pose proof (wf_position _ _ W1). pose proof (wf_allocSize _ _ W1).
  rewrite ci_Some by (unfold INT_MIN, INT_MAX in *; lia). simpl.
  eexists _, m2. split; [done|]. split_and!; simpl; auto; [lia| |].
  - intros d0 Hd0. apply D2. by rewrite D1.
  - intros k l Hk Ha. destruct (A1 k l Hk Ha) as [Hk1 Ha1]. split; [by rewrite F2 | exact Ha1].
Qed.

(** The refinement shared by every append: the concrete operation does what
    [abuf_append] does, and refuses without any effect when it does. *)
Lemma ob_append_from_refines `{Allocator} b m a rd n d :
  never_refuses -> ob_abs m b a -> are_bytes d -> zlen d = n ->
  position b + n <= OB_MAX ->
  (forall b' m', made_space b b' m m' n -> rd m' = Some d) ->
  match abuf_append a d with
  | Some a' => exists b' m', ob_append_from b m rd n = Some (0, b', m') /\
                 ob_abs m' b' a' /\ position b' = position b + n
  | None => ob_append_from b m rd n = Some (-1, b, m)
  end.
Proof.
  intros HA [W Da La Ca] Hd Hl HM Hrd.
  destruct (ob_wf_data _ _ W) as (d0 & Hd0 & Hdl & _).
  assert (d0 = a_data a) as -> by congruence.
  pose proof (wf_position _ _ W). pose proof (wf_limit _ _ W).
  pose proof (ob_append_from_spec b m rd n d HA W Hd Hl HM Hrd) as HS.
  assert (Hz : zlen (a_data a ++ d) = position b + n) by (rewrite length_app; lia).
  assert (HR : fits (a_limit a) (position b + n) && fits (a_cap a) (position b + n)
               = ob_room b n).
  { unfold ob_room. rewrite La, Ca. unfold fits.
    destruct (Z.eqb_spec (sizeLimit b) (-1)); destruct (ob_is_static b); simpl;
      rewrite ?orb_true_r, ?orb_false_r, ?andb_true_r; done. }
  unfold abuf_append. rewrite Hz, HR. destruct (ob_room b n) eqn:Er; [|done].
  destruct HS as (b' & m' & E & W' & P' & L' & K' & S' & V' & A' & D' & _).
  exists b', m'. split; [done|]. split; [|done]. constructor; simpl; auto.
  - by rewrite L'.
  - rewrite S'. destruct (ob_is_static b) eqn:Es; [|done]. by rewrite A'.
Qed.

(** [C29] Appending to an overlay buffer implements the abstract buffer: it never
    touches memory outside a live block, appends exactly the [count] source
    bytes when the size limit and, for a buffer over foreign memory, the
    capacity admit them, and otherwise returns -1 leaving buffer and memory as
    they were. *)
Theorem ob_append_bytes_refines `{Allocator} b m a src count :
  never_refuses -> ob_abs m b a -> are_bytes src ->
  0 <= count <= zlen src -> position b + count <= OB_MAX ->
  match abuf_append a (take (Z.to_nat count) src) with
  | Some a' => exists b' m', ob_append_bytes b m src count = Some (0, b', m') /\
                 ob_abs m' b' a' /\ position b' = position b + count
  | None => ob_append_bytes b m src count = Some (-1, b, m)
  end.
Proof.
  intros HA Habs Hb Hc HM. apply ob_append_from_refines; auto.
  - by apply Forall_take.
  - rewrite length_take. lia.
  - intros. by rewrite zslice_Some by lia.
Qed.

(** A fresh buffer represents the empty, unlimited, growable sequence. *)
Lemma ob_new_abs `{Allocator} b m :
  ob_new = Some b -> ob_abs m b (mk_abuf [] None None).
Proof.
  unfold ob_new. destruct calloc_ok; [|done]. intros [= <-].
  constructor; simpl; try done.
  constructor; simpl; unfold INT_MAX; auto; try lia; try done.
Qed.

Lemma zero_allocator_never_refuses : @never_refuses zero_allocator.
Proof. intros n. simpl. eauto. Qed.

Lemma ob_append_bytes_refines_witness :
  exists b' m', ob_append_bytes (mk_ob None 0 0 (-1) 0 None 0) ∅ [1; 2; 3] 2
                = Some (0, b', m') /\
    ob_abs m' b' (mk_abuf [1; 2] None None) /\ position b' = 2.
Proof.
  apply (ob_append_bytes_refines (mk_ob None 0 0 (-1) 0 None 0) ∅ (mk_abuf [] None None)
           [1; 2; 3] 2).
  - apply zero_allocator_never_refuses.
  - by apply ob_new_abs.
  - repeat constructor; lia.
  - simpl. lia.
  - unfold OB_MAX. simpl. lia.
Defined.

(** ** Reading *)

Lemma ob_read_end_range m b :
  ob_wf m b -> position b <= ob_read_end b <= allocSize b.
Proof.
  intros W. pose proof (wf_position _ _ W). pose proof (wf_limit _ _ W).
  unfold ob_read_end. destruct (Z.leb_spec 0 (sizeLimit b)); lia.
Qed.

Lemma test_offset_spec b start n :
  0 <= start -> INT_MIN <= start + n <= INT_MAX ->
  test_offset (Some b) start n = Some (if start + n <=? ob_read_end b then 0 else -1).
Proof.
  intros. unfold test_offset. zdecide. rewrite ci_Some by lia. simpl.
  unfold ob_read_end. destruct (Z.leb_spec 0 (sizeLimit b)); simpl;
    [destruct (Z.ltb_spec (sizeLimit b) (start + n)); [by zdecide|]|];
    destruct (Z.ltb_spec (allocSize b) (start + n)); by zdecide.
Qed.

Lemma ob_wf_rest m b : ob_wf m b ->
  exists d, ob_rest m b = Some d /\ zlen d = ob_read_end b - position b /\ are_bytes d.
Proof.
  intros W. unfold ob_rest, bytes_at. pose proof (ob_read_end_range _ _ W).
  pose proof (wf_bytes _ _ W) as Hb. pose proof (wf_position _ _ W).
  destruct (bytes b) as [p|].
  - eapply loadbytes_valid; [exact Hb|lia..].
  - exists []. rewrite (proj2 (Z.eqb_eq _ _)) by lia. split; [done|].
    split; [simpl; lia|constructor].
Qed.

(** Splitting a readable range. *)
Lemma bytes_at_split m p i n k d :
  0 <= k <= n -> bytes_at m p i n = Some d ->
  bytes_at m p i k = Some (take (Z.to_nat k) d) /\
  bytes_at m p (i + k) (n - k) = Some (drop (Z.to_nat k) d).
Proof.
  intros Hk. unfold bytes_at. destruct p as [p|].
  - unfold loadbytes. destruct (m !! p_blk p) as [l|]; simpl; [|done].
    intros (? & ? & ? & ->)%zslice_inv.
    rewrite !zslice_Some by lia. split; f_equal.
    + rewrite take_take. f_equal. lia.
    + rewrite skipn_firstn_comm, drop_drop. f_equal; [lia|]. f_equal. lia.
  - destruct (Z.eqb_spec n 0); [|done]. intros [= <-].
    rewrite !(proj2 (Z.eqb_eq _ 0)) by lia. by rewrite take_nil, drop_nil.
Qed.

Lemma set_position_wf m b n :
  ob_wf m b -> 0 <= n -> position b + n <= ob_read_end b ->
  ob_wf m (set_position b (position b + n)).
Proof.
  intros W ??. pose proof (ob_read_end_range _ _ W). pose proof (wf_limit _ _ W).
  pose proof (wf_checkpoint _ _ W). pose proof (wf_position _ _ W).
  constructor; simpl; try apply W; try lia.
  unfold ob_read_end in *. destruct (Z.leb_spec 0 (sizeLimit b)); lia.
Qed.

Lemma ob_get_bytes_spec m b n d :
  ob_wf m b -> ob_rest m b = Some d -> 0 <= n -> position b + n <= INT_MAX ->
  if n <=? zlen d
  then ob_get_bytes b m n = Some (Some (take (Z.to_nat n) d), set_position b (position b + n)) /\
    ob_rest m (set_position b (position b + n)) = Some (drop (Z.to_nat n) d) /\
    ob_wf m (set_position b (position b + n))
  else ob_get_bytes b m n = Some (None, b).
Proof.
  intros W Hd Hn HM. destruct (ob_wf_rest _ _ W) as (d' & Hd' & Hl & _).
  assert (d' = d) as -> by congruence. pose proof (wf_position _ _ W).
  unfold ob_get_bytes. rewrite test_offset_spec by (unfold INT_MIN; lia). simpl.
  destruct (Z.leb_spec n (zlen d)); zdecide; [|done]. simpl.
  destruct (bytes_at_split m (bytes b) (position b) (ob_read_end b - position b) n d)
    as [E1 E2]; [lia|exact Hd|].
  rewrite E1. simpl. split; [done|]. split.
  - unfold ob_rest; simpl.
    change (ob_read_end (set_position b (position b + n))) with (ob_read_end b).
    rewrite <- E2. f_equal. lia.
  - apply set_position_wf; [done|lia|lia].
Qed.

(** Reading [n] bytes yields exactly the next [n] bytes and advances past
    them when that many remain below both the size limit and the allocated
    size; otherwise it fails and the read position does not move.  No read is
    ever outside the buffer. *)
Theorem ob_get_bytes_correct m b n d :
  ob_wf m b -> ob_rest m b = Some d -> 0 <= n -> position b + n <= INT_MAX ->
  if n <=? zlen d
  then exists b', ob_get_bytes b m n = Some (Some (take (Z.to_nat n) d), b') /\
    ob_rest m b' = Some (drop (Z.to_nat n) d) /\ ob_wf m b'
  else ob_get_bytes b m n = Some (None, b).
Proof.
  intros W Hd Hn HM. pose proof (ob_get_bytes_spec m b n d W Hd Hn HM) as H.
  destruct (n <=? zlen d); [by eexists | done].
Qed.

Lemma ob_get_bytes_correct_witness :
  exists b', ob_get_bytes (mk_ob (Some (mkptr 1 0)) 0 1 4 5 None 0)
               {[1%positive := [10; 11; 12; 13; 14]]} 2 = Some (Some [11; 12], b') /\
    ob_rest {[1%positive := [10; 11; 12; 13; 14]]} b' = Some [13] /\
    ob_wf {[1%positive := [10; 11; 12; 13; 14]]} b'.
Proof.
  apply (ob_get_bytes_correct {[1%positive := [10; 11; 12; 13; 14]]}
           (mk_ob (Some (mkptr 1 0)) 0 1 4 5 None 0) 2 [11; 12; 13]).
  - constructor; simpl; unfold INT_MAX; try lia; [|done].
    exists [10; 11; 12; 13; 14]. split; [done|].
    split; [repeat constructor; lia|simpl; lia].
  - reflexivity.
  - lia.
  - simpl. unfold INT_MAX. lia.
Defined.

Lemma load_rest m b d i :
  bytes b <> None -> ob_rest m b = Some d -> 0 <= i < zlen d ->
  exists p, bytes b = Some p /\ load m p (position b + i) = zget d i.
Proof.
  intros Hb. unfold ob_rest, bytes_at. destruct (bytes b) as [p|]; [|done].
  unfold loadbytes, load. destruct (m !! p_blk p) as [l|] eqn:Em; simpl; [|done].
  intros (? & ? & ? & ->)%zslice_inv Hi. exists p. split; [done|]. rewrite Em. simpl.
  rewrite length_take, length_drop in Hi.
  unfold zget. zdecide. rewrite lookup_take_lt, lookup_drop by lia. f_equal. lia.
Qed.

Lemma ob_rest_bytes m b x r : ob_rest m b = Some (x :: r) -> bytes b <> None.
Proof.
  unfold ob_rest, bytes_at. destruct (bytes b); [done|].
  by destruct (ob_read_end b - position b =? 0).
Qed.

(** Fetching one byte pops the front of what remains. *)
Lemma ob_get_rest m b d :
  ob_wf m b -> ob_rest m b = Some d -> position b < INT_MAX ->
  match d with
  | [] => ob_get b m = Some (-1, b)
  | x :: r => ob_get b m = Some (x, set_position b (position b + 1)) /\
      ob_rest m (set_position b (position b + 1)) = Some r /\
      ob_wf m (set_position b (position b + 1))
  end.
Proof.
  intros W Hd HM. destruct (ob_wf_rest _ _ W) as (d' & Hd' & Hl & _).
  assert (d' = d) as -> by congruence. pose proof (wf_position _ _ W).
  pose proof (ob_read_end_range _ _ W).
  unfold ob_get. rewrite test_offset_spec by (unfold INT_MIN; lia). simpl.
  destruct d as [|x r]; simpl in Hl; zdecide; [done|]. simpl.
  destruct (load_rest m b (x :: r) 0) as (p & -> & Hx);
    [by eapply ob_rest_bytes|done|simpl; lia|].
  rewrite Z.add_0_r in Hx. simpl. rewrite Hx. simpl. split; [done|].
  destruct (bytes_at_split m (bytes b) (position b) (ob_read_end b - position b) 1 (x :: r))
    as [_ E2]; [lia|exact Hd|].
  split; [|apply set_position_wf; [done|lia|lia]].
  unfold ob_rest; simpl.
  change (ob_read_end (set_position b (position b + 1))) with (ob_read_end b).
  simpl in E2. rewrite drop_0 in E2. rewrite <- E2. f_equal. lia.
Qed.

(** Stepping back to an earlier write position gives the bytes written since. *)
Lemma ob_rest_written m b d0 d :
  ob_wf m b -> ob_data m b = Some (d0 ++ d) ->
  exists r, ob_rest m (set_position b (zlen d0)) = Some (d ++ r) /\
    ob_wf m (set_position b (zlen d0)).
Proof.
  intros W Hd. pose proof (wf_position _ _ W). pose proof (ob_read_end_range _ _ W).
  pose proof (wf_limit _ _ W). pose proof (wf_checkpoint _ _ W).
  destruct (ob_wf_data _ _ W) as (d' & Hd' & Hl & _).
  assert (d' = d0 ++ d) as -> by congruence. rewrite length_app in Hl.
  assert (W0 : ob_wf m (set_position b (zlen d0)))
    by (constructor; simpl; try apply W; lia).
  assert (exists X, bytes_at m (bytes b) 0 (ob_read_end b) = Some X) as [X HX].
  { pose proof (wf_bytes _ _ W) as HB. unfold bytes_at. destruct (bytes b).
    - destruct (loadbytes_valid m p (allocSize b) 0 (ob_read_end b) HB) as (X & -> & _);
        eauto; lia.
    - rewrite (proj2 (Z.eqb_eq _ _)) by lia. eauto. }
  destruct (bytes_at_split m (bytes b) 0 (ob_read_end b) (position b) X) as [E1 _];
    [lia|done|].
  destruct (bytes_at_split m (bytes b) 0 (ob_read_end b) (zlen d0) X) as [_ E2];
    [lia|done|].
  unfold ob_data in Hd. rewrite Hd in E1. injection E1 as E1.
  exists (drop (Z.to_nat (position b)) X). split; [|done].
  unfold ob_rest; simpl.
  change (ob_read_end (set_position b (zlen d0))) with (ob_read_end b).
  rewrite Z.add_0_l in E2. rewrite E2. f_equal.
  rewrite <- (take_drop (Z.to_nat (position b)) X) at 1. rewrite <- E1.
  rewrite <- app_assoc. apply drop_app_length'. lia.
Qed.
