(* ===== verification/OverlayBufferCodec.v ===== *)
(** OverlayBufferCodec: what the integer and length-prefix encodings of
    overlay_buffer.c guarantee: fixed-width and packed round trips, the limits of
    the packed 64-bit reader, record length patching, slices and duplicates. *)

From S2P Require Import Prelude CMem OverlayBuffer.

(** ** Fixed-width integers *)

Lemma be16_value v : 0 <= v < 2 ^ 16 ->
  exists b0 b1, be16 v = [b0; b1] /\ is_byte b0 /\ is_byte b1 /\ v = b0 * 2 ^ 8 + b1.
Proof.
  intros. eexists _, _. split; [done|]. split; [apply land_byte|].
  split; [apply land_byte|]. rewrite !land_255, Z.shiftr_div_pow2 by lia.
  Z.div_mod_to_equations. lia.
Qed.

Lemma be32_value v : 0 <= v < 2 ^ 32 ->
  exists b0 b1 b2 b3, be32 v = [b0; b1; b2; b3] /\ are_bytes [b0; b1; b2; b3] /\
    v = b0 * 2 ^ 24 + b1 * 2 ^ 16 + b2 * 2 ^ 8 + b3.
Proof.
  intros. eexists _, _, _, _. split; [done|].
  split; [repeat constructor; apply land_byte|].
  rewrite !land_255, !Z.shiftr_div_pow2 by lia.
  Z.div_mod_to_equations. lia.
Qed.

Lemma decode_ui32 b0 b1 b2 b3 :
  are_bytes [b0; b1; b2; b3] ->
  u32 (Z.lor (Z.lor (Z.lor (i32 (Z.shiftl b0 24)) (i32 (Z.shiftl b1 16)))
                    (i32 (Z.shiftl b2 8))) b3)
  = b0 * 2 ^ 24 + b1 * 2 ^ 16 + b2 * 2 ^ 8 + b3.
Proof.
  rewrite !Forall_cons. unfold is_byte. intros (? & ? & ? & ? & _).
  rewrite !u32_lor, !u32_i32.
  rewrite !u32_id by (rewrite ?Z.shiftl_mul_pow2 by lia; lia).
  rewrite (lor_shiftl_add b0) by (rewrite ?Z.shiftl_mul_pow2 by lia; lia).
  replace (b0 * 2 ^ 24 + Z.shiftl b1 16) with (Z.shiftl (b0 * 2 ^ 8 + b1) 16)
    by (rewrite !Z.shiftl_mul_pow2 by lia; lia).
  rewrite lor_shiftl_add by (rewrite ?Z.shiftl_mul_pow2 by lia; lia).
  replace ((b0 * 2 ^ 8 + b1) * 2 ^ 16 + Z.shiftl b2 8)
    with (Z.shiftl ((b0 * 2 ^ 8 + b1) * 2 ^ 8 + b2) 8)
    by (rewrite !Z.shiftl_mul_pow2 by lia; lia).
  rewrite lor_shiftl_add by lia. lia.
Qed.

Lemma ob_get_ui32_rest m b b0 b1 b2 b3 r :
  ob_wf m b -> ob_rest m b = Some (b0 :: b1 :: b2 :: b3 :: r) ->
  position b + 4 <= INT_MAX ->
  ob_get_ui32 b m = Some (b0 * 2 ^ 24 + b1 * 2 ^ 16 + b2 * 2 ^ 8 + b3,
                          set_position b (position b + 4)).
Proof.
  intros W Hd HM. destruct (ob_wf_rest _ _ W) as (d & Hd' & Hl & Hb).
  assert (d = b0 :: b1 :: b2 :: b3 :: r) as -> by congruence. simpl in Hl.
  pose proof (wf_position _ _ W).
  unfold ob_get_ui32. rewrite test_offset_spec by (unfold INT_MIN; lia). simpl. zdecide.
  simpl. pose proof (ob_rest_bytes _ _ _ _ Hd) as Hne.
  destruct (bytes b) as [p|] eqn:Ep; [|done]. simpl. rewrite <- Ep in Hne.
  assert (HL : forall i, 0 <= i < zlen (b0 :: b1 :: b2 :: b3 :: r) ->
    load m p (position b + i) = zget (b0 :: b1 :: b2 :: b3 :: r) i).
  { intros i Hi. destruct (load_rest m b _ i Hne Hd Hi) as (q & Eq & HL). congruence. }
  rewrite <- (Z.add_0_r (position b)) at 1. rewrite !HL by (simpl; lia). simpl.
  rewrite decode_ui32; [done|]. rewrite !Forall_cons in Hb |- *.
  destruct Hb as (? & ? & ? & ? & _). auto 10.
Qed.

(** A 32-bit value appended to a buffer is read back unchanged from where
    it was written, and reading it leaves the position just after it. *)
Theorem ob_ui32_roundtrip `{Allocator} b m v :
  never_refuses -> ob_wf m b -> 0 <= v < 2 ^ 32 ->
  ob_room b 4 = true -> position b + 4 <= OB_MAX ->
  exists b' m' b'', ob_append_ui32 b m v = Some (0, b', m') /\
    ob_get_ui32 (set_position b' (position b)) m' = Some (v, b'') /\
    position b'' = position b'.
Proof.
  intros HA W Hv HR HM. destruct (be32_value v Hv) as (b0 & b1 & b2 & b3 & Eb & Hb & Ev).
  pose proof (ob_append_from_spec b m (fun _ => Some (be32 (u32 v))) 4 (be32 v) HA W) as HS.
  rewrite HR in HS. destruct HS as (b' & m' & E & W' & P' & _ & _ & _ & _ & _ & D' & _);
    [by rewrite Eb|by rewrite Eb|done|by rewrite u32_id by lia|].
  destruct (ob_wf_data _ _ W) as (d0 & Hd0 & Hl0 & _).
  destruct (ob_rest_written m' b' d0 (be32 v) W' (D' _ Hd0)) as (r & Hr & Wr).
  rewrite Hl0 in *. rewrite Eb in Hr.
  exists b', m'. eexists. split; [done|].
  unfold OB_MAX, INT_MAX in *.
  rewrite (ob_get_ui32_rest _ _ _ _ _ _ _ Wr Hr) by (simpl; unfold INT_MAX; lia).
  rewrite <- Ev. split; [done|]. simpl. lia.
Qed.

Lemma ob_ui32_roundtrip_witness :
  exists b' m' b'', ob_append_ui32 (mk_ob None 0 0 (-1) 0 None 0) ∅ 3735928559
                    = Some (0, b', m') /\
    ob_get_ui32 (set_position b' 0) m' = Some (3735928559, b'') /\
    position b'' = position b'.
Proof.
  apply (ob_ui32_roundtrip (mk_ob None 0 0 (-1) 0 None 0) ∅ 3735928559).
  - apply zero_allocator_never_refuses.
  - by apply (abs_wf _ _ (mk_abuf [] None None)), ob_new_abs.
  - lia.
  - reflexivity.
  - unfold OB_MAX. simpl. lia.
Defined.

(** ** Packed integers *)

(** The bytes the packed encoders emit. *)
Fixpoint packed (fuel : nat) (v : Z) : list Z :=
  match fuel with
  | O => []
  | S fuel =>
      Z.lor (Z.land v 127) (if 127 <? v then 128 else 0) ::
      (if Z.shiftr v 7 =? 0 then [] else packed fuel (Z.shiftr v 7))
  end.

Lemma packed_byte v : 0 <= v ->
  Z.lor (Z.land v 127) (if 127 <? v then 128 else 0)
  = v mod 128 + (if 127 <? v then 128 else 0).
Proof.
  intros. rewrite land_127. pose proof (Z.mod_pos_bound v 128 ltac:(lia)).
  destruct (127 <? v); [rewrite lor_128 by lia; lia|]. rewrite Z.lor_0_r. lia.
Qed.

Lemma packed_byte_is v : 0 <= v ->
  is_byte (Z.lor (Z.land v 127) (if 127 <? v then 128 else 0)).
Proof.
  intros. rewrite packed_byte by done. pose proof (Z.mod_pos_bound v 128 ltac:(lia)).
  unfold is_byte. destruct (127 <? v); lia.
Qed.

Lemma packed_length fuel v : zlen (packed fuel v) <= Z.of_nat fuel.
Proof.
  revert v. induction fuel as [|f IH]; intros v; [done|]. cbn [packed length].
  destruct (Z.shiftr v 7 =? 0); [simpl; lia|]. specialize (IH (Z.shiftr v 7)). lia.
Qed.

Lemma packed_length_bits n fuel v :
  0 <= v < 2 ^ (7 * Z.of_nat n) -> (0 < n)%nat -> zlen (packed fuel v) <= Z.of_nat n.
Proof.
  revert n v. induction fuel as [|f IH]; intros n v Hv Hn; [simpl; lia|].
  cbn [packed length]. destruct (Z.eqb_spec (Z.shiftr v 7) 0) as [|Hne]; [simpl; lia|].
  rewrite Z.shiftr_div_pow2 in * by lia.
  assert (v >= 2 ^ 7) by (destruct (Z.lt_ge_cases v (2 ^ 7)) as [Hs|]; [|lia];
    rewrite Z.div_small in Hne by lia; done).
  destruct n as [|n]; [lia|]. replace (7 * Z.of_nat (S n)) with (7 * Z.of_nat n + 7) in Hv by lia.
  rewrite Z.pow_add_r in Hv by lia.
  assert (v / 2 ^ 7 < 2 ^ (7 * Z.of_nat n)) by (apply Z.div_lt_upper_bound; lia).
  destruct n as [|n]; [simpl in *; lia|].
  specialize (IH (S n) (v / 2 ^ 7)). rewrite Nat2Z.inj_succ.
  assert (0 <= v / 2 ^ 7) by (apply Z.div_pos; lia). lia.
Qed.

Lemma shiftr7_lt v n : 0 <= v < 2 ^ (7 * Z.of_nat (S n)) ->
  0 <= Z.shiftr v 7 < 2 ^ (7 * Z.of_nat n).
Proof.
  intros [? Hv]. rewrite Z.shiftr_div_pow2 by lia.
  replace (7 * Z.of_nat (S n)) with (7 + 7 * Z.of_nat n) in Hv by lia.
  rewrite Z.pow_add_r in Hv by lia. split; [apply Z.div_pos; lia|].
  apply Z.div_lt_upper_bound; lia.
Qed.

Lemma ob_room_spec b n : ob_room b n = true <->
  (sizeLimit b = -1 \/ position b + n <= sizeLimit b) /\
  (position b + n <= allocSize b \/ ob_is_static b = false).
Proof.
  unfold ob_room.
  rewrite andb_true_iff, !orb_true_iff, !Z.leb_le, Z.eqb_eq, negb_true_iff. done.
Qed.

Lemma ob_room_le b n k : k <= n -> ob_room b n = true -> ob_room b k = true.
Proof. rewrite !ob_room_spec. intuition lia. Qed.

Lemma append_packed_spec `{Allocator} fuel b m v d0 :
  never_refuses -> ob_wf m b -> (0 < fuel)%nat -> 0 <= v < 2 ^ (7 * Z.of_nat fuel) ->
  ob_room b (zlen (packed fuel v)) = true ->
  position b + Z.of_nat fuel <= OB_MAX -> ob_data m b = Some d0 ->
  exists b' m', append_packed fuel b m v = Some (0, b', m') /\ ob_wf m' b' /\
    ob_data m' b' = Some (d0 ++ packed fuel v).
Proof.
  intros HA. revert b m v d0. induction fuel as [|f IH]; intros b m v d0 W Hf Hv HR HM Hd.
  { lia. }
  cbn [append_packed packed] in *.
  set (x := Z.lor (Z.land v 127) (if 127 <? v then 128 else 0)) in *.
  assert (Hx : is_byte x) by (apply packed_byte_is; lia).
  set (tl := if Z.shiftr v 7 =? 0 then [] else packed f (Z.shiftr v 7)) in *.
  rewrite length_cons in HR.
  pose proof (ob_append_from_spec b m (fun _ => Some [u8 x]) 1 [x] HA W) as HS.
  assert (HR1 : ob_room b 1 = true) by (eapply ob_room_le; [|exact HR]; lia).
  rewrite HR1 in HS.
  destruct HS as (b1 & m1 & E & W1 & P1 & L1 & _ & S1 & _ & A1 & D1 & _);
    [by apply Forall_singleton|done|lia|by rewrite u8_id by done|].
  unfold ob_append_byte. rewrite E. simpl. specialize (D1 _ Hd).
  destruct (Z.eqb_spec (Z.shiftr v 7) 0) as [Hz|Hz]; subst tl.
  { exists b1, m1. auto. }
  destruct f as [|f].
  { exfalso. apply Hz. rewrite Z.shiftr_div_pow2 by lia. apply Z.div_small.
    simpl in Hv. lia. }
  destruct (IH b1 m1 (Z.shiftr v 7) (d0 ++ [x])) as (b' & m' & -> & W' & D');
    [done|lia|by apply shiftr7_lt| |lia|done|].
  - apply ob_room_spec. apply ob_room_spec in HR. rewrite P1, L1, S1.
    destruct (ob_is_static b); [rewrite A1 by done|]; intuition lia.
  - exists b', m'. split; [done|]. split; [done|]. by rewrite <- app_assoc in D'.
Qed.

Lemma shiftl_split7 v s :
  0 <= s -> 0 <= v ->
  Z.lor (Z.shiftl (v mod 128) s) (Z.shiftl (Z.shiftr v 7) (s + 7)) = Z.shiftl v s.
Proof.
  intros. rewrite (Z.add_comm s 7), <- Z.shiftl_shiftl, <- Z.shiftl_lor by lia. f_equal.
  rewrite lor_add_shiftl by (try apply (Z.mod_pos_bound v (2 ^ 7)); lia).
  rewrite Z.shiftr_div_pow2 by lia. change 128 with (2 ^ 7).
  pose proof (Z.div_mod v (2 ^ 7) ltac:(lia)). lia.
Qed.

(** Decoding, for an accumulator type that keeps the values below [bound]. *)
Section get_packed.
Context (wrap : Z -> Z) (bound : Z).
Hypothesis wrap_ok : forall x, 0 <= x < bound -> wrap (i32 x) = x.

Lemma get_packed_spec fuel n b m ret shift v r :
  ob_wf m b -> ob_rest m b = Some (packed n v ++ r) ->
  position b + zlen (packed n v) <= INT_MAX ->
  0 <= v < 2 ^ (7 * Z.of_nat n) -> (0 < n)%nat -> (length (packed n v) <= fuel)%nat ->
  0 <= shift -> shift + 7 * zlen (packed n v) <= 38 ->
  v * 2 ^ shift < bound -> bound <= 2 ^ 32 ->
  get_packed wrap fuel b m ret shift
  = Some (Z.lor ret (Z.shiftl v shift), set_position b (position b + zlen (packed n v))).
Proof using wrap_ok.
  revert fuel b ret shift v. induction n as [|n IH];
    intros fuel b ret shift v W Hr HP Hv Hn Hf Hs Hs2 Hb HB; [lia|].
  destruct fuel as [|f]; [simpl in Hf; lia|].
  cbn [packed app length get_packed] in *.
  set (x := Z.lor (Z.land v 127) (if 127 <? v then 128 else 0)) in *.
  set (tl := if Z.shiftr v 7 =? 0 then [] else packed n (Z.shiftr v 7)) in *.
  assert (Hx : x = v mod 128 + (if 127 <? v then 128 else 0)) by (apply packed_byte; lia).
  pose proof (Z.mod_pos_bound v 128 ltac:(lia)) as Hm.
  destruct (ob_get_rest m b _ W Hr) as (-> & Hr1 & W1); [lia|]. simpl.
  assert (Hxl : Z.land x 127 = v mod 128).
  { rewrite land_127, Hx. destruct (127 <? v); [|by rewrite Z.add_0_r, Z.mod_mod].
    rewrite Z.add_mod, Z.mod_same, Z.add_0_r, Z.mod_mod, Z.mod_mod by lia. done. }
  assert (Hpow : 0 < 2 ^ shift) by (apply Z.pow_pos_nonneg; lia).
  assert (Hle : v mod 128 <= v) by (apply Z.mod_le; lia).
  rewrite (proj2 (Z.ltb_ge x 0)) by (destruct (127 <? v); lia).
  unfold ishl. zdecide. simpl. rewrite Hxl.
  rewrite wrap_ok by (rewrite Z.shiftl_mul_pow2 by lia; nia).
  destruct (Z.ltb_spec 127 v) as [Hv7|Hv7].
  - assert (Hnz : Z.shiftr v 7 <> 0).
    { rewrite Z.shiftr_div_pow2 by lia. intros Hz%Z.div_small_iff; lia. }
    assert (Hfl : Z.land x 128 <> 0).
    { pose proof (byte_cases (fun y => (y <? 128) || negb (Z.land y 128 =? 0))
        ltac:(vm_compute; reflexivity) x ltac:(unfold is_byte; lia)) as HB'.
      cbv beta in HB'. zify_bool. destruct HB'; zify_bool; lia. }
    subst tl. rewrite (proj2 (Z.eqb_neq _ 0) Hfl).
    rewrite (proj2 (Z.eqb_neq _ 0) Hnz) in *. simpl in Hf.
    pose proof (shiftr7_lt v n Hv) as Hv1.
    destruct n as [|n]; [simpl in Hv1; lia|].
    rewrite (IH f _ _ (shift + 7) (Z.shiftr v 7)); simpl position in *;
      rewrite ?length_cons in *; try done; try lia.
    + f_equal. f_equal; [|f_equal; simpl; lia].
      rewrite <- Z.lor_assoc. f_equal. apply shiftl_split7; lia.
    + apply Z.le_lt_trans with (v * 2 ^ shift); [|done].
      rewrite Z.shiftr_div_pow2, Z.pow_add_r by lia.
      pose proof (Z.mul_div_le v (2 ^ 7) ltac:(lia)). nia.
  - assert (Hz : Z.shiftr v 7 = 0)
      by (rewrite Z.shiftr_div_pow2 by lia; apply Z.div_small; lia).
    assert (Hfl : Z.land x 128 = 0).
    { pose proof (byte_cases (fun y => (127 <? y) || (Z.land y 128 =? 0))
        ltac:(vm_compute; reflexivity) x ltac:(unfold is_byte; lia)) as HB'.
      cbv beta in HB'. zify_bool. destruct HB'; zify_bool; lia. }
    subst tl. rewrite Hz, Hfl in *. simpl. rewrite Z.mod_small by lia. done.
Qed.
End get_packed.

#[global] Arguments packed : simpl never.

(** Write a packed value, go back, read it: the common part of the round trips. *)
Lemma packed_written `{Allocator} b m v :
  never_refuses -> ob_wf m b -> 0 <= v < 2 ^ 64 ->
  ob_room b (zlen (packed 10 v)) = true -> position b + 10 <= OB_MAX ->
  exists b' m' r, append_packed 10 b m v = Some (0, b', m') /\
    ob_wf m' (set_position b' (position b)) /\
    ob_rest m' (set_position b' (position b)) = Some (packed 10 v ++ r) /\
    position b' = position b + zlen (packed 10 v).
Proof.
  intros HA W Hv HR HM. destruct (ob_wf_data _ _ W) as (d0 & Hd0 & Hl0 & _).
  destruct (append_packed_spec 10 b m v d0) as (b' & m' & E & W' & D');
    [done|done|lia| |done|simpl; lia|done|].
  { split; [lia|]. apply Z.lt_trans with (2 ^ 64); [lia|reflexivity]. }
  destruct (ob_rest_written m' b' d0 (packed 10 v) W' D') as (r & Hr & Wr).
  rewrite Hl0 in *. exists b', m', r. split_and!; auto.
  destruct (ob_wf_data _ _ W') as (d' & Hd' & Hl' & _).
  rewrite D' in Hd'. apply (inj Some) in Hd'. subst d'. rewrite length_app in Hl'. lia.
Qed.

(** A 32-bit value in the packed (base-128, least significant group first)
    encoding is read back unchanged, in at most five bytes, and the reader stops
    exactly where the writer did. *)
Theorem ob_packed_ui32_roundtrip `{Allocator} b m v :
  never_refuses -> ob_wf m b -> 0 <= v < 2 ^ 32 ->
  ob_room b 5 = true -> position b + 10 <= OB_MAX ->
  exists b' m' b'', ob_append_packed_ui32 b m v = Some (0, b', m') /\
    ob_get_packed_ui32 (set_position b' (position b)) m' = Some (v, b'') /\
    position b'' = position b' /\ position b' <= position b + 5.
Proof.
  intros HA W Hv HR HM.
  assert (Hlen : zlen (packed 10 v) <= 5)
    by (apply (packed_length_bits 5); [|lia]; split; [lia|];
        apply Z.lt_trans with (2 ^ 32); [lia|reflexivity]).
  destruct (packed_written b m v HA W) as (b' & m' & r & E & W' & Hr & HP);
    [lia|eapply ob_room_le; [|exact HR]; lia|done|].
  pose proof (wf_position _ _ W). unfold OB_MAX in HM.
  exists b', m'. eexists. unfold ob_append_packed_ui32. rewrite u32_id by lia.
  split; [done|]. unfold ob_get_packed_ui32.
  rewrite (get_packed_spec u32 (2 ^ 32)) with (n := 10%nat) (v := v) (r := r);
    simpl position; auto; try lia; try (unfold INT_MAX; lia).
  - rewrite Z.lor_0_l, Z.shiftl_0_r. split; [done|]. cbn [position set_position]. lia.
  - intros x Hx. rewrite u32_i32. by apply u32_id.
Qed.

Lemma ob_packed_ui32_roundtrip_witness :
  exists b' m' b'', ob_append_packed_ui32 (mk_ob None 0 0 (-1) 0 None 0) ∅ 4294967295
                    = Some (0, b', m') /\
    ob_get_packed_ui32 (set_position b' 0) m' = Some (4294967295, b'') /\
    position b'' = position b' /\ position b' <= 0 + 5.
Proof.
  apply (ob_packed_ui32_roundtrip (mk_ob None 0 0 (-1) 0 None 0) ∅ 4294967295).
  - apply zero_allocator_never_refuses.
  - by apply (abs_wf _ _ (mk_abuf [] None None)), ob_new_abs.
  - lia.
  - reflexivity.
  - unfold OB_MAX. simpl. lia.
Defined.

(** Reading a packed value of more than 35 bits meets a shift of an [int] by 35. *)
Lemma packed_cons n v :
  128 <= v < 2 ^ (7 * Z.of_nat (S n)) ->
  packed (S n) v = Z.lor (Z.land v 127) 128 :: packed n (Z.shiftr v 7) /\
  0 <= Z.shiftr v 7 < 2 ^ (7 * Z.of_nat n).
Proof.
  intros Hv. split; [|apply shiftr7_lt; lia]. cbv [packed]; fold packed.
  zdecide. rewrite (proj2 (Z.eqb_neq _ 0)); [done|].
  rewrite Z.shiftr_div_pow2 by lia. intros Hz%Z.div_small_iff; lia.
Qed.

Lemma get_packed_undefined wrap k fuel n b m ret v r :
  ob_wf m b -> ob_rest m b = Some (packed n v ++ r) ->
  position b + zlen (packed n v) <= INT_MAX ->
  (k <= 5)%nat -> 2 ^ (7 * Z.of_nat k) <= v < 2 ^ (7 * Z.of_nat n) ->
  get_packed wrap fuel b m ret (7 * (5 - Z.of_nat k)) = None.
Proof.
  revert fuel n b ret v. induction k as [|k IH]; intros fuel n b ret v W Hr HP Hk Hv.
  all: destruct fuel as [|fuel]; [done|]; cbn [get_packed].
  - destruct n as [|n]; [simpl in Hv; lia|].
    assert (exists x tl, packed (S n) v = x :: tl /\ 0 <= x) as (x & tl & Ex & Hx).
    { eexists _, _. split; [cbv [packed]; fold packed; done|].
      apply packed_byte_is. lia. }
    rewrite Ex in *. destruct (ob_get_rest m b _ W Hr) as (-> & _); [simpl in HP; lia|].
    simpl. rewrite (proj2 (Z.ltb_ge x 0)) by lia. done.
  - assert (128 <= v).
    { destruct Hv as [Hv _]. etransitivity; [|exact Hv].
      change 128 with (2 ^ 7). apply Z.pow_le_mono_r; lia. }
    destruct n as [|n]; [simpl in Hv; lia|].
    destruct (packed_cons n v) as [Ex Hv']; [lia|]. rewrite Ex in *.
    rewrite lor_128 in * by (rewrite land_127; apply Z.mod_pos_bound; lia).
    rewrite land_127 in *. pose proof (Z.mod_pos_bound v 128 ltac:(lia)).
    rewrite length_cons in HP.
    destruct (ob_get_rest m b _ W Hr) as (-> & Hr1 & W1); [lia|]. simpl mbind. cbv beta.
    simpl. zdecide. destruct (ishl _ _); simpl; [|done].
    assert (Hfl : Z.land (128 + v mod 128) 128 <> 0).
    { pose proof (byte_cases (fun y => (y <? 128) || negb (Z.land y 128 =? 0))
        ltac:(vm_compute; reflexivity) (128 + v mod 128) ltac:(unfold is_byte; lia)) as HB.
      cbv beta in HB. zify_bool. destruct HB; zify_bool; lia. }
    rewrite (proj2 (Z.eqb_neq _ 0) Hfl).
    replace (7 * (5 - Z.of_nat (S k)) + 7) with (7 * (5 - Z.of_nat k)) by lia.
    eapply IH; [exact W1|exact Hr1|simpl; lia|lia|]. split; [|lia].
    rewrite Z.shiftr_div_pow2 by lia. apply Z.div_le_lower_bound; [lia|].
    rewrite <- Z.pow_add_r by lia. etransitivity; [|apply Hv]. apply Z.pow_le_mono_r; lia.
Qed.

(** The packed 64-bit reader recovers what the packed 64-bit writer wrote
    only for small values: below 2^31 the value comes back unchanged, from 2^35
    on reading it executes a shift of a 32-bit [int] by 35 places, which is
    undefined. *)
Theorem ob_packed_ui64_limits `{Allocator} b m v :
  never_refuses -> ob_wf m b -> 0 <= v < 2 ^ 64 ->
  ob_room b 10 = true -> position b + 10 <= OB_MAX ->
  exists b' m', ob_append_packed_ui64 b m v = Some (0, b', m') /\
    (v < 2 ^ 31 -> exists b'',
       ob_get_packed_ui64 (set_position b' (position b)) m' = Some (v, b'') /\
       position b'' = position b') /\
    (2 ^ 35 <= v -> ob_get_packed_ui64 (set_position b' (position b)) m' = None).
Proof.
  intros HA W Hv HR HM. pose proof (packed_length 10 v) as Hlen.
  change (Z.of_nat 10) with 10 in Hlen.
  destruct (packed_written b m v HA W) as (b' & m' & r & E & W' & Hr & HP);
    [lia|eapply ob_room_le; [|exact HR]; lia|done|].
  pose proof (wf_position _ _ W). unfold OB_MAX in HM.
  exists b', m'. unfold ob_append_packed_ui64, u64. rewrite Z.mod_small by lia.
  split; [done|]. assert (Hb70 : v < 2 ^ (7 * Z.of_nat 10))
    by (apply Z.lt_trans with (2 ^ 64); [lia|reflexivity]).
  unfold ob_get_packed_ui64. split; intros Hs.
  - assert (zlen (packed 10 v) <= 5)
      by (apply (packed_length_bits 5); [|lia]; split; [lia|];
          apply Z.lt_trans with (2 ^ 31); [lia|reflexivity]).
    rewrite (get_packed_spec u64 (2 ^ 31)) with (n := 10%nat) (v := v) (r := r);
      simpl position; auto; try lia; try (unfold INT_MAX; lia).
    + rewrite Z.lor_0_l, Z.shiftl_0_r. eexists. split; [done|].
      cbn [position set_position]. lia.
    + intros x Hx. rewrite i32_id by (unfold INT_MIN, INT_MAX; lia).
      apply Z.mod_small. lia.
  - apply (get_packed_undefined u64 5 6 10 _ _ 0 v r); auto; simpl position;
      try (unfold INT_MAX; lia).
Qed.

Lemma ob_packed_ui64_limits_witness :
  exists b' m', ob_append_packed_ui64 (mk_ob None 0 0 (-1) 0 None 0) ∅ (2 ^ 40)
                = Some (0, b', m') /\
    ob_get_packed_ui64 (set_position b' 0) m' = None.
Proof.
  destruct (ob_packed_ui64_limits (mk_ob None 0 0 (-1) 0 None 0) ∅ (2 ^ 40))
    as (b' & m' & E & _ & HU).
  - apply zero_allocator_never_refuses.
  - by apply (abs_wf _ _ (mk_abuf [] None None)), ob_new_abs.
  - lia.
  - reflexivity.
  - unfold OB_MAX. simpl. lia.
  - exists b', m'. split; [exact E|]. apply HU. lia.
Defined.

(** Reading back an appended 64-bit value is wrong in general: the fourth
    byte is shifted by 36 places instead of 32, so 2^32 comes back as 2^36. *)
Theorem ob_ui64_roundtrip_fails :
  exists v b m b' m' b'' v',
    ob_abs m b (mk_abuf [] None None) /\ 0 <= v < 2 ^ 64 /\
    ob_append_ui64 b m v = Some (0, b', m') /\
    ob_get_ui64 (set_position b' (position b)) m' = Some (v', b'') /\
    v = 2 ^ 32 /\ v' = 2 ^ 36.
Proof.
  exists (2 ^ 32), (mk_ob None 0 0 (-1) 0 None 0), ∅. do 4 eexists.
  split; [by apply (@ob_new_abs zero_allocator)|]. split; [lia|].
  split; [vm_compute; reflexivity|]. split; [vm_compute; reflexivity|]. done.
Qed.

(** ** Record lengths *)

(** Overwriting two bytes inside the data. *)
Lemma ob_set_ui16_data m b d0 x y d v :
  ob_wf m b -> ob_data m b = Some (d0 ++ [x; y] ++ d) -> 0 <= v < 2 ^ 16 ->
  position b + 2 <= INT_MAX ->
  exists m', ob_set_ui16 b m (zlen d0) v = Some (0, m') /\
    ob_data m' b = Some (d0 ++ be16 v ++ d).
Proof.
  intros W Hd Hv HM. destruct (ob_wf_data _ _ W) as (d' & Hd' & Hl & _).
  assert (d' = d0 ++ [x; y] ++ d) as -> by congruence. rewrite !length_app in Hl. simpl in Hl.
  pose proof (wf_position _ _ W). pose proof (ob_read_end_range _ _ W).
  unfold ob_set_ui16. rewrite test_offset_spec by (unfold INT_MIN; lia). zdecide. simpl.
  unfold u16. rewrite Z.mod_small by lia.
  pose proof (wf_bytes _ _ W) as HB. unfold set_at, ob_data, bytes_at in *.
  destruct (bytes b) as [p|]; [|lia].
  destruct (be16_value v Hv) as (v0 & v1 & Ev & ? & ? & _).
  destruct (storebytes_valid m p (allocSize b) (zlen d0) (be16 v) HB) as (m' & Em & _);
    [rewrite Ev; auto|lia|rewrite Ev; simpl; lia|].
  rewrite Em. simpl. exists m'. split; [done|].
  rewrite (loadbytes_storebytes_mid m p (position b) _ (zlen d0) (be16 v) m' Hd);
    [|lia|rewrite Ev; simpl; lia|exact Em].
  rewrite Nat2Z.id, take_app_length, Ev. f_equal.
  rewrite (app_assoc d0 [x; y] d), drop_app_length'.
  - by rewrite <- Ev.
  - by rewrite length_app.
Qed.

(** A record written as "reserve a length, append the payload, patch the
    length" carries in its first two bytes, big-endian, exactly the number of
    payload bytes, and nothing before it changes. *)
Theorem ob_patch_rfs_correct `{Allocator} b m d0 l0 payload n :
  never_refuses -> ob_wf m b -> ob_data m b = Some d0 ->
  0 <= l0 <= 65535 -> are_bytes payload -> n = zlen payload -> n <= 65535 ->
  ob_room b (2 + n) = true -> position b + 2 + n <= OB_MAX ->
  exists b1 m1 b2 m2 m3,
    ob_append_rfs b m l0 = Some (0, b1, m1) /\
    ob_append_bytes b1 m1 payload n = Some (0, b2, m2) /\
    ob_patch_rfs b2 m2 = Some (0, m3) /\
    ob_data m3 b2 = Some (d0 ++ be16 n ++ payload).
Proof.
  intros HA W Hd Hl0 Hp Hn Hn2 HR HM. pose proof (wf_position _ _ W).
  destruct (ob_wf_data _ _ W) as (d0' & Hd0 & Hdl & _).
  assert (d0' = d0) as -> by congruence.
  set (bv := set_var_length_offset b (position b)).
  assert (Wv : ob_wf m bv) by (destruct W; constructor; simpl; auto).
  assert (HRv : ob_room bv 2 = true) by (eapply (ob_room_le bv (2 + n)); [lia|exact HR]).
  destruct (be16_value l0 ltac:(lia)) as (x & y & Ev & ? & ? & _).
  pose proof (ob_append_from_spec bv m (fun _ => Some (be16 (u16 l0))) 2 (be16 l0) HA Wv) as HS.
  rewrite HRv in HS.
  destruct HS as (b1 & m1 & E1 & W1 & P1 & L1 & _ & S1 & V1 & A1 & D1 & _);
    [rewrite Ev; auto|by rewrite Ev|simpl; lia|
     intros; unfold u16; by rewrite Z.mod_small by lia|].
  simpl in P1, L1, S1, V1, A1. specialize (D1 d0 Hd).
  pose proof (ob_append_from_spec b1 m1 (fun _ => zslice payload 0 n) n payload HA W1) as HS.
  assert (HR1 : ob_room b1 n = true).
  { apply ob_room_spec. apply ob_room_spec in HR. rewrite P1, L1, S1.
    change (ob_is_static bv) with (ob_is_static b) in *.
    destruct (ob_is_static b); [rewrite A1 by done|]; intuition lia. }
  rewrite HR1 in HS.
  destruct HS as (b2 & m2 & E2 & W2 & P2 & L2 & _ & S2 & V2 & A2 & D2 & _);
    [done|done|lia|intros; rewrite zslice_Some by lia; subst n;
     rewrite Nat2Z.id, drop_0; by rewrite firstn_all|].
  specialize (D2 _ D1). rewrite <- app_assoc, Ev in D2. unfold OB_MAX in HM.
  destruct (ob_set_ui16_data m2 b2 d0 x y payload n W2 D2) as (m3 & E3 & D3);
    [lia|unfold INT_MAX; lia|].
  exists b1, m1, b2, m2, m3. split_and!; auto.
  - unfold ob_append_rfs. zdecide. simpl. exact E1.
  - unfold ob_patch_rfs. rewrite V2, V1.
    rewrite ci_Some by (unfold INT_MIN, INT_MAX; lia). simpl.
    rewrite ci_Some by (unfold INT_MIN, INT_MAX; lia). simpl.
    rewrite <- E3. f_equal; lia.
Qed.

Lemma ob_patch_rfs_correct_witness :
  exists b1 m1 b2 m2 m3,
    ob_append_rfs (mk_ob None 0 0 (-1) 0 None 0) ∅ 0 = Some (0, b1, m1) /\
    ob_append_bytes b1 m1 [7; 8; 9] 3 = Some (0, b2, m2) /\
    ob_patch_rfs b2 m2 = Some (0, m3) /\
    ob_data m3 b2 = Some ([] ++ be16 3 ++ [7; 8; 9]).
Proof.
  apply (ob_patch_rfs_correct (mk_ob None 0 0 (-1) 0 None 0) ∅ [] 0 [7; 8; 9] 3).
  - apply zero_allocator_never_refuses.
  - by apply (abs_wf _ _ (mk_abuf [] None None)), ob_new_abs.
  - reflexivity.
  - lia.
  - repeat constructor; lia.
  - reflexivity.
  - lia.
  - reflexivity.
  - unfold OB_MAX. simpl. lia.
Defined.

(** ** Slices and duplicates *)

(** A slice shares its parent's memory: it is itself well formed, and a byte
    set through the slice is the byte the parent then reads at the shifted
    offset. *)
Theorem ob_slice_aliases `{Allocator} b m offset length s i x :
  ob_wf m b -> 0 <= offset -> 0 <= length -> offset + length <= INT_MAX ->
  ob_slice b offset length = Some (Some s) -> 0 <= i < length ->
  offset + i < ob_read_end b ->
  ob_wf m s /\
  exists m', ob_set s m i x = Some (0, m') /\ ob_getbyte b m' (offset + i) = Some (u8 x).
Proof.
  intros W Ho Hl HM HS Hi Hr. pose proof (wf_bytes _ _ W) as HB.
  unfold ob_slice in HS. rewrite ci_Some in HS by (unfold INT_MIN; lia). simpl in HS.
  destruct (Z.ltb_spec (allocSize b) (offset + length)); [done|].
  destruct calloc_ok; [|done]. pose proof (wf_allocSize _ _ W).
  destruct (bytes b) as [p|] eqn:Eb; [|lia]. injection HS as <-.
  destruct HB as (l & Hl' & Hby & Hoff & Hlen).
  assert (Hv : valid_ptr m (mkptr (p_blk p) (p_off p + offset)) length)
    by (exists l; split_and!; simpl; auto; lia).
  split. { constructor; simpl; auto; try lia. done. }
  unfold ob_set. rewrite test_offset_spec by (simpl; unfold INT_MIN; lia).
  unfold ob_read_end at 1. cbn [sizeLimit allocSize set_memory set_sizeLimit].
  rewrite (proj2 (Z.leb_gt 0 (-1))) by lia. rewrite (proj2 (Z.leb_le (i + 1) length)) by lia.
  simpl. unfold storebytes. simpl. rewrite Hl'. simpl.
  rewrite zblit_Some by (simpl; lia). simpl. eexists. split; [done|].
  unfold ob_getbyte. rewrite test_offset_spec by (unfold INT_MIN; lia). simpl. zdecide.
  rewrite Eb. simpl. unfold load. rewrite lookup_insert_eq. simpl.
  unfold zget. zdecide.
  rewrite lookup_app_r by (rewrite length_take; lia). rewrite length_take.
  replace (Z.to_nat (p_off p + (offset + i)) -
    (Z.to_nat (p_off p + offset + i) `min` Datatypes.length l))%nat with 0%nat by lia.
  done.
Qed.

Lemma ob_slice_aliases_witness :
  ob_wf {[1%positive := [10; 11; 12; 13; 14]]}
    (mk_ob (Some (mkptr 1 2)) 0 0 (-1) 3 None 0) /\
  exists m', ob_set (mk_ob (Some (mkptr 1 2)) 0 0 (-1) 3 None 0)
               {[1%positive := [10; 11; 12; 13; 14]]} 1 99 = Some (0, m') /\
    ob_getbyte (mk_ob (Some (mkptr 1 0)) 0 0 (-1) 5 None 0) m' (2 + 1) = Some (u8 99).
Proof.
  apply (ob_slice_aliases (mk_ob (Some (mkptr 1 0)) 0 0 (-1) 5 None 0)
           {[1%positive := [10; 11; 12; 13; 14]]} 2 3).
  - constructor; simpl; unfold INT_MAX; try lia; [|done].
    exists [10; 11; 12; 13; 14]. split; [done|].
    split; [repeat constructor; lia|simpl; lia].
  - lia.
  - lia.
  - unfold INT_MAX. lia.
  - reflexivity.
  - lia.
  - reflexivity.
Defined.

(** [ob_dup] never yields a copy of a buffer that has been written to or
    read from (one whose position is past the start): the copy starts with the
    original's position and no memory, so either the append inside it is refused
    or it copies from NULL. *)
Theorem ob_dup_loses_data `{Allocator} b m :
  ob_wf m b -> 0 < position b ->
  ~ exists ret m', ob_dup b m = Some (ret, m') /\ ob_data m' ret = ob_data m b.
Proof.
  intros W HP (ret & m' & E & HD).
  destruct (ob_wf_data _ _ W) as (d & Hd & Hl & _). rewrite Hd in HD.
  pose proof (wf_bytes _ _ W) as HB. pose proof (wf_position _ _ W).
  pose proof (wf_limit _ _ W). pose proof (wf_checkpoint _ _ W).
  unfold ob_dup in E. destruct calloc_ok; [|done].
  destruct (bytes b) as [p|] eqn:Eb; [|lia].
  rewrite bool_decide_eq_true_2 in E by eauto.
  rewrite (proj2 (Z.eqb_neq (allocSize b) 0)) in E by lia. simpl in E.
  set (r0 := set_checkpointLength _ _) in E.
  set (n := if allocSize b <? _ then _ else _) in E.
  assert (Hn : position b <= n <= allocSize b).
  { subst n. destruct (Z.ltb_spec (sizeLimit b) (position b)); zcases; lia. }
  unfold ob_append_from, ob_makespace in E. simpl in E.
  destruct (ci (position b + n)) as [need|] eqn:En; [|done].
  apply ci_inv in En as [-> _]. simpl in E.
  destruct (negb (sizeLimit b =? -1) && (sizeLimit b <? position b + n)).
  - simpl in E. injection E as <- <-. unfold ob_data, bytes_at in HD. simpl in HD.
    rewrite (proj2 (Z.eqb_neq (position b) 0)) in HD by lia. done.
  - rewrite (proj2 (Z.leb_gt (position b + n) 0)) in E by lia. simpl in E.
    destruct (ob_newSize _); [|done]. simpl in E.
    destruct (malloc m z) as [[? ?]|]; simpl in E;
      rewrite (proj2 (Z.eqb_neq (position b) 0)) in E by lia; done.
Qed.

Lemma ob_dup_loses_data_witness :
  ~ exists ret m', ob_dup (mk_ob (Some (mkptr 1 0)) 0 2 (-1) 5 None 0)
                     {[1%positive := [10; 11; 12; 13; 14]]} = Some (ret, m') /\
    ob_data m' ret = ob_data {[1%positive := [10; 11; 12; 13; 14]]}
                       (mk_ob (Some (mkptr 1 0)) 0 2 (-1) 5 None 0).
Proof.
  apply (ob_dup_loses_data (mk_ob (Some (mkptr 1 0)) 0 2 (-1) 5 None 0)
           {[1%positive := [10; 11; 12; 13; 14]]}).
  - constructor; simpl; unfold INT_MAX; try lia; [|done].
    exists [10; 11; 12; 13; 14]. split; [done|].
    split; [repeat constructor; lia|simpl; lia].
  - reflexivity.
Defined.
