(* ===== verification/RotBuf.v ===== *)
(** RotBuf: rotbuf.h and rotbuf.c, a buffer whose first byte lies at an offset
    and whose content wraps around.

    The four pointers of [struct rotbuf] all point into one array; they are
    kept as offsets from [buf], so [ebuf] is the size.  The array itself is a
    list of bytes passed to the operations that read or write it; [None] is an
    access outside it. *)

From S2P Require Import Prelude.

Record rotbuf := mk_rb { ebuf : Z; start : Z; cursor : Z; wrap : Z }.

#[export] Instance rotbuf_eq_dec : EqDecision rotbuf.
Proof. solve_decision. Defined.

Definition EOF : Z := -1.

(** The remainder by a zero size is undefined. *)
Definition rotbuf_init (size rot : Z) : option rotbuf :=
  if size =? 0 then None
  else
    let s := if rot <? 0 then size - 1 - (-1 - rot) mod size else rot mod size in
    Some (mk_rb size s s 0).

Definition rotbuf_reset (rb : rotbuf) : rotbuf := mk_rb (ebuf rb) (start rb) (start rb) 0.

Definition rotbuf_position (rb : rotbuf) : Z :=
  if negb (wrap rb =? 0) then ebuf rb
  else if start rb <=? cursor rb then cursor rb - start rb
  else cursor rb + (ebuf rb - start rb).

Definition rotbuf_remain (rb : rotbuf) : Z :=
  if negb (wrap rb =? 0) then 0
  else if cursor rb <? start rb then start rb - cursor rb
  else (ebuf rb - cursor rb) + start rb.

Definition rotbuf_count (rb : rotbuf) : Z :=
  if negb (wrap rb =? 0) then ebuf rb + wrap rb - 1 else rotbuf_position rb.

Definition rotbuf_advance (rb : rotbuf) (n : Z) : rotbuf :=
  if negb (wrap rb =? 0) then mk_rb (ebuf rb) (start rb) (cursor rb) (u32 (wrap rb + n))
  else if n =? 0 then rb
  else if start rb <=? cursor rb then
    let c := cursor rb + n in
    if ebuf rb <=? c then
      let c := c - ebuf rb in
      if start rb <=? c
      then mk_rb (ebuf rb) (start rb) (start rb) (u32 (1 + (c - start rb)))
      else mk_rb (ebuf rb) (start rb) c 0
    else mk_rb (ebuf rb) (start rb) c 0
  else
    let c := cursor rb + n in
    if start rb <=? c
    then mk_rb (ebuf rb) (start rb) (start rb) (u32 (1 + (c - start rb)))
    else mk_rb (ebuf rb) (start rb) c 0.

(** The cursor step after one byte was read or written. *)
Definition rotbuf_next (rb : rotbuf) : rotbuf :=
  let c := cursor rb + 1 in
  let c := if c =? ebuf rb then 0 else c in
  mk_rb (ebuf rb) (start rb) c (if c =? start rb then 1 else wrap rb).

Definition rotbuf_getc (buf : list Z) (rb : rotbuf) : option (Z * rotbuf) :=
  if negb (wrap rb =? 0)
  then Some (EOF, mk_rb (ebuf rb) (start rb) (cursor rb) (u32 (wrap rb + 1)))
  else c ← zget buf (cursor rb); Some (c, rotbuf_next rb).

(** [*buf++ = rotbuf_getc(rb)] stores an [unsigned char]. *)
Fixpoint rotbuf_getbuf (buf : list Z) (rb : rotbuf) (n : nat) : option (list Z * rotbuf) :=
  match n with
  | O => Some ([], rb)
  | S n =>
      '(c, rb) ← rotbuf_getc buf rb;
      '(d, rb) ← rotbuf_getbuf buf rb n;
      Some (u8 c :: d, rb)
  end.

Definition rotbuf_putc (buf : list Z) (rb : rotbuf) (c : Z) : option (list Z * rotbuf) :=
  if negb (wrap rb =? 0)
  then Some (buf, mk_rb (ebuf rb) (start rb) (cursor rb) (u32 (wrap rb + 1)))
  else buf' ← zset buf (cursor rb) c; Some (buf', rotbuf_next rb).

Fixpoint rotbuf_putbuf (buf : list Z) (rb : rotbuf) (d : list Z)
    : option (list Z * rotbuf) :=
  match d with
  | [] => Some (buf, rb)
  | c :: d => '(buf, rb) ← rotbuf_putc buf rb c; rotbuf_putbuf buf rb d
  end.

(** [None] is a failed assertion. *)
Definition rotbuf_delta (origin dest : rotbuf) : option Z :=
  if (ebuf origin =? ebuf dest) && (start origin =? start dest) then
    let org := if cursor origin <? start origin then cursor origin + ebuf origin
               else cursor origin in
    let dst := if cursor dest <? start dest then cursor dest + ebuf dest
               else cursor dest in
    if (start origin <=? org) && (start dest <=? dst) then Some (dst - org) else None
  else None.

(** The contiguous region at the cursor (offset and length), or NULL. *)
Definition rotbuf_next_chunk (rb : rotbuf) : option (Z * Z) * rotbuf :=
  if negb (wrap rb =? 0) then (None, rb)
  else if start rb <=? cursor rb then
    (Some (cursor rb, ebuf rb - cursor rb),
     mk_rb (ebuf rb) (start rb) 0 (if 0 =? start rb then u32 (wrap rb + 1) else wrap rb))
  else
    (Some (cursor rb, start rb - cursor rb),
     mk_rb (ebuf rb) (start rb) (start rb) (u32 (wrap rb + 1))).

(** ** The abstract state: how far the cursor has been advanced *)

(** The concrete state after advancing [c] bytes, overrun included. *)
Definition rb_at (size s c : Z) : rotbuf :=
  if c <? size then mk_rb size s ((s + c) mod size) 0
  else mk_rb size s s (c - size + 1).

(** A buffer geometry and a count whose overrun fits the wrap counter. *)
Definition rb_ok (size s c : Z) : Prop :=
  0 < size /\ 0 <= s < size /\ 0 <= c /\ c - size + 1 < 2 ^ 32.

Lemma mod_once a n : 0 < n -> 0 <= a < 2 * n -> a mod n = if a <? n then a else a - n.
Proof.
  intros. destruct (Z.ltb_spec a n); [apply Z.mod_small; lia|].
  symmetry. apply (Z.mod_unique_pos a n 1); lia.
Qed.

Lemma rotbuf_init_at size rot : 0 < size ->
  rotbuf_init size rot = Some (rb_at size (rot mod size) 0).
Proof.
  intros. unfold rotbuf_init, rb_at. zdecide. f_equal. rewrite Z.add_0_r, Z.mod_mod by lia.
  destruct (Z.ltb_spec rot 0); [|done].
  pose proof (Z.mod_pos_bound (-1 - rot) size ltac:(lia)).
  pose proof (Z.div_mod (-1 - rot) size ltac:(lia)).
  rewrite <- (Z.mod_unique_pos rot size (- ((-1 - rot) / size) - 1)
                (size - 1 - (-1 - rot) mod size)); [done|lia|lia].
Qed.

(** Put a count into its two cases and compute the cursor. *)
Ltac rb_cases :=
  unfold rb_ok, rb_at in *; intros;
  repeat match goal with H : _ /\ _ |- _ => destruct H end;
  repeat match goal with
  | |- context [?a <? ?b] => destruct (Z.ltb_spec a b)
  end; cbn [ebuf start cursor wrap] in *;
  rewrite ?mod_once in * by lia;
  repeat match goal with
  | |- context [if ?a <? ?b then _ else _] => destruct (Z.ltb_spec a b)
  end; cbn [ebuf start cursor wrap] in *.

Lemma rotbuf_count_at size s c : rb_ok size s c -> rotbuf_count (rb_at size s c) = c.
Proof.
  unfold rotbuf_count, rotbuf_position. rb_cases; zdecide; repeat case_match; zify_bool; lia.
Qed.

(** The counters of a rotated buffer obey the invariants its header states:
    after advancing [c] bytes, [rotbuf_count] is [c], [rotbuf_position] is [c]
    capped at the buffer size, and position and remainder add up to the size. *)
Theorem rotbuf_counters size s c :
  rb_ok size s c ->
  rotbuf_count (rb_at size s c) = c /\
  rotbuf_position (rb_at size s c) = Z.min c size /\
  rotbuf_position (rb_at size s c) + rotbuf_remain (rb_at size s c) = size.
Proof.
  intros Hok. split; [by apply rotbuf_count_at|]. revert Hok.
  unfold rotbuf_position, rotbuf_remain. rb_cases;
    zdecide; repeat case_match; zify_bool; lia.
Qed.

Lemma rotbuf_counters_witness :
  rotbuf_count (rb_at 5 3 7) = 7 /\ rotbuf_position (rb_at 5 3 7) = Z.min 7 5 /\
  rotbuf_position (rb_at 5 3 7) + rotbuf_remain (rb_at 5 3 7) = 5.
Proof. apply (rotbuf_counters 5 3 7). unfold rb_ok. lia. Defined.

Lemma rotbuf_advance_at size s c n :
  rb_ok size s c -> 0 <= n -> rb_ok size s (c + n) ->
  rotbuf_advance (rb_at size s c) n = rb_at size s (c + n).
Proof.
  intros H0 Hn H1. destruct (Z.eq_dec n 0) as [->|].
  { rewrite Z.add_0_r. unfold rotbuf_advance.
    unfold rb_ok, rb_at in *. destruct (Z.ltb_spec c size); cbn [ebuf start cursor wrap].
    - done.
    - zdecide. rewrite Z.add_0_r, u32_id by lia. done. }
  unfold rotbuf_advance. unfold rb_ok, rb_at in *.
  destruct (Z.ltb_spec c size); cbn [ebuf start cursor wrap].
  2:{ zdecide. rewrite u32_id by lia. f_equal. lia. }
  zdecide. rewrite !mod_once by lia.
  destruct (Z.ltb_spec (s + c) size).
  - zdecide. destruct (Z.ltb_spec (c + n) size).
    + rewrite mod_once by lia. destruct (Z.ltb_spec (s + (c + n)) size); zdecide.
      * f_equal; lia.
      * f_equal; lia.
    + zdecide. rewrite u32_id by lia. f_equal. lia.
  - zdecide. destruct (Z.ltb_spec (c + n) size).
    + rewrite mod_once by lia. zdecide. f_equal; lia.
    + zdecide. rewrite u32_id by lia. f_equal. lia.
Qed.

Lemma rotbuf_next_at size s c :
  rb_ok size s c -> c < size -> rotbuf_next (rb_at size s c) = rb_at size s (c + 1).
Proof.
  unfold rb_ok, rb_at, rotbuf_next. intros. zdecide. cbn [ebuf start cursor wrap].
  rewrite mod_once by lia. destruct (Z.ltb_spec (s + c) size);
    destruct (Z.ltb_spec (c + 1) size); rewrite ?mod_once by lia.
  - destruct (Z.ltb_spec (s + (c + 1)) size); zdecide; f_equal; lia.
  - zdecide. f_equal; lia.
  - zdecide. f_equal; lia.
  - zdecide. f_equal; lia.
Qed.

(** The bytes in rotated order. *)
Definition rb_view (s : Z) (buf : list Z) : list Z :=
  drop (Z.to_nat s) buf ++ take (Z.to_nat s) buf.

Lemma rb_view_length s buf : length (rb_view s buf) = length buf.
Proof. unfold rb_view. rewrite length_app, length_take, length_drop. lia. Qed.

Lemma rb_view_lookup s buf i :
  0 <= s < zlen buf -> (i < length buf)%nat ->
  rb_view s buf !! i = buf !! Z.to_nat ((s + Z.of_nat i) mod zlen buf).
Proof.
  intros Hs Hi. rewrite mod_once by lia. unfold rb_view.
  destruct (Z.ltb_spec (s + Z.of_nat i) (zlen buf)).
  - rewrite lookup_app_l by (rewrite length_drop; lia).
    rewrite lookup_drop. f_equal. lia.
  - rewrite lookup_app_r by (rewrite length_drop; lia). rewrite length_drop.
    rewrite lookup_take_lt by lia. f_equal. lia.
Qed.

Lemma zget_view s c buf :
  rb_ok (zlen buf) s c -> c < zlen buf ->
  zget (rb_view s buf) c = zget buf ((s + c) mod zlen buf).
Proof.
  unfold rb_ok, zget. intros.
  rewrite (proj2 (Z.leb_le 0 ((s + c) mod zlen buf))) by (apply Z.mod_pos_bound; lia).
  zdecide. rewrite rb_view_lookup by lia. by rewrite Z2Nat.id by lia.
Qed.

Lemma rotbuf_getc_at buf s c :
  rb_ok (zlen buf) s c -> rb_ok (zlen buf) s (c + 1) ->
  rotbuf_getc buf (rb_at (zlen buf) s c)
  = Some (default EOF (zget (rb_view s buf) c), rb_at (zlen buf) s (c + 1)).
Proof.
  intros H0 H1. destruct (Z.lt_ge_cases c (zlen buf)) as [Hc|Hc].
  - unfold rotbuf_getc. rewrite <- (rotbuf_next_at _ _ _ H0 Hc).
    rewrite (zget_view s c buf) by done.
    assert (Hw : wrap (rb_at (zlen buf) s c) = 0) by (unfold rb_at; by zdecide).
    assert (Hcu : cursor (rb_at (zlen buf) s c) = (s + c) mod zlen buf)
      by (unfold rb_at; by zdecide).
    rewrite Hw, Hcu. simpl. unfold rb_ok in *.
    destruct (zget_is_Some buf ((s + c) mod zlen buf)) as [x ->]; [|done].
    apply Z.mod_pos_bound. lia.
  - assert (E : zget (rb_view s buf) c = None).
    { destruct (zget _ _) eqn:E; [|done]. apply zget_Some_range in E.
      rewrite rb_view_length in E. lia. }
    rewrite E. unfold rb_ok, rotbuf_getc, rb_at in *. zdecide. cbn [ebuf start cursor wrap].
    zdecide. rewrite u32_id by lia. simpl. do 3 f_equal. lia.
Qed.

Lemma rotbuf_getbuf_at buf s c n :
  are_bytes buf -> rb_ok (zlen buf) s c -> rb_ok (zlen buf) s (c + Z.of_nat n) ->
  rotbuf_getbuf buf (rb_at (zlen buf) s c) n
  = Some (take n (drop (Z.to_nat c) (rb_view s buf) ++ replicate n 255),
          rb_at (zlen buf) s (c + Z.of_nat n)).
Proof.
  intros Hb.
  assert (Hv : are_bytes (rb_view s buf))
    by (apply Forall_app_2; [by apply Forall_drop|by apply Forall_take]).
  revert c. induction n as [|n IH]; intros c H0 H1.
  { simpl. by rewrite Z.add_0_r. }
  assert (H2 : rb_ok (zlen buf) s (c + 1)) by (unfold rb_ok in *; lia).
  cbn [rotbuf_getbuf]. rewrite rotbuf_getc_at by done. cbn [mbind option_bind].
  rewrite (IH (c + 1)); [|done|unfold rb_ok in *; lia]. cbn [mbind option_bind].
  replace (c + 1 + Z.of_nat n) with (c + Z.of_nat (S n)) by lia. f_equal. f_equal.
  destruct (zget (rb_view s buf) c) as [x|] eqn:E; cbn [default].
  - rewrite (drop_zget _ _ _ E). cbn [take app]. f_equal.
    + apply u8_id. by eapply zget_Forall.
    + replace (Z.to_nat (c + 1)) with (S (Z.to_nat c)) by (unfold rb_ok in *; lia).
      rewrite replicate_S_end, app_assoc.
      rewrite (take_app_le (drop (S (Z.to_nat c)) (rb_view s buf) ++ replicate n 255));
        [done|]. rewrite length_app, length_replicate. lia.
  - assert (Hge : (length (rb_view s buf) <= Z.to_nat c)%nat).
    { unfold zget in E. destruct (Z.leb_spec 0 c); [|unfold rb_ok in *; lia].
      by apply lookup_ge_None_1. }
    rewrite !drop_ge by lia. cbn. f_equal.
Qed.

(** Fetching [n] bytes yields the rotated content from the current position
    on, and 255 (the byte of EOF) for every byte past the end; the cursor is left
    exactly where [rotbuf_advance] by [n] leaves it. *)
Theorem rotbuf_getbuf_correct buf s c n :
  are_bytes buf -> rb_ok (zlen buf) s c -> rb_ok (zlen buf) s (c + Z.of_nat n) ->
  rotbuf_getbuf buf (rb_at (zlen buf) s c) n
  = Some (take n (drop (Z.to_nat c) (rb_view s buf) ++ replicate n 255),
          rotbuf_advance (rb_at (zlen buf) s c) (Z.of_nat n)).
Proof.
  intros Hb H0 H1. rewrite rotbuf_advance_at by (done || lia). by apply rotbuf_getbuf_at.
Qed.

Lemma rotbuf_getbuf_correct_witness :
  rotbuf_getbuf [1; 2; 3] (rb_at 3 2 1) 4
  = Some ([1; 2; 255; 255], rotbuf_advance (rb_at 3 2 1) 4).
Proof.
  apply (rotbuf_getbuf_correct [1; 2; 3] 2 1 4).
  - repeat constructor; lia.
  - unfold rb_ok. simpl. lia.
  - unfold rb_ok. simpl. lia.
Defined.

(** ** Writing *)

Lemma rb_view_insert s c x buf :
  rb_ok (zlen buf) s c -> c < zlen buf ->
  rb_view s (<[Z.to_nat ((s + c) mod zlen buf) := x]> buf)
  = <[Z.to_nat c := x]> (rb_view s buf).
Proof.
  intros Hok Hc. apply list_eq. intros i.
  destruct (Nat.lt_ge_cases i (length buf)) as [Hi|Hi].
  2:{ rewrite !lookup_ge_None_2; [done| |];
      rewrite ?length_insert, ?rb_view_length, ?length_insert; lia. }
  set (buf' := <[_ := x]> buf).
  assert (HL : length buf' = length buf) by apply length_insert.
  unfold rb_ok in *. rewrite rb_view_lookup by lia. rewrite HL. subst buf'.
  destruct (decide (i = Z.to_nat c)) as [->|Hne].
  - rewrite Z2Nat.id by lia. rewrite !list_lookup_insert_eq; [done| |].
    + rewrite rb_view_length. lia.
    + pose proof (Z.mod_pos_bound (s + c) (zlen buf) ltac:(lia)). lia.
  - rewrite !list_lookup_insert_ne; [by rewrite rb_view_lookup by lia|done|].
    rewrite !mod_once by lia.
    destruct (Z.ltb_spec (s + c) (zlen buf)), (Z.ltb_spec (s + Z.of_nat i) (zlen buf)); lia.
Qed.

Lemma rotbuf_putc_at buf s c x :
  rb_ok (zlen buf) s c -> rb_ok (zlen buf) s (c + 1) ->
  exists buf', rotbuf_putc buf (rb_at (zlen buf) s c) x
               = Some (buf', rb_at (zlen buf) s (c + 1)) /\
    length buf' = length buf /\
    rb_view s buf' = <[Z.to_nat c := x]> (rb_view s buf).
Proof.
  intros H0 H1. unfold rotbuf_putc. destruct (Z.lt_ge_cases c (zlen buf)) as [Hc|Hc].
  - rewrite <- (rotbuf_next_at _ _ _ H0 Hc).
    assert (Hw : wrap (rb_at (zlen buf) s c) = 0) by (unfold rb_at; by zdecide).
    assert (Hcu : cursor (rb_at (zlen buf) s c) = (s + c) mod zlen buf)
      by (unfold rb_at; by zdecide).
    rewrite Hw, Hcu. simpl. rewrite zset_Some
      by (apply Z.mod_pos_bound; unfold rb_ok in *; lia). simpl.
    eexists. split; [done|]. split; [apply length_insert|]. by apply rb_view_insert.
  - exists buf. unfold rb_ok, rb_at in *. zdecide. cbn [ebuf start cursor wrap]. zdecide.
    rewrite u32_id by lia. split; [do 3 f_equal; lia|]. split; [done|].
    rewrite list_insert_ge; [done|]. rewrite rb_view_length. lia.
Qed.

Lemma rotbuf_putbuf_at d : forall buf s c,
  rb_ok (zlen buf) s c -> rb_ok (zlen buf) s (c + zlen d) ->
  exists buf', rotbuf_putbuf buf (rb_at (zlen buf) s c) d
               = Some (buf', rb_at (zlen buf) s (c + zlen d)) /\
    length buf' = length buf /\
    rb_view s buf' = take (Z.to_nat c) (rb_view s buf)
                     ++ take (length buf - Z.to_nat c) d
                     ++ drop (Z.to_nat c + length d) (rb_view s buf).
Proof.
  induction d as [|x d IH]; intros buf s c H0 H1.
  { exists buf. split; [simpl; by rewrite Z.add_0_r|]. split; [done|].
    simpl. rewrite Nat.add_0_r, take_nil. simpl. by rewrite take_drop. }
  assert (H2 : rb_ok (zlen buf) s (c + 1)) by (unfold rb_ok in *; simpl in *; lia).
  destruct (rotbuf_putc_at buf s c x H0 H2) as (b1 & E1 & L1 & V1).
  destruct (IH b1 s (c + 1)) as (b2 & E2 & L2 & V2);
    [by rewrite L1|rewrite L1; unfold rb_ok in *; simpl in *; lia|].
  exists b2. cbn [rotbuf_putbuf]. rewrite E1. cbn [mbind option_bind].
  rewrite L1 in *. rewrite E2. split; [do 3 f_equal; rewrite length_cons; lia|].
  split; [done|]. rewrite V2, V1. unfold rb_ok in *.
  assert (HV : length (rb_view s buf) = length buf) by apply rb_view_length.
  replace (Z.to_nat (c + 1)) with (S (Z.to_nat c)) by lia.
  rewrite length_cons, drop_insert_lt by lia.
  replace (S (Z.to_nat c) + length d)%nat with (Z.to_nat c + S (length d))%nat by lia.
  destruct (Nat.lt_ge_cases (Z.to_nat c) (length buf)) as [Hc|Hc].
  - rewrite (take_S_r (<[_ := x]> _) (Z.to_nat c) x)
      by (apply list_lookup_insert_eq; lia).
    rewrite take_insert_ge by lia. rewrite <- app_assoc. f_equal.
    replace (length buf - Z.to_nat c)%nat with (S (length buf - S (Z.to_nat c))) by lia.
    done.
  - rewrite list_insert_ge by lia. rewrite !(take_ge (rb_view s buf)) by lia.
    replace (length buf - S (Z.to_nat c))%nat with 0%nat by lia.
    replace (length buf - Z.to_nat c)%nat with 0%nat by lia. done.
Qed.

(** What is put into a rotated buffer comes out again: after writing [d] from
    the start position, resetting the cursor and fetching as many bytes, the
    result is [d] when it fits, and otherwise its first [size] bytes followed by
    EOF bytes; the overrun is counted and overwrites nothing. *)
Theorem rotbuf_put_get d buf rot :
  are_bytes buf -> are_bytes d -> 0 < zlen buf -> zlen d < 2 ^ 32 ->
  exists rb buf' rb1 rb2,
    rotbuf_init (zlen buf) rot = Some rb /\
    rotbuf_putbuf buf rb d = Some (buf', rb1) /\ rotbuf_count rb1 = zlen d /\
    rotbuf_getbuf buf' (rotbuf_reset rb1) (length d)
    = Some (take (length buf) d ++ replicate (length d - length buf) 255, rb2) /\
    rb2 = rb1.
Proof.
  intros Hb Hd Hn Hl. set (s := rot mod zlen buf).
  assert (Hs : 0 <= s < zlen buf) by (apply Z.mod_pos_bound; lia).
  assert (H0 : rb_ok (zlen buf) s 0) by (unfold rb_ok; lia).
  assert (H1 : rb_ok (zlen buf) s (0 + zlen d)) by (unfold rb_ok; lia).
  destruct (rotbuf_putbuf_at d buf s 0 H0 H1) as (buf' & E & L & V).
  exists (rb_at (zlen buf) s 0), buf', (rb_at (zlen buf) s (0 + zlen d)),
    (rb_at (zlen buf) s (0 + zlen d)).
  split; [by rewrite rotbuf_init_at|]. split; [done|].
  split; [by apply rotbuf_count_at|]. split; [|done].
  assert (Hr : rotbuf_reset (rb_at (zlen buf) s (0 + zlen d)) = rb_at (zlen buf) s 0).
  { unfold rotbuf_reset, rb_at. destruct (0 + zlen d <? zlen buf); zdecide; simpl;
      rewrite Z.add_0_r, (Z.mod_small s) by lia; done. }
  simpl in V. rewrite Nat.sub_0_r in V.
  assert (HV : length (rb_view s buf) = length buf) by apply rb_view_length.
  assert (Hb' : are_bytes buf').
  { assert (are_bytes (rb_view s buf')) as HF.
    { rewrite V. apply Forall_app_2; [by apply Forall_take|apply Forall_drop].
      apply Forall_app_2; [by apply Forall_drop|by apply Forall_take]. }
    unfold rb_view in HF. apply Forall_app in HF as [HF1 HF2].
    rewrite <- (take_drop (Z.to_nat s) buf'). by apply Forall_app_2. }
  rewrite Hr, <- L, rotbuf_getbuf_at; [|done|rewrite L; done|rewrite L; done].
  rewrite L. f_equal. f_equal.
  simpl. rewrite V, drop_0. destruct (Nat.le_ge_cases (length d) (length buf)).
  - rewrite (take_ge d) by lia. replace (length d - length buf)%nat with 0%nat by lia.
    rewrite <- !app_assoc, take_app_length. by rewrite app_nil_r.
  - rewrite (drop_ge (rb_view s buf)) by lia. rewrite app_nil_r, take_app_ge
      by (rewrite length_take; lia). rewrite length_take, take_replicate. do 2 f_equal. lia.
Qed.

Lemma rotbuf_put_get_witness :
  exists rb buf' rb1 rb2,
    rotbuf_init 4 (-3) = Some rb /\
    rotbuf_putbuf [0; 0; 0; 0] rb [1; 2; 3; 4; 5] = Some (buf', rb1) /\
    rotbuf_count rb1 = 5 /\
    rotbuf_getbuf buf' (rotbuf_reset rb1) 5 = Some ([1; 2; 3; 4; 255], rb2) /\ rb2 = rb1.
Proof.
  apply (rotbuf_put_get [1; 2; 3; 4; 5] [0; 0; 0; 0] (-3)).
  - repeat constructor; lia.
  - repeat constructor; lia.
  - simpl. lia.
  - simpl. lia.
Defined.

(** The region of the next chunk and the cursor after it. *)
Lemma rotbuf_next_chunk_at N s c :
  rb_ok N s c -> c < N ->
  let n := if s + c <? N then N - (s + c) else N - c in
  rotbuf_next_chunk (rb_at N s c) = (Some ((s + c) mod N, n), rb_at N s (c + n)) /\ 0 < n <= N - c.
Proof.
  intros Hok Hc n.
  assert (Hn : 0 < n <= N - c) by (unfold rb_ok, n in *; destruct (Z.ltb_spec (s + c) N); lia).
  split; [|done].
  unfold rb_ok, rotbuf_next_chunk, rb_at, n in *. zdecide. cbn [ebuf start cursor wrap].
  zdecide. rewrite !mod_once by lia. destruct (Z.ltb_spec (s + c) N).
  + zdecide. f_equal. destruct (Z.ltb_spec (c + (N - (s + c))) N).
    * zdecide. rewrite ?mod_once by lia. zdecide. f_equal; lia.
    * zdecide. change (u32 (0 + 1)) with 1. f_equal; lia.
  + zdecide. f_equal.
    * do 2 f_equal. lia.
    * f_equal; try lia. unfold u32. rewrite Z.mod_small; lia.
Qed.

(** The chunk iterator walks the rotated content: each chunk is a non-empty
    contiguous region of the buffer holding exactly the next bytes in rotated
    order, the cursor moves past it, and at the end it reports no chunk. *)
Theorem rotbuf_next_chunk_correct buf s c :
  rb_ok (zlen buf) s c ->
  if c <? zlen buf
  then exists o n, rotbuf_next_chunk (rb_at (zlen buf) s c)
                   = (Some (o, n), rotbuf_advance (rb_at (zlen buf) s c) n) /\
         0 < n <= zlen buf - c /\
         zslice buf o n = Some (take (Z.to_nat n) (drop (Z.to_nat c) (rb_view s buf)))
  else rotbuf_next_chunk (rb_at (zlen buf) s c) = (None, rb_at (zlen buf) s c).
Proof.
  intros Hok. destruct (Z.ltb_spec c (zlen buf)) as [Hc|Hc].
  2:{ unfold rb_ok, rotbuf_next_chunk, rb_at in *. zdecide. cbn [wrap]. by zdecide. }
  destruct (rotbuf_next_chunk_at (zlen buf) s c Hok Hc) as [E Hn]. set (n := if s + c <? zlen buf then _ else _) in *.
  exists ((s + c) mod zlen buf), n. split; [|split; [done|]].
  - rewrite rotbuf_advance_at by (unfold rb_ok in *; lia || done). done.
  - unfold rb_ok, n in *. rewrite !mod_once by lia. unfold rb_view.
    destruct (Z.ltb_spec (s + c) (zlen buf)).
    + rewrite zslice_Some by lia. f_equal.
      rewrite drop_app_le by (rewrite length_drop; lia). rewrite drop_drop.
      rewrite take_app_le by (rewrite length_drop; lia). f_equal. f_equal. lia.
    + rewrite zslice_Some by lia. f_equal.
      rewrite drop_app_ge by (rewrite length_drop; lia). rewrite length_drop.
      rewrite skipn_firstn_comm, take_take. f_equal; [lia|]. f_equal. lia.
Qed.

Lemma rotbuf_next_chunk_correct_witness :
  exists o n, rotbuf_next_chunk (rb_at 4 3 2)
              = (Some (o, n), rotbuf_advance (rb_at 4 3 2) n) /\
    0 < n <= 4 - 2 /\
    zslice [1; 2; 3; 4] o n
    = Some (take (Z.to_nat n) (drop (Z.to_nat 2) (rb_view 3 [1; 2; 3; 4]))).
Proof.
  apply (rotbuf_next_chunk_correct [1; 2; 3; 4] 3 2). unfold rb_ok. simpl. lia.
Defined.

(** Cursors inside the buffer subtract like plain pointers. *)
Lemma rotbuf_delta_at size s c1 c2 :
  rb_ok size s c1 -> rb_ok size s c2 -> c1 < size -> c2 < size ->
  rotbuf_delta (rb_at size s c1) (rb_at size s c2) = Some (c2 - c1).
Proof.
  unfold rb_ok, rotbuf_delta, rb_at. intros. zdecide. cbn [ebuf start cursor]. zdecide.
  rewrite !mod_once by lia.
  destruct (Z.ltb_spec (s + c1) size), (Z.ltb_spec (s + c2) size); zdecide; f_equal; lia.
Qed.
