(* ===== verification/Fifo.v ===== *)
(** Fifo: fifo.c, the circular byte queue of the audio path.

    The struct ends in its data array; all its counters are [unsigned int].
    [None] is an out-of-range memcpy, or a loop that was given too few passes
    (the theorems show that the passes given are enough). *)

From S2P Require Import Prelude RotBuf.

Record fifo := mk_fifo { rdidx : Z; wridx : Z; size : Z; len : Z; buffer : list Z }.

(** [contents] is what malloc returned behind the header. *)
Definition fifo_alloc (n : Z) (contents : option (list Z)) : option fifo :=
  match contents with
  | Some l => Some (mk_fifo 0 0 n 0 l)
  | None => None
  end.

Definition fifo_reset (f : fifo) : fifo := mk_fifo 0 0 (size f) 0 (buffer f).

(** One pass copies a run that does not cross the end of the array. *)
Fixpoint put_loop (fuel : nat) (f : fifo) (src : list Z) (remaining : Z) : option fifo :=
  if 0 <? remaining then
    match fuel with
    | O => None
    | S fuel =>
        let l := Z.min remaining (u32 (size f - wridx f)) in
        d ← zslice src 0 l;
        b ← zblit (buffer f) (wridx f) d;
        put_loop fuel
          (mk_fifo (rdidx f) (u32 (wridx f + l) mod size f) (size f) (u32 (len f + l)) b)
          (drop (Z.to_nat l) src) (remaining - l)
    end
  else Some f.

Definition fifo_put (f : fifo) (src : list Z) (n : Z) : option (Z * fifo) :=
  let total := Z.min n (u32 (size f - len f)) in
  f' ← put_loop (Z.to_nat total) f src total; Some (total, f').

Fixpoint get_loop (fuel : nat) (f : fifo) (remaining : Z) : option (list Z * fifo) :=
  if 0 <? remaining then
    match fuel with
    | O => None
    | S fuel =>
        let l := Z.min remaining (u32 (size f - rdidx f)) in
        d ← zslice (buffer f) (rdidx f) l;
        '(out, f') ← get_loop fuel
          (mk_fifo (u32 (rdidx f + l) mod size f) (wridx f) (size f) (u32 (len f - l)) (buffer f))
          (remaining - l);
        Some (d ++ out, f')
    end
  else Some ([], f).

(** The number of bytes copied, the bytes, the new queue. *)
Definition fifo_get (f : fifo) (n : Z) : option (Z * list Z * fifo) :=
  let total := Z.min n (len f) in
  '(out, f') ← get_loop (Z.to_nat total) f total; Some (total, out, f').

(** [while (dst < 0) dst += fifo->size;] with the sum computed unsigned. *)
Fixpoint unget_index (fuel : nat) (sz dst : Z) : option Z :=
  if dst <? 0 then
    match fuel with
    | O => None
    | S fuel => unget_index fuel sz (i32 (u32 (dst + sz)))
    end
  else Some dst.

(** The copying loop advances the source and the counts but not [dst]. *)
Fixpoint unget_loop (fuel : nat) (f : fifo) (dst : Z) (src : list Z) (remaining : Z)
    : option fifo :=
  if 0 <? remaining then
    match fuel with
    | O => None
    | S fuel =>
        let l := Z.min remaining (u32 (size f - dst)) in
        d ← zslice src 0 l;
        b ← zblit (buffer f) dst d;
        unget_loop fuel (mk_fifo (rdidx f) (wridx f) (size f) (u32 (len f + l)) b)
          dst (drop (Z.to_nat l) src) (remaining - l)
    end
  else Some f.

Definition fifo_unget (f : fifo) (src : list Z) (n : Z) : option (Z * fifo) :=
  let total := Z.min n (u32 (size f - len f)) in
  dst ← unget_index (Z.to_nat n) (size f) (i32 (u32 (rdidx f - n)));
  f' ← unget_loop (Z.to_nat total) f dst src total;
  Some (total, mk_fifo (u32 dst) (wridx f') (size f') (len f') (buffer f')).

Definition fifo_avail (f : fifo) : Z := len f.
Definition fifo_space (f : fifo) : Z := u32 (size f - len f).

(** ** The queue a fifo represents *)

Record fifo_wf (f : fifo) : Prop := {
  fw_size : 0 < size f < 2 ^ 31;
  fw_buffer : zlen (buffer f) = size f;
  fw_rdidx : 0 <= rdidx f < size f;
  fw_len : 0 <= len f <= size f;
  fw_wridx : wridx f = (rdidx f + len f) mod size f
}.

Definition fifo_contents (f : fifo) : list Z :=
  take (Z.to_nat (len f)) (rb_view (rdidx f) (buffer f)).

Lemma fifo_contents_length f : fifo_wf f -> zlen (fifo_contents f) = len f.
Proof.
  intros W. destruct W. unfold fifo_contents. rewrite length_take, rb_view_length. lia.
Qed.

(** Overwriting a run that does not cross the end, seen in rotated order. *)
Lemma rb_view_blit s c d buf buf' :
  0 <= s < zlen buf -> 0 <= c -> c + zlen d <= zlen buf ->
  c < zlen buf -> (s + c) mod zlen buf + zlen d <= zlen buf ->
  zblit buf ((s + c) mod zlen buf) d = Some buf' ->
  rb_view s buf' = take (Z.to_nat c) (rb_view s buf) ++ d
                   ++ drop (Z.to_nat c + length d) (rb_view s buf).
Proof.
  intros Hs Hc Hl Hcs Ho (? & ? & ->)%zblit_inv. rewrite mod_once in * by lia.
  unfold rb_view. destruct (Z.ltb_spec (s + c) (zlen buf)).
  - rewrite (drop_app_le (take _ buf)) by (rewrite length_take; lia).
    rewrite (take_app_le (take _ buf)) by (rewrite length_take; lia).
    rewrite take_take, Nat.min_l by lia.
    rewrite (take_app_le (drop _ buf)) by (rewrite length_drop; lia).
    rewrite (drop_app_le (drop _ buf)) by (rewrite length_drop; lia).
    rewrite Z2Nat.inj_add by lia. rewrite <- take_drop_commute, drop_drop.
    rewrite <- !app_assoc. do 4 f_equal. lia.
  - rewrite (drop_app_ge (take _ buf)) by (rewrite length_take; lia).
    rewrite length_take. rewrite (drop_app_ge d) by lia. rewrite drop_drop.
    rewrite (take_app_ge (take _ buf)) by (rewrite length_take; lia).
    rewrite length_take. rewrite (take_app_ge d) by lia.
    rewrite (take_app_ge (drop _ buf)) by (rewrite length_drop; lia).
    rewrite (drop_app_ge (drop _ buf)) by (rewrite length_drop; lia).
    rewrite length_drop, take_take, skipn_firstn_comm.
    rewrite <- !app_assoc. f_equal; [f_equal; lia|]. f_equal; [f_equal; lia|]. f_equal.
    f_equal; [lia|]. f_equal. lia.
Qed.

(** Moving the read index forward drops the front of the queue. *)
Lemma rb_view_shift s l n buf :
  0 <= s < zlen buf -> 0 <= l -> l <= n <= zlen buf ->
  take (Z.to_nat (n - l)) (rb_view ((s + l) mod zlen buf) buf)
  = drop (Z.to_nat l) (take (Z.to_nat n) (rb_view s buf)).
Proof.
  intros Hs Hl Hn. rewrite skipn_firstn_comm.
  replace (Z.to_nat n - Z.to_nat l)%nat with (Z.to_nat (n - l)) by lia.
  apply list_eq. intros i. destruct (Nat.lt_ge_cases i (Z.to_nat (n - l))) as [Hi|Hi].
  2:{ rewrite !lookup_take_ge by lia. done. }
  rewrite !lookup_take_lt, lookup_drop by lia.
  pose proof (Z.mod_pos_bound (s + l) (zlen buf) ltac:(lia)).
  rewrite !rb_view_lookup by lia. f_equal. f_equal.
  rewrite Zplus_mod_idemp_l. f_equal. lia.
Qed.

Lemma u32_small z : 0 <= z < 2 ^ 31 -> u32 z = z.
Proof. intros. apply u32_id. lia. Qed.

(** One pass of the writing loop. *)
Lemma put_step f d l :
  fifo_wf f -> zlen d = l -> 0 < l -> l <= size f - len f -> l <= size f - wridx f ->
  exists b, zblit (buffer f) (wridx f) d = Some b /\
    let f' := mk_fifo (rdidx f) (u32 (wridx f + l) mod size f) (size f) (u32 (len f + l)) b in
    fifo_wf f' /\ fifo_contents f' = fifo_contents f ++ d.
Proof.
  intros [? HB ? ? HW] Hd ???.
  pose proof (Z.mod_pos_bound (rdidx f + len f) (size f) ltac:(lia)).
  destruct (zblit (buffer f) (wridx f) d) as [b|] eqn:E.
  2:{ rewrite zblit_Some in E by lia. done. }
  exists b. split; [done|]. cbv zeta. rewrite !u32_small by lia.
  pose proof (zblit_length _ _ _ _ E) as HL.
  split.
  - constructor; simpl; try lia. rewrite HW. rewrite Zplus_mod_idemp_l. f_equal. lia.
  - unfold fifo_contents; simpl. rewrite HW, <- HB in E.
    rewrite (rb_view_blit (rdidx f) (len f) d (buffer f) b);
      [|rewrite ?HB; rewrite <- ?HW; lia..|exact E].
    rewrite app_assoc, take_app_le
      by (rewrite length_app, length_take, rb_view_length; lia).
    apply take_ge. rewrite length_app, length_take, rb_view_length. lia.
Qed.

Lemma put_loop_spec fuel : forall f src n,
  fifo_wf f -> 0 <= n <= size f - len f -> n <= zlen src -> n <= Z.of_nat fuel ->
  exists f', put_loop fuel f src n = Some f' /\ fifo_wf f' /\ size f' = size f /\
    fifo_contents f' = fifo_contents f ++ take (Z.to_nat n) src.
Proof.
  induction fuel as [|fuel IH]; intros f src n W Hn Hs Hf.
  - assert (n = 0) as -> by lia. exists f. simpl. by rewrite app_nil_r.
  - cbn [put_loop]. destruct (Z.ltb_spec 0 n).
    2:{ assert (n = 0) as -> by lia. exists f. simpl. by rewrite app_nil_r. }
    destruct W as [? HB ? ? HW] eqn:EW. clear EW.
    pose proof (Z.mod_pos_bound (rdidx f + len f) (size f) ltac:(lia)).
    rewrite (u32_small (size f - wridx f)) by lia.
    set (l := Z.min n (size f - wridx f)).
    rewrite zslice_Some by lia. cbn [mbind option_bind]. rewrite drop_0.
    destruct (put_step f (take (Z.to_nat l) src) l) as (b & -> & W' & C');
      [done|rewrite length_take; lia|lia..|].
    cbn [mbind option_bind]. cbv zeta in *.
    rewrite !u32_small in * by lia.
    destruct (IH _ (drop (Z.to_nat l) src) (n - l) W') as (f' & E & W2 & S2 & C2);
      [simpl; lia|rewrite length_drop; lia|lia|].
    exists f'. split; [done|]. split; [done|]. split; [done|].
    rewrite C2, C', <- app_assoc. f_equal.
    replace (Z.to_nat n) with (Z.to_nat l + Z.to_nat (n - l))%nat by lia.
    by rewrite take_take_drop.
Qed.

(** [fifo_put] appends to the queue as many of the [n] given bytes as there is
    free space for, returns that number, and terminates without writing outside
    the array. *)
Theorem fifo_put_correct f src n :
  fifo_wf f -> 0 <= n <= zlen src ->
  exists f', fifo_put f src n = Some (Z.min n (fifo_space f), f') /\ fifo_wf f' /\
    fifo_contents f' = fifo_contents f ++ take (Z.to_nat (Z.min n (fifo_space f))) src.
Proof.
  intros W Hn. destruct W eqn:EW. clear EW. unfold fifo_put, fifo_space.
  rewrite u32_small by lia.
  destruct (put_loop_spec (Z.to_nat (Z.min n (size f - len f))) f src
              (Z.min n (size f - len f)) W) as (f' & -> & W' & _ & C'); [lia..|].
  simpl. eauto.
Qed.

Lemma fifo_put_correct_witness :
  exists f', fifo_put (mk_fifo 3 0 5 2 [0; 0; 0; 1; 2]) [3; 4; 5; 6] 4
             = Some (Z.min 4 (fifo_space (mk_fifo 3 0 5 2 [0; 0; 0; 1; 2])), f') /\
    fifo_wf f' /\ fifo_contents f' = [1; 2] ++ [3; 4; 5].
Proof.
  apply (fifo_put_correct (mk_fifo 3 0 5 2 [0; 0; 0; 1; 2]) [3; 4; 5; 6] 4).
  - constructor; simpl; try lia. reflexivity.
  - simpl. lia.
Defined.

(** One pass of the reading loop. *)
Lemma get_step f l :
  fifo_wf f -> 0 < l -> l <= len f -> l <= size f - rdidx f ->
  zslice (buffer f) (rdidx f) l = Some (take (Z.to_nat l) (fifo_contents f)) /\
  let f' := mk_fifo (u32 (rdidx f + l) mod size f) (wridx f) (size f)
              (u32 (len f - l)) (buffer f) in
  fifo_wf f' /\ fifo_contents f' = drop (Z.to_nat l) (fifo_contents f).
Proof.
  intros [? HB ? ? HW] ???. split.
  - rewrite zslice_Some by lia. f_equal. unfold fifo_contents.
    rewrite take_take, Nat.min_l by lia. unfold rb_view.
    rewrite take_app_le by (rewrite length_drop; lia). done.
  - cbv zeta. rewrite !u32_small by lia.
    pose proof (Z.mod_pos_bound (rdidx f + l) (size f) ltac:(lia)). split.
    + constructor; simpl; try lia. rewrite HW, Zplus_mod_idemp_l. f_equal. lia.
    + unfold fifo_contents; simpl. rewrite <- HB. apply rb_view_shift; lia.
Qed.

Lemma get_loop_spec fuel : forall f n,
  fifo_wf f -> 0 <= n <= len f -> n <= Z.of_nat fuel ->
  exists f', get_loop fuel f n = Some (take (Z.to_nat n) (fifo_contents f), f') /\
    fifo_wf f' /\ size f' = size f /\
    fifo_contents f' = drop (Z.to_nat n) (fifo_contents f).
Proof.
  induction fuel as [|fuel IH]; intros f n W Hn Hf.
  - assert (n = 0) as -> by lia. exists f. done.
  - cbn [get_loop]. destruct (Z.ltb_spec 0 n).
    2:{ assert (n = 0) as -> by lia. exists f. done. }
    destruct W as [? HB ? ? HW] eqn:EW. clear EW.
    rewrite (u32_small (size f - rdidx f)) by lia.
    set (l := Z.min n (size f - rdidx f)).
    destruct (get_step f l W) as [-> [W' C']]; [lia..|].
    cbn [mbind option_bind]. cbv zeta in *. rewrite !u32_small in * by lia.
    destruct (IH _ (n - l) W') as (f' & -> & W2 & S2 & C2); [simpl; lia|lia|].
    cbn [mbind option_bind]. rewrite C', drop_drop in C2. rewrite C'.
    exists f'. split; [|split; [done|split; [done|]]].
    + do 2 f_equal. replace (Z.to_nat n) with (Z.to_nat l + Z.to_nat (n - l))%nat by lia.
      by rewrite take_take_drop.
    + rewrite C2. f_equal. lia.
Qed.

(** [fifo_get] removes from the front of the queue as many of the [n]
    requested bytes as there are, in the order they were put, returns their
    number, and terminates. *)
Theorem fifo_get_correct f n :
  fifo_wf f -> 0 <= n ->
  exists f', fifo_get f n = Some (Z.min n (fifo_avail f),
               take (Z.to_nat (Z.min n (fifo_avail f))) (fifo_contents f), f') /\
    fifo_wf f' /\
    fifo_contents f' = drop (Z.to_nat (Z.min n (fifo_avail f))) (fifo_contents f).
Proof.
  intros W Hn. destruct W eqn:EW. clear EW. unfold fifo_get, fifo_avail.
  destruct (get_loop_spec (Z.to_nat (Z.min n (len f))) f (Z.min n (len f)) W)
    as (f' & -> & W' & _ & C'); [lia..|]. simpl. eauto.
Qed.

Lemma fifo_get_correct_witness :
  exists f', fifo_get (mk_fifo 3 1 5 3 [3; 0; 0; 1; 2]) 2
             = Some (Z.min 2 (fifo_avail (mk_fifo 3 1 5 3 [3; 0; 0; 1; 2])), [1; 2], f') /\
    fifo_wf f' /\ fifo_contents f' = [3].
Proof.
  apply (fifo_get_correct (mk_fifo 3 1 5 3 [3; 0; 0; 1; 2]) 2).
  - constructor; simpl; try lia. reflexivity.
  - lia.
Defined.

(** [fifo_unget] does not put bytes back in front of the queue when they wrap
    around the end of the array: the destination does not advance, so the
    wrapped part overwrites the first part. *)
Theorem fifo_unget_wrap_fails :
  exists f src f', fifo_wf f /\ zlen src <= fifo_space f /\
    fifo_unget f src (zlen src) = Some (zlen src, f') /\
    fifo_contents f' <> src ++ fifo_contents f.
Proof.
  exists (mk_fifo 1 1 4 0 [0; 0; 0; 0]), [7; 8; 9]. eexists.
  split; [constructor; simpl; try lia; reflexivity|].
  split; [vm_compute; discriminate|].
  split; [vm_compute; reflexivity|]. vm_compute. discriminate.
Qed.
