(* ===== verification/Crc32.v ===== *)
(** Crc32: crc32.c, the table-driven CRC-32 that protects packet radio frames. *)

From S2P Require Import Prelude.

Definition crcTable : list Z :=
  [
   0x00000000; 0x77073096; 0xEE0E612C; 0x990951BA; 0x076DC419; 0x706AF48F; 0xE963A535; 0x9E6495A3;
   0x0EDB8832; 0x79DCB8A4; 0xE0D5E91E; 0x97D2D988; 0x09B64C2B; 0x7EB17CBD; 0xE7B82D07; 0x90BF1D91;
   0x1DB71064; 0x6AB020F2; 0xF3B97148; 0x84BE41DE; 0x1ADAD47D; 0x6DDDE4EB; 0xF4D4B551; 0x83D385C7;
   0x136C9856; 0x646BA8C0; 0xFD62F97A; 0x8A65C9EC; 0x14015C4F; 0x63066CD9; 0xFA0F3D63; 0x8D080DF5;
   0x3B6E20C8; 0x4C69105E; 0xD56041E4; 0xA2677172; 0x3C03E4D1; 0x4B04D447; 0xD20D85FD; 0xA50AB56B;
   0x35B5A8FA; 0x42B2986C; 0xDBBBC9D6; 0xACBCF940; 0x32D86CE3; 0x45DF5C75; 0xDCD60DCF; 0xABD13D59;
   0x26D930AC; 0x51DE003A; 0xC8D75180; 0xBFD06116; 0x21B4F4B5; 0x56B3C423; 0xCFBA9599; 0xB8BDA50F;
   0x2802B89E; 0x5F058808; 0xC60CD9B2; 0xB10BE924; 0x2F6F7C87; 0x58684C11; 0xC1611DAB; 0xB6662D3D;
   0x76DC4190; 0x01DB7106; 0x98D220BC; 0xEFD5102A; 0x71B18589; 0x06B6B51F; 0x9FBFE4A5; 0xE8B8D433;
   0x7807C9A2; 0x0F00F934; 0x9609A88E; 0xE10E9818; 0x7F6A0DBB; 0x086D3D2D; 0x91646C97; 0xE6635C01;
   0x6B6B51F4; 0x1C6C6162; 0x856530D8; 0xF262004E; 0x6C0695ED; 0x1B01A57B; 0x8208F4C1; 0xF50FC457;
   0x65B0D9C6; 0x12B7E950; 0x8BBEB8EA; 0xFCB9887C; 0x62DD1DDF; 0x15DA2D49; 0x8CD37CF3; 0xFBD44C65;
   0x4DB26158; 0x3AB551CE; 0xA3BC0074; 0xD4BB30E2; 0x4ADFA541; 0x3DD895D7; 0xA4D1C46D; 0xD3D6F4FB;
   0x4369E96A; 0x346ED9FC; 0xAD678846; 0xDA60B8D0; 0x44042D73; 0x33031DE5; 0xAA0A4C5F; 0xDD0D7CC9;
   0x5005713C; 0x270241AA; 0xBE0B1010; 0xC90C2086; 0x5768B525; 0x206F85B3; 0xB966D409; 0xCE61E49F;
   0x5EDEF90E; 0x29D9C998; 0xB0D09822; 0xC7D7A8B4; 0x59B33D17; 0x2EB40D81; 0xB7BD5C3B; 0xC0BA6CAD;
   0xEDB88320; 0x9ABFB3B6; 0x03B6E20C; 0x74B1D29A; 0xEAD54739; 0x9DD277AF; 0x04DB2615; 0x73DC1683;
   0xE3630B12; 0x94643B84; 0x0D6D6A3E; 0x7A6A5AA8; 0xE40ECF0B; 0x9309FF9D; 0x0A00AE27; 0x7D079EB1;
   0xF00F9344; 0x8708A3D2; 0x1E01F268; 0x6906C2FE; 0xF762575D; 0x806567CB; 0x196C3671; 0x6E6B06E7;
   0xFED41B76; 0x89D32BE0; 0x10DA7A5A; 0x67DD4ACC; 0xF9B9DF6F; 0x8EBEEFF9; 0x17B7BE43; 0x60B08ED5;
   0xD6D6A3E8; 0xA1D1937E; 0x38D8C2C4; 0x4FDFF252; 0xD1BB67F1; 0xA6BC5767; 0x3FB506DD; 0x48B2364B;
   0xD80D2BDA; 0xAF0A1B4C; 0x36034AF6; 0x41047A60; 0xDF60EFC3; 0xA867DF55; 0x316E8EEF; 0x4669BE79;
   0xCB61B38C; 0xBC66831A; 0x256FD2A0; 0x5268E236; 0xCC0C7795; 0xBB0B4703; 0x220216B9; 0x5505262F;
   0xC5BA3BBE; 0xB2BD0B28; 0x2BB45A92; 0x5CB36A04; 0xC2D7FFA7; 0xB5D0CF31; 0x2CD99E8B; 0x5BDEAE1D;
   0x9B64C2B0; 0xEC63F226; 0x756AA39C; 0x026D930A; 0x9C0906A9; 0xEB0E363F; 0x72076785; 0x05005713;
   0x95BF4A82; 0xE2B87A14; 0x7BB12BAE; 0x0CB61B38; 0x92D28E9B; 0xE5D5BE0D; 0x7CDCEFB7; 0x0BDBDF21;
   0x86D3D2D4; 0xF1D4E242; 0x68DDB3F8; 0x1FDA836E; 0x81BE16CD; 0xF6B9265B; 0x6FB077E1; 0x18B74777;
   0x88085AE6; 0xFF0F6A70; 0x66063BCA; 0x11010B5C; 0x8F659EFF; 0xF862AE69; 0x616BFFD3; 0x166CCF45;
   0xA00AE278; 0xD70DD2EE; 0x4E048354; 0x3903B3C2; 0xA7672661; 0xD06016F7; 0x4969474D; 0x3E6E77DB;
   0xAED16A4A; 0xD9D65ADC; 0x40DF0B66; 0x37D83BF0; 0xA9BCAE53; 0xDEBB9EC5; 0x47B2CF7F; 0x30B5FFE9;
   0xBDBDF21C; 0xCABAC28A; 0x53B39330; 0x24B4A3A6; 0xBAD03605; 0xCDD70693; 0x54DE5729; 0x23D967BF;
   0xB3667A2E; 0xC4614AB8; 0x5D681B02; 0x2A6F2B94; 0xB40BBE37; 0xC30C8EA1; 0x5A05DF1B; 0x2D02EF8D].

(** One byte of the accumulation loop; the index is at most 255. *)
Definition crc_byte (crc32 byte : Z) : Z :=
  Z.lxor (Z.shiftr crc32 8)
         (nth (Z.to_nat (Z.land (Z.lxor crc32 byte) 255)) crcTable 0).

Definition Crc32_ComputeBuf (inCrc32 : Z) (buf : list Z) (bufLen : Z) : option Z :=
  d ← zslice buf 0 bufLen;
  Some (Z.lxor (fold_left crc_byte d (Z.lxor inCrc32 0xFFFFFFFF)) 0xFFFFFFFF).

(** The checksum of a whole byte string. *)
Definition crc32 (d : list Z) : Z :=
  Z.lxor (fold_left crc_byte d 0xFFFFFFFF) 0xFFFFFFFF.

(** ** Reference: division by the reflected polynomial, bit by bit *)

Definition crc_poly : Z := 0xEDB88320.

Definition crc_bit (x : Z) : Z :=
  Z.lxor (Z.shiftr x 1) (if Z.testbit x 0 then crc_poly else 0).

Fixpoint crc_bits (n : nat) (x : Z) : Z :=
  match n with O => x | S n => crc_bits n (crc_bit x) end.

(** Feed a byte into the register and shift eight times. *)
Definition crc_ref_byte (c b : Z) : Z := crc_bits 8 (Z.lxor c b).

Definition crc32_ref (inCrc : Z) (d : list Z) : Z :=
  Z.lxor (fold_left crc_ref_byte d (Z.lxor inCrc 0xFFFFFFFF)) 0xFFFFFFFF.

Lemma crc_bit_lxor a b : crc_bit (Z.lxor a b) = Z.lxor (crc_bit a) (crc_bit b).
Proof.
  unfold crc_bit. rewrite Z.shiftr_lxor, Z.lxor_spec.
  set (x := Z.shiftr a 1). set (y := Z.shiftr b 1).
  destruct (Z.testbit a 0), (Z.testbit b 0); simpl xorb;
    rewrite ?Z.lxor_0_r; try done.
  - rewrite (Z.lxor_comm y), Z.lxor_assoc, <- (Z.lxor_assoc crc_poly).
    by rewrite Z.lxor_nilpotent, Z.lxor_0_l.
  - by rewrite !Z.lxor_assoc, (Z.lxor_comm y).
  - by rewrite Z.lxor_assoc.
Qed.

Lemma crc_bits_lxor n a b : crc_bits n (Z.lxor a b) = Z.lxor (crc_bits n a) (crc_bits n b).
Proof.
  revert a b. induction n as [|n IH]; intros a b; [done|]. simpl.
  by rewrite crc_bit_lxor, IH.
Qed.

(** Zero bits are shifted out without feedback. *)
Lemma crc_bits_shiftl n x : crc_bits n (Z.shiftl x (Z.of_nat n)) = x.
Proof.
  revert x. induction n as [|n IH]; intros x; [apply Z.shiftl_0_r|]. cbn [crc_bits].
  replace (crc_bit (Z.shiftl x (Z.of_nat (S n)))) with (Z.shiftl x (Z.of_nat n)); [done|].
  unfold crc_bit. rewrite Z.shiftl_spec_low by lia. rewrite Z.lxor_0_r.
  rewrite Z.shiftr_shiftl_l by lia. f_equal. lia.
Qed.

Lemma split_low8 x : x = Z.lxor (Z.shiftl (Z.shiftr x 8) 8) (Z.land x 255).
Proof.
  apply Z.bits_inj'. intros i Hi. rewrite Z.lxor_spec, Z.shiftl_spec, Z.land_spec by lia.
  change 255 with (Z.ones 8). destruct (Z.lt_ge_cases i 8).
  - rewrite Z.ones_spec_low, andb_true_r by lia. rewrite (Z.testbit_neg_r _ (i - 8)) by lia.
    by rewrite xorb_false_l.
  - rewrite Z.ones_spec_high, andb_false_r, xorb_false_r by lia.
    rewrite Z.shiftr_spec by lia. f_equal. lia.
Qed.

Lemma crcTable_bits b : is_byte b -> nth (Z.to_nat b) crcTable 0 = crc_bits 8 b.
Proof.
  intros Hb. apply Z.eqb_eq.
  apply (byte_cases (fun b => nth (Z.to_nat b) crcTable 0 =? crc_bits 8 b));
    [vm_compute; reflexivity|done].
Qed.

(** The table step is eight steps of the bit-serial register. *)
Lemma crc_byte_ref c b : is_byte b -> crc_byte c b = crc_ref_byte c b.
Proof.
  intros Hb. unfold crc_byte, crc_ref_byte.
  rewrite crcTable_bits by apply land_byte.
  rewrite (split_low8 (Z.lxor c b)) at 2. rewrite crc_bits_lxor. f_equal.
  change 8 with (Z.of_nat 8) at 3. rewrite crc_bits_shiftl, Z.shiftr_lxor.
  assert (Z.shiftr b 8 = 0) as ->; [|by rewrite Z.lxor_0_r].
  unfold is_byte in Hb. rewrite Z.shiftr_div_pow2 by lia. apply Z.div_small. lia.
Qed.

Lemma fold_left_Forall_ext {A B} (P : B -> Prop) (f g : A -> B -> A) d c :
  (forall c b, P b -> f c b = g c b) -> Forall P d -> fold_left f d c = fold_left g d c.
Proof.
  intros Hfg Hd. revert c. induction Hd as [|b d Hb Hd IH]; intros c; [done|].
  simpl. by rewrite Hfg.
Qed.

Lemma fold_crc_ref d c : are_bytes d ->
  fold_left crc_byte d c = fold_left crc_ref_byte d c.
Proof. apply fold_left_Forall_ext, crc_byte_ref. Qed.

(** [C37] The table-driven checksum equals bit-serial division by the CRC-32
    polynomial on every byte string. *)
Theorem Crc32_ComputeBuf_ref inCrc d :
  are_bytes d -> Crc32_ComputeBuf inCrc d (zlen d) = Some (crc32_ref inCrc d).
Proof.
  intros Hd. unfold Crc32_ComputeBuf, crc32_ref.
  rewrite zslice_all. cbn [mbind option_bind]. by rewrite fold_crc_ref.
Qed.

Lemma Crc32_ComputeBuf_ref_witness :
  Crc32_ComputeBuf 0 [49; 50; 51; 52; 53; 54; 55; 56; 57] 9 = Some 0xCBF43926.
Proof.
  refine (Crc32_ComputeBuf_ref 0 [49; 50; 51; 52; 53; 54; 55; 56; 57] _).
  repeat constructor; lia.
Defined.

(** A checksum can be accumulated over several buffers: continuing from the
    checksum of the first part gives the checksum of the whole. *)
Theorem Crc32_ComputeBuf_incremental inCrc d1 d2 c1 :
  Crc32_ComputeBuf inCrc d1 (zlen d1) = Some c1 ->
  Crc32_ComputeBuf c1 d2 (zlen d2) = Crc32_ComputeBuf inCrc (d1 ++ d2) (zlen (d1 ++ d2)).
Proof.
  unfold Crc32_ComputeBuf. rewrite !zslice_all. cbn [mbind option_bind].
  intros [= <-]. rewrite Z.lxor_assoc, Z.lxor_nilpotent, Z.lxor_0_r. by rewrite fold_left_app.
Qed.

Lemma Crc32_ComputeBuf_incremental_witness :
  Crc32_ComputeBuf 0x884863D2 [52; 53; 54] 3
  = Crc32_ComputeBuf 0 [49; 50; 51; 52; 53; 54] 6.
Proof.
  apply (Crc32_ComputeBuf_incremental 0 [49; 50; 51] [52; 53; 54] 0x884863D2).
  vm_compute. reflexivity.
Defined.

Lemma Crc32_ComputeBuf_crc32 d k :
  Crc32_ComputeBuf 0 (d ++ k) (zlen d) = Some (crc32 d).
Proof.
  unfold Crc32_ComputeBuf, crc32. by rewrite zslice_prefix.
Qed.

Lemma lxor_lt_pow2 a b n : 0 <= n -> 0 <= a < 2 ^ n -> 0 <= b < 2 ^ n ->
  0 <= Z.lxor a b < 2 ^ n.
Proof.
  intros Hn Ha Hb.
  assert (E : Z.lxor a b = Z.lxor a b mod 2 ^ n); [|rewrite E; apply Z.mod_pos_bound; lia].
  rewrite <- Z.land_ones by lia. apply Z.bits_inj'. intros i Hi.
  rewrite Z.land_spec, Z.lxor_spec. destruct (Z.lt_ge_cases i n).
  - by rewrite Z.ones_spec_low, andb_true_r by lia.
  - rewrite Z.ones_spec_high by lia. rewrite andb_false_r.
    rewrite <- (Z.mod_small a (2 ^ n)), <- (Z.mod_small b (2 ^ n)) by lia.
    by rewrite !Z.mod_pow2_bits_high by lia.
Qed.

Lemma crcTable_range : forallb (fun x => (0 <=? x) && (x <? 2 ^ 32)) crcTable = true.
Proof. vm_compute. reflexivity. Qed.

Lemma crc32_range d : 0 <= crc32 d < 2 ^ 32.
Proof.
  unfold crc32. apply lxor_lt_pow2; [lia| |lia].
  assert (H : 0 <= 4294967295 < 2 ^ 32) by lia. revert H. generalize 4294967295.
  induction d as [|b d IH]; intros c Hc; [done|]. simpl. apply IH. unfold crc_byte.
  apply lxor_lt_pow2; [lia| |].
  - rewrite Z.shiftr_div_pow2 by lia. split; [apply Z.div_pos; lia|].
    apply Z.div_lt_upper_bound; lia.
  - destruct (nth_in_or_default (Z.to_nat (Z.land (Z.lxor c b) 255)) crcTable 0) as [Hin| ->];
      [|lia].
    pose proof crcTable_range as HR. rewrite forallb_forall in HR.
    specialize (HR _ Hin). zify_bool. lia.
Qed.
