(* ===== verification/Str.v ===== *)
(** Str: str.c and str.h, the string primitives.

    A [const char *] is the region from the pointed-to character to the end of
    its array: a list of byte values whose head is [*s], so [s++] is the tail and
    the pointer difference is the difference of the lengths.  Reading past the
    array is [None].  A nul-terminated string with text [t] is [t ++ 0 :: r] with
    no 0 in [t].  An output array is given by the list of the values stored in
    it from its start. *)

From S2P Require Import Prelude.

(** ** <ctype.h> in the C locale *)

Definition isdigit (c : Z) : bool := (48 <=? c) && (c <=? 57).
Definition isupper (c : Z) : bool := (65 <=? c) && (c <=? 90).
Definition islower (c : Z) : bool := (97 <=? c) && (c <=? 122).
Definition isalpha (c : Z) : bool := isupper c || islower c.
Definition isxdigit (c : Z) : bool :=
  isdigit c || ((65 <=? c) && (c <=? 70)) || ((97 <=? c) && (c <=? 102)).
Definition isspace (c : Z) : bool := (c =? 32) || ((9 <=? c) && (c <=? 13)).
Definition toupper (c : Z) : Z := if islower c then c - 32 else c.

(** ** Hexadecimal *)

Definition hexdigit : list Z := bytes_of_string "0123456789ABCDEF".
Definition hexdig (n : Z) : Z := nth (Z.to_nat n) hexdigit 0.

Definition hexvalue (c : Z) : Z :=
  if (48 <=? c) && (c <=? 57) then c - 48
  else if (65 <=? c) && (c <=? 70) then c - 65 + 10
  else if (97 <=? c) && (c <=? 102) then c - 97 + 10
  else -1.

(** The characters stored before the terminating nul. *)
Definition hex_chars (d : list Z) : list Z :=
  d ≫= (fun b => [hexdig (Z.shiftr b 4); hexdig (Z.land b 15)]).

Definition tohex (srcBinary : list Z) (bytes : Z) : option (list Z) :=
  d ← zslice srcBinary 0 bytes; Some (hex_chars d ++ [0]).

(** The return value ([-1] for [(size_t)-1]) and the bytes stored. *)
Fixpoint fromhex_loop (srcHex : list Z) (nbinary : nat) (count : Z) (dst : list Z) {struct nbinary}
    : option (Z * list Z) :=
  match nbinary with
  | O => Some (count, dst)
  | S n =>
      match srcHex with
      | [] => None
      | h :: s =>
          let high := u8 (hexvalue h) in
          if negb (Z.land high 240 =? 0) then Some (-1, dst)
          else
            match s with
            | [] => None
            | l :: s =>
                let low := u8 (hexvalue l) in
                if negb (Z.land low 240 =? 0) then Some (-1, dst)
                else fromhex_loop s n (count + 1) (dst ++ [u8 (Z.shiftl high 4 + low)])
            end
      end
  end.

Definition fromhex (srcHex : list Z) (nbinary : nat) : option (Z * list Z) :=
  fromhex_loop srcHex nbinary 0 [].

Definition fromhexstr (srcHex : list Z) (nbinary : nat) : option (Z * list Z) :=
  '(r, d) ← fromhex srcHex nbinary;
  if r =? Z.of_nat nbinary then
    c ← zget srcHex (Z.of_nat nbinary * 2);
    Some (if c =? 0 then 0 else -1, d)
  else Some (-1, d).

Fixpoint is_xsubstring (text : list Z) (n : nat) {struct n} : option bool :=
  match n with
  | O => Some true
  | S n =>
      match text with
      | [] => None
      | c :: text => if isxdigit c then is_xsubstring text n else Some false
      end
  end.

Fixpoint is_xstring (text : list Z) (n : nat) {struct n} : option bool :=
  match n with
  | O => match text with [] => None | c :: _ => Some (c =? 0) end
  | S n =>
      match text with
      | [] => None
      | c :: text => if isxdigit c then is_xstring text n else Some false
      end
  end.

(** ** Searching and comparing *)

Fixpoint is_all_matching (p : list Z) (n : nat) (value : Z) {struct n} : option bool :=
  match n with
  | O => Some true
  | S n =>
      match p with
      | [] => None
      | c :: p => if c =? value then is_all_matching p n value else Some false
      end
  end.

(** The string after the in-place conversion; what follows the nul is kept. *)
Fixpoint str_toupper_inplace (s : list Z) : option (list Z) :=
  match s with
  | [] => None
  | c :: r => if c =? 0 then Some s else (cons (toupper c)) <$> str_toupper_inplace r
  end.

(** [Some None] is the NULL result. *)
Fixpoint strnchr (s : list Z) (n : nat) (c : Z) {struct n} : option (option (list Z)) :=
  match n with
  | O => Some None
  | S n =>
      match s with
      | [] => None
      | x :: r => if x =? c then Some (Some s)
                  else if x =? 0 then Some None else strnchr r n c
      end
  end.

(** [Some (Some after)]: returned 1 and set [*afterp]. *)
Fixpoint str_startswith (str substring : list Z) {struct substring} : option (option (list Z)) :=
  match substring with
  | [] => None
  | c :: sub =>
      if c =? 0 then Some (Some str)
      else match str with
           | [] => None
           | x :: s => if c =? x then str_startswith s sub else Some None
           end
  end.

Fixpoint strn_startswith (str : list Z) (n : nat) (substring : list Z) {struct substring}
    : option (option (list Z)) :=
  match substring with
  | [] => None
  | c :: sub =>
      if c =? 0 then Some (Some str)
      else match n with
           | O => Some None
           | S n =>
               match str with
               | [] => None
               | x :: s => if c =? x then strn_startswith s n sub else Some None
               end
           end
  end.

Fixpoint strcase_startswith (str substring : list Z) {struct substring} : option (option (list Z)) :=
  match substring with
  | [] => None
  | c :: sub =>
      if c =? 0 then Some (Some str)
      else match str with
           | [] => None
           | x :: s =>
               if negb (x =? 0) && (toupper c =? toupper x)
               then strcase_startswith s sub else Some None
           end
  end.

Fixpoint strncase_startswith (str : list Z) (n : nat) (substring : list Z) {struct substring}
    : option (option (list Z)) :=
  match substring with
  | [] => None
  | c :: sub =>
      if c =? 0 then Some (Some str)
      else match n with
           | O => Some None
           | S n =>
               match str with
               | [] => None
               | x :: s => if toupper c =? toupper x
                           then strncase_startswith s n sub else Some None
               end
           end
  end.

(** strncmp(3) and strncasecmp(3) up to the sign of the result. *)
Fixpoint strncmp_with (f : Z -> Z) (s1 s2 : list Z) (n : nat) {struct n} : option Z :=
  match n with
  | O => Some 0
  | S n =>
      match s1, s2 with
      | a :: s1, b :: s2 =>
          if f a <? f b then Some (-1)
          else if f b <? f a then Some 1
          else if a =? 0 then Some 0
          else strncmp_with f s1 s2 n
      | _, _ => None
      end
  end.
Definition strncmp : list Z -> list Z -> nat -> option Z := strncmp_with id.
Definition strncasecmp : list Z -> list Z -> nat -> option Z := strncmp_with toupper.

Fixpoint strlen (s : list Z) : option Z :=
  match s with
  | [] => None
  | c :: s => if c =? 0 then Some 0 else n ← strlen s; Some (n + 1)
  end.

Definition compare_lengths (len1 len2 : Z) : Z :=
  if len1 <? len2 then -1 else if len2 <? len1 then 1 else 0.

Definition strn_str_cmp (str1 : list Z) (len1 : nat) (str2 : list Z) : option Z :=
  r ← strncmp str1 str2 len1;
  if negb (r =? 0) then Some r
  else len2 ← strlen str2; Some (compare_lengths (Z.of_nat len1) len2).

Definition strn_str_casecmp (str1 : list Z) (len1 : nat) (str2 : list Z) : option Z :=
  r ← strncasecmp str1 str2 len1;
  if negb (r =? 0) then Some r
  else len2 ← strlen str2; Some (compare_lengths (Z.of_nat len1) len2).

(** The loop of [parse_argv]: the line with delimiters replaced by nul, and the
    offsets of the arguments found; [pos] is the offset of the current character. *)
Fixpoint parse_argv_loop (cmdline : list Z) (delim pos argc max_argv : Z)
    : option (list Z * list Z) :=
  match cmdline with
  | [] => None
  | c :: r =>
      if c =? 0 then Some (cmdline, [])
      else if c =? delim then
        match r with
        | [] => None
        | next :: _ =>
            let add := negb (next =? 0) && (argc <? max_argv) in
            '(line, argv) ← parse_argv_loop r delim (pos + 1)
                              (if add then argc + 1 else argc) max_argv;
            Some (0 :: line, if add then (pos + 1) :: argv else argv)
        end
      else
        '(line, argv) ← parse_argv_loop r delim (pos + 1) argc max_argv;
        Some (c :: line, argv)
  end.

(** The modified line, and argv as offsets into it; argc is its length. *)
Definition parse_argv (cmdline : list Z) (delim max_argv : Z)
    : option (list Z * list Z) :=
  match cmdline with
  | [] => None
  | c :: _ =>
      let add := negb (c =? 0) && (0 <? max_argv) in
      '(line, argv) ← parse_argv_loop cmdline delim 0 (Zb add) max_argv;
      Some (line, if add then 0 :: argv else argv)
  end.

(** The search loop of [str_str]; [n] is [haystack_len]. *)
Fixpoint str_str_loop (haystack needle : list Z) (needle_len : nat) (n : Z)
    : option (option (list Z)) :=
  if n <? Z.of_nat needle_len then
    match haystack with [] => None | _ => Some None end
  else
    match haystack with
    | [] => None
    | c :: r =>
        if c =? 0 then Some None
        else
          cmp ← strncmp haystack needle needle_len;
          if cmp =? 0 then Some (Some haystack)
          else str_str_loop r needle needle_len (n - 1)
    end.

(** [haystack_len >= needle_len] compares an [int] with a [size_t], so the
    model is for a non-negative [haystack_len]. *)
Definition str_str (haystack needle : list Z) (haystack_len : Z)
    : option (option (list Z)) :=
  needle_len ← strlen needle;
  if needle_len =? 0 then Some (Some haystack)
  else if needle_len <=? haystack_len
  then str_str_loop haystack needle (Z.to_nat needle_len) haystack_len
  else Some None.

(** ** Numbers *)

Definition scale_factors : list (Z * Z) :=
  [(71, 1024 * 1024 * 1024); (103, 1000 * 1000 * 1000); (77, 1024 * 1024);
   (109, 1000 * 1000); (75, 1024); (107, 1000)].

(** [after]: the caller passed an [afterp]. *)
Definition scale_factor (str : list Z) (after : bool) : option (Z * list Z) :=
  match str with
  | [] => None
  | c :: r =>
      let '(factor, str) :=
        match list_find (fun p => fst p = c) scale_factors with
        | Some (_, (_, f)) => (f, r)
        | None => (1, str)
        end in
      if after then Some (factor, str)
      else match str with
           | [] => None
           | c :: _ => Some (if c =? 0 then factor else 0, str)
           end
  end.

Definition digit_value (c : Z) : Z :=
  if isdigit c then c - 48
  else if isupper c then c - 55
  else if islower c then c - 87
  else 99.

(** The longest prefix of digits of the base; the accumulated value, whether
    there was a digit, and the rest. *)
Fixpoint strto_digits (base : Z) (s : list Z) (acc : Z) (any : bool)
    : option (Z * bool * list Z) :=
  match s with
  | [] => None
  | c :: r =>
      if digit_value c <? base
      then strto_digits base r (acc * base + digit_value c) true
      else Some (acc, any, s)
  end.

Fixpoint skip_space (s : list Z) : list Z :=
  match s with
  | c :: r => if isspace c then skip_space r else s
  | [] => []
  end.

(** The subject sequence of strtoll(3) and strtoull(3): sign, magnitude, end. *)
Definition strto (s : list Z) (base : Z) : option (bool * Z * list Z) :=
  let '(neg, t) :=
    match skip_space s with
    | 45 :: t => (true, t)
    | 43 :: t => (false, t)
    | t => (false, t)
    end in
  let '(base, t) :=
    match t with
    | 48 :: x :: c :: r =>
        if ((base =? 0) || (base =? 16)) && ((x =? 120) || (x =? 88)) && isxdigit c
        then (16, c :: r)
        else ((if base =? 0 then 8 else base), t)
    | 48 :: _ => ((if base =? 0 then 8 else base), t)
    | _ => ((if base =? 0 then 10 else base), t)
    end in
  '(v, any, e) ← strto_digits base t 0 false;
  Some (if any : bool then (neg, v, e) else (false, 0, s)).

Definition strtoull (s : list Z) (base : Z) : option (Z * list Z) :=
  '(neg, v, e) ← strto s base;
  Some (if 2 ^ 64 <=? v then 2 ^ 64 - 1 else if neg : bool then u64 (- v) else v, e).

Definition strtoll (s : list Z) (base : Z) : option (Z * list Z) :=
  '(neg, v, e) ← strto s base;
  Some (let w := if neg : bool then - v else v in
        Z.max (- 2 ^ 63) (Z.min (2 ^ 63 - 1) w), e).

Definition i64 (z : Z) : Z := (z + 2 ^ 63) mod 2 ^ 64 - 2 ^ 63.

(** The common tail: [*afterp = end], or fail unless [*end] is nul.
    [Some (Some (v, end))]: returned 1 with [*result = v]. *)
Definition str_to_result (value : Z) (e : list Z) (after : bool)
    : option (option (Z * list Z)) :=
  if after then Some (Some (value, e))
  else match e with
       | [] => None
       | c :: _ => Some (if c =? 0 then Some (value, e) else None)
       end.

Definition str_to_int64_scaled (str : list Z) (base : Z) (after : bool)
    : option (option (Z * list Z)) :=
  match str with
  | [] => None
  | c :: _ =>
      if isspace c then Some None
      else
        '(value, e) ← strtoll str base;
        if bool_decide (e = str) then Some None
        else
          '(f, e) ← scale_factor e true;
          str_to_result (i64 (u64 value * f)) e after
  end.

Definition str_to_uint64_scaled (str : list Z) (base : Z) (after : bool)
    : option (option (Z * list Z)) :=
  match str with
  | [] => None
  | c :: _ =>
      if isspace c then Some None
      else
        '(value, e) ← strtoull str base;
        if bool_decide (e = str) then Some None
        else
          '(f, e) ← scale_factor e true;
          str_to_result (u64 (value * f)) e after
  end.

(** [for (factor = precision/10; isdigit( *end) && factor; factor /= 10)]. *)
Fixpoint interval_fraction (e : list Z) (factor value : Z) : option (Z * list Z) :=
  match e with
  | [] => None
  | c :: r =>
      if isdigit c && negb (factor =? 0)
      then interval_fraction r (factor / 10) (u64 (value + (c - 48) * factor))
      else Some (value, e)
  end.

Definition str_to_uint64_interval_ms (str : list Z) (after : bool)
    : option (option (Z * list Z)) :=
  match str with
  | [] => None
  | c :: _ =>
      if isspace c then Some None
      else
        '(v, e) ← strtoull str 10;
        let value := u64 (v * 1000) in
        if bool_decide (e = str) then Some None
        else
          '(value, e) ← (match e with
             | [] => None
             | 46 :: r =>
                 match r with
                 | [] => None
                 | d :: _ => if isdigit d then interval_fraction r 100 value
                             else Some (value, e)
                 end
             | _ => Some (value, e)
             end);
          str_to_result (i64 value) e after
  end.

(** ** Unescaping *)

(** The bytes stored at [dst]; the return value is their number. *)
Fixpoint str_fromprint (fuel : nat) (src : list Z) : option (list Z) :=
  match fuel, src with
  | O, _ | _, [] => None
  | S fuel, c :: r =>
      if c =? 0 then Some []
      else if c =? 92 then
        match r with
        | [] => None
        | e :: r' =>
            if e =? 0 then cons 92 <$> str_fromprint fuel r
            else if e =? 48 then cons 0 <$> str_fromprint fuel r'
            else if e =? 110 then cons 10 <$> str_fromprint fuel r'
            else if e =? 114 then cons 13 <$> str_fromprint fuel r'
            else if e =? 116 then cons 9 <$> str_fromprint fuel r'
            else if e =? 120 then
              match r' with
              | [] => None
              | h :: r1 =>
                  if negb (isxdigit h) then cons e <$> str_fromprint fuel r'
                  else
                    match r1 with
                    | [] => None
                    | l :: r2 =>
                        if negb (isxdigit l) then cons e <$> str_fromprint fuel r'
                        else
                          '(_, d) ← fromhex [h; l] 1;
                          app d <$> str_fromprint fuel r2
                    end
              end
            else cons e <$> str_fromprint fuel r'
        end
      else cons c <$> str_fromprint fuel r
  end.

(** ** Lemmas *)

(** [t] is the text of a C string: it contains no nul. *)
Abbreviation text := (Forall (fun c => c <> 0)).

Lemma hexdig_value n : 0 <= n < 16 -> hexvalue (hexdig n) = n /\ isxdigit (hexdig n) = true.
Proof.
  intros Hn.
  assert (H : forallb (fun n => (hexvalue (hexdig n) =? n) && isxdigit (hexdig n))
                (seqZ 0 16) = true) by (vm_compute; reflexivity).
  rewrite forallb_forall in H. specialize (H n). cbv beta in H.
  rewrite andb_true_iff, Z.eqb_eq in H. apply H, list_elem_of_In, elem_of_seqZ. lia.
Qed.

(** A hex digit is a character whose value fits a nibble. *)
Lemma hexvalue_nibble c :
  (Z.land (u8 (hexvalue c)) 240 =? 0) = isxdigit c /\
  (isxdigit c = true -> u8 (hexvalue c) = hexvalue c /\ 0 <= hexvalue c < 16).
Proof.
  assert (HN : forall v, 0 <= v < 16 -> Z.land (u8 v) 240 = 0 /\ u8 v = v).
  { intros v Hv. rewrite u8_id by (unfold is_byte; lia). split; [|done].
    pose proof (byte_cases (fun v => (15 <? v) || (Z.land v 240 =? 0))
      ltac:(vm_compute; reflexivity) v ltac:(unfold is_byte; lia)) as HB.
    cbv beta in HB. zify_bool. destruct HB; zify_bool; lia. }
  unfold hexvalue, isxdigit, isdigit.
  destruct ((48 <=? c) && (c <=? 57)) eqn:E1; simpl.
  { zify_bool. destruct (HN (c - 48)) as [-> ->]; [lia|]. split; [done|lia]. }
  destruct ((65 <=? c) && (c <=? 70)) eqn:E2; simpl.
  { zify_bool. destruct (HN (c - 65 + 10)) as [-> ->]; [lia|]. split; [done|lia]. }
  destruct ((97 <=? c) && (c <=? 102)) eqn:E3; simpl.
  { zify_bool. destruct (HN (c - 97 + 10)) as [-> ->]; [lia|]. split; [done|lia]. }
  split; done.
Qed.

Lemma shiftl4_add h l : 0 <= h < 16 -> 0 <= l < 16 -> u8 (Z.shiftl h 4 + l) = h * 16 + l.
Proof. intros. rewrite Z.shiftl_mul_pow2 by lia. apply u8_id. unfold is_byte. lia. Qed.

Lemma fromhex_loop_hex d : forall r count acc,
  are_bytes d ->
  fromhex_loop (hex_chars d ++ r) (length d) count acc = Some (count + zlen d, acc ++ d).
Proof.
  induction d as [|b d IH]; intros r count acc Hd.
  { simpl. by rewrite Z.add_0_r, app_nil_r. }
  apply Forall_cons in Hd as [Hb Hd]. unfold is_byte in Hb.
  assert (Hh : Z.shiftr b 4 = b / 16) by (rewrite Z.shiftr_div_pow2 by lia; done).
  assert (0 <= b / 16 < 16) by (split; [apply Z.div_pos; lia|apply Z.div_lt_upper_bound; lia]).
  pose proof (Z.mod_pos_bound b 16 ltac:(lia)).
  destruct (hexdig_value (b / 16)) as [V1 X1]; [done|].
  destruct (hexdig_value (b mod 16)) as [V2 X2]; [done|].
  unfold hex_chars. cbn [mbind list_bind app length fromhex_loop]. fold (hex_chars d).
  rewrite Hh, land_15.
  destruct (hexvalue_nibble (hexdig (b / 16))) as [N1 M1].
  destruct (hexvalue_nibble (hexdig (b mod 16))) as [N2 M2].
  rewrite N1, N2, X1, X2. simpl negb. cbv iota.
  destruct (M1 X1) as [-> _], (M2 X2) as [-> _]. rewrite V1, V2, shiftl4_add by lia.
  change (@list_bind _ _ ?f d) with (hex_chars d). rewrite IH by done. f_equal. f_equal; [lia|].
  rewrite <- app_assoc. simpl. do 2 f_equal. pose proof (Z.div_mod b 16). lia.
Qed.

Lemma hex_chars_length d : length (hex_chars d) = (2 * length d)%nat.
Proof.
  unfold hex_chars. induction d as [|b d IH]; [done|]. cbn [mbind list_bind app length] in *.
  rewrite IH. lia.
Qed.

(** Printing bytes in hexadecimal and parsing the result with [fromhexstr]
    gives the bytes back. *)
Theorem tohex_fromhexstr d hex :
  are_bytes d -> tohex d (zlen d) = Some hex -> fromhexstr hex (length d) = Some (0, d).
Proof.
  intros Hd. unfold tohex. rewrite zslice_all. cbn [mbind option_bind]. intros [= <-].
  unfold fromhexstr, fromhex. rewrite fromhex_loop_hex by done. cbn [mbind option_bind app].
  rewrite Z.add_0_l, Z.eqb_refl.
  rewrite zget_app_r by (rewrite hex_chars_length; lia).
  rewrite hex_chars_length. replace (zlen d * 2 - Z.of_nat (2 * length d)) with 0 by lia.
  done.
Qed.

Lemma tohex_fromhexstr_witness : fromhexstr (bytes_of_string "00FF7A" ++ [0]) 3
                                 = Some (0, [0; 255; 122]).
Proof.
  apply (tohex_fromhexstr [0; 255; 122]).
  - repeat constructor; lia.
  - reflexivity.
Defined.

Lemma fromhex_loop_text t : forall n r count acc,
  text t ->
  exists d, fromhex_loop (t ++ 0 :: r) n count acc
    = Some (if (2 * n <=? length t)%nat && forallb isxdigit (take (2 * n) t)
            then count + Z.of_nat n else -1, d).
Proof.
  induction t as [t IH] using (induction_ltof1 _ (@length Z)). unfold ltof in IH.
  intros n r count acc Ht. destruct n as [|n].
  { simpl. rewrite Z.add_0_r. eauto. }
  cbn [fromhex_loop]. destruct t as [|h t].
  { exists acc. reflexivity. }
  simpl app. replace (2 * S n)%nat with (S (S (2 * n))) by lia.
  cbv beta iota zeta. destruct (hexvalue_nibble h) as [-> Mh].
  destruct (isxdigit h) eqn:Eh; simpl negb; cbv iota.
  2:{ cbn [take forallb]. rewrite Eh. rewrite andb_false_r. eauto. }
  destruct t as [|l t].
  { exists acc. reflexivity. }
  simpl app. destruct (hexvalue_nibble l) as [-> Ml].
  destruct (isxdigit l) eqn:El; simpl negb; cbv iota.
  2:{ cbn [take forallb]. rewrite Eh, El. simpl. rewrite andb_false_r. eauto. }
  apply Forall_cons in Ht as [_ Ht]. apply Forall_cons in Ht as [_ Ht].
  destruct (IH t ltac:(simpl; lia) n r (count + 1)
              (acc ++ [u8 (Z.shiftl (u8 (hexvalue h)) 4 + u8 (hexvalue l))]) Ht) as [d ->].
  exists d. cbn [take forallb length]. rewrite Eh, El. simpl.
  change (S (S (length t))) with (2 + length t)%nat.
  replace (n + (n + 0))%nat with (2 * n)%nat by lia.
  destruct (_ && _); [|done]. do 2 f_equal. lia.
Qed.

(** On a nul-terminated string, [fromhexstr] for [n] bytes never reads past the
    terminator and returns 0 exactly when the string consists of [2 n] hex
    digits. *)
Theorem fromhexstr_accepts t r n :
  text t ->
  exists d, fromhexstr (t ++ 0 :: r) n
    = Some (if bool_decide (length t = (2 * n)%nat) && forallb isxdigit t then 0 else -1, d).
Proof.
  intros Ht. unfold fromhexstr, fromhex.
  destruct (fromhex_loop_text t n r 0 [] Ht) as [d ->]. cbn [mbind option_bind].
  exists d. destruct (Nat.leb_spec (2 * n) (length t)) as [Hle|Hgt]; cbn [andb].
  2:{ rewrite bool_decide_eq_false_2 by lia. rewrite (proj2 (Z.eqb_neq _ _)) by lia. done. }
  destruct (forallb isxdigit (take (2 * n) t)) eqn:Ef.
  - rewrite Z.add_0_l, Z.eqb_refl.
    destruct (decide (length t = (2 * n)%nat)) as [He|Hne].
    + rewrite bool_decide_eq_true_2 by done. rewrite zget_app_r by lia.
      replace (Z.of_nat n * 2 - zlen t) with 0 by lia.
      rewrite <- He, firstn_all in Ef. by rewrite Ef.
    + rewrite bool_decide_eq_false_2 by done. rewrite zget_app_l by lia.
      destruct (zget_is_Some t (Z.of_nat n * 2)) as [x Hx]; [lia|]. rewrite Hx.
      cbn [mbind option_bind]. simpl.
      rewrite (proj2 (Z.eqb_neq x 0)); [done|].
      apply (zget_Forall (fun c => c <> 0) t _ _ Ht Hx).
  - rewrite (proj2 (Z.eqb_neq _ _)) by lia.
    assert (bool_decide (length t = (2 * n)%nat) && forallb isxdigit t = false) as ->; [|done].
    destruct (decide (length t = (2 * n)%nat)) as [He|Hne].
    + rewrite <- He, firstn_all in Ef. by rewrite Ef, andb_false_r.
    + by rewrite bool_decide_eq_false_2.
Qed.

Lemma fromhexstr_accepts_witness :
  exists d, fromhexstr (bytes_of_string "12aB" ++ 0 :: [77]) 2 = Some (0, d).
Proof.
  apply (fromhexstr_accepts (bytes_of_string "12aB") [77] 2).
  repeat constructor; discriminate.
Defined.

Lemma str_startswith_text t s r q :
  text t -> text s ->
  str_startswith (s ++ 0 :: r) (t ++ 0 :: q)
  = Some (if decide (t `prefix_of` s) then Some (drop (length t) s ++ 0 :: r) else None).
Proof.
  revert s. induction t as [|c t IH]; intros s Ht Hs.
  { destruct (decide ([] `prefix_of` s)) as [_|[]]; [done|apply prefix_nil]. }
  apply Forall_cons in Ht as [Hc Ht]. cbn [app str_startswith].
  rewrite (proj2 (Z.eqb_neq c 0) Hc). destruct s as [|x s]; cbn [app].
  { rewrite (proj2 (Z.eqb_neq c 0) Hc).
    rewrite decide_False by (by apply prefix_nil_not). done. }
  apply Forall_cons in Hs as [Hx Hs]. destruct (Z.eqb_spec c x) as [->|Hne].
  - rewrite IH by done. destruct (decide (t `prefix_of` s)) as [Hp|Hp].
    + by rewrite decide_True by (by apply prefix_cons).
    + rewrite decide_False; [done|]. intros H%prefix_cons_inv_2. done.
  - rewrite decide_False; [done|]. by intros ?%prefix_cons_inv_1.
Qed.

(** For nul-terminated arguments, [str_startswith] succeeds exactly when the
    second string is a prefix of the first, sets [*afterp] just behind it, and
    never reads past either terminator. *)
Theorem str_startswith_correct t s r q :
  text t -> text s ->
  str_startswith (s ++ 0 :: r) (t ++ 0 :: q)
  = Some (if decide (t `prefix_of` s) then Some (drop (length t) s ++ 0 :: r) else None).
Proof. apply str_startswith_text. Qed.

Lemma str_startswith_correct_witness :
  str_startswith (bytes_of_string "HTTP/1.0" ++ 0 :: []) (bytes_of_string "HTTP/" ++ 0 :: [])
  = Some (Some (bytes_of_string "1.0" ++ 0 :: [])).
Proof.
  apply (str_startswith_correct (bytes_of_string "HTTP/") (bytes_of_string "HTTP/1.0") [] []).
  - repeat constructor; discriminate.
  - repeat constructor; discriminate.
Defined.

(** ** Searching for a substring *)

Lemma strncmp_prefix t s r q :
  text t -> text s ->
  exists c, strncmp (s ++ 0 :: r) (t ++ q) (length t) = Some c /\ (c = 0 <-> t `prefix_of` s).
Proof.
  unfold strncmp. revert s. induction t as [|b t IH]; intros s Ht Hs.
  { exists 0. split; [done|]. split; [intros; apply prefix_nil|done]. }
  apply Forall_cons in Ht as [Hb Ht]. cbn [length strncmp_with app].
  destruct s as [|a s]; cbn [app].
  { unfold id. exists (if 0 <? b then -1 else 1).
    destruct (Z.ltb_spec 0 b); zdecide; (split; [done|]);
      (split; [done|by intros ?%prefix_nil_not]). }
  apply Forall_cons in Hs as [Ha Hs]. unfold id at 1 2 3 4.
  destruct (Z.lt_trichotomy a b) as [Hlt|[->|Hgt]]; zdecide.
  - exists (-1). split; [done|]. split; [done|]. intros ?%prefix_cons_inv_1. lia.
  - destruct (IH s Ht Hs) as (c & -> & Hc). exists c. split; [done|]. rewrite Hc.
    split; [apply prefix_cons|apply prefix_cons_inv_2].
  - exists 1. split; [done|]. split; [done|]. intros ?%prefix_cons_inv_1. lia.
Qed.

Lemma strlen_text t r : text t -> strlen (t ++ 0 :: r) = Some (zlen t).
Proof.
  induction 1 as [|c t Hc Ht IH]; [done|]. cbn [app strlen].
  rewrite (proj2 (Z.eqb_neq c 0) Hc), IH. simpl. f_equal. lia.
Qed.

(** The first position not before [i0] where [t] occurs, within [n] characters. *)
Definition first_occurrence (s t : list Z) (n : Z) (o : option nat) : Prop :=
  match o with
  | Some i => t `prefix_of` drop i s /\ Z.of_nat i + zlen t <= n /\
              forall j, (j < i)%nat -> ~ t `prefix_of` drop j s
  | None => forall i, Z.of_nat i + zlen t <= n -> ~ t `prefix_of` drop i s
  end.

Lemma str_str_loop_spec s : forall t r q n,
  text s -> text t -> t <> [] ->
  exists o, str_str_loop (s ++ 0 :: r) (t ++ 0 :: q) (length t) n
            = Some ((fun i => drop i s ++ 0 :: r) <$> o) /\ first_occurrence s t n o.
Proof.
  induction s as [|c s IH]; intros t r q n Hs Ht Hne.
  - exists None. split; [cbn; by destruct (_ <? _)|]. intros i _ Hp.
    rewrite drop_nil in Hp. by destruct t; [|apply prefix_nil_not in Hp].
  - cbn [app str_str_loop]. destruct (Z.ltb_spec n (zlen t)).
    { exists None. split; [done|]. intros i Hi. lia. }
    pose proof Hs as Hs'. apply Forall_cons in Hs' as [Hc Hs'].
    rewrite (proj2 (Z.eqb_neq c 0) Hc).
    destruct (strncmp_prefix t (c :: s) r (0 :: q) Ht Hs) as (x & Ex & Hx).
    cbn [app] in Ex. rewrite Ex. cbn [mbind option_bind].
    destruct (Z.eqb_spec x 0) as [->|Hx0].
    + exists (Some 0%nat). split; [done|]. split; [by apply Hx|]. split; [lia|].
      intros j Hj. lia.
    + destruct (IH t r q (n - 1) Hs' Ht Hne) as (o & -> & Ho).
      exists (S <$> o). split; [by destruct o|]. destruct o as [i|]; simpl in *.
      * destruct Ho as (? & ? & Hj). split; [done|]. split; [lia|].
        intros [|j] Hlt; [by rewrite <- Hx|]. apply Hj. lia.
      * intros [|i] Hi; [by rewrite <- Hx|]. apply Ho. lia.
Qed.

(** [str_str] returns the first occurrence of the needle that lies within the
    first [haystack_len] characters of the haystack, and NULL when there is none. *)
Theorem str_str_first s t r q n :
  text s -> text t -> t <> [] -> 0 <= n ->
  exists o, str_str (s ++ 0 :: r) (t ++ 0 :: q) n
            = Some ((fun i => drop i s ++ 0 :: r) <$> o) /\ first_occurrence s t n o.
Proof.
  intros Hs Ht Hne Hn. unfold str_str. rewrite strlen_text by done. cbn [mbind option_bind].
  rewrite (proj2 (Z.eqb_neq _ 0)) by (destruct t; [done|simpl; lia]).
  destruct (Z.leb_spec (zlen t) n).
  - rewrite Nat2Z.id. by apply str_str_loop_spec.
  - exists None. split; [done|]. intros i Hi. lia.
Qed.

Lemma str_str_first_witness :
  exists o, str_str (bytes_of_string "a CRLF b" ++ 0 :: []) (bytes_of_string "LF" ++ 0 :: []) 8
            = Some ((fun i => drop i (bytes_of_string "a CRLF b") ++ 0 :: []) <$> o) /\
    first_occurrence (bytes_of_string "a CRLF b") (bytes_of_string "LF") 8 o.
Proof.
  apply (str_str_first (bytes_of_string "a CRLF b") (bytes_of_string "LF") [] [] 8).
  - repeat constructor; discriminate.
  - repeat constructor; discriminate.
  - discriminate.
  - lia.
Defined.

(** ** Splitting a command line *)

Fixpoint split_fields (delim : Z) (t : list Z) : list (list Z) :=
  match t with
  | [] => [[]]
  | c :: t =>
      if c =? delim then [] :: split_fields delim t
      else match split_fields delim t with
           | f :: fs => (c :: f) :: fs
           | [] => []
           end
  end.

(** A final empty field does not count. *)
Fixpoint drop_last_empty (fs : list (list Z)) : list (list Z) :=
  match fs with
  | [] => []
  | [f] => match f with [] => [] | _ => [f] end
  | f :: fs => f :: drop_last_empty fs
  end.

(** The text of the C string at an address. *)
Fixpoint c_text (s : list Z) : list Z :=
  match s with
  | [] => []
  | c :: s => if c =? 0 then [] else c :: c_text s
  end.

Lemma split_fields_cons delim t : exists f fs, split_fields delim t = f :: fs.
Proof.
  induction t as [|c t (f & fs & IH)]; [by exists [], []|]. simpl. rewrite IH.
  destruct (c =? delim); eauto.
Qed.

Lemma drop_last_empty_tail f g fs :
  tail (drop_last_empty (f :: fs)) = tail (drop_last_empty (g :: fs)).
Proof. destruct fs; [by destruct f, g|done]. Qed.

Lemma parse_argv_loop_spec delim max t : forall r pos argc,
  text t -> delim <> 0 ->
  exists line argv,
    parse_argv_loop (t ++ 0 :: r) delim pos argc max = Some (line, argv) /\
    Forall (fun o => pos < o) argv /\
    Some (c_text line) = head (split_fields delim t) /\
    ((fun o => c_text (drop (Z.to_nat (o - pos)) line)) <$> argv)
    = take (Z.to_nat (max - argc)) (tail (drop_last_empty (split_fields delim t))).
Proof.
  induction t as [|c t IH]; intros r pos argc Ht Hd.
  { exists (0 :: r), []. simpl. by rewrite take_nil. }
  apply Forall_cons in Ht as [Hc Ht]. cbn [app parse_argv_loop].
  rewrite (proj2 (Z.eqb_neq c 0) Hc).
  (* the offsets seen from the tail of the line *)
  assert (Hshift : forall x line argv, Forall (fun o => pos + 1 < o) argv ->
    (fun o => c_text (drop (Z.to_nat (o - pos)) (x :: line))) <$> argv
    = (fun o => c_text (drop (Z.to_nat (o - (pos + 1))) line)) <$> argv).
  { intros x line argv Ha. apply list_fmap_ext. intros i o Ho.
    apply (Forall_lookup_1 _ _ _ _ Ha) in Ho.
    replace (Z.to_nat (o - pos)) with (S (Z.to_nat (o - (pos + 1)))) by lia. done. }
  destruct (split_fields_cons delim t) as (f & fs & Es).
  destruct (Z.eqb_spec c delim) as [->|Hcd].
  - destruct t as [|c' t].
    { simpl. rewrite (proj2 (Z.eqb_eq delim delim)) by done.
      exists (0 :: 0 :: r), []. simpl. by rewrite take_nil. }
    pose proof Ht as Ht'. apply Forall_cons in Ht' as [Hc' _].
    cbn [app]. rewrite (proj2 (Z.eqb_neq c' 0) Hc'). cbn [negb andb].
    set (a := if argc <? max then argc + 1 else argc).
    destruct (IH r (pos + 1) a Ht Hd) as (line & argv & E & HF & HT & HA).
    cbn [app] in E. rewrite E. cbn [mbind option_bind].
    exists (0 :: line), (if argc <? max then (pos + 1) :: argv else argv).
    split; [done|].
    assert (Es1 : split_fields delim (delim :: c' :: t) = [] :: f :: fs)
      by (rewrite <- Es; cbn [split_fields]; by rewrite Z.eqb_refl).
    rewrite Es1. rewrite Es in *. simpl in HT. injection HT as HT.
    assert (Hne : drop_last_empty ([] :: f :: fs) = [] :: f :: tail (drop_last_empty (f :: fs))).
    { cbn [drop_last_empty]. f_equal. destruct fs as [|g fs]; [|done].
      destruct f; [|done]. exfalso. cbn [split_fields] in Es.
      destruct (c' =? delim); [by destruct (split_fields_cons delim t) as (? & ? & E');
        rewrite E' in Es|]. by destruct (split_fields delim t). }
    rewrite Hne. cbn [tail].
    split; [|split; [done|]].
    + destruct (argc <? max); [constructor; [lia|]|];
        (eapply Forall_impl; [exact HF|]; simpl; intros; lia).
    + subst a. destruct (Z.ltb_spec argc max).
      * rewrite fmap_cons.
        replace (Z.to_nat (max - argc)) with (S (Z.to_nat (max - (argc + 1)))) by lia.
        cbn [take]. f_equal; [by replace (pos + 1 - pos) with 1 by lia|].
        rewrite <- HA. by apply Hshift.
      * rewrite Hshift, HA by done. by replace (Z.to_nat (max - argc)) with 0%nat by lia.
  - destruct (IH r (pos + 1) argc Ht Hd) as (line & argv & E & HF & HT & HA).
    rewrite E. cbn [mbind option_bind]. exists (c :: line), argv. split; [done|].
    cbn [split_fields]. rewrite (proj2 (Z.eqb_neq c delim) Hcd), Es in *.
    simpl in HT. injection HT as HT.
    split; [eapply Forall_impl; [exact HF|]; simpl; intros; lia|].
    split; [cbn [c_text head]; rewrite (proj2 (Z.eqb_neq c 0) Hc); by rewrite HT|].
    rewrite Hshift, HA by done. by rewrite (drop_last_empty_tail (c :: f) f).
Qed.

(** [parse_argv] splits a command line at the delimiter: the arguments it
    stores are, in order, the fields of the line (a trailing empty one apart),
    as nul-terminated strings, at most [max_argv] of them. *)
Theorem parse_argv_fields delim max t r :
  text t -> delim <> 0 -> 0 <= max ->
  exists line argv, parse_argv (t ++ 0 :: r) delim max = Some (line, argv) /\
    (fun o => c_text (drop (Z.to_nat o) line)) <$> argv
    = take (Z.to_nat max) (drop_last_empty (split_fields delim t)).
Proof.
  intros Ht Hd Hm. unfold parse_argv. destruct t as [|c t].
  { exists (0 :: r), []. simpl. by rewrite take_nil. }
  pose proof Ht as Ht'. apply Forall_cons in Ht' as [Hc _]. cbn [app].
  rewrite (proj2 (Z.eqb_neq c 0) Hc). cbn [negb andb].
  destruct (parse_argv_loop_spec delim max (c :: t) r 0 (Zb (0 <? max)) Ht Hd)
    as (line & argv & E & HF & HT & HA).
  cbn [app] in E. rewrite E. cbn [mbind option_bind].
  eexists line, _. split; [done|].
  assert (HD : drop_last_empty (split_fields delim (c :: t))
    = c_text line :: tail (drop_last_empty (split_fields delim (c :: t)))).
  { cbn [split_fields] in *. destruct (split_fields_cons delim t) as (f & fs & Es).
    rewrite Es in *. destruct (c =? delim); simpl in HT; injection HT as ->; [done|].
    by destruct fs. }
  rewrite HD. destruct (Z.ltb_spec 0 max); simpl Zb in *.
  - replace (Z.to_nat max) with (S (Z.to_nat (max - 1))) by lia. rewrite fmap_cons. cbn [take].
    f_equal. rewrite <- HA. apply list_fmap_ext. intros i o _. by rewrite Z.sub_0_r.
  - replace (Z.to_nat max) with 0%nat by lia.
    replace (Z.to_nat (max - 0)) with 0%nat in HA by lia. cbn [take] in *.
    by destruct argv.
Qed.

Lemma parse_argv_fields_witness :
  exists line argv, parse_argv (bytes_of_string "call::12:" ++ 0 :: []) 58 16 = Some (line, argv) /\
    (fun o => c_text (drop (Z.to_nat o) line)) <$> argv
    = [bytes_of_string "call"; []; bytes_of_string "12"].
Proof.
  apply (parse_argv_fields 58 16 (bytes_of_string "call::12:") []).
  - repeat constructor; discriminate.
  - discriminate.
  - lia.
Defined.
