(* ===== verification/DataFormats.v ===== *)
(** DataFormats: dataformats.c, the textual forms of identifiers and the
    little-endian integers of files and radio frames. *)

From S2P Require Import Prelude Str.

Definition SID_SIZE : nat := 32.
Definition SID_STRLEN : nat := 64.
Definition DID_MINSIZE : Z := 5.
Definition DID_MAXSIZE : nat := 32.
Definition RHIZOME_MANIFEST_ID_STRLEN : nat := 64.
Definition RHIZOME_BUNDLE_KEY_STRLEN : nat := 64.
Definition RHIZOME_CRYPT_KEY_STRLEN : nat := 64.
Definition RHIZOME_FILEHASH_STRLEN : nat := 128.

Definition SID_BROADCAST : list Z := replicate SID_SIZE 255.

Definition broadcast_text : list Z := bytes_of_string "broadcast".
Definition broadcast_str : list Z := broadcast_text ++ [0].

(** strcmp(3) against a literal: it decides within the literal's length. *)
Definition strcmp (s lit : list Z) : option Z := strncmp s lit (length lit).

(** ** Identifiers *)

(** The return value and the 32 bytes stored in [*sid]. *)
Definition str_to_sid_t (hex : list Z) : option (Z * list Z) :=
  c ← strcmp hex broadcast_str;
  if c =? 0 then Some (0, SID_BROADCAST)
  else fromhexstr hex SID_SIZE.

(** The return value, the bytes stored in [*sid] (if any) and [*endp]. *)
Definition strn_to_sid_t (hex : list Z) : option (Z * option (list Z) * list Z) :=
  sw ← str_startswith hex broadcast_str;
  match sw with
  | None => Some (0, Some SID_BROADCAST, hex)
  | Some after =>
      '(n, tmp) ← fromhex hex SID_SIZE;
      if negb (n =? Z.of_nat SID_SIZE) then Some (-1, None, after)
      else Some (0, Some tmp, drop (SID_SIZE * 2) hex)
  end.

Definition strn_is_subscriber_id (sid : list Z) : option (option nat) :=
  c ← strncasecmp sid broadcast_str 9;
  if c =? 0 then Some (Some 9%nat)
  else
    x ← is_xsubstring sid SID_STRLEN;
    Some (if x : bool then Some SID_STRLEN else None).

(** Whether the character behind an accepted prefix is the terminator. *)
Definition ends_at (s : list Z) (o : option nat) : option bool :=
  match o with
  | None => Some false
  | Some n => c ← s !! n; Some (c =? 0)
  end.

Definition str_is_subscriber_id (sid : list Z) : option bool :=
  o ← strn_is_subscriber_id sid; ends_at sid o.

Definition rhizome_strn_is_manifest_id (id : list Z) : option bool :=
  is_xsubstring id RHIZOME_MANIFEST_ID_STRLEN.
Definition rhizome_str_is_manifest_id (id : list Z) : option bool :=
  is_xstring id RHIZOME_MANIFEST_ID_STRLEN.
Definition rhizome_strn_is_bundle_key (key : list Z) : option bool :=
  is_xsubstring key RHIZOME_BUNDLE_KEY_STRLEN.
Definition rhizome_str_is_bundle_key (key : list Z) : option bool :=
  is_xstring key RHIZOME_BUNDLE_KEY_STRLEN.
Definition rhizome_strn_is_bundle_crypt_key (key : list Z) : option bool :=
  is_xsubstring key RHIZOME_CRYPT_KEY_STRLEN.
Definition rhizome_str_is_bundle_crypt_key (key : list Z) : option bool :=
  is_xstring key RHIZOME_CRYPT_KEY_STRLEN.
Definition rhizome_strn_is_file_hash (hash : list Z) : option bool :=
  is_xsubstring hash RHIZOME_FILEHASH_STRLEN.
Definition rhizome_str_is_file_hash (hash : list Z) : option bool :=
  is_xstring hash RHIZOME_FILEHASH_STRLEN.

(** ** Telephone numbers *)

Definition is_didchar (c : Z) : bool := isdigit c || (c =? 42) || (c =? 35) || (c =? 43).

(** [for (i = 0; i < DID_MAXSIZE && is_didchar(did[i]); ++i)]. *)
Fixpoint did_span (did : list Z) (n : nat) {struct n} : option nat :=
  match n with
  | O => Some 0%nat
  | S n =>
      match did with
      | [] => None
      | c :: did => if is_didchar c then S <$> did_span did n else Some 0%nat
      end
  end.

Definition strn_is_did (did : list Z) : option (option nat) :=
  i ← did_span did DID_MAXSIZE;
  Some (if Z.of_nat i <? DID_MINSIZE then None else Some i).

Definition str_is_did (did : list Z) : option bool :=
  o ← strn_is_did did; ends_at did o.

(** ** Little-endian integers *)

(** The loop [*(o++) = v & 0xff; v = v >> 8]. *)
Fixpoint write_uint (n : nat) (v : Z) : list Z :=
  match n with
  | O => []
  | S n => Z.land v 255 :: write_uint n (Z.shiftr v 8)
  end.
Definition write_uint64 (v : Z) : list Z := write_uint 8 (u64 v).
Definition write_uint32 (v : Z) : list Z := write_uint 4 (u32 v).
Definition write_uint16 (v : Z) : list Z := write_uint 2 (u16 v).

(** The loop [v = (v << 8) | o[n-1-i]], for an unsigned type with [wrap]. *)
Definition read_uint (wrap : Z -> Z) (o : list Z) : Z :=
  fold_left (fun v b => Z.lor (wrap (Z.shiftl v 8)) b) (rev o) 0.
Definition read_uint64 (o : list Z) : option Z := d ← zslice o 0 8; Some (read_uint u64 d).
Definition read_uint32 (o : list Z) : option Z := d ← zslice o 0 4; Some (read_uint u32 d).
Definition read_uint16 (o : list Z) : option Z := d ← zslice o 0 2; Some (read_uint u16 d).

Lemma write_uint_length n v : length (write_uint n v) = n.
Proof. revert v. induction n; simpl; auto. Qed.

Lemma write_uint_bytes n v : are_bytes (write_uint n v).
Proof. revert v. induction n; simpl; intros; constructor; auto using land_byte. Qed.

(** Reading what was written, for any width the accumulator holds. *)
Lemma read_write_uint (w : Z) n v :
  8 * Z.of_nat n <= w -> 0 <= v < 2 ^ (8 * Z.of_nat n) ->
  read_uint (fun z => z mod 2 ^ w) (write_uint n v) = v.
Proof.
  unfold read_uint.
  revert v. induction n as [|n IH]; intros v Hw Hv.
  { change (2 ^ (8 * Z.of_nat 0)) with 1 in Hv. cbn. lia. }
  assert (Hs : 0 <= Z.shiftr v 8 < 2 ^ (8 * Z.of_nat n)).
  { rewrite Z.shiftr_div_pow2 by lia. split; [apply Z.div_pos; lia|].
    apply Z.div_lt_upper_bound; [lia|]. rewrite <- Z.pow_add_r by lia.
    replace (8 + 8 * Z.of_nat n) with (8 * Z.of_nat (S n)) by lia. lia. }
  cbn [write_uint rev]. rewrite fold_left_app. cbn [fold_left].
  rewrite IH by (done || lia). rewrite Z.mod_small.
  - pose proof (land_byte v). rewrite lor_shiftl_add by (done || lia).
    rewrite land_255, Z.shiftr_div_pow2 by lia.
    change (2 ^ 8) with 256. pose proof (Z.div_mod v 256 ltac:(lia)). lia.
  - rewrite Z.shiftl_mul_pow2 by lia. split; [lia|].
    apply Z.lt_le_trans with (2 ^ (8 * Z.of_nat n) * 2 ^ 8); [nia|].
    rewrite <- Z.pow_add_r by lia. apply Z.pow_le_mono_r; lia.
Qed.

Lemma read_write_uint32 v r : 0 <= v < 2 ^ 32 -> read_uint32 (write_uint32 v ++ r) = Some v.
Proof.
  intros Hv. unfold read_uint32, write_uint32. rewrite u32_id by lia.
  change 4 with (zlen (write_uint 4 v)). rewrite zslice_prefix. cbn [mbind option_bind].
  f_equal. by apply (read_write_uint 32).
Qed.

(** The little-endian writers and readers of 64, 32 and 16 bits are inverse
    on every value of their width. *)
Theorem uint_roundtrip r :
  (forall v, 0 <= v < 2 ^ 64 -> read_uint64 (write_uint64 v ++ r) = Some v) /\
  (forall v, 0 <= v < 2 ^ 32 -> read_uint32 (write_uint32 v ++ r) = Some v) /\
  (forall v, 0 <= v < 2 ^ 16 -> read_uint16 (write_uint16 v ++ r) = Some v).
Proof.
  split; [|split; [intros; by apply read_write_uint32|]]; intros v Hv.
  - unfold read_uint64, write_uint64, u64 at 2. rewrite Z.mod_small by lia.
    change 8 with (zlen (write_uint 8 v)) at 1. rewrite zslice_prefix.
    cbn [mbind option_bind]. f_equal. by apply (read_write_uint 64).
  - unfold read_uint16, write_uint16, u16 at 2. rewrite Z.mod_small by lia.
    change 2 with (zlen (write_uint 2 v)) at 1. rewrite zslice_prefix.
    cbn [mbind option_bind]. f_equal. by apply (read_write_uint 16).
Qed.

Lemma did_span_text t : forall n r, text t -> exists k, did_span (t ++ 0 :: r) n = Some k /\
  (k <= n)%nat /\ (k <= length t)%nat /\ forallb is_didchar (take k t) = true /\
  ((k < n)%nat -> (k < length t)%nat -> forallb is_didchar (take (S k) t) = false).
Proof.
  induction t as [|c t IH]; intros [|n] r Ht; simpl app; cbn [did_span].
  1,3: exists 0%nat; simpl; split_and!; auto; lia.
  - exists 0%nat. simpl. split_and!; auto; lia.
  - apply Forall_cons in Ht as [_ Ht]. destruct (is_didchar c) eqn:Ec.
    + destruct (IH n r Ht) as (k & -> & ? & ? & Hk & Hm). exists (S k).
      cbn [take forallb length]. rewrite Ec. simpl. split_and!; auto; [lia|lia|].
      intros. apply Hm; lia.
    + exists 0%nat. simpl. rewrite Ec. split_and!; auto; lia.
Qed.

(** [str_is_did] accepts exactly the nul-terminated strings of 5 to 32
    characters from the digits, star, hash and plus, without reading past the
    terminator. *)
Theorem str_is_did_correct t r :
  text t ->
  str_is_did (t ++ 0 :: r)
  = Some (bool_decide (5 <= zlen t <= 32) && forallb is_didchar t).
Proof.
  intros Ht. unfold str_is_did, strn_is_did.
  destruct (did_span_text t DID_MAXSIZE r Ht) as (k & -> & Hn & Hl & Hk & Hm).
  unfold DID_MAXSIZE, DID_MINSIZE in *. cbn [mbind option_bind].
  destruct (Nat.eq_dec k (length t)) as [->|Hne].
  - rewrite firstn_all in Hk. rewrite Hk, andb_true_r.
    destruct (Z.ltb_spec (zlen t) 5); cbn [ends_at].
    + by rewrite bool_decide_eq_false_2 by lia.
    + rewrite lookup_app_r, Nat.sub_diag by lia. simpl.
      by rewrite bool_decide_eq_true_2 by lia.
  - assert (Hf : bool_decide (5 <= zlen t <= 32) && forallb is_didchar t = false).
    { destruct (decide (k < 32)%nat) as [Hk32|Hk32].
      - rewrite andb_comm. specialize (Hm Hk32 ltac:(lia)).
        destruct (forallb is_didchar t) eqn:E; [|done].
        rewrite <- (take_drop (S k) t), forallb_app, Hm in E. done.
      - rewrite bool_decide_eq_false_2 by lia. done. }
    rewrite Hf. destruct (Z.of_nat k <? 5); cbn [ends_at]; [done|].
    rewrite lookup_app_l by lia. destruct (lookup_lt_is_Some_2 t k) as [x Hx]; [lia|].
    rewrite Hx. cbn [mbind option_bind]. do 2 f_equal. apply Z.eqb_neq.
    apply (Forall_lookup_1 _ _ _ _ Ht Hx).
Qed.

Lemma str_is_did_correct_witness : str_is_did (bytes_of_string "+6188" ++ 0 :: []) = Some true.
Proof.
  apply (str_is_did_correct (bytes_of_string "+6188") []).
  repeat constructor; discriminate.
Defined.

(** [strn_to_sid_t] has its broadcast test inverted: for every string that does
    not begin with "broadcast", whatever it holds, it succeeds with the broadcast
    address, and a string that does begin with it is rejected. *)
Theorem strn_to_sid_t_inverted t r :
  text t ->
  (~ broadcast_text `prefix_of` t ->
   strn_to_sid_t (t ++ 0 :: r) = Some (0, Some SID_BROADCAST, t ++ 0 :: r)) /\
  (broadcast_text `prefix_of` t ->
   exists after, strn_to_sid_t (t ++ 0 :: r) = Some (-1, None, after)).
Proof.
  intros Ht. unfold strn_to_sid_t, broadcast_str.
  assert (HT : text broadcast_text) by (repeat constructor; discriminate).
  assert (E : forall s, str_startswith (t ++ 0 :: r) (broadcast_text ++ 0 :: s)
    = Some (if decide (broadcast_text `prefix_of` t)
            then Some (drop (length broadcast_text) t ++ 0 :: r) else None))
    by (intros; by apply str_startswith_text).
  rewrite (E []). cbn [mbind option_bind]. split; intros Hp.
  - by rewrite decide_False.
  - rewrite decide_True by done. destruct Hp as [k ->].
    eexists. reflexivity.
Qed.

Lemma strn_to_sid_t_inverted_witness :
  strn_to_sid_t (bytes_of_string "not a sid" ++ 0 :: [])
  = Some (0, Some SID_BROADCAST, bytes_of_string "not a sid" ++ 0 :: []).
Proof.
  apply (strn_to_sid_t_inverted (bytes_of_string "not a sid") []).
  - repeat constructor; discriminate.
  - intros [k Hk]. discriminate.
Defined.
