(* ===== verification/Slip.v ===== *)
(** Slip: slip.c, the framing of packets on serial packet radios, and the
    receive loop of overlay_interface.c that feeds it.

    Two encapsulations are modelled: SLIP (escape bytes, trailing CRC) and UPPER7
    (seven data bits per byte, leading length and CRC, with RSSI text mixed into
    the stream).  The decoder is the state machine of the source over
    [struct slip_decode_state]; its fixed arrays are regions of 2048 and 256 bytes,
    so that [None] is a write or read outside them. *)

From S2P Require Import Prelude Str DataFormats Crc32.

Definition SLIP_END : Z := 0xc0.
Definition SLIP_ESC : Z := 0xdb.
Definition SLIP_0a : Z := 0x0a.
Definition SLIP_0d : Z := 0x0d.
Definition SLIP_0f : Z := 0x0f.
Definition SLIP_1b : Z := 0x1b.
Definition SLIP_ESC_END : Z := 0xdc.
Definition SLIP_ESC_ESC : Z := 0xdd.
Definition SLIP_ESC_0a : Z := 0x7a.
Definition SLIP_ESC_0d : Z := 0x7d.
Definition SLIP_ESC_0f : Z := 0x7f.
Definition SLIP_ESC_1b : Z := 0x6b.
Definition DC_VALID : Z := 1.
Definition DC_ESC : Z := 2.
Definition SLIP_FORMAT_SLIP : Z := 0.
Definition SLIP_FORMAT_UPPER7 : Z := 1.
Definition OVERLAY_INTERFACE_RX_BUFFER_SIZE : Z := 2048.
Definition RSSI_TEXT_SIZE : Z := 256.

Record slip_decode_state := mk_sds {
  encapsulator : Z;
  state : Z;
  src : list Z;
  src_size : Z;
  rssi_text : list Z;
  rssi_len : Z;
  packet_length : Z;
  dst : list Z;
  crc : Z;
  src_offset : Z;
  dst_offset : Z
}.

Definition set_state (s : slip_decode_state) (x : Z) : slip_decode_state :=
  mk_sds (encapsulator s) x (src s) (src_size s) (rssi_text s) (rssi_len s)
    (packet_length s) (dst s) (crc s) (src_offset s) (dst_offset s).
Definition set_rssi (s : slip_decode_state) (t : list Z) (n : Z) : slip_decode_state :=
  mk_sds (encapsulator s) (state s) (src s) (src_size s) t n
    (packet_length s) (dst s) (crc s) (src_offset s) (dst_offset s).
Definition set_packet_length (s : slip_decode_state) (x : Z) : slip_decode_state :=
  mk_sds (encapsulator s) (state s) (src s) (src_size s) (rssi_text s) (rssi_len s)
    x (dst s) (crc s) (src_offset s) (dst_offset s).
Definition set_dst (s : slip_decode_state) (d : list Z) : slip_decode_state :=
  mk_sds (encapsulator s) (state s) (src s) (src_size s) (rssi_text s) (rssi_len s)
    (packet_length s) d (crc s) (src_offset s) (dst_offset s).
Definition set_crc (s : slip_decode_state) (x : Z) : slip_decode_state :=
  mk_sds (encapsulator s) (state s) (src s) (src_size s) (rssi_text s) (rssi_len s)
    (packet_length s) (dst s) x (src_offset s) (dst_offset s).
Definition set_src_offset (s : slip_decode_state) (x : Z) : slip_decode_state :=
  mk_sds (encapsulator s) (state s) (src s) (src_size s) (rssi_text s) (rssi_len s)
    (packet_length s) (dst s) (crc s) x (dst_offset s).
Definition set_dst_offset (s : slip_decode_state) (x : Z) : slip_decode_state :=
  mk_sds (encapsulator s) (state s) (src s) (src_size s) (rssi_text s) (rssi_len s)
    (packet_length s) (dst s) (crc s) (src_offset s) x.
Definition set_src (s : slip_decode_state) (d : list Z) (n : Z) : slip_decode_state :=
  mk_sds (encapsulator s) (state s) d n (rssi_text s) (rssi_len s)
    (packet_length s) (dst s) (crc s) 0 (dst_offset s).

(** ** Encoding *)

(** How [slip_encode] ends: it returns a value, or stops the process by FATALF. *)
Inductive outcome := Returned (ret : Z) | Fatal.

(** [dst[offset++] = b] for each byte in turn. *)
Definition emit (dst : list Z) (offset : Z) (bs : list Z) : option (list Z * Z) :=
  d ← zblit dst offset bs; Some (d, offset + zlen bs).

Definition slip_escape (c : Z) : list Z :=
  if c =? SLIP_END then [SLIP_ESC; SLIP_ESC_END]
  else if c =? SLIP_ESC then [SLIP_ESC; SLIP_ESC_ESC]
  else if c =? SLIP_0a then [SLIP_ESC; SLIP_ESC_0a]
  else if c =? SLIP_0d then [SLIP_ESC; SLIP_ESC_0d]
  else if c =? SLIP_0f then [SLIP_ESC; SLIP_ESC_0f]
  else if c =? SLIP_1b then [SLIP_ESC; SLIP_ESC_1b]
  else [c].

(** The loop over [src[i]], [n] bytes to go; [true]: the destination is full. *)
Fixpoint slip_encode_loop (n : nat) (src : list Z) (i : Z) (dst : list Z)
    (offset dst_len : Z) {struct n} : option (bool * list Z * Z) :=
  match n with
  | O => Some (false, dst, offset)
  | S n =>
      if dst_len <? offset + 3 then Some (true, dst, offset)
      else
        c ← zget src i;
        '(dst, offset) ← emit dst offset (slip_escape c);
        slip_encode_loop n src (i + 1) dst offset dst_len
  end.

(** The eight header bytes: marker, length and CRC in groups of seven bits. *)
Definition upper7_header (src_bytes crc : Z) : list Z :=
  [123;
   0x80 + Z.land (Z.shiftr src_bytes 7) 0x7f;
   0x80 + Z.land (Z.shiftr src_bytes 0) 0x7f;
   Z.lor 0x80 (Z.land (Z.shiftr crc 25) 0x7f);
   Z.lor 0x80 (Z.land (Z.shiftr crc (25 - 7)) 0x7f);
   Z.lor 0x80 (Z.land (Z.shiftr crc (25 - 7 - 7)) 0x7f);
   Z.lor 0x80 (Z.land (Z.shiftr crc (25 - 7 - 7 - 7)) 0x7f);
   Z.lor 0x80 (Z.land (Z.shiftr crc 0) 0x7f)].

(** Seven bytes as eight bytes of seven bits. *)
Definition upper7_block (v : list Z) : list Z :=
  let v j := nth j v 0 in
  [Z.lor 0x80 (Z.shiftr (v 0%nat) 1);
   Z.lor (Z.lor 0x80 (Z.shiftl (Z.land (v 0%nat) 0x01) 6)) (Z.shiftr (v 1%nat) 2);
   Z.lor (Z.lor 0x80 (Z.shiftl (Z.land (v 1%nat) 0x03) 5)) (Z.shiftr (v 2%nat) 3);
   Z.lor (Z.lor 0x80 (Z.shiftl (Z.land (v 2%nat) 0x07) 4)) (Z.shiftr (v 3%nat) 4);
   Z.lor (Z.lor 0x80 (Z.shiftl (Z.land (v 3%nat) 0x0f) 3)) (Z.shiftr (v 4%nat) 5);
   Z.lor (Z.lor 0x80 (Z.shiftl (Z.land (v 4%nat) 0x1f) 2)) (Z.shiftr (v 5%nat) 6);
   Z.lor (Z.lor 0x80 (Z.shiftl (Z.land (v 5%nat) 0x3f) 1)) (Z.shiftr (v 6%nat) 7);
   Z.lor 0x80 (Z.shiftl (Z.land (v 6%nat) 0x7f) 0)].

(** [for(i=0;i<src_bytes;i+=7)], with [n] passes at most; [true]: out of space.
    The vector of a pass is the next seven source bytes, padded with zeros. *)
Fixpoint upper7_encode_loop (n : nat) (src : list Z) (src_bytes i : Z) (dst : list Z)
    (out_len dst_len : Z) {struct n} : option (bool * list Z * Z) :=
  match n with
  | O => None
  | S n =>
      if src_bytes <=? i then Some (false, dst, out_len)
      else
        v ← zslice src i (Z.min 7 (src_bytes - i));
        let v := v ++ replicate (7 - length v) 0 in
        if dst_len <? out_len + 8 then Some (true, dst, out_len)
        else
          '(dst, out_len) ← emit dst out_len (upper7_block v);
          upper7_encode_loop n src src_bytes (i + 7) dst out_len dst_len
  end.

(** The result, and the source and destination regions afterwards. *)
Definition slip_encode (format : Z) (src : list Z) (src_bytes : Z) (dst : list Z)
    (dst_len : Z) : option (outcome * list Z * list Z) :=
  if format =? SLIP_FORMAT_SLIP then
    if dst_len <? 0 + 2 then Some (Returned (-1), src, dst)
    else
      '(dst, offset) ← emit dst 0 [SLIP_END];
      crc ← Crc32_ComputeBuf 0 src src_bytes;
      src ← zblit src src_bytes (write_uint32 crc);
      '(full, dst, offset) ←
        slip_encode_loop (Z.to_nat (src_bytes + 4)) src 0 dst offset dst_len;
      if full : bool then Some (Returned (-1), src, dst)
      else
        '(dst, offset) ← emit dst offset [SLIP_END];
        Some (Returned offset, src, dst)
  else if format =? SLIP_FORMAT_UPPER7 then
    if src_bytes <? 1 then Some (Returned 0, src, dst)
    else if 0x3fff <? src_bytes then Some (Returned (-1), src, dst)
    else if dst_len <? 9 + src_bytes + src_bytes / 7 + 1 then Some (Returned (-1), src, dst)
    else
      crc ← Crc32_ComputeBuf 0 src src_bytes;
      '(dst, out_len) ← emit dst 0 (upper7_header src_bytes crc);
      '(full, dst, out_len) ←
        upper7_encode_loop (S (Z.to_nat src_bytes)) src src_bytes 0 dst out_len dst_len;
      if full : bool then Some (Returned (-1), src, dst)
      else
        '(dst, out_len) ← emit dst out_len [125];
        Some (if dst_len <? out_len then Fatal else Returned out_len, src, dst)
  else Some (Returned (-1), src, dst).

(** ** RSSI reports *)

(** scanf(3) directives of the report format. *)
Inductive directive := Literal (c : Z) | White | Decimal (assign : bool).

Fixpoint parse_format (f : list Z) : list directive :=
  match f with
  | 37 :: 42 :: 100 :: f => Decimal false :: parse_format f
  | 37 :: 100 :: f => Decimal true :: parse_format f
  | c :: f => (if isspace c then White else Literal c) :: parse_format f
  | [] => []
  end.

(** The values assigned before the input ends or stops matching.  A value that
    an [int] cannot hold is undefined behaviour of sscanf(3). *)
Fixpoint sscanf (fmt : list directive) (s : list Z) : option (list Z) :=
  match fmt with
  | [] => Some []
  | White :: fmt => sscanf fmt (skip_space s)
  | Literal c :: fmt =>
      match s with
      | [] => None
      | x :: s => if x =? c then sscanf fmt s else Some []
      end
  | Decimal assign :: fmt =>
      '(neg, v, e) ← strto s 10;
      if bool_decide (e = s) then Some []
      else if assign
      then x ← ci (if neg : bool then - v else v); cons x <$> sscanf fmt e
      else sscanf fmt e
  end.

Definition rssi_format : list directive := parse_format (bytes_of_string
  "L/R RSSI: %d/%d  L/R noise: %d/%d pkts: %*d  txe=%*d rxe=%*d stx=%*d srx=%*d ecc=%*d/%*d temp=%d dco=%*d").

(** The file-scope variables of the RSSI reports, with the number of clock
    readings so far. *)
Record radio := mk_radio {
  last_rssi_time : Z;
  last_radio_rssi : Z;
  last_radio_temperature : Z;
  readings : nat
}.

(** The flags of [config.debug] that change what the code does. *)
Record debug_flags := mk_debug { debug_packetradio : bool; debug_slip : bool }.

(** [(int)(x / 1.9)]: the quotient by the double nearest to 1.9 is within one part
    in 2^53 of [10x/19], and rounds to the integer when 19 divides [x]. *)
Definition div_1_9 (x : Z) : Z := Z.quot (10 * x) 19.

Section decoder.
(** The clock: the value of the n-th gettime_ms() of the run. *)
Context (gettime_ms : nat -> Z) (debug : debug_flags).

Definition parse_rfd900_rssi (s : list Z) (r : radio) : option radio :=
  vs ← sscanf rssi_format s;
  match vs with
  | [lrssi; rrssi; lnoise; rnoise; temp] =>
      d ← ci (lrssi - lnoise);
      let lmargin := div_1_9 d in
      let rmargin := div_1_9 d in
      let maxmargin := if lmargin <? rmargin then rmargin else lmargin in
      let n := readings r in
      if debug_packetradio debug
      then Some (mk_radio (u64 (gettime_ms n)) maxmargin temp (n + 1))
      else if 30000 <? u64 (gettime_ms n - last_rssi_time r)
      then Some (mk_radio (u64 (gettime_ms (n + 1))) maxmargin temp (n + 2))
      else Some (mk_radio (last_rssi_time r) maxmargin temp (n + 1))
  | _ => Some r
  end.

(** ** Decoding *)

Definition UPPER7_STATE_NOTINPACKET : Z := 0.
Definition UPPER7_STATE_L1 : Z := 1.
Definition UPPER7_STATE_L2 : Z := 2.
Definition UPPER7_STATE_C1 : Z := 3.
Definition UPPER7_STATE_C2 : Z := 4.
Definition UPPER7_STATE_C3 : Z := 5.
Definition UPPER7_STATE_C4 : Z := 6.
Definition UPPER7_STATE_C5 : Z := 7.
Definition UPPER7_STATE_D0 : Z := 8.
Definition UPPER7_STATE_D1 : Z := 9.
Definition UPPER7_STATE_D2 : Z := 10.
Definition UPPER7_STATE_D3 : Z := 11.
Definition UPPER7_STATE_D4 : Z := 12.
Definition UPPER7_STATE_D5 : Z := 13.
Definition UPPER7_STATE_D6 : Z := 14.
Definition UPPER7_STATE_D7 : Z := 15.

Definition upper7_out_of_range (s : slip_decode_state) : bool :=
  (OVERLAY_INTERFACE_RX_BUFFER_SIZE <=? packet_length s)
  || (OVERLAY_INTERFACE_RX_BUFFER_SIZE <=? dst_offset s + 7)
  || (dst_offset s <? 0).

Definition upper7_reset (s : slip_decode_state) : slip_decode_state :=
  set_packet_length (set_dst_offset (set_state s UPPER7_STATE_NOTINPACKET) 0) 0.

(** [dst[dst_offset+i] |= x]. *)
Definition or_dst (s : slip_decode_state) (i x : Z) : option slip_decode_state :=
  y ← zget (dst s) (dst_offset s + i);
  d ← zset (dst s) (dst_offset s + i) (Z.lor y x);
  Some (set_dst s d).

(** [dst[dst_offset+i] = x]. *)
Definition put_dst (s : slip_decode_state) (i x : Z) : option slip_decode_state :=
  d ← zset (dst s) (dst_offset s + i) (u8 x);
  Some (set_dst s d).

Definition next_state (s : slip_decode_state) : slip_decode_state := set_state s (state s + 1).

(** The cases D1 to D6: complete byte [i], begin byte [i+1]. *)
Definition upper7_split (s : slip_decode_state) (i byte shift mask lshift : Z)
    : option slip_decode_state :=
  s ← or_dst s i (Z.land (Z.shiftr byte shift) mask);
  s ← put_dst s (i + 1) (Z.shiftl byte lshift);
  Some (next_state s).

(** The switch on [state->state] for a data byte of seven bits. *)
Definition upper7_data (s : slip_decode_state) (byte : Z) : option slip_decode_state :=
  let t := state s in
  if t =? UPPER7_STATE_NOTINPACKET then Some s
  else if t =? UPPER7_STATE_L1 then
    Some (next_state (set_packet_length s (Z.shiftl byte 7)))
  else if t =? UPPER7_STATE_L2 then
    let s := set_packet_length s (Z.lor (packet_length s) byte) in
    Some (if packet_length s + 7 <? OVERLAY_INTERFACE_RX_BUFFER_SIZE
          then set_dst_offset (next_state s) 0
          else set_state s UPPER7_STATE_NOTINPACKET)
  else if t =? UPPER7_STATE_C1 then Some (next_state (set_crc s (u32 (Z.shiftl byte 25))))
  else if t =? UPPER7_STATE_C2 then
    Some (next_state (set_crc s (Z.lor (crc s) (Z.shiftl byte (25 - 7)))))
  else if t =? UPPER7_STATE_C3 then
    Some (next_state (set_crc s (Z.lor (crc s) (Z.shiftl byte (25 - 7 - 7)))))
  else if t =? UPPER7_STATE_C4 then
    Some (next_state (set_crc s (Z.lor (crc s) (Z.shiftl byte (25 - 7 - 7 - 7)))))
  else if t =? UPPER7_STATE_C5 then
    Some (next_state (set_crc s (Z.lor (crc s) (Z.shiftl byte 0))))
  else if t =? UPPER7_STATE_D0 then
    if upper7_out_of_range s then Some (upper7_reset s)
    else s ← put_dst s 0 (Z.shiftl byte 1); Some (next_state s)
  else if t =? UPPER7_STATE_D1 then upper7_split s 0 byte 6 0x01 2
  else if t =? UPPER7_STATE_D2 then upper7_split s 1 byte 5 0x03 3
  else if t =? UPPER7_STATE_D3 then upper7_split s 2 byte 4 0x07 4
  else if t =? UPPER7_STATE_D4 then upper7_split s 3 byte 3 0x0f 5
  else if t =? UPPER7_STATE_D5 then upper7_split s 4 byte 2 0x1f 6
  else if t =? UPPER7_STATE_D6 then upper7_split s 5 byte 1 0x3f 7
  else if t =? UPPER7_STATE_D7 then
    s ← or_dst s 6 (Z.land (Z.shiftr byte 0) 0x7f);
    Some (set_state (set_dst_offset s (dst_offset s + 7)) UPPER7_STATE_D0)
  else Some (set_state s UPPER7_STATE_NOTINPACKET).

(** The end of a line of RSSI text: terminate it, and parse it. *)
Definition report_text (text : list Z) (len : Z) : option (list Z) :=
  let n := if RSSI_TEXT_SIZE <=? len then RSSI_TEXT_SIZE - 1 else len in
  let n := if n <? 0 then 0 else n in
  zset text n 0.

Definition upper7_report (s : slip_decode_state) (r : radio)
    : option (slip_decode_state * radio) :=
  t ← report_text (rssi_text s) (rssi_len s);
  r ← parse_rfd900_rssi t r;
  Some (set_rssi s t 0, r).

(** Data bytes and packet fields: the range check and the switch. *)
Definition upper7_field (s : slip_decode_state) (byte : Z) : option slip_decode_state :=
  let byte := Z.land byte 0x7f in
  if upper7_out_of_range s then Some (upper7_reset s) else upper7_data s byte.

(** The return value and the updated state. *)
Definition upper7_decode (s : slip_decode_state) (r : radio) (byte : Z)
    : option (Z * slip_decode_state * radio) :=
  if byte =? 123 then
    Some (0, set_packet_length (set_state s UPPER7_STATE_L1) 0, r)
  else if byte =? 125 then
    Some (1, set_state s UPPER7_STATE_NOTINPACKET, r)
  else if (32 <=? byte) && (byte <=? 0x7f) then
    let n := if rssi_len s <? 0 then 0 else rssi_len s in
    if n <? RSSI_TEXT_SIZE
    then t ← zset (rssi_text s) n byte; Some (0, set_rssi s t (n + 1), r)
    else Some (0, set_rssi s (rssi_text s) n, r)
  else
    '(s, r) ← (if (byte =? 13) || (byte =? 10) then upper7_report s r else Some (s, r));
    if byte <? 0x80 then Some (0, s, r)
    else s ← upper7_field s byte; Some (0, s, r).

(** The escaped byte a character stands for. *)
Definition slip_unescape (c : Z) : option Z :=
  if c =? SLIP_ESC_END then Some SLIP_END
  else if c =? SLIP_ESC_ESC then Some SLIP_ESC
  else if c =? SLIP_ESC_0a then Some SLIP_0a
  else if c =? SLIP_ESC_0d then Some SLIP_0d
  else if c =? SLIP_ESC_0f then Some SLIP_0f
  else if c =? SLIP_ESC_1b then Some SLIP_1b
  else None.

(** [dst[dst_offset++] = x]. *)
Definition push_dst (s : slip_decode_state) (x : Z) : option slip_decode_state :=
  d ← zset (dst s) (dst_offset s) x;
  Some (set_dst_offset (set_dst s d) (dst_offset s + 1)).

(** One pass of the SLIP loop; [true] when it returns 1 (without consuming the
    byte), [false] when it falls to [src_offset++]. *)
Definition slip_byte (s : slip_decode_state) (c : Z) : option (bool * slip_decode_state) :=
  let s :=
    if (dst_offset s <? 0) || (OVERLAY_INTERFACE_RX_BUFFER_SIZE <=? dst_offset s)
    then set_state s (Z.land (state s) (Z.lnot DC_VALID)) else s in
  if negb (Z.land (state s) DC_ESC =? 0) then
    let s := set_state s (Z.land (state s) (Z.lnot DC_ESC)) in
    match slip_unescape c with
    | Some x => s ← push_dst s x; Some (false, s)
    | None => Some (false, set_state (set_dst_offset s 0) 0)
    end
  else if c =? SLIP_ESC then Some (false, set_state s (Z.lor (state s) DC_ESC))
  else if c =? SLIP_END then
    if 4 <? dst_offset s then
      src_crc ← (b ← zslice (dst s) (dst_offset s - 4) 4; read_uint32 b);
      crc ← Crc32_ComputeBuf 0 (dst s) (dst_offset s - 4);
      if negb (src_crc =? crc) then Some (false, set_state (set_dst_offset s 0) 0)
      else Some (true, set_packet_length s (dst_offset s - 4))
    else Some (false, set_state s DC_VALID)
  else if negb (Z.land (state s) DC_VALID =? 0) then
    s ← push_dst s c; Some (false, s)
  else Some (false, s).

(** [while(state->src_offset < state->src_size)], [n] bytes at most. *)
Fixpoint slip_loop (n : nat) (s : slip_decode_state) : option (Z * slip_decode_state) :=
  if src_size s <=? src_offset s then Some (0, s)
  else
    match n with
    | O => None
    | S n =>
        c ← zget (src s) (src_offset s);
        '(found, s) ← slip_byte s c;
        if found : bool then Some (1, s)
        else slip_loop n (set_src_offset s (src_offset s + 1))
    end.

Fixpoint upper7_loop (n : nat) (s : slip_decode_state) (r : radio)
    : option (Z * slip_decode_state * radio) :=
  if src_size s <=? src_offset s then Some (0, s, r)
  else
    match n with
    | O => None
    | S n =>
        c ← zget (src s) (src_offset s);
        '(ret, s, r) ← upper7_decode (set_src_offset s (src_offset s + 1)) r c;
        if ret =? 1 then
          c32 ← Crc32_ComputeBuf 0 (dst s) (packet_length s);
          if negb (c32 =? crc s) then upper7_loop n s r else Some (1, s, r)
        else upper7_loop n s r
    end.

Definition src_left (s : slip_decode_state) : nat := Z.to_nat (src_size s - src_offset s).

Definition slip_decode (s : slip_decode_state) (r : radio)
    : option (Z * slip_decode_state * radio) :=
  if encapsulator s =? SLIP_FORMAT_SLIP then
    '(ret, s) ← slip_loop (src_left s) s; Some (ret, s, r)
  else if encapsulator s =? SLIP_FORMAT_UPPER7 then
    s ← (if debug_slip debug then
           let n := if rssi_len s <? 0 then 0 else rssi_len s in
           let n := if RSSI_TEXT_SIZE <=? n then RSSI_TEXT_SIZE - 1 else n in
           t ← zset (rssi_text s) n 0; Some (set_rssi s t n)
         else Some s);
    upper7_loop (src_left s) s r
  else Some (-1, s, r).

(** ** The receive loop of a stream interface *)

(** [while (state->src_offset < state->src_size)] of interface_read_stream: the
    packets handed to packetOkOverlay, in order. *)
Fixpoint read_stream_loop (n : nat) (s : slip_decode_state) (r : radio)
    : option (list (list Z) * slip_decode_state * radio) :=
  if src_size s <=? src_offset s then Some ([], s, r)
  else
    match n with
    | O => None
    | S n =>
        '(ret, s, r) ← slip_decode s r;
        if ret =? 1 then
          p ← zslice (dst s) 0 (packet_length s);
          '(ps, s, r) ← read_stream_loop n (set_dst_offset s 0) r;
          Some (p :: ps, s, r)
        else read_stream_loop n s r
    end.

(** One read of [buffer] from the descriptor.  Every pass but those that deliver
    a packet consumes the rest, and a delivered packet consumes its bytes. *)
Definition interface_read_stream (s : slip_decode_state) (r : radio) (buffer : list Z)
    : option (list (list Z) * slip_decode_state * radio) :=
  read_stream_loop (S (length buffer)) (set_src s buffer (zlen buffer)) r.

End decoder.

(** * SLIP *)

Definition escaped (d : list Z) : list Z := concat (slip_escape <$> d).

(** What goes on the wire for a packet. *)
Definition slip_frame (p : list Z) : list Z :=
  SLIP_END :: escaped (p ++ write_uint32 (crc32 p)) ++ [SLIP_END].

Lemma emit_spec d off bs :
  0 <= off -> off + zlen bs <= zlen d ->
  exists d', emit d off bs = Some (d', off + zlen bs) /\ length d' = length d /\
    take (Z.to_nat (off + zlen bs)) d' = take (Z.to_nat off) d ++ bs /\
    (forall k, (Z.to_nat off + length bs <= k)%nat -> drop k d' = drop k d).
Proof.
  intros Ho Hb. unfold emit. pose proof (zblit_Some d off bs Ho Hb) as E. rewrite E.
  eexists. split; [reflexivity|]. split; [by eapply zblit_length|]. split.
  - rewrite Z2Nat.inj_add, Nat2Z.id by lia. by eapply zblit_take.
  - intros k Hk. rewrite app_assoc, drop_app_ge; rewrite length_app, length_take.
    + rewrite drop_drop. f_equal. lia.
    + lia.
Qed.

Lemma slip_escape_length c : (1 <= length (slip_escape c) <= 2)%nat.
Proof. unfold slip_escape. repeat case_match; simpl; lia. Qed.

Lemma slip_encode_loop_spec dl d : forall pre post dst off,
  1 <= off -> off + 1 <= dl -> dl <= zlen dst ->
  exists full dst' off',
    slip_encode_loop (length d) (pre ++ d ++ post) (zlen pre) dst off dl
    = Some (full, dst', off') /\ length dst' = length dst /\
    drop (Z.to_nat dl) dst' = drop (Z.to_nat dl) dst /\ 1 <= off' /\ off' + 1 <= dl /\
    (full = false -> off' = off + zlen (escaped d) /\
       take (Z.to_nat off') dst' = take (Z.to_nat off) dst ++ escaped d) /\
    (off + zlen (escaped d) + 2 <= dl -> full = false).
Proof.
  induction d as [|c d IH]; intros pre post dst off Ho Hf Hd.
  { exists false, dst, off. unfold escaped; simpl.
    rewrite app_nil_r, Z.add_0_r. split_and!; auto. }
  cbn [slip_encode_loop length]. destruct (Z.ltb_spec dl (off + 3)) as [Hl|Hl].
  { exists true, dst, off. split_and!; auto; [done|].
    unfold escaped. rewrite fmap_cons. cbn [concat]. rewrite length_app.
    pose proof (slip_escape_length c). lia. }
  pose proof (slip_escape_length c) as Hc.
  rewrite zget_app_r, Z.sub_diag by lia. cbn [app zget mbind option_bind].
  destruct (emit_spec dst off (slip_escape c)) as (d1 & E & HL & HT & HD); [lia|lia|].
  change (zget (c :: d ++ post) 0) with (Some c). cbn [mbind option_bind].
  rewrite E. cbn [mbind option_bind].
  replace (pre ++ c :: d ++ post) with ((pre ++ [c]) ++ d ++ post) by by rewrite <- app_assoc.
  replace (zlen pre + 1) with (zlen (pre ++ [c])) by (rewrite length_app; simpl; lia).
  destruct (IH (pre ++ [c]) post d1 (off + zlen (slip_escape c)))
    as (full & d2 & off2 & E2 & HL2 & HD2 & ? & ? & HT2 & HF); [lia..|].
  exists full, d2, off2. rewrite E2.
  unfold escaped in *. rewrite fmap_cons. cbn [concat]. rewrite length_app.
  split_and!; auto; try lia.
  - rewrite HD2. apply HD. lia.
  - intros Hfull. destruct (HT2 Hfull) as [-> ->]. split; [lia|].
    by rewrite HT, app_assoc.
  - intros. apply HF. lia.
Qed.

(** What [slip_encode] leaves in the destination: nothing it was not given, and
    on success the frame. *)
Definition encoded_or_refused (frame dst dst' : list Z) (dst_len : Z) (out : outcome) : Prop :=
  length dst' = length dst /\
  drop (Z.to_nat dst_len) dst' = drop (Z.to_nat dst_len) dst /\
  (out = Returned (-1) \/
   out = Returned (zlen frame) /\ zlen frame <= dst_len /\ take (length frame) dst' = frame).

Lemma slip_encode_spec p spare dst dst_len :
  4 <= zlen spare -> dst_len <= zlen dst ->
  exists out src' dst',
    slip_encode SLIP_FORMAT_SLIP (p ++ spare) (zlen p) dst dst_len = Some (out, src', dst') /\
    encoded_or_refused (slip_frame p) dst dst' dst_len out /\
    (zlen (slip_frame p) < dst_len -> out <> Returned (-1)).
Proof.
  intros Hs Hd. unfold slip_encode, encoded_or_refused. cbn [Z.eqb SLIP_FORMAT_SLIP].
  assert (HF : zlen (slip_frame p) = zlen (escaped (p ++ write_uint32 (crc32 p))) + 2).
  { unfold slip_frame. cbn [length]. rewrite length_app. simpl. lia. }
  destruct (Z.ltb_spec dst_len (0 + 2)) as [Hl|Hl].
  { do 3 eexists. split; [reflexivity|]. split; [auto|]. lia. }
  destruct (emit_spec dst 0 [SLIP_END]) as (d1 & E1 & HL1 & HT1 & HD1);
    [lia|simpl; lia|].
  rewrite E1. cbn [mbind option_bind]. rewrite Crc32_ComputeBuf_crc32. cbn [mbind option_bind].
  assert (Hw : length (write_uint32 (crc32 p)) = 4%nat) by apply write_uint_length.
  rewrite zblit_Some by (rewrite ?length_app, ?Hw; lia).
  rewrite Nat2Z.id, take_app_length. cbn [mbind option_bind].
  destruct (slip_encode_loop_spec dst_len (p ++ write_uint32 (crc32 p)) []
              (drop (length p + length (write_uint32 (crc32 p))) (p ++ spare)) d1 1)
    as (full & d2 & off & E2 & HL2 & HD2 & Ho & Hdl & HT2 & HF2); [lia..|].
  rewrite Z2Nat.inj_add, Nat2Z.id by lia. change (Z.to_nat 4) with 4%nat.
  rewrite length_app, Hw, app_nil_l, <- app_assoc in E2. change (zlen []) with 0 in E2.
  change (0 + zlen [SLIP_END]) with 1. rewrite Hw, E2.
  cbn [mbind option_bind]. destruct full.
  { do 3 eexists. split; [reflexivity|]. split; [|intros; assert (true = false) by (apply HF2; lia); done].
    split; [lia|]. split; [|by left]. rewrite HD2. apply HD1. simpl. lia. }
  destruct (emit_spec d2 off [SLIP_END]) as (d3 & E3 & HL3 & HT3 & HD3);
    [lia|simpl; lia|].
  rewrite E3. cbn [mbind option_bind]. do 3 eexists. split; [reflexivity|].
  destruct (HT2 eq_refl) as [Hoff HT]. split; [split; [lia|]; split|].
  - rewrite HD3 by (simpl; lia). rewrite HD2. apply HD1. simpl. lia.
  - right. change (zlen [SLIP_END]) with 1 in *. split; [f_equal; lia|]. split; [lia|].
    replace (length (slip_frame p)) with (Z.to_nat (off + 1)) by lia.
    rewrite HT3, HT. change (Z.to_nat (0 + 1)) with 1%nat in HT1.
    change (Z.to_nat 1) with 1%nat. rewrite HT1. done.
  - intros _ [=]. change (zlen [SLIP_END]) with 1 in *. lia.
Qed.

(** The SLIP encoder, given a source with the four spare bytes it overwrites,
    is defined for every packet and destination: it returns -1, or the length of
    the frame with the frame in the destination; it never touches the destination
    at or past [dst_len], and it succeeds whenever one byte is to spare. *)
Theorem slip_encode_correct p spare dst dst_len :
  4 <= zlen spare -> dst_len <= zlen dst ->
  exists out src' dst',
    slip_encode SLIP_FORMAT_SLIP (p ++ spare) (zlen p) dst dst_len = Some (out, src', dst') /\
    encoded_or_refused (slip_frame p) dst dst' dst_len out /\
    (zlen (slip_frame p) < dst_len -> out <> Returned (-1)).
Proof. apply slip_encode_spec. Qed.

Lemma slip_encode_correct_witness :
  exists out src' dst',
    slip_encode SLIP_FORMAT_SLIP ([192; 1] ++ replicate 4 0) 2 (replicate 16 0) 16
    = Some (out, src', dst') /\
    encoded_or_refused (slip_frame [192; 1]) (replicate 16 0) dst' 16 out /\
    (zlen (slip_frame [192; 1]) < 16 -> out <> Returned (-1)).
Proof. apply (slip_encode_correct [192; 1]); simpl; lia. Defined.

(** The bytes the decoder has still to read. *)
Record pending (s : slip_decode_state) (rest : list Z) : Prop := {
  pending_off : 0 <= src_offset s;
  pending_size : src_size s <= zlen (src s);
  pending_rest : drop (Z.to_nat (src_offset s)) (take (Z.to_nat (src_size s)) (src s)) = rest
}.

(** The fields of the source side, which decoding a byte leaves alone. *)
Definition same_src (s s' : slip_decode_state) : Prop :=
  src s' = src s /\ src_size s' = src_size s /\ src_offset s' = src_offset s /\
  encapsulator s' = encapsulator s.

Definition advance (s : slip_decode_state) : slip_decode_state :=
  set_src_offset s (src_offset s + 1).

Lemma pending_left s rest : pending s rest -> src_left s = length rest.
Proof.
  intros [? ? <-]. unfold src_left. rewrite length_drop, length_take. lia.
Qed.

Lemma pending_cons s c rest :
  pending s (c :: rest) ->
  src_offset s < src_size s /\ zget (src s) (src_offset s) = Some c /\
  forall s', same_src s s' -> pending (advance s') rest.
Proof.
  intros [H0 H1 H2].
  assert (H3 : length (drop (Z.to_nat (src_offset s)) (take (Z.to_nat (src_size s)) (src s)))
               = S (length rest)) by by rewrite H2.
  rewrite length_drop, length_take in H3.
  assert (H4 : src_offset s < src_size s) by lia. split; [done|]. split.
  - unfold zget. zdecide.
    rewrite <- (lookup_take_lt _ (Z.to_nat (src_size s))) by lia.
    rewrite <- (Nat.add_0_r (Z.to_nat (src_offset s))), <- lookup_drop, H2. done.
  - intros s' (E1 & E2 & E3 & E4). split; simpl; rewrite ?E1, ?E2, ?E3; [lia|done|].
    replace (Z.to_nat (src_offset s + 1)) with (Z.to_nat (src_offset s) + 1)%nat by lia.
    rewrite <- drop_drop, H2. done.
Qed.

Lemma pending_nil s : pending s [] -> src_size s <= src_offset s.
Proof.
  intros [? ? E]. apply (f_equal length) in E. rewrite length_drop, length_take in E.
  simpl in E. lia.
Qed.

Lemma pending_set_src s d : pending (set_src s d (zlen d)) d.
Proof.
  split; simpl; try lia. rewrite Nat2Z.id, firstn_all. done.
Qed.

(** Split every test, option and match of a hypothesis that computes a result. *)
Ltac step_inv H :=
  repeat (match type of H with
  | context [mbind _ ?x] => destruct x eqn:?; cbn [mbind option_bind] in H
  | context [match ?x with _ => _ end] => destruct x eqn:?
  end; try discriminate H);
  simplify_eq; try done.

Lemma push_dst_same s x s' : push_dst s x = Some s' -> same_src s s'.
Proof. unfold push_dst. intros H. step_inv H. Qed.

Lemma same_src_trans s1 s2 s3 : same_src s1 s2 -> same_src s2 s3 -> same_src s1 s3.
Proof. unfold same_src. intuition congruence. Qed.

Lemma slip_byte_same s c b s' : slip_byte s c = Some (b, s') -> same_src s s'.
Proof.
  unfold slip_byte. set (s1 := if (_ : bool) then _ else s).
  assert (H1 : same_src s s1) by by (subst s1; case_match).
  clearbody s1. intros H. apply (same_src_trans _ _ _ H1).
  step_inv H; match goal with H : push_dst _ _ = _ |- _ => exact (push_dst_same _ _ _ H) end.
Qed.

(** A byte that does not end a packet moves the loop on. *)
Lemma slip_loop_step s c rest s' :
  pending s (c :: rest) -> slip_byte s c = Some (false, s') ->
  pending (advance s') rest /\
  slip_loop (length (c :: rest)) s = slip_loop (length rest) (advance s').
Proof.
  intros HP Hb. destruct (pending_cons _ _ _ HP) as (Hlt & Hg & Hadv).
  split; [eauto using slip_byte_same|]. cbn [slip_loop length].
  zdecide. rewrite Hg. cbn [mbind option_bind]. by rewrite Hb.
Qed.

(** A decoder inside a packet, with the bytes received so far. *)
Record receiving (s : slip_decode_state) (d : list Z) : Prop := {
  rx_state : state s = DC_VALID;
  rx_dst : zlen (dst s) = OVERLAY_INTERFACE_RX_BUFFER_SIZE;
  rx_offset : dst_offset s = zlen d;
  rx_data : take (length d) (dst s) = d
}.

Lemma push_dst_receiving s d x :
  receiving s d -> zlen d < OVERLAY_INTERFACE_RX_BUFFER_SIZE ->
  exists s', push_dst s x = Some s' /\ receiving s' (d ++ [x]).
Proof.
  intros [H1 H2 H3 H4] Hlt. unfold push_dst. rewrite zset_Some by lia.
  eexists. split; [reflexivity|]. split; simpl; auto.
  - by rewrite length_insert.
  - rewrite length_app. simpl. lia.
  - rewrite H3, Nat2Z.id, length_app. simpl. rewrite Nat.add_1_r.
    rewrite (take_S_r _ _ x).
    + rewrite take_insert_ge by lia. by rewrite H4.
    + apply list_lookup_insert_eq. lia.
Qed.

Lemma receiving_advance s d : receiving s d -> receiving (advance s) d.
Proof. intros []. by split. Qed.

(** The escape sequences are those the decoder undoes. *)
Lemma slip_escape_cases x :
  (slip_escape x = [x] /\ x <> SLIP_ESC /\ x <> SLIP_END) \/
  exists e, slip_escape x = [SLIP_ESC; e] /\ slip_unescape e = Some x.
Proof.
  unfold slip_escape.
  repeat match goal with |- context [?a =? ?b] => destruct (Z.eqb_spec a b) end;
    subst; try (right; eexists; split; reflexivity). by left.
Qed.

Lemma slip_decode_char s d x rest :
  receiving s d -> zlen d < OVERLAY_INTERFACE_RX_BUFFER_SIZE ->
  pending s (slip_escape x ++ rest) ->
  exists s', slip_loop (length (slip_escape x ++ rest)) s = slip_loop (length rest) s' /\
    receiving s' (d ++ [x]) /\ pending s' rest /\ encapsulator s' = encapsulator s.
Proof.
  intros HR Hlt HP. pose proof HR as [H1 H2 H3 H4].
  destruct (push_dst_receiving s d x HR Hlt) as (s1 & E1 & R1).
  destruct (slip_escape_cases x) as [(E & N1 & N2)|(e & E & Hu)]; rewrite E in *; cbn [app] in *.
  - assert (Hb : slip_byte s x = Some (false, s1)).
    { unfold slip_byte. rewrite H3. zdecide. rewrite H1.
      cbn -[push_dst]. by rewrite E1. }
    destruct (slip_loop_step _ _ _ _ HP Hb) as [HP' HL]. exists (advance s1).
    split_and!; auto using receiving_advance. by apply slip_byte_same in Hb as (?&?&?&?).
  - set (s2 := set_state s (Z.lor DC_VALID DC_ESC)).
    assert (Hb : slip_byte s SLIP_ESC = Some (false, s2)).
    { unfold slip_byte. rewrite H3. zdecide. by rewrite H1. }
    destruct (slip_loop_step _ _ _ _ HP Hb) as [HP1 HL1].
    assert (R2 : receiving (set_state (advance s2) DC_VALID) d) by by split.
    destruct (push_dst_receiving _ d x R2 Hlt) as (s3 & E3 & R3).
    assert (Hb2 : slip_byte (advance s2) e = Some (false, s3)).
    { unfold slip_byte. change (dst_offset (advance s2)) with (dst_offset s). rewrite H3. zdecide.
      change (negb (Z.land (state (advance s2)) DC_ESC =? 0)) with true. cbv iota. rewrite Hu.
      change (Z.land (state (advance s2)) (Z.lnot DC_ESC)) with DC_VALID. by rewrite E3. }
    destruct (slip_loop_step _ _ _ _ HP1 Hb2) as [HP2 HL2]. exists (advance s3).
    rewrite HL1, HL2. split_and!; auto using receiving_advance.
    by apply slip_byte_same in Hb2 as (?&?&?&?).
Qed.

Lemma slip_decode_chars d2 : forall s d1 rest,
  receiving s d1 -> zlen d1 + zlen d2 <= OVERLAY_INTERFACE_RX_BUFFER_SIZE ->
  pending s (escaped d2 ++ rest) ->
  exists s', slip_loop (length (escaped d2 ++ rest)) s = slip_loop (length rest) s' /\
    receiving s' (d1 ++ d2) /\ pending s' rest /\ encapsulator s' = encapsulator s.
Proof.
  induction d2 as [|x d2 IH]; intros s d1 rest HR Hlen HP.
  { exists s. rewrite app_nil_r. by split_and!. }
  unfold escaped in *. rewrite fmap_cons in *. cbn [concat length] in *.
  rewrite <- app_assoc in *.
  destruct (slip_decode_char s d1 x _ HR ltac:(lia) HP) as (s1 & E1 & R1 & P1 & N1).
  destruct (IH s1 (d1 ++ [x]) rest R1) as (s2 & E2 & R2 & P2 & N2);
    [rewrite length_app; simpl; lia|done|].
  exists s2. rewrite E1, E2, <- app_assoc in *. split_and!; auto. congruence.
Qed.

(** A decoder waiting for the start of a SLIP frame. *)
Record slip_idle (s : slip_decode_state) : Prop := {
  idle_format : encapsulator s = SLIP_FORMAT_SLIP;
  idle_dst : zlen (dst s) = OVERLAY_INTERFACE_RX_BUFFER_SIZE;
  idle_offset : dst_offset s = 0;
  idle_state : Z.land (state s) DC_ESC = 0
}.

(** The END byte in front of a frame starts a packet. *)
Lemma slip_loop_start s rest :
  slip_idle s -> pending s (SLIP_END :: rest) ->
  exists s', slip_loop (src_left s) s = slip_loop (length rest) s' /\
    receiving s' [] /\ pending s' rest.
Proof.
  intros [H1 H2 H3 H4] HP.
  assert (Hb : slip_byte s SLIP_END = Some (false, set_state s DC_VALID)).
  { unfold slip_byte. rewrite H3. cbn [Z.ltb Z.leb Z.compare orb OVERLAY_INTERFACE_RX_BUFFER_SIZE].
    rewrite H4, H3. done. }
  destruct (slip_loop_step _ _ _ _ HP Hb) as [HP' HL].
  exists (advance (set_state s DC_VALID)). rewrite (pending_left _ _ HP), HL.
  split; [done|]. split; [|done]. by split.
Qed.

(** The END byte behind a whole frame ends it: the checksum is that of the data. *)
Lemma slip_byte_finish s p :
  p <> [] -> receiving s (p ++ write_uint32 (crc32 p)) ->
  exists s', slip_byte s SLIP_END = Some (true, s') /\ packet_length s' = zlen p /\
    zslice (dst s') 0 (zlen p) = Some p.
Proof.
  intros Hp [H1 H2 H3 H4].
  assert (Hw : length (write_uint32 (crc32 p)) = 4%nat) by apply write_uint_length.
  rewrite length_app, Hw in *.
  assert (0 < zlen p) by (destruct p; simpl; [done|lia]).
  assert (Hd : dst s = p ++ write_uint32 (crc32 p) ++ drop (length p + 4) (dst s)).
  { rewrite <- (take_drop (length p + 4) (dst s)) at 1. by rewrite H4, <- app_assoc. }
  set (b := drop _ _) in Hd. clearbody b.
  assert (exists st, slip_byte s SLIP_END
    = Some (true, set_packet_length (set_state s st) (dst_offset s - 4))) as [st E].
  { unfold slip_byte. set (s1 := if (_ : bool) then _ else s).
    assert (exists st, s1 = set_state s st /\ Z.land st DC_ESC = 0) as (st & -> & Hst).
    { subst s1. case_match; [|exists (state s); split; [by destruct s|by rewrite H1]].
      eexists. split; [reflexivity|]. by rewrite H1. }
    exists st. cbn [state set_state]. rewrite Hst. cbn [Z.eqb negb SLIP_END SLIP_ESC Pos.eqb].
    cbn [dst_offset set_state dst]. zdecide.
    replace (dst_offset s - 4) with (zlen p) by lia. rewrite Hd.
    rewrite Crc32_ComputeBuf_crc32. rewrite zslice_Some by (rewrite ?length_app, ?Hw; lia).
    rewrite Nat2Z.id, drop_app_length. cbn [mbind option_bind].
    rewrite take_app_length' by (rewrite Hw; reflexivity).
    rewrite <- (app_nil_r (write_uint32 _)), read_write_uint32 by apply crc32_range.
    cbn [mbind option_bind]. by rewrite Z.eqb_refl. }
  eexists. split; [exact E|]. split; cbn; [lia|]. rewrite Hd. apply zslice_prefix.
Qed.

Lemma slip_decode_frame gettime_ms debug p s r rest :
  p <> [] -> zlen p + 4 <= OVERLAY_INTERFACE_RX_BUFFER_SIZE ->
  slip_idle s -> pending s (slip_frame p ++ rest) ->
  exists s', slip_decode gettime_ms debug s r = Some (1, s', r) /\
    packet_length s' = zlen p /\ zslice (dst s') 0 (zlen p) = Some p.
Proof.
  intros Hp Hlen Hi HP. pose proof (idle_format _ Hi) as Hf.
  unfold slip_decode. rewrite Hf. cbn [Z.eqb SLIP_FORMAT_SLIP].
  unfold slip_frame in HP. cbn [app] in HP. rewrite <- app_assoc in HP.
  destruct (slip_loop_start _ _ Hi HP) as (s1 & -> & R1 & P1).
  destruct (fun H => slip_decode_chars _ s1 [] _ R1 H P1) as (s2 & -> & R2 & P2 & _).
  { rewrite length_app. unfold write_uint32. rewrite write_uint_length. simpl. lia. }
  cbn [app] in *. destruct (slip_byte_finish s2 p Hp R2) as (s3 & E3 & HL & HS).
  destruct (pending_cons _ _ _ P2) as (Hlt & Hg & _).
  cbn [slip_loop length]. zdecide. rewrite Hg. cbn [mbind option_bind]. rewrite E3.
  cbn [mbind option_bind]. by exists s3.
Qed.

(** Decoding what the SLIP encoder produced, with any bytes in front of the
    buffer's unused space, returns 1 and the packet, for every packet of 1 to
    2044 bytes. *)
Theorem slip_roundtrip gettime_ms debug p spare d dst_len k src' d' s r rest :
  p <> [] -> zlen p + 4 <= OVERLAY_INTERFACE_RX_BUFFER_SIZE ->
  4 <= zlen spare -> dst_len <= zlen d ->
  slip_encode SLIP_FORMAT_SLIP (p ++ spare) (zlen p) d dst_len = Some (Returned k, src', d') ->
  0 < k -> slip_idle s ->
  let wire := take (Z.to_nat k) d' ++ rest in
  exists s', slip_decode gettime_ms debug (set_src s wire (zlen wire)) r = Some (1, s', r) /\
    packet_length s' = zlen p /\ zslice (dst s') 0 (zlen p) = Some p.
Proof.
  intros Hp Hlen Hs Hd E Hk Hi wire.
  destruct (slip_encode_spec p spare d dst_len Hs Hd) as (o & s1 & d1 & E1 & (_ & _ & HE) & _).
  rewrite E in E1. injection E1 as <- <- <-.
  destruct HE as [[=->]|(HE & _ & HT)]; [done|].
  assert (k = zlen (slip_frame p)) as -> by congruence.
  apply (slip_decode_frame _ _ _ _ _ rest); auto.
  - by destruct Hi.
  - replace (slip_frame p ++ rest) with wire by (subst wire; by rewrite Nat2Z.id, HT).
    apply pending_set_src.
Qed.

(** A decoder of the given format, as bzero leaves it. *)
Definition fresh_decoder (format : Z) : slip_decode_state :=
  mk_sds format 0 [] 0 (replicate 256 0) 0 0 (replicate 2048 0) 0 0 0.

Definition radio0 : radio := mk_radio 0 (-999) (-999) 0.

Lemma slip_roundtrip_witness : exists s',
  slip_decode (fun _ => 0) (mk_debug false false)
    (set_src (fresh_decoder SLIP_FORMAT_SLIP)
       [192; 219; 220; 1; 219; 125; 174; 2; 68; 9; 192] 11) radio0
  = Some (1, s', radio0) /\ packet_length s' = 3 /\ zslice (dst s') 0 3 = Some [192; 1; 13].
Proof.
  apply (slip_roundtrip (fun _ => 0) (mk_debug false false) [192; 1; 13] (replicate 4 0)
    (replicate 16 0) 16 11 [192; 1; 13; 174; 2; 68; 9]
    [192; 219; 220; 1; 219; 125; 174; 2; 68; 9; 192; 0; 0; 0; 0; 0]
    (fresh_decoder SLIP_FORMAT_SLIP) radio0 []);
    [done|vm_compute; discriminate..|vm_compute; reflexivity|done|].
  split; reflexivity.
Defined.

(** The SLIP decoder writes past [dst] when a frame is too long and its next
    byte is escaped: the valid flag it clears at the end of the buffer is not
    tested for escaped bytes.  Any 2048 data bytes followed by an escape sequence do. *)
Theorem slip_decode_overflow gettime_ms debug d e x s r rest :
  zlen d = OVERLAY_INTERFACE_RX_BUFFER_SIZE -> slip_idle s -> slip_unescape e = Some x ->
  let wire := SLIP_END :: escaped d ++ SLIP_ESC :: e :: rest in
  slip_decode gettime_ms debug (set_src s wire (zlen wire)) r = None.
Proof.
  intros Hd Hi He wire. unfold slip_decode. pose proof (idle_format _ Hi) as Hf.
  change (encapsulator (set_src s wire (zlen wire))) with (encapsulator s). rewrite Hf.
  cbn [Z.eqb SLIP_FORMAT_SLIP].
  destruct (slip_loop_start (set_src s wire (zlen wire)) (escaped d ++ SLIP_ESC :: e :: rest))
    as (s1 & -> & R1 & P1); [by destruct Hi|apply pending_set_src|].
  destruct (fun H => slip_decode_chars _ s1 [] _ R1 H P1) as (s2 & -> & [H1 H2 H3 H4] & P2 & _);
    [simpl; lia|]. cbn [app] in *.
  assert (Hb : slip_byte s2 SLIP_ESC = Some (false, set_state s2 DC_ESC)).
  { unfold slip_byte. rewrite H3, Hd. cbn [OVERLAY_INTERFACE_RX_BUFFER_SIZE Z.ltb Z.leb Z.compare orb
      Pos.compare Pos.compare_cont]. rewrite H1. done. }
  destruct (slip_loop_step _ _ _ _ P2 Hb) as [P3 ->].
  destruct (pending_cons _ _ _ P3) as (Hlt & Hg & _).
  cbn [slip_loop length]. zdecide. rewrite Hg. cbn [mbind option_bind].
  unfold slip_byte. change (dst_offset (advance (set_state s2 DC_ESC))) with (dst_offset s2).
  rewrite H3, Hd. cbn [OVERLAY_INTERFACE_RX_BUFFER_SIZE Z.ltb Z.leb Z.compare orb
      Pos.compare Pos.compare_cont].
  set (s3 := set_state _ _). change (negb (Z.land (state s3) DC_ESC =? 0)) with true. cbv iota.
  rewrite He. unfold push_dst. set (s4 := set_state s3 _).
  assert (zset (dst s4) (dst_offset s4) x = None) as ->; [|done].
  change (dst s4) with (dst s2). change (dst_offset s4) with (dst_offset s2).
  unfold zset. rewrite H3, Hd, H2. done.
Qed.

Lemma slip_decode_overflow_witness :
  let wire := SLIP_END :: escaped (replicate 2048 65) ++ SLIP_ESC :: SLIP_ESC_END :: [] in
  slip_decode (fun _ => 0) (mk_debug false false)
    (set_src (fresh_decoder SLIP_FORMAT_SLIP) wire (zlen wire)) radio0 = None.
Proof.
  apply (slip_decode_overflow _ _ (replicate 2048 65) SLIP_ESC_END SLIP_END);
    [by rewrite length_replicate|by split|done].
Defined.

(** * UPPER7 *)

Definition pad7 (v : list Z) : list Z := v ++ replicate (7 - length v) 0.

Fixpoint upper7_body (n : nat) (p : list Z) : list Z :=
  match n, p with
  | S n, _ :: _ => upper7_block (pad7 (take 7 p)) ++ upper7_body n (drop 7 p)
  | _, _ => []
  end.

(** What goes on the wire for a packet. *)
Definition upper7_frame (p : list Z) : list Z :=
  upper7_header (zlen p) (crc32 p) ++ upper7_body (length p) p ++ [125].

Lemma upper7_body_length n p : (length p <= n)%nat ->
  zlen (upper7_body n p) = 8 * ((zlen p + 6) / 7).
Proof.
  revert p. induction n as [|n IH]; intros [|x p] Hn; try done; [simpl in Hn; lia|].
  cbn [upper7_body]. rewrite length_app, Nat2Z.inj_add, IH by (rewrite length_drop; simpl in *; lia).
  rewrite length_drop. change (zlen (upper7_block _)) with 8.
  set (l := length (x :: p)) in *. assert (1 <= l)%nat by (subst l; simpl; lia).
  clearbody l. Z.to_euclidean_division_equations. lia.
Qed.

Lemma upper7_frame_length p : zlen (upper7_frame p) = 9 + 8 * ((zlen p + 6) / 7).
Proof.
  unfold upper7_frame. rewrite !length_app, !Nat2Z.inj_add, upper7_body_length by done.
  cbn [length upper7_header]. lia.
Qed.

Lemma upper7_body_fuel n : forall m p, (length p <= n)%nat -> (length p <= m)%nat ->
  upper7_body n p = upper7_body m p.
Proof.
  induction n as [|n IH]; intros [|m] [|x p] Hn Hm; try done; try (simpl in *; lia).
  cbn [upper7_body]. f_equal. cbn [length] in *. apply IH; rewrite length_drop; simpl; lia.
Qed.

Lemma upper7_body_cons p : p <> [] ->
  upper7_body (length p) p
  = upper7_block (pad7 (take 7 p)) ++ upper7_body (length (drop 7 p)) (drop 7 p).
Proof.
  destruct p as [|x p]; [done|]. intros _. cbn [upper7_body length]. f_equal.
  apply upper7_body_fuel; [|done]. rewrite length_drop. simpl. lia.
Qed.

Lemma upper7_encode_loop_spec dl n : forall p pre post dst off,
  (length p < n)%nat -> 0 <= off -> dl <= zlen dst ->
  exists full dst' off',
    upper7_encode_loop n (pre ++ p ++ post) (zlen pre + zlen p) (zlen pre) dst off dl
    = Some (full, dst', off') /\ length dst' = length dst /\
    drop (Z.to_nat dl) dst' = drop (Z.to_nat dl) dst /\
    (full = true -> dl < off + zlen (upper7_body (length p) p)) /\
    (full = false -> off' = off + zlen (upper7_body (length p) p) /\ (p <> [] -> off' <= dl) /\
       take (Z.to_nat off') dst' = take (Z.to_nat off) dst ++ upper7_body (length p) p).
Proof.
  induction n as [|n IH]; intros p pre post dst off Hn Ho Hd; [lia|].
  cbn [upper7_encode_loop]. destruct (decide (p = [])) as [->|Hp].
  { exists false, dst, off. cbn [length upper7_body]. rewrite Z.add_0_r, Z.leb_refl.
    rewrite app_nil_r, Z.add_0_r. split_and!; auto; done. }
  assert (Hq : 1 <= zlen p) by (destruct p; [done|simpl; lia]). zdecide.
  rewrite zslice_Some by (rewrite ?length_app; lia).
  rewrite Nat2Z.id, drop_app_length. cbn [mbind option_bind].
  replace (take _ (p ++ post)) with (take 7 p)
    by (rewrite take_app_le by lia; destruct (decide (zlen p < 7));
        [rewrite !take_ge by lia; done|f_equal; lia]).
  fold (pad7 (take 7 p)). rewrite (upper7_body_cons p Hp), length_app.
  change (length (upper7_block (pad7 (take 7 p)))) with 8%nat.
  destruct (Z.ltb_spec dl (off + 8)).
  { exists true, dst, off. split_and!; auto; [lia|done]. }
  destruct (emit_spec dst off (upper7_block (pad7 (take 7 p)))) as (d1 & E1 & HL1 & HT1 & HD1);
    [lia|change (zlen (upper7_block _)) with 8; lia|].
  change (zlen (upper7_block (pad7 (take 7 p)))) with 8 in *. rewrite E1. cbn [mbind option_bind].
  change (length (upper7_block (pad7 (take 7 p)))) with 8%nat in HD1.
  destruct (decide (zlen p <= 7)) as [Hle|Hgt].
  - destruct n as [|n]; [lia|]. cbn [upper7_encode_loop]. zdecide.
    rewrite (drop_ge p 7) by lia. cbn [upper7_body length]. rewrite app_nil_r.
    exists false, d1, (off + 8). split_and!; auto; try done. apply HD1. lia.
  - replace (pre ++ p ++ post) with ((pre ++ take 7 p) ++ drop 7 p ++ post)
      by by rewrite <- (app_assoc pre), (app_assoc (take 7 p)), take_drop.
    replace (zlen pre + zlen p) with (zlen (pre ++ take 7 p) + zlen (drop 7 p))
      by (rewrite length_app, length_take, length_drop; lia).
    replace (zlen pre + 7) with (zlen (pre ++ take 7 p))
      by (rewrite length_app, length_take; lia).
    destruct (IH (drop 7 p) (pre ++ take 7 p) post d1 (off + 8))
      as (full & d2 & off2 & E2 & HL2 & HD2 & HF & HT2);
      [rewrite length_drop; lia|lia|lia|].
    exists full, d2, off2. rewrite E2. split_and!; auto.
    + lia.
    + rewrite HD2. apply HD1. lia.
    + intros Hf. specialize (HF Hf). lia.
    + intros Hf. destruct (HT2 Hf) as (-> & Hdl & HT). split; [lia|]. split.
      * intros _. apply Hdl. intros E. apply (f_equal length) in E.
        rewrite length_drop in E. simpl in E. lia.
      * by rewrite HT, HT1, app_assoc.
Qed.

(** The encoder up to the end marker: refused, or the frame but its last byte. *)
Lemma upper7_encode_prefix p post dst dst_len :
  1 <= zlen p <= 0x3fff -> dst_len <= zlen dst ->
  (exists dst', slip_encode SLIP_FORMAT_UPPER7 (p ++ post) (zlen p) dst dst_len
     = Some (Returned (-1), p ++ post, dst') /\ length dst' = length dst /\
     drop (Z.to_nat dst_len) dst' = drop (Z.to_nat dst_len) dst /\
     zlen (upper7_frame p) <> dst_len + 1 /\ dst_len <= zlen (upper7_frame p)) \/
  (dst_len < 9 + zlen p + zlen p / 7 + 1 /\
   slip_encode SLIP_FORMAT_UPPER7 (p ++ post) (zlen p) dst dst_len
     = Some (Returned (-1), p ++ post, dst)) \/
  (9 + zlen p + zlen p / 7 + 1 <= dst_len /\ zlen (upper7_frame p) <= dst_len + 1 /\
   exists d, length d = length dst /\
     drop (Z.to_nat dst_len) d = drop (Z.to_nat dst_len) dst /\
     take (length (upper7_frame p) - 1) d ++ [125] = upper7_frame p /\
     slip_encode SLIP_FORMAT_UPPER7 (p ++ post) (zlen p) dst dst_len
     = ('(dst, out_len) ← emit d (zlen (upper7_frame p) - 1) [125];
        Some (if dst_len <? out_len then Fatal else Returned out_len, p ++ post, dst))).
Proof.
  intros Hp Hd. unfold slip_encode.
  cbn [Z.eqb SLIP_FORMAT_SLIP SLIP_FORMAT_UPPER7 Pos.eqb]. zdecide.
  pose proof (upper7_frame_length p) as HF. pose proof (upper7_body_length _ p (le_n _)) as HB.
  destruct (Z.ltb_spec dst_len (9 + zlen p + zlen p / 7 + 1)) as [Hl|Hl]; [by auto|].
  rewrite Crc32_ComputeBuf_crc32. cbn [mbind option_bind].
  destruct (emit_spec dst 0 (upper7_header (zlen p) (crc32 p))) as (d1 & E1 & HL1 & HT1 & HD1);
    [lia|change (zlen (upper7_header _ _)) with 8; Z.to_euclidean_division_equations; lia|].
  rewrite E1. change (0 + zlen (upper7_header (zlen p) (crc32 p))) with 8 in *.
  cbn [mbind option_bind].
  destruct (upper7_encode_loop_spec dst_len (S (Z.to_nat (zlen p))) p [] post d1 8)
    as (full & d2 & off & E2 & HL2 & HD2 & Hfull & Hok); [lia..|].
  cbn [app length] in E2. change (Z.of_nat 0 + zlen p) with (zlen p) in E2.
  change (Z.of_nat 0) with 0 in E2. rewrite E2. cbn [mbind option_bind].
  assert (HD : drop (Z.to_nat dst_len) d2 = drop (Z.to_nat dst_len) dst).
  { rewrite HD2. apply HD1. change (length (upper7_header _ _)) with 8%nat.
    Z.to_euclidean_division_equations. lia. }
  destruct full.
  - left. exists d2. specialize (Hfull eq_refl). split_and!; [done|lia|done|lia|lia].
  - right. right. destruct (Hok eq_refl) as (-> & Hle & HT).
    assert (p <> []) as Hne by (destruct p; [simpl in Hp; lia|done]). specialize (Hle Hne).
    split; [lia|]. split; [lia|]. exists d2. split_and!; [lia|done| |].
    + replace (length (upper7_frame p) - 1)%nat
        with (Z.to_nat (8 + zlen (upper7_body (length p) p))) by lia.
      rewrite HT, HT1. cbn [Z.to_nat take app]. unfold upper7_frame. by rewrite <- app_assoc.
    + by replace (zlen (upper7_frame p) - 1) with (8 + zlen (upper7_body (length p) p)) by lia.
Qed.

(** The UPPER7 encoder, for packets of 1 to 16383 bytes: unless the destination
    is one byte too short for the frame, it returns -1 or the frame's length with the
    frame in the destination, leaves the space from [dst_len] on alone, never reaches
    its fatal check, and succeeds whenever one byte is to spare. *)
Theorem upper7_encode_correct p post dst dst_len :
  1 <= zlen p <= 0x3fff -> dst_len <= zlen dst -> zlen (upper7_frame p) <> dst_len + 1 ->
  exists out src' dst',
    slip_encode SLIP_FORMAT_UPPER7 (p ++ post) (zlen p) dst dst_len = Some (out, src', dst') /\
    encoded_or_refused (upper7_frame p) dst dst' dst_len out /\
    (zlen (upper7_frame p) < dst_len -> out <> Returned (-1)).
Proof.
  intros Hp Hd Hne. unfold encoded_or_refused.
  destruct (upper7_encode_prefix p post dst dst_len Hp Hd)
    as [(d & E & HL & HD & ? & ?)|[(? & E)|(? & ? & d & HL & HD & HT & E)]].
  - do 3 eexists. split; [exact E|]. split; [auto|]. lia.
  - do 3 eexists. split; [exact E|]. split; [auto|].
    rewrite upper7_frame_length. Z.to_euclidean_division_equations. lia.
  - pose proof (upper7_frame_length p).
    assert (0 < zlen (upper7_frame p)) by (Z.to_euclidean_division_equations; lia).
    destruct (emit_spec d (zlen (upper7_frame p) - 1) [125]) as (d2 & E2 & HL2 & HT2 & HD2);
      [lia|change (zlen [125]) with 1; lia|].
    rewrite E, E2. change (zlen [125]) with 1 in *. cbn [mbind option_bind]. zdecide.
    do 3 eexists. split; [reflexivity|].
    replace (zlen (upper7_frame p) - 1 + 1) with (zlen (upper7_frame p)) in * by lia.
    split; [|intros _ [=]; lia]. split; [lia|]. split.
    + rewrite HD2; [done|]. cbn [length]. lia.
    + right. split; [done|]. split; [lia|]. rewrite Nat2Z.id in HT2. rewrite HT2.
      rewrite <- HT at 2. f_equal. f_equal. lia.
Qed.

Lemma upper7_encode_correct_witness :
  exists out src' dst',
    slip_encode SLIP_FORMAT_UPPER7 ([1; 2; 3] ++ []) 3 (replicate 32 0) 32
    = Some (out, src', dst') /\
    encoded_or_refused (upper7_frame [1; 2; 3]) (replicate 32 0) dst' 32 out /\
    (zlen (upper7_frame [1; 2; 3]) < 32 -> out <> Returned (-1)).
Proof.
  apply (upper7_encode_correct [1; 2; 3] [] (replicate 32 0) 32);
    [simpl; lia|simpl; lia|vm_compute; discriminate].
Defined.

(** The UPPER7 encoder writes its end marker one byte past a destination that is
    one byte too short, for every packet whose length is not a multiple of seven: the
    guards let it through and the fatal check comes after the write.  For the
    interface's 2048-byte [txbuffer] these are the packets of 1779 to 1784 bytes. *)
Theorem upper7_encode_overflow p post dst :
  1 <= zlen p <= 0x3fff -> zlen p mod 7 <> 0 -> zlen (upper7_frame p) = zlen dst + 1 ->
  slip_encode SLIP_FORMAT_UPPER7 (p ++ post) (zlen p) dst (zlen dst) = None.
Proof.
  intros Hp Hm Hf. pose proof (upper7_frame_length p) as HF.
  destruct (upper7_encode_prefix p post dst (zlen dst) Hp ltac:(lia))
    as [(d & E & HL & HD & ? & ?)|[(? & E)|(? & ? & d & HL & HD & HT & ->)]].
  - lia.
  - exfalso. Z.to_euclidean_division_equations. lia.
  - unfold emit. assert (zblit d (zlen (upper7_frame p) - 1) [125] = None) as ->; [|done].
    unfold zblit. cbn [length]. by zdecide.
Qed.

Lemma upper7_encode_overflow_witness :
  slip_encode SLIP_FORMAT_UPPER7 (replicate 1779 0 ++ []) (zlen (replicate 1779 0))
    (replicate 2048 0) (zlen (replicate 2048 0)) = None.
Proof.
  apply upper7_encode_overflow; rewrite ?upper7_frame_length, ?length_replicate;
    [lia|vm_compute; discriminate|vm_compute; reflexivity].
Defined.

(** ** Decoding *)

#[local] Opaque parse_rfd900_rssi.

(** A change of the fields a data byte neither reads nor writes: it keeps the others
    and commutes with their updates. *)
Record unseen (F : slip_decode_state -> slip_decode_state) : Prop := {
  unseen_state s : state (F s) = state s;
  unseen_length s : packet_length (F s) = packet_length s;
  unseen_dst s : dst (F s) = dst s;
  unseen_crc s : crc (F s) = crc s;
  unseen_offset s : dst_offset (F s) = dst_offset s;
  unseen_set_state s x : F (set_state s x) = set_state (F s) x;
  unseen_set_length s x : F (set_packet_length s x) = set_packet_length (F s) x;
  unseen_set_dst s x : F (set_dst s x) = set_dst (F s) x;
  unseen_set_crc s x : F (set_crc s x) = set_crc (F s) x;
  unseen_set_offset s x : F (set_dst_offset s x) = set_dst_offset (F s) x
}.

(** The source side; the format is fixed with it. *)
Record source := mk_source { x_src : list Z; x_size : Z; x_offset : Z }.
Definition with_src (x : source) (s : slip_decode_state) : slip_decode_state :=
  mk_sds SLIP_FORMAT_UPPER7 (state s) (x_src x) (x_size x) (rssi_text s) (rssi_len s)
    (packet_length s) (dst s) (crc s) (x_offset x) (dst_offset s).

Definition with_rssi (t : list Z) (n : Z) (s : slip_decode_state) : slip_decode_state :=
  set_rssi s t n.

Lemma unseen_src x : unseen (with_src x).
Proof. by split. Qed.
Lemma unseen_rssi t n : unseen (with_rssi t n).
Proof. by split. Qed.

Section unseen.
Context (F : slip_decode_state -> slip_decode_state) (HF : unseen F).

Lemma or_dst_unseen s i x : or_dst (F s) i x = F <$> or_dst s i x.
Proof.
  unfold or_dst. rewrite (unseen_dst F HF), (unseen_offset F HF).
  destruct (zget _ _); [|done]. cbn [mbind option_bind].
  destruct (zset _ _ _); [|done]. cbn. by rewrite (unseen_set_dst F HF).
Qed.

Lemma put_dst_unseen s i x : put_dst (F s) i x = F <$> put_dst s i x.
Proof.
  unfold put_dst. rewrite (unseen_dst F HF), (unseen_offset F HF).
  destruct (zset _ _ _); [|done]. cbn. by rewrite (unseen_set_dst F HF).
Qed.

Lemma next_state_unseen s : next_state (F s) = F (next_state s).
Proof. unfold next_state. by rewrite (unseen_set_state F HF), (unseen_state F HF). Qed.

Lemma upper7_split_unseen s i byte sh mask lsh :
  upper7_split (F s) i byte sh mask lsh = F <$> upper7_split s i byte sh mask lsh.
Proof.
  unfold upper7_split. rewrite or_dst_unseen. destruct (or_dst s _ _) as [s1|]; [|done].
  cbn [fmap option_fmap option_map mbind option_bind].
  rewrite put_dst_unseen. destruct (put_dst s1 _ _); [|done].
  cbn. by rewrite next_state_unseen.
Qed.

Lemma out_of_range_unseen s : upper7_out_of_range (F s) = upper7_out_of_range s.
Proof. unfold upper7_out_of_range. by rewrite (unseen_length F HF), (unseen_offset F HF). Qed.

Lemma reset_unseen s : upper7_reset (F s) = F (upper7_reset s).
Proof.
  unfold upper7_reset.
  by rewrite (unseen_set_length F HF), (unseen_set_offset F HF), (unseen_set_state F HF).
Qed.

Lemma upper7_data_unseen s byte : upper7_data (F s) byte = F <$> upper7_data s byte.
Proof.
  unfold upper7_data.
  rewrite !upper7_split_unseen, out_of_range_unseen, (unseen_state F HF), reset_unseen,
    put_dst_unseen, or_dst_unseen, (unseen_length F HF), (unseen_crc F HF).
  rewrite <- !(unseen_set_length F HF), <- !(unseen_set_crc F HF), !next_state_unseen.
  rewrite (unseen_length F HF), <- (unseen_set_offset F HF), <- !(unseen_set_state F HF).
  repeat case_match; try done; destruct (put_dst s _ _) || destruct (or_dst s _ _); try done;
    cbn; f_equal.
  - by rewrite next_state_unseen.
  - by rewrite (unseen_offset F HF), <- (unseen_set_offset F HF), <- (unseen_set_state F HF).
Qed.

Lemma upper7_field_unseen s byte : upper7_field (F s) byte = F <$> upper7_field s byte.
Proof.
  unfold upper7_field. rewrite out_of_range_unseen, reset_unseen, upper7_data_unseen.
  by case_match.
Qed.
End unseen.

(** A byte that carries packet data. *)
Definition is_data (c : Z) : Prop := 0x80 <= c < 256.

Lemma upper7_decode_data gettime_ms debug s r c :
  is_data c ->
  upper7_decode gettime_ms debug s r c = s ← upper7_field s c; Some (0, s, r).
Proof. unfold is_data. intros. unfold upper7_decode. zdecide. cbn [mbind option_bind]. by zdecide. Qed.

(** The receive step on one byte: the packet it completes, if any. *)
Definition rx_byte gettime_ms debug (s : slip_decode_state) (r : radio) (c : Z)
    : option (list (list Z) * slip_decode_state * radio) :=
  '(ret, s, r) ← upper7_decode gettime_ms debug s r c;
  if ret =? 1 then
    c32 ← Crc32_ComputeBuf 0 (dst s) (packet_length s);
    if negb (c32 =? crc s) then Some ([], s, r)
    else p ← zslice (dst s) 0 (packet_length s); Some ([p], set_dst_offset s 0, r)
  else Some ([], s, r).

Fixpoint rx_bytes gettime_ms debug (s : slip_decode_state) (r : radio) (bs : list Z)
    : option (list (list Z) * slip_decode_state * radio) :=
  match bs with
  | [] => Some ([], s, r)
  | c :: bs =>
      '(ps, s, r) ← rx_byte gettime_ms debug s r c;
      '(qs, s, r) ← rx_bytes gettime_ms debug s r bs;
      Some (ps ++ qs, s, r)
  end.

Section upper7.
Context (gettime_ms : nat -> Z) (debug : debug_flags).
Abbreviation rx1 := (rx_byte gettime_ms debug).
Abbreviation rxs := (rx_bytes gettime_ms debug).

Lemma rx_bytes_app bs1 : forall s r bs2,
  rxs s r (bs1 ++ bs2) =
  '(ps, s, r) ← rxs s r bs1; '(qs, s, r) ← rxs s r bs2; Some (ps ++ qs, s, r).
Proof.
  induction bs1 as [|c bs1 IH]; intros s r bs2; cbn [app rx_bytes mbind option_bind].
  - by destruct (rxs s r bs2) as [[[??]?]|].
  - destruct (rx1 s r c) as [[[ps s1] r1]|]; [|done]. cbn [mbind option_bind]. rewrite IH.
    destruct (rxs s1 r1 bs1) as [[[qs s2] r2]|]; [|done]. cbn [mbind option_bind].
    destruct (rxs s2 r2 bs2) as [[[qs' s3] r3]|]; [|done]. cbn [mbind option_bind].
    by rewrite app_assoc.
Qed.

(** Frame bytes: markers and data.  They leave source and RSSI text alone. *)
Definition is_frame_byte (c : Z) : Prop := c = 123 \/ c = 125 \/ is_data c.

(** Everything behind the switch on the byte commutes with an unseen change. *)
Lemma rx_byte_unseen F s r c :
  unseen F ->
  upper7_decode gettime_ms debug (F s) r c
    = (fun '(ret, s, r) => (ret, F s, r)) <$> upper7_decode gettime_ms debug s r c ->
  rx1 (F s) r c = (fun '(ps, s, r) => (ps, F s, r)) <$> rx1 s r c.
Proof.
  intros HF E. unfold rx_byte. rewrite E.
  destruct (upper7_decode _ _ s r c) as [[[ret s1] r1]|]; [|done].
  cbn [fmap option_fmap option_map mbind option_bind].
  rewrite (unseen_dst F HF), (unseen_length F HF), (unseen_crc F HF).
  case_match; [|done]. destruct (Crc32_ComputeBuf _ _ _); [|done]. cbn [mbind option_bind].
  case_match; [done|]. destruct (zslice _ _ _); [|done]. cbn.
  by rewrite (unseen_set_offset F HF).
Qed.

Lemma upper7_decode_frame F s r c :
  unseen F -> is_frame_byte c ->
  upper7_decode gettime_ms debug (F s) r c
    = (fun '(ret, s, r) => (ret, F s, r)) <$> upper7_decode gettime_ms debug s r c.
Proof.
  intros HF [->|[->|Hc]].
  - cbn. by rewrite (unseen_set_length F HF), (unseen_set_state F HF).
  - cbn. by rewrite (unseen_set_state F HF).
  - rewrite !upper7_decode_data, (upper7_field_unseen F HF) by done.
    by destruct (upper7_field s _).
Qed.

(** For any parser of the text: it does not see the source side. *)
Lemma report_src (parse : list Z -> radio -> option radio) x s r :
  (t ← report_text (rssi_text (with_src x s)) (rssi_len (with_src x s));
   r ← parse t r; Some (set_rssi (with_src x s) t 0, r))
  = (fun '(s, r) => (with_src x s, r)) <$>
    (t ← report_text (rssi_text s) (rssi_len s); r ← parse t r; Some (set_rssi s t 0, r)).
Proof.
  change (rssi_text (with_src x s)) with (rssi_text s).
  change (rssi_len (with_src x s)) with (rssi_len s).
  destruct (report_text _ _) as [t|]; [|done]. cbn [mbind option_bind].
  by destruct (parse t r).
Qed.

Lemma upper7_report_src x s r :
  upper7_report gettime_ms debug (with_src x s) r
  = (fun '(s, r) => (with_src x s, r)) <$> upper7_report gettime_ms debug s r.
Proof. unfold upper7_report. apply report_src. Qed.

Lemma upper7_decode_src x s r c :
  upper7_decode gettime_ms debug (with_src x s) r c
    = (fun '(ret, s, r) => (ret, with_src x s, r)) <$> upper7_decode gettime_ms debug s r c.
Proof.
  unfold upper7_decode. rewrite upper7_report_src.
  destruct (c =? 123); [done|]. destruct (c =? 125); [done|].
  destruct ((32 <=? c) && (c <=? 0x7f)).
  { cbn [with_src rssi_len rssi_text].
    destruct (_ <? RSSI_TEXT_SIZE); [|done]. by destruct (zset _ _ _). }
  generalize (upper7_report gettime_ms debug s r). intros o.
  set (o' := if (c =? 13) || (c =? 10) then o else Some (s, r)).
  transitivity (
    '(s, r) ← (fun '(s, r) => (with_src x s, r)) <$> o';
    if c <? 0x80 then Some (0, s, r) else s ← upper7_field s c; Some (0, s, r)).
  { subst o'. by destruct ((c =? 13) || (c =? 10)). }
  destruct o' as [[s1 r1]|]; [|done]. cbn [fmap option_fmap option_map mbind option_bind].
  destruct (c <? 0x80); [done|]. rewrite (upper7_field_unseen _ (unseen_src x)).
  by destruct (upper7_field s1 c).
Qed.

Lemma rx_bytes_cons s r c bs s1 :
  rx1 s r c = Some ([], s1, r) -> rxs s r (c :: bs) = rxs s1 r bs.
Proof.
  intros E. cbn [rx_bytes]. rewrite E. cbn [mbind option_bind].
  by destruct (rxs s1 r bs) as [[[??]?]|].
Qed.

Lemma data_byte y : 0 <= y < 128 -> is_data (Z.lor 0x80 y) /\ Z.land (Z.lor 0x80 y) 0x7f = y.
Proof.
  intros Hy. rewrite Z.lor_comm, lor_128 by done. unfold is_data. split; [lia|].
  rewrite land_127. change (128 + y) with (1 * 128 + y). rewrite Z.add_comm, Z.mod_add by lia.
  apply Z.mod_small. lia.
Qed.

(** One data byte with the seven bits [y]. *)
Lemma rx_bytes_data s r y bs s1 :
  0 <= y < 128 -> upper7_out_of_range s = false -> upper7_data s y = Some s1 ->
  rxs s r (Z.lor 0x80 y :: bs) = rxs s1 r bs.
Proof.
  intros Hy Hr Hd. destruct (data_byte y Hy) as [H1 H2]. apply rx_bytes_cons.
  unfold rx_byte. rewrite upper7_decode_data by done. unfold upper7_field. by rewrite Hr, H2, Hd.
Qed.

Lemma land_7f_range x : 0 <= Z.land x 0x7f < 128.
Proof. rewrite land_127. apply Z.mod_pos_bound. lia. Qed.

Lemma group_bit x k i : 0 <= k -> 0 <= i ->
  Z.testbit (Z.shiftl (Z.land (Z.shiftr x k) 0x7f) k) i
  = (k <=? i) && (i <? k + 7) && Z.testbit x i.
Proof.
  intros Hk Hi. rewrite Z.shiftl_spec by lia. destruct (Z.leb_spec k i).
  - rewrite Z.land_spec, Z.shiftr_spec by lia. replace (i - k + k) with i by lia.
    change 0x7f with (Z.ones 7). cbn [andb]. destruct (Z.ltb_spec i (k + 7)).
    + rewrite Z.ones_spec_low by lia. by rewrite andb_true_r.
    + rewrite Z.ones_spec_high by lia. by rewrite andb_false_r.
  - by rewrite Z.testbit_neg_r by lia.
Qed.

(** The five groups of the checksum, the last two overlapping, put together. *)
Lemma crc_groups x : 0 <= x < 2 ^ 32 ->
  Z.lor (Z.lor (Z.lor (Z.lor
    (u32 (Z.shiftl (Z.land (Z.shiftr x 25) 0x7f) 25))
    (Z.shiftl (Z.land (Z.shiftr x (25 - 7)) 0x7f) (25 - 7)))
    (Z.shiftl (Z.land (Z.shiftr x (25 - 7 - 7)) 0x7f) (25 - 7 - 7)))
    (Z.shiftl (Z.land (Z.shiftr x (25 - 7 - 7 - 7)) 0x7f) (25 - 7 - 7 - 7)))
    (Z.shiftl (Z.land (Z.shiftr x 0) 0x7f) 0) = x.
Proof.
  intros Hx. pose proof (land_7f_range (Z.shiftr x 25)).
  rewrite u32_id by (rewrite Z.shiftl_mul_pow2 by lia; lia).
  apply Z.bits_inj'. intros i Hi. rewrite !Z.lor_spec, !group_bit by lia.
  destruct (Z.lt_ge_cases i 32).
  - destruct (Z.testbit x i); rewrite ?andb_false_r; [|done]. zcases; done || lia.
  - rewrite <- (Z.mod_small x (2 ^ 32)), Z.mod_pow2_bits_high by lia.
    by rewrite !andb_false_r.
Qed.

(** A decoder between packets that can take the next header. *)
Record u7_ready (s : slip_decode_state) : Prop := {
  ready_format : encapsulator s = SLIP_FORMAT_UPPER7;
  ready_dst : zlen (dst s) = OVERLAY_INTERFACE_RX_BUFFER_SIZE;
  ready_offset : 0 <= dst_offset s;
  ready_room : dst_offset s + 7 < OVERLAY_INTERFACE_RX_BUFFER_SIZE
}.

(** [s] with the fields a header sets. *)
Definition header_state (s : slip_decode_state) (st n c off : Z) : slip_decode_state :=
  set_dst_offset (set_state (set_crc (set_packet_length s n) c) st) off.

Definition in_packet (s : slip_decode_state) (n c : Z) : slip_decode_state :=
  header_state s UPPER7_STATE_D0 n c 0.

(** The switch cases of the header fields. *)
Lemma upper7_data_L1 s n c off y :
  upper7_data (header_state s UPPER7_STATE_L1 n c off) y
  = Some (header_state s UPPER7_STATE_L2 (Z.shiftl y 7) c off).
Proof. done. Qed.
Lemma upper7_data_L2 s n c off y : Z.lor n y + 7 < OVERLAY_INTERFACE_RX_BUFFER_SIZE ->
  upper7_data (header_state s UPPER7_STATE_L2 n c off) y
  = Some (header_state s UPPER7_STATE_C1 (Z.lor n y) c 0).
Proof.
  intros H%Z.ltb_lt. unfold upper7_data.
  cbn [header_state state set_dst_offset set_state set_crc set_packet_length packet_length].
  cbn [Z.eqb Pos.eqb UPPER7_STATE_NOTINPACKET UPPER7_STATE_L1 UPPER7_STATE_L2]. by rewrite H.
Qed.
Lemma upper7_data_C1 s n c off y :
  upper7_data (header_state s UPPER7_STATE_C1 n c off) y
  = Some (header_state s UPPER7_STATE_C2 n (u32 (Z.shiftl y 25)) off).
Proof. done. Qed.
Lemma upper7_data_C2 s n c off y :
  upper7_data (header_state s UPPER7_STATE_C2 n c off) y
  = Some (header_state s UPPER7_STATE_C3 n (Z.lor c (Z.shiftl y (25 - 7))) off).
Proof. done. Qed.
Lemma upper7_data_C3 s n c off y :
  upper7_data (header_state s UPPER7_STATE_C3 n c off) y
  = Some (header_state s UPPER7_STATE_C4 n (Z.lor c (Z.shiftl y (25 - 7 - 7))) off).
Proof. done. Qed.
Lemma upper7_data_C4 s n c off y :
  upper7_data (header_state s UPPER7_STATE_C4 n c off) y
  = Some (header_state s UPPER7_STATE_C5 n (Z.lor c (Z.shiftl y (25 - 7 - 7 - 7))) off).
Proof. done. Qed.
Lemma upper7_data_C5 s n c off y :
  upper7_data (header_state s UPPER7_STATE_C5 n c off) y
  = Some (header_state s UPPER7_STATE_D0 n (Z.lor c (Z.shiftl y 0)) off).
Proof. done. Qed.

Lemma out_of_range_false s :
  packet_length s < OVERLAY_INTERFACE_RX_BUFFER_SIZE -> 0 <= dst_offset s ->
  dst_offset s + 7 < OVERLAY_INTERFACE_RX_BUFFER_SIZE -> upper7_out_of_range s = false.
Proof. intros. unfold upper7_out_of_range. by zdecide. Qed.

Lemma rx_header_step s r st n c off y bs s1 :
  n < OVERLAY_INTERFACE_RX_BUFFER_SIZE -> 0 <= off ->
  off + 7 < OVERLAY_INTERFACE_RX_BUFFER_SIZE ->
  upper7_data (header_state s st n c off) (Z.land y 0x7f) = Some s1 ->
  rxs (header_state s st n c off) r (Z.lor 0x80 (Z.land y 0x7f) :: bs) = rxs s1 r bs.
Proof.
  intros. apply rx_bytes_data; [apply land_7f_range|by apply out_of_range_false|done].
Qed.

Lemma rx_header s r n c bs :
  u7_ready s -> 0 <= n -> n + 7 < OVERLAY_INTERFACE_RX_BUFFER_SIZE -> 0 <= c < 2 ^ 32 ->
  rxs s r (upper7_header n c ++ bs) = rxs (in_packet s n c) r bs.
Proof.
  intros [H1 H2 H3 H4] Hn0 Hn Hc. unfold upper7_header. cbn [app].
  assert (Hn1 : n < OVERLAY_INTERFACE_RX_BUFFER_SIZE) by lia.
  assert (Hz : 0 <= 0) by done.
  assert (Hz7 : 0 + 7 < OVERLAY_INTERFACE_RX_BUFFER_SIZE) by done.
  assert (Hadd : forall y, 0x80 + Z.land y 0x7f = Z.lor 0x80 (Z.land y 0x7f)).
  { intros y. rewrite Z.lor_comm, lor_128; [done|apply land_7f_range]. }
  assert (Hhi : Z.land (Z.shiftr n 7) 0x7f = n / 128).
  { rewrite land_127, Z.shiftr_div_pow2 by lia. apply Z.mod_small.
    change (2 ^ 7) with 128. unfold OVERLAY_INTERFACE_RX_BUFFER_SIZE in Hn.
    Z.to_euclidean_division_equations. lia. }
  assert (Hlen : Z.lor (Z.shiftl (Z.land (Z.shiftr n 7) 0x7f) 7) (Z.land (Z.shiftr n 0) 0x7f) = n).
  { rewrite Hhi, Z.shiftr_0_r, land_127, lor_shiftl_add by (try apply Z.mod_pos_bound; lia).
    change (2 ^ 7) with 128. pose proof (Z.div_mod n 128). lia. }
  assert (Hpl : Z.shiftl (Z.land (Z.shiftr n 7) 0x7f) 7 <= n).
  { rewrite Hhi, Z.shiftl_mul_pow2 by lia. change (2 ^ 7) with 128.
    Z.to_euclidean_division_equations. lia. }
  rewrite !Hadd.
  rewrite (rx_bytes_cons s r 123 _ (header_state s UPPER7_STATE_L1 0 (crc s) (dst_offset s)))
    by done.
  rewrite (rx_header_step s r UPPER7_STATE_L1 0 (crc s) (dst_offset s) _ _ _
    eq_refl H3 H4 (upper7_data_L1 _ _ _ _ _)).
  rewrite (rx_header_step s r UPPER7_STATE_L2 _ (crc s) (dst_offset s) _ _ _
    (Z.le_lt_trans _ _ _ Hpl Hn1) H3 H4 (upper7_data_L2 _ _ _ _ _ ltac:(by rewrite Hlen))).
  rewrite Hlen.
  rewrite (rx_header_step _ _ _ _ _ _ _ _ _ Hn1 Hz Hz7 (upper7_data_C1 _ _ _ _ _)).
  rewrite (rx_header_step _ _ _ _ _ _ _ _ _ Hn1 Hz Hz7 (upper7_data_C2 _ _ _ _ _)).
  rewrite (rx_header_step _ _ _ _ _ _ _ _ _ Hn1 Hz Hz7 (upper7_data_C3 _ _ _ _ _)).
  rewrite (rx_header_step _ _ _ _ _ _ _ _ _ Hn1 Hz Hz7 (upper7_data_C4 _ _ _ _ _)).
  rewrite (rx_header_step _ _ _ _ _ _ _ _ _ Hn1 Hz Hz7 (upper7_data_C5 _ _ _ _ _)).
  by rewrite crc_groups.
Qed.

(** *** Data blocks *)

(** Seven bits made of the low [j] bits of one byte and the high bits of the next. *)
Lemma join_bits j a c :
  1 <= j <= 6 -> 0 <= a < 2 ^ j -> 0 <= c < 2 ^ (7 - j) ->
  let b := Z.lor (Z.shiftl a (7 - j)) c in
  0 <= b < 128 /\ Z.land (Z.shiftr b (7 - j)) (Z.ones j) = a /\
  u8 (Z.shiftl b (j + 1)) = Z.shiftl c (j + 1).
Proof.
  intros Hj Ha Hc b.
  assert (H : forallb (fun j => forallb (fun a => forallb (fun c =>
      let b := Z.lor (Z.shiftl a (7 - j)) c in
      (0 <=? b) && (b <? 128) && (Z.land (Z.shiftr b (7 - j)) (Z.ones j) =? a)
      && (u8 (Z.shiftl b (j + 1)) =? Z.shiftl c (j + 1)))
    (seqZ 0 (2 ^ (7 - j)))) (seqZ 0 (2 ^ j))) (seqZ 1 6) = true) by (vm_compute; reflexivity).
  rewrite forallb_forall in H. specialize (H j). rewrite <- list_elem_of_In, elem_of_seqZ in H.
  specialize (H ltac:(lia)). rewrite forallb_forall in H. specialize (H a).
  rewrite <- list_elem_of_In, elem_of_seqZ in H. specialize (H ltac:(lia)).
  rewrite forallb_forall in H. specialize (H c).
  rewrite <- list_elem_of_In, elem_of_seqZ in H. specialize (H ltac:(lia)).
  cbv zeta in H. fold b in H. zify_bool. auto.
Qed.

Lemma byte_halves v k : is_byte v -> 1 <= k <= 7 ->
  Z.lor (Z.shiftl (Z.shiftr v k) k) (Z.land v (Z.ones k)) = v /\
  0 <= Z.shiftr v k < 2 ^ (8 - k) /\ 0 <= Z.land v (Z.ones k) < 2 ^ k.
Proof.
  intros Hv Hk.
  assert (Hm : 0 <= Z.land v (Z.ones k) < 2 ^ k)
    by (rewrite Z.land_ones by lia; apply Z.mod_pos_bound, Z.pow_pos_nonneg; lia).
  split_and!; try lia.
  - rewrite lor_shiftl_add, Z.land_ones, Z.shiftr_div_pow2 by lia.
    rewrite (Z.mul_comm (v / _)). symmetry. apply Z.div_mod.
    pose proof (Z.pow_pos_nonneg 2 k). lia.
  - apply shiftr_byte; [done|lia].
  - unfold is_byte in Hv. rewrite Z.shiftr_div_pow2 by lia.
    apply Z.div_lt_upper_bound; [apply Z.pow_pos_nonneg; lia|].
    rewrite <- Z.pow_add_r by lia. replace (k + (8 - k)) with 8 by lia. lia.
Qed.

(** A decoder in state [st] whose current block, at [dst_offset], is [mid]. *)
Section block.
Context (s : slip_decode_state) (pre post : list Z).
Hypothesis Hoff : dst_offset s = zlen pre.
Hypothesis Hpl : packet_length s < OVERLAY_INTERFACE_RX_BUFFER_SIZE.
Hypothesis Hroom : zlen pre + 7 < OVERLAY_INTERFACE_RX_BUFFER_SIZE.

Definition block_state (st : Z) (mid : list Z) : slip_decode_state :=
  set_dst (set_state s st) (pre ++ mid ++ post).

Lemma block_range st mid : upper7_out_of_range (block_state st mid) = false.
Proof. apply out_of_range_false; cbn; [done|lia|lia]. Qed.

Lemma zget_mid mid i : (i < length mid)%nat ->
  zget (pre ++ mid ++ post) (zlen pre + Z.of_nat i) = mid !! i.
Proof.
  intros. rewrite zget_app_r by lia. rewrite zget_app_l by lia.
  unfold zget. zdecide. f_equal. lia.
Qed.

Lemma zset_mid mid i x : (i < length mid)%nat ->
  zset (pre ++ mid ++ post) (zlen pre + Z.of_nat i) x = Some (pre ++ <[i := x]> mid ++ post).
Proof.
  intros. rewrite zset_Some by (rewrite !length_app; lia). f_equal.
  rewrite Z2Nat.inj_add, !Nat2Z.id by lia.
  rewrite insert_app_r. by rewrite insert_app_l by lia.
Qed.

Lemma put_dst_mid st mid i x : (i < length mid)%nat ->
  put_dst (block_state st mid) (Z.of_nat i) x = Some (block_state st (<[i := u8 x]> mid)).
Proof.
  intros. unfold put_dst. cbn [block_state set_dst dst dst_offset set_state].
  rewrite Hoff, zset_mid by done. done.
Qed.

Lemma or_dst_mid st mid i x y : mid !! i = Some y ->
  or_dst (block_state st mid) (Z.of_nat i) x = Some (block_state st (<[i := Z.lor y x]> mid)).
Proof.
  intros Hy. pose proof (lookup_lt_Some _ _ _ Hy).
  unfold or_dst. cbn [block_state set_dst dst dst_offset set_state].
  rewrite Hoff, zget_mid, Hy by done. cbn [mbind option_bind]. by rewrite zset_mid.
Qed.

(** The case of state D1 to D6 on the bits that join [a] and [c]. *)
Lemma split_step st mid i j a c m r bs :
  j = Z.of_nat i + 1 -> st = UPPER7_STATE_D0 + j ->
  (S i < length mid)%nat -> (i < 6)%nat -> mid !! i = Some m ->
  0 <= a < 2 ^ j -> 0 <= c < 2 ^ (7 - j) ->
  rxs (block_state st mid) r (Z.lor (Z.lor 0x80 (Z.shiftl a (7 - j))) c :: bs)
  = rxs (block_state (st + 1) (<[S i := Z.shiftl c (j + 1)]> (<[i := Z.lor m a]> mid))) r bs.
Proof.
  intros Hj Hst Hi Hi6 Hm Ha Hc. destruct (join_bits j a c) as (Hb & Hlo & Hhi); [lia|done..|].
  rewrite <- Z.lor_assoc.
  set (b := Z.lor (Z.shiftl a (7 - j)) c) in *. apply rx_bytes_data; [done|apply block_range|].
  assert (Hd : upper7_data (block_state st mid) b
    = upper7_split (block_state st mid) (Z.of_nat i) b (7 - j) (Z.ones j) (j + 1)).
  { subst st j. do 6 (destruct i as [|i]; [reflexivity|]). lia. }
  rewrite Hd. unfold upper7_split.
  rewrite Hlo, (or_dst_mid _ _ _ _ _ Hm). cbn [mbind option_bind].
  replace (Z.of_nat i + 1) with (Z.of_nat (S i)) by lia.
  rewrite put_dst_mid by (rewrite length_insert; lia). rewrite Hhi. done.
Qed.

Lemma first_step mid v r bs : (0 < length mid)%nat -> is_byte v ->
  rxs (block_state UPPER7_STATE_D0 mid) r (Z.lor 0x80 (Z.shiftr v 1) :: bs)
  = rxs (block_state UPPER7_STATE_D1 (<[0%nat := Z.shiftl (Z.shiftr v 1) 1]> mid)) r bs.
Proof.
  intros Hm Hv. destruct (byte_halves v 1 Hv) as (_ & Hr & _); [lia|].
  change (2 ^ (8 - 1)) with 128 in Hr. apply rx_bytes_data; [done|apply block_range|].
  assert (Hd : upper7_data (block_state UPPER7_STATE_D0 mid) (Z.shiftr v 1)
    = s' ← put_dst (block_state UPPER7_STATE_D0 mid) 0 (Z.shiftl (Z.shiftr v 1) 1);
      Some (next_state s')).
  { unfold upper7_data. change (state (block_state UPPER7_STATE_D0 mid)) with UPPER7_STATE_D0.
    by rewrite block_range. }
  rewrite Hd. change 0 with (Z.of_nat 0). rewrite put_dst_mid by done. cbn [mbind option_bind].
  rewrite u8_id; [done|]. unfold is_byte. rewrite Z.shiftl_mul_pow2 by lia. lia.
Qed.

Lemma last_step mid v m r bs : mid !! 6%nat = Some m -> is_byte v ->
  rxs (block_state UPPER7_STATE_D7 mid) r (Z.lor 0x80 (Z.shiftl (Z.land v 0x7f) 0) :: bs)
  = rxs (set_dst_offset (block_state UPPER7_STATE_D0 (<[6%nat := Z.lor m (Z.land v 0x7f)]> mid))
           (dst_offset s + 7)) r bs.
Proof.
  intros Hm Hv. pose proof (land_7f_range v) as Hr. rewrite Z.shiftl_0_r.
  apply rx_bytes_data; [done|apply block_range|].
  assert (Hd : upper7_data (block_state UPPER7_STATE_D7 mid) (Z.land v 0x7f)
    = s' ← or_dst (block_state UPPER7_STATE_D7 mid) (Z.of_nat 6)
             (Z.land (Z.shiftr (Z.land v 0x7f) 0) 0x7f);
      Some (set_state (set_dst_offset s' (dst_offset s' + 7)) UPPER7_STATE_D0)) by done.
  rewrite Hd, (or_dst_mid _ _ _ _ _ Hm). cbn [mbind option_bind].
  rewrite Z.shiftr_0_r, !land_127, Z.mod_mod by lia. done.
Qed.

(** [split_step] at literal positions; the byte before has its high bits. *)
Ltac block_byte i j v w Hv Hw :=
  eapply eq_trans;
  [refine (split_step _ _ i j (Z.land v (Z.ones j)) (Z.shiftr w (j + 1)) _ _ _
             eq_refl eq_refl _ _ _ _ _);
   [simpl; lia|lia|reflexivity|apply (byte_halves v j Hv); lia
   |apply (byte_halves w (j + 1) Hw); lia]|];
  cbn [insert list_insert]; rewrite (proj1 (byte_halves v j Hv ltac:(lia)));
  let k := eval cbv in (j + 1) in change (j + 1) with k.

Lemma rx_block_explicit m0 m1 m2 m3 m4 m5 m6 v0 v1 v2 v3 v4 v5 v6 r bs :
  is_byte v0 -> is_byte v1 -> is_byte v2 -> is_byte v3 -> is_byte v4 -> is_byte v5 ->
  is_byte v6 ->
  rxs (block_state UPPER7_STATE_D0 [m0; m1; m2; m3; m4; m5; m6]) r
    (upper7_block [v0; v1; v2; v3; v4; v5; v6] ++ bs)
  = rxs (set_dst_offset (block_state UPPER7_STATE_D0 [v0; v1; v2; v3; v4; v5; v6])
           (dst_offset s + 7)) r bs.
Proof.
  intros H0 H1 H2 H3 H4 H5 H6. unfold upper7_block. cbn [nth app].
  rewrite first_step by (simpl; lia || done). cbn [insert list_insert].
  block_byte 0%nat 1 v0 v1 H0 H1. block_byte 1%nat 2 v1 v2 H1 H2.
  block_byte 2%nat 3 v2 v3 H2 H3. block_byte 3%nat 4 v3 v4 H3 H4.
  block_byte 4%nat 5 v4 v5 H4 H5. block_byte 5%nat 6 v5 v6 H5 H6.
  change (UPPER7_STATE_D0 + 6 + 1) with UPPER7_STATE_D7.
  erewrite last_step by (done || reflexivity). cbn [insert list_insert].
  change 0x7f with (Z.ones 7).
  by rewrite (proj1 (byte_halves v6 7 H6 ltac:(lia))).
Qed.

Lemma rx_block mid v r bs :
  length mid = 7%nat -> length v = 7%nat -> are_bytes v ->
  rxs (block_state UPPER7_STATE_D0 mid) r (upper7_block v ++ bs)
  = rxs (set_dst_offset (block_state UPPER7_STATE_D0 v) (dst_offset s + 7)) r bs.
Proof.
  intros Hm Hv Hb.
  do 7 (destruct mid as [|? mid]; [discriminate Hm|]). destruct mid; [|discriminate Hm].
  do 7 (destruct v as [|? v]; [discriminate Hv|]). destruct v; [|discriminate Hv].
  repeat (apply Forall_cons in Hb as [? Hb]). by apply rx_block_explicit.
Qed.
End block.

Lemma pad7_bytes v : are_bytes v -> are_bytes (pad7 v).
Proof. intros. apply Forall_app_2; [done|]. apply Forall_replicate. unfold is_byte. lia. Qed.

Lemma pad7_length v : (length v <= 7)%nat -> length (pad7 v) = 7%nat.
Proof. intros. unfold pad7. rewrite length_app, length_replicate. lia. Qed.

(** A decoder in the data of a packet, with [d] received. *)
Record u7_data (s : slip_decode_state) (d : list Z) : Prop := {
  u7d_format : encapsulator s = SLIP_FORMAT_UPPER7;
  u7d_state : state s = UPPER7_STATE_D0;
  u7d_dst : zlen (dst s) = OVERLAY_INTERFACE_RX_BUFFER_SIZE;
  u7d_length : packet_length s < OVERLAY_INTERFACE_RX_BUFFER_SIZE;
  u7d_offset : dst_offset s = zlen d;
  u7d_data : take (length d) (dst s) = d
}.

Lemma rx_block_data s d v r bs :
  u7_data s d -> zlen d + 7 < OVERLAY_INTERFACE_RX_BUFFER_SIZE ->
  length v = 7%nat -> are_bytes v ->
  exists s', rxs s r (upper7_block v ++ bs) = rxs s' r bs /\ u7_data s' (d ++ v) /\
    packet_length s' = packet_length s /\ crc s' = crc s.
Proof.
  intros [H1 H2 H3 H4 H5 H6] Hroom Hv Hb.
  set (mid := take 7 (drop (length d) (dst s))).
  set (post := drop (length d + 7) (dst s)).
  assert (Hdst : dst s = d ++ mid ++ post).
  { subst mid post. rewrite <- (take_drop (length d) (dst s)) at 1. rewrite H6. f_equal.
    rewrite <- (take_drop 7 (drop (length d) (dst s))) at 1. by rewrite drop_drop. }
  assert (Hmid : length mid = 7%nat) by (subst mid; rewrite length_take, length_drop; lia).
  clearbody mid post.
  exists (set_dst_offset (block_state s d post UPPER7_STATE_D0 v) (dst_offset s + 7)).
  rewrite <- (rx_block s d post H5 H4 Hroom mid v r bs Hmid Hv Hb).
  split; [|split; [|done]].
  - f_equal. unfold block_state. rewrite <- Hdst, <- H2. by destruct s.
  - split; cbn; auto.
    + rewrite <- H3, Hdst, !length_app. lia.
    + rewrite length_app. lia.
    + rewrite app_assoc, take_app_length. done.
Qed.

Lemma rx_body n : forall s d p r bs,
  (length p <= n)%nat -> u7_data s d -> are_bytes p ->
  zlen d + zlen p + 7 <= OVERLAY_INTERFACE_RX_BUFFER_SIZE ->
  exists s' pad, rxs s r (upper7_body (length p) p ++ bs) = rxs s' r bs /\
    u7_data s' (d ++ p ++ pad) /\ packet_length s' = packet_length s /\ crc s' = crc s.
Proof.
  induction n as [|n IH]; intros s d p r bs Hn Hs Hb Hroom;
    (destruct (decide (p = [])) as [->|Hp];
      [exists s, []; rewrite !app_nil_r; by split_and!|]).
  { destruct p; simpl in Hn; [done|lia]. }
  assert (1 <= length p)%nat by (destruct p; simpl; [done|lia]).
  rewrite (upper7_body_cons p Hp), <- app_assoc.
  destruct (rx_block_data s d (pad7 (take 7 p)) r
              (upper7_body (length (drop 7 p)) (drop 7 p) ++ bs)) as (s1 & E1 & D1 & P1 & C1);
    [done|lia|by apply pad7_length; rewrite length_take; lia|by apply pad7_bytes, Forall_take|].
  rewrite E1. destruct (decide (length p <= 7)%nat) as [Hle|Hgt].
  - rewrite (drop_ge p 7) by lia. rewrite (take_ge p 7) in D1 by lia.
    cbn [upper7_body length app]. unfold pad7 in D1. by exists s1, (replicate (7 - length p) 0).
  - unfold pad7 in D1. rewrite length_take, Nat.min_l in D1 by lia.
    change (replicate (7 - 7) 0) with (@nil Z) in D1. rewrite app_nil_r in D1.
    destruct (IH s1 (d ++ take 7 p) (drop 7 p) r bs) as (s2 & pad & E2 & D2 & P2 & C2);
      [rewrite length_drop; lia|done|by apply Forall_drop
      |rewrite length_app, length_take, length_drop; lia|].
    exists s2, pad. rewrite E2. split; [done|]. split; [|split; congruence].
    by rewrite <- app_assoc, (app_assoc (take 7 p)), take_drop in D2.
Qed.

(** A whole frame delivers its packet and leaves the decoder ready for the next. *)
Lemma rx_frame s r p :
  u7_ready s -> are_bytes p -> zlen p + 7 < OVERLAY_INTERFACE_RX_BUFFER_SIZE ->
  exists s', rxs s r (upper7_frame p) = Some ([p], s', r) /\ u7_ready s'.
Proof.
  intros Hs Hb Hlen. unfold upper7_frame.
  rewrite rx_header by (apply crc32_range || done || lia).
  assert (D0 : u7_data (in_packet s (zlen p) (crc32 p)) []) by (destruct Hs; split; cbn; done || lia).
  destruct (rx_body (length p) _ [] p r [125] (le_n _) D0 Hb) as (s1 & pad & E & D1 & P1 & C1);
    [simpl; lia|]. rewrite E. cbn [app] in D1. destruct D1 as [F1 F2 F3 F4 F5 F6].
  change (packet_length s1 = zlen p) in P1. change (crc s1 = crc32 p) in C1.
  assert (Hdst : exists k, dst s1 = p ++ k).
  { exists (pad ++ drop (length (p ++ pad)) (dst s1)).
    rewrite <- (take_drop (length (p ++ pad)) (dst s1)) at 1. by rewrite F6, app_assoc. }
  destruct Hdst as [k Hk].
  exists (set_dst_offset (set_state s1 UPPER7_STATE_NOTINPACKET) 0). split; [|split; cbn; done].
  assert (E1 : rx1 s1 r 125
    = Some ([p], set_dst_offset (set_state s1 UPPER7_STATE_NOTINPACKET) 0, r)).
  { unfold rx_byte. change (upper7_decode gettime_ms debug s1 r 125)
      with (Some (1, set_state s1 UPPER7_STATE_NOTINPACKET, r)).
    cbn [mbind option_bind Z.eqb Pos.eqb dst packet_length crc set_state].
    rewrite Hk, P1, C1, Crc32_ComputeBuf_crc32, zslice_prefix. cbn [mbind option_bind].
    by rewrite Z.eqb_refl. }
  cbn [rx_bytes]. by rewrite E1.
Qed.

Lemma rx_frames ps : forall s r,
  u7_ready s ->
  Forall (fun p => are_bytes p /\ zlen p + 7 < OVERLAY_INTERFACE_RX_BUFFER_SIZE) ps ->
  exists s', rxs s r (concat (upper7_frame <$> ps)) = Some (ps, s', r) /\ u7_ready s'.
Proof.
  induction ps as [|p ps IH]; intros s r Hs Hps; [by exists s|].
  apply Forall_cons in Hps as [[Hb Hl] Hps]. rewrite fmap_cons. cbn [concat].
  destruct (rx_frame s r p Hs Hb Hl) as (s1 & E1 & R1).
  destruct (IH s1 r R1 Hps) as (s2 & E2 & R2). exists s2. split; [|done].
  rewrite rx_bytes_app, E1. cbn [mbind option_bind]. by rewrite E2.
Qed.

(** *** RSSI text between the bytes of a packet *)

(** Text and line ends: what a frame does not contain. *)
Definition is_report_text (c : Z) : bool :=
  (0 <=? c) && (c <=? 0x7f) && negb (c =? 123) && negb (c =? 125).

(** A byte of text changes the text and, at the end of a line, the readings of the radio;
    what it makes of them does not depend on the packet being received. *)
Lemma rx_report_text s r c ps s' r' :
  is_report_text c = true -> rx1 s r c = Some (ps, s', r') ->
  ps = [] /\ s' = with_rssi (rssi_text s') (rssi_len s') s /\
  forall s0, rssi_text s0 = rssi_text s -> rssi_len s0 = rssi_len s ->
    rx1 s0 r c = Some ([], with_rssi (rssi_text s') (rssi_len s') s0, r').
Proof.
  intros Hc. unfold is_report_text in Hc. zify_bool. unfold rx_byte, upper7_decode, upper7_report.
  generalize (parse_rfd900_rssi gettime_ms debug). intros parse. zdecide.
  destruct (32 <=? c); cbn [andb].
  - set (n := if rssi_len s <? 0 then 0 else rssi_len s). destruct (n <? RSSI_TEXT_SIZE) eqn:En.
    + destruct (zset (rssi_text s) n c) as [t|] eqn:Et; [|done]. cbn. intros [= <- <- <-].
      split_and!; [done|done|]. intros s0 -> ->. fold n. rewrite En, Et. done.
    + cbn. intros [= <- <- <-]. split_and!; [done|done|]. intros s0 -> ->. fold n. rewrite En. done.
  - destruct ((c =? 13) || (c =? 10)).
    + destruct (report_text (rssi_text s) (rssi_len s)) as [t|] eqn:Et; [|done]. cbn [mbind option_bind].
      destruct (parse t r) as [r1|] eqn:Ep; [|done]. cbn [mbind option_bind].
      cbn. intros [= <- <- <-].
      split_and!; [done|done|]. intros s0 -> ->. rewrite Et. cbn [mbind option_bind]. rewrite Ep. done.
    + cbn. intros [= <- <- <-]. split_and!; [done|by destruct s|].
      intros s0 Ht Hl. rewrite <- Ht, <- Hl. by destruct s0.
Qed.

Lemma rx_texts bs : forall s r ps s' r' s0,
  Forall (fun c => is_report_text c = true) bs -> rxs s r bs = Some (ps, s', r') ->
  rssi_text s0 = rssi_text s -> rssi_len s0 = rssi_len s ->
  ps = [] /\ rxs s0 r bs = Some ([], with_rssi (rssi_text s') (rssi_len s') s0, r').
Proof.
  induction bs as [|c bs IH]; intros s r ps s' r' s0 Hbs; cbn [rx_bytes].
  { intros [= <- <- <-] <- <-. by destruct s0. }
  apply Forall_cons in Hbs as [Hc Hbs]. destruct (rx1 s r c) as [[[p1 s1] r1]|] eqn:E1; [|done].
  cbn [mbind option_bind]. destruct (rxs s1 r1 bs) as [[[p2 s2] r2]|] eqn:E2; [|done].
  cbn [mbind option_bind]. intros [= <- <- <-] Ht Hl.
  destruct (rx_report_text _ _ _ _ _ _ Hc E1) as (-> & _ & H0). rewrite (H0 s0 Ht Hl). cbn [mbind option_bind].
  destruct (IH s1 r1 p2 s2 r2 (with_rssi (rssi_text s1) (rssi_len s1) s0) Hbs E2) as [-> E3]; [done..|].
  split; [done|]. rewrite E3. done.
Qed.

Lemma rx_byte_rssi t n s r c ps s' r' :
  is_frame_byte c -> rx1 s r c = Some (ps, s', r') ->
  r' = r /\ forall r0, rx1 (with_rssi t n s) r0 c = Some (ps, with_rssi t n s', r0).
Proof.
  intros Hc E.
  assert (Hr : r' = r /\ forall r0, rx1 s r0 c = Some (ps, s', r0)).
  { revert E. unfold rx_byte. destruct Hc as [->|[->|Hc]].
    - cbn. by intros [= <- <- <-].
    - cbn [upper7_decode Z.eqb Pos.eqb mbind option_bind].
      destruct (Crc32_ComputeBuf _ _ _); [|done]. cbn [mbind option_bind].
      case_match; [by intros [= <- <- <-]|]. destruct (zslice _ _ _); [|done]. by intros [= <- <- <-].
    - rewrite upper7_decode_data by done.
      destruct (upper7_field s c) as [s1|] eqn:E1; [|done]. cbn [mbind option_bind Z.eqb].
      intros [= <- <- <-]. split; [done|]. intros r0. rewrite upper7_decode_data by done. by rewrite E1. }
  destruct Hr as [-> Hr]. split; [done|]. intros r0. rewrite (rx_byte_unseen _ _ _ _ (unseen_rssi t n)).
  - by rewrite Hr.
  - by apply upper7_decode_frame; [apply unseen_rssi|].
Qed.

Lemma rx_bytes_rssi t n bs : forall s r ps s' r',
  Forall is_frame_byte bs -> rxs s r bs = Some (ps, s', r') ->
  forall r0, rxs (with_rssi t n s) r0 bs = Some (ps, with_rssi t n s', r0).
Proof.
  induction bs as [|c bs IH]; intros s r ps s' r' Hbs; cbn [rx_bytes].
  { by intros [= <- <- <-]. }
  apply Forall_cons in Hbs as [Hc Hbs].
  destruct (rx1 s r c) as [[[p1 s1] r1]|] eqn:E1; [|done]. cbn [mbind option_bind].
  destruct (rxs s1 r1 bs) as [[[p2 s2] r2]|] eqn:E2; [|done]. cbn [mbind option_bind].
  intros [= <- <- <-] r0. destruct (rx_byte_rssi t n _ _ _ _ _ _ Hc E1) as [_ ->].
  cbn [mbind option_bind]. by rewrite (IH _ _ _ _ _ Hbs E2).
Qed.

(** Frame bytes leave the text alone. *)
Lemma rx_byte_text s r c ps s' r' :
  is_frame_byte c -> rx1 s r c = Some (ps, s', r') -> s' = with_rssi (rssi_text s) (rssi_len s) s' /\ r' = r.
Proof.
  intros Hc E. destruct (rx_byte_rssi (rssi_text s) (rssi_len s) _ _ _ _ _ _ Hc E) as [-> E'].
  specialize (E' r). replace (with_rssi (rssi_text s) (rssi_len s) s) with s in E' by by destruct s.
  split; [|done]. congruence.
Qed.

Definition frame_part (w : list Z) : list Z := List.filter (fun c => negb (is_report_text c)) w.
Definition text_part (w : list Z) : list Z := List.filter is_report_text w.

Lemma text_part_text w : Forall (fun c => is_report_text c = true) (text_part w).
Proof. apply List.Forall_forall. intros c Hc. apply List.filter_In in Hc as [_ Hc]. exact Hc. Qed.

(** Frames and text that are mixed are received as each of them alone. *)
Lemma rx_with_text w : forall s r ps s' r1 qs st r',
  Forall is_frame_byte (frame_part w) -> rxs s r (frame_part w) = Some (ps, s', r1) ->
  rxs s r (text_part w) = Some (qs, st, r') ->
  rxs s r w = Some (ps, with_rssi (rssi_text st) (rssi_len st) s', r').
Proof.
  unfold frame_part, text_part.
  induction w as [|c w IH]; intros s r ps s' r1 qs st r' Hw; cbn [List.filter].
  { cbn. intros [= <- <- <-] [= <- <- <-]. by destruct s. }
  cbn [List.filter] in Hw. destruct (is_report_text c) eqn:Ec; cbn [negb] in *.
  - intros E. cbn [rx_bytes]. destruct (rx1 s r c) as [[[p2 s2] r2]|] eqn:E2; [|done].
    cbn [mbind option_bind]. destruct (rxs s2 r2 _) as [[[p3 s3] r3]|] eqn:E3; [|done].
    cbn [mbind option_bind]. intros [= <- <- <-].
    destruct (rx_report_text _ _ _ _ _ _ Ec E2) as (-> & Es & _). rewrite Es in E3 |- *.
    rewrite (IH _ r2 ps (with_rssi (rssi_text s2) (rssi_len s2) s') r2 p3 s3 r3 Hw); [done| |done].
    by eapply rx_bytes_rssi.
  - apply Forall_cons in Hw as [Hc Hw]. cbn [rx_bytes].
    destruct (rx1 s r c) as [[[p1 s1] r2]|] eqn:E1; [|done]. cbn [mbind option_bind].
    destruct (rxs s1 r2 _) as [[[p2 s2] r3]|] eqn:E2; [|done]. cbn [mbind option_bind].
    intros [= <- <- <-] Ht. destruct (rx_byte_text _ _ _ _ _ _ Hc E1) as [Es ->].
    destruct (rx_texts _ _ _ _ _ _ s1 (text_part_text w) Ht) as [_ Ht1]; [by rewrite Es..|].
    rewrite (IH s1 r p2 s2 r3 [] _ r' Hw E2 Ht1). done.
Qed.

(** *** The bytes of a frame *)

Lemma joined_data j v w : 1 <= j <= 6 -> is_byte v -> is_byte w ->
  is_data (Z.lor (Z.lor 0x80 (Z.shiftl (Z.land v (Z.ones j)) (7 - j))) (Z.shiftr w (j + 1))).
Proof.
  intros Hj Hv Hw. rewrite <- Z.lor_assoc. apply data_byte.
  destruct (byte_halves v j Hv) as (_ & _ & Ha); [lia|].
  destruct (byte_halves w (j + 1) Hw) as (_ & Hc & _); [lia|].
  replace (8 - (j + 1)) with (7 - j) in Hc by lia.
  by destruct (join_bits j _ _ Hj Ha Hc) as (Hb & _).
Qed.

Lemma upper7_block_data v : length v = 7%nat -> are_bytes v -> Forall is_data (upper7_block v).
Proof.
  intros Hv Hb.
  destruct v as [|v0 [|v1 [|v2 [|v3 [|v4 [|v5 [|v6 [|]]]]]]]]; try discriminate Hv.
  repeat match goal with H : Forall _ (_ :: _) |- _ => apply Forall_cons in H as [? H] end.
  unfold upper7_block. cbn [nth].
  repeat apply Forall_cons_2; [| | | | | | | |constructor].
  - apply data_byte. destruct (byte_halves v0 1) as (_ & Hr & _); [done|lia|exact Hr].
  - by apply (joined_data 1).
  - by apply (joined_data 2).
  - by apply (joined_data 3).
  - by apply (joined_data 4).
  - by apply (joined_data 5).
  - by apply (joined_data 6).
  - rewrite Z.shiftl_0_r. apply data_byte, land_7f_range.
Qed.

Lemma upper7_body_data n : forall p, are_bytes p -> Forall is_data (upper7_body n p).
Proof.
  induction n as [|n IH]; intros [|x p] Hb; try (by constructor). cbn [upper7_body].
  apply Forall_app_2; [|by apply IH, Forall_drop].
  apply upper7_block_data; [apply pad7_length; rewrite length_take; lia|].
  by apply pad7_bytes, Forall_take.
Qed.

Lemma upper7_frame_bytes p : are_bytes p -> Forall is_frame_byte (upper7_frame p).
Proof.
  intros Hb. unfold upper7_frame, is_frame_byte.
  assert (Hd : forall x, is_data (Z.lor 0x80 (Z.land x 0x7f)))
    by (intros; apply data_byte, land_7f_range).
  assert (Ha : forall x, is_data (0x80 + Z.land x 0x7f))
    by (intros x; pose proof (land_7f_range x); unfold is_data; lia).
  apply Forall_app_2; [|apply Forall_app_2].
  - unfold upper7_header.
    repeat (apply Forall_cons_2; [(by left) || (right; right; auto)|]). constructor.
  - eapply Forall_impl; [by apply upper7_body_data|]. auto.
  - apply Forall_cons_2; [by right; left|constructor].
Qed.

(** ** The receive loop is the byte-wise receiver *)

Hypothesis Hdebug : debug_slip debug = false.

(** A call of [slip_decode] and what the receive loop does with its result. *)
Definition deliver (N : nat) (o : option (Z * slip_decode_state * radio))
    : option (list (list Z) * slip_decode_state * radio) :=
  '(ret, s, r) ← o;
  if ret =? 1 then
    p ← zslice (dst s) 0 (packet_length s);
    '(ps, s, r) ← read_stream_loop gettime_ms debug N (set_dst_offset s 0) r;
    Some (p :: ps, s, r)
  else read_stream_loop gettime_ms debug N s r.

Lemma read_stream_loop_more N x s r rest :
  pending (with_src x s) rest -> (length rest <= N)%nat ->
  read_stream_loop gettime_ms debug N (with_src x s) r =
  if decide (rest = []) then Some ([], with_src x s, r)
  else deliver (pred N) (upper7_loop gettime_ms debug (length rest) (with_src x s) r).
Proof.
  intros HP HN. destruct rest as [|c rest].
  - rewrite decide_True by done. pose proof (pending_nil _ HP).
    destruct N; cbn [read_stream_loop]; by zdecide.
  - rewrite decide_False by done. destruct (pending_cons _ _ _ HP) as (Hlt & _ & _).
    destruct N as [|N]; [simpl in HN; lia|]. cbn [read_stream_loop]. zdecide.
    rewrite <- (pending_left _ _ HP). unfold slip_decode. by rewrite Hdebug.
Qed.

Lemma upper7_loop_rx rest : forall N x s r ps s' r',
  pending (with_src x s) rest -> (length rest <= N)%nat ->
  rxs s r rest = Some (ps, s', r') ->
  exists x', deliver N (upper7_loop gettime_ms debug (length rest) (with_src x s) r)
    = Some (ps, with_src x' s', r').
Proof.
  induction rest as [|c rest IH]; intros N x s r ps s' r' HP HN.
  { cbn [rx_bytes length upper7_loop]. intros [= <- <- <-]. pose proof (pending_nil _ HP). zdecide.
    exists x. unfold deliver. cbn [mbind option_bind Z.eqb].
    rewrite (read_stream_loop_more N x s r []) by done. done. }
  destruct (pending_cons _ _ _ HP) as (Hlt & Hg & Hadv).
  cbn [upper7_loop length rx_bytes]. zdecide. rewrite Hg. cbn [mbind option_bind].
  set (x1 := mk_source (x_src x) (x_size x) (x_offset x + 1)).
  change (set_src_offset (with_src x s) (src_offset (with_src x s) + 1)) with (with_src x1 s).
  rewrite upper7_decode_src. unfold rx_byte.
  destruct (upper7_decode gettime_ms debug s r c) as [[[ret s1] r1]|]; [|done].
  assert (HP1 : pending (with_src x1 s1) rest)
    by (exact (Hadv (with_src x s1) (conj eq_refl (conj eq_refl (conj eq_refl eq_refl))))).
  cbn [fmap option_fmap option_map mbind option_bind]. cbn [length] in HN.
  change (dst (with_src x1 s1)) with (dst s1).
  change (packet_length (with_src x1 s1)) with (packet_length s1).
  change (crc (with_src x1 s1)) with (crc s1).
  assert (Hgo : forall q, ('(qs, s2, r2) ← rxs s1 r1 rest; Some ([] ++ qs, s2, r2)) = Some q ->
    exists x', deliver N (upper7_loop gettime_ms debug (length rest) (with_src x1 s1) r1)
      = Some (q.1.1, with_src x' q.1.2, q.2)).
  { intros q. destruct (rxs s1 r1 rest) as [[[qs s2] r2]|] eqn:E; [|done].
    cbn [mbind option_bind app]. intros [= <-]. cbn. apply IH; [done|lia|done]. }
  destruct (ret =? 1); [|intros E; exact (Hgo _ E)].
  destruct (Crc32_ComputeBuf 0 (dst s1) (packet_length s1)) as [c32|]; [|done].
  cbn [mbind option_bind]. destruct (negb (c32 =? crc s1)); [intros E; exact (Hgo _ E)|].
  unfold deliver at 1. cbn [mbind option_bind Z.eqb Pos.eqb].
  change (dst (with_src x1 s1)) with (dst s1).
  change (packet_length (with_src x1 s1)) with (packet_length s1).
  destruct (zslice (dst s1) 0 (packet_length s1)) as [p|]; [|done]. cbn [mbind option_bind].
  change (set_dst_offset (with_src x1 s1) 0) with (with_src x1 (set_dst_offset s1 0)).
  assert (HP2 : pending (with_src x1 (set_dst_offset s1 0)) rest) by by destruct HP1.
  rewrite (read_stream_loop_more N _ _ _ rest HP2) by lia.
  destruct (rxs (set_dst_offset s1 0) r1 rest) as [[[qs s2] r2]|] eqn:E; [|done].
  cbn [mbind option_bind app]. intros [= <- <- <-]. case_decide as Hr.
  - subst rest. cbn in E. injection E as <- <- <-. by exists x1.
  - destruct rest as [|c' rest]; [done|].
    destruct (IH (pred N) x1 (set_dst_offset s1 0) r1 qs s2 r2 HP2) as [x' ->];
      [simpl in *; lia|done|]. by exists x'.
Qed.

Lemma with_src_format s : encapsulator s = SLIP_FORMAT_UPPER7 ->
  exists x0, with_src x0 s = s.
Proof. intros E. exists (mk_source (src s) (src_size s) (src_offset s)). destruct s. by cbn in *; subst. Qed.

Lemma interface_read_stream_rx x s r b ps s' r' :
  rxs s r b = Some (ps, s', r') ->
  exists x', interface_read_stream gettime_ms debug (with_src x s) r b
    = Some (ps, with_src x' s', r').
Proof.
  intros E. unfold interface_read_stream.
  set (x1 := mk_source b (zlen b) 0).
  change (set_src (with_src x s) b (zlen b)) with (with_src x1 s).
  assert (HP : pending (with_src x1 s) b) by apply (pending_set_src (with_src x s) b).
  rewrite (read_stream_loop_more (S (length b)) x1 s r b HP) by lia. cbn [pred].
  case_decide as Hb; [|by apply upper7_loop_rx].
  subst b. cbn in E. injection E as <- <- <-. by exists x1.
Qed.

(** Text alone completes no packet, and what the loop makes of it is what the
    byte-wise receiver makes of it. *)
Lemma upper7_loop_text rest : forall x s r ret s' r',
  Forall (fun c => is_report_text c = true) rest -> pending (with_src x s) rest ->
  upper7_loop gettime_ms debug (length rest) (with_src x s) r = Some (ret, s', r') ->
  ret = 0 /\ exists x' s2, pending (with_src x' s2) [] /\ s' = with_src x' s2 /\
    rxs s r rest = Some ([], s2, r').
Proof.
  induction rest as [|c rest IH]; intros x s r ret s' r' Ht HP.
  { cbn [length upper7_loop rx_bytes]. pose proof (pending_nil _ HP). zdecide. intros [= <- <- <-].
    split; [done|]. by exists x, s. }
  apply Forall_cons in Ht as [Hc Ht]. destruct (pending_cons _ _ _ HP) as (Hlt & Hg & Hadv).
  cbn [upper7_loop length rx_bytes]. zdecide. rewrite Hg. cbn [mbind option_bind].
  set (x1 := mk_source (x_src x) (x_size x) (x_offset x + 1)).
  change (set_src_offset (with_src x s) (src_offset (with_src x s) + 1)) with (with_src x1 s).
  rewrite upper7_decode_src. destruct (upper7_decode gettime_ms debug s r c) as [[[ret1 s1] r1]|] eqn:E1; [|done].
  assert (HP1 : pending (with_src x1 s1) rest)
    by (exact (Hadv (with_src x s1) (conj eq_refl (conj eq_refl (conj eq_refl eq_refl))))).
  cbn [fmap option_fmap option_map mbind option_bind].
  assert (ret1 = 0) as ->.
  { revert E1. unfold is_report_text in Hc. zify_bool. unfold upper7_decode, upper7_report.
    generalize (parse_rfd900_rssi gettime_ms debug). intros parse. zdecide.
    repeat (case_match; simplify_eq; try done); cbn; intros; by repeat (case_match || simplify_option_eq). }
  cbn [Z.eqb]. intros E. destruct (IH x1 s1 r1 ret s' r' Ht HP1 E) as (-> & x2 & s2 & HP2 & -> & E2).
  split; [done|]. exists x2, s2. split_and!; [done|done|]. unfold rx_byte. rewrite E1. cbn [mbind option_bind Z.eqb].
  by rewrite E2.
Qed.

Lemma interface_read_stream_text x s r b qs st r' :
  Forall (fun c => is_report_text c = true) b ->
  interface_read_stream gettime_ms debug (with_src x s) r b = Some (qs, st, r') ->
  exists s2, rxs s r b = Some ([], s2, r') /\ qs = [] /\
    rssi_text st = rssi_text s2 /\ rssi_len st = rssi_len s2.
Proof.
  intros Ht. unfold interface_read_stream. set (x1 := mk_source b (zlen b) 0).
  change (set_src (with_src x s) b (zlen b)) with (with_src x1 s).
  assert (HP : pending (with_src x1 s) b) by apply (pending_set_src (with_src x s) b).
  rewrite (read_stream_loop_more (S (length b)) x1 s r b HP) by lia. cbn [pred].
  case_decide as Hb; [subst b; intros [= <- <- <-]; by exists s|]. unfold deliver.
  destruct (upper7_loop _ _ _ _ _) as [[[ret s1] r1]|] eqn:E; [|done]. cbn [mbind option_bind].
  destruct (upper7_loop_text _ _ _ _ _ _ _ Ht HP E) as (-> & x2 & s2 & HP2 & -> & E2). cbn [Z.eqb].
  rewrite (read_stream_loop_more (length b) x2 s2 r1 [] HP2) by (cbn; lia). rewrite decide_True by done.
  intros [= <- <- <-]. by exists s2.
Qed.
End upper7.

(** Successive reads from the descriptor, the decoder keeping its state. *)
Fixpoint read_chunks gettime_ms debug (s : slip_decode_state) (r : radio) (chunks : list (list Z))
    : option (list (list Z) * slip_decode_state * radio) :=
  match chunks with
  | [] => Some ([], s, r)
  | b :: chunks =>
      '(ps, s, r) ← interface_read_stream gettime_ms debug s r b;
      '(qs, s, r) ← read_chunks gettime_ms debug s r chunks;
      Some (ps ++ qs, s, r)
  end.

Lemma read_chunks_rx gettime_ms debug chunks : debug_slip debug = false -> forall x s r ps s' r',
  rx_bytes gettime_ms debug s r (concat chunks) = Some (ps, s', r') ->
  exists x', read_chunks gettime_ms debug (with_src x s) r chunks = Some (ps, with_src x' s', r').
Proof.
  intros Hd. induction chunks as [|b chunks IH]; intros x s r ps s' r'; cbn [concat read_chunks].
  { cbn. intros [= <- <- <-]. by exists x. }
  rewrite rx_bytes_app.
  destruct (rx_bytes _ _ s r b) as [[[p1 s1] r1]|] eqn:E1; [|done]. cbn [mbind option_bind].
  destruct (rx_bytes _ _ s1 r1 _) as [[[p2 s2] r2]|] eqn:E2; [|done]. cbn [mbind option_bind].
  intros [= <- <- <-].
  destruct (interface_read_stream_rx _ _ Hd x _ _ _ _ _ _ E1) as [x1 ->].
  cbn [mbind option_bind]. destruct (IH x1 _ _ _ _ _ E2) as [x2 ->]. by exists x2.
Qed.

(** [C4] The UPPER7 link delivers exactly the packets sent, in order: whatever pieces the
    frames arrive in, and whatever text of the radio, complete RSSI reports with their line ends
    included, is mixed into them, the receive loop hands over each packet of up to 2040 bytes
    once, and takes the same readings of the radio from the reports as from the text alone.
    It starts between two frames ([u7_ready]), and is found so again.
    Reports are those whose numbers fit an int (the text alone is read without undefined
    behaviour); config.debug.slip is off. *)
Theorem upper7_link gettime_ms debug ps chunks s r qs st r' :
  debug_slip debug = false -> u7_ready s ->
  Forall (fun p => are_bytes p /\ zlen p + 7 < OVERLAY_INTERFACE_RX_BUFFER_SIZE) ps ->
  frame_part (concat chunks) = concat (upper7_frame <$> ps) ->
  read_chunks gettime_ms debug s r [text_part (concat chunks)] = Some (qs, st, r') ->
  qs = [] /\ exists s', read_chunks gettime_ms debug s r chunks = Some (ps, s', r') /\ u7_ready s' /\
    rssi_text s' = rssi_text st /\ rssi_len s' = rssi_len st.
Proof.
  intros Hd Hs Hps Hw Ht.
  destruct (rx_frames gettime_ms debug ps s r Hs Hps) as (s1 & E & R). rewrite <- Hw in E.
  assert (HB : Forall is_frame_byte (frame_part (concat chunks))).
  { rewrite Hw. apply Forall_concat, Forall_fmap. eapply Forall_impl; [exact Hps|].
    intros p [Hp _]. by apply upper7_frame_bytes. }
  destruct (with_src_format s (ready_format _ Hs)) as [x0 Hx].
  cbn [read_chunks] in Ht. apply bind_Some in Ht as ([[q1 st1] r1] & Ht & E1). injection E1 as <- <- <-.
  rewrite <- Hx in Ht.
  destruct (interface_read_stream_text _ _ Hd _ _ _ _ _ _ _ (text_part_text _) Ht) as (s2 & E2 & -> & T1 & T2).
  split; [done|]. pose proof (rx_with_text _ _ _ _ _ _ _ _ _ _ _ HB E E2) as E'.
  destruct (read_chunks_rx _ _ _ Hd x0 _ _ _ _ _ E') as [x' E3]. rewrite Hx in E3.
  eexists. split; [exact E3|]. split; [by destruct R; split|]. by rewrite T1, T2.
Qed.

(** A whole report, with CR and LF, inside the first of two packets. *)
Definition demo_report : list Z := bytes_of_string
  "L/R RSSI: 48/200  L/R noise: 62/10 pkts: 0  txe=0 rxe=0 stx=0 srx=0 ecc=0/0 temp=21 dco=0" ++ [13; 10].

Lemma upper7_link_witness :
  let read := read_chunks (fun _ => 0) (mk_debug false false) (fresh_decoder SLIP_FORMAT_UPPER7) radio0 in
  let chunks := [take 5 (upper7_frame [65; 0; 255]) ++ take 20 demo_report;
                 drop 20 demo_report ++ drop 5 (upper7_frame [65; 0; 255]); upper7_frame [123; 125]] in
  exists st r', read [demo_report] = Some ([], st, r') /\ last_radio_temperature r' = 21 /\
  exists s', read chunks = Some ([[65; 0; 255]; [123; 125]], s', r') /\ u7_ready s' /\
    rssi_text s' = rssi_text st /\ rssi_len s' = rssi_len st.
Proof.
  intros read chunks.
  assert (Et : match read [demo_report] with Some (_, _, r') => last_radio_temperature r' | None => 0 end = 21)
    by (vm_compute; reflexivity).
  destruct (read [demo_report]) as [[[qs st] r']|] eqn:E; [|discriminate Et]. exists st, r'.
  destruct (upper7_link (fun _ => 0) (mk_debug false false) [[65; 0; 255]; [123; 125]] chunks
              (fresh_decoder SLIP_FORMAT_UPPER7) radio0 qs st r') as [-> H].
  - reflexivity.
  - split; reflexivity || (vm_compute; discriminate).
  - repeat constructor; lia.
  - vm_compute. reflexivity.
  - replace (text_part (concat chunks)) with demo_report by (vm_compute; reflexivity). exact E.
  - exact (conj eq_refl (conj Et H)).
Defined.

(** ** Safety of the decoder on any input *)

Record u7_inv (s : slip_decode_state) : Prop := {
  inv_dst : zlen (dst s) = OVERLAY_INTERFACE_RX_BUFFER_SIZE;
  inv_bytes : are_bytes (dst s);
  inv_text : zlen (rssi_text s) = RSSI_TEXT_SIZE;
  inv_len : 0 <= rssi_len s <= RSSI_TEXT_SIZE;
  inv_state : UPPER7_STATE_NOTINPACKET <= state s <= UPPER7_STATE_D7;
  inv_length : 0 <= packet_length s <= 0x3fff;
  inv_offset : 0 <= dst_offset s < OVERLAY_INTERFACE_RX_BUFFER_SIZE;
  inv_crc : 0 <= crc s < 2 ^ 32
}.

Lemma lor_lt_pow2 a b n : 0 <= n -> 0 <= a < 2 ^ n -> 0 <= b < 2 ^ n -> 0 <= Z.lor a b < 2 ^ n.
Proof.
  intros Hn Ha Hb. split; [apply Z.lor_nonneg; lia|].
  rewrite <- (Z.mod_small a (2 ^ n)), <- (Z.mod_small b (2 ^ n)) by lia.
  rewrite <- mod_pow2_lor by lia. apply Z.mod_pos_bound, Z.pow_pos_nonneg; lia.
Qed.

(** An update of [dst] inside the current block. *)
Lemma set_dst_inv s i d x : u7_inv s -> is_byte x -> zset (dst s) i x = Some d -> u7_inv (set_dst s d).
Proof.
  intros [] Hx E. split; cbn; auto.
  - by rewrite (zset_length _ _ _ _ E).
  - by eapply zset_Forall.
Qed.

Lemma or_dst_inv s i x : u7_inv s -> is_byte x -> 0 <= i < 7 ->
  dst_offset s + 7 < OVERLAY_INTERFACE_RX_BUFFER_SIZE ->
  exists s', or_dst s i x = Some s' /\ u7_inv s' /\ state s' = state s /\
    dst_offset s' = dst_offset s.
Proof.
  intros Hs Hx Hi Hr. pose proof Hs as []. unfold or_dst.
  destruct (zget_is_Some (dst s) (dst_offset s + i)) as [y Hy]; [lia|].
  rewrite Hy. cbn [mbind option_bind]. rewrite zset_Some by lia. eexists. split; [reflexivity|].
  split; [|done]. eapply set_dst_inv; [done| |by apply zset_Some; lia].
  apply lor_byte; [by eapply zget_Forall in Hy|done].
Qed.

Lemma put_dst_inv s i x : u7_inv s -> 0 <= i < 7 ->
  dst_offset s + 7 < OVERLAY_INTERFACE_RX_BUFFER_SIZE ->
  exists s', put_dst s i x = Some s' /\ u7_inv s' /\ state s' = state s /\
    dst_offset s' = dst_offset s.
Proof.
  intros Hs Hi Hr. pose proof Hs as []. unfold put_dst. rewrite zset_Some by lia.
  eexists. split; [reflexivity|]. split; [|done].
  eapply set_dst_inv; [done|apply u8_byte|by apply zset_Some; lia].
Qed.

Lemma next_state_inv s : u7_inv s -> state s < UPPER7_STATE_D7 -> u7_inv (next_state s).
Proof. intros [] H. split; cbn; auto. unfold UPPER7_STATE_NOTINPACKET in *. lia. Qed.

Lemma land_ones_byte x j : 0 <= j <= 8 -> is_byte (Z.land x (Z.ones j)).
Proof.
  intros Hj. rewrite Z.land_ones by lia. unfold is_byte.
  pose proof (Z.mod_pos_bound x (2 ^ j) ltac:(apply Z.pow_pos_nonneg; lia)).
  pose proof (Z.pow_le_mono_r 2 j 8). lia.
Qed.

Lemma upper7_split_inv s i b j lsh :
  u7_inv s -> 0 <= i < 6 -> 0 <= j <= 8 ->
  dst_offset s + 7 < OVERLAY_INTERFACE_RX_BUFFER_SIZE -> state s < UPPER7_STATE_D7 ->
  exists s', upper7_split s i b (7 - j) (Z.ones j) lsh = Some s' /\ u7_inv s'.
Proof.
  intros Hs Hi Hj Hr Hst. unfold upper7_split.
  destruct (or_dst_inv s i (Z.land (Z.shiftr b (7 - j)) (Z.ones j))) as (s1 & -> & I1 & E1 & E2);
    [done|by apply land_ones_byte|lia|lia|].
  cbn [mbind option_bind].
  destruct (put_dst_inv s1 (i + 1) (Z.shiftl b lsh)) as (s2 & -> & I2 & E3 & E4); [done|lia|lia|].
  cbn [mbind option_bind]. eexists. split; [reflexivity|]. apply next_state_inv; [done|lia].
Qed.

Lemma set_crc_inv s c x b k : u7_inv s -> state s < UPPER7_STATE_D7 ->
  c = crc s \/ c = 0 -> 0 <= b < 128 -> 0 <= k <= 25 -> x = Z.lor c (Z.shiftl b k) ->
  u7_inv (next_state (set_crc s x)).
Proof.
  intros Hs Hst Hc Hb Hk ->. apply next_state_inv; [|done]. destruct Hs. split; cbn; auto.
  apply lor_lt_pow2; [lia|destruct Hc as [->| ->]; lia|].
  rewrite Z.shiftl_mul_pow2 by lia. pose proof (Z.pow_pos_nonneg 2 k).
  split; [lia|]. pose proof (Z.pow_le_mono_r 2 k 25 ltac:(lia) ltac:(lia)).
  change (2 ^ 32) with (128 * 2 ^ 25). nia.
Qed.

Lemma reset_inv s : u7_inv s -> u7_inv (upper7_reset s).
Proof.
  intros []. split; cbn; auto; unfold UPPER7_STATE_NOTINPACKET, UPPER7_STATE_D7,
    OVERLAY_INTERFACE_RX_BUFFER_SIZE; lia.
Qed.

(** The next case of the switch, when it is one of the checksum or of the data. *)
Ltac crc_case :=
  match goal with |- exists _, (if state ?s =? ?c then _ else _) = _ /\ _ =>
    destruct (Z.eqb_spec (state s) c) as [E|_];
    [eexists; split; [reflexivity|];
     match goal with |- context [Z.shiftl ?b ?k] => apply (set_crc_inv s (crc s) _ b k) end;
     by auto || lia || rewrite E|]
  end.
Ltac split_case i j :=
  match goal with
  | |- exists _, (if state ?s =? ?c then upper7_split _ _ ?b _ _ _ else _) = _ /\ _ =>
    destruct (Z.eqb_spec (state s) c) as [E|_];
    [apply (upper7_split_inv s i b j (j + 1)); done || lia || by rewrite E|]
  end.

Lemma upper7_data_inv s b :
  u7_inv s -> upper7_out_of_range s = false -> 0 <= b < 128 ->
  exists s', upper7_data s b = Some s' /\ u7_inv s'.
Proof.
  intros Hs Hr Hb. pose proof Hs as []. pose proof Hr as Hr'.
  unfold upper7_out_of_range in Hr'. zify_bool.
  unfold upper7_data.
  destruct (Z.eqb_spec (state s) UPPER7_STATE_NOTINPACKET); [eauto|].
  destruct (Z.eqb_spec (state s) UPPER7_STATE_L1) as [E|_].
  { eexists. split; [reflexivity|]. apply next_state_inv; cbn; [|by rewrite E].
    split; cbn; auto. rewrite Z.shiftl_mul_pow2 by lia. lia. }
  destruct (Z.eqb_spec (state s) UPPER7_STATE_L2) as [E|_].
  { cbn [packet_length set_packet_length]. eexists. split; [reflexivity|].
    assert (Hl : u7_inv (set_packet_length s (Z.lor (packet_length s) b))).
    { split; cbn; auto. assert (0 <= Z.lor (packet_length s) b < 2 ^ 14) by (apply lor_lt_pow2; lia). lia. }
    case_match.
    - apply next_state_inv in Hl; [|cbn; by rewrite E]. destruct Hl. split; cbn; auto.
      done.
    - destruct Hl. split; cbn; auto. done. }
  destruct (Z.eqb_spec (state s) UPPER7_STATE_C1) as [E|_].
  { eexists. split; [reflexivity|].
    apply (set_crc_inv s 0 _ b 25); auto; try lia; [by rewrite E|].
    rewrite Z.lor_0_l. apply u32_id. rewrite Z.shiftl_mul_pow2 by lia. lia. }
  do 4 crc_case.
  destruct (Z.eqb_spec (state s) UPPER7_STATE_D0) as [E|_].
  { rewrite Hr. destruct (put_dst_inv s 0 (Z.shiftl b 1)) as (s1 & -> & I1 & E1 & _); [done|lia|lia|].
    eexists. split; [reflexivity|]. apply next_state_inv; [done|]. by rewrite E1, E. }
  split_case 0 1. split_case 1 2. split_case 2 3. split_case 3 4. split_case 4 5. split_case 5 6.
  destruct (Z.eqb_spec (state s) UPPER7_STATE_D7) as [E|_].
  { destruct (or_dst_inv s 6 (Z.land (Z.shiftr b 0) 0x7f)) as (s1 & -> & I1 & _ & E2);
      [done|by apply (land_ones_byte _ 7)|lia|lia|].
    eexists. split; [reflexivity|]. destruct I1. split; cbn; auto; [done|lia]. }
  eexists. split; [reflexivity|]. split; cbn; auto. done.
Qed.

Lemma report_safe (parse : list Z -> radio -> option radio) s r :
  u7_inv s ->
  match (t ← report_text (rssi_text s) (rssi_len s); r ← parse t r; Some (set_rssi s t 0, r)) with
  | Some (s', _) => u7_inv s'
  | None => exists t, report_text (rssi_text s) (rssi_len s) = Some t /\ parse t r = None
  end.
Proof.
  intros []. unfold RSSI_TEXT_SIZE in *.
  assert (exists t, report_text (rssi_text s) (rssi_len s) = Some t /\ zlen t = 256)
    as (t & Ht & Hlen).
  { unfold report_text, RSSI_TEXT_SIZE. rewrite zset_Some by (zcases; lia).
    eexists. split; [done|]. by rewrite length_insert. }
  rewrite Ht. cbn [mbind option_bind].
  destruct (parse t r) as [r'|] eqn:Ep; cbn [mbind option_bind]; [|eauto].
  split; cbn; auto. unfold RSSI_TEXT_SIZE. lia.
Qed.

(** [C35] One byte of the UPPER7 decoder, whatever the byte and whatever came before,
    stays inside the arrays of the state and keeps its invariant; only the line end
    of an RSSI report can be undefined, and only in parsing the report's numbers. *)
Theorem upper7_decode_safe gettime_ms debug s r c :
  u7_inv s -> is_byte c ->
  match upper7_decode gettime_ms debug s r c with
  | Some (ret, s', _) => u7_inv s' /\ ret = Zb (c =? 125)
  | None => (c = 13 \/ c = 10) /\
      exists t, report_text (rssi_text s) (rssi_len s) = Some t /\
        parse_rfd900_rssi gettime_ms debug t r = None
  end.
Proof.
  intros Hs Hc. pose proof Hs as []. unfold upper7_decode.
  destruct (Z.eqb_spec c 123) as [->|N1]; [by split; [split; cbn; auto; lia || done|]|].
  destruct (Z.eqb_spec c 125) as [->|N2]; [by split; [split; cbn; auto; lia || done|]|].
  unfold RSSI_TEXT_SIZE in *. destruct ((32 <=? c) && (c <=? 0x7f)) eqn:Et; zify_bool.
  { replace (if rssi_len s <? 0 then 0 else rssi_len s) with (rssi_len s) by (zcases; lia).
    destruct (Z.ltb_spec (rssi_len s) 256).
    - rewrite zset_Some by lia. cbn [mbind option_bind]. split; [|done].
      split; cbn; auto; [by rewrite length_insert|unfold RSSI_TEXT_SIZE; lia].
    - split; [|done]. split; cbn; auto. }
  destruct ((c =? 13) || (c =? 10)) eqn:El.
  - assert (Hl : c = 13 \/ c = 10) by (zify_bool; lia).
    pose proof (report_safe (parse_rfd900_rssi gettime_ms debug) s r Hs) as HR.
    change (t ← report_text (rssi_text s) (rssi_len s);
            r ← parse_rfd900_rssi gettime_ms debug t r; Some (set_rssi s t 0, r))
      with (upper7_report gettime_ms debug s r) in HR.
    destruct (upper7_report gettime_ms debug s r) as [[s' r']|]; cbn [mbind option_bind]; [|done].
    by zdecide.
  - cbn [mbind option_bind]. destruct (Z.ltb_spec c 0x80); [done|].
    unfold upper7_field. destruct (upper7_out_of_range s) eqn:Er.
    + cbn [mbind option_bind]. split; [by apply reset_inv|done].
    + destruct (upper7_data_inv s (Z.land c 0x7f) Hs Er) as (s' & -> & I);
        [apply land_7f_range|done].
Qed.

Lemma upper7_decode_safe_witness :
  match upper7_decode (fun _ => 0) (mk_debug false false)
          (fresh_decoder SLIP_FORMAT_UPPER7) radio0 255 with
  | Some (ret, s', _) => u7_inv s' /\ ret = Zb (255 =? 125)
  | None => (255 = 13 \/ 255 = 10) /\
      exists t, report_text (rssi_text (fresh_decoder SLIP_FORMAT_UPPER7))
                  (rssi_len (fresh_decoder SLIP_FORMAT_UPPER7)) = Some t /\
        parse_rfd900_rssi (fun _ => 0) (mk_debug false false) t radio0 = None
  end.
Proof.
  apply upper7_decode_safe; [|by split].
  split; try reflexivity; try (by split).
  apply Forall_replicate. by split.
Defined.

Lemma upper7_loop_step gettime_ms debug x s r c rest s1 r1 :
  pending (with_src x s) (c :: rest) ->
  upper7_decode gettime_ms debug s r c = Some (0, s1, r1) ->
  exists x1, pending (with_src x1 s1) rest /\
    upper7_loop gettime_ms debug (length (c :: rest)) (with_src x s) r
    = upper7_loop gettime_ms debug (length rest) (with_src x1 s1) r1.
Proof.
  intros HP E. destruct (pending_cons _ _ _ HP) as (Hlt & Hg & Hadv).
  exists (mk_source (x_src x) (x_size x) (x_offset x + 1)). split.
  - exact (Hadv (with_src x s1) (conj eq_refl (conj eq_refl (conj eq_refl eq_refl)))).
  - cbn [upper7_loop length]. zdecide. rewrite Hg. cbn [mbind option_bind].
    change (set_src_offset (with_src x s) (src_offset (with_src x s) + 1))
      with (with_src (mk_source (x_src x) (x_size x) (x_offset x + 1)) s).
    rewrite upper7_decode_src, E. done.
Qed.

(** A frame cut off after its first length byte makes the receiver checksum memory
    past [dst]: the end marker is accepted in any state and the length is not checked
    again.  An opening brace, any byte from 0x91 up and a closing brace are enough. *)
Theorem upper7_decode_overread gettime_ms debug s r k rest :
  debug_slip debug = false -> u7_ready s -> 17 <= k < 128 ->
  let wire := 123 :: Z.lor 0x80 k :: 125 :: rest in
  slip_decode gettime_ms debug (set_src s wire (zlen wire)) r = None.
Proof.
  intros Hd Hs Hk wire.
  destruct (with_src_format s (ready_format _ Hs)) as [x0 Hx].
  set (x := mk_source wire (zlen wire) 0).
  assert (Hset : set_src s wire (zlen wire) = with_src x s) by (rewrite <- Hx; done).
  rewrite Hset. assert (HP : pending (with_src x s) wire) by (rewrite <- Hset; apply pending_set_src).
  unfold slip_decode. change (encapsulator (with_src x s)) with SLIP_FORMAT_UPPER7.
  cbn [SLIP_FORMAT_SLIP SLIP_FORMAT_UPPER7 Z.eqb Pos.eqb]. rewrite Hd. cbn [mbind option_bind].
  rewrite (pending_left _ _ HP).
  change (length wire) with (length (123 :: Z.lor 0x80 k :: 125 :: rest)).
  set (s1 := header_state s UPPER7_STATE_L1 0 (crc s) (dst_offset s)).
  destruct (upper7_loop_step gettime_ms debug x s r 123 (Z.lor 0x80 k :: 125 :: rest) s1 r HP)
    as (x1 & HP1 & ->); [done|].
  destruct (data_byte k) as [Hdata Hk7]; [lia|].
  set (s2 := header_state s UPPER7_STATE_L2 (Z.shiftl k 7) (crc s) (dst_offset s)).
  destruct (upper7_loop_step gettime_ms debug x1 s1 r (Z.lor 0x80 k) (125 :: rest) s2 r HP1)
    as (x2 & HP2 & ->).
  { rewrite upper7_decode_data by done. unfold upper7_field. rewrite Hk7, out_of_range_false;
      [done|done|apply (ready_offset _ Hs)|apply (ready_room _ Hs)]. }
  destruct (pending_cons _ _ _ HP2) as (Hlt & Hg & _).
  cbn [upper7_loop length]. zdecide. rewrite Hg. cbn [mbind option_bind].
  set (s3 := set_src_offset _ _).
  change (upper7_decode gettime_ms debug s3 r 125)
    with (Some (1, set_state s3 UPPER7_STATE_NOTINPACKET, r)).
  cbn [mbind option_bind Z.eqb Pos.eqb].
  change (dst (set_state s3 UPPER7_STATE_NOTINPACKET)) with (dst s).
  change (packet_length (set_state s3 UPPER7_STATE_NOTINPACKET)) with (Z.shiftl k 7).
  unfold Crc32_ComputeBuf, zslice. rewrite (ready_dst _ Hs), Z.shiftl_mul_pow2 by lia.
  unfold OVERLAY_INTERFACE_RX_BUFFER_SIZE. by zdecide.
Qed.

Lemma upper7_decode_overread_witness :
  let wire := 123 :: Z.lor 0x80 100 :: 125 :: [] in
  slip_decode (fun _ => 0) (mk_debug false false)
    (set_src (fresh_decoder SLIP_FORMAT_UPPER7) wire (zlen wire)) radio0 = None.
Proof.
  apply (upper7_decode_overread _ _ (fresh_decoder SLIP_FORMAT_UPPER7) radio0 100 []);
    [done| |lia].
  split; reflexivity || (vm_compute; discriminate).
Defined.

#[local] Transparent parse_rfd900_rssi.

(** The link margin recorded from a report is that of the local radio alone:
    the remote pair of readings the report carries never changes it. *)
Theorem rssi_ignores_remote gettime_ms debug t r lrssi rrssi lnoise rnoise temp r' :
  sscanf rssi_format t = Some [lrssi; rrssi; lnoise; rnoise; temp] ->
  parse_rfd900_rssi gettime_ms debug t r = Some r' ->
  last_radio_rssi r' = Z.quot (10 * (lrssi - lnoise)) 19 /\ last_radio_temperature r' = temp.
Proof.
  unfold parse_rfd900_rssi. intros E. rewrite E. cbn [mbind option_bind].
  destruct (ci (lrssi - lnoise)) as [d|] eqn:Ed; [|done]. apply ci_inv in Ed as [-> _].
  cbn [mbind option_bind]. rewrite Z.ltb_irrefl.
  destruct (debug_packetradio debug); [by intros [= <-]|].
  destruct (30000 <? _); by intros [= <-].
Qed.

Lemma rssi_ignores_remote_witness :
  let t := bytes_of_string
    "L/R RSSI: 48/200  L/R noise: 62/10 pkts: 0  txe=0 rxe=0 stx=0 srx=0 ecc=0/0 temp=21 dco=0"
    ++ [0] in
  last_radio_rssi (mk_radio 0 (-7) 21 1) = Z.quot (10 * (48 - 62)) 19 /\
  last_radio_temperature (mk_radio 0 (-7) 21 1) = 21.
Proof.
  intros t. apply (rssi_ignores_remote (fun _ => 0) (mk_debug false false) t radio0 48 200 62 10 21);
    vm_compute; reflexivity.
Defined.
