(* ===== verification/Strlcpy.v ===== *)
(** Strlcpy: strlcpy.c, the replacement for systems without strlcpy.

    [dst] is the destination array, [src] the characters from the source pointer to
    the end of the object it points into. *)

From S2P Require Import Prelude Str.

(** The return value and the destination. *)
Definition strlcpy (dst src : list Z) (size : Z) : option (Z * list Z) :=
  len ← strlen src;
  if negb (size =? 0) then
    dst ← zblit dst 0 (take (Z.to_nat (if size - 1 <? len then size - 1 else len)) src);
    dst ← zset dst (size - 1) 0;
    Some (len, dst)
  else Some (len, dst).

Lemma strlcpy_spec dst t k :
  text t -> (0 < length dst)%nat ->
  let n := Nat.min (length t) (length dst - 1) in
  strlcpy dst (t ++ 0 :: k) (zlen dst) =
    Some (zlen t, <[(length dst - 1)%nat := 0]> (take n t ++ drop n dst)).
Proof.
  intros Ht Hd n. unfold strlcpy. rewrite strlen_text by done. cbn [mbind option_bind].
  destruct (Z.eqb_spec (zlen dst) 0); [lia |]. cbn [negb].
  replace (Z.to_nat _) with n by (unfold n; zcases; lia).
  rewrite take_app_le by (unfold n; lia).
  assert (Hn : length (take n t) = n) by (rewrite length_take; unfold n; lia).
  unfold zblit. rewrite Hn. rewrite (proj2 (Z.leb_le (0 + _) _)) by (unfold n; lia).
  cbn [Z.leb Z.compare andb mbind option_bind]. change (Z.to_nat 0) with 0%nat. cbn [Nat.add]. rewrite take_0. cbn [app].
  rewrite zset_Some by (rewrite length_app, Hn, length_drop; unfold n; lia). cbn [mbind option_bind].
  do 3 f_equal. lia.
Qed.

Lemma c_text_app t k : text t -> c_text (t ++ 0 :: k) = t.
Proof.
  induction 1 as [| c t Hc Ht IH]; [done |]. cbn [app c_text].
  rewrite (proj2 (Z.eqb_neq c 0) Hc). by rewrite IH.
Qed.

(** Copying into a zeroed array leaves the text, cut to what fits with its NUL. *)
Lemma strlcpy_zeroed size t k :
  text t -> (0 < size)%nat ->
  strlcpy (replicate size 0) (t ++ 0 :: k) (Z.of_nat size) =
    Some (zlen t, take (size - 1) t ++ replicate (size - Nat.min (length t) (size - 1)) 0).
Proof.
  intros Ht Hs. pose proof (strlcpy_spec (replicate size 0) t k Ht) as H.
  rewrite length_replicate in H. rewrite H by done. f_equal. f_equal.
  set (n := Nat.min (length t) (size - 1)).
  rewrite drop_replicate. assert (Hn : length (take n t) = n) by (rewrite length_take; unfold n; lia).
  rewrite insert_app_r_alt by (rewrite Hn; unfold n; lia). rewrite Hn.
  replace (take n t) with (take (size - 1) t).
  2: { unfold n. destruct (decide (length t <= size - 1)%nat).
       - rewrite Nat.min_l by lia. rewrite !take_ge by lia. done.
       - rewrite Nat.min_r by lia. done. }
  f_equal. apply list_eq. intros i. destruct (decide (i = size - 1 - n)%nat) as [-> |].
  - rewrite list_lookup_insert_eq by (rewrite length_replicate; unfold n; lia).
    symmetry. apply lookup_replicate_2. unfold n. lia.
  - by rewrite list_lookup_insert_ne.
Qed.

(** A text copied into a zeroed array by strlcpy reads back as the text, or as the part
    of it that fits, and the length returned is that of the whole text. *)
Theorem strlcpy_fresh size t k :
  text t -> (0 < size)%nat ->
  exists dst, strlcpy (replicate size 0) (t ++ 0 :: k) (Z.of_nat size) = Some (zlen t, dst) /\
    length dst = size /\ c_text dst = take (size - 1) t.
Proof.
  intros Ht Hs. eexists. split; [by apply strlcpy_zeroed |]. split.
  - rewrite length_app, length_take, length_replicate. lia.
  - replace (size - Nat.min (length t) (size - 1))%nat with (S (size - 1 - Nat.min (length t) (size - 1))) by lia.
    cbn [replicate]. apply c_text_app. by apply Forall_take.
Qed.

Lemma strlcpy_fresh_witness :
  exists dst, strlcpy (replicate 4 0) (bytes_of_string "555123" ++ 0 :: []) 4 = Some (6, dst) /\
    length dst = 4%nat /\ c_text dst = take 3 (bytes_of_string "555123").
Proof. apply (strlcpy_fresh 4 (bytes_of_string "555123") []); [repeat constructor; done | lia]. Defined.

(** The NUL is written at the end of the array only, so a text copied over a longer one
    keeps the tail of the longer one. *)
Theorem strlcpy_keeps_tail :
  let dst := bytes_of_string "123456" ++ [0; 0] in
  exists dst', strlcpy dst (bytes_of_string "99" ++ [0]) 8 = Some (2, dst') /\
    c_text dst' = bytes_of_string "993456".
Proof. eexists. split; vm_compute; reflexivity. Qed.
