(* ===== verification/SubscriberTree.v ===== *)
(** SubscriberTree: the subscriber directory of overlay_address.c.

    Known subscribers sit in a 16-way tree keyed by the nibbles of their 32-byte
    identifiers.  The heap objects [struct subscriber] are a store addressed by
    index (their identity), so that an update made through the tree is seen by
    whoever holds the pointer; the tree nodes, which nothing but the tree points
    to, are a nested inductive type.  Allocation is taken to succeed, as the
    source takes it to. *)

From S2P Require Import Prelude DataFormats.

(** The fields of [struct subscriber] that this file's code reads or writes. *)
Record subscriber := mk_subscriber {
  sid : list Z;
  abbreviate_len : nat;
  send_full : bool;
  reachable : Z;
  last_explained : Z
}.

Definition REACHABLE_SELF : Z := 1.
Definition REACHABLE : Z := 2 + 4 + 8.

Definition set_abbreviate_len (s : subscriber) (n : nat) : subscriber :=
  mk_subscriber (sid s) n (send_full s) (reachable s) (last_explained s).
Definition set_send_full (s : subscriber) (b : bool) : subscriber :=
  mk_subscriber (sid s) (abbreviate_len s) b (reachable s) (last_explained s).
Definition set_last_explained (s : subscriber) (t : Z) : subscriber :=
  mk_subscriber (sid s) (abbreviate_len s) (send_full s) (reachable s) t.

(** A slot of a tree node: [is_tree] tells the last case from the others. *)
#[warnings="-register-all"]
Inductive slot :=
| Empty
| Sub (i : nat)
| Node (slots : list slot).

Abbreviation tree_node := (list slot).
Definition empty_node : tree_node := replicate 16 Empty.

Definition get_nibble (sid : list Z) (pos : nat) : option nat :=
  byte ← sid !! Nat.div2 pos;
  let byte := if Nat.odd pos then byte else Z.shiftr byte 4 in
  Some (Z.to_nat (Z.land byte 15)).

(** [memcmp(a, b, len) == 0]. *)
Definition same_bytes (a b : list Z) (len : nat) : option bool :=
  if (len <=? length a)%nat && (len <=? length b)%nat
  then Some (bool_decide (take len a = take len b)) else None.

(** The loop of [find_subscriber] from [ptr = node], with [n] passes left before
    [pos] reaches [len*2].  The pointer returned, and the tree below [ptr] and the
    store afterwards. *)
Fixpoint find_loop (n : nat) (node : tree_node) (subs : list subscriber) (id : list Z)
    (len pos : nat) (create : bool) {struct n}
    : option (option nat * tree_node * list subscriber) :=
  match n with
  | O => Some (None, node, subs)
  | S n =>
      nibble ← get_nibble id pos;
      let pos := S pos in
      sl ← node !! nibble;
      match sl with
      | Node child =>
          '(r, child, subs) ← find_loop n child subs id len pos create;
          Some (r, <[nibble := Node child]> node, subs)
      | Empty =>
          if create then
            let i := length subs in
            Some (Some i, <[nibble := Sub i]> node,
                  subs ++ [mk_subscriber (take SID_SIZE id) pos false 0 0])
          else Some (None, node, subs)
      | Sub i =>
          s ← subs !! i;
          eq ← same_bytes (sid s) id len;
          if eq : bool then Some (Some i, node, subs)
          else if negb create then Some (None, node, subs)
          else
            nibble' ← get_nibble (sid s) pos;
            let new := <[nibble' := Sub i]> empty_node in
            let subs := <[i := set_abbreviate_len s (S pos)]> subs in
            '(r, new, subs) ← find_loop n new subs id len pos create;
            Some (r, <[nibble := Node new]> node, subs)
      end
  end.

(** The global tree and the objects it points to. *)
Record directory := mk_directory { root : tree_node; subscribers : list subscriber }.

Definition empty_directory : directory := mk_directory empty_node [].

Definition find_subscriber (d : directory) (id : list Z) (len : nat) (create : bool)
    : option (option nat * directory) :=
  let create := create && (len =? SID_SIZE)%nat in
  '(r, root, subs) ←
    find_loop (Nat.max 1 (len * 2)) (root d) (subscribers d) id len 0 create;
  Some (r, mk_directory root subs).

(** ** Walking the tree *)

Section walk.
(** The callback: the value it returns and its effect on a state. *)
Context {St : Type} (callback : nat -> St -> option (bool * St)).

(** [for (;i<e;i++)] over the slots from [i] on, [n] of them. *)
Fixpoint walk_slots (walk : tree_node -> option (list Z) -> St -> option (bool * St))
    (node : tree_node) (start : option (list Z)) (i n : nat) (st : St)
    : option (bool * St) :=
  match n with
  | O => Some (false, st)
  | S n =>
      sl ← node !! i;
      '(stop, st) ← (match sl with
        | Node child => walk child start st
        | Sub j => callback j st
        | Empty => Some (false, st)
        end);
      if stop : bool then Some (true, st)
      else walk_slots walk node None (S i) n st
  end.

Definition bound_nibble (id : option (list Z)) (pos len : nat) : option (option nat) :=
  match id with
  | Some id => if (pos <? len * 2)%nat then Some <$> get_nibble id pos else Some None
  | None => Some None
  end.

(** [depth] bounds the recursion; a tree is never deeper than an identifier. *)
Fixpoint walk_tree (depth : nat) (node : tree_node) (pos : nat) (start : option (list Z))
    (start_len : nat) (last : option (list Z)) (end_len : nat) (st : St)
    : option (bool * St) :=
  match depth with
  | O => None
  | S depth =>
      i ← bound_nibble start pos start_len;
      e ← bound_nibble last pos end_len;
      let i := default 0%nat i in
      let e := match e with Some x => S x | None => 16%nat end in
      walk_slots
        (fun child start st => walk_tree depth child (S pos) start start_len last end_len st)
        node start i (e - i) st
  end.
End walk.

Definition TREE_DEPTH : nat := S (SID_SIZE * 2).

Definition enum_subscribers {St} (callback : nat -> St -> option (bool * St)) (d : directory)
    (start : nat) (st : St) : option (bool * St) :=
  s ← subscribers d !! start;
  walk_tree callback TREE_DEPTH (root d) 0 (Some (sid s)) SID_SIZE None 0 st.

(** * Identifiers as nibbles *)

Definition nibs (id : list Z) : list nat :=
  concat ((fun b => [Z.to_nat (Z.land (Z.shiftr b 4) 15); Z.to_nat (Z.land b 15)]) <$> id).

Lemma nibs_cons b id :
  nibs (b :: id) = Z.to_nat (Z.land (Z.shiftr b 4) 15) :: Z.to_nat (Z.land b 15) :: nibs id.
Proof. done. Qed.

Lemma nibs_length id : length (nibs id) = (2 * length id)%nat.
Proof. induction id; [done|]. rewrite nibs_cons. simpl. lia. Qed.

Lemma get_nibble_nibs id : forall pos, get_nibble id pos = nibs id !! pos.
Proof.
  unfold get_nibble. induction id as [|b id IH]; intros pos; [done|].
  rewrite nibs_cons. destruct pos as [|[|pos]]; [done|done|].
  change (Nat.div2 (S (S pos))) with (S (Nat.div2 pos)).
  change (Nat.odd (S (S pos))) with (Nat.odd pos). cbn [lookup list_lookup]. apply IH.
Qed.

Lemma land_15_lt z : (Z.to_nat (Z.land z 15) < 16)%nat.
Proof. rewrite land_15. pose proof (Z.mod_pos_bound z 16). lia. Qed.

Lemma nibs_lt id k n : nibs id !! k = Some n -> (n < 16)%nat.
Proof.
  rewrite <- get_nibble_nibs. unfold get_nibble.
  destruct (id !! Nat.div2 k); [|done]. intros [= <-]. apply land_15_lt.
Qed.

Lemma nibs_app a b : nibs (a ++ b) = nibs a ++ nibs b.
Proof. unfold nibs. by rewrite fmap_app, concat_app. Qed.

Lemma nibs_take n id : nibs (take n id) = take (2 * n) (nibs id).
Proof.
  revert id. induction n as [|n IH]; intros [|b id]; [done..|].
  change (take (S n) (b :: id)) with (b :: take n id). rewrite !nibs_cons, IH.
  by replace (2 * S n)%nat with (S (S (2 * n))) by lia.
Qed.

Lemma byte_nibbles b c : is_byte b -> is_byte c ->
  Z.to_nat (Z.land (Z.shiftr b 4) 15) = Z.to_nat (Z.land (Z.shiftr c 4) 15) ->
  Z.to_nat (Z.land b 15) = Z.to_nat (Z.land c 15) -> b = c.
Proof.
  unfold is_byte. rewrite !land_15, !Z.shiftr_div_pow2 by lia. change (2 ^ 4) with 16.
  intros. Z.to_euclidean_division_equations. lia.
Qed.

Lemma nibs_inj a b : are_bytes a -> are_bytes b -> nibs a = nibs b -> a = b.
Proof.
  intros Ha. revert b. induction Ha as [|x a Hx Ha IH]; intros b Hb E; destruct Hb as [|y b Hy Hb];
    [done..|]. rewrite !nibs_cons in E. injection E as E1 E2 E3.
  f_equal; [by apply byte_nibbles|by apply IH].
Qed.

(** * The invariant of the tree *)

(** [i] is below the slot. *)
Inductive in_slot (i : nat) : slot -> Prop :=
| in_sub : in_slot i (Sub i)
| in_child l k sl : l !! k = Some sl -> in_slot i sl -> in_slot i (Node l).

Abbreviation in_node i l := (in_slot i (Node l)).

(** The slot at path [p]: its subscribers carry [p] in front, are that far down,
    and a subtree holds at least two of them. *)
Inductive wf_slot (subs : list subscriber) : list nat -> slot -> Prop :=
| wf_empty p : wf_slot subs p Empty
| wf_sub p i s :
    subs !! i = Some s -> length (sid s) = SID_SIZE -> are_bytes (sid s) ->
    p `prefix_of` nibs (sid s) -> abbreviate_len s = length p ->
    wf_slot subs p (Sub i)
| wf_node p l i j :
    length l = 16%nat ->
    (forall k sl, l !! k = Some sl -> wf_slot subs (p ++ [k]) sl) ->
    i <> j -> in_node i l -> in_node j l ->
    wf_slot subs p (Node l).

(** A node without the requirement of two subscribers: the root, or a node that
    is being filled. *)
Definition wf_children (subs : list subscriber) (p : list nat) (l : tree_node) : Prop :=
  length l = 16%nat /\ forall k sl, l !! k = Some sl -> wf_slot subs (p ++ [k]) sl.

(** The directory: a well-formed tree that holds every subscriber of the store. *)
Record directory_wf (d : directory) : Prop := {
  wf_root : wf_children (subscribers d) [] (root d);
  wf_all : forall i, (i < length (subscribers d))%nat -> in_node i (root d)
}.

Lemma wf_slot_member subs p sl i :
  wf_slot subs p sl -> in_slot i sl ->
  exists s, subs !! i = Some s /\ length (sid s) = SID_SIZE /\ are_bytes (sid s) /\
    p `prefix_of` nibs (sid s) /\ (length p <= abbreviate_len s)%nat.
Proof.
  intros Hwf. revert i. induction Hwf as [p|p i s Hs Hl Hb Hp Ha|p l a b Hl Hc IH Hab Ha Hb];
    intros j Hj; inversion Hj; subst.
  - exists s. split_and!; auto. lia.
  - destruct (IH _ _ H0 _ H1) as (s & E1 & E2 & E3 & E4 & E5).
    rewrite length_app in E5. simpl in E5. exists s. split_and!; auto; [|lia].
    by eapply prefix_app_l.
Qed.

Lemma wf_children_member subs p l i :
  wf_children subs p l -> in_node i l ->
  exists s k sl, subs !! i = Some s /\ length (sid s) = SID_SIZE /\ are_bytes (sid s) /\
    p `prefix_of` nibs (sid s) /\ nibs (sid s) !! length p = Some k /\
    l !! k = Some sl /\ in_slot i sl /\ (length p < abbreviate_len s)%nat.
Proof.
  intros [Hl Hc] Hi. inversion Hi as [|? k sl Hk Hin]; subst.
  destruct (wf_slot_member _ _ _ _ (Hc _ _ Hk) Hin) as (s & E1 & E2 & E3 & [t E4] & E5).
  rewrite length_app in E5. simpl in E5.
  exists s, k, sl. rewrite E4, <- app_assoc. split_and!; auto; [by eexists| |lia].
  rewrite lookup_app_r, Nat.sub_diag by lia. done.
Qed.

(** The path decides the slot: a subscriber is only in the child of its nibble. *)
Lemma member_child subs p l i s k sl :
  wf_children subs p l -> subs !! i = Some s -> nibs (sid s) !! length p = Some k ->
  l !! k = Some sl -> in_node i l <-> in_slot i sl.
Proof.
  intros Hwf Hs Hk Hl. split.
  - intros Hi. destruct (wf_children_member _ _ _ _ Hwf Hi)
      as (s' & k' & sl' & E1 & _ & _ & _ & E4 & E5 & E6 & _). congruence.
  - intros Hi. by econstructor.
Qed.

(** Only the subscribers below a slot matter for it. *)
Lemma wf_slot_ext subs subs' p sl :
  wf_slot subs p sl -> (forall i, in_slot i sl -> subs' !! i = subs !! i) -> wf_slot subs' p sl.
Proof.
  intros Hwf. induction Hwf as [p|p i s Hs Hl Hb Hp Ha|p l a b Hl Hc IH Hab Ha Hb]; intros Hext.
  - constructor.
  - econstructor; eauto. rewrite Hext by constructor. done.
  - econstructor; eauto. intros k sl Hk. apply (IH k sl Hk). intros i Hi.
    apply Hext. by econstructor.
Qed.

Lemma lookup_slot subs p l k :
  wf_children subs p l -> (k < 16)%nat -> exists sl, l !! k = Some sl /\ wf_slot subs (p ++ [k]) sl.
Proof.
  intros [Hl Hc] Hk. destruct (lookup_lt_is_Some_2 l k) as [sl Hsl]; [lia|]. eauto.
Qed.

Lemma wf_node_children subs p l : wf_slot subs p (Node l) -> wf_children subs p l.
Proof. intros H. inversion H; subst. by split. Qed.

Lemma path_snoc id p k :
  p `prefix_of` nibs id -> nibs id !! length p = Some k -> (p ++ [k]) `prefix_of` nibs id.
Proof.
  intros [t E] Hk. rewrite E in *. rewrite lookup_app_r, Nat.sub_diag in Hk by lia.
  destruct t as [|x t]; [done|]. injection Hk as ->. exists t. by rewrite <- app_assoc.
Qed.

(** ** Lookup of an abbreviation *)

(** The first [len] bytes agree. *)
Definition matches (subs : list subscriber) (id : list Z) (len i : nat) : Prop :=
  exists s, subs !! i = Some s /\ take len (sid s) = take len id.

Lemma prefix_take {A} (p l : list A) n : p `prefix_of` l -> (length p <= n)%nat ->
  p `prefix_of` take n l.
Proof.
  intros [t ->] Hn. rewrite take_app_ge by lia. by eexists.
Qed.

(** A match on [len] bytes has the same nibbles that far. *)
Lemma matches_nibble subs id len i s pos :
  matches subs id len i -> subs !! i = Some s -> (pos < 2 * len)%nat ->
  nibs (sid s) !! pos = nibs id !! pos.
Proof.
  intros (s' & E1 & E2) Es Hp. rewrite Es in E1. injection E1 as <-.
  rewrite <- (lookup_take_lt (nibs (sid s)) (2 * len)), <- (lookup_take_lt (nibs id) (2 * len)) by lia.
  by rewrite <- !nibs_take, E2.
Qed.

Lemma two_match subs p l id len :
  wf_slot subs p (Node l) -> p = nibs (take len id) -> are_bytes id -> (len <= SID_SIZE)%nat ->
  (len <= length id)%nat ->
  forall i, in_node i l -> matches subs id len i.
Proof.
  intros Hwf -> Hb Hlen Hid i Hi.
  destruct (wf_slot_member _ _ _ _ Hwf Hi) as (s & E1 & E2 & E3 & [t E4] & E5).
  exists s. split; [done|]. apply nibs_inj; [by apply Forall_take..|].
  rewrite (nibs_take len (sid s)), E4, take_app_length'; [done|].
  rewrite nibs_length, length_take. lia.
Qed.

Lemma find_loop_abbrev n : forall node subs id len p pos,
  wf_children subs p node -> pos = length p -> p `prefix_of` nibs id -> are_bytes id ->
  (1 <= n)%nat -> (pos + n = 2 * len)%nat -> (len <= SID_SIZE)%nat -> (len <= length id)%nat ->
  exists r, find_loop n node subs id len pos false = Some (r, node, subs) /\
    forall i, r = Some i <->
      in_node i node /\ matches subs id len i /\
      forall j, in_node j node -> matches subs id len j -> j = i.
Proof.
  induction n as [|n IH]; intros node subs id len p pos Hwf -> Hp Hb Hn1 Hn Hlen Hid; [lia|].
  destruct (lookup_lt_is_Some_2 (nibs id) (length p)) as [k Hk]; [rewrite nibs_length; lia|].
  destruct (lookup_slot _ _ _ k Hwf (nibs_lt _ _ _ Hk)) as (sl & Hsl & Hw).
  cbn [find_loop]. rewrite get_nibble_nibs, Hk. cbn [mbind option_bind]. rewrite Hsl.
  cbn [mbind option_bind].
  (* A matching member of the node is in this slot. *)
  assert (Hin : forall i, in_node i node -> matches subs id len i -> in_slot i sl).
  { intros i Hi Hm. destruct (wf_children_member _ _ _ _ Hwf Hi)
      as (s & k' & sl' & E1 & _ & _ & _ & E4 & E5 & E6 & _).
    rewrite (matches_nibble _ _ _ _ _ _ Hm E1) in E4 by lia. congruence. }
  assert (Hup : forall i, in_slot i sl -> in_node i node) by (intros; by econstructor).
  destruct sl as [|i|child].
  - exists None. split; [done|]. intros i. split; [done|]. intros (H1 & H2 & _).
    specialize (Hin _ H1 H2). inversion Hin.
  - inversion Hw as [|? ? s Hs Hls Hbs Hps Has|]; subst. rewrite Hs. cbn [mbind option_bind].
    unfold same_bytes. rewrite Hls. rewrite (proj2 (Nat.leb_le len SID_SIZE)) by lia.
    rewrite (proj2 (Nat.leb_le len (length id))) by lia. cbn [andb mbind option_bind].
    case_bool_decide as Heq.
    + exists (Some i). split; [done|]. intros j. split.
      * intros [= <-]. split; [by apply Hup; constructor|]. split; [by exists s|].
        intros j Hj Hm. specialize (Hin _ Hj Hm). by inversion Hin.
      * intros (_ & _ & Hu). f_equal. apply Hu; [by apply Hup; constructor|by exists s].
    + exists None. split; [done|]. intros j. split; [done|]. intros (H1 & H2 & _).
      specialize (Hin _ H1 H2). inversion Hin; subst. destruct H2 as (s' & E & ?). congruence.
  - destruct n as [|n].
    + exists None. cbn [find_loop mbind option_bind]. rewrite list_insert_id by done.
      split; [done|]. intros i. split; [done|]. intros (H1 & H2 & Hu).
      inversion Hw as [| |? ? a b ? ? Hab Ha Hb']; subst.
      assert (Hall : forall j, in_node j child -> j = i).
      { intros j Hj. apply Hu; [by apply Hup|]. eapply two_match; eauto.
        rewrite nibs_take. replace (2 * len)%nat with (length (p ++ [k]))
          by (rewrite length_app; simpl; lia).
        destruct (path_snoc _ _ _ Hp Hk) as [t ->]. by rewrite take_app_length. }
      rewrite (Hall _ Ha), (Hall _ Hb') in Hab. done.
    + destruct (IH child subs id len (p ++ [k]) (S (length p))) as (r & E & Hr);
        [by apply wf_node_children|rewrite length_app; simpl; lia|by apply path_snoc|done|lia..|].
      rewrite E. cbn [mbind option_bind]. rewrite list_insert_id by done. exists r.
      split; [done|]. intros i. rewrite Hr. split.
      * intros (H1 & H2 & H3). split_and!; auto.
      * intros (H1 & H2 & H3). split_and!; auto.
Qed.

(** ** Insertion *)

(** The store after a lookup that may insert: as before, or with the new
    subscriber at its end and only abbreviation lengths changed before it. *)
Definition found_or_new (subs subs' : list subscriber) (node node' : tree_node) (id : list Z)
    (i : nat) : Prop :=
  (subs' = subs /\ node' = node /\ in_node i node) \/
  (i = length subs /\ length subs' = S (length subs) /\
   (forall j s, subs !! j = Some s -> exists a, subs' !! j = Some (set_abbreviate_len s a)) /\
   (forall j s, in_node j node -> subs !! j = Some s -> sid s <> id)).

Record find_result (subs : list subscriber) (p : list nat) (node : tree_node) (id : list Z)
    (i : nat) (node' : tree_node) (subs' : list subscriber) : Prop := {
  fr_wf : wf_children subs' p node';
  fr_members j : in_node j node' <-> in_node j node \/ j = i;
  fr_sid : exists s, subs' !! i = Some s /\ sid s = id;
  fr_change : found_or_new subs subs' node node' id i;
  fr_others j : (j < length subs)%nat -> ~ in_node j node -> subs' !! j = subs !! j
}.

Lemma in_node_insert l k sl sl' j :
  l !! k = Some sl -> (in_slot j sl -> in_slot j sl') ->
  in_node j l -> in_node j (<[k := sl']> l).
Proof.
  intros Hk Hm Hj. inversion Hj as [|? k' x Hk' Hin]; subst.
  destruct (decide (k' = k)) as [->|Hne].
  - econstructor; [by eapply list_lookup_insert_eq, lookup_lt_Some|].
    apply Hm. congruence.
  - econstructor; [by rewrite list_lookup_insert_ne|done].
Qed.

Lemma in_node_insert_iff l k sl sl' i j :
  l !! k = Some sl -> (forall j, in_slot j sl' <-> in_slot j sl \/ j = i) ->
  in_node j (<[k := sl']> l) <-> in_node j l \/ j = i.
Proof.
  intros Hk Hm. pose proof (lookup_lt_Some _ _ _ Hk). split.
  - intros Hj. inversion Hj as [|? k' x Hk' Hin]; subst.
    destruct (decide (k' = k)) as [->|Hne].
    + rewrite list_lookup_insert_eq in Hk' by done. injection Hk' as <-.
      apply Hm in Hin as [Hin| ->]; [left; by econstructor|by right].
    + rewrite list_lookup_insert_ne in Hk' by done. left. by econstructor.
  - intros [Hj| ->].
    + eapply in_node_insert; [done| |done]. intros. apply Hm. by left.
    + econstructor; [by apply list_lookup_insert_eq|]. apply Hm. by right.
Qed.

(** Replacing one slot of a node, when what changed in the store is below it or new. *)
Lemma wf_children_insert subs subs' p l k sl sl' :
  wf_children subs p l -> l !! k = Some sl -> wf_slot subs' (p ++ [k]) sl' ->
  (forall j, (j < length subs)%nat -> ~ in_slot j sl -> subs' !! j = subs !! j) ->
  wf_children subs' p (<[k := sl']> l).
Proof.
  intros Hwf Hk Hsl' Hsame. pose proof Hwf as [Hl Hc]. pose proof (lookup_lt_Some _ _ _ Hk) as Hlt.
  split; [by rewrite length_insert|]. intros k' x Hx.
  destruct (decide (k' = k)) as [->|Hne].
  - rewrite list_lookup_insert_eq in Hx by done. by injection Hx as <-.
  - rewrite list_lookup_insert_ne in Hx by done. apply wf_slot_ext with subs; [by apply Hc|].
    intros j Hj. destruct (wf_slot_member _ _ _ _ (Hc _ _ Hx) Hj) as (s & E1 & _ & _ & E4 & _).
    apply Hsame; [by eapply lookup_lt_Some|]. intros Hj'.
    destruct (wf_slot_member _ _ _ _ (Hc _ _ Hk) Hj') as (s' & E1' & _ & _ & E4' & _).
    rewrite E1 in E1'. injection E1' as <-.
    destruct E4 as [t1 E4], E4' as [t2 E4']. rewrite E4, <- !app_assoc in E4'.
    apply app_inj_1 in E4' as [_ E4']; [|done]. by injection E4'.
Qed.

Lemma not_in_empty i : ~ in_node i empty_node.
Proof.
  intros Hi. inversion Hi as [|? k sl Hk Hs]; subst.
  apply lookup_replicate in Hk as [-> _]. inversion Hs.
Qed.

Lemma wf_empty_children subs p : wf_children subs p empty_node.
Proof.
  split; [done|]. intros k sl [-> _]%lookup_replicate. constructor.
Qed.

Lemma different_sids_deep p a b :
  p `prefix_of` nibs a -> p `prefix_of` nibs b -> are_bytes a -> are_bytes b ->
  length a = SID_SIZE -> length b = SID_SIZE -> a <> b -> (length p < 64)%nat.
Proof.
  intros [t1 E1] [t2 E2] Ha Hb La Lb Hne. destruct (decide (length p < 64)%nat); [done|].
  exfalso. apply Hne, nibs_inj; auto.
  assert (L1 : length (p ++ t1) = 64%nat) by (rewrite <- E1, nibs_length, La; done).
  assert (L2 : length (p ++ t2) = 64%nat) by (rewrite <- E2, nibs_length, Lb; done).
  rewrite length_app in L1, L2.
  destruct t1; [|simpl in L1; lia]. destruct t2; [|simpl in L2; lia]. congruence.
Qed.

(** The three ends of the loop and its two ways on, one lemma each. *)
Section insertion.
Context (subs : list subscriber) (p : list nat) (node : tree_node) (id : list Z) (k : nat).
Hypothesis Hwf : wf_children subs p node.
Hypothesis Hb : are_bytes id.
Hypothesis Hid : length id = SID_SIZE.
Hypothesis Hp : p `prefix_of` nibs id.
Hypothesis Hk : nibs id !! length p = Some k.

Lemma sid_in_slot sl j s : node !! k = Some sl -> in_node j node -> subs !! j = Some s ->
  sid s = id -> in_slot j sl.
Proof.
  intros Hsl Hj Hs <-. by apply (member_child _ _ _ _ _ _ _ Hwf Hs Hk Hsl).
Qed.

Lemma insert_empty : node !! k = Some Empty ->
  find_result subs p node id (length subs) (<[k := Sub (length subs)]> node)
    (subs ++ [mk_subscriber (take SID_SIZE id) (S (length p)) false 0 0]).
Proof.
  intros Hsl. rewrite take_ge by lia. split.
  - eapply wf_children_insert; [done|done| |].
    + econstructor; [by rewrite lookup_app_r, Nat.sub_diag by lia|done|done| |].
      * by apply path_snoc.
      * rewrite length_app. simpl. lia.
    + intros j Hj _. by rewrite lookup_app_l.
  - intros j. apply (in_node_insert_iff _ _ Empty); [done|]. intros i. split.
    + intros H. inversion H. by right.
    + intros [H| ->]; [inversion H|constructor].
  - eexists. split; [by rewrite lookup_app_r, Nat.sub_diag by lia|done].
  - right. split_and!; auto.
    + rewrite length_app. simpl. lia.
    + intros j s Hs. exists (abbreviate_len s). rewrite lookup_app_l by by eapply lookup_lt_Some.
      rewrite Hs. by destruct s.
    + intros j s Hj Hs E. pose proof (sid_in_slot _ _ _ Hsl Hj Hs E) as H. inversion H.
  - intros j Hj _. by rewrite lookup_app_l.
Qed.

Lemma insert_found i s : node !! k = Some (Sub i) -> subs !! i = Some s -> sid s = id ->
  find_result subs p node id i node subs.
Proof.
  intros Hsl Hs E. assert (in_node i node) by (econstructor; [done|constructor]). split; auto.
  - intros j. split; [by left|]. intros [?| ->]; done.
  - by exists s.
  - by left.
Qed.

(** Descending into a child. *)
Lemma insert_below child i child' subs' :
  node !! k = Some (Node child) ->
  find_result subs (p ++ [k]) child id i child' subs' ->
  find_result subs p node id i (<[k := Node child']> node) subs'.
Proof.
  intros Hsl [F1 F2 F3 F4 F5].
  assert (Hw : wf_slot subs (p ++ [k]) (Node child)) by by apply Hwf. split; auto.
  - eapply wf_children_insert; [done|done| |done].
    inversion Hw as [| |? ? a b ? ? Hab Ha Hb']; subst. destruct F1 as [Hl Hc].
    apply wf_node with a b; auto; apply F2; by left.
  - intros j. by apply (in_node_insert_iff _ _ (Node child)).
  - destruct F4 as [(-> & -> & Hi)|(H1 & H2 & H3 & H4)].
    + left. rewrite list_insert_id by done. split_and!; auto. by econstructor.
    + right. split_and!; auto. intros j s Hj Hs E.
      refine (H4 j s _ Hs E). exact (sid_in_slot _ _ _ Hsl Hj Hs E).
  - intros j Hj Hn. apply F5; [done|]. intros Hc. apply Hn. by econstructor.
Qed.

(** Splitting a slot: the subscriber in it moves into a new node. *)
Lemma insert_split i s k' j new subs' :
  node !! k = Some (Sub i) -> subs !! i = Some s -> sid s <> id ->
  nibs (sid s) !! S (length p) = Some k' ->
  let subs1 := <[i := set_abbreviate_len s (S (S (length p)))]> subs in
  find_result subs1 (p ++ [k]) (<[k' := Sub i]> empty_node) id j new subs' ->
  find_result subs p node id j (<[k := Node new]> node) subs'.
Proof.
  intros Hsl Hs Hne Hk' subs1 [F1 F2 F3 F4 F5].
  assert (Hlt : (i < length subs)%nat) by by eapply lookup_lt_Some.
  assert (Hk16 : (k' < 16)%nat) by by eapply nibs_lt.
  assert (Hsub1 : subs1 !! i = Some (set_abbreviate_len s (S (S (length p)))))
    by by apply list_lookup_insert_eq.
  assert (Hone : forall x, in_node x (<[k' := Sub i]> empty_node) <-> x = i).
  { intros x. rewrite (in_node_insert_iff _ _ Empty _ i) by
      (by apply lookup_replicate_2 || (intros y; split; [intros H; inversion H; by right
        |intros [H| ->]; [inversion H|constructor]])).
    split; [intros [H|]; [by apply not_in_empty in H|done]|by right]. }
  assert (Hnew : j = length subs /\ length subs' = S (length subs) /\
    forall x t, subs1 !! x = Some t -> exists a, subs' !! x = Some (set_abbreviate_len t a)).
  { destruct F4 as [(-> & -> & Hi)|(-> & H2 & H3 & H4)].
    - apply Hone in Hi as ->. destruct F3 as (s' & E1 & E2). rewrite Hsub1 in E1.
      injection E1 as <-. done.
    - unfold subs1 in *. rewrite length_insert in *. auto. }
  destruct Hnew as (-> & Hlen & Hold).
  split; auto.
  - eapply wf_children_insert; [done|done| |].
    + destruct F1 as [Hl Hc]. apply wf_node with i (length subs); auto; [lia| |].
      * apply F2. left. by apply Hone.
      * apply F2. by right.
    + intros x Hx Hn. rewrite F5.
      * unfold subs1. apply list_lookup_insert_ne. intros ->. apply Hn. constructor.
      * unfold subs1. by rewrite length_insert.
      * rewrite Hone. intros ->. apply Hn. constructor.
  - intros x. apply (in_node_insert_iff _ _ (Sub i)); [done|]. intros y. rewrite F2, Hone.
    split; (intros [H| ->]; [|by right]); left; [subst; constructor|by inversion H].
  - right. split_and!; auto.
    + intros x t Ht. destruct (decide (x = i)) as [->|Hxi].
      * destruct (Hold i _ Hsub1) as [a Ha]. exists a. rewrite Hs in Ht. by injection Ht as <-.
      * apply Hold. unfold subs1. by rewrite list_lookup_insert_ne.
    + intros x t Hx Ht E. pose proof (sid_in_slot _ _ _ Hsl Hx Ht E) as H. inversion H; subst.
      congruence.
  - intros x Hx Hn. assert (x <> i) by (intros ->; apply Hn; econstructor; [done|constructor]).
    rewrite F5.
    + unfold subs1. by apply list_lookup_insert_ne.
    + unfold subs1. by rewrite length_insert.
    + by rewrite Hone.
Qed.
End insertion.

Lemma find_loop_create n : forall node subs id p,
  wf_children subs p node -> p `prefix_of` nibs id -> are_bytes id -> length id = SID_SIZE ->
  (1 <= n)%nat -> (length p + n = 64)%nat ->
  exists i node' subs',
    find_loop n node subs id SID_SIZE (length p) true = Some (Some i, node', subs') /\
    find_result subs p node id i node' subs'.
Proof.
  induction n as [|n IH]; intros node subs id p Hwf Hp Hb Hid Hn1 Hn; [lia|].
  destruct (lookup_lt_is_Some_2 (nibs id) (length p)) as [k Hk];
    [rewrite nibs_length, Hid; unfold SID_SIZE; lia|].
  destruct (lookup_slot _ _ _ k Hwf (nibs_lt _ _ _ Hk)) as (sl & Hsl & Hw).
  pose proof (path_snoc _ _ _ Hp Hk) as Hp'.
  assert (HL : S (length p) = length (p ++ [k])) by (rewrite length_app; simpl; lia).
  cbn [find_loop]. rewrite get_nibble_nibs, Hk. cbn [mbind option_bind]. rewrite Hsl.
  cbn [mbind option_bind]. destruct sl as [|i|child].
  - do 3 eexists. split; [reflexivity|]. by apply insert_empty.
  - inversion Hw as [|? ? s Hs Hls Hbs Hps Has|]; subst. rewrite Hs. cbn [mbind option_bind].
    unfold same_bytes. rewrite Hls, Hid, Nat.leb_refl. cbn [andb mbind option_bind].
    rewrite !take_ge by lia. case_bool_decide as Heq.
    { do 3 eexists. split; [reflexivity|]. by eapply insert_found. }
    cbn [negb]. pose proof (different_sids_deep _ _ _ Hps Hp' Hbs Hb Hls Hid Heq) as Hdeep.
    destruct (lookup_lt_is_Some_2 (nibs (sid s)) (S (length p))) as [k' Hk'];
      [rewrite nibs_length, Hls; unfold SID_SIZE; lia|].
    rewrite get_nibble_nibs, Hk'. cbn [mbind option_bind].
    set (subs1 := <[i := set_abbreviate_len s (S (S (length p)))]> subs).
    destruct (IH (<[k' := Sub i]> empty_node) subs1 id (p ++ [k])) as (j & new & subs' & E & HR);
      [|done..|lia|lia|].
    { eapply wf_children_insert; [apply (wf_empty_children subs1)
        |by apply lookup_replicate_2; eapply nibs_lt| |].
      - econstructor; [by apply list_lookup_insert_eq; eapply lookup_lt_Some|done|done| |].
        + cbn [sid set_abbreviate_len]. apply path_snoc; [done|]. by rewrite <- HL.
        + rewrite !length_app. simpl. lia.
      - done. }
    rewrite HL, E. cbn [mbind option_bind]. do 3 eexists. split; [reflexivity|].
    by eapply insert_split.
  - destruct n as [|n].
    { exfalso. inversion Hw as [| |? ? a b ? ? Hab Ha Hb']; subst.
      destruct (wf_children_member _ _ _ _ (wf_node_children _ _ _ Hw) Ha)
        as (s & k' & sl' & E1 & E2 & _ & _ & E4%lookup_lt_Some & _).
      rewrite nibs_length, E2 in E4. unfold SID_SIZE in E4. lia. }
    destruct (IH child subs id (p ++ [k])) as (j & new & subs' & E & HR);
      [by apply wf_node_children|done..|lia|lia|].
    rewrite HL, E. cbn [mbind option_bind]. do 3 eexists. split; [reflexivity|].
    by eapply insert_below.
Qed.

(** * The directory *)

(** The identifiers a directory knows, in the order it learnt them. *)
Definition known (d : directory) : list (list Z) := sid <$> subscribers d.

Lemma directory_wf_empty : directory_wf empty_directory.
Proof. split; [apply wf_empty_children|]. simpl. lia. Qed.

Lemma members_known d i : directory_wf d ->
  in_node i (root d) <-> (i < length (subscribers d))%nat.
Proof.
  intros [Hr Ha]. split; [|apply Ha]. intros Hi.
  destruct (wf_children_member _ _ _ _ Hr Hi) as (s & _ & _ & E & _). by eapply lookup_lt_Some.
Qed.

Lemma find_create_spec d id :
  directory_wf d -> are_bytes id -> length id = SID_SIZE ->
  exists i d', find_subscriber d id SID_SIZE true = Some (Some i, d') /\ directory_wf d' /\
    known d' = (if decide (id ∈ known d) then known d else known d ++ [id]) /\
    known d' !! i = Some id /\ (id ∈ known d -> d' = d).
Proof.
  intros Hd Hb Hid. pose proof Hd as [Hr Ha].
  destruct (find_loop_create 64 (root d) (subscribers d) id [] Hr) as (i & node' & subs' & E & HR);
    [apply prefix_nil|done|done|lia|done|].
  exists i, (mk_directory node' subs'). unfold find_subscriber.
  change (true && (SID_SIZE =? SID_SIZE)%nat) with true.
  change (Nat.max 1 (SID_SIZE * 2)) with 64%nat.
  change (length (@nil nat)) with 0%nat in E. rewrite E. cbn [mbind option_bind].
  destruct HR as [F1 F2 (s & F3 & F3') F4 F5]. split; [done|].
  assert (Hi : known (mk_directory node' subs') !! i = Some id).
  { unfold known. rewrite list_lookup_fmap. cbn [subscribers]. by rewrite F3, <- F3'. }
  destruct F4 as [(-> & -> & Hin)|(-> & H2 & H3 & H4)].
  - split; [by destruct d|]. rewrite decide_True.
    + split_and!; auto. by destruct d.
    + by eapply list_elem_of_lookup_2.
  - assert (Hnot : id ∉ known d).
    { intros [j (s' & -> & Hj)%list_lookup_fmap_Some]%list_elem_of_lookup.
      exact (H4 j s' (Ha _ (lookup_lt_Some _ _ _ Hj)) Hj eq_refl). }
    split_and!; auto; [|rewrite decide_False by done|done].
    + split; [done|]. cbn [subscribers root]. intros j Hj. apply F2.
      destruct (decide (j = length (subscribers d))); [by right|left; apply Ha; lia].
    + apply list_eq. intros j. unfold known in *. cbn [subscribers] in *.
      destruct (decide (j < length (subscribers d))%nat) as [Hj|Hj].
      * rewrite lookup_app_l by (rewrite length_fmap; lia). rewrite !list_lookup_fmap.
        destruct (lookup_lt_is_Some_2 _ _ Hj) as [t Ht]. destruct (H3 _ _ Ht) as [a Ea].
        by rewrite Ht, Ea.
      * rewrite lookup_app_r by (rewrite length_fmap; lia). rewrite length_fmap.
        destruct (decide (j = length (subscribers d))) as [->|Hne].
        -- by rewrite Nat.sub_diag.
        -- rewrite !lookup_ge_None_2; [done| |]; simpl; rewrite ?length_fmap; lia.
Qed.

(** [C32] Looking up a full identifier with [create] implements an append-only set of
    identifiers: it always returns the subscriber with that identifier, leaves the
    directory alone when it is known and otherwise adds exactly it, and the tree
    stays well formed. *)
Theorem find_subscriber_create d id :
  directory_wf d -> are_bytes id -> length id = SID_SIZE ->
  exists i d', find_subscriber d id SID_SIZE true = Some (Some i, d') /\ directory_wf d' /\
    known d' = (if decide (id ∈ known d) then known d else known d ++ [id]) /\
    known d' !! i = Some id /\ (id ∈ known d -> d' = d).
Proof. apply find_create_spec. Qed.

Lemma find_subscriber_create_witness :
  exists i d', find_subscriber empty_directory (replicate 32 7) SID_SIZE true = Some (Some i, d') /\
    directory_wf d' /\
    known d' = (if decide (replicate 32 7 ∈ known empty_directory) then known empty_directory
                else known empty_directory ++ [replicate 32 7]) /\
    known d' !! i = Some (replicate 32 7) /\
    (replicate 32 7 ∈ known empty_directory -> d' = empty_directory).
Proof.
  apply (find_subscriber_create empty_directory (replicate 32 7));
    [apply directory_wf_empty|by apply Forall_replicate|reflexivity].
Defined.

Lemma find_abbrev_spec d id len create :
  directory_wf d -> are_bytes id -> (1 <= len <= length id)%nat -> (len <= SID_SIZE)%nat ->
  create && (len =? SID_SIZE)%nat = false ->
  exists r, find_subscriber d id len create = Some (r, d) /\
    forall i, r = Some i <-> matches (subscribers d) id len i /\
      forall j, matches (subscribers d) id len j -> j = i.
Proof.
  intros Hd Hb Hl Hlen Hc. pose proof Hd as [Hr Ha]. unfold find_subscriber. rewrite Hc.
  destruct (find_loop_abbrev (len * 2) (root d) (subscribers d) id len [] 0 Hr)
    as (r & E & Hm); [done|apply prefix_nil|done|lia..|].
  replace (Nat.max 1 (len * 2)) with (len * 2)%nat by lia. rewrite E. cbn [mbind option_bind].
  exists r. split; [by destruct d|]. intros i. rewrite Hm.
  assert (HM : forall j, matches (subscribers d) id len j -> in_node j (root d)).
  { intros j (s & Es & _). apply Ha. by eapply lookup_lt_Some. }
  split; [intros (?&?&?)|intros (?&?)]; split_and!; eauto.
Qed.

(** Looking up an abbreviation never changes the directory and finds a subscriber
    exactly when it is the only one known whose identifier begins with it. *)
Theorem find_subscriber_abbrev d id len create :
  directory_wf d -> are_bytes id -> (1 <= len <= length id)%nat -> (len < SID_SIZE)%nat ->
  exists r, find_subscriber d id len create = Some (r, d) /\
    forall i, r = Some i <-> matches (subscribers d) id len i /\
      forall j, matches (subscribers d) id len j -> j = i.
Proof.
  intros ????. apply find_abbrev_spec; auto; [lia|].
  rewrite (proj2 (Nat.eqb_neq len SID_SIZE)) by lia. apply andb_false_r.
Qed.

(** Directories built by learning identifiers. *)
Definition learn (d : directory) (id : list Z) : directory :=
  match find_subscriber d id SID_SIZE true with Some (_, d') => d' | None => d end.

Lemma learn_wf d id : directory_wf d -> are_bytes id -> length id = SID_SIZE ->
  directory_wf (learn d id).
Proof.
  intros Hd Hb Hl. unfold learn.
  by destruct (find_create_spec d id Hd Hb Hl) as (i & d' & -> & Hd' & _).
Qed.

Definition sid_a : list Z := 0x12 :: replicate 31 0.
Definition sid_b : list Z := 0x13 :: replicate 31 0.
Definition two_subscribers : directory := learn (learn empty_directory sid_a) sid_b.

Lemma two_subscribers_wf : directory_wf two_subscribers.
Proof.
  apply learn_wf; [apply learn_wf; [apply directory_wf_empty| |done]| |done];
    repeat constructor; lia.
Qed.

Lemma find_subscriber_abbrev_witness :
  exists r, find_subscriber two_subscribers [0x13] 1 true = Some (r, two_subscribers) /\
    forall i, r = Some i <-> matches (subscribers two_subscribers) [0x13] 1 i /\
      forall j, matches (subscribers two_subscribers) [0x13] 1 j -> j = i.
Proof.
  apply (find_subscriber_abbrev two_subscribers [0x13] 1 true);
    [apply two_subscribers_wf|repeat constructor; lia|simpl; lia|unfold SID_SIZE; lia].
Defined.

(** Two subscribers that agree as far as one of them is down are the same. *)
Lemma abbrev_unique subs p sl : wf_slot subs p sl -> forall i j s t,
  in_slot i sl -> in_slot j sl -> subs !! i = Some s -> subs !! j = Some t ->
  take (abbreviate_len s) (nibs (sid t)) = take (abbreviate_len s) (nibs (sid s)) -> j = i.
Proof.
  induction 1 as [p|p a u Hs Hl Hb Hp Ha|p l a b Hl Hc IH Hab Ha Hb];
    intros i j s t Hi Hj Es Et Hm.
  - inversion Hi.
  - inversion Hi; inversion Hj; congruence.
  - assert (Hw : wf_children subs p l) by by split.
    destruct (wf_children_member _ _ _ _ Hw Hi) as (s' & k & sl & E1 & _ & _ & _ & E4 & E5 & E6 & E7).
    destruct (wf_children_member _ _ _ _ Hw Hj) as (t' & k' & sl' & E1' & _ & _ & _ & E4' & E5' & E6' & _).
    rewrite Es in E1. injection E1 as <-. rewrite Et in E1'. injection E1' as <-.
    assert (k' = k) as ->.
    { rewrite <- (lookup_take_lt (nibs (sid s)) (abbreviate_len s)) in E4 by lia.
      rewrite <- (lookup_take_lt (nibs (sid t)) (abbreviate_len s)), Hm in E4' by lia.
      congruence. }
    rewrite E5 in E5'. injection E5' as <-. by eapply (IH k sl E5).
Qed.

(** An abbreviation of the length a subscriber records is that of no other subscriber. *)
Lemma abbreviation_unique d i s id len j :
  directory_wf d -> subscribers d !! i = Some s -> (abbreviate_len s <= 2 * len)%nat ->
  take len id = take len (sid s) -> matches (subscribers d) id len j -> j = i.
Proof.
  intros Hd Hs Ha Hp (t & Ht & Hm). pose proof Hd as [Hr Hall].
  assert (Hi : in_node i (root d)) by (apply Hall; by eapply lookup_lt_Some).
  assert (Hj : in_node j (root d)) by (apply Hall; by eapply lookup_lt_Some).
  destruct (wf_children_member _ _ _ _ Hr Hi) as (s' & k & sl & E1 & _ & _ & _ & E4 & E5 & E6 & E7).
  rewrite Hs in E1. injection E1 as <-.
  assert (Hnib : take (abbreviate_len s) (nibs (sid t)) = take (abbreviate_len s) (nibs (sid s))).
  { rewrite <- (Nat.min_l (abbreviate_len s) (2 * len)), <- !take_take by lia.
    by rewrite <- !nibs_take, Hm, Hp. }
  refine (abbrev_unique _ _ sl (proj2 Hr _ _ E5) i j s t E6 _ Hs Ht Hnib).
  refine (proj1 (member_child _ _ _ _ _ k sl Hr Ht _ E5) Hj).
  rewrite <- (lookup_take_lt (nibs (sid s)) (abbreviate_len s)) in E4 by done.
  by rewrite <- (lookup_take_lt (nibs (sid t)) (abbreviate_len s)), Hnib by done.
Qed.

(** The abbreviation length a subscriber records is enough to find it. *)
Lemma find_by_abbreviation d i s id len create :
  directory_wf d -> subscribers d !! i = Some s -> (abbreviate_len s <= 2 * len)%nat ->
  (1 <= len <= SID_SIZE)%nat -> are_bytes id -> (len <= length id)%nat ->
  (len = SID_SIZE -> create = true -> length id = SID_SIZE) ->
  take len id = take len (sid s) -> find_subscriber d id len create = Some (Some i, d).
Proof.
  intros Hd Hs Ha Hlen Hb Hid Hfull Hp.
  pose proof (fun j => abbreviation_unique d i s id len j Hd Hs Ha Hp) as Hu.
  assert (Hm : matches (subscribers d) id len i) by by exists s.
  destruct (create && (len =? SID_SIZE)%nat) eqn:Hc.
  - apply andb_true_iff in Hc as [-> ->%Nat.eqb_eq].
    assert (id = sid s) as ->.
    { destruct (wf_children_member _ _ _ _ (wf_root _ Hd)
        (wf_all _ Hd _ (lookup_lt_Some _ _ _ Hs))) as (s' & _ & _ & E1 & E2 & _).
      rewrite Hs in E1. injection E1 as <-.
      rewrite !take_ge in Hp by (rewrite ?Hfull, ?E2; auto). done. }
    destruct (find_create_spec d (sid s) Hd Hb) as (j & d' & E & _ & _ & Hk & Hsame); [auto|].
    rewrite Hsame in * by (apply list_elem_of_lookup_2 with i; unfold known;
      by rewrite list_lookup_fmap, Hs).
    rewrite E. do 3 f_equal. apply Hu. unfold known in Hk.
    apply list_lookup_fmap_Some in Hk as (t & -> & Ht). by exists t.
  - destruct (find_abbrev_spec d id len create) as (r & E & Hr); auto; try lia.
    rewrite E. do 2 f_equal. by apply Hr.
Qed.

(** ** Walking *)

(** Call the callback on each subscriber in turn until it says stop. *)
Fixpoint run_until {St} (cb : nat -> St -> option (bool * St)) (vs : list nat) (st : St)
    : option (bool * St) :=
  match vs with
  | [] => Some (false, st)
  | i :: vs =>
      '(stop, st) ← cb i st;
      if stop : bool then Some (true, st) else run_until cb vs st
  end.

Lemma run_until_app {St} (cb : nat -> St -> option (bool * St)) vs ws st :
  run_until cb (vs ++ ws) st =
  '(stop, st) ← run_until cb vs st; if stop : bool then Some (true, st) else run_until cb ws st.
Proof.
  revert st. induction vs as [|i vs IH]; intros st; [done|]. cbn [app run_until].
  destruct (cb i st) as [[[] st1]|]; [done| |done]. cbn [mbind option_bind]. apply IH.
Qed.

Lemma bound_past id pos len : (len * 2 <= pos)%nat -> bound_nibble (Some id) pos len = Some None.
Proof. intros. unfold bound_nibble. by rewrite (proj2 (Nat.ltb_ge _ _)) by lia. Qed.

Lemma child_shallow subs p k child : wf_slot subs (p ++ [k]) (Node child) ->
  (length p < 63)%nat.
Proof.
  intros Hw. inversion Hw as [| |? ? a b ? ? Hab Ha Hb]; subst.
  destruct (wf_children_member _ _ _ _ (wf_node_children _ _ _ Hw) Ha)
    as (s & k' & sl' & E1 & E2 & _ & _ & E4%lookup_lt_Some & _).
  rewrite nibs_length, E2, length_app in E4. simpl in E4. unfold SID_SIZE in E4. lia.
Qed.

(** The walk of one slot, as the loop over the slots makes it. *)
Definition walk_slot {St} (cb : nat -> St -> option (bool * St))
    (walk : tree_node -> option (list Z) -> St -> option (bool * St)) (start : option (list Z))
    (sl : slot) (st : St) : option (bool * St) :=
  match sl with
  | Node child => walk child start st
  | Sub j => cb j st
  | Empty => Some (false, st)
  end.

(** Subscribers below two different slots of a node are different. *)
Lemma slots_disjoint subs p l k k' sl sl' i :
  wf_children subs p l -> l !! k = Some sl -> l !! k' = Some sl' ->
  in_slot i sl -> in_slot i sl' -> k = k'.
Proof.
  intros Hw Hk Hk' Hi Hi'.
  destruct (wf_slot_member _ _ _ _ (proj2 Hw _ _ Hk) Hi) as (s & E1 & _ & _ & [t E4] & _).
  destruct (wf_slot_member _ _ _ _ (proj2 Hw _ _ Hk') Hi') as (s' & E1' & _ & _ & [t' E4'] & _).
  rewrite E1 in E1'. injection E1' as <-. rewrite E4, <- !app_assoc in E4'.
  apply app_inj_1 in E4' as [_ E4']; [|done]. by injection E4'.
Qed.

(** The loop over [n] slots from [i] visits what is below them, if each is so visited. *)
Lemma walk_slots_visits subs p l n : forall i
  (walk : forall St, (nat -> St -> option (bool * St)) -> tree_node -> option (list Z) -> St -> option (bool * St))
  (start : option (list Z)),
  wf_children subs p l -> (i + n <= 16)%nat ->
  (forall k sl start', l !! k = Some sl -> start' = start \/ start' = None -> exists vs,
     NoDup vs /\ (forall j, j ∈ vs <-> in_slot j sl) /\
     forall St cb st, walk_slot cb (walk St cb) start' sl st = run_until cb vs st) ->
  exists vs, NoDup vs /\
    (forall j, j ∈ vs <-> exists k sl, (i <= k < i + n)%nat /\ l !! k = Some sl /\ in_slot j sl) /\
    forall St cb st, walk_slots cb (walk St cb) l start i n st = run_until cb vs st.
Proof.
  induction n as [|n IH]; intros i walk start Hw Hn Hslots.
  { exists []. split_and!; [constructor| |done]. intros j. split; [by intros ?%elem_of_nil|].
    intros (k & sl & ? & _). lia. }
  destruct (lookup_slot _ _ _ i Hw) as (sl & Hsl & _); [lia|].
  destruct (Hslots i sl start Hsl) as (vs & ND & Hin & Hrun); [by left|].
  destruct (IH (S i) walk None Hw) as (ws & ND' & Hin' & Hrun'); [lia| |].
  { intros k sl' start' Hk [->| ->]; apply (Hslots k sl'); auto. }
  exists (vs ++ ws). split_and!.
  - apply NoDup_app. split_and!; auto. intros j Hj1 Hj2.
    apply Hin in Hj1. apply Hin' in Hj2 as (k & sl' & Hk & Hsl' & Hj2).
    pose proof (slots_disjoint _ _ _ _ _ _ _ _ Hw Hsl Hsl' Hj1 Hj2). lia.
  - intros j. rewrite elem_of_app, Hin, Hin'. split.
    + intros [Hj|(k & sl' & Hk & Hsl' & Hj)]; [exists i, sl|exists k, sl']; split_and!; auto; lia.
    + intros (k & sl' & Hk & Hsl' & Hj). destruct (decide (k = i)) as [->|Hne].
      * left. congruence.
      * right. exists k, sl'. split_and!; auto; lia.
  - intros St cb st. cbn [walk_slots]. rewrite Hsl. cbn [mbind option_bind].
    fold (walk_slot cb (walk St cb) start sl st). rewrite Hrun, run_until_app.
    destruct (run_until cb vs st) as [[[] st1]|]; [done| |done]. cbn [mbind option_bind].
    apply Hrun'.
Qed.

(** Past the end of the abbreviations, a walk visits the whole subtree. *)
Lemma walk_tree_all depth : forall subs p l start last len,
  wf_children subs p l -> (depth + length p = TREE_DEPTH)%nat -> (length p < 64)%nat ->
  (len * 2 <= length p)%nat ->
  exists vs, NoDup vs /\ (forall j, j ∈ vs <-> in_node j l) /\
    forall St (cb : nat -> St -> option (bool * St)) st,
      walk_tree cb depth l (length p) start len (Some last) len st = run_until cb vs st.
Proof.
  induction depth as [|depth IH]; intros subs p l start last len Hw Hd Hp Hl;
    [unfold TREE_DEPTH, SID_SIZE in Hd; lia|].
  assert (Hst : bound_nibble start (length p) len = Some None)
    by (destruct start; [by apply bound_past|done]).
  destruct (walk_slots_visits subs p l 16 0
    (fun St cb child start st => walk_tree cb depth child (S (length p)) start len (Some last) len st)
    start Hw) as (vs & ND & Hin & Hrun); [lia| |].
  - intros k sl start' Hk _. pose proof (proj2 Hw _ _ Hk) as Hs. destruct sl as [|i|child].
    + exists []. split_and!; [constructor| |done]. intros j. split; [by intros ?%elem_of_nil|].
      intros H. inversion H.
    + exists [i]. split_and!; [apply NoDup_singleton| |].
      * intros j. rewrite list_elem_of_singleton. split; [intros ->; constructor|].
        intros H. by inversion H.
      * intros St cb st. cbn [walk_slot run_until]. by destruct (cb i st) as [[[] ?]|].
    + pose proof (child_shallow _ _ _ _ Hs).
      destruct (IH subs (p ++ [k]) child start' last len) as (vs & H1 & H2 & H3);
        [by apply wf_node_children|rewrite length_app; simpl; lia..|].
      exists vs. split_and!; auto. intros St cb st. cbn [walk_slot]. rewrite <- H3.
      by rewrite length_app, Nat.add_1_r.
  - exists vs. split_and!; auto.
    + intros j. rewrite Hin. split.
      * intros (k & sl & _ & Hk & Hj). by econstructor.
      * intros Hj. inversion Hj as [|? k sl Hk Hin']; subst. exists k, sl. split_and!; auto; [lia|].
        pose proof (lookup_lt_Some _ _ _ Hk) as Hlt. destruct Hw as [Hlen _]. lia.
    + intros St cb st. cbn [walk_tree]. rewrite Hst, bound_past by lia. cbn [mbind option_bind default].
      apply Hrun.
Qed.

(** The walk between two equal abbreviations follows them down, and then visits
    what it finds: one subscriber, or a whole subtree. *)
Lemma walk_tree_abbrev depth : forall subs p l id len,
  wf_children subs p l -> p `prefix_of` nibs id -> (depth + length p = TREE_DEPTH)%nat ->
  (length p < 64)%nat -> (length p < 2 * len)%nat -> (len <= length id)%nat -> (len <= SID_SIZE)%nat ->
  exists vs, NoDup vs /\
    (forall j, j ∈ vs <-> in_node j l /\ exists s, subs !! j = Some s /\
       take (Nat.min (abbreviate_len s) (2 * len)) (nibs (sid s))
       = take (Nat.min (abbreviate_len s) (2 * len)) (nibs id)) /\
    forall St (cb : nat -> St -> option (bool * St)) st,
      walk_tree cb depth l (length p) (Some id) len (Some id) len st = run_until cb vs st.
Proof.
  induction depth as [|depth IH]; intros subs p l id len Hw Hp Hd H64 Hlt Hid Hlen;
    [unfold TREE_DEPTH, SID_SIZE in Hd; lia|].
  destruct (lookup_lt_is_Some_2 (nibs id) (length p)) as [k Hk]; [rewrite nibs_length; lia|].
  destruct (lookup_slot _ _ _ k Hw (nibs_lt _ _ _ Hk)) as (sl & Hsl & Hs).
  pose proof (path_snoc _ _ _ Hp Hk) as Hp'.
  assert (HL : S (length p) = length (p ++ [k])) by (rewrite length_app; simpl; lia).
  set (agree := fun j => exists s, subs !! j = Some s /\
       take (Nat.min (abbreviate_len s) (2 * len)) (nibs (sid s))
       = take (Nat.min (abbreviate_len s) (2 * len)) (nibs id)).
  assert (Hslot : forall j, in_node j l -> agree j -> in_slot j sl).
  { intros j Hj (s & Es & Em).
    destruct (wf_children_member _ _ _ _ Hw Hj) as (s' & k' & sl' & E1 & _ & _ & _ & E4 & E5 & E6 & E7).
    rewrite Es in E1. injection E1 as <-.
    rewrite <- (lookup_take_lt (nibs (sid s)) (Nat.min (abbreviate_len s) (2 * len))), Em,
      lookup_take_lt in E4 by lia. congruence. }
  assert (Hrun : forall St (cb : nat -> St -> option (bool * St)) st,
    walk_tree cb (S depth) l (length p) (Some id) len (Some id) len st =
    '(stop, st) ← walk_slot cb (fun child start st =>
        walk_tree cb depth child (length (p ++ [k])) start len (Some id) len st) (Some id) sl st;
    if stop : bool then Some (true, st) else Some (false, st)).
  { intros. cbn [walk_tree]. unfold bound_nibble. rewrite (proj2 (Nat.ltb_lt _ _)) by lia.
    rewrite get_nibble_nibs, Hk. cbn [fmap option_fmap option_map mbind option_bind default].
    change (Datatypes.id k) with k. replace (S k - k)%nat with 1%nat by lia.
    cbn [walk_slots]. rewrite Hsl, HL. done. }
  assert (Hdone : forall vs, NoDup vs -> (forall j, j ∈ vs <-> in_slot j sl /\ agree j) ->
    (forall St (cb : nat -> St -> option (bool * St)) st,
       walk_slot cb (fun child start st =>
         walk_tree cb depth child (length (p ++ [k])) start len (Some id) len st) (Some id) sl st
       = run_until cb vs st) ->
    exists vs, NoDup vs /\ (forall j, j ∈ vs <-> in_node j l /\ agree j) /\
      forall St (cb : nat -> St -> option (bool * St)) st,
        walk_tree cb (S depth) l (length p) (Some id) len (Some id) len st = run_until cb vs st).
  { intros vs ND Hin Hwalk. exists vs. split_and!; auto.
    - intros j. rewrite Hin. split; intros [H1 H2]; split; auto. by econstructor.
    - intros. rewrite Hrun, Hwalk. by destruct (run_until cb vs st) as [[[] ?]|]. }
  destruct sl as [|i|child].
  - apply (Hdone []); [constructor| |done]. intros j. split; [by intros ?%elem_of_nil|].
    intros [H _]. inversion H.
  - apply (Hdone [i]); [apply NoDup_singleton| |].
    + intros j. rewrite list_elem_of_singleton. split; [|by intros [H _]; inversion H].
      intros ->. split; [constructor|].
      inversion Hs as [|? ? s Es _ _ Hps Ha|]; subst. exists s. split; [done|].
      rewrite Ha, <- HL, Nat.min_l, HL by lia.
      destruct Hps as [t1 ->], Hp' as [t2 ->]. by rewrite !take_app_length.
    + intros. cbn [walk_slot run_until]. by destruct (cb i st) as [[[] ?]|].
  - pose proof (child_shallow _ _ _ _ Hs). pose proof (wf_node_children _ _ _ Hs) as Hc.
    destruct (decide (length (p ++ [k]) < 2 * len)%nat) as [Hmore|Hend].
    + destruct (IH subs (p ++ [k]) child id len) as (vs & H1 & H2 & H3); [done|done|lia..|].
      apply (Hdone vs); auto.
    + destruct (walk_tree_all depth subs (p ++ [k]) child (Some id) id len)
        as (vs & H1 & H2 & H3); [done|lia..|].
      apply (Hdone vs); auto. intros j. rewrite H2. split; [|tauto]. intros Hj. split; [done|].
      destruct (wf_slot_member _ _ _ _ Hs Hj) as (s & Es & _ & _ & Hps & _).
      exists s. split; [done|]. rewrite <- !take_take.
      replace (2 * len)%nat with (length (p ++ [k])) by lia.
      destruct Hps as [t1 ->], Hp' as [t2 ->]. by rewrite !take_app_length.
Qed.

(** Walking the tree between two copies of an abbreviation calls the callback, in a
    fixed order and until it asks to stop, on each subscriber that agrees with the
    abbreviation as far as its place in the tree goes down: on every subscriber that
    matches, and on some that do not. *)
Theorem walk_abbreviation d id len :
  directory_wf d -> (1 <= len <= SID_SIZE)%nat -> (len <= length id)%nat ->
  exists vs, NoDup vs /\
    (forall i s, subscribers d !! i = Some s ->
       i ∈ vs <-> take (Nat.min (abbreviate_len s) (2 * len)) (nibs (sid s))
                  = take (Nat.min (abbreviate_len s) (2 * len)) (nibs id)) /\
    (forall i, matches (subscribers d) id len i -> i ∈ vs) /\
    forall St (cb : nat -> St -> option (bool * St)) st,
      walk_tree cb TREE_DEPTH (root d) 0 (Some id) len (Some id) len st = run_until cb vs st.
Proof.
  intros Hd Hl Hid. pose proof Hd as [Hr Ha].
  destruct (walk_tree_abbrev TREE_DEPTH (subscribers d) [] (root d) id len Hr)
    as (vs & H1 & H2 & H3); [apply prefix_nil|done|simpl; lia|simpl; lia|lia|lia|].
  assert (Hin : forall i s, subscribers d !! i = Some s -> i ∈ vs <->
    take (Nat.min (abbreviate_len s) (2 * len)) (nibs (sid s))
    = take (Nat.min (abbreviate_len s) (2 * len)) (nibs id)).
  { intros i s Es. rewrite H2. split.
    - intros [_ (s' & Es' & E)]. congruence.
    - intros E. split; [apply Ha; by eapply lookup_lt_Some|by exists s]. }
  exists vs. split_and!; auto.
  intros i (s & Es & Em). apply (Hin i s Es).
  by rewrite <- !take_take, <- !nibs_take, Em.
Qed.

Lemma walk_abbreviation_witness :
  exists vs, NoDup vs /\
    (forall i s, subscribers two_subscribers !! i = Some s ->
       i ∈ vs <-> take (Nat.min (abbreviate_len s) (2 * 1)) (nibs (sid s))
                  = take (Nat.min (abbreviate_len s) (2 * 1)) (nibs [0x12])) /\
    (forall i, matches (subscribers two_subscribers) [0x12] 1 i -> i ∈ vs) /\
    forall St (cb : nat -> St -> option (bool * St)) st,
      walk_tree cb TREE_DEPTH (root two_subscribers) 0 (Some [0x12]) 1 (Some [0x12]) 1 st
      = run_until cb vs st.
Proof.
  apply (walk_abbreviation two_subscribers [0x12] 1);
    [apply two_subscribers_wf|unfold SID_SIZE; lia|simpl; lia].
Defined.

(** A subscriber that does not match is visited: one known subscriber, asked for by
    an abbreviation that shares only its first nibble. *)
Lemma walk_visits_other :
  walk_tree (fun i l => Some (false, l ++ [i])) TREE_DEPTH
    (root (learn empty_directory sid_a)) 0 (Some [0x1f]) 1 (Some [0x1f]) 1 []
  = Some (false, [0%nat]).
Proof. vm_compute. reflexivity. Qed.

(** ** Changes that leave the tree alone *)

(** The same identifiers at the same depths. *)
Definition same_keys (subs subs' : list subscriber) : Prop :=
  length subs' = length subs /\
  forall i s, subs !! i = Some s -> exists s', subs' !! i = Some s' /\ sid s' = sid s /\
    abbreviate_len s' = abbreviate_len s.

Lemma same_keys_refl subs : same_keys subs subs.
Proof. split; [done |]. intros i s Hs. by exists s. Qed.

Lemma same_keys_trans subs1 subs2 subs3 : same_keys subs1 subs2 -> same_keys subs2 subs3 -> same_keys subs1 subs3.
Proof.
  intros [L1 H1] [L2 H2]. split; [congruence |]. intros i s Hs.
  destruct (H1 i s Hs) as (s1 & Hs1 & ? & ?), (H2 i s1 Hs1) as (s2 & Hs2 & ? & ?). exists s2. split_and!; congruence.
Qed.

Lemma same_keys_sym subs subs' : same_keys subs subs' -> same_keys subs' subs.
Proof.
  intros [Hl Hk]. split; [done|]. intros i s' Hs'.
  destruct (lookup_lt_is_Some_2 subs i) as [s Hs]; [rewrite <- Hl; by eapply lookup_lt_Some|].
  destruct (Hk i s Hs) as (s2 & Hs2 & E1 & E2). assert (s2 = s') as -> by congruence. by exists s.
Qed.

Lemma wf_slot_same_keys subs subs' p sl :
  same_keys subs subs' -> wf_slot subs p sl -> wf_slot subs' p sl.
Proof.
  intros [_ Hk]. induction 1 as [p|p i s Hs Hl Hb Hp Ha|p l a b Hl Hc IH Hab Ha Hb].
  - constructor.
  - destruct (Hk i s Hs) as (s' & E1 & E2 & E3). apply wf_sub with s'; congruence.
  - by apply wf_node with a b.
Qed.

Lemma directory_same_keys r subs subs' :
  same_keys subs subs' -> directory_wf (mk_directory r subs) -> directory_wf (mk_directory r subs').
Proof.
  intros Hk [[Hl Hc] Ha]. cbn [root subscribers] in *. split; cbn [root subscribers].
  - split; [done|]. intros k sl Hsl. eapply wf_slot_same_keys; eauto.
  - intros i Hi. apply Ha. destruct Hk as [<- _]. done.
Qed.

Lemma same_keys_insert subs i s s' :
  subs !! i = Some s -> sid s' = sid s -> abbreviate_len s' = abbreviate_len s ->
  same_keys subs (<[i := s']> subs).
Proof.
  intros Hs E1 E2. split; [apply length_insert|]. intros j t Ht.
  destruct (decide (j = i)) as [->|Hne].
  - exists s'. rewrite list_lookup_insert_eq by by eapply lookup_lt_Some.
    rewrite Hs in Ht. by injection Ht as <-.
  - exists t. by rewrite list_lookup_insert_ne.
Qed.

Lemma directory_member d i s : directory_wf d -> subscribers d !! i = Some s ->
  length (sid s) = SID_SIZE /\ are_bytes (sid s) /\ (1 <= abbreviate_len s <= 2 * SID_SIZE)%nat.
Proof.
  intros [Hr Ha] Hs. specialize (Ha i ltac:(by eapply lookup_lt_Some)).
  remember (root d) as l eqn:El. clear El.
  assert (Hgo : forall p sl, wf_slot (subscribers d) p sl -> in_slot i sl ->
    length (sid s) = SID_SIZE /\ are_bytes (sid s) /\ (abbreviate_len s <= 2 * SID_SIZE)%nat).
  { intros p sl. induction 1 as [p|p j t Ht Hlt Hbt Hp Hat|p l' a b Hl Hc IH Hab Ha' Hb'];
      intros Hi; inversion Hi; subst.
    - rewrite Hs in Ht. injection Ht as <-. split_and!; auto. rewrite Hat.
      apply prefix_length in Hp. rewrite nibs_length, Hlt in Hp. done.
    - eauto. }
  inversion Ha as [|? k sl Hk Hi]; subst. destruct (Hgo _ _ (proj2 Hr _ _ Hk) Hi) as (? & ? & ?).
  destruct (wf_children_member _ _ _ _ Hr Ha) as (s' & _ & _ & E1 & _ & _ & _ & _ & _ & _ & E7).
  rewrite Hs in E1. injection E1 as <-. simpl in E7. by split_and!; auto.
Qed.

(** No identifier is known twice. *)
Lemma sid_unique d i j s t :
  directory_wf d -> subscribers d !! i = Some s -> subscribers d !! j = Some t -> sid t = sid s -> j = i.
Proof.
  intros Hd Hs Ht E. destruct (directory_member _ _ _ Hd Hs) as (_ & _ & Ha).
  apply (abbreviation_unique d i s (sid s) SID_SIZE j Hd Hs); [lia | done |]. exists t. by rewrite E.
Qed.

(** A prefix that no other identifier has finds its subscriber. *)
Lemma find_unique d i s len :
  directory_wf d -> subscribers d !! i = Some s -> (1 <= len <= SID_SIZE)%nat ->
  (forall j t, subscribers d !! j = Some t -> take len (sid t) = take len (sid s) -> j = i) ->
  find_subscriber d (take len (sid s)) len true = Some (Some i, d).
Proof.
  intros Hd Hs Hlen Hu. destruct (directory_member _ _ _ Hd Hs) as (Hl & Hb & Ha).
  destruct (decide (len = SID_SIZE)) as [-> | Hne].
  - apply (find_by_abbreviation d i s); auto; try lia.
    + by apply Forall_take.
    + rewrite length_take. lia.
    + intros _ _. rewrite length_take. lia.
    + by rewrite take_take, Nat.min_id.
  - destruct (find_abbrev_spec d (take len (sid s)) len true) as (r & E & Hr); auto.
    + by apply Forall_take.
    + rewrite length_take. lia.
    + lia.
    + by rewrite (proj2 (Nat.eqb_neq len SID_SIZE)) by done.
    + rewrite E. do 2 f_equal. apply Hr. split; [exists s; by rewrite take_take, Nat.min_id |].
      intros j (t & Ht & Et). rewrite take_take, Nat.min_id in Et. eauto.
Qed.
