(* ===== verification/OverlayAddress.v ===== *)
(** OverlayAddress: overlay_address.c, addresses in packets.

    Addresses are appended to packets abbreviated to as many bytes as tell them
    apart, parsed through the subscriber directory of [SubscriberTree], and asked
    about (please-explain frames) when they cannot be resolved.  The code runs in
    a state and error monad [M] over [world]: the directory, the list of recent
    broadcasts, the memory of the packet buffers, and what was handed to other
    components (link_explained of the routing code, overlay_payload_enqueue of the
    queue).  [None] is undefined behaviour. *)

From S2P Require Import Prelude CMem OverlayBuffer OverlayBufferCodec DataFormats SubscriberTree.

Definition BROADCAST_LEN : nat := 8.
Definition MAX_BPIS : nat := 1024.
Definition BPI_MASK : Z := 0x3ff.
Definition OA_CODE_SELF : Z := 0xff.
Definition OA_CODE_PREVIOUS : Z := 0xfe.
Definition MDP_MTU : Z := 1200.
Definition OF_TYPE_PLEASEEXPLAIN : Z := 0x60.
Definition PAYLOAD_TTL_DEFAULT : Z := 31.
Definition OQ_MESH_MANAGEMENT : Z := 1.

(** The fields of [struct overlay_frame] that please-explain frames and the packet formats use. *)
Record overlay_frame := mk_frame {
  payload : option overlay_buffer;
  f_type : Z;
  source : option nat;
  source_full : bool;
  destination : option nat;
  ttl : Z;
  broadcast_id : list Z;
  destination_resolved : bool;
  next_hop : option nat;
  recvaddr : Z;
  f_interface : option Z;
  queue : Z;
  modifiers : Z;
  mdp_sequence : Z;
  f_packet_version : Z
}.

Definition zero_frame : overlay_frame :=
  mk_frame None 0 None false None 0 (replicate BROADCAST_LEN 0) false None 0 None 0 0 0 0.

Definition set_payload (f : overlay_frame) (p : option overlay_buffer) : overlay_frame :=
  mk_frame p (f_type f) (source f) (source_full f) (destination f) (ttl f) (broadcast_id f)
    (destination_resolved f) (next_hop f) (recvaddr f) (f_interface f) (queue f) (modifiers f)
    (mdp_sequence f) (f_packet_version f).
Definition set_source_full (f : overlay_frame) : overlay_frame :=
  mk_frame (payload f) (f_type f) (source f) true (destination f) (ttl f) (broadcast_id f)
    (destination_resolved f) (next_hop f) (recvaddr f) (f_interface f) (queue f) (modifiers f)
    (mdp_sequence f) (f_packet_version f).

(** [struct decode_context]; a socket address is one number. *)
Record decode_context := mk_context {
  interface : option Z;
  sender_interface : Z;
  packet_version : Z;
  encapsulation : Z;
  addr : Z;
  invalid_addresses : bool;
  please_explain : option overlay_frame;
  sender : option nat;
  previous : option nat
}.

Definition set_invalid (c : decode_context) : decode_context :=
  mk_context (interface c) (sender_interface c) (packet_version c) (encapsulation c) (addr c) true
    (please_explain c) (sender c) (previous c).
Definition set_please_explain (c : decode_context) (f : overlay_frame) : decode_context :=
  mk_context (interface c) (sender_interface c) (packet_version c) (encapsulation c) (addr c)
    (invalid_addresses c) (Some f) (sender c) (previous c).
Definition set_previous (c : decode_context) (s : option nat) : decode_context :=
  mk_context (interface c) (sender_interface c) (packet_version c) (encapsulation c) (addr c)
    (invalid_addresses c) (please_explain c) (sender c) s.

(** ** The monad *)

Record world := mk_world {
  w_dir : directory;
  w_bpi : list (list Z);
  w_mem : mem;
  w_ticks : nat;
  w_random : nat;
  w_links : list nat;
  w_sent : list overlay_frame
}.

Definition set_dir (w : world) (d : directory) : world :=
  mk_world d (w_bpi w) (w_mem w) (w_ticks w) (w_random w) (w_links w) (w_sent w).
Definition set_mem (w : world) (m : mem) : world :=
  mk_world (w_dir w) (w_bpi w) m (w_ticks w) (w_random w) (w_links w) (w_sent w).

Definition M (A : Type) : Type := world -> option (A * world).

#[export] Instance M_ret : MRet M := fun A x w => Some (x, w).
#[export] Instance M_bind : MBind M := fun A B f m w =>
  match m w with Some (x, w) => f x w | None => None end.

Definition undefined {A} : M A := fun _ => None.
Definition lift {A} (o : option A) : M A := fun w => x ← o; Some (x, w).

(** A lookup in the directory. *)
Definition find_sub (id : list Z) (len : nat) (create : bool) : M (option nat) := fun w =>
  '(r, d) ← find_subscriber (w_dir w) id len create; Some (r, set_dir w d).

(** The object behind a subscriber pointer, and an update of it. *)
Definition get_sub (i : nat) : M subscriber := fun w =>
  s ← subscribers (w_dir w) !! i; Some (s, w).
Definition put_sub (i : nat) (s : subscriber) : M unit := fun w =>
  Some (tt, set_dir w (mk_directory (root (w_dir w)) (<[i := s]> (subscribers (w_dir w))))).

(** An operation on a buffer in the memory of the world. *)
Definition on_buffer {A} (f : mem -> option (A * overlay_buffer * mem)) : M (A * overlay_buffer) :=
  fun w => '(a, b, m) ← f (w_mem w); Some (a, b, set_mem w m).

Section overlay_address.
Context `{Allocator}.
(** The clock, the random numbers, our own identity, and the payload queue. *)
Context (gettime_ms : nat -> Z) (random : nat -> Z) (my_subscriber : option nat).
Context (overlay_payload_enqueue : overlay_frame -> Z).

Definition now : M Z := fun w =>
  Some (gettime_ms (w_ticks w),
        mk_world (w_dir w) (w_bpi w) (w_mem w) (S (w_ticks w)) (w_random w) (w_links w) (w_sent w)).
Definition random_byte : M Z := fun w =>
  Some (Z.land (random (w_random w)) 0xff,
        mk_world (w_dir w) (w_bpi w) (w_mem w) (w_ticks w) (S (w_random w)) (w_links w) (w_sent w)).
Definition link_explained (i : nat) : M unit := fun w =>
  Some (tt, mk_world (w_dir w) (w_bpi w) (w_mem w) (w_ticks w) (w_random w) (w_links w ++ [i])
              (w_sent w)).
Definition enqueue (f : overlay_frame) : M Z := fun w =>
  let r := overlay_payload_enqueue f in
  Some (r, mk_world (w_dir w) (w_bpi w) (w_mem w) (w_ticks w) (w_random w) (w_links w)
             (if r =? 0 then w_sent w ++ [f] else w_sent w)).

(** ** Broadcasts *)

Fixpoint random_bytes (n : nat) : M (list Z) :=
  match n with
  | O => mret []
  | S n => x ← random_byte; l ← random_bytes n; mret (x :: l)
  end.

Definition overlay_broadcast_generate_address : M (list Z) := random_bytes BROADCAST_LEN.

Definition bpi_step (bpi_index byte : Z) : Z :=
  Z.lxor (Z.land (Z.shiftl bpi_index 3) 0xfff8 + Z.land (Z.shiftr bpi_index 13) 0x7) byte.

Definition bpi_hash (id : list Z) : Z := Z.land (fold_left bpi_step id 0) BPI_MASK.

(** 1 to drop, 0 for a new broadcast, which is remembered. *)
Definition overlay_broadcast_drop_check (bpilist : list (list Z)) (id : list Z)
    : option (Z * list (list Z)) :=
  let bpi_index := bpi_hash id in
  old ← zget bpilist bpi_index;
  if negb (bool_decide (old = id))
  then l ← zset bpilist bpi_index id; Some (0, l)
  else Some (1, bpilist).

Definition overlay_broadcast_append (b : overlay_buffer) (broadcast : list Z)
    : M (Z * overlay_buffer) :=
  on_buffer (fun m => ob_append_bytes b m broadcast (Z.of_nat BROADCAST_LEN)).

Definition overlay_broadcast_parse (b : overlay_buffer) : M (option (list Z) * overlay_buffer) :=
  fun w => r ← ob_get_bytes b (w_mem w) (Z.of_nat BROADCAST_LEN); Some (r, w).

(** ** Appending an address *)

(** The bytes of the identifier an address uses, and the subscriber afterwards. *)
Definition address_len (s : subscriber) : nat * subscriber :=
  if send_full s then (SID_SIZE, set_send_full s false)
  else
    let len := ((abbreviate_len s + 2) / 2)%nat in
    let len := if reachable s =? REACHABLE_SELF then S len else len in
    (if (SID_SIZE <? len)%nat then SID_SIZE else len, s).

Definition is_subscriber (p : option nat) (i : nat) : bool := bool_decide (p = Some i).

(** The return value, the context and the buffer. *)
Definition overlay_address_append (context : option decode_context) (b : overlay_buffer)
    (subscriber : option nat) : M (Z * option decode_context * overlay_buffer) :=
  match subscriber with
  | None => mret (-1, context, b)
  | Some i =>
      '(r, b) ← (
        if is_subscriber (context ≫= sender) i then
          on_buffer (fun m => ob_append_byte b m OA_CODE_SELF)
        else if is_subscriber (context ≫= previous) i then
          on_buffer (fun m => ob_append_byte b m OA_CODE_PREVIOUS)
        else
          s ← get_sub i;
          let '(len, s) := address_len s in
          _ ← put_sub i s;
          '(r, b) ← on_buffer (fun m => ob_append_byte b m (Z.of_nat len));
          if negb (r =? 0) then mret (r, b)
          else on_buffer (fun m => ob_append_bytes b m (sid s) (Z.of_nat len)));
      if negb (r =? 0) then mret (-1, context, b)
      else mret (0, (fun c => set_previous c (Some i)) <$> context, b)
  end.

(** ** Explaining *)

(** The frame of the context, allocated when there is none, with its payload
    limited to [limit] bytes. *)
Definition explain_frame (c : decode_context) (limit : Z) : overlay_frame :=
  match please_explain c with
  | Some f => f
  | None => set_payload zero_frame (snd (ob_limitsize ob_new limit))
  end.

(** An append to the payload of the frame of a context. *)
Definition append_payload (c : decode_context) (f : overlay_frame)
    (op : overlay_buffer -> mem -> option (Z * overlay_buffer * mem)) : M (Z * decode_context) :=
  match payload f with
  | None => undefined
  | Some b =>
      '(r, b) ← on_buffer (op b);
      mret (r, set_please_explain c (set_payload f (Some b)))
  end.

(** The callback of the tree walks; [true] stops the walk. *)
Definition add_explain_response (i : nat) (response : decode_context)
    : M (bool * decode_context) :=
  t ← now;
  s ← get_sub i;
  if t - last_explained s <? 500 then mret (false, response)
  else
    let s := set_last_explained s t in
    _ ← put_sub i s;
    let f := explain_frame response 1024 in
    let response := set_please_explain response f in
    let own := reachable s =? REACHABLE_SELF in
    _ ← (if own : bool then put_sub i (set_send_full s true) else mret tt);
    if own && is_subscriber my_subscriber i
    then mret (false, set_please_explain response (set_source_full f))
    else
      '(r, response) ← append_payload response f (fun b m => ob_append_byte b m (Z.of_nat SID_SIZE));
      if negb (r =? 0) then mret (true, response)
      else
        '(r, response) ← append_payload response (explain_frame response 1024)
          (fun b m => ob_append_bytes b m (sid s) (Z.of_nat SID_SIZE));
        if negb (r =? 0) then mret (true, response)
        else _ ← link_explained i; mret (false, response).

(** The walk over the subscribers an abbreviation leads to. *)
Definition explain_matching (id : list Z) (len : nat) (context : decode_context)
    : M decode_context := fun w =>
  '(_, (c, w)) ← walk_tree
    (fun i '(c, w) => '((stop, c), w) ← add_explain_response i c w; Some (stop, (c, w)))
    TREE_DEPTH (root (w_dir w)) 0 (Some id) len (Some id) len (context, w);
  Some (c, w).

(** [len] bytes at a pointer. *)
Definition read_bytes (p : ptr) (len : Z) : M (list Z) := fun w =>
  d ← loadbytes (w_mem w) p 0 len; Some (d, w).

(** [subscriber] is NULL, or a variable with a value; it returns that value too. *)
Definition find_subscr_buffer (context : decode_context) (b : overlay_buffer) (len : Z)
    (subscriber : option (option nat))
    : M (Z * decode_context * overlay_buffer * option (option nat)) :=
  if (len <=? 0) || (Z.of_nat SID_SIZE <? len) then mret (-1, context, b, subscriber)
  else
    '(id, b) ← lift (ob_get_bytes_ptr b len);
    match id with
    | None => mret (-1, context, b, subscriber)
    | Some p =>
        match subscriber with
        | None => mret (0, set_invalid context, b, subscriber)
        | Some _ =>
            id ← read_bytes p len;
            r ← find_sub id (Z.to_nat len) true;
            match r with
            | Some i => mret (0, set_previous context (Some i), b, Some (Some i))
            | None =>
                let context := set_invalid context in
                let context := set_please_explain context (explain_frame context MDP_MTU) in
                context ← explain_matching id (Z.to_nat len) context;
                '(_, context) ← append_payload context (explain_frame context MDP_MTU)
                  (fun b m => ob_append_byte b m len);
                '(_, context) ← append_payload context (explain_frame context MDP_MTU)
                  (fun b m => ob_append_bytes b m id len);
                mret (0, context, b, Some None)
            end
        end
    end.

Definition get_byte (b : overlay_buffer) : M (Z * overlay_buffer) := fun w =>
  r ← ob_get b (w_mem w); Some (r, w).

Definition overlay_address_parse (context : decode_context) (b : overlay_buffer)
    (subscriber : option (option nat))
    : M (Z * decode_context * overlay_buffer * option (option nat)) :=
  '(len, b) ← get_byte b;
  if len <? 0 then mret (-1, context, b, subscriber)
  else if len =? OA_CODE_SELF then
    match sender context with
    | None => mret (0, set_invalid context, b, subscriber)
    | Some i =>
        match subscriber with
        | None => undefined
        | Some _ => mret (0, set_previous context (Some i), b, Some (Some i))
        end
    end
  else if len =? OA_CODE_PREVIOUS then
    match previous context with
    | None => mret (0, set_invalid context, b, subscriber)
    | Some i =>
        match subscriber with
        | None => undefined
        | Some _ => mret (0, context, b, Some (Some i))
        end
    end
  else find_subscr_buffer context b len subscriber.

(** The frame as it is enqueued. *)
Definition send_please_explain (context : decode_context) (src dest : option nat) : M Z :=
  match please_explain context with
  | None => mret 0
  | Some f =>
      let src := match src with Some _ => src | None => my_subscriber end in
      let full := source_full f || bool_decide (sender context = None) in
      resolved ← (match dest with
        | Some i => s ← get_sub i; mret (negb (Z.land (reachable s) REACHABLE =? 0))
        | None => mret false
        end : M bool);
      f ← (if resolved : bool then
             mret (mk_frame (payload f) OF_TYPE_PLEASEEXPLAIN src full dest PAYLOAD_TTL_DEFAULT
                     (broadcast_id f) (destination_resolved f) (next_hop f) (recvaddr f)
                     (f_interface f) OQ_MESH_MANAGEMENT (modifiers f) (mdp_sequence f) (f_packet_version f))
           else
             bid ← overlay_broadcast_generate_address;
             mret (match interface context with
                   | Some i => mk_frame (payload f) OF_TYPE_PLEASEEXPLAIN src full dest 1 bid true
                                 dest (addr context) (Some i) OQ_MESH_MANAGEMENT (modifiers f) (mdp_sequence f)
                                 (f_packet_version f)
                   | None => mk_frame (payload f) OF_TYPE_PLEASEEXPLAIN src full dest 1 bid
                               (destination_resolved f) (next_hop f) (recvaddr f) (f_interface f)
                               OQ_MESH_MANAGEMENT (modifiers f) (mdp_sequence f) (f_packet_version f)
                   end) : M overlay_frame);
      r ← enqueue f;
      if r =? 0 then mret 0
      else
        _ ← ((fun w => '(_, m) ← ob_free (payload f) (w_mem w); Some (tt, set_mem w m)) : M unit);
        mret (-1)
  end.

(** [while(ob_remaining(b)>0)]: every pass reads at least one byte. *)
Fixpoint process_explain_loop (n : nat) (context : decode_context) (b : overlay_buffer)
    : M (option decode_context) :=
  rem ← lift (ob_remaining b);
  if rem <=? 0 then mret (Some context)
  else
    match n with
    | O => undefined
    | S n =>
        '(len, b) ← get_byte b;
        if (len <=? 0) || (Z.of_nat SID_SIZE <? len) then mret None
        else
          '(p, b) ← lift (ob_get_bytes_ptr b len);
          match p with
          | None => mret None
          | Some p =>
              id ← read_bytes p len;
              if len =? Z.of_nat SID_SIZE then
                _ ← find_sub id SID_SIZE true;
                process_explain_loop n context b
              else
                context ← explain_matching id (Z.to_nat len) context;
                process_explain_loop n context b
          end
    end.

Definition process_explain (src dest : option nat) (b : overlay_buffer) : M Z :=
  c ← process_explain_loop (Z.to_nat (sizeLimit b)) (mk_context None 0 0 0 0 false None src None) b;
  match c with
  | None => mret (-1)
  | Some context => _ ← send_please_explain context dest src; mret 0
  end.

End overlay_address.

(** * Broadcasts *)

Lemma bpi_hash_range id : 0 <= bpi_hash id < Z.of_nat MAX_BPIS.
Proof.
  unfold bpi_hash, BPI_MASK, MAX_BPIS. change 0x3ff with (Z.ones 10).
  rewrite Z.land_ones by lia. apply Z.mod_pos_bound. lia.
Qed.

Definition no_broadcast : list Z := replicate BROADCAST_LEN 0.

(** The broadcast a slot of the list holds after a history of checks. *)
Definition remembered (history : list (list Z)) (h : Z) : list Z :=
  default no_broadcast (last (List.filter (fun id => bpi_hash id =? h) history)).

Definition bpilist_of (history : list (list Z)) : list (list Z) :=
  (fun h => remembered history (Z.of_nat h)) <$> seq 0 MAX_BPIS.

Lemma bpilist_of_length history : length (bpilist_of history) = MAX_BPIS.
Proof. unfold bpilist_of. by rewrite length_fmap, length_seq. Qed.

Lemma bpilist_of_get history h : 0 <= h < Z.of_nat MAX_BPIS ->
  zget (bpilist_of history) h = Some (remembered history h).
Proof.
  intros Hh. unfold zget, bpilist_of. zdecide. rewrite list_lookup_fmap, lookup_seq_lt by lia.
  cbn [fmap option_fmap option_map]. do 2 f_equal. lia.
Qed.

Lemma remembered_snoc history id h :
  remembered (history ++ [id]) h = if bpi_hash id =? h then id else remembered history h.
Proof.
  unfold remembered. rewrite List.filter_app. cbn [List.filter].
  destruct (bpi_hash id =? h); [by rewrite last_snoc|by rewrite app_nil_r].
Qed.

Lemma bpilist_of_snoc history id :
  bpilist_of (history ++ [id]) = <[Z.to_nat (bpi_hash id) := id]> (bpilist_of history).
Proof.
  pose proof (bpi_hash_range id). apply list_eq. intros k.
  destruct (decide (k < MAX_BPIS)%nat) as [Hk|Hk].
  - unfold bpilist_of at 1. rewrite list_lookup_fmap, lookup_seq_lt by lia.
    cbn [fmap option_fmap option_map]. rewrite remembered_snoc.
    destruct (Z.eqb_spec (bpi_hash id) (Z.of_nat (0 + k))) as [E|E].
    + rewrite E, Nat2Z.id, list_lookup_insert_eq; [done|]. rewrite bpilist_of_length. lia.
    + rewrite list_lookup_insert_ne by lia. unfold bpilist_of.
      by rewrite list_lookup_fmap, lookup_seq_lt by lia.
  - rewrite !lookup_ge_None_2; [done| |]; rewrite ?length_insert, bpilist_of_length; lia.
Qed.

(** The list of recent broadcasts, after any history of checks, drops a broadcast
    exactly when it was the last one of its hash to be checked (or is the zero
    address, as the list starts out); no check leaves the list's bounds. *)
Theorem drop_check_correct history id :
  length id = BROADCAST_LEN ->
  overlay_broadcast_drop_check (bpilist_of history) id
  = Some (Zb (bool_decide (remembered history (bpi_hash id) = id)), bpilist_of (history ++ [id])).
Proof.
  intros Hid. pose proof (bpi_hash_range id) as Hh. unfold overlay_broadcast_drop_check.
  rewrite bpilist_of_get by done. cbn [mbind option_bind]. case_bool_decide as E; cbn [negb].
  - rewrite bpilist_of_snoc. do 2 f_equal. symmetry. apply list_insert_id.
    rewrite <- E at 2. pose proof (bpilist_of_get history _ Hh) as Hg. unfold zget in Hg.
    destruct (Z.leb_spec 0 (bpi_hash id)); [done|lia].
  - rewrite zset_Some by (rewrite bpilist_of_length; lia). cbn [mbind option_bind].
    by rewrite bpilist_of_snoc.
Qed.

Lemma drop_check_correct_witness :
  overlay_broadcast_drop_check (bpilist_of [[1; 2; 3; 4; 5; 6; 7; 8]]) [1; 2; 3; 4; 5; 6; 7; 8]
  = Some (1, bpilist_of ([[1; 2; 3; 4; 5; 6; 7; 8]] ++ [[1; 2; 3; 4; 5; 6; 7; 8]])).
Proof.
  refine (drop_check_correct [[1; 2; 3; 4; 5; 6; 7; 8]] [1; 2; 3; 4; 5; 6; 7; 8] _). reflexivity.
Defined.

(** The list as static storage starts it. *)
Lemma bpilist_of_nil : bpilist_of [] = replicate MAX_BPIS no_broadcast.
Proof. vm_compute. reflexivity. Qed.

(** * Address round trip *)

Lemma M_bind_Some {A B} (m : M A) (f : A -> M B) w x w1 :
  m w = Some (x, w1) -> (m ≫= f) w = f x w1.
Proof. intros E. unfold mbind, M_bind. by rewrite E. Qed.

Lemma ob_get_bytes_ptr_rest m b n d r :
  ob_wf m b -> ob_rest m b = Some (d ++ r) -> zlen d = n -> 0 < n -> position b + n <= INT_MAX ->
  exists p, ob_get_bytes_ptr b n = Some (Some p, set_position b (position b + n)) /\
    loadbytes m p 0 n = Some d /\
    ob_wf m (set_position b (position b + n)) /\ ob_rest m (set_position b (position b + n)) = Some r.
Proof.
  intros W Hr Hn Hpos HM. destruct (ob_wf_rest _ _ W) as (d' & Hd' & Hl & _).
  assert (d' = d ++ r) as -> by congruence. rewrite length_app in Hl.
  pose proof (wf_position _ _ W). unfold ob_get_bytes_ptr.
  rewrite test_offset_spec by (unfold INT_MIN; lia). cbn [mbind option_bind]. zdecide.
  destruct (bytes_at_split m (bytes b) (position b) (ob_read_end b - position b) n (d ++ r))
    as [E1 E2]; [lia|exact Hr|].
  rewrite take_app_length' in E1 by lia. rewrite drop_app_length' in E2 by lia.
  assert (W' : ob_wf m (set_position b (position b + n)))
    by (apply set_position_wf; [done | lia | pose proof (ob_read_end_range _ _ W); lia]).
  assert (R' : ob_rest m (set_position b (position b + n)) = Some r).
  { unfold ob_rest. cbn [bytes position set_position].
    change (ob_read_end (set_position b (position b + n))) with (ob_read_end b). rewrite <- E2. f_equal. lia. }
  destruct (bytes b) as [q|] eqn:Eq; [|cbn in E1; destruct (Z.eqb_spec n 0); [lia|done]].
  cbn [Z.eqb negb fmap option_fmap option_map]. eexists. split; [reflexivity|].
  split; [| by split]. cbn in E1. unfold loadbytes in *. cbn [p_blk p_off]. rewrite <- E1. by rewrite Z.add_0_r.
Qed.

Lemma address_len_spec d i s : directory_wf d -> subscribers d !! i = Some s ->
  let '(len, s') := address_len s in
  (1 <= len <= SID_SIZE)%nat /\ (abbreviate_len s <= 2 * len)%nat /\
  sid s' = sid s /\ abbreviate_len s' = abbreviate_len s.
Proof.
  intros Hd Hs. destruct (directory_member _ _ _ Hd Hs) as (_ & _ & Ha). unfold address_len.
  destruct (send_full s); [unfold SID_SIZE in *; cbn; split_and!; auto; lia|].
  pose proof (Nat.div_mod_eq (abbreviate_len s + 2) 2).
  pose proof (Nat.mod_upper_bound (abbreviate_len s + 2) 2).
  set (q := ((abbreviate_len s + 2) / 2)%nat) in *.
  destruct (reachable s =? REACHABLE_SELF);
    (case_match eqn:E; [apply Nat.ltb_lt in E|apply Nat.ltb_ge in E]);
    unfold SID_SIZE in *; split_and!; auto; lia.
Qed.

Section roundtrip.
Context `{Allocator}.
Context (gettime_ms : nat -> Z) (my_subscriber : option nat).
Hypothesis never : never_refuses.

Abbreviation parse := (overlay_address_parse gettime_ms my_subscriber).

(** There is room for [n] bytes more. *)
Definition fits_in (b : overlay_buffer) (n : Z) : Prop := ob_room b n = true /\ position b + n <= OB_MAX.

Lemma fits_in_le b n k : k <= n -> fits_in b n -> fits_in b k.
Proof. intros Hk [H1 H2]. split; [by eapply ob_room_le | lia]. Qed.

(** The bytes [d] were appended, and the directory has the same identifiers. *)
Record written (w : world) (b : overlay_buffer) (w' : world) (b' : overlay_buffer) (d : list Z) : Prop := {
  wr_wf : ob_wf (w_mem w') b';
  wr_dir : directory_wf (w_dir w');
  wr_keys : same_keys (subscribers (w_dir w)) (subscribers (w_dir w'));
  wr_bpi : w_bpi w' = w_bpi w;
  wr_position : position b' = position b + zlen d;
  wr_checkpoint : checkpointLength b' = checkpointLength b;
  wr_data : forall d0, ob_data (w_mem w) b = Some d0 -> ob_data (w_mem w') b' = Some (d0 ++ d);
  wr_fits : forall k, 0 <= k -> fits_in b (zlen d + k) -> fits_in b' k;
  wr_frame : forall k l, w_mem w !! k = Some l -> apart b k -> w_mem w' !! k = Some l /\ apart b' k
}.

Lemma written_nil w b : ob_wf (w_mem w) b -> directory_wf (w_dir w) -> written w b w b [].
Proof.
  intros W D. split; try done; [apply same_keys_refl | cbn; lia | intros d0 ->; by rewrite app_nil_r].
Qed.

Lemma written_trans w b w1 b1 d1 w2 b2 d2 :
  written w b w1 b1 d1 -> written w1 b1 w2 b2 d2 -> written w b w2 b2 (d1 ++ d2).
Proof.
  intros [A1 A2 A3 A0 A4 A5 A6 A7 A8] [B1 B2 B3 B0 B4 B5 B6 B7 B8]. split; try done.
  - by eapply same_keys_trans.
  - congruence.
  - rewrite B4, A4, length_app. lia.
  - congruence.
  - intros d0 Hd0. by rewrite (B6 _ (A6 _ Hd0)), app_assoc.
  - intros k Hk Hf. apply B7; [done |]. apply A7; [lia |]. eapply fits_in_le; [| exact Hf]. rewrite length_app. lia.
  - intros k l Hk Ha. destruct (A8 k l Hk Ha) as [Hk1 Ha1]. by apply B8.
Qed.

(** An append that has room. *)
Lemma append_written w b rd n d :
  ob_wf (w_mem w) b -> directory_wf (w_dir w) -> are_bytes d -> zlen d = n -> fits_in b n ->
  (forall b' m', made_space b b' (w_mem w) m' n -> rd m' = Some d) ->
  exists b' m', on_buffer (fun m => ob_append_from b m rd n) w = Some ((0, b'), set_mem w m') /\
    written w b (set_mem w m') b' d.
Proof.
  intros W Dw Hd Hl [HR HM] Hrd.
  pose proof (ob_append_from_spec b (w_mem w) rd n d never W Hd Hl HM Hrd) as HS.
  rewrite HR in HS. destruct HS as (b' & m' & E & W' & P' & L' & C' & S' & _ & A' & D' & F').
  exists b', m'. unfold on_buffer. rewrite E. cbn [mbind option_bind]. split; [done |].
  split; try done; [apply same_keys_refl | lia |].
  clear F'. intros k Hk [Hk1 Hk2]. split; [| lia]. apply ob_room_spec. apply ob_room_spec in Hk1.
  rewrite L', P', S'. destruct (ob_is_static b) eqn:Es.
  - rewrite A' by done. destruct Hk1 as [H1 [H2|H2]]; [|done]. lia.
  - destruct Hk1 as [H1 H2]. split; [lia|by right].
Qed.

Lemma append_byte_written w b x :
  ob_wf (w_mem w) b -> directory_wf (w_dir w) -> is_byte x -> fits_in b 1 ->
  exists b' m', on_buffer (fun m => ob_append_byte b m x) w = Some ((0, b'), set_mem w m') /\
    written w b (set_mem w m') b' [x].
Proof.
  intros W D Hx Hf. apply (append_written w b _ 1 [x]); auto. intros _ _ _. by rewrite u8_id.
Qed.

(** Bytes that can be read. *)
Definition readable (w : world) (b : overlay_buffer) (d : list Z) : Prop :=
  ob_wf (w_mem w) b /\ ob_rest (w_mem w) b = Some d.

Lemma readable_bound w b d : readable w b d -> position b + zlen d <= INT_MAX.
Proof.
  intros [W Hr]. destruct (ob_wf_rest _ _ W) as (d' & Hd' & Hl & _). assert (d' = d) as -> by congruence.
  pose proof (ob_read_end_range _ _ W). pose proof (wf_allocSize _ _ W). lia.
Qed.

(** What was appended since an earlier position can be read from there. *)
Lemma written_readable w b w' b' d :
  ob_wf (w_mem w) b -> written w b w' b' d -> exists r, readable w' (set_position b' (position b)) (d ++ r).
Proof.
  intros W Hw. destruct (ob_wf_data _ _ W) as (d0 & Hd0 & Hl0 & _).
  destruct (ob_rest_written _ _ _ _ (wr_wf _ _ _ _ _ Hw) (wr_data _ _ _ _ _ Hw d0 Hd0)) as (r & Hr & Wr).
  rewrite Hl0 in Hr, Wr. by exists r.
Qed.

Lemma get_byte_readable w b x r :
  readable w b (x :: r) -> exists b', get_byte b w = Some ((x, b'), w) /\ readable w b' r /\ position b' = position b + 1.
Proof.
  intros Hr. pose proof (readable_bound _ _ _ Hr) as Hb. cbn [length] in Hb. destruct Hr as [W Hr].
  destruct (ob_get_rest _ _ _ W Hr) as (E1 & E2 & E3); [lia |].
  exists (set_position b (position b + 1)). unfold get_byte. rewrite E1. done.
Qed.

(** The code for the subscriber [i] that a context, with its sender and previous address, and a
    directory resolve to it. *)
Inductive encodes (sdr prev : option nat) (subs : list subscriber) (i : nat) : list Z -> Prop :=
| encodes_self : sdr = Some i -> encodes sdr prev subs i [OA_CODE_SELF]
| encodes_previous : sdr <> Some i -> prev = Some i -> encodes sdr prev subs i [OA_CODE_PREVIOUS]
| encodes_sid len s : subs !! i = Some s -> (1 <= len <= SID_SIZE)%nat ->
    (forall j t, subs !! j = Some t -> take len (sid t) = take len (sid s) -> j = i) ->
    encodes sdr prev subs i (Z.of_nat len :: take len (sid s)).

Lemma encodes_keys sdr prev subs subs' i d :
  same_keys subs subs' -> encodes sdr prev subs i d -> encodes sdr prev subs' i d.
Proof.
  intros [Hn Hk] [| | len s Hs Hl Ha]; [by constructor | by constructor |].
  destruct (Hk i s Hs) as (s' & Hs' & Es & _). rewrite <- Es. apply encodes_sid; [done | done |].
  intros j t' Ht'. destruct (lookup_lt_is_Some_2 subs j) as [t Ht]; [rewrite <- Hn; by eapply lookup_lt_Some |].
  destruct (Hk j t Ht) as (t2 & Ht2 & Et & _). assert (t2 = t') as -> by congruence. rewrite Et, Es.
  by apply Ha.
Qed.

(** The same subscriber in the directories of two nodes, which may have met them in a different
    order; and for pointers that may be NULL. *)
Definition same_sub (subs subs' : list subscriber) (i i' : nat) : Prop :=
  exists s s', subs !! i = Some s /\ subs' !! i' = Some s' /\ sid s' = sid s.
Definition same_ptr (subs subs' : list subscriber) : option nat -> option nat -> Prop :=
  option_Forall2 (same_sub subs subs').

(** Whoever the receiver knows, the sender knows. *)
Definition knows_no_more (d' d : directory) : Prop := forall id, id ∈ known d' -> id ∈ known d.

Lemma same_sub_fun d d' i i' j' :
  directory_wf d' -> same_sub (subscribers d) (subscribers d') i i' ->
  same_sub (subscribers d) (subscribers d') i j' -> j' = i'.
Proof.
  intros D (s & s' & Hs & Hs' & E) (t & t' & Ht & Ht' & E'). assert (t = s) as -> by congruence.
  apply (sid_unique d' i' j' s' t' D Hs' Ht'). congruence.
Qed.

Lemma same_sub_inj d d' i j i' :
  directory_wf d -> same_sub (subscribers d) (subscribers d') i i' ->
  same_sub (subscribers d) (subscribers d') j i' -> j = i.
Proof.
  intros D (s & s' & Hs & Hs' & E) (t & t' & Ht & Ht' & E'). assert (t' = s') as -> by congruence.
  apply (sid_unique d i j s t D Hs Ht). congruence.
Qed.

(** The code of an address resolves to the same subscriber at a node that knows it, and
    knows nobody whom the sender does not know. *)
Lemma encodes_other d d' sdr prev sdr' prev' i i' l :
  directory_wf d -> directory_wf d' -> knows_no_more d' d ->
  same_sub (subscribers d) (subscribers d') i i' ->
  same_ptr (subscribers d) (subscribers d') sdr sdr' -> same_ptr (subscribers d) (subscribers d') prev prev' ->
  encodes sdr prev (subscribers d) i l -> encodes sdr' prev' (subscribers d') i' l.
Proof.
  intros D D' K Hi Hsd Hpr He.
  assert (Hp : forall o o', same_ptr (subscribers d) (subscribers d') o o' -> o = Some i -> o' = Some i').
  { intros o o' [x y Hxy |] [= ->]. f_equal. by apply (same_sub_fun d d' i i' y D' Hi). }
  destruct He as [Hs | Hs Hpv | len s Hs Hlen Hu].
  - apply encodes_self. eauto.
  - apply encodes_previous; [| eauto]. intros E. apply Hs. destruct Hsd as [x y Hxy |]; [| done].
    injection E as ->. f_equal. by apply (same_sub_inj d d' i x i' D Hi).
  - destruct Hi as (s0 & s' & Hs0 & Hs' & E). assert (s0 = s) as -> by congruence. rewrite <- E.
    apply encodes_sid; [done | done |]. intros j' t' Ht' Et.
    assert (Hk : sid t' ∈ known d).
    { apply K. apply list_elem_of_lookup. exists j'. unfold known. by rewrite list_lookup_fmap, Ht'. }
    apply list_elem_of_lookup in Hk as [j Hj]. unfold known in Hj. apply list_lookup_fmap_Some in Hj as (t & Etj & Ht).
    assert (j = i) as -> by (apply (Hu j t Ht); congruence). assert (t = s) as -> by congruence.
    apply (sid_unique d' i' j' s' t' D' Hs' Ht'). congruence.
Qed.

Lemma encodes_length sdr prev subs i d : encodes sdr prev subs i d -> zlen d <= 1 + Z.of_nat SID_SIZE.
Proof. intros [| | len s _ Hl _]; cbn [length]; rewrite ?length_take; unfold SID_SIZE in *; lia. Qed.

Lemma set_previous_id c i : previous c = Some i -> set_previous c (Some i) = c.
Proof. intros <-. by destruct c. Qed.

(** An address that was appended is parsed to its subscriber. *)
Lemma parse_encoded w c b i d r v :
  directory_wf (w_dir w) -> encodes (sender c) (previous c) (subscribers (w_dir w)) i d -> readable w b (d ++ r) ->
  exists b', parse c b (Some v) w = Some ((0, set_previous c (Some i), b', Some (Some i)), w) /\
    readable w b' r /\ position b' = position b + zlen d.
Proof.
  intros Hd He Hr. unfold overlay_address_parse. destruct He as [Hs | Hs Hp | len s Hs Hlen Ha].
  1, 2: destruct (get_byte_readable w b _ _ Hr) as (b1 & E1 & R1 & P1); rewrite (M_bind_Some _ _ _ _ _ E1);
    exists b1; cbn [OA_CODE_SELF OA_CODE_PREVIOUS Z.ltb Z.eqb Z.compare Pos.eqb].
  - by rewrite Hs.
  - rewrite Hp. by rewrite set_previous_id.
  - destruct (directory_member _ _ _ Hd Hs) as (Hl & Hb & _).
    cbn [app] in Hr. destruct (get_byte_readable w b _ _ Hr) as (b1 & E1 & R1 & P1). rewrite (M_bind_Some _ _ _ _ _ E1).
    pose proof (readable_bound _ _ _ R1) as Hbound. rewrite length_app, length_take in Hbound. destruct R1 as [W1 R1].
    unfold OA_CODE_SELF, OA_CODE_PREVIOUS, SID_SIZE in *. zdecide. unfold find_subscr_buffer, SID_SIZE. zdecide.
    assert (Hz : zlen (take len (sid s)) = Z.of_nat len) by (rewrite length_take; lia).
    destruct (ob_get_bytes_ptr_rest _ _ _ _ _ W1 R1 Hz) as (p & E2 & E3 & R2); [lia|lia|].
    rewrite (M_bind_Some _ _ w (Some p, set_position b1 (position b1 + Z.of_nat len)) w)
      by (unfold lift; by rewrite E2).
    rewrite (M_bind_Some _ _ w (take len (sid s)) w) by (unfold read_bytes; by rewrite E3).
    assert (Ef : find_subscriber (w_dir w) (take len (sid s)) len true = Some (Some i, w_dir w)).
    { by apply find_unique. }
    rewrite (M_bind_Some _ _ w (Some i) w) by (unfold find_sub; rewrite Nat2Z.id, Ef; by destruct w).
    eexists. split; [reflexivity|]. split; [exact R2 |]. cbn [length position set_position]. rewrite length_take. lia.
Qed.

(** Appending an address that the directory resolves. *)
Lemma append_encoded w c b i :
  directory_wf (w_dir w) -> (i < length (subscribers (w_dir w)))%nat -> ob_wf (w_mem w) b ->
  fits_in b (1 + Z.of_nat SID_SIZE) ->
  exists b' w' d, overlay_address_append (Some c) b (Some i) w = Some ((0, Some (set_previous c (Some i)), b'), w') /\
    written w b w' b' d /\ encodes (sender c) (previous c) (subscribers (w_dir w)) i d.
Proof.
  intros Hd [s Hs]%lookup_lt_is_Some_2 W HF. unfold overlay_address_append. cbn [mbind option_bind].
  assert (HF1 : fits_in b 1) by (eapply fits_in_le; [| exact HF]; unfold SID_SIZE; lia).
  unfold is_subscriber. destruct (bool_decide (sender c = Some i)) eqn:Ese;
    [|destruct (bool_decide (previous c = Some i)) eqn:Epr].
  1,2: match goal with |- context [ob_append_byte _ _ ?x] =>
         destruct (append_byte_written w b x) as (b' & m' & E & Wr); [done | done | by split | done |] end;
       rewrite (M_bind_Some _ _ _ _ _ E); do 3 eexists; split; [reflexivity|]; split; [exact Wr |].
  - apply encodes_self. by apply bool_decide_eq_true in Ese.
  - apply encodes_previous; [by apply bool_decide_eq_false in Ese | by apply bool_decide_eq_true in Epr].
  - pose proof (address_len_spec _ _ _ Hd Hs) as HA.
    destruct (address_len s) as [len s'] eqn:EA. destruct HA as (Hlen & Ha & E1 & E2).
    destruct (directory_member _ _ _ Hd Hs) as (Hl & Hb & _).
    set (w1 := set_dir w (mk_directory (root (w_dir w)) (<[i := s']> (subscribers (w_dir w))))).
    assert (K1 : same_keys (subscribers (w_dir w)) (subscribers (w_dir w1))) by (by eapply same_keys_insert).
    assert (D1 : directory_wf (w_dir w1)).
    { apply directory_same_keys with (subscribers (w_dir w)); [done |]. by destruct (w_dir w). }
    destruct (append_byte_written w1 b (Z.of_nat len)) as (b1 & m1 & A1 & W1);
      [done | done | unfold SID_SIZE in *; split; lia | done |].
    destruct (append_written (set_mem w1 m1) b1 (fun _ => zslice (sid s') 0 (Z.of_nat len))
      (Z.of_nat len) (take len (sid s))) as (b2 & m2 & A2 & W2).
    { apply W1. } { done. } { by apply Forall_take. } { rewrite length_take. unfold SID_SIZE in *. lia. }
    { apply W1; [lia |]. eapply fits_in_le; [| exact HF]. cbn [length]. unfold SID_SIZE in *. lia. }
    { intros _ _ _. rewrite E1, zslice_Some, Nat2Z.id by (unfold SID_SIZE in *; lia). done. }
    exists b2, (set_mem w1 m2), (Z.of_nat len :: take len (sid s)). split_and!.
    + rewrite (M_bind_Some _ _ w (0, b2) (set_mem w1 m2)); [reflexivity|].
      rewrite (M_bind_Some _ _ w s w) by (unfold get_sub; by rewrite Hs). rewrite EA.
      rewrite (M_bind_Some _ _ w tt w1) by done. rewrite (M_bind_Some _ _ _ _ _ A1). exact A2.
    + destruct (written_trans _ _ _ _ _ _ _ _ W1 W2). split; try done.
    + apply encodes_sid; [done | done |]. intros j t Ht Et.
      apply (abbreviation_unique (w_dir w) i s (sid s) len j Hd Hs Ha); [done |]. by exists t.
Qed.

End roundtrip.

(** [C33] An address of a known subscriber, appended by one node to a packet with room for it while memory lasts, is parsed by another one to the same
    subscriber, whichever of the three forms it took (sender, previous, abbreviation), if the
    other node knows the subscriber and nobody whom the sender does not know, whatever the order
    in which it met them, and reads the address in a context with the same sender and the same
    previous address; both remember the subscriber as the previous address. *)
Theorem address_roundtrip `{Allocator} gettime_ms my_subscriber w c b i :
  never_refuses -> directory_wf (w_dir w) -> (i < length (subscribers (w_dir w)))%nat -> ob_wf (w_mem w) b ->
  ob_room b (1 + Z.of_nat SID_SIZE) = true -> position b + (1 + Z.of_nat SID_SIZE) <= OB_MAX ->
  exists c1 b1 w1 l, overlay_address_append (Some c) b (Some i) w = Some ((0, Some c1, b1), w1) /\
    previous c1 = Some i /\ position b1 = position b + zlen l /\
    (forall d0, ob_data (w_mem w) b = Some d0 -> ob_data (w_mem w1) b1 = Some (d0 ++ l)) /\
    forall w' c' b' i' r v,
      directory_wf (w_dir w') -> knows_no_more (w_dir w') (w_dir w) ->
      same_sub (subscribers (w_dir w)) (subscribers (w_dir w')) i i' ->
      same_ptr (subscribers (w_dir w)) (subscribers (w_dir w')) (sender c) (sender c') ->
      same_ptr (subscribers (w_dir w)) (subscribers (w_dir w')) (previous c) (previous c') ->
      ob_wf (w_mem w') b' -> ob_rest (w_mem w') b' = Some (l ++ r) ->
      exists c2 b2, overlay_address_parse gettime_ms my_subscriber c' b' (Some v) w'
          = Some ((0, c2, b2, Some (Some i')), w') /\
        previous c2 = Some i' /\ position b2 = position b' + zlen l.
Proof.
  intros Hn Hd Hi W HR HM.
  destruct (append_encoded Hn w c b i Hd Hi W (conj HR HM)) as (b1 & w1 & l & E & Wr & He).
  exists (set_previous c (Some i)), b1, w1, l. split_and!; [done | done | apply Wr | apply Wr |].
  intros w' c' b' i' r v D' K Hs Hsd Hpr W' Hr.
  destruct (parse_encoded gettime_ms my_subscriber w' c' b' i' l r v D'
              (encodes_other _ _ _ _ _ _ _ _ _ Hd D' K Hs Hsd Hpr He) (conj W' Hr)) as (b2 & E2 & _ & P2).
  exists (set_previous c' (Some i')), b2. by split_and!.
Qed.

(** A world with two known subscribers, nothing remembered and no memory in use. *)
Definition world0 : world :=
  mk_world two_subscribers (bpilist_of []) ∅ 0 0 [] [].
Definition context0 : decode_context := mk_context None 0 0 0 0 false None None None.

(** Another node, that met the two subscribers the other way round. *)
Definition other_directory : directory := learn (learn empty_directory sid_b) sid_a.

Lemma other_directory_wf : directory_wf other_directory.
Proof. repeat apply learn_wf; try apply directory_wf_empty; try done; repeat constructor; lia. Qed.

Lemma address_roundtrip_witness :
  exists c1 b1 w1 l, overlay_address_append (Some context0) (mk_ob None 0 0 (-1) 0 None 0) (Some 1%nat)
      world0 = Some ((0, Some c1, b1), w1) /\
  let w' := mk_world other_directory (bpilist_of []) {[1%positive := l]} 0 0 [] [] in
  let b' := mk_ob (Some (mkptr 1 0)) 0 0 (zlen l) (zlen l) None 0 in
  exists c2 b2, overlay_address_parse (fun _ => 0) None context0 b' (Some None) w'
      = Some ((0, c2, b2, Some (Some 0%nat)), w') /\
    previous c2 = Some 0%nat /\ position b2 = zlen l.
Proof.
  destruct (address_roundtrip (fun _ => 0) None world0 context0 (mk_ob None 0 0 (-1) 0 None 0) 1)
    as (c1 & b1 & w1 & l & E & _ & P & D & Hp).
  - apply zero_allocator_never_refuses.
  - apply two_subscribers_wf.
  - vm_compute. lia.
  - by apply (abs_wf _ _ (mk_abuf [] None None)), ob_new_abs.
  - reflexivity.
  - unfold OB_MAX, SID_SIZE. simpl. lia.
  - exists c1, b1, w1, l. split; [exact E |]. intros w' b'.
    assert (Hl : l = [2; 0x13; 0]).
    { specialize (D [] eq_refl). revert D. vm_compute in E. injection E as <- <- <-. vm_compute. by intros [= <-]. }
    destruct (Hp w' context0 b' 0%nat [] None) as (c2 & b2 & E2 & P2 & Q2).
    + apply other_directory_wf.
    + intros id Hid. vm_compute in Hid.
      apply elem_of_cons in Hid as [-> | Hid]; [by apply list_elem_of_lookup; exists 1%nat |].
      apply elem_of_cons in Hid as [-> | Hid]; [by apply list_elem_of_lookup; exists 0%nat |]. by apply elem_of_nil in Hid.
    + do 2 eexists. split_and!; vm_compute; reflexivity.
    + constructor.
    + constructor.
    + subst l. constructor; simpl; unfold INT_MAX; try lia; [| done].
      eexists. split; [done |]. split; [repeat constructor; lia | simpl; lia].
    + subst l. vm_compute. reflexivity.
    + exists c2, b2. exact (conj E2 (conj P2 Q2)).
Defined.

Lemma M_bind_inv {A B} (m : M A) (f : A -> M B) w x w' :
  (m ≫= f) w = Some (x, w') -> exists y w1, m w = Some (y, w1) /\ f y w1 = Some (x, w').
Proof. unfold mbind, M_bind. destruct (m w) as [[y w1]|]; [eauto|done]. Qed.

(** Looking up a prefix of a known identifier cannot find another subscriber. *)
Lemma find_known d id j len i w w1 :
  directory_wf d -> are_bytes id -> length id = SID_SIZE -> known d !! j = Some id ->
  (1 <= len <= SID_SIZE)%nat -> w_dir w = d -> find_sub (take len id) len true w = Some (Some i, w1) ->
  i = j.
Proof.
  intros Hd Hb Hl (s & -> & Hs)%list_lookup_fmap_Some Hlen Ew. unfold find_sub. rewrite Ew.
  destruct (directory_member _ _ _ Hd Hs) as (_ & _ & Ha).
  destruct (decide (len = SID_SIZE)) as [->|Hne].
  - rewrite (find_by_abbreviation d j s); auto; try lia.
    + by intros [= ->].
    + by apply Forall_take.
    + rewrite length_take. lia.
    + intros _ _. rewrite length_take. lia.
    + by rewrite take_take, Nat.min_id.
  - destruct (find_abbrev_spec d (take len (sid s)) len true) as (o & -> & Ho); auto.
    + by apply Forall_take.
    + rewrite length_take. lia.
    + lia.
    + rewrite (proj2 (Nat.eqb_neq len SID_SIZE)) by done. done.
    + cbn [mbind option_bind]. intros [= -> _]. destruct (proj1 (Ho i) eq_refl) as [_ Hu].
      symmetry. apply Hu. exists s. split; [done|]. by rewrite take_take, Nat.min_id.
Qed.

(** A receiver that knows the subscriber an abbreviated address was made for never
    takes it for another one: if parsing resolves the address at all, it resolves it to
    the subscriber with that identifier. *)
Theorem address_never_confused `{Allocator} gettime_ms my_subscriber w c b v len id j r res w' :
  ob_wf (w_mem w) b -> directory_wf (w_dir w) -> are_bytes id -> length id = SID_SIZE ->
  known (w_dir w) !! j = Some id -> (1 <= len <= SID_SIZE)%nat ->
  ob_rest (w_mem w) b = Some (Z.of_nat len :: take len id ++ r) ->
  position b + 1 + Z.of_nat len <= INT_MAX ->
  overlay_address_parse gettime_ms my_subscriber c b (Some v) w = Some (res, w') ->
  res.2 = Some None \/ res.2 = Some (Some j).
Proof.
  intros W Hd Hb Hl Hk Hlen Hr HM.
  destruct (get_byte_readable w b _ _ (conj W Hr)) as (b1 & E1 & [W1 R1] & P1).
  unfold overlay_address_parse. rewrite (M_bind_Some _ _ _ _ _ E1).
  unfold OA_CODE_SELF, OA_CODE_PREVIOUS, SID_SIZE in *. zdecide.
  unfold find_subscr_buffer, SID_SIZE. zdecide.
  assert (Hz : zlen (take len id) = Z.of_nat len) by (rewrite length_take; lia).
  destruct (ob_get_bytes_ptr_rest _ _ _ _ _ W1 R1 Hz) as (p & E2 & E3 & _); [lia|lia|].
  rewrite (M_bind_Some _ _ w (Some p, set_position b1 (position b1 + Z.of_nat len)) w)
    by (unfold lift; by rewrite E2).
  rewrite (M_bind_Some _ _ w (take len id) w) by (unfold read_bytes; by rewrite E3).
  rewrite Nat2Z.id. intros (o & w1 & Ef & Hres)%M_bind_inv.
  destruct o as [i|].
  - injection Hres as <- <-. right. cbn. do 2 f_equal.
    by apply (find_known (w_dir w) id j len) in Ef.
  - left. repeat (apply M_bind_inv in Hres as (? & ? & _ & Hres); repeat case_match; try done).
    by injection Hres as <- <-.
Qed.

Definition world1 : world := set_mem world0 {[1%positive := [1; 0x13]]}.
Definition buffer1 : overlay_buffer := mk_ob (Some (mkptr 1 0)) 0 0 2 2 None 0.

Lemma address_never_confused_witness :
  exists res, overlay_address_parse (fun _ => 0) None context0 buffer1 (Some None) world1
    = Some (res, world1) /\ (res.2 = Some None \/ res.2 = Some (Some 1%nat)).
Proof.
  exists (0, set_previous context0 (Some 1%nat), set_position buffer1 2, Some (Some 1%nat)).
  split; [vm_compute; reflexivity|].
  apply (address_never_confused (fun _ => 0) None world1 context0 buffer1 None 1 sid_b 1 [] _ world1).
  - constructor; simpl; unfold INT_MAX; try lia; [|done].
    exists [1; 0x13]. split; [done|]. split; [repeat constructor; lia|simpl; lia].
  - apply two_subscribers_wf.
  - repeat constructor; lia.
  - reflexivity.
  - vm_compute. reflexivity.
  - unfold SID_SIZE. lia.
  - vm_compute. reflexivity.
  - vm_compute. discriminate.
  - vm_compute. reflexivity.
Defined.
