(* ===== verification/Jitter.v ===== *)
(** Jitter: the parts of vomp.c below the call state machine: DTMF digits, codec
    sets, and the jitter measurements of a call's audio.

    [sorted_samples] holds pointers into the [samples] array of the same structure,
    which lives in the static table of calls.  A pointer is an index into one array
    [heap] that holds the samples of all calls; the samples of the call in slot [k]
    start at [base k].  So the structure can be moved, as vomp_call_destroy does,
    without its pointers following. *)

From S2P Require Import Prelude.

Definition JITTER_SAMPLES : nat := 128.
Definition SEEN_SAMPLES : nat := 16.
Definition CODEC_FLAGS_LENGTH : nat := 32.
Definition VOMP_CODEC_16SIGNED : Z := 1.
Definition VOMP_CODEC_ULAW : Z := 2.
Definition VOMP_CODEC_ALAW : Z := 3.

Definition vomp_codec_timespan (c data_size : Z) : Z :=
  if c =? VOMP_CODEC_16SIGNED then Z.quot data_size 16
  else if c =? VOMP_CODEC_ULAW then Z.quot data_size 8
  else if c =? VOMP_CODEC_ALAW then Z.quot data_size 8
  else -1.

(** ** DTMF digits *)

Definition vomp_parse_dtmf_digit (c : Z) : Z :=
  if (48 <=? c) && (c <=? 57) then c - 0x30
  else if (c =? 97) || (c =? 65) then 0xa
  else if (c =? 98) || (c =? 66) then 0xb
  else if (c =? 99) || (c =? 67) then 0xc
  else if (c =? 100) || (c =? 68) then 0xd
  else if c =? 42 then 0xe
  else if c =? 35 then 0xf
  else -1.

Definition vomp_dtmf_digit_to_char (digit : Z) : Z :=
  if digit <? 0 then 63
  else if digit <? 10 then 48 + digit
  else if digit <? 0xe then 65 + digit - 0xa
  else if digit =? 0xe then 42
  else if digit =? 0xf then 35
  else 63.

(** ** Codec sets *)

Definition set_codec_flag (codec : Z) (flags : list Z) : option (list Z) :=
  if (codec <? 0) || (255 <? codec) then Some flags
  else
    x ← zget flags (Z.shiftr codec 3);
    zset flags (Z.shiftr codec 3) (u8 (Z.lor x (Z.shiftl 1 (Z.land codec 7)))).

Definition is_codec_set (codec : Z) (flags : list Z) : option Z :=
  if (codec <? 0) || (255 <? codec) then Some 0
  else x ← zget flags (Z.shiftr codec 3); Some (Z.land x (Z.shiftl 1 (Z.land codec 7))).

(** ** Jitter measurements *)

Record jitter_sample := mk_sample {
  sample_clock : Z;
  local_clock : Z;
  delta : Z;
  sort_index : Z
}.

Definition zero_sample : jitter_sample := mk_sample 0 0 0 0.

Definition set_sort_index (s : jitter_sample) (i : Z) : jitter_sample :=
  mk_sample (sample_clock s) (local_clock s) (delta s) i.

(** The structure but for its [samples], which are in the heap. *)
Record jitter_measurements := mk_jitter {
  sorted_samples : list (option nat);
  next_sample : Z;
  max_sample_clock : Z;
  sample_count : Z
}.

Definition zero_jitter : jitter_measurements :=
  mk_jitter (replicate JITTER_SAMPLES None) 0 0 0.

Definition base (slot : nat) : nat := slot * JITTER_SAMPLES.

(** [measurements->samples[i]], which is inside the structure. *)
Definition own_sample (slot : nat) (i : Z) : option nat :=
  if (0 <=? i) && (i <? Z.of_nat JITTER_SAMPLES) then Some (base slot + Z.to_nat i)%nat else None.

(** [measurements->sorted_samples[i]], a pointer that is about to be followed. *)
Definition sorted_at (sorted : list (option nat)) (i : Z) : option nat :=
  o ← zget sorted i; o.

(** The scan for a sample already seen: [n] tests left of the SEEN_SAMPLES. *)
Fixpoint seen_before (n : nat) (heap : list jitter_sample) (slot : nat) (sample_count i count clock : Z)
    : option bool :=
  match n with
  | O => Some false
  | S n =>
      if count <=? sample_count then
        let i := if i <? 0 then sample_count - 1 else i in
        p ← own_sample slot i;
        s ← heap !! p;
        if sample_clock s =? clock then Some true
        else seen_before n heap slot sample_count (i - 1) (count + 1) clock
      else Some false
  end.

(** [while(min<=max)], which halves the range. *)
Fixpoint search_position (fuel : nat) (heap : list jitter_sample) (sorted : list (option nat))
    (d min max pos : Z) : option Z :=
  if max <? min then Some pos
  else
    match fuel with
    | O => None
    | S fuel =>
        let pos := Z.quot (max + min) 2 in
        p ← sorted_at sorted pos;
        s ← heap !! p;
        if d <=? delta s
        then search_position fuel heap sorted d min (pos - 1) pos
        else search_position fuel heap sorted d (pos + 1) max (pos + 1)
    end.

(** [for (i=old_index;i>pos;i--)], [n] passes. *)
Fixpoint shuffle_down (n : nat) (heap : list jitter_sample) (sorted : list (option nat)) (i : Z)
    : option (list jitter_sample * list (option nat)) :=
  match n with
  | O => Some (heap, sorted)
  | S n =>
      o ← zget sorted (i - 1);
      sorted ← zset sorted i o;
      p ← o;
      s ← heap !! p;
      shuffle_down n (<[p := set_sort_index s i]> heap) sorted (i - 1)
  end.

(** [for (i=old_index;i<pos;i++)], [n] passes. *)
Fixpoint shuffle_up (n : nat) (heap : list jitter_sample) (sorted : list (option nat)) (i : Z)
    : option (list jitter_sample * list (option nat)) :=
  match n with
  | O => Some (heap, sorted)
  | S n =>
      o ← zget sorted (i + 1);
      sorted ← zset sorted i o;
      p ← o;
      s ← heap !! p;
      shuffle_up n (<[p := set_sort_index s i]> heap) sorted (i + 1)
  end.

(** Where the sample goes, and the arrays with a place made for it. *)
Definition make_place (heap : list jitter_sample) (j : jitter_measurements) (old d : Z)
    : option (Z * list jitter_sample * list (option nat)) :=
  if 0 <? sample_count j then
    let old_index := if Z.of_nat JITTER_SAMPLES <=? sample_count j then old else sample_count j in
    pos ← search_position (Z.to_nat (sample_count j)) heap (sorted_samples j) d 0
            (sample_count j - 1) 0;
    let pos := if sample_count j <=? pos then sample_count j - 1 else pos in
    '(heap, sorted) ← shuffle_down (Z.to_nat (old_index - pos)) heap (sorted_samples j) old_index;
    '(heap, sorted) ← shuffle_up (Z.to_nat (pos - old_index)) heap sorted old_index;
    Some (pos, heap, sorted)
  else Some (0, heap, sorted_samples j).

(** The return value and [*delay], the measurements and the samples. *)
Definition store_jitter_sample (slot : nat) (heap : list jitter_sample) (j : jitter_measurements)
    (clock local : Z) : option (option Z * jitter_measurements * list jitter_sample) :=
  seen ← (if 0 <? sample_count j
          then seen_before SEEN_SAMPLES heap slot (sample_count j) (next_sample j - 1) 0 clock
          else Some false);
  if seen : bool then Some (None, j, heap)
  else
    sample ← own_sample slot (next_sample j);
    let next := next_sample j + 1 in
    let next := if Z.of_nat JITTER_SAMPLES <=? next then 0 else next in
    d ← ci (local - clock);
    old ← heap !! sample;
    '(pos, heap, sorted) ← make_place heap j (sort_index old) d;
    sorted ← zset sorted pos (Some sample);
    let count := if sample_count j <? Z.of_nat JITTER_SAMPLES then sample_count j + 1
                 else sample_count j in
    let heap := <[sample := mk_sample clock local d pos]> heap in
    let top := if max_sample_clock j <? clock then clock else max_sample_clock j in
    first ← sorted_at sorted 0;
    s0 ← heap !! first;
    delay ← ci (d - delta s0);
    Some (Some delay, mk_jitter sorted next top count, heap).

Definition get_jitter_size (heap : list jitter_sample) (j : jitter_measurements) : option Z :=
  let i := Z.of_nat JITTER_SAMPLES - 4 in
  let i := if sample_count j <=? i then sample_count j - 1 else i in
  pi ← sorted_at (sorted_samples j) i; si ← heap !! pi;
  p0 ← sorted_at (sorted_samples j) 0; s0 ← heap !! p0;
  jitter ← ci (delta si - delta s0);
  Some (if jitter <? 60 then 60 else jitter).

(** * DTMF and codecs *)

(** Every DTMF digit prints as a character that parses back to it. *)
Theorem dtmf_roundtrip digit :
  0 <= digit < 16 -> vomp_parse_dtmf_digit (vomp_dtmf_digit_to_char digit) = digit.
Proof.
  intros Hd. apply Z.eqb_eq. revert digit Hd.
  assert (H : forallb (fun d => vomp_parse_dtmf_digit (vomp_dtmf_digit_to_char d) =? d)
                (seqZ 0 16) = true) by (vm_compute; reflexivity).
  intros d Hd. rewrite forallb_forall in H. apply H, list_elem_of_In, elem_of_seqZ. lia.
Qed.

Lemma dtmf_roundtrip_witness : vomp_parse_dtmf_digit (vomp_dtmf_digit_to_char 14) = 14.
Proof. apply dtmf_roundtrip. lia. Defined.

Definition codec_flags_wf (flags : list Z) : Prop :=
  length flags = CODEC_FLAGS_LENGTH /\ are_bytes flags.

Lemma land_bit x i : 0 <= i -> Z.land x (Z.shiftl 1 i) <> 0 <-> Z.testbit x i = true.
Proof.
  intros Hi. split.
  - intros H. destruct (Z.testbit x i) eqn:E; [done |]. exfalso. apply H.
    apply Z.bits_inj'. intros n Hn. rewrite Z.land_spec, Z.shiftl_1_l, Z.pow2_bits_eqb, Z.bits_0 by done.
    destruct (Z.eqb_spec i n); [subst; by rewrite E | by rewrite andb_false_r].
  - intros H E. assert (Z.testbit (Z.land x (Z.shiftl 1 i)) i = true) as Ht.
    { by rewrite Z.land_spec, H, Z.shiftl_1_l, Z.pow2_bits_true. }
    by rewrite E, Z.bits_0 in Ht.
Qed.

Lemma set_bit_test b i k :
  0 <= i < 8 -> 0 <= k < 8 ->
  Z.land (u8 (Z.lor b (Z.shiftl 1 i))) (Z.shiftl 1 k) <> 0 <->
  k = i \/ Z.land b (Z.shiftl 1 k) <> 0.
Proof.
  intros Hi Hk. rewrite !land_bit by lia. unfold u8. change 256 with (2 ^ 8).
  rewrite Z.mod_pow2_bits_low, Z.lor_spec, Z.shiftl_1_l, Z.pow2_bits_eqb, orb_true_iff, Z.eqb_eq by lia.
  intuition.
Qed.

Lemma codec_position c : 0 <= c < 256 ->
  0 <= Z.shiftr c 3 < Z.of_nat CODEC_FLAGS_LENGTH /\ 0 <= Z.land c 7 < 8 /\
  c = 8 * Z.shiftr c 3 + Z.land c 7.
Proof.
  intros Hc. rewrite Z.shiftr_div_pow2 by lia. change 7 with (Z.ones 3).
  rewrite Z.land_ones by lia. change (2 ^ 3) with 8. unfold CODEC_FLAGS_LENGTH.
  Z.to_euclidean_division_equations; lia.
Qed.

(** Setting a codec's flag succeeds for every codec number, makes exactly that codec a
    member of the set, and keeps the set's array well formed. *)
Theorem set_codec_flag_correct flags c c' :
  codec_flags_wf flags -> 0 <= c < 256 -> 0 <= c' < 256 ->
  exists flags' x x', set_codec_flag c flags = Some flags' /\ codec_flags_wf flags' /\
    is_codec_set c' flags = Some x /\ is_codec_set c' flags' = Some x' /\
    (x' <> 0 <-> c' = c \/ x <> 0).
Proof.
  intros [Hl Hb] Hc Hc'.
  destruct (codec_position c Hc) as (Hp & Hq & Ec), (codec_position c' Hc') as (Hp' & Hq' & Ec').
  destruct (zget_is_Some flags (Z.shiftr c 3)) as [b Eb]; [lia |].
  destruct (zget_is_Some flags (Z.shiftr c' 3)) as [x Ex]; [lia |].
  set (y := u8 (Z.lor b (Z.shiftl 1 (Z.land c 7)))).
  destruct (zset flags (Z.shiftr c 3) y) as [k |] eqn:Ek; [| rewrite zset_Some in Ek by lia; done].
  assert (Ez : exists z, zget k (Z.shiftr c' 3) = Some z /\
    (Z.land z (Z.shiftl 1 (Z.land c' 7)) <> 0 <->
     c' = c \/ Z.land x (Z.shiftl 1 (Z.land c' 7)) <> 0)).
  { destruct (decide (Z.shiftr c' 3 = Z.shiftr c 3)) as [Es | Es].
    - rewrite Es in Ex |- *. exists y. split; [by eapply zget_zset_eq |].
      replace x with b by congruence. unfold y. rewrite set_bit_test by lia.
      split; (intros [E | ?]; [left; first [congruence | lia] | by right]).
    - exists x. split; [by rewrite (zget_zset_ne _ _ _ _ _ Ek) by congruence |].
      split; [by right | intros [-> | ?]; done]. }
  destruct Ez as (z & Ez & Hz).
  exists k, (Z.land x (Z.shiftl 1 (Z.land c' 7))), (Z.land z (Z.shiftl 1 (Z.land c' 7))).
  unfold set_codec_flag, is_codec_set. zdecide. rewrite Eb, Ex, Ez. cbn [mbind option_bind].
  split_and!; try done. split.
  - by rewrite (zset_length _ _ _ _ Ek).
  - eapply zset_Forall; [exact Hb | | exact Ek]. unfold y, is_byte, u8. by apply Z.mod_pos_bound.
Qed.

Lemma set_codec_flag_correct_witness :
  exists flags' x x', set_codec_flag 9 (replicate 32 0) = Some flags' /\ codec_flags_wf flags' /\
    is_codec_set 9 (replicate 32 0) = Some x /\ is_codec_set 9 flags' = Some x' /\
    (x' <> 0 <-> 9 = 9 \/ x <> 0).
Proof.
  apply (set_codec_flag_correct (replicate 32 0) 9 9); [| lia | lia].
  split; [reflexivity |]. apply Forall_replicate. unfold is_byte. lia.
Defined.

(** * The order of the samples *)

(** Sample [i] of the call is at place [m] of the order, and knows it. *)
Definition placed (slot : nat) (heap : list jitter_sample) (sorted : list (option nat)) (m i : nat) : Prop :=
  sorted !! m = Some (Some (base slot + i)%nat) /\
  exists s, heap !! (base slot + i)%nat = Some s /\ sort_index s = Z.of_nat m.

(** The places [P] and the samples [Q] are in bijection. *)
Definition ordered (slot : nat) (heap : list jitter_sample) (sorted : list (option nat))
    (P Q : nat -> Prop) : Prop :=
  (forall m, P m -> exists i, Q i /\ placed slot heap sorted m i) /\
  (forall i, Q i -> exists m, P m /\ placed slot heap sorted m i).

(** All places below [n] but [h]. *)
Definition all_but (n h m : nat) : Prop := (m < n)%nat /\ m <> h.

Lemma ordered_iff slot heap sorted P P' Q Q' :
  (forall m, P m <-> P' m) -> (forall m, Q m <-> Q' m) ->
  ordered slot heap sorted P Q -> ordered slot heap sorted P' Q'.
Proof.
  intros HP HQ [H1 H2]. split.
  - intros m Hm. destruct (H1 m) as (i & ? & ?); [by apply HP | exists i; by rewrite <- HQ].
  - intros i Hi. destruct (H2 i) as (m & ? & ?); [by apply HQ | exists m; by rewrite <- HP].
Qed.

Lemma placed_inj slot heap sorted m m' i : placed slot heap sorted m i -> placed slot heap sorted m' i -> m = m'.
Proof. intros (_ & s & ? & ?) (_ & s' & ? & ?). simplify_eq. lia. Qed.

Lemma placed_inj_r slot heap sorted m i i' : placed slot heap sorted m i -> placed slot heap sorted m i' -> i = i'.
Proof. intros (? & _) (? & _). simplify_eq. lia. Qed.

Lemma placed_insert slot heap sorted m i p s h o :
  placed slot heap sorted m i -> p <> (base slot + i)%nat -> h <> m ->
  placed slot (<[p := s]> heap) (<[h := o]> sorted) m i.
Proof.
  intros (? & t & ? & ?) Hp Hh. split; [by rewrite list_lookup_insert_ne |].
  exists t. by rewrite list_lookup_insert_ne.
Qed.

Lemma placed_new slot heap sorted m i s :
  (m < length sorted)%nat -> (base slot + i < length heap)%nat -> sort_index s = Z.of_nat m ->
  placed slot (<[(base slot + i)%nat := s]> heap) (<[m := Some (base slot + i)%nat]> sorted) m i.
Proof.
  intros. split; [by rewrite list_lookup_insert_eq |].
  exists s. by rewrite list_lookup_insert_eq.
Qed.

(** One pass of a shuffle: the sample at place [m] goes to the free place [h]. *)
Lemma ordered_move slot heap sorted P Q m h i s :
  ordered slot heap sorted P Q -> P m -> ~ P h -> (h < length sorted)%nat ->
  placed slot heap sorted m i -> Q i -> heap !! (base slot + i)%nat = Some s ->
  ordered slot (<[(base slot + i)%nat := set_sort_index s (Z.of_nat h)]> heap)
    (<[h := Some (base slot + i)%nat]> sorted)
    (fun x => (P x \/ x = h) /\ x <> m) Q.
Proof.
  intros [H1 H2] Hm Hh Hl Hi HQ Hs.
  assert (Hnew : placed slot (<[(base slot + i)%nat := set_sort_index s (Z.of_nat h)]> heap)
                   (<[h := Some (base slot + i)%nat]> sorted) h i).
  { apply placed_new; [done | by eapply lookup_lt_Some | done]. }
  split.
  - intros x [[Hx | ->] Hne]; [| by exists i].
    destruct (H1 x Hx) as (i' & Hi' & Hp). exists i'. split; [done |].
    apply placed_insert; [done | | by intros ->].
    intros ?. assert (i = i') by lia. subst. by eapply Hne, placed_inj.
  - intros i' Hi'. destruct (decide (i' = i)) as [-> | Hne].
    + exists h. split; [| done]. split; [by right | by intros ->].
    + destruct (H2 i' Hi') as (x & Hx & Hp). exists x.
      assert (x <> m) by (intros ->; by eapply Hne, placed_inj_r).
      split; [by split; [left |] |]. apply placed_insert; [done | lia | by intros ->].
Qed.

Definition in_slot (slot p : nat) : Prop := (base slot <= p < base slot + JITTER_SAMPLES)%nat.

(** The heaps hold the same samples, but for the places of the samples of [slot]. *)
Definition same_samples (slot : nat) (heap heap' : list jitter_sample) : Prop :=
  length heap' = length heap /\
  forall p s, heap !! p = Some s -> exists i, heap' !! p = Some (set_sort_index s i) /\
    (~ in_slot slot p -> i = sort_index s).

Lemma set_sort_index_id s : set_sort_index s (sort_index s) = s.
Proof. by destruct s. Qed.

Lemma same_samples_refl slot heap : same_samples slot heap heap.
Proof. split; [done |]. intros p s H. exists (sort_index s). by rewrite set_sort_index_id. Qed.

Lemma same_samples_trans slot h1 h2 h3 :
  same_samples slot h1 h2 -> same_samples slot h2 h3 -> same_samples slot h1 h3.
Proof.
  intros [L1 H1] [L2 H2]. split; [congruence |].
  intros p s Hp. destruct (H1 p s Hp) as (i & Hi & Ei). destruct (H2 p _ Hi) as (k & Hk & Ek).
  exists k. split; [done |]. intros Hn. by rewrite (Ek Hn), (Ei Hn).
Qed.

Lemma same_samples_insert slot heap i s k :
  (i < JITTER_SAMPLES)%nat -> heap !! (base slot + i)%nat = Some s ->
  same_samples slot heap (<[(base slot + i)%nat := set_sort_index s k]> heap).
Proof.
  intros Hi Hs. split; [apply length_insert |]. intros p t Ht.
  destruct (decide (p = (base slot + i)%nat)) as [-> | Hne].
  - simplify_eq. exists k. rewrite list_lookup_insert_eq by (by eapply lookup_lt_Some).
    split; [done |]. unfold in_slot. lia.
  - exists (sort_index t). by rewrite list_lookup_insert_ne, set_sort_index_id.
Qed.

Section Shuffles.
Context (slot N : nat) (Q : nat -> Prop).
Hypothesis Q_range : forall i, Q i -> (i < JITTER_SAMPLES)%nat.

(** The free place moved to [h]. *)
Definition shuffled (heap : list jitter_sample) (sorted : list (option nat)) (h : nat)
    (r : option (list jitter_sample * list (option nat))) : Prop :=
  exists heap' sorted', r = Some (heap', sorted') /\ length sorted' = length sorted /\
    ordered slot heap' sorted' (all_but N h) Q /\ same_samples slot heap heap'.

(** Both shuffles move the sample at a place [m] next to the free place [h]. *)
Lemma shuffle_pass heap sorted h m :
  ordered slot heap sorted (all_but N h) Q -> (N <= length sorted)%nat ->
  (h < N)%nat -> (m < N)%nat -> m <> h ->
  exists p s, sorted !! m = Some (Some p) /\ heap !! p = Some s /\
    ordered slot (<[p := set_sort_index s (Z.of_nat h)]> heap) (<[h := Some p]> sorted)
      (all_but N m) Q /\
    same_samples slot heap (<[p := set_sort_index s (Z.of_nat h)]> heap).
Proof.
  intros Ho Hl Hh Hm Hne. destruct (proj1 Ho m) as (i & Hi & Hp); [done |].
  destruct (Hp) as (Hsm & s & Hs & _).
  exists (base slot + i)%nat, s. split_and!; [done | done | |].
  - eapply ordered_iff; [| done |]; [| eapply (ordered_move _ _ _ _ _ m h); try done].
    + unfold all_but. intros x. cbn. lia.
    + by intros [].
    + lia.
  - by apply same_samples_insert; [apply Q_range |].
Qed.

Lemma shuffle_down_spec n : forall heap sorted h,
  ordered slot heap sorted (all_but N h) Q -> (N <= length sorted)%nat -> (h < N)%nat ->
  (n <= h)%nat -> shuffled heap sorted (h - n) (shuffle_down n heap sorted (Z.of_nat h)).
Proof.
  induction n as [| n IH]; intros heap sorted h Ho Hl Hh Hn; cbn [shuffle_down].
  { exists heap, sorted. rewrite Nat.sub_0_r. split_and!; try done. apply same_samples_refl. }
  destruct (shuffle_pass heap sorted h (h - 1)) as (p & s & Ep & Es & Ho' & Hs'); try done; try lia.
  replace (Z.of_nat h - 1) with (Z.of_nat (h - 1)) by lia.
  rewrite zget_of_nat, Ep. cbn [mbind option_bind]. rewrite zset_of_nat by lia. cbn [mbind option_bind].
  rewrite Es. cbn [mbind option_bind].
  destruct (IH _ _ (h - 1)%nat Ho') as (heap' & sorted' & -> & Hl' & Ho'' & Hs''); [| lia | lia |].
  { by rewrite length_insert. }
  exists heap', sorted'. replace (h - S n)%nat with (h - 1 - n)%nat by lia.
  rewrite length_insert in Hl'. split_and!; try done. by eapply same_samples_trans.
Qed.

Lemma shuffle_up_spec n : forall heap sorted h,
  ordered slot heap sorted (all_but N h) Q -> (N <= length sorted)%nat ->
  (h + n < N)%nat -> shuffled heap sorted (h + n) (shuffle_up n heap sorted (Z.of_nat h)).
Proof.
  induction n as [| n IH]; intros heap sorted h Ho Hl Hh; cbn [shuffle_up].
  { exists heap, sorted. rewrite Nat.add_0_r. split_and!; try done. apply same_samples_refl. }
  destruct (shuffle_pass heap sorted h (h + 1)) as (p & s & Ep & Es & Ho' & Hs'); try done; try lia.
  replace (Z.of_nat h + 1) with (Z.of_nat (h + 1)) by lia.
  rewrite zget_of_nat, Ep. cbn [mbind option_bind]. rewrite zset_of_nat by lia. cbn [mbind option_bind].
  rewrite Es. cbn [mbind option_bind].
  destruct (IH _ _ (h + 1)%nat Ho') as (heap' & sorted' & -> & Hl' & Ho'' & Hs''); [| lia |].
  { by rewrite length_insert. }
  exists heap', sorted'. replace (h + S n)%nat with (h + 1 + n)%nat by lia.
  rewrite length_insert in Hl'. split_and!; try done. by eapply same_samples_trans.
Qed.
End Shuffles.

(** * Storing a sample *)

Definition DELTA_MAX : Z := 2 ^ 30.

Record jitter_wf (slot : nat) (heap : list jitter_sample) (j : jitter_measurements) (n : nat) : Prop := {
  jw_count : sample_count j = Z.of_nat n;
  jw_full : (n <= JITTER_SAMPLES)%nat;
  jw_sorted : length (sorted_samples j) = JITTER_SAMPLES;
  jw_next : 0 <= next_sample j < Z.of_nat JITTER_SAMPLES;
  jw_next_free : (n < JITTER_SAMPLES)%nat -> next_sample j = Z.of_nat n;
  jw_heap : (base slot + JITTER_SAMPLES <= length heap)%nat;
  jw_order : ordered slot heap (sorted_samples j) (fun m => m < n)%nat (fun i => i < n)%nat;
  jw_delta : forall i s, (i < n)%nat -> heap !! (base slot + i)%nat = Some s ->
    - DELTA_MAX <= delta s < DELTA_MAX
}.

(** The clock is that of one of the samples stored last. *)
Definition recently_seen (slot : nat) (heap : list jitter_sample) (j : jitter_measurements) (clock : Z)
    : Prop :=
  0 < sample_count j /\ exists k s, 0 <= k < Z.of_nat SEEN_SAMPLES /\ k <= sample_count j /\
    heap !! (base slot + Z.to_nat ((next_sample j - 1 - k) mod sample_count j))%nat = Some s /\
    sample_clock s = clock.

Lemma own_sample_Some slot i :
  0 <= i < Z.of_nat JITTER_SAMPLES -> own_sample slot i = Some (base slot + Z.to_nat i)%nat.
Proof. intros. unfold own_sample. by zdecide. Qed.

Lemma seen_before_spec slot heap n clock m : forall i count,
  0 < n <= Z.of_nat JITTER_SAMPLES -> (base slot + JITTER_SAMPLES <= length heap)%nat ->
  -1 <= i < n ->
  exists b, seen_before m heap slot n i count clock = Some b /\
    (b = true <-> exists k s, 0 <= k < Z.of_nat m /\ count + k <= n /\
       heap !! (base slot + Z.to_nat ((i - k) mod n))%nat = Some s /\ sample_clock s = clock).
Proof.
  induction m as [| m IH]; intros i count Hn Hh Hi; cbn [seen_before].
  { exists false. split; [done |]. split; [done |]. intros (k & s & ? & _). lia. }
  destruct (Z.leb_spec count n) as [Hc | Hc].
  2: { exists false. split; [done |]. split; [done |]. intros (k & s & ? & ? & _). lia. }
  set (i' := if i <? 0 then n - 1 else i).
  assert (Hi' : 0 <= i' < n /\ forall k, (i - k) mod n = (i' - k) mod n).
  { unfold i'. zcases; (split; [lia |]); intros k; [| done].
    replace (n - 1 - k) with (i - k + 1 * n) by lia. by rewrite Z.mod_add by lia. }
  destruct Hi' as [Hr Hmod]. rewrite own_sample_Some by lia. cbn [mbind option_bind].
  destruct (lookup_lt_is_Some_2 heap (base slot + Z.to_nat i')) as [s Es]; [lia |].
  rewrite Es. cbn [mbind option_bind].
  assert (E0 : (i - 0) mod n = i') by (rewrite Hmod, Z.sub_0_r; apply Z.mod_small; lia).
  destruct (Z.eqb_spec (sample_clock s) clock) as [Ec | Ec].
  - exists true. split; [done |]. split; [| done]. intros _. exists 0, s. rewrite E0. split_and!; lia || done.
  - destruct (IH (i' - 1) (count + 1) Hn Hh) as (b & -> & Hb); [lia |]. exists b. split; [done |].
    rewrite Hb. split; intros (k & t & Hk & Hck & Ht & Et).
    + exists (k + 1), t. rewrite Hmod. replace (i' - (k + 1)) with (i' - 1 - k) by lia. split_and!; lia || done.
    + destruct (decide (k = 0)) as [-> |]; [rewrite E0 in Ht; simplify_eq |].
      exists (k - 1), t. rewrite Hmod in Ht. replace (i' - 1 - (k - 1)) with (i' - k) by lia.
      split_and!; lia || done.
Qed.

Lemma search_position_spec heap sorted d n fuel : forall min max pos,
  (forall m, (m < n)%nat -> exists p s, sorted !! m = Some (Some p) /\ heap !! p = Some s) ->
  0 <= min -> max < Z.of_nat n -> min <= max + 1 -> max - min < Z.of_nat fuel ->
  0 <= pos <= Z.of_nat n ->
  exists pos', search_position fuel heap sorted d min max pos = Some pos' /\ 0 <= pos' <= Z.of_nat n.
Proof.
  induction fuel as [| fuel IH]; intros min max pos Hdef Hmin Hmax Hm Hf Hp; cbn [search_position].
  { zdecide. by exists pos. }
  destruct (Z.ltb_spec max min); [by exists pos |].
  rewrite Z.quot_div_nonneg by lia. set (mid := (max + min) / 2).
  assert (min <= mid <= max) by (unfold mid; Z.to_euclidean_division_equations; lia).
  destruct (Hdef (Z.to_nat mid)) as (p & s & Ep & Es); [lia |].
  unfold sorted_at. rewrite <- (Z2Nat.id mid), zget_of_nat, Ep, Z2Nat.id by lia. cbn [mbind option_bind].
  rewrite Es. cbn [mbind option_bind]. destruct (d <=? delta s); apply IH; auto; lia.
Qed.

Lemma ordered_remove slot heap sorted P Q m i :
  ordered slot heap sorted P Q -> placed slot heap sorted m i ->
  ordered slot heap sorted (fun x => P x /\ x <> m) (fun x => Q x /\ x <> i).
Proof.
  intros [H1 H2] Hp. split.
  - intros x [Hx Hne]. destruct (H1 x Hx) as (i' & Hi' & Hp'). exists i'. split_and!; try done.
    intros ->. by eapply Hne, placed_inj.
  - intros x [Hx Hne]. destruct (H2 x Hx) as (m' & Hm' & Hp'). exists m'. split_and!; try done.
    intros ->. by eapply Hne, placed_inj_r.
Qed.

Lemma ordered_fill slot heap sorted N h k s :
  ordered slot heap sorted (all_but N h) (all_but N k) -> (h < N <= length sorted)%nat ->
  (k < N)%nat -> (base slot + k < length heap)%nat -> sort_index s = Z.of_nat h ->
  ordered slot (<[(base slot + k)%nat := s]> heap) (<[h := Some (base slot + k)%nat]> sorted)
    (fun m => m < N)%nat (fun i => i < N)%nat.
Proof.
  intros [H1 H2] Hh Hk Hlen Hs.
  assert (Hnew := placed_new slot heap sorted h k s ltac:(lia) Hlen Hs). split.
  - intros m Hm. destruct (decide (m = h)) as [-> |]; [by exists k |].
    destruct (H1 m) as (i & [] & ?); [done |]. exists i. split; [done |]. apply placed_insert; [done | lia | done].
  - intros i Hi. destruct (decide (i = k)) as [-> |]; [exists h; split; [lia | done] |].
    destruct (H2 i) as (m & [] & ?); [done |]. exists m. split; [done |]. apply placed_insert; [done | lia | done].
Qed.

(** The number of samples once one more is stored. *)
Definition count_after (n : nat) : nat := Nat.min (S n) JITTER_SAMPLES.

(** The place freed for the next sample: the end, or where the sample it replaces was. *)
Lemma free_place slot heap j n s :
  jitter_wf slot heap j n -> heap !! (base slot + Z.to_nat (next_sample j))%nat = Some s ->
  exists h, (h < count_after n)%nat /\
    Z.of_nat h = (if Z.of_nat JITTER_SAMPLES <=? sample_count j then sort_index s else sample_count j) /\
    ordered slot heap (sorted_samples j) (all_but (count_after n) h)
      (all_but (count_after n) (Z.to_nat (next_sample j))).
Proof.
  intros W Hs. pose proof (jw_count _ _ _ _ W) as Hc. pose proof (jw_full _ _ _ _ W) as Hfull.
  pose proof (jw_next _ _ _ _ W) as Hnx. pose proof (jw_order _ _ _ _ W) as Ho.
  unfold count_after. destruct (decide (n < JITTER_SAMPLES)%nat) as [Hlt | Hge].
  - exists n. rewrite (jw_next_free _ _ _ _ W Hlt), Nat2Z.id. zdecide. split_and!; [lia | done |].
    eapply ordered_iff; [| | exact Ho]; intros m; unfold all_but; lia.
  - assert (n = JITTER_SAMPLES) as -> by lia. zdecide.
    destruct (proj2 Ho (Z.to_nat (next_sample j))) as (m & Hm & Hp); [lia |].
    pose proof Hp as (Ep & s' & Hs' & Ei). rewrite Hs in Hs'. simplify_eq.
    exists m. split_and!; [lia | done |].
    eapply ordered_iff; [| | exact (ordered_remove _ _ _ _ _ _ _ Ho Hp)]; intros x; unfold all_but; lia.
Qed.

Lemma wf_defined slot heap j n m :
  jitter_wf slot heap j n -> (m < n)%nat ->
  exists p s, sorted_samples j !! m = Some (Some p) /\ heap !! p = Some s.
Proof.
  intros W Hm. destruct (proj1 (jw_order _ _ _ _ W) m Hm) as (i & _ & Hp & s & Hs & _). eauto.
Qed.

Lemma make_place_spec slot heap j n s d :
  jitter_wf slot heap j n -> heap !! (base slot + Z.to_nat (next_sample j))%nat = Some s ->
  exists pos heap' sorted', make_place heap j (sort_index s) d = Some (Z.of_nat pos, heap', sorted') /\
    (pos < count_after n)%nat /\ length sorted' = JITTER_SAMPLES /\
    ordered slot heap' sorted' (all_but (count_after n) pos)
      (all_but (count_after n) (Z.to_nat (next_sample j))) /\
    same_samples slot heap heap'.
Proof.
  intros W Hs. destruct (free_place _ _ _ _ _ W Hs) as (h & Hh & Eh & Ho).
  pose proof (jw_count _ _ _ _ W) as Hc. pose proof (jw_sorted _ _ _ _ W) as Hl.
  pose proof (jw_full _ _ _ _ W) as Hfull. unfold make_place. rewrite <- Eh.
  assert (HQ : forall i, all_but (count_after n) (Z.to_nat (next_sample j)) i -> (i < JITTER_SAMPLES)%nat)
    by (unfold all_but, count_after; lia).
  destruct (Z.ltb_spec 0 (sample_count j)) as [Hpos | Hz].
  2: { exists 0%nat, heap, (sorted_samples j). assert (n = 0%nat) by lia. subst n.
       unfold count_after in *. assert (h = 0%nat) by lia. subst h.
       split_and!; [done | lia | done | exact Ho | apply same_samples_refl]. }
  destruct (search_position_spec heap (sorted_samples j) d n (Z.to_nat (sample_count j)) 0
              (sample_count j - 1) 0) as (q & -> & Hq); try lia.
  { intros m. by apply (wf_defined _ _ _ _ _ W). }
  cbn [mbind option_bind].
  set (pos := if sample_count j <=? q then sample_count j - 1 else q).
  assert (Hp : 0 <= pos < Z.of_nat n) by (unfold pos; zcases; lia).
  destruct (shuffle_down_spec slot _ _ HQ (Z.to_nat (Z.of_nat h - pos)) _ _ _ Ho)
    as (heap1 & sorted1 & -> & Hl1 & Ho1 & Hs1); [unfold count_after; lia | done | lia |].
  cbn [mbind option_bind].
  assert (Hn : (n <= count_after n)%nat) by (unfold count_after; lia).
  destruct (decide (pos <= Z.of_nat h)) as [Hd | Hu].
  - replace (pos - Z.of_nat h) with (-(Z.of_nat h - pos)) by lia.
    replace (Z.to_nat (- (Z.of_nat h - pos))) with 0%nat by lia. cbn [shuffle_up mbind option_bind].
    exists (Z.to_nat pos), heap1, sorted1. rewrite Z2Nat.id by lia. split_and!; try done; try lia.
    by replace (Z.to_nat pos) with (h - Z.to_nat (Z.of_nat h - pos))%nat by lia.
  - replace (Z.to_nat (Z.of_nat h - pos)) with 0%nat in Ho1 by lia. rewrite Nat.sub_0_r in Ho1.
    destruct (shuffle_up_spec slot _ _ HQ (Z.to_nat (pos - Z.of_nat h)) _ _ _ Ho1)
      as (heap2 & sorted2 & -> & Hl2 & Ho2 & Hs2); [unfold count_after; lia | lia |].
    cbn [mbind option_bind].
    exists (Z.to_nat pos), heap2, sorted2. rewrite Z2Nat.id by lia.
    split_and!; try done; try lia; [| by eapply same_samples_trans].
    by replace (Z.to_nat pos) with (h + Z.to_nat (pos - Z.of_nat h))%nat by lia.
Qed.

(** The duplicate test finds exactly the recently seen clocks. *)
Lemma seen_spec slot heap j n clock :
  jitter_wf slot heap j n ->
  exists b, (if 0 <? sample_count j
             then seen_before SEEN_SAMPLES heap slot (sample_count j) (next_sample j - 1) 0 clock
             else Some false) = Some b /\
    (b = true <-> recently_seen slot heap j clock).
Proof.
  intros W. destruct W as [Hc Hfull _ Hnx Hfree Hh _ _]. unfold recently_seen.
  destruct (Z.ltb_spec 0 (sample_count j)); [| exists false; split; [done | split; [done | lia]]].
  destruct (seen_before_spec slot heap (sample_count j) clock SEEN_SAMPLES (next_sample j - 1) 0)
    as (b & -> & Hb); [lia | done | |].
  { destruct (decide (n < JITTER_SAMPLES)%nat); [rewrite Hfree by done |]; lia. }
  exists b. split; [done |]. rewrite Hb. split; [intros Hx | intros [_ Hx]]; done.
Qed.

Lemma ci_id z : INT_MIN <= z <= INT_MAX -> ci z = Some z.
Proof. intros. unfold ci. by zdecide. Qed.

(** All other samples are kept, but for the places of those of the slot. *)
Definition others_kept (slot p0 : nat) (heap heap' : list jitter_sample) : Prop :=
  forall p s, p <> p0 -> heap !! p = Some s -> exists i, heap' !! p = Some (set_sort_index s i) /\
    (~ in_slot slot p -> i = sort_index s).

Lemma same_samples_lookup slot heap heap' p s' :
  same_samples slot heap heap' -> heap' !! p = Some s' ->
  exists s i, heap !! p = Some s /\ s' = set_sort_index s i.
Proof.
  intros [Hl H] Hs'. destruct (lookup_lt_is_Some_2 heap p) as [s Hs].
  { rewrite <- Hl. by eapply lookup_lt_Some. }
  destruct (H p s Hs) as (i & Hi & _). exists s, i. split; [done | congruence].
Qed.

(** The measurements once the sample is in its place. *)
Lemma wf_after slot heap j n heap1 sorted1 clock local pos top :
  jitter_wf slot heap j n -> - DELTA_MAX <= local - clock < DELTA_MAX ->
  (pos < count_after n)%nat -> length sorted1 = JITTER_SAMPLES ->
  ordered slot heap1 sorted1 (all_but (count_after n) pos)
    (all_but (count_after n) (Z.to_nat (next_sample j))) ->
  same_samples slot heap heap1 ->
  let new := (base slot + Z.to_nat (next_sample j))%nat in
  jitter_wf slot (<[new := mk_sample clock local (local - clock) (Z.of_nat pos)]> heap1)
    (mk_jitter (<[pos := Some new]> sorted1) ((next_sample j + 1) mod Z.of_nat JITTER_SAMPLES) top
       (Z.of_nat (count_after n))) (count_after n).
Proof.
  intros W Hd Hpos Hl Ho Hss new. pose proof W as [Hc Hfull Hls Hnx Hfree Hh _ Hdel].
  assert (HN : (count_after n <= JITTER_SAMPLES)%nat) by (unfold count_after; lia).
  assert (Hk : (Z.to_nat (next_sample j) < count_after n)%nat).
  { unfold count_after. destruct (decide (n < JITTER_SAMPLES)%nat); [rewrite Hfree by done |]; lia. }
  split; cbn [sample_count sorted_samples next_sample]; try done.
  - by rewrite length_insert.
  - by apply Z.mod_pos_bound.
  - unfold count_after. intros H. rewrite Hfree by lia. rewrite Z.mod_small by lia. lia.
  - rewrite length_insert. by rewrite (proj1 Hss).
  - apply ordered_fill; try done; [lia |]. rewrite (proj1 Hss). lia.
  - intros i s Hi Hs. destruct (decide (new = (base slot + i)%nat)) as [-> | Hne].
    + rewrite list_lookup_insert_eq in Hs by (rewrite (proj1 Hss); lia). by simplify_eq.
    + rewrite list_lookup_insert_ne in Hs by done.
      destruct (same_samples_lookup _ _ _ _ _ Hss Hs) as (t & q & Ht & ->). cbn.
      eapply (Hdel i); [| done]. unfold new, count_after in *.
      destruct (decide (n < JITTER_SAMPLES)%nat); [rewrite Hfree in Hne by done |]; lia.
Qed.

Lemma store_spec slot heap j n clock local :
  jitter_wf slot heap j n -> ~ recently_seen slot heap j clock ->
  - DELTA_MAX <= local - clock < DELTA_MAX ->
  let new := (base slot + Z.to_nat (next_sample j))%nat in
  exists delay j' heap' first s0 i,
    store_jitter_sample slot heap j clock local = Some (Some delay, j', heap') /\
    jitter_wf slot heap' j' (count_after n) /\
    heap' !! new = Some (mk_sample clock local (local - clock) i) /\
    others_kept slot new heap heap' /\
    next_sample j' = (next_sample j + 1) mod Z.of_nat JITTER_SAMPLES /\
    max_sample_clock j' = Z.max (max_sample_clock j) clock /\
    sorted_samples j' !! 0%nat = Some (Some first) /\ heap' !! first = Some s0 /\
    delay = local - clock - delta s0.
Proof.
  intros W Hn Hd new. pose proof W as [Hc Hfull Hls Hnx Hfree Hh Ho Hdel]. unfold DELTA_MAX in *.
  unfold store_jitter_sample.
  destruct (seen_spec slot heap j n clock W) as (b & -> & Hb). cbn [mbind option_bind].
  destruct b; [tauto |]. rewrite own_sample_Some by done. cbn [mbind option_bind].
  rewrite ci_id by (unfold INT_MIN, INT_MAX; lia). cbn [mbind option_bind].
  destruct (lookup_lt_is_Some_2 heap new) as [s Es]; [unfold new; lia |].
  fold new. rewrite Es. cbn [mbind option_bind].
  destruct (make_place_spec _ _ _ _ _ (local - clock) W Es)
    as (pos & heap1 & sorted1 & -> & Hpos & Hl1 & Ho1 & Hss). cbn [mbind option_bind].
  assert (HN : (count_after n <= JITTER_SAMPLES)%nat) by (unfold count_after; lia).
  rewrite zset_of_nat by lia. cbn [mbind option_bind].
  set (top := if max_sample_clock j <? clock then clock else max_sample_clock j).
  pose proof (wf_after _ _ _ _ _ _ clock local _ top W Hd Hpos Hl1 Ho1 Hss) as W'.
  cbv zeta in W'. fold new in W'.
  replace (if Z.of_nat JITTER_SAMPLES <=? next_sample j + 1 then 0 else next_sample j + 1)
    with ((next_sample j + 1) mod Z.of_nat JITTER_SAMPLES)
    by (zcases; [by replace (next_sample j + 1) with (Z.of_nat JITTER_SAMPLES) by lia | apply Z.mod_small; lia]).
  replace (if sample_count j <? Z.of_nat JITTER_SAMPLES then sample_count j + 1 else sample_count j)
    with (Z.of_nat (count_after n)) by (unfold count_after; zcases; lia).
  set (heap' := <[new := _]> heap1) in *. set (sorted' := <[pos := _]> sorted1) in *.
  destruct (proj1 (jw_order _ _ _ _ W') 0%nat) as (i & Hi & Hp0 & s0 & Hs0 & _); [lia |].
  cbn [sorted_samples] in Hp0. unfold sorted_at. change 0 with (Z.of_nat 0) at 1.
  rewrite zget_of_nat, Hp0. cbn [mbind option_bind]. rewrite Hs0. cbn [mbind option_bind].
  pose proof (jw_delta _ _ _ _ W' i s0 Hi Hs0). unfold DELTA_MAX in *.
  rewrite ci_id by (unfold INT_MIN, INT_MAX; lia). cbn [mbind option_bind].
  do 5 eexists. exists (Z.of_nat pos). split_and!; try done.
  - apply list_lookup_insert_eq. rewrite (proj1 Hss). by eapply lookup_lt_Some.
  - intros p t Hp Ht. unfold heap'. rewrite list_lookup_insert_ne by done. by apply Hss.
  - unfold top. cbn. zcases; lia.
Qed.

(** Storing a sample that was not seen recently succeeds, whatever was stored before, and
    keeps the measurements consistent: the order is a permutation of the samples in which each
    sample knows its place.  The sample takes the place of the oldest one once there are
    JITTER_SAMPLES of them, all other samples (and the other calls') are kept, and the delay is
    relative to the first sample of the order. *)
Theorem store_jitter_sample_correct slot heap j n clock local :
  jitter_wf slot heap j n -> ~ recently_seen slot heap j clock ->
  - DELTA_MAX <= local - clock < DELTA_MAX ->
  let new := (base slot + Z.to_nat (next_sample j))%nat in
  exists delay j' heap' first s0 i,
    store_jitter_sample slot heap j clock local = Some (Some delay, j', heap') /\
    jitter_wf slot heap' j' (count_after n) /\
    heap' !! new = Some (mk_sample clock local (local - clock) i) /\
    others_kept slot new heap heap' /\
    next_sample j' = (next_sample j + 1) mod Z.of_nat JITTER_SAMPLES /\
    max_sample_clock j' = Z.max (max_sample_clock j) clock /\
    sorted_samples j' !! 0%nat = Some (Some first) /\ heap' !! first = Some s0 /\
    delay = local - clock - delta s0.
Proof. apply store_spec. Qed.

Lemma zero_jitter_wf slot heap :
  (base slot + JITTER_SAMPLES <= length heap)%nat -> jitter_wf slot heap zero_jitter 0.
Proof.
  intros H. split; cbn; try done; try lia; unfold JITTER_SAMPLES; try lia.
  split; intros; lia.
Qed.

Lemma store_jitter_sample_correct_witness :
  let heap := replicate 128 zero_sample in
  exists delay j' heap' first s0 i,
    store_jitter_sample 0 heap zero_jitter 20 1050 = Some (Some delay, j', heap') /\
    jitter_wf 0 heap' j' (count_after 0) /\
    heap' !! 0%nat = Some (mk_sample 20 1050 (1050 - 20) i) /\
    others_kept 0 0 heap heap' /\
    next_sample j' = (0 + 1) mod Z.of_nat JITTER_SAMPLES /\
    max_sample_clock j' = Z.max 0 20 /\
    sorted_samples j' !! 0%nat = Some (Some first) /\ heap' !! first = Some s0 /\
    delay = 1050 - 20 - delta s0.
Proof.
  apply (store_jitter_sample_correct 0 (replicate 128 zero_sample) zero_jitter 0 20 1050).
  - apply zero_jitter_wf. reflexivity.
  - intros [H _]. by vm_compute in H.
  - by vm_compute.
Defined.

(** A sample clock that was just stored is refused, with nothing changed, whenever it
    arrives again. *)
Theorem stored_sample_refused slot heap j n clock local :
  jitter_wf slot heap j n -> ~ recently_seen slot heap j clock ->
  - DELTA_MAX <= local - clock < DELTA_MAX ->
  exists delay j' heap', store_jitter_sample slot heap j clock local = Some (Some delay, j', heap') /\
    forall local', store_jitter_sample slot heap' j' clock local' = Some (None, j', heap').
Proof.
  intros W Hn Hd.
  destruct (store_spec _ _ _ _ _ _ W Hn Hd) as (delay & j' & heap' & f & s0 & i & E & W' & Hnew & _ & Hnx & _).
  exists delay, j', heap'. split; [done |]. intros local'. unfold store_jitter_sample.
  destruct (seen_spec _ _ _ _ clock W') as (b & -> & Hb). cbn [mbind option_bind].
  destruct b; [done |]. exfalso. cut (false = true); [done |]. apply Hb. unfold recently_seen.
  pose proof (jw_count _ _ _ _ W') as Hc. pose proof (jw_next _ _ _ _ W). pose proof (jw_full _ _ _ _ W).
  rewrite Hc. split; [unfold count_after, JITTER_SAMPLES; lia |].
  exists 0, (mk_sample clock local (local - clock) i). split_and!; [done | unfold SEEN_SAMPLES; lia | lia | | done].
  rewrite <- Hnew. f_equal. f_equal. f_equal. rewrite Hnx, Z.sub_0_r.
  unfold count_after. destruct (decide (n < JITTER_SAMPLES)%nat) as [Hlt |].
  - pose proof (jw_next_free _ _ _ _ W Hlt) as ->. destruct (decide (S n = JITTER_SAMPLES)) as [En |].
    + replace (Z.of_nat n + 1) with (Z.of_nat JITTER_SAMPLES) by lia. rewrite Z.mod_same by done.
      rewrite Nat.min_l by lia. rewrite En. replace (Z.of_nat n) with (Z.of_nat JITTER_SAMPLES - 1) by lia.
      reflexivity.
    + rewrite (Z.mod_small (_ + 1)) by lia. rewrite Z.mod_small; lia.
  - rewrite Nat.min_r by lia. rewrite Zminus_mod_idemp_l, Z.add_simpl_r. by apply Z.mod_small.
Qed.

Lemma stored_sample_refused_witness :
  exists delay j' heap',
    store_jitter_sample 0 (replicate 128 zero_sample) zero_jitter 20 1050 = Some (Some delay, j', heap') /\
    forall local', store_jitter_sample 0 heap' j' 20 local' = Some (None, j', heap').
Proof.
  apply (stored_sample_refused 0 (replicate 128 zero_sample) zero_jitter 0 20 1050).
  - apply zero_jitter_wf. reflexivity.
  - intros [H _]. by vm_compute in H.
  - by vm_compute.
Defined.

Definition deltas (heap : list jitter_sample) (j : jitter_measurements) : list Z :=
  omap (fun o => p ← o; delta <$> (heap !! p)) (take (Z.to_nat (sample_count j)) (sorted_samples j)).

(** Stores the samples [(clock, local)] of a call in order; the last delay. *)
Fixpoint store_all (slot : nat) (heap : list jitter_sample) (j : jitter_measurements) (l : list (Z * Z))
    (last : option Z) : option (option Z * jitter_measurements * list jitter_sample) :=
  match l with
  | [] => Some (last, j, heap)
  | (c, t) :: l => '(d, j, heap) ← store_jitter_sample slot heap j c t; store_all slot heap j l d
  end.

(** The position found for a sample is cut to the last sample's, so a sample later than all
    others goes before the last one: after samples with deltas 0, 30 and 10 the order is not
    sorted, the third sample's delay is measured as 0 and not as 10, and the jitter is reported
    as the minimum. *)
Theorem jitter_order_unsorted :
  exists j heap, store_all 0 (replicate 128 zero_sample) zero_jitter [(0, 0); (20, 50); (40, 50)] None
                 = Some (Some 0, j, heap) /\
    deltas heap j = [10; 30; 0] /\ get_jitter_size heap j = Some 60.
Proof. do 2 eexists. split; [vm_compute; reflexivity |]. split; vm_compute; reflexivity. Qed.
