(* ===== verification/Vomp.v ===== *)
(** Vomp: vomp.c, voice calls.

    The table of calls, the packets the calls send and receive, and the handlers:
    the monitor's commands (dial, ring, pick up, hang up), a received packet, the
    tick of a call's alarm.  The handlers run in a state monad [VM] over [vworld]:
    the static table, the audio samples of all calls, the clock readings made so
    far, the random numbers still to come, and the output, a list of events: packets
    dispatched, messages to monitor clients, STUN requests.  [None] is undefined
    behaviour, or (in [schedule]) the abort of FATAL.

    A call pointer is the index of the call's slot, a subscriber pointer the index
    of its object in the directory.  overlay_mdp_dispatch is an output, so a call to
    this node itself, whose packets are delivered while they are being sent, is not
    covered: its packet is received in a later step. *)

From S2P Require Import Prelude DataFormats Str Strlcpy SubscriberTree Jitter.

Definition VOMP_STATE_NOCALL : Z := 1.
Definition VOMP_STATE_CALLPREP : Z := 2.
Definition VOMP_STATE_RINGINGOUT : Z := 3.
Definition VOMP_STATE_RINGINGIN : Z := 4.
Definition VOMP_STATE_INCALL : Z := 5.
Definition VOMP_STATE_CALLENDED : Z := 6.

Definition VOMP_REJECT_NOPHONE : Z := 1.
Definition VOMP_REJECT_NOCODEC : Z := 2.
Definition VOMP_REJECT_BUSY : Z := 3.
Definition VOMP_REJECT_TIMEOUT : Z := 4.

Definition VOMP_SESSION_MASK : Z := 0xffff.
Definition VOMP_MAX_CALLS : nat := 16.
Definition VOMP_VERSION : Z := 2.
Definition VOMP_CALL_DIAL_TIMEOUT : Z := 15000.
Definition VOMP_CALL_RING_TIMEOUT : Z := 60000.
Definition VOMP_CALL_NETWORK_TIMEOUT : Z := 120000.
Definition VOMP_CALL_STATUS_INTERVAL : Z := 1000.
Definition DID_LENGTH : nat := 64.

Definition MDP_TX : Z := 1.
Definition MDP_NOCRYPT : Z := 0x0200.
Definition MDP_NOSIGN : Z := 0x0400.
Definition MDP_PORT_VOMP : Z := 12.
Definition MDP_PAYLOAD : nat := 1100.
Definition OQ_ISOCHRONOUS_VOICE : Z := 0.
Definition OQ_ORDINARY : Z := 3.

(** ** State *)

Record vomp_call_half := mk_half {
  subscriber_of : option nat;
  did : list Z;
  state : Z;
  session : Z;
  sequence : Z
}.

(** [alarm], [deadline] and [scheduled] stand for the [struct sched_ent]. *)
Record vomp_call_state := mk_call {
  alarm : Z;
  deadline : Z;
  scheduled : bool;
  local : vomp_call_half;
  remote : vomp_call_half;
  initiated_call : bool;
  create_time : Z;
  last_activity : Z;
  audio_clock : Z;
  remote_audio_clock : Z;
  last_sent_status : Z;
  rejection_reason : Z;
  remote_codec_flags : list Z;
  jitter : jitter_measurements
}.

Definition set_alarm (c : vomp_call_state) (x : Z) : vomp_call_state :=
  mk_call x (deadline c) (scheduled c) (local c) (remote c) (initiated_call c) (create_time c)
    (last_activity c) (audio_clock c) (remote_audio_clock c) (last_sent_status c)
    (rejection_reason c) (remote_codec_flags c) (jitter c).

Definition set_deadline (c : vomp_call_state) (x : Z) : vomp_call_state :=
  mk_call (alarm c) x (scheduled c) (local c) (remote c) (initiated_call c) (create_time c)
    (last_activity c) (audio_clock c) (remote_audio_clock c) (last_sent_status c)
    (rejection_reason c) (remote_codec_flags c) (jitter c).

Definition set_scheduled (c : vomp_call_state) (x : bool) : vomp_call_state :=
  mk_call (alarm c) (deadline c) x (local c) (remote c) (initiated_call c) (create_time c)
    (last_activity c) (audio_clock c) (remote_audio_clock c) (last_sent_status c)
    (rejection_reason c) (remote_codec_flags c) (jitter c).

Definition set_local (c : vomp_call_state) (x : vomp_call_half) : vomp_call_state :=
  mk_call (alarm c) (deadline c) (scheduled c) x (remote c) (initiated_call c) (create_time c)
    (last_activity c) (audio_clock c) (remote_audio_clock c) (last_sent_status c)
    (rejection_reason c) (remote_codec_flags c) (jitter c).

Definition set_remote (c : vomp_call_state) (x : vomp_call_half) : vomp_call_state :=
  mk_call (alarm c) (deadline c) (scheduled c) (local c) x (initiated_call c) (create_time c)
    (last_activity c) (audio_clock c) (remote_audio_clock c) (last_sent_status c)
    (rejection_reason c) (remote_codec_flags c) (jitter c).

Definition set_initiated_call (c : vomp_call_state) (x : bool) : vomp_call_state :=
  mk_call (alarm c) (deadline c) (scheduled c) (local c) (remote c) x (create_time c)
    (last_activity c) (audio_clock c) (remote_audio_clock c) (last_sent_status c)
    (rejection_reason c) (remote_codec_flags c) (jitter c).

Definition set_create_time (c : vomp_call_state) (x : Z) : vomp_call_state :=
  mk_call (alarm c) (deadline c) (scheduled c) (local c) (remote c) (initiated_call c) x
    (last_activity c) (audio_clock c) (remote_audio_clock c) (last_sent_status c)
    (rejection_reason c) (remote_codec_flags c) (jitter c).

Definition set_last_activity (c : vomp_call_state) (x : Z) : vomp_call_state :=
  mk_call (alarm c) (deadline c) (scheduled c) (local c) (remote c) (initiated_call c)
    (create_time c) x (audio_clock c) (remote_audio_clock c) (last_sent_status c)
    (rejection_reason c) (remote_codec_flags c) (jitter c).

Definition set_audio_clock (c : vomp_call_state) (x : Z) : vomp_call_state :=
  mk_call (alarm c) (deadline c) (scheduled c) (local c) (remote c) (initiated_call c)
    (create_time c) (last_activity c) x (remote_audio_clock c) (last_sent_status c)
    (rejection_reason c) (remote_codec_flags c) (jitter c).

Definition set_remote_audio_clock (c : vomp_call_state) (x : Z) : vomp_call_state :=
  mk_call (alarm c) (deadline c) (scheduled c) (local c) (remote c) (initiated_call c)
    (create_time c) (last_activity c) (audio_clock c) x (last_sent_status c) (rejection_reason c)
    (remote_codec_flags c) (jitter c).

Definition set_last_sent_status (c : vomp_call_state) (x : Z) : vomp_call_state :=
  mk_call (alarm c) (deadline c) (scheduled c) (local c) (remote c) (initiated_call c)
    (create_time c) (last_activity c) (audio_clock c) (remote_audio_clock c) x
    (rejection_reason c) (remote_codec_flags c) (jitter c).

Definition set_rejection_reason (c : vomp_call_state) (x : Z) : vomp_call_state :=
  mk_call (alarm c) (deadline c) (scheduled c) (local c) (remote c) (initiated_call c)
    (create_time c) (last_activity c) (audio_clock c) (remote_audio_clock c) (last_sent_status c)
    x (remote_codec_flags c) (jitter c).

Definition set_remote_codec_flags (c : vomp_call_state) (x : list Z) : vomp_call_state :=
  mk_call (alarm c) (deadline c) (scheduled c) (local c) (remote c) (initiated_call c)
    (create_time c) (last_activity c) (audio_clock c) (remote_audio_clock c) (last_sent_status c)
    (rejection_reason c) x (jitter c).

Definition set_jitter (c : vomp_call_state) (x : jitter_measurements) : vomp_call_state :=
  mk_call (alarm c) (deadline c) (scheduled c) (local c) (remote c) (initiated_call c)
    (create_time c) (last_activity c) (audio_clock c) (remote_audio_clock c) (last_sent_status c)
    (rejection_reason c) (remote_codec_flags c) x.

Definition set_did (h : vomp_call_half) (x : list Z) : vomp_call_half :=
  mk_half (subscriber_of h) x (state h) (session h) (sequence h).

Definition set_state (h : vomp_call_half) (x : Z) : vomp_call_half :=
  mk_half (subscriber_of h) (did h) x (session h) (sequence h).

Definition set_session (h : vomp_call_half) (x : Z) : vomp_call_half :=
  mk_half (subscriber_of h) (did h) (state h) x (sequence h).

Definition set_sequence (h : vomp_call_half) (x : Z) : vomp_call_half :=
  mk_half (subscriber_of h) (did h) (state h) (session h) x.

Definition zero_half : vomp_call_half := mk_half None (replicate DID_LENGTH 0) 0 0 0.
Definition zero_call : vomp_call_state :=
  mk_call 0 0 false zero_half zero_half false 0 0 0 0 0 0 (replicate CODEC_FLAGS_LENGTH 0) zero_jitter.

(** The frame of overlay_mdp.h with its data; [in] and [out] are one union member. *)
Record mdp_frame := mk_mdp {
  packetTypeAndFlags : Z;
  src_sid : list Z;
  src_port : Z;
  dst_sid : list Z;
  dst_port : Z;
  mdp_queue : Z;
  mdp_payload : list Z;
  payload_length : Z
}.

Definition set_mdp_queue (m : mdp_frame) (x : Z) : mdp_frame :=
  mk_mdp (packetTypeAndFlags m) (src_sid m) (src_port m) (dst_sid m) (dst_port m) x
    (mdp_payload m) (payload_length m).
Definition set_mdp_payload (m : mdp_frame) (p : list Z) (n : Z) : mdp_frame :=
  mk_mdp (packetTypeAndFlags m) (src_sid m) (src_port m) (dst_sid m) (dst_port m) (mdp_queue m) p n.

(** What the handlers put out: a packet for the mesh, a STUN request to a
    subscriber, and the messages to monitor clients with their arguments. *)
Inductive event :=
  | Dispatch (m : mdp_frame)
  | Stun (s : option nat)
  | CallStatus (local_session remote_session local_state remote_state : Z)
      (local_sid remote_sid local_did remote_did : list Z)
  | Audio (local_session codec time sequence jitter delay : Z) (audio : list Z)
  | Codecs (local_session : Z) (codecs : list Z)
  | CallTo (local_session : Z) (local_sid local_did remote_sid remote_did : list Z)
  | CallFrom (local_session : Z) (local_sid local_did remote_sid remote_did : list Z)
  | Ringing (local_session : Z)
  | Answered (local_session : Z)
  | Hangup (local_session : Z)
  | KeepAlive (local_session : Z).

(** [entropy]: what the coming calls of urandombytes store, or their failure. *)
Record vworld := mk_vworld {
  calls : list vomp_call_state;
  vomp_call_count : Z;
  heap : list jitter_sample;
  reads : nat;
  entropy : list (option Z);
  out : list event
}.

Definition set_calls (w : vworld) (x : list vomp_call_state) : vworld :=
  mk_vworld x (vomp_call_count w) (heap w) (reads w) (entropy w) (out w).

Definition set_vomp_call_count (w : vworld) (x : Z) : vworld :=
  mk_vworld (calls w) x (heap w) (reads w) (entropy w) (out w).

Definition set_heap (w : vworld) (x : list jitter_sample) : vworld :=
  mk_vworld (calls w) (vomp_call_count w) x (reads w) (entropy w) (out w).

Definition set_reads (w : vworld) (x : nat) : vworld :=
  mk_vworld (calls w) (vomp_call_count w) (heap w) x (entropy w) (out w).

Definition set_entropy (w : vworld) (x : list (option Z)) : vworld :=
  mk_vworld (calls w) (vomp_call_count w) (heap w) (reads w) x (out w).

Definition set_out (w : vworld) (x : list event) : vworld :=
  mk_vworld (calls w) (vomp_call_count w) (heap w) (reads w) (entropy w) x.

Definition VM (A : Type) : Type := vworld -> option (A * vworld).

#[export] Instance VM_ret : MRet VM := fun A x w => Some (x, w).
#[export] Instance VM_bind : MBind VM := fun A B f m w =>
  match m w with Some (x, w) => f x w | None => None end.

Definition fault {A} : VM A := fun _ => None.
Definition vlift {A} (o : option A) : VM A := fun w => x ← o; Some (x, w).
Definition get_call (i : nat) : VM vomp_call_state := fun w => c ← calls w !! i; Some (c, w).
Definition put_call (i : nat) (c : vomp_call_state) : VM unit := fun w =>
  Some (tt, set_calls w (<[i := c]> (calls w))).
Definition upd (i : nat) (f : vomp_call_state -> vomp_call_state) : VM unit :=
  c ← get_call i; put_call i (f c).
Definition emit_event (e : event) : VM unit := fun w => Some (tt, set_out w (out w ++ [e])).

(** _schedule of fdqueue.c as far as the entry itself is concerned. *)
Definition schedule (i : nat) : VM unit :=
  c ← get_call i;
  if scheduled c then fault
  else put_call i (set_scheduled (set_deadline c (Z.max (deadline c) (alarm c))) true).
Definition unschedule (i : nat) : VM unit := upd i (fun c => set_scheduled c false).

(** ** Finding calls *)

(** [n] slots from [i] on. *)
Fixpoint find_session (n i : nat) (token : Z) : VM (option nat) :=
  match n with
  | O => mret None
  | S n =>
      c ← get_call i;
      if u32 token =? session (local c) then mret (Some i) else find_session n (S i) token
  end.

Definition vomp_find_call_by_session (session_token : Z) : VM (option nat) := fun w =>
  find_session (Z.to_nat (vomp_call_count w)) 0 session_token w.

(** The loop over the random numbers, with the sessions in use. *)
Fixpoint generate_session (used : list Z) (ent : list (option Z)) : option (Z * list (option Z)) :=
  match ent with
  | [] => None
  | None :: ent => Some (-1, ent)
  | Some v :: ent =>
      let session_id := Z.land v VOMP_SESSION_MASK in
      if (session_id =? 0) || existsb (fun s => session_id =? s) used
      then generate_session used ent
      else Some (session_id, ent)
  end.

Definition sessions_in_use (w : vworld) : list Z :=
  (fun c => session (local c)) <$> take (Z.to_nat (vomp_call_count w)) (calls w).

Definition vomp_generate_session_id : VM Z := fun w =>
  '(session_id, ent) ← generate_session (sessions_in_use w) (entropy w);
  Some (session_id, set_entropy w ent).

(** bzero of the samples of a slot. *)
Definition clear_samples (i : nat) (h : list jitter_sample) : list jitter_sample :=
  take (base i) h ++ replicate JITTER_SAMPLES zero_sample ++ drop (base i + JITTER_SAMPLES) h.

(** The samples of slot [i] become those of slot [j]. *)
Definition copy_samples (i j : nat) (h : list jitter_sample) : list jitter_sample :=
  take (base i) h ++ take JITTER_SAMPLES (drop (base j) h) ++ drop (base i + JITTER_SAMPLES) h.

Section vomp.
(** The clock, the directory, and what the monitor tells about its clients. *)
Context (clock : nat -> Z) (dir : directory).
Context (monitor_socket_count : Z) (interested : bool) (supported_codecs : list Z).

Definition gettime_ms : VM Z := fun w => Some (clock (reads w), set_reads w (S (reads w))).

Definition sid_at (p : option nat) : VM (list Z) :=
  vlift (i ← p; s ← subscribers dir !! i; Some (sid s)).

Definition find_sid (id : list Z) : VM (option nat) :=
  vlift ('(r, _) ← find_subscriber dir id SID_SIZE false; Some r).

Definition prepared_call (remote local : option nat) (remote_session local_session now : Z)
    : vomp_call_state :=
  mk_call (now + VOMP_CALL_STATUS_INTERVAL) 0 false
    (mk_half local (replicate DID_LENGTH 0) VOMP_STATE_NOCALL local_session 0)
    (mk_half remote (replicate DID_LENGTH 0) VOMP_STATE_NOCALL remote_session 0)
    false now now 0 0 (-1) 0 (replicate CODEC_FLAGS_LENGTH 0) zero_jitter.

Definition vomp_create_call (remote local : option nat) (remote_session local_session : Z) : VM nat :=
  local_session ← (if local_session =? 0 then s ← vomp_generate_session_id; mret (u32 s)
                   else mret local_session);
  i ← (fun w => Some (Z.to_nat (vomp_call_count w), set_vomp_call_count w (vomp_call_count w + 1)));
  _ ← get_call i;
  _ ← (fun w => Some (tt, set_heap w (clear_samples i (heap w))));
  now ← gettime_ms;
  _ ← put_call i (prepared_call remote local remote_session local_session now);
  _ ← schedule i;
  mret i.

(** One call against the packet's sessions and subscribers. *)
Definition call_matches (c : vomp_call_state) (remote_sub local_sub : option nat)
    (sender_session recvr_session : Z) : bool :=
  let known_remote := negb (session (remote c) =? 0) && negb (sender_session =? 0) in
  let known_local := negb (session (local c) =? 0) && negb (recvr_session =? 0) in
  if known_remote && negb (sender_session =? session (remote c)) then false
  else if known_local && negb (recvr_session =? session (local c)) then false
  else if negb (known_remote || known_local) then false
  else bool_decide (remote_sub = subscriber_of (remote c)) &&
       bool_decide (local_sub = subscriber_of (local c)).

Fixpoint find_matching (n i : nat) (remote_sub local_sub : option nat)
    (sender_session recvr_session : Z) : VM (option nat) :=
  match n with
  | O => mret None
  | S n =>
      c ← get_call i;
      if call_matches c remote_sub local_sub sender_session recvr_session then
        _ ← (if session (remote c) =? 0
             then put_call i (set_remote c (set_session (remote c) sender_session))
             else mret tt);
        mret (Some i)
      else find_matching n (S i) remote_sub local_sub sender_session recvr_session
  end.

Definition vomp_find_or_create_call (remote_sub local_sub : option nat)
    (sender_session recvr_session sender_state recvr_state : Z) : VM (option nat) :=
  n ← (fun w => Some (Z.to_nat (vomp_call_count w), w));
  found ← find_matching n 0 remote_sub local_sub sender_session recvr_session;
  match found with
  | Some i => mret (Some i)
  | None =>
      if (sender_state =? VOMP_STATE_CALLENDED) || (recvr_state =? VOMP_STATE_CALLENDED)
      then mret None
      else if (sender_state =? VOMP_STATE_CALLPREP) && (recvr_state =? VOMP_STATE_NOCALL)
              && (recvr_session =? 0)
      then i ← vomp_create_call remote_sub local_sub sender_session recvr_session; mret (Some i)
      else mret None
  end.

(** ** Packets to the other party *)

(** [mdp.out.payload[( *len)++]=x] *)
Definition put_byte (m : mdp_frame) (x : Z) : option mdp_frame :=
  p ← zset (mdp_payload m) (payload_length m) (u8 x);
  Some (set_mdp_payload m p (u16 (payload_length m + 1))).

Fixpoint put_bytes (m : mdp_frame) (l : list Z) : option mdp_frame :=
  match l with [] => Some m | x :: l => m ← put_byte m x; put_bytes m l end.

(** [snprintf] of a did at the end of the payload, which it may cut short. *)
Definition put_did (m : mdp_frame) (d : list Z) : option mdp_frame :=
  n ← strlen d;
  let room := Z.of_nat MDP_PAYLOAD - payload_length m in
  if room <? 0 then None
  else
    p ← (if room =? 0 then Some (mdp_payload m)
         else zblit (mdp_payload m) (payload_length m)
                (take (Z.to_nat (Z.min n (room - 1))) d ++ [0]));
    Some (set_mdp_payload m p (u16 (payload_length m + n + 1))).

Definition vomp_header (c : vomp_call_state) : list Z :=
  [VOMP_VERSION;
   Z.land (Z.shiftr (session (local c)) 8) 0xff; Z.land (session (local c)) 0xff;
   Z.land (Z.shiftr (session (remote c)) 8) 0xff; Z.land (session (remote c)) 0xff;
   Z.lor (Z.shiftl (state (remote c)) 4) (state (local c))].

Definition prepare_vomp_header (c : vomp_call_state) : VM mdp_frame :=
  local_sid ← sid_at (subscriber_of (local c));
  remote_sid ← sid_at (subscriber_of (remote c));
  m ← vlift (put_bytes (mk_mdp MDP_TX local_sid MDP_PORT_VOMP remote_sid MDP_PORT_VOMP 0
                          (replicate MDP_PAYLOAD 0) 0) (vomp_header c));
  now ← gettime_ms;
  _ ← (if (state (local c) <? VOMP_STATE_CALLENDED) && (now <? create_time c + 10000)
       then emit_event (Stun (subscriber_of (remote c))) else mret tt);
  mret m.

(** [for (i = 0; i < 256; ++i) if (is_codec_set(i,codecs))], [n] numbers from [i]. *)
Fixpoint codecs_from (n : nat) (i : Z) (flags : list Z) : option (list Z) :=
  match n with
  | O => Some []
  | S n =>
      x ← is_codec_set i flags;
      l ← codecs_from n (i + 1) flags;
      Some (if x =? 0 then l else i :: l)
  end.

Definition all_codecs (flags : list Z) : option (list Z) := codecs_from 256 0 flags.

Definition vomp_send_status_remote (i : nat) : VM Z :=
  c ← get_call i;
  m ← prepare_vomp_header c;
  let m := set_mdp_queue m OQ_ORDINARY in
  m ← (if (state (local c) <? VOMP_STATE_RINGINGOUT) && (state (remote c) <? VOMP_STATE_RINGINGOUT)
       then
         codecs ← vlift (all_codecs supported_codecs);
         m ← vlift (put_bytes m (codecs ++ [0]));
         if initiated_call c then
           m ← vlift (put_did m (did (local c)));
           vlift (put_did m (did (remote c)))
         else mret m
       else mret m);
  _ ← upd i (fun c => set_local c (set_sequence (local c) (u32 (sequence (local c) + 1))));
  _ ← emit_event (Dispatch m);
  mret 0.

Definition vomp_received_audio (i : nat) (audio_codec time sequence_arg : Z) (audio : list Z) : VM Z :=
  c ← get_call i;
  if negb (state (local c) =? VOMP_STATE_INCALL) then mret (-1)
  else
    time ← (if time =? -1 then
              _ ← put_call i (set_audio_clock c
                    (audio_clock c + vomp_codec_timespan audio_codec (zlen audio)));
              mret (i32 (audio_clock c))
            else mret time);
    c ← get_call i;
    sequence_arg ← (if sequence_arg =? -1 then
              _ ← put_call i (set_local c (set_sequence (local c) (u32 (sequence (local c) + 1))));
              mret (i32 (sequence (local c)))
            else mret sequence_arg);
    c ← get_call i;
    m ← prepare_vomp_header c;
    let time := Z.quot time 20 in
    m ← vlift (put_bytes m [audio_codec; Z.land (Z.shiftr time 8) 0xff; Z.land time 0xff;
                            Z.land (Z.shiftr sequence_arg 8) 0xff; Z.land sequence_arg 0xff]);
    p ← vlift (zblit (mdp_payload m) (payload_length m) audio);
    let m := set_mdp_payload m p (u16 (payload_length m + zlen audio)) in
    _ ← emit_event (Dispatch (set_mdp_queue m OQ_ISOCHRONOUS_VOICE));
    mret 0.

(** ** Messages to monitor clients *)

Definition did_text (d : list Z) : VM (list Z) := n ← vlift (strlen d); mret (take (Z.to_nat n) d).

Definition monitor_call_status (i : nat) : VM Z :=
  c ← get_call i;
  local_sid ← sid_at (subscriber_of (local c));
  remote_sid ← sid_at (subscriber_of (remote c));
  local_did ← did_text (did (local c));
  remote_did ← did_text (did (remote c));
  _ ← emit_event (CallStatus (session (local c)) (session (remote c)) (state (local c))
                    (state (remote c)) local_sid remote_sid local_did remote_did);
  mret 0.

(** The audio is [audio_length] bytes from offset [ofs] of the payload. *)
Definition monitor_send_audio (i : nat) (audio_codec time sequence_arg : Z) (payload : list Z)
    (ofs audio_length delay : Z) : VM Z :=
  c ← get_call i;
  jitter_delay ← (fun w => d ← get_jitter_size (heap w) (jitter c); Some (d, w));
  audio ← vlift (zslice payload ofs audio_length);
  _ ← emit_event (Audio (session (local c)) audio_codec time sequence_arg jitter_delay delay audio);
  mret 0.

(** A message with the parties of the call. *)
Definition tell_parties (c : vomp_call_state)
    (msg : Z -> list Z -> list Z -> list Z -> list Z -> event) : VM unit :=
  local_sid ← sid_at (subscriber_of (local c));
  remote_sid ← sid_at (subscriber_of (remote c));
  local_did ← did_text (did (local c));
  remote_did ← did_text (did (remote c));
  emit_event (msg (session (local c)) local_sid local_did remote_sid remote_did).

Definition vomp_update_local_state (i : nat) (new_state : Z) : VM Z :=
  c ← get_call i;
  if new_state <=? state (local c) then mret 0
  else
    _ ← (if (VOMP_STATE_CALLPREP <? new_state) && (new_state <=? VOMP_STATE_INCALL)
            && (state (local c) <=? VOMP_STATE_CALLPREP)
         then
           ours ← vlift (all_codecs supported_codecs);
           theirs ← vlift (all_codecs (remote_codec_flags c));
           emit_event (Codecs (session (local c))
             (List.filter (fun x => existsb (fun y => x =? y) ours) theirs))
         else mret tt);
    _ ← (if new_state =? VOMP_STATE_CALLPREP then tell_parties c CallTo
         else if new_state =? VOMP_STATE_CALLENDED then emit_event (Hangup (session (local c)))
         else mret tt);
    _ ← put_call i (set_local c (set_state (local c) (u8 new_state)));
    mret 0.

Definition vomp_update_remote_state (i : nat) (new_state : Z) : VM Z :=
  c ← get_call i;
  if new_state <=? state (remote c) then mret 0
  else
    _ ← (if new_state =? VOMP_STATE_RINGINGOUT then tell_parties c CallFrom
         else if new_state =? VOMP_STATE_RINGINGIN then emit_event (Ringing (session (local c)))
         else if new_state =? VOMP_STATE_INCALL then
           if state (remote c) =? VOMP_STATE_RINGINGIN
           then emit_event (Answered (session (local c))) else mret tt
         else mret tt);
    _ ← put_call i (set_remote c (set_state (remote c) (u8 new_state)));
    mret 0.

Definition vomp_update (i : nat) : VM Z :=
  c ← get_call i;
  let combined_status := Z.lor (Z.shiftl (state (remote c)) 4) (state (local c)) in
  if last_sent_status c =? combined_status then mret 0
  else
    _ ← put_call i (set_last_sent_status c combined_status);
    _ ← vomp_send_status_remote i;
    _ ← (if negb (monitor_socket_count =? 0) && interested
         then monitor_call_status i else mret 0);
    mret 0.

(** ** Audio *)

Definition to_absolute_value (short_value reference_value : Z) : option Z :=
  let short_value := i32 (Z.lor (Z.land (u32 reference_value) 0xFFFF0000) (u32 short_value)) in
  low ← ci (short_value + 0x8000);
  short_value ← (if low <? reference_value then ci (short_value + 0x10000) else Some short_value);
  high ← ci (reference_value + 0x8000);
  if high <? short_value then ci (short_value - 0x10000) else Some short_value.

Definition payload_at (m : mdp_frame) (i : Z) : VM Z := vlift (zget (mdp_payload m) i).

Definition vomp_process_audio (i : nat) (m : mdp_frame) (now : Z) : VM Z :=
  if payload_length m <=? 6 then mret 0
  else
    codec ← payload_at m 6;
    t1 ← payload_at m 7; t0 ← payload_at m 8;
    let time := Z.lor (Z.shiftl t1 8) t0 in
    s1 ← payload_at m 9; s0 ← payload_at m 10;
    let sequence_in := Z.lor (Z.shiftl s1 8) s0 in
    c ← get_call i;
    decoded_time ← vlift (to_absolute_value time (remote_audio_clock c));
    decoded_sequence ← vlift (to_absolute_value sequence_in (i32 (sequence (remote c))));
    _ ← (if (remote_audio_clock c <? decoded_time) && (sequence (remote c) <? u32 decoded_sequence)
         then put_call i (set_remote_audio_clock
                (set_remote c (set_sequence (remote c) (u32 decoded_sequence))) decoded_time)
         else mret tt);
    decoded_time ← vlift (ci (decoded_time * 20));
    let audio_len := payload_length m - 11 in
    c ← get_call i;
    stored ← (fun w => '(r, j, h) ← store_jitter_sample i (heap w) (jitter c) decoded_time (i32 now);
                       Some ((r, j), set_heap w h));
    _ ← put_call i (set_jitter c (snd stored));
    match fst stored with
    | None => mret 0
    | Some delay =>
        if negb (monitor_socket_count =? 0)
        then _ ← monitor_send_audio i codec decoded_time decoded_sequence (mdp_payload m) 11
                   audio_len delay; mret 0
        else mret 0
    end.

(** ** The monitor's commands *)

Definition vomp_ringing (call : option nat) : VM Z :=
  match call with
  | None => mret 0
  | Some i =>
      c ← get_call i;
      if negb (initiated_call c) && (state (local c) <? VOMP_STATE_RINGINGIN)
         && (state (remote c) =? VOMP_STATE_RINGINGOUT)
      then
        _ ← vomp_update_local_state i VOMP_STATE_RINGINGIN;
        _ ← vomp_update i;
        mret 0
      else mret (-1)
  end.

Definition vomp_call_destroy (i : nat) : VM Z :=
  _ ← unschedule i;
  _ ← upd i (fun c => set_remote (set_local c (set_session (local c) 0))
                                 (set_session (remote c) 0));
  last ← (fun w => Some (Z.to_nat (vomp_call_count w - 1),
                         set_vomp_call_count w (vomp_call_count w - 1)));
  if (i =? last)%nat then mret 0
  else
    _ ← unschedule last;
    c ← get_call last;
    _ ← put_call i c;
    _ ← (fun w => Some (tt, set_heap w (copy_samples i last (heap w))));
    _ ← schedule i;
    mret 0.

(** [strlcpy] into a did. *)
Definition copy_did (d : list Z) (text : list Z) : option (Z * list Z) :=
  strlcpy d text (Z.of_nat DID_LENGTH).

Definition vomp_dial (local_sub remote_sub : option nat) (local_did remote_did : list Z) : VM Z :=
  n ← (fun w => Some (vomp_call_count w, w));
  if Z.of_nat VOMP_MAX_CALLS <=? n then mret (-1)
  else
    i ← vomp_create_call remote_sub local_sub 0 0;
    c ← get_call i;
    l ← vlift (copy_did (did (local c)) local_did);
    r ← vlift (copy_did (did (remote c)) remote_did);
    _ ← put_call i (set_remote (set_local c (set_did (local c) (snd l)))
                               (set_did (remote c) (snd r)));
    _ ← vomp_update_local_state i VOMP_STATE_CALLPREP;
    _ ← upd i (fun c => set_initiated_call c true);
    _ ← vomp_update i;
    mret 0.

Definition vomp_pickup (call : option nat) : VM Z :=
  match call with
  | None => mret 0
  | Some i =>
      c ← get_call i;
      if (state (local c) <=? VOMP_STATE_RINGINGIN) && (state (remote c) =? VOMP_STATE_RINGINGOUT)
      then
        _ ← vomp_update_local_state i VOMP_STATE_INCALL;
        now ← gettime_ms;
        _ ← upd i (fun c => set_create_time c now);
        _ ← vomp_update i;
        mret 0
      else mret (-1)
  end.

Definition vomp_hangup (call : option nat) : VM Z :=
  match call with
  | None => mret 0
  | Some i =>
      _ ← vomp_update_local_state i VOMP_STATE_CALLENDED;
      _ ← vomp_update i;
      mret 0
  end.

(** ** A received packet *)

(** [for (;ofs<payload_length && payload[ofs];ofs++)], at most [n] passes: the codecs and
    where they end. *)
Fixpoint remote_codecs (n : nat) (m : mdp_frame) (ofs : Z) (flags : list Z)
    : option (Z * list Z) :=
  match n with
  | O => Some (ofs, flags)
  | S n =>
      if ofs <? payload_length m then
        codec ← zget (mdp_payload m) ofs;
        if codec =? 0 then Some (ofs, flags)
        else flags ← set_codec_flag codec flags; remote_codecs n m (ofs + 1) flags
      else Some (ofs, flags)
  end.

Definition vomp_extract_remote_codec_list (i : nat) (m : mdp_frame) : VM Z :=
  c ← get_call i;
  r ← vlift (remote_codecs (Z.to_nat (payload_length m)) m 6 (remote_codec_flags c));
  let c := set_remote_codec_flags c (snd r) in
  if initiated_call c then _ ← put_call i c; mret 0
  else
    let ofs := fst r + 1 in
    p ← (if ofs <? payload_length m then
           d ← vlift (copy_did (did (remote c)) (drop (Z.to_nat ofs) (mdp_payload m)));
           mret (ofs + fst d + 1, set_remote c (set_did (remote c) (snd d)))
         else mret (ofs, c));
    let '(ofs, c) := p in
    c ← (if ofs <? payload_length m then
           d ← vlift (copy_did (did (local c)) (drop (Z.to_nat ofs) (mdp_payload m)));
           mret (set_local c (set_did (local c) (snd d)))
         else mret c);
    _ ← put_call i c;
    mret 0.

(** A codec that both ends support. *)
Definition common_codec (ours theirs : list Z) : bool :=
  existsb (fun p => negb (Z.land (fst p) (snd p) =? 0))
    (combine (take CODEC_FLAGS_LENGTH ours) (take CODEC_FLAGS_LENGTH theirs)).

(** The new [recvr_state] from the clients and codecs there are. *)
Definition negotiate (i : nat) (m : mdp_frame) (recvr_state sender_state : Z) : VM Z :=
  recvr_state ← (if (monitor_socket_count =? 0) && negb interested then
                   _ ← upd i (fun c => set_rejection_reason c VOMP_REJECT_NOPHONE);
                   mret VOMP_STATE_CALLENDED
                 else mret recvr_state);
  recvr_state ← (if (recvr_state <? VOMP_STATE_RINGINGOUT) && (sender_state <? VOMP_STATE_RINGINGOUT)
                 then
                   _ ← vomp_extract_remote_codec_list i m;
                   c ← get_call i;
                   if common_codec supported_codecs (remote_codec_flags c) then mret recvr_state
                   else
                     _ ← put_call i (set_rejection_reason c VOMP_REJECT_NOCODEC);
                     mret VOMP_STATE_CALLENDED
                 else mret recvr_state);
  mret (if sender_state =? VOMP_STATE_CALLENDED then VOMP_STATE_CALLENDED else recvr_state).

Definition case_of (recvr_state sender_state : Z) : Z := Z.lor (Z.shiftl recvr_state 3) sender_state.

(** [create_time] is reset when the call is established. *)
Definition call_established (i : nat) : VM unit :=
  t ← gettime_ms; upd i (fun c => set_create_time c t).

(** The switch: the new [recvr_state], or [None] for a packet that is ignored. *)
Definition transition (i : nat) (m : mdp_frame) (now recvr_state sender_state : Z) : VM (option Z) :=
  let combined_state := case_of recvr_state sender_state in
  let on r s := combined_state =? case_of r s in
  if on VOMP_STATE_NOCALL VOMP_STATE_CALLPREP then mret (Some recvr_state)
  else if on VOMP_STATE_RINGINGIN VOMP_STATE_RINGINGOUT || on VOMP_STATE_NOCALL VOMP_STATE_RINGINGOUT then
    c ← get_call i;
    if initiated_call c then
      _ ← put_call i (set_rejection_reason c VOMP_REJECT_BUSY);
      mret (Some VOMP_STATE_CALLENDED)
    else mret (Some recvr_state)
  else if on VOMP_STATE_CALLPREP VOMP_STATE_NOCALL || on VOMP_STATE_CALLPREP VOMP_STATE_CALLPREP then
    c ← get_call i;
    mret (Some (if initiated_call c then VOMP_STATE_RINGINGOUT else VOMP_STATE_CALLENDED))
  else if on VOMP_STATE_RINGINGOUT VOMP_STATE_NOCALL || on VOMP_STATE_RINGINGOUT VOMP_STATE_CALLPREP
  then mret (Some recvr_state)
  else if on VOMP_STATE_RINGINGOUT VOMP_STATE_RINGINGIN then mret (Some recvr_state)
  else if on VOMP_STATE_RINGINGOUT VOMP_STATE_RINGINGOUT then
    _ ← call_established i; mret (Some VOMP_STATE_INCALL)
  else if on VOMP_STATE_INCALL VOMP_STATE_RINGINGOUT then mret (Some recvr_state)
  else if on VOMP_STATE_RINGINGOUT VOMP_STATE_INCALL then
    _ ← call_established i;
    _ ← vomp_process_audio i m now;
    mret (Some VOMP_STATE_INCALL)
  else if on VOMP_STATE_INCALL VOMP_STATE_INCALL then
    _ ← vomp_process_audio i m now; mret (Some recvr_state)
  else if existsb (fun s => on VOMP_STATE_CALLENDED s)
            [VOMP_STATE_NOCALL; VOMP_STATE_CALLPREP; VOMP_STATE_RINGINGOUT; VOMP_STATE_RINGINGIN;
             VOMP_STATE_INCALL; VOMP_STATE_CALLENDED]
  then mret (Some recvr_state)
  else mret None.

(** The packet of a call that was found or created. *)
Definition call_received (i : nat) (m : mdp_frame) (now sender_state : Z) : VM Z :=
  c ← get_call i;
  let sender_state := if sender_state <? state (remote c) then state (remote c) else sender_state in
  recvr_state ← negotiate i m (state (local c)) sender_state;
  next ← transition i m now recvr_state sender_state;
  match next with
  | None => mret 0
  | Some recvr_state =>
      _ ← vomp_update_remote_state i sender_state;
      _ ← vomp_update_local_state i recvr_state;
      t ← gettime_ms;
      _ ← upd i (fun c => set_last_activity c t);
      _ ← vomp_update i;
      mret 0
  end.

Definition vomp_mdp_received (m : mdp_frame) : VM Z :=
  now ← gettime_ms;
  if negb (Z.land (packetTypeAndFlags m) (Z.lor MDP_NOCRYPT MDP_NOSIGN) =? 0) then mret (-1)
  else
    version ← payload_at m 0;
    if version =? VOMP_VERSION then
      p1 ← payload_at m 1; p2 ← payload_at m 2; p3 ← payload_at m 3; p4 ← payload_at m 4;
      p5 ← payload_at m 5;
      local_sub ← find_sid (dst_sid m);
      remote_sub ← find_sid (src_sid m);
      call ← vomp_find_or_create_call remote_sub local_sub
               (Z.lor (Z.shiftl p1 8) p2) (Z.lor (Z.shiftl p3 8) p4)
               (Z.land p5 0xf) (Z.shiftr p5 4);
      match call with
      | None => mret (-1)
      | Some i => call_received i m now (Z.land p5 0xf)
      end
    else mret (-1).

(** ** The alarm of a call *)

Definition timed_out (c : vomp_call_state) (now : Z) : bool :=
  ((state (remote c) <? VOMP_STATE_RINGINGOUT) && (create_time c + VOMP_CALL_DIAL_TIMEOUT <? now))
  || ((state (local c) <? VOMP_STATE_INCALL) && (create_time c + VOMP_CALL_RING_TIMEOUT <? now))
  || (last_activity c + VOMP_CALL_NETWORK_TIMEOUT <? now).

Definition vomp_process_tick (i : nat) : VM unit :=
  now ← gettime_ms;
  c ← get_call i;
  _ ← (if timed_out c now then
         _ ← put_call i (set_rejection_reason c VOMP_REJECT_TIMEOUT);
         _ ← vomp_update_local_state i VOMP_STATE_CALLENDED;
         _ ← vomp_update_remote_state i VOMP_STATE_CALLENDED;
         _ ← vomp_update i;
         mret tt
       else mret tt);
  c ← get_call i;
  if (state (local c) =? VOMP_STATE_CALLENDED) && (state (remote c) =? VOMP_STATE_CALLENDED)
  then _ ← vomp_call_destroy i; mret tt
  else
    _ ← vomp_update i;
    _ ← vomp_send_status_remote i;
    c ← get_call i;
    _ ← emit_event (KeepAlive (session (local c)));
    t ← gettime_ms;
    _ ← upd i (fun c => set_deadline (set_alarm c (t + VOMP_CALL_STATUS_INTERVAL))
                          (t + VOMP_CALL_STATUS_INTERVAL + VOMP_CALL_STATUS_INTERVAL / 2));
    schedule i.

(** fd_poll takes an alarm off the queue before it calls its function. *)
Definition run_alarm (i : nat) : VM unit := _ ← unschedule i; vomp_process_tick i.

End vomp.
