(* ===== verification/VompCalls.v ===== *)
(** VompCalls: how the handlers of [Vomp] act on one call.

    Each helper of vomp.c is shown to be defined on a call whose parties, numbers
    and codec set are well formed, with its exact effect on the call and no effect
    on any other.  The properties of the handlers follow from these. *)

From S2P Require Import Prelude DataFormats Str Strlcpy SubscriberTree Jitter Vomp.

(** * The monad *)

Lemma VM_bind_Some {A B} (m : VM A) (f : A -> VM B) w x w' :
  m w = Some (x, w') -> (m ≫= f) w = f x w'.
Proof. intros H. unfold mbind, VM_bind. by rewrite H. Qed.

Lemma VM_bind_inv {A B} (m : VM A) (f : A -> VM B) w y w' :
  (m ≫= f) w = Some (y, w') -> exists x w1, m w = Some (x, w1) /\ f x w1 = Some (y, w').
Proof. unfold mbind, VM_bind. destruct (m w) as [[x w1] |]; [| done]. eauto. Qed.

Lemma vlift_Some {A} (o : option A) x w : o = Some x -> vlift o w = Some (x, w).
Proof. by intros ->. Qed.

Lemma get_call_Some i c w : calls w !! i = Some c -> get_call i w = Some (c, w).
Proof. intros H. unfold get_call. by rewrite H. Qed.

(** * Packets *)

(** The part of the payload that counts. *)
Definition frame_data (m : mdp_frame) : list Z := take (Z.to_nat (payload_length m)) (mdp_payload m).

Record frame_ok (m : mdp_frame) : Prop := {
  fo_payload : length (mdp_payload m) = MDP_PAYLOAD;
  fo_length : 0 <= payload_length m <= Z.of_nat MDP_PAYLOAD
}.

(** The frames differ in their payload only, to which [l] was added. *)
Record frame_grown (m m' : mdp_frame) (l : list Z) : Prop := {
  fg_ok : frame_ok m';
  fg_length : payload_length m' = payload_length m + zlen l;
  fg_data : frame_data m' = frame_data m ++ l;
  fg_same : m' = set_mdp_payload m (mdp_payload m') (payload_length m')
}.

Lemma frame_grown_trans m1 m2 m3 l k :
  frame_grown m1 m2 l -> frame_grown m2 m3 k -> frame_grown m1 m3 (l ++ k).
Proof.
  intros [O1 L1 D1 S1] [O2 L2 D2 S2]. split; [done | | |].
  - rewrite L2, L1, length_app. lia.
  - by rewrite D2, D1, (assoc_L (++)).
  - rewrite S2 at 1. rewrite S1. done.
Qed.

(** Writing [l] at the end of the payload. *)
Lemma frame_grown_blit m l p :
  frame_ok m -> zblit (mdp_payload m) (payload_length m) l = Some p ->
  frame_grown m (set_mdp_payload m p (payload_length m + zlen l)) l.
Proof.
  intros [Hp Hl] Hb. pose proof (zblit_length _ _ _ _ Hb) as Hlen.
  pose proof Hb as Hb'. apply zblit_inv in Hb' as (? & ? & ->).
  split; [| done | | done]; [split; cbn; [congruence | lia] |].
  unfold frame_data. cbn [payload_length mdp_payload set_mdp_payload].
  rewrite take_app_ge by (rewrite length_take; lia).
  rewrite length_take, Nat.min_l by lia. f_equal.
  replace (Z.to_nat (payload_length m + zlen l) - Z.to_nat (payload_length m))%nat with (length l) by lia.
  by rewrite take_app_length.
Qed.

Lemma zblit_room m l :
  frame_ok m -> payload_length m + zlen l <= Z.of_nat MDP_PAYLOAD ->
  exists p, zblit (mdp_payload m) (payload_length m) l = Some p.
Proof. intros [Hp Hl] H. eexists. apply zblit_Some; lia. Qed.

Lemma u16_length n : 0 <= n <= Z.of_nat MDP_PAYLOAD -> u16 n = n.
Proof. unfold MDP_PAYLOAD, u16. intros. apply Z.mod_small. lia. Qed.

Lemma zset_zblit (p : list Z) i x : 0 <= i < zlen p -> zset p i x = zblit p i [x].
Proof.
  intros H. rewrite zset_Some, zblit_Some by (cbn; lia). f_equal.
  rewrite insert_take_drop by lia. cbn [app length]. f_equal. f_equal. f_equal. lia.
Qed.

Lemma put_byte_spec m x :
  frame_ok m -> payload_length m < Z.of_nat MDP_PAYLOAD ->
  exists m', put_byte m x = Some m' /\ frame_grown m m' [u8 x].
Proof.
  intros Ho Hl. pose proof Ho as [Hp Hl']. unfold put_byte. rewrite zset_zblit by lia.
  destruct (zblit_room m [u8 x] Ho) as [p Ep]; [cbn; lia |]. rewrite Ep. cbn [mbind option_bind].
  rewrite u16_length by lia. eexists. split; [done |].
  by apply (frame_grown_blit m [u8 x] p).
Qed.

Lemma put_bytes_spec l : forall m,
  frame_ok m -> payload_length m + zlen l <= Z.of_nat MDP_PAYLOAD ->
  exists m', put_bytes m l = Some m' /\ frame_grown m m' (u8 <$> l).
Proof.
  induction l as [| x l IH]; intros m Ho Hl; cbn [put_bytes].
  - exists m. split; [done |]. split; [done | cbn; lia | by rewrite app_nil_r | by destruct m].
  - cbn [length] in Hl. destruct (put_byte_spec m x Ho) as (m1 & -> & G1); [lia |]. cbn [mbind option_bind].
    destruct (IH m1) as (m2 & -> & G2); [apply G1 | rewrite (fg_length _ _ _ G1); cbn; lia |].
    exists m2. split; [done |]. by apply (frame_grown_trans m m1 m2 [u8 x]).
Qed.

(** A did array holds a nul-terminated text. *)
Definition did_ok (d : list Z) (t : list Z) : Prop :=
  length d = DID_LENGTH /\ text t /\ exists k, d = t ++ 0 :: k.

Lemma did_strlen d t : did_ok d t -> strlen d = Some (zlen t) /\ (length t < DID_LENGTH)%nat /\
  take (Z.to_nat (zlen t)) d = t.
Proof.
  intros (Hl & Ht & k & ->). split_and!; [by apply strlen_text | |].
  - rewrite length_app in Hl. cbn in Hl. lia.
  - by rewrite Nat2Z.id, take_app_length.
Qed.

Lemma put_did_spec m d t :
  frame_ok m -> did_ok d t -> payload_length m + Z.of_nat DID_LENGTH <= Z.of_nat MDP_PAYLOAD ->
  exists m', put_did m d = Some m' /\ frame_grown m m' (t ++ [0]).
Proof.
  intros Ho Hd Hl. destruct (did_strlen d t Hd) as (Es & Hlt & Et). unfold put_did, DID_LENGTH in *.
  pose proof (fo_length _ Ho). rewrite Es. cbn [mbind option_bind]. zdecide.
  rewrite Z.min_l, Et by lia.
  destruct (zblit_room m (t ++ [0]) Ho) as [p Ep]; [rewrite length_app; cbn; lia |].
  rewrite Ep. cbn [mbind option_bind]. rewrite u16_length by lia. eexists. split; [done |].
  pose proof (frame_grown_blit m (t ++ [0]) p Ho Ep) as G. rewrite length_app in G.
  replace (payload_length m + zlen t + 1) with (payload_length m + Z.of_nat (length t + length [0])) by (cbn; lia).
  done.
Qed.

(** * Codecs *)

Lemma is_codec_set_defined i flags : codec_flags_wf flags -> exists x, is_codec_set i flags = Some x.
Proof.
  intros [Hl _]. unfold is_codec_set. destruct ((i <? 0) || (255 <? i)) eqn:E; [eauto |].
  apply orb_false_iff in E as [?%Z.ltb_ge ?%Z.ltb_ge].
  destruct (codec_position i) as (? & _); [lia |].
  destruct (zget_is_Some flags (Z.shiftr i 3)) as [x Ex]; [lia |]. rewrite Ex. cbn. eauto.
Qed.

Lemma codecs_from_spec n : forall i flags,
  codec_flags_wf flags -> exists l, codecs_from n i flags = Some l /\ (length l <= n)%nat.
Proof.
  induction n as [| n IH]; intros i flags Hf; cbn [codecs_from]; [eexists; split; [done | cbn; lia] |].
  destruct (is_codec_set_defined i flags Hf) as [x ->]. cbn [mbind option_bind].
  destruct (IH (i + 1) flags Hf) as (l & -> & Hl). cbn [mbind option_bind].
  eexists. split; [done |]. destruct (x =? 0); cbn [length]; lia.
Qed.

(** * One call *)

Section calls.
Context (clock : nat -> Z) (dir : directory).
Context (monitor_socket_count : Z) (interested : bool) (supported_codecs : list Z).
Hypothesis supported_wf : codec_flags_wf supported_codecs.

(** The subscriber pointer is that of an object of the directory. *)
Definition known_sid (p : option nat) (id : list Z) : Prop :=
  exists i s, p = Some i /\ subscribers dir !! i = Some s /\ sid s = id.

Record half_ok (h : vomp_call_half) (id t : list Z) : Prop := {
  ho_sid : known_sid (subscriber_of h) id;
  ho_did : did_ok (did h) t
}.

Record call_ok (c : vomp_call_state) : Prop := {
  co_local : exists id t, half_ok (local c) id t;
  co_remote : exists id t, half_ok (remote c) id t;
  co_codecs : codec_flags_wf (remote_codec_flags c)
}.

(** The worlds differ in the call in slot [i], in samples, and in what was put out, [es]. *)
Record stepped (i : nat) (c : vomp_call_state) (es : list event) (w w' : vworld) : Prop := {
  st_calls : calls w' = <[i := c]> (calls w);
  st_count : vomp_call_count w' = vomp_call_count w;
  st_heap : length (heap w') = length (heap w);
  st_entropy : entropy w' = entropy w;
  st_out : out w' = out w ++ es
}.

Lemma stepped_trans i c1 c2 es1 es2 w1 w2 w3 :
  stepped i c1 es1 w1 w2 -> stepped i c2 es2 w2 w3 -> stepped i c2 (es1 ++ es2) w1 w3.
Proof.
  intros [A1 A2 A3 A4 A5] [B1 B2 B3 B4 B5]. split; try congruence.
  - by rewrite B1, A1, list_insert_insert_eq.
  - by rewrite B5, A5, (assoc_L (++)).
Qed.

Lemma stepped_refl i c w : calls w !! i = Some c -> stepped i c [] w w.
Proof. intros H. split; try done; [by rewrite list_insert_id | by rewrite app_nil_r]. Qed.

Lemma stepped_lookup i c c' es w w' : calls w !! i = Some c -> stepped i c' es w w' -> calls w' !! i = Some c'.
Proof. intros H S. rewrite (st_calls _ _ _ _ _ S). apply list_lookup_insert_eq. by eapply lookup_lt_Some. Qed.

(** The computation is defined, steps the call in slot [i], and its value, the call and what it
    put out satisfy [Q]. *)
Definition runs {A} (i : nat) (m : VM A) (w : vworld)
    (Q : A -> vomp_call_state -> list event -> Prop) : Prop :=
  exists x c es w', m w = Some (x, w') /\ stepped i c es w w' /\ Q x c es.

Lemma wp_weaken {A} i (m : VM A) w Q Q' :
  (forall x c es, Q x c es -> Q' x c es) -> runs i m w Q -> runs i m w Q'.
Proof. intros H (x & c & es & w' & E & S & HQ). exists x, c, es, w'. auto. Qed.

Lemma wp_bind {A B} i (m : VM A) (f : A -> VM B) w c0 Q1 Q :
  calls w !! i = Some c0 -> runs i m w Q1 ->
  (forall x c es w1, Q1 x c es -> calls w1 !! i = Some c ->
    runs i (f x) w1 (fun y c' es' => Q y c' (es ++ es'))) ->
  runs i (m ≫= f) w Q.
Proof.
  intros H (x & c & es & w1 & E & S & HQ) Hf.
  destruct (Hf x c es w1 HQ (stepped_lookup _ _ _ _ _ _ H S)) as (y & c' & es' & w2 & E2 & S2 & HQ2).
  exists y, c', (es ++ es'), w2. rewrite (VM_bind_Some _ _ _ _ _ E).
  split_and!; [done | by eapply stepped_trans | done].
Qed.

Lemma wp_ret {A} i (x : A) w c (Q : A -> vomp_call_state -> list event -> Prop) :
  calls w !! i = Some c -> Q x c [] -> runs i (mret x) w Q.
Proof. intros H HQ. exists x, c, [], w. split_and!; [done | by apply stepped_refl | done]. Qed.

Lemma wp_assoc {A B C} i (m : VM A) (g : A -> VM B) (f : B -> VM C) w Q :
  runs i (m ≫= (fun x => g x ≫= f)) w Q -> runs i ((m ≫= g) ≫= f) w Q.
Proof. unfold runs, mbind, VM_bind. destruct (m w) as [[x w1] |]; auto. Qed.

Lemma wp_retb {A B} i (x : A) (f : A -> VM B) w Q : runs i (f x) w Q -> runs i (mret x ≫= f) w Q.
Proof. done. Qed.

Lemma wp_get {B} i (f : vomp_call_state -> VM B) w c Q :
  calls w !! i = Some c -> runs i (f c) w Q -> runs i (get_call i ≫= f) w Q.
Proof. intros H HQ. unfold runs. by rewrite (VM_bind_Some _ _ _ _ _ (get_call_Some _ _ _ H)). Qed.

Lemma wp_lift {A B} i (o : option A) x (f : A -> VM B) w Q :
  o = Some x -> runs i (f x) w Q -> runs i (vlift o ≫= f) w Q.
Proof. intros -> HQ. exact HQ. Qed.

Lemma stepped_runs {A} i c1 es1 w w1 (m : VM A) Q :
  stepped i c1 es1 w w1 -> runs i m w1 (fun x c es => Q x c (es1 ++ es)) ->
  exists x c es w', m w1 = Some (x, w') /\ stepped i c es w w' /\ Q x c es.
Proof.
  intros S (x & c & es & w' & E & S' & HQ). exists x, c, (es1 ++ es), w'.
  split_and!; [done | by eapply stepped_trans | done].
Qed.

Lemma wp_put {B} i c' (f : unit -> VM B) w c Q :
  calls w !! i = Some c -> (forall w1, calls w1 !! i = Some c' -> runs i (f tt) w1 Q) ->
  runs i (put_call i c' ≫= f) w Q.
Proof.
  intros H HQ. unfold runs. set (w1 := set_calls w (<[i := c']> (calls w))).
  rewrite (VM_bind_Some _ _ _ _ _ (eq_refl : put_call i c' w = Some (tt, w1))).
  apply (stepped_runs i c' [] w w1); [split; try done; by rewrite app_nil_r |].
  apply HQ. apply list_lookup_insert_eq. by eapply lookup_lt_Some.
Qed.

Lemma wp_upd {B} i g (f : unit -> VM B) w c Q :
  calls w !! i = Some c -> (forall w1, calls w1 !! i = Some (g c) -> runs i (f tt) w1 Q) ->
  runs i (upd i g ≫= f) w Q.
Proof.
  intros H HQ. unfold upd. apply wp_assoc. apply (wp_get _ _ _ _ _ H). by apply (wp_put _ _ _ _ _ _ H).
Qed.

Lemma wp_emit {B} i e (f : unit -> VM B) w c (Q : B -> vomp_call_state -> list event -> Prop) :
  calls w !! i = Some c ->
  (forall w1, calls w1 !! i = Some c -> runs i (f tt) w1 (fun x c es => Q x c (e :: es))) ->
  runs i (emit_event e ≫= f) w Q.
Proof.
  intros H HQ. unfold runs. set (w1 := set_out w (out w ++ [e])).
  rewrite (VM_bind_Some _ _ _ _ _ (eq_refl : emit_event e w = Some (tt, w1))).
  apply (stepped_runs i c [e] w w1); [split; try done; cbn; by rewrite list_insert_id |].
  by apply HQ.
Qed.

Lemma wp_emit_end i e w c (Q : unit -> vomp_call_state -> list event -> Prop) :
  calls w !! i = Some c -> Q tt c [e] -> runs i (emit_event e) w Q.
Proof.
  intros H HQ. exists tt, c, [e], (set_out w (out w ++ [e])).
  split_and!; [done | split; try done; cbn; by rewrite list_insert_id | done].
Qed.

Lemma wp_time {B} i (f : Z -> VM B) w c Q :
  calls w !! i = Some c ->
  (forall w1, calls w1 !! i = Some c -> runs i (f (clock (reads w))) w1 Q) ->
  runs i (gettime_ms clock ≫= f) w Q.
Proof.
  intros H HQ. unfold runs. set (w1 := set_reads w (S (reads w))).
  rewrite (VM_bind_Some _ _ _ _ _ (eq_refl : gettime_ms clock w = Some (clock (reads w), w1))).
  apply (stepped_runs i c [] w w1); [| by apply HQ].
  split; try done; cbn; [by rewrite list_insert_id | by rewrite app_nil_r].
Qed.

Lemma wp_sid {B} i p id (f : list Z -> VM B) w Q :
  known_sid p id -> runs i (f id) w Q -> runs i (sid_at dir p ≫= f) w Q.
Proof.
  intros (k & s & -> & Hs & <-). apply wp_lift. cbn [mbind option_bind]. by rewrite Hs.
Qed.

Lemma wp_did {B} i d t (f : list Z -> VM B) w Q :
  did_ok d t -> runs i (f t) w Q -> runs i (did_text d ≫= f) w Q.
Proof.
  intros Hd HQ. destruct (did_strlen d t Hd) as (Es & _ & Et). unfold did_text.
  apply wp_assoc, (wp_lift _ _ _ _ _ _ Es), wp_retb. by rewrite Et.
Qed.

(** ** The helpers *)

(** The frame for a call: its parties and the header. *)
Definition frame_for (c : vomp_call_state) (m : mdp_frame) (rest : list Z) : Prop :=
  exists lid rid, known_sid (subscriber_of (local c)) lid /\ known_sid (subscriber_of (remote c)) rid /\
    frame_ok m /\ src_sid m = lid /\ dst_sid m = rid /\
    packetTypeAndFlags m = MDP_TX /\ src_port m = MDP_PORT_VOMP /\ dst_port m = MDP_PORT_VOMP /\
    frame_data m = (u8 <$> vomp_header c) ++ rest.

Lemma frame_for_grown c m m' rest l :
  frame_for c m rest -> frame_grown m m' l -> frame_for c m' (rest ++ l).
Proof.
  intros (lid & rid & H1 & H2 & H3 & H4 & H5 & H6 & H7 & H8 & H9) [G1 G2 G3 G4]. exists lid, rid.
  rewrite G4. cbn [src_sid dst_sid packetTypeAndFlags src_port dst_port set_mdp_payload].
  split_and!; try done; [by rewrite <- G4 |]. rewrite <- G4, G3, H9. by rewrite (assoc_L (++)).
Qed.

(** STUN requests are the only other thing a packet's preparation puts out. *)
Definition stuns (es : list event) : Prop := Forall (fun e => exists s, e = Stun s) es.

Lemma prepare_vomp_header_spec i w c0 c :
  calls w !! i = Some c0 -> call_ok c ->
  runs i (prepare_vomp_header clock dir c) w (fun m c' es =>
    c' = c0 /\ frame_for c m [] /\ stuns es).
Proof.
  intros H [(lid & lt & Hl) (rid & rt & Hr) _]. unfold prepare_vomp_header.
  apply (wp_sid _ _ _ _ _ _ (ho_sid _ _ _ Hl)), (wp_sid _ _ _ _ _ _ (ho_sid _ _ _ Hr)).
  set (m0 := mk_mdp _ _ _ _ _ _ _ _).
  destruct (put_bytes_spec (vomp_header c) m0) as (m & Em & G).
  { split; cbn [mdp_payload payload_length m0]; [apply length_replicate | unfold MDP_PAYLOAD; lia]. }
  { unfold MDP_PAYLOAD. cbn. lia. }
  apply (wp_lift _ _ _ _ _ _ Em). apply (wp_time _ _ _ _ _ H). intros w1 H1.
  assert (F : frame_for c m []).
  { exists lid, rid. destruct G as [G1 G2 G3 G4]. rewrite app_nil_r. rewrite G4.
    cbn [src_sid dst_sid packetTypeAndFlags src_port dst_port set_mdp_payload m0].
    split_and!; try done; [apply Hl | apply Hr | by rewrite <- G4]. }
  destruct (_ && _).
  - apply (wp_emit _ _ _ _ _ _ H1). intros w2 H2. apply (wp_ret _ _ _ _ _ H2).
    split_and!; try done. by repeat constructor; eexists.
  - apply wp_retb, (wp_ret _ _ _ _ _ H1). split_and!; try done. constructor.
Qed.

(** The sequence number counts the packets sent. *)
Definition bump (c : vomp_call_state) : vomp_call_state :=
  set_local c (set_sequence (local c) (u32 (sequence (local c) + 1))).

(** Both parties are still preparing the call. *)
Definition preparing (c : vomp_call_state) : Prop :=
  state (local c) < VOMP_STATE_RINGINGOUT /\ state (remote c) < VOMP_STATE_RINGINGOUT.

(** What a status packet tells after its header: while the call is prepared, the codecs and,
    from the caller, the two numbers. *)
Definition status_rest (c : vomp_call_state) (rest : list Z) : Prop :=
  (~ preparing c -> rest = []) /\
  (preparing c -> exists codecs, all_codecs supported_codecs = Some codecs /\
     (if initiated_call c
      then exists tl tr, did_ok (did (local c)) tl /\ did_ok (did (remote c)) tr /\
             rest = (u8 <$> (codecs ++ [0])) ++ tl ++ [0] ++ tr ++ [0]
      else rest = u8 <$> (codecs ++ [0]))).

(** One status packet, after STUN requests if any. *)
Definition status_sent (c : vomp_call_state) (es : list event) : Prop :=
  exists es1 m rest, es = es1 ++ [Dispatch m] /\ stuns es1 /\ frame_for c m rest /\ status_rest c rest.

Lemma frame_for_queue c m rest q : frame_for c m rest -> frame_for c (set_mdp_queue m q) rest.
Proof. intros (lid & rid & H1 & H2 & [H3 H3'] & H4). exists lid, rid. by split_and!; try apply H4. Qed.

(** Codecs and numbers fit into a packet that holds a header. *)
Lemma put_codecs_spec c m :
  call_ok c -> frame_for c m [] -> preparing c ->
  exists codecs m1, all_codecs supported_codecs = Some codecs /\
    put_bytes m (codecs ++ [0]) = Some m1 /\ frame_for c m1 (u8 <$> (codecs ++ [0])) /\
    payload_length m1 <= 263.
Proof.
  intros Hc F Hp. destruct (codecs_from_spec 256 0 supported_codecs supported_wf) as (codecs & E & Hl).
  pose proof F as (lid & rid & _ & _ & Ho & _ & _ & _ & _ & _ & Hd).
  assert (Hlen : payload_length m = 6).
  { apply (f_equal length) in Hd. unfold frame_data in Hd. rewrite length_take in Hd.
    destruct Ho as [Ho1 Ho2]. rewrite Ho1, app_nil_r in Hd. cbn in Hd. unfold MDP_PAYLOAD in *. lia. }
  destruct (put_bytes_spec (codecs ++ [0]) m Ho) as (m1 & Em & G).
  { rewrite length_app. unfold MDP_PAYLOAD. cbn [length]. lia. }
  exists codecs, m1. split_and!; [done | done | by apply (frame_for_grown _ _ _ [] _ F G) |].
  rewrite (fg_length _ _ _ G), length_fmap, length_app. cbn [length]. lia.
Qed.

Lemma put_numbers_spec c m rest tl tr :
  frame_for c m rest -> payload_length m <= 263 -> did_ok (did (local c)) tl -> did_ok (did (remote c)) tr ->
  exists m1 m2, put_did m (did (local c)) = Some m1 /\ put_did m1 (did (remote c)) = Some m2 /\
    frame_for c m2 (rest ++ tl ++ [0] ++ tr ++ [0]).
Proof.
  intros F Hl Dl Dr. assert (Ho : frame_ok m) by (destruct F as (? & ? & F); apply F).
  destruct (put_did_spec m _ tl Ho Dl) as (m1 & E1 & G1); [unfold MDP_PAYLOAD, DID_LENGTH; lia |].
  destruct (did_strlen _ _ Dl) as (_ & Hlt & _).
  destruct (put_did_spec m1 _ tr (fg_ok _ _ _ G1) Dr) as (m2 & E2 & G2).
  { rewrite (fg_length _ _ _ G1), length_app. unfold MDP_PAYLOAD, DID_LENGTH in *. cbn [length]. lia. }
  exists m1, m2. split_and!; [done | done |].
  replace (rest ++ tl ++ [0] ++ tr ++ [0]) with ((rest ++ (tl ++ [0])) ++ (tr ++ [0])) by (by rewrite <- !(assoc_L (++))).
  eapply frame_for_grown; [by eapply frame_for_grown | done].
Qed.

Lemma vomp_send_status_remote_spec i w c :
  calls w !! i = Some c -> call_ok c ->
  runs i (vomp_send_status_remote clock dir supported_codecs i) w (fun x c' es =>
    x = 0 /\ c' = bump c /\ status_sent c es).
Proof.
  intros H Hc. unfold vomp_send_status_remote. apply (wp_get _ _ _ _ _ H).
  eapply (wp_bind _ _ _ _ _ _ _ H); [by apply prepare_vomp_header_spec |].
  intros m ? es w1 (-> & F & Hst) H1. cbv beta. cbn zeta.
  pose proof (frame_for_queue _ _ _ OQ_ORDINARY F) as F'.
  assert (Hend : forall w m rest, calls w !! i = Some c -> frame_for c m rest -> status_rest c rest ->
    runs i (_ ← upd i (fun c => set_local c (set_sequence (local c) (u32 (sequence (local c) + 1))));
            _ ← emit_event (Dispatch m); mret 0) w
      (fun x c' es' => x = 0 /\ c' = bump c /\ status_sent c (es ++ es'))).
  { intros w2 m2 rest H2 F2 R2. apply (wp_upd _ _ _ _ _ _ H2). intros w3 H3.
    apply (wp_emit _ _ _ _ _ _ H3). intros w4 H4. apply (wp_ret _ _ _ _ _ H4).
    split_and!; [done | done |]. by exists es, m2, rest. }
  destruct (_ && _) eqn:Ep.
  - apply andb_prop in Ep as [P1%Z.ltb_lt P2%Z.ltb_lt].
    destruct (put_codecs_spec c _ Hc F' (conj P1 P2)) as (codecs & m1 & E1 & E2 & F1 & L1).
    apply wp_assoc, (wp_lift _ _ _ _ _ _ E1), wp_assoc, (wp_lift _ _ _ _ _ _ E2).
    destruct (initiated_call c) eqn:Ei.
    + destruct (co_local _ Hc) as (? & tl & [_ Dl]), (co_remote _ Hc) as (? & tr & [_ Dr]).
      destruct (put_numbers_spec c m1 _ tl tr F1 L1 Dl Dr) as (m2 & m3 & E3 & E4 & F3).
      apply wp_assoc, (wp_lift _ _ _ _ _ _ E3), (wp_lift _ _ _ _ _ _ E4).
      apply (Hend _ _ _ H1 F3). split; [by intros []; split |]. intros _. exists codecs.
      rewrite Ei. split; [done |]. exists tl, tr. done.
    + apply wp_retb, (Hend _ _ _ H1 F1). split; [by intros []; split |]. intros _. exists codecs. by rewrite Ei.
  - apply wp_retb, (Hend _ _ _ H1 F'). split; [done |]. intros [P1 P2].
    apply andb_false_iff in Ep as [?%Z.ltb_ge | ?%Z.ltb_ge]; lia.
Qed.

(** What makes a call well formed is unchanged. *)
Definition same_parties (c c' : vomp_call_state) : Prop :=
  subscriber_of (local c') = subscriber_of (local c) /\ did (local c') = did (local c) /\
  subscriber_of (remote c') = subscriber_of (remote c) /\ did (remote c') = did (remote c) /\
  remote_codec_flags c' = remote_codec_flags c.

Lemma call_ok_same c c' : same_parties c c' -> call_ok c -> call_ok c'.
Proof.
  intros (E1 & E2 & E3 & E4 & E5) [(lid & lt & [H1 H2]) (rid & rt & [H3 H4]) H5].
  split; [exists lid, lt | exists rid, rt | by rewrite E5]; split; congruence.
Qed.

Lemma tell_parties_spec i w c0 c msg :
  calls w !! i = Some c0 -> call_ok c ->
  runs i (tell_parties dir c msg) w (fun _ c' es =>
    c' = c0 /\ exists a b d e, es = [msg (session (local c)) a b d e]).
Proof.
  intros H [(lid & lt & Hl) (rid & rt & Hr) _]. unfold tell_parties.
  apply (wp_sid _ _ _ _ _ _ (ho_sid _ _ _ Hl)), (wp_sid _ _ _ _ _ _ (ho_sid _ _ _ Hr)).
  apply (wp_did _ _ _ _ _ _ (ho_did _ _ _ Hl)), (wp_did _ _ _ _ _ _ (ho_did _ _ _ Hr)).
  apply (wp_emit_end _ _ _ _ _ H). eauto 10.
Qed.

(** States only go up. *)
Definition with_local (c : vomp_call_state) (s : Z) : vomp_call_state :=
  if s <=? state (local c) then c else set_local c (set_state (local c) (u8 s)).
Definition with_remote (c : vomp_call_state) (s : Z) : vomp_call_state :=
  if s <=? state (remote c) then c else set_remote c (set_state (remote c) (u8 s)).

Definition no_dispatch (es : list event) : Prop := forall m, ~ In (Dispatch m) es.

Lemma vomp_update_local_state_spec i w c s :
  calls w !! i = Some c -> call_ok c ->
  runs i (vomp_update_local_state dir supported_codecs i s) w (fun x c' es =>
    x = 0 /\ c' = with_local c s /\ no_dispatch es /\
    (state (local c) < s -> s = VOMP_STATE_CALLENDED -> es = [Hangup (session (local c))])).
Proof.
  intros H Hc. unfold vomp_update_local_state, with_local. apply (wp_get _ _ _ _ _ H).
  destruct (Z.leb_spec s (state (local c))) as [Hle | Hlt].
  { apply (wp_ret _ _ _ _ _ H). split_and!; try done; [by intros m [] | lia]. }
  eapply (wp_bind _ _ _ _ _ (fun _ c' es => c' = c /\ no_dispatch es /\
    (s = VOMP_STATE_CALLENDED -> es = [])) _ H).
  { destruct (_ && _ && _) eqn:Eb.
    - destruct (codecs_from_spec 256 0 _ supported_wf) as (ours & E1 & _).
      destruct (codecs_from_spec 256 0 _ (co_codecs _ Hc)) as (theirs & E2 & _).
      apply (wp_lift _ _ _ _ _ _ E1), (wp_lift _ _ _ _ _ _ E2), (wp_emit_end _ _ _ _ _ H).
      split_and!; try done; [by intros m [] |]. intros ->. by rewrite andb_false_r in Eb.
    - apply (wp_ret _ _ _ _ _ H). split_and!; try done. by intros m []. }
  intros _ ? es1 w1 (-> & N1 & E1) H1.
  eapply (wp_bind _ _ _ _ _ (fun _ c' es => c' = c /\ no_dispatch es /\
    (s = VOMP_STATE_CALLENDED -> es = [Hangup (session (local c))])) _ H1).
  { destruct (Z.eqb_spec s VOMP_STATE_CALLPREP) as [-> |].
    - eapply wp_weaken; [| by apply (tell_parties_spec _ _ _ _ _ H1 Hc)].
      cbv beta. intros _ c' es (-> & a & b & d & e & ->). split_and!; try done. by intros m [].
    - destruct (Z.eqb_spec s VOMP_STATE_CALLENDED).
      + apply (wp_emit_end _ _ _ _ _ H1). split_and!; try done. by intros m [].
      + apply (wp_ret _ _ _ _ _ H1). split_and!; try done. by intros m []. }
  intros _ ? es2 w2 (-> & N2 & E2) H2. apply (wp_put _ _ _ _ _ _ H2). intros w3 H3.
  apply (wp_ret _ _ _ _ _ H3). split_and!; try done.
  - intros m. rewrite !in_app_iff. intros [? | [? | []]]; [by eapply N1 | by eapply N2].
  - intros _ E. by rewrite E1, E2.
Qed.

Lemma vomp_update_remote_state_spec i w c s :
  calls w !! i = Some c -> call_ok c ->
  runs i (vomp_update_remote_state dir i s) w (fun x c' es =>
    x = 0 /\ c' = with_remote c s /\ no_dispatch es).
Proof.
  intros H Hc. unfold vomp_update_remote_state, with_remote. apply (wp_get _ _ _ _ _ H).
  destruct (Z.leb_spec s (state (remote c))) as [Hle | Hlt].
  { apply (wp_ret _ _ _ _ _ H). split_and!; try done. by intros m []. }
  eapply (wp_bind _ _ _ _ _ (fun _ c' es => c' = c /\ no_dispatch es) _ H).
  { repeat case_match.
    - eapply wp_weaken; [| by apply (tell_parties_spec _ _ _ _ _ H Hc)].
      cbv beta. intros _ c' es (-> & a & b & d & e & ->). split; [done |]. by intros m [].
    - apply (wp_emit_end _ _ _ _ _ H). split; [done |]. by intros m [].
    - apply (wp_emit_end _ _ _ _ _ H). split; [done |]. by intros m [].
    - apply (wp_ret _ _ _ _ _ H). split; [done |]. by intros m [].
    - apply (wp_ret _ _ _ _ _ H). split; [done |]. by intros m []. }
  intros _ ? es w1 (-> & N) H1. apply (wp_put _ _ _ _ _ _ H1). intros w2 H2.
  apply (wp_ret _ _ _ _ _ H2). rewrite app_nil_r. done.
Qed.

Definition combined_status (c : vomp_call_state) : Z :=
  Z.lor (Z.shiftl (state (remote c)) 4) (state (local c)).

Lemma monitor_call_status_spec i w c :
  calls w !! i = Some c -> call_ok c ->
  runs i (monitor_call_status dir i) w (fun x c' es => x = 0 /\ c' = c /\ no_dispatch es).
Proof.
  intros H [(lid & lt & Hl) (rid & rt & Hr) _]. unfold monitor_call_status. apply (wp_get _ _ _ _ _ H).
  apply (wp_sid _ _ _ _ _ _ (ho_sid _ _ _ Hl)), (wp_sid _ _ _ _ _ _ (ho_sid _ _ _ Hr)).
  apply (wp_did _ _ _ _ _ _ (ho_did _ _ _ Hl)), (wp_did _ _ _ _ _ _ (ho_did _ _ _ Hr)).
  apply (wp_emit _ _ _ _ _ _ H). intros w1 H1. apply (wp_ret _ _ _ _ _ H1). split_and!; try done.
  by intros m [].
Qed.

(** The call once its status was told. *)
Definition updated (c : vomp_call_state) : vomp_call_state :=
  if last_sent_status c =? combined_status c then c
  else bump (set_last_sent_status c (combined_status c)).

Lemma same_parties_refl c : same_parties c c.
Proof. done. Qed.

Lemma vomp_update_spec i w c :
  calls w !! i = Some c -> call_ok c ->
  runs i (vomp_update clock dir monitor_socket_count interested supported_codecs i) w (fun x c' es =>
    x = 0 /\ c' = updated c /\
    (last_sent_status c <> combined_status c ->
     exists es1 es2, es = es1 ++ es2 /\ no_dispatch es2 /\
       status_sent (set_last_sent_status c (combined_status c)) es1)).
Proof.
  intros H Hc. unfold vomp_update, updated. apply (wp_get _ _ _ _ _ H). fold (combined_status c).
  destruct (Z.eqb_spec (last_sent_status c) (combined_status c)) as [E | E].
  { apply (wp_ret _ _ _ _ _ H). split_and!; try done. }
  set (c1 := set_last_sent_status c (combined_status c)).
  assert (Hc1 : call_ok c1) by (by apply (call_ok_same c)).
  apply (wp_put _ _ _ _ _ _ H). intros w1 H1.
  eapply (wp_bind _ _ _ _ _ _ _ H1); [by apply vomp_send_status_remote_spec |].
  intros x ? es w2 (-> & -> & Hs) H2.
  eapply (wp_bind _ _ _ _ _ (fun x c' es => c' = bump c1 /\ no_dispatch es) _ H2).
  { destruct (_ && _).
    - eapply wp_weaken; [| apply (monitor_call_status_spec _ _ _ H2)]; [by intros ??? (? & ? & ?) |].
      by apply (call_ok_same c1).
    - apply (wp_ret _ _ _ _ _ H2). split; [done |]. by intros m []. }
  intros _ ? es' w3 (-> & N) H3. apply (wp_ret _ _ _ _ _ H3). rewrite app_nil_r. split_and!; try done.
  intros _. by exists es, es'.
Qed.
End calls.
