(* ===== verification/VompInv.v ===== *)
(** VompInv: the call table over all sequences of handlers.

    Every handler of [Vomp] that returns keeps the table well formed: states in
    range, the sessions of the live calls distinct and not zero, every live call's
    alarm scheduled.  A call that the other party started is answered by vomp_pickup
    only, whatever packets arrive. *)

From S2P Require Import Prelude DataFormats Str Strlcpy SubscriberTree Jitter Vomp VompCalls.

(** * Defined runs *)

Section defined.
Context (clock : nat -> Z) (dir : directory).

(** As [runs], of a computation that is defined. *)
Definition pruns {A} (i : nat) (m : VM A) (w : vworld)
    (Q : A -> vomp_call_state -> list event -> Prop) : Prop :=
  m w <> None -> runs i m w Q.

Lemma pw_of {A} i (m : VM A) w Q : runs i m w Q -> pruns i m w Q.
Proof. by intros H _. Qed.

Lemma pw_weaken {A} i (m : VM A) w Q Q' :
  (forall x c es, Q x c es -> Q' x c es) -> pruns i m w Q -> pruns i m w Q'.
Proof. intros H HQ Hd. eapply wp_weaken; [exact H | by apply HQ]. Qed.

Lemma pw_bind {A B} i (m : VM A) (f : A -> VM B) w c0 Q1 Q :
  calls w !! i = Some c0 -> pruns i m w Q1 ->
  (forall x c es w1, Q1 x c es -> calls w1 !! i = Some c ->
    pruns i (f x) w1 (fun y c' es' => Q y c' (es ++ es'))) ->
  pruns i (m ≫= f) w Q.
Proof.
  intros H HQ Hf Hd. assert (Hm : m w <> None).
  { intros E. apply Hd. unfold mbind, VM_bind. by rewrite E. }
  destruct (HQ Hm) as (x & c & es & w1 & E & S & HQ1).
  pose proof (stepped_lookup _ _ _ _ _ _ H S) as H1.
  assert (Hf1 : f x w1 <> None) by (rewrite <- (VM_bind_Some _ f _ _ _ E); done).
  destruct (Hf x c es w1 HQ1 H1 Hf1) as (y & c' & es' & w2 & E2 & S2 & HQ2).
  exists y, c', (es ++ es'), w2. rewrite (VM_bind_Some _ _ _ _ _ E).
  split_and!; [done | by eapply stepped_trans | done].
Qed.

Lemma pw_get {B} i (f : vomp_call_state -> VM B) w c Q :
  calls w !! i = Some c -> pruns i (f c) w Q -> pruns i (get_call i ≫= f) w Q.
Proof.
  intros H HQ Hd. apply (wp_get _ _ _ _ _ H), HQ.
  by rewrite (VM_bind_Some _ _ _ _ _ (get_call_Some _ _ _ H)) in Hd.
Qed.

Lemma pw_lift {A B} i (o : option A) (f : A -> VM B) w Q :
  (forall x, o = Some x -> pruns i (f x) w Q) -> pruns i (vlift o ≫= f) w Q.
Proof.
  intros HQ Hd. destruct o as [x |]; [| done]. apply (wp_lift _ _ x _ _ _ eq_refl). by apply HQ.
Qed.

Lemma pw_retb {A B} i (x : A) (f : A -> VM B) w Q : pruns i (f x) w Q -> pruns i (mret x ≫= f) w Q.
Proof. done. Qed.

Lemma pw_ret {A} i (x : A) w c (Q : A -> vomp_call_state -> list event -> Prop) :
  calls w !! i = Some c -> Q x c [] -> pruns i (mret x) w Q.
Proof. intros H HQ. by apply pw_of, (wp_ret _ _ _ c). Qed.

Lemma pw_assoc {A B C} i (m : VM A) (g : A -> VM B) (f : B -> VM C) w Q :
  pruns i (m ≫= (fun x => g x ≫= f)) w Q -> pruns i ((m ≫= g) ≫= f) w Q.
Proof.
  intros HQ Hd. apply wp_assoc, HQ. unfold mbind, VM_bind in *. by destruct (m w) as [[x w1] |].
Qed.

(** A computation that puts nothing out and whose effect is known. *)
Lemma pw_put {B} i c' (f : unit -> VM B) w c Q :
  calls w !! i = Some c -> (forall w1, calls w1 !! i = Some c' -> pruns i (f tt) w1 Q) ->
  pruns i (put_call i c' ≫= f) w Q.
Proof.
  intros H HQ. eapply (pw_bind _ _ _ _ _ (fun _ c1 es => c1 = c' /\ es = []) _ H).
  { apply pw_of. eexists tt, c', [], _. split_and!; [done | | done | done].
    split; try done. by rewrite app_nil_r. }
  intros [] ?? w1 [-> ->] H1. by apply HQ.
Qed.

Lemma pw_upd {B} i g (f : unit -> VM B) w c Q :
  calls w !! i = Some c -> (forall w1, calls w1 !! i = Some (g c) -> pruns i (f tt) w1 Q) ->
  pruns i (upd i g ≫= f) w Q.
Proof.
  intros H HQ. unfold upd. apply pw_assoc. apply (pw_get _ _ _ _ _ H). by apply (pw_put _ _ _ _ _ _ H).
Qed.

Lemma pw_time {B} i (f : Z -> VM B) w c Q :
  calls w !! i = Some c ->
  (forall t w1, calls w1 !! i = Some c -> pruns i (f t) w1 Q) ->
  pruns i (gettime_ms clock ≫= f) w Q.
Proof.
  intros H HQ. eapply (pw_bind _ _ _ _ _ (fun _ c1 es => c1 = c /\ es = []) _ H).
  { apply pw_of. eexists _, c, [], _. split_and!; [done | | done | done].
    split; try done; cbn; [by rewrite list_insert_id | by rewrite app_nil_r]. }
  intros t ?? w1 [-> ->] H1. by apply HQ.
Qed.
End defined.

(** * One call's invariant *)

Section machine.
Context (clock : nat -> Z) (dir : directory).
Context (monitor_socket_count : Z) (interested : bool) (supported_codecs : list Z).
Hypothesis supported_wf : codec_flags_wf supported_codecs.

Record call_inv (c : vomp_call_state) : Prop := {
  ci_ok : call_ok dir c;
  ci_local : VOMP_STATE_NOCALL <= state (local c) <= VOMP_STATE_CALLENDED;
  ci_remote : 0 <= state (remote c) < 16;
  ci_dialled : VOMP_STATE_CALLPREP <= state (local c) <= VOMP_STATE_RINGINGOUT -> initiated_call c = true
}.

(** Nothing that the protocol depends on has changed but the audio and time keeping, the
    codecs and the numbers. *)
Record same_status (c c' : vomp_call_state) : Prop := {
  ss_local_sub : subscriber_of (local c') = subscriber_of (local c);
  ss_remote_sub : subscriber_of (remote c') = subscriber_of (remote c);
  ss_local_state : state (local c') = state (local c);
  ss_remote_state : state (remote c') = state (remote c);
  ss_local_session : session (local c') = session (local c);
  ss_remote_session : session (remote c') = session (remote c);
  ss_initiated : initiated_call c' = initiated_call c;
  ss_scheduled : scheduled c' = scheduled c
}.

Lemma same_status_trans c1 c2 c3 : same_status c1 c2 -> same_status c2 c3 -> same_status c1 c3.
Proof. intros [] []. split; congruence. Qed.

Lemma call_inv_same c c' : call_ok dir c' -> same_status c c' -> call_inv c -> call_inv c'.
Proof.
  intros Ho [_ _ E1 E2 _ _ E3 _] [H1 H2 H3 H4]. split; try done; rewrite ?E1, ?E2, ?E3; auto.
Qed.

(** ** Numbers and codecs *)

Lemma did_ok_last d : length d = DID_LENGTH -> d !! 63%nat = Some 0 -> exists t, did_ok d t.
Proof.
  intros Hl H0. assert (Hex : exists t k, text t /\ d = t ++ 0 :: k).
  { clear Hl. revert H0. generalize 63%nat. induction d as [| x d IH]; intros n H0; [done |].
    destruct (decide (x = 0)) as [-> | Hx]; [by exists [], d; repeat constructor |].
    destruct n as [| n]; [by injection H0 |]. destruct (IH n H0) as (t & k & Ht & ->).
    exists (x :: t), k. split; [by constructor | done]. }
  destruct Hex as (t & k & Ht & ->). exists t. split_and!; eauto.
Qed.

Lemma copy_did_ok d t src r : did_ok d t -> copy_did d src = Some r -> exists t', did_ok (snd r) t'.
Proof.
  intros (Hl & _ & _) H. unfold copy_did, strlcpy in H.
  apply bind_Some in H as (n & _ & H). cbn in H. unfold DID_LENGTH in *.
  apply bind_Some in H as (d1 & E1 & H). apply bind_Some in H as (d2 & E2 & [= <-]). cbn [snd].
  pose proof (zblit_length _ _ _ _ E1). pose proof (zset_length _ _ _ _ E2).
  apply did_ok_last; [unfold DID_LENGTH; lia |]. apply zget_zset_eq in E2. exact E2.
Qed.

Lemma set_codec_flag_wf c flags flags' :
  codec_flags_wf flags -> set_codec_flag c flags = Some flags' -> codec_flags_wf flags'.
Proof.
  intros [Hl Hb]. unfold set_codec_flag. destruct (_ || _); [by intros [= <-] |].
  intros (x & _ & E)%bind_Some. split; [by rewrite (zset_length _ _ _ _ E) |].
  eapply zset_Forall; [exact Hb | | exact E]. apply u8_byte.
Qed.

Lemma remote_codecs_wf n : forall m ofs flags r,
  codec_flags_wf flags -> remote_codecs n m ofs flags = Some r -> codec_flags_wf (snd r).
Proof.
  induction n as [| n IH]; intros m ofs flags r Hf; cbn [remote_codecs]; [by intros [= <-] |].
  destruct (_ <? _); [| by intros [= <-]]. intros (c & _ & H)%bind_Some.
  destruct (c =? 0); [by simplify_eq |]. apply bind_Some in H as (f & Ef & H).
  eapply IH; [| exact H]. by eapply set_codec_flag_wf.
Qed.

Lemma extract_spec i w c m :
  calls w !! i = Some c -> call_ok dir c ->
  pruns i (vomp_extract_remote_codec_list i m) w (fun _ c' _ => same_status c c' /\ call_ok dir c').
Proof.
  intros H [(lid & lt & [Hl1 Hl2]) (rid & rt & [Hr1 Hr2]) Hf]. unfold vomp_extract_remote_codec_list.
  apply (pw_get _ _ _ _ _ H), pw_lift. intros r Er. cbn zeta.
  apply remote_codecs_wf in Er as Hf'; [| done].
  set (c1 := set_remote_codec_flags c (snd r)).
  assert (H1 : call_ok dir c1) by (split; [by exists lid, lt | by exists rid, rt | done]).
  destruct (initiated_call c1).
  { apply (pw_put _ _ _ _ _ _ H). intros w1 Hw1. by apply (pw_ret _ _ _ _ _ Hw1). }
  eapply (pw_bind _ _ _ _ _ (fun p c' _ => c' = c /\ same_status c1 (snd p) /\ call_ok dir (snd p)) _ H).
  { destruct (_ <? _); [| by apply (pw_ret _ _ _ _ _ H)].
    apply pw_lift. intros d Ed. apply (pw_ret _ _ _ _ _ H). split_and!; try done.
    destruct (copy_did_ok _ _ _ _ Hr2 Ed) as [t' Ht']. split; [by exists lid, lt | by exists rid, t' | done]. }
  intros [ofs2 c2] ? es w1 (-> & S2 & O2) Hw1. cbn [snd] in S2, O2.
  eapply (pw_bind _ _ _ _ _ (fun c3 c' _ => c' = c /\ same_status c1 c3 /\ call_ok dir c3) _ Hw1).
  { destruct (_ <? _); [| by apply (pw_ret _ _ _ _ _ Hw1)].
    apply pw_lift. intros d Ed. apply (pw_ret _ _ _ _ _ Hw1). destruct O2 as [(l2 & t2 & [A1 A2]) B C].
    destruct (copy_did_ok _ _ _ _ A2 Ed) as [t' Ht'].
    split; [done |]. split; [by eapply same_status_trans | by split; [exists l2, t' | |]]. }
  intros c3 ? es2 w2 (-> & S3 & O3) Hw2. apply (pw_put _ _ _ _ _ _ Hw2). intros w3 Hw3.
  apply (pw_ret _ _ _ _ _ Hw3). split; [by destruct S3; split | done].
Qed.

(** ** Audio *)

Lemma shuffle_down_length n : forall h s i r, shuffle_down n h s i = Some r -> length (fst r) = length h.
Proof.
  induction n as [| n IH]; intros h s i r; cbn [shuffle_down]; [by intros [= <-] |].
  intros (o & _ & (s' & _ & (p & _ & (x & _ & H)%bind_Some)%bind_Some)%bind_Some)%bind_Some.
  by rewrite (IH _ _ _ _ H), length_insert.
Qed.

Lemma shuffle_up_length n : forall h s i r, shuffle_up n h s i = Some r -> length (fst r) = length h.
Proof.
  induction n as [| n IH]; intros h s i r; cbn [shuffle_up]; [by intros [= <-] |].
  intros (o & _ & (s' & _ & (p & _ & (x & _ & H)%bind_Some)%bind_Some)%bind_Some)%bind_Some.
  by rewrite (IH _ _ _ _ H), length_insert.
Qed.

Lemma make_place_length h j old d pos h' s : make_place h j old d = Some (pos, h', s) -> length h' = length h.
Proof.
  unfold make_place. destruct (_ <? _); [| by intros [= _ <- _]].
  intros (q & _ & H)%bind_Some. apply bind_Some in H as ([h1 s1] & E1 & H).
  apply bind_Some in H as ([h2 s2] & E2 & [= _ <- _]).
  apply shuffle_down_length in E1. apply shuffle_up_length in E2. cbn [fst] in *. congruence.
Qed.

Lemma store_length slot h j c t r j' h' :
  store_jitter_sample slot h j c t = Some (r, j', h') -> length h' = length h.
Proof.
  unfold store_jitter_sample. intros ([] & _ & H)%bind_Some; [by simplify_eq |].
  apply bind_Some in H as (p & _ & H). apply bind_Some in H as (d & _ & H).
  apply bind_Some in H as (o & _ & H). apply bind_Some in H as ([[pos h1] s1] & E & H).
  apply bind_Some in H as (s2 & _ & H). apply bind_Some in H as (f & _ & H).
  apply bind_Some in H as (s0 & _ & H). apply bind_Some in H as (dl & _ & [= _ _ <-]).
  rewrite length_insert. by eapply make_place_length.
Qed.

Lemma pw_state {A B} i (g : vworld -> option (A * vworld)) (f : A -> VM B) w c Q :
  calls w !! i = Some c ->
  (forall x w1, g w = Some (x, w1) -> stepped i c [] w w1) ->
  (forall x w1, calls w1 !! i = Some c -> pruns i (f x) w1 Q) ->
  pruns i ((g : VM A) ≫= f) w Q.
Proof.
  intros H Hg HQ. eapply (pw_bind _ _ _ _ _ (fun _ c1 es => c1 = c /\ es = []) _ H).
  { intros Hd. destruct (g w) as [[x w1] |] eqn:E; [| done]. exists x, c, [], w1. split_and!; [done | by eapply Hg | done | done]. }
  intros x ?? w1 [-> ->] H1. by apply HQ.
Qed.

Lemma process_audio_spec i w c m now :
  calls w !! i = Some c -> call_ok dir c ->
  pruns i (vomp_process_audio monitor_socket_count i m now) w
    (fun _ c' _ => same_status c c' /\ call_ok dir c').
Proof.
  intros H Hc. unfold vomp_process_audio, payload_at.
  destruct (_ <=? _); [by apply (pw_ret _ _ _ _ _ H) |].
  do 5 (apply pw_lift; intros ? _). cbn zeta. apply (pw_get _ _ _ _ _ H).
  apply pw_lift. intros dt _. apply pw_lift. intros ds _.
  eapply (pw_bind _ _ _ _ _ (fun _ c' _ => same_status c c' /\ call_ok dir c') _ H).
  { destruct (_ && _); [| by apply (pw_ret _ _ _ _ _ H)]. apply pw_of.
    eexists tt, _, [], _. split_and!; [done | | |].
    - split; cbn; try done. by rewrite app_nil_r.
    - done.
    - by apply (call_ok_same dir c). }
  intros _ c1 es1 w1 (S1 & O1) H1. apply pw_lift. intros dt' _. cbn zeta.
  apply (pw_get _ _ _ _ _ H1). eapply (pw_state _ _ _ _ _ _ H1).
  { intros y w2 E. apply bind_Some in E as ([[r j] h] & Es & [= <- <-]).
    split; cbn; try done; [by rewrite list_insert_id | by eapply store_length | by rewrite app_nil_r]. }
  intros [r j] w2 H2. cbn [fst snd]. apply (pw_put _ _ _ _ _ _ H2). intros w3 H3.
  assert (O3 : call_ok dir (set_jitter c1 j)) by by apply (call_ok_same dir c1).
  assert (S3 : same_status c (set_jitter c1 j)) by by destruct S1.
  destruct r as [delay |]; [| by apply (pw_ret _ _ _ _ _ H3)].
  destruct (negb _); [| by apply (pw_ret _ _ _ _ _ H3)].
  unfold monitor_send_audio. apply pw_assoc, (pw_get _ _ _ _ _ H3), pw_assoc.
  eapply (pw_state _ _ _ _ _ _ H3).
  { intros y w4 E. apply bind_Some in E as (d & _ & [= _ <-]). by apply stepped_refl. }
  intros d w4 H4. apply pw_assoc, pw_lift. intros audio _. apply pw_assoc.
  eapply (pw_bind _ _ _ _ _ (fun _ c' _ => c' = set_jitter c1 j) _ H4).
  { by apply pw_of, (wp_emit_end _ _ _ _ _ H4). }
  intros _ ? es w5 -> H5. apply pw_retb. by apply (pw_ret _ _ _ _ _ H5).
Qed.

(** ** A received packet *)

Lemma negotiate_spec i w c m r s :
  calls w !! i = Some c -> call_ok dir c ->
  pruns i (negotiate monitor_socket_count interested supported_codecs i m r s) w (fun r' c' _ =>
    same_status c c' /\ call_ok dir c' /\ (r' = r \/ r' = VOMP_STATE_CALLENDED) /\
    (s = VOMP_STATE_CALLENDED -> r' = VOMP_STATE_CALLENDED)).
Proof.
  intros H Hc. unfold negotiate.
  eapply (pw_bind _ _ _ _ _ (fun r' c' _ => same_status c c' /\ call_ok dir c' /\
    (r' = r \/ r' = VOMP_STATE_CALLENDED)) _ H).
  { destruct (_ && _); [| apply (pw_ret _ _ _ _ _ H); auto using Build_same_status]. apply (pw_upd _ _ _ _ _ _ H).
    intros w1 H1. apply (pw_ret _ _ _ _ _ H1). split_and!; try done; [by apply (call_ok_same dir c) | auto]. }
  intros r1 c1 es1 w1 (S1 & O1 & R1) H1.
  eapply (pw_bind _ _ _ _ _ (fun r' c' _ => same_status c1 c' /\ call_ok dir c' /\
    (r' = r1 \/ r' = VOMP_STATE_CALLENDED)) _ H1).
  { destruct (_ && _); [| apply (pw_ret _ _ _ _ _ H1); auto using Build_same_status].
    eapply (pw_bind _ _ _ _ _ _ _ H1); [by apply extract_spec |].
    intros _ c2 es2 w2 (S2 & O2) H2. apply (pw_get _ _ _ _ _ H2).
    destruct (common_codec _ _); [apply (pw_ret _ _ _ _ _ H2); auto |].
    apply (pw_put _ _ _ _ _ _ H2). intros w3 H3. apply (pw_ret _ _ _ _ _ H3).
    split_and!; [by destruct S2 | by apply (call_ok_same dir c2) | auto]. }
  intros r2 c2 es2 w2 (S2 & O2 & R2) H2. apply (pw_ret _ _ _ _ _ H2).
  split; [by eapply same_status_trans |]. split; [done |].
  destruct (Z.eqb_spec s VOMP_STATE_CALLENDED); [auto |]. split; [| done].
  destruct R2 as [-> | ->]; auto.
Qed.

(** Which states lead to a call in progress; a sender state of 8 and up overlaps the bits of
    ours. *)
Lemma case_of_ringing r s x :
  VOMP_STATE_NOCALL <= r <= VOMP_STATE_CALLENDED -> 0 <= s < 16 -> 0 <= x < 8 ->
  case_of r s = case_of VOMP_STATE_RINGINGOUT x -> VOMP_STATE_CALLPREP <= r <= VOMP_STATE_RINGINGOUT.
Proof.
  intros Hr Hs Hx E.
  assert (Hf : forallb (fun r => forallb (fun s => forallb (fun x =>
      negb (case_of r s =? case_of VOMP_STATE_RINGINGOUT x) ||
      ((VOMP_STATE_CALLPREP <=? r) && (r <=? VOMP_STATE_RINGINGOUT))) (seqZ 0 8)) (seqZ 0 16)) (seqZ 1 6) = true)
    by (vm_compute; reflexivity).
  rewrite forallb_forall in Hf. specialize (Hf r ltac:(apply list_elem_of_In, elem_of_seqZ; unfold VOMP_STATE_NOCALL, VOMP_STATE_CALLENDED in *; lia)).
  rewrite forallb_forall in Hf. specialize (Hf s ltac:(apply list_elem_of_In, elem_of_seqZ; lia)).
  rewrite forallb_forall in Hf. specialize (Hf x ltac:(apply list_elem_of_In, elem_of_seqZ; lia)).
  rewrite E, Z.eqb_refl in Hf. cbn [negb orb] in Hf. apply andb_prop in Hf as [?%Z.leb_le ?%Z.leb_le]. done.
Qed.

(** The new state that the switch may choose for a call in state [r]. *)
Definition allowed (c : vomp_call_state) (r r' : Z) : Prop :=
  r' = r \/ r' = VOMP_STATE_CALLENDED \/
  (r' = VOMP_STATE_RINGINGOUT /\ initiated_call c = true) \/
  (r' = VOMP_STATE_INCALL /\ VOMP_STATE_CALLPREP <= r <= VOMP_STATE_RINGINGOUT).

Lemma established_spec i w c :
  calls w !! i = Some c -> call_ok dir c ->
  pruns i (call_established clock i) w (fun _ c' _ => same_status c c' /\ call_ok dir c').
Proof.
  intros H Hc. unfold call_established. apply (pw_time _ _ _ _ _ _ H). intros t w1 H1.
  apply pw_of. destruct (upd i (fun c => set_create_time c t) w1) as [[[] w2] |] eqn:E.
  2: { unfold upd in E. by rewrite (VM_bind_Some _ _ _ _ _ (get_call_Some _ _ _ H1)) in E. }
  unfold upd in E. rewrite (VM_bind_Some _ _ _ _ _ (get_call_Some _ _ _ H1)) in E. injection E as <-.
  eexists tt, (set_create_time c t), [], _.
  split_and!; [unfold upd; by rewrite (VM_bind_Some _ _ _ _ _ (get_call_Some _ _ _ H1)) | | | by apply (call_ok_same dir c)].
  - split; cbn; try done. by rewrite app_nil_r.
  - done.
Qed.

Lemma transition_spec i w c m now r s :
  calls w !! i = Some c -> call_ok dir c ->
  VOMP_STATE_NOCALL <= r <= VOMP_STATE_CALLENDED -> 0 <= s < 16 ->
  pruns i (transition clock monitor_socket_count i m now r s) w (fun o c' _ =>
    same_status c c' /\ call_ok dir c' /\ (forall r', o = Some r' -> allowed c r r') /\
    (r = VOMP_STATE_CALLENDED -> s = VOMP_STATE_CALLENDED -> o = Some VOMP_STATE_CALLENDED)).
Proof.
  intros H Hc Hr Hs. unfold transition.
  assert (Hstay : forall w c', calls w !! i = Some c' -> same_status c c' -> call_ok dir c' ->
    pruns i (mret (Some r)) w (fun o c' _ =>
      same_status c c' /\ call_ok dir c' /\ (forall r', o = Some r' -> allowed c r r') /\
      (r = VOMP_STATE_CALLENDED -> s = VOMP_STATE_CALLENDED -> o = Some VOMP_STATE_CALLENDED))).
  { intros w1 c' H1 S1 O1. apply (pw_ret _ _ _ _ _ H1). split_and!; try done.
    - intros ? [= <-]. by left.
    - by intros -> _. }
  destruct (_ =? _) eqn:E1; [by apply (Hstay _ _ H) |].
  destruct (_ || _) eqn:E2.
  { apply (pw_get _ _ _ _ _ H). destruct (initiated_call c); [| by apply (Hstay _ _ H)].
    apply (pw_put _ _ _ _ _ _ H). intros w1 H1. apply (pw_ret _ _ _ _ _ H1).
    split_and!; [done | by apply (call_ok_same dir c) | | done]. intros ? [= <-]. by right; left. }
  clear E1 E2. destruct (_ || _) eqn:E1.
  { apply (pw_get _ _ _ _ _ H), (pw_ret _ _ _ _ _ H). split_and!; [done | done | |].
    - intros ? [= <-]. destruct (initiated_call c) eqn:Ei; unfold allowed; rewrite ?Ei; auto.
    - intros -> ->. by vm_compute in E1. }
  clear E1. destruct (_ || _); [by apply (Hstay _ _ H) |].
  destruct (_ =? _); [by apply (Hstay _ _ H) |].
  destruct (_ =? _) eqn:E1.
  { eapply (pw_bind _ _ _ _ _ _ _ H); [by apply established_spec |].
    intros _ c1 es w1 (S1 & O1) H1. apply (pw_ret _ _ _ _ _ H1). split_and!; [done | done | |].
    - intros ? [= <-]. do 3 right. split; [done |].
      by apply (case_of_ringing r s VOMP_STATE_RINGINGOUT), Z.eqb_eq.
    - intros -> ->. by vm_compute in E1. }
  clear E1. destruct (_ =? _); [by apply (Hstay _ _ H) |].
  destruct (_ =? _) eqn:E1.
  { eapply (pw_bind _ _ _ _ _ _ _ H); [by apply established_spec |].
    intros _ c1 es w1 (S1 & O1) H1.
    eapply (pw_bind _ _ _ _ _ _ _ H1); [by apply process_audio_spec |].
    intros _ c2 es2 w2 (S2 & O2) H2. apply (pw_ret _ _ _ _ _ H2).
    split_and!; [by eapply same_status_trans | done | |].
    - intros ? [= <-]. do 3 right. split; [done |].
      by apply (case_of_ringing r s VOMP_STATE_INCALL), Z.eqb_eq.
    - intros -> ->. by vm_compute in E1. }
  clear E1. destruct (_ =? _).
  { eapply (pw_bind _ _ _ _ _ _ _ H); [by apply process_audio_spec |].
    intros _ c1 es w1 (S1 & O1) H1. by apply (Hstay _ _ H1). }
  destruct (existsb _ _) eqn:E1; [by apply (Hstay _ _ H) |].
  apply (pw_ret _ _ _ _ _ H). split_and!; try done. intros -> ->. by vm_compute in E1.
Qed.

(** The parts of a call that no packet changes once the call is found. *)
Record same_link (c c' : vomp_call_state) : Prop := {
  sl_local_sub : subscriber_of (local c') = subscriber_of (local c);
  sl_remote_sub : subscriber_of (remote c') = subscriber_of (remote c);
  sl_local_session : session (local c') = session (local c);
  sl_remote_session : session (remote c') = session (remote c);
  sl_initiated : initiated_call c' = initiated_call c;
  sl_scheduled : scheduled c' = scheduled c
}.

(** What a packet with sender state [s] may do to a call. *)
Record received (s : Z) (c c' : vomp_call_state) : Prop := {
  re_link : same_link c c';
  re_inv : call_inv c';
  re_local_up : state (local c) <= state (local c');
  re_remote_up : state (remote c) <= state (remote c');
  re_consent : state (local c') = VOMP_STATE_INCALL ->
    state (local c) = VOMP_STATE_INCALL \/ initiated_call c = true;
  re_ended : Z.max s (state (remote c)) = VOMP_STATE_CALLENDED -> state (local c') = VOMP_STATE_CALLENDED
}.

Lemma u8_state s : 0 <= s < 16 -> u8 s = s.
Proof. intros. apply u8_id. unfold is_byte. lia. Qed.

Lemma with_local_state c s : 0 <= s < 16 -> state (local (with_local c s)) = Z.max (state (local c)) s.
Proof. intros H. unfold with_local. zcases; cbn; rewrite ?u8_state by done; lia. Qed.

Lemma with_remote_state c s : 0 <= s < 16 -> state (remote (with_remote c s)) = Z.max (state (remote c)) s.
Proof. intros H. unfold with_remote. zcases; cbn; rewrite ?u8_state by done; lia. Qed.

Lemma with_states_link c s r : same_link c (with_local (with_remote c s) r).
Proof. unfold with_local, with_remote. repeat case_match; done. Qed.

Lemma with_states_parties c s r : same_parties c (with_local (with_remote c s) r).
Proof. unfold with_local, with_remote. repeat case_match; done. Qed.

(** The state once the sender's state [s] and ours, [r], are taken over. *)
Lemma take_over_received s0 s c c1 r0 r :
  call_inv c -> same_status c c1 -> call_ok dir c1 -> 0 <= s0 < 16 ->
  s = Z.max s0 (state (remote c)) ->
  r0 = state (local c) \/ r0 = VOMP_STATE_CALLENDED ->
  allowed c1 r0 r -> (s = VOMP_STATE_CALLENDED -> r = VOMP_STATE_CALLENDED) ->
  received s0 c (with_local (with_remote c1 s) r).
Proof.
  intros [Ho Hl Hr Hd] [S1 S2 S3 S4 S5 S6 S7 S8] Ho1 Hs0 Es Hr0 Ha He.
  unfold allowed in Ha. rewrite S7 in Ha.
  unfold VOMP_STATE_NOCALL, VOMP_STATE_CALLPREP, VOMP_STATE_RINGINGOUT, VOMP_STATE_INCALL,
    VOMP_STATE_CALLENDED in *.
  assert (Hrr : 0 <= r < 16) by (destruct Ha as [-> | [-> | [[-> _] | [-> _]]]]; destruct Hr0; lia).
  assert (Hss : 0 <= s < 16) by lia.
  set (c2 := with_local (with_remote c1 s) r).
  assert (El : state (local c2) = Z.max (state (local c)) r).
  { unfold c2. rewrite with_local_state by done. unfold with_remote. case_match; cbn; lia. }
  assert (Er : state (remote c2) = Z.max (state (remote c)) s).
  { unfold c2. rewrite <- S4, <- (with_remote_state c1 s) by done. unfold with_local. by case_match. }
  destruct (with_states_link c1 s r) as [L1 L2 L3 L4 L5 L6]. fold c2 in L1, L2, L3, L4, L5, L6.
  split; [split; congruence | | lia | lia | |].
  - split; [by apply (call_ok_same dir c1); [apply with_states_parties |] | | |].
    + rewrite El. unfold VOMP_STATE_NOCALL, VOMP_STATE_CALLENDED. lia.
    + lia.
    + rewrite El, L5, S7. unfold VOMP_STATE_CALLPREP, VOMP_STATE_RINGINGOUT. intros Hrng.
      destruct Ha as [-> | [-> | [[-> Hi] | [-> _]]]]; [| lia | done | lia].
      apply Hd. destruct Hr0; lia.
  - rewrite El. unfold VOMP_STATE_INCALL. intros E5.
    destruct Ha as [-> | [-> | [[-> Hi] | [-> Hr2]]]]; [| lia | by right |].
    + left. destruct Hr0; lia.
    + destruct (decide (state (local c) = 5)); [by left | right]. apply Hd. destruct Hr0; lia.
  - unfold VOMP_STATE_CALLENDED. intros E6. rewrite El, He by lia. lia.
Qed.

Lemma received_same s c c' c'' : received s c c' -> same_status c' c'' -> call_ok dir c'' -> received s c c''.
Proof.
  intros [[L1 L2 L3 L4 L5 L6] I1 U1 U2 C1 E1] S Ho. pose proof S as [S1 S2 S3 S4 S5 S6 S7 S8].
  split; [split; congruence | by apply (call_inv_same c') | | | |]; rewrite ?S3, ?S4; done.
Qed.

Lemma updated_same c : same_status c (updated c).
Proof. unfold updated. by case_match. Qed.

Lemma updated_parties c : same_parties c (updated c).
Proof. unfold updated. by case_match. Qed.

Lemma call_received_spec i w c m now s :
  calls w !! i = Some c -> call_inv c -> 0 <= s < 16 ->
  pruns i (call_received clock dir monitor_socket_count interested supported_codecs i m now s) w
    (fun _ c' _ => (same_status c c' /\ call_inv c' /\ Z.max s (state (remote c)) <> VOMP_STATE_CALLENDED)
       \/ received s c c').
Proof.
  intros H Hc Hs. unfold call_received. apply (pw_get _ _ _ _ _ H). cbv zeta.
  pose proof Hc as [Hok Hl Hr Hd].
  replace (if s <? state (remote c) then state (remote c) else s) with (Z.max s (state (remote c)))
    by (zcases; lia).
  set (s' := Z.max s (state (remote c))).
  eapply (pw_bind _ _ _ _ _ _ _ H); [by apply negotiate_spec |].
  intros r0 c1 es1 w1 (S1 & O1 & R1 & N1) H1.
  eapply (pw_bind _ _ _ _ _ _ _ H1).
  { apply transition_spec; [done | done | | unfold s'; lia].
    unfold VOMP_STATE_NOCALL, VOMP_STATE_CALLENDED in *. destruct R1; lia. }
  intros o c2 es2 w2 (S2 & O2 & A2 & N2) H2. pose proof (same_status_trans _ _ _ S1 S2) as S12.
  destruct o as [r |].
  2: { apply (pw_ret _ _ _ _ _ H2). left. split_and!; [done | by apply (call_inv_same c) |].
       intros E. by specialize (N2 (N1 E) E). }
  assert (R : received s c (with_local (with_remote c2 s') r)).
  { apply (take_over_received s s' c c2 r0 r); try done.
    - destruct (A2 r eq_refl) as [? | [? | [[? ?] | ?]]]; unfold allowed; auto.
      do 2 right. left. split; [done |]. by rewrite (ss_initiated _ _ S2).
    - intros E. specialize (N2 (N1 E) E). congruence. }
  eapply (pw_bind _ _ _ _ _ _ _ H2); [by apply pw_of, vomp_update_remote_state_spec |].
  intros _ ? es3 w3 (_ & -> & _) H3.
  assert (O3 : call_ok dir (with_remote c2 s')) by (apply (call_ok_same dir c2); [unfold with_remote; by case_match | done]).
  eapply (pw_bind _ _ _ _ _ _ _ H3); [by apply pw_of, (vomp_update_local_state_spec dir supported_codecs) |].
  intros _ ? es4 w4 (_ & -> & _) H4. apply (pw_time _ _ _ _ _ _ H4). intros t w5 H5.
  apply (pw_upd _ _ _ _ _ _ H5). intros w6 H6.
  set (c3 := set_last_activity (with_local (with_remote c2 s') r) t) in *.
  assert (O4 : call_ok dir c3) by by apply (call_ok_same dir (with_local (with_remote c2 s') r)), R.
  eapply (pw_bind _ _ _ _ _ _ _ H6); [by apply pw_of, (vomp_update_spec clock dir) |].
  intros _ ? es7 w7 (_ & -> & _) H7. apply (pw_ret _ _ _ _ _ H7). right.
  eapply (received_same _ _ (with_local (with_remote c2 s') r)); [done | |].
  - eapply same_status_trans; [| apply updated_same]. done.
  - apply (call_ok_same dir c3); [apply updated_parties | done].
Qed.

(** * The table *)

Definition live (w : vworld) (i : nat) (c : vomp_call_state) : Prop :=
  (i < Z.to_nat (vomp_call_count w))%nat /\ calls w !! i = Some c.

Record vomp_wf (w : vworld) : Prop := {
  vw_calls : length (calls w) = VOMP_MAX_CALLS;
  vw_count : 0 <= vomp_call_count w <= Z.of_nat VOMP_MAX_CALLS;
  vw_heap : length (heap w) = base VOMP_MAX_CALLS;
  vw_inv : forall i c, live w i c -> call_inv c;
  vw_scheduled : forall i c, live w i c -> scheduled c = true;
  vw_distinct : NoDup (sessions_in_use w);
  vw_sessions : Forall (fun s => 0 < s <= VOMP_SESSION_MASK) (sessions_in_use w);
  vw_entropy : Forall is_Some (entropy w)
}.

Lemma sessions_lookup w i s :
  sessions_in_use w !! i = Some s <-> exists c, live w i c /\ session (local c) = s.
Proof.
  unfold sessions_in_use, live. rewrite list_lookup_fmap. split.
  - intros H. destruct (decide (i < Z.to_nat (vomp_call_count w))%nat).
    + rewrite lookup_take_lt in H by done. destruct (calls w !! i) as [c |]; [| done].
      exists c. by simplify_eq/=.
    + by rewrite lookup_take_ge in H by lia.
  - intros (c & [Hi Hc] & <-). by rewrite lookup_take_lt, Hc by done.
Qed.

(** A call that keeps its session steps. *)
Lemma sessions_stepped i c c' es w w' :
  live w i c -> stepped i c' es w w' -> session (local c') = session (local c) ->
  sessions_in_use w' = sessions_in_use w.
Proof.
  intros [Hi Hc] [E1 E2 _ _ _] Es. unfold sessions_in_use. rewrite E1, E2.
  rewrite take_insert_lt by done. rewrite list_fmap_insert. apply list_insert_id.
  rewrite list_lookup_fmap, lookup_take_lt, Hc by done. cbn. by rewrite Es.
Qed.

Lemma live_stepped i c' es w w' j d :
  stepped i c' es w w' -> live w' j d -> (j = i /\ d = c') \/ (j <> i /\ live w j d).
Proof.
  intros [E1 E2 _ _ _] [Hj Hd]. rewrite E2 in Hj. rewrite E1 in Hd.
  destruct (decide (j = i)) as [-> |].
  - left. split; [done |]. rewrite list_lookup_insert_eq in Hd; [congruence |].
    apply lookup_lt_Some in Hd. by rewrite length_insert in Hd.
  - right. split; [done |]. rewrite list_lookup_insert_ne in Hd by done. by split.
Qed.

Lemma wf_stepped i c c' es w w' :
  vomp_wf w -> live w i c -> stepped i c' es w w' ->
  session (local c') = session (local c) -> call_inv c' -> scheduled c' = true -> vomp_wf w'.
Proof.
  intros [W1 W2 W3 W4 W5 W6 W7 W8] Hl S Es Hi Hs. pose proof S as [E1 E2 E3 E4 E5].
  pose proof (sessions_stepped _ _ _ _ _ _ Hl S Es) as Ess.
  split; rewrite ?E1, ?E2, ?E3, ?E4, ?Ess; try done.
  - by rewrite length_insert.
  - intros j d Hd. destruct (live_stepped _ _ _ _ _ _ _ S Hd) as [[-> ->] | [_ Hd']]; eauto.
  - intros j d Hd. destruct (live_stepped _ _ _ _ _ _ _ S Hd) as [[-> ->] | [_ Hd']]; eauto.
Qed.

(** A call of the other party's is in progress in session [s]. *)
Definition answered (w : vworld) (s : Z) : Prop :=
  exists i c, live w i c /\ session (local c) = s /\ initiated_call c = false /\
    state (local c) = VOMP_STATE_INCALL.

(** Calls in progress are calls that were, or those that [P] allows. *)
Definition answers (P : Z -> Prop) (w w' : vworld) : Prop :=
  forall s, answered w' s -> answered w s \/ P s.

Lemma answers_trans P w1 w2 w3 : answers P w1 w2 -> answers P w2 w3 -> answers P w1 w3.
Proof. intros H1 H2 s Hs. destruct (H2 s Hs) as [? |]; auto. Qed.

Lemma answers_stepped (P : Z -> Prop) i c c' es w w' :
  live w i c -> stepped i c' es w w' -> session (local c') = session (local c) ->
  (initiated_call c' = false -> state (local c') = VOMP_STATE_INCALL ->
    (initiated_call c = false /\ state (local c) = VOMP_STATE_INCALL) \/ P (session (local c))) ->
  answers P w w'.
Proof.
  intros Hl S Es H s (j & d & Hd & <- & Hi & Hst).
  destruct (live_stepped _ _ _ _ _ _ _ S Hd) as [[-> ->] | [_ Hd']].
  - destruct (H Hi Hst) as [[? ?] |]; rewrite Es; [left | by right]. by exists i, c.
  - left. by exists j, d.
Qed.

(** ** Finding and creating calls *)

Definition found_call (c c' : vomp_call_state) : Prop :=
  c' = c \/ exists s, session (remote c) = 0 /\ c' = set_remote c (set_session (remote c) s).

Lemma find_matching_spec rs ls ss rss n : forall i w o w',
  (i + n <= Z.to_nat (vomp_call_count w))%nat ->
  find_matching n i rs ls ss rss w = Some (o, w') ->
  match o with
  | None => w' = w
  | Some k => exists c c', live w k c /\ stepped k c' [] w w' /\ found_call c c'
  end.
Proof.
  induction n as [| n IH]; intros i w o w' Hn; cbn [find_matching]; [by intros [= <- <-] |].
  intros H. apply VM_bind_inv in H as (c & w1 & Eg & H).
  unfold get_call in Eg. apply bind_Some in Eg as (c1 & Ec & [= -> ->]).
  destruct (call_matches _ _ _ _ _).
  - assert (Hlive : live w1 i c) by (split; [lia | done]).
    apply VM_bind_inv in H as ([] & w2 & E2 & H). injection H as <- <-. exists c.
    destruct (Z.eqb_spec (session (remote c)) 0).
    + injection E2 as <-. eexists. split_and!; [done | | right; by eexists].
      split; cbn; try done. by rewrite app_nil_r.
    + injection E2 as <-. exists c. split_and!; [done | by apply stepped_refl | by left].
  - apply (IH (S i)); [lia | done].
Qed.

Lemma found_call_inv c c' : call_inv c -> found_call c c' -> call_inv c'.
Proof.
  intros [H1 H2 H3 H4] [-> | (s & _ & ->)]; [by split |].
  split; try done. by apply (call_ok_same dir c).
Qed.

Lemma generate_session_spec used : forall ent s ent',
  Forall is_Some ent -> generate_session used ent = Some (s, ent') ->
  0 < s <= VOMP_SESSION_MASK /\ (s ∉ used) /\ Forall is_Some ent'.
Proof.
  induction ent as [| o ent IH]; intros s ent' He; cbn [generate_session]; [done |].
  apply Forall_cons in He as [[v ->] He]. destruct (_ || _) eqn:E; [by apply IH |].
  intros [= <- <-]. apply orb_false_iff in E as [E1%Z.eqb_neq E2].
  assert (Hr : 0 <= Z.land v VOMP_SESSION_MASK <= VOMP_SESSION_MASK).
  { unfold VOMP_SESSION_MASK. change 0xffff with (Z.ones 16) at 1 2. rewrite Z.land_ones by lia.
    pose proof (Z.mod_pos_bound v (2 ^ 16)). lia. }
  split_and!; [lia | lia | | done].
  intros Hin. apply list_elem_of_In in Hin. apply Bool.not_true_iff_false in E2. apply E2.
  apply existsb_exists. eexists. split; [exact Hin | apply Z.eqb_refl].
Qed.

(** The call that vomp_create_call leaves. *)
Definition new_call (rs ls : option nat) (rsess s now : Z) : vomp_call_state :=
  set_scheduled (set_deadline (prepared_call rs ls rsess s now)
    (Z.max 0 (now + VOMP_CALL_STATUS_INTERVAL))) true.

Lemma create_spec rs ls rsess w i w' :
  vomp_wf w -> vomp_create_call clock rs ls rsess 0 w = Some (i, w') ->
  exists s now, i = Z.to_nat (vomp_call_count w) /\ vomp_call_count w < Z.of_nat VOMP_MAX_CALLS /\
    0 < s <= VOMP_SESSION_MASK /\ (s ∉ sessions_in_use w) /\
    calls w' = <[i := new_call rs ls rsess s now]> (calls w) /\
    vomp_call_count w' = vomp_call_count w + 1 /\ length (heap w') = length (heap w) /\
    Forall is_Some (entropy w') /\ out w' = out w.
Proof.
  intros W H. unfold vomp_create_call in H. cbn [Z.eqb] in H.
  apply VM_bind_inv in H as (s & w1 & E1 & H).
  apply VM_bind_inv in E1 as (s0 & w1' & E1 & E1'). injection E1' as <- <-.
  unfold vomp_generate_session_id in E1. apply bind_Some in E1 as ([s1 ent] & Eg & [= <- <-]).
  destruct (generate_session_spec _ _ _ _ (vw_entropy _ W) Eg) as (Hs & Hn & He).
  replace (u32 s1) with s1 in H by (symmetry; apply u32_id; unfold VOMP_SESSION_MASK in *; lia).
  apply VM_bind_inv in H as (i0 & w2 & [= <- <-] & H). cbn [vomp_call_count set_entropy] in H.
  apply VM_bind_inv in H as (c0 & w3 & E3 & H). unfold get_call in E3.
  apply bind_Some in E3 as (c1 & Ec & [= -> <-]). cbn [calls set_vomp_call_count set_entropy] in Ec.
  pose proof (lookup_lt_Some _ _ _ Ec) as Hlt. rewrite (vw_calls _ W) in Hlt.
  pose proof (vw_count _ W) as Hcount. pose proof (vw_heap _ W) as Hheap.
  set (k := Z.to_nat (vomp_call_count w)) in *.
  apply VM_bind_inv in H as ([] & w4 & [= <-] & H). apply VM_bind_inv in H as (now & w5 & [= <- <-] & H).
  apply VM_bind_inv in H as ([] & w6 & [= <-] & H). cbn in H.
  apply VM_bind_inv in H as ([] & w7 & E7 & H). injection H as <- <-.
  unfold schedule in E7. apply VM_bind_inv in E7 as (c2 & w8 & E8 & E7). unfold get_call in E8.
  apply bind_Some in E8 as (c3 & Ec3 & [= -> <-]). cbn in Ec3.
  rewrite list_lookup_insert_eq in Ec3 by (rewrite (vw_calls _ W); done). injection Ec3 as <-.
  cbn in E7. injection E7 as <-. exists s1, (clock (reads w)). cbn.
  split_and!; try done; try lia.
  - by rewrite list_insert_insert_eq.
  - unfold clear_samples. rewrite !length_app, length_take, length_replicate, length_drop, Hheap.
    unfold base, JITTER_SAMPLES, VOMP_MAX_CALLS in *. lia.
Qed.

Lemma zero_did_ok : did_ok (replicate DID_LENGTH 0) [].
Proof. split_and!; [done | constructor | by exists (replicate 63 0)]. Qed.

Lemma zero_codecs_wf : codec_flags_wf (replicate CODEC_FLAGS_LENGTH 0).
Proof. split; [done |]. apply Forall_replicate. unfold is_byte. lia. Qed.

Lemma new_call_ok rs ls rsess s now rid lid :
  known_sid dir rs rid -> known_sid dir ls lid -> call_ok dir (new_call rs ls rsess s now).
Proof.
  intros Hr Hl. split; [exists lid, [] | exists rid, [] | apply zero_codecs_wf];
    (split; [done | apply zero_did_ok]).
Qed.

Lemma new_call_inv rs ls rsess s now rid lid :
  known_sid dir rs rid -> known_sid dir ls lid -> call_inv (new_call rs ls rsess s now).
Proof.
  intros Hr Hl. split; [by eapply new_call_ok | done | done |].
  cbn. unfold VOMP_STATE_NOCALL, VOMP_STATE_CALLPREP. lia.
Qed.

Lemma live_created (w w' : vworld) i c j d :
  i = Z.to_nat (vomp_call_count w) -> 0 <= vomp_call_count w -> (i < length (calls w))%nat ->
  calls w' = <[i := c]> (calls w) -> vomp_call_count w' = vomp_call_count w + 1 ->
  live w' j d <-> (j = i /\ d = c) \/ live w j d.
Proof.
  intros -> H0 Hlen Ec En. unfold live. rewrite Ec, En.
  destruct (decide (j = Z.to_nat (vomp_call_count w))) as [-> | Hne].
  - rewrite list_lookup_insert_eq by done. split; [intros [_ [= <-]]; by left |].
    intros [[_ ->] | [? _]]; [| lia]. split; [lia | done].
  - rewrite list_lookup_insert_ne by done. split; [intros [? ?]; right; split; [lia | done] |].
    intros [[-> _] | [? ?]]; [done |]. split; [lia | done].
Qed.

(** A new call makes the table well formed again, and no call answered. *)
Lemma create_wf rs ls rsess w i w' rid lid :
  vomp_wf w -> known_sid dir rs rid -> known_sid dir ls lid ->
  vomp_create_call clock rs ls rsess 0 w = Some (i, w') ->
  vomp_wf w' /\ answers (fun _ => False) w w' /\ exists s now, live w' i (new_call rs ls rsess s now).
Proof.
  intros W Hr Hl H. destruct (create_spec _ _ _ _ _ _ W H)
    as (s & now & Ei & Hlt & Hs & Hn & Ec & En & Eh & He & _).
  pose proof W as [W1 W2 W3 W4 W5 W6 W7 W8].
  assert (Hlive : forall j d, live w' j d <-> (j = i /\ d = new_call rs ls rsess s now) \/ live w j d).
  { intros j d. apply (live_created w w' i); try done; lia. }
  assert (Hss : sessions_in_use w' = sessions_in_use w ++ [s]).
  { unfold sessions_in_use. rewrite Ec, En.
    replace (Z.to_nat (vomp_call_count w + 1)) with (S i) by lia.
    erewrite take_S_r by (apply list_lookup_insert_eq; lia). rewrite fmap_app, take_insert_ge by lia.
    by rewrite Ei. }
  split_and!.
  - split; rewrite ?Hss; try done.
    + by rewrite Ec, length_insert.
    + rewrite En. unfold VOMP_MAX_CALLS in *. lia.
    + by rewrite Eh.
    + intros j d Hd. apply Hlive in Hd as [[_ ->] | Hd]; [by eapply new_call_inv | eauto].
    + intros j d Hd. apply Hlive in Hd as [[_ ->] | Hd]; [done | eauto].
    + apply NoDup_app. split_and!; [done | | by apply NoDup_singleton].
      intros x Hx ->%list_elem_of_singleton. done.
    + apply Forall_app. split; [done | by constructor].
  - intros s' (j & d & Hd & <- & Hi & Hst). apply Hlive in Hd as [[_ ->] | Hd]; [done |].
    left. by exists j, d.
  - exists s, now. apply Hlive. by left.
Qed.

Lemma find_or_create_spec rs ls ss rss sst rst w o w' rid lid :
  vomp_wf w -> known_sid dir rs rid -> known_sid dir ls lid ->
  vomp_find_or_create_call clock rs ls ss rss sst rst w = Some (o, w') ->
  vomp_wf w' /\ answers (fun _ => False) w w' /\ forall i, o = Some i -> exists c, live w' i c.
Proof.
  intros W Hr Hl H. unfold vomp_find_or_create_call in H.
  apply VM_bind_inv in H as (n & w1 & [= <- <-] & H). apply VM_bind_inv in H as (f & w2 & Ef & H).
  apply find_matching_spec in Ef; [| lia]. destruct f as [k |].
  - injection H as <- <-. destruct Ef as (c & c' & Hlv & Hst & Hf).
    assert (Es : session (local c') = session (local c) /\ initiated_call c' = initiated_call c /\
      state (local c') = state (local c) /\ scheduled c' = scheduled c)
      by (by destruct Hf as [-> | (? & _ & ->)]).
    destruct Es as (Es & Ei & Et & Ed).
    split_and!.
    + eapply (wf_stepped k c c'); try done; [eapply found_call_inv; [by eapply (vw_inv _ W) | done] |].
      rewrite Ed. by eapply (vw_scheduled _ W).
    + eapply (answers_stepped _ k c c'); try done. rewrite Ei, Et. by left.
    + intros i [= <-]. exists c'. destruct Hlv as [? ?]. split; [by rewrite (st_count _ _ _ _ _ Hst) |].
      by eapply stepped_lookup.
  - subst w2. assert (Hnone : forall w1 w2 : vworld, Some (None (A:=nat), w1) = Some (o, w2) ->
      vomp_wf w1 -> answers (fun _ => False) w w1 -> vomp_wf w2 /\ answers (fun _ => False) w w2 /\
      forall i, o = Some i -> exists c, live w2 i c).
    { intros ?? [= <- <-] ??. by split_and!. }
    assert (Hrefl : answers (fun _ => False) w w) by (by left).
    destruct (_ || _); [by eapply Hnone |].
    destruct (_ && _ && _) eqn:Eb; [| by eapply Hnone].
    apply andb_prop in Eb as [_ ->%Z.eqb_eq].
    apply VM_bind_inv in H as (i & w3 & E & H). injection H as <- <-.
    destruct (create_wf _ _ _ _ _ _ _ _ W Hr Hl E) as (W' & A' & s & now & L').
    split_and!; [done | done |]. intros ? [= <-]. eauto.
Qed.

(** ** The handlers *)

Hypothesis dir_wf : directory_wf dir.

Lemma find_sid_known id w :
  id ∈ known dir -> exists p, known_sid dir p id /\ find_sid dir id w = Some (p, w).
Proof.
  intros Hin. apply list_elem_of_fmap in Hin as (s & -> & [i Hi]%list_elem_of_lookup).
  destruct (directory_member _ _ _ dir_wf Hi) as (Hl & Hb & Ha).
  exists (Some i). split; [by exists i, s |].
  unfold find_sid. rewrite (find_by_abbreviation dir i s); try done; try lia.
Qed.

(** What a handler on one call has done. *)
Definition handled (P : Z -> Prop) (w w' : vworld) : Prop := vomp_wf w' /\ answers P w w'.

(** A defined run on a live call that keeps the call's link and invariant. *)
Lemma handled_runs {A} (P : Z -> Prop) i c (m : VM A) w x w' (Q : vomp_call_state -> Prop) :
  vomp_wf w -> live w i c -> pruns i m w (fun _ c' _ => Q c') -> m w = Some (x, w') ->
  (forall c', Q c' -> session (local c') = session (local c) /\ call_inv c' /\ scheduled c' = true /\
    (initiated_call c' = false -> state (local c') = VOMP_STATE_INCALL ->
      (initiated_call c = false /\ state (local c) = VOMP_STATE_INCALL) \/ P (session (local c)))) ->
  handled P w w'.
Proof.
  intros W Hl Hr E HQ. destruct (Hr ltac:(by rewrite E)) as (y & c' & es & w1 & E1 & S & Hq).
  rewrite E in E1. injection E1 as <- <-. destruct (HQ c' Hq) as (H1 & H2 & H3 & H4).
  split; [by eapply (wf_stepped i c c') | by eapply (answers_stepped _ i c c')].
Qed.

Lemma received_handled m w x w' :
  vomp_wf w -> src_sid m ∈ known dir -> dst_sid m ∈ known dir ->
  vomp_mdp_received clock dir monitor_socket_count interested supported_codecs m w = Some (x, w') ->
  handled (fun _ => False) w w'.
Proof.
  intros W Hsrc Hdst H. unfold vomp_mdp_received in H.
  apply VM_bind_inv in H as (now & w1 & [= <- <-] & H).
  set (w1 := set_reads w (S (reads w))) in *.
  assert (W1 : vomp_wf w1) by by destruct W.
  assert (A1 : answers (fun _ => False) w w1) by by left.
  destruct (negb _); [by injection H as <- <-; split |].
  apply VM_bind_inv in H as (v & w2 & E2 & H). unfold payload_at, vlift in E2.
  apply bind_Some in E2 as (? & _ & [= -> <-]).
  destruct (_ =? _); [| by injection H as <- <-; split].
  do 5 (apply VM_bind_inv in H as (? & ? & (? & _ & [= -> <-])%bind_Some & H)).
  destruct (find_sid_known _ w1 Hdst) as (lp & Hlk & El), (find_sid_known _ w1 Hsrc) as (rp & Hrk & Er).
  rewrite (VM_bind_Some _ _ _ _ _ El), (VM_bind_Some _ _ _ _ _ Er) in H.
  apply VM_bind_inv in H as (o & w3 & E3 & H).
  destruct (find_or_create_spec _ _ _ _ _ _ _ _ _ _ _ W1 Hrk Hlk E3) as (W3 & A3 & Hlive).
  destruct o as [i |]; [| injection H as <- <-; split; [done | exact (answers_trans _ _ _ _ A1 A3)]].
  destruct (Hlive i eq_refl) as [c Hc].
  enough (handled (fun _ => False) w3 w') as [? ?].
  { split; [done |]. eapply answers_trans; [exact A1 |]. by eapply answers_trans; [exact A3 |]. }
  eapply (handled_runs _ i c _ w3); try done.
  - apply call_received_spec; [apply Hc | by apply (vw_inv _ W3 i) |].
    change 0xf with (Z.ones 4). rewrite Z.land_ones by lia. by apply Z.mod_pos_bound.
  - cbv beta. intros c' [(S1 & I1 & _) | R].
    + pose proof S1 as [_ _ S3 _ S5 _ S7 S8]. split_and!; [done | done | |].
      * rewrite S8. by eapply (vw_scheduled _ W3).
      * rewrite S7, S3. intros ??. by left.
    + destruct R as [[_ _ L3 _ L5 L6] I1 _ _ C1 _]. split_and!; [done | done | |].
      * rewrite L6. by eapply (vw_scheduled _ W3).
      * rewrite L5. intros Hi Hst. left. split; [done |]. destruct (C1 Hst); congruence.
Qed.

Lemma find_session_spec t n : forall i w o w',
  (i + n <= Z.to_nat (vomp_call_count w))%nat -> find_session n i t w = Some (o, w') ->
  w' = w /\ forall k, o = Some k -> exists c, live w k c /\ session (local c) = u32 t.
Proof.
  induction n as [| n IH]; intros i w o w' Hn; cbn [find_session]; [by intros [= <- <-] |].
  intros H. apply VM_bind_inv in H as (c & w1 & (c1 & Ec & [= -> ->])%bind_Some & H).
  destruct (Z.eqb_spec (u32 t) (session (local c))) as [E |]; [| eapply IH; [| done]; lia].
  injection H as <- <-. split; [done |]. intros k [= <-]. exists c. split; [split; [lia | done] | done].
Qed.

(** A state change of ours, told to everyone. *)
Definition told (c : vomp_call_state) (s : Z) : vomp_call_state := updated (with_local c s).

Lemma told_link c s : same_link c (told c s).
Proof.
  unfold told. destruct (updated_same (with_local c s)) as [S1 S2 S3 S4 S5 S6 S7 S8].
  unfold with_local in *. case_match; split; congruence || done.
Qed.

Lemma told_parties c s : same_parties c (told c s).
Proof. unfold told, updated, with_local. by repeat case_match. Qed.

Lemma told_states c s : 0 <= s < 16 ->
  state (local (told c s)) = Z.max (state (local c)) s /\ state (remote (told c s)) = state (remote c).
Proof.
  intros Hs. unfold told. destruct (updated_same (with_local c s)) as [_ _ S3 S4 _ _ _ _].
  rewrite S3, S4, with_local_state by done. split; [done |]. unfold with_local. by case_match.
Qed.

Lemma told_inv c s :
  call_inv c -> VOMP_STATE_RINGINGIN <= s <= VOMP_STATE_CALLENDED -> call_inv (told c s).
Proof.
  intros [H1 H2 H3 H4] Hs.
  unfold VOMP_STATE_RINGINGIN, VOMP_STATE_CALLENDED, VOMP_STATE_NOCALL in *.
  destruct (told_states c s) as [E1 E2]; [lia |].
  split; [by apply (call_ok_same dir c); [apply told_parties |] | | |];
    rewrite ?E1, ?E2; unfold VOMP_STATE_NOCALL, VOMP_STATE_CALLENDED, VOMP_STATE_CALLPREP, VOMP_STATE_RINGINGOUT; lia.
Qed.

(** [vomp_update_local_state] and then [vomp_update] on a well-formed call. *)
Lemma tell_state_spec {A} i w c s (f : VM A) Q :
  calls w !! i = Some c -> call_ok dir c ->
  (forall w1 es, calls w1 !! i = Some (told c s) -> runs i f w1 (fun x c' es' => Q x c' (es ++ es'))) ->
  runs i (_ ← vomp_update_local_state dir supported_codecs i s;
          _ ← vomp_update clock dir monitor_socket_count interested supported_codecs i; f) w Q.
Proof.
  intros H Hc Hf.
  eapply (wp_bind _ _ _ _ _ _ _ H); [by apply vomp_update_local_state_spec |].
  intros _ ? es1 w1 (_ & -> & _) H1.
  eapply (wp_bind _ _ _ _ _ _ _ H1).
  { apply vomp_update_spec; [done | exact H1 |]. apply (call_ok_same dir c); [| done].
    unfold with_local. by case_match. }
  intros _ ? es2 w2 (_ & -> & _) H2. eapply wp_weaken; [| apply (Hf w2 (es1 ++ es2) H2)].
  intros x c' es'. cbv beta. by rewrite <- app_assoc.
Qed.

Lemma same_link_scheduled w i c c' : vomp_wf w -> live w i c -> same_link c c' -> scheduled c' = true.
Proof. intros W Hl [_ _ _ _ _ L6]. rewrite L6. by eapply (vw_scheduled _ W). Qed.

Lemma ringing_handled i c w x w' :
  vomp_wf w -> live w i c ->
  vomp_ringing clock dir monitor_socket_count interested supported_codecs (Some i) w = Some (x, w') ->
  handled (fun _ => False) w w'.
Proof.
  intros W Hl H. pose proof (vw_inv _ W _ _ Hl) as Hc. unfold vomp_ringing in H.
  eapply (handled_runs _ i c _ w x w' (fun c' => c' = c \/ c' = told c VOMP_STATE_RINGINGIN) W Hl); [| exact H |].
  - apply pw_of, (wp_get _ _ _ _ _ (proj2 Hl)). destruct (_ && _ && _).
    + apply (tell_state_spec i w c); [apply Hl | apply Hc |]. intros w1 es H1. apply (wp_ret _ _ _ _ _ H1). by right.
    + apply (wp_ret _ _ _ _ _ (proj2 Hl)). by left.
  - intros c' [-> | ->].
    + split_and!; try done; [by eapply (vw_scheduled _ W) | by left].
    + destruct (told_states c VOMP_STATE_RINGINGIN) as [E _]; [unfold VOMP_STATE_RINGINGIN; lia |].
      destruct (told_link c VOMP_STATE_RINGINGIN) as [_ _ L3 _ L5 L6]. split_and!; [done | | |].
      * apply told_inv; [done |]. unfold VOMP_STATE_RINGINGIN, VOMP_STATE_CALLENDED. lia.
      * rewrite L6. by eapply (vw_scheduled _ W).
      * rewrite L5, E. unfold VOMP_STATE_RINGINGIN, VOMP_STATE_INCALL. intros ??. left. split; [done | lia].
Qed.

Lemma hangup_handled i c w x w' :
  vomp_wf w -> live w i c ->
  vomp_hangup clock dir monitor_socket_count interested supported_codecs (Some i) w = Some (x, w') ->
  handled (fun _ => False) w w'.
Proof.
  intros W Hl H. pose proof (vw_inv _ W _ _ Hl) as Hc. unfold vomp_hangup in H.
  eapply (handled_runs _ i c _ w x w' (fun c' => c' = told c VOMP_STATE_CALLENDED) W Hl); [| exact H |].
  - apply pw_of, (tell_state_spec i w c); [apply Hl | apply Hc |]. intros w1 es H1. by apply (wp_ret _ _ _ _ _ H1).
  - intros c' ->. destruct (told_states c VOMP_STATE_CALLENDED) as [E _]; [unfold VOMP_STATE_CALLENDED; lia |].
    destruct (told_link c VOMP_STATE_CALLENDED) as [_ _ L3 _ L5 L6]. split_and!; [done | | |].
    + apply told_inv; [done |]. unfold VOMP_STATE_RINGINGIN, VOMP_STATE_CALLENDED. lia.
    + rewrite L6. by eapply (vw_scheduled _ W).
    + rewrite E. unfold VOMP_STATE_CALLENDED, VOMP_STATE_INCALL. lia.
Qed.

Lemma pickup_handled i c w x w' :
  vomp_wf w -> live w i c ->
  vomp_pickup clock dir monitor_socket_count interested supported_codecs (Some i) w = Some (x, w') ->
  handled (fun s => s = session (local c)) w w'.
Proof.
  intros W Hl H. pose proof (vw_inv _ W _ _ Hl) as Hc. unfold vomp_pickup in H.
  eapply (handled_runs _ i c _ w x w'
    (fun c' => c' = c \/ exists t, c' = updated (set_create_time (with_local c VOMP_STATE_INCALL) t)) W Hl); [| exact H |].
  - apply pw_of, (wp_get _ _ _ _ _ (proj2 Hl)). destruct (_ && _).
    2: { apply (wp_ret _ _ _ _ _ (proj2 Hl)). by left. }
    eapply (wp_bind _ _ _ _ _ _ _ (proj2 Hl)); [apply vomp_update_local_state_spec; [done | apply Hl | apply Hc] |].
    intros _ ? es1 w1 (_ & -> & _) H1. apply (wp_time _ _ _ _ _ _ H1). intros w2 H2.
    apply (wp_upd _ _ _ _ _ _ H2). intros w3 H3.
    eapply (wp_bind _ _ _ _ _ _ _ H3).
    { apply vomp_update_spec; [done | exact H3 |]. apply (call_ok_same dir c); [| apply Hc].
      unfold with_local. by case_match. }
    intros _ ? es2 w4 (_ & -> & _) H4. apply (wp_ret _ _ _ _ _ H4). right. by eexists.
  - intros c' [-> | [t ->]]; [split_and!; try done; [by eapply (vw_scheduled _ W) | by left] |].
    set (d := set_create_time (with_local c VOMP_STATE_INCALL) t).
    destruct (updated_same d) as [_ _ S3 S4 S5 _ S7 S8].
    assert (Ed : session (local d) = session (local c) /\ initiated_call d = initiated_call c /\
      scheduled d = scheduled c /\ state (remote d) = state (remote c))
      by (unfold d, with_local; by case_match).
    destruct Ed as (D1 & D2 & D3 & D4).
    assert (D5 : state (local d) = Z.max (state (local c)) VOMP_STATE_INCALL)
      by (unfold d; cbn; apply with_local_state; unfold VOMP_STATE_INCALL; lia).
    split_and!; [congruence | | rewrite S8, D3; by eapply (vw_scheduled _ W) | intros ??; by right].
    destruct Hc as [C1 C2 C3 C4]. split.
    + apply (call_ok_same dir d); [apply updated_parties |]. apply (call_ok_same dir c); [| done].
      unfold d, with_local. by case_match.
    + rewrite S3, D5. unfold VOMP_STATE_NOCALL, VOMP_STATE_CALLENDED, VOMP_STATE_INCALL in *. lia.
    + by rewrite S4, D4.
    + rewrite S3, D5. unfold VOMP_STATE_CALLPREP, VOMP_STATE_RINGINGOUT, VOMP_STATE_INCALL. lia.
Qed.

Lemma received_audio_handled i c codec time sq audio w x w' :
  vomp_wf w -> live w i c ->
  vomp_received_audio clock dir i codec time sq audio w = Some (x, w') ->
  handled (fun _ => False) w w'.
Proof.
  intros W Hl H. pose proof (vw_inv _ W _ _ Hl) as Hc. unfold vomp_received_audio in H.
  eapply (handled_runs _ i c _ w x w' (fun c' => same_status c c' /\ call_ok dir c') W Hl); [| exact H |].
  - apply (pw_get _ _ _ _ _ (proj2 Hl)).
    destruct (negb _); [apply (pw_ret _ _ _ _ _ (proj2 Hl)); split; [done | apply Hc] |].
    eapply (pw_bind _ _ _ _ _ (fun _ c' _ => same_status c c' /\ call_ok dir c') _ (proj2 Hl)).
    { destruct (time =? -1).
      - apply (pw_put _ _ _ _ _ _ (proj2 Hl)). intros w1 H1. apply (pw_ret _ _ _ _ _ H1).
        split; [done |]. by apply (call_ok_same dir c), Hc.
      - apply (pw_ret _ _ _ _ _ (proj2 Hl)). split; [done | apply Hc]. }
    intros t c1 es1 w1 (S1 & O1) H1. apply (pw_get _ _ _ _ _ H1).
    eapply (pw_bind _ _ _ _ _ (fun _ c' _ => same_status c1 c' /\ call_ok dir c') _ H1).
    { destruct (sq =? -1).
      - apply (pw_put _ _ _ _ _ _ H1). intros w2 H2. apply (pw_ret _ _ _ _ _ H2).
        split; [done |]. by apply (call_ok_same dir c1).
      - by apply (pw_ret _ _ _ _ _ H1). }
    intros q c2 es2 w2 (S2 & O2) H2. apply (pw_get _ _ _ _ _ H2).
    eapply (pw_bind _ _ _ _ _ _ _ H2); [by apply pw_of, prepare_vomp_header_spec |].
    intros m ? es3 w3 (-> & _) H3. cbv zeta. apply pw_lift. intros m1 _. apply pw_lift. intros p _.
    eapply (pw_bind _ _ _ _ _ (fun _ c' _ => c' = c2) _ H3); [by apply pw_of, (wp_emit_end _ _ _ _ _ H3) |].
    intros _ ? es4 w4 -> H4. apply (pw_ret _ _ _ _ _ H4). split; [by eapply same_status_trans | done].
  - intros c' (S1 & O1). pose proof S1 as [_ _ S3 _ S5 _ S7 S8].
    split_and!; [done | by apply (call_inv_same c) | rewrite S8; by eapply (vw_scheduled _ W) |].
    rewrite S3, S7. intros ??. by left.
Qed.

Lemma dial_handled l r ld rd w x w' lid rid :
  vomp_wf w -> known_sid dir l lid -> known_sid dir r rid ->
  vomp_dial clock dir monitor_socket_count interested supported_codecs l r ld rd w = Some (x, w') ->
  handled (fun _ => False) w w'.
Proof.
  intros W Hlk Hrk H. unfold vomp_dial in H. apply VM_bind_inv in H as (n & w1 & [= <- <-] & H).
  destruct (_ <=? _); [by injection H as <- <-; split; [| by left] |].
  apply VM_bind_inv in H as (i & w1 & E1 & H).
  destruct (create_wf _ _ _ _ _ _ _ _ W Hrk Hlk E1) as (W1 & A1 & s & now & Hl).
  set (c := new_call r l 0 s now) in *. pose proof (new_call_ok r l 0 s now _ _ Hrk Hlk) as Ho. fold c in Ho.
  enough (handled (fun _ => False) w1 w') as [? ?].
  { split; [done |]. by eapply answers_trans; [exact A1 |]. }
  eapply (handled_runs _ i c _ w1 x w' (fun c' => exists d1 d2 t1 t2, did_ok d1 t1 /\ did_ok d2 t2 /\
    c' = updated (set_initiated_call (with_local
      (set_remote (set_local c (set_did (local c) d1)) (set_did (remote c) d2)) VOMP_STATE_CALLPREP) true))
    W1 Hl); [| exact H |].
  - apply (pw_get _ _ _ _ _ (proj2 Hl)). apply pw_lift. intros [n1 d1] E2. apply pw_lift. intros [n2 d2] E3.
    cbn [snd]. destruct (copy_did_ok _ [] _ _ zero_did_ok E2) as [t1 D1].
    destruct (copy_did_ok _ [] _ _ zero_did_ok E3) as [t2 D2]. cbn [snd] in D1, D2.
    apply (pw_put _ _ _ _ _ _ (proj2 Hl)). intros w2 H2. set (c2 := set_remote _ _) in *.
    assert (O2 : call_ok dir c2) by (split; [exists lid, t1 | exists rid, t2 | apply zero_codecs_wf]; done).
    eapply (pw_bind _ _ _ _ _ _ _ H2); [apply pw_of, vomp_update_local_state_spec; done |].
    intros _ ? es3 w3 (_ & -> & _) H3. apply (pw_upd _ _ _ _ _ _ H3). intros w4 H4.
    eapply (pw_bind _ _ _ _ _ _ _ H4).
    { apply pw_of, vomp_update_spec; [done | exact H4 |]. by apply (call_ok_same dir c2). }
    intros _ ? es5 w5 (_ & -> & _) H5. apply (pw_ret _ _ _ _ _ H5). by exists d1, d2, t1, t2.
  - intros c' (d1 & d2 & t1 & t2 & D1 & D2 & ->). set (d := set_initiated_call _ true).
    destruct (updated_same d) as [_ _ S3 S4 S5 _ S7 S8].
    split_and!; [rewrite S5; done | | rewrite S8; done | rewrite S7; done].
    split; [| rewrite S3; done | rewrite S4; done | rewrite S7; done].
    apply (call_ok_same dir d); [apply updated_parties |].
    split; [exists lid, t1 | exists rid, t2 | apply zero_codecs_wf]; done.
Qed.

(** ** Destroying a call *)

(** The table while the alarm of slot [i] is running. *)
Record vomp_wf_but (i : nat) (w : vworld) : Prop := {
  vb_calls : length (calls w) = VOMP_MAX_CALLS;
  vb_count : 0 <= vomp_call_count w <= Z.of_nat VOMP_MAX_CALLS;
  vb_heap : length (heap w) = base VOMP_MAX_CALLS;
  vb_inv : forall j c, live w j c -> call_inv c;
  vb_scheduled : forall j c, live w j c -> j <> i -> scheduled c = true;
  vb_distinct : NoDup (sessions_in_use w);
  vb_sessions : Forall (fun s => 0 < s <= VOMP_SESSION_MASK) (sessions_in_use w);
  vb_entropy : Forall is_Some (entropy w)
}.

Lemma wf_but_stepped i c c' es w w' :
  vomp_wf w -> live w i c -> stepped i c' es w w' ->
  session (local c') = session (local c) -> call_inv c' -> vomp_wf_but i w'.
Proof.
  intros [W1 W2 W3 W4 W5 W6 W7 W8] Hl S Es Hi. pose proof S as [E1 E2 E3 E4 E5].
  pose proof (sessions_stepped _ _ _ _ _ _ Hl S Es) as Ess.
  split; rewrite ?E1, ?E2, ?E3, ?E4, ?Ess; try done.
  - by rewrite length_insert.
  - intros j d Hd. destruct (live_stepped _ _ _ _ _ _ _ S Hd) as [[-> ->] | [_ Hd']]; eauto.
  - intros j d Hd Hne. destruct (live_stepped _ _ _ _ _ _ _ S Hd) as [[-> ->] | [_ Hd']]; [done | eauto].
Qed.

(** The last call, moved to the slot that became free. *)
Definition moved (c : vomp_call_state) : vomp_call_state :=
  set_scheduled (set_deadline (set_scheduled c false) (Z.max (deadline c) (alarm c))) true.

(** Where the call in slot [j] was before slot [i] was freed. *)
Definition slot_before (i last j : nat) : nat := if decide (j = i) then last else j.

Lemma destroy_effect i w x w' :
  vomp_wf_but i w -> (i < Z.to_nat (vomp_call_count w))%nat -> vomp_call_destroy i w = Some (x, w') ->
  vomp_call_count w' = vomp_call_count w - 1 /\ length (calls w') = length (calls w) /\
  length (heap w') = length (heap w) /\ entropy w' = entropy w /\ out w' = out w /\
  forall j d, live w' j d -> exists c, j <> Z.to_nat (vomp_call_count w - 1) /\
    live w (slot_before i (Z.to_nat (vomp_call_count w - 1)) j) c /\ (d = c \/ d = moved c) /\
    (j = i -> d = moved c).
Proof.
  intros W Hi H. pose proof W as [W1 W2 W3 _ _ _ _ _].
  unfold VOMP_MAX_CALLS in *.
  destruct (lookup_lt_is_Some_2 (calls w) i) as [c Hc]; [lia |].
  unfold vomp_call_destroy, unschedule, upd in H.
  apply VM_bind_inv in H as ([] & w1 & E1 & H).
  rewrite (VM_bind_Some _ _ _ _ _ (get_call_Some _ _ _ Hc)) in E1. injection E1 as <-.
  apply VM_bind_inv in H as ([] & w2 & E2 & H).
  assert (Hc1 : <[i := set_scheduled c false]> (calls w) !! i = Some (set_scheduled c false))
    by (apply list_lookup_insert_eq; lia).
  rewrite (VM_bind_Some _ _ _ _ _ (get_call_Some i _ (set_calls w _) Hc1)) in E2.
  injection E2 as <-. cbn in H.
  apply VM_bind_inv in H as (last & w3 & [= <- <-] & H). cbn in H.
  set (last := Z.to_nat (vomp_call_count w - 1)) in *.
  set (dead := set_remote _ _) in H. rewrite list_insert_insert_eq in H.
  destruct (Nat.eqb_spec i last) as [-> | Hne].
  - injection H as <- <-. cbn. rewrite length_insert. split_and!; try done.
    intros j d [Hj Hd]. cbn in Hj, Hd. exists d. assert (j <> last) by lia.
    rewrite list_lookup_insert_ne in Hd by done. unfold slot_before. rewrite decide_False by done.
    split_and!; [done | split; [lia | done] | by left | done].
  - apply VM_bind_inv in H as ([] & w4 & E4 & H).
    apply VM_bind_inv in E4 as (cl & w5 & E5 & E4). unfold get_call in E5.
    apply bind_Some in E5 as (cl' & Ecl & [= -> <-]). cbn in Ecl.
    rewrite list_lookup_insert_ne in Ecl by done. injection E4 as <-. cbn in H.
    apply VM_bind_inv in H as (cl2 & w6 & E6 & H). unfold get_call in E6.
    apply bind_Some in E6 as (cl3 & Ecl3 & [= -> <-]). cbn in Ecl3.
    rewrite list_lookup_insert_eq in Ecl3 by (rewrite length_insert; lia). injection Ecl3 as <-.
    apply VM_bind_inv in H as ([] & w7 & E7 & H). injection E7 as <-. cbn in H.
    apply VM_bind_inv in H as ([] & w8 & E8 & H). injection E8 as <-. cbn in H.
    apply VM_bind_inv in H as ([] & w9 & E9 & H). injection H as <- <-.
    unfold schedule in E9. apply VM_bind_inv in E9 as (ci & w10 & E10 & E9). unfold get_call in E10.
    apply bind_Some in E10 as (ci' & Eci & [= -> <-]). cbn in Eci.
    rewrite list_lookup_insert_eq in Eci by (rewrite !length_insert; lia). injection Eci as <-.
    cbn in E9. injection E9 as <-. cbn. rewrite !length_insert. split_and!; try done.
    { unfold copy_samples. rewrite !length_app, !length_take, !length_drop, W3.
      unfold base, JITTER_SAMPLES. lia. }
    assert (Hlast : last = Z.to_nat (vomp_call_count w - 1)) by done.
    intros j d [Hj Hd]. cbn in Hj, Hd. rewrite !list_insert_insert_eq in Hd.
    exists (if decide (j = i) then cl else d). unfold slot_before. split; [lia |].
    destruct (decide (j = i)) as [-> | Hji].
    + rewrite list_lookup_insert_eq in Hd by (rewrite !length_insert; lia). injection Hd as <-.
      split_and!; [split; [lia | done] | by right | done].
    + rewrite list_lookup_insert_ne in Hd by done. rewrite list_lookup_insert_ne in Hd by lia.
      rewrite list_lookup_insert_ne in Hd by done. split_and!; [split; [lia | done] | by left | done].
Qed.

Lemma moved_inv c : call_inv c -> call_inv (moved c).
Proof. intros [H1 H2 H3 H4]. split; try done. by apply (call_ok_same dir c). Qed.

Lemma destroy_wf i c w x w' :
  vomp_wf_but i w -> live w i c -> vomp_call_destroy i w = Some (x, w') ->
  vomp_wf w' /\ answers (fun _ => False) w w' /\ vomp_call_count w' = vomp_call_count w - 1 /\
  (session (local c) ∉ sessions_in_use w').
Proof.
  intros W [Hi Hc] H. destruct (destroy_effect _ _ _ _ W Hi H) as (E1 & E2 & E3 & E4 & E5 & Hlive).
  pose proof W as [W1 W2 W3 W4 W5 W6 W7 W8]. set (last := Z.to_nat (vomp_call_count w - 1)) in *.
  assert (Hsess : forall j s, sessions_in_use w' !! j = Some s ->
    j <> last /\ sessions_in_use w !! slot_before i last j = Some s).
  { intros j s (d & Hd & <-)%sessions_lookup. destruct (Hlive j d Hd) as (c0 & Hj & Hl & Hd' & _).
    split; [done |]. apply sessions_lookup. exists c0. split; [done |]. by destruct Hd' as [-> | ->]. }
  assert (Hinj : forall j k, slot_before i last j = slot_before i last k -> j <> last -> k <> last -> j = k)
    by (intros j k; unfold slot_before; repeat case_decide; congruence).
  split_and!; try done.
  - split; try congruence.
    + rewrite E1. unfold VOMP_MAX_CALLS in *. lia.
    + intros j d Hd. destruct (Hlive j d Hd) as (c0 & _ & Hl & [-> | ->] & _); [eauto | apply moved_inv; eauto].
    + intros j d Hd. destruct (Hlive j d Hd) as (c0 & Hj & Hl & Hor & Hm).
      destruct (decide (j = i)) as [-> | Hne]; [by rewrite (Hm eq_refl) |].
      destruct Hor as [-> | ->]; [| done]. eapply W5; [exact Hl |]. unfold slot_before. by rewrite decide_False.
    + apply NoDup_alt. intros j k s [Hj1 Hj2]%Hsess [Hk1 Hk2]%Hsess.
      apply Hinj; try done. eapply NoDup_lookup; eauto.
    + apply Forall_lookup. intros j s [_ Hs]%Hsess. rewrite Forall_lookup in W7. eauto.
  - intros s (j & d & Hd & <- & Hin & Hst). left. destruct (Hlive j d Hd) as (c0 & _ & Hl & Hor & _).
    eexists _, c0. split; [exact Hl |]. by destruct Hor as [-> | ->].
  - intros [j Hj]%list_elem_of_lookup. destruct (Hsess _ _ Hj) as [Hj1 Hj2].
    assert (Hi2 : sessions_in_use w !! i = Some (session (local c))) by (apply sessions_lookup; by exists c).
    pose proof (NoDup_lookup _ _ _ _ W6 Hj2 Hi2) as E. unfold slot_before in E. case_decide; congruence.
Qed.

Lemma schedule_runs i w c :
  calls w !! i = Some c -> scheduled c = false ->
  runs i (schedule i) w (fun _ c' es => es = [] /\
    c' = set_scheduled (set_deadline c (Z.max (deadline c) (alarm c))) true).
Proof.
  intros H Hs. unfold schedule. apply (wp_get _ _ _ _ _ H). rewrite Hs.
  eexists tt, _, [], _. split_and!; [done | | done | done]. split; cbn; try done. by rewrite app_nil_r.
Qed.

Lemma destroy_defined i w :
  vomp_wf_but i w -> (i < Z.to_nat (vomp_call_count w))%nat ->
  exists x w', vomp_call_destroy i w = Some (x, w').
Proof.
  intros W Hi. pose proof W as [W1 W2 _ _ _ _ _ _]. unfold VOMP_MAX_CALLS in *.
  destruct (lookup_lt_is_Some_2 (calls w) i) as [c Hc]; [lia |].
  set (last := Z.to_nat (vomp_call_count w - 1)).
  destruct (lookup_lt_is_Some_2 (calls w) last) as [cl Hcl]; [unfold last; lia |].
  unfold vomp_call_destroy, unschedule, upd.
  erewrite VM_bind_Some by (erewrite VM_bind_Some by (by apply get_call_Some); reflexivity).
  erewrite VM_bind_Some by (erewrite VM_bind_Some
    by (apply get_call_Some; apply list_lookup_insert_eq; lia); reflexivity).
  erewrite VM_bind_Some by done. cbn [vomp_call_count set_calls]. fold last.
  destruct (Nat.eqb_spec i last) as [-> | Hne]; [eauto |].
  erewrite VM_bind_Some by (erewrite VM_bind_Some
    by (apply get_call_Some; cbn; rewrite !list_lookup_insert_ne by done; exact Hcl); reflexivity).
  erewrite VM_bind_Some by (apply get_call_Some; cbn; apply list_lookup_insert_eq; rewrite !length_insert; unfold last; lia).
  erewrite VM_bind_Some by reflexivity. erewrite VM_bind_Some by done.
  edestruct (schedule_runs i) as (x & c' & es & w' & E & _); [| | erewrite VM_bind_Some by exact E; eauto].
  - cbn. apply list_lookup_insert_eq. rewrite !length_insert. lia.
  - done.
Qed.

(** ** The alarm *)

Definition after_timeout (now : Z) (c : vomp_call_state) : vomp_call_state :=
  if timed_out c now
  then updated (with_remote (with_local (set_rejection_reason c VOMP_REJECT_TIMEOUT) VOMP_STATE_CALLENDED)
                  VOMP_STATE_CALLENDED)
  else c.

Lemma timeout_spec i w c now :
  calls w !! i = Some c -> call_ok dir c ->
  runs i (if timed_out c now then
         _ ← put_call i (set_rejection_reason c VOMP_REJECT_TIMEOUT);
         _ ← vomp_update_local_state dir supported_codecs i VOMP_STATE_CALLENDED;
         _ ← vomp_update_remote_state dir i VOMP_STATE_CALLENDED;
         _ ← vomp_update clock dir monitor_socket_count interested supported_codecs i;
         mret tt
       else mret tt) w (fun _ c' es => c' = after_timeout now c /\
         (timed_out c now = true -> state (local c) < VOMP_STATE_CALLENDED ->
          In (Hangup (session (local c))) es)).
Proof.
  intros H Hc. unfold after_timeout. destruct (timed_out c now); [| by apply (wp_ret _ _ _ _ _ H)].
  apply (wp_put _ _ _ _ _ _ H). intros w1 H1. set (c1 := set_rejection_reason c VOMP_REJECT_TIMEOUT) in *.
  assert (O1 : call_ok dir c1) by by apply (call_ok_same dir c).
  eapply (wp_bind _ _ _ _ _ _ _ H1); [by apply vomp_update_local_state_spec |].
  intros _ ? es2 w2 (_ & -> & _ & Hh) H2.
  assert (O2 : call_ok dir (with_local c1 VOMP_STATE_CALLENDED))
    by (apply (call_ok_same dir c1); [unfold with_local; by case_match | done]).
  eapply (wp_bind _ _ _ _ _ _ _ H2); [by apply vomp_update_remote_state_spec |].
  intros _ ? es3 w3 (_ & -> & _) H3.
  eapply (wp_bind _ _ _ _ _ _ _ H3).
  { apply vomp_update_spec; [done | exact H3 |].
    apply (call_ok_same dir (with_local c1 VOMP_STATE_CALLENDED)); [unfold with_remote; by case_match | done]. }
  intros _ ? es4 w4 (_ & -> & _) H4. apply (wp_ret _ _ _ _ _ H4). split; [done |].
  intros _ Hlt. rewrite (Hh Hlt eq_refl). by left.
Qed.

Lemma after_timeout_parties now c : same_parties c (after_timeout now c).
Proof. unfold after_timeout, updated, with_remote, with_local. by repeat case_match. Qed.

Lemma after_timeout_link now c : same_link c (after_timeout now c).
Proof. unfold after_timeout, updated, with_remote, with_local. by repeat case_match. Qed.

Lemma after_timeout_states now c :
  (timed_out c now = false /\ state (local (after_timeout now c)) = state (local c) /\
   state (remote (after_timeout now c)) = state (remote c)) \/
  (timed_out c now = true /\
   state (local (after_timeout now c)) = Z.max (state (local c)) VOMP_STATE_CALLENDED /\
   state (remote (after_timeout now c)) = Z.max (state (remote c)) VOMP_STATE_CALLENDED).
Proof.
  unfold after_timeout. destruct (timed_out c now); [right | by left]. split; [done |].
  set (d := set_rejection_reason c VOMP_REJECT_TIMEOUT).
  destruct (updated_same (with_remote (with_local d VOMP_STATE_CALLENDED) VOMP_STATE_CALLENDED))
    as [_ _ S3 S4 _ _ _ _].
  rewrite S3, S4, with_remote_state by (unfold VOMP_STATE_CALLENDED; lia). split.
  - change (state (local c)) with (state (local d)). rewrite <- (with_local_state d VOMP_STATE_CALLENDED) by (unfold VOMP_STATE_CALLENDED; lia).
    unfold with_remote. by case_match.
  - f_equal. unfold with_local. by case_match.
Qed.

Lemma after_timeout_inv now c : call_inv c -> call_inv (after_timeout now c).
Proof.
  intros [H1 H2 H3 H4]. destruct (after_timeout_link now c) as [_ _ _ _ L5 _].
  unfold VOMP_STATE_NOCALL, VOMP_STATE_CALLENDED in *.
  split; [apply (call_ok_same dir c); [apply after_timeout_parties | done] | | |];
    destruct (after_timeout_states now c) as [(_ & E1 & E2) | (_ & E1 & E2)];
    unfold VOMP_STATE_NOCALL, VOMP_STATE_CALLENDED, VOMP_STATE_CALLPREP, VOMP_STATE_RINGINGOUT in *;
    rewrite ?E1, ?E2, ?L5; auto; lia.
Qed.

(** The end of a tick of a call that goes on. *)
Lemma tick_goes_on i w c :
  calls w !! i = Some c -> call_ok dir c -> scheduled c = false ->
  runs i (_ ← vomp_update clock dir monitor_socket_count interested supported_codecs i;
    _ ← vomp_send_status_remote clock dir supported_codecs i;
    c ← get_call i;
    _ ← emit_event (KeepAlive (session (local c)));
    t ← gettime_ms clock;
    _ ← upd i (fun c => set_deadline (set_alarm c (t + VOMP_CALL_STATUS_INTERVAL))
                          (t + VOMP_CALL_STATUS_INTERVAL + VOMP_CALL_STATUS_INTERVAL / 2));
    schedule i) w
    (fun _ c' _ => same_status (set_scheduled c true) c' /\ call_ok dir c').
Proof.
  intros H Hc Hs. eapply (wp_bind _ _ _ _ _ _ _ H); [by apply vomp_update_spec |].
  intros _ ? es1 w1 (_ & -> & _) H1.
  assert (O1 : call_ok dir (updated c)) by (apply (call_ok_same dir c); [apply updated_parties | done]).
  eapply (wp_bind _ _ _ _ _ _ _ H1); [by apply vomp_send_status_remote_spec |].
  intros _ ? es2 w2 (_ & -> & _) H2. apply (wp_get _ _ _ _ _ H2), (wp_emit _ _ _ _ _ _ H2). intros w3 H3.
  apply (wp_time _ _ _ _ _ _ H3). intros w4 H4. apply (wp_upd _ _ _ _ _ _ H4). intros w5 H5.
  destruct (updated_same c) as [S1 S2 S3 S4 S5 S6 S7 S8].
  eapply wp_weaken; [| apply (schedule_runs _ _ _ H5)]; [| cbn; congruence].
  cbv beta. intros _ c' es (_ & ->). split; [done |]. by apply (call_ok_same dir (updated c)).
Qed.

Lemma run_alarm_cases i c w :
  vomp_wf w -> live w i c ->
  let c1 := after_timeout (clock (reads w)) (set_scheduled c false) in
  if (state (local c1) =? VOMP_STATE_CALLENDED) && (state (remote c1) =? VOMP_STATE_CALLENDED)
  then exists es w1, stepped i c1 es w w1 /\
    run_alarm clock dir monitor_socket_count interested supported_codecs i w =
      (_ ← vomp_call_destroy i; mret tt) w1 /\
    (timed_out c (clock (reads w)) = true -> state (local c) < VOMP_STATE_CALLENDED ->
     In (Hangup (session (local c))) es)
  else runs i (run_alarm clock dir monitor_socket_count interested supported_codecs i) w
         (fun _ c' _ => same_status (set_scheduled c1 true) c' /\ call_ok dir c').
Proof.
  intros W Hl c1. pose proof (vw_inv _ W _ _ Hl) as [Ho _ _ _]. set (c0 := set_scheduled c false) in *.
  assert (O0 : call_ok dir c0) by by apply (call_ok_same dir c).
  set (w0 := set_reads (set_calls w (<[i := c0]> (calls w))) (S (reads w))).
  assert (S0 : stepped i c0 [] w w0) by (split; cbn; try done; by rewrite app_nil_r).
  assert (H0 : calls w0 !! i = Some c0) by (eapply stepped_lookup; [apply Hl | exact S0]).
  destruct (timeout_spec i w0 c0 (clock (reads w)) H0 O0) as (u & c1' & es & w1 & E1 & S1 & -> & Hh).
  fold c1 in S1. pose proof (stepped_lookup _ _ _ _ _ _ H0 S1) as H1.
  pose proof (stepped_trans _ _ _ _ _ _ _ _ S0 S1) as S01. cbn [app] in S01.
  assert (Erun : forall A (f : VM A), run_alarm clock dir monitor_socket_count interested supported_codecs i w =
    (if (state (local c1) =? VOMP_STATE_CALLENDED) && (state (remote c1) =? VOMP_STATE_CALLENDED)
     then _ ← vomp_call_destroy i; mret tt
     else _ ← vomp_update clock dir monitor_socket_count interested supported_codecs i;
      _ ← vomp_send_status_remote clock dir supported_codecs i;
      c ← get_call i;
      _ ← emit_event (KeepAlive (session (local c)));
      t ← gettime_ms clock;
      _ ← upd i (fun c => set_deadline (set_alarm c (t + VOMP_CALL_STATUS_INTERVAL))
                            (t + VOMP_CALL_STATUS_INTERVAL + VOMP_CALL_STATUS_INTERVAL / 2));
      schedule i) w1).
  { intros _ _. unfold run_alarm, unschedule, upd, vomp_process_tick.
    erewrite VM_bind_Some by (erewrite VM_bind_Some by (by apply get_call_Some, Hl); reflexivity).
    fold c0. erewrite VM_bind_Some by reflexivity. cbn [reads set_calls]. fold w0.
    erewrite VM_bind_Some by (apply get_call_Some; exact H0).
    erewrite VM_bind_Some by exact E1. erewrite VM_bind_Some by (apply get_call_Some; exact H1). done. }
  specialize (Erun unit (mret tt)).
  destruct (_ && _); [by exists es, w1 |].
  assert (O1 : call_ok dir c1) by (apply (call_ok_same dir c0); [apply after_timeout_parties | done]).
  assert (Hs1 : scheduled c1 = false) by (unfold c1; rewrite (sl_scheduled _ _ (after_timeout_link (clock (reads w)) c0)); done).
  destruct (tick_goes_on i w1 c1 H1 O1 Hs1) as (u' & c2 & es2 & w2 & E2 & S2 & HQ).
  exists u', c2, (es ++ es2), w2. rewrite Erun. split_and!; [done | by eapply stepped_trans | | ]; apply HQ.
Qed.

Lemma alarm_handled i c w x w' :
  vomp_wf w -> live w i c ->
  run_alarm clock dir monitor_socket_count interested supported_codecs i w = Some (x, w') ->
  handled (fun _ => False) w w'.
Proof.
  intros W Hl H. pose proof (vw_inv _ W _ _ Hl) as Hc.
  set (c0 := set_scheduled c false). set (c1 := after_timeout (clock (reads w)) c0).
  assert (I0 : call_inv c0) by (destruct Hc; split; try done; by apply (call_ok_same dir c)).
  pose proof (after_timeout_inv (clock (reads w)) c0 I0) as I1. fold c1 in I1.
  pose proof (after_timeout_link (clock (reads w)) c0) as [_ _ L3 _ L5 L6]. fold c1 in L3, L5, L6.
  assert (Hst : state (local c1) = VOMP_STATE_INCALL -> state (local c) = VOMP_STATE_INCALL).
  { destruct (after_timeout_states (clock (reads w)) c0) as [(_ & E & _) | (_ & E & _)]; fold c1 in E; rewrite E; [done |].
    unfold VOMP_STATE_CALLENDED, VOMP_STATE_INCALL. lia. }
  pose proof (run_alarm_cases i c w W Hl) as R. fold c0 c1 in R. cbv zeta in R.
  destruct (_ && _).
  - destruct R as (es & w1 & S1 & E & _). rewrite E in H.
    apply VM_bind_inv in H as (y & w2 & E2 & H). injection H as _ <-.
    assert (Hl1 : live w1 i c1).
    { split; [rewrite (st_count _ _ _ _ _ S1); apply Hl | eapply stepped_lookup; [apply Hl | exact S1]]. }
    pose proof (wf_but_stepped i c c1 es w w1 W Hl S1 L3 I1) as W1.
    destruct (destroy_wf i c1 w1 y w2 W1 Hl1 E2) as (W2 & A2 & _ & _). split; [done |].
    eapply answers_trans; [| exact A2]. eapply (answers_stepped _ i c c1); try done.
    rewrite L5. intros ??. left. split; [done | auto].
  - eapply (handled_runs _ i c _ w x w' (fun c' => same_status (set_scheduled c1 true) c' /\ call_ok dir c') W Hl);
      [by apply pw_of | done |].
    intros c' (Sx & O'). pose proof Sx as [_ _ S3 S4 S5 _ S7 S8]. split_and!; [exact (eq_trans S5 L3) | | done |].
    + apply (call_inv_same (set_scheduled c1 true)); [done | exact Sx |].
      destruct I1; split; try done. by apply (call_ok_same dir c1).
    + cbn in S3, S7. rewrite S3, S7, L5. intros ??. left. split; [done | auto].
Qed.
End machine.
