(* ===== verification/VompAudio.v ===== *)
(** VompAudio: audio packets of a call.

    What vomp_received_audio puts into a packet is what vomp_process_audio reads out
    of it, and clocks and sequence numbers survive being cut to 16 bits. *)

From S2P Require Import Prelude DataFormats Str Strlcpy SubscriberTree Jitter Vomp VompCalls.

Lemma high_bits_or r s :
  0 <= r < 2 ^ 31 -> 0 <= s < 2 ^ 16 -> Z.lor (Z.land r 0xFFFF0000) s = r / 2 ^ 16 * 2 ^ 16 + s.
Proof.
  intros Hr Hs. assert (Hl : Z.land r 0xFFFF0000 = Z.shiftl (r / 2 ^ 16) 16).
  { apply Z.bits_inj'. intros n Hn. rewrite Z.land_spec, Z.shiftl_spec by done.
    change 0xFFFF0000 with (Z.shiftl (Z.ones 16) 16). rewrite Z.shiftl_spec by done.
    destruct (Z.ltb_spec n 16) as [Hlt | Hge].
    - rewrite (Z.testbit_neg_r _ (n - 16)), andb_false_r by lia. by rewrite Z.testbit_neg_r by lia.
    - rewrite <- Z.shiftr_div_pow2, Z.shiftr_spec by lia. replace (n - 16 + 16) with n by lia.
      destruct (Z.ltb_spec n 32).
      + rewrite Z.ones_spec_low by lia. by rewrite andb_true_r.
      + rewrite Z.ones_spec_high, andb_false_r by lia. symmetry. apply Z.bits_above_log2; [lia |].
        destruct (Z.eq_dec r 0) as [-> | ]; [cbn; lia |]. apply Z.log2_lt_pow2; [lia |].
        apply Z.lt_le_trans with (2 ^ 31); [lia |]. apply Z.pow_le_mono_r; lia. }
  by rewrite Hl, lor_shiftl_add by lia.
Qed.

Lemma to_absolute_spec v ref :
  0 <= v -> 0 <= ref -> -0x8000 < v - ref < 0x8000 -> v + 0x20000 <= INT_MAX ->
  to_absolute_value (v mod 0x10000) ref = Some v.
Proof.
  intros Hv Hr Hd Hm. unfold INT_MAX in Hm. unfold to_absolute_value.
  assert (Hs : 0 <= v mod 0x10000 < 0x10000) by (apply Z.mod_pos_bound; lia).
  rewrite !u32_id by lia. rewrite high_bits_or by lia.
  set (b := ref / 2 ^ 16 * 2 ^ 16 + v mod 0x10000).
  assert (Hb : exists k, b = v + k * 0x10000 /\ -1 <= k <= 1).
  { exists (ref / 0x10000 - v / 0x10000). unfold b. Z.to_euclidean_division_equations; lia. }
  destruct Hb as (k & Eb & Hk). assert (0 <= b) by (unfold b; Z.to_euclidean_division_equations; lia).
  rewrite i32_id by (unfold INT_MIN, INT_MAX; lia).
  rewrite (ci_id (b + 0x8000)) by (unfold INT_MIN, INT_MAX; lia). cbn [mbind option_bind].
  assert (Hc1 : (if b + 0x8000 <? ref then ci (b + 0x10000) else Some b) =
    Some (if b + 0x8000 <? ref then b + 0x10000 else b)).
  { destruct (_ <? _); [| done]. apply ci_id. unfold INT_MIN, INT_MAX. lia. }
  rewrite Hc1. cbn [mbind option_bind]. rewrite (ci_id (ref + 0x8000)) by (unfold INT_MIN, INT_MAX; lia). cbn [mbind option_bind].
  zcases; rewrite ?ci_id by (unfold INT_MIN, INT_MAX; lia); f_equal; lia.
Qed.

(** A clock or sequence number sent as its low 16 bits is rebuilt by the receiver, as long
    as it is less than 2^15 away from the last one received. *)
Theorem to_absolute_value_correct v ref :
  0 <= v -> 0 <= ref -> -0x8000 < v - ref < 0x8000 -> v + 0x20000 <= INT_MAX ->
  to_absolute_value (v mod 0x10000) ref = Some v.
Proof. apply to_absolute_spec. Qed.

Lemma to_absolute_value_correct_witness : to_absolute_value (0x1fff0 mod 0x10000) 0x20010 = Some 0x1fff0.
Proof. apply to_absolute_value_correct; unfold INT_MAX; lia. Defined.

Lemma zget_data m i : frame_ok m -> 0 <= i < payload_length m -> zget (mdp_payload m) i = zget (frame_data m) i.
Proof. intros [H1 H2] Hi. unfold zget, frame_data. zdecide. rewrite lookup_take_lt by lia. done. Qed.

Lemma two_bytes n : 0 <= n -> Z.lor (Z.shiftl (u8 (Z.land (Z.shiftr n 8) 0xff)) 8) (u8 (Z.land n 0xff)) = n mod 0x10000.
Proof.
  intros Hn. rewrite !land_255. unfold u8. rewrite !Z.mod_mod by lia. rewrite lor_shiftl_add by (first [lia | apply Z.mod_pos_bound; lia]).
  rewrite Z.shiftr_div_pow2 by lia. change (2 ^ 8) with 256. Z.to_euclidean_division_equations; lia.
Qed.

Section audio.
Context (clock : nat -> Z) (dir : directory).

(** What an audio packet holds behind its header. *)
Record audio_packet (m : mdp_frame) (codec t sq : Z) (audio : list Z) : Prop := {
  ap_length : payload_length m = 11 + zlen audio;
  ap_codec : zget (mdp_payload m) 6 = Some codec;
  ap_time : exists t1 t0, zget (mdp_payload m) 7 = Some t1 /\ zget (mdp_payload m) 8 = Some t0 /\
    Z.lor (Z.shiftl t1 8) t0 = t mod 0x10000;
  ap_sequence : exists s1 s0, zget (mdp_payload m) 9 = Some s1 /\ zget (mdp_payload m) 10 = Some s0 /\
    Z.lor (Z.shiftl s1 8) s0 = sq mod 0x10000;
  ap_audio : zslice (mdp_payload m) 11 (payload_length m - 11) = Some audio
}.

(** The frame of a header, the audio header and the audio. *)
Lemma audio_frame c m codec t sq audio :
  frame_for dir c m ((u8 <$> [codec; Z.land (Z.shiftr t 8) 0xff; Z.land t 0xff;
                              Z.land (Z.shiftr sq 8) 0xff; Z.land sq 0xff]) ++ audio) ->
  0 <= codec < 256 -> 0 <= t -> 0 <= sq -> audio_packet m codec t sq audio.
Proof.
  intros (lid & rid & _ & _ & Ho & _ & _ & _ & _ & _ & Hd) Hc Ht Hs.
  assert (Hlen : payload_length m = 11 + zlen audio).
  { apply (f_equal length) in Hd. unfold frame_data in Hd. rewrite length_take in Hd.
    destruct Ho as [H1 H2]. rewrite H1, !length_app in Hd. cbn [length fmap list_fmap vomp_header] in Hd. lia. }
  assert (Hg : forall i x, 0 <= i < 11 -> zget (frame_data m) i = Some x -> zget (mdp_payload m) i = Some x).
  { intros i x Hi <-. apply zget_data; [done | lia]. }
  rewrite Hd in Hg. split; [done | | | |].
  - apply Hg; [lia |]. change (Some (u8 codec) = Some codec). by rewrite u8_id by (unfold is_byte; lia).
  - do 2 eexists. split_and!; [apply Hg; [lia | reflexivity].. |]. by apply two_bytes.
  - do 2 eexists. split_and!; [apply Hg; [lia | reflexivity].. |]. by apply two_bytes.
  - rewrite zslice_Some by (destruct Ho; lia). f_equal. replace (Z.to_nat (payload_length m - 11)) with (length audio) by lia.
    assert (E : drop 11 (frame_data m) = audio) by (rewrite Hd; reflexivity).
    unfold frame_data in E. rewrite skipn_firstn_comm in E.
    by replace (Z.to_nat (payload_length m) - 11)%nat with (length audio) in E by lia.
Qed.

(** What the sender dispatches. *)
Lemma received_audio_packet i c codec time sq audio w :
  calls w !! i = Some c -> call_ok dir c -> state (local c) = VOMP_STATE_INCALL ->
  0 <= codec < 256 -> 0 <= time -> 0 <= sq -> zlen audio <= 1089 ->
  exists w' m es, vomp_received_audio clock dir i codec time sq audio w = Some (0, w') /\
    out w' = out w ++ es ++ [Dispatch m] /\ stuns es /\
    known_sid dir (subscriber_of (local c)) (src_sid m) /\
    known_sid dir (subscriber_of (remote c)) (dst_sid m) /\
    audio_packet m codec (time / 20) sq audio.
Proof.
  intros H Hc Hst Hco Ht Hs Hl.
  assert (R : runs i (vomp_received_audio clock dir i codec time sq audio) w (fun x _ es' =>
    x = 0 /\ exists es m, es' = es ++ [Dispatch m] /\ stuns es /\
      frame_for dir c m ((u8 <$> [codec; Z.land (Z.shiftr (time / 20) 8) 0xff; Z.land (time / 20) 0xff;
                              Z.land (Z.shiftr sq 8) 0xff; Z.land sq 0xff]) ++ audio))).
  { unfold vomp_received_audio. apply (wp_get _ _ _ _ _ H). rewrite Hst. cbn [Z.eqb negb].
    rewrite Z.eqb_refl. cbn [negb]. rewrite (proj2 (Z.eqb_neq time (-1))), (proj2 (Z.eqb_neq sq (-1))) by lia.
    apply wp_retb, (wp_get _ _ _ _ _ H), wp_retb, (wp_get _ _ _ _ _ H).
    eapply (wp_bind _ _ _ _ _ _ _ H); [by apply prepare_vomp_header_spec |].
    intros m ? es w1 (-> & F & Hst') H1. cbv zeta. rewrite Z.quot_div_nonneg by lia.
    pose proof F as (? & ? & _ & _ & Ho & _ & _ & _ & _ & _ & Hd).
    assert (Hlen : payload_length m = 6).
    { apply (f_equal length) in Hd. unfold frame_data in Hd. rewrite length_take in Hd.
      destruct Ho as [Ho1 Ho2]. rewrite Ho1, app_nil_r in Hd. cbn in Hd. unfold MDP_PAYLOAD in *. lia. }
    match goal with |- context [put_bytes m ?l] => destruct (put_bytes_spec l m Ho) as (m1 & E1 & G1) end.
    { rewrite Hlen. unfold MDP_PAYLOAD. cbn. lia. }
    apply (wp_lift _ _ _ _ _ _ E1). pose proof (frame_for_grown _ _ _ _ _ _ F G1) as F1. cbn [app] in F1.
    assert (L1 : payload_length m1 = 11) by (rewrite (fg_length _ _ _ G1), Hlen; done).
    destruct (zblit_room m1 audio (fg_ok _ _ _ G1)) as [p Ep]; [rewrite L1; unfold MDP_PAYLOAD; lia |].
    apply (wp_lift _ _ _ _ _ _ Ep). rewrite u16_length by (rewrite L1; unfold MDP_PAYLOAD; lia).
    pose proof (frame_grown_blit m1 audio p (fg_ok _ _ _ G1) Ep) as G2.
    apply (wp_emit _ _ _ _ _ _ H1). intros w2 H2. apply (wp_ret _ _ _ _ _ H2). split; [done |].
    eexists es, _. split_and!; [done | done |]. apply frame_for_queue. by eapply frame_for_grown. }
  destruct R as (x & c' & es' & w' & E & S & -> & es & m & -> & Hst' & F).
  pose proof F as (lid & rid & K1 & K2 & _ & <- & <- & _).
  exists w', m, es. split_and!; try done; [apply (st_out _ _ _ _ _ S) |].
  eapply audio_frame; [exact F | done | by apply Z.div_pos | done].
Qed.

(** Audio that fits is always dealt with, whatever the state of the call. *)
Lemma received_audio_runs i c codec time sq audio w :
  calls w !! i = Some c -> call_ok dir c -> zlen audio <= 1089 ->
  exists x w', vomp_received_audio clock dir i codec time sq audio w = Some (x, w').
Proof.
  intros H Hc Hl.
  enough (runs i (vomp_received_audio clock dir i codec time sq audio) w (fun _ _ _ => True))
    as (x & c' & es & w' & E & _) by eauto.
  unfold vomp_received_audio. apply (wp_get _ _ _ _ _ H). destruct (negb _); [by apply (wp_ret _ _ _ _ _ H) |].
  eapply (wp_bind _ _ _ _ _ (fun _ c' _ => call_ok dir c') _ H).
  { destruct (time =? -1); [| by apply (wp_ret _ _ _ _ _ H)].
    apply (wp_put _ _ _ _ _ _ H). intros w1 H1. apply (wp_ret _ _ _ _ _ H1). by apply (call_ok_same dir c). }
  intros t c1 es1 w1 O1 H1. apply (wp_get _ _ _ _ _ H1).
  eapply (wp_bind _ _ _ _ _ (fun _ c' _ => call_ok dir c') _ H1).
  { destruct (sq =? -1); [| by apply (wp_ret _ _ _ _ _ H1)].
    apply (wp_put _ _ _ _ _ _ H1). intros w2 H2. apply (wp_ret _ _ _ _ _ H2). by apply (call_ok_same dir c1). }
  intros q c2 es2 w2 O2 H2. apply (wp_get _ _ _ _ _ H2).
  eapply (wp_bind _ _ _ _ _ _ _ H2); [by apply prepare_vomp_header_spec |].
  intros m ? es w3 (-> & F & _) H3. cbv zeta. pose proof F as (? & ? & _ & _ & Ho & _ & _ & _ & _ & _ & Hd).
  assert (Hlen : payload_length m = 6).
  { apply (f_equal length) in Hd. unfold frame_data in Hd. rewrite length_take in Hd.
    destruct Ho as [Ho1 Ho2]. rewrite Ho1, app_nil_r in Hd. cbn in Hd. unfold MDP_PAYLOAD in *. lia. }
  match goal with |- context [put_bytes m ?l] => destruct (put_bytes_spec l m Ho) as (m1 & E1 & G1) end.
  { rewrite Hlen. unfold MDP_PAYLOAD. cbn. lia. }
  apply (wp_lift _ _ _ _ _ _ E1).
  assert (L1 : payload_length m1 = 11) by (rewrite (fg_length _ _ _ G1), Hlen; done).
  destruct (zblit_room m1 audio (fg_ok _ _ _ G1)) as [p Ep]; [rewrite L1; unfold MDP_PAYLOAD; lia |].
  apply (wp_lift _ _ _ _ _ _ Ep). apply (wp_emit _ _ _ _ _ _ H3). intros w4 H4. by apply (wp_ret _ _ _ _ _ H4).
Qed.

(** ** The receiver *)

Lemma get_jitter_size_defined slot h j n :
  jitter_wf slot h j n -> (0 < n)%nat -> exists d, get_jitter_size h j = Some d.
Proof.
  intros W Hn. pose proof (jw_count _ _ _ _ W) as Hc. pose proof (jw_full _ _ _ _ W) as Hf.
  assert (Hat : forall i, 0 <= i < Z.of_nat n -> exists p s, sorted_at (sorted_samples j) i = Some p /\
    h !! p = Some s /\ - DELTA_MAX <= delta s < DELTA_MAX).
  { intros i Hi. destruct (proj1 (jw_order _ _ _ _ W) (Z.to_nat i)) as (k & Hk & Hp & s & Hs & _); [lia |].
    exists (base slot + k)%nat, s. split_and!; [| done | by apply (jw_delta _ _ _ _ W k)..].
    unfold sorted_at, zget. zdecide. by rewrite Hp. }
  unfold get_jitter_size. cbv zeta. set (i := if _ <=? _ then _ else _).
  destruct (Hat i) as (p & s & -> & Hs & D1); [unfold i, JITTER_SAMPLES in *; zcases; lia |].
  destruct (Hat 0) as (p0 & s0 & -> & Hs0 & D0); [lia |]. cbn [mbind option_bind]. rewrite Hs. cbn [mbind option_bind].
  rewrite Hs0. cbn [mbind option_bind]. unfold DELTA_MAX in *. rewrite ci_id by (unfold INT_MIN, INT_MAX; lia). by eexists.
Qed.

(** A clock or sequence number that the receiver can rebuild from its low 16 bits. *)
Definition near (v ref : Z) : Prop :=
  0 <= v /\ 0 <= ref /\ -0x8000 < v - ref < 0x8000 /\ v + 0x20000 <= INT_MAX.

Lemma near_rebuilt v ref : near v ref -> to_absolute_value (v mod 0x10000) ref = Some v.
Proof. intros (H1 & H2 & H3 & H4). by apply to_absolute_spec. Qed.

(** What a receiver with monitor clients does with an audio packet it can date: the first time
    the audio goes to the clients, a repetition is dropped. *)
Lemma process_audio_delivers sockets k c m now n codec t sq audio w :
  calls w !! k = Some c -> jitter_wf k (heap w) (jitter c) n -> audio_packet m codec t sq audio ->
  sockets <> 0 -> near t (remote_audio_clock c) -> near sq (sequence (remote c)) -> t * 20 <= INT_MAX ->
  - DELTA_MAX <= i32 now - t * 20 < DELTA_MAX ->
  exists w', vomp_process_audio sockets k m now w = Some (0, w') /\
    (recently_seen k (heap w) (jitter c) (t * 20) -> out w' = out w) /\
    (~ recently_seen k (heap w) (jitter c) (t * 20) -> exists jitter_delay delay,
      out w' = out w ++ [Audio (session (local c)) codec (t * 20) sq jitter_delay delay audio]).
Proof.
  intros H W [A1 A2 (t1 & t0 & A3 & A4 & A5) (s1 & s0 & A6 & A7 & A8) A9] Hsk Nt Ns Ht Hd.
  unfold vomp_process_audio, payload_at. zdecide.
  erewrite VM_bind_Some by (by apply vlift_Some). erewrite VM_bind_Some by (by apply vlift_Some).
  erewrite VM_bind_Some by (by apply vlift_Some). erewrite VM_bind_Some by (by apply vlift_Some).
  erewrite VM_bind_Some by (by apply vlift_Some). cbv zeta. rewrite A5, A8.
  erewrite VM_bind_Some by (by apply get_call_Some).
  erewrite VM_bind_Some by (apply vlift_Some, near_rebuilt; done).
  assert (Hi : i32 (sequence (remote c)) = sequence (remote c)).
  { apply i32_id. destruct Ns as (? & ? & ? & ?). unfold INT_MIN, INT_MAX in *. lia. }
  rewrite Hi. erewrite VM_bind_Some by (apply vlift_Some, near_rebuilt; done).
  set (c1 := if (remote_audio_clock c <? t) && (sequence (remote c) <? u32 sq) then set_remote_audio_clock
    (set_remote c (set_sequence (remote c) (u32 sq))) t else c).
  erewrite (VM_bind_Some _ _ w tt (set_calls w (<[k := c1]> (calls w)))).
  2: { unfold c1. destruct (_ && _); [done |]. cbn. by rewrite list_insert_id by done; destruct w. }
  assert (E20 : ci (t * 20) = Some (t * 20)).
  { apply ci_id. destruct Nt as (? & _). unfold INT_MIN in *. lia. }
  erewrite VM_bind_Some by (by apply vlift_Some). set (w1 := set_calls w _).
  assert (H1 : calls w1 !! k = Some c1) by (apply list_lookup_insert_eq; by eapply lookup_lt_Some).
  erewrite VM_bind_Some by (by apply get_call_Some).
  assert (Hj : jitter c1 = jitter c /\ session (local c1) = session (local c)) by (unfold c1; by destruct (_ && _)).
  destruct Hj as [Hj Hl]. change (heap w1) with (heap w). rewrite Hj.
  destruct (seen_spec _ _ _ _ (t * 20) W) as (b & Eb & Hb). destruct b.
  - erewrite (VM_bind_Some _ _ w1 (None, jitter c) w1).
    2: { unfold store_jitter_sample. change (heap w1) with (heap w). rewrite Eb. done. }
    erewrite VM_bind_Some by reflexivity. cbn [fst].
    eexists. split; [reflexivity |]. split; [done |]. intros Hn. destruct Hn. by apply Hb.
  - assert (Hn : ~ recently_seen k (heap w) (jitter c) (t * 20)) by (intros Hs%Hb; done).
    destruct (store_spec _ _ _ _ _ _ W Hn Hd) as (delay & j' & h' & f & x0 & i & Es & W' & _).
    erewrite (VM_bind_Some _ _ w1 (Some delay, j') (set_heap w1 h')).
    2: { change (heap w1) with (heap w). rewrite Es. done. }
    erewrite VM_bind_Some by reflexivity. cbn [fst snd].
    destruct (get_jitter_size_defined _ _ _ _ W') as [jd Ejd]; [unfold count_after, JITTER_SAMPLES; lia |].
    unfold monitor_send_audio. set (w2 := set_calls (set_heap w1 h') _).
    assert (H2 : calls w2 !! k = Some (set_jitter c1 j'))
      by (apply list_lookup_insert_eq; by eapply lookup_lt_Some).
    erewrite (VM_bind_Some _ _ w2 0).
    2: { erewrite VM_bind_Some by (by apply get_call_Some).
         erewrite (VM_bind_Some _ _ w2 jd w2) by (change (heap w2) with h'; cbn [jitter set_jitter]; by rewrite Ejd).
         erewrite VM_bind_Some by (by apply vlift_Some). erewrite VM_bind_Some by reflexivity. reflexivity. }
    eexists. split; [reflexivity |]. split; [done |]. intros _. exists jd, delay.
    cbn [session local set_jitter out set_out]. by rewrite <- Hl.
Qed.

(** [C36] Audio of at most 1089 bytes that a client sends in a well-formed call in progress, with a
    codec of one byte and a time that is not negative, reaches the clients of the other
    party, if it has any and its record of samples is in order.  The sender dispatches one packet between the parties of the call.  When the receiver
    processes it in a call whose clocks are within 2^15 of the sender's (it gets 16 bits of each),
    the time being rounded down to 20ms, and its measurements are consistent, its monitor clients
    get the same codec, that time, the sequence number and exactly the audio, unless a sample with
    that time has arrived recently: then nothing is passed on. *)
Theorem vomp_audio_roundtrip i c codec time sq audio w sockets k rc rw n now :
  calls w !! i = Some c -> call_ok dir c -> state (local c) = VOMP_STATE_INCALL ->
  0 <= codec < 256 -> 0 <= time <= INT_MAX -> zlen audio <= 1089 ->
  calls rw !! k = Some rc -> jitter_wf k (heap rw) (jitter rc) n -> sockets <> 0 ->
  near (time / 20) (remote_audio_clock rc) -> near sq (sequence (remote rc)) ->
  - DELTA_MAX <= i32 now - time / 20 * 20 < DELTA_MAX ->
  exists w' m es rw', vomp_received_audio clock dir i codec time sq audio w = Some (0, w') /\
    out w' = out w ++ es ++ [Dispatch m] /\ stuns es /\
    known_sid dir (subscriber_of (local c)) (src_sid m) /\
    known_sid dir (subscriber_of (remote c)) (dst_sid m) /\
    vomp_process_audio sockets k m now rw = Some (0, rw') /\
    (recently_seen k (heap rw) (jitter rc) (time / 20 * 20) -> out rw' = out rw) /\
    (~ recently_seen k (heap rw) (jitter rc) (time / 20 * 20) -> exists jitter_delay delay,
      out rw' = out rw ++ [Audio (session (local rc)) codec (time / 20 * 20) sq jitter_delay delay audio]).
Proof.
  intros H Hc Hst Hco Ht Hl Hr Hw Hsk Nt Ns Hd.
  destruct (received_audio_packet i c codec time sq audio w H Hc Hst) as (w' & m & es & E & Ho & Hes & K1 & K2 & P);
    [done | lia | apply Ns | done |].
  destruct (process_audio_delivers sockets k rc m now n codec (time / 20) sq audio rw Hr Hw P Hsk Nt Ns)
    as (rw' & Er & Hseen & Hnew); [| done |].
  { unfold INT_MAX in *. Z.to_euclidean_division_equations; lia. }
  exists w', m, es, rw'. by split_and!.
Qed.
End audio.

(** The receiving end: the same call seen by the other party, nothing received yet. *)
Definition demo_receiver : vomp_call_state :=
  mk_call 0 0 true (mk_half (Some 1%nat) (replicate 64 0) 5 300 0)
    (mk_half (Some 0%nat) (replicate 64 0) 5 7 0) true 0 0 0 0 0 0 (replicate 32 0) zero_jitter.

Lemma vomp_audio_roundtrip_witness :
  let c := mk_call 0 0 true (mk_half (Some 0%nat) (replicate 64 0) 5 7 0)
             (mk_half (Some 1%nat) (replicate 64 0) 5 300 0) false 0 0 0 0 0 0 (replicate 32 0) zero_jitter in
  let rw := mk_vworld [demo_receiver] 1 (replicate 128 zero_sample) 0 [] [] in
  exists w' m rw' jitter_delay delay,
    vomp_received_audio (fun _ => 0) two_subscribers 0 1 410 3 [10; 20; 30]
      (mk_vworld [c] 1 [] 0 [] []) = Some (0, w') /\ In (Dispatch m) (out w') /\
    vomp_process_audio 1 0 m 1000 rw = Some (0, rw') /\
    out rw' = [Audio 300 1 400 3 jitter_delay delay [10; 20; 30]].
Proof.
  intros c rw.
  destruct (vomp_audio_roundtrip (fun _ => 0) two_subscribers 0 c 1 410 3 [10; 20; 30]
    (mk_vworld [c] 1 [] 0 [] []) 1 0 demo_receiver rw 0 1000) as (w' & m & es & rw' & E & Ho & _ & _ & _ & Er & _ & Hn).
  - reflexivity.
  - assert (Hz : did_ok (replicate 64 0) []) by (split_and!; [done | constructor | by exists (replicate 63 0)]).
    split.
    + exists sid_a, []. split; [| done]. exists 0%nat. eexists. by split_and!.
    + exists sid_b, []. split; [| done]. exists 1%nat. eexists. by split_and!.
    + split; [done |]. apply Forall_replicate. unfold is_byte. lia.
  - reflexivity.
  - lia.
  - unfold INT_MAX. lia.
  - cbn. lia.
  - reflexivity.
  - apply zero_jitter_wf. reflexivity.
  - lia.
  - unfold near. split_and!; by vm_compute.
  - unfold near. split_and!; by vm_compute.
  - by vm_compute.
  - destruct Hn as (jd & d & Hn); [by intros [Hn _] |].
    exists w', m, rw', jd, d. rewrite Ho. split_and!; [exact E | | exact Er | exact Hn].
    rewrite !in_app_iff. right. right. by left.
Defined.
