(* ===== verification/VompProps.v ===== *)
(** VompProps: the properties of voice calls.

    Sequences of handlers keep the call table well formed and answer no call of the
    other party's but by vomp_pickup; calls that time out are destroyed; status and
    audio packets carry what the receiver reads.  The defects: the table is written
    past its end by a seventeenth call, a state above CALLENDED in a packet keeps a
    call for ever, an audio packet of 7 to 10 bytes is undefined behaviour, and a
    call that is moved in the table keeps pointers to where its samples were. *)

From S2P Require Import Prelude DataFormats Str Strlcpy SubscriberTree Jitter Vomp VompCalls VompInv VompAudio.

(** * Sequences of handlers *)

(** What the scheduler, the monitor and the network ask of vomp.c. *)
Inductive vomp_op :=
  | OpDial (local_sub remote_sub : option nat) (local_did remote_did : list Z)
  | OpReceive (m : mdp_frame)
  | OpRing (token : Z)
  | OpPickup (token : Z)
  | OpHangup (token : Z)
  | OpAudio (token codec time sequence : Z) (audio : list Z)
  | OpAlarm (slot : nat).

Section props.
Context (clock : nat -> Z) (dir : directory).
Context (monitor_socket_count : Z) (interested : bool) (supported_codecs : list Z).

Definition run_op (o : vomp_op) : VM unit :=
  match o with
  | OpDial l r ld rd =>
      _ ← vomp_dial clock dir monitor_socket_count interested supported_codecs l r ld rd; mret tt
  | OpReceive m =>
      _ ← vomp_mdp_received clock dir monitor_socket_count interested supported_codecs m; mret tt
  | OpRing t =>
      call ← vomp_find_call_by_session t;
      _ ← vomp_ringing clock dir monitor_socket_count interested supported_codecs call; mret tt
  | OpPickup t =>
      call ← vomp_find_call_by_session t;
      _ ← vomp_pickup clock dir monitor_socket_count interested supported_codecs call; mret tt
  | OpHangup t =>
      call ← vomp_find_call_by_session t;
      _ ← vomp_hangup clock dir monitor_socket_count interested supported_codecs call; mret tt
  | OpAudio t codec time sq audio =>
      call ← vomp_find_call_by_session t;
      match call with
      | None => mret tt
      | Some i => _ ← vomp_received_audio clock dir i codec time sq audio; mret tt
      end
  | OpAlarm i => run_alarm clock dir monitor_socket_count interested supported_codecs i
  end.

(** Parties are subscribers of the directory; an alarm is that of a call. *)
Definition op_ok (w : vworld) (o : vomp_op) : Prop :=
  match o with
  | OpDial l r _ _ => (exists id, known_sid dir l id) /\ (exists id, known_sid dir r id)
  | OpReceive m => src_sid m ∈ known dir /\ dst_sid m ∈ known dir
  | OpAlarm i => exists c, live w i c
  | _ => True
  end.

(** A run of handlers, none of them undefined. *)
Inductive vomp_run : vworld -> list vomp_op -> vworld -> Prop :=
  | run_none w : vomp_run w [] w
  | run_more w o w1 ops w2 :
      op_ok w o -> run_op o w = Some (tt, w1) -> vomp_run w1 ops w2 -> vomp_run w (o :: ops) w2.

(** The static variables as they start. *)
Definition vomp_start (ent : list (option Z)) : vworld :=
  mk_vworld (replicate VOMP_MAX_CALLS zero_call) 0 (replicate (base VOMP_MAX_CALLS) zero_sample) 0 ent [].

Hypothesis supported_wf : codec_flags_wf supported_codecs.
Hypothesis dir_wf : directory_wf dir.

Lemma vomp_start_wf ent : Forall is_Some ent -> vomp_wf dir (vomp_start ent).
Proof.
  intros He. split; cbn; try done.
  - by intros i c [Hi _]; cbn in Hi; lia.
  - by intros i c [Hi _]; cbn in Hi; lia.
  - constructor.
Qed.

(** Which sessions an operation may answer. *)
Definition picks_up (o : vomp_op) (s : Z) : Prop :=
  match o with OpPickup t => s = u32 t | _ => False end.

Lemma found_handled (P : Z -> Prop) t (f : option nat -> VM unit) w w' :
  vomp_wf dir w ->
  (forall i c w', live w i c -> session (local c) = u32 t -> f (Some i) w = Some (tt, w') -> handled dir P w w') ->
  (forall w', f None w = Some (tt, w') -> w' = w) ->
  (vomp_find_call_by_session t ≫= f) w = Some (tt, w') -> handled dir P w w'.
Proof.
  intros W Hs Hn H. apply VM_bind_inv in H as (o & w1 & E & H). unfold vomp_find_call_by_session in E.
  apply (find_session_spec t) in E as [-> Hf]; [| lia]. destruct o as [i |].
  - destruct (Hf i eq_refl) as (c & Hl & Es). by eapply Hs.
  - rewrite (Hn _ H). split; [done |]. by left.
Qed.

Lemma run_op_handled o w w' :
  vomp_wf dir w -> op_ok w o -> run_op o w = Some (tt, w') -> handled dir (picks_up o) w w'.
Proof.
  intros W Hok H. destruct o as [l r ld rd | m | t | t | t | t codec time sq audio | i]; cbn [run_op op_ok picks_up] in *.
  - destruct Hok as [[lid Hl] [rid Hr]]. apply VM_bind_inv in H as (x & w1 & E & [= <-]).
    by eapply dial_handled; [| | exact Hl | exact Hr | exact E].
  - destruct Hok as [Hs Hd]. apply VM_bind_inv in H as (x & w1 & E & [= <-]). by eapply received_handled.
  - eapply found_handled; [done | | | exact H]; [| by intros ? [= ->]].
    intros i c w1 Hl _ E. apply VM_bind_inv in E as (x & w2 & E & [= <-]). by eapply ringing_handled.
  - eapply found_handled; [done | | | exact H]; [| by intros ? [= ->]].
    intros i c w1 Hl Es E. apply VM_bind_inv in E as (x & w2 & E & [= <-]).
    change (handled dir (fun s => s = u32 t) w w2). rewrite <- Es. by eapply pickup_handled.
  - eapply found_handled; [done | | | exact H]; [| by intros ? [= ->]].
    intros i c w1 Hl _ E. apply VM_bind_inv in E as (x & w2 & E & [= <-]). by eapply hangup_handled.
  - eapply found_handled; [done | | | exact H]; [| by intros ? [= ->]].
    intros i c w1 Hl _ E. apply VM_bind_inv in E as (x & w2 & E & [= <-]). by eapply received_audio_handled.
  - destruct Hok as [c Hl]. by eapply alarm_handled.
Qed.

Lemma vomp_run_wf w ops w' : vomp_run w ops w' -> vomp_wf dir w -> vomp_wf dir w'.
Proof.
  induction 1 as [| w o w1 ops w2 Hok E _ IH]; [done |]. intros W. apply IH.
  by eapply run_op_handled.
Qed.

(** ** The handlers are defined *)

(** A number for a new call is among the random numbers to come. *)
Definition session_to_come (w : vworld) : Prop :=
  is_Some (generate_session (sessions_in_use w) (entropy w)).

Definition c_string (s : list Z) : Prop := exists t k, text t /\ s = t ++ 0 :: k.

(** What the monitor and the scheduler may ask: dialling between known subscribers with numbers
    that end, on a full table too, audio that fits a packet, the alarm of a call. *)
Definition asked (w : vworld) (o : vomp_op) : Prop :=
  match o with
  | OpDial l r ld rd => op_ok w o /\ c_string ld /\ c_string rd /\
      (vomp_call_count w < Z.of_nat VOMP_MAX_CALLS -> session_to_come w)
  | OpReceive _ => False
  | OpAudio _ _ _ _ audio => zlen audio <= 1089
  | _ => op_ok w o
  end.

Lemma create_defined rs ls rsess w :
  vomp_wf dir w -> vomp_call_count w < Z.of_nat VOMP_MAX_CALLS -> session_to_come w ->
  exists i w', vomp_create_call clock rs ls rsess 0 w = Some (i, w').
Proof.
  intros W Hn [[s ent] Es]. unfold vomp_create_call, vomp_generate_session_id. cbn [Z.eqb].
  erewrite VM_bind_Some by (erewrite VM_bind_Some by (rewrite Es; reflexivity); reflexivity).
  erewrite VM_bind_Some by reflexivity. cbn [vomp_call_count set_entropy].
  set (k := Z.to_nat (vomp_call_count w)).
  destruct (lookup_lt_is_Some_2 (calls w) k) as [c0 Hc0].
  { rewrite (vw_calls _ _ W). pose proof (vw_count _ _ W). unfold k. lia. }
  erewrite VM_bind_Some by (apply get_call_Some; exact Hc0). erewrite VM_bind_Some by reflexivity.
  erewrite VM_bind_Some by reflexivity. erewrite VM_bind_Some by reflexivity.
  unfold schedule. erewrite VM_bind_Some; [eauto |].
  erewrite VM_bind_Some by (apply get_call_Some, list_lookup_insert_eq; by eapply lookup_lt_Some). reflexivity.
Qed.

Lemma copy_did_defined d t src : did_ok d t -> c_string src -> exists r, copy_did d src = Some r.
Proof.
  intros (Hl & _ & _) (x & k & Hx & ->). unfold copy_did.
  replace (Z.of_nat DID_LENGTH) with (zlen d) by (by rewrite Hl).
  rewrite strlcpy_spec by (done || (rewrite Hl; unfold DID_LENGTH; lia)). by eexists.
Qed.

Lemma dial_defined l r ld rd w lid rid :
  vomp_wf dir w -> known_sid dir l lid -> known_sid dir r rid -> c_string ld -> c_string rd ->
  (vomp_call_count w < Z.of_nat VOMP_MAX_CALLS -> session_to_come w) ->
  exists x w', vomp_dial clock dir monitor_socket_count interested supported_codecs l r ld rd w = Some (x, w').
Proof.
  intros W Hl Hr Hld Hrd Hs. unfold vomp_dial. erewrite VM_bind_Some by reflexivity.
  destruct (Z.leb_spec (Z.of_nat VOMP_MAX_CALLS) (vomp_call_count w)) as [| Hlt]; [eauto |].
  destruct (create_defined r l 0 w W Hlt (Hs Hlt)) as (i & w1 & E1).
  destruct (create_wf _ _ _ _ _ _ _ _ _ _ W Hr Hl E1) as (W1 & _ & s & now & Hlv).
  rewrite (VM_bind_Some _ _ _ _ _ E1).
  match goal with |- exists x w', ?m w1 = _ =>
    enough (runs i m w1 (fun _ _ _ => True)) as (x & c' & es & w' & E & _) by eauto end.
  apply (wp_get _ _ _ _ _ (proj2 Hlv)).
  destruct (copy_did_defined _ [] ld zero_did_ok Hld) as [[n1 d1] E2].
  destruct (copy_did_defined _ [] rd zero_did_ok Hrd) as [[n2 d2] E3].
  destruct (copy_did_ok _ [] _ _ zero_did_ok E2) as [t1 D1].
  destruct (copy_did_ok _ [] _ _ zero_did_ok E3) as [t2 D2]. cbn [snd] in D1, D2.
  apply (wp_lift _ _ _ _ _ _ E2), (wp_lift _ _ _ _ _ _ E3). cbn [snd].
  apply (wp_put _ _ _ _ _ _ (proj2 Hlv)). intros w2 H2. set (c2 := set_remote _ _) in *.
  assert (O2 : call_ok dir c2) by (split; [exists lid, t1 | exists rid, t2 | apply zero_codecs_wf]; done).
  eapply (wp_bind _ _ _ _ _ _ _ H2); [by apply vomp_update_local_state_spec |].
  intros _ ? es3 w3 (_ & -> & _) H3. apply (wp_upd _ _ _ _ _ _ H3). intros w4 H4.
  eapply (wp_bind _ _ _ _ _ _ _ H4).
  { apply vomp_update_spec; [done | exact H4 |]. by apply (call_ok_same dir c2). }
  intros _ ? es5 w5 _ H5. by apply (wp_ret _ _ _ _ _ H5).
Qed.

Lemma find_session_defined t n : forall i w,
  (i + n <= length (calls w))%nat -> exists o, find_session n i t w = Some (o, w).
Proof.
  induction n as [| n IH]; intros i w Hn; cbn [find_session]; [by eexists |].
  destruct (lookup_lt_is_Some_2 (calls w) i) as [c Hc]; [lia |].
  rewrite (VM_bind_Some _ _ _ _ _ (get_call_Some _ _ _ Hc)). destruct (_ =? _); [by eexists |].
  apply IH. lia.
Qed.

Lemma found_defined t (f : option nat -> VM unit) w :
  vomp_wf dir w -> (forall i c, live w i c -> exists w', f (Some i) w = Some (tt, w')) ->
  (exists w', f None w = Some (tt, w')) -> exists w', (vomp_find_call_by_session t ≫= f) w = Some (tt, w').
Proof.
  intros W Hs Hn. pose proof (vw_calls _ _ W). pose proof (vw_count _ _ W).
  destruct (find_session_defined t (Z.to_nat (vomp_call_count w)) 0 w) as [o E]; [lia |].
  rewrite (VM_bind_Some _ _ _ _ _ (E : vomp_find_call_by_session t w = Some (o, w))).
  apply (find_session_spec t) in E as [_ Hf]; [| lia]. destruct o as [i |]; [| done].
  destruct (Hf i eq_refl) as (c & Hl & _). by apply (Hs i c).
Qed.

Lemma alarm_defined i c w :
  vomp_wf dir w -> live w i c ->
  exists w', run_alarm clock dir monitor_socket_count interested supported_codecs i w = Some (tt, w').
Proof.
  intros W Hl. pose proof (vw_inv _ _ W _ _ Hl) as Hc.
  pose proof (run_alarm_cases clock dir monitor_socket_count interested supported_codecs supported_wf i c w W Hl) as R.
  cbv zeta in R. set (c0 := set_scheduled c false) in R. set (c1 := after_timeout (clock (reads w)) c0) in R.
  destruct (_ && _); [| destruct R as ([] & c' & es & w' & E & _); eauto].
  destruct R as (es & w1 & S1 & -> & _).
  assert (I0 : call_inv dir c0) by (destruct Hc; split; try done; by apply (call_ok_same dir c)).
  pose proof (after_timeout_inv dir (clock (reads w)) c0 I0) as I1. fold c1 in I1.
  pose proof (after_timeout_link (clock (reads w)) c0) as [_ _ L3 _ _ _]. fold c1 in L3.
  pose proof (wf_but_stepped dir i c c1 es w w1 W Hl S1 L3 I1) as W1.
  destruct (destroy_defined dir i w1 W1) as (x & w2 & E); [rewrite (st_count _ _ _ _ _ S1); apply Hl |].
  rewrite (VM_bind_Some _ _ _ _ _ E). by eexists.
Qed.

Lemma asked_defined o w : vomp_wf dir w -> asked w o -> exists w', run_op o w = Some (tt, w').
Proof.
  intros W Ha. destruct o as [l r ld rd | m | t | t | t | t codec time sq audio | i]; cbn [run_op asked op_ok] in *.
  - destruct Ha as ([[lid Hl] [rid Hr]] & Hld & Hrd & Hs).
    destruct (dial_defined l r ld rd w lid rid W Hl Hr Hld Hrd Hs) as (x & w' & E).
    rewrite (VM_bind_Some _ _ _ _ _ E). by eexists.
  - done.
  - apply found_defined; [done | | by eexists]. intros i c Hl. pose proof (vw_inv _ _ W _ _ Hl) as Hc.
    enough (exists x w', vomp_ringing clock dir monitor_socket_count interested supported_codecs (Some i) w = Some (x, w'))
      as (x & w' & E) by (rewrite (VM_bind_Some _ _ _ _ _ E); by eexists).
    enough (runs i (vomp_ringing clock dir monitor_socket_count interested supported_codecs (Some i)) w
      (fun _ _ _ => True)) as (x & c' & es & w' & E & _) by eauto.
    apply (wp_get _ _ _ _ _ (proj2 Hl)). destruct (_ && _ && _); [| by apply (wp_ret _ _ _ _ _ (proj2 Hl))].
    apply (tell_state_spec clock dir monitor_socket_count interested supported_codecs supported_wf i w c); [apply Hl | apply Hc |].
    intros w1 es H1. by apply (wp_ret _ _ _ _ _ H1).
  - apply found_defined; [done | | by eexists]. intros i c Hl. pose proof (vw_inv _ _ W _ _ Hl) as Hc.
    enough (runs i (vomp_pickup clock dir monitor_socket_count interested supported_codecs (Some i)) w
      (fun _ _ _ => True)) as (x & c' & es & w' & E & _) by (rewrite (VM_bind_Some _ _ _ _ _ E); by eexists).
    apply (wp_get _ _ _ _ _ (proj2 Hl)). destruct (_ && _); [| by apply (wp_ret _ _ _ _ _ (proj2 Hl))].
    eapply (wp_bind _ _ _ _ _ _ _ (proj2 Hl)); [apply vomp_update_local_state_spec; [done | apply Hl | apply Hc] |].
    intros _ ? es1 w1 (_ & -> & _) H1. apply (wp_time _ _ _ _ _ _ H1). intros w2 H2.
    apply (wp_upd _ _ _ _ _ _ H2). intros w3 H3.
    eapply (wp_bind _ _ _ _ _ _ _ H3).
    { apply vomp_update_spec; [done | exact H3 |]. apply (call_ok_same dir c); [| apply Hc].
      unfold with_local. by case_match. }
    intros _ ? es2 w4 _ H4. by apply (wp_ret _ _ _ _ _ H4).
  - apply found_defined; [done | | by eexists]. intros i c Hl. pose proof (vw_inv _ _ W _ _ Hl) as Hc.
    enough (runs i (vomp_hangup clock dir monitor_socket_count interested supported_codecs (Some i)) w
      (fun _ _ _ => True)) as (x & c' & es & w' & E & _) by (rewrite (VM_bind_Some _ _ _ _ _ E); by eexists).
    apply (tell_state_spec clock dir monitor_socket_count interested supported_codecs supported_wf i w c); [apply Hl | apply Hc |].
    intros w1 es H1. by apply (wp_ret _ _ _ _ _ H1).
  - apply found_defined; [done | | by eexists]. intros i c Hl. pose proof (vw_inv _ _ W _ _ Hl) as Hc.
    destruct (received_audio_runs clock dir i c codec time sq audio w (proj2 Hl) (ci_ok _ _ Hc) Ha) as (x & w' & E).
    rewrite (VM_bind_Some _ _ _ _ _ E). by eexists.
  - destruct Ha as [c Hl]. by apply (alarm_defined i c).
Qed.

Lemma find_matching_defined rs ls ss rss n : forall i w,
  (i + n <= length (calls w))%nat ->
  exists o w', find_matching n i rs ls ss rss w = Some (o, w') /\ (o = None -> w' = w).
Proof.
  induction n as [| n IH]; intros i w Hn; cbn [find_matching]; [by do 2 eexists |].
  destruct (lookup_lt_is_Some_2 (calls w) i) as [c Hc]; [lia |].
  rewrite (VM_bind_Some _ _ _ _ _ (get_call_Some _ _ _ Hc)).
  destruct (call_matches _ _ _ _ _); [| apply IH; lia]. destruct (_ =? 0); by do 2 eexists.
Qed.

(** While there is a free slot, every packet finds its call, gets a new one, or is refused. *)
Lemma find_or_create_defined rs ls ss rss sst rst w :
  vomp_wf dir w -> vomp_call_count w < Z.of_nat VOMP_MAX_CALLS -> session_to_come w ->
  exists o w', vomp_find_or_create_call clock rs ls ss rss sst rst w = Some (o, w').
Proof.
  intros W Hn Hs. pose proof (vw_calls _ _ W). pose proof (vw_count _ _ W). unfold vomp_find_or_create_call.
  erewrite VM_bind_Some by reflexivity.
  destruct (find_matching_defined rs ls ss rss (Z.to_nat (vomp_call_count w)) 0 w) as (o & w1 & E & Hw); [lia |].
  rewrite (VM_bind_Some _ _ _ _ _ E). destruct o as [i |]; [by do 2 eexists |]. rewrite (Hw eq_refl).
  destruct (_ || _); [by do 2 eexists |]. destruct (_ && _ && _) eqn:Eb; [| by do 2 eexists].
  apply andb_prop in Eb as [_ ->%Z.eqb_eq].
  destruct (create_defined rs ls ss w W Hn Hs) as (i & w' & Ec). rewrite (VM_bind_Some _ _ _ _ _ Ec). by do 2 eexists.
Qed.
End props.


(** [C30] A call that the other party made is in progress only after vomp_pickup was called for
    its session: no sequence of packets, alarms and other commands answers it. *)
Theorem vomp_answer_needs_pickup clock dir sockets interested codecs ent ops w s :
  codec_flags_wf codecs -> directory_wf dir -> Forall is_Some ent ->
  vomp_run clock dir sockets interested codecs (vomp_start ent) ops w ->
  answered w s -> exists t, OpPickup t ∈ ops /\ s = u32 t.
Proof.
  intros Hc Hd He Hr. assert (W : vomp_wf dir (vomp_start ent)) by by apply vomp_start_wf.
  assert (Hn : ~ answered (vomp_start ent) s) by (intros (i & c & [Hi _] & _); cbn in Hi; lia).
  revert W Hn. induction Hr as [w | w o w1 ops w2 Hok E _ IH]; [done |]. intros W Hn Ha.
  destruct (run_op_handled _ _ _ _ _ Hc Hd _ _ _ W Hok E) as [W1 A1].
  assert (Hcase : ~ answered w1 s \/ exists t, o = OpPickup t /\ s = u32 t).
  { destruct o as [| | | t | | |]; try (left; intros [? | []]%A1; done).
    destruct (decide (s = u32 t)) as [-> | Hne]; [right; by exists t |].
    left. intros [? | ?]%A1; done. }
  destruct Hcase as [Hn1 | (t & -> & ->)].
  - destruct (IH W1 Hn1 Ha) as (t & Ht & ->). exists t. split; [by right | done].
  - exists t. split; [by left | done].
Qed.

(** ** An example: subscriber b calls subscriber a *)

Definition demo_clock (n : nat) : Z := 1000 + 10 * Z.of_nat n.
Definition demo_codecs : list Z := 2 :: replicate 31 0.
Definition demo_entropy : list (option Z) := Some <$> [7; 9; 7; 9; 11; 13].

(** A packet from b to a. *)
Definition demo_packet (sender_session recvr_session recvr_state sender_state : Z) (rest : list Z) : mdp_frame :=
  let p := [VOMP_VERSION; sender_session / 256; sender_session mod 256; recvr_session / 256;
            recvr_session mod 256; recvr_state * 16 + sender_state] ++ rest in
  mk_mdp 0 sid_b MDP_PORT_VOMP sid_a MDP_PORT_VOMP OQ_ORDINARY
    (p ++ replicate (MDP_PAYLOAD - length p) 0) (zlen p).

Definition demo_run_from (ent : list (option Z)) (ops : list vomp_op) : option vworld :=
  foldl (fun o op => w ← o;
           snd <$> run_op demo_clock two_subscribers 1 true demo_codecs op w)
    (Some (vomp_start ent)) ops.
Abbreviation demo_run := (demo_run_from demo_entropy).

(** b wants to call with codec 1, number 53 to number 54, and then rings. *)
Definition demo_ring : list vomp_op :=
  [OpReceive (demo_packet 300 0 1 2 [1; 0; 53; 0; 54; 0]); OpReceive (demo_packet 300 7 1 3 [])].

Lemma demo_codecs_wf : codec_flags_wf demo_codecs.
Proof. split; [done |]. constructor; [unfold is_byte; lia |]. apply Forall_replicate. unfold is_byte. lia. Qed.

Lemma demo_entropy_ok : Forall is_Some demo_entropy.
Proof. repeat constructor; eauto. Qed.

Lemma demo_vomp_run ent ops w :
  demo_run_from ent ops = Some w -> Forall (fun o => forall w, op_ok two_subscribers w o) ops ->
  vomp_run demo_clock two_subscribers 1 true demo_codecs (vomp_start ent) ops w.
Proof.
  unfold demo_run_from. generalize (vomp_start ent). induction ops as [| o ops IH]; intros w0 H Hok.
  - injection H as <-. constructor.
  - cbn [foldl] in H. cbn [mbind option_bind] in H. apply Forall_cons in Hok as [Ho Hok].
    destruct (run_op _ _ _ _ _ o w0) as [[[] w1] |] eqn:E.
    + econstructor; [apply Ho | exact E |]. by apply IH.
    + exfalso. clear -H. cbn in H. induction ops as [| o' ops IH]; [done |]. by apply IH.
Qed.

Lemma demo_known : sid_a ∈ known two_subscribers /\ sid_b ∈ known two_subscribers.
Proof. split; [apply list_elem_of_lookup; exists 0%nat | apply list_elem_of_lookup; exists 1%nat]; reflexivity. Qed.

Lemma demo_known_b s r rs ss rest w : op_ok two_subscribers w (OpReceive (demo_packet s r rs ss rest)).
Proof. split; apply demo_known. Qed.

Lemma demo_wf ent ops w :
  demo_run_from ent ops = Some w -> Forall is_Some ent ->
  Forall (fun o => forall w, op_ok two_subscribers w o) ops -> vomp_wf two_subscribers w.
Proof.
  intros E He Hok.
  eapply vomp_run_wf; [apply demo_codecs_wf | apply two_subscribers_wf | | by apply vomp_start_wf].
  by apply demo_vomp_run.
Qed.


Lemma vomp_answer_needs_pickup_witness :
  exists w, demo_run (demo_ring ++ [OpPickup 7]) = Some w /\ answered w 7 /\
    exists t, OpPickup t ∈ demo_ring ++ [OpPickup 7] /\ 7 = u32 t.
Proof.
  destruct (demo_run (demo_ring ++ [OpPickup 7])) as [w |] eqn:E; [| by vm_compute in E].
  assert (Ha : answered w 7).
  { vm_compute in E. injection E as <-. eexists 0%nat, _.
    split; [split; [vm_compute; lia | reflexivity] |]. done. }
  exists w. split; [done |]. split; [done |].
  apply (vomp_answer_needs_pickup demo_clock two_subscribers 1 true demo_codecs demo_entropy
           (demo_ring ++ [OpPickup 7]) w 7 demo_codecs_wf two_subscribers_wf demo_entropy_ok); [| done].
  apply demo_vomp_run; [exact E |]. repeat constructor; apply demo_known.
Defined.

(** * Alarms *)

(** A timed-out call whose other end has sent a state of the protocol is destroyed. *)
Lemma expired_destroyed clock dir sockets interested codecs w i c :
  codec_flags_wf codecs -> vomp_wf dir w -> live w i c ->
  state (remote c) <= VOMP_STATE_CALLENDED -> timed_out c (clock (reads w)) = true ->
  exists w', run_alarm clock dir sockets interested codecs i w = Some (tt, w') /\ vomp_wf dir w' /\
    vomp_call_count w' = vomp_call_count w - 1 /\ (session (local c) ∉ sessions_in_use w') /\
    (state (local c) < VOMP_STATE_CALLENDED -> In (Hangup (session (local c))) (out w')).
Proof.
  intros Hcd W Hl Hr Ht. pose proof (vw_inv _ _ W _ _ Hl) as Hc.
  pose proof (run_alarm_cases clock dir sockets interested codecs Hcd i c w W Hl) as R. cbv zeta in R.
  set (c0 := set_scheduled c false) in R. set (c1 := after_timeout (clock (reads w)) c0) in R.
  assert (I0 : call_inv dir c0) by (destruct Hc; split; try done; by apply (call_ok_same dir c)).
  pose proof (after_timeout_inv dir (clock (reads w)) c0 I0) as I1. fold c1 in I1.
  pose proof (after_timeout_link (clock (reads w)) c0) as [_ _ L3 _ _ _]. fold c1 in L3.
  destruct (after_timeout_states (clock (reads w)) c0) as [(E & _ & _) | (_ & E1 & E2)];
    [change (timed_out c0 (clock (reads w))) with (timed_out c (clock (reads w))) in E; congruence |].
  fold c1 in E1, E2. pose proof (ci_local _ _ Hc) as Hloc.
  unfold VOMP_STATE_NOCALL, VOMP_STATE_CALLENDED in *.
  change (state (local c0)) with (state (local c)) in E1. change (state (remote c0)) with (state (remote c)) in E2.
  rewrite (proj2 (Z.eqb_eq (state (local c1)) 6)), (proj2 (Z.eqb_eq (state (remote c1)) 6)) in R by lia.
  destruct R as (es & w1 & S1 & E & Hh).
  assert (Hl1 : live w1 i c1).
  { split; [rewrite (st_count _ _ _ _ _ S1); apply Hl | eapply stepped_lookup; [apply Hl | exact S1]]. }
  pose proof (wf_but_stepped dir i c c1 es w w1 W Hl S1 L3 I1) as W1.
  destruct (destroy_defined dir i w1 W1 (proj1 Hl1)) as (x & w2 & E3).
  destruct (destroy_wf dir i c1 w1 x w2 W1 Hl1 E3) as (W2 & _ & Hn & Hs).
  destruct (destroy_effect dir i w1 x w2 W1 (proj1 Hl1) E3) as (_ & _ & _ & _ & Ho & _).
  exists w2. rewrite E, (VM_bind_Some _ _ _ _ _ E3). split_and!; try done.
  - rewrite Hn. by rewrite (st_count _ _ _ _ _ S1).
  - change (session (local c)) with (session (local c0)). rewrite <- L3. done.
  - intros Hlt. rewrite Ho, (st_out _ _ _ _ _ S1). apply in_or_app. right. by apply Hh.
Qed.

(** One alarm of a call whose other end has a state above CALLENDED. *)
Lemma high_state_alarm clock dir sockets interested codecs w i c :
  codec_flags_wf codecs -> vomp_wf dir w -> live w i c -> VOMP_STATE_CALLENDED < state (remote c) ->
  exists w' c', run_alarm clock dir sockets interested codecs i w = Some (tt, w') /\ vomp_wf dir w' /\
    vomp_call_count w' = vomp_call_count w /\ live w' i c' /\
    session (local c') = session (local c) /\ state (remote c') = state (remote c).
Proof.
  intros Hcd W Hl Hr. pose proof (run_alarm_cases clock dir sockets interested codecs Hcd i c w W Hl) as R.
  cbv zeta in R. set (c0 := set_scheduled c false) in R. set (c1 := after_timeout (clock (reads w)) c0) in R.
  assert (E : state (remote c1) = state (remote c)).
  { destruct (after_timeout_states (clock (reads w)) c0) as [(_ & _ & E) | (_ & _ & E)]; fold c1 in E; rewrite E; [done |].
    change (state (remote c0)) with (state (remote c)). lia. }
  rewrite (proj2 (Z.eqb_neq (state (remote c1)) VOMP_STATE_CALLENDED)), andb_false_r in R by lia.
  destruct R as ([] & c' & es & w' & Er & S & [_ _ _ S4 S5 _ _ _] & _).
  pose proof (sl_local_session _ _ (after_timeout_link (clock (reads w)) c0)) as L3. fold c1 in L3.
  exists w', c'. split_and!; [done | | by rewrite (st_count _ _ _ _ _ S) | | exact (eq_trans S5 L3) | exact (eq_trans S4 E)].
  - by eapply alarm_handled.
  - split; [rewrite (st_count _ _ _ _ _ S); apply Hl | eapply stepped_lookup; [apply Hl | exact S]].
Qed.

(** [C34] When a call has timed out, its next alarm ends it, if the last state the other end sent
    is one of the protocol (at most CALLENDED): the clients are told, the slot is freed, its
    session is no longer in use, and the table is well formed.  A call whose other end has sent a
    higher state, which a packet has room for, keeps its slot and session. *)
Theorem vomp_expired_destroyed clock dir sockets interested codecs w i c :
  codec_flags_wf codecs -> vomp_wf dir w -> live w i c -> timed_out c (clock (reads w)) = true ->
  exists w', run_alarm clock dir sockets interested codecs i w = Some (tt, w') /\ vomp_wf dir w' /\
    if state (remote c) <=? VOMP_STATE_CALLENDED
    then vomp_call_count w' = vomp_call_count w - 1 /\ (session (local c) ∉ sessions_in_use w') /\
      (state (local c) < VOMP_STATE_CALLENDED -> In (Hangup (session (local c))) (out w'))
    else vomp_call_count w' = vomp_call_count w /\ exists c', live w' i c' /\
      session (local c') = session (local c) /\ state (remote c') = state (remote c).
Proof.
  intros Hcd W Hl Ht. destruct (Z.leb_spec (state (remote c)) VOMP_STATE_CALLENDED) as [Hr | Hr].
  - by apply expired_destroyed.
  - destruct (high_state_alarm clock dir sockets interested codecs w i c Hcd W Hl Hr)
      as (w' & c' & E & W' & N & L & S & R). exists w'. split_and!; eauto.
Qed.

(** The alarm of a slot, run [n] times. *)
Fixpoint alarms (run : VM unit) (n : nat) : VM unit :=
  match n with O => mret tt | S n => _ ← run; alarms run n end.

(** A call whose other end has sent a state above CALLENDED is never destroyed, however
    often its alarm runs and however late: it keeps its slot. *)
Theorem vomp_high_state_stays clock dir sockets interested codecs n w i c :
  codec_flags_wf codecs -> vomp_wf dir w -> live w i c -> VOMP_STATE_CALLENDED < state (remote c) ->
  exists w' c', alarms (run_alarm clock dir sockets interested codecs i) n w = Some (tt, w') /\
    vomp_call_count w' = vomp_call_count w /\ live w' i c' /\
    session (local c') = session (local c) /\ state (remote c') = state (remote c).
Proof.
  intros Hcd. revert w c. induction n as [| n IH]; intros w c W Hl Hr; [by exists w, c |].
  destruct (high_state_alarm clock dir sockets interested codecs w i c Hcd W Hl Hr)
    as (w1 & c1 & E1 & W1 & N1 & L1 & S1 & R1).
  destruct (IH w1 c1 W1 L1) as (w2 & c2 & E2 & N2 & L2 & S2 & R2); [lia |].
  exists w2, c2. cbn [alarms]. rewrite (VM_bind_Some _ _ _ _ _ E1). split_and!; congruence || done.
Qed.

Definition demo_high : list vomp_op :=
  [OpReceive (demo_packet 300 0 1 2 [1; 0; 53; 0; 54; 0]); OpReceive (demo_packet 300 7 1 10 [])].

(** A packet with state 10 is taken for one with state 2. *)
Lemma vomp_high_state_stays_witness :
  exists w c w' c', demo_run demo_high = Some w /\ live w 0 c /\ state (remote c) = 10 /\
    alarms (run_alarm (fun n => 10 ^ 9 + Z.of_nat n) two_subscribers 1 true demo_codecs 0) 3 w = Some (tt, w') /\
    vomp_call_count w' = vomp_call_count w /\ live w' 0 c' /\
    session (local c') = session (local c) /\ state (remote c') = state (remote c).
Proof.
  destruct (demo_run demo_high) as [w |] eqn:E; [| by vm_compute in E].
  assert (W : vomp_wf two_subscribers w).
  { eapply demo_wf; [exact E | apply demo_entropy_ok |]. repeat constructor; apply demo_known. }
  assert (Hl : exists c, live w 0 c /\ state (remote c) = 10).
  { vm_compute in E. injection E as <-. eexists. split; [split; [vm_compute; lia | reflexivity] | done]. }
  destruct Hl as (c & Hl & Hst).
  destruct (vomp_high_state_stays (fun n => 10 ^ 9 + Z.of_nat n) two_subscribers 1 true demo_codecs 3 w 0 c
              demo_codecs_wf W Hl ltac:(rewrite Hst; done)) as (w' & c' & H).
  exists w, c, w', c'. exact (conj eq_refl (conj Hl (conj Hst H))).
Defined.

Lemma vomp_expired_destroyed_witness :
  exists w c w', demo_run demo_ring = Some w /\ live w 0 c /\
    run_alarm (fun n => 10 ^ 9 + Z.of_nat n) two_subscribers 1 true demo_codecs 0 w = Some (tt, w') /\
    vomp_wf two_subscribers w' /\ vomp_call_count w' = vomp_call_count w - 1 /\
    (session (local c) ∉ sessions_in_use w') /\
    (state (local c) < VOMP_STATE_CALLENDED -> In (Hangup (session (local c))) (out w')).
Proof.
  destruct (demo_run demo_ring) as [w |] eqn:E; [| by vm_compute in E].
  assert (W : vomp_wf two_subscribers w).
  { eapply demo_wf; [exact E | apply demo_entropy_ok |]. repeat constructor; apply demo_known. }
  assert (Hl : exists c, live w 0 c /\ state (remote c) <= VOMP_STATE_CALLENDED /\
    timed_out c (10 ^ 9 + Z.of_nat (reads w)) = true).
  { vm_compute in E. injection E as <-. eexists. split; [split; [vm_compute; lia | reflexivity] | split; done]. }
  destruct Hl as (c & Hl & Hr & Ht).
  destruct (vomp_expired_destroyed (fun n => 10 ^ 9 + Z.of_nat n) two_subscribers 1 true demo_codecs w 0 c
              demo_codecs_wf W Hl Ht) as (w' & E' & W' & H).
  rewrite (proj2 (Z.leb_le _ _) Hr) in H. exists w, c, w'. exact (conj eq_refl (conj Hl (conj E' (conj W' H)))).
Defined.

(** * The table's end *)

Lemma find_matching_none rs ls ss rss n : forall i w,
  (i + n <= length (calls w))%nat ->
  (forall j c, (i <= j < i + n)%nat -> calls w !! j = Some c -> call_matches c rs ls ss rss = false) ->
  find_matching n i rs ls ss rss w = Some (None, w).
Proof.
  induction n as [| n IH]; intros i w Hn Hm; cbn [find_matching]; [done |].
  destruct (lookup_lt_is_Some_2 (calls w) i) as [c Hc]; [lia |].
  rewrite (VM_bind_Some _ _ _ _ _ (get_call_Some _ _ _ Hc)), (Hm i c) by (lia || done).
  apply IH; [lia |]. intros j d Hj. apply Hm. lia.
Qed.

(** [C38] A packet that asks for a new call when all VOMP_MAX_CALLS slots are in use is not
    refused, as vomp_dial refuses to dial: whatever random numbers come, the code writes past
    the end of the table. *)
Theorem vomp_table_overflow clock dir w rs ls ss :
  vomp_wf dir w -> vomp_call_count w = Z.of_nat VOMP_MAX_CALLS ->
  (forall i c, live w i c -> call_matches c rs ls ss 0 = false) ->
  vomp_find_or_create_call clock rs ls ss 0 VOMP_STATE_CALLPREP VOMP_STATE_NOCALL w = None.
Proof.
  intros W Hn Hm. pose proof (vw_calls _ _ W) as Hlen. unfold vomp_find_or_create_call.
  erewrite VM_bind_Some by reflexivity. rewrite Hn.
  erewrite VM_bind_Some by (apply find_matching_none; [rewrite Hlen; done |]; intros j c Hj Hc;
    apply (Hm j); split; [rewrite Hn; lia | done]).
  cbn [Z.eqb orb andb]. unfold mbind, VM_bind.
  destruct (vomp_create_call clock rs ls ss 0 w) as [[i w1] |] eqn:E; [exfalso |].
  2: { unfold VOMP_STATE_CALLPREP, VOMP_STATE_CALLENDED, VOMP_STATE_NOCALL. cbn [Z.eqb Pos.eqb orb andb].
       by rewrite E. }
  destruct (create_spec _ _ _ _ _ _ _ _ W E) as (s & now & _ & Hlt & _). lia.
Qed.

(** Sixteen calls from b, each in a session of its own. *)
Definition demo_calls : list vomp_op :=
  (fun k => OpReceive (demo_packet (300 + Z.of_nat k) 0 1 2 [1; 0])) <$> seq 0 16.
Definition many_sessions : list (option Z) := (fun k => Some (Z.of_nat k + 1)) <$> seq 0 20.

Lemma vomp_table_overflow_witness :
  exists w, demo_run_from many_sessions demo_calls = Some w /\
    vomp_find_or_create_call demo_clock (Some 1%nat) (Some 0%nat) 400 0 VOMP_STATE_CALLPREP
      VOMP_STATE_NOCALL w = None.
Proof.
  destruct (demo_run_from many_sessions demo_calls) as [w |] eqn:E; [| by vm_compute in E].
  exists w. split; [exact eq_refl |].
  apply (vomp_table_overflow demo_clock two_subscribers w (Some 1%nat) (Some 0%nat) 400).
  - eapply demo_wf; [exact E | apply Forall_fmap, Forall_true; by eexists |].
    apply Forall_fmap, Forall_true. intros k w0. apply demo_known_b.
  - vm_compute in E. by injection E as <-.
  - assert (Hall : forallb (fun c => negb (call_matches c (Some 1%nat) (Some 0%nat) 400 0)) (calls w) = true)
      by (vm_compute in E; injection E as <-; vm_compute; reflexivity).
    intros i c [_ Hc]. rewrite forallb_forall in Hall. apply negb_true_iff, Hall, list_elem_of_In.
    by eapply list_elem_of_lookup_2.
Defined.

(** * Audio *)

Definition demo_talk : list vomp_op := demo_ring ++ [OpPickup 7].

(** While a call is in progress, an audio packet with its eleven bytes of header is passed
    on, but one cut short after its seventh to tenth byte has a negative number of audio bytes
    copied, which is undefined. *)
Theorem vomp_short_audio_undefined :
  exists w, demo_run demo_talk = Some w /\
    (exists w', run_op demo_clock two_subscribers 1 true demo_codecs
       (OpReceive (demo_packet 300 7 5 5 [1; 0; 1; 0; 1])) w = Some (tt, w') /\
       In (Audio 7 1 20 1 60 0 []) (out w')) /\
    Forall (fun n => run_op demo_clock two_subscribers 1 true demo_codecs
       (OpReceive (demo_packet 300 7 5 5 (take n [1; 0; 1; 0]))) w = None) [1; 2; 3; 4]%nat.
Proof.
  destruct (demo_run demo_talk) as [w |] eqn:E; [| by vm_compute in E].
  exists w. split; [exact eq_refl |]. vm_compute in E. injection E as <-. split.
  - eexists. split; [vm_compute; reflexivity |]. cbn [out In]. repeat first [by left | right].
  - repeat constructor; vm_compute; reflexivity.
Qed.

(** Two calls of b's; the second is answered and its audio arrives; the first ends. *)
Definition demo_two : list vomp_op :=
  [OpReceive (demo_packet 300 0 1 2 [1; 0]); OpReceive (demo_packet 301 0 1 2 [1; 0]);
   OpReceive (demo_packet 301 9 1 3 []); OpPickup 9;
   OpReceive (demo_packet 301 9 5 5 [1; 0; 1; 0; 1; 170; 187]);
   OpReceive (demo_packet 300 7 1 6 [])].

(** When a call is destroyed the last call is moved to its slot byte by byte, so the
    pointers of its jitter order still point at the samples in the slot it came from: the
    consistency of the order that every stored sample relies on is lost. *)
Theorem vomp_moved_call_pointers :
  exists w c w' c', demo_run demo_two = Some w /\ live w 1 c /\ session (local c) = 9 /\
    sorted_samples (jitter c) !! 0%nat = Some (Some (base 1)) /\
    run_op demo_clock two_subscribers 1 true demo_codecs (OpAlarm 0) w = Some (tt, w') /\
    live w' 0 c' /\ session (local c') = 9 /\ vomp_call_count w' = 1 /\
    forall n, ~ jitter_wf 0 (heap w') (jitter c') n.
Proof.
  destruct (demo_run demo_two) as [w |] eqn:E; [| by vm_compute in E].
  assert (Hl : exists c, live w 1 c /\ session (local c) = 9 /\
    sorted_samples (jitter c) !! 0%nat = Some (Some (base 1))).
  { vm_compute in E. injection E as <-. eexists. split; [split; [vm_compute; lia | reflexivity] |]. by split. }
  destruct Hl as (c & Hl & Hs & Hp).
  destruct (run_op demo_clock two_subscribers 1 true demo_codecs (OpAlarm 0) w) as [[[] w'] |] eqn:E'.
  2: { exfalso. vm_compute in E. injection E as <-. by vm_compute in E'. }
  assert (Hl' : exists c', live w' 0 c' /\ session (local c') = 9 /\ vomp_call_count w' = 1 /\
    sorted_samples (jitter c') !! 0%nat = Some (Some (base 1)) /\ sample_count (jitter c') = 1).
  { vm_compute in E. injection E as <-. vm_compute in E'. injection E' as <-.
    eexists. split; [split; [vm_compute; lia | reflexivity] |]. by split_and!. }
  destruct Hl' as (c' & Hl' & Hs' & Hn' & Hp' & Hc').
  exists w, c, w', c'.
  refine (conj eq_refl (conj Hl (conj Hs (conj Hp (conj E' (conj Hl' (conj Hs' (conj Hn' _)))))))).
  intros n [J1 J2 _ _ _ _ [J7 _] _]. assert (n = 1%nat) as -> by lia.
  destruct (J7 0%nat) as (i & Hi & Hpi & _); [lia |]. rewrite Hp' in Hpi. injection Hpi as Hpi.
  unfold base, JITTER_SAMPLES in Hpi. lia.
Qed.
