(* ===== verification/Fdqueue.v ===== *)
(** Fdqueue: fdqueue.c, the alarms and the watched file handles of the main loop.

    A [struct sched_ent] is an element of the array [ents], and a pointer to one its
    index.  Alarms that are not due wait in a doubly-linked list by time, those that
    are due in another by deadline.  The list operations are shown to implement
    sorted lists; [None] is a bad pointer, or the abort of FATAL.

    poll() and the functions of the alarms are parameters. *)

From Stdlib Require Import Sorted.
From S2P Require Import Prelude.

Record sched_ent := mk_ent {
  _next : option nat;
  _prev : option nat;
  has_function : bool;
  fd : Z;
  events : Z;
  revents : Z;
  alarm : Z;
  deadline_of : Z;
  _poll_index : Z
}.

(** [struct pollfd] *)
Record pollfd := mk_pollfd { p_fd : Z; p_events : Z; p_revents : Z }.

Definition set_next (e : sched_ent) (x : option nat) : sched_ent :=
  mk_ent x (_prev e) (has_function e) (fd e) (events e) (revents e) (alarm e) (deadline_of e) (_poll_index e).
Definition set_prev (e : sched_ent) (x : option nat) : sched_ent :=
  mk_ent (_next e) x (has_function e) (fd e) (events e) (revents e) (alarm e) (deadline_of e) (_poll_index e).
Definition set_deadline (e : sched_ent) (x : Z) : sched_ent :=
  mk_ent (_next e) (_prev e) (has_function e) (fd e) (events e) (revents e) (alarm e) x (_poll_index e).
Definition set_revents (e : sched_ent) (x : Z) : sched_ent :=
  mk_ent (_next e) (_prev e) (has_function e) (fd e) (events e) x (alarm e) (deadline_of e) (_poll_index e).
Definition set_poll_index (e : sched_ent) (x : Z) : sched_ent :=
  mk_ent (_next e) (_prev e) (has_function e) (fd e) (events e) (revents e) (alarm e) (deadline_of e) x.

Definition MAX_WATCHED_FDS : nat := 128.
Definition POLLIN : Z := 1.
Definition POLLERR : Z := 8.

(** The static variables and the entries there are. *)
Record fdqueue := mk_queue {
  ents : list sched_ent;
  next_alarm : option nat;
  next_deadline : option nat;
  fds : list pollfd;
  fd_callbacks : list (option nat);
  fdcount : Z
}.

Definition set_ents (q : fdqueue) (x : list sched_ent) : fdqueue :=
  mk_queue x (next_alarm q) (next_deadline q) (fds q) (fd_callbacks q) (fdcount q).
Definition set_next_alarm (q : fdqueue) (x : option nat) : fdqueue :=
  mk_queue (ents q) x (next_deadline q) (fds q) (fd_callbacks q) (fdcount q).
Definition set_next_deadline (q : fdqueue) (x : option nat) : fdqueue :=
  mk_queue (ents q) (next_alarm q) x (fds q) (fd_callbacks q) (fdcount q).
Definition set_fds (q : fdqueue) (x : list pollfd) (cb : list (option nat)) (n : Z) : fdqueue :=
  mk_queue (ents q) (next_alarm q) (next_deadline q) x cb n.

(** [p->field = ...] for a pointer that is not null. *)
Definition modify (q : fdqueue) (p : nat) (f : sched_ent -> sched_ent) : option fdqueue :=
  e ← ents q !! p; Some (set_ents q (<[p := f e]> (ents q))).

(** ** The lists *)

(** [while(node!=NULL)] up to the first entry whose key is above [k]: [last] and [node]. *)
Fixpoint find_place (fuel : nat) (key : sched_ent -> Z) (k : Z) (h : list sched_ent)
    (node last : option nat) : option (option nat * option nat) :=
  match node with
  | None => Some (last, None)
  | Some n =>
      match fuel with
      | O => None
      | S fuel =>
          e ← h !! n;
          if k <? key e then Some (last, node)
          else find_place fuel key k h (_next e) (Some n)
      end
  end.

(** The entry [a] goes between [last] and [node]; [head] is the start of the list. *)
Definition link (q : fdqueue) (a : nat) (last node : option nat)
    (set_head : fdqueue -> option nat -> fdqueue) : option fdqueue :=
  q ← match last with
      | None => Some (set_head q (Some a))
      | Some l => modify q l (fun e => set_next e (Some a))
      end;
  q ← modify q a (fun e => set_prev e last);
  q ← match node with
      | None => Some q
      | Some n => modify q n (fun e => set_prev e (Some a))
      end;
  modify q a (fun e => set_next e node).

(** [if (alarm->deadline < alarm->alarm) alarm->deadline = alarm->alarm] *)
Definition check_deadline (q : fdqueue) (a : nat) : option fdqueue :=
  modify q a (fun e => if deadline_of e <? alarm e then set_deadline e (alarm e) else e).

Definition deadline (q : fdqueue) (a : nat) : option (Z * fdqueue) :=
  q ← check_deadline q a;
  e ← ents q !! a;
  '(last, node) ← find_place (length (ents q)) deadline_of (deadline_of e) (ents q) (next_deadline q) None;
  q ← link q a last node set_next_deadline;
  Some (0, q).

Definition is_scheduled (q : fdqueue) (a : nat) : option bool :=
  e ← ents q !! a;
  Some (bool_decide (is_Some (_next e)) || bool_decide (is_Some (_prev e)) ||
        bool_decide (next_alarm q = Some a) || bool_decide (next_deadline q = Some a)).

(** [now] is what gettime_ms returns. *)
Definition _schedule (now : Z) (q : fdqueue) (a : nat) : option (Z * fdqueue) :=
  s ← is_scheduled q a;
  if s : bool then None
  else
    e ← ents q !! a;
    if negb (has_function e) then Some (-1, q)
    else
      q ← check_deadline q a;
      e ← ents q !! a;
      if alarm e <=? now then deadline q a
      else
        '(last, node) ← find_place (length (ents q)) alarm (alarm e) (ents q) (next_alarm q) None;
        q ← link q a last node set_next_alarm;
        Some (0, q).

Definition _unschedule (q : fdqueue) (a : nat) : option fdqueue :=
  e ← ents q !! a;
  q ← match _prev e with
      | Some p => modify q p (fun x => set_next x (_next e))
      | None =>
          Some (if bool_decide (next_alarm q = Some a) then set_next_alarm q (_next e)
                else if bool_decide (next_deadline q = Some a) then set_next_deadline q (_next e)
                else q)
      end;
  q ← match _next e with
      | Some n => modify q n (fun x => set_prev x (_prev e))
      | None => Some q
      end;
  modify q a (fun e => set_next (set_prev e None) None).

(** ** File handles *)

Definition to_pollfd (e : sched_ent) : pollfd := mk_pollfd (fd e) (events e) (revents e).

Definition _watch (q : fdqueue) (a : nat) : option (Z * fdqueue) :=
  e ← ents q !! a;
  if negb (has_function e) then Some (-1, q)
  else
    known ← (if 0 <=? _poll_index e
             then cb ← zget (fd_callbacks q) (_poll_index e); Some (bool_decide (cb = Some a))
             else Some false);
    if known : bool then
      f ← zset (fds q) (_poll_index e) (to_pollfd e);
      Some (0, set_fds q f (fd_callbacks q) (fdcount q))
    else if Z.of_nat MAX_WATCHED_FDS <=? fdcount q then Some (-1, q)
    else
      cb ← zset (fd_callbacks q) (fdcount q) (Some a);
      let e := set_poll_index (set_revents e 0) (fdcount q) in
      f ← zset (fds q) (fdcount q) (to_pollfd e);
      Some (0, set_fds (set_ents q (<[a := e]> (ents q))) f cb (fdcount q + 1)).

Definition _unwatch (q : fdqueue) (a : nat) : option (Z * fdqueue) :=
  e ← ents q !! a;
  let index := _poll_index e in
  bad ← (if index <? 0 then Some true
         else f ← zget (fds q) index; Some (negb (p_fd f =? fd e)));
  if bad : bool then Some (-1, q)
  else
    let n := fdcount q - 1 in
    q ← (if negb (index =? n) then
           f ← zget (fds q) n; cb ← zget (fd_callbacks q) n;
           fs ← zset (fds q) index f; cbs ← zset (fd_callbacks q) index cb;
           p ← cb;
           modify (set_fds q fs cbs n) p (fun e => set_poll_index e index)
         else Some (set_fds q (fds q) (fd_callbacks q) n));
    f ← zget (fds q) n;
    fs ← zset (fds q) n (mk_pollfd (-1) (p_events f) (p_revents f));
    cbs ← zset (fd_callbacks q) n None;
    q ← modify (set_fds q fs cbs n) a (fun e => set_poll_index e (-1));
    Some (0, q).

(** ** The main loop *)

(** [while (next_alarm!=NULL&&next_alarm->alarm <=now)] *)
Fixpoint move_due (fuel : nat) (now : Z) (q : fdqueue) : option fdqueue :=
  match next_alarm q with
  | None => Some q
  | Some a =>
      e ← ents q !! a;
      if alarm e <=? now then
        match fuel with
        | O => None
        | S fuel => q ← _unschedule q a; '(_, q) ← deadline q a; move_due fuel now q
        end
      else Some q
  end.

(** How long poll may block. *)
Definition poll_time (now : Z) (q : fdqueue) : option Z :=
  ms ← match next_deadline q with
       | Some _ => Some 0
       | None => match next_alarm q with
                 | Some a => e ← ents q !! a; Some (i32 (alarm e - now))
                 | None => Some 60000
                 end
       end;
  Some (if ms <? 0 then 0 else ms).

Section main_loop.
(** The system call: how many handles are ready and the array with their [revents]; whether a
    handle is gone (ENXIO) or cannot be put back into blocking mode; and the functions of the
    alarms. *)
Context (poll : list pollfd -> Z -> Z -> Z * list pollfd) (enxio bad_descriptor : Z -> bool).
Context (callback : nat -> fdqueue -> option fdqueue).

Definition call_alarm (q : fdqueue) (a : option nat) (revents : Z) : option fdqueue :=
  a ← a;
  q ← modify q a (fun e => set_revents e revents);
  e ← ents q !! a;
  if has_function e then callback a q else None.

(** [for(i=fdcount -1;i>=0;i--)], [n] handles left. *)
Fixpoint handle_fds (n : nat) (in_count : Z) (q : fdqueue) : option fdqueue :=
  match n with
  | O => Some q
  | S i =>
      f ← fds q !! i;
      q ← (if negb (p_revents f =? 0) &&
              (negb (Z.land (p_revents f) POLLIN =? 0) || (in_count =? 0))
           then
             let f := if enxio (p_fd f)
                      then mk_pollfd (p_fd f) (p_events f) (Z.lor (p_revents f) POLLERR) else f in
             let q := set_fds q (<[i := f]> (fds q)) (fd_callbacks q) (fdcount q) in
             cb ← fd_callbacks q !! i;
             q ← call_alarm q cb (p_revents f);
             f' ← (if Z.of_nat i <? fdcount q then fds q !! i else Some (mk_pollfd (-1) 0 0));
             if (Z.of_nat i <? fdcount q) && (p_fd f' =? p_fd f) && bad_descriptor (p_fd f)
             then None else Some q
           else Some q);
      handle_fds i in_count q
  end.

Definition count_in (fs : list pollfd) : Z :=
  Z.of_nat (length (List.filter (fun f => negb (Z.land (p_revents f) POLLIN =? 0)) fs)).

(** [now] and [now'] are the clock before and after poll. *)
Definition fd_poll (now now' : Z) (q : fdqueue) : option (Z * fdqueue) :=
  if bool_decide (next_alarm q = None) && bool_decide (next_deadline q = None) && (fdcount q =? 0)
  then Some (0, q)
  else
    q ← move_due (length (ents q)) now q;
    ms ← poll_time now q;
    let '(r, fs) := if fdcount q =? 0 then (0, fds q) else poll (fds q) (fdcount q) ms in
    let q := set_fds q fs (fd_callbacks q) (fdcount q) in
    let in_count := if 0 <? r then count_in (take (Z.to_nat (fdcount q)) (fds q)) else 0 in
    run ← match next_deadline q with
          | None => Some None
          | Some a => e ← ents q !! a;
                      Some (if (deadline_of e <=? now') || (in_count =? 0) then Some a else None)
          end;
    q ← match run with
        | None => Some q
        | Some a => q ← _unschedule q a; call_alarm q (Some a) 0
        end;
    if bool_decide (is_Some run) && (in_count =? 0) then Some (1, q)
    else
      q ← (if 0 <? r then handle_fds (Z.to_nat (fdcount q)) in_count q else Some q);
      Some (1, q).
End main_loop.

(** * Lists of entries *)

(** The entries [l] are linked, between the entries [p] and [n]. *)
Fixpoint seg (h : list sched_ent) (p : option nat) (l : list nat) (n : option nat) : Prop :=
  match l with
  | [] => True
  | a :: l' => exists e, h !! a = Some e /\ _prev e = p /\
      _next e = (match l' with [] => n | b :: _ => Some b end) /\ seg h (Some a) l' n
  end.

Definition first (l : list nat) (n : option nat) : option nat :=
  match l with [] => n | a :: _ => Some a end.
Definition final (p : option nat) (l : list nat) : option nat :=
  match last l with None => p | Some a => Some a end.

Lemma final_cons p a l : final p (a :: l) = final (Some a) l.
Proof.
  unfold final. destruct l as [| b l]; [done |]. rewrite last_cons.
  destruct (last (b :: l)) eqn:E; [done |]. by apply last_None in E.
Qed.

Lemma final_snoc p l a : final p (l ++ [a]) = Some a.
Proof. unfold final. by rewrite last_snoc. Qed.

Lemma seg_cons h p a l n : seg h p (a :: l) n <->
  exists e, h !! a = Some e /\ _prev e = p /\ _next e = first l n /\ seg h (Some a) l n.
Proof. cbn [seg]. by destruct l. Qed.

Lemma seg_app h l1 : forall p l2 n,
  seg h p (l1 ++ l2) n <-> seg h p l1 (first l2 n) /\ seg h (final p l1) l2 n.
Proof.
  induction l1 as [| a l1 IH]; intros p l2 n; [cbn; unfold final; cbn; tauto |].
  cbn [app]. rewrite !seg_cons, final_cons. setoid_rewrite IH.
  replace (first (l1 ++ l2) n) with (first l1 (first l2 n)) by (by destruct l1).
  split; [intros (e & ? & ? & ? & ? & ?); split; [exists e; auto | done] |].
  intros ((e & ? & ? & ? & ?) & ?). exists e. auto.
Qed.

Lemma seg_frame h h' l : forall p n,
  (forall a, a ∈ l -> h' !! a = h !! a) -> seg h p l n -> seg h' p l n.
Proof.
  induction l as [| a l IH]; intros p n Hf; [done |]. rewrite !seg_cons.
  intros (e & He & Hp & Hn & Hs). exists e. rewrite Hf by (by left). split_and!; try done.
  apply IH; [| done]. intros b Hb. apply Hf. by right.
Qed.

Lemma seg_insert h a e l p n : a ∉ l -> seg h p l n -> seg (<[a := e]> h) p l n.
Proof. intros Ha. apply seg_frame. intros b Hb. apply list_lookup_insert_ne. by intros ->. Qed.

Lemma seg_lookup h l : forall p n a, seg h p l n -> a ∈ l -> is_Some (h !! a).
Proof.
  induction l as [| b l IH]; intros p n a; [by intros _ ?%not_elem_of_nil |]. rewrite seg_cons.
  intros (e & He & _ & _ & Hs) [-> | Ha]%elem_of_cons; [by eexists | by eapply IH].
Qed.

(** What a pointer update does not change. *)
Definition strip (e : sched_ent) : sched_ent := set_next (set_prev e None) None.

Definition same_ents (h h' : list sched_ent) : Prop :=
  length h' = length h /\ forall a e, h !! a = Some e -> exists e', h' !! a = Some e' /\ strip e' = strip e.

Lemma same_ents_refl h : same_ents h h.
Proof. split; [done |]. eauto. Qed.

Lemma same_ents_trans h1 h2 h3 : same_ents h1 h2 -> same_ents h2 h3 -> same_ents h1 h3.
Proof.
  intros [L1 H1] [L2 H2]. split; [congruence |]. intros a e He.
  destruct (H1 a e He) as (e1 & He1 & E1), (H2 a e1 He1) as (e2 & He2 & E2). exists e2. split; congruence.
Qed.

Lemma same_ents_insert h a e e' : h !! a = Some e -> strip e' = strip e -> same_ents h (<[a := e']> h).
Proof.
  intros He Es. split; [apply length_insert |]. intros b x Hb. destruct (decide (b = a)) as [-> |].
  - exists e'. rewrite list_lookup_insert_eq by (by eapply lookup_lt_Some). split; congruence.
  - exists x. by rewrite list_lookup_insert_ne.
Qed.

(** ** Searching and linking *)

Definition key_at (key : sched_ent -> Z) (h : list sched_ent) (a : nat) : Z := default 0 (key <$> h !! a).

(** [k] goes after the keys up to it: [l1] before, [l2] behind. *)
Definition place_of (key : sched_ent -> Z) (h : list sched_ent) (k : Z) (l1 l2 : list nat) : Prop :=
  Forall (fun a => key_at key h a <= k) l1 /\ (forall b, head l2 = Some b -> k < key_at key h b).

Lemma find_place_spec key k h l : forall fuel p last0,
  seg h p l None -> (length l <= fuel)%nat ->
  exists l1 l2, l = l1 ++ l2 /\ place_of key h k l1 l2 /\
    find_place fuel key k h (head l) last0 = Some (final last0 l1, head l2).
Proof.
  induction l as [| a l IH]; intros fuel p last0 Hs Hf.
  { exists [], []. split_and!; [done | split; [constructor | done] | by destruct fuel]. }
  apply seg_cons in Hs as (e & He & _ & Hn & Hs). cbn [length] in Hf. destruct fuel as [| fuel]; [lia |].
  cbn [find_place head]. rewrite He. cbn [mbind option_bind].
  assert (Hk : key_at key h a = key e) by (unfold key_at; by rewrite He).
  destruct (Z.ltb_spec k (key e)).
  - exists [], (a :: l). split_and!; [done | | done]. split; [constructor |]. intros b [= <-]. lia.
  - replace (_next e) with (head l) by (rewrite Hn; by destruct l).
    destruct (IH fuel (Some a) (Some a) Hs ltac:(lia)) as (l1 & l2 & -> & [P1 P2] & ->).
    exists (a :: l1), l2. split_and!; [done | | by rewrite final_cons]. split; [| done].
    constructor; [lia | done].
Qed.

(** The last entry of a segment gets another successor, the first another predecessor. *)
Lemma seg_set_next h p l a n n' e :
  seg h p (l ++ [a]) n -> a ∉ l -> h !! a = Some e ->
  seg (<[a := set_next e n']> h) p (l ++ [a]) n'.
Proof.
  rewrite !seg_app. intros [H1 (e' & He' & Hp & _ & _)]%seg_app || intros [H1 (e' & He' & Hp & _ & _)].
  intros Ha He. rewrite He in He'. injection He' as <-. split; [by apply seg_insert |].
  exists (set_next e n'). rewrite list_lookup_insert_eq by (by eapply lookup_lt_Some). done.
Qed.

Lemma seg_set_prev h p p' a l n e :
  seg h p (a :: l) n -> a ∉ l -> h !! a = Some e -> seg (<[a := set_prev e p']> h) p' (a :: l) n.
Proof.
  rewrite !seg_cons. intros (e' & He' & _ & Hn & Hs) Ha He. rewrite He in He'. injection He' as <-.
  exists (set_prev e p'). rewrite list_lookup_insert_eq by (by eapply lookup_lt_Some).
  split_and!; try done. by apply seg_insert.
Qed.

(** The entries outside [l] are as they were. *)
Definition untouched (l : list nat) (h h' : list sched_ent) : Prop := forall a, a ∉ l -> h' !! a = h !! a.

Lemma modify_Some q p f e : ents q !! p = Some e -> modify q p f = Some (set_ents q (<[p := f e]> (ents q))).
Proof. intros H. unfold modify. by rewrite H. Qed.

Lemma modify_set q h p f e :
  h !! p = Some e -> modify (set_ents q h) p f = Some (set_ents q (<[p := f e]> h)).
Proof. intros H. unfold modify. cbn. by rewrite H. Qed.

Lemma link_ents q a l1 l2 e :
  seg (ents q) None (l1 ++ l2) None -> NoDup (a :: l1 ++ l2) -> ents q !! a = Some e ->
  exists h', seg h' None (l1 ++ a :: l2) None /\ same_ents (ents q) h' /\
    untouched (l1 ++ a :: l2) (ents q) h' /\
    forall set_head, (forall q x, ents (set_head q x) = ents q) ->
      link q a (final None l1) (head l2) set_head =
        Some (set_ents (if decide (l1 = []) then set_head q (Some a) else q) h').
Proof.
  intros Hs Hnd He. apply NoDup_cons in Hnd as [Ha Hnd]. apply NoDup_app in Hnd as (Nd1 & Hdis & Nd2).
  assert (Ha1 : a ∉ l1) by set_solver. assert (Ha2 : a ∉ l2) by set_solver.
  apply seg_app in Hs as [S1 S2].
  (* the predecessor *)
  assert (A1 : exists h1, seg h1 None l1 (Some a) /\ same_ents (ents q) h1 /\ untouched l1 (ents q) h1 /\
    forall set_head, (forall q x, ents (set_head q x) = ents q) ->
      match final None l1 with
      | None => Some (set_head q (Some a))
      | Some l => modify q l (fun e => set_next e (Some a))
      end = Some (set_ents (if decide (l1 = []) then set_head q (Some a) else q) h1)).
  { destruct (decide (l1 = [])) as [-> | Hne].
    - exists (ents q). split_and!; [done | apply same_ents_refl | done |].
      intros sh Hsh. cbn. specialize (Hsh q (Some a)). destruct (sh q (Some a)); cbn in *. by subst.
    - destruct (exists_last Hne) as (l1' & b & ->). apply NoDup_app in Nd1 as (_ & Hb & _).
      assert (Hb' : b ∉ l1') by (intros Hin; apply (Hb b Hin); by left).
      destruct (seg_lookup _ _ _ _ b S1) as [eb Heb]; [set_solver |].
      exists (<[b := set_next eb (Some a)]> (ents q)). split_and!.
      + by eapply seg_set_next.
      + by eapply same_ents_insert.
      + intros x Hx. apply list_lookup_insert_ne. set_solver.
      + intros sh _. rewrite final_snoc. by rewrite (modify_Some _ _ _ eb Heb). }
  destruct A1 as (h1 & S1' & E1 & U1 & L1).
  assert (He1 : h1 !! a = Some e) by (by rewrite U1).
  set (h2 := <[a := set_prev e (final None l1)]> h1).
  assert (E2 : same_ents h1 h2) by (by eapply same_ents_insert).
  assert (He2 : h2 !! a = Some (set_prev e (final None l1)))
    by (apply list_lookup_insert_eq; by eapply lookup_lt_Some).
  (* the successor *)
  assert (A3 : exists h3, seg h3 (Some a) l2 None /\ same_ents h2 h3 /\ untouched l2 h2 h3 /\ forall Q,
    match head l2 with
    | None => Some (set_ents Q h2)
    | Some n => modify (set_ents Q h2) n (fun e => set_prev e (Some a))
    end = Some (set_ents Q h3)).
  { assert (S2' : seg h2 (final None l1) l2 None).
    { apply seg_frame with (ents q); [| done]. intros x Hx.
      unfold h2. rewrite list_lookup_insert_ne by (intros ->; done). apply U1. intros Hx1. by apply (Hdis x). }
    destruct l2 as [| y l2']; [exists h2; split_and!; [done | apply same_ents_refl | done | done] |].
    apply NoDup_cons in Nd2 as [Hy _]. pose proof S2' as (ey & Hey & _).
    exists (<[y := set_prev ey (Some a)]> h2). split_and!.
    - by eapply seg_set_prev.
    - by eapply same_ents_insert.
    - intros x Hx. apply list_lookup_insert_ne. intros <-. apply Hx. by left.
    - intros Q. cbn [head]. by rewrite (modify_set _ _ _ _ _ Hey). }
  destruct A3 as (h3 & S3 & E3 & U3 & L3).
  assert (He3 : h3 !! a = Some (set_prev e (final None l1))) by (by rewrite U3).
  exists (<[a := set_next (set_prev e (final None l1)) (head l2)]> h3). split_and!.
  - apply seg_app. split.
    + cbn [first]. apply seg_insert; [done |]. apply seg_frame with h1; [| done]. intros x Hx.
      rewrite U3 by (by apply Hdis). apply list_lookup_insert_ne. by intros ->.
    + apply seg_cons. eexists. rewrite list_lookup_insert_eq by (by eapply lookup_lt_Some).
      split_and!; [done | done | by destruct l2 |]. by apply seg_insert.
  - eapply same_ents_trans; [exact E1 |]. eapply same_ents_trans; [exact E2 |].
    eapply same_ents_trans; [exact E3 |]. by eapply same_ents_insert.
  - intros x Hx. rewrite list_lookup_insert_ne by set_solver. rewrite U3 by set_solver.
    unfold h2. rewrite list_lookup_insert_ne by set_solver. apply U1. set_solver.
  - intros sh Hsh. unfold link. rewrite (L1 sh Hsh). cbn [mbind option_bind].
    rewrite (modify_set _ _ _ _ _ He1). cbn [mbind option_bind]. fold h2. rewrite L3. cbn [mbind option_bind].
    by rewrite (modify_set _ _ _ _ _ He3).
Qed.

(** * The queue *)

Definition sorted_by (key : sched_ent -> Z) (h : list sched_ent) (l : list nat) : Prop :=
  StronglySorted (fun a b => key_at key h a <= key_at key h b) l.

Record queue_wf (q : fdqueue) (la ld : list nat) : Prop := {
  qw_alarm : next_alarm q = head la;
  qw_deadline : next_deadline q = head ld;
  qw_aseg : seg (ents q) None la None;
  qw_dseg : seg (ents q) None ld None;
  qw_nodup : NoDup (la ++ ld);
  qw_free : forall a e, ents q !! a = Some e -> a ∉ la ++ ld -> _next e = None /\ _prev e = None;
  qw_asorted : sorted_by alarm (ents q) la;
  qw_dsorted : sorted_by deadline_of (ents q) ld
}.

Lemma key_at_same (key : sched_ent -> Z) h h' a :
  (forall e, key (strip e) = key e) -> same_ents h h' -> is_Some (h !! a) -> key_at key h' a = key_at key h a.
Proof.
  intros Hk [_ H] [e He]. destruct (H a e He) as (e' & He' & Es). unfold key_at. rewrite He, He'. cbn.
  by rewrite <- Hk, Es, Hk.
Qed.

Lemma sorted_same (key : sched_ent -> Z) h h' l p n :
  (forall e, key (strip e) = key e) -> same_ents h h' -> seg h p l n -> sorted_by key h l -> sorted_by key h' l.
Proof.
  intros Hk Hs Hseg. assert (Hd : Forall (fun a => is_Some (h !! a)) l).
  { apply Forall_forall. intros a Ha. by eapply seg_lookup. }
  clear Hseg. unfold sorted_by. induction 1 as [| a l _ IH Hf]; [constructor |].
  apply Forall_cons in Hd as [Ha Hd]. constructor; [by apply IH |].
  rewrite Forall_forall in Hf, Hd |- *. intros b Hb. rewrite !(key_at_same key h h') by auto. auto.
Qed.

(** Inserting at its place keeps a list sorted. *)
Lemma sorted_insert key h k a l1 l2 :
  sorted_by key h (l1 ++ l2) -> place_of key h k l1 l2 -> key_at key h a = k -> sorted_by key h (l1 ++ a :: l2).
Proof.
  unfold sorted_by. intros Hs [P1 P2] Ek. induction l1 as [| b l1 IH]; cbn [app] in *.
  - constructor; [done |]. destruct l2 as [| c l2]; constructor.
    + rewrite Ek. apply Z.lt_le_incl. by apply P2.
    + apply StronglySorted_inv in Hs as [_ Hf]. specialize (P2 c eq_refl).
      apply Forall_forall. intros d Hd. rewrite Forall_forall in Hf. specialize (Hf d Hd). cbn in Hf. lia.
  - apply StronglySorted_inv in Hs as [Hs Hf]. apply Forall_cons in P1 as [Pb P1].
    constructor; [by apply IH |]. apply Forall_app in Hf as [Hf1 Hf2]. apply Forall_app. split; [done |].
    constructor; [cbn in *; lia | done].
Qed.

(** The rest of the state is the same. *)
Definition same_fds (q q' : fdqueue) : Prop :=
  fds q' = fds q /\ fd_callbacks q' = fd_callbacks q /\ fdcount q' = fdcount q.

(** An entry that is in no list. *)
Definition free_ent (q : fdqueue) (la ld : list nat) (a : nat) (e : sched_ent) : Prop :=
  (a ∉ la ++ ld) /\ ents q !! a = Some e.

Lemma sorted_frame key h a e l : a ∉ l -> sorted_by key h l -> sorted_by key (<[a := e]> h) l.
Proof.
  intros Ha. unfold sorted_by. induction 1 as [| b l _ IH Hf]; [constructor |].
  apply not_elem_of_cons in Ha as [Hb Ha]. constructor; [by apply IH |].
  rewrite Forall_forall in Hf |- *. intros c Hc. unfold key_at.
  rewrite !list_lookup_insert_ne by (congruence || (intros ->; done)). by apply Hf.
Qed.

Lemma wf_update_free q la ld a e e' :
  queue_wf q la ld -> free_ent q la ld a e -> _next e' = None -> _prev e' = None ->
  queue_wf (set_ents q (<[a := e']> (ents q))) la ld.
Proof.
  intros [W1 W2 W3 W4 W5 W6 W7 W8] [Ha He] Hn Hp. apply not_elem_of_app in Ha as [Ha1 Ha2].
  split; cbn; try done; try (by apply seg_insert); try (by apply sorted_frame).
  intros b x Hb Hf. destruct (decide (b = a)) as [-> |].
  - rewrite list_lookup_insert_eq in Hb by (by eapply lookup_lt_Some). by simplify_eq.
  - rewrite list_lookup_insert_ne in Hb by done. by eapply W6.
Qed.

(** Linking a free entry into one of two disjoint lists. *)
Lemma link_lists q a e l1 l2 other :
  seg (ents q) None (l1 ++ l2) None -> seg (ents q) None other None -> NoDup (l1 ++ l2 ++ other) ->
  a ∉ l1 ++ l2 ++ other -> ents q !! a = Some e ->
  exists h', seg h' None (l1 ++ a :: l2) None /\ seg h' None other None /\ same_ents (ents q) h' /\
    NoDup ((l1 ++ a :: l2) ++ other) /\ untouched (l1 ++ a :: l2) (ents q) h' /\
    forall set_head, (forall q x, ents (set_head q x) = ents q) ->
      link q a (final None l1) (head l2) set_head =
        Some (set_ents (if decide (l1 = []) then set_head q (Some a) else q) h').
Proof.
  intros S1 S2 Hnd Ha He. rewrite (assoc_L (++)) in Hnd, Ha.
  apply not_elem_of_app in Ha as [Ha1 Ha2]. apply NoDup_app in Hnd as (N1 & Hdis & N2).
  destruct (link_ents q a l1 l2 e S1 ltac:(by constructor) He) as (h' & H1 & H2 & H3 & H4).
  assert (Hin : forall x, x ∈ other -> x ∉ l1 ++ a :: l2).
  { intros x Hx. rewrite not_elem_of_app, not_elem_of_cons. split_and!.
    - intros Hx1. apply (Hdis x); [| done]. apply elem_of_app. by left.
    - by intros ->.
    - intros Hx2. apply (Hdis x); [| done]. apply elem_of_app. by right. }
  exists h'. split_and!; try done.
  - apply seg_frame with (ents q); [| done]. intros x Hx. by apply H3, Hin.
  - apply NoDup_app. split_and!; [| by intros x Hx Ho; apply (Hin x) | done].
    rewrite <- Permutation_middle. by constructor.
Qed.

Lemma head_link {A} (l1 l2 : list A) a : head (l1 ++ a :: l2) = if decide (l1 = []) then Some a else head (l1 ++ l2).
Proof. by destruct l1. Qed.

Lemma key_at_Some key h a e : h !! a = Some e -> key_at key h a = key e.
Proof. intros H. unfold key_at. by rewrite H. Qed.

Lemma place_same (key : sched_ent -> Z) h h' k l1 l2 p n :
  (forall e, key (strip e) = key e) -> same_ents h h' -> seg h p (l1 ++ l2) n ->
  place_of key h k l1 l2 -> place_of key h' k l1 l2.
Proof.
  intros Hk Hs Hseg [P1 P2]. split.
  - rewrite Forall_forall in P1 |- *. intros a Ha. rewrite (key_at_same key h h'); auto.
    eapply seg_lookup; [exact Hseg |]. apply elem_of_app. by left.
  - intros b Hb. rewrite (key_at_same key h h'); auto. eapply seg_lookup; [exact Hseg |].
    apply elem_of_app. right. destruct l2; [done |]. injection Hb as ->. by left.
Qed.

(** The head, and what else holds, once [a] is linked. *)
Lemma link_deadline_spec q la l1 l2 a e :
  queue_wf q la (l1 ++ l2) -> free_ent q la (l1 ++ l2) a e ->
  place_of deadline_of (ents q) (deadline_of e) l1 l2 ->
  exists q', link q a (final None l1) (head l2) set_next_deadline = Some q' /\
    queue_wf q' la (l1 ++ a :: l2) /\ same_ents (ents q) (ents q') /\ same_fds q q'.
Proof.
  intros [W1 W2 W3 W4 W5 W6 W7 W8] [Ha He] Hpl.
  destruct (link_lists q a e l1 l2 la) as (h' & H1 & H2 & H3 & H4 & H5 & H6); try done.
  { rewrite (assoc_L (++)), (comm (++) _ la). done. }
  { by rewrite (assoc_L (++)), (comm (++) _ la). }
  eexists. split; [by apply H6 |].
  assert (Eq : forall Q, ents (set_ents Q h') = h') by done.
  split; [split; rewrite ?Eq | split].
  - destruct (decide _); cbn; done.
  - rewrite head_link. destruct (decide _); cbn; done.
  - done.
  - done.
  - by rewrite (comm (++)).
  - intros x ex Hx Hn. apply not_elem_of_app in Hn as [Hn1 Hn2]. rewrite H5 in Hx by done.
    eapply W6; [exact Hx |]. apply not_elem_of_app. split; [done |].
    apply not_elem_of_app in Hn2 as [? [_ ?]%not_elem_of_cons]. by apply not_elem_of_app.
  - by eapply (sorted_same alarm).
  - eapply sorted_insert; [by eapply (sorted_same deadline_of) | by eapply (place_same deadline_of) |].
    rewrite (key_at_same deadline_of (ents q)) by eauto. by apply key_at_Some.
  - done.
  - destruct (decide _); by split_and!.
Qed.

Lemma link_alarm_spec q ld l1 l2 a e :
  queue_wf q (l1 ++ l2) ld -> free_ent q (l1 ++ l2) ld a e ->
  place_of alarm (ents q) (alarm e) l1 l2 ->
  exists q', link q a (final None l1) (head l2) set_next_alarm = Some q' /\
    queue_wf q' (l1 ++ a :: l2) ld /\ same_ents (ents q) (ents q') /\ same_fds q q'.
Proof.
  intros [W1 W2 W3 W4 W5 W6 W7 W8] [Ha He] Hpl.
  destruct (link_lists q a e l1 l2 ld) as (h' & H1 & H2 & H3 & H4 & H5 & H6); try done;
    [by rewrite (assoc_L (++)) | by rewrite (assoc_L (++)) |].
  eexists. split; [by apply H6 |].
  assert (Eq : forall Q, ents (set_ents Q h') = h') by done.
  split; [split; rewrite ?Eq | split].
  - rewrite head_link. destruct (decide _); cbn; done.
  - destruct (decide _); cbn; done.
  - done.
  - done.
  - done.
  - intros x ex Hx Hn. apply not_elem_of_app in Hn as [Hn1 Hn2]. rewrite H5 in Hx by done.
    eapply W6; [exact Hx |]. apply not_elem_of_app in Hn1 as [? [_ ?]%not_elem_of_cons].
    rewrite !not_elem_of_app. by split_and!.
  - eapply sorted_insert; [by eapply (sorted_same alarm) | by eapply (place_same alarm) |].
    rewrite (key_at_same alarm (ents q)) by eauto. by apply key_at_Some.
  - by eapply (sorted_same deadline_of).
  - done.
  - destruct (decide _); by split_and!.
Qed.

Lemma seg_length h p l n : NoDup l -> seg h p l n -> (length l <= length h)%nat.
Proof.
  intros Hnd Hs. rewrite <- (length_seq (length h) 0). apply submseteq_length, NoDup_submseteq; [done |].
  intros a Ha. destruct (seg_lookup _ _ _ _ _ Hs Ha) as [e He]. apply lookup_lt_Some in He.
  apply elem_of_seq. lia.
Qed.

(** An entry with its deadline not before its alarm. *)
Definition checked (e : sched_ent) : sched_ent :=
  if deadline_of e <? alarm e then set_deadline e (alarm e) else e.

Lemma checked_deadline e : deadline_of (checked e) = Z.max (deadline_of e) (alarm e).
Proof. unfold checked. zcases; cbn; lia. Qed.

Lemma checked_alarm e : alarm (checked e) = alarm e.
Proof. unfold checked. by zcases. Qed.

Lemma checked_idem e : checked (checked e) = checked e.
Proof. unfold checked at 1. rewrite checked_deadline, checked_alarm. zcases; [lia | done]. Qed.

Lemma check_deadline_spec q la ld a e :
  queue_wf q la ld -> free_ent q la ld a e ->
  check_deadline q a = Some (set_ents q (<[a := checked e]> (ents q))) /\
  queue_wf (set_ents q (<[a := checked e]> (ents q))) la ld /\
  free_ent (set_ents q (<[a := checked e]> (ents q))) la ld a (checked e).
Proof.
  intros W F. pose proof F as [Ha He]. destruct (qw_free _ _ _ W a e He Ha) as [Hn Hp]. split_and!.
  - by apply modify_Some.
  - eapply wf_update_free; [done | exact F | |]; unfold checked; by case_match.
  - split; [done |]. cbn. apply list_lookup_insert_eq. by eapply lookup_lt_Some.
Qed.

(** What scheduling [a] does to the entries: its deadline is checked. *)
Definition scheduled_ents (q q' : fdqueue) (a : nat) (e : sched_ent) : Prop :=
  same_ents (<[a := checked e]> (ents q)) (ents q') /\ same_fds q q'.

Lemma deadline_spec q la ld a e :
  queue_wf q la ld -> free_ent q la ld a e ->
  exists q' l1 l2, deadline q a = Some (0, q') /\ ld = l1 ++ l2 /\ queue_wf q' la (l1 ++ a :: l2) /\
    scheduled_ents q q' a e.
Proof.
  intros W F. destruct (check_deadline_spec q la ld a e W F) as (E1 & W1 & F1).
  set (q1 := set_ents q (<[a := checked e]> (ents q))) in *. unfold deadline. rewrite E1. cbn [mbind option_bind].
  pose proof F1 as [_ He1]. rewrite He1. cbn [mbind option_bind]. rewrite (qw_deadline _ _ _ W1).
  destruct (find_place_spec deadline_of (deadline_of (checked e)) (ents q1) ld (length (ents q1)) None None
              (qw_dseg _ _ _ W1)) as (l1 & l2 & -> & Hpl & ->).
  { eapply seg_length; [| apply (qw_dseg _ _ _ W1)]. pose proof (qw_nodup _ _ _ W1) as Hnd.
    by apply NoDup_app in Hnd as (_ & _ & ?). }
  cbn [mbind option_bind].
  destruct (link_deadline_spec q1 la l1 l2 a (checked e) W1 F1 Hpl) as (q' & -> & W' & S' & D').
  exists q', l1, l2. by split_and!.
Qed.

Lemma not_scheduled q la ld a e :
  queue_wf q la ld -> free_ent q la ld a e -> is_scheduled q a = Some false.
Proof.
  intros W [Ha He]. destruct (qw_free _ _ _ W a e He Ha) as [Hn Hp].
  unfold is_scheduled. rewrite He. cbn [mbind option_bind]. rewrite Hn, Hp, (qw_alarm _ _ _ W), (qw_deadline _ _ _ W).
  apply not_elem_of_app in Ha as [Ha1 Ha2].
  assert (Hhead : forall l, a ∉ l -> bool_decide (head l = Some a) = false).
  { intros l Hl. apply bool_decide_eq_false_2. intros E. apply Hl. destruct l; [done |].
    injection E as ->. by left. }
  by rewrite !Hhead.
Qed.

Lemma schedule_spec now q la ld a e :
  queue_wf q la ld -> free_ent q la ld a e -> has_function e = true ->
  exists q' l1 l2, _schedule now q a = Some (0, q') /\ scheduled_ents q q' a e /\
    if alarm e <=? now then ld = l1 ++ l2 /\ queue_wf q' la (l1 ++ a :: l2)
    else la = l1 ++ l2 /\ queue_wf q' (l1 ++ a :: l2) ld.
Proof.
  intros W F Hf. pose proof F as [_ He]. unfold _schedule.
  rewrite (not_scheduled q la ld a e W F). cbn [mbind option_bind]. rewrite He. cbn [mbind option_bind].
  rewrite Hf. cbn [negb]. destruct (check_deadline_spec q la ld a e W F) as (E1 & W1 & F1).
  set (q1 := set_ents q (<[a := checked e]> (ents q))) in *. rewrite E1. cbn [mbind option_bind].
  pose proof F1 as [_ He1]. rewrite He1. cbn [mbind option_bind]. rewrite checked_alarm.
  destruct (alarm e <=? now).
  - destruct (deadline_spec q1 la ld a (checked e) W1 F1) as (q' & l1 & l2 & -> & -> & W' & S' & D').
    exists q', l1, l2. split_and!; try done. split; [| done].
    unfold q1 in S'. cbn [ents set_ents] in S'. by rewrite checked_idem, list_insert_insert_eq in S'.
  - rewrite (qw_alarm _ _ _ W1).
    destruct (find_place_spec alarm (alarm e) (ents q1) la (length (ents q1)) None None
                (qw_aseg _ _ _ W1)) as (l1 & l2 & -> & Hpl & ->).
    { eapply seg_length; [| apply (qw_aseg _ _ _ W1)]. pose proof (qw_nodup _ _ _ W1) as Hnd.
      by apply NoDup_app in Hnd as (? & _ & _). }
    cbn [mbind option_bind]. rewrite <- (checked_alarm e) in Hpl.
    destruct (link_alarm_spec q1 ld l1 l2 a (checked e) W1 F1 Hpl) as (q' & -> & W' & S' & D').
    exists q', l1, l2. by split_and!.
Qed.

(** Scheduling an alarm that is in no list adds it and nothing else: to the alarms in order
    of time when it is not due, to the due ones in order of deadline when it is; its deadline is
    made no earlier than its time and every other entry and file handle is as it was. *)
Theorem schedule_refines now q la ld a e :
  queue_wf q la ld -> free_ent q la ld a e -> has_function e = true ->
  exists q' l1 l2, _schedule now q a = Some (0, q') /\ scheduled_ents q q' a e /\
    if alarm e <=? now then ld = l1 ++ l2 /\ queue_wf q' la (l1 ++ a :: l2)
    else la = l1 ++ l2 /\ queue_wf q' (l1 ++ a :: l2) ld.
Proof. apply schedule_spec. Qed.

(** ** Taking entries out *)

Lemma unlink_ents q a l1 l2 :
  seg (ents q) None (l1 ++ a :: l2) None -> NoDup (l1 ++ a :: l2) ->
  exists h' e e', ents q !! a = Some e /\ _prev e = final None l1 /\ _next e = head l2 /\
    seg h' None (l1 ++ l2) None /\ same_ents (ents q) h' /\ untouched (l1 ++ a :: l2) (ents q) h' /\
    h' !! a = Some e' /\ _next e' = None /\ _prev e' = None /\
    forall Q, ents Q = ents q ->
      (q1 ← match _prev e with
            | Some p => modify q p (fun x => set_next x (_next e))
            | None => Some Q
            end;
       q2 ← match _next e with
            | Some n => modify q1 n (fun x => set_prev x (_prev e))
            | None => Some q1
            end;
       modify q2 a (fun e => set_next (set_prev e None) None))
      = Some (set_ents (if decide (l1 = []) then Q else q) h').
Proof.
  intros Hs Hnd. apply NoDup_app in Hnd as (N1 & Hdis & Hnd2). apply NoDup_cons in Hnd2 as [Ha2 N2].
  assert (Ha1 : a ∉ l1) by (intros ?; apply (Hdis a); [done | by left]).
  assert (Hd2 : forall x, x ∈ l1 -> x ∉ l2) by (intros x H1 H2; apply (Hdis x H1); by right).
  apply seg_app in Hs as [S1 S2]. apply seg_cons in S2 as (e & He & Hp & Hn & S2).
  assert (Hn' : _next e = head l2) by (rewrite Hn; by destruct l2). clear Hn. rename Hn' into Hn.
  assert (A1 : exists h1, seg h1 None l1 (head l2) /\ same_ents (ents q) h1 /\ untouched l1 (ents q) h1 /\
    forall Q, ents Q = ents q ->
      match final None l1 with Some p => modify q p (fun x => set_next x (head l2)) | None => Some Q end
      = Some (set_ents (if decide (l1 = []) then Q else q) h1)).
  { destruct (decide (l1 = [])) as [-> | Hne].
    - exists (ents q). split_and!; [done | apply same_ents_refl | done |]. intros Q HQ. cbn. destruct Q; cbn in *. by subst.
    - destruct (exists_last Hne) as (l1' & b & ->). apply NoDup_app in N1 as (_ & Hb & _).
      assert (Hb' : b ∉ l1') by (intros Hin; apply (Hb b Hin); by left).
      assert (Hbin : b ∈ l1' ++ [b]) by (apply elem_of_app; right; by left).
      destruct (seg_lookup _ _ _ _ b S1 Hbin) as [eb Heb].
      exists (<[b := set_next eb (head l2)]> (ents q)). split_and!.
      + by eapply seg_set_next.
      + by eapply same_ents_insert.
      + intros x Hx. apply list_lookup_insert_ne. by intros <-.
      + intros Q _. rewrite final_snoc. by rewrite (modify_Some _ _ _ eb Heb). }
  destruct A1 as (h1 & S1' & E1 & U1 & L1).
  assert (A2 : exists h2, seg h2 (final None l1) l2 None /\ same_ents h1 h2 /\ untouched l2 h1 h2 /\ forall Q,
    match head l2 with Some n => modify (set_ents Q h1) n (fun x => set_prev x (final None l1)) | None => Some (set_ents Q h1) end
    = Some (set_ents Q h2)).
  { assert (S2' : seg h1 (Some a) l2 None).
    { apply seg_frame with (ents q); [| done]. intros x Hx. apply U1. intros ?. by apply (Hd2 x). }
    destruct l2 as [| y l2']; [exists h1; split_and!; [done | apply same_ents_refl | done | done] |].
    apply NoDup_cons in N2 as [Hy _]. pose proof S2' as (ey & Hey & _).
    exists (<[y := set_prev ey (final None l1)]> h1). split_and!.
    - by eapply seg_set_prev.
    - by eapply same_ents_insert.
    - intros x Hx. apply list_lookup_insert_ne. intros <-. apply Hx. by left.
    - intros Q. cbn [head]. by rewrite (modify_set _ _ _ _ _ Hey). }
  destruct A2 as (h2 & S2' & E2 & U2 & L2).
  assert (He2 : h2 !! a = Some e) by (rewrite U2, U1 by done; done).
  exists (<[a := strip e]> h2), e, (strip e). split_and!; try done.
  - apply seg_insert; [by apply not_elem_of_app |]. apply seg_app. split; [| done].
    replace (first l2 None) with (head l2) by (by destruct l2).
    apply seg_frame with h1; [| done]. intros x Hx. apply U2. by apply Hd2.
  - eapply same_ents_trans; [exact E1 |]. eapply same_ents_trans; [exact E2 |]. by eapply same_ents_insert.
  - intros x Hx. apply not_elem_of_app in Hx as [Hx1 Hx2]. apply not_elem_of_cons in Hx2 as [Hx2 Hx3].
    rewrite list_lookup_insert_ne by done. by rewrite U2, U1.
  - apply list_lookup_insert_eq. by eapply lookup_lt_Some.
  - intros Q HQ. rewrite Hp, Hn, (L1 Q HQ). cbn [mbind option_bind]. rewrite L2. cbn [mbind option_bind].
    by rewrite (modify_set _ _ _ _ _ He2).
Qed.

Lemma sorted_remove key h l1 a l2 : sorted_by key h (l1 ++ a :: l2) -> sorted_by key h (l1 ++ l2).
Proof.
  unfold sorted_by. induction l1 as [| b l1 IH]; cbn [app]; intros H; apply StronglySorted_inv in H as [H Hf]; [done |].
  constructor; [by apply IH |]. apply Forall_app in Hf as [? [_ ?]%Forall_cons]. by apply Forall_app.
Qed.

(** A list without [a]. *)
Definition without (a : nat) (l : list nat) : list nat := filter (fun x => x <> a) l.

Lemma without_notin a l : a ∉ l -> without a l = l.
Proof.
  unfold without. induction l as [| b l IH]; intros Ha; [done |].
  apply not_elem_of_cons in Ha as [Hb Ha]. rewrite filter_cons_True by congruence. by rewrite IH.
Qed.

Lemma without_mid a l1 l2 : NoDup (l1 ++ a :: l2) -> without a (l1 ++ a :: l2) = l1 ++ l2.
Proof.
  intros Hnd. apply NoDup_app in Hnd as (_ & Hd & [Ha _]%NoDup_cons).
  assert (Ha1 : a ∉ l1) by (intros ?; apply (Hd a); [done | by left]).
  unfold without. rewrite filter_app, filter_cons_False by (by intros []).
  fold (without a l1) (without a l2). by rewrite !without_notin.
Qed.

Lemma head_unlink (l1 l2 : list nat) a : head (l1 ++ l2) = if decide (l1 = []) then head l2 else head (l1 ++ a :: l2).
Proof. by destruct l1. Qed.

Lemma unschedule_alarm q l1 a l2 ld :
  queue_wf q (l1 ++ a :: l2) ld ->
  exists q', _unschedule q a = Some q' /\ queue_wf q' (l1 ++ l2) ld /\
    same_ents (ents q) (ents q') /\ same_fds q q'.
Proof.
  intros [W1 W2 W3 W4 W5 W6 W7 W8]. pose proof W5 as (N1 & Hdis & N2)%NoDup_app.
  destruct (unlink_ents q a l1 l2 W3 N1) as (h' & e & e' & He & Hp & Hn & S' & E' & U' & He' & Hn' & Hp' & L).
  unfold _unschedule. rewrite He. cbn [mbind option_bind].
  set (Q := if bool_decide (next_alarm q = Some a) then _ else _). rewrite (L Q) by (unfold Q; by repeat case_match).
  eexists. split; [done |].
  assert (HQ : l1 = [] -> Q = set_next_alarm q (head l2)).
  { intros ->. unfold Q. rewrite bool_decide_eq_true_2 by (by rewrite W1). by rewrite Hn. }
  assert (Eq : forall Q, ents (set_ents Q h') = h') by done.
  split; [split; rewrite ?Eq | split; [done |]].
  - rewrite (head_unlink l1 l2 a). destruct (decide _) as [E |]; [by rewrite (HQ E) | done].
  - destruct (decide _) as [E |]; [by rewrite (HQ E) | done].
  - done.
  - apply seg_frame with (ents q); [| done]. intros x Hx. apply U'. intros ?. by apply (Hdis x).
  - rewrite <- Permutation_middle in W5. cbn in W5. by apply NoDup_cons in W5 as [_ ?].
  - intros x ex Hx Hf. destruct (decide (x = a)) as [-> | Hne]; [by simplify_eq |].
    apply not_elem_of_app in Hf as [[Hf1 Hf2]%not_elem_of_app Hf3].
    assert (Hx' : x ∉ l1 ++ a :: l2) by (apply not_elem_of_app; split; [done |]; by apply not_elem_of_cons).
    rewrite (U' x Hx') in Hx. eapply W6; [exact Hx |]. by apply not_elem_of_app.
  - by eapply sorted_remove, (sorted_same alarm (ents q)).
  - by eapply (sorted_same deadline_of).
  - destruct (decide _) as [E |]; [rewrite (HQ E) |]; by split_and!.
Qed.

Lemma unschedule_deadline q la l1 a l2 :
  queue_wf q la (l1 ++ a :: l2) ->
  exists q', _unschedule q a = Some q' /\ queue_wf q' la (l1 ++ l2) /\
    same_ents (ents q) (ents q') /\ same_fds q q'.
Proof.
  intros [W1 W2 W3 W4 W5 W6 W7 W8]. pose proof W5 as (N1 & Hdis & N2)%NoDup_app.
  assert (Ha : a ∉ la) by (intros ?; apply (Hdis a); [done |]; apply elem_of_app; right; by left).
  destruct (unlink_ents q a l1 l2 W4 N2) as (h' & e & e' & He & Hp & Hn & S' & E' & U' & He' & Hn' & Hp' & L).
  unfold _unschedule. rewrite He. cbn [mbind option_bind].
  rewrite (bool_decide_eq_false_2 (next_alarm q = Some a)).
  2: { rewrite W1. intros E. apply Ha. destruct la; [done |]. injection E as ->. by left. }
  set (Q := if bool_decide (next_deadline q = Some a) then _ else _). rewrite (L Q) by (unfold Q; by repeat case_match).
  eexists. split; [done |].
  assert (HQ : l1 = [] -> Q = set_next_deadline q (head l2)).
  { intros ->. unfold Q. rewrite bool_decide_eq_true_2 by (by rewrite W2). by rewrite Hn. }
  assert (Eq : forall Q, ents (set_ents Q h') = h') by done.
  split; [split; rewrite ?Eq | split; [done |]].
  - destruct (decide _) as [E |]; [by rewrite (HQ E) | done].
  - rewrite (head_unlink l1 l2 a). destruct (decide _) as [E |]; [by rewrite (HQ E) | done].
  - apply seg_frame with (ents q); [| done]. intros x Hx. apply U'. by apply Hdis.
  - done.
  - rewrite (assoc_L (++)) in W5 |- *. rewrite <- Permutation_middle in W5. cbn in W5. by apply NoDup_cons in W5 as [_ ?].
  - intros x ex Hx Hf. destruct (decide (x = a)) as [-> | Hne]; [by simplify_eq |].
    apply not_elem_of_app in Hf as [Hf1 [Hf2 Hf3]%not_elem_of_app].
    assert (Hx' : x ∉ l1 ++ a :: l2) by (apply not_elem_of_app; split; [done |]; by apply not_elem_of_cons).
    rewrite (U' x Hx') in Hx. eapply W6; [exact Hx |]. by apply not_elem_of_app.
  - by eapply (sorted_same alarm).
  - by eapply sorted_remove, (sorted_same deadline_of (ents q)).
  - destruct (decide _) as [E |]; [rewrite (HQ E) |]; by split_and!.
Qed.

Lemma unschedule_free q la ld a e :
  queue_wf q la ld -> free_ent q la ld a e ->
  exists q', _unschedule q a = Some q' /\ queue_wf q' la ld /\ same_ents (ents q) (ents q') /\ same_fds q q'.
Proof.
  intros W F. pose proof F as [Ha He]. destruct (qw_free _ _ _ W a e He Ha) as [Hn Hp].
  apply not_elem_of_app in Ha as [Ha1 Ha2].
  assert (Hhead : forall l, a ∉ l -> bool_decide (head l = Some a) = false).
  { intros l Hl. apply bool_decide_eq_false_2. intros E. apply Hl. destruct l; [done |]. injection E as ->. by left. }
  unfold _unschedule. rewrite He. cbn [mbind option_bind]. rewrite Hp, Hn, (qw_alarm _ _ _ W), (qw_deadline _ _ _ W), !Hhead by done.
  cbn [mbind option_bind]. rewrite (modify_Some _ _ _ e He). eexists. split; [done |].
  split; [by eapply wf_update_free | split; [by eapply same_ents_insert | done]].
Qed.

(** Unscheduling an entry takes it out of the list it is in, and does nothing to an entry that
    is in none; every other entry and file handle stays as it was, in order. *)
Lemma unschedule_spec q la ld a :
  queue_wf q la ld -> is_Some (ents q !! a) ->
  exists q', _unschedule q a = Some q' /\ queue_wf q' (without a la) (without a ld) /\
    same_ents (ents q) (ents q') /\ same_fds q q'.
Proof.
  intros W [e He]. pose proof (qw_nodup _ _ _ W) as Hnd. pose proof Hnd as (N1 & Hdis & N2)%NoDup_app.
  destruct (decide (a ∈ la)) as [Hin | Hla].
  - rewrite (without_notin a ld) by (by apply Hdis). apply list_elem_of_split in Hin as (l1 & l2 & ->).
    rewrite without_mid by done. by apply unschedule_alarm.
  - rewrite (without_notin a la) by done. destruct (decide (a ∈ ld)) as [Hin | Hld].
    + apply list_elem_of_split in Hin as (l1 & l2 & ->). rewrite without_mid by done. by apply unschedule_deadline.
    + rewrite (without_notin a ld) by done. eapply unschedule_free; [done |].
      split; [by apply not_elem_of_app | exact He].
Qed.

(** * The main loop *)

(** The entries are the same but for links, and deadlines not before their alarms. *)
Definition times_kept (h h' : list sched_ent) : Prop :=
  length h' = length h /\ forall a e, h !! a = Some e ->
    exists e', h' !! a = Some e' /\ strip (checked e') = strip (checked e).

Lemma strip_checked e : strip (checked e) = checked (strip e).
Proof. unfold checked, strip. cbn. by case_match. Qed.

Lemma times_kept_same h h' : same_ents h h' -> times_kept h h'.
Proof.
  intros [Hl H]. split; [done |]. intros a e He. destruct (H a e He) as (e' & He' & Es).
  exists e'. split; [done |]. by rewrite !strip_checked, Es.
Qed.

Lemma times_kept_trans h1 h2 h3 : times_kept h1 h2 -> times_kept h2 h3 -> times_kept h1 h3.
Proof.
  intros [L1 H1] [L2 H2]. split; [congruence |]. intros a e He.
  destruct (H1 a e He) as (e1 & He1 & E1), (H2 a e1 He1) as (e2 & He2 & E2). exists e2. split; congruence.
Qed.

Lemma times_kept_checked h a e : h !! a = Some e -> times_kept h (<[a := checked e]> h).
Proof.
  intros He. split; [apply length_insert |]. intros b x Hb. destruct (decide (b = a)) as [-> |].
  - exists (checked e). rewrite list_lookup_insert_eq by (by eapply lookup_lt_Some). simplify_eq.
    split; [done |]. by rewrite checked_idem.
  - exists x. by rewrite list_lookup_insert_ne.
Qed.

Lemma times_alarm e e' : strip (checked e') = strip (checked e) ->
  alarm e' = alarm e /\ has_function e' = has_function e.
Proof.
  intros E. split.
  - rewrite <- (checked_alarm e), <- (checked_alarm e'). exact (f_equal alarm E).
  - apply (f_equal has_function) in E. unfold checked, strip in E. cbn in E.
    destruct (deadline_of e' <? alarm e'), (deadline_of e <? alarm e); done.
Qed.

Lemma same_fds_trans q1 q2 q3 : same_fds q1 q2 -> same_fds q2 q3 -> same_fds q1 q3.
Proof. intros (?&?&?) (?&?&?). split_and!; congruence. Qed.

Lemma move_due_spec now la : forall fuel q ld,
  queue_wf q la ld -> (length la <= fuel)%nat ->
  exists q' la1 la2 ld', move_due fuel now q = Some q' /\ la = la1 ++ la2 /\
    Forall (fun a => key_at alarm (ents q) a <= now) la1 /\
    (forall a, head la2 = Some a -> now < key_at alarm (ents q) a) /\
    queue_wf q' la2 ld' /\ ld' ≡ₚ la1 ++ ld /\ times_kept (ents q) (ents q') /\ same_fds q q'.
Proof.
  induction la as [| a la IH]; intros fuel q ld W Hf.
  { exists q, [], [], ld. split_and!; try done.
    - destruct fuel; cbn [move_due]; by rewrite (qw_alarm _ _ _ W).
    - apply times_kept_same, same_ents_refl. }
  cbn [length] in Hf. destruct fuel as [| fuel]; [lia |].
  cbn [move_due]. rewrite (qw_alarm _ _ _ W). cbn [head].
  destruct (qw_aseg _ _ _ W) as (e & He & _). rewrite He. cbn [mbind option_bind].
  pose proof (key_at_Some alarm _ _ _ He) as Hk.
  destruct (Z.leb_spec (alarm e) now) as [Hdue | Hnot].
  2: { exists q, [], (a :: la), ld. split_and!; try done; [intros b [= <-]; lia |].
       apply times_kept_same, same_ents_refl. }
  destruct (unschedule_alarm q [] a la ld W) as (q1 & -> & W1 & S1 & D1). cbn [mbind option_bind app] in *.
  destruct (proj2 S1 a e He) as (e1 & He1 & Es1).
  assert (F1 : free_ent q1 la ld a e1).
  { split; [| done]. pose proof (qw_nodup _ _ _ W) as Hnd. cbn in Hnd. by apply NoDup_cons in Hnd as [? _]. }
  destruct (deadline_spec q1 la ld a e1 W1 F1) as (q2 & l1 & l2 & -> & -> & W2 & [S2 D2]). cbn [mbind option_bind].
  assert (T2 : times_kept (ents q) (ents q2)).
  { eapply times_kept_trans; [apply times_kept_same, S1 |].
    eapply times_kept_trans; [by apply times_kept_checked | by apply times_kept_same]. }
  destruct (IH fuel q2 _ W2 ltac:(lia)) as (q' & la1 & la2 & ld' & -> & -> & P1 & P2 & W' & Pm & T' & D').
  assert (Hkey : forall b, b ∈ la1 ++ la2 -> key_at alarm (ents q2) b = key_at alarm (ents q) b).
  { intros b Hb. destruct (seg_lookup _ _ _ _ b (qw_aseg _ _ _ W)) as [eb Heb]; [by right |].
    destruct (proj2 T2 b eb Heb) as (eb' & Heb' & Et).
    rewrite (key_at_Some _ _ _ _ Heb), (key_at_Some _ _ _ _ Heb'). by apply times_alarm. }
  exists q', (a :: la1), la2, ld'. split_and!; try done.
  - constructor; [lia |]. rewrite Forall_forall in P1 |- *. intros b Hb. rewrite <- Hkey; [by apply P1 |].
    apply elem_of_app. by left.
  - intros b Hb. rewrite <- Hkey; [by apply P2 |]. apply elem_of_app. right. destruct la2; [done |].
    injection Hb as ->. by left.
  - rewrite Pm. rewrite <- Permutation_middle. cbn. by rewrite <- Permutation_middle.
  - by eapply times_kept_trans.
  - eapply same_fds_trans; [exact D1 |]. by eapply same_fds_trans.
Qed.

Lemma wf_set_fds q la ld f cb n : queue_wf q la ld -> queue_wf (set_fds q f cb n) la ld.
Proof. by intros []. Qed.

(** The times, and what is called, of an entry. *)
Definition same_times (e e' : sched_ent) : Prop :=
  alarm e' = alarm e /\ deadline_of (checked e') = deadline_of (checked e) /\ has_function e' = has_function e.

Lemma times_kept_lookup h h' a e :
  times_kept h h' -> h !! a = Some e -> exists e', h' !! a = Some e' /\ same_times e e'.
Proof.
  intros [_ H] He. destruct (H a e He) as (e' & He' & E). exists e'. split; [done |].
  destruct (times_alarm e e' E) as [? ?]. split_and!; [done | | done]. exact (f_equal deadline_of E).
Qed.

(** What running an alarm keeps of every entry. *)
Definition same_keys (e e' : sched_ent) : Prop :=
  alarm e' = alarm e /\ deadline_of e' = deadline_of e /\ has_function e' = has_function e.

Lemma same_keys_times e e1 e2 : same_times e e1 -> same_keys e1 e2 -> same_times e e2.
Proof.
  intros (T1 & T2 & T3) (K1 & K2 & K3). rewrite !checked_deadline in T2.
  split; [congruence | split; [| congruence]]. rewrite !checked_deadline. congruence.
Qed.

Lemma same_ents_keys h h' a e : same_ents h h' -> h !! a = Some e -> exists e', h' !! a = Some e' /\ same_keys e e'.
Proof.
  intros [_ H] He. destruct (H a e He) as (e' & He' & E). exists e'. split; [done |].
  split; [exact (f_equal alarm E) | split; [exact (f_equal deadline_of E) | exact (f_equal has_function E)]].
Qed.

(** The alarm at the head of the deadline list is unlinked and called with no events. *)
Lemma call_next_deadline callback q la a rest e :
  queue_wf q la (a :: rest) -> ents q !! a = Some e -> has_function e = true ->
  exists q1 e1, queue_wf q1 la rest /\ ents q1 !! a = Some e1 /\ revents e1 = 0 /\ same_fds q q1 /\
    (forall b x, ents q !! b = Some x -> exists x', ents q1 !! b = Some x' /\ same_keys x x') /\
    (q' ← _unschedule q a; call_alarm callback q' (Some a) 0) = callback a q1.
Proof.
  intros W He Hf. destruct (unschedule_deadline q la [] a rest W) as (q1 & -> & W1 & S1 & D1).
  cbn [app] in *. destruct (same_ents_keys _ _ a e S1 He) as (e1 & He1 & K1 & K2 & K3).
  assert (F1 : free_ent q1 la rest a e1).
  { split; [| done]. pose proof (qw_nodup _ _ _ W) as Hnd. rewrite <- Permutation_middle in Hnd.
    by apply NoDup_cons in Hnd as [? _]. }
  destruct (qw_free _ _ _ W1 a e1 He1 (proj1 F1)) as [Hn Hp].
  assert (Ha : <[a := set_revents e1 0]> (ents q1) !! a = Some (set_revents e1 0))
    by (apply list_lookup_insert_eq; by eapply lookup_lt_Some).
  exists (set_ents q1 (<[a := set_revents e1 0]> (ents q1))), (set_revents e1 0).
  split; [by eapply wf_update_free | split; [exact Ha | split; [done | split; [exact D1 | split]]]].
  - intros b x Hx. cbn [ents set_ents]. destruct (decide (b = a)) as [-> |].
    + exists (set_revents e1 0). split; [exact Ha |]. by simplify_eq.
    + destruct (same_ents_keys _ _ b x S1 Hx) as (x' & Hx' & K). exists x'. by rewrite list_lookup_insert_ne.
  - cbn [mbind option_bind]. unfold call_alarm. cbn [mbind option_bind].
    rewrite (modify_Some _ _ _ e1 He1). cbn [mbind option_bind ents set_ents]. rewrite Ha. cbn [mbind option_bind].
    change (has_function (set_revents e1 0)) with (has_function e1). by rewrite K3, Hf.
Qed.

(** What poll may do when no handle is ready: nothing but write the array. *)
Definition quiet (poll : list pollfd -> Z -> Z -> Z * list pollfd) : Prop := forall fs n ms, fst (poll fs n ms) <= 0.

Lemma fd_poll_quiet poll enxio bad callback now now' q q1 :
  quiet poll -> (next_alarm q <> None \/ next_deadline q <> None) ->
  move_due (length (ents q)) now q = Some q1 -> is_Some (poll_time now q1) ->
  exists fs, let q2 := set_fds q1 fs (fd_callbacks q1) (fdcount q1) in
    fd_poll poll enxio bad callback now now' q =
      match next_deadline q1 with
      | None => Some (1, q2)
      | Some a => _ ← ents q1 !! a; q3 ← (q' ← _unschedule q2 a; call_alarm callback q' (Some a) 0); Some (1, q3)
      end.
Proof.
  intros Hq Hne Hm [ms Hms]. unfold fd_poll.
  assert (bool_decide (next_alarm q = None) && bool_decide (next_deadline q = None) && (fdcount q =? 0) = false) as ->.
  { destruct Hne as [H | H]; [| rewrite (andb_comm (bool_decide (next_alarm q = None)))];
      rewrite (bool_decide_eq_false_2 _ H); done. }
  rewrite Hm. cbn [mbind option_bind]. rewrite Hms. cbn [mbind option_bind].
  destruct (if fdcount q1 =? 0 then _ else _) as [r fs] eqn:E. exists fs.
  assert (Hr : (0 <? r) = false).
  { apply Z.ltb_ge. destruct (fdcount q1 =? 0); [by injection E as <- |]. specialize (Hq (fds q1) (fdcount q1) ms).
    by rewrite E in Hq. }
  rewrite Hr. cbn [next_deadline set_fds ents]. destruct (next_deadline q1) as [a |]; [| done].
  destruct (ents q1 !! a) as [e |]; [| done]. cbn [mbind option_bind]. rewrite Z.eqb_refl, orb_true_r.
  destruct (_unschedule _ a) as [q2 |]; [| done]. cbn [mbind option_bind].
  by destruct (call_alarm callback q2 (Some a) 0).
Qed.

Lemma poll_time_defined now q la ld : queue_wf q la ld -> is_Some (poll_time now q).
Proof.
  intros W. unfold poll_time. rewrite (qw_deadline _ _ _ W), (qw_alarm _ _ _ W).
  destruct ld; [| by eexists]. destruct la as [| a la]; [by eexists |].
  destruct (qw_aseg _ _ _ W) as (e & He & _). cbn [head]. rewrite He. by eexists.
Qed.

(** The head of a list of the queue has the smallest key, also once it is unlinked. *)
Lemma head_earliest h h' a rest p n :
  seg h p (a :: rest) n -> sorted_by deadline_of h (a :: rest) ->
  (forall b x, h !! b = Some x -> exists x', h' !! b = Some x' /\ same_keys x x') ->
  Forall (fun b => key_at deadline_of h' a <= key_at deadline_of h' b) rest.
Proof.
  intros Hseg [_ Hf]%StronglySorted_inv Hk. rewrite Forall_forall in Hf |- *. intros b Hb. specialize (Hf b Hb).
  assert (Heq : forall c, c ∈ a :: rest -> key_at deadline_of h' c = key_at deadline_of h c).
  { intros c Hc. destruct (seg_lookup _ _ _ _ c Hseg Hc) as [x Hx]. destruct (Hk c x Hx) as (x' & Hx' & _ & K & _).
    by rewrite (key_at_Some _ _ _ _ Hx), (key_at_Some _ _ _ _ Hx'). }
  rewrite !Heq; [done | by right | by left].
Qed.

(** [C31] When alarms are waiting and no file handle is ready, one turn of the main loop moves
    exactly the alarms whose time has come to the deadline list, and then runs one function: that
    of the entry with the earliest deadline among all that are due, once it has been taken off the
    list.  It runs none if nothing is due.  The loop ends, and no entry is lost: those that are
    not run are still in the lists, with their times. *)
Theorem fd_poll_runs_earliest poll enxio bad callback now now' q la ld :
  queue_wf q la ld -> la ++ ld <> [] -> quiet poll ->
  (forall a e, ents q !! a = Some e -> a ∈ la ++ ld -> has_function e = true) ->
  exists q1 la1 la2 ld1, la = la1 ++ la2 /\ ld1 ≡ₚ la1 ++ ld /\
    Forall (fun a => key_at alarm (ents q) a <= now) la1 /\
    (forall a, head la2 = Some a -> now < key_at alarm (ents q) a) /\
    (forall b x, ents q !! b = Some x -> exists x', ents q1 !! b = Some x' /\ same_times x x') /\
    queue_wf q1 la2 (tail ld1) /\
    fd_poll poll enxio bad callback now now' q =
      match ld1 with
      | [] => Some (1, q1)
      | a :: rest => q2 ← callback a q1; Some (1, q2)
      end /\
    forall a rest, ld1 = a :: rest ->
      Forall (fun b => key_at deadline_of (ents q1) a <= key_at deadline_of (ents q1) b) rest.
Proof.
  intros W Hne Hq Hfun.
  destruct (move_due_spec now la (length (ents q)) q ld W) as (q0 & la1 & la2 & ld1 & Hm & -> & P1 & P2 & W0 & Pm & T0 & D0).
  { eapply seg_length; [| apply (qw_aseg _ _ _ W)]. pose proof (qw_nodup _ _ _ W) as Hnd. by apply NoDup_app in Hnd as (? & _). }
  destruct (fd_poll_quiet poll enxio bad callback now now' q q0 Hq) as [fs Hrun]; [| done | by eapply poll_time_defined |].
  { rewrite (qw_alarm _ _ _ W), (qw_deadline _ _ _ W). destruct (la1 ++ la2); [right | by left]. by destruct ld. }
  cbn zeta in Hrun. apply (wf_set_fds _ _ _ fs (fd_callbacks q0) (fdcount q0)) in W0 as W2.
  set (q2 := set_fds q0 fs (fd_callbacks q0) (fdcount q0)) in *. rewrite (qw_deadline _ _ _ W0) in Hrun.
  destruct ld1 as [| a rest]; cbn [head] in Hrun.
  { exists q2, la1, la2, []. split_and!; try done. intros b x Hx. by eapply times_kept_lookup. }
  destruct (qw_dseg _ _ _ W0) as (e0 & He0 & _). rewrite He0 in Hrun. cbn [mbind option_bind] in Hrun.
  destruct (seg_lookup _ _ _ _ a (qw_dseg _ _ _ W0)) as [ea Hea]; [by left |].
  assert (Hf0 : has_function e0 = true).
  { destruct (ents q !! a) as [e |] eqn:He.
    - destruct (times_kept_lookup _ _ a e T0 He) as (e' & He' & _ & _ & Hh). rewrite He0 in He'. injection He' as <-.
      rewrite Hh. apply (Hfun a e He). apply elem_of_app.
      assert (Hin : a ∈ la1 ++ ld) by (rewrite <- Pm; by left). apply elem_of_app in Hin as [? |?]; [left | by right].
      apply elem_of_app. by left.
    - apply lookup_ge_None in He. apply lookup_lt_Some in He0. destruct T0 as [Hl _]. lia. }
  destruct (call_next_deadline callback q2 la2 a rest e0 W2 He0 Hf0) as (q1 & e1 & W1 & He1 & _ & _ & K & Hc).
  rewrite Hc in Hrun. exists q1, la1, la2, (a :: rest). split_and!; try done.
  - intros b x Hx. destruct (times_kept_lookup _ _ b x T0 Hx) as (x0 & Hx0 & Tx).
    destruct (K b x0 Hx0) as (x' & Hx' & Kx). exists x'. split; [done |]. by eapply same_keys_times.
  - intros ? ? [= <- <-]. eapply head_earliest; [apply (qw_dseg _ _ _ W2) | apply (qw_dsorted _ _ _ W2) | exact K].
Qed.

(** ** The queue at the start *)

(** The static variables as they are at the start of the program, with the entries [es]. *)
Definition initial (es : list sched_ent) : fdqueue :=
  mk_queue es None None (replicate MAX_WATCHED_FDS (mk_pollfd 0 0 0)) (replicate MAX_WATCHED_FDS None) 0.

Definition fresh_ent (e : sched_ent) : Prop :=
  _next e = None /\ _prev e = None /\ has_function e = true /\ _poll_index e <= 0.

Lemma initial_wf es : Forall fresh_ent es -> queue_wf (initial es) [] [].
Proof.
  intros H. split; cbn; try done; try constructor.
  all: by destruct (Forall_lookup_1 _ _ _ _ H H0) as (? & ? & _).
Qed.

Definition sample_ents : list sched_ent :=
  [mk_ent None None true 5 1 0 100 0 0; mk_ent None None true 6 1 0 50 70 0; mk_ent None None true 7 1 0 60 65 0].

Lemma schedule_refines_witness :
  exists q' l1 l2, _schedule 10 (initial sample_ents) 1 = Some (0, q') /\
    scheduled_ents (initial sample_ents) q' 1 (mk_ent None None true 6 1 0 50 70 0) /\
    if 50 <=? 10 then [] = l1 ++ l2 /\ queue_wf q' [] (l1 ++ 1%nat :: l2)
    else [] = l1 ++ l2 /\ queue_wf q' (l1 ++ 1%nat :: l2) [].
Proof.
  apply (schedule_refines 10 (initial sample_ents) [] [] 1 (mk_ent None None true 6 1 0 50 70 0)).
  - apply initial_wf. repeat constructor; cbn; lia.
  - split; [apply not_elem_of_nil | reflexivity].
  - reflexivity.
Defined.

(** The second and the third entry wait for their times. *)
Definition sample_queue : fdqueue :=
  set_next_alarm (initial [mk_ent None None true 5 1 0 100 0 0; mk_ent (Some 2%nat) None true 6 1 0 50 70 0;
                           mk_ent None (Some 1%nat) true 7 1 0 60 65 0]) (Some 1%nat).

Lemma sample_queue_wf : queue_wf sample_queue [1; 2]%nat [].
Proof.
  split; try done.
  - cbn [seg]. eexists. split; [reflexivity | split; [done | split; [done |]]]. eexists. done.
  - apply (bool_decide_unpack _). vm_compute. exact I.
  - intros [| [| [| a]]] e He Ha; [injection He as <-; done | | | done]; exfalso; apply Ha; set_solver.
  - repeat constructor; cbn; lia.
  - constructor.
Qed.

Lemma fd_poll_runs_earliest_witness :
  exists q1 la1 la2 ld1, [1; 2]%nat = la1 ++ la2 /\ ld1 ≡ₚ la1 ++ [] /\
    Forall (fun a => key_at alarm (ents sample_queue) a <= 55) la1 /\
    (forall a, head la2 = Some a -> 55 < key_at alarm (ents sample_queue) a) /\
    (forall b x, ents sample_queue !! b = Some x -> exists x', ents q1 !! b = Some x' /\ same_times x x') /\
    queue_wf q1 la2 (tail ld1) /\
    fd_poll (fun fs _ _ => (0, fs)) (fun _ => false) (fun _ => false) (fun _ q => Some q) 55 55 sample_queue =
      match ld1 with
      | [] => Some (1, q1)
      | a :: rest => q2 ← Some q1; Some (1, q2)
      end /\
    forall a rest, ld1 = a :: rest ->
      Forall (fun b => key_at deadline_of (ents q1) a <= key_at deadline_of (ents q1) b) rest.
Proof.
  apply (fd_poll_runs_earliest (fun fs _ _ => (0, fs)) (fun _ => false) (fun _ => false) (fun _ q => Some q) 55 55
           sample_queue [1; 2]%nat []).
  - apply sample_queue_wf.
  - done.
  - intros fs n ms. cbn. lia.
  - intros [| [| [| a]]] e He _; [injection He as <- | injection He as <- | injection He as <- | done]; reflexivity.
Defined.
