(* ===== verification/FdqueueInv.v ===== *)
(** FdqueueInv: the invariant of fdqueue.c under every operation, watched handles included. *)

From S2P Require Import Prelude Fdqueue.

(** ** The watched file handles *)

(** The handle [i] of the arrays is that of the entry [a], which knows its place. *)
Definition watched_at (q : fdqueue) (i a : nat) : Prop :=
  fd_callbacks q !! i = Some (Some a) /\
  exists e f, ents q !! a = Some e /\ fds q !! i = Some f /\ _poll_index e = Z.of_nat i /\ p_fd f = fd e.

Record watch_wf (q : fdqueue) : Prop := {
  ww_fds : length (fds q) = MAX_WATCHED_FDS;
  ww_callbacks : length (fd_callbacks q) = MAX_WATCHED_FDS;
  ww_count : 0 <= fdcount q <= Z.of_nat MAX_WATCHED_FDS;
  ww_index : forall a e, ents q !! a = Some e -> _poll_index e < Z.of_nat MAX_WATCHED_FDS;
  ww_used : forall i, Z.of_nat i < fdcount q -> exists a, watched_at q i a;
  ww_free : forall i, fdcount q <= Z.of_nat i -> (i < MAX_WATCHED_FDS)%nat -> fd_callbacks q !! i = Some None
}.

Definition watched (q : fdqueue) (a : nat) : Prop := exists i, fd_callbacks q !! i = Some (Some a).

#[export] Instance watched_dec q a : Decision (watched q a).
Proof.
  destruct (decide (Some a ∈ fd_callbacks q)) as [H | H]; [left | right; intros [i Hi]; apply H];
    [by apply list_elem_of_lookup_1 in H | by eapply list_elem_of_lookup_2].
Defined.

Lemma callback_used q i a : watch_wf q -> fd_callbacks q !! i = Some (Some a) -> Z.of_nat i < fdcount q /\ watched_at q i a.
Proof.
  intros W H. assert (Hi : Z.of_nat i < fdcount q).
  { destruct (Z.lt_ge_cases (Z.of_nat i) (fdcount q)) as [| Hge]; [done |]. apply lookup_lt_Some in H as Hl.
    rewrite (ww_callbacks _ W) in Hl. rewrite (ww_free _ W i Hge Hl) in H. done. }
  split; [done |]. destruct (ww_used _ W i Hi) as (b & Hb & Hrest). rewrite H in Hb. injection Hb as <-. done.
Qed.

(** A handle is watched once. *)
Lemma watched_once q i j a :
  watch_wf q -> fd_callbacks q !! i = Some (Some a) -> fd_callbacks q !! j = Some (Some a) -> i = j.
Proof.
  intros W Hi Hj. destruct (callback_used q i a W Hi) as (_ & _ & e & _ & He & _ & Ei & _).
  destruct (callback_used q j a W Hj) as (_ & _ & e' & _ & He' & _ & Ej & _). simplify_eq. lia.
Qed.

(** Changes of the lists do not matter to the handles. *)
Lemma watch_wf_same q q' :
  watch_wf q -> same_fds q q' -> length (ents q') = length (ents q) ->
  (forall a e, ents q !! a = Some e -> exists e', ents q' !! a = Some e' /\ fd e' = fd e /\ _poll_index e' = _poll_index e) ->
  watch_wf q' /\ forall a, watched q' a <-> watched q a.
Proof.
  intros [W1 W2 W3 W4 W5 W6] (D1 & D2 & D3) Hl He. split; [| intros a; unfold watched; by rewrite D2].
  split; rewrite ?D1, ?D2, ?D3; try done.
  - intros a e' He'. destruct (lookup_lt_is_Some_2 (ents q) a) as [e Ha]; [apply lookup_lt_Some in He'; lia |].
    destruct (He a e Ha) as (e'' & He'' & _ & Ei). simplify_eq. rewrite Ei. by eapply W4.
  - intros i Hi. destruct (W5 i Hi) as (a & Hc & e & f & Ha & Hf & Ei & Ef).
    destruct (He a e Ha) as (e' & He' & Efd & Epi). exists a. split; [by rewrite D2 |].
    exists e', f. rewrite D1. split_and!; congruence.
Qed.

(** Changes of the handles do not matter to the lists. *)
Definition same_links (e e' : sched_ent) : Prop :=
  _next e' = _next e /\ _prev e' = _prev e /\ alarm e' = alarm e /\ deadline_of e' = deadline_of e /\
  has_function e' = has_function e /\ fd e' = fd e.

Record lists_kept (q q' : fdqueue) : Prop := {
  lk_alarm : next_alarm q' = next_alarm q;
  lk_deadline : next_deadline q' = next_deadline q;
  lk_length : length (ents q') = length (ents q);
  lk_ents : forall a e, ents q !! a = Some e -> exists e', ents q' !! a = Some e' /\ same_links e e'
}.

Lemma lists_kept_refl q : lists_kept q q.
Proof. split; try done. intros a e He. by exists e. Qed.

Lemma lists_kept_trans q1 q2 q3 : lists_kept q1 q2 -> lists_kept q2 q3 -> lists_kept q1 q3.
Proof.
  intros [A1 A2 A3 A4] [B1 B2 B3 B4]. split; try congruence. intros a e He.
  destruct (A4 a e He) as (e1 & He1 & ?&?&?&?&?&?), (B4 a e1 He1) as (e2 & He2 & ?&?&?&?&?&?).
  exists e2. split; [done |]. repeat split; congruence.
Qed.

Lemma lists_kept_update q a e e' f cb n :
  ents q !! a = Some e -> same_links e e' ->
  lists_kept q (set_fds (set_ents q (<[a := e']> (ents q))) f cb n).
Proof.
  intros He Hs. split; try done; [apply length_insert |]. intros b x Hx. cbn [ents set_fds set_ents].
  destruct (decide (b = a)) as [-> |]; [| exists x; by rewrite list_lookup_insert_ne].
  exists e'. rewrite list_lookup_insert_eq by (by eapply lookup_lt_Some). by simplify_eq.
Qed.

Lemma seg_kept h h' l : forall p n,
  (forall a e, h !! a = Some e -> exists e', h' !! a = Some e' /\ same_links e e') -> seg h p l n -> seg h' p l n.
Proof.
  induction l as [| a l IH]; intros p n Hk; [done |]. rewrite !seg_cons. intros (e & He & Hp & Hn & Hs).
  destruct (Hk a e He) as (e' & He' & Sn & Sp & _). exists e'. split_and!; [done | congruence | congruence | by apply IH].
Qed.

Lemma sorted_kept (key : sched_ent -> Z) h h' l p n :
  (forall e e', same_links e e' -> key e' = key e) ->
  (forall a e, h !! a = Some e -> exists e', h' !! a = Some e' /\ same_links e e') ->
  seg h p l n -> sorted_by key h l -> sorted_by key h' l.
Proof.
  intros Hkey Hk Hseg. assert (Hd : Forall (fun a => key_at key h' a = key_at key h a) l).
  { apply Forall_forall. intros a Ha. destruct (seg_lookup _ _ _ _ a Hseg Ha) as [e He].
    destruct (Hk a e He) as (e' & He' & Hs). rewrite (key_at_Some _ _ _ _ He), (key_at_Some _ _ _ _ He'). by apply Hkey. }
  clear Hseg. unfold sorted_by. induction 1 as [| a l _ IH Hf]; [constructor |].
  apply Forall_cons in Hd as [Ha Hd]. constructor; [by apply IH |].
  rewrite Forall_forall in Hf, Hd |- *. intros b Hb. rewrite Ha, (Hd b Hb). auto.
Qed.

Lemma queue_wf_kept q q' la ld : lists_kept q q' -> queue_wf q la ld -> queue_wf q' la ld.
Proof.
  intros [K1 K2 K3 K4] [W1 W2 W3 W4 W5 W6 W7 W8]. split; try congruence; try (by eapply seg_kept).
  - intros a e' He' Ha. destruct (lookup_lt_is_Some_2 (ents q) a) as [e He]; [apply lookup_lt_Some in He'; lia |].
    destruct (K4 a e He) as (e'' & He'' & Hn & Hp & _), (W6 a e He Ha). simplify_eq. split; congruence.
  - eapply (sorted_kept alarm); [by intros ?? (?&?&?&?) | exact K4 | exact W3 | exact W7].
  - eapply (sorted_kept deadline_of); [by intros ?? (?&?&?&?&?) | exact K4 | exact W4 | exact W8].
Qed.

(** ** Watching *)

(** A new handle goes to the end of the arrays. *)
Lemma add_handle q a e n :
  watch_wf q -> ents q !! a = Some e -> ~ watched q a -> fdcount q = Z.of_nat n -> (n < MAX_WATCHED_FDS)%nat ->
  let e' := set_poll_index (set_revents e 0) (Z.of_nat n) in
  let q' := set_fds (set_ents q (<[a := e']> (ents q))) (<[n := to_pollfd e']> (fds q))
              (<[n := Some a]> (fd_callbacks q)) (fdcount q + 1) in
  watch_wf q' /\ forall b, watched q' b <-> watched q b \/ b = a.
Proof.
  intros W He Ha En Hn e' q'. pose proof W as [W1 W2 W3 W4 W5 W6].
  assert (Hb : forall i b, Z.of_nat i < fdcount q -> watched_at q i b -> watched_at q' i b).
  { intros i b Hi (Hc & x & f & Hx & Hf & Ei & Ef). split; [cbn; rewrite list_lookup_insert_ne by lia; done |].
    exists x, f. cbn. assert (b <> a) by (intros ->; apply Ha; by exists i).
    rewrite !list_lookup_insert_ne by (done || lia). done. }
  assert (Hat : watched_at q' n a).
  { split; [cbn; apply list_lookup_insert_eq; lia |]. exists e', (to_pollfd e'). cbn.
    rewrite !list_lookup_insert_eq by (lia || by eapply lookup_lt_Some). done. }
  split.
  - split; cbn [fds fd_callbacks fdcount ents q' set_fds set_ents]; rewrite ?length_insert; try done; [lia | | |].
    + intros b x Hx. destruct (decide (b = a)) as [-> |].
      * rewrite list_lookup_insert_eq in Hx by (by eapply lookup_lt_Some). injection Hx as <-. cbn. lia.
      * rewrite list_lookup_insert_ne in Hx by done. by eapply W4.
    + intros i Hi. destruct (decide (i = n)) as [-> |]; [by exists a |].
      destruct (W5 i ltac:(lia)) as [b Hbb]. exists b. apply Hb; [lia | done].
    + intros i Hi Hl. rewrite list_lookup_insert_ne by lia. apply W6; [lia | done].
  - intros b. unfold watched. cbn. split.
    + intros [i Hi]. destruct (decide (i = n)) as [-> | Hne].
      * rewrite list_lookup_insert_eq in Hi by lia. right. by simplify_eq.
      * rewrite list_lookup_insert_ne in Hi by done. left. by exists i.
    + intros [[i Hi] | ->]; [| exists n; apply list_lookup_insert_eq; lia].
      destruct (callback_used q i b W Hi) as [Hlt _]. exists i. rewrite list_lookup_insert_ne by lia. done.
Qed.

Lemma watch_spec q a e :
  watch_wf q -> ents q !! a = Some e -> has_function e = true ->
  (exists q', _watch q a = Some (0, q') /\ watch_wf q' /\ lists_kept q q' /\ (forall b, watched q' b <-> watched q b \/ b = a) /\
    fdcount q' = if decide (watched q a) then fdcount q else fdcount q + 1) \/
  (_watch q a = Some (-1, q) /\ fdcount q = Z.of_nat MAX_WATCHED_FDS /\ ~ watched q a).
Proof.
  intros W He Hf. pose proof W as [W1 W2 W3 W4 W5 W6]. unfold _watch. rewrite He. cbn [mbind option_bind]. rewrite Hf. cbn [negb].
  pose proof (W4 a e He) as Hix.
  destruct (decide (watched q a)) as [[i Hi] | Hna].
  - left. destruct (callback_used q i a W Hi) as (Hlt & _ & e' & f & He' & Hff & Ei & Ef). rewrite He in He'. injection He' as <-.
    rewrite Ei, zget_of_nat, Hi. zdecide. cbn [mbind option_bind]. rewrite bool_decide_eq_true_2 by done.
    rewrite zset_of_nat by (rewrite W1; lia). cbn [mbind option_bind]. eexists. split; [done |].
    assert (Hkeep : forall j b, watched_at q j b -> watched_at (set_fds q (<[i := to_pollfd e]> (fds q)) (fd_callbacks q) (fdcount q)) j b).
    { intros j b (Hc & x & fx & Hx & Hfx & Ex & Efx). split; [done |].
      destruct (decide (j = i)) as [-> |].
      - exists x, (to_pollfd e). cbn. rewrite list_lookup_insert_eq by lia. by simplify_eq.
      - exists x, fx. cbn. by rewrite list_lookup_insert_ne. }
    split; [| split; [| split]].
    + split; cbn [fds fd_callbacks fdcount ents set_fds]; rewrite ?length_insert; try done.
      intros j Hj. destruct (W5 j Hj) as [b Hb]. exists b. by apply Hkeep.
    + split; try done. intros b x Hx. by exists x.
    + intros b. cbn. split; [by left | intros [? | ->]; [done | by exists i]].
    + done.
  - assert (Hno : (known ← (if 0 <=? _poll_index e
             then cb ← zget (fd_callbacks q) (_poll_index e); Some (bool_decide (cb = Some a))
             else Some false); Some known) = Some false).
    { destruct (Z.leb_spec 0 (_poll_index e)); [| done].
      replace (_poll_index e) with (Z.of_nat (Z.to_nat (_poll_index e))) by lia. rewrite zget_of_nat.
      destruct (fd_callbacks q !! Z.to_nat (_poll_index e)) as [cb |] eqn:Ec.
      - cbn. rewrite bool_decide_eq_false_2; [done |]. intros ->. apply Hna. by eexists.
      - apply lookup_ge_None in Ec. lia. }
    destruct (if 0 <=? _poll_index e then _ else _) as [known |]; [| done]. cbn in Hno. injection Hno as ->. cbn [mbind option_bind].
    destruct (Z.leb_spec (Z.of_nat MAX_WATCHED_FDS) (fdcount q)); [right; split_and!; [done | lia | done] |].
    left. set (n := Z.to_nat (fdcount q)). assert (En : fdcount q = Z.of_nat n) by lia.
    rewrite En, !zset_of_nat by lia. cbn [mbind option_bind]. eexists. split; [done |].
    destruct (add_handle q a e n W He Hna En ltac:(lia)) as [Wq Hq]. rewrite En in Wq, Hq.
    split; [exact Wq | split; [by eapply lists_kept_update | split; [exact Hq |]]].
    done.
Qed.

(** ** Unwatching *)

(** What unwatching [a] at [i] makes of the arrays: the last handle, of [b], takes its place. *)
Definition squashed (q : fdqueue) (a i n b : nat) (ea eb : sched_ent) (fn : pollfd) : fdqueue :=
  set_fds (set_ents q (<[a := set_poll_index ea (-1)]> (<[b := set_poll_index eb (Z.of_nat i)]> (ents q))))
    (<[n := mk_pollfd (-1) (p_events fn) (p_revents fn)]> (<[i := fn]> (fds q)))
    (<[n := None]> (<[i := Some b]> (fd_callbacks q))) (Z.of_nat n).

Lemma set_poll_index_twice e x y : set_poll_index (set_poll_index e x) y = set_poll_index e y.
Proof. done. Qed.

Lemma set_poll_index_id e x : _poll_index e = x -> set_poll_index e x = e.
Proof. intros <-. by destruct e. Qed.

Lemma squash_wf q a i n b ea eb fn :
  watch_wf q -> fdcount q = Z.of_nat n + 1 -> watched_at q i a -> watched_at q n b ->
  ents q !! a = Some ea -> ents q !! b = Some eb -> fds q !! n = Some fn -> Z.of_nat i < fdcount q ->
  watch_wf (squashed q a i n b ea eb fn) /\ forall c, watched (squashed q a i n b ea eb fn) c <-> watched q c /\ c <> a.
Proof.
  intros W En Wa Wb Ha Hb Hfn Hi. pose proof W as [W1 W2 W3 W4 W5 W6].
  pose proof (lookup_lt_Some _ _ _ Ha) as La. pose proof (lookup_lt_Some _ _ _ Hb) as Lb.
  pose proof Wa as [Ca _]. pose proof Wb as [Cb (eb' & fn' & Hb' & Hfn' & Eb & Fb)]. simplify_eq.
  assert (Hba : b = a <-> i = n).
  { split; [intros ->; by eapply (watched_once q i n a) | intros ->; congruence]. }
  assert (Hcb : forall j, j <> n -> j <> i -> fd_callbacks (squashed q a i n b ea eb fn) !! j = fd_callbacks q !! j)
    by (intros j ? ?; cbn; by rewrite !list_lookup_insert_ne).
  assert (Hcn : fd_callbacks (squashed q a i n b ea eb fn) !! n = Some None)
    by (cbn; apply list_lookup_insert_eq; rewrite length_insert; lia).
  assert (Hci : i <> n -> fd_callbacks (squashed q a i n b ea eb fn) !! i = Some (Some b))
    by (intros ?; cbn; rewrite list_lookup_insert_ne by done; apply list_lookup_insert_eq; lia).
  split.
  - split; cbn [fds fd_callbacks fdcount ents set_fds set_ents squashed]; rewrite ?length_insert; try done; [lia | | |].
    + intros c x Hx. destruct (decide (c = a)) as [-> | Hca].
      { rewrite list_lookup_insert_eq in Hx by (by rewrite length_insert). injection Hx as <-. cbn. lia. }
      rewrite list_lookup_insert_ne in Hx by done. destruct (decide (c = b)) as [-> | Hcb'].
      { rewrite list_lookup_insert_eq in Hx by done. injection Hx as <-. cbn. lia. }
      rewrite list_lookup_insert_ne in Hx by done. by eapply W4.
    + intros j Hj. destruct (decide (j = i)) as [-> | Hji].
      * exists b. split; [apply Hci; lia |]. exists (set_poll_index eb (Z.of_nat i)), fn. cbn.
        rewrite !(list_lookup_insert_ne _ n i) by lia. rewrite (list_lookup_insert_ne _ a b) by (intros ->; lia).
        rewrite !list_lookup_insert_eq by lia. done.
      * destruct (W5 j ltac:(lia)) as (c & Hc & x & f & Hx & Hf & Ex & Ef). exists c.
        assert (c <> a) by (intros ->; apply Hji; by eapply (watched_once q j i a)).
        assert (c <> b) by (intros ->; enough (j = n) by lia; by eapply (watched_once q j n b)).
        split; [rewrite Hcb by lia; done |]. exists x, f. cbn. rewrite !list_lookup_insert_ne by (done || lia). done.
    + intros j Hj Hl. destruct (decide (j = n)) as [-> | Hjn]; [exact Hcn |].
      rewrite !list_lookup_insert_ne by lia. apply W6; [lia | done].
  - intros c. split.
    + intros [j Hj]. destruct (decide (j = n)) as [-> | Hjn]; [congruence |].
      destruct (decide (j = i)) as [-> | Hji].
      * rewrite Hci in Hj by done. injection Hj as <-. split; [by exists n | intros ->; apply Hjn; by apply Hba].
      * rewrite Hcb in Hj by done. split; [by exists j |]. intros ->. apply Hji. by eapply (watched_once q j i a).
    + intros [[j Hj] Hca]. destruct (decide (j = n)) as [-> | Hjn].
      * rewrite Cb in Hj. injection Hj as <-. exists i. apply Hci. intros ->. by apply Hca, Hba.
      * exists j. rewrite Hcb; [done | done |]. intros ->. congruence.
Qed.

Lemma unwatch_spec q a :
  watch_wf q -> watched q a ->
  exists q', _unwatch q a = Some (0, q') /\ watch_wf q' /\ lists_kept q q' /\
    (forall b, watched q' b <-> watched q b /\ b <> a) /\ fdcount q' = fdcount q - 1.
Proof.
  intros W [i Hi]. destruct (callback_used q i a W Hi) as (Hlt & Wa). pose proof Wa as (_ & ea & fi & Ha & Hfi & Ei & Ef).
  pose proof W as [W1 W2 W3 W4 W5 W6]. set (n := Z.to_nat (fdcount q - 1)).
  assert (En : fdcount q - 1 = Z.of_nat n) by lia. destruct (W5 n ltac:(lia)) as [b Wb].
  pose proof Wb as (Cb & eb & fn & Hb & Hfn & Eb & Fb).
  pose proof (lookup_lt_Some _ _ _ Ha) as La. pose proof (lookup_lt_Some _ _ _ Hb) as Lb.
  assert (E : _unwatch q a = Some (0, squashed q a i n b ea eb fn)).
  { unfold _unwatch. rewrite Ha. cbn [mbind option_bind]. rewrite Ei, zget_of_nat, Hfi. zdecide. cbn [mbind option_bind].
    rewrite Ef, Z.eqb_refl, En. cbn [negb]. destruct (Z.eqb_spec (Z.of_nat i) (Z.of_nat n)) as [Ein | Hin]; cbn [negb].
    - assert (i = n) as -> by lia. rewrite Hi in Cb. injection Cb as <-. rewrite Ha in Hb. injection Hb as <-. rewrite Hfn in Hfi. injection Hfi as <-. cbn [mbind option_bind fds fd_callbacks set_fds].
      rewrite zget_of_nat, Hfn. cbn [mbind option_bind]. rewrite !zset_of_nat by lia. cbn [mbind option_bind].
      unfold modify. cbn [ents set_fds]. rewrite Ha. cbn [mbind option_bind]. unfold squashed.
      rewrite (set_poll_index_id ea (Z.of_nat n)) by done. by rewrite !(list_insert_id _ _ _ Ha), (list_insert_id _ _ _ Hfn), (list_insert_id _ _ _ Hi).
    - rewrite !zget_of_nat, Hfn, Cb. cbn [mbind option_bind]. rewrite !zset_of_nat by lia. cbn [mbind option_bind].
      unfold modify. cbn [ents set_fds]. rewrite Hb. cbn [mbind option_bind fds fd_callbacks set_fds set_ents].
      rewrite zget_of_nat, list_lookup_insert_ne, Hfn by lia. cbn [mbind option_bind].
      rewrite !zset_of_nat by (rewrite length_insert; lia). cbn [mbind option_bind ents set_fds set_ents].
      assert (b <> a) by (intros ->; apply Hin; by rewrite (watched_once q i n a W Hi Cb)).
      rewrite list_lookup_insert_ne by done. rewrite Ha. done. }
  exists (squashed q a i n b ea eb fn). split; [done |].
  destruct (squash_wf q a i n b ea eb fn W ltac:(lia) Wa Wb Ha Hb Hfn Hlt) as [Wq Hq]. split; [done |]. split; [| split; [done | by rewrite En]].
  split; try done; [cbn; by rewrite !length_insert |]. intros c x Hx. cbn [ents squashed set_fds set_ents].
  destruct (decide (c = a)) as [-> |].
  { exists (set_poll_index ea (-1)). rewrite list_lookup_insert_eq by (by rewrite length_insert). by simplify_eq. }
  rewrite list_lookup_insert_ne by done. destruct (decide (c = b)) as [-> |].
  { exists (set_poll_index eb (Z.of_nat i)). rewrite list_lookup_insert_eq by done. by simplify_eq. }
  exists x. by rewrite list_lookup_insert_ne.
Qed.

(** * Operations as a whole *)

Inductive op := Schedule (now : Z) (a : nat) | Unschedule (a : nat) | Watch (a : nat) | Unwatch (a : nat).

Definition run_op (q : fdqueue) (o : op) : option (Z * fdqueue) :=
  match o with
  | Schedule now a => _schedule now q a
  | Unschedule a => q ← _unschedule q a; Some (0, q)
  | Watch a => _watch q a
  | Unwatch a => _unwatch q a
  end.

Fixpoint run_ops (q : fdqueue) (os : list op) : option (list Z * fdqueue) :=
  match os with
  | [] => Some ([], q)
  | o :: os => '(r, q) ← run_op q o; '(rs, q) ← run_ops q os; Some (r :: rs, q)
  end.

(** The abstract queue: the entries that are scheduled and those that are watched. *)
Record sets := mk_sets { scheduled : gset nat; watching : gset nat }.

Definition spec_op (s : sets) (o : op) : Z * sets :=
  match o with
  | Schedule _ a => (0, mk_sets (scheduled s ∪ {[a]}) (watching s))
  | Unschedule a => (0, mk_sets (scheduled s ∖ {[a]}) (watching s))
  | Watch a =>
      if bool_decide ((a ∉ watching s) /\ size (watching s) = MAX_WATCHED_FDS) then (-1, s)
      else (0, mk_sets (scheduled s) (watching s ∪ {[a]}))
  | Unwatch a => (0, mk_sets (scheduled s) (watching s ∖ {[a]}))
  end.

Fixpoint spec_ops (s : sets) (os : list op) : list Z * sets :=
  match os with
  | [] => ([], s)
  | o :: os => let '(r, s) := spec_op s o in let '(rs, s) := spec_ops s os in (r :: rs, s)
  end.

(** What callers must respect: the [n] entries there are; no entry scheduled twice, no handle
    unwatched that is not watched. *)
Definition allowed (n : nat) (s : sets) (o : op) : bool :=
  match o with
  | Schedule _ a => bool_decide (a < n)%nat && bool_decide (a ∉ scheduled s)
  | Unschedule a | Watch a => bool_decide (a < n)%nat
  | Unwatch a => bool_decide (a < n)%nat && bool_decide (a ∈ watching s)
  end.

Fixpoint all_allowed (n : nat) (s : sets) (os : list op) : bool :=
  match os with
  | [] => true
  | o :: os => allowed n s o && all_allowed n (snd (spec_op s o)) os
  end.

Record represents (n : nat) (q : fdqueue) (s : sets) : Prop := {
  rp_lists : exists la ld, queue_wf q la ld /\ forall a, a ∈ scheduled s <-> a ∈ la ++ ld;
  rp_watch : watch_wf q;
  rp_watched : forall a, a ∈ watching s <-> watched q a;
  rp_count : fdcount q = Z.of_nat (size (watching s));
  rp_length : length (ents q) = n;
  rp_function : forall a e, ents q !! a = Some e -> has_function e = true
}.

(** The entries of the state are as they were, up to links, handles and deadlines. *)
Lemma functions_kept (n : nat) q q' :
  length (ents q) = n -> length (ents q') = n ->
  (forall a e, ents q !! a = Some e -> exists e', ents q' !! a = Some e' /\ has_function e' = has_function e) ->
  (forall a e, ents q !! a = Some e -> has_function e = true) ->
  forall a e, ents q' !! a = Some e -> has_function e = true.
Proof.
  intros L L' Hk Hf a e' He'. destruct (lookup_lt_is_Some_2 (ents q) a) as [e He]; [apply lookup_lt_Some in He'; lia |].
  destruct (Hk a e He) as (e'' & He'' & E). simplify_eq. rewrite E. by eapply Hf.
Qed.

Lemma represents_lists n q q' s s' la ld :
  represents n q s -> same_fds q q' -> watching s' = watching s ->
  queue_wf q' la ld -> (forall a, a ∈ scheduled s' <-> a ∈ la ++ ld) -> length (ents q') = length (ents q) ->
  (forall a e, ents q !! a = Some e -> exists e', ents q' !! a = Some e' /\
     has_function e' = has_function e /\ fd e' = fd e /\ _poll_index e' = _poll_index e) ->
  represents n q' s'.
Proof.
  intros [R1 R2 R3 R4 R5 R6] D Ew Wf Hs Hl Hk.
  destruct (watch_wf_same q q' R2 D Hl) as [W' Hw].
  { intros a e He. destruct (Hk a e He) as (e' & ? & ? & ? & ?). by exists e'. }
  split; [by exists la, ld | done | intros a; by rewrite Ew, R3, Hw | | congruence |].
  - destruct D as (_ & _ & ->). by rewrite Ew.
  - eapply (functions_kept n q q'); [done | congruence | | done].
    intros a e He. destruct (Hk a e He) as (e' & ? & ? & _). by exists e'.
Qed.

Lemma represents_watch n q q' s s' :
  represents n q s -> lists_kept q q' -> scheduled s' = scheduled s -> watch_wf q' ->
  (forall a, a ∈ watching s' <-> watched q' a) -> fdcount q' = Z.of_nat (size (watching s')) ->
  represents n q' s'.
Proof.
  intros [(la & ld & W & Hs) R2 R3 R4 R5 R6] K Es W' Hw Hc.
  split; [| done | done | done | rewrite (lk_length _ _ K); done |].
  - exists la, ld. split; [by eapply queue_wf_kept | by rewrite Es].
  - eapply (functions_kept n q q'); [done | by rewrite (lk_length _ _ K) | | done].
    intros a e He. destruct (lk_ents _ _ K a e He) as (e' & ? & ?&?&?&?&?&?). by exists e'.
Qed.

Lemma op_schedule n q s now a :
  represents n q s -> allowed n s (Schedule now a) = true ->
  exists q', _schedule now q a = Some (0, q') /\ represents n q' (mk_sets (scheduled s ∪ {[a]}) (watching s)).
Proof.
  intros R [Hn%bool_decide_eq_true Hs%bool_decide_eq_true]%andb_true_iff. pose proof R as [(la & ld & W & Hin) R2 R3 R4 R5 R6].
  destruct (lookup_lt_is_Some_2 (ents q) a ltac:(lia)) as [e He].
  assert (F : free_ent q la ld a e) by (split; [by rewrite <- Hin | done]).
  destruct (schedule_spec now q la ld a e W F (R6 a e He)) as (q' & l1 & l2 & Er & [S D] & Hl). exists q'. split; [done |].
  assert (Hk : forall b x, ents q !! b = Some x -> exists x', ents q' !! b = Some x' /\
     has_function x' = has_function x /\ fd x' = fd x /\ _poll_index x' = _poll_index x).
  { intros b x Hx.
    assert (Hb : exists x0, <[a := checked e]> (ents q) !! b = Some x0 /\
      has_function x0 = has_function x /\ fd x0 = fd x /\ _poll_index x0 = _poll_index x).
    { destruct (decide (b = a)) as [-> |].
      - exists (checked e). rewrite list_lookup_insert_eq by (by eapply lookup_lt_Some). simplify_eq.
        unfold checked. destruct (deadline_of e <? alarm e); auto.
      - exists x. by rewrite list_lookup_insert_ne. }
    destruct Hb as (x0 & Hx0 & F1 & F2 & F3). destruct (proj2 S b x0 Hx0) as (x' & Hx' & Es). exists x'. split; [done |].
    rewrite <- F1, <- F2, <- F3. split; [exact (f_equal has_function Es) | split; [exact (f_equal fd Es) | exact (f_equal _poll_index Es)]]. }
  assert (Hlen : length (ents q') = length (ents q)) by (destruct S as [-> _]; apply length_insert).
  destruct (alarm e <=? now); destruct Hl as [-> W'];
    (eapply (represents_lists n q); [exact R | exact D | done | exact W' | | exact Hlen | exact Hk]);
    intros b; cbn [scheduled]; rewrite elem_of_union, elem_of_singleton, Hin;
    rewrite !elem_of_app, elem_of_cons; tauto.
Qed.

Lemma op_unschedule n q s a :
  represents n q s -> allowed n s (Unschedule a) = true ->
  exists q', _unschedule q a = Some q' /\ represents n q' (mk_sets (scheduled s ∖ {[a]}) (watching s)).
Proof.
  intros R Hn%bool_decide_eq_true. pose proof R as [(la & ld & W & Hin) R2 R3 R4 R5 R6].
  destruct (unschedule_spec q la ld a W (lookup_lt_is_Some_2 (ents q) a ltac:(lia))) as (q' & Er & W' & S & D).
  exists q'. split; [done |]. eapply (represents_lists n q); [exact R | exact D | done | exact W' | | apply S |].
  - intros b. cbn [scheduled]. rewrite elem_of_difference, elem_of_singleton, Hin.
    unfold without. rewrite !elem_of_app, !list_elem_of_filter. tauto.
  - intros b x Hx. destruct (proj2 S b x Hx) as (x' & Hx' & Es). exists x'. split; [done |].
    split; [exact (f_equal has_function Es) | split; [exact (f_equal fd Es) | exact (f_equal _poll_index Es)]].
Qed.

Lemma op_watch n q s a :
  represents n q s -> allowed n s (Watch a) = true ->
  let '(r, s') := spec_op s (Watch a) in exists q', _watch q a = Some (r, q') /\ represents n q' s'.
Proof.
  intros R Hn%bool_decide_eq_true. pose proof R as [_ R2 R3 R4 R5 R6]. cbn [spec_op].
  destruct (lookup_lt_is_Some_2 (ents q) a ltac:(lia)) as [e He].
  destruct (watch_spec q a e R2 He (R6 a e He)) as [(q' & Er & W' & K & Hw & Hc) | (Er & Hc & Hnw)].
  - assert (bool_decide ((a ∉ watching s) /\ size (watching s) = MAX_WATCHED_FDS) = false) as ->.
    { apply bool_decide_eq_false_2. intros [Ha Hsz]. pose proof (ww_count _ W'). rewrite R3 in Ha.
      rewrite decide_False in Hc by done. lia. }
    exists q'. split; [done |]. eapply (represents_watch n q); [exact R | exact K | done | exact W' | |]; cbn [watching].
    + intros b. rewrite elem_of_union, elem_of_singleton, Hw, R3. done.
    + rewrite Hc, R4. destruct (decide (watched q a)) as [Ha | Ha]; rewrite <- R3 in Ha.
      * replace (watching s ∪ {[a]}) with (watching s) by (apply set_eq; intros b; rewrite elem_of_union, elem_of_singleton; split; [tauto | intros [? | ->]; assumption]). done.
      * rewrite size_union by (clear -Ha; set_solver). rewrite size_singleton. lia.
  - rewrite bool_decide_eq_true_2; [by exists q |]. rewrite R3. split; [done | lia].
Qed.

Lemma op_unwatch n q s a :
  represents n q s -> allowed n s (Unwatch a) = true ->
  exists q', _unwatch q a = Some (0, q') /\ represents n q' (mk_sets (scheduled s) (watching s ∖ {[a]})).
Proof.
  intros R [_ Ha%bool_decide_eq_true]%andb_true_iff. pose proof R as [_ R2 R3 R4 R5 R6].
  destruct (unwatch_spec q a R2 ltac:(by apply R3)) as (q' & Er & W' & K & Hw & Hc). exists q'. split; [done |].
  eapply (represents_watch n q); [exact R | exact K | done | exact W' | |]; cbn [watching].
  - intros b. rewrite elem_of_difference, elem_of_singleton, Hw, R3. done.
  - rewrite Hc, R4, size_difference by (clear -Ha; set_solver). rewrite size_singleton.
    assert (size (watching s) <> 0)%nat by (intros E%size_empty_inv; clear -Ha E; set_solver). lia.
Qed.

Lemma run_op_spec n q s o :
  represents n q s -> allowed n s o = true ->
  exists q', run_op q o = Some (fst (spec_op s o), q') /\ represents n q' (snd (spec_op s o)).
Proof.
  intros R Ha. destruct o as [now a | a | a | a]; cbn [run_op].
  - by apply op_schedule.
  - destruct (op_unschedule n q s a R Ha) as (q' & -> & R'). by exists q'.
  - pose proof (op_watch n q s a R Ha) as H. by destruct (spec_op s (Watch a)).
  - by apply op_unwatch.
Qed.

(** [C5] The alarm queue implements a set of scheduled and a set of watched entries: from a state
    that represents two sets, every sequence of schedule, unschedule, watch and unwatch calls
    that schedules no entry twice and unwatches no handle that is not watched runs without touching a bad
    pointer or array element, returns what the sets say, an error exactly for a 129th handle, and
    ends in a state that represents the sets with the same calls made on them. *)
Theorem fdqueue_refines n os : forall q s,
  represents n q s -> all_allowed n s os = true ->
  exists q', run_ops q os = Some (fst (spec_ops s os), q') /\ represents n q' (snd (spec_ops s os)).
Proof.
  induction os as [| o os IH]; intros q s R Ha; [by exists q |].
  apply andb_true_iff in Ha as [Ha Has]. destruct (run_op_spec n q s o R Ha) as (q1 & E1 & R1).
  destruct (IH q1 _ R1 Has) as (q2 & E2 & R2). exists q2. cbn [run_ops spec_ops].
  rewrite E1. cbn [mbind option_bind]. rewrite E2. cbn [mbind option_bind].
  destruct (spec_op s o) as [r s1]. cbn [fst snd] in *. by destruct (spec_ops s1 os).
Qed.

Lemma initial_represents es : Forall fresh_ent es -> represents (length es) (initial es) (mk_sets ∅ ∅).
Proof.
  intros H. assert (Hno : forall a, ~ watched (initial es) a).
  { intros a [i Hi]. cbn [fd_callbacks initial] in Hi. by apply lookup_replicate in Hi as [? _]. }
  split; cbn [scheduled watching]; try done.
  - exists [], []. split; [by apply initial_wf | set_solver].
  - split; cbn [fds fd_callbacks fdcount ents initial]; rewrite ?length_replicate; try done.
    + intros a e He. destruct (Forall_lookup_1 _ _ _ _ H He) as (_ & _ & _ & Hp). cbv [MAX_WATCHED_FDS]. lia.
    + intros i Hi. lia.
    + intros i _ Hi. by rewrite lookup_replicate_2.
  - intros a. split; [set_solver | intros Hw; by apply Hno in Hw].
  - intros a e He. by destruct (Forall_lookup_1 _ _ _ _ H He) as (_ & _ & ? & _).
Qed.

Lemma fdqueue_refines_witness :
  let os := [Schedule 10 0; Schedule 10 1; Watch 2; Watch 0; Unwatch 2; Unschedule 0; Schedule 200 0] in
  fst (spec_ops (mk_sets ∅ ∅) os) = [0; 0; 0; 0; 0; 0; 0] /\
  exists q', run_ops (initial sample_ents) os = Some (fst (spec_ops (mk_sets ∅ ∅) os), q') /\
    represents 3 q' (snd (spec_ops (mk_sets ∅ ∅) os)).
Proof.
  intros os. split; [vm_compute; reflexivity |].
  apply (fdqueue_refines 3 os (initial sample_ents) (mk_sets ∅ ∅)); [| vm_compute; reflexivity].
  apply (initial_represents sample_ents). repeat constructor; cbn; lia.
Defined.
