(* ===== verification/PacketFormats.v ===== *)
(** PacketFormats: the headers of packets and of the frames in them
    (overlay_payload.c and overlay_packetformats.c).

    The code that builds a header appends field after field to the packet buffer and
    gives up at the first append that fails: a [step] takes the decode context and the
    buffer and returns the C result with both.  It runs in the monad [M] of
    [OverlayAddress].  What the routing code answers is a parameter. *)

From S2P Require Import Prelude CMem OverlayBuffer OverlayBufferCodec DataFormats SubscriberTree OverlayAddress.

Definition PAYLOAD_FLAG_SENDER_SAME : Z := 1.
Definition PAYLOAD_FLAG_TO_BROADCAST : Z := 2.
Definition PAYLOAD_FLAG_ONE_HOP : Z := 4.
Definition PAYLOAD_FLAG_CIPHERED : Z := 16.
Definition PAYLOAD_FLAG_SIGNED : Z := 32.
Definition PAYLOAD_FLAG_LEGACY_TYPE : Z := 128.
Definition PAYLOAD_TTL_MAX : Z := 31.
Definition OF_TYPE_DATA : Z := 0x30.
Definition HEADER_PROCESS : Z := 1.
Definition HEADER_FORWARD : Z := 2.
Definition PACKET_UNICAST : Z := 1.
Definition PACKET_INTERFACE : Z := 2.
Definition PACKET_SEQ : Z := 4.
Definition SUPPORTED_PACKET_VERSION : Z := 1.
Definition ENCAP_OVERLAY : Z := 1.
Definition ENCAP_SINGLE : Z := 2.

(** [flags & x] as a condition, and [if (cond) flags |= x]. *)
Definition has (flags x : Z) : bool := negb (Z.land flags x =? 0).
Definition flag_if (cond : bool) (x flags : Z) : Z := if cond then Z.lor flags x else flags.

(** ** Fields *)

Definition step : Type := decode_context -> overlay_buffer -> M (Z * decode_context * overlay_buffer).

(** [if (s) return -1;] before the rest. *)
Definition or_return (s t : step) : step := fun c b =>
  '(r, c, b) ← s c b;
  if negb (r =? 0) then mret (-1, c, b) else t c b.
Definition return0 : step := fun c b => mret (0, c, b).
Definition when (cond : bool) (s : step) : step := if cond then s else return0.

Declare Scope step_scope.
Delimit Scope step_scope with step.
Bind Scope step_scope with step.
Notation "s ;? t" := (or_return s t) (at level 60, right associativity) : step_scope.

Section build.
Context `{Allocator}.

Definition append_byte (x : Z) : step := fun c b =>
  '(r, b) ← on_buffer (fun m => ob_append_byte b m x); mret (r, c, b).

Definition append_address (s : option nat) : step := fun c b =>
  '(r, c', b) ← overlay_address_append (Some c) b s; mret (r, default c c', b).

(** A null pointer is read when there is no broadcast address. *)
Definition append_broadcast (broadcast : option (list Z)) : step := fun c b =>
  match broadcast with
  | None => undefined
  | Some id => '(r, b) ← overlay_broadcast_append b id; mret (r, c, b)
  end.

(** ** The header of a frame *)

Definition frame_flags (c : decode_context) (type modifiers ttl : Z) (broadcast : option (list Z))
    (next_hop destination source : option nat) : Z :=
  let flags := Z.land modifiers (Z.lor PAYLOAD_FLAG_CIPHERED PAYLOAD_FLAG_SIGNED) in
  let flags := flag_if ((ttl =? 1) && bool_decide (broadcast = None)) PAYLOAD_FLAG_ONE_HOP flags in
  let flags := flag_if (bool_decide (is_Some destination) && bool_decide (destination = next_hop))
                 PAYLOAD_FLAG_ONE_HOP flags in
  let flags := flag_if (bool_decide (source = sender c)) PAYLOAD_FLAG_SENDER_SAME flags in
  let flags := flag_if (bool_decide (destination = None)) PAYLOAD_FLAG_TO_BROADCAST flags in
  flag_if (negb (type =? OF_TYPE_DATA)) PAYLOAD_FLAG_LEGACY_TYPE flags.

Definition overlay_frame_build_header (packet_version queue type modifiers ttl sequence : Z)
    (broadcast : option (list Z)) (next_hop destination source : option nat) : step := fun c b =>
  if (ttl <? 0) || (PAYLOAD_TTL_MAX <? ttl) then mret (-1, c, b)
  else
    let flags := frame_flags c type modifiers ttl broadcast next_hop destination source in
    let one_hop := has flags PAYLOAD_FLAG_ONE_HOP in
    (append_byte flags ;?
     when (negb (has flags PAYLOAD_FLAG_SENDER_SAME)) (append_address source) ;?
     (if has flags PAYLOAD_FLAG_TO_BROADCAST
      then when (negb one_hop) (append_broadcast broadcast)
      else append_address destination ;? when (negb one_hop) (append_address next_hop)) ;?
     when (negb one_hop) (append_byte (Z.lor ttl (Z.shiftl (Z.land queue 3) 5))) ;?
     when (has flags PAYLOAD_FLAG_LEGACY_TYPE) (append_byte type) ;?
     when (1 <=? packet_version) (append_byte sequence) ;?
     return0)%step c b.

(** The broadcast address of a frame, if it has one. *)
Definition frame_broadcast (p : overlay_frame) : option (list Z) :=
  if bool_decide (destination p = None) && negb (bool_decide (Forall (fun x => x = 0) (broadcast_id p)))
  then Some (broadcast_id p) else None.

Definition append_ui16 (x : Z) : step := fun c b =>
  '(r, b) ← on_buffer (fun m => ob_append_ui16 b m x); mret (r, c, b).
(** The bytes of another buffer up to its position. *)
Definition append_buffer (s : overlay_buffer) : step := fun c b =>
  '(r, b) ← on_buffer (fun m => ob_append_buffer b m s); mret (r, c, b).

Definition build_header (p : overlay_frame) : step :=
  overlay_frame_build_header (f_packet_version p) (queue p) (f_type p) (modifiers p) (ttl p)
    (Z.land (mdp_sequence p) 0xFF) (frame_broadcast p) (next_hop p) (destination p) (source p).

Definition overlay_frame_append_payload (p : overlay_frame) : step := fun c b =>
  let b := set_checkpointLength b (position b) in
  match payload p with
  | None => undefined
  | Some pl =>
      '(r, c, b) ← (build_header p ;? append_ui16 (ob_position pl) ;? append_buffer pl)%step c b;
      if r =? 0 then mret (0, c, b)
      else mret (-1, c, set_position b (checkpointLength b))
  end.

(** ** The header of a packet *)

Definition set_sender (c : decode_context) (s : option nat) : decode_context :=
  mk_context (interface c) (sender_interface c) (packet_version c) (encapsulation c) (addr c)
    (invalid_addresses c) (please_explain c) s (previous c).

(** [unicast] and [interface] are of type char. *)
Definition packet_flags (unicast interface seq : Z) : Z :=
  flag_if (0 <=? seq) PACKET_SEQ
    (flag_if (negb (u8 interface =? 0)) PACKET_INTERFACE
      (flag_if (negb (u8 unicast =? 0)) PACKET_UNICAST 0)).

(** The results of the last three appends are not checked. *)
Definition ignore (s : step) : step := fun c b => '(_, c, b) ← s c b; mret (0, c, b).

Definition overlay_packet_init_header (my_subscriber : option nat) (version encap unicast interface seq : Z)
    : step := fun c b =>
  if (version <? 0) || (SUPPORTED_PACKET_VERSION <? version) then mret (-1, c, b)
  else if negb (encap =? ENCAP_OVERLAY) && negb (encap =? ENCAP_SINGLE) then mret (-1, c, b)
  else
    let flags := packet_flags unicast interface seq in
    (append_byte version ;? append_byte encap ;? append_address my_subscriber ;?
     (fun c b => mret (0, set_sender c my_subscriber, b)) ;?
     ignore (append_byte flags) ;?
     when (has flags PACKET_INTERFACE) (ignore (append_byte interface)) ;?
     when (has flags PACKET_SEQ) (ignore (append_byte seq)) ;?
     return0)%step c b.

Definition context_zero : decode_context := mk_context None 0 0 0 0 false None None None.

(** A packet with one frame; [seq] is the sequence number of the frame's interface. *)
Definition single_packet_encapsulation (my_subscriber : option nat) (interface_number seq : Z)
    (frame : overlay_frame) (b : overlay_buffer) : M (Z * overlay_buffer) :=
  _ ← (if source_full frame then
         match my_subscriber with
         | None => undefined
         | Some i => s ← get_sub i; put_sub i (set_send_full s true)
         end
       else mret tt);
  match payload frame with
  | None => undefined
  | Some pl =>
      '(r, _, b) ← (overlay_packet_init_header my_subscriber (f_packet_version frame) ENCAP_SINGLE 0 interface_number seq ;?
                    build_header frame ;? append_buffer pl)%step context_zero b;
      mret (r, b)
  end.
End build.

(** ** Parsing *)

Definition set_source (f : overlay_frame) (s : option nat) : overlay_frame :=
  mk_frame (payload f) (f_type f) s (source_full f) (destination f) (ttl f) (broadcast_id f)
    (destination_resolved f) (next_hop f) (recvaddr f) (f_interface f) (queue f) (modifiers f)
    (mdp_sequence f) (f_packet_version f).
Definition set_destination (f : overlay_frame) (d : option nat) : overlay_frame :=
  mk_frame (payload f) (f_type f) (source f) (source_full f) d (ttl f) (broadcast_id f)
    (destination_resolved f) (next_hop f) (recvaddr f) (f_interface f) (queue f) (modifiers f)
    (mdp_sequence f) (f_packet_version f).
Definition set_broadcast_id (f : overlay_frame) (id : list Z) : overlay_frame :=
  mk_frame (payload f) (f_type f) (source f) (source_full f) (destination f) (ttl f) id
    (destination_resolved f) (next_hop f) (recvaddr f) (f_interface f) (queue f) (modifiers f)
    (mdp_sequence f) (f_packet_version f).
Definition set_ttl_queue (f : overlay_frame) (t q : Z) : overlay_frame :=
  mk_frame (payload f) (f_type f) (source f) (source_full f) (destination f) t (broadcast_id f)
    (destination_resolved f) (next_hop f) (recvaddr f) (f_interface f) q (modifiers f)
    (mdp_sequence f) (f_packet_version f).
Definition set_type (f : overlay_frame) (t : Z) : overlay_frame :=
  mk_frame (payload f) t (source f) (source_full f) (destination f) (ttl f) (broadcast_id f)
    (destination_resolved f) (next_hop f) (recvaddr f) (f_interface f) (queue f) (modifiers f)
    (mdp_sequence f) (f_packet_version f).
Definition set_modifiers (f : overlay_frame) (m v : Z) : overlay_frame :=
  mk_frame (payload f) (f_type f) (source f) (source_full f) (destination f) (ttl f) (broadcast_id f)
    (destination_resolved f) (next_hop f) (recvaddr f) (f_interface f) (queue f) m
    (mdp_sequence f) v.

(** The variables of parseMdpPacketHeader. *)
Record header := mk_header {
  h_context : decode_context;
  h_frame : overlay_frame;
  h_buffer : overlay_buffer;
  h_nexthop : option nat;
  h_process : bool;
  h_forward : bool
}.

(** [if (!cond) process=0], [if (!cond) forward=0] *)
Definition keep (h : header) (process forward : bool) : header :=
  mk_header (h_context h) (h_frame h) (h_buffer h) (h_nexthop h) (h_process h && process) (h_forward h && forward).
Definition with_frame (h : header) (f : overlay_frame) : header :=
  mk_header (h_context h) f (h_buffer h) (h_nexthop h) (h_process h) (h_forward h).
Definition with_buffer (h : header) (b : overlay_buffer) : header :=
  mk_header (h_context h) (h_frame h) b (h_nexthop h) (h_process h) (h_forward h).
Definition with_context (h : header) (c : decode_context) : header :=
  mk_header c (h_frame h) (h_buffer h) (h_nexthop h) (h_process h) (h_forward h).
Definition with_nexthop (h : header) (n : option nat) : header :=
  mk_header (h_context h) (h_frame h) (h_buffer h) n (h_process h) (h_forward h).

(** A part of the parser: the variables after it, and whether it returned -1. *)
Definition part : Type := header -> M (bool * header).
Definition and_then (p q : part) : part := fun h =>
  '(failed, h) ← p h; if failed : bool then mret (true, h) else q h.
Definition go (h : header) : M (bool * header) := mret (false, h).

Notation "p ;! q" := (and_then p q) (at level 60, right associativity) : step_scope.

(** [!p || p->reachable != REACHABLE_SELF] is the negation. *)
Definition is_self (p : option nat) : M bool :=
  match p with
  | None => mret false
  | Some i => s ← get_sub i; mret (reachable s =? REACHABLE_SELF)
  end.

Section parse.
Context `{Allocator}.
Context (gettime_ms : nat -> Z) (my_subscriber : option nat).
(** What the routing code answers: whether a node's broadcasts are relayed by us, and whether
    a frame was seen before. *)
Context (link_state_should_forward_broadcast : option nat -> bool).
Context (link_received_duplicate : option nat -> option Z -> Z -> Z -> bool).

Definition next_byte (h : header) : M (Z * header) :=
  '(x, b) ← get_byte (h_buffer h); mret (x, with_buffer h b).

(** The return value, the address in the variable [v], and the variables. *)
Definition parse_address (h : header) (v : option nat) : M (Z * option nat * header) :=
  '(r, c, b, s) ← overlay_address_parse gettime_ms my_subscriber (h_context h) (h_buffer h) (Some v);
  mret (r, default v s, with_buffer (with_context h c) b).

Definition parse_source (flags : Z) : part := fun h =>
  if has flags PAYLOAD_FLAG_SENDER_SAME then
    let c := h_context h in
    let h := match sender c with None => with_context h (set_invalid c) | Some _ => h end in
    go (with_frame h (set_source (h_frame h) (sender c)))
  else
    '(r, s, h) ← parse_address h (source (h_frame h));
    let h := with_frame h (set_source (h_frame h) s) in
    if r <? 0 then mret (true, h)
    else
      self ← is_self s;
      let mine := bool_decide (s = None) || (self : bool) in
      go (keep h (negb mine) (negb mine)).

Definition drop_check (id : list Z) : M Z := fun w =>
  '(r, l) ← overlay_broadcast_drop_check (w_bpi w) id;
  Some (r, mk_world (w_dir w) l (w_mem w) (w_ticks w) (w_random w) (w_links w) (w_sent w)).

Definition parse_broadcast (flags : Z) : part := fun h =>
  if has flags PAYLOAD_FLAG_ONE_HOP then go (with_frame h (set_destination (h_frame h) None))
  else
    '(id, b) ← overlay_broadcast_parse (h_buffer h);
    let h := with_buffer h b in
    match id with
    | None => mret (true, h)
    | Some id =>
        let h := with_frame h (set_broadcast_id (h_frame h) id) in
        seen ← drop_check id;
        let h := keep h (seen =? 0) (seen =? 0) in
        let h := keep h true (link_state_should_forward_broadcast (sender (h_context h))) in
        go (with_frame h (set_destination (h_frame h) None))
    end.

Definition parse_destination (flags : Z) : part := fun h =>
  '(r, d, h) ← parse_address h (destination (h_frame h));
  let h := with_frame h (set_destination (h_frame h) d) in
  if r <? 0 then mret (true, h)
  else
    self ← is_self d;
    let h := keep h self true in
    if has flags PAYLOAD_FLAG_ONE_HOP then go h
    else
      '(r, n, h) ← parse_address h (h_nexthop h);
      let h := with_nexthop h n in
      if r <? 0 then mret (true, h)
      else self ← is_self n; go (keep h true self).

Definition parse_ttl (flags : Z) : part := fun h =>
  '(failed, h) ← (if has flags PAYLOAD_FLAG_ONE_HOP
                  then go (with_frame h (set_ttl_queue (h_frame h) 1 (queue (h_frame h))))
                  else
                    '(x, h) ← next_byte h;
                    if x <? 0 then mret (true, h)
                    else go (with_frame h (set_ttl_queue (h_frame h) (Z.land x 0x1F) (Z.land (Z.shiftr x 5) 3))));
  if failed : bool then mret (true, h)
  else
    let f := h_frame h in
    let t := if ttl f =? 0 then 0 else ttl f - 1 in
    go (keep (with_frame h (set_ttl_queue f t (queue f))) true (negb (t =? 0))).

Definition parse_type (flags : Z) : part := fun h =>
  if has flags PAYLOAD_FLAG_LEGACY_TYPE then
    '(x, h) ← next_byte h;
    if x =? -1 then mret (true, h) else go (with_frame h (set_type (h_frame h) x))
  else go (with_frame h (set_type (h_frame h) OF_TYPE_DATA)).

Definition parse_sequence (flags : Z) : part := fun h =>
  if 1 <=? packet_version (h_context h) then
    '(seq, h) ← next_byte h;
    if seq =? -1 then mret (true, h)
    else
      let c := h_context h in
      let dup := (has flags PAYLOAD_FLAG_ONE_HOP || negb (has flags PAYLOAD_FLAG_TO_BROADCAST))
                 && link_received_duplicate (sender c) (interface c) (sender_interface c) seq in
      go (keep h (negb dup) (negb dup))
  else go h.

Definition parse_fields (flags : Z) : part :=
  (parse_source flags ;!
   (if has flags PAYLOAD_FLAG_TO_BROADCAST then parse_broadcast flags else parse_destination flags) ;!
   parse_ttl flags ;! parse_type flags ;! parse_sequence flags)%step.

(** The result, and the variables that outlive the call. *)
Definition parseMdpPacketHeader (c : decode_context) (f : overlay_frame) (b : overlay_buffer)
    (nexthop : option nat) : M (Z * header) :=
  '(flags, h) ← next_byte (mk_header c f b nexthop true true);
  if flags <? 0 then mret (-1, h)
  else
    '(failed, h) ← parse_fields flags h;
    if failed : bool then mret (-1, h)
    else
      let h := with_frame h (set_modifiers (h_frame h) flags (packet_version (h_context h))) in
      let valid := negb (invalid_addresses (h_context h)) in
      let h := keep h valid valid in
      mret (Z.lor (if h_forward h then HEADER_FORWARD else 0) (if h_process h then HEADER_PROCESS else 0), h).
End parse.
