(* ===== verification/PacketRoundtrip.v ===== *)
(** PacketRoundtrip: what the header builders write is what the parsers read. *)

From S2P Require Import Prelude CMem OverlayBuffer OverlayBufferCodec DataFormats SubscriberTree OverlayAddress PacketFormats.

(** ** Layout *)

(** The field of an address that is there when [cond] holds; [prev] and [prev'] are the previous
    address before and after it. *)
Inductive address_field (sdr : option nat) (subs : list subscriber)
    : bool -> option nat -> option nat -> option nat -> list Z -> Prop :=
| field_absent p prev : address_field sdr subs false p prev prev []
| field_present i prev d : encodes sdr prev subs i d -> (i < length subs)%nat ->
    address_field sdr subs true (Some i) prev (Some i) d.

(** The fields of a destination: a broadcast address, or a destination and a next hop. *)
Inductive target_field (sdr : option nat) (subs : list subscriber) (one_hop : bool)
    (broadcast : option (list Z)) (next_hop : option nat)
    : option nat -> option nat -> option nat -> list Z -> Prop :=
| target_one_hop prev : one_hop = true -> target_field sdr subs one_hop broadcast next_hop None prev prev []
| target_broadcast id prev : one_hop = false -> broadcast = Some id -> are_bytes id -> length id = BROADCAST_LEN ->
    target_field sdr subs one_hop broadcast next_hop None prev prev id
| target_subscriber i prev prev1 prev2 d1 d2 :
    address_field sdr subs true (Some i) prev prev1 d1 ->
    address_field sdr subs (negb one_hop) next_hop prev1 prev2 d2 ->
    target_field sdr subs one_hop broadcast next_hop (Some i) prev prev2 (d1 ++ d2).

Definition one_hop (flags : Z) : bool := has flags PAYLOAD_FLAG_ONE_HOP.
Definition opt (cond : bool) (x : Z) : list Z := if cond then [x] else [].

(** A header with these fields. *)
Definition header_layout (sdr prev : option nat) (subs : list subscriber) (flags version queue type ttl sequence : Z)
    (broadcast : option (list Z)) (next_hop destination source : option nat) (d : list Z) : Prop :=
  exists prev1 prev2 ds dt,
    address_field sdr subs (negb (has flags PAYLOAD_FLAG_SENDER_SAME)) source prev prev1 ds /\
    target_field sdr subs (one_hop flags) broadcast next_hop destination prev1 prev2 dt /\
    d = flags :: ds ++ dt ++ opt (negb (one_hop flags)) (Z.lor ttl (Z.shiftl (Z.land queue 3) 5)) ++
        opt (has flags PAYLOAD_FLAG_LEGACY_TYPE) type ++ opt (1 <=? version) sequence.

Lemma address_field_keys sdr subs subs' cond p prev prev' d :
  same_keys subs subs' -> address_field sdr subs cond p prev prev' d -> address_field sdr subs' cond p prev prev' d.
Proof.
  intros K [|i pv dd He Hi]; constructor; [by eapply encodes_keys |]. destruct K as [-> _]. done.
Qed.

Lemma target_field_keys sdr subs subs' oh bc nh d prev prev' l :
  same_keys subs subs' -> target_field sdr subs oh bc nh d prev prev' l -> target_field sdr subs' oh bc nh d prev prev' l.
Proof. intros K []; econstructor; eauto using address_field_keys. Qed.

(** ** The layout at another node *)

Section other_node.
Context (d d' : directory) (D : directory_wf d) (D' : directory_wf d') (K : knows_no_more d' d).
Abbreviation subs := (subscribers d).
Abbreviation subs' := (subscribers d').
Context (sdr sdr' : option nat) (Hsdr : same_ptr subs subs' sdr sdr').

Lemma address_field_other cond p p' prev prev' prev2 l :
  (cond = true -> same_ptr subs subs' p p') -> same_ptr subs subs' prev prev' ->
  address_field sdr subs cond p prev prev2 l ->
  exists prev2', same_ptr subs subs' prev2 prev2' /\ address_field sdr' subs' cond p' prev' prev2' l.
Proof.
  intros Hp Hpv F. inversion F as [| i pv dd He Hi]; subst.
  - exists prev'. split; [done | constructor].
  - specialize (Hp eq_refl). inversion Hp as [x i' Hi' |]; subst. exists (Some i'). split; [done |].
    constructor; [by apply (encodes_other d d' sdr prev sdr' prev' i i' l) |].
    destruct Hi' as (s & s' & _ & Hs' & _). by eapply lookup_lt_Some.
Qed.

Lemma target_field_other oh bc nh nh' dest dest' prev prev' prev2 l :
  same_ptr subs subs' dest dest' -> (dest <> None -> oh = false -> same_ptr subs subs' nh nh') ->
  same_ptr subs subs' prev prev' -> target_field sdr subs oh bc nh dest prev prev2 l ->
  exists prev2', same_ptr subs subs' prev2 prev2' /\ target_field sdr' subs' oh bc nh' dest' prev' prev2' l.
Proof.
  intros Hd Hn Hpv F. inversion F as [pv Eo | id pv Eo Eb Hb Hl | i pv p1 p2 d1 d2 F1 F2]; subst.
  - inversion Hd; subst. exists prev'. split; [done | by apply target_one_hop].
  - inversion Hd; subst. exists prev'. split; [done | by apply target_broadcast].
  - inversion Hd as [x i' Hi' |]; subst.
    destruct (address_field_other true (Some i) (Some i') prev prev' p1 d1 (fun _ => Hd) Hpv F1) as (p1' & S1 & G1).
    destruct (address_field_other (negb oh) nh nh' p1 p1' prev2 d2) as (p2' & S2 & G2); [| done | done |].
    { intros E%negb_true_iff. by apply Hn. }
    exists p2'. split; [done |]. by eapply target_subscriber.
Qed.
End other_node.

(** A frame with the pointers of another node to its parties. *)
Definition frame_at (p : overlay_frame) (src dest nh : option nat) : overlay_frame :=
  mk_frame (payload p) (f_type p) src (source_full p) dest (ttl p) (broadcast_id p) (destination_resolved p) nh
    (recvaddr p) (f_interface p) (queue p) (modifiers p) (mdp_sequence p) (f_packet_version p).

Section build.
Context `{Allocator}.
Hypothesis never : never_refuses.

(** A step that succeeds, with what it writes. *)
Definition writes (s : step) (c : decode_context) (b : overlay_buffer) (w : world)
    (Q : decode_context -> world -> list Z -> Prop) : Prop :=
  exists c' b' w' d, s c b w = Some ((0, c', b'), w') /\ written w b w' b' d /\ Q c' w' d.

(** What every step can rely on. *)
Record ready (w : world) (b : overlay_buffer) (n : Z) : Prop := {
  rd_wf : ob_wf (w_mem w) b;
  rd_dir : directory_wf (w_dir w);
  rd_fits : fits_in b n
}.

Lemma ready_le w b n k : k <= n -> ready w b n -> ready w b k.
Proof. intros Hk []. split; [done | done | by eapply fits_in_le]. Qed.

Lemma ready_written w b w' b' d n : written w b w' b' d -> ready w b (zlen d + n) -> 0 <= n -> ready w' b' n.
Proof. intros W [_ _ F] Hn. split; [apply W | apply W | by apply W]. Qed.

Lemma writes_conseq s c b w Q R :
  writes s c b w Q -> (forall c' w' d, Q c' w' d -> same_keys (subscribers (w_dir w)) (subscribers (w_dir w')) -> R c' w' d) ->
  writes s c b w R.
Proof.
  intros (c' & b' & w' & d & E & W & HQ) HR. exists c', b', w', d. split_and!; [done | done |].
  apply HR; [done | apply W].
Qed.

Lemma writes_seq_written s t c b w k n Q R :
  ready w b (k + n) -> 0 <= n -> writes s c b w Q ->
  (forall c' w' d, Q c' w' d -> zlen d <= k) ->
  (forall c' b' w' d, Q c' w' d -> written w b w' b' d -> ready w' b' n ->
    writes t c' b' w' (fun c'' w'' d' => R c'' w'' (d ++ d'))) ->
  writes (or_return s t) c b w R.
Proof.
  intros Hr Hn (c1 & b1 & w1 & d1 & E1 & W1 & Q1) Hk Ht.
  assert (R1 : ready w1 b1 n).
  { eapply ready_written; [exact W1 | | done]. eapply ready_le; [| exact Hr]. specialize (Hk _ _ _ Q1). lia. }
  destruct (Ht c1 b1 w1 d1 Q1 W1 R1) as (c2 & b2 & w2 & d2 & E2 & W2 & Q2).
  exists c2, b2, w2, (d1 ++ d2). split_and!; [| by eapply written_trans | done].
  unfold or_return. rewrite (M_bind_Some _ _ _ _ _ E1). cbn [Z.eqb negb]. exact E2.
Qed.

Lemma writes_seq s t c b w k n Q R :
  ready w b (k + n) -> 0 <= n -> writes s c b w Q ->
  (forall c' w' d, Q c' w' d -> zlen d <= k) ->
  (forall c' b' w' d, Q c' w' d -> same_keys (subscribers (w_dir w)) (subscribers (w_dir w')) -> ready w' b' n ->
    writes t c' b' w' (fun c'' w'' d' => R c'' w'' (d ++ d'))) ->
  writes (or_return s t) c b w R.
Proof.
  intros Hr Hn Hs Hk Ht. eapply writes_seq_written; [exact Hr | done | exact Hs | exact Hk |].
  intros c' b' w' d HQ W. apply (Ht c' b' w' d HQ (wr_keys _ _ _ _ _ W)).
Qed.

Lemma writes_return0 c b w n (R : decode_context -> world -> list Z -> Prop) :
  ready w b n -> R c w [] -> writes return0 c b w R.
Proof. intros [W D _] HR. exists c, b, w, []. split_and!; [done | by apply written_nil | done]. Qed.

Lemma writes_byte c b w x : ready w b 1 -> is_byte x -> writes (append_byte x) c b w (fun c' w' d => c' = c /\ d = [x]).
Proof.
  intros [W D F] Hx. destruct (append_byte_written never w b x W D Hx F) as (b' & m' & E & Wr).
  exists c, b', (set_mem w m'), [x]. split_and!; try done. unfold append_byte. by rewrite (M_bind_Some _ _ _ _ _ E).
Qed.

Lemma writes_opt c b w n (cond : bool) x : ready w b n -> 1 <= n -> (cond = true -> is_byte x) ->
  writes (when cond (append_byte x)) c b w (fun c' w' d => c' = c /\ d = opt cond x).
Proof.
  intros Hr Hn Hx. destruct cond; cbn [when opt].
  - apply writes_byte; [by eapply ready_le | auto].
  - by eapply writes_return0.
Qed.

Lemma opt_length cond x : zlen (opt cond x) <= 1.
Proof. destruct cond; cbn; lia. Qed.

(** Three bytes, each of them optional. *)
Lemma writes_opts c b w (c1 c2 c3 : bool) x1 x2 x3 :
  ready w b 3 -> is_byte x1 -> is_byte x2 -> is_byte x3 ->
  writes (when c1 (append_byte x1) ;? when c2 (append_byte x2) ;? when c3 (append_byte x3) ;? return0)%step c b w
    (fun c' w' d => c' = c /\ d = opt c1 x1 ++ opt c2 x2 ++ opt c3 x3).
Proof.
  intros R0 H1 H2 H3.
  apply (writes_seq _ _ c b w 1 2 (fun c' w' d => c' = c /\ d = opt c1 x1));
    [done | lia | by eapply writes_opt | intros _ _ _ [_ ->]; apply opt_length |].
  intros ? b1 w1 ? [-> ->] _ R1.
  apply (writes_seq _ _ c b1 w1 1 1 (fun c' w' d => c' = c /\ d = opt c2 x2));
    [done | lia | by eapply writes_opt | intros _ _ _ [_ ->]; apply opt_length |].
  intros ? b2 w2 ? [-> ->] _ R2.
  apply (writes_seq _ _ c b2 w2 1 0 (fun c' w' d => c' = c /\ d = opt c3 x3));
    [done | lia | by eapply writes_opt | intros _ _ _ [_ ->]; apply opt_length |].
  intros ? b3 w3 ? [-> ->] _ R3. eapply writes_return0; [exact R3 |]. by rewrite app_nil_r.
Qed.

Lemma writes_address c b w p : ready w b (1 + Z.of_nat SID_SIZE) -> (exists i, p = Some i /\ (i < length (subscribers (w_dir w)))%nat) ->
  writes (append_address p) c b w (fun c' w' d => sender c' = sender c /\
    address_field (sender c) (subscribers (w_dir w)) true p (previous c) (previous c') d).
Proof.
  intros [W D F] (i & -> & Hi). destruct (append_encoded never w c b i D Hi W F) as (b' & w' & d & E & Wr & He).
  exists (set_previous c (Some i)), b', w', d. split_and!; try done.
  - unfold append_address. by rewrite (M_bind_Some _ _ _ _ _ E).
  - by constructor.
Qed.

Lemma writes_opt_address c b w n (cond : bool) p : ready w b n -> 1 + Z.of_nat SID_SIZE <= n ->
  (cond = true -> exists i, p = Some i /\ (i < length (subscribers (w_dir w)))%nat) ->
  writes (when cond (append_address p)) c b w (fun c' w' d => sender c' = sender c /\
    address_field (sender c) (subscribers (w_dir w)) cond p (previous c) (previous c') d).
Proof.
  intros Hr Hn Hp. destruct cond; cbn [when].
  - apply writes_address; [by eapply ready_le | auto].
  - eapply writes_return0; [exact Hr |]. split; [done | constructor].
Qed.

Lemma address_field_length sdr subs cond p prev prev' d :
  address_field sdr subs cond p prev prev' d -> zlen d <= 1 + Z.of_nat SID_SIZE.
Proof. intros [| i pv dd He _]; [cbn; lia | by eapply encodes_length]. Qed.

Lemma writes_broadcast c b w id : ready w b 8 -> are_bytes id -> length id = BROADCAST_LEN ->
  writes (append_broadcast (Some id)) c b w (fun c' w' d => c' = c /\ d = id).
Proof.
  intros [W D F] Hb Hl. unfold BROADCAST_LEN in Hl.
  destruct (append_written never w b (fun _ => zslice id 0 8) 8 id) as (b' & m' & E & Wr); try done.
  { by rewrite Hl. }
  { intros _ _ _. rewrite zslice_Some by lia. change (Z.to_nat 0) with 0%nat. rewrite drop_0. by rewrite take_ge by lia. }
  exists c, b', (set_mem w m'), id. split_and!; try done.
  unfold append_broadcast, overlay_broadcast_append, ob_append_bytes.
  change (Z.of_nat BROADCAST_LEN) with 8. by rewrite (M_bind_Some _ _ _ _ _ E).
Qed.

(** A subscriber of the directory. *)
Definition known_sub (w : world) (p : option nat) : Prop :=
  exists i, p = Some i /\ (i < length (subscribers (w_dir w)))%nat.

Lemma known_keys w w' p : same_keys (subscribers (w_dir w)) (subscribers (w_dir w')) -> known_sub w p -> known_sub w' p.
Proof. intros [E _] (i & -> & Hi). exists i. by rewrite E. Qed.

(** What the destination of a frame needs. *)
Definition target_ok (w : world) (oh : bool) (broadcast : option (list Z)) (next_hop destination : option nat) : Prop :=
  match destination with
  | None => oh = true \/ exists id, broadcast = Some id /\ are_bytes id /\ length id = BROADCAST_LEN
  | Some _ => known_sub w destination /\ (oh = false -> known_sub w next_hop)
  end.

Lemma writes_target c b w n oh broadcast next_hop destination :
  ready w b n -> 2 * (1 + Z.of_nat SID_SIZE) <= n -> target_ok w oh broadcast next_hop destination ->
  writes (if bool_decide (destination = None) then when (negb oh) (append_broadcast broadcast)
          else or_return (append_address destination) (when (negb oh) (append_address next_hop))) c b w
    (fun c' w' d => sender c' = sender c /\ zlen d <= 2 * (1 + Z.of_nat SID_SIZE) /\
       target_field (sender c) (subscribers (w_dir w')) oh broadcast next_hop destination (previous c) (previous c') d).
Proof.
  unfold SID_SIZE. intros Hr Hn Hok. destruct destination as [i |]; cbn [target_ok] in Hok.
  - rewrite bool_decide_eq_false_2 by done. destruct Hok as [Hi Hnh].
    apply (writes_seq _ _ c b w (1 + Z.of_nat SID_SIZE) (1 + Z.of_nat SID_SIZE)
             (fun c' w' d => sender c' = sender c /\
                address_field (sender c) (subscribers (w_dir w)) true (Some i) (previous c) (previous c') d)).
    + eapply ready_le; [| exact Hr]. unfold SID_SIZE. lia.
    + unfold SID_SIZE. lia.
    + apply writes_address; [| done]. eapply ready_le; [| exact Hr]. unfold SID_SIZE. lia.
    + intros c' w' d [_ Hf]. by eapply address_field_length.
    + intros c1 b1 w1 d1 [Es F1] K1 R1. eapply writes_conseq.
      { apply (writes_opt_address c1 b1 w1 _ (negb oh) next_hop R1); [lia |].
        intros ?%negb_true_iff. eapply known_keys; [exact K1 | auto]. }
      intros c2 w2 d2 [Es2 F2] K2. rewrite Es in F2. split; [congruence |].
      pose proof (address_field_length _ _ _ _ _ _ _ F1). pose proof (address_field_length _ _ _ _ _ _ _ F2).
      unfold SID_SIZE in *. split; [rewrite length_app; lia |].
      econstructor; eapply address_field_keys; [| exact F1 | | exact F2]; [by eapply same_keys_trans | done].
  - rewrite bool_decide_eq_true_2 by done. destruct oh; cbn [negb when].
    + eapply writes_return0; [exact Hr |]. split; [done | split; [cbn; lia | by constructor]].
    + destruct Hok as [| (id & -> & Hb & Hl)]; [done |]. eapply writes_conseq.
      { apply (writes_broadcast c b w id); [| done | done]. eapply ready_le; [| exact Hr]. lia. }
      intros c' w' d [-> ->] K. split; [done |]. unfold BROADCAST_LEN in *. split; [lia |]. by apply target_broadcast.
Qed.
End build.

(** ** The flags *)

Lemma has_flag_if cond x flags y : has (flag_if cond x flags) y = (cond && has x y) || has flags y.
Proof.
  unfold flag_if, has. destruct cond; [| done]. rewrite Z.land_lor_distr_l. cbn [andb].
  destruct (Z.eqb_spec (Z.lor (Z.land flags y) (Z.land x y)) 0) as [E | E].
  - apply Z.lor_eq_0_iff in E as [-> ->]. done.
  - destruct (Z.eqb_spec (Z.land x y) 0) as [E2 |]; [| done]. rewrite E2, Z.lor_0_r in E.
    by rewrite (proj2 (Z.eqb_neq _ _) E).
Qed.

Lemma flag_if_byte cond x flags : is_byte x -> is_byte flags -> is_byte (flag_if cond x flags).
Proof.
  unfold flag_if. intros Hx Hf. destruct cond; [| done]. by apply lor_byte.
Qed.

Lemma has_crypto modifiers y : Z.land (Z.lor PAYLOAD_FLAG_CIPHERED PAYLOAD_FLAG_SIGNED) y = 0 ->
  has (Z.land modifiers (Z.lor PAYLOAD_FLAG_CIPHERED PAYLOAD_FLAG_SIGNED)) y = false.
Proof. intros E. unfold has. rewrite <- Z.land_assoc, E. by rewrite Z.land_0_r. Qed.

Section flags.
Context (c : decode_context) (type modifiers ttl : Z) (broadcast : option (list Z)).
Context (next_hop destination source : option nat).
Let flags := frame_flags c type modifiers ttl broadcast next_hop destination source.

Lemma frame_flags_byte : is_byte flags.
Proof.
  unfold flags, frame_flags. repeat (apply flag_if_byte; [split; done |]).
  change (Z.lor PAYLOAD_FLAG_CIPHERED PAYLOAD_FLAG_SIGNED) with 48.
  replace (Z.land modifiers 48) with (Z.land (Z.land modifiers 48) 255) by (rewrite <- Z.land_assoc; done).
  apply land_byte.
Qed.

Ltac flag_bit := unfold flags, frame_flags; rewrite !has_flag_if, has_crypto by reflexivity;
  cbn; rewrite ?andb_false_r, ?andb_true_r, ?orb_false_r; cbn [orb].

Lemma flags_same : has flags PAYLOAD_FLAG_SENDER_SAME = bool_decide (source = sender c).
Proof. by flag_bit. Qed.

Lemma flags_broadcast : has flags PAYLOAD_FLAG_TO_BROADCAST = bool_decide (destination = None).
Proof. by flag_bit. Qed.

Lemma flags_legacy : has flags PAYLOAD_FLAG_LEGACY_TYPE = negb (type =? OF_TYPE_DATA).
Proof. by flag_bit. Qed.

Lemma flags_one_hop : one_hop flags =
  (bool_decide (is_Some destination) && bool_decide (destination = next_hop)) || ((ttl =? 1) && bool_decide (broadcast = None)).
Proof. unfold one_hop. by flag_bit. Qed.
End flags.

(** ** Building the header of a frame *)

(** The flags and the layout of a frame's header. *)
Definition flags_of (c : decode_context) (p : overlay_frame) : Z :=
  frame_flags c (f_type p) (modifiers p) (ttl p) (frame_broadcast p) (next_hop p) (destination p) (source p).

Definition layout_of (sdr prev : option nat) (subs : list subscriber) (flags : Z) (p : overlay_frame) (d : list Z) : Prop :=
  header_layout sdr prev subs flags (f_packet_version p) (queue p) (f_type p) (ttl p) (Z.land (mdp_sequence p) 0xFF)
    (frame_broadcast p) (next_hop p) (destination p) (source p) d.

Lemma frame_at_broadcast d d' p src dest nh :
  same_ptr (subscribers d) (subscribers d') (destination p) dest ->
  frame_broadcast (frame_at p src dest nh) = frame_broadcast p.
Proof. unfold frame_broadcast. cbn [destination frame_at broadcast_id]. by intros []. Qed.

Lemma layout_other d d' sdr prev sdr' prev' flags p src dest nh l :
  directory_wf d -> directory_wf d' -> knows_no_more d' d ->
  same_ptr (subscribers d) (subscribers d') sdr sdr' -> same_ptr (subscribers d) (subscribers d') prev prev' ->
  same_ptr (subscribers d) (subscribers d') (source p) src ->
  same_ptr (subscribers d) (subscribers d') (destination p) dest ->
  (destination p <> None -> one_hop flags = false -> same_ptr (subscribers d) (subscribers d') (next_hop p) nh) ->
  layout_of sdr prev (subscribers d) flags p l ->
  layout_of sdr' prev' (subscribers d') flags (frame_at p src dest nh) l.
Proof.
  intros D D' K Hsd Hpv Hs Hd Hn (p1 & p2 & ds & dt & F1 & F2 & ->).
  destruct (address_field_other d d' D D' K sdr sdr' Hsd _ _ src prev prev' p1 ds (fun _ => Hs) Hpv F1) as (p1' & S1 & G1).
  destruct (target_field_other d d' D D' K sdr sdr' Hsd _ _ _ nh _ dest p1 p1' p2 dt Hd Hn S1 F2) as (p2' & S2 & G2).
  exists p1', p2', ds, dt. rewrite (frame_at_broadcast d d') by done. by split_and!.
Qed.

(** A frame that can be sent. *)
Record frame_ok (c : decode_context) (w : world) (p : overlay_frame) : Prop := {
  fo_ttl : 0 <= ttl p <= PAYLOAD_TTL_MAX;
  fo_type : is_byte (f_type p);
  fo_source : known_sub w (source p);
  fo_target : target_ok w (one_hop (flags_of c p)) (frame_broadcast p) (next_hop p) (destination p)
}.

Definition HEADER_MAX : Z := 1 + 3 * (1 + Z.of_nat SID_SIZE) + 3.

Lemma ttl_queue_byte t q : 0 <= t <= PAYLOAD_TTL_MAX -> is_byte (Z.lor t (Z.shiftl (Z.land q 3) 5)).
Proof.
  unfold PAYLOAD_TTL_MAX, is_byte. intros Ht. assert (0 <= Z.land q 3 < 4).
  { change 3 with (Z.ones 2). rewrite Z.land_ones by lia. apply Z.mod_pos_bound. lia. }
  rewrite lor_add_shiftl by lia. lia.
Qed.

Lemma build_header_writes `{Allocator} (never : never_refuses) c b w p :
  ready w b HEADER_MAX -> frame_ok c w p ->
  writes (build_header p) c b w (fun c' w' d => sender c' = sender c /\ zlen d <= HEADER_MAX /\
    layout_of (sender c) (previous c) (subscribers (w_dir w')) (flags_of c p) p d).
Proof.
  unfold HEADER_MAX. intros Hr [Ht Hty Hs Htg]. unfold build_header, overlay_frame_build_header.
  assert (((ttl p <? 0) || (PAYLOAD_TTL_MAX <? ttl p)) = false) as E by (apply orb_false_iff; split; apply Z.ltb_ge; lia).
  unfold writes. rewrite E. fold (flags_of c p). set (flags := flags_of c p) in *. fold (one_hop flags). fold (writes
    (append_byte flags ;? when (negb (has flags PAYLOAD_FLAG_SENDER_SAME)) (append_address (source p)) ;?
     (if has flags PAYLOAD_FLAG_TO_BROADCAST then when (negb (one_hop flags)) (append_broadcast (frame_broadcast p))
      else append_address (destination p) ;? when (negb (one_hop flags)) (append_address (next_hop p))) ;?
     when (negb (one_hop flags)) (append_byte (Z.lor (ttl p) (Z.shiftl (Z.land (queue p) 3) 5))) ;?
     when (has flags PAYLOAD_FLAG_LEGACY_TYPE) (append_byte (f_type p)) ;?
     when (1 <=? f_packet_version p) (append_byte (Z.land (mdp_sequence p) 255)) ;? return0)%step c b w).
  set (A := 1 + Z.of_nat SID_SIZE) in *. assert (HA : 0 <= A) by (unfold A; lia).
  (* flags *)
  apply (writes_seq _ _ c b w 1 (3 * A + 3) (fun c' w' d => c' = c /\ d = [flags])).
  { eapply ready_le; [| exact Hr]. lia. } { lia. }
  { apply writes_byte; [done | eapply ready_le; [| exact Hr]; lia | apply frame_flags_byte]. }
  { intros _ _ _ [_ ->]. done. }
  intros c0 b0 w0 d0 [-> ->] K0 R0.
  (* source *)
  apply (writes_seq _ _ c b0 w0 A (2 * A + 3) (fun c' w' d => sender c' = sender c /\
    address_field (sender c) (subscribers (w_dir w0)) (negb (has flags PAYLOAD_FLAG_SENDER_SAME)) (source p) (previous c) (previous c') d)).
  { eapply ready_le; [| exact R0]. lia. } { lia. }
  { eapply writes_opt_address; [done | exact R0 | fold A; lia |]. intros _. by eapply known_keys. }
  { intros c' w' d [_ F]. by eapply address_field_length. }
  intros c1 b1 w1 d1 [S1 F1] K1 R1.
  (* destination *)
  apply (writes_seq _ _ c1 b1 w1 (2 * A) 3 (fun c' w' d => sender c' = sender c /\ zlen d <= 2 * A /\
    target_field (sender c) (subscribers (w_dir w')) (one_hop flags) (frame_broadcast p) (next_hop p) (destination p) (previous c1) (previous c') d)).
  { eapply ready_le; [| exact R1]. lia. } { lia. }
  { assert (E2 : has flags PAYLOAD_FLAG_TO_BROADCAST = bool_decide (destination p = None)) by apply flags_broadcast.
    rewrite E2. eapply writes_conseq; [eapply writes_target; [done | exact R1 | fold A; lia |] |].
    - destruct (destination p); [| exact Htg]. destruct Htg as [T1 T2].
      assert (K : same_keys (subscribers (w_dir w)) (subscribers (w_dir w1))) by (by eapply same_keys_trans).
      split; [by eapply known_keys | intros Eo; eapply known_keys; [exact K | auto]].
    - intros c' w' d (Sd & Hl & T) _. rewrite S1 in Sd, T. done. }
  { intros c' w' d (_ & Hl & _). done. }
  intros c2 b2 w2 d2 (S2 & L2 & F2) K2 R2.
  (* the rest *)
  eapply writes_conseq.
  { apply (writes_opts never c2 b2 w2); [exact R2 | by apply ttl_queue_byte | exact Hty | apply land_byte]. }
  intros c3 w3 d3 [-> ->] K3. split; [done |].
  pose proof (address_field_length _ _ _ _ _ _ _ F1) as L1. fold A in L1. split.
  - rewrite !length_app. cbn [length].
    pose proof (opt_length (negb (one_hop flags)) (Z.lor (ttl p) (Z.shiftl (Z.land (queue p) 3) 5))).
    pose proof (opt_length (has flags PAYLOAD_FLAG_LEGACY_TYPE) (f_type p)).
    pose proof (opt_length (1 <=? f_packet_version p) (Z.land (mdp_sequence p) 255)). lia.
  - exists (previous c1), (previous c2), d1, d2. split; [| split; [by eapply target_field_keys | done]].
    eapply address_field_keys; [| exact F1]. eapply same_keys_trans; [exact K1 |]. by eapply same_keys_trans.
Qed.

(** ** Parsing the header of a frame *)

(** Whether a pointer is to one of our own identities. *)
Definition self_of (w : world) (p : option nat) : bool :=
  match i ← p; subscribers (w_dir w) !! i with Some s => reachable s =? REACHABLE_SELF | None => false end.

Lemma is_self_spec w p : p = None \/ known_sub w p -> is_self p w = Some (self_of w p, w).
Proof.
  intros [-> | (i & -> & [s Hs]%lookup_lt_is_Some_2)]; [done |].
  unfold is_self, self_of, get_sub, mbind, M_bind. cbn [option_bind]. by rewrite Hs.
Qed.

(** The variables after an address, or a byte, was read. *)
Definition moved (h : header) (prev : option nat) (b : overlay_buffer) : header :=
  with_buffer (with_context h (set_previous (h_context h) prev)) b.

Lemma moved_id h : moved h (previous (h_context h)) (h_buffer h) = h.
Proof. by destruct h as [[] ? ? ? ? ?]. Qed.

Lemma keep_true h : keep h true true = h.
Proof. destruct h. unfold keep. cbn. by rewrite !andb_true_r. Qed.

(** The buffer is [n] bytes further, with [r] still to be read. *)
Definition advanced (w : world) (b b' : overlay_buffer) (d r : list Z) : Prop :=
  readable w b' r /\ position b' = position b + zlen d.

Lemma advanced_nil w b r : readable w b r -> advanced w b b [] r.
Proof. intros Hr. split; [done |]. cbn. lia. Qed.

Section parse.
Context (gettime_ms : nat -> Z) (my_subscriber : option nat).
Context `{Allocator}.
Context (relay : option nat -> bool) (duplicate : option nat -> option Z -> Z -> Z -> bool).

Lemma next_byte_spec h w x r :
  readable w (h_buffer h) (x :: r) ->
  exists b', next_byte h w = Some ((x, with_buffer h b'), w) /\ advanced w (h_buffer h) b' [x] r.
Proof.
  intros Hr. destruct (get_byte_readable w _ _ _ Hr) as (b' & E & R' & P'). exists b'.
  unfold next_byte. rewrite (M_bind_Some _ _ _ _ _ E). done.
Qed.

Lemma parse_address_spec h w p prev v d r :
  directory_wf (w_dir w) -> readable w (h_buffer h) (d ++ r) ->
  address_field (sender (h_context h)) (subscribers (w_dir w)) true p (previous (h_context h)) prev d ->
  exists b', parse_address gettime_ms my_subscriber h v w = Some ((0, p, moved h prev b'), w) /\
    advanced w (h_buffer h) b' d r.
Proof.
  intros Hd Hr F. inversion F as [| i pv dd He Hi]; subst.
  destruct (parse_encoded gettime_ms my_subscriber w _ _ i d r v Hd He Hr) as (b' & E & R' & P').
  exists b'. unfold parse_address. by rewrite (M_bind_Some _ _ _ _ _ E).
Qed.

Lemma parse_source_spec h w flags p prev d r :
  directory_wf (w_dir w) -> readable w (h_buffer h) (d ++ r) -> known_sub w p ->
  (has flags PAYLOAD_FLAG_SENDER_SAME = true -> sender (h_context h) = p) ->
  address_field (sender (h_context h)) (subscribers (w_dir w)) (negb (has flags PAYLOAD_FLAG_SENDER_SAME)) p
    (previous (h_context h)) prev d ->
  let ok := has flags PAYLOAD_FLAG_SENDER_SAME || negb (self_of w p) in
  exists b', parse_source gettime_ms my_subscriber flags h w =
      Some ((false, keep (with_frame (moved h prev b') (set_source (h_frame h) p)) ok ok), w) /\
    advanced w (h_buffer h) b' d r.
Proof.
  intros Hd Hr Hp Hs F. unfold parse_source. destruct (has flags PAYLOAD_FLAG_SENDER_SAME) eqn:E; cbn [negb orb] in *.
  - inversion F; subst. exists (h_buffer h). rewrite moved_id, keep_true. split; [| by apply advanced_nil].
    specialize (Hs eq_refl). rewrite Hs in *. destruct Hp as (i & -> & _). done.
  - destruct (parse_address_spec h w p prev (source (h_frame h)) d r Hd Hr F) as (b' & E1 & A1).
    exists b'. split; [| done]. rewrite (M_bind_Some _ _ _ _ _ E1). cbn [Z.ltb Z.compare].
    rewrite (M_bind_Some _ _ _ _ _ (is_self_spec w p (or_intror Hp))).
    destruct Hp as (i & -> & _). rewrite bool_decide_eq_false_2 by done. done.
Qed.

(** The world with a broadcast remembered. *)
Definition with_bpi (w : world) (l : list (list Z)) : world :=
  mk_world (w_dir w) l (w_mem w) (w_ticks w) (w_random w) (w_links w) (w_sent w).

Lemma drop_check_defined (l : list (list Z)) id :
  length l = MAX_BPIS -> exists r l', overlay_broadcast_drop_check l id = Some (r, l') /\ length l' = MAX_BPIS.
Proof.
  intros Hl. pose proof (bpi_hash_range id). unfold overlay_broadcast_drop_check.
  destruct (zget_is_Some l (bpi_hash id)) as [old ->]; [lia |]. cbn [mbind option_bind].
  destruct (negb _); [| by exists 1, l]. rewrite zset_Some by lia. do 2 eexists. split; [done |]. by rewrite length_insert.
Qed.

(** Which of processing and forwarding a destination leaves: 0 for a broadcast not seen before. *)
Definition target_verdict (w : world) (oh : bool) (sdr next_hop destination : option nat) (seen : Z) : bool * bool :=
  match destination with
  | None => if oh then (true, true) else (seen =? 0, (seen =? 0) && relay sdr)
  | Some _ => (self_of w destination, oh || self_of w next_hop)
  end.

(** The frame with the destination read. *)
Definition target_frame (f : overlay_frame) (oh : bool) (broadcast : option (list Z)) (destination : option nat) : overlay_frame :=
  set_destination (match destination, broadcast with
                   | None, Some id => if oh then f else set_broadcast_id f id
                   | _, _ => f
                   end) destination.

Lemma target_frame_source f oh bc d : source (target_frame f oh bc d) = source f.
Proof. unfold target_frame. by destruct d, bc, oh. Qed.

Lemma parse_broadcast_spec h w flags bc nh prev d r :
  readable w (h_buffer h) (d ++ r) -> length (w_bpi w) = MAX_BPIS ->
  target_field (sender (h_context h)) (subscribers (w_dir w)) (one_hop flags) bc nh None (previous (h_context h)) prev d ->
  exists b' l seen, let v := target_verdict w (one_hop flags) (sender (h_context h)) nh None seen in
    parse_broadcast relay flags h w =
      Some ((false, keep (with_frame (moved h prev b') (target_frame (h_frame h) (one_hop flags) bc None)) (fst v) (snd v)),
            with_bpi w l) /\
    advanced (with_bpi w l) (h_buffer h) b' d r /\ length l = MAX_BPIS /\ (seen = 0 \/ seen = 1).
Proof.
  intros Hr Hl F. unfold parse_broadcast. fold (one_hop flags). inversion F as [? Eo | id ? Eo Ebc Hb Hlen |]; subst.
  - rewrite Eo. exists (h_buffer h), (w_bpi w), 0. cbn [target_verdict fst snd]. rewrite moved_id, keep_true.
    replace (with_bpi w (w_bpi w)) with w by (by destruct w).
    split; [by destruct bc | split; [by apply advanced_nil | auto]].
  - rewrite Eo. destruct Hr as [W Hr]. pose proof (readable_bound _ _ _ (conj W Hr)) as Hbound.
    rewrite length_app in Hbound. unfold BROADCAST_LEN in Hlen.
    pose proof (ob_get_bytes_spec _ _ 8 _ W Hr ltac:(lia) ltac:(lia)) as HB.
    rewrite (proj2 (Z.leb_le 8 _)) in HB by (rewrite length_app; lia).
    rewrite take_app_length', drop_app_length' in HB by lia. destruct HB as (E1 & R1 & W1).
    destruct (drop_check_defined (w_bpi w) d Hl) as (seen & l & E2 & Hl').
    exists (set_position (h_buffer h) (position (h_buffer h) + 8)), l, seen. cbn [target_verdict fst snd].
    split; [| split; [split; [split; [exact W1 | exact R1] | cbn; lia] | split; [done |]]].
    + rewrite (M_bind_Some _ _ w (Some d, set_position (h_buffer h) (position (h_buffer h) + 8)) w)
        by (unfold overlay_broadcast_parse; change (Z.of_nat BROADCAST_LEN) with 8; by rewrite E1).
      rewrite (M_bind_Some _ _ w seen (with_bpi w l)) by (unfold drop_check; by rewrite E2).
      destruct h as [[] f b n pr fw]. unfold go, keep, with_frame, moved, with_buffer, with_context. cbn.
      by rewrite andb_true_r, andb_assoc.
    + unfold overlay_broadcast_drop_check in E2. destruct (zget _ _); [| done]. cbn in E2.
      destruct (negb _); [destruct (zset _ _ _); [| done] |]; cbn in E2; injection E2 as <- _; auto.
Qed.

Lemma moved_twice h prev1 b1 f x prev2 b2 nh y :
  keep (with_nexthop (moved (keep (with_frame (moved h prev1 b1) f) x true) prev2 b2) nh) true y =
  keep (with_nexthop (with_frame (moved h prev2 b2) f) nh) x y.
Proof. destruct h. unfold keep, moved. cbn. by rewrite !andb_true_r. Qed.

Lemma parse_destination_spec h w flags bc nh i prev d r :
  directory_wf (w_dir w) -> readable w (h_buffer h) (d ++ r) ->
  target_field (sender (h_context h)) (subscribers (w_dir w)) (one_hop flags) bc nh (Some i) (previous (h_context h)) prev d ->
  exists b', let v := target_verdict w (one_hop flags) (sender (h_context h)) nh (Some i) 0 in
    parse_destination gettime_ms my_subscriber flags h w =
      Some ((false, keep (with_nexthop (with_frame (moved h prev b') (target_frame (h_frame h) (one_hop flags) bc (Some i)))
                            (if one_hop flags then h_nexthop h else nh)) (fst v) (snd v)), w) /\
    advanced w (h_buffer h) b' d r.
Proof.
  intros Hd Hr F. inversion F as [| | i' ? prev1 ? d1 d2 F1 F2]; subst. rewrite <- app_assoc in Hr.
  destruct (parse_address_spec h w (Some i) prev1 (destination (h_frame h)) d1 (d2 ++ r) Hd Hr F1) as (b1 & E1 & [R1 P1]).
  unfold parse_destination. rewrite (M_bind_Some _ _ _ _ _ E1). cbn [Z.ltb Z.compare].
  assert (Ki : known_sub w (Some i)) by (inversion F1; subst; by eexists).
  rewrite (M_bind_Some _ _ _ _ _ (is_self_spec w (Some i) (or_intror Ki))). fold (one_hop flags). cbn [target_verdict fst snd].
  destruct (one_hop flags) eqn:Eo; cbn [negb orb] in *.
  - inversion F2; subst. exists b1. rewrite app_nil_r. split; [| done].
    destruct h as [[] f b n pr fw]. done.
  - set (h1 := keep _ _ _).
    assert (F2' : address_field (sender (h_context h1)) (subscribers (w_dir w)) true nh (previous (h_context h1)) prev d2).
    { subst h1. inversion F1; subst. exact F2. }
    destruct (parse_address_spec h1 w nh prev (h_nexthop h1) d2 r Hd R1 F2') as (b2 & E2 & [R2 P2]).
    rewrite (M_bind_Some _ _ _ _ _ E2). cbn [Z.ltb Z.compare].
    assert (Kn : known_sub w nh) by (inversion F2'; subst; by eexists).
    rewrite (M_bind_Some _ _ _ _ _ (is_self_spec w nh (or_intror Kn))). exists b2.
    split; [| split; [done | rewrite P2; cbn in P1 |- *; rewrite P1, length_app; lia]].
    subst h1. rewrite moved_twice. reflexivity.
Qed.

Lemma ttl_of_byte t q : 0 <= t <= PAYLOAD_TTL_MAX -> Z.land (Z.lor t (Z.shiftl (Z.land q 3) 5)) 0x1F = t.
Proof.
  unfold PAYLOAD_TTL_MAX. intros Ht. rewrite lor_add_shiftl by lia. change 31 with (Z.ones 5).
  rewrite Z.land_ones, Z.add_comm, Z.mod_add by lia. apply Z.mod_small. lia.
Qed.

Lemma queue_of_byte t q : 0 <= t <= PAYLOAD_TTL_MAX ->
  Z.land (Z.shiftr (Z.lor t (Z.shiftl (Z.land q 3) 5)) 5) 3 = Z.land q 3.
Proof.
  unfold PAYLOAD_TTL_MAX. intros Ht. rewrite lor_add_shiftl by lia. rewrite Z.shiftr_div_pow2, Z.add_comm, Z.div_add by lia.
  rewrite (Z.div_small t), Z.add_0_l by lia. rewrite <- Z.land_assoc. done.
Qed.

(** What the receiver makes of the time to live and of the queue. *)
Definition next_ttl (oh : bool) (t : Z) : Z := if oh || (t =? 0) then 0 else t - 1.

Lemma parse_ttl_spec h w flags t q r :
  0 <= t <= PAYLOAD_TTL_MAX ->
  readable w (h_buffer h) (opt (negb (one_hop flags)) (Z.lor t (Z.shiftl (Z.land q 3) 5)) ++ r) ->
  exists b', parse_ttl flags h w =
      Some ((false, keep (with_frame (with_buffer h b') (set_ttl_queue (h_frame h) (next_ttl (one_hop flags) t)
               (if one_hop flags then queue (h_frame h) else Z.land q 3))) true (negb (next_ttl (one_hop flags) t =? 0))), w) /\
    advanced w (h_buffer h) b' (opt (negb (one_hop flags)) (Z.lor t (Z.shiftl (Z.land q 3) 5))) r.
Proof.
  intros Ht Hr. unfold parse_ttl, next_ttl. fold (one_hop flags). destruct (one_hop flags); cbn [negb opt app orb] in *.
  - exists (h_buffer h). split; [by destruct h | by apply advanced_nil].
  - destruct (next_byte_spec h w _ _ Hr) as (b' & E & A). exists b'. split; [| done].
    set (h1 := with_buffer h b') in *. rewrite (M_bind_Some _ _ w (false, with_frame h1 (set_ttl_queue (h_frame h1) t (Z.land q 3))) w).
    + cbn [ttl h_frame with_frame set_ttl_queue queue]. by destruct h.
    + rewrite (M_bind_Some _ _ _ _ _ E). pose proof (ttl_queue_byte t q Ht) as [Hx _].
      rewrite (proj2 (Z.ltb_ge _ 0)) by done. by rewrite ttl_of_byte, queue_of_byte by done.
Qed.

Lemma parse_type_spec h w flags t r :
  is_byte t -> has flags PAYLOAD_FLAG_LEGACY_TYPE = negb (t =? OF_TYPE_DATA) ->
  readable w (h_buffer h) (opt (has flags PAYLOAD_FLAG_LEGACY_TYPE) t ++ r) ->
  exists b', parse_type flags h w = Some ((false, with_frame (with_buffer h b') (set_type (h_frame h) t)), w) /\
    advanced w (h_buffer h) b' (opt (has flags PAYLOAD_FLAG_LEGACY_TYPE) t) r.
Proof.
  intros [Ht _] Hf Hr. unfold parse_type. destruct (has flags PAYLOAD_FLAG_LEGACY_TYPE); cbn [opt app] in *.
  - destruct (next_byte_spec h w _ _ Hr) as (b' & E & A). exists b'. split; [| done].
    rewrite (M_bind_Some _ _ _ _ _ E). by rewrite (proj2 (Z.eqb_neq _ (-1))) by lia.
  - exists (h_buffer h). symmetry in Hf. apply negb_false_iff, Z.eqb_eq in Hf. subst t.
    split; [by destruct h | by apply advanced_nil].
Qed.

(** Whether the frame is taken for a duplicate. *)
Definition seen_before (c : decode_context) (flags seq : Z) : bool :=
  (1 <=? packet_version c) && ((one_hop flags || negb (has flags PAYLOAD_FLAG_TO_BROADCAST))
    && duplicate (sender c) (interface c) (sender_interface c) seq).

(** The result of parsing a frame: [seen] is 1 for a broadcast that was seen before. *)
Definition verdict (w : world) (c : decode_context) (flags : Z) (p : overlay_frame) (seen : Z) : Z :=
  let ok := has flags PAYLOAD_FLAG_SENDER_SAME || negb (self_of w (source p)) in
  let fresh := negb (seen_before c flags (Z.land (mdp_sequence p) 0xFF)) in
  let v := target_verdict w (one_hop flags) (sender c) (next_hop p) (destination p) seen in
  Z.lor (if ok && snd v && negb (next_ttl (one_hop flags) (ttl p) =? 0) && fresh then HEADER_FORWARD else 0)
        (if ok && fst v && fresh then HEADER_PROCESS else 0).

Lemma parse_sequence_spec h w flags seq r :
  0 <= seq -> readable w (h_buffer h) (opt (1 <=? packet_version (h_context h)) seq ++ r) ->
  exists b', let ok := negb (seen_before (h_context h) flags seq) in
    parse_sequence duplicate flags h w = Some ((false, keep (with_buffer h b') ok ok), w) /\
    advanced w (h_buffer h) b' (opt (1 <=? packet_version (h_context h)) seq) r.
Proof.
  intros Hs Hr. unfold parse_sequence, seen_before. fold (one_hop flags).
  destruct (1 <=? packet_version (h_context h)); cbn [opt app andb negb] in *.
  - destruct (next_byte_spec h w _ _ Hr) as (b' & E & A). exists b'. split; [| done].
    rewrite (M_bind_Some _ _ _ _ _ E). by rewrite (proj2 (Z.eqb_neq _ (-1))) by lia.
  - exists (h_buffer h). rewrite keep_true. split; [by destruct h | by apply advanced_nil].
Qed.

Lemma and_then_Some (p q : part) h w h1 w1 : p h w = Some ((false, h1), w1) -> and_then p q h w = q h1 w1.
Proof. intros E. unfold and_then. by rewrite (M_bind_Some _ _ _ _ _ E). Qed.

(** The destination, whichever it is. *)
Lemma parse_target_spec h w flags bc nh dest prev d r :
  directory_wf (w_dir w) -> readable w (h_buffer h) (d ++ r) -> length (w_bpi w) = MAX_BPIS ->
  has flags PAYLOAD_FLAG_TO_BROADCAST = bool_decide (dest = None) ->
  target_field (sender (h_context h)) (subscribers (w_dir w)) (one_hop flags) bc nh dest (previous (h_context h)) prev d ->
  exists b' l seen n', let v := target_verdict w (one_hop flags) (sender (h_context h)) nh dest seen in
    (if has flags PAYLOAD_FLAG_TO_BROADCAST then parse_broadcast relay flags
     else parse_destination gettime_ms my_subscriber flags) h w =
      Some ((false, keep (with_nexthop (with_frame (moved h prev b') (target_frame (h_frame h) (one_hop flags) bc dest)) n')
               (fst v) (snd v)), with_bpi w l) /\
    advanced (with_bpi w l) (h_buffer h) b' d r /\ (seen = 0 \/ seen = 1) /\
    (dest <> None -> one_hop flags = false -> n' = nh).
Proof.
  intros Hd Hr Hl Hf F. rewrite Hf. destruct dest as [i |].
  - destruct (parse_destination_spec h w flags bc nh i prev d r Hd Hr F) as (b' & E & A).
    exists b', (w_bpi w), 0, (if one_hop flags then h_nexthop h else nh). rewrite bool_decide_eq_false_2 by done.
    replace (with_bpi w (w_bpi w)) with w by (by destruct w).
    split; [exact E | split; [exact A | split; [by left | by intros _ ->]]].
  - destruct (parse_broadcast_spec h w flags bc nh prev d r Hr Hl F) as (b' & l & seen & E & A & _ & Hs).
    exists b', l, seen, (h_nexthop h). rewrite bool_decide_eq_true_2 by done.
    split; [rewrite E; by destruct h | done].
Qed.

(** What the receiver finds in its variables. *)
Record received (p : overlay_frame) (flags : Z) (h : header) : Prop := {
  rc_source : source (h_frame h) = source p;
  rc_destination : destination (h_frame h) = destination p;
  rc_next_hop : destination p <> None -> one_hop flags = false -> h_nexthop h = next_hop p;
  rc_broadcast : forall id, destination p = None -> one_hop flags = false -> frame_broadcast p = Some id ->
    broadcast_id (h_frame h) = id;
  rc_ttl : ttl (h_frame h) = next_ttl (one_hop flags) (ttl p);
  rc_queue : one_hop flags = false -> queue (h_frame h) = Z.land (queue p) 3;
  rc_type : f_type (h_frame h) = f_type p;
  rc_modifiers : modifiers (h_frame h) = flags
}.

Lemma parse_header_spec w b c flags p f0 n0 d r :
  directory_wf (w_dir w) -> readable w b (d ++ r) -> length (w_bpi w) = MAX_BPIS -> is_byte flags ->
  layout_of (sender c) (previous c) (subscribers (w_dir w)) flags p d ->
  0 <= ttl p <= PAYLOAD_TTL_MAX -> is_byte (f_type p) -> known_sub w (source p) ->
  packet_version c = f_packet_version p -> invalid_addresses c = false ->
  (has flags PAYLOAD_FLAG_SENDER_SAME = true -> sender c = source p) ->
  has flags PAYLOAD_FLAG_TO_BROADCAST = bool_decide (destination p = None) ->
  has flags PAYLOAD_FLAG_LEGACY_TYPE = negb (f_type p =? OF_TYPE_DATA) ->
  exists seen h w', parseMdpPacketHeader gettime_ms my_subscriber relay duplicate c f0 b n0 w
      = Some ((verdict w c flags p seen, h), w') /\
    received p flags h /\ (seen = 0 \/ seen = 1) /\ advanced w' b (h_buffer h) d r.
Proof.
  intros Hd Hr Hl Hfl (prev1 & prev2 & ds & dt & F1 & F2 & ->) Ht Hty Hs Hv Hi Hsame Hbc Hleg. cbn [app] in Hr.
  rewrite <- !app_assoc in Hr. unfold parseMdpPacketHeader.
  destruct (next_byte_spec (mk_header c f0 b n0 true true) w _ _ Hr) as (b0 & E0 & [R0 P0]). rewrite (M_bind_Some _ _ _ _ _ E0).
  rewrite (proj2 (Z.ltb_ge flags 0)) by (destruct Hfl; lia).
  set (h0 := with_buffer (mk_header c f0 b n0 true true) b0) in *.
  destruct (parse_source_spec h0 w flags (source p) prev1 ds _ Hd R0 Hs Hsame F1) as (b1 & E1 & [R1 P1]).
  set (h1 := keep _ _ _) in E1.
  destruct (parse_target_spec h1 w flags _ _ _ prev2 dt _ Hd R1 Hl Hbc F2) as (b2 & l & seen & n' & E2 & [R2 P2] & Hseen & Hn').
  set (h2 := keep _ _ _) in E2. set (w2 := with_bpi w l) in *.
  destruct (parse_ttl_spec h2 w2 flags (ttl p) (queue p) _ Ht R2) as (b3 & E3 & [R3 P3]). set (h3 := keep _ _ _) in E3.
  destruct (parse_type_spec h3 w2 flags (f_type p) _ Hty Hleg R3) as (b4 & E4 & [R4 P4]). set (h4 := with_frame _ _) in E4.
  rewrite <- Hv in R4.
  destruct (parse_sequence_spec h4 w2 flags (Z.land (mdp_sequence p) 255) r (proj1 (land_byte _)) R4) as (b5 & E5 & [R5 P5]).
  set (h5 := keep _ _ _) in E5.
  assert (Ef : parse_fields gettime_ms my_subscriber relay duplicate flags h0 w = Some ((false, h5), w2)).
  { unfold parse_fields. rewrite (and_then_Some _ _ _ _ _ _ E1), (and_then_Some _ _ _ _ _ _ E2), (and_then_Some _ _ _ _ _ _ E3).
    by rewrite (and_then_Some _ _ _ _ _ _ E4). }
  rewrite (M_bind_Some _ _ _ _ _ Ef). exists seen. do 2 eexists.
  assert (Ei : invalid_addresses (h_context h5) = false) by exact Hi.
  assert (Efw : h_forward h5 = (has flags PAYLOAD_FLAG_SENDER_SAME || negb (self_of w (source p))) &&
    snd (target_verdict w (one_hop flags) (sender c) (next_hop p) (destination p) seen) &&
    negb (next_ttl (one_hop flags) (ttl p) =? 0) && negb (seen_before c flags (Z.land (mdp_sequence p) 255))) by reflexivity.
  assert (Epr : h_process h5 = (has flags PAYLOAD_FLAG_SENDER_SAME || negb (self_of w (source p))) &&
    fst (target_verdict w (one_hop flags) (sender c) (next_hop p) (destination p) seen) && true &&
    negb (seen_before c flags (Z.land (mdp_sequence p) 255))) by reflexivity.
  split; [| split; [| split; [exact Hseen |]]].
  - cbn [h_context with_frame]. rewrite Ei. cbn [negb]. rewrite keep_true. cbn [h_forward h_process with_frame].
    rewrite Efw, Epr, andb_true_r. reflexivity.
  - split; [exact (target_frame_source (set_source f0 (source p)) _ _ _) | reflexivity | exact Hn' | | reflexivity | | reflexivity | reflexivity].
    + intros id Hdst Hoh Hid. unfold h5, h4, h3, h2. cbn. unfold target_frame. rewrite Hdst, Hid, Hoh. reflexivity.
    + intros Hoh. unfold h5, h4, h3. cbn. by rewrite Hoh.
  - split; [exact R5 |].
    change (position b5 = position b + zlen (flags :: ds ++ dt ++ opt (negb (one_hop flags)) (Z.lor (ttl p) (Z.shiftl (Z.land (queue p) 3) 5)) ++
      opt (has flags PAYLOAD_FLAG_LEGACY_TYPE) (f_type p) ++ opt (1 <=? f_packet_version p) (Z.land (mdp_sequence p) 255))).
    cbn [length]. rewrite !length_app. change (h_buffer h4) with b4 in P5. change (h_buffer h3) with b3 in P4.
    change (h_buffer h2) with b2 in P3. change (h_buffer h1) with b1 in P2. change (h_buffer h0) with b0 in P1.
    change (h_buffer (mk_header c f0 b n0 true true)) with b in P0. change (packet_version (h_context h4)) with (packet_version c) in P5.
    rewrite Hv in P5. cbn [length] in P0. lia.
Qed.
End parse.

(** A voice frame from the first of two subscribers to the second, by way of the first. *)
Definition sample_frame : overlay_frame :=
  mk_frame None 0x40 (Some 0%nat) false (Some 1%nat) 31 (replicate BROADCAST_LEN 0) false (Some 0%nat) 0 None 1 16 7 1.
Definition receiving : decode_context := mk_context None 0 1 ENCAP_OVERLAY 0 false None None None.
