(* ===== verification/PacketSafety.v ===== *)
(** PacketSafety: when a received frame is processed and when it is forwarded, whatever
    the bytes of the packet. *)

From S2P Require Import Prelude CMem OverlayBuffer OverlayBufferCodec DataFormats SubscriberTree OverlayAddress PacketFormats PacketRoundtrip.

(** ** Reading addresses does not change who is reachable *)

Definition reach_kept (subs subs' : list subscriber) : Prop :=
  forall i s, subs !! i = Some s -> exists s', subs' !! i = Some s' /\ reachable s' = reachable s.

Lemma reach_kept_refl subs : reach_kept subs subs.
Proof. intros i s Hs. by exists s. Qed.

Lemma reach_kept_trans subs1 subs2 subs3 : reach_kept subs1 subs2 -> reach_kept subs2 subs3 -> reach_kept subs1 subs3.
Proof.
  intros H1 H2 i s Hs. destruct (H1 i s Hs) as (s1 & Hs1 & E1), (H2 i s1 Hs1) as (s2 & Hs2 & E2).
  exists s2. split; congruence.
Qed.

Lemma reach_kept_insert subs i s s' : subs !! i = Some s -> reachable s' = reachable s -> reach_kept subs (<[i := s']> subs).
Proof.
  intros Hs E j t Ht. destruct (decide (j = i)) as [-> |].
  - exists s'. rewrite list_lookup_insert_eq by (by eapply lookup_lt_Some). split; congruence.
  - exists t. by rewrite list_lookup_insert_ne.
Qed.

Lemma reach_kept_app subs l : reach_kept subs (subs ++ l).
Proof. intros i s Hs. exists s. split; [by apply lookup_app_l_Some | done]. Qed.

Lemma find_loop_kept n : forall node subs id len pos create r node' subs',
  find_loop n node subs id len pos create = Some (r, node', subs') -> reach_kept subs subs'.
Proof.
  induction n as [| n IH]; intros node subs id len pos create r node' subs'; cbn [find_loop];
    [intros [= <- <- <-]; apply reach_kept_refl |].
  destruct (get_nibble id pos) as [k |]; [| done]. cbn [mbind option_bind].
  destruct (node !! k) as [sl |]; [| done]. cbn [mbind option_bind]. destruct sl as [| i | child].
  - destruct create; intros [= <- <- <-]; [apply reach_kept_app | apply reach_kept_refl].
  - destruct (subs !! i) as [s |] eqn:Hs; [| done]. cbn [mbind option_bind].
    destruct (same_bytes (sid s) id len) as [[] |]; [| | done]; cbn [mbind option_bind]; [intros [= <- <- <-]; apply reach_kept_refl |].
    destruct create; cbn [negb]; [| intros [= <- <- <-]; apply reach_kept_refl].
    destruct (get_nibble (sid s) (S pos)) as [k' |]; [| done]. cbn [mbind option_bind].
    destruct (find_loop n _ _ id len (S pos) true) as [[[r1 new] subs1] |] eqn:E; [| done]. intros [= <- <- <-].
    eapply reach_kept_trans; [| by eapply IH]. by eapply reach_kept_insert.
  - destruct (find_loop n child subs id len (S pos) create) as [[[r1 new] subs1] |] eqn:E; [| done].
    intros [= <- <- <-]. by eapply IH.
Qed.

(** An invariant of the callback's state is one of the walk. *)
Section walk_invariant.
Context {St : Type} (P : St -> Prop) (callback : nat -> St -> option (bool * St)).
Hypothesis step : forall j st stop st', callback j st = Some (stop, st') -> P st -> P st'.

Lemma walk_slots_inv walk node n : forall start i st stop st',
  (forall child start st stop st', walk child start st = Some (stop, st') -> P st -> P st') ->
  walk_slots callback walk node start i n st = Some (stop, st') -> P st -> P st'.
Proof.
  induction n as [| n IH]; intros start i st stop st' Hw; cbn [walk_slots]; [by intros [= <- <-] |].
  destruct (node !! i) as [sl |]; [| done]. cbn [mbind option_bind].
  destruct (match sl with Empty => _ | _ => _ end) as [[stop1 st1] |] eqn:E; [| done]. cbn [mbind option_bind].
  intros Hrest HP. assert (HP1 : P st1) by (destruct sl; [by injection E as <- <- | by eapply step | by eapply Hw]).
  destruct stop1; [by injection Hrest as <- <- | by eapply IH].
Qed.

Lemma walk_tree_inv depth : forall node pos start start_len last end_len st stop st',
  walk_tree callback depth node pos start start_len last end_len st = Some (stop, st') -> P st -> P st'.
Proof.
  induction depth as [| depth IH]; intros node pos start start_len last end_len st stop st'; cbn [walk_tree]; [done |].
  destruct (bound_nibble start pos start_len); [| done]. cbn [mbind option_bind].
  destruct (bound_nibble last pos end_len); [| done]. cbn [mbind option_bind].
  apply walk_slots_inv. intros. by eapply IH.
Qed.
End walk_invariant.

(** Code that changes no reachability. *)
Definition keeps {A} (m : M A) : Prop :=
  forall w x w', m w = Some (x, w') -> reach_kept (subscribers (w_dir w)) (subscribers (w_dir w')).

Lemma keeps_same {A} (m : M A) : (forall w x w', m w = Some (x, w') -> w_dir w' = w_dir w) -> keeps m.
Proof. intros H w x w' E. rewrite (H _ _ _ E). apply reach_kept_refl. Qed.

Lemma keeps_ret {A} (x : A) : keeps (mret x).
Proof. apply keeps_same. by intros w y w' [= <- <-]. Qed.

Lemma keeps_bind {A B} (m : M A) (f : A -> M B) : keeps m -> (forall x, keeps (f x)) -> keeps (m ≫= f).
Proof.
  intros Hm Hf w y w' E. apply M_bind_inv in E as (x & w1 & E1 & E2).
  eapply reach_kept_trans; [by eapply Hm | by eapply Hf].
Qed.

Lemma keeps_lift {A} (o : option A) : keeps (lift o).
Proof. apply keeps_same. unfold lift. by destruct o; intros w x w' [= <- <-]. Qed.

Lemma keeps_on_buffer {A} (f : mem -> option (A * overlay_buffer * mem)) : keeps (on_buffer f).
Proof.
  apply keeps_same. unfold on_buffer. intros w x w'. destruct (f (w_mem w)) as [[[a b] m] |]; [| done].
  by intros [= <- <-].
Qed.

Lemma keeps_get_byte b : keeps (get_byte b).
Proof. apply keeps_same. unfold get_byte. intros w x w'. destruct (ob_get b (w_mem w)); [| done]. by intros [= <- <-]. Qed.

Lemma keeps_read_bytes p n : keeps (read_bytes p n).
Proof. apply keeps_same. unfold read_bytes. intros w x w'. destruct (loadbytes _ _ _ _); [| done]. by intros [= <- <-]. Qed.

Lemma keeps_find_sub id len create : keeps (find_sub id len create).
Proof.
  unfold find_sub. intros w x w'. unfold find_subscriber.
  destruct (find_loop _ _ _ _ _ _ _) as [[[r root'] subs'] |] eqn:E; [| done]. intros [= <- <-].
  by eapply find_loop_kept.
Qed.

Create HintDb keeps.
#[export] Hint Resolve keeps_ret keeps_lift keeps_on_buffer keeps_get_byte keeps_read_bytes keeps_find_sub : keeps.

(** [s] is what is known of the subscriber [i]. *)
Definition keeps_at {A} (i : nat) (r : Z) (m : M A) : Prop :=
  forall w x w', (exists s, subscribers (w_dir w) !! i = Some s /\ reachable s = r) -> m w = Some (x, w') ->
    reach_kept (subscribers (w_dir w)) (subscribers (w_dir w')).

Lemma keeps_at_keeps {A} i r (m : M A) : keeps m -> keeps_at i r m.
Proof. intros H w x w' _. apply H. Qed.

Lemma keeps_at_bind {A B} i r (m : M A) (f : A -> M B) :
  keeps_at i r m -> (forall x, keeps_at i r (f x)) -> keeps_at i r (m ≫= f).
Proof.
  intros Hm Hf w y w' Hs E. apply M_bind_inv in E as (x & w1 & E1 & E2). specialize (Hm _ _ _ Hs E1).
  eapply reach_kept_trans; [exact Hm |]. eapply Hf; [| exact E2].
  destruct Hs as (s & Hs & Er), (Hm i s Hs) as (s1 & Hs1 & E). exists s1. split; congruence.
Qed.

Lemma keeps_at_put i r s : reachable s = r -> keeps_at i r (put_sub i s).
Proof. intros Er w x w' (s0 & Hs0 & E0) [= <- <-]. eapply reach_kept_insert; [exact Hs0 | congruence]. Qed.

Lemma keeps_get_sub {A} i (f : subscriber -> M A) : (forall s, keeps_at i (reachable s) (f s)) -> keeps (get_sub i ≫= f).
Proof.
  intros Hf w y w' E. apply M_bind_inv in E as (s & w1 & E1 & E2). unfold get_sub in E1.
  destruct (subscribers (w_dir w) !! i) as [s0 |] eqn:Hs; [| done]. injection E1 as <- <-.
  eapply Hf; [| exact E2]. by exists s0.
Qed.

Section addresses.
Context `{Allocator}.
Context (gettime_ms : nat -> Z) (my_subscriber : option nat).

Lemma keeps_append_payload c f op : keeps (append_payload c f op).
Proof.
  unfold append_payload. destruct (payload f); [| done]. apply keeps_bind; [auto with keeps | intros []; auto with keeps].
Qed.

Lemma keeps_now : keeps (now gettime_ms).
Proof. apply keeps_same. by intros w x w' [= <- <-]. Qed.

Lemma keeps_link_explained i : keeps (link_explained i).
Proof. apply keeps_same. by intros w x w' [= <- <-]. Qed.

Lemma keeps_add_explain_response i c : keeps (add_explain_response gettime_ms my_subscriber i c).
Proof.
  unfold add_explain_response. apply keeps_bind; [apply keeps_now | intros t]. apply keeps_get_sub. intros s.
  destruct (_ <? 500); [apply keeps_at_keeps; auto with keeps |].
  apply keeps_at_bind; [by apply keeps_at_put | intros _]. apply keeps_at_bind.
  { destruct (_ =? _); [by apply keeps_at_put | apply keeps_at_keeps; auto with keeps]. }
  intros _. apply keeps_at_keeps. destruct (_ && _); [auto with keeps |].
  apply keeps_bind; [apply keeps_append_payload | intros [r c1]]. destruct (negb _); [auto with keeps |].
  apply keeps_bind; [apply keeps_append_payload | intros [r2 c2]]. destruct (negb _); [auto with keeps |].
  apply keeps_bind; [apply keeps_link_explained | auto with keeps].
Qed.

Lemma keeps_explain_matching id len c : keeps (explain_matching gettime_ms my_subscriber id len c).
Proof.
  unfold explain_matching. intros w x w'.
  destruct (walk_tree _ _ _ _ _ _ _ _ _) as [[stop [c1 w1]] |] eqn:E; [| done]. cbn. intros [= <- <-].
  apply (walk_tree_inv (fun st => reach_kept (subscribers (w_dir w)) (subscribers (w_dir (snd st))))) in E.
  - done.
  - intros j [c2 w2] stop2 [c3 w3]. destruct (add_explain_response _ _ j c2 w2) as [[[b c4] w4] |] eqn:E2; [| done]. cbn.
    intros [= <- <- <-] HP. eapply reach_kept_trans; [exact HP |]. by eapply keeps_add_explain_response.
  - apply reach_kept_refl.
Qed.

Lemma keeps_overlay_address_parse c b v : keeps (overlay_address_parse gettime_ms my_subscriber c b v).
Proof.
  unfold overlay_address_parse. apply keeps_bind; [auto with keeps | intros [len b1]].
  destruct (len <? 0); [auto with keeps |]. destruct (len =? OA_CODE_SELF).
  { destruct (sender c); [| auto with keeps]. destruct v; [auto with keeps | done]. }
  destruct (len =? OA_CODE_PREVIOUS).
  { destruct (previous c); [| auto with keeps]. destruct v; [auto with keeps | done]. }
  unfold find_subscr_buffer. destruct (_ || _); [auto with keeps |].
  apply keeps_bind; [auto with keeps | intros [p b2]]. destruct p as [p |]; [| auto with keeps].
  destruct v; [| auto with keeps]. apply keeps_bind; [auto with keeps | intros id].
  apply keeps_bind; [auto with keeps | intros r]. destruct r; [auto with keeps |].
  apply keeps_bind; [apply keeps_explain_matching | intros c1].
  apply keeps_bind; [apply keeps_append_payload | intros [r1 c2]].
  apply keeps_bind; [apply keeps_append_payload | intros [r2 c3]]. auto with keeps.
Qed.
End addresses.

(** ** Processing and forwarding *)

Lemma self_kept w w' p :
  reach_kept (subscribers (w_dir w)) (subscribers (w_dir w')) -> self_of w p = true -> self_of w' p = true.
Proof.
  unfold self_of. intros K. destruct p as [i |]; [| done]. cbn [mbind option_bind].
  destruct (subscribers (w_dir w) !! i) as [s |] eqn:Hs; [| done]. destruct (K i s Hs) as (s' & -> & ->). done.
Qed.

Lemma is_self_inv p w x w' : is_self p w = Some (x, w') -> w' = w /\ x = self_of w p.
Proof.
  unfold is_self, self_of. destruct p as [i |]; [| by intros [= <- <-]]. intros E.
  apply M_bind_inv in E as (s & w1 & E1 & E2). unfold get_sub in E1. cbn [mbind option_bind].
  destruct (subscribers (w_dir w) !! i) as [s0 |]; [| done]. injection E1 as <- <-. by injection E2 as <- <-.
Qed.

(** What is left of a frame after its destination was read. *)
Record target_safe (oh : bool) (h : header) (w : world) : Prop := {
  ts_process : h_process h = true -> destination (h_frame h) = None \/ self_of w (destination (h_frame h)) = true;
  ts_forward : h_forward h = true -> destination (h_frame h) = None \/ oh = true \/ self_of w (h_nexthop h) = true
}.

Section safety.
Context `{Allocator}.
Context (gettime_ms : nat -> Z) (my_subscriber : option nat).
Context (relay : option nat -> bool) (duplicate : option nat -> option Z -> Z -> Z -> bool).

Lemma next_byte_inv h w x h' w' : next_byte h w = Some ((x, h'), w') -> w' = w /\ exists b, h' = with_buffer h b.
Proof.
  unfold next_byte. intros E. apply M_bind_inv in E as ([y b] & w1 & E1 & E2). injection E2 as <- <- <-. unfold get_byte in E1.
  destruct (ob_get _ _) as [[y' b'] |]; [| done]. injection E1 as <- <- <-. split; [done | by exists b'].
Qed.

Lemma parse_broadcast_safe flags h w h' w' :
  parse_broadcast relay flags h w = Some ((false, h'), w') -> target_safe (one_hop flags) h' w'.
Proof.
  unfold parse_broadcast. destruct (has flags PAYLOAD_FLAG_ONE_HOP).
  { intros [= <- <-]. split; intros _; by left. }
  intros E. apply M_bind_inv in E as ([id b] & w1 & _ & E). destruct id; [| done].
  apply M_bind_inv in E as (seen & w2 & _ & [= <- <-]). split; intros _; by left.
Qed.

Lemma parse_destination_safe flags h w h' w' :
  parse_destination gettime_ms my_subscriber flags h w = Some ((false, h'), w') -> target_safe (one_hop flags) h' w'.
Proof.
  unfold parse_destination, one_hop. intros E. apply M_bind_inv in E as ([[r d] h1] & w1 & _ & E).
  destruct (r <? 0); [done |]. apply M_bind_inv in E as (x & w2 & E1 & E). apply is_self_inv in E1 as [-> ->].
  destruct (has flags PAYLOAD_FLAG_ONE_HOP).
  { injection E as <- <-. split; cbn; [| auto]. intros [_ Hs]%andb_true_iff. by right. }
  apply M_bind_inv in E as ([[r2 n] h2] & w3 & E2 & E). destruct (r2 <? 0); [done |].
  apply M_bind_inv in E as (y & w4 & E3 & [= <- <-]). apply is_self_inv in E3 as [-> ->].
  unfold parse_address in E2. apply M_bind_inv in E2 as ([[[r3 c3] b3] s3] & w5 & E4 & [= <- <- <- <-]).
  apply keeps_overlay_address_parse in E4. split; cbn.
  - intros [[_ Hs]%andb_true_iff _]%andb_true_iff. right. by eapply self_kept.
  - intros [_ Hs]%andb_true_iff. right. by right.
Qed.

(** The later fields leave the destination and the next hop, and take permissions away only. *)
Record later (h : header) (w : world) (h' : header) (w' : world) : Prop := {
  lt_world : w' = w;
  lt_destination : destination (h_frame h') = destination (h_frame h);
  lt_nexthop : h_nexthop h' = h_nexthop h;
  lt_process : h_process h' = true -> h_process h = true;
  lt_forward : h_forward h' = true -> h_forward h = true
}.

Lemma parse_ttl_safe flags h w h' w' :
  parse_ttl flags h w = Some ((false, h'), w') ->
  later h w h' w' /\ (h_forward h' = true -> 0 < ttl (h_frame h') /\ one_hop flags = false).
Proof.
  unfold parse_ttl, one_hop. intros E. apply M_bind_inv in E as ([failed h1] & w1 & E1 & E).
  destruct failed; [done |]. injection E as <- <-.
  assert (A : later h w h1 w1 /\ 0 <= ttl (h_frame h1) /\ (has flags PAYLOAD_FLAG_ONE_HOP = true -> ttl (h_frame h1) = 1)).
  { destruct (has flags PAYLOAD_FLAG_ONE_HOP).
    - injection E1 as <- <-. cbn. split; [done | lia].
    - apply M_bind_inv in E1 as ([x h2] & w2 & E2 & E1). apply next_byte_inv in E2 as [-> [b ->]].
      destruct (x <? 0); [done |]. injection E1 as <- <-. cbn. split; [done | split; [apply Z.land_nonneg; lia | done]]. }
  destruct A as ([-> L1 L2 L3 L4] & Ht & Ho). split.
  - split; [done | exact L1 | exact L2 | |]; cbn; intros [? _]%andb_true_iff; auto.
  - cbn. intros [_ Hn]%andb_true_iff. apply negb_true_iff, Z.eqb_neq in Hn.
    destruct (Z.eqb_spec (ttl (h_frame h1)) 0); [done |]. split; [lia |].
    destruct (has flags PAYLOAD_FLAG_ONE_HOP); [| done]. specialize (Ho eq_refl). lia.
Qed.

Lemma parse_type_safe flags h w h' w' :
  parse_type flags h w = Some ((false, h'), w') -> later h w h' w' /\ ttl (h_frame h') = ttl (h_frame h).
Proof.
  unfold parse_type. destruct (has _ _); [| by intros [= <- <-]]. intros E.
  apply M_bind_inv in E as ([x h1] & w1 & E1 & E). apply next_byte_inv in E1 as [-> [b ->]].
  destruct (x =? -1); [done |]. by injection E as <- <-.
Qed.

Lemma parse_sequence_safe flags h w h' w' :
  parse_sequence duplicate flags h w = Some ((false, h'), w') -> later h w h' w' /\ ttl (h_frame h') = ttl (h_frame h).
Proof.
  unfold parse_sequence. destruct (1 <=? _); [| by intros [= <- <-]]. intros E.
  apply M_bind_inv in E as ([x h1] & w1 & E1 & E). apply next_byte_inv in E1 as [-> [b ->]].
  destruct (x =? -1); [done |]. injection E as <- <-. split; [split; cbn; try done |done]; by intros [? _]%andb_true_iff.
Qed.

Lemma and_then_inv (p q : part) h w h' w' :
  and_then p q h w = Some ((false, h'), w') -> exists h1 w1, p h w = Some ((false, h1), w1) /\ q h1 w1 = Some ((false, h'), w').
Proof.
  unfold and_then. intros E. apply M_bind_inv in E as ([failed h1] & w1 & E1 & E2). destruct failed; [done |]. by exists h1, w1.
Qed.
End safety.

(** [C8] Whatever the bytes of a packet, a frame of it is handed to the code that processes frames
    only if it is a broadcast or its destination is one of our own identities, and it is forwarded
    only if it has hops left, its addresses were all understood, and it is a broadcast or its next
    hop is one of our own identities. *)
Theorem frame_permissions `{Allocator} gettime_ms my_subscriber relay duplicate c f b n w r h w' :
  parseMdpPacketHeader gettime_ms my_subscriber relay duplicate c f b n w = Some ((r, h), w') -> r <> -1 ->
  (has r HEADER_PROCESS = true -> invalid_addresses (h_context h) = false /\
     (destination (h_frame h) = None \/ self_of w' (destination (h_frame h)) = true)) /\
  (has r HEADER_FORWARD = true -> invalid_addresses (h_context h) = false /\ 0 < ttl (h_frame h) /\
     (destination (h_frame h) = None \/ self_of w' (h_nexthop h) = true)).
Proof.
  unfold parseMdpPacketHeader. intros E Hr. apply M_bind_inv in E as ([flags h0] & w0 & _ & E).
  destruct (flags <? 0); [injection E as <- _ _; done |].
  apply M_bind_inv in E as ([failed h1] & w1 & E1 & E). destruct failed; [injection E as <- _ _; done |].
  injection E as <- <- <-. unfold parse_fields in E1.
  apply and_then_inv in E1 as (h2 & w2 & _ & E1). apply and_then_inv in E1 as (h3 & w3 & E3 & E1).
  apply and_then_inv in E1 as (h4 & w4 & E4 & E1). apply and_then_inv in E1 as (h5 & w5 & E5 & E1).
  assert (T : target_safe (one_hop flags) h3 w3).
  { destruct (has flags PAYLOAD_FLAG_TO_BROADCAST); [by eapply parse_broadcast_safe | by eapply parse_destination_safe]. }
  apply parse_ttl_safe in E4 as [[-> D4 N4 P4 F4] T4]. apply parse_type_safe in E5 as [[-> D5 N5 P5 F5] T5].
  apply parse_sequence_safe in E1 as [[-> D1 N1 P1 F1] T1]. destruct T as [TP TF].
  set (hf := keep _ _ _).
  assert (Ed : destination (h_frame hf) = destination (h_frame h3)) by (rewrite <- D4, <- D5, <- D1; reflexivity).
  assert (En : h_nexthop hf = h_nexthop h3) by (rewrite <- N4, <- N5, <- N1; reflexivity).
  assert (Et : ttl (h_frame hf) = ttl (h_frame h4)) by (rewrite <- T5, <- T1; reflexivity).
  assert (Ei : invalid_addresses (h_context hf) = invalid_addresses (h_context h1)) by reflexivity.
  assert (B : forall x y : bool, has (Z.lor (if x then HEADER_FORWARD else 0) (if y then HEADER_PROCESS else 0)) HEADER_PROCESS = y /\
    has (Z.lor (if x then HEADER_FORWARD else 0) (if y then HEADER_PROCESS else 0)) HEADER_FORWARD = x) by (by intros [] []).
  rewrite (proj1 (B _ _)), (proj2 (B _ _)), Ed, En, Et, Ei.
  split; intros [Hp Hv%negb_true_iff]%andb_true_iff.
  - split; [done |]. auto.
  - split; [done |]. destruct (T4 (F5 (F1 Hp))) as [Ht Ho]. split; [done |].
    destruct (TF (F4 (F5 (F1 Hp)))) as [| [Ho' |]]; [by left | congruence | by right].
Qed.

(** A broadcast with four hops left, from the sender of the packet. *)
Definition broadcast_world : world := set_mem world0 {[1%positive := [3; 1; 2; 3; 4; 5; 6; 7; 8; 5]]}.
Definition broadcast_buffer : overlay_buffer := mk_ob (Some (mkptr 1 0)) 0 0 10 10 None 0.
Definition broadcast_context : decode_context := mk_context None 0 0 ENCAP_OVERLAY 0 false None (Some 1%nat) None.

Lemma frame_permissions_witness :
  exists h w', parseMdpPacketHeader (fun _ => 0) None (fun _ => true) (fun _ _ _ _ => false) broadcast_context zero_frame
      broadcast_buffer None broadcast_world = Some ((3, h), w') /\
  (has 3 HEADER_PROCESS = true -> invalid_addresses (h_context h) = false /\
     (destination (h_frame h) = None \/ self_of w' (destination (h_frame h)) = true)) /\
  (has 3 HEADER_FORWARD = true -> invalid_addresses (h_context h) = false /\ 0 < ttl (h_frame h) /\
     (destination (h_frame h) = None \/ self_of w' (h_nexthop h) = true)).
Proof.
  destruct (parseMdpPacketHeader (fun _ => 0) None (fun _ => true) (fun _ _ _ _ => false) broadcast_context zero_frame
      broadcast_buffer None broadcast_world) as [[[r h] w'] |] eqn:E; [| vm_compute in E; discriminate].
  assert (r = 3) as -> by (vm_compute in E; injection E as <- _ _; reflexivity).
  exists h, w'. split; [reflexivity |].
  apply (frame_permissions _ _ _ _ _ _ _ _ _ 3 h w' E). discriminate.
Defined.
