(* ===== verification/PacketFrames.v ===== *)
(** PacketFrames: a whole frame, header, length and payload, through a packet. *)

From S2P Require Import Prelude CMem OverlayBuffer OverlayBufferCodec DataFormats SubscriberTree OverlayAddress PacketFormats PacketRoundtrip.

(** The payload lies outside the memory the packet buffer writes to. *)
Definition payload_apart (b pl : overlay_buffer) : Prop := forall q, bytes pl = Some q -> apart b (p_blk q).

Lemma payload_kept b pl m b' m' d :
  payload_apart b pl -> ob_data m pl = Some d ->
  (forall k l, m !! k = Some l -> apart b k -> m' !! k = Some l /\ apart b' k) ->
  ob_data m' pl = Some d /\ payload_apart b' pl.
Proof.
  unfold payload_apart, ob_data, bytes_at, loadbytes. destruct (bytes pl) as [q |]; [| done]. intros Ha Hd Hf.
  destruct (m !! p_blk q) as [l |] eqn:El; [| done]. destruct (Hf _ _ El (Ha q eq_refl)) as [-> Ha'].
  split; [done |]. by intros q' [= <-].
Qed.

Lemma ready_checkpoint w b n : ready w b n -> ready w (set_checkpointLength b (position b)) n.
Proof.
  intros [[W1 W2 W3 W4 W5 W6] D F]. split; [split; cbn; try done | done | done].
  destruct W4 as [| [? ?]]; [by left | right; lia].
Qed.

Section build.
Context `{Allocator}.
Hypothesis never : never_refuses.

Lemma writes_ui16 c b w x : ready w b 2 -> 0 <= x < 2 ^ 16 ->
  writes (append_ui16 x) c b w (fun c' w' d => c' = c /\ d = be16 x).
Proof.
  intros [W D F] Hx.
  destruct (append_written never w b (fun _ => Some (be16 (u16 x))) 2 (be16 x)) as (b' & m' & E & Wr); try done.
  - repeat constructor; apply land_byte.
  - intros _ _ _. unfold u16. by rewrite Z.mod_small.
  - exists c, b', (set_mem w m'), (be16 x). split_and!; try done.
    unfold append_ui16, ob_append_ui16. by rewrite (M_bind_Some _ _ _ _ _ E).
Qed.

Lemma writes_buffer c b w pl d : ready w b (position pl) -> are_bytes d -> zlen d = position pl ->
  ob_data (w_mem w) pl = Some d -> payload_apart b pl -> writes (append_buffer pl) c b w (fun c' w' d' => c' = c /\ d' = d).
Proof.
  intros [W D F] Hb Hl Hd Ha.
  destruct (append_written never w b (fun m' => bytes_at m' (bytes pl) 0 (position pl)) (position pl) d)
    as (b' & m' & E & Wr); try done.
  - intros b1 m1 MS. exact (proj1 (payload_kept b pl (w_mem w) b1 m1 d Ha Hd (fun k l => made_space_apart _ _ _ _ _ k l W MS))).
  - exists c, b', (set_mem w m'), d. split_and!; try done.
    unfold append_buffer, ob_append_buffer. by rewrite (M_bind_Some _ _ _ _ _ E).
Qed.

(** The payload of a frame can be sent. *)
Record payload_ok (w : world) (b pl : overlay_buffer) (d : list Z) : Prop := {
  po_wf : ob_wf (w_mem w) pl;
  po_data : ob_data (w_mem w) pl = Some d;
  po_length : position pl < 2 ^ 16;
  po_apart : payload_apart b pl
}.

Lemma append_frame_writes c b w p pl d :
  payload p = Some pl -> ready w b (HEADER_MAX + (2 + position pl)) -> frame_ok c w p -> payload_ok w b pl d ->
  exists c' b' w' dh, overlay_frame_append_payload p c b w = Some ((0, c', b'), w') /\
    written w (set_checkpointLength b (position b)) w' b' (dh ++ be16 (zlen d) ++ d) /\
    layout_of (sender c) (previous c) (subscribers (w_dir w')) (flags_of c p) p dh.
Proof.
  intros Hp Hr%ready_checkpoint Hok [Wp Hd Hl Ha]. unfold overlay_frame_append_payload. rewrite Hp.
  set (b0 := set_checkpointLength b (position b)) in *.
  destruct (ob_wf_data _ _ Wp) as (d' & Hd' & Hz & Hb). assert (d' = d) as -> by congruence.
  pose proof (wf_position _ _ Wp) as Hpos.
  assert (Wt : writes (build_header p ;? append_ui16 (ob_position pl) ;? append_buffer pl)%step c b0 w (fun c' w' dd =>
    exists dh, dd = dh ++ be16 (zlen d) ++ d /\ layout_of (sender c) (previous c) (subscribers (w_dir w')) (flags_of c p) p dh)).
  { eapply writes_seq_written; [exact Hr | lia | eapply build_header_writes; [done | eapply ready_le; [| exact Hr]; lia | done] | by intros c' w' dd (_ & ? & _) |].
    intros c1 b1 w1 d1 (_ & _ & Lay) W1 R1. destruct (payload_kept b0 pl _ b1 _ d Ha Hd (wr_frame _ _ _ _ _ W1)) as [Hd1 Ha1].
    eapply (writes_seq_written _ _ c1 b1 w1 2 (position pl)); [exact R1 | lia | apply writes_ui16; [eapply ready_le; [| exact R1]; lia | unfold ob_position; lia] | by intros c' w' dd [_ ->] |].
    intros c2 b2 w2 d2 [-> ->] W2 R2. destruct (payload_kept b1 pl _ b2 _ d Ha1 Hd1 (wr_frame _ _ _ _ _ W2)) as [Hd2 Ha2].
    eapply writes_conseq; [apply (writes_buffer c1 b2 w2 pl d R2) |]; try done.
    intros c3 w3 d3 [-> ->] K3. exists d1. unfold ob_position. rewrite <- Hz. split; [done |].
    destruct Lay as (p1 & p2 & ds & dt & F1 & F2 & ->). exists p1, p2, ds, dt.
    pose proof (same_keys_trans _ _ _ (wr_keys _ _ _ _ _ W2) K3) as K.
    split; [by eapply address_field_keys | split; [by eapply target_field_keys | done]]. }
  destruct Wt as (c' & b' & w' & dd & E & Wr & dh & -> & Lay). exists c', b', w', dh.
  rewrite (M_bind_Some _ _ _ _ _ E). done.
Qed.
End build.

(** ** Reading a frame *)

Lemma get_ui16_readable w b x r :
  0 <= x < 2 ^ 16 -> readable w b (be16 x ++ r) ->
  ob_get_ui16 b (w_mem w) = Some (x, set_position b (position b + 2)) /\ readable w (set_position b (position b + 2)) r.
Proof.
  intros Hx Hr. pose proof (readable_bound _ _ _ Hr) as Hb. destruct Hr as [W Hd].
  destruct (be16_value x Hx) as (b0 & b1 & E & B0 & B1 & Ev). rewrite E in Hd, Hb. cbn [app length] in Hd, Hb.
  pose proof (ob_get_bytes_spec _ _ 2 _ W Hd ltac:(lia) ltac:(lia)) as HG.
  rewrite (proj2 (Z.leb_le 2 _)) in HG by (cbn [length]; lia). destruct HG as (_ & R2 & W2).
  split; [| split; [exact W2 | exact R2]].
  destruct (ob_wf_rest _ _ W) as (d & Hd' & Hl & _). assert (d = b0 :: b1 :: r) as -> by congruence. cbn [length] in Hl.
  pose proof (wf_position _ _ W). unfold ob_get_ui16. rewrite test_offset_spec by (unfold INT_MIN; lia). cbn [mbind option_bind]. zdecide.
  cbn [negb Z.eqb]. pose proof (ob_rest_bytes _ _ _ _ Hd) as Hne.
  destruct (bytes b) as [p |] eqn:Ep; [| done]. rewrite <- Ep in Hne. cbn [mbind option_bind].
  assert (HL : forall i, 0 <= i < zlen (b0 :: b1 :: r) -> load (w_mem w) p (position b + i) = zget (b0 :: b1 :: r) i).
  { intros i Hi. destruct (load_rest _ b _ i Hne Hd Hi) as (q & Eq & HL). congruence. }
  rewrite <- (Z.add_0_r (position b)) at 1. rewrite !HL by (cbn [length]; lia). cbn [zget Z.leb Z.compare lookup list_lookup mbind option_bind].
  change (Z.to_nat 1) with 1%nat. change (Z.to_nat 0) with 0%nat. cbn [lookup list_lookup mbind option_bind].
  unfold is_byte in *. rewrite lor_shiftl_add by lia. unfold u16. rewrite Z.mod_small by lia. by rewrite Ev.
Qed.


(** The sample frame with a payload of three bytes. *)
Definition payload_world : world := set_mem world0 {[9%positive := [10; 11; 12]]}.
Definition payload_buffer : overlay_buffer := mk_ob (Some (mkptr 9 0)) 0 3 (-1) 3 None 0.
Definition payload_frame : overlay_frame := set_payload sample_frame (Some payload_buffer).

(** The bytes of that frame, as another node finds them. *)
Definition payload_bytes : list Z :=
  match overlay_frame_append_payload payload_frame context0 (mk_ob None 0 0 (-1) 0 None 0) payload_world with
  | Some ((_, _, b1), w1) => default [] (ob_data (w_mem w1) b1)
  | None => []
  end.
Definition other_world : world := mk_world other_directory (bpilist_of []) {[1%positive := payload_bytes]} 0 0 [] [].
Definition other_buffer : overlay_buffer :=
  mk_ob (Some (mkptr 1 0)) 0 0 (zlen payload_bytes) (zlen payload_bytes) None 0.

