(* ===== verification/RouteLinks.v ===== *)
(** RouteLinks: route_link.c, the links a neighbour has told us about.

    Every neighbour has an unbalanced tree of the links it reported, searched by the
    identifier of the receiver.  A link is the end of one path from us through the
    neighbour: its transmitter is the receiver of the link before it.  The nodes of the
    tree are [link_tree]; the other fields of [struct link] are in a store addressed by
    the receiver, which is what a [struct link *] of that neighbour points to, so that
    what is written through [parent] is seen by a search of the tree.  [update_path_score]
    walks the path and keeps the result in every link it visits. *)

From S2P Require Import Prelude DataFormats SubscriberTree.

(** [struct link] without its children and its receiver. *)
Record link := mk_link {
  transmitter : option nat;
  parent : option nat;
  l_interface : option nat;
  last_ack_seq : Z;
  path_version : Z;
  link_version : Z;
  drop_rate : Z;
  hop_count : Z;
  path_drop_rate : Z;
  calculating : bool
}.

Definition set_parent (l : link) (p : option nat) : link :=
  mk_link (transmitter l) p (l_interface l) (last_ack_seq l) (path_version l) (link_version l)
    (drop_rate l) (hop_count l) (path_drop_rate l) (calculating l).
Definition set_calculating (l : link) : link :=
  mk_link (transmitter l) (parent l) (l_interface l) (last_ack_seq l) (path_version l)
    (link_version l) (drop_rate l) (hop_count l) (path_drop_rate l) true.
Definition set_score (l : link) (hops version drop : Z) : link :=
  mk_link (transmitter l) (parent l) (l_interface l) (last_ack_seq l) version (link_version l)
    (drop_rate l) hops drop false.

Inductive link_tree := Leaf | Branch (_left : link_tree) (receiver : nat) (_right : link_tree).

(** The part of [struct neighbour] that holds its links. *)
Record link_table := mk_table {
  t_subscriber : nat;
  t_path_version : Z;
  t_root : link_tree;
  t_store : gmap nat link
}.

Definition set_store (n : link_table) (st : gmap nat link) : link_table :=
  mk_table (t_subscriber n) (t_path_version n) (t_root n) st.
Definition put_link (n : link_table) (i : nat) (l : link) : link_table :=
  set_store n (<[i := l]> (t_store n)).

(** The sign of [memcmp] on two identifiers: is the first less? *)
Fixpoint memcmp_lt (a b : list Z) : bool :=
  match a, b with
  | x :: a, y :: b => (x <? y) || ((x =? y) && memcmp_lt a b)
  | _, _ => false
  end.

Section route_links.
(** Whether [char] is signed, which the language leaves to the platform; the objects
    behind subscriber pointers; our own identity. *)
Context (char_signed : bool) (subs : list subscriber) (my_subscriber : option nat).

Definition to_char (z : Z) : Z := if char_signed then (z + 128) mod 256 - 128 else z mod 256.

Definition sid_less (i j : nat) : option bool :=
  a ← subs !! i; b ← subs !! j; Some (memcmp_lt (sid a) (sid b)).

(** The loop of [find_link]: was the receiver there, and the tree afterwards. *)
Fixpoint find_link_loop (t : link_tree) (receiver : nat) (create : bool)
    : option (bool * link_tree) :=
  match t with
  | Leaf => Some (false, if create then Branch Leaf receiver Leaf else Leaf)
  | Branch lt k rt =>
      if bool_decide (receiver = k) then Some (true, t)
      else
        less ← sid_less receiver k;
        if less : bool
        then '(found, lt) ← find_link_loop lt receiver create;
             Some (found, Branch lt k rt)
        else '(found, rt) ← find_link_loop rt receiver create;
             Some (found, Branch lt k rt)
  end.

Definition new_link (n : link_table) : link :=
  mk_link None None None (-1) (to_char (t_path_version n - 1)) (to_char (-1)) 0 0 0 false.

Definition find_link (n : link_table) (receiver : nat) (create : bool)
    : option (option nat * link_table) :=
  '(found, root) ← find_link_loop (t_root n) receiver create;
  if found : bool then Some (Some receiver, n)
  else if create
  then Some (Some receiver, mk_table (t_subscriber n) (t_path_version n) root
                              (<[receiver := new_link n]> (t_store n)))
  else Some (None, n).

Definition get_parent (n : link_table) (i : nat) : option (option nat * link_table) :=
  l ← t_store n !! i;
  match transmitter l with
  | None => Some (None, n)
  | Some t =>
      if bool_decide (i = t_subscriber n) then Some (None, n)
      else match parent l with
      | Some p => Some (Some p, n)
      | None =>
          '(p, n) ← find_link n t false;
          Some (p, put_link n i (set_parent l p))
      end
  end.

(** The recursion stops at a link that is being calculated, so as many calls nest as
    there are links; [fuel] bounds them. *)
Fixpoint update_path_score (fuel : nat) (n : link_table) (i : nat) : option link_table :=
  l ← t_store n !! i;
  if path_version l =? t_path_version n then Some n
  else if calculating l then Some n
  else match fuel with
  | O => None
  | S fuel =>
      let n := put_link n i (set_calculating l) in
      '(hops, drop, n) ← (
        if bool_decide (transmitter l = my_subscriber)
        then Some (if bool_decide (i = t_subscriber n) then 1 else -1, 0, n)
        else
          '(p, n) ← get_parent n i;
          match p with
          | None => Some (-1, 0, n)
          | Some p =>
              pl ← t_store n !! p;
              if calculating pl then Some (-1, 0, n)
              else
                n ← update_path_score fuel n p;
                pl ← t_store n !! p;
                if 0 <? hop_count pl
                then hops ← ci (hop_count pl + 1); Some (hops, path_drop_rate pl, n)
                else Some (-1, 0, n)
          end);
      l ← t_store n !! i;
      drop ← (if 2 <? drop_rate l then ci (drop + drop_rate l) else Some drop);
      Some (put_link n i (set_score l hops (t_path_version n) drop))
  end.

End route_links.

(** ** The tree *)

Fixpoint receivers (t : link_tree) : list nat :=
  match t with Leaf => [] | Branch l k r => receivers l ++ k :: receivers r end.

(** Every receiver is where the search looks for it. *)
Fixpoint search_ok (subs : list subscriber) (t : link_tree) : Prop :=
  match t with
  | Leaf => True
  | Branch l k r =>
      search_ok subs l /\ search_ok subs r /\
      Forall (fun j => j <> k /\ sid_less subs j k = Some true) (receivers l) /\
      Forall (fun j => j <> k /\ sid_less subs j k = Some false) (receivers r)
  end.

Definition known (subs : list subscriber) (i : nat) : Prop := is_Some (subs !! i).

Lemma sid_less_known subs i j : known subs i -> known subs j -> exists b, sid_less subs i j = Some b.
Proof. intros [a Ha] [b Hb]. unfold sid_less. rewrite Ha, Hb. cbn. eauto. Qed.

(** What the loop of [find_link] does to a tree in search order. *)
Lemma find_link_loop_spec subs t r create :
  search_ok subs t -> Forall (known subs) (receivers t) -> known subs r ->
  exists t', find_link_loop subs t r create = Some (bool_decide (r ∈ receivers t), t') /\
    search_ok subs t' /\
    (forall x, x ∈ receivers t' <-> x ∈ receivers t \/ (create = true /\ x = r)) /\
    (r ∈ receivers t \/ create = false -> t' = t).
Proof.
  intros Hs Hk Hr. induction t as [|lt IHl k rt IHr].
  { exists (if create then Branch Leaf r Leaf else Leaf). rewrite bool_decide_false by set_solver.
    destruct create; cbn; repeat split; auto; set_solver. }
  destruct Hs as (Hsl & Hsr & Hl & Hrt). cbn [receivers] in Hk.
  apply Forall_app in Hk as [Hkl [Hkk Hkr]%Forall_cons].
  cbn [find_link_loop receivers]. destruct (decide (r = k)) as [->|Hne].
  { rewrite !bool_decide_true by set_solver. eexists. repeat split; eauto; set_solver. }
  rewrite (bool_decide_false (r = k)) by done.
  destruct (sid_less_known subs r k Hr Hkk) as [b Hb]. rewrite Hb. cbn [mbind option_bind].
  assert (Hnl : b = false -> r ∉ receivers lt).
  { intros -> Hin. rewrite Forall_forall in Hl. destruct (Hl _ Hin). congruence. }
  assert (Hnr : b = true -> r ∉ receivers rt).
  { intros -> Hin. rewrite Forall_forall in Hrt. destruct (Hrt _ Hin). congruence. }
  destruct b.
  - destruct (IHl Hsl Hkl) as (t' & -> & Hs' & Hel & Hsame). cbn.
    exists (Branch t' k rt). split.
    { do 2 f_equal. apply bool_decide_ext. specialize (Hnr eq_refl). set_solver. }
    repeat split; auto.
    + apply Forall_forall. intros x [Hx|[_ ->]]%Hel; [|done]. by rewrite Forall_forall in Hl; apply Hl.
    + cbn. intros Hx. specialize (Hel x). set_solver.
    + cbn. specialize (Hel x). set_solver.
    + intros Hx. rewrite Hsame; [done|]. specialize (Hnr eq_refl). set_solver.
  - destruct (IHr Hsr Hkr) as (t' & -> & Hs' & Hel & Hsame). cbn.
    exists (Branch lt k t'). split.
    { do 2 f_equal. apply bool_decide_ext. specialize (Hnl eq_refl). set_solver. }
    repeat split; auto.
    + apply Forall_forall. intros x [Hx|[_ ->]]%Hel; [|done]. by rewrite Forall_forall in Hrt; apply Hrt.
    + cbn. intros Hx. specialize (Hel x). set_solver.
    + cbn. specialize (Hel x). set_solver.
    + intros Hx. rewrite Hsame; [done|]. specialize (Hnl eq_refl). set_solver.
Qed.

(** ** Paths *)

Definition loss (l : link) : Z := if 2 <? drop_rate l then drop_rate l else 0.

(** The receiver of the link before this one: that of the parent that was found before, and the
    transmitter while none was. *)
Definition before (l : link) : option nat :=
  match parent l with Some p => Some p | None => transmitter l end.

Section paths.
Context (me n : nat).

(** The links of neighbour [n] form a path of [h] hops from us to [i] that loses [d]. *)
Inductive route (st : gmap nat link) : nat -> Z -> Z -> Prop :=
| route_first l :
    st !! n = Some l -> transmitter l = Some me -> route st n 1 (loss l)
| route_next i l t p h d :
    st !! i = Some l -> transmitter l = Some t -> t <> me -> i <> n -> before l = Some p -> route st p h d ->
    route st i (h + 1) (d + loss l).

(** The same, by the transmitters that the neighbour reported last. *)
Inductive reported (st : gmap nat link) : nat -> Z -> Z -> Prop :=
| reported_first l :
    st !! n = Some l -> transmitter l = Some me -> reported st n 1 (loss l)
| reported_next i l t h d :
    st !! i = Some l -> transmitter l = Some t -> t <> me -> i <> n -> reported st t h d ->
    reported st i (h + 1) (d + loss l).

(** Every parent is the link to the transmitter: none was found before the transmitter changed. *)
Definition parents_current (st : gmap nat link) : Prop :=
  forall i l p, st !! i = Some l -> parent l = Some p -> transmitter l = Some p.

Lemma before_current st i l t :
  parents_current st -> st !! i = Some l -> transmitter l = Some t -> before l = Some t.
Proof. intros C Hl Ht. unfold before. destruct (parent l) eqn:Hp; [|done]. rewrite <-Ht. symmetry. by eapply C. Qed.

Lemma route_reported st i h d : parents_current st -> route st i h d <-> reported st i h d.
Proof.
  intros C. split; induction 1 as [l Hl Ht|].
  - by apply reported_first.
  - eapply reported_next; eauto. rewrite (before_current st i l t) in * by done. by simplify_eq.
  - by apply route_first.
  - eapply route_next; eauto. by eapply before_current.
Qed.

(** The link before [i] on a path. *)
Definition step_to (st : gmap nat link) (i p : nat) : Prop :=
  exists l t, st !! i = Some l /\ transmitter l = Some t /\ t <> me /\ i <> n /\ before l = Some p.

Lemma route_fun st i h d : route st i h d -> forall h' d', route st i h' d' -> h = h' /\ d = d'.
Proof.
  induction 1 as [l Hl Ht|i l t p h d Hl Ht Hne Hi Hb _ IH]; intros h' d' H';
    inversion H'; subst; simplify_eq; auto.
  edestruct IH; [eassumption|]. subst. auto.
Qed.

Lemma route_step st i t h d : route st i h d -> step_to st i t -> exists d', route st t (h - 1) d'.
Proof.
  intros H (l & u & Hl & Ht & Hm & Hi & Hb). inversion H; subst; simplify_eq.
  eexists. rewrite Z.add_simpl_r. eassumption.
Qed.

Lemma route_tc st i j h d :
  tc (step_to st) i j -> route st i h d -> exists h' d', route st j h' d' /\ h' < h.
Proof.
  intros Htc. revert h d. induction Htc as [i j Hs|i j k Hs _ IH]; intros h d H;
    destruct (route_step _ _ _ _ _ H Hs) as [d' H']; [exists (h - 1), d'; split; [done|lia]|].
  destruct (IH _ _ H') as (h2 & d2 & H2 & Hlt). exists h2, d2. split; [done|lia].
Qed.

(** A link whose path comes back to it has no path from us. *)
Lemma route_acyclic st i h d : tc (step_to st) i i -> ~ route st i h d.
Proof.
  intros Hc H. destruct (route_tc _ _ _ _ _ Hc H) as (h' & d' & H' & Hlt).
  destruct (route_fun _ _ _ _ H _ _ H'). lia.
Qed.

Lemma route_nodes st i h d :
  route st i h d ->
  exists L, zlen L = h /\ NoDup L /\
    forall x, x ∈ L -> is_Some (st !! x) /\ exists h' d', route st x h' d' /\ h' <= h.
Proof.
  induction 1 as [l Hl Ht|i l t p h d Hl Ht Hm Hi Hb Hr (L & HL & Hnd & Hx)].
  { exists [n]. split_and!; [done|apply NoDup_singleton|]. intros x ->%list_elem_of_singleton.
    split; [eauto|]. exists 1, (loss l). split; [by apply route_first|lia]. }
  assert (Hi' : route st i (h + 1) (d + loss l)) by (by eapply route_next).
  exists (i :: L). split_and!.
  - cbn [length]. lia.
  - apply NoDup_cons. split; [|done]. intros Hin. destruct (Hx _ Hin) as (_ & h' & d' & H' & Hle).
    destruct (route_fun _ _ _ _ Hi' _ _ H'). lia.
  - intros x [->|Hin]%elem_of_cons; [split; [eauto|]; exists (h + 1), (d + loss l); split; [done|lia]|].
    destruct (Hx _ Hin) as (? & h' & d' & ? & ?). split; [done|]. exists h', d'. split; [done|lia].
Qed.

(** A path is no longer than there are links. *)
Lemma route_bound st i h d : route st i h d -> 1 <= h <= Z.of_nat (size st).
Proof.
  intros H. split; [induction H; lia|].
  destruct (route_nodes _ _ _ _ H) as (L & <- & Hnd & Hx). apply inj_le.
  rewrite <-(size_dom (D := gset nat)). unfold size, set_size.
  apply submseteq_length, NoDup_submseteq; [done|].
  intros x Hin. apply elem_of_elements, elem_of_dom. by apply Hx.
Qed.

Lemma route_loss st i h d :
  (forall j l, st !! j = Some l -> drop_rate l <= 255) -> route st i h d -> 0 <= d <= 255 * h.
Proof.
  intros Hd. assert (Hl : forall j l, st !! j = Some l -> 0 <= loss l <= 255).
  { intros j l Hj. specialize (Hd _ _ Hj). unfold loss. zcases; lia. }
  induction 1 as [l Hj|i l t p h d Hj _ _ _ _ _ IH]; specialize (Hl _ _ Hj); lia.
Qed.

Lemma route_some st i h d : route st i h d -> is_Some (st !! i).
Proof. by destruct 1; eexists. Qed.

(** What a path depends on. *)
Definition topology (l : link) : option nat * option nat * Z * Z * Z * option nat :=
  (transmitter l, l_interface l, last_ack_seq l, link_version l, drop_rate l, before l).

Definition same_topology (st st' : gmap nat link) : Prop :=
  forall i, topology <$> st !! i = topology <$> st' !! i.

#[export] Instance same_topology_equiv : Equivalence same_topology.
Proof. split; [done|intros ?? H i; by rewrite H|intros ??? H1 H2 i; by rewrite H1]. Qed.

Lemma same_topology_lookup st st' i l :
  same_topology st st' -> st !! i = Some l ->
  exists l', st' !! i = Some l' /\ topology l' = topology l.
Proof.
  intros H Hl. specialize (H i). rewrite Hl in H. destruct (st' !! i) as [l'|]; [|done].
  exists l'. cbn in H. split; congruence.
Qed.

Lemma route_topology st st' i h d : same_topology st st' -> route st i h d -> route st' i h d.
Proof.
  intros Hs. induction 1 as [l Hl Ht|i l t p h d Hl Ht Hm Hi Hb _ IH];
    destruct (same_topology_lookup _ _ _ _ Hs Hl) as (l' & Hl' & [= E1 E2 E3 E4 E5 E6]).
  - replace (loss l) with (loss l') by (unfold loss; by rewrite E5). apply route_first; congruence.
  - replace (loss l) with (loss l') by (unfold loss; by rewrite E5). eapply (route_next st' i l' t p); eauto; congruence.
Qed.

#[export] Instance route_proper : Proper (same_topology ==> eq ==> eq ==> eq ==> iff) route.
Proof. intros st st' H ? ? -> ? ? -> ? ? ->. split; apply route_topology; [|symmetry]; done. Qed.

#[export] Instance step_to_proper : Proper (same_topology ==> eq ==> eq ==> iff) step_to.
Proof.
  assert (Hd : forall st st' i t, same_topology st st' -> step_to st i t -> step_to st' i t).
  { intros st st' i t H (l & u & Hl & Ht & Hr).
    destruct (same_topology_lookup _ _ _ _ H Hl) as (l' & Hl' & [= E1 _ _ _ _ E6]).
    exists l', u. rewrite E1, E6. auto. }
  intros st st' H ? ? -> ? ? ->. split; apply Hd; [|symmetry]; done.
Qed.

Lemma same_topology_insert st i l l' :
  st !! i = Some l -> topology l' = topology l -> same_topology st (<[i := l']> st).
Proof.
  intros Hl Ht j. destruct (decide (i = j)) as [<-|Hne]; [|by rewrite lookup_insert_ne].
  rewrite lookup_insert_eq, Hl. cbn. by rewrite Ht.
Qed.

End paths.

(** ** The scores kept in the links *)

(** The score of a link is that of the path to its receiver, or says there is none. *)
Definition score_right (me n : nat) (st : gmap nat link) (i : nat) (l : link) : Prop :=
  route me n st i (hop_count l) (path_drop_rate l) \/
  (hop_count l = -1 /\ forall h d, ~ route me n st i h d).

(** More links than a table can have, few enough for path scores to fit an [int]. *)
Definition MAX_LINKS : Z := 2 ^ 22.

(** A table between two calls from outside has [busy = []]. *)
Record table_wf (subs : list subscriber) (me : nat) (busy : list nat) (n : link_table) : Prop := {
  tw_search : search_ok subs (t_root n);
  tw_receivers i : i ∈ receivers (t_root n) <-> is_Some (t_store n !! i);
  tw_known i : is_Some (t_store n !! i) -> known subs i;
  tw_transmitter i l t : t_store n !! i = Some l -> transmitter l = Some t -> known subs t;
  tw_parent i l p : t_store n !! i = Some l -> parent l = Some p -> is_Some (t_store n !! p);
  tw_score i l : t_store n !! i = Some l -> path_version l = t_path_version n ->
    score_right me (t_subscriber n) (t_store n) i l;
  tw_busy i l : t_store n !! i = Some l -> calculating l = bool_decide (i ∈ busy);
  tw_drop i l : t_store n !! i = Some l -> drop_rate l <= 255;
  tw_size : Z.of_nat (size (t_store n)) <= MAX_LINKS
}.

Lemma score_right_proper me n st st' i l :
  same_topology st st' -> score_right me n st i l -> score_right me n st' i l.
Proof.
  intros Hs [H|[Hh H]]; [left; by rewrite <-Hs|right].
  split; [done|]. intros h d. rewrite <-Hs. apply H.
Qed.

(** Writing fields that no path depends on keeps a table well formed. *)
Lemma table_wf_put subs me busy busy' n i l l' :
  table_wf subs me busy n -> t_store n !! i = Some l -> topology l' = topology l ->
  (forall p, parent l' = Some p -> is_Some (t_store n !! p)) ->
  (path_version l' = t_path_version n -> score_right me (t_subscriber n) (t_store n) i l') ->
  calculating l' = bool_decide (i ∈ busy') -> (forall j, j <> i -> j ∈ busy' <-> j ∈ busy) ->
  table_wf subs me busy' (put_link n i l').
Proof.
  intros W Hl Ht Hp Hsc Hc Hb.
  pose proof (same_topology_insert _ _ _ _ Hl Ht) as Hs. injection Ht as E1 E2 E3 E4 E5 E6.
  assert (Hdom : forall j, is_Some (<[i := l']> (t_store n) !! j) <-> is_Some (t_store n !! j)).
  { intros j. rewrite lookup_insert_is_Some. destruct (decide (i = j)) as [<-|?]; naive_solver. }
  split; cbn.
  - apply (tw_search _ _ _ _ W).
  - intros j. rewrite Hdom. apply (tw_receivers _ _ _ _ W).
  - intros j. rewrite Hdom. apply (tw_known _ _ _ _ W).
  - intros j k t [[<- <-]|[Hne Hj]]%lookup_insert_Some; [rewrite E1|]; by eapply tw_transmitter.
  - intros j k p [[<- <-]|[Hne Hj]]%lookup_insert_Some; rewrite Hdom; [apply Hp|].
    by apply (tw_parent _ _ _ _ W j).
  - intros j k [[<- <-]|[Hne Hj]]%lookup_insert_Some Hv; apply (score_right_proper _ _ _ _ _ _ Hs);
      [by apply Hsc|by eapply tw_score].
  - intros j k [[<- <-]|[Hne Hj]]%lookup_insert_Some; [done|].
    rewrite (tw_busy _ _ _ _ W _ _ Hj). apply bool_decide_ext. by rewrite Hb.
  - intros j k [[<- <-]|[Hne Hj]]%lookup_insert_Some; [rewrite E5|]; by eapply tw_drop.
  - rewrite map_size_insert_Some by eauto. apply (tw_size _ _ _ _ W).
Qed.

(** [find_link] without create is a lookup. *)
Lemma find_link_lookup cs subs me busy n r :
  table_wf subs me busy n -> known subs r ->
  find_link cs subs n r false = Some (if decide (is_Some (t_store n !! r)) then Some r else None, n).
Proof.
  intros W Hr. unfold find_link.
  destruct (find_link_loop_spec subs (t_root n) r false) as (t' & -> & _ & _ & Hsame); auto.
  { apply (tw_search _ _ _ _ W). }
  { apply Forall_forall. intros x Hx. apply (tw_known _ _ _ _ W). by apply (tw_receivers _ _ _ _ W). }
  cbn. case_bool_decide as Hin; rewrite (tw_receivers _ _ _ _ W) in Hin; by case_decide.
Qed.

(** A link without a transmitter can be added: no path goes through it. *)
Lemma route_new me m st r l i h d :
  st !! r = None -> transmitter l = None ->
  route me m (<[r := l]> st) i h d <-> route me m st i h d.
Proof.
  intros Hr Hl. split; induction 1 as [k Hk Ht|i k t p h d Hk Ht Hm Hi Hb _ IH].
  1, 2: apply lookup_insert_Some in Hk as [[<- <-]|[Hne Hk]]; [congruence|].
  3, 4: rewrite <-(lookup_insert_ne st r _ l) in Hk by congruence.
  1, 3: by apply route_first.
  all: by eapply route_next.
Qed.

Lemma table_wf_new cs subs me n r t' :
  table_wf subs me [] n -> known subs r -> t_store n !! r = None -> search_ok subs t' ->
  (forall x, x ∈ receivers t' <-> x ∈ receivers (t_root n) \/ (true = true /\ x = r)) ->
  Z.of_nat (size (t_store n)) < MAX_LINKS ->
  table_wf subs me [] (mk_table (t_subscriber n) (t_path_version n) t'
                         (<[r := new_link cs n]> (t_store n))).
Proof.
  intros W Hr Hnone Hs Hel Hsz.
  assert (Hold : forall i l, <[r := new_link cs n]> (t_store n) !! i = Some l ->
            l = new_link cs n \/ t_store n !! i = Some l).
  { intros i l [[<- <-]|[_ Hi]]%lookup_insert_Some; auto. }
  split; cbn.
  - done.
  - intros i. rewrite Hel, (tw_receivers _ _ _ _ W), lookup_insert_is_Some'. naive_solver.
  - intros i [->|Hi]%lookup_insert_is_Some'; [done|by apply (tw_known _ _ _ _ W)].
  - intros i l t [->|Hi]%Hold Ht; [done|by eapply tw_transmitter].
  - intros i l p [->|Hi]%Hold Hp; [done|]. rewrite lookup_insert_is_Some'.
    right. by eapply tw_parent.
  - intros i l [->|Hi]%Hold Hv.
    + exfalso. revert Hv. cbn. unfold to_char. destruct cs; Z.div_mod_to_equations; lia.
    + destruct (tw_score _ _ _ _ W _ _ Hi Hv) as [H|[Hh H]]; [left|right; split; [done|]; intros ??];
        rewrite route_new by done; auto.
  - intros i l [->|Hi]%Hold; [by rewrite bool_decide_false by set_solver|by eapply tw_busy].
  - intros i l [->|Hi]%Hold; [done|by eapply tw_drop].
  - rewrite map_size_insert_None by done. lia.
Qed.

(** [find_link] with create adds a link without a transmitter, and only that. *)
Lemma find_link_create cs subs me n r :
  table_wf subs me [] n -> known subs r -> Z.of_nat (size (t_store n)) < MAX_LINKS ->
  exists n', find_link cs subs n r true = Some (Some r, n') /\ table_wf subs me [] n' /\
    t_subscriber n' = t_subscriber n /\ t_path_version n' = t_path_version n /\
    t_store n' = (if decide (is_Some (t_store n !! r)) then t_store n
                  else <[r := new_link cs n]> (t_store n)).
Proof.
  intros W Hr Hsz. unfold find_link.
  destruct (find_link_loop_spec subs (t_root n) r true) as (t' & -> & Hs' & Hel & _); auto.
  { apply (tw_search _ _ _ _ W). }
  { apply Forall_forall. intros x Hx. apply (tw_known _ _ _ _ W). by apply (tw_receivers _ _ _ _ W). }
  cbn [mbind option_bind]. case_bool_decide as Hin; rewrite (tw_receivers _ _ _ _ W) in Hin.
  { exists n. rewrite decide_True by done. auto. }
  rewrite decide_False by done. eexists. split; [done|]. split; [|auto].
  assert (Hnone : t_store n !! r = None) by (by apply eq_None_not_Some).
  by apply table_wf_new.
Qed.

(** What the scoring of links leaves alone. *)
Record table_kept (n n' : link_table) : Prop := {
  tk_subscriber : t_subscriber n' = t_subscriber n;
  tk_version : t_path_version n' = t_path_version n;
  tk_topology : same_topology (t_store n) (t_store n')
}.

#[export] Instance table_kept_preorder : PreOrder table_kept.
Proof. split; [by split|]. intros ??? [] []. split; [congruence..|by etransitivity]. Qed.

Lemma table_kept_put n i l l' :
  t_store n !! i = Some l -> topology l' = topology l -> table_kept n (put_link n i l').
Proof. split; [done..|by eapply same_topology_insert]. Qed.

Lemma table_kept_some n n' i : table_kept n n' -> is_Some (t_store n !! i) -> is_Some (t_store n' !! i).
Proof. intros [_ _ H] [l Hl]. destruct (same_topology_lookup _ _ _ _ H Hl) as (l' & ? & _). eauto. Qed.

Lemma table_kept_size n n' : table_kept n n' -> size (t_store n') = size (t_store n).
Proof.
  intros [_ _ H]. rewrite <-!(size_dom (D := gset nat)). f_equal. apply set_eq. intros i.
  rewrite !elem_of_dom, <-!(fmap_is_Some topology), H. done.
Qed.

(** [get_parent] finds the link before this one, if there is one. *)
Lemma get_parent_spec cs subs me busy n i l t p :
  table_wf subs me busy n -> t_store n !! i = Some l -> transmitter l = Some t -> before l = Some p ->
  i <> t_subscriber n ->
  exists n', get_parent cs subs n i = Some (if decide (is_Some (t_store n !! p)) then Some p else None, n') /\
    table_wf subs me busy n' /\ table_kept n n'.
Proof.
  intros W Hl Ht Hb Hi. unfold get_parent. rewrite Hl. cbn [mbind option_bind]. rewrite Ht, bool_decide_false by done.
  unfold before in Hb. destruct (parent l) as [p'|] eqn:Hp.
  { injection Hb as ->. rewrite decide_True by (by eapply tw_parent). exists n. split; [done|by split]. }
  assert (Hk : known subs t) by (by eapply tw_transmitter).
  rewrite (find_link_lookup cs subs me busy) by done. cbn [mbind option_bind].
  assert (t = p) as -> by congruence. eexists. split; [done|].
  assert (Htop : topology (set_parent l (if decide (is_Some (t_store n !! p)) then Some p else None)) = topology l).
  { unfold topology, before. cbn. rewrite Hp, Ht. by case_decide. }
  split; [|by eapply table_kept_put]. eapply table_wf_put; try done.
  - cbn. intros q. case_decide; intros [=]; by subst.
  - exact (tw_score _ _ _ _ W _ _ Hl).
  - exact (tw_busy _ _ _ _ W _ _ Hl).
Qed.

(** Links being calculated are different links of the table. *)
Record busy_ok (me : nat) (busy : list nat) (n : link_table) (i : nat) : Prop := {
  bo_nodup : NoDup busy;
  bo_some : Forall (fun b => is_Some (t_store n !! b)) busy;
  bo_chain : Forall (fun b => tc (step_to me (t_subscriber n) (t_store n)) b i) busy
}.

Lemma busy_ok_room me busy n i :
  busy_ok me busy n i -> i ∉ busy -> is_Some (t_store n !! i) ->
  (S (length busy) <= size (t_store n))%nat.
Proof.
  intros [Hnd Hs _] Hi Hsome. change (length (i :: busy) <= size (t_store n))%nat.
  rewrite <-(size_dom (D := gset nat)). apply submseteq_length, NoDup_submseteq.
  { by apply NoDup_cons. }
  intros x [->|Hx]%elem_of_cons; apply elem_of_elements, elem_of_dom; [done|].
  rewrite Forall_forall in Hs. by apply Hs.
Qed.

#[export] Instance tc_step_proper me m : Proper (same_topology ==> eq ==> eq ==> iff) (fun st => tc (step_to me m st)).
Proof.
  assert (Hd : forall st st' i t, same_topology st st' -> tc (step_to me m st) i t -> tc (step_to me m st') i t).
  { intros st st' i t H. induction 1 as [i j Hs|i j k Hs _ IH]; rewrite H in Hs; [by apply tc_once|by eapply tc_l]. }
  intros st st' H ? ? -> ? ? ->. split; apply Hd; [|symmetry]; done.
Qed.

Lemma busy_ok_push me busy n n' i t :
  busy_ok me busy n i -> table_kept n n' -> i ∉ busy ->
  step_to me (t_subscriber n) (t_store n) i t -> busy_ok me (i :: busy) n' t.
Proof.
  intros [Hnd Hs Hc] Hk Hi Hstep. pose proof Hk as [Hk1 Hk2 Hk3]. assert (Hsi : is_Some (t_store n !! i)).
  { destruct Hstep as (l & u & Hl & _). eauto. }
  split.
  - by apply NoDup_cons.
  - apply Forall_cons. split; [by eapply table_kept_some|].
    eapply Forall_impl; [exact Hs|]. intros b Hb. by eapply table_kept_some.
  - rewrite Hk1. apply Forall_cons. split.
    + apply tc_once. by rewrite <-Hk3.
    + eapply Forall_impl; [exact Hc|]. intros b Hb. apply (tc_step_proper _ _ _ _ Hk3 _ _ eq_refl _ _ eq_refl).
      eapply tc_r; [exact Hb|done].
Qed.

Lemma busy_cycle me busy n i t :
  busy_ok me busy n i -> step_to me (t_subscriber n) (t_store n) i t -> t ∈ i :: busy ->
  tc (step_to me (t_subscriber n) (t_store n)) i i.
Proof.
  intros [_ _ Hc] Hs [->|Hin]%elem_of_cons; [by apply tc_once|].
  rewrite Forall_forall in Hc. eapply tc_l; [exact Hs|by apply Hc].
Qed.

(** The score that [update_path_score] works out for a link, from the score of its parent. *)
Lemma update_step_route me m st i l t p lp :
  st !! i = Some l -> transmitter l = Some t -> t <> me -> i <> m -> before l = Some p -> score_right me m st p lp ->
  0 < hop_count lp -> route me m st i (hop_count lp + 1) (path_drop_rate lp + loss l).
Proof. intros Hl Ht Hm Hi Hb [H|[H _]] Hpos; [by eapply route_next|lia]. Qed.

Lemma no_route_step me m st i l t p h d :
  st !! i = Some l -> transmitter l = Some t -> t <> me -> i <> m -> before l = Some p ->
  (forall h d, ~ route me m st p h d) -> ~ route me m st i h d.
Proof. intros Hl Ht Hm Hi Hb Hno H. inversion H; simplify_eq. naive_solver. Qed.

Lemma before_some l t : transmitter l = Some t -> exists p, before l = Some p.
Proof. unfold before. intros Ht. destruct (parent l); eauto. Qed.

(** The last part of [update_path_score]: the loss of the link is added and the score
    stored, which finishes the calculation. *)
Lemma finish_score subs me busy n i hops drop :
  table_wf subs me (i :: busy) n -> i ∉ busy -> is_Some (t_store n !! i) ->
  (forall l, t_store n !! i = Some l ->
     route me (t_subscriber n) (t_store n) i hops (drop + loss l) \/
     (hops = -1 /\ drop = 0 /\ forall h d, ~ route me (t_subscriber n) (t_store n) i h d)) ->
  exists l drop', t_store n !! i = Some l /\
    (if 2 <? drop_rate l then ci (drop + drop_rate l) else Some drop) = Some drop' /\
    table_wf subs me busy (put_link n i (set_score l hops (t_path_version n) drop')) /\
    table_kept n (put_link n i (set_score l hops (t_path_version n) drop')).
Proof.
  intros W Hi [l Hl] Hr. specialize (Hr l Hl).
  assert (E : (if 2 <? drop_rate l then ci (drop + drop_rate l) else Some drop) = Some (drop + loss l)).
  { unfold loss in *. pose proof (tw_drop _ _ _ _ W _ _ Hl). pose proof (tw_size _ _ _ _ W).
    destruct (2 <? drop_rate l) eqn:E; [|f_equal; lia]. zify_bool. apply ci_Some.
    unfold INT_MIN, INT_MAX, MAX_LINKS in *. destruct Hr as [Hr|(_ & -> & _)]; [|lia].
    pose proof (route_bound _ _ _ _ _ _ Hr).
    pose proof (route_loss _ _ _ _ _ _ (tw_drop _ _ _ _ W) Hr). lia. }
  exists l, (drop + loss l). split; [done|]. split; [done|]. split; [|by eapply table_kept_put].
  eapply table_wf_put; try done.
  - intros p Hp. by eapply tw_parent.
  - intros _. unfold score_right. cbn. naive_solver.
  - cbn. by rewrite bool_decide_false.
  - intros j Hj. set_solver.
Qed.

(** The rest of [update_path_score] once the hops and the loss before the link are known. *)
Definition store_score (i : nat) (r : Z * Z * link_table) : option link_table :=
  let '(hops, drop, n) := r in
  l ← t_store n !! i;
  drop ← (if 2 <? drop_rate l then ci (drop + drop_rate l) else Some drop);
  Some (put_link n i (set_score l hops (t_path_version n) drop)).

(** What [update_path_score] promises of the link it is called for. *)
Definition scored (subs : list subscriber) (me : nat) (busy : list nat) (n : link_table) (i : nat)
    (r : option link_table) : Prop :=
  exists n' l', r = Some n' /\ table_wf subs me busy n' /\ table_kept n n' /\
    t_store n' !! i = Some l' /\ path_version l' = t_path_version n.

Lemma store_score_spec subs me busy n0 n i hops drop :
  table_wf subs me (i :: busy) n -> table_kept n0 n -> i ∉ busy -> is_Some (t_store n0 !! i) ->
  (forall l, t_store n !! i = Some l ->
     route me (t_subscriber n) (t_store n) i hops (drop + loss l) \/
     (hops = -1 /\ drop = 0 /\ forall h d, ~ route me (t_subscriber n) (t_store n) i h d)) ->
  scored subs me busy n0 i (store_score i (hops, drop, n)).
Proof.
  intros W K Hi Hs Hr. destruct (finish_score _ _ _ _ _ hops drop W Hi) as (l & d & E1 & E2 & W' & K').
  { by eapply table_kept_some. } { done. }
  unfold store_score. rewrite E1. cbn [mbind option_bind]. rewrite E2. cbn [mbind option_bind].
  eexists _, _. split; [done|]. split; [done|]. split; [by etransitivity|].
  split; [apply lookup_insert_eq|]. apply (tk_version _ _ K).
Qed.

(** The branch of [update_path_score] that asks the parent. *)
Lemma parent_score_spec cs subs me busy fuel n l t i :
  let n1 := put_link n i (set_calculating l) in
  (forall busy n i,
     table_wf subs me busy n -> is_Some (t_store n !! i) -> busy_ok me busy n i -> i ∉ busy ->
     (size (t_store n) <= fuel + length busy)%nat ->
     scored subs me busy n i (update_path_score cs subs (Some me) fuel n i)) ->
  table_wf subs me (i :: busy) n1 -> table_kept n n1 -> t_store n !! i = Some l -> 
  busy_ok me busy n i -> i ∉ busy -> (size (t_store n) <= S fuel + length busy)%nat ->
  transmitter l = Some t -> t <> me -> i <> t_subscriber n ->
  scored subs me busy n i
    (mbind (store_score i) ('(p, n) ← get_parent cs subs n1 i;
     match p with
     | None => Some (-1, 0, n)
     | Some p =>
         pl ← t_store n !! p;
         if calculating pl then Some (-1, 0, n)
         else
           n ← update_path_score cs subs (Some me) fuel n p;
           pl ← t_store n !! p;
           if 0 <? hop_count pl
           then hops ← ci (hop_count pl + 1); Some (hops, path_drop_rate pl, n)
           else Some (-1, 0, n)
     end)).
Proof.
  intros n1 IH W1 K1 Hl Hb Hi Hf Ht Hm Hsub.
  assert (Hl1 : t_store n1 !! i = Some (set_calculating l)) by apply lookup_insert_eq.
  destruct (before_some l t Ht) as [p Hp].
  destruct (get_parent_spec cs _ _ _ _ _ _ t p W1 Hl1 Ht Hp Hsub) as (n2 & -> & W2 & K12).
  assert (K2 : table_kept n n2) by (by etransitivity).
  cbn [mbind option_bind].
  assert (Hstep : step_to me (t_subscriber n) (t_store n) i p) by (by exists l, t).
  destruct (decide (is_Some (t_store n1 !! p))) as [Hst|Hst].
  2:{ apply (store_score_spec _ _ _ _ n2); eauto. intros ? _. right. split_and!; [done..|].
      intros h d. rewrite (tk_subscriber _ _ K2), <-(tk_topology _ _ K12).
      apply (no_route_step _ _ _ _ _ t p _ _ Hl1); try done. by intros ?? ?%route_some. }
  destruct (table_kept_some _ _ _ K12 Hst) as [l2 Hl2].
  rewrite Hl2. cbn [mbind option_bind]. rewrite (tw_busy _ _ _ _ W2 _ _ Hl2).
  case_bool_decide as Hbusy.
  { apply (store_score_spec _ _ _ _ n2); eauto. intros ? _. right. split_and!; [done..|].
    intros h d. rewrite (tk_subscriber _ _ K2), <-(tk_topology _ _ K2). apply route_acyclic.
    by eapply busy_cycle. }
  destruct (IH (i :: busy) n2 p) as (n3 & l3 & -> & W3 & K23 & Hl3 & Hv3); eauto.
  { by eapply busy_ok_push. }
  { rewrite (table_kept_size _ _ K2). cbn [length]. lia. }
  assert (K3 : table_kept n n3) by (by etransitivity).
  cbn [mbind option_bind]. rewrite Hl3. cbn [mbind option_bind].
  rewrite <-(tk_version _ _ K23) in Hv3. pose proof (tw_score _ _ _ _ W3 _ _ Hl3 Hv3) as Hsc.
  destruct (same_topology_lookup _ _ _ _ (tk_topology _ _ K3) Hl) as (li & Hli & [= E1 _ _ _ E5 E6]).
  rewrite Ht in E1. rewrite Hp in E6. rewrite <-(tk_subscriber _ _ K3) in Hsub.
  destruct (Z.ltb_spec 0 (hop_count l3)) as [Hpos|Hneg].
  - pose proof (update_step_route _ _ _ _ _ _ _ _ Hli E1 Hm Hsub E6 Hsc Hpos) as Hr.
    pose proof (route_bound _ _ _ _ _ _ Hr). pose proof (tw_size _ _ _ _ W3).
    rewrite ci_Some by (unfold INT_MIN, INT_MAX, MAX_LINKS in *; lia). cbn [mbind option_bind].
    apply (store_score_spec _ _ _ _ n3); eauto. intros l' Hl'. simplify_eq. auto.
  - apply (store_score_spec _ _ _ _ n3); eauto. intros ? _. right. split_and!; [done..|].
    intros h d. apply (no_route_step _ _ _ _ _ _ _ _ _ Hli E1 Hm Hsub E6).
    destruct Hsc as [Hsc%route_bound|[_ Hsc]]; [lia|done].
Qed.

Lemma update_path_score_spec cs subs me fuel : forall busy n i,
  table_wf subs me busy n -> is_Some (t_store n !! i) -> busy_ok me busy n i -> i ∉ busy ->
  (size (t_store n) <= fuel + length busy)%nat ->
  scored subs me busy n i (update_path_score cs subs (Some me) fuel n i).
Proof.
  induction fuel as [|fuel IH]; intros busy n i W [l Hl] Hb Hi Hf;
    pose proof (busy_ok_room _ _ _ _ Hb Hi (mk_is_Some _ _ Hl)); [lia|].
  cbn [update_path_score]. rewrite Hl. cbn [mbind option_bind].
  destruct (Z.eqb_spec (path_version l) (t_path_version n)) as [Hv|Hv].
  { exists n, l. split; [done|]. split; [done|]. by split. }
  rewrite (tw_busy _ _ _ _ W _ _ Hl), bool_decide_false by done.
  set (n1 := put_link n i (set_calculating l)).
  assert (W1 : table_wf subs me (i :: busy) n1).
  { eapply table_wf_put; try done; [|by rewrite bool_decide_true by set_solver|set_solver].
    intros p Hp. by eapply tw_parent. }
  assert (K1 : table_kept n n1) by (by eapply table_kept_put).
  assert (Hl1 : t_store n1 !! i = Some (set_calculating l)) by apply lookup_insert_eq.
  match goal with |- scored _ _ _ _ _ (mbind _ ?m) =>
    change (scored subs me busy n i (mbind (store_score i) m)) end.
  destruct (transmitter l) as [t|] eqn:Ht.
  2:{ unfold get_parent. rewrite Hl1. cbn. rewrite Ht. apply (store_score_spec _ _ _ _ n1); eauto.
      intros ? _. right. split_and!; [done..|]. intros h d Hr. inversion Hr; simplify_eq/=; congruence. }
  destruct (decide (t = me)) as [->|Hm].
  { rewrite bool_decide_true by done. apply (store_score_spec _ _ _ _ n1); eauto.
    intros l' Hl'. simplify_eq. case_bool_decide as Hsub; [left|right].
    - rewrite Hsub in Hl1 |- *. by apply route_first.
    - split_and!; [done..|]. intros h d Hr. inversion Hr; simplify_eq/=; congruence. }
  rewrite bool_decide_false by congruence.
  destruct (decide (i = t_subscriber n)) as [Hsub|Hsub].
  { unfold get_parent. rewrite Hl1. cbn. rewrite Ht, bool_decide_true by done. cbn.
    apply (store_score_spec _ _ _ _ n1); eauto.
    intros ? _. right. split_and!; [done..|]. intros h d Hr. inversion Hr; simplify_eq/=; congruence. }
  by apply (parent_score_spec _ _ _ _ _ _ l t).
Qed.

(** [C9] Scoring a link of a neighbour ends, keeps every link, and leaves in it the hops and the
    loss of the path from us through the neighbour to the receiver; a link that no such path
    reaches, links in a loop included, is left without a positive hop count.  The path goes by
    the parents that were looked up before and by the transmitters where none was.  It is the
    path that the neighbour reported while every parent still is the link to the transmitter;
    a parent is kept when the transmitter changes.  The table has to be in order: a search tree
    of at most 2^22 links, parents in it, no calculation going on and right scores where the
    version says that they are current. *)
Theorem path_score_correct cs subs me n i
    (Hwf : table_wf subs me [] n) (Hi : is_Some (t_store n !! i)) :
  exists n' l, update_path_score cs subs (Some me) (size (t_store n)) n i = Some n' /\
    table_wf subs me [] n' /\ table_kept n n' /\ t_store n' !! i = Some l /\
    (forall h d, route me (t_subscriber n) (t_store n) i h d <->
      0 < hop_count l /\ hop_count l = h /\ path_drop_rate l = d) /\
    (parents_current (t_store n) -> forall h d, reported me (t_subscriber n) (t_store n) i h d <->
      0 < hop_count l /\ hop_count l = h /\ path_drop_rate l = d).
Proof.
  destruct (update_path_score_spec cs subs me (size (t_store n)) [] n i) as (n' & l & E & W & K & Hl & Hv);
    auto; [by repeat constructor|set_solver|cbn; lia|].
  exists n', l. do 4 (split; [done|]). rewrite <-(tk_version _ _ K) in Hv.
  assert (Hr : forall h d, route me (t_subscriber n) (t_store n) i h d <->
    0 < hop_count l /\ hop_count l = h /\ path_drop_rate l = d).
  { intros h d. rewrite (tk_topology _ _ K), <-(tk_subscriber _ _ K).
    destruct (tw_score _ _ _ _ W _ _ Hl Hv) as [Hr|[Hh Hno]].
    - split; [intros H|by intros (_ & <- & <-)]. pose proof (route_bound _ _ _ _ _ _ Hr).
      destruct (route_fun _ _ _ _ _ _ H _ _ Hr). split; [lia|done].
    - split; [by intros ?%Hno|lia]. }
  split; [done|]. intros C h d. rewrite <-route_reported by done. apply Hr.
Qed.

(** A test that a table without scores is well formed. *)
Fixpoint search_okb (subs : list subscriber) (t : link_tree) : bool :=
  match t with
  | Leaf => true
  | Branch l k r =>
      search_okb subs l && search_okb subs r &&
      forallb (fun j => bool_decide (j <> k) && bool_decide (sid_less subs j k = Some true)) (receivers l) &&
      forallb (fun j => bool_decide (j <> k) && bool_decide (sid_less subs j k = Some false)) (receivers r)
  end.

Lemma search_okb_ok subs t : search_okb subs t = true -> search_ok subs t.
Proof.
  induction t as [|l IHl k r IHr]; [done|]. cbn. rewrite !andb_true_iff, !forallb_forall.
  intros [[[Hl Hr] Fl] Fr]. split_and!; auto; apply Forall_forall; intros j Hj%list_elem_of_In;
    [specialize (Fl j Hj)|specialize (Fr j Hj)]; by rewrite andb_true_iff, !bool_decide_eq_true in *.
Qed.

Definition fresh_link (subs : list subscriber) (v : Z) (p : nat * link) : bool :=
  let '(i, l) := p in
  bool_decide (is_Some (subs !! i)) &&
  match transmitter l with Some t => bool_decide (is_Some (subs !! t)) | None => true end &&
  bool_decide (parent l = None) && negb (path_version l =? v) && negb (calculating l) && (drop_rate l <=? 255).

Definition fresh_table (subs : list subscriber) (n : link_table) : bool :=
  search_okb subs (t_root n) &&
  bool_decide (list_to_set (receivers (t_root n)) = dom (t_store n) :> gset nat) &&
  forallb (fresh_link subs (t_path_version n)) (map_to_list (t_store n)) &&
  (Z.of_nat (size (t_store n)) <=? MAX_LINKS).

Lemma fresh_table_wf subs me n :
  fresh_table subs n = true -> table_wf subs me [] n.
Proof.
  intros [[[Hs%search_okb_ok Hd]%andb_true_iff Hf]%andb_true_iff Hsz]%andb_true_iff. apply bool_decide_eq_true in Hd.
  assert (Hl : forall i l, t_store n !! i = Some l -> fresh_link subs (t_path_version n) (i, l) = true).
  { intros i l Hi. rewrite forallb_forall in Hf. apply Hf, list_elem_of_In. by apply elem_of_map_to_list. }
  assert (Hi : forall i l, t_store n !! i = Some l -> known subs i /\
    (forall t, transmitter l = Some t -> known subs t) /\ parent l = None /\
    path_version l <> t_path_version n /\ calculating l = false /\ drop_rate l <= 255).
  { intros i l H%Hl. unfold fresh_link in H. rewrite !andb_true_iff, !bool_decide_eq_true, !negb_true_iff in H.
    destruct H as (((((H1 & H2) & H3) & H4) & H5) & H6). zify_bool. split_and!; try done; try lia.
    intros t Ht. rewrite Ht in H2. by apply bool_decide_eq_true in H2. }
  split; try done.
  - intros i. rewrite <-elem_of_dom, <-Hd, elem_of_list_to_set. done.
  - intros i [l H]. exact (proj1 (Hi i l H)).
  - intros i l t H. exact (proj1 (proj2 (Hi i l H)) t).
  - intros i l p H. destruct (Hi i l H) as (_ & _ & -> & _). done.
  - intros i l H. destruct (Hi i l H) as (_ & _ & _ & ? & _). done.
  - intros i l H. rewrite bool_decide_false by set_solver. by apply (Hi i l).
  - intros i l H. by apply (Hi i l).
  - by apply Z.leb_le.
Qed.

(** Five subscribers; the neighbour 1 reports a path of two hops to 2 and a loop 3, 4. *)
Definition demo_subs : list subscriber :=
  (fun k => mk_subscriber (replicate 32 k) 2 false 0 0) <$> [16; 32; 48; 64; 80].
Definition demo_link (t : nat) (drop : Z) : link := mk_link (Some t) None None (-1) 0 1 drop 0 0 false.
Definition demo_table : link_table :=
  mk_table 1 1 (Branch Leaf 1 (Branch Leaf 2 (Branch Leaf 3 (Branch Leaf 4 Leaf))))
    {[1%nat := demo_link 0 0; 2%nat := demo_link 1 7; 3%nat := demo_link 4 0; 4%nat := demo_link 3 0]}.

Lemma demo_table_wf : table_wf demo_subs 0 [] demo_table.
Proof. apply fresh_table_wf. vm_compute. reflexivity. Qed.

Lemma path_score_correct_witness :
  exists n' l, update_path_score true demo_subs (Some 0%nat) 4 demo_table 2 = Some n' /\
    table_wf demo_subs 0 [] n' /\ table_kept demo_table n' /\ t_store n' !! 2%nat = Some l /\
    (forall h d, route 0 1 (t_store demo_table) 2 h d <->
      0 < hop_count l /\ hop_count l = h /\ path_drop_rate l = d) /\
    (parents_current (t_store demo_table) -> forall h d, reported 0 1 (t_store demo_table) 2 h d <->
      0 < hop_count l /\ hop_count l = h /\ path_drop_rate l = d).
Proof. apply (path_score_correct true demo_subs 0 demo_table 2 demo_table_wf). by eexists. Defined.

(** The numbers: two hops with a loss of 7, and no path into the loop. *)
Example path_score_demo :
  (n ← update_path_score true demo_subs (Some 0%nat) 4 demo_table 2;
   n ← update_path_score true demo_subs (Some 0%nat) 4 n 3;
   l2 ← t_store n !! 2%nat; l3 ← t_store n !! 3%nat;
   Some (hop_count l2, path_drop_rate l2, hop_count l3)) = Some (2, 7, -1).
Proof. vm_compute. reflexivity. Qed.
