(* ===== verification/Route.v ===== *)
(** Route: route_link.c, link state routing.

    The state of the routing code: the neighbours with the links they reported
    ([RouteLinks]) and the links over which we hear them, the [struct link_state] of
    every subscriber, the versions that tell which results are up to date, and the alarm
    that sends link states.  The code runs in the monad [RM] over [rworld]; [None] is
    undefined behaviour, a read through a dangling pointer included.  Calls into other
    components that routing does not read back (the monitor, the keyring, the directory
    client, the scheduler, the transmit queue) are recorded in order in [r_events]. *)

From S2P Require Import Prelude CMem OverlayBuffer OverlayBufferCodec DataFormats SubscriberTree OverlayAddress PacketFormats RouteLinks.

Definition REACHABLE_NONE : Z := 0.
Definition REACHABLE_BROADCAST : Z := 2.
Definition REACHABLE_UNICAST : Z := 4.
Definition REACHABLE_INDIRECT : Z := 8.
Definition REACHABLE_ASSUMED : Z := 16.
Definition REACHABLE_DIRECT : Z := Z.lor REACHABLE_BROADCAST REACHABLE_UNICAST.
Definition INTERFACE_STATE_UP : Z := 1.
Definition OVERLAY_MAX_INTERFACES : Z := 16.
Definition ACK_WINDOW : Z := 16.
Definition INCLUDE_ANYWAY : Z := 500.
Definition MDP_PORT_LINKSTATE : Z := 2.
Definition OF_TYPE_SELFANNOUNCE_ACK : Z := 0x20.

(** The fields of [struct overlay_interface] that routing reads. *)
Record overlay_interface := mk_interface {
  if_state : Z; if_type : Z; tick_ms : Z; broadcast_address : Z
}.

(** [struct neighbour_link]; [nl_id] is its address, [nl_interface] an index. *)
Record neighbour_link := mk_nlink {
  nl_id : nat;
  neighbour_interface : Z;
  nl_interface : nat;
  link_timeout : Z;
  unicast : Z;
  ack_sequence : Z;
  ack_mask : Z
}.

(** [struct neighbour]; [n_id] is its address, [n_table] its subscriber, path version and
    links, [best_link] the address of a link over which we hear it. *)
Record neighbour := mk_neighbour {
  n_id : nat;
  n_table : link_table;
  neighbour_link_timeout : Z;
  using_us : bool;
  routing_through_us : Z;
  mdp_ack_sequence : Z;
  mdp_ack_mask : Z;
  next_neighbour_update : Z;
  last_update : Z;
  last_update_seq : Z;
  rtt : Z;
  ack_counter : Z;
  n_links : list neighbour_link;
  best_link : option nat;
  legacy_protocol : bool
}.

Definition n_subscriber (n : neighbour) : nat := t_subscriber (n_table n).

Definition set_table (n : neighbour) (t : link_table) : neighbour :=
  mk_neighbour (n_id n) t (neighbour_link_timeout n) (using_us n) (routing_through_us n)
    (mdp_ack_sequence n) (mdp_ack_mask n) (next_neighbour_update n) (last_update n)
    (last_update_seq n) (rtt n) (ack_counter n) (n_links n) (best_link n) (legacy_protocol n).
Definition set_timeout (n : neighbour) (t : Z) : neighbour :=
  mk_neighbour (n_id n) (n_table n) t (using_us n) (routing_through_us n)
    (mdp_ack_sequence n) (mdp_ack_mask n) (next_neighbour_update n) (last_update n)
    (last_update_seq n) (rtt n) (ack_counter n) (n_links n) (best_link n) (legacy_protocol n).
Definition set_using_us (n : neighbour) (u : bool) : neighbour :=
  mk_neighbour (n_id n) (n_table n) (neighbour_link_timeout n) u (routing_through_us n)
    (mdp_ack_sequence n) (mdp_ack_mask n) (next_neighbour_update n) (last_update n)
    (last_update_seq n) (rtt n) (ack_counter n) (n_links n) (best_link n) (legacy_protocol n).
Definition set_routing_through_us (n : neighbour) (t : Z) : neighbour :=
  mk_neighbour (n_id n) (n_table n) (neighbour_link_timeout n) (using_us n) t
    (mdp_ack_sequence n) (mdp_ack_mask n) (next_neighbour_update n) (last_update n)
    (last_update_seq n) (rtt n) (ack_counter n) (n_links n) (best_link n) (legacy_protocol n).
Definition set_mdp_ack (n : neighbour) (seq mask : Z) : neighbour :=
  mk_neighbour (n_id n) (n_table n) (neighbour_link_timeout n) (using_us n) (routing_through_us n)
    seq mask (next_neighbour_update n) (last_update n)
    (last_update_seq n) (rtt n) (ack_counter n) (n_links n) (best_link n) (legacy_protocol n).
Definition set_next_update (n : neighbour) (t : Z) : neighbour :=
  mk_neighbour (n_id n) (n_table n) (neighbour_link_timeout n) (using_us n) (routing_through_us n)
    (mdp_ack_sequence n) (mdp_ack_mask n) t (last_update n)
    (last_update_seq n) (rtt n) (ack_counter n) (n_links n) (best_link n) (legacy_protocol n).
Definition set_last_update (n : neighbour) (t : Z) : neighbour :=
  mk_neighbour (n_id n) (n_table n) (neighbour_link_timeout n) (using_us n) (routing_through_us n)
    (mdp_ack_sequence n) (mdp_ack_mask n) (next_neighbour_update n) t
    (last_update_seq n) (rtt n) (ack_counter n) (n_links n) (best_link n) (legacy_protocol n).
Definition set_last_update_seq (n : neighbour) (seq : Z) : neighbour :=
  mk_neighbour (n_id n) (n_table n) (neighbour_link_timeout n) (using_us n) (routing_through_us n)
    (mdp_ack_sequence n) (mdp_ack_mask n) (next_neighbour_update n) (last_update n)
    seq (rtt n) (ack_counter n) (n_links n) (best_link n) (legacy_protocol n).
Definition set_ack_counter (n : neighbour) (c : Z) : neighbour :=
  mk_neighbour (n_id n) (n_table n) (neighbour_link_timeout n) (using_us n) (routing_through_us n)
    (mdp_ack_sequence n) (mdp_ack_mask n) (next_neighbour_update n) (last_update n)
    (last_update_seq n) (rtt n) c (n_links n) (best_link n) (legacy_protocol n).
Definition set_links (n : neighbour) (l : list neighbour_link) : neighbour :=
  mk_neighbour (n_id n) (n_table n) (neighbour_link_timeout n) (using_us n) (routing_through_us n)
    (mdp_ack_sequence n) (mdp_ack_mask n) (next_neighbour_update n) (last_update n)
    (last_update_seq n) (rtt n) (ack_counter n) l (best_link n) (legacy_protocol n).
Definition set_best_link (n : neighbour) (b : option nat) : neighbour :=
  mk_neighbour (n_id n) (n_table n) (neighbour_link_timeout n) (using_us n) (routing_through_us n)
    (mdp_ack_sequence n) (mdp_ack_mask n) (next_neighbour_update n) (last_update n)
    (last_update_seq n) (rtt n) (ack_counter n) (n_links n) b (legacy_protocol n).
Definition set_legacy (n : neighbour) : neighbour :=
  mk_neighbour (n_id n) (n_table n) (neighbour_link_timeout n) (using_us n) (routing_through_us n)
    (mdp_ack_sequence n) (mdp_ack_mask n) (next_neighbour_update n) (last_update n)
    (last_update_seq n) (rtt n) (ack_counter n) (n_links n) (best_link n) true.

(** [struct link_state]; a link is named by the address of its neighbour and its receiver. *)
Record link_state := mk_state {
  s_next_hop : option nat;
  s_transmitter : option nat;
  s_hop_count : Z;
  s_route_version : Z;
  s_link : option (nat * nat);
  s_calculating : bool;
  next_update : Z
}.

Definition set_s_calculating (s : link_state) : link_state :=
  mk_state (s_next_hop s) (s_transmitter s) (s_hop_count s) (s_route_version s) (s_link s) true
    (next_update s).
Definition set_s_next_update (s : link_state) (t : Z) : link_state :=
  mk_state (s_next_hop s) (s_transmitter s) (s_hop_count s) (s_route_version s) (s_link s)
    (s_calculating s) t.

(** The fields of [struct subscriber] that routing adds to those of [SubscriberTree];
    a socket address is one number, 0 when it is cleared. *)
Record sub_route := mk_sub_route {
  sub_link_state : option link_state;
  sub_next_hop : option nat;
  sub_interface : option nat;
  sub_address : Z;
  last_probe : Z;
  sas_valid : bool
}.

Definition zero_route : sub_route := mk_sub_route None None None 0 0 false.

Definition set_state (r : sub_route) (s : link_state) : sub_route :=
  mk_sub_route (Some s) (sub_next_hop r) (sub_interface r) (sub_address r) (last_probe r) (sas_valid r).
Definition set_sub_next_hop (r : sub_route) (n : option nat) : sub_route :=
  mk_sub_route (sub_link_state r) n (sub_interface r) (sub_address r) (last_probe r) (sas_valid r).
Definition set_sub_interface (r : sub_route) (i : option nat) : sub_route :=
  mk_sub_route (sub_link_state r) (sub_next_hop r) i (sub_address r) (last_probe r) (sas_valid r).
Definition reset_probe (r : sub_route) : sub_route :=
  mk_sub_route (sub_link_state r) (sub_next_hop r) (sub_interface r) 0 0 (sas_valid r).

(** A frame with the fields only routing sets: [send_hook] is [neighbour_link_sent] when
    [send_context] is set. *)
Record link_frame := mk_link_frame { lf_frame : overlay_frame; send_context : option nat; resend : Z }.

Inductive route_event :=
| SasRequest (i : nat)
| DirectoryRegistration
| OldPeer (i : nat)
| NewPeer (i : nat)
| AnnounceLink (hops : Z) (transmitter : option nat) (receiver : nat)
| Unscheduled
| Scheduled (alarm deadline : Z)
| QueueAck (neighbour interface : nat) (mask seq : Z)
| Enqueued (f : link_frame).

Record rworld := mk_rworld {
  rw : world;
  r_subs : gmap nat sub_route;
  neighbours : list neighbour;
  route_version : Z;
  r_next_id : nat;
  alarm : Z;
  deadline : Z;
  r_events : list route_event
}.

Definition set_rw (w : rworld) (b : world) : rworld :=
  mk_rworld b (r_subs w) (neighbours w) (route_version w) (r_next_id w) (alarm w) (deadline w) (r_events w).
Definition set_r_subs (w : rworld) (s : gmap nat sub_route) : rworld :=
  mk_rworld (rw w) s (neighbours w) (route_version w) (r_next_id w) (alarm w) (deadline w) (r_events w).
Definition set_neighbours (w : rworld) (n : list neighbour) : rworld :=
  mk_rworld (rw w) (r_subs w) n (route_version w) (r_next_id w) (alarm w) (deadline w) (r_events w).
Definition set_route_version (w : rworld) (v : Z) : rworld :=
  mk_rworld (rw w) (r_subs w) (neighbours w) v (r_next_id w) (alarm w) (deadline w) (r_events w).
Definition set_next_id (w : rworld) (i : nat) : rworld :=
  mk_rworld (rw w) (r_subs w) (neighbours w) (route_version w) i (alarm w) (deadline w) (r_events w).
Definition set_alarm (w : rworld) (a : Z) : rworld :=
  mk_rworld (rw w) (r_subs w) (neighbours w) (route_version w) (r_next_id w) a (deadline w) (r_events w).
Definition set_deadline (w : rworld) (d : Z) : rworld :=
  mk_rworld (rw w) (r_subs w) (neighbours w) (route_version w) (r_next_id w) (alarm w) d (r_events w).
Definition set_events (w : rworld) (e : list route_event) : rworld :=
  mk_rworld (rw w) (r_subs w) (neighbours w) (route_version w) (r_next_id w) (alarm w) (deadline w) e.

(** ** The monad *)

Definition RM (A : Type) : Type := rworld -> option (A * rworld).

#[export] Instance RM_ret : MRet RM := fun A x w => Some (x, w).
#[export] Instance RM_bind : MBind RM := fun A B f m w =>
  match m w with Some (x, w) => f x w | None => None end.

Definition r_undefined {A} : RM A := fun _ => None.
Definition r_lift {A} (o : option A) : RM A := fun w => x ← o; Some (x, w).
Definition gets {A} (f : rworld -> A) : RM A := fun w => Some (f w, w).
Definition puts (f : rworld -> rworld) : RM unit := fun w => Some (tt, f w).
Definition base {A} (m : M A) : RM A := fun w => '(x, b) ← m (rw w); Some (x, set_rw w b).
Definition emit (e : route_event) : RM unit := puts (fun w => set_events w (r_events w ++ [e])).

(** Subscribers. *)
Definition sub_of (w : rworld) (i : nat) : sub_route := default zero_route (r_subs w !! i).
Definition subs_of (w : rworld) : list subscriber := subscribers (w_dir (rw w)).
Definition get_route (i : nat) : RM sub_route := gets (fun w => sub_of w i).
Definition put_route (i : nat) (r : sub_route) : RM unit :=
  puts (fun w => set_r_subs w (<[i := r]> (r_subs w))).
Definition state_of (w : rworld) (i : nat) : option link_state := sub_link_state (sub_of w i).
(** The state behind a pointer that [get_link_state] returned. *)
Definition get_state (i : nat) : RM link_state := fun w => s ← state_of w i; Some (s, w).
Definition put_state (i : nat) (s : link_state) : RM unit :=
  r ← get_route i; put_route i (set_state r s).

(** Neighbours by address. *)
Definition find_nb (id : nat) (l : list neighbour) : option neighbour :=
  snd <$> list_find (fun n => n_id n = id) l.
Definition get_nb (id : nat) : RM neighbour := fun w => n ← find_nb id (neighbours w); Some (n, w).
Definition put_nb (n : neighbour) : RM unit :=
  puts (fun w => set_neighbours w
    ((fun m => if bool_decide (n_id m = n_id n) then n else m) <$> neighbours w)).

Definition set_reachable_field (s : subscriber) (r : Z) : subscriber :=
  mk_subscriber (sid s) (abbreviate_len s) (send_full s) r (last_explained s).

Section route.
Context `{Allocator}.
(** The clock; the signedness of [char]; our identity; the directory service; the
    interfaces; whether link state messages are logged; the transmit queue. *)
Context (gettime_ms : nat -> Z) (random : nat -> Z) (char_signed : bool).
Context (my_subscriber directory_service : option nat).
Context (overlay_interfaces : list overlay_interface) (debug_linkstate : bool).
Context (overlay_payload_enqueue : link_frame -> Z).

Definition r_now : RM Z := base (now gettime_ms).
Definition interface_at (i : nat) : RM overlay_interface := r_lift (overlay_interfaces !! i).

(** ** Reachability *)

Definition set_reachable (i : nat) (value : Z) : RM Z :=
  s ← base (get_sub i);
  if reachable s =? value then mret 0
  else
    let old_value := reachable s in
    _ ← base (put_sub i (set_reachable_field s value));
    r ← get_route i;
    _ ← (if negb (sas_valid r) && has value REACHABLE then emit (SasRequest i) else mret tt);
    _ ← (if bool_decide (Some i = directory_service) then emit DirectoryRegistration else mret tt);
    _ ← (if has old_value REACHABLE && negb (has value REACHABLE) then emit (OldPeer i) else mret tt);
    _ ← (if negb (has old_value REACHABLE) && has value REACHABLE then emit (NewPeer i) else mret tt);
    mret 0.

(** [subscriber_is_reachable] calls itself for the next hop of an indirect subscriber that
    is itself direct, so never more than once. *)
Fixpoint is_reachable (fuel : nat) (i : option nat) : RM Z :=
  match fuel, i with
  | O, _ => r_undefined
  | _, None => mret REACHABLE_NONE
  | S fuel, Some i =>
      s ← base (get_sub i);
      r ← get_route i;
      ret ← (
        if reachable s =? REACHABLE_INDIRECT then
          match sub_next_hop r with
          | None => mret REACHABLE_NONE
          | Some n =>
              sn ← base (get_sub n);
              if negb (has (reachable sn) REACHABLE_DIRECT) then mret REACHABLE_NONE
              else
                x ← is_reachable fuel (Some n);
                if has x REACHABLE_ASSUMED then mret REACHABLE_NONE
                else if negb (has x REACHABLE_DIRECT) then mret REACHABLE_NONE
                else mret (reachable s)
          end
        else mret (reachable s) : RM Z);
      if has ret REACHABLE_DIRECT then
        match sub_interface r with
        | None => mret REACHABLE_NONE
        | Some f =>
            iface ← interface_at f;
            mret (if negb (if_state iface =? INTERFACE_STATE_UP) then REACHABLE_NONE else ret)
        end
      else mret ret
  end.

Definition subscriber_is_reachable (i : option nat) : RM Z := is_reachable 2 i.

(** ** States and neighbours *)

Definition get_link_state (i : nat) : RM link_state :=
  r ← get_route i;
  match sub_link_state r with
  | Some s => mret s
  | None =>
      v ← gets route_version;
      v ← r_lift (ci (v - 1));
      let s := mk_state None None 0 v None false 0 in
      _ ← put_state i s;
      mret s
  end.

(** The address of the neighbour with this subscriber. *)
Definition get_neighbour (subscriber : nat) (create : bool) : RM (option nat) :=
  l ← gets neighbours;
  match list_find (fun n => n_subscriber n = subscriber) l with
  | Some (_, n) => mret (Some (n_id n))
  | None =>
      if create then
        id ← gets r_next_id;
        let n := mk_neighbour id (mk_table subscriber 0 Leaf ∅) 0 false 0 (-1) 0 0 0 (-1) 120 0
                   [] None false in
        _ ← puts (fun w => set_next_id (set_neighbours w (n :: neighbours w)) (S id));
        mret (Some id)
      else mret None
  end.

(** ** The best link to a subscriber *)

(** The local variables of [find_best_link]. *)
Record best := mk_best {
  b_next_hop : option nat;
  b_transmitter : option nat;
  b_interface : option nat;
  b_hop_count : Z;
  b_drop_rate : Z;
  b_link : option (nat * nat)
}.

Definition no_best : best := mk_best None None None 99 99 None.

Definition better (l : link) (b : best) : bool :=
  (0 <? hop_count l) &&
  ((path_drop_rate l <? b_drop_rate b) ||
   ((path_drop_rate l =? b_drop_rate b) && (hop_count l <? b_hop_count b))).

(** The loop over the neighbours; [rec] is the recursive call for a transmitter. *)
Fixpoint best_loop (rec : nat -> RM Z) (t_now : Z) (subscriber : nat) (ids : list nat) (b : best)
    : RM best :=
  match ids with
  | [] => mret b
  | id :: ids =>
      n ← get_nb id;
      if neighbour_link_timeout n <? t_now then best_loop rec t_now subscriber ids b
      else
        subs ← gets subs_of;
        '(lp, _) ← r_lift (find_link char_signed subs (n_table n) subscriber false);
        match lp with
        | None => best_loop rec t_now subscriber ids b
        | Some lp =>
            l ← r_lift (t_store (n_table n) !! lp);
            match transmitter l with
            | None => best_loop rec t_now subscriber ids b
            | Some t =>
                ours ← (
                  if bool_decide (Some t = my_subscriber) then mret true
                  else
                    _ ← get_link_state t;
                    _ ← rec t;
                    ps ← get_state t;
                    mret (bool_decide (s_next_hop ps = Some (n_subscriber n))) : RM bool);
                if negb ours then best_loop rec t_now subscriber ids b
                else
                  n ← get_nb id;
                  subs ← gets subs_of;
                  t' ← r_lift (update_path_score char_signed subs my_subscriber
                                 (size (t_store (n_table n))) (n_table n) lp);
                  _ ← put_nb (set_table n t');
                  l ← r_lift (t_store t' !! lp);
                  best_loop rec t_now subscriber ids
                    (if better l b
                     then mk_best (Some (n_subscriber n)) (transmitter l) (l_interface l) (hop_count l)
                            (path_drop_rate l) (Some (id, lp))
                     else b)
            end
        end
  end.

Definition ptr_changed {A} `{EqDecision A} (a b : option A) : bool := negb (bool_decide (a = b)).

(** The part of [find_best_link] after the loop. *)
Definition apply_best (i : nat) (t_now : Z) (b : best) : RM Z :=
  st ← get_state i;
  r ← get_route i;
  let changed :=
    ptr_changed (s_next_hop st) (b_next_hop b) || ptr_changed (s_transmitter st) (b_transmitter b) ||
    ptr_changed (s_link st) (b_link b) ||
    (bool_decide (b_next_hop b = Some i) && ptr_changed (b_interface b) (sub_interface r)) in
  v ← gets route_version;
  _ ← put_state i (mk_state (b_next_hop b) (b_transmitter b) (b_hop_count b) v (b_link b) false (next_update st));
  s ← base (get_sub i);
  r ← get_route i;
  let '(value, next_hop, r) :=
    match b_next_hop b with
    | None =>
        (if negb (Z.land (reachable s) REACHABLE_DIRECT =? REACHABLE_UNICAST) then REACHABLE_NONE
         else reachable s, None, r)
    | Some h =>
        if bool_decide (h = i) then
          let moved := ptr_changed (sub_interface r) (b_interface b) in
          (Z.lor REACHABLE_BROADCAST (Z.land (if moved then 0 else reachable s) REACHABLE_UNICAST), None,
           set_sub_interface (if moved then reset_probe r else r) (b_interface b))
        else (REACHABLE_INDIRECT, Some h, r)
    end in
  _ ← put_route i (set_sub_next_hop r next_hop);
  _ ← set_reachable i value;
  if changed then
    _ ← (if debug_linkstate && has value REACHABLE_DIRECT
         then match b_interface b with Some f => _ ← interface_at f; mret tt | None => r_undefined end
         else mret tt : RM unit);
    _ ← emit (AnnounceLink (b_hop_count b) (b_transmitter b) i);
    st ← get_state i;
    _ ← put_state i (set_s_next_update st t_now);
    mret 0
  else mret 0.

(** A subscriber being calculated is not calculated again, so as many calls nest as there
    are subscribers; [fuel] bounds them. *)
Fixpoint find_best_link (fuel : nat) (i : nat) : RM Z :=
  match fuel with
  | O => r_undefined
  | S fuel =>
      s ← base (get_sub i);
      if reachable s =? REACHABLE_SELF then mret 0
      else
        st ← get_link_state i;
        v ← gets route_version;
        if s_route_version st =? v then mret 0
        else if s_calculating st then mret (-1)
        else
          _ ← put_state i (set_s_calculating st);
          ids ← gets (fun w => n_id <$> neighbours w);
          t_now ← r_now;
          b ← best_loop (find_best_link fuel) t_now i ids no_best;
          apply_best i t_now b
  end.

(** The fuel that is always enough. *)
Definition find_best (i : nat) : RM Z := fun w => find_best_link (S (length (subs_of w))) i w.

End route.
