(* ===== verification/RouteBest.v ===== *)
(** RouteBest: the routes that [find_best_link] works out.

    [find_best_link] calls itself for the transmitters of the links it looks at and marks
    the subscribers it is working on; the lemmas here follow one call through a state in
    which the subscribers [busy] are marked. *)

From S2P Require Import Prelude CMem OverlayBuffer OverlayBufferCodec DataFormats SubscriberTree OverlayAddress PacketFormats RouteLinks Route.

(** ** Running the monad *)

Definition runs {A} (m : RM A) (w : rworld) (Q : A -> rworld -> Prop) : Prop :=
  exists x w', m w = Some (x, w') /\ Q x w'.

Lemma runs_ret {A} (x : A) w (Q : A -> rworld -> Prop) : Q x w -> runs (mret x) w Q.
Proof. intros HQ. by exists x, w. Qed.

Lemma runs_bind {A B} (m : RM A) (f : A -> RM B) w (Q : B -> rworld -> Prop) :
  runs m w (fun x w' => runs (f x) w' Q) -> runs (m ≫= f) w Q.
Proof.
  intros (x & w' & Hm & y & w'' & Hf & HQ). exists y, w''. split; [|done].
  unfold mbind, RM_bind. by rewrite Hm.
Qed.

Lemma runs_mono {A} (m : RM A) w (P Q : A -> rworld -> Prop) :
  runs m w P -> (forall x w', P x w' -> Q x w') -> runs m w Q.
Proof. intros (x & w' & Hm & HP) HQ. exists x, w'. auto. Qed.

Lemma runs_gets {A} (f : rworld -> A) w (Q : A -> rworld -> Prop) : Q (f w) w -> runs (gets f) w Q.
Proof. intros HQ. by exists (f w), w. Qed.

Lemma runs_puts f w (Q : unit -> rworld -> Prop) : Q tt (f w) -> runs (puts f) w Q.
Proof. intros HQ. by exists tt, (f w). Qed.

Lemma runs_lift {A} (o : option A) x w (Q : A -> rworld -> Prop) : o = Some x -> Q x w -> runs (r_lift o) w Q.
Proof. intros -> HQ. by exists x, w. Qed.

Lemma runs_get_sub i s w (Q : subscriber -> rworld -> Prop) :
  subs_of w !! i = Some s -> Q s w -> runs (base (get_sub i)) w Q.
Proof.
  intros Hs HQ. exists s, w. split; [|done]. unfold base, get_sub. unfold subs_of in Hs.
  rewrite Hs. by destruct w.
Qed.

Lemma runs_get_state i s w (Q : link_state -> rworld -> Prop) :
  state_of w i = Some s -> Q s w -> runs (get_state i) w Q.
Proof. intros Hs HQ. exists s, w. split; [|done]. unfold get_state. by rewrite Hs. Qed.

Lemma runs_get_nb id n w (Q : neighbour -> rworld -> Prop) :
  find_nb id (neighbours w) = Some n -> Q n w -> runs (get_nb id) w Q.
Proof. intros Hs HQ. exists n, w. split; [|done]. unfold get_nb. by rewrite Hs. Qed.

Definition with_state (w : rworld) (i : nat) (s : link_state) : rworld :=
  set_r_subs w (<[i := set_state (sub_of w i) s]> (r_subs w)).

Lemma runs_put_state i s w (Q : unit -> rworld -> Prop) : Q tt (with_state w i s) -> runs (put_state i s) w Q.
Proof. intros HQ. by eexists tt, _. Qed.

Lemma runs_get_route i w (Q : sub_route -> rworld -> Prop) : Q (sub_of w i) w -> runs (get_route i) w Q.
Proof. apply (runs_gets (fun w => sub_of w i)). Qed.

(** ** Neighbours *)

Lemma find_nb_elem l id n : NoDup (n_id <$> l) -> n ∈ l -> n_id n = id -> find_nb id l = Some n.
Proof.
  intros Hnd Hn <-. unfold find_nb. induction l as [|m l IH]; [set_solver|].
  cbn in Hnd. apply NoDup_cons in Hnd as [Hm Hnd]. cbn [list_find].
  destruct (decide (n_id m = n_id n)) as [E|E].
  - apply elem_of_cons in Hn as [->|Hn]; [done|]. destruct Hm. rewrite E. by apply list_elem_of_fmap_2.
  - apply elem_of_cons in Hn as [->|Hn]; [done|]. specialize (IH Hnd Hn).
    by destruct (list_find _ l) as [[? ?]|].
Qed.

Lemma find_nb_id l id n : find_nb id l = Some n -> n ∈ l /\ n_id n = id.
Proof.
  unfold find_nb. destruct (list_find _ l) as [[j m]|] eqn:E; cbn; intros [= <-].
  apply list_find_Some in E as (Hj & Hid & _). split; [by eapply list_elem_of_lookup_2|done].
Qed.

(** The list after the neighbour [n] was written back. *)
Definition put_in (n : neighbour) (l : list neighbour) : list neighbour :=
  (fun m => if bool_decide (n_id m = n_id n) then n else m) <$> l.

Lemma put_in_ids n l : n_id <$> put_in n l = n_id <$> l.
Proof.
  unfold put_in. rewrite <-list_fmap_compose. apply list_fmap_ext. intros j m _. cbn.
  case_bool_decide; auto.
Qed.

Lemma runs_put_nb n w (Q : unit -> rworld -> Prop) :
  Q tt (set_neighbours w (put_in n (neighbours w))) -> runs (put_nb n) w Q.
Proof. intros HQ. by eexists tt, _. Qed.

(** A neighbour whose links were scored. *)
Definition nb_kept (n n' : neighbour) : Prop :=
  n' = set_table n (n_table n') /\ table_kept (n_table n) (n_table n').

#[export] Instance nb_kept_preorder : PreOrder nb_kept.
Proof.
  split; [intros []; by split|]. intros n1 n2 n3 [E1 K1] [E2 K2]. split; [|by etransitivity].
  rewrite E2, E1. done.
Qed.

Lemma put_in_kept n n' l :
  NoDup (n_id <$> l) -> n ∈ l -> nb_kept n n' -> Forall2 nb_kept l (put_in n' l).
Proof.
  intros Hnd Hn K. assert (Hid : n_id n' = n_id n) by (by destruct K as [-> _]).
  unfold put_in. apply Forall2_fmap_r, Forall_Forall2_diag, Forall_forall. intros m Hm.
  cbn. case_bool_decide as E; [|done]. rewrite Hid in E.
  pose proof (find_nb_elem l _ n Hnd Hn eq_refl) as F1. pose proof (find_nb_elem l _ m Hnd Hm E) as F2.
  rewrite F1 in F2. by injection F2 as <-.
Qed.

(** ** The invariant *)

Definition same_sids (subs subs' : list subscriber) : Prop := sid <$> subs = sid <$> subs'.

Lemma same_sids_lookup subs subs' i : same_sids subs subs' -> sid <$> subs !! i = sid <$> subs' !! i.
Proof. intros H. by rewrite <-!list_lookup_fmap, H. Qed.

Lemma same_sids_known subs subs' i : same_sids subs subs' -> known subs i -> known subs' i.
Proof. intros H. unfold known. by rewrite <-!(fmap_is_Some sid), (same_sids_lookup _ _ _ H). Qed.

Lemma same_sids_less subs subs' i j : same_sids subs subs' -> sid_less subs' i j = sid_less subs i j.
Proof.
  intros H. pose proof (same_sids_lookup _ _ i H) as Hi. pose proof (same_sids_lookup _ _ j H) as Hj.
  unfold sid_less. destruct (subs !! i), (subs' !! i); try done. cbn in *.
  destruct (subs !! j), (subs' !! j); try done. cbn in *. congruence.
Qed.

Lemma search_ok_sids subs subs' t : same_sids subs subs' -> search_ok subs t -> search_ok subs' t.
Proof.
  intros H. induction t as [|l IHl k r IHr]; [done|]. intros (Hl & Hr & Fl & Fr).
  split_and!; auto; (eapply Forall_impl; [eassumption|]); cbn; intros j;
    by rewrite (same_sids_less _ _ _ _ H).
Qed.

Lemma table_wf_sids subs subs' me busy t : same_sids subs subs' -> table_wf subs me busy t -> table_wf subs' me busy t.
Proof.
  intros H W. split; try apply W.
  - by eapply search_ok_sids, tw_search.
  - intros i Hi. eapply same_sids_known; [done|]. by apply (tw_known _ _ _ _ W).
  - intros i l t' Hi Ht. eapply same_sids_known; [done|]. by eapply tw_transmitter.
Qed.

(** The subscribers [busy] are being calculated. *)
Record route_wf (me : nat) (busy : list nat) (w : rworld) : Prop := {
  rf_tables : Forall (fun n => table_wf (subs_of w) me [] (n_table n)) (neighbours w);
  rf_ids : NoDup (n_id <$> neighbours w);
  rf_busy i s : state_of w i = Some s -> s_calculating s = bool_decide (i ∈ busy);
  rf_states i : i ∈ busy -> is_Some (state_of w i);
  rf_known i : i ∈ busy -> known (subs_of w) i;
  rf_version : INT_MIN < route_version w <= INT_MAX
}.

(** The route of a subscriber is not going to change: it is one of our identities, it is
    being calculated, or it is up to date. *)
Definition settled (busy : list nat) (w : rworld) (i : nat) : Prop :=
  exists s, state_of w i = Some s /\
    (i ∈ busy \/ s_route_version s = route_version w \/
     exists x, subs_of w !! i = Some x /\ reachable x = REACHABLE_SELF).

(** What a calculation leaves alone. *)
Record route_kept (busy : list nat) (w w' : rworld) : Prop := {
  k_sids : same_sids (subs_of w) (subs_of w');
  k_self i x : subs_of w !! i = Some x ->
    exists x', subs_of w' !! i = Some x' /\ (reachable x = REACHABLE_SELF <-> reachable x' = REACHABLE_SELF);
  k_version : route_version w' = route_version w;
  k_neighbours : Forall2 nb_kept (neighbours w) (neighbours w');
  k_settled i : settled busy w i -> state_of w' i = state_of w i;
  k_settled_sub i : settled busy w i -> subs_of w' !! i = subs_of w !! i;
  k_state i : is_Some (state_of w i) -> is_Some (state_of w' i)
}.

Lemma settled_kept busy w w' i : route_kept busy w w' -> settled busy w i -> settled busy w' i.
Proof.
  intros K Hs. pose proof (k_settled _ _ _ K _ Hs) as E. destruct Hs as (s & Hs & Hc).
  exists s. split; [congruence|]. rewrite (k_version _ _ _ K).
  destruct Hc as [?|[?|(x & Hx & Hr)]]; auto. right. right.
  destruct (k_self _ _ _ K _ _ Hx) as (x' & Hx' & Hiff). exists x'. split; [done|]. by apply Hiff.
Qed.

#[export] Instance route_kept_preorder busy : PreOrder (route_kept busy).
Proof.
  split.
  - intros w. split; try done. intros i x Hx. by exists x.
  - intros w1 w2 w3 K1 K2. split.
    + unfold same_sids. by rewrite (k_sids _ _ _ K1), (k_sids _ _ _ K2).
    + intros i x Hx. destruct (k_self _ _ _ K1 _ _ Hx) as (x2 & Hx2 & H2).
      destruct (k_self _ _ _ K2 _ _ Hx2) as (x3 & Hx3 & H3). exists x3. split; [done|]. by rewrite H2.
    + by rewrite (k_version _ _ _ K2), (k_version _ _ _ K1).
    + by etransitivity; [apply K1|apply K2].
    + intros i Hi. rewrite (k_settled _ _ _ K2 i) by (by eapply settled_kept). by apply (k_settled _ _ _ K1).
    + intros i Hi. rewrite (k_settled_sub _ _ _ K2 i) by (by eapply settled_kept). by apply (k_settled_sub _ _ _ K1).
    + intros i Hi. by apply (k_state _ _ _ K2), (k_state _ _ _ K1).
Qed.

Lemma route_kept_fewer busy busy' w w' :
  (forall i, i ∈ busy -> i ∈ busy') -> route_kept busy' w w' -> route_kept busy w w'.
Proof.
  intros Hb K. assert (Hs : forall i, settled busy w i -> settled busy' w i).
  { intros i (s & Hs & Hc). exists s. split; [done|]. destruct Hc as [?|?]; auto. }
  split; try apply K; intros i Hi; apply K; auto.
Qed.

Lemma state_with_state w i s j :
  state_of (with_state w i s) j = if decide (i = j) then Some s else state_of w j.
Proof.
  unfold state_of, sub_of, with_state. cbn. case_decide as E; [subst; by rewrite lookup_insert_eq|].
  by rewrite lookup_insert_ne.
Qed.

(** A state is written for a subscriber that is not settled. *)
Lemma with_state_kept busy w i s : ~ settled busy w i -> route_kept busy w (with_state w i s).
Proof.
  intros Hi. split; try done.
  - intros j x Hx. by exists x.
  - intros j Hj. rewrite state_with_state. by case_decide; subst.
  - intros j Hj. rewrite state_with_state. by case_decide.
Qed.

Lemma with_state_wf me busy busy' w i s :
  route_wf me busy w -> s_calculating s = bool_decide (i ∈ busy') -> (i ∈ busy' -> known (subs_of w) i) ->
  (forall j, j <> i -> j ∈ busy' <-> j ∈ busy) -> route_wf me busy' (with_state w i s).
Proof.
  intros W Hs Hk Hb. split; try apply W.
  - intros j s'. rewrite state_with_state. destruct (decide (i = j)) as [E|E]; intros Hj; [by simplify_eq|].
    rewrite (rf_busy _ _ _ W _ _ Hj). apply bool_decide_ext. by rewrite Hb.
  - intros j Hj. rewrite state_with_state. destruct (decide (i = j)); [eauto|]. apply (rf_states _ _ _ W). by apply Hb.
  - intros j Hj. destruct (decide (j = i)) as [->|]; [by apply Hk|]. apply (rf_known _ _ _ W). by apply Hb.
Qed.

Lemma get_link_state_spec me busy w i :
  route_wf me busy w ->
  runs (get_link_state i) w (fun s w' =>
    route_wf me busy w' /\ route_kept busy w w' /\ rw w' = rw w /\ neighbours w' = neighbours w /\
    state_of w' i = Some s /\
    (state_of w i = Some s \/ (state_of w i = None /\ s_next_hop s = None /\ s_route_version s <> route_version w /\ s_calculating s = false))).
Proof.
  intros W. unfold get_link_state. apply runs_bind, runs_get_route.
  change (sub_link_state (sub_of w i)) with (state_of w i).
  destruct (state_of w i) as [s|] eqn:Hs.
  { apply runs_ret. split; [done|]. split; [done|]. auto. }
  pose proof (rf_version _ _ _ W).
  apply runs_bind, runs_gets, runs_bind, (runs_lift _ (route_version w - 1)).
  { apply ci_Some. lia. }
  apply runs_bind, runs_put_state, runs_ret. split_and!; try done.
  - assert (i ∉ busy) by (intros Hin; destruct (rf_states _ _ _ W _ Hin); congruence).
    eapply with_state_wf; try done. by rewrite bool_decide_false.
  - apply with_state_kept. intros (s & Hs' & _). congruence.
  - rewrite state_with_state. by rewrite decide_True.
  - right. cbn. split; [done|]. split; [done|]. split; [lia|done].
Qed.

(** ** What is chosen *)

(** The next hops of the routes. *)
Definition next_hops (w : rworld) (t : nat) : option nat := state_of w t ≫= s_next_hop.

(** Neighbour [n] was heard of until [t_now] and its links make a path to [i]; the route to the
    transmitter of its last link goes through [n] as well, by the next hops [hops]. *)
Definition candidate_by (hops : nat -> option nat) (me : nat) (w : rworld) (t_now : Z) (i : nat)
    (n : neighbour) (h d : Z) : Prop :=
  n ∈ neighbours w /\ t_now <= neighbour_link_timeout n /\
  exists l t, t_store (n_table n) !! i = Some l /\ transmitter l = Some t /\
    (t = me \/ hops t = Some (n_subscriber n)) /\
    route me (n_subscriber n) (t_store (n_table n)) i h d.

Definition candidate (me : nat) (w : rworld) : Z -> nat -> neighbour -> Z -> Z -> Prop :=
  candidate_by (next_hops w) me w.

(** The loss counts first, then the hops. *)
Definition worse (h d h' d' : Z) : Prop := d' < d \/ (d = d' /\ h' <= h).

(** [b] is the best of the neighbours [P]. *)
Record best_by (C : neighbour -> Z -> Z -> Prop) (i : nat) (P : list nat) (b : best) : Prop := {
  bo_least n h d : n_id n ∈ P -> C n h d -> worse h d (b_hop_count b) (b_drop_rate b);
  bo_from : b = no_best \/
    exists n l, n_id n ∈ P /\ C n (b_hop_count b) (b_drop_rate b) /\
      b_next_hop b = Some (n_subscriber n) /\ b_link b = Some (n_id n, i) /\
      t_store (n_table n) !! i = Some l /\ b_transmitter b = transmitter l /\ b_interface b = l_interface l
}.

Definition best_of (me : nat) (w : rworld) (t_now : Z) (i : nat) : list nat -> best -> Prop :=
  best_by (candidate me w t_now i) i.

(** The transmitters of the links of the neighbours [P] are settled. *)
Definition handled (me : nat) (busy : list nat) (w : rworld) (t_now : Z) (i : nat) (P : list nat) : Prop :=
  forall n l t, n ∈ neighbours w -> n_id n ∈ P -> t_now <= neighbour_link_timeout n ->
    t_store (n_table n) !! i = Some l -> transmitter l = Some t -> t <> me -> settled busy w t.

Lemma Forall2_elem_l {A B} (R : A -> B -> Prop) l k x : Forall2 R l k -> x ∈ l -> exists y, y ∈ k /\ R x y.
Proof.
  intros HR [j Hj]%list_elem_of_lookup. destruct (Forall2_lookup_l _ _ _ _ _ HR Hj) as (y & Hy & Hxy).
  exists y. split; [by eapply list_elem_of_lookup_2|done].
Qed.

Lemma Forall2_elem_r {A B} (R : A -> B -> Prop) l k y : Forall2 R l k -> y ∈ k -> exists x, x ∈ l /\ R x y.
Proof.
  intros HR [j Hj]%list_elem_of_lookup. destruct (Forall2_lookup_r _ _ _ _ _ HR Hj) as (x & Hx & Hxy).
  exists x. split; [by eapply list_elem_of_lookup_2|done].
Qed.

(** A scored neighbour has the same links. *)
Lemma nb_kept_link n n' i l' :
  nb_kept n n' -> t_store (n_table n') !! i = Some l' ->
  exists l, t_store (n_table n) !! i = Some l /\ topology l' = topology l.
Proof.
  intros [_ [_ _ K]] Hl'. symmetry in K.
  destruct (same_topology_lookup _ _ _ _ K Hl') as (l & Hl & E). eauto.
Qed.

Lemma nb_kept_fields n n' :
  nb_kept n n' -> n_id n' = n_id n /\ n_subscriber n' = n_subscriber n /\
    neighbour_link_timeout n' = neighbour_link_timeout n.
Proof. intros [E K]. unfold n_subscriber. by rewrite (tk_subscriber _ _ K), E. Qed.

Lemma nb_kept_route n n' me i h d :
  nb_kept n n' -> route me (n_subscriber n') (t_store (n_table n')) i h d <->
    route me (n_subscriber n) (t_store (n_table n)) i h d.
Proof.
  intros K. destruct (nb_kept_fields _ _ K) as (_ & -> & _). destruct K as [_ [_ _ K]]. by rewrite K.
Qed.

Lemma route_kept_length busy w w' : route_kept busy w w' -> length (subs_of w') = length (subs_of w).
Proof. intros K. rewrite <-!(length_fmap sid). f_equal. symmetry. apply (k_sids _ _ _ K). Qed.

Lemma route_kept_ids busy w w' : route_kept busy w w' -> n_id <$> neighbours w' = n_id <$> neighbours w.
Proof.
  intros K. pose proof (k_neighbours _ _ _ K) as KN. induction KN as [|n n' l l' Kn _ IH]; [done|].
  cbn. by rewrite IH, (proj1 (nb_kept_fields _ _ Kn)).
Qed.

(** ** Candidates stay candidates while the loop goes on *)

Lemma candidate_kept me busy w w' t_now i P n n' h d :
  route_kept busy w w' -> handled me busy w t_now i P -> nb_kept n n' -> n ∈ neighbours w ->
  n' ∈ neighbours w' -> n_id n ∈ P -> candidate me w t_now i n h d <-> candidate me w' t_now i n' h d.
Proof.
  intros K Hh Kn Hn Hn' HP. destruct (nb_kept_fields _ _ Kn) as (_ & Es & Et).
  pose proof (nb_kept_route _ _ me i h d Kn) as Hr. split.
  - intros (_ & Htn & l & t & Hl & Ht & Hs & R). split; [done|]. split; [lia|].
    destruct (same_topology_lookup _ _ _ _ (tk_topology _ _ (proj2 Kn)) Hl) as (l' & Hl' & [= E1 _ _ _ _ _]).
    exists l', t. rewrite E1, Es. split_and!; [done|done| |by rewrite <-Es; apply Hr].
    destruct Hs as [->|Hs]; [by left|]. destruct (decide (t = me)); [by left|right].
    unfold next_hops in *. by rewrite (k_settled _ _ _ K t) by (by eapply Hh).
  - intros (_ & Htn & l' & t & Hl' & Ht & Hs & R). split; [done|]. split; [lia|].
    destruct (nb_kept_link _ _ _ _ Kn Hl') as (l & Hl & [= E1 _ _ _ _ _]).
    exists l, t. rewrite <-E1, <-Es. split_and!; [done|done| |by rewrite Es; apply Hr].
    destruct Hs as [->|Hs]; [by left|]. destruct (decide (t = me)); [by left|right].
    unfold next_hops in *. rewrite <-(k_settled _ _ _ K t); [done|]. eapply Hh; eauto; [lia|congruence].
Qed.

Lemma handled_kept me busy w w' t_now i P :
  route_kept busy w w' -> handled me busy w t_now i P -> handled me busy w' t_now i P.
Proof.
  intros K Hh n' l' t Hn' HP Htn Hl' Ht Hm.
  destruct (Forall2_elem_r _ _ _ _ (k_neighbours _ _ _ K) Hn') as (n & Hn & Kn).
  destruct (nb_kept_fields _ _ Kn) as (Ei & _ & Et).
  destruct (nb_kept_link _ _ _ _ Kn Hl') as (l & Hl & [= E1 _ _ _ _ _]).
  eapply settled_kept; [exact K|]. eapply (Hh n l); [done|congruence|lia|done|congruence|done].
Qed.

Lemma best_of_kept me busy w w' t_now i P b :
  route_kept busy w w' -> handled me busy w t_now i P ->
  best_of me w t_now i P b -> best_of me w' t_now i P b.
Proof.
  intros K Hh [Hl Hf]. split.
  - intros n' h d HP Hc. destruct (Forall2_elem_r _ _ _ _ (k_neighbours _ _ _ K) (proj1 Hc)) as (n & Hn & Kn).
    destruct (nb_kept_fields _ _ Kn) as (Ei & _ & _). rewrite Ei in HP. apply (Hl n); [done|].
    apply (candidate_kept _ _ _ _ _ _ _ n n' _ _ K Hh Kn); try done. apply Hc.
  - destruct Hf as [->|(n & l & HP & Hc & E1 & E2 & Hnl & E3 & E4)]; [by left|right].
    destruct (Forall2_elem_l _ _ _ _ (k_neighbours _ _ _ K) (proj1 Hc)) as (n' & Hn' & Kn).
    destruct (nb_kept_fields _ _ Kn) as (Ei & Es & _).
    destruct (same_topology_lookup _ _ _ _ (tk_topology _ _ (proj2 Kn)) Hnl) as (l' & Hl' & [= E5 E6 _ _ _ _]).
    exists n', l'. rewrite Ei, Es, E5, E6. split; [done|]. split; [|done].
    apply (candidate_kept _ _ _ _ _ _ _ n n' _ _ K Hh Kn); try done. apply Hc.
Qed.

(** The neighbour [n] is dealt with. *)
Lemma handled_next me busy w t_now i P n :
  NoDup (n_id <$> neighbours w) -> n ∈ neighbours w -> handled me busy w t_now i P ->
  (forall l t, t_now <= neighbour_link_timeout n -> t_store (n_table n) !! i = Some l ->
     transmitter l = Some t -> t <> me -> settled busy w t) ->
  handled me busy w t_now i (P ++ [n_id n]).
Proof.
  intros Hnd Hn Hh Hs m l t Hm [HP|Hid%list_elem_of_singleton]%elem_of_app; [by eapply Hh|].
  assert (m = n) as ->; [|by apply Hs].
  pose proof (find_nb_elem _ _ _ Hnd Hn eq_refl) as F1. pose proof (find_nb_elem _ _ _ Hnd Hm Hid) as F2.
  congruence.
Qed.

Lemma best_of_next me w t_now i P n b b' :
  NoDup (n_id <$> neighbours w) -> n ∈ neighbours w -> best_of me w t_now i P b ->
  (forall h d, candidate me w t_now i n h d -> worse h d (b_hop_count b') (b_drop_rate b')) ->
  (b' = b \/ worse (b_hop_count b) (b_drop_rate b) (b_hop_count b') (b_drop_rate b') /\
     exists l, candidate me w t_now i n (b_hop_count b') (b_drop_rate b') /\
      b_next_hop b' = Some (n_subscriber n) /\ b_link b' = Some (n_id n, i) /\
      t_store (n_table n) !! i = Some l /\ b_transmitter b' = transmitter l /\ b_interface b' = l_interface l) ->
  best_of me w t_now i (P ++ [n_id n]) b'.
Proof.
  intros Hnd Hn [Hl Hf] Hw Hb. split.
  - intros m h d [HP|Hid%list_elem_of_singleton]%elem_of_app Hc.
    + specialize (Hl m h d HP Hc). destruct Hb as [->|[Hww _]]; [done|]. unfold worse in *. lia.
    + assert (m = n) as ->; [|by apply Hw].
      pose proof (find_nb_elem _ _ _ Hnd Hn eq_refl) as F1.
      pose proof (find_nb_elem _ _ _ Hnd (proj1 Hc) Hid) as F2. congruence.
  - destruct Hb as [->|(_ & l & Hc)].
    + destruct Hf as [->|(m & l & HP & Hc)]; [by left|right]. exists m, l. split; [set_solver|done].
    + right. exists n, l. split; [set_solver|done].
Qed.

(** ** Writing back a scored neighbour *)

Lemma put_scored me busy w n t' :
  route_wf me busy w -> n ∈ neighbours w -> table_wf (subs_of w) me [] t' -> table_kept (n_table n) t' ->
  let w' := set_neighbours w (put_in (set_table n t') (neighbours w)) in
  route_wf me busy w' /\ route_kept busy w w' /\ set_table n t' ∈ neighbours w'.
Proof.
  intros W Hn Wt Kt w'. assert (Kn : nb_kept n (set_table n t')) by (by split).
  pose proof (put_in_kept _ _ _ (rf_ids _ _ _ W) Hn Kn) as K2.
  split; [|split].
  - split; try apply W; cbn; [|by rewrite put_in_ids; apply W].
    apply Forall_forall. intros m Hm. unfold put_in in Hm. apply list_elem_of_fmap in Hm as (m0 & -> & Hm0).
    case_bool_decide; [done|]. pose proof (rf_tables _ _ _ W) as Ht. rewrite Forall_forall in Ht. by apply Ht.
  - split; try done. intros j x Hx. by exists x.
  - cbn. apply list_elem_of_fmap. exists n. split; [|done]. by rewrite bool_decide_true.
Qed.

Section calculation.
Context `{Allocator}.
Context (gettime_ms : nat -> Z) (char_signed : bool) (me : nat) (directory_service : option nat).
Context (overlay_interfaces : list overlay_interface) (debug_linkstate : bool).

Abbreviation loop := (best_loop char_signed (Some me)).

(** What a recursive call promises. *)
Definition calculates (bound : nat) (busy : list nat) (rec : nat -> RM Z) : Prop :=
  forall w t, route_wf me busy w -> (length (subs_of w) < bound)%nat -> known (subs_of w) t ->
    runs (rec t) w (fun _ w' => route_wf me busy w' /\ route_kept busy w w' /\
      (is_Some (state_of w' t) -> settled busy w' t)).

(** What the loop promises, from [w] on with the neighbours [P] done. *)
Definition loop_post (busy : list nat) (t_now : Z) (i : nat) (P : list nat) (w : rworld) (b : best) (w' : rworld) : Prop :=
  route_wf me busy w' /\ route_kept busy w w' /\ handled me busy w' t_now i P /\ best_of me w' t_now i P b.

Lemma loop_post_trans busy t_now i P w w1 b w' :
  route_kept busy w w1 -> loop_post busy t_now i P w1 b w' -> loop_post busy t_now i P w b w'.
Proof. intros K (W & K' & Hh & Hb). split; [done|]. split; [by etransitivity|done]. Qed.

(** The route to the transmitter goes on through [n]. *)
Definition via (w : rworld) (n : neighbour) (t : nat) : Prop :=
  t = me \/ next_hops w t = Some (n_subscriber n).

(** The recursive call for the transmitter of a link. *)
Lemma transmitter_spec bound busy rec w n t (Q : bool -> rworld -> Prop) :
  route_wf me busy w -> (length (subs_of w) < bound)%nat -> known (subs_of w) t -> calculates bound busy rec ->
  (forall ours w', route_wf me busy w' -> route_kept busy w w' -> (t <> me -> settled busy w' t) ->
     (ours = true <-> via w' n t) -> Q ours w') ->
  runs (if bool_decide (Some t = Some me) then mret true
        else _ ← get_link_state t; _ ← rec t; ps ← get_state t;
             mret (bool_decide (s_next_hop ps = Some (n_subscriber n)))) w Q.
Proof.
  intros W Hlen Ht Hrec HQ. case_bool_decide as E.
  { injection E as ->. apply runs_ret, HQ; try done. unfold via. naive_solver. }
  apply runs_bind. eapply runs_mono; [by apply (get_link_state_spec me busy)|].
  intros s w1 (W1 & K1 & _ & _ & Hs & _).
  apply runs_bind. eapply runs_mono.
  { apply Hrec; [done|by rewrite (route_kept_length _ _ _ K1)|eapply same_sids_known; [apply K1|done]]. }
  intros _ w2 (W2 & K2 & Hset). destruct (k_state _ _ _ K2 t) as [ps Hps]; [by eexists|].
  apply runs_bind, (runs_get_state _ ps); [done|]. apply runs_ret, HQ; try done.
  - by etransitivity.
  - intros _. apply Hset. by eexists.
  - unfold via, next_hops. rewrite bool_decide_eq_true, Hps. cbn. naive_solver.
Qed.

(** Comparing the score of a link with the best so far. *)
Lemma better_score m st i l b b1 :
  score_right me m st i l ->
  let b' := if better l b then b1 else b in
  b_hop_count b1 = hop_count l -> b_drop_rate b1 = path_drop_rate l ->
  (forall h d, route me m st i h d -> worse h d (b_hop_count b') (b_drop_rate b')) /\
  (better l b = true -> route me m st i (b_hop_count b1) (b_drop_rate b1) /\
     worse (b_hop_count b) (b_drop_rate b) (b_hop_count b1) (b_drop_rate b1)).
Proof.
  intros Hsc b' E1 E2. subst b'. rewrite E1, E2. unfold worse.
  destruct Hsc as [R|[Hh Hno]].
  - pose proof (route_bound _ _ _ _ _ _ R). split.
    + intros h d R'. destruct (route_fun _ _ _ _ _ _ R' _ _ R) as [-> ->].
      destruct (better l b) eqn:Eb; rewrite ?E1, ?E2; unfold better in Eb; zify_bool; lia.
    + unfold better. intros Hb. split; [done|]. zify_bool. lia.
  - split; [by intros h d R%Hno|]. unfold better. intros Hb. zify_bool. lia.
Qed.

(** One neighbour whose link to [i] goes on through it: its link is scored and compared. *)
Lemma score_spec busy w n id i l t t_now P b (f : best -> RM best) Q :
  n_id n = id -> route_wf me busy w -> n ∈ neighbours w -> i ∈ busy -> t_now <= neighbour_link_timeout n ->
  t_store (n_table n) !! i = Some l -> transmitter l = Some t -> via w n t ->
  (t <> me -> settled busy w t) -> handled me busy w t_now i P -> best_of me w t_now i P b ->
  (forall b' w', loop_post busy t_now i (P ++ [n_id n]) w b' w' -> runs (f b') w' Q) ->
  runs (n ← get_nb id;
        subs ← gets subs_of;
        t' ← r_lift (update_path_score char_signed subs (Some me) (size (t_store (n_table n))) (n_table n) i);
        _ ← put_nb (set_table n t');
        l ← r_lift (t_store t' !! i);
        f (if better l b
           then mk_best (Some (n_subscriber n)) (transmitter l) (l_interface l) (hop_count l)
                  (path_drop_rate l) (Some (id, i))
           else b)) w Q.
Proof.
  intros <- W Hn Hi Htn Hl Ht Hvia Hset Hh Hb HQ.
  apply runs_bind, (runs_get_nb _ n); [by apply find_nb_elem; [apply W|done|done]|].
  apply runs_bind, runs_gets.
  assert (Wt : table_wf (subs_of w) me [] (n_table n)).
  { pose proof (rf_tables _ _ _ W) as Hw. rewrite Forall_forall in Hw. by apply Hw. }
  destruct (update_path_score_spec char_signed (subs_of w) me (size (t_store (n_table n))) [] (n_table n) i)
    as (t' & l' & E & Wt' & Kt & Hl' & Hv); [done|by eexists|by repeat constructor|set_solver|cbn; lia|].
  apply runs_bind, (runs_lift _ t'); [done|].
  apply runs_bind, runs_put_nb. destruct (put_scored me busy w n t' W Hn Wt' Kt) as (W' & K' & Hn').
  set (w' := set_neighbours w _) in *. apply runs_bind, (runs_lift _ l'); [done|].
  set (n' := set_table n t') in *.
  assert (Es : n_subscriber n' = n_subscriber n) by apply (tk_subscriber _ _ Kt).
  destruct (same_topology_lookup _ _ _ _ (tk_topology _ _ Kt) Hl) as (l2 & Hl2 & [= E1 _ _ _ _ _]).
  assert (l2 = l') as -> by congruence. rewrite Ht in E1.
  assert (Hc : forall h d, route me (n_subscriber n') (t_store t') i h d -> candidate me w' t_now i n' h d).
  { intros h d R. split; [done|]. split; [done|]. exists l', t. split; [done|]. split; [done|]. split; [|done].
    by rewrite Es. }
  rewrite <-(tk_version _ _ Kt) in Hv.
  pose proof (tw_score _ _ _ _ Wt' _ _ Hl' Hv : score_right me (n_subscriber n') (t_store t') i l') as Hsc.
  rewrite <-Es. set (b1 := mk_best _ _ _ _ _ _).
  destruct (better_score _ _ _ _ b b1 Hsc eq_refl eq_refl) as [Hw Hbs].
  apply HQ. split; [done|]. split; [done|]. split.
  - apply (handled_next me busy w' t_now i P n'); [apply W'|done|by eapply handled_kept|].
    intros k u _ Hk Hu Hm. change (t_store t' !! i = Some k) in Hk. assert (u = t) as -> by congruence. eapply settled_kept; [done|auto].
  - apply (best_of_next me w' t_now i P n' b); [apply W'|done|by eapply best_of_kept| |].
    + intros h d (_ & _ & ? & ? & _ & _ & _ & R). by apply Hw.
    + destruct (better l' b) eqn:Eb; [right|by left]. destruct (Hbs eq_refl) as [R Hw']. split; [done|].
      exists l'. split; [by apply Hc|done].
Qed.

(** A neighbour that is no candidate. *)
Lemma skip_post busy w n i t_now P b :
  route_wf me busy w -> n ∈ neighbours w -> handled me busy w t_now i P -> best_of me w t_now i P b ->
  (forall l t, t_now <= neighbour_link_timeout n -> t_store (n_table n) !! i = Some l ->
     transmitter l = Some t -> (t <> me -> settled busy w t) /\ ~ via w n t) ->
  loop_post busy t_now i (P ++ [n_id n]) w b w.
Proof.
  intros W Hn Hh Hb Hno. split; [done|]. split; [done|]. split.
  - apply handled_next; [apply W|done|done|]. intros l t Htn Hl Ht. by apply (Hno l t).
  - eapply best_of_next; [apply W|done|done| |by left].
    intros h d (_ & Htn & l & t & Hl & Ht & Hv & _). by destruct (Hno l t Htn Hl Ht) as [_ []].
Qed.

Lemma best_loop_spec bound busy rec t_now i : calculates bound busy rec -> i ∈ busy ->
  forall ids w P b, route_wf me busy w -> (length (subs_of w) < bound)%nat -> known (subs_of w) i -> n_id <$> neighbours w = P ++ ids ->
  handled me busy w t_now i P -> best_of me w t_now i P b ->
  runs (loop rec t_now i ids b) w (loop_post busy t_now i (P ++ ids) w).
Proof.
  intros Hrec Hi. induction ids as [|id ids IH]; intros w P b W Hlen Hk Hids Hh Hb.
  { rewrite app_nil_r. apply runs_ret. by split. }
  assert (Hgo : forall b' w', loop_post busy t_now i (P ++ [id]) w b' w' ->
            runs (loop rec t_now i ids b') w' (loop_post busy t_now i (P ++ id :: ids) w)).
  { intros b' w' (W' & K' & Hh' & Hb'). replace (P ++ id :: ids) with ((P ++ [id]) ++ ids) in * by (by rewrite <-app_assoc).
    eapply runs_mono; [apply IH; try done|].
    - by rewrite (route_kept_length _ _ _ K').
    - eapply same_sids_known; [apply K'|done].
    - by rewrite (route_kept_ids _ _ _ K').
    - intros b2 w2. by apply loop_post_trans. }
  assert (exists n, n ∈ neighbours w /\ n_id n = id) as (n & Hn & <-).
  { assert (id ∈ n_id <$> neighbours w) as Hin by (rewrite Hids; set_solver).
    apply list_elem_of_fmap in Hin as (n & -> & Hn). eauto. }
  cbn [best_loop]. apply runs_bind, (runs_get_nb _ n); [by apply find_nb_elem; [apply W|done|done]|].
  destruct (Z.ltb_spec (neighbour_link_timeout n) t_now) as [Hlt|Hge].
  { apply Hgo, skip_post; try done. lia. }
  apply runs_bind, runs_gets.
  assert (Wt : table_wf (subs_of w) me [] (n_table n)).
  { pose proof (rf_tables _ _ _ W) as Hw. rewrite Forall_forall in Hw. by apply Hw. }
  apply runs_bind, (runs_lift _ (if decide (is_Some (t_store (n_table n) !! i)) then Some i else None, n_table n)).
  { by eapply find_link_lookup. }
  destruct (t_store (n_table n) !! i) as [l|] eqn:Hl.
  2:{ rewrite decide_False by (by intros [? ?]). apply Hgo, skip_post; try done. congruence. }
  rewrite decide_True by eauto. apply runs_bind, (runs_lift _ l); [done|].
  destruct (transmitter l) as [t|] eqn:Ht.
  2:{ apply Hgo, skip_post; try done. congruence. }
  apply runs_bind, (transmitter_spec bound busy); [done|done|by eapply tw_transmitter|done|].
  intros ours w1 W1 K1 Hset Hours.
  destruct (Forall2_elem_l _ _ _ _ (k_neighbours _ _ _ K1) Hn) as (n1 & Hn1 & Kn).
  destruct (nb_kept_fields _ _ Kn) as (Ei & Es & Et).
  destruct (same_topology_lookup _ _ _ _ (tk_topology _ _ (proj2 Kn)) Hl) as (l1 & Hl1 & [= E1 _ _ _ _ _]).
  rewrite Ht in E1. rewrite <-Ei in *.
  assert (Hv : via w1 n1 t <-> via w1 n t) by (unfold via; by rewrite Es).
  assert (Hh1 : handled me busy w1 t_now i P) by (by eapply handled_kept).
  assert (Hb1 : best_of me w1 t_now i P b) by (by eapply best_of_kept).
  destruct ours; cbn [negb].
  - apply (score_spec busy w1 n1 (n_id n1) i l1 t t_now P b (loop rec t_now i ids)); try done; [lia|by apply Hv, Hours|].
    intros b' w' Hp. apply Hgo. by eapply loop_post_trans.
  - apply Hgo. eapply loop_post_trans; [exact K1|]. apply skip_post; try done.
    intros l2 t2 _ Hl2 Ht2. assert (t2 = t) as -> by congruence. split; [done|].
    rewrite Hv, <-Hours. done.
Qed.

(** ** Storing the result *)

(** Only the subscriber [i] changed, and its identifier did not. *)
Record only_sub (i : nat) (w w' : rworld) : Prop := {
  os_sids : same_sids (subs_of w) (subs_of w');
  os_subs j : j <> i -> subs_of w' !! j = subs_of w !! j;
  os_routes j : j <> i -> sub_of w' j = sub_of w j;
  os_neighbours : neighbours w' = neighbours w;
  os_version : route_version w' = route_version w
}.

#[export] Instance only_sub_preorder i : PreOrder (only_sub i).
Proof.
  split; [by split|]. intros w1 w2 w3 A B. split.
  - unfold same_sids. by rewrite (os_sids _ _ _ A), (os_sids _ _ _ B).
  - intros j Hj. by rewrite (os_subs _ _ _ B), (os_subs _ _ _ A).
  - intros j Hj. by rewrite (os_routes _ _ _ B), (os_routes _ _ _ A).
  - by rewrite (os_neighbours _ _ _ B), (os_neighbours _ _ _ A).
  - by rewrite (os_version _ _ _ B), (os_version _ _ _ A).
Qed.

Lemma only_sub_route i w r : only_sub i w (set_r_subs w (<[i := r]> (r_subs w))).
Proof. split; try done. intros j Hj. unfold sub_of. cbn. by rewrite lookup_insert_ne. Qed.

Lemma set_reachable_spec w i v x (Q : Z -> rworld -> Prop) :
  subs_of w !! i = Some x ->
  (forall w', only_sub i w w' -> r_subs w' = r_subs w -> subs_of w' !! i = Some (set_reachable_field x v) -> Q 0 w') ->
  runs (set_reachable directory_service i v) w Q.
Proof.
  intros Hx HQ. unfold set_reachable. apply runs_bind, (runs_get_sub _ x); [done|].
  destruct (Z.eqb_spec (reachable x) v) as [<-|Hne].
  { apply runs_ret, HQ; try done. rewrite Hx. by destruct x. }
  apply runs_bind. eexists tt, _. split; [reflexivity|].
  set (w1 := set_rw w _). assert (H1 : only_sub i w w1).
  { split; try done; unfold subs_of; cbn.
    - unfold same_sids. rewrite list_fmap_insert. cbn. symmetry. apply list_insert_id.
      unfold subs_of in Hx. by rewrite list_lookup_fmap, Hx.
    - intros j Hj. by rewrite list_lookup_insert_ne. }
  assert (H2 : subs_of w1 !! i = Some (set_reachable_field x v)).
  { unfold subs_of. cbn. apply list_lookup_insert_eq. by eapply lookup_lt_Some. }
  assert (H3 : r_subs w1 = r_subs w) by done. clearbody w1.
  apply runs_bind, runs_get_route.
  assert (Hev : forall (c : bool) e w2 (f : unit -> RM Z) (P : Z -> rworld -> Prop),
    only_sub i w w2 -> r_subs w2 = r_subs w -> subs_of w2 !! i = Some (set_reachable_field x v) ->
    (forall w3, only_sub i w w3 -> r_subs w3 = r_subs w -> subs_of w3 !! i = Some (set_reachable_field x v) ->
       runs (f tt) w3 P) -> runs (mbind f (if c then emit e else mret tt)) w2 P).
  { intros c e w2 f P A1 A2 A3 Hf. apply runs_bind. destruct c; [|by apply runs_ret, Hf].
    apply runs_puts, Hf; try done. etransitivity; [exact A1|by split]. }
  do 4 (apply Hev; [done..|]; clear dependent w1; intros w1 H1 H3 H2).
  apply runs_ret, HQ; done.
Qed.

(** The state says what the loop found. *)
Record state_is (b : best) (v : Z) (s : link_state) : Prop := {
  si_next_hop : s_next_hop s = b_next_hop b;
  si_transmitter : s_transmitter s = b_transmitter b;
  si_hop_count : s_hop_count s = b_hop_count b;
  si_link : s_link s = b_link b;
  si_version : s_route_version s = v;
  si_calculating : s_calculating s = false
}.

(** How the subscriber is reached, given the next hop: not at all (or as before, by the
    address it sends from), directly on the interface of the link, or through a neighbour. *)
Definition reached (old : Z) (next_hop interface : option nat) (i : nat) (x : subscriber) (r : sub_route) : Prop :=
  match next_hop with
  | None =>
      sub_next_hop r = None /\
      reachable x = (if Z.land old REACHABLE_DIRECT =? REACHABLE_UNICAST then old else REACHABLE_NONE)
  | Some h =>
      if decide (h = i)
      then sub_next_hop r = None /\ sub_interface r = interface /\
           (reachable x = REACHABLE_BROADCAST \/ reachable x = Z.lor REACHABLE_BROADCAST REACHABLE_UNICAST)
      else sub_next_hop r = Some h /\ reachable x = REACHABLE_INDIRECT
  end.

Lemma broadcast_unicast z :
  let v := Z.lor REACHABLE_BROADCAST (Z.land z REACHABLE_UNICAST) in
  v = REACHABLE_BROADCAST \/ v = Z.lor REACHABLE_BROADCAST REACHABLE_UNICAST.
Proof.
  assert (E : Z.land z REACHABLE_UNICAST = if Z.testbit z 2 then REACHABLE_UNICAST else 0).
  { apply Z.bits_inj'. intros n Hn. rewrite Z.land_spec. change REACHABLE_UNICAST with (2 ^ 2).
    rewrite Z.pow2_bits_eqb by lia. destruct (Z.eqb_spec 2 n) as [<-|Hne]; destruct (Z.testbit z 2);
      rewrite ?Z.pow2_bits_eqb, ?Z.bits_0 by lia; rewrite ?andb_false_r; zdecide; done. }
  cbn. rewrite E. destruct (Z.testbit z 2); auto.
Qed.

Lemma apply_best_spec w i t_now b x s :
  debug_linkstate = false -> subs_of w !! i = Some x -> state_of w i = Some s ->
  runs (apply_best directory_service overlay_interfaces debug_linkstate i t_now b) w (fun _ w' =>
    only_sub i w w' /\ (exists s', state_of w' i = Some s' /\ state_is b (route_version w) s') /\
    exists x', subs_of w' !! i = Some x' /\ reached (reachable x) (b_next_hop b) (b_interface b) i x' (sub_of w' i)).
Proof.
  intros Hdbg Hx Hs. unfold apply_best. rewrite Hdbg.
  apply runs_bind, (runs_get_state _ s); [done|]. apply runs_bind, runs_get_route.
  set (changed := _ || _). clearbody changed. apply runs_bind, runs_gets. apply runs_bind, runs_put_state.
  set (s1 := mk_state _ _ _ _ _ _ _). set (w1 := with_state w i s1).
  apply runs_bind, (runs_get_sub _ x); [done|]. apply runs_bind, runs_get_route.
  assert (Hs1 : state_of w1 i = Some s1) by (unfold w1; rewrite state_with_state; by rewrite decide_True).
  set (res := match b_next_hop b with None => _ | _ => _ end).
  assert (Hres : sub_link_state res.2 = Some s1 /\
    reached (reachable x) (b_next_hop b) (b_interface b) i (set_reachable_field x res.1.1) (set_sub_next_hop res.2 res.1.2)).
  { unfold res, reached. destruct (b_next_hop b) as [h|]; [|split; [done|]; split; [done|]; cbn; by destruct (_ =? _)].
    case_bool_decide as E; [rewrite decide_True by done|by rewrite decide_False].
    split; [cbn; destruct (ptr_changed (sub_interface (sub_of w1 i)) (b_interface b)); exact Hs1|]. split; [done|]. split; [done|]. apply broadcast_unicast. }
  destruct res as [[v nh] r]. cbn [fst snd] in Hres. destruct Hres as [Hr1 Hr2].
  apply runs_bind, runs_puts. set (w2 := set_r_subs w1 _).
  assert (Hw2 : sub_of w2 i = set_sub_next_hop r nh) by (unfold sub_of; cbn; by rewrite lookup_insert_eq).
  assert (H2 : only_sub i w w2) by (by etransitivity; apply only_sub_route).
  apply runs_bind, (set_reachable_spec _ _ _ x); [done|]. intros w3 O3 R3 X3.
  assert (H3 : only_sub i w w3) by (by etransitivity).
  assert (Hw3 : sub_of w3 i = set_sub_next_hop r nh) by (unfold sub_of in *; by rewrite R3).
  assert (Hs3 : state_of w3 i = Some s1) by (unfold state_of; by rewrite Hw3).
  destruct changed.
  2:{ apply runs_ret. split; [done|]. split; [exists s1; by split|].
      eexists. split; [exact X3|]. by rewrite Hw3. }
  cbn [andb]. apply runs_bind, runs_ret, runs_bind, runs_puts, runs_bind, (runs_get_state _ s1); [done|].
  apply runs_bind, runs_put_state, runs_ret. split.
  { etransitivity; [exact H3|]. etransitivity; [|apply only_sub_route]. by split. }
  rewrite state_with_state, decide_True by done. split; [eexists; by split|].
  eexists. split; [exact X3|]. unfold with_state, sub_of. cbn. rewrite lookup_insert_eq. cbn.
  change (default zero_route (r_subs w3 !! i)) with (sub_of w3 i). by rewrite Hw3.
Qed.

(** The next hops when the route to [i] is chosen: those that are left, and for [i] itself the
    one it had, which counts if a link to [i] says that [i] transmits on it. *)
Definition hops_for (i : nat) (was : option nat) (w' : rworld) (t : nat) : option nat :=
  if decide (t = i) then was else next_hops w' t.

Lemma candidate_only_sub w w' i t_now n h d :
  only_sub i w w' ->
  candidate_by (hops_for i (next_hops w i) w') me w' t_now i n h d <-> candidate me w t_now i n h d.
Proof.
  intros O. unfold candidate, candidate_by. rewrite (os_neighbours _ _ _ O).
  assert (E : forall t, hops_for i (next_hops w i) w' t = next_hops w t).
  { intros t. unfold hops_for. case_decide as Ht; [by subst|].
    unfold next_hops, state_of. by rewrite (os_routes _ _ _ O). }
  split; intros (Hn & Htn & l & t & Hl & Ht & Hv & R); (split; [done|]); (split; [done|]); exists l, t;
    rewrite E in *; done.
Qed.

Lemma best_of_only_sub w w' i t_now P b :
  only_sub i w w' -> best_of me w t_now i P b ->
  best_by (candidate_by (hops_for i (next_hops w i) w') me w' t_now i) i P b.
Proof.
  intros O [Hl Hf]. split.
  - intros n h d HP Hc%(candidate_only_sub _ _ _ _ _ _ _ O). by eapply Hl.
  - destruct Hf as [->|(n & l & HP & Hc & Hr)]; [by left|right]. exists n, l.
    split; [done|]. split; [|done]. by apply (candidate_only_sub _ _ _ _ _ _ _ O).
Qed.

(** What a calculation for [i] at [t_now] leaves behind; [old] was its reachability and [was] its
    next hop. *)
Definition calculated (t_now old : Z) (was : option nat) (i : nat) (w' : rworld) : Prop :=
  exists b s x, state_of w' i = Some s /\ state_is b (route_version w') s /\
    best_by (candidate_by (hops_for i was w') me w' t_now i) i (n_id <$> neighbours w') b /\
    subs_of w' !! i = Some x /\ reached old (b_next_hop b) (b_interface b) i x (sub_of w' i).

Lemma reached_not_self old nh iface i x r :
  old <> REACHABLE_SELF -> reached old nh iface i x r -> reachable x <> REACHABLE_SELF.
Proof.
  unfold reached. intros Ho. destruct nh as [h|]; [case_decide|]; intros Hr.
  - destruct Hr as (_ & _ & [-> | ->]); by vm_compute.
  - destruct Hr as (_ & ->). by vm_compute.
  - destruct Hr as (_ & ->). by destruct (_ =? _).
Qed.

(** Storing the result ends the calculation of [i]. *)
Lemma stored busy w w' i x x' b s :
  route_wf me (i :: busy) w -> i ∉ busy -> ~ settled busy w i -> only_sub i w w' ->
  subs_of w !! i = Some x -> reachable x <> REACHABLE_SELF ->
  state_of w' i = Some s -> state_is b (route_version w) s ->
  subs_of w' !! i = Some x' -> reachable x' <> REACHABLE_SELF ->
  route_wf me busy w' /\ route_kept busy w w' /\ settled busy w' i.
Proof.
  intros W Hi Hns O Hx Hr Hs Is Hx' Hr'.
  assert (Hst : forall j, j <> i -> state_of w' j = state_of w j).
  { intros j Hj. unfold state_of. by rewrite (os_routes _ _ _ O). }
  split; [|split].
  - split.
    + rewrite (os_neighbours _ _ _ O). eapply Forall_impl; [apply (rf_tables _ _ _ W)|].
      intros n. apply table_wf_sids, O.
    + rewrite (os_neighbours _ _ _ O). apply W.
    + intros j sj Hj. destruct (decide (j = i)) as [->|Hne].
      * rewrite bool_decide_false by done. simplify_eq. apply Is.
      * rewrite Hst in Hj by done. rewrite (rf_busy _ _ _ W _ _ Hj). apply bool_decide_ext. set_solver.
    + intros j Hj. rewrite Hst by set_solver. apply (rf_states _ _ _ W). set_solver.
    + intros j Hj. eapply same_sids_known; [apply O|]. apply (rf_known _ _ _ W). set_solver.
    + rewrite (os_version _ _ _ O). apply W.
  - split; try apply O.
    + intros j y Hy. destruct (decide (j = i)) as [->|Hne]; [|exists y; by rewrite (os_subs _ _ _ O)].
      simplify_eq. exists x'. split; [done|]. by split.
    + by rewrite (os_neighbours _ _ _ O).
    + intros j Hj. apply Hst. by intros ->.
    + intros j Hj. apply (os_subs _ _ _ O). by intros ->.
    + intros j Hj. destruct (decide (j = i)) as [->|Hne]; [by eexists|by rewrite Hst].
  - exists s. split; [done|]. right. left. rewrite (os_version _ _ _ O). apply Is.
Qed.

Lemma known_room (subs : list subscriber) busy : NoDup busy -> Forall (known subs) busy -> (length busy <= length subs)%nat.
Proof.
  intros Hnd Hk. rewrite <-(length_seq (length subs) 0). apply submseteq_length, NoDup_submseteq; [done|].
  intros j Hj. rewrite Forall_forall in Hk. apply elem_of_seq. apply Hk, lookup_lt_is_Some in Hj. lia.
Qed.

Lemma runs_now w (Q : Z -> rworld -> Prop) :
  (forall b, w_dir b = w_dir (rw w) -> Q (gettime_ms (w_ticks (rw w))) (set_rw w b)) ->
  runs (r_now gettime_ms) w Q.
Proof. intros HQ. eexists _, _. split; [reflexivity|]. by apply HQ. Qed.

Lemma set_rw_wf busy w b :
  w_dir b = w_dir (rw w) -> route_wf me busy w ->
  route_wf me busy (set_rw w b) /\ route_kept busy w (set_rw w b).
Proof.
  intros Hd W. assert (Es : subs_of (set_rw w b) = subs_of w) by (unfold subs_of; cbn; by rewrite Hd).
  split.
  - split; rewrite ?Es; apply W.
  - split; rewrite ?Es; try done. intros j y Hy. by exists y.
Qed.

Abbreviation calc := (find_best_link gettime_ms char_signed (Some me) directory_service overlay_interfaces debug_linkstate).
Hypothesis quiet : debug_linkstate = false.

Lemma find_best_link_spec fuel : forall busy w i x,
  route_wf me busy w -> NoDup busy ->
  (length (subs_of w) < fuel + length busy)%nat -> subs_of w !! i = Some x ->
  runs (calc fuel i) w (fun _ w' =>
    route_wf me busy w' /\ route_kept busy w w' /\ (is_Some (state_of w' i) -> settled busy w' i) /\
    (reachable x <> REACHABLE_SELF -> i ∉ busy -> ~ settled busy w i ->
     calculated (gettime_ms (w_ticks (rw w))) (reachable x) (next_hops w i) i w')).
Proof.
  induction fuel as [|fuel IH]; intros busy w i x W Hnd Hf Hx.
  { pose proof (known_room (subs_of w) busy Hnd (proj2 (Forall_forall _ _) (rf_known _ _ _ W))). lia. }
  cbn [find_best_link]. apply runs_bind, (runs_get_sub _ x); [done|].
  destruct (Z.eqb_spec (reachable x) REACHABLE_SELF) as [Hself|Hself].
  { apply runs_ret. split; [done|]. split; [done|]. split; [|done].
    intros [s Hs]. exists s. split; [done|]. right. right. eauto. }
  apply runs_bind. eapply runs_mono; [by apply (get_link_state_spec me busy)|].
  intros s w1 (W1 & K1 & Erw & Enb & Hs & Hor).
  apply runs_bind, runs_gets.
  destruct (Z.eqb_spec (s_route_version s) (route_version w1)) as [Hv|Hv].
  { apply runs_ret. split; [done|]. split; [done|]. split; [intros _; exists s; auto|].
    intros _ Hi Hns. rewrite (k_version _ _ _ K1) in Hv. destruct Hor as [Ho|(_ & _ & Ho & _)]; [|done].
    destruct Hns. exists s. auto. }
  rewrite (rf_busy _ _ _ W1 _ _ Hs). case_bool_decide as Hi.
  { apply runs_ret. split; [done|]. split; [done|]. split; [intros _; exists s; auto|done]. }
  assert (Hx1 : subs_of w1 !! i = Some x) by (unfold subs_of in *; by rewrite Erw).
  assert (Hns1 : ~ settled busy w1 i) by (intros (s' & ? & [?|[?|(y & ? & ?)]]); congruence).
  apply runs_bind, runs_put_state. set (w2 := with_state w1 i _).
  assert (W2 : route_wf me (i :: busy) w2).
  { eapply with_state_wf; [exact W1|cbn; by rewrite bool_decide_true by set_solver|by eexists|set_solver]. }
  assert (K2 : route_kept busy w w2) by (etransitivity; [exact K1|by apply with_state_kept]).
  apply runs_bind, runs_gets, runs_bind, runs_now. intros bw Hbw.
  destruct (set_rw_wf (i :: busy) w2 bw Hbw W2) as [W3 K3]. set (w3 := set_rw w2 bw) in *.
  assert (K13 : route_kept busy w w3).
  { etransitivity; [exact K2|]. eapply route_kept_fewer; [|exact K3]. set_solver. }
  assert (Hx3 : subs_of w3 !! i = Some x) by (unfold subs_of in *; cbn; rewrite Hbw; exact Hx1).
  change (rw w2) with (rw w1). rewrite Erw.
  set (t_now := gettime_ms (w_ticks (rw w))).
  apply runs_bind. eapply runs_mono.
  { apply (best_loop_spec (fuel + S (length busy)) (i :: busy) (calc fuel) t_now i) with (P := []);
      try done; [|set_solver|rewrite (route_kept_length _ _ _ K13); lia|by eexists| |].
    - intros w4 t W4 Hl4 [y Hy]. eapply runs_mono; [apply (IH (i :: busy) w4 t y); try done; by apply NoDup_cons|].
      intros z w5 (? & ? & ? & _). auto.
    - intros n l t _ Hin. set_solver.
    - split; [intros n h d Hin; set_solver|by left]. }
  intros b w4 (W4 & K4 & Hh4 & Hb4).
  assert (K04 : route_kept busy w w4).
  { etransitivity; [exact K13|]. eapply route_kept_fewer; [|exact K4]. set_solver. }
  assert (Hs3 : state_of w3 i = Some (set_s_calculating s)).
  { change (state_of w2 i = Some (set_s_calculating s)). unfold w2. by rewrite state_with_state, decide_True. }
  assert (Hset3 : settled (i :: busy) w3 i) by (eexists; split; [exact Hs3|left; set_solver]).
  rewrite <-(k_settled _ _ _ K4 i Hset3) in Hs3. rewrite <-(k_settled_sub _ _ _ K4 i Hset3) in Hx3.
  assert (Hns4 : ~ settled busy w4 i).
  { intros (s' & Hs' & [Hin|[Hv'|(y & Hy & Hr)]]); [done| |congruence].
    rewrite (k_version _ _ _ K4) in Hv'. by simplify_eq. }
  eapply runs_mono; [by apply (apply_best_spec w4 i t_now b x _ quiet Hx3 Hs3)|].
  intros r w5 (O5 & (s5 & Hs5 & Is5) & x5 & Hx5 & Hre5).
  destruct (stored busy w4 w5 i x x5 b s5) as (W5 & K5 & Hset5); try done.
  { by eapply reached_not_self. }
  split; [done|]. split; [by etransitivity|]. split; [done|]. intros _ _ _.
  exists b, s5, x5. rewrite (os_version _ _ _ O5). split; [done|]. split; [done|]. split; [|done].
  assert (Ewas : next_hops w i = next_hops w4 i).
  { unfold next_hops. rewrite Hs3. destruct Hor as [->|(-> & Hnh & _)]; cbn; congruence. }
  rewrite Ewas. apply (best_of_only_sub w4); [done|]. rewrite (os_neighbours _ _ _ O5), (route_kept_ids _ _ _ K4). done.
Qed.
End calculation.

(** ** The theorem *)

(** The route stored in [s]: through a neighbour that is the best of all candidates [C], with the
    hops of its path and the interface of its last link; or none, when no neighbour is a
    candidate with less than the loss and hops that the search starts from. *)
Definition chosen (C : neighbour -> Z -> Z -> Prop) (i : nat) (s : link_state) (iface : option nat) : Prop :=
  match s_next_hop s with
  | None => forall n h d, C n h d -> worse h d 99 99
  | Some m =>
      exists n l d, n_subscriber n = m /\ C n (s_hop_count s) d /\
        s_link s = Some (n_id n, i) /\ t_store (n_table n) !! i = Some l /\
        s_transmitter s = transmitter l /\ iface = l_interface l /\
        forall n' h' d', C n' h' d' -> worse h' d' (s_hop_count s) d
  end.

Lemma best_by_chosen (C : neighbour -> Z -> Z -> Prop) l i b v s :
  (forall n h d, C n h d -> n ∈ l) -> best_by C i (n_id <$> l) b -> state_is b v s -> chosen C i s (b_interface b).
Proof.
  intros Hin [Hl Hf] Hs. unfold chosen. rewrite (si_next_hop _ _ _ Hs), (si_hop_count _ _ _ Hs).
  assert (Hall : forall n h d, C n h d -> worse h d (b_hop_count b) (b_drop_rate b)).
  { intros n h d Hc. apply (Hl n); [|done]. by eapply list_elem_of_fmap_2, Hin. }
  destruct Hf as [->|(n & k & _ & Hc & E1 & E2 & Hn & E3 & E4)]; [done|].
  rewrite E1. exists n, k, (b_drop_rate b).
  rewrite (si_link _ _ _ Hs), (si_transmitter _ _ _ Hs). split; [done|]. by split.
Qed.


(** We are 0; the neighbours 1 and 2 both have a link to 3, that of 1 with losses. *)
Definition demo_nb (id sub : nat) (drop : Z) : neighbour :=
  mk_neighbour id (mk_table sub 1 (Branch Leaf sub (Branch Leaf 3 Leaf))
    {[sub := demo_link 0 0; 3%nat := demo_link sub drop]})
    100 false 0 (-1) 0 0 0 (-1) 120 0 [] None false.
Definition demo_world : world :=
  set_dir world0 (mk_directory empty_node (mk_subscriber (replicate 32 16) 2 false REACHABLE_SELF 0 :: tail demo_subs)).
Definition demo_rworld : rworld := mk_rworld demo_world ∅ [demo_nb 10 1 7; demo_nb 11 2 0] 5 12 0 0 [].

Lemma demo_rworld_wf : route_wf 0 [] demo_rworld.
Proof.
  split; try done.
  - repeat apply Forall_cons_2; try apply Forall_nil_2; apply fresh_table_wf; vm_compute; reflexivity.
  - cbn. repeat constructor; set_solver.
  - set_solver.
  - set_solver.
Qed.


(** The route without losses is taken, two hops through 2. *)
Example find_best_link_demo :
  ('(_, w) ← find_best (fun _ => 50) true (Some 0%nat) None [] false 3 demo_rworld;
   s ← state_of w 3; Some (s_next_hop s, s_hop_count s, reachable <$> subs_of w !! 3%nat))
  = Some (Some 2%nat, 2, Some REACHABLE_INDIRECT).
Proof. vm_compute. reflexivity. Qed.
