(* ===== verification/RouteWire.v ===== *)
(** RouteWire: route_link.c, the records of link state messages.

    A record says who hears whom: a length, flags, the receiver, a version, and as the
    flags tell the transmitter, an interface, an acknowledgement with a mask of the packets
    before it, and a drop rate.  [append_link_state] writes one; [read_link_record] is the
    part of the loop of [link_receive] that reads one. *)

From S2P Require Import Prelude CMem OverlayBuffer OverlayBufferCodec DataFormats SubscriberTree OverlayAddress PacketFormats PacketRoundtrip.

Definition FLAG_HAS_INTERFACE : Z := 1.
Definition FLAG_NO_PATH : Z := 2.
Definition FLAG_BROADCAST : Z := 4.
Definition FLAG_UNICAST : Z := 8.
Definition FLAG_HAS_ACK : Z := 16.
Definition FLAG_HAS_DROP_RATE : Z := 32.

(** [NumberOfSetBits] on [uint32_t]. *)
Definition NumberOfSetBits (i : Z) : Z :=
  let i := u32 (i - Z.land (Z.shiftr i 1) 0x55555555) in
  let i := u32 (Z.land i 0x33333333 + Z.land (Z.shiftr i 2) 0x33333333) in
  Z.shiftr (u32 (Z.land (u32 (i + Z.shiftr i 4)) 0x0F0F0F0F * 0x01010101)) 24.

Definition link_flags (flags : Z) (transmitter : option nat) (interface ack_sequence drop_rate : Z) : Z :=
  flag_if (negb (drop_rate =? -1)) FLAG_HAS_DROP_RATE
    (flag_if (negb (ack_sequence =? -1)) FLAG_HAS_ACK
      (flag_if (bool_decide (transmitter = None)) FLAG_NO_PATH
        (flag_if (negb (interface =? -1)) FLAG_HAS_INTERFACE flags))).

Section append.
Context `{Allocator}.

(** [overlay_address_append(NULL, payload, s)]. *)
Definition append_full_address (s : option nat) : step := fun c b =>
  '(r, _, b) ← overlay_address_append None b s; mret (r, c, b).

Definition append_ui32 (x : Z) : step := fun c b =>
  '(r, b) ← on_buffer (fun m => ob_append_ui32 b m x); mret (r, c, b).

Definition append_link_state (flags : Z) (transmitter receiver : option nat)
    (interface version ack_sequence ack_mask drop_rate : Z) (b : overlay_buffer)
    : M (Z * overlay_buffer) :=
  let flags := link_flags flags transmitter interface ack_sequence drop_rate in
  let length_pos := ob_position b in
  '(r, _, b) ← (
    append_byte 0 ;?
    append_byte flags ;?
    append_full_address receiver ;?
    append_byte version ;?
    when (negb (bool_decide (transmitter = None))) (append_full_address transmitter) ;?
    when (negb (interface =? -1)) (append_byte interface) ;?
    when (negb (ack_sequence =? -1)) (append_byte ack_sequence ;? append_ui32 ack_mask) ;?
    when (negb (drop_rate =? -1)) (append_byte drop_rate) ;?
    return0)%step context_zero b;
  if negb (r =? 0) then mret (-1, b)
  else
    n ← lift (ci (ob_position b - length_pos));
    r ← ((fun w => '(r, m) ← ob_set b (w_mem w) length_pos n; Some (r, set_mem w m)) : M Z);
    if negb (r =? 0) then mret (-1, b)
    else mret (0, default b (snd (ob_checkpoint (Some b)))).

End append.

(** What a record says; an interface or acknowledgement that is not there is -1. *)
Record link_record := mk_record {
  r_receiver : option nat;
  r_transmitter : option nat;
  r_version : Z;
  r_interface : Z;
  r_ack_seq : Z;
  r_ack_mask : Z;
  r_drop_rate : Z
}.

(** [break], [continue], or a record. *)
Inductive read_result := Break | Continue | Got (r : link_record).

Definition valid_addresses (c : decode_context) : decode_context :=
  mk_context (interface c) (sender_interface c) (packet_version c) (encapsulation c) (addr c) false
    (please_explain c) (sender c) (previous c).

(** Packets missing from a mask of fifteen, when there are more than three. *)
Definition mask_drop_rate (ack_mask : Z) : Z :=
  let d := 15 - NumberOfSetBits (Z.land ack_mask 0x7FFF) in if d <=? 3 then 0 else d.

Section read.
Context `{Allocator}.
Context (gettime_ms : nat -> Z) (my_subscriber : option nat).

Definition get_ui32 (b : overlay_buffer) : M (Z * overlay_buffer) := fun w =>
  r ← ob_get_ui32 b (w_mem w); Some (r, w).

(** The optional fields, from the interface on: [None] stands for leaving with the result. *)
Definition read_ack (flags : Z) (b : overlay_buffer) : M (Z * Z * Z * overlay_buffer) :=
  if has flags FLAG_HAS_ACK then
    '(seq, b) ← get_byte b;
    '(mask, b) ← get_ui32 b;
    mret (seq, mask, mask_drop_rate mask, b)
  else mret (-1, 0, 0, b).

Definition read_address (present : bool) (c : decode_context) (b : overlay_buffer)
    : M (Z * option nat * decode_context * overlay_buffer) :=
  if present then
    '(r, c, b, s) ← overlay_address_parse gettime_ms my_subscriber c b (Some None);
    mret (r, default None s, c, b)
  else mret (0, None, c, b).

Definition read_link_record (c : decode_context) (b : overlay_buffer)
    : M (read_result * decode_context * overlay_buffer) :=
  let c := valid_addresses c in
  let start_pos := ob_position b in
  '(length, b) ← get_byte b;
  if length <=? 0 then mret (Break, c, b)
  else
  '(flags, b) ← get_byte b;
  if flags <? 0 then mret (Break, c, b)
  else
  '(r, receiver, c, b) ← read_address true c b;
  if negb (r =? 0) then mret (Break, c, b)
  else
  '(version, b) ← get_byte b;
  if version <? 0 then mret (Break, c, b)
  else
  '(r, transmitter, c, b) ← read_address (negb (has flags FLAG_NO_PATH)) c b;
  if negb (r =? 0) then mret (Break, c, b)
  else
  '(interface_id, b) ← (if has flags FLAG_HAS_INTERFACE then get_byte b else mret (-1, b));
  if has flags FLAG_HAS_INTERFACE && (interface_id <? 0) then mret (Break, c, b)
  else if 16 <=? interface_id then mret (Continue, c, b)
  else
  '(ack_seq, ack_mask, drop_rate, b) ← read_ack flags b;
  '(drop_rate, b) ← (if has flags FLAG_HAS_DROP_RATE then get_byte b else mret (drop_rate, b));
  if drop_rate <? 0 then mret (Break, c, b)
  else
  pos ← lift (ci (start_pos + length));
  let b := set_position b pos in
  if invalid_addresses c then mret (Continue, c, b)
  else mret (Got (mk_record receiver transmitter version interface_id ack_seq ack_mask drop_rate), c, b).

End read.

(** A test of all numbers that begin with [x] and go on for [n] bits. *)
Fixpoint all_bits (n : nat) (f : Z -> bool) (x : Z) : bool :=
  match n with O => f x | S n => all_bits n f (2 * x) && all_bits n f (2 * x + 1) end.

Lemma all_bits_true n f : forall x, all_bits n f x = true ->
  forall y, x * 2 ^ Z.of_nat n <= y < (x + 1) * 2 ^ Z.of_nat n -> f y = true.
Proof.
  induction n as [|n IH]; intros x Hx y Hy.
  - replace y with x by (cbn in Hy; lia). done.
  - cbn [all_bits] in Hx. apply andb_true_iff in Hx as [H0 H1].
    rewrite Nat2Z.inj_succ, Z.pow_succ_r in Hy by lia.
    destruct (Z.lt_ge_cases y ((2 * x + 1) * 2 ^ Z.of_nat n)); [by apply (IH (2 * x)); [|lia]|].
    apply (IH (2 * x + 1)); [done|]. lia.
Qed.

(** [NumberOfSetBits] counts the bits of the fifteen it is given. *)
Fixpoint set_bits (n : nat) (i : Z) : Z :=
  match n with O => 0 | S n => Zb (Z.testbit i (Z.of_nat n)) + set_bits n i end.

Lemma NumberOfSetBits_15 m : NumberOfSetBits (Z.land m 0x7FFF) = set_bits 15 m.
Proof.
  assert (E : set_bits 15 m = set_bits 15 (Z.land m 0x7FFF)).
  { cbn [set_bits]. rewrite !Z.land_spec. change 0x7FFF with (Z.ones 15).
    rewrite !Z.ones_spec_low by (cbn; lia). by rewrite !andb_true_r. }
  rewrite E. apply Z.eqb_eq, (all_bits_true 15 (fun x => NumberOfSetBits x =? set_bits 15 x) 0);
    [vm_compute; reflexivity|].
  change 0x7FFF with (Z.ones 15). rewrite Z.land_ones by lia.
  pose proof (Z.mod_pos_bound m (2 ^ 15)). lia.
Qed.

(** ** Writing a record *)

(** The code of an address that resolves whatever was parsed before. *)
Definition plain (subs : list subscriber) (i : nat) (d : list Z) : Prop :=
  forall sdr prev, encodes sdr prev subs i d.

Lemma plain_keys subs subs' i d : same_keys subs subs' -> plain subs i d -> plain subs' i d.
Proof. intros K Hp sdr prev. eapply encodes_keys; [done|]. apply Hp. Qed.

Lemma plain_length subs i d : plain subs i d -> zlen d <= 33.
Proof. intros Hp. apply (encodes_length None None subs i d), Hp. Qed.

(** An address that is there when there is a subscriber. *)
Definition plain_opt (subs : list subscriber) (p : option nat) (d : list Z) : Prop :=
  match p with Some i => plain subs i d | None => d = [] end.

Section roundtrip.
Context `{Allocator}.
Hypothesis never : never_refuses.

Lemma writes_any_byte c b w x : ready w b 1 -> writes (append_byte x) c b w (fun c' w' d => c' = c /\ d = [u8 x]).
Proof.
  intros R. destruct (writes_byte never c b w (u8 x) R (u8_byte x)) as (c' & b' & w' & d & E & Wr & HQ).
  exists c', b', w', d. split; [|done]. rewrite <-E. unfold append_byte, on_buffer, ob_append_byte.
  by rewrite (u8_id (u8 x)) by apply u8_byte.
Qed.

Lemma append_null_context b i w :
  overlay_address_append None b (Some i) w =
  (r ← overlay_address_append (Some context_zero) b (Some i) w;
   let '(r, _, b, w) := r in Some ((r, None, b), w)).
Proof.
  unfold overlay_address_append. cbn [mbind option_bind context_zero sender previous].
  unfold is_subscriber. rewrite !bool_decide_false by done. unfold mbind, M_bind, option_bind.
  destruct (get_sub i w) as [[s w1]|]; [|done]. destruct (address_len s) as [len s'].
  destruct (put_sub i s' w1) as [[[] w2]|]; [|done].
  destruct (on_buffer (fun m => ob_append_byte b m (Z.of_nat len)) w2) as [[[r b1] w3]|]; [|done].
  destruct (negb (r =? 0)) eqn:Er; [unfold mret, M_ret; by rewrite Er|].
  destruct (on_buffer (fun m => ob_append_bytes b1 m (sid s') (Z.of_nat len)) w3) as [[[r2 b2] w4]|]; [|done].
  by destruct (negb (r2 =? 0)).
Qed.

Lemma writes_full_address c b w i :
  ready w b 33 -> (i < length (subscribers (w_dir w)))%nat ->
  writes (append_full_address (Some i)) c b w (fun c' w' d => c' = c /\ plain (subscribers (w_dir w')) i d).
Proof.
  intros [W D F] Hi. destruct (append_encoded never w context_zero b i D Hi W F) as (b' & w' & d & E & Wr & He).
  exists c, b', w', d. split; [|split; [done|split; [done|]]].
  - unfold append_full_address. rewrite (M_bind_Some _ _ w (0, None, b') w'); [done|].
    rewrite append_null_context. by rewrite E.
  - eapply plain_keys; [apply Wr|]. intros sdr prev.
    inversion He as [Hs|Hs Hp|len s Hs Hl Ha]; [done|done|]. by apply encodes_sid.
Qed.

Lemma writes_ui32 c b w v :
  ready w b 4 -> 0 <= v < 2 ^ 32 -> writes (append_ui32 v) c b w (fun c' w' d => c' = c /\ d = be32 v).
Proof.
  intros [W D F] Hv. destruct (append_written never w b (fun _ => Some (be32 v)) 4 (be32 v)) as (b' & m' & E & Wr); try done.
  { repeat constructor; apply land_byte. }
  exists c, b', (set_mem w m'), (be32 v). split; [|done].
  unfold append_ui32, ob_append_ui32. rewrite u32_id by lia. by rewrite (M_bind_Some _ _ _ _ _ E).
Qed.

(** The optional fields after the addresses, and the record after its length. *)
Definition ack_field (seq mask : Z) : list Z := if negb (seq =? -1) then seq :: be32 mask else [].
Definition record_tail (interface seq mask drop : Z) : list Z :=
  opt (negb (interface =? -1)) interface ++ ack_field seq mask ++ opt (negb (drop =? -1)) drop.
Definition record_body (flags version interface seq mask drop : Z) (dr dt : list Z) : list Z :=
  flags :: dr ++ u8 version :: dt ++ record_tail interface seq mask drop.

Definition byte_or_none (x : Z) : Prop := x = -1 \/ is_byte x.

Lemma writes_ack c b w n seq mask :
  ready w b n -> 5 <= n -> byte_or_none seq -> 0 <= mask < 2 ^ 32 ->
  writes (when (negb (seq =? -1)) (append_byte seq ;? append_ui32 mask)%step) c b w
    (fun c' w' d => c' = c /\ d = ack_field seq mask).
Proof.
  intros R Hn Hs Hm. unfold ack_field. destruct (Z.eqb_spec seq (-1)) as [E|E]; cbn [negb when].
  { by eapply writes_return0. }
  destruct Hs as [?|Hs]; [done|].
  apply (writes_seq _ _ c b w 1 4 (fun c' w' d => c' = c /\ d = [seq]));
    [by eapply ready_le|lia|by apply writes_byte; [done|eapply ready_le; [|exact R]; lia|done]|intros ??? [_ ->]; cbn; lia|].
  intros ? b1 w1 ? [-> ->] _ R1. eapply writes_conseq; [by apply writes_ui32|]. by intros ??? [-> ->] _.
Qed.

Lemma writes_tail c b w n interface seq mask drop :
  ready w b n -> 7 <= n -> byte_or_none interface -> byte_or_none seq -> 0 <= mask < 2 ^ 32 -> byte_or_none drop ->
  writes (when (negb (interface =? -1)) (append_byte interface) ;?
          when (negb (seq =? -1)) (append_byte seq ;? append_ui32 mask) ;?
          when (negb (drop =? -1)) (append_byte drop) ;? return0)%step c b w
    (fun c' w' d => c' = c /\ d = record_tail interface seq mask drop).
Proof.
  intros R Hn Hi Hs Hm Hd.
  assert (Hopt : forall x, byte_or_none x -> negb (x =? -1) = true -> is_byte x).
  { intros x [-> | Hx]; [done|auto]. }
  apply (writes_seq _ _ c b w 1 6 (fun c' w' d => c' = c /\ d = opt (negb (interface =? -1)) interface));
    [by eapply ready_le|lia|eapply writes_opt; [done|exact R|lia|by auto]|intros _ _ _ [_ ->]; apply opt_length|].
  intros ? b1 w1 ? [-> ->] _ R1.
  apply (writes_seq _ _ c b1 w1 5 1 (fun c' w' d => c' = c /\ d = ack_field seq mask));
    [done|lia|by eapply writes_ack|intros _ _ _ [_ ->]; unfold ack_field; destruct (negb _); cbn; lia|].
  intros ? b2 w2 ? [-> ->] _ R2.
  apply (writes_seq _ _ c b2 w2 1 0 (fun c' w' d => c' = c /\ d = opt (negb (drop =? -1)) drop));
    [done|lia|eapply writes_opt; [done|exact R2|lia|by auto]|intros _ _ _ [_ ->]; apply opt_length|].
  intros ? b3 w3 ? [-> ->] _ R3. eapply writes_return0; [exact R3|]. by rewrite app_nil_r.
Qed.

Lemma writes_opt_full c b w n (p : option nat) :
  ready w b n -> 33 <= n -> (forall i, p = Some i -> (i < length (subscribers (w_dir w)))%nat) ->
  writes (when (negb (bool_decide (p = None))) (append_full_address p)) c b w
    (fun c' w' d => c' = c /\ plain_opt (subscribers (w_dir w')) p d).
Proof.
  intros R Hn Hp. destruct p as [i|].
  - rewrite bool_decide_false by done. apply writes_full_address; [by eapply ready_le|auto].
  - rewrite bool_decide_true by done. by eapply writes_return0.
Qed.

Lemma plain_opt_length subs p d : plain_opt subs p d -> zlen d <= 33.
Proof. destruct p; [apply plain_length|intros ->; cbn; lia]. Qed.

Lemma plain_opt_keys subs subs' p d : same_keys subs subs' -> plain_opt subs p d -> plain_opt subs' p d.
Proof. destruct p; [apply plain_keys|done]. Qed.

Lemma same_keys_length subs subs' : same_keys subs subs' -> length subs' = length subs.
Proof. by intros [-> _]. Qed.

(** A record after its length. *)
Definition body_layout (subs : list subscriber) (flags version interface seq mask drop : Z)
    (transmitter : option nat) (receiver : nat) (d : list Z) : Prop :=
  exists dr dt, plain subs receiver dr /\ plain_opt subs transmitter dt /\
    d = record_body flags version interface seq mask drop dr dt.

Lemma writes_body c b w flags version interface seq mask drop transmitter receiver :
  ready w b 75 -> is_byte flags -> byte_or_none interface -> byte_or_none seq -> 0 <= mask < 2 ^ 32 -> byte_or_none drop ->
  (receiver < length (subscribers (w_dir w)))%nat ->
  (forall i, transmitter = Some i -> (i < length (subscribers (w_dir w)))%nat) ->
  writes (append_byte flags ;? append_full_address (Some receiver) ;? append_byte version ;?
          when (negb (bool_decide (transmitter = None))) (append_full_address transmitter) ;?
          when (negb (interface =? -1)) (append_byte interface) ;?
          when (negb (seq =? -1)) (append_byte seq ;? append_ui32 mask) ;?
          when (negb (drop =? -1)) (append_byte drop) ;? return0)%step c b w
    (fun c' w' d => c' = c /\ body_layout (subscribers (w_dir w')) flags version interface seq mask drop transmitter receiver d).
Proof.
  intros R Hf Hi Hs Hm Hd Hr Ht. unfold body_layout, record_body.
  apply (writes_seq _ _ c b w 1 74 (fun c' w' d => c' = c /\ d = [flags]));
    [done|lia|by apply writes_byte; [done|eapply ready_le; [|exact R]; lia|]|intros _ _ _ [_ ->]; cbn; lia|].
  intros ? b1 w1 ? [-> ->] K1 R1.
  apply (writes_seq _ _ c b1 w1 33 41 (fun c' w' d => c' = c /\ plain (subscribers (w_dir w')) receiver d)); [done|lia| | |].
  { apply writes_full_address; [eapply ready_le; [|exact R1]; lia|by rewrite (same_keys_length _ _ K1)]. }
  { intros _ ? ? [_ Hp]. by eapply plain_length. }
  intros ? b2 w2 dr [-> Hdr] K2 R2.
  apply (writes_seq _ _ c b2 w2 1 40 (fun c' w' d => c' = c /\ d = [u8 version]));
    [done|lia|apply writes_any_byte; eapply ready_le; [|exact R2]; lia|intros _ _ _ [_ ->]; cbn; lia|].
  intros ? b3 w3 ? [-> ->] K3 R3.
  apply (writes_seq _ _ c b3 w3 33 7 (fun c' w' d => c' = c /\ plain_opt (subscribers (w_dir w')) transmitter d)); [done|lia| | |].
  { apply (writes_opt_full c b3 w3 40); [done|lia|]. intros i ->.
    rewrite (same_keys_length _ _ K3), (same_keys_length _ _ K2), (same_keys_length _ _ K1). auto. }
  { intros _ ? ? [_ Hp]. by eapply plain_opt_length. }
  intros ? b4 w4 dt [-> Hdt] K4 R4.
  eapply writes_conseq; [by apply (writes_tail c b4 w4 7)|]. intros c' w' d [-> ->] K5. split; [done|].
  exists dr, dt. split; [|split; [by eapply plain_opt_keys|done]].
  eapply plain_keys; [exact K5|]. eapply plain_keys; [exact K4|]. by eapply plain_keys.
Qed.

Lemma body_layout_length subs flags version interface seq mask drop transmitter receiver d :
  body_layout subs flags version interface seq mask drop transmitter receiver d -> zlen d <= 75.
Proof.
  intros (dr & dt & Hr%plain_length & Ht%plain_opt_length & ->). unfold record_body, record_tail.
  pose proof (opt_length (negb (interface =? -1)) interface). pose proof (opt_length (negb (drop =? -1)) drop).
  assert (zlen (ack_field seq mask) <= 5) by (unfold ack_field, be32; destruct (negb (seq =? -1)); cbn [length]; lia).
  rewrite !length_cons, !length_app, !length_cons, !length_app. lia.
Qed.

(** Overwriting one byte inside the data. *)
Lemma ob_set_data m b d0 x d v :
  ob_wf m b -> ob_data m b = Some (d0 ++ [x] ++ d) -> is_byte v -> position b + 1 <= INT_MAX ->
  exists m', ob_set b m (zlen d0) v = Some (0, m') /\ ob_wf m' b /\ ob_data m' b = Some (d0 ++ [v] ++ d).
Proof.
  intros W Hd Hv HM. destruct (ob_wf_data _ _ W) as (d' & Hd' & Hl & _).
  assert (d' = d0 ++ [x] ++ d) as -> by congruence. rewrite !length_app in Hl. simpl in Hl.
  pose proof (wf_position _ _ W). pose proof (ob_read_end_range _ _ W).
  unfold ob_set. rewrite test_offset_spec by (unfold INT_MIN; lia). zdecide. simpl.
  rewrite u8_id by done.
  pose proof (wf_bytes _ _ W) as HB. unfold set_at, ob_data, bytes_at in *.
  destruct (bytes b) as [p|] eqn:Ep; [|lia].
  destruct (storebytes_valid m p (allocSize b) (zlen d0) [v] HB) as (m' & Em & HB' & _);
    [auto|lia|simpl; lia|].
  rewrite Em. simpl. exists m'. split; [done|]. split.
  { destruct W as [W1 W2 W3 W4 _ W6]. split; try done; by rewrite Ep. }
  rewrite (loadbytes_storebytes_mid m p (position b) _ (zlen d0) [v] m' Hd); [|lia|simpl; lia|exact Em].
  rewrite Nat2Z.id, take_app_length. f_equal. f_equal. f_equal.
  rewrite (app_assoc d0 [x] d), drop_app_length'; [done|]. by rewrite length_app.
Qed.

(** The flags the callers of [append_link_state] give. *)
Definition sent_flags (flags : Z) : Prop := flags = 0 \/ flags = FLAG_BROADCAST \/ flags = FLAG_UNICAST.

Record flags_say (f : Z) (transmitter : option nat) (interface seq drop : Z) : Prop := {
  fs_byte : is_byte f;
  fs_no_path : has f FLAG_NO_PATH = bool_decide (transmitter = None);
  fs_interface : has f FLAG_HAS_INTERFACE = negb (interface =? -1);
  fs_ack : has f FLAG_HAS_ACK = negb (seq =? -1);
  fs_drop : has f FLAG_HAS_DROP_RATE = negb (drop =? -1)
}.

Lemma link_flags_say flags transmitter interface seq drop :
  sent_flags flags ->
  flags_say (link_flags flags transmitter interface seq drop) transmitter interface seq drop.
Proof.
  intros Hf. unfold link_flags. destruct (bool_decide (transmitter = None)) eqn:E1.
  all: destruct (negb (interface =? -1)) eqn:E2, (negb (seq =? -1)) eqn:E3, (negb (drop =? -1)) eqn:E4;
    destruct Hf as [-> |[-> | ->]]; split; rewrite ?E1, ?E2, ?E3, ?E4; vm_compute; intuition congruence.
Qed.

Lemma append_link_state_spec w b flags version interface seq mask drop transmitter receiver :
  ready w b 76 -> sent_flags flags -> byte_or_none interface -> byte_or_none seq -> 0 <= mask < 2 ^ 32 ->
  byte_or_none drop -> (receiver < length (subscribers (w_dir w)))%nat ->
  (forall i, transmitter = Some i -> (i < length (subscribers (w_dir w)))%nat) ->
  let f := link_flags flags transmitter interface seq drop in
  exists b' w' d r,
    append_link_state flags transmitter (Some receiver) interface version seq mask drop b w = Some ((0, b'), w') /\
    directory_wf (w_dir w') /\ same_keys (subscribers (w_dir w)) (subscribers (w_dir w')) /\
    position b' = position b + zlen (0 :: d) /\ zlen (0 :: d) <= 76 /\ checkpointLength b' = position b' /\
    readable w' (set_position b' (position b)) (zlen (0 :: d) :: d ++ r) /\
    (forall d0, ob_data (w_mem w) b = Some d0 -> ob_data (w_mem w') b' = Some (d0 ++ zlen (0 :: d) :: d)) /\
    body_layout (subscribers (w_dir w')) f version interface seq mask drop transmitter receiver d.
Proof.
  intros R Hfl Hi Hs Hm Hd Hr Ht f. pose proof (link_flags_say flags transmitter interface seq drop Hfl) as Hf.
  fold f in Hf. pose proof R as [W0 _ _].
  assert (Hw : writes (append_byte 0 ;? (append_byte f ;? append_full_address (Some receiver) ;? append_byte version ;?
          when (negb (bool_decide (transmitter = None))) (append_full_address transmitter) ;?
          when (negb (interface =? -1)) (append_byte interface) ;?
          when (negb (seq =? -1)) (append_byte seq ;? append_ui32 mask) ;?
          when (negb (drop =? -1)) (append_byte drop) ;? return0))%step context_zero b w
    (fun c' w' l => exists d, l = 0 :: d /\
       body_layout (subscribers (w_dir w')) f version interface seq mask drop transmitter receiver d)).
  { apply (writes_seq _ _ context_zero b w 1 75 (fun c' w' d => c' = context_zero /\ d = [0]));
      [done|lia|by apply writes_byte; [done|eapply ready_le; [|exact R]; lia|]|intros _ _ _ [_ ->]; cbn; lia|].
    intros ? b1 w1 ? [-> ->] K1 R1. eapply writes_conseq.
    { apply (writes_body context_zero b1 w1 f version interface seq mask drop transmitter receiver); try done;
        [apply Hf|by rewrite (same_keys_length _ _ K1)|by rewrite (same_keys_length _ _ K1)]. }
    intros c' w' d [_ HL] _. by exists d. }
  destruct Hw as (c' & b1 & w1 & l & E & Wr & d & -> & HL).
  pose proof (body_layout_length _ _ _ _ _ _ _ _ _ _ HL) as Hlen.
  destruct (ob_wf_data _ _ W0) as (d0 & Hd0 & Hl0 & _).
  pose proof (wr_position _ _ _ _ _ Wr) as HP. pose proof (wr_wf _ _ _ _ _ Wr) as W1.
  pose proof (wf_position _ _ W1). pose proof (wf_allocSize _ _ W1). pose proof (wf_position _ _ W0).
  assert (HM : position b1 + 1 <= INT_MAX).
  { destruct R as [_ _ [_ HM]]. unfold OB_MAX, INT_MAX in *. cbn [length] in *. lia. }
  destruct (ob_set_data (w_mem w1) b1 d0 0 d (zlen (0 :: d)) W1 (wr_data _ _ _ _ _ Wr _ Hd0)) as (m' & Es & W' & D');
    [split; cbn [length] in *; lia|done|].
  set (b' := set_checkpointLength b1 (position b1)).
  assert (W'' : ob_wf m' b').
  { destruct W' as [A1 A2 A3 A4 A5 A6]. split; try done. cbn. destruct A4 as [?|[? ?]]; [by left|right; lia]. }
  destruct (ob_rest_written m' b' d0 (zlen (0 :: d) :: d) W'' D') as (r & Hr' & Wr').
  rewrite Hl0 in Hr', Wr'. exists b', (set_mem w1 m'), d, r.
  split; [|split; [apply Wr|split; [apply Wr|split; [done|split; [cbn [length] in *; lia|split; [done|split; [by split|split; [|done]]]]]]]].
  2: { intros d0' Hd0'. assert (d0' = d0) as -> by congruence. exact D'. }
  unfold append_link_state. fold f. rewrite (M_bind_Some _ _ _ _ _ E). cbn [Z.eqb negb].
  rewrite (M_bind_Some _ _ w1 (zlen (0 :: d)) w1).
  2:{ unfold lift, ob_position. rewrite HP. replace (position b + zlen (0 :: d) - position b) with (zlen (0 :: d)) by lia.
      rewrite ci_Some; [done|]. unfold INT_MIN, INT_MAX. cbn [length] in *. lia. }
  rewrite (M_bind_Some _ _ w1 0 (set_mem w1 m')); [done|]. unfold ob_position. rewrite <-Hl0, Es. done.
Qed.

(** ** Reading it back *)

Context (gettime_ms : nat -> Z) (my_subscriber : option nat).

Definition after_address (c : decode_context) (p : option nat) : decode_context :=
  match p with Some i => set_previous c (Some i) | None => c end.

Lemma read_address_plain w c b p d r :
  directory_wf (w_dir w) -> plain_opt (subscribers (w_dir w)) p d -> readable w b (d ++ r) ->
  exists b', read_address gettime_ms my_subscriber (negb (bool_decide (p = None))) c b w
      = Some ((0, p, after_address c p, b'), w) /\
    readable w b' r /\ position b' = position b + zlen d.
Proof.
  intros D Hp Hr. destruct p as [i|]; cbn [plain_opt] in Hp.
  - rewrite bool_decide_false by done. cbn [negb read_address].
    destruct (parse_encoded gettime_ms my_subscriber w c b i d r None D (Hp _ _) Hr) as (b' & E & R' & P').
    exists b'. unfold read_address. by rewrite (M_bind_Some _ _ _ _ _ E).
  - subst d. exists b. rewrite bool_decide_true by done. split; [done|]. split; [done|]. cbn. lia.
Qed.

Lemma read_opt w b (cond : bool) x dflt r :
  readable w b (opt cond x ++ r) ->
  exists b', (if cond then get_byte b else mret (dflt, b)) w = Some ((if cond then x else dflt, b'), w) /\
    readable w b' r /\ position b' = position b + zlen (opt cond x).
Proof.
  intros Hr. destruct cond; [by apply get_byte_readable|]. exists b. split; [done|]. split; [done|]. cbn. lia.
Qed.

Lemma get_ui32_readable w b v r :
  0 <= v < 2 ^ 32 -> readable w b (be32 v ++ r) ->
  exists b', get_ui32 b w = Some ((v, b'), w) /\ readable w b' r /\ position b' = position b + 4.
Proof.
  intros Hv Hr. pose proof (readable_bound _ _ _ Hr) as HB. rewrite length_app in HB. cbn [be32 length] in HB.
  destruct (be32_value v Hv) as (b0 & b1 & b2 & b3 & Eb & _ & Ev). destruct Hr as [W Hr].
  exists (set_position b (position b + 4)). split; [|split; [|done]].
  - unfold get_ui32. rewrite Eb in Hr. rewrite (ob_get_ui32_rest _ _ _ _ _ _ _ W Hr) by lia. by rewrite Ev.
  - destruct (ob_get_bytes_ptr_rest _ _ 4 _ _ W Hr) as (p & _ & _ & R); [done|lia|lia|exact R].
Qed.

Lemma read_ack_spec w b f tx interface seq mask drop r :
  flags_say f tx interface seq drop -> byte_or_none seq -> 0 <= mask < 2 ^ 32 ->
  readable w b (ack_field seq mask ++ r) ->
  exists b', read_ack f b w
      = Some ((seq, if negb (seq =? -1) then mask else 0, if negb (seq =? -1) then mask_drop_rate mask else 0, b'), w) /\
    readable w b' r /\ position b' = position b + zlen (ack_field seq mask).
Proof.
  intros Hf Hs Hm Hr. unfold read_ack. rewrite (fs_ack _ _ _ _ _ Hf). unfold ack_field in *.
  destruct (Z.eqb_spec seq (-1)) as [->|E]; cbn [negb] in *.
  { exists b. split; [done|]. split; [done|]. cbn. lia. }
  destruct (get_byte_readable _ _ _ _ Hr) as (b1 & E1 & R1 & P1). rewrite (M_bind_Some _ _ _ _ _ E1).
  destruct (get_ui32_readable _ _ _ _ Hm R1) as (b2 & E2 & R2 & P2). rewrite (M_bind_Some _ _ _ _ _ E2).
  exists b2. split; [done|]. split; [done|]. cbn [length be32]. lia.
Qed.

(** The record as it is read. *)
Definition record_of (version interface seq mask drop : Z) (transmitter : option nat) (receiver : nat) : link_record :=
  mk_record (Some receiver) transmitter (u8 version) interface seq (if negb (seq =? -1) then mask else 0)
    (if negb (drop =? -1) then drop else if negb (seq =? -1) then mask_drop_rate mask else 0).

Lemma mask_drop_rate_nonneg m : 0 <= mask_drop_rate m.
Proof. unfold mask_drop_rate. zcases; lia. Qed.

Lemma after_address_invalid c p : invalid_addresses (after_address c p) = invalid_addresses c.
Proof. by destruct p. Qed.

Lemma readable_position w b d : readable w b d -> set_position b (position b) = b.
Proof. by destruct b. Qed.

Lemma read_link_record_spec w c b f version interface seq mask drop transmitter receiver d r :
  directory_wf (w_dir w) -> flags_say f transmitter interface seq drop ->
  body_layout (subscribers (w_dir w)) f version interface seq mask drop transmitter receiver d ->
  -1 <= interface < 16 -> byte_or_none seq -> 0 <= mask < 2 ^ 32 -> byte_or_none drop ->
  readable w b (zlen (0 :: d) :: d ++ r) ->
  exists b', read_link_record gettime_ms my_subscriber c b w
      = Some ((Got (record_of version interface seq mask drop transmitter receiver),
               after_address (set_previous (valid_addresses c) (Some receiver)) transmitter, b'), w) /\
    readable w b' r /\ position b' = position b + zlen (0 :: d).
Proof.
  intros D Hf (dr & dt & Hdr & Hdt & ->) Hi Hs Hm Hd Hr. pose proof (readable_bound _ _ _ Hr) as HB.
  assert (Hp0 : 0 <= position b) by (destruct Hr as [W _]; apply (wf_position _ _ W)).
  unfold read_link_record, ob_position. set (len := zlen (0 :: _)) in *.
  assert (Hlen : len = 1 + (1 + zlen dr + 1 + zlen dt + (zlen (opt (negb (interface =? -1)) interface)
             + zlen (ack_field seq mask) + zlen (opt (negb (drop =? -1)) drop)))).
  { unfold len, record_body, record_tail. rewrite !length_cons, !length_app, !length_cons, !length_app. lia. }
  destruct (get_byte_readable _ _ _ _ Hr) as (b0 & E0 & R0 & P0). rewrite (M_bind_Some _ _ _ _ _ E0).
  unfold record_body, record_tail in R0. cbn [app] in R0. zdecide.
  destruct (get_byte_readable _ _ _ _ R0) as (b1 & E1 & R1 & P1). rewrite (M_bind_Some _ _ _ _ _ E1).
  pose proof (fs_byte _ _ _ _ _ Hf). unfold is_byte in *. zdecide.
  rewrite <-!app_assoc in R1. cbn [app] in R1.
  destruct (read_address_plain w (valid_addresses c) b1 (Some receiver) dr _ D Hdr R1) as (b2 & E2 & R2 & P2).
  rewrite (M_bind_Some _ _ w _ w E2). zdecide.
  destruct (get_byte_readable _ _ _ _ R2) as (b3 & E3 & R3 & P3). rewrite (M_bind_Some _ _ _ _ _ E3).
  pose proof (u8_byte version). unfold is_byte in *. zdecide.
  rewrite <-!app_assoc in R3. rewrite (fs_no_path _ _ _ _ _ Hf).
  destruct (read_address_plain w (after_address (valid_addresses c) (Some receiver)) b3 transmitter dt _ D Hdt R3)
    as (b4 & E4 & R4 & P4). rewrite (M_bind_Some _ _ _ _ _ E4). zdecide.
  rewrite (fs_interface _ _ _ _ _ Hf).
  destruct (read_opt _ _ _ _ (-1) _ R4) as (b5 & E5 & R5 & P5). rewrite (M_bind_Some _ _ _ _ _ E5).
  replace (if negb (interface =? -1) then interface else -1) with interface by (destruct (Z.eqb_spec interface (-1)); done).
  replace (negb (interface =? -1) && (interface <? 0)) with false by (zcases; lia). zdecide.
  destruct (read_ack_spec _ _ _ _ _ _ _ _ _ Hf Hs Hm R5) as (b6 & E6 & R6 & P6). rewrite (M_bind_Some _ _ _ _ _ E6).
  rewrite (fs_drop _ _ _ _ _ Hf).
  set (dflt := if negb (seq =? -1) then mask_drop_rate mask else 0) in *.
  destruct (read_opt _ _ _ _ dflt _ R6) as (b7 & E7 & R7 & P7). rewrite (M_bind_Some _ _ _ _ _ E7).
  set (dv := if negb (drop =? -1) then drop else dflt). assert (Hdv : 0 <= dv).
  { unfold dv, dflt. pose proof (mask_drop_rate_nonneg mask). destruct Hd as [->|Hd]; unfold is_byte in *; zcases; lia. }
  zdecide. rewrite (M_bind_Some _ _ w (position b + len) w).
  2:{ unfold lift. rewrite ci_Some; [done|]. rewrite length_cons, length_app in HB. unfold INT_MIN, len in *.
      rewrite !length_cons in *. lia. }
  rewrite after_address_invalid. cbn [after_address invalid_addresses valid_addresses set_previous].
  assert (HP7 : position b7 = position b + len) by lia. rewrite <-HP7, (readable_position _ _ _ R7).
  exists b7. done.
Qed.
End roundtrip.

(** ** Another node *)

Lemma plain_other d d' i i' l :
  directory_wf d -> directory_wf d' -> knows_no_more d' d ->
  same_sub (subscribers d) (subscribers d') i i' -> plain (subscribers d) i l -> plain (subscribers d') i' l.
Proof.
  intros D D' K Hi Hp sdr prev.
  pose proof (encodes_other d d' None None None None i i' l D D' K Hi (None_Forall2 _) (None_Forall2 _) (Hp None None)) as He.
  inversion He as [Hs|Hs Hpv|len s Hs Hl Hu]; [done|done|]. by apply encodes_sid.
Qed.

Lemma plain_opt_other d d' p p' l :
  directory_wf d -> directory_wf d' -> knows_no_more d' d ->
  same_ptr (subscribers d) (subscribers d') p p' -> plain_opt (subscribers d) p l -> plain_opt (subscribers d') p' l.
Proof. intros D D' K [i i' Hi|]; [by apply plain_other|done]. Qed.

Lemma body_layout_other d d' flags version interface seq mask drop transmitter transmitter' receiver receiver' l :
  directory_wf d -> directory_wf d' -> knows_no_more d' d ->
  same_sub (subscribers d) (subscribers d') receiver receiver' ->
  same_ptr (subscribers d) (subscribers d') transmitter transmitter' ->
  body_layout (subscribers d) flags version interface seq mask drop transmitter receiver l ->
  body_layout (subscribers d') flags version interface seq mask drop transmitter' receiver' l.
Proof.
  intros D D' K Hr Ht (dr & dt & Hdr & Hdt & ->). exists dr, dt. split_and!; [|by apply (plain_opt_other d d' transmitter)|done].
  by apply (plain_other d d' receiver).
Qed.

Lemma flags_say_other f tx tx' d d' interface seq drop :
  same_ptr (subscribers d) (subscribers d') tx tx' -> flags_say f tx interface seq drop -> flags_say f tx' interface seq drop.
Proof. intros Ht [F1 F2 F3 F4 F5]. split; [done| |done|done|done]. rewrite F2. by destruct Ht. Qed.

(** [C25] A link state record with values in range, appended to a message with room for it while
    memory lasts, is read by another node that knows
    the receiver and the transmitter, and nobody whom the sender does not know: the same receiver,
    transmitter (or none), interface and acknowledgement, the low eight bits of the version, and
    the drop rate that was sent.  For a record without a drop rate the reader works one out from
    the mask of the acknowledgement, and takes 0 without one.  What was read before makes no
    difference, and reading ends where the record does. *)
Theorem link_record_roundtrip `{Allocator} w b flags version interface seq mask drop transmitter receiver
    (Hnever : never_refuses) (Hready : ready w b 76) (Hflags : sent_flags flags) (Hinterface : -1 <= interface < 16)
    (Hseq : byte_or_none seq) (Hmask : 0 <= mask < 2 ^ 32) (Hdrop : byte_or_none drop)
    (Hreceiver : (receiver < length (subscribers (w_dir w)))%nat)
    (Htransmitter : forall i, transmitter = Some i -> (i < length (subscribers (w_dir w)))%nat) :
  exists b1 w1 l,
    append_link_state flags transmitter (Some receiver) interface version seq mask drop b w = Some ((0, b1), w1) /\
    position b1 = position b + zlen l /\
    (forall d0, ob_data (w_mem w) b = Some d0 -> ob_data (w_mem w1) b1 = Some (d0 ++ l)) /\
  forall gettime_ms my_subscriber w' c b' r transmitter' receiver',
    directory_wf (w_dir w') -> knows_no_more (w_dir w') (w_dir w) ->
    same_sub (subscribers (w_dir w)) (subscribers (w_dir w')) receiver receiver' ->
    same_ptr (subscribers (w_dir w)) (subscribers (w_dir w')) transmitter transmitter' ->
    ob_wf (w_mem w') b' -> ob_rest (w_mem w') b' = Some (l ++ r) ->
  exists rec c' b2,
    read_link_record gettime_ms my_subscriber c b' w' = Some ((Got rec, c', b2), w') /\
    position b2 = position b' + zlen l /\
    r_receiver rec = Some receiver' /\ r_transmitter rec = transmitter' /\ r_version rec = version mod 256 /\
    r_interface rec = interface /\ r_ack_seq rec = seq /\ (seq <> -1 -> r_ack_mask rec = mask) /\
    r_drop_rate rec = if negb (drop =? -1) then drop else if negb (seq =? -1) then mask_drop_rate mask else 0.
Proof.
  destruct (append_link_state_spec Hnever w b flags version interface seq mask drop transmitter receiver)
    as (b1 & w1 & d & r0 & E & D & K & P & _ & _ & R & Dt & L); try done.
  { destruct (decide (interface = -1)); [by left|right; split; lia]. }
  pose proof (rd_dir _ _ _ Hready) as D0.
  exists b1, w1, (zlen (0 :: d) :: d). split; [done|]. split; [done|]. split; [exact Dt|].
  intros gettime_ms my_subscriber w' c b' r tx' rc' D' Kn Hrc Htx W' Hr.
  assert (L0 : body_layout (subscribers (w_dir w)) (link_flags flags transmitter interface seq drop) version interface seq
    mask drop transmitter receiver d).
  { destruct L as (dr & dt & L1 & L2 & ->). apply same_keys_sym in K. exists dr, dt.
    split_and!; [by eapply plain_keys|by eapply plain_opt_keys|done]. }
  pose proof (body_layout_other _ _ _ _ _ _ _ _ _ _ _ _ _ D0 D' Kn Hrc Htx L0) as L'.
  destruct (read_link_record_spec gettime_ms my_subscriber w' c b' _ version interface seq mask drop tx' rc' d r D'
              (flags_say_other _ _ _ _ _ _ _ _ Htx (link_flags_say _ _ _ _ _ Hflags)) L') as (b2 & E' & _ & P'); try done.
  do 3 eexists. split; [exact E'|]. split; [exact P'|]. cbn. split_and!; try done.
  intros Hs. destruct (Z.eqb_spec seq (-1)); done.
Qed.

(** A record as another node finds it: written by [world0], and read where the two subscribers
    were met the other way round. *)
Definition demo_record : list Z :=
  match append_link_state FLAG_BROADCAST (Some 0%nat) (Some 1%nat) 3 (-1) 200 0xF0F0 (-1) (mk_ob None 0 0 (-1) 0 None 0) world0 with
  | Some ((_, b1), w1) => default [] (ob_data (w_mem w1) b1)
  | None => []
  end.

Lemma link_record_roundtrip_witness :
  let w' := mk_world other_directory (bpilist_of []) {[1%positive := demo_record]} 0 0 [] [] in
  let b' := mk_ob (Some (mkptr 1 0)) 0 0 (zlen demo_record) (zlen demo_record) None 0 in
  exists rec c' b2, read_link_record (fun _ => 0) None context0 b' w' = Some ((Got rec, c', b2), w') /\
    r_receiver rec = Some 0%nat /\ r_transmitter rec = Some 1%nat /\ r_version rec = 255 /\
    r_ack_seq rec = 200 /\ r_drop_rate rec = 8.
Proof.
  intros w' b'.
  destruct (link_record_roundtrip world0 (mk_ob None 0 0 (-1) 0 None 0) FLAG_BROADCAST (-1) 3 200 0xF0F0 (-1) (Some 0%nat) 1)
    as (b1 & w1 & l & E & _ & Hd & Hp).
  - apply zero_allocator_never_refuses.
  - split; [by apply (abs_wf _ _ (mk_abuf [] None None)), ob_new_abs | apply two_subscribers_wf | split; [reflexivity |]].
    unfold OB_MAX. cbn. lia.
  - right. left. reflexivity.
  - lia.
  - right. split; lia.
  - lia.
  - left. reflexivity.
  - vm_compute. lia.
  - intros i [= <-]. vm_compute. lia.
  - assert (Hl : l = demo_record).
    { specialize (Hd [] eq_refl). unfold demo_record. rewrite E, Hd. reflexivity. }
    rewrite Hl in Hp. clear E Hd Hl.
    destruct (Hp (fun _ => 0) None w' context0 b' [] (Some 1%nat) 0%nat) as (rec & c' & b2 & Er & _ & H1 & H2 & H3 & _ & H4 & _ & H5).
    + apply other_directory_wf.
    + intros id Hid. vm_compute in Hid.
      apply elem_of_cons in Hid as [-> | Hid]; [by apply list_elem_of_lookup; exists 1%nat |].
      apply elem_of_cons in Hid as [-> | Hid]; [by apply list_elem_of_lookup; exists 0%nat |]. by apply elem_of_nil in Hid.
    + do 2 eexists. split_and!; vm_compute; reflexivity.
    + constructor. do 2 eexists. split_and!; vm_compute; reflexivity.
    + assert (Hb : are_bytes demo_record) by (vm_compute; repeat constructor; discriminate).
      assert (Hz : zlen demo_record = 15) by (vm_compute; reflexivity). unfold b'. rewrite Hz.
      constructor; cbn; unfold INT_MAX; try lia; [| done].
      exists demo_record. split; [done |]. split; [exact Hb | rewrite Hz; cbn [p_off]; lia].
    + vm_compute. reflexivity.
    + exists rec, c', b2. exact (conj Er (conj H1 (conj H2 (conj H3 (conj H4 H5))))).
Defined.
