(* ===== verification/RouteOps.v ===== *)
(** RouteOps: route_link.c, the operations of link state routing.

    What happens when packets and link states are received, when links expire, and when
    link states are sent, over the state of [Route].  Frames are handed to the transmit
    queue, whose answer is a parameter; a frame that it refuses is freed. *)

From S2P Require Import Prelude CMem OverlayBuffer OverlayBufferCodec DataFormats SubscriberTree OverlayAddress PacketFormats PacketRoundtrip RouteLinks Route RouteWire.

Section route_ops.
Context `{Allocator}.
Context (gettime_ms : nat -> Z) (random : nat -> Z) (char_signed : bool).
Context (my_subscriber directory_service : option nat).
Context (overlay_interfaces : list overlay_interface) (debug_linkstate : bool).
Context (overlay_payload_enqueue : link_frame -> Z) (explain_enqueue : overlay_frame -> Z).

Abbreviation r_now := (Route.r_now gettime_ms).
Abbreviation find_best := (Route.find_best gettime_ms char_signed my_subscriber directory_service overlay_interfaces debug_linkstate).
Abbreviation interface_at := (Route.interface_at overlay_interfaces).
Abbreviation to_char := (RouteLinks.to_char char_signed).

(** ** The alarm *)

Definition schedule_send (t_alarm t_deadline : Z) : RM unit :=
  _ ← emit Unscheduled;
  _ ← puts (fun w => set_deadline (set_alarm w t_alarm) t_deadline);
  emit (Scheduled t_alarm t_deadline).

Definition update_alarm (limit : Z) : RM unit :=
  a ← gets alarm;
  if (limit <? a) || (a =? 0) then schedule_send limit (limit + 10) else mret tt.

(** A link changed: all paths have to be worked out again. *)
Definition links_changed (id : nat) (t_now : Z) : RM unit :=
  v ← gets route_version;
  v ← r_lift (ci (v + 1));
  _ ← puts (fun w => set_route_version w v);
  n ← get_nb id;
  let t := n_table n in
  _ ← put_nb (set_table n (mk_table (t_subscriber t) (to_char (t_path_version t + 1)) (t_root t) (t_store t)));
  a ← gets alarm;
  if (t_now <? a) || (a =? 0) then schedule_send t_now (t_now + 10) else mret tt.

(** ** Links over which we hear a neighbour *)

Definition find_nlink (id : nat) (n : neighbour) : option neighbour_link :=
  snd <$> list_find (fun l => nl_id l = id) (n_links n).
Definition get_nlink (id : nat) (n : neighbour) : RM neighbour_link := r_lift (find_nlink id n).
Definition put_nlink (n : neighbour) (l : neighbour_link) : neighbour :=
  set_links n ((fun k => if bool_decide (nl_id k = nl_id l) then l else k) <$> n_links n).

Definition get_neighbour_link (id : nat) (interface : nat) (sender_interface is_unicast : Z) : RM nat :=
  n ← get_nb id;
  match list_find (fun l => nl_interface l = interface /\ neighbour_interface l = sender_interface /\
                            unicast l = is_unicast) (n_links n) with
  | Some (_, l) => mret (nl_id l)
  | None =>
      lid ← gets r_next_id;
      _ ← puts (fun w => set_next_id w (S lid));
      _ ← put_nb (set_links n (mk_nlink lid sender_interface interface 0 is_unicast (-1) 0 :: n_links n));
      mret lid
  end.

Definition interface_type_priority (type : Z) : Z :=
  if type =? 1 then 1 else if type =? 2 then 2 else if type =? 3 then 4 else 3.

(** The addresses of interfaces are compared as their indexes. *)
Definition overlay_interface_compare (one two : nat) : RM bool :=
  if bool_decide (one = two) then mret false
  else
    i1 ← interface_at one; i2 ← interface_at two;
    let p1 := interface_type_priority (if_type i1) in
    let p2 := interface_type_priority (if_type i2) in
    mret (if p1 <? p2 then false else if p2 <? p1 then true else (two <? one)%nat).

Fixpoint best_nlink (best : neighbour_link) (l : list neighbour_link) : RM neighbour_link :=
  match l with
  | [] => mret best
  | k :: l =>
      worse ← (if bool_decide (nl_interface k = nl_interface best) then mret false
               else overlay_interface_compare (nl_interface best) (nl_interface k));
      best_nlink (if worse : bool then k else best) l
  end.

Definition neighbour_find_best_link (id : nat) : RM unit :=
  n ← get_nb id;
  b ← (match n_links n with
       | [] => mret None
       | l :: ls => b ← best_nlink l ls; mret (Some (nl_id b))
       end : RM (option nat));
  if bool_decide (best_link n = b) then mret tt
  else
    t ← r_now;
    put_nb (set_next_update (set_best_link n b) (t + 10)).

(** Reads the interface of [best_link], wherever that points. *)
Definition interface_has_neighbour (interface : nat) (n : neighbour) : RM bool :=
  match best_link n with
  | None => mret false
  | Some b => l ← get_nlink b n; mret (bool_decide (nl_interface l = interface))
  end.

Fixpoint any_neighbour (f : neighbour -> RM bool) (l : list neighbour) : RM bool :=
  match l with
  | [] => mret false
  | n :: l => b ← f n; if b : bool then mret true else any_neighbour f l
  end.

Definition link_state_interface_has_neighbour (interface : nat) : RM bool :=
  l ← gets neighbours; any_neighbour (interface_has_neighbour interface) l.

(** ** Expiry *)

Fixpoint live_links (t_now : Z) (l : list neighbour_link) : RM (list neighbour_link) :=
  match l with
  | [] => mret []
  | k :: l =>
      i ← interface_at (nl_interface k);
      let dead := negb (if_state i =? INTERFACE_STATE_UP) || (link_timeout k <? t_now) in
      l ← live_links t_now l;
      mret (if dead then l else k :: l)
  end.

(** One pass of [clean_neighbours]; [free_neighbour] takes the neighbour off the list. *)
Definition clean_neighbour (t_now : Z) (id : nat) : RM unit :=
  n ← get_nb id;
  l ← live_links t_now (n_links n);
  _ ← put_nb (set_links n l);
  st ← get_link_state (n_subscriber n);
  v ← gets route_version;
  _ ← (if bool_decide (s_next_hop st = Some (n_subscriber n)) &&
          ((neighbour_link_timeout n <? t_now) || bool_decide (l = [])) && (s_route_version st =? v)
       then v ← r_lift (ci (v + 1)); puts (fun w => set_route_version w v)
       else mret tt);
  if bool_decide (l = [])
  then puts (fun w => set_neighbours w (filter (fun m => n_id m <> id) (neighbours w)))
  else mret tt.

Fixpoint each (f : nat -> RM unit) (l : list nat) : RM unit :=
  match l with [] => mret tt | i :: l => _ ← f i; each f l end.

Definition clean_neighbours (t_now : Z) : RM unit :=
  ids ← gets (fun w => n_id <$> neighbours w);
  each (clean_neighbour t_now) ids.

Definition link_interface_down : RM unit := t ← r_now; clean_neighbours t.

(** ** Sending *)

Definition op_free (f : link_frame) : RM unit :=
  base (fun w => '(_, m) ← ob_free (payload (lf_frame f)) (w_mem w); Some (tt, set_mem w m)).

(** [if (overlay_payload_enqueue(frame)) op_free(frame)] *)
Definition enqueue_or_free (f : link_frame) : RM Z :=
  let r := overlay_payload_enqueue f in
  if r =? 0 then _ ← emit (Enqueued f); mret 0 else _ ← op_free f; mret (-1).

(** An append whose result is not looked at. *)
Definition append_ignored (op : overlay_buffer -> mem -> option (Z * overlay_buffer * mem)) (b : overlay_buffer)
    : RM overlay_buffer :=
  '(_, b) ← base (on_buffer (op b)); mret b.

Definition overlay_mdp_encode_ports (b : overlay_buffer) (dst_port src_port : Z) : M (Z * overlay_buffer) :=
  port ← lift (ishl dst_port 1);
  let port := if dst_port =? src_port then Z.lor port 1 else port in
  '(r, b) ← on_buffer (fun m => ob_append_packed_ui32 b m port);
  if negb (r =? 0) then mret (-1, b)
  else if negb (dst_port =? src_port) then
    '(r, b) ← on_buffer (fun m => ob_append_packed_ui32 b m src_port);
    mret (if negb (r =? 0) then -1 else 0, b)
  else mret (0, b).

Definition data_frame (payload : overlay_buffer) (type ttl : Z) (destination : option nat) (resolved : bool)
    (recvaddr : Z) (interface : option Z) : overlay_frame :=
  mk_frame (Some payload) type my_subscriber false destination ttl (replicate BROADCAST_LEN 0) resolved None recvaddr
    interface OQ_MESH_MANAGEMENT 0 0 0.

Definition send_legacy_self_announce_ack (n : neighbour) (l : neighbour_link) (t_now : Z) : RM Z :=
  b ← r_lift ob_new;
  b ← append_ignored (fun b m => ob_append_ui32 b m (last_update n)) b;
  b ← append_ignored (fun b m => ob_append_ui32 b m t_now) b;
  b ← append_ignored (fun b m => ob_append_byte b m (neighbour_interface l)) b;
  enqueue_or_free (mk_link_frame
    (data_frame b OF_TYPE_SELFANNOUNCE_ACK 6 (Some (n_subscriber n)) false 0 None) None 0).

(** The frame of an acknowledgement, and the queue's answer. *)
Definition send_ack_frame (n : neighbour) (bl : neighbour_link) : RM unit :=
  b ← r_lift ob_new;
  s ← base (get_sub (n_subscriber n));
  r ← get_route (n_subscriber n);
  let direct := has (reachable s) REACHABLE_DIRECT && negb (has (reachable s) REACHABLE_ASSUMED) in
  '(iface, address) ← (if direct then
      match sub_interface r with
      | None => r_undefined
      | Some i => f ← interface_at i; mret (Some (Z.of_nat i), broadcast_address f)
      end
    else mret (None, 0) : RM (option Z * Z));
  let b := default b (snd (ob_limitsize (Some b) 400)) in
  '(_, b) ← base (overlay_mdp_encode_ports b MDP_PORT_LINKSTATE MDP_PORT_LINKSTATE);
  '(_, b) ← base (append_link_state (if negb (unicast bl =? 0) then FLAG_UNICAST else FLAG_BROADCAST)
                    (Some (n_subscriber n)) my_subscriber (neighbour_interface bl) 1
                    (ack_sequence bl) (u32 (ack_mask bl)) (-1) b);
  _ ← enqueue_or_free (mk_link_frame
        (data_frame b OF_TYPE_DATA 1 None direct address iface) (Some (n_subscriber n)) (if direct then -1 else 0));
  mret tt.

Definition send_neighbour_link (id : nat) : RM Z :=
  n ← get_nb id;
  match best_link n with
  | None => mret (-1)
  | Some b =>
      t_now ← r_now;
      bl ← get_nlink b n;
      _ ← (if legacy_protocol n then _ ← send_legacy_self_announce_ack n bl t_now; mret tt
           else send_ack_frame n bl);
      i ← interface_at (nl_interface bl);
      n ← get_nb id;
      _ ← put_nb (set_ack_counter (set_next_update (set_last_update n t_now) (t_now + tick_ms i)) ACK_WINDOW);
      mret 0
  end.

(** The send hook of the frames of [send_ack_frame]. *)
Definition neighbour_link_sent (sequence : Z) (subscriber : nat) : RM Z :=
  nb ← get_neighbour subscriber false;
  match nb with
  | None => mret 0
  | Some id => n ← get_nb id; _ ← put_nb (set_last_update_seq n sequence); mret 0
  end.

Definition send_one (t_now : Z) (id : nat) : RM unit :=
  _ ← neighbour_find_best_link id;
  n ← get_nb id;
  _ ← (if next_neighbour_update n <=? t_now then _ ← send_neighbour_link id; mret tt else mret tt);
  n ← get_nb id;
  a ← gets alarm;
  if next_neighbour_update n <? a then puts (fun w => set_alarm w (next_neighbour_update n)) else mret tt.

Definition link_send_neighbours : RM unit :=
  t_now ← r_now;
  _ ← clean_neighbours t_now;
  ids ← gets (fun w => n_id <$> neighbours w);
  each (send_one t_now) ids.

(** The link a subscriber's state points to. *)
Definition deref_link (p : option (nat * nat)) : RM (option link) :=
  match p with
  | None => mret None
  | Some (id, i) => n ← get_nb id; l ← r_lift (t_store (n_table n) !! i); mret (Some l)
  end.

(** The callback of [link_send]; [true] ends the enumeration. *)
Definition append_link (i : nat) (b : overlay_buffer) : RM (bool * overlay_buffer) :=
  if bool_decide (Some i = my_subscriber) then mret (false, b)
  else
    _ ← get_link_state i;
    t_now ← r_now;
    r ← find_best i;
    if negb (r =? 0) then mret (false, b)
    else
      st ← get_state i;
      s ← base (get_sub i);
      '(failed, b) ← (
        if next_update st - INCLUDE_ANYWAY <=? t_now then
          '(r, b) ← (
            if reachable s =? REACHABLE_SELF
            then base (append_link_state 0 my_subscriber (Some i) (-1) 1 (-1) 0 0 b)
            else
              l ← deref_link (s_link st);
              base (append_link_state 0 (s_transmitter st) (Some i) (-1)
                (match l with Some l => link_version l | None => -1 end) (-1) 0
                (match l with Some l => drop_rate l | None => 32 end) b));
          if negb (r =? 0) then _ ← puts (fun w => set_alarm w t_now); mret (true, b)
          else
            _ ← put_state i (set_s_next_update st (t_now + 5000));
            mret (false, b)
        else mret (false, b) : RM (bool * overlay_buffer));
      if failed : bool then mret (true, b)
      else
        st ← get_state i;
        a ← gets alarm;
        _ ← (if next_update st <? a then puts (fun w => set_alarm w (next_update st)) else mret tt);
        mret (false, b).

(** [enum_subscribers(NULL, append_link, payload)]. *)
Definition append_links (b : overlay_buffer) : RM overlay_buffer := fun w =>
  '(_, (b, w)) ← walk_tree (fun i '(b, w) => '((stop, b), w) ← append_link i b w; Some (stop, (b, w)))
                  TREE_DEPTH (root (w_dir (rw w))) 0 None SID_SIZE None 0 (b, w);
  Some (b, w).

Definition link_send : RM unit :=
  t_now ← r_now;
  _ ← puts (fun w => set_alarm w (t_now + 60000));
  _ ← link_send_neighbours;
  b ← r_lift ob_new;
  let b := default b (snd (ob_limitsize (Some b) 400)) in
  '(_, b) ← base (overlay_mdp_encode_ports b MDP_PORT_LINKSTATE MDP_PORT_LINKSTATE);
  let b := default b (snd (ob_checkpoint (Some b))) in
  let pos := ob_position b in
  b ← append_links b;
  let b := default b (snd (ob_rewind (Some b))) in
  let frame := mk_link_frame (data_frame b OF_TYPE_DATA 1 None false 0 None) None 0 in
  _ ← (if ob_position b =? pos then _ ← op_free frame; mret 0 else enqueue_or_free frame);
  l ← gets neighbours;
  if bool_decide (l = []) then puts (fun w => set_alarm w 0)
  else
    _ ← puts (fun w => set_deadline w (alarm w));
    a ← gets alarm; d ← gets deadline;
    emit (Scheduled a d).

(** ** Telling the monitor *)

Definition monitor_announce (i : nat) : RM bool :=
  s ← base (get_sub i);
  if has (reachable s) REACHABLE then
    st ← get_link_state i;
    _ ← emit (AnnounceLink (s_hop_count st) (s_transmitter st) i);
    mret false
  else mret false.

Definition link_state_announce_links : RM Z := fun w =>
  '(_, w) ← walk_tree (fun i w => monitor_announce i w) TREE_DEPTH (root (w_dir (rw w))) 0 None SID_SIZE None 0 w;
  Some (0, w).

End route_ops.
