(* ===== verification/RouteReceive.v ===== *)
(** RouteReceive: route_link.c, what is learnt from received packets.

    Sequence numbers of packets and frames are one byte; the last ones received are
    remembered in a 64-bit mask.  [link_receive] takes in the records of a link state
    message ([RouteWire]). *)

From S2P Require Import Prelude CMem OverlayBuffer OverlayBufferCodec DataFormats SubscriberTree OverlayAddress PacketFormats PacketRoundtrip RouteLinks Route RouteWire RouteOps.

(** [x << n] on [uint64_t]. *)
Definition shl64 (x n : Z) : option Z := if (0 <=? n) && (n <? 64) then Some (u64 (Z.shiftl x n)) else None.

(** [mask |= (1 << n)]: the 1 is an [int], its sign is extended. *)
Definition set_mask_bit (mask n : Z) : option Z := bit ← ishl 1 n; Some (Z.lor mask (u64 bit)).
Definition mask_bit (mask n : Z) : option bool := bit ← ishl 1 n; Some (negb (Z.land mask (u64 bit) =? 0)).

(** The window of [link_received_duplicate]: last sequence number, mask; and was the number
    [seq] seen before? *)
Definition received_before (last mask seq : Z) : option (bool * (Z * Z)) :=
  if negb (last =? -1) then
    if last =? seq then Some (true, (last, mask))
    else
      let offset := Z.land (last - 1 - seq) 0xFF in
      if offset <? 64 then
        seen ← mask_bit mask offset;
        if seen : bool then Some (true, (last, mask))
        else mask ← set_mask_bit mask offset; Some (false, (last, mask))
      else
        let offset := Z.land (seq - last - 1) 0xFF in
        mask ← shl64 (Z.lor (u64 (Z.shiftl mask 1)) 1) offset;
        Some (false, (seq, mask))
  else Some (false, (seq, mask)).

Section route_receive.
Context `{Allocator}.
Context (gettime_ms : nat -> Z) (random : nat -> Z) (char_signed : bool).
Context (my_subscriber directory_service : option nat).
Context (overlay_interfaces : list overlay_interface) (debug_linkstate : bool).
Context (overlay_payload_enqueue : link_frame -> Z) (explain_enqueue : overlay_frame -> Z).

Abbreviation r_now := (Route.r_now gettime_ms).
Abbreviation interface_at := (Route.interface_at overlay_interfaces).
Abbreviation to_char := (RouteLinks.to_char char_signed).
Abbreviation send_neighbour_link := (RouteOps.send_neighbour_link gettime_ms my_subscriber overlay_interfaces overlay_payload_enqueue).
Abbreviation neighbour_find_best_link := (RouteOps.neighbour_find_best_link gettime_ms overlay_interfaces).
Abbreviation links_changed := (RouteOps.links_changed char_signed).

(** ** Packets *)

Definition link_state_should_forward_broadcast (transmitter : nat) : RM Z :=
  nb ← get_neighbour transmitter false;
  match nb with
  | None => mret 1
  | Some id =>
      n ← get_nb id;
      t_now ← r_now;
      mret (if using_us n && (routing_through_us n <? t_now) then 0 else 1)
  end.

Definition link_state_ack_soon (subscriber : nat) : RM Z :=
  nb ← get_neighbour subscriber false;
  match nb with
  | None => mret 0
  | Some id =>
      n ← get_nb id;
      t_now ← r_now;
      _ ← (if using_us n && (t_now + 80 <? next_neighbour_update n)
           then put_nb (set_next_update n (t_now + 80)) else mret tt);
      n ← get_nb id;
      _ ← update_alarm (next_neighbour_update n);
      mret 0
  end.

Definition link_received_duplicate (subscriber : nat) (payload_seq : Z) : RM Z :=
  nb ← get_neighbour subscriber false;
  match nb with
  | None => mret 0
  | Some id =>
      n ← get_nb id;
      '(seen, (last, mask)) ← r_lift (received_before (mdp_ack_sequence n) (mdp_ack_mask n) payload_seq);
      _ ← put_nb (set_mdp_ack n last mask);
      mret (Zb seen)
  end.

Definition set_ack (l : neighbour_link) (seq mask : Z) : neighbour_link :=
  mk_nlink (nl_id l) (neighbour_interface l) (nl_interface l) (link_timeout l) (unicast l) seq mask.
Definition set_nlink_timeout (l : neighbour_link) (t : Z) : neighbour_link :=
  mk_nlink (nl_id l) (neighbour_interface l) (nl_interface l) t (unicast l) (ack_sequence l) (ack_mask l).

(** [neighbour->ack_counter --] *)
Definition count_packet (id : nat) : RM unit :=
  n ← get_nb id; c ← r_lift (ci (ack_counter n - 1)); put_nb (set_ack_counter n c).

(** The loop over the packets missed before [sender_seq], at most 255 of them. *)
Fixpoint missed_loop (fuel : nat) (id lid : nat) (sender_seq t_now : Z) : RM unit :=
  match fuel with
  | O => r_undefined
  | S fuel =>
      n ← get_nb id;
      l ← get_nlink lid n;
      let seq := Z.land (ack_sequence l + 1) 0xFF in
      if seq =? sender_seq then put_nb (put_nlink n (set_ack l seq (ack_mask l)))
      else
        _ ← put_nb (put_nlink n (set_ack l seq (u64 (Z.shiftl (ack_mask l) 1))));
        _ ← count_packet id;
        n ← get_nb id;
        _ ← (if using_us n then
               _ ← put_nb (set_next_update n (t_now + 10));
               if ack_counter n <=? 0
               then _ ← neighbour_find_best_link id; _ ← send_neighbour_link id; mret tt
               else mret tt
             else mret tt : RM unit);
        missed_loop fuel id lid sender_seq t_now
  end.

(** The sequence number of a packet. *)
Definition received_seq (id lid : nat) (sender_seq t_now : Z) : RM unit :=
  n ← get_nb id;
  l ← get_nlink lid n;
  if negb (ack_sequence l =? -1) then
    let offset := Z.land (ack_sequence l - 1 - sender_seq) 0xFF in
    if offset <? 64 then
      mask ← r_lift (set_mask_bit (ack_mask l) offset);
      put_nb (put_nlink n (set_ack l (ack_sequence l) mask))
    else
      _ ← put_nb (put_nlink n (set_ack l (ack_sequence l) (Z.lor (u64 (Z.shiftl (ack_mask l) 1)) 1)));
      missed_loop 256 id lid sender_seq t_now
  else put_nb (put_nlink n (set_ack l sender_seq (ack_mask l))).

(** The test with [if (...);] before the assignment decides nothing, and [using_us],
    which is 0 or 1, is compared with the time. *)
Definition link_received_packet (subscriber : nat) (interface : nat) (sender_interface sender_seq is_unicast : Z) : RM Z :=
  if negb (is_unicast =? 0) then mret 0
  else
    nb ← get_neighbour subscriber true;
    id ← r_lift nb;
    lid ← get_neighbour_link id interface sender_interface (to_char is_unicast);
    t_now ← r_now;
    _ ← count_packet id;
    _ ← (if 0 <=? sender_seq then received_seq id lid sender_seq t_now else mret tt);
    n ← get_nb id;
    l ← get_nlink lid n;
    i ← interface_at interface;
    let n := if link_timeout l <? t_now then set_next_update n (t_now + 10) else n in
    _ ← put_nb (put_nlink n (set_nlink_timeout l (t_now + u32 (tick_ms i * 5))));
    n ← get_nb id;
    _ ← (if (t_now <? Zb (using_us n)) && (ack_counter n <=? 0)
         then _ ← neighbour_find_best_link id; _ ← send_neighbour_link id; mret tt
         else mret tt);
    n ← get_nb id;
    _ ← update_alarm (next_neighbour_update n);
    mret 0.

(** ** Link states *)

(** The acknowledgement in a record about the link from us to the sender. *)
Definition process_ack (id sender interface : nat) (ack_seq ack_mask t_now : Z) : RM unit :=
  if negb (ack_seq =? -1) then
    _ ← emit (QueueAck sender interface ack_mask ack_seq);
    n ← get_nb id;
    if negb (last_update_seq n =? -1) then
      let seq_delta := Z.land (ack_seq - last_update_seq n) 0xFF in
      acked ← (if (seq_delta <=? 32) && negb (seq_delta =? 0)
               then bit ← r_lift (ishl 1 (seq_delta - 1)); mret (negb (Z.land ack_mask (u32 bit) =? 0))
               else mret (seq_delta =? 0) : RM bool);
      if acked : bool then put_nb (set_last_update_seq n (-1))
      else if seq_delta <? 128 then
        _ ← put_nb (set_next_update n t_now);
        update_alarm t_now
      else mret tt
    else mret tt
  else mret tt.

Definition set_link (l : link) (t : option nat) (i : option nat) (version drop : Z) : link :=
  mk_link t (parent l) i (last_ack_seq l) (path_version l) version drop (hop_count l) (path_drop_rate l) (calculating l).
Definition set_last_ack_seq (l : link) (seq : Z) : link :=
  mk_link (transmitter l) (parent l) (l_interface l) seq (path_version l) (link_version l) (drop_rate l) (hop_count l)
    (path_drop_rate l) (calculating l).

(** The link at a receiver of a neighbour's table, read and written through its address. *)
Definition get_link (id i : nat) : RM link := n ← get_nb id; r_lift (t_store (n_table n) !! i).
Definition write_link (id i : nat) (l : link) : RM unit :=
  n ← get_nb id; put_nb (set_table n (put_link (n_table n) i l)).

(** The record is about the link from us to the sender itself: it can hear us.  The version
    to compare with the link's, and whether the link came up. *)
Definition heard_by (id sender interface : nat) (tx : option nat) (r : link_record) (t_now : Z) : RM (Z * bool) :=
  l ← get_link id sender;
  n ← get_nb id;
  let up := (neighbour_link_timeout n <? t_now) || (link_version l <? 0) in
  let version := if up then link_version l + 1 else link_version l in
  i ← interface_at interface;
  _ ← put_nb (set_timeout n (t_now + u32 (tick_ms i * 5)));
  let version := if negb (r_drop_rate r =? drop_rate l) || negb (bool_decide (tx = transmitter l))
                 then version + 1 else version in
  _ ← process_ack id sender interface (r_ack_seq r) (r_ack_mask r) t_now;
  l ← get_link id sender;
  _ ← write_link id sender (set_last_ack_seq l (r_ack_seq r));
  mret (version, up).

(** A record is stored with the neighbour [id], the sender of the message; was anything
    changed?  [tx] is the transmitter kept and [iface] the interface of ours. *)
Definition store_record (id sender receiver : nat) (tx : option nat) (iface : option nat) (r : link_record) (t_now : Z)
    : RM bool :=
  n ← get_nb id;
  subs ← gets subs_of;
  '(lp, t) ← r_lift (find_link char_signed subs (n_table n) receiver (negb (bool_decide (tx = None))));
  match lp with
  | None => mret false
  | Some lp =>
      _ ← put_nb (set_table n t);
      '(version, up) ← (
        match iface with
        | Some i =>
            if bool_decide (tx = my_subscriber) && bool_decide (receiver = sender) && negb (r_interface r =? -1)
            then heard_by id sender i tx r t_now else mret (r_version r, false)
        | None => mret (r_version r, false)
        end : RM (Z * bool));
      l ← get_link id lp;
      if negb (bool_decide (transmitter l = tx)) || negb (link_version l =? version) then
        _ ← write_link id lp (set_link l tx iface (to_char (Z.land version 0xFF)) (to_char (r_drop_rate r)));
        mret true
      else mret up
  end.

Definition apply_record (id sender : nat) (r : link_record) (t_now : Z) : RM bool :=
  receiver ← r_lift (r_receiver r);
  n ← get_nb id;
  if bool_decide (Some receiver = my_subscriber) then
    _ ← put_nb (set_using_us n (bool_decide (r_transmitter r = Some sender)));
    mret false
  else if bool_decide (receiver = sender) then
    if negb (bool_decide (r_transmitter r = my_subscriber)) || (r_interface r =? -1) then mret false
    else
      let i := Z.to_nat (r_interface r) in
      f ← interface_at i;
      if negb (if_state f =? INTERFACE_STATE_UP) then mret false
      else store_record id sender receiver (r_transmitter r) (Some i) r t_now
  else if bool_decide (r_transmitter r = my_subscriber) then
    s ← base (get_sub receiver);
    _ ← (if negb (reachable s =? REACHABLE_SELF) then put_nb (set_routing_through_us n (t_now + 2500)) else mret tt);
    store_record id sender receiver None None r t_now
  else store_record id sender receiver (r_transmitter r) None r t_now.

(** The loop over the records.  Every pass moves the position, so there are at most as many
    as the message has bytes; [stuck] is what would happen after [fuel] passes. *)
Fixpoint receive_loop (stuck : RM (bool * decode_context * overlay_buffer)) (fuel : nat) (id sender : nat) (t_now : Z) (c : decode_context) (b : overlay_buffer) (changed : bool)
    : RM (bool * decode_context * overlay_buffer) :=
  rest ← r_lift (ob_remaining b);
  if rest <=? 0 then mret (changed, c, b)
  else match fuel with
  | O => stuck
  | S fuel =>
      '(res, c, b) ← base (read_link_record gettime_ms my_subscriber c b);
      match res with
      | Break => mret (changed, c, b)
      | Continue => receive_loop stuck fuel id sender t_now c b changed
      | Got r =>
          ch ← apply_record id sender r t_now;
          receive_loop stuck fuel id sender t_now c b (changed || ch)
      end
  end.

(** The payload of the message is [len] bytes at [p]; a message from a sender that is not
    known makes a neighbour without subscriber, which is undefined when it is looked at. *)
Definition link_receive (src : list Z) (p : ptr) (len : Z) : RM Z :=
  b ← r_lift (ob_static p len);
  let b := default b (snd (ob_limitsize (Some b) len)) in
  s ← base (find_sub src SID_SIZE false);
  sender ← r_lift s;
  nb ← get_neighbour sender true;
  id ← r_lift nb;
  t_now ← r_now;
  '(changed, c, b) ← receive_loop r_undefined (Z.to_nat len) id sender t_now context_zero b false;
  _ ← base (send_please_explain random my_subscriber explain_enqueue c my_subscriber (Some sender));
  _ ← (if changed : bool then links_changed id t_now else mret tt);
  mret 0.

Definition link_explained (i : nat) : RM unit :=
  t_now ← r_now;
  st ← get_link_state i;
  _ ← put_state i (set_s_next_update st t_now);
  update_alarm t_now.

(** The interface number comes from the packet. *)
Definition link_state_legacy_ack (source : nat) (b : overlay_buffer) (t_now : Z) : RM Z :=
  if sizeLimit b <? 9 then mret (-1)
  else
    '(_, b) ← base (get_ui32 b);
    '(_, b) ← base (get_ui32 b);
    '(iface, b) ← base (get_byte b);
    nb ← get_neighbour source true;
    id ← r_lift nb;
    n ← get_nb id;
    subs ← gets subs_of;
    '(lp, t) ← r_lift (find_link char_signed subs (n_table n) source true);
    lp ← r_lift lp;
    l ← r_lift (t_store t !! lp);
    let changed := negb (legacy_protocol n) || (neighbour_link_timeout n <? t_now) ||
                   negb (bool_decide (transmitter l = my_subscriber)) in
    i ← r_lift (zget overlay_interfaces iface);
    let t := put_link t lp (set_link l my_subscriber (Some (Z.to_nat iface)) 1 32) in
    _ ← put_nb (set_timeout (set_legacy (set_table n t)) (t_now + u32 (tick_ms i * 5)));
    _ ← (if changed then links_changed id t_now else mret tt);
    mret 0.

End route_receive.
