(* ===== verification/RouteWindow.v ===== *)
(** RouteWindow: route_link.c, duplicate frames.

    Neighbours number their frames with one byte.  [received_before] of [RouteReceive], the
    window of link_received_duplicate, is compared with the set of all numbers received, for
    numbers that do not wrap. *)

From S2P Require Import Prelude OverlayBuffer RouteLinks Route RouteBest RouteReceive.

(** The window after the numbers [S] were received, the highest of them [M]. *)
Record window_is (S : gset Z) (M last mask : Z) : Prop := {
  wi_last : last = M mod 256;
  wi_max : M ∈ S /\ forall x, x ∈ S -> x <= M;
  wi_mask : 0 <= mask < 2 ^ 64;
  wi_bits j : 0 <= j < 64 -> Z.testbit mask j = bool_decide (M - 1 - j ∈ S)
}.

Lemma ishl_1 n : 0 <= n <= 30 -> ishl 1 n = Some (2 ^ n).
Proof.
  intros Hn. unfold ishl. zdecide. rewrite Z.shiftl_1_l, i32_id; [done|].
  pose proof (Z.pow_le_mono_r 2 n 30). unfold INT_MIN, INT_MAX. lia.
Qed.

Lemma u64_id z : 0 <= z < 2 ^ 64 -> u64 z = z.
Proof. apply Z.mod_small. Qed.

Lemma pow2_lt_64 n : 0 <= n <= 63 -> 0 <= 2 ^ n < 2 ^ 64.
Proof. intros Hn. split; [lia|]. apply Z.pow_lt_mono_r; lia. Qed.

Lemma mask_bit_spec mask n : 0 <= n <= 30 -> mask_bit mask n = Some (Z.testbit mask n).
Proof.
  intros Hn. unfold mask_bit. rewrite ishl_1 by lia. cbn [mbind option_bind]. rewrite u64_id by (apply pow2_lt_64; lia).
  f_equal. destruct (Z.testbit mask n) eqn:E.
  - apply negb_true_iff, Z.eqb_neq. intros H0. apply (f_equal (fun z => Z.testbit z n)) in H0.
    rewrite Z.land_spec, E, Z.pow2_bits_true, Z.bits_0 in H0 by lia. done.
  - apply negb_false_iff, Z.eqb_eq, Z.bits_inj'. intros k Hk. rewrite Z.land_spec, Z.pow2_bits_eqb, Z.bits_0 by lia.
    destruct (Z.eqb_spec n k) as [<-|]; [by rewrite E|apply andb_false_r].
Qed.

Lemma lor_lt_64 a b : 0 <= a < 2 ^ 64 -> 0 <= b < 2 ^ 64 -> 0 <= Z.lor a b < 2 ^ 64.
Proof.
  intros Ha Hb. split; [apply Z.lor_nonneg; lia|].
  destruct (Z.eq_dec (Z.lor a b) 0) as [->|Hne]; [lia|].
  assert (0 < Z.lor a b) by (pose proof (proj2 (Z.lor_nonneg a b)); lia).
  apply Z.log2_lt_pow2; [done|]. rewrite Z.log2_lor by lia.
  destruct (Z.eq_dec a 0), (Z.eq_dec b 0); subst; cbn; try lia;
    repeat match goal with H : 0 <= ?x < 2 ^ 64 |- _ =>
      assert (Z.log2 x < 64) by (destruct (Z.eq_dec x 0) as [->|]; [done|apply Z.log2_lt_pow2; lia]); clear H end; lia.
Qed.

Lemma set_mask_bit_spec mask n :
  0 <= n <= 30 -> 0 <= mask < 2 ^ 64 ->
  exists mask', set_mask_bit mask n = Some mask' /\ 0 <= mask' < 2 ^ 64 /\
    forall j, 0 <= j -> Z.testbit mask' j = Z.testbit mask j || (n =? j).
Proof.
  intros Hn Hm. unfold set_mask_bit. rewrite ishl_1 by lia. cbn [mbind option_bind].
  rewrite u64_id by (apply pow2_lt_64; lia). eexists. split; [done|]. split; [apply lor_lt_64; [done|apply pow2_lt_64; lia]|].
  intros j Hj. by rewrite Z.lor_spec, Z.pow2_bits_eqb by lia.
Qed.

Lemma u64_testbit z j : 0 <= j < 64 -> Z.testbit (u64 z) j = Z.testbit z j.
Proof. intros Hj. unfold u64. by rewrite Z.mod_pow2_bits_low by lia. Qed.

(** [((mask << 1) | 1) << n]. *)
Lemma advance_spec mask n :
  0 <= n < 64 ->
  exists mask', shl64 (Z.lor (u64 (Z.shiftl mask 1)) 1) n = Some mask' /\ 0 <= mask' < 2 ^ 64 /\
    forall j, 0 <= j < 64 -> Z.testbit mask' j =
      if j <? n then false else if j =? n then true else Z.testbit mask (j - n - 1).
Proof.
  intros Hn. unfold shl64. zdecide. eexists. split; [done|]. split; [apply Z.mod_pos_bound; lia|].
  intros j Hj. rewrite u64_testbit, Z.shiftl_spec by lia.
  destruct (Z.ltb_spec j n) as [Hlt|Hge]; [by rewrite Z.testbit_neg_r by lia|].
  rewrite Z.lor_spec, u64_testbit, Z.shiftl_spec by lia.
  destruct (Z.eqb_spec j n) as [->|Hne].
  - rewrite Z.sub_diag. cbn. apply orb_true_r.
  - replace (Z.testbit 1 (j - n)) with false by (symmetry; change 1 with (2 ^ 0); rewrite Z.pow2_bits_eqb by lia; zdecide; done).
    by rewrite orb_false_r.
Qed.

(** The distance between two numbers, from their bytes. *)
Lemma land_distance a b c : Z.land (a mod 256 - c - b mod 256) 255 = (a - c - b) mod 256.
Proof. rewrite land_255. Z.div_mod_to_equations. lia. Qed.

(** A number up to 31 behind the highest, or up to 64 ahead of it. *)
Definition in_window (M n : Z) : Prop := M - 31 <= n <= M + 64.

Lemma received_before_spec S M last mask n :
  window_is S M last mask -> in_window M n ->
  exists last' mask', received_before last mask (n mod 256) = Some (bool_decide (n ∈ S), (last', mask')) /\
    window_is ({[n]} ∪ S) (Z.max M n) last' mask'.
Proof.
  intros [-> [HM Hmax] Hm Hb] Hw. unfold in_window in Hw. unfold received_before.
  pose proof (Z.mod_pos_bound M 256 ltac:(lia)). zdecide.
  destruct (Z.eqb_spec (M mod 256) (n mod 256)) as [E|E].
  { assert (n = M) as -> by (Z.div_mod_to_equations; lia). rewrite bool_decide_true by done.
    eexists _, _. split; [done|]. rewrite Z.max_id. replace ({[M]} ∪ S) with S by set_solver. by split. }
  assert (Hne : n <> M) by congruence. rewrite land_distance.
  destruct (Z.lt_ge_cases n M) as [Hlt|Hge].
  - replace ((M - 1 - n) mod 256) with (M - 1 - n) by (symmetry; apply Z.mod_small; lia). zdecide.
    rewrite mask_bit_spec, Hb by lia. replace (M - 1 - (M - 1 - n)) with n by lia. cbn [mbind option_bind].
    rewrite Z.max_l by lia. case_bool_decide as Hin.
    { eexists _, _. split; [done|]. replace ({[n]} ∪ S) with S by set_solver. by split. }
    destruct (set_mask_bit_spec mask (M - 1 - n)) as (mask' & -> & Hm' & Hb'); [lia|done|].
    eexists _, _. split; [done|]. split; [done| |done|].
    + split; [set_solver|]. intros x [->%elem_of_singleton|Hx]%elem_of_union; [lia|auto].
    + intros j Hj. rewrite Hb', Hb by lia. apply eq_bool_prop_intro. rewrite orb_True, !bool_decide_spec, Is_true_true, Z.eqb_eq.
      rewrite elem_of_union, elem_of_singleton. split; (intros [Hx|Hx]; [|try by left]); [by right|left; lia|right; lia].
  - assert (Hgt : M < n) by lia. replace ((M - 1 - n) mod 256) with (M - 1 - n + 256) by (Z.div_mod_to_equations; lia). zdecide.
    replace (n mod 256 - M mod 256 - 1) with (n mod 256 - 1 - M mod 256) by lia. rewrite land_distance.
    replace ((n - 1 - M) mod 256) with (n - 1 - M) by (symmetry; apply Z.mod_small; lia).
    destruct (advance_spec mask (n - 1 - M)) as (mask' & -> & Hm' & Hb'); [lia|].
    rewrite bool_decide_false by (intros Hx%Hmax; lia). eexists _, _. split; [done|]. rewrite Z.max_r by lia.
    split; [done| |done|].
    + split; [set_solver|]. intros x [->%elem_of_singleton|Hx%Hmax]%elem_of_union; lia.
    + intros j Hj. rewrite Hb' by lia. destruct (Z.ltb_spec j (n - 1 - M)) as [Hj1|Hj1].
      { symmetry. apply bool_decide_eq_false. intros [?%elem_of_singleton|Hx%Hmax]%elem_of_union; lia. }
      destruct (Z.eqb_spec j (n - 1 - M)) as [->|Hj2].
      { symmetry. apply bool_decide_eq_true. replace (n - 1 - (n - 1 - M)) with M by lia. set_solver. }
      rewrite Hb by lia. apply bool_decide_ext. replace (M - 1 - (j - (n - 1 - M) - 1)) with (n - 1 - j) by lia.
      rewrite elem_of_union, elem_of_singleton. split; [auto|]. intros [?|?]; [lia|done].
Qed.

(** ** The operation *)

(** The window kept for the neighbour with this subscriber. *)
Definition heard (w : rworld) (subscriber : nat) (last mask : Z) : Prop :=
  NoDup (n_id <$> neighbours w) /\
  exists k n, list_find (fun n => n_subscriber n = subscriber) (neighbours w) = Some (k, n) /\
    mdp_ack_sequence n = last /\ mdp_ack_mask n = mask.

Lemma find_put_in subscriber n n' l k :
  NoDup (n_id <$> l) -> n_id n' = n_id n -> n_subscriber n' = n_subscriber n ->
  list_find (fun n => n_subscriber n = subscriber) l = Some (k, n) ->
  list_find (fun n => n_subscriber n = subscriber) (put_in n' l) = Some (k, n').
Proof.
  intros Hnd Hid Hs Hf. pose proof (list_find_Some (fun n => n_subscriber n = subscriber) l k n) as HS.
  destruct (proj1 HS Hf) as (Hk & Hp & Hbefore).
  apply list_find_Some. unfold put_in. rewrite list_lookup_fmap, Hk. cbn. rewrite bool_decide_true by done.
  split; [done|]. split; [congruence|]. intros j m Hj Hlt.
  rewrite list_lookup_fmap in Hj. destruct (l !! j) as [m0|] eqn:Em; [|done]. cbn in Hj. injection Hj as <-.
  case_bool_decide as Ei; [|by eapply Hbefore]. rewrite Hs. rewrite Hid in Ei.
  assert (j = k); [|lia]. apply (NoDup_lookup (n_id <$> l) j k (n_id n)); [done| |]; rewrite list_lookup_fmap;
    [rewrite Em|rewrite Hk]; cbn; congruence.
Qed.

Lemma link_received_duplicate_spec w subscriber last mask seq seen last' mask' :
  heard w subscriber last mask -> received_before last mask seq = Some (seen, (last', mask')) ->
  exists w', link_received_duplicate subscriber seq w = Some (Zb seen, w') /\ heard w' subscriber last' mask'.
Proof.
  intros (Hnd & k & n & Hf & <- & <-) Hr.
  assert (runs (link_received_duplicate subscriber seq) w (fun r w' => r = Zb seen /\ heard w' subscriber last' mask')) as (r & w' & E & -> & Hh);
    [|eauto].
  unfold link_received_duplicate, get_neighbour. apply runs_bind, runs_bind, runs_gets. rewrite Hf. apply runs_ret.
  destruct (proj1 (list_find_Some _ _ _ _) Hf) as (Hk & Hs & _).
  apply runs_bind, (runs_get_nb _ n); [apply find_nb_elem; [done|by eapply list_elem_of_lookup_2|done]|].
  apply runs_bind, (runs_lift _ (seen, (last', mask'))); [done|].
  apply runs_bind, runs_put_nb, runs_ret. split; [done|]. split; [cbn; by rewrite put_in_ids|].
  exists k, (set_mdp_ack n last' mask'). split; [|done].
  exact (find_put_in subscriber n (set_mdp_ack n last' mask') _ k Hnd eq_refl eq_refl Hf).
Qed.

(** Frames with the numbers [ns] arrive one after the other; the answers. *)
Fixpoint duplicates_run (subscriber : nat) (ns : list Z) (w : rworld) : option (list Z) :=
  match ns with
  | [] => Some []
  | n :: ns =>
      '(r, w) ← link_received_duplicate subscriber (n mod 256) w;
      rs ← duplicates_run subscriber ns w;
      Some (r :: rs)
  end.

(** The answers that a set of all numbers gives. *)
Fixpoint seen_before (S : gset Z) (ns : list Z) : list Z :=
  match ns with
  | [] => []
  | n :: ns => Zb (bool_decide (n ∈ S)) :: seen_before ({[n]} ∪ S) ns
  end.

Fixpoint all_in_window (M : Z) (ns : list Z) : Prop :=
  match ns with
  | [] => True
  | n :: ns => in_window M n /\ all_in_window (Z.max M n) ns
  end.

Lemma duplicates_run_spec subscriber ns : forall S M last mask w,
  window_is S M last mask -> heard w subscriber last mask -> all_in_window M ns ->
  duplicates_run subscriber ns w = Some (seen_before S ns).
Proof.
  induction ns as [|n ns IH]; intros S M last mask w Hw Hh Hin; [done|]. destruct Hin as [Hn Hns].
  destruct (received_before_spec _ _ _ _ _ Hw Hn) as (last' & mask' & Hr & Hw').
  destruct (link_received_duplicate_spec _ _ _ _ _ _ _ _ Hh Hr) as (w' & E & Hh').
  cbn [duplicates_run seen_before]. rewrite E. cbn [mbind option_bind].
  rewrite (IH _ _ _ _ _ Hw' Hh' Hns). done.
Qed.

(** [C24] Frames of a neighbour are recognised as duplicates exactly when a frame with the same
    number came before, for all numbers (not only their bytes), as long as no frame is more
    than 31 behind or 64 ahead of the latest. *)
Theorem duplicates_detected w subscriber n0 ns
    (Hnew : heard w subscriber (-1) 0) (Hns : all_in_window n0 ns) :
  duplicates_run subscriber (n0 :: ns) w = Some (seen_before ∅ (n0 :: ns)).
Proof.
  destruct (link_received_duplicate_spec w subscriber (-1) 0 (n0 mod 256) false (n0 mod 256) 0) as (w' & E & Hh');
    [done|done|].
  cbn [duplicates_run]. rewrite E. cbn [mbind option_bind seen_before].
  rewrite (duplicates_run_spec subscriber ns ({[n0]} ∪ ∅) n0 (n0 mod 256) 0); [|split|done|done].
  - by rewrite bool_decide_false by set_solver.
  - done.
  - split; [set_solver|]. intros x Hx. assert (x = n0) as -> by set_solver. lia.
  - lia.
  - intros j Hj. rewrite Z.bits_0. symmetry. apply bool_decide_eq_false. intros Hx.
    assert (n0 - 1 - j = n0) by set_solver. lia.
Qed.

Lemma duplicates_detected_witness :
  duplicates_run 1 [250; 252; 251; 252; 300; 290; 290; 275] (set_neighbours demo_rworld [demo_nb 10 1 7])
  = Some [0; 0; 0; 1; 0; 0; 1; 0].
Proof.
  apply (duplicates_detected (set_neighbours demo_rworld [demo_nb 10 1 7]) 1 250 [252; 251; 252; 300; 290; 290; 275]).
  - split; [cbn; repeat constructor; set_solver|]. exists 0%nat, (demo_nb 10 1 7). split; [reflexivity|done].
  - cbn. unfold in_window. lia.
Defined.

(** Beyond that the window is undefined: a frame 33 to 64 behind the latest shifts an [int]
    by 32 bits or more, one 65 to 191 ahead of it shifts the mask by 64 bits or more. *)
Theorem duplicates_undefined S M last mask n
    (Hwindow : window_is S M last mask) (Hn : M - 64 <= n <= M - 33 \/ M + 65 <= n <= M + 191) :
  received_before last mask (n mod 256) = None.
Proof.
  destruct Hwindow as [-> _ _ _]. unfold received_before. pose proof (Z.mod_pos_bound M 256 ltac:(lia)). zdecide.
  destruct (Z.eqb_spec (M mod 256) (n mod 256)) as [E|E]; [exfalso; Z.div_mod_to_equations; lia|].
  rewrite land_distance. destruct Hn as [Hn|Hn].
  - replace ((M - 1 - n) mod 256) with (M - 1 - n) by (symmetry; apply Z.mod_small; lia). zdecide.
    unfold mask_bit, ishl. zdecide. done.
  - replace ((M - 1 - n) mod 256) with (M - 1 - n + 256) by (Z.div_mod_to_equations; lia). zdecide.
    replace (n mod 256 - M mod 256 - 1) with (n mod 256 - 1 - M mod 256) by lia. rewrite land_distance.
    replace ((n - 1 - M) mod 256) with (n - 1 - M) by (symmetry; apply Z.mod_small; lia).
    unfold shl64. zdecide. done.
Qed.

Lemma duplicates_undefined_witness : received_before (100 mod 256) 0 (60 mod 256) = None.
Proof.
  apply (duplicates_undefined {[100]} 100 (100 mod 256) 0 60); [|lia].
  split; [reflexivity| |lia|].
  - split; [set_solver|]. intros x Hx. assert (x = 100) as -> by set_solver. lia.
  - intros j Hj. rewrite Z.bits_0. symmetry. apply bool_decide_eq_false. intros Hx.
    assert (100 - 1 - j = 100) by set_solver. lia.
Defined.
