(* ===== verification/RouteProps.v ===== *)
(** RouteProps: what the operations of [RouteOps] and [RouteReceive] guarantee, and where
    they go wrong. *)

From S2P Require Import Prelude CMem OverlayBuffer OverlayBufferCodec DataFormats SubscriberTree OverlayAddress PacketFormats PacketRoundtrip RouteLinks Route RouteBest RouteWire RouteOps RouteReceive.

(** ** Reading records ends *)

(** A position that only moves forward in a buffer that keeps its limit. *)
Record forward (b b' : overlay_buffer) : Prop := {
  fw_position : position b <= position b';
  fw_limit : sizeLimit b' = sizeLimit b
}.

#[export] Instance forward_preorder : PreOrder forward.
Proof. split; [by split|]. intros b1 b2 b3 [] []. split; [lia|congruence]. Qed.

(** What every result of a computation satisfies. *)
Definition yields {A} (m : M A) (P : A -> Prop) : Prop := forall w x w', m w = Some (x, w') -> P x.

Lemma yields_ret {A} (x : A) (P : A -> Prop) : P x -> yields (mret x) P.
Proof. intros HP w y w' [= <- _]. done. Qed.

Lemma yields_bind {A B} (m : M A) (f : A -> M B) (P : A -> Prop) (Q : B -> Prop) :
  yields m P -> (forall x, P x -> yields (f x) Q) -> yields (m ≫= f) Q.
Proof.
  intros Hm Hf w y w'. unfold mbind, M_bind. destruct (m w) as [[x w1]|] eqn:E; [|done]. intros Hy.
  by eapply Hf; [eapply Hm|].
Qed.

Lemma yields_any {A B} (m : M A) (f : A -> M B) (Q : B -> Prop) :
  (forall x, yields (f x) Q) -> yields (m ≫= f) Q.
Proof. intros Hf. apply (yields_bind _ _ (fun _ => True)); [done|auto]. Qed.

Lemma get_byte_forward b : yields (get_byte b) (fun '(x, b') => forward b b' /\ (0 <= x -> position b < position b')).
Proof.
  intros w [x b'] w'. unfold get_byte, ob_get. destruct (test_offset (Some b) (position b) 1) as [t|]; [|done]. cbn.
  destruct (negb (t =? 0)); cbn; [intros [= <- <- _]; split; [done|lia]|].
  destruct (bytes b) as [p|]; [|done]. cbn. destruct (load _ p _) as [v|]; [|done]. cbn.
  intros [= _ <- _]. split; [split; cbn; [lia|done]|cbn; lia].
Qed.

Lemma get_ui32_forward b : yields (get_ui32 b) (fun '(_, b') => forward b b').
Proof.
  intros w [x b'] w'. unfold get_ui32, ob_get_ui32. destruct (test_offset (Some b) (position b) 4) as [t|]; [|done]. cbn.
  destruct (negb (t =? 0)); cbn; [by intros [= <- <- _]|].
  destruct (bytes b) as [p|]; [|done]. cbn.
  destruct (load (w_mem w) p (position b)); [|done]; cbn.
  destruct (load (w_mem w) p (position b + 1)); [|done]; cbn.
  destruct (load (w_mem w) p (position b + 2)); [|done]; cbn.
  destruct (load (w_mem w) p (position b + 3)); [|done]; cbn.
  intros [= _ <- _]. split; cbn; [lia|done].
Qed.

Lemma get_bytes_ptr_forward b n : 0 <= n -> yields (lift (ob_get_bytes_ptr b n)) (fun '(_, b') => forward b b').
Proof.
  intros Hn w [x b'] w'. unfold lift, ob_get_bytes_ptr. destruct (test_offset _ _ _) as [t|]; [|done]. cbn.
  destruct (negb (t =? 0)); cbn; intros [= _ <- _]; [done|]. split; cbn; [lia|done].
Qed.

Section reading.
Context `{Allocator}.
Context (gettime_ms : nat -> Z) (my_subscriber : option nat).

Lemma find_subscr_buffer_forward c b len v :
  yields (find_subscr_buffer gettime_ms my_subscriber c b len v) (fun '(_, _, b', _) => forward b b').
Proof.
  unfold find_subscr_buffer. destruct (_ || _) eqn:E; [by apply yields_ret|].
  apply orb_false_iff in E as [E%Z.leb_gt _].
  eapply yields_bind; [apply get_bytes_ptr_forward; lia|]. intros [id b'] Hf.
  destruct id as [p|]; [|by apply yields_ret]. destruct v as [v|]; [|by apply yields_ret].
  apply yields_any. intros id. apply yields_any. intros [i|]; [by apply yields_ret|].
  apply yields_any. intros c1. apply yields_any. intros [? c2]. apply yields_any. intros [? c3]. by apply yields_ret.
Qed.

Lemma overlay_address_parse_forward c b v :
  yields (overlay_address_parse gettime_ms my_subscriber c b v) (fun '(_, _, b', _) => forward b b').
Proof.
  unfold overlay_address_parse. eapply yields_bind; [apply get_byte_forward|]. intros [len b1] [Hf _].
  destruct (len <? 0); [by apply yields_ret|].
  destruct (len =? OA_CODE_SELF).
  { destruct (sender c); [|by apply yields_ret]. destruct v; [by apply yields_ret|done]. }
  destruct (len =? OA_CODE_PREVIOUS).
  { destruct (previous c); [|by apply yields_ret]. destruct v; [by apply yields_ret|done]. }
  intros w [[[r c'] b'] v'] w' E. apply find_subscr_buffer_forward in E. by etransitivity.
Qed.

Lemma read_address_forward present c b :
  yields (read_address gettime_ms my_subscriber present c b) (fun '(_, _, _, b') => forward b b').
Proof.
  unfold read_address. destruct present; [|by apply yields_ret].
  eapply yields_bind; [apply overlay_address_parse_forward|]. intros [[[r c'] b'] v'] Hf. by apply yields_ret.
Qed.

Lemma read_ack_forward flags b : yields (read_ack flags b) (fun '(_, _, _, b') => forward b b').
Proof.
  unfold read_ack. destruct (has flags FLAG_HAS_ACK); [|by apply yields_ret].
  eapply yields_bind; [apply get_byte_forward|]. intros [seq b1] [F1 _].
  eapply yields_bind; [apply get_ui32_forward|]. intros [mask b2] F2. apply yields_ret. by etransitivity.
Qed.

(** A record that does not end the loop moves the position. *)
Definition record_moves (b : overlay_buffer) (r : read_result * decode_context * overlay_buffer) : Prop :=
  r.1.1 <> Break -> position b < position r.2 /\ sizeLimit r.2 = sizeLimit b.

Lemma read_link_record_forward c b : yields (read_link_record gettime_ms my_subscriber c b) (record_moves b).
Proof.
  unfold read_link_record.
  assert (Hbreak : forall c1 b1, yields (mret (Break, c1, b1)) (record_moves b)).
  { intros c1 b1. by apply yields_ret. }
  eapply yields_bind; [apply get_byte_forward|]. intros [len b1] [F1 P1].
  destruct (Z.leb_spec len 0) as [?|Hlen]; [done|]. specialize (P1 ltac:(lia)).
  eapply yields_bind; [apply get_byte_forward|]. intros [flags b2] [F2 _]. destruct (flags <? 0); [done|].
  eapply yields_bind; [apply read_address_forward|]. intros [[[r receiver] c3] b3] F3. destruct (negb (r =? 0)); [done|].
  eapply yields_bind; [apply get_byte_forward|]. intros [version b4] [F4 _]. destruct (version <? 0); [done|].
  eapply yields_bind; [apply read_address_forward|]. intros [[[r' tx] c5] b5] F5. destruct (negb (r' =? 0)); [done|].
  assert (F15 : forward b1 b5) by (do 3 (etransitivity; [eassumption|]); done).
  eapply (yields_bind _ _ (fun '(_, b') => forward b1 b')).
  { destruct (has flags FLAG_HAS_INTERFACE); [|by apply yields_ret].
    intros w [x b'] w' E. apply get_byte_forward in E as [E _]. by etransitivity. }
  intros [iface b6] F6. destruct (_ && _); [done|].
  destruct (16 <=? iface).
  { apply yields_ret. intros _. destruct F1, F6. cbn. split; [lia|congruence]. }
  eapply yields_bind; [apply read_ack_forward|]. intros [[[seq mask] dr] b7] F7.
  eapply (yields_bind _ _ (fun '(_, b') => forward b7 b')).
  { destruct (has flags FLAG_HAS_DROP_RATE); [|by apply yields_ret].
    intros w [x b'] w' E. by apply get_byte_forward in E as [E _]. }
  intros [drop b8] F8. destruct (drop <? 0); [done|].
  eapply (yields_bind _ _ (fun p => p = ob_position b + len)).
  { intros w p w'. unfold lift. destruct (ci _) as [q|] eqn:E; [|done]. apply ci_inv in E as [-> _]. by intros [= <- _]. }
  intros p ->. unfold ob_position.
  assert (forall res, record_moves b (res, c5, set_position b8 (position b + len))) as Hm.
  { intros res _. cbn. destruct F1, F6, F7, F8. split; [lia|congruence]. }
  destruct (invalid_addresses c5); by apply yields_ret.
Qed.

Context (char_signed : bool) (overlay_interfaces : list overlay_interface).

Abbreviation loop := (receive_loop gettime_ms char_signed my_subscriber overlay_interfaces).

Lemma receive_loop_spec stuck stuck' fuel : forall fuel' id sender t_now c b changed w,
  sizeLimit b - position b <= Z.of_nat fuel -> sizeLimit b - position b <= Z.of_nat fuel' ->
  loop stuck fuel id sender t_now c b changed w = loop stuck' fuel' id sender t_now c b changed w.
Proof.
  induction fuel as [|fuel IH]; intros fuel' id sender t_now c b changed w Hf Hf'; destruct fuel' as [|fuel'];
    cbn [receive_loop]; unfold r_lift, ob_remaining at 1 2; unfold mbind, RM_bind, option_bind;
    destruct (ci (sizeLimit b - position b)) as [rest|] eqn:E; try done; apply ci_inv in E as [-> _];
    (destruct (Z.leb_spec (sizeLimit b - position b) 0) as [Hle|Hgt]; [done|]); try lia.
  unfold base. destruct (read_link_record gettime_ms my_subscriber c b (rw w)) as [[[[res c1] b1] w1]|] eqn:E; [|done].
  cbn. destruct res as [| |r]; [done| |];
    (destruct (read_link_record_forward c b _ _ _ E) as [Hp Hl]; [done|]; cbn in Hp, Hl; rewrite <-Hl in Hf, Hf').
  - apply IH; lia.
  - destruct (apply_record _ _ _ _ _ _ _ _) as [[ch w2]|]; [|done]. apply IH; lia.
Qed.
End reading.

(** Whatever the bytes of a link state message, the loop over its records makes at most as
    many passes as the message has bytes: what would happen after that makes no difference. *)
Theorem link_receive_terminates `{Allocator} gettime_ms char_signed my_subscriber overlay_interfaces stuck stuck' fuel
    id sender t_now c b changed w (Hfuel : sizeLimit b - position b <= Z.of_nat fuel) :
  receive_loop gettime_ms char_signed my_subscriber overlay_interfaces stuck fuel id sender t_now c b changed w =
  receive_loop gettime_ms char_signed my_subscriber overlay_interfaces stuck' fuel id sender t_now c b changed w.
Proof. by apply receive_loop_spec. Qed.

Lemma link_receive_terminates_witness :
  receive_loop (fun _ => 0) true (Some 0%nat) [] r_undefined 2 10 1 0 context_zero
    (mk_ob (Some (mkptr 1 0)) 0 0 2 2 None 0) false (set_rw demo_rworld world1) =
  receive_loop (fun _ => 0) true (Some 0%nat) [] (mret (true, context_zero, ob_zero)) 2 10 1 0 context_zero
    (mk_ob (Some (mkptr 1 0)) 0 0 2 2 None 0) false (set_rw demo_rworld world1).
Proof. apply link_receive_terminates. vm_compute. discriminate. Defined.

(** ** A link keeps its parent when its transmitter changes *)

Lemma route_two me n st i a l h d :
  st !! n = Some a -> transmitter a = Some me -> st !! i = Some l -> transmitter l = Some n -> n <> me -> i <> n ->
  h = 2 -> d = loss a + loss l -> reported me n st i h d.
Proof.
  intros Ha Hta Hl Htl Hn Hi -> ->. change 2 with (1 + 1). eapply reported_next; try done. by apply reported_first.
Qed.

(** The neighbour 1 reports the path 1, 2, 3. *)
Definition chain_nb : neighbour :=
  mk_neighbour 10 (mk_table 1 1 (Branch Leaf 1 (Branch Leaf 2 (Branch Leaf 3 Leaf)))
    {[1%nat := demo_link 0 0; 2%nat := demo_link 1 0; 3%nat := demo_link 2 0]})
    100 false 0 (-1) 0 0 0 (-1) 120 0 [] None false.
Definition chain_world : rworld := set_neighbours demo_rworld [chain_nb].

Abbreviation find3 := (find_best (fun _ => 50) true (Some 0%nat) None [] false 3).

(** The route to 3 is worked out; then 1 reports that it hears 3 itself, and no longer 2. *)
Definition chain_changes : RM unit :=
  _ ← find3;
  _ ← apply_record true (Some 0%nat) [] 10 1 (mk_record (Some 3%nat) (Some 1%nat) 2 (-1) (-1) 0 0) 50;
  _ ← apply_record true (Some 0%nat) [] 10 1 (mk_record (Some 2%nat) None 2 (-1) (-1) 0 0) 50;
  links_changed true 10 50.

(** After a link got a new transmitter its path is still scored through the old one: the
    neighbour has a path of two hops to 3, but 3 is marked as unreachable. *)
Theorem stale_parent_unreachable :
  exists w1 w2 n s x, chain_changes chain_world = Some (tt, w1) /\ find3 w1 = Some (0, w2) /\
    n ∈ neighbours w2 /\ 50 <= neighbour_link_timeout n /\ reported 0 1 (t_store (n_table n)) 3 2 0 /\
    next_hops w2 1 = Some (n_subscriber n) /\
    state_of w2 3 = Some s /\ s_route_version s = route_version w2 /\ s_next_hop s = None /\
    subs_of w2 !! 3%nat = Some x /\ reachable x = REACHABLE_NONE.
Proof.
  destruct (chain_changes chain_world) as [[[] w1]|] eqn:E1; [|by vm_compute in E1].
  vm_compute in E1. injection E1 as <-.
  eexists _, _, _, _, _. split; [reflexivity|]. split; [vm_compute; reflexivity|].
  split; [left; reflexivity|]. split; [cbn; lia|]. split; [|vm_compute; auto 10].
  by eapply route_two; vm_compute.
Qed.

(** ** Links that expire *)

(** A link over which we still hear the neighbour. *)
Definition live (ifaces : list overlay_interface) (t_now : Z) (l : neighbour_link) : Prop :=
  t_now <= link_timeout l /\ exists i, ifaces !! nl_interface l = Some i /\ if_state i = INTERFACE_STATE_UP.

Definition liveb (ifaces : list overlay_interface) (t_now : Z) (l : neighbour_link) : bool :=
  match ifaces !! nl_interface l with
  | Some i => negb (negb (if_state i =? INTERFACE_STATE_UP) || (link_timeout l <? t_now))
  | None => false
  end.

Lemma liveb_spec ifaces t_now l : liveb ifaces t_now l = true <-> live ifaces t_now l.
Proof.
  unfold liveb, live. destruct (ifaces !! nl_interface l) as [i|]; [|by split; [|intros (_ & i & ? & _)]].
  rewrite negb_orb, negb_involutive, andb_true_iff, negb_true_iff, Z.eqb_eq, Z.ltb_ge. naive_solver.
Qed.

Section expiry.
Context (ifaces : list overlay_interface) (t_now : Z).

(** The interfaces of links exist. *)
Definition on_interfaces (l : list neighbour_link) : Prop := Forall (fun k => is_Some (ifaces !! nl_interface k)) l.

Lemma live_links_spec l w (Q : list neighbour_link -> rworld -> Prop) :
  on_interfaces l -> Q (filter (fun k => liveb ifaces t_now k = true) l) w ->
  runs (live_links ifaces t_now l) w Q.
Proof.
  intros Hi. revert Q. induction Hi as [|k l [i Hk] Hl IH]; intros Q HQ; [by apply runs_ret|].
  assert (E : liveb ifaces t_now k = negb (negb (if_state i =? INTERFACE_STATE_UP) || (link_timeout k <? t_now)))
    by (unfold liveb; by rewrite Hk).
  cbn [live_links]. apply runs_bind, (runs_lift _ i); [done|].
  apply runs_bind. apply IH. apply runs_ret. rewrite filter_cons in HQ.
  destruct (negb _ || _), (decide (liveb ifaces t_now k = true)); cbn in E; congruence.
Qed.

(** A neighbour without its dead links. *)
Definition cleaned (n : neighbour) : neighbour := set_links n (filter (fun k => liveb ifaces t_now k = true) (n_links n)).

Definition survives (n : neighbour) : Prop := Exists (live ifaces t_now) (n_links n).

Lemma survives_spec n : n_links (cleaned n) <> [] <-> survives n.
Proof.
  unfold survives. cbn. rewrite Exists_exists. split.
  - intros Hne. destruct (filter _ (n_links n)) as [|k l] eqn:E; [done|].
    assert (k ∈ filter (fun k => liveb ifaces t_now k = true) (n_links n)) as Hk by (rewrite E; set_solver).
    apply list_elem_of_filter in Hk as [Hk1 Hk2]. exists k. by rewrite <-liveb_spec.
  - intros (k & Hk & Hl) E. apply liveb_spec in Hl.
    assert (k ∈ filter (fun k => liveb ifaces t_now k = true) (n_links n)) as Hin by (by apply list_elem_of_filter).
    rewrite E in Hin. set_solver.
Qed.

(** The neighbours that are left. *)
Definition survivors (l : list neighbour) : list neighbour := filter (fun n => n_links n <> []) (cleaned <$> l).

(** We route through neighbour [n], in state [s], but have lost it. *)
Definition lost (n : neighbour) (s : link_state) : Prop :=
  s_next_hop s = Some (n_subscriber n) /\ (~ survives n \/ neighbour_link_timeout n < t_now).

(** What cleaning guarantees of the versions: they only grow, and the routes through the
    lost ones of the neighbours [l] are out of date. *)
Record outdated (l : list neighbour) (w w' : rworld) : Prop := {
  od_version : route_version w <= route_version w' <= route_version w + Z.of_nat (length l);
  od_states j s : state_of w j = Some s -> state_of w' j = Some s;
  od_lost n s : n ∈ l -> lost n s -> state_of w (n_subscriber n) = Some s ->
    s_route_version s <= route_version w -> s_route_version s < route_version w'
}.

Lemma outdated_cons n l w1 w2 w3 : outdated [n] w1 w2 -> outdated l w2 w3 -> outdated (n :: l) w1 w3.
Proof.
  intros [V1 S1 L1] [V2 S2 L2]. cbn [length] in *. split; [cbn [length]; lia|auto|].
  intros m s [->|Hm]%elem_of_cons Hl Hs Hv.
  - pose proof (L1 n s ltac:(set_solver) Hl Hs Hv). lia.
  - apply (L2 m); auto. lia.
Qed.

Lemma runs_link_state i w (Q : link_state -> rworld -> Prop) :
  INT_MIN < route_version w <= INT_MAX ->
  (forall s w', neighbours w' = neighbours w -> route_version w' = route_version w ->
    (forall j s', state_of w j = Some s' -> state_of w' j = Some s') -> state_of w' i = Some s -> Q s w') ->
  runs (get_link_state i) w Q.
Proof.
  intros Hv HQ. unfold get_link_state. apply runs_bind, runs_get_route.
  change (sub_link_state (sub_of w i)) with (state_of w i).
  destruct (state_of w i) as [s|] eqn:Hs; [by apply runs_ret, HQ|].
  apply runs_bind, runs_gets, runs_bind, (runs_lift _ (route_version w - 1)); [apply ci_Some; lia|].
  apply runs_bind, runs_put_state, runs_ret, HQ; try done.
  - intros j s' Hj. rewrite state_with_state. destruct (decide (i = j)) as [<-|]; [congruence|done].
  - rewrite state_with_state. by rewrite decide_True.
Qed.

Lemma remove_middle D n R :
  NoDup (n_id <$> D ++ n :: R) -> filter (fun m => n_id m <> n_id n) (D ++ cleaned n :: R) = D ++ R.
Proof.
  rewrite fmap_app, fmap_cons, NoDup_app, NoDup_cons. intros (_ & HD & HR & _).
  assert (K : forall l : list neighbour, (n_id n ∉ (n_id <$> l)) -> filter (fun m => n_id m <> n_id n) l = l).
  { induction l as [|m l IH]; [done|]. rewrite fmap_cons, not_elem_of_cons. intros [Hm Hl].
    rewrite filter_cons, decide_True by auto. by rewrite IH. }
  rewrite filter_app, filter_cons, decide_False by (cbn; auto). rewrite !K; auto.
  intros Hin. eapply HD; [done|]. set_solver.
Qed.

Lemma put_middle D n R :
  NoDup (n_id <$> D ++ n :: R) -> put_in (cleaned n) (D ++ n :: R) = D ++ cleaned n :: R.
Proof.
  rewrite fmap_app, fmap_cons, NoDup_app, NoDup_cons. intros (_ & HD & HR & _).
  assert (K : forall l : list neighbour, (n_id n ∉ (n_id <$> l)) -> put_in (cleaned n) l = l).
  { induction l as [|m l IH]; [done|]. rewrite fmap_cons, not_elem_of_cons. intros [Hm Hl].
    cbn. rewrite bool_decide_false by auto. f_equal. by apply IH. }
  unfold put_in in *. rewrite fmap_app, fmap_cons. cbn [n_id cleaned set_links].
  rewrite bool_decide_true by done. rewrite !K; auto.
  intros Hin. eapply HD; [done|]. set_solver.
Qed.

Lemma clean_neighbour_spec D n R w :
  neighbours w = D ++ n :: R -> NoDup (n_id <$> neighbours w) -> on_interfaces (n_links n) ->
  INT_MIN < route_version w < INT_MAX ->
  runs (clean_neighbour ifaces t_now (n_id n)) w (fun _ w' =>
    neighbours w' = D ++ survivors [n] ++ R /\ outdated [n] w w').
Proof.
  intros Hw Hnd Hi Hv. rewrite Hw in Hnd. unfold clean_neighbour.
  apply runs_bind, (runs_get_nb _ n); [rewrite Hw; apply find_nb_elem; [done|set_solver|done]|].
  apply runs_bind, live_links_spec; [done|]. fold (cleaned n). apply runs_bind, runs_put_nb.
  rewrite Hw, put_middle by done. apply runs_bind, runs_link_state; [cbn; lia|].
  intros s w1 Hn1 Hv1 Hs1 Hs. cbn in Hn1, Hv1. apply runs_bind, runs_gets, runs_bind.
  change (filter (fun k => liveb ifaces t_now k = true) (n_links n)) with (n_links (cleaned n)).
  set (c := bool_decide (s_next_hop s = Some (n_subscriber n)) && _ && _).
  assert (Hc : forall s', state_of w (n_subscriber n) = Some s' -> lost n s' -> s_route_version s' <= route_version w ->
            s_route_version s' < route_version w + if c then 1 else 0).
  { intros s' Hs' [Hh Hd] Hle. apply Hs1 in Hs'. assert (s' = s) as -> by congruence.
    destruct c eqn:Ec; [lia|]. unfold c in Ec. rewrite bool_decide_true in Ec by done. cbn [andb] in Ec.
    assert (E : (neighbour_link_timeout n <? t_now) || bool_decide (n_links (cleaned n) = []) = true).
    { apply orb_true_iff. destruct Hd as [Hd|Hd]; [right|left; lia]. apply bool_decide_eq_true.
      destruct (decide (n_links (cleaned n) = [])) as [|H']; [done|]. by apply survives_spec in H'. }
    rewrite E in Ec. cbn [andb] in Ec. rewrite Hv1 in Ec. lia. }
  assert (Hr : runs (if c then v ← r_lift (ci (route_version w1 + 1)); puts (fun w => set_route_version w v) else mret tt) w1
      (fun _ w2 => neighbours w2 = neighbours w1 /\ r_subs w2 = r_subs w1 /\ route_version w2 = route_version w + if c then 1 else 0)).
  { destruct c; [|apply runs_ret; split_and!; (done || lia)].
    apply runs_bind, (runs_lift _ (route_version w1 + 1)); [apply ci_Some; lia|].
    apply runs_puts. split_and!; cbn; (done || lia). }
  eapply runs_mono; [exact Hr|]. intros [] w2 (Hn2 & Hs2 & Hv2).
  assert (Ho : forall w3, r_subs w3 = r_subs w2 -> route_version w3 = route_version w2 -> outdated [n] w w3).
  { intros w3 E1 E2. split.
    - cbn. destruct c; lia.
    - intros j s' Hj. apply Hs1 in Hj. unfold state_of, sub_of in *. by rewrite E1, Hs2.
    - intros m s' ->%list_elem_of_singleton Hl Hs' Hle. specialize (Hc s' Hs' Hl Hle). lia. }
  unfold survivors. cbn [fmap list_fmap]. rewrite filter_cons, filter_nil. case_bool_decide as El.
  - apply runs_puts. rewrite decide_False by auto. split; [|by apply Ho].
    cbn. rewrite Hn2, Hn1. by apply remove_middle.
  - apply runs_ret. rewrite decide_True by done. split; [|by apply Ho]. by rewrite Hn2, Hn1.
Qed.

Lemma clean_each_spec R : forall D w,
  neighbours w = D ++ R -> NoDup (n_id <$> neighbours w) -> Forall (fun n => on_interfaces (n_links n)) R ->
  INT_MIN < route_version w -> route_version w + Z.of_nat (length R) <= INT_MAX ->
  runs (each (clean_neighbour ifaces t_now) (n_id <$> R)) w (fun _ w' =>
    neighbours w' = D ++ survivors R /\ outdated R w w').
Proof.
  induction R as [|n R IH]; intros D w Hw Hnd Hi Hv1 Hv2.
  { apply runs_ret. split; [by rewrite Hw|]. split; [cbn; lia|done|set_solver]. }
  apply Forall_cons in Hi as [Hn Hi]. cbn [length] in Hv2. cbn [fmap list_fmap each]. apply runs_bind.
  eapply runs_mono; [by apply (clean_neighbour_spec D n R); [..|lia]|].
  intros _ w1 [Hw1 O1]. pose proof (od_version _ _ _ O1) as Hv. cbn in Hv.
  rewrite (app_assoc D) in Hw1. eapply runs_mono; [apply (IH (D ++ survivors [n])); [done| |done|lia|lia]|].
  - rewrite Hw1. rewrite Hw in Hnd. revert Hnd. rewrite !fmap_app, fmap_cons.
    unfold survivors. rewrite list_fmap_singleton, filter_cons, filter_nil. destruct (decide _); cbn [fmap list_fmap app];
      rewrite <-app_assoc; [done|]. cbn [app]. rewrite !NoDup_app, NoDup_cons. set_solver.
  - intros _ w2 [Hw2 O2]. split; [|by eapply outdated_cons].
    rewrite Hw2, <-app_assoc. unfold survivors. by rewrite <-filter_app, <-fmap_app.
Qed.

Lemma clean_neighbours_spec w :
  NoDup (n_id <$> neighbours w) -> Forall (fun n => on_interfaces (n_links n)) (neighbours w) ->
  INT_MIN < route_version w -> route_version w + Z.of_nat (length (neighbours w)) <= INT_MAX ->
  runs (clean_neighbours ifaces t_now) w (fun _ w' =>
    neighbours w' = survivors (neighbours w) /\ outdated (neighbours w) w w').
Proof. intros. unfold clean_neighbours. apply runs_bind, runs_gets. by apply (clean_each_spec _ []). Qed.

Lemma survivors_live l n : n ∈ survivors l -> n_links n <> [] /\ Forall (live ifaces t_now) (n_links n).
Proof.
  intros [Hn (m & -> & Hm)%list_elem_of_fmap]%list_elem_of_filter. split; [done|].
  apply Forall_forall. intros k [Hk _]%list_elem_of_filter. by apply liveb_spec.
Qed.

Lemma survivors_kept l n k : n ∈ l -> k ∈ n_links n -> live ifaces t_now k ->
  exists m, m ∈ survivors l /\ n_id m = n_id n /\ k ∈ n_links m.
Proof.
  intros Hn Hk Hl. assert (Hc : k ∈ n_links (cleaned n)) by (apply list_elem_of_filter; by rewrite liveb_spec).
  exists (cleaned n). split; [|done]. apply list_elem_of_filter. split; [by intros E; rewrite E in Hc; set_solver|].
  by apply list_elem_of_fmap_2.
Qed.
End expiry.

(** [C27] Cleaning ends and forgets exactly what we no longer hear: all links of the neighbours that
    are left are live, every neighbour has one, no live link is lost, and a route that went
    straight to a neighbour we have lost is out of date, so that the next use works it out anew. *)
Theorem clean_neighbours_correct ifaces t_now w :
  NoDup (n_id <$> neighbours w) -> Forall (fun n => on_interfaces ifaces (n_links n)) (neighbours w) ->
  INT_MIN < route_version w -> route_version w + Z.of_nat (length (neighbours w)) <= INT_MAX ->
  exists w', clean_neighbours ifaces t_now w = Some (tt, w') /\
    Forall (fun n => n_links n <> [] /\ Forall (live ifaces t_now) (n_links n)) (neighbours w') /\
    (forall n k, n ∈ neighbours w -> k ∈ n_links n -> live ifaces t_now k ->
       exists m, m ∈ neighbours w' /\ n_id m = n_id n /\ k ∈ n_links m) /\
    (forall n s, n ∈ neighbours w -> lost ifaces t_now n s -> state_of w (n_subscriber n) = Some s ->
       s_route_version s <= route_version w -> s_route_version s < route_version w').
Proof.
  intros Hnd Hi Hv1 Hv2. destruct (clean_neighbours_spec ifaces t_now w Hnd Hi Hv1 Hv2) as ([] & w' & Hr & Hn & O).
  exists w'. split; [done|]. rewrite Hn. split; [apply Forall_forall; intros n; apply survivors_live|].
  split; [intros n k; apply survivors_kept|apply O].
Qed.

(** The neighbour 1 is heard on interfaces 0 and 1, 2 only on interface 1, which is down; the
    routes to both are direct. *)
Definition up_interface : overlay_interface := mk_interface INTERFACE_STATE_UP 0 500 0.
Definition down_interface : overlay_interface := mk_interface 0 0 500 0.
Definition demo_nlink (id i : nat) : neighbour_link := mk_nlink id 0 i 100 0 (-1) 0.
Definition direct_state (i : nat) : link_state := mk_state (Some i) (Some 0%nat) 1 5 None false 0.
Definition two_links_world : rworld :=
  with_state (with_state (set_neighbours demo_rworld
    [set_links (demo_nb 10 1 0) [demo_nlink 20 0; demo_nlink 21 1]; set_links (demo_nb 11 2 0) [demo_nlink 22 1]])
    1 (direct_state 1)) 2 (direct_state 2).

Lemma clean_neighbours_correct_witness :
  exists w', clean_neighbours [up_interface; down_interface] 50 two_links_world = Some (tt, w') /\
    Forall (fun n => n_links n <> [] /\ Forall (live [up_interface; down_interface] 50) (n_links n)) (neighbours w') /\
    (forall n k, n ∈ neighbours two_links_world -> k ∈ n_links n -> live [up_interface; down_interface] 50 k ->
       exists m, m ∈ neighbours w' /\ n_id m = n_id n /\ k ∈ n_links m) /\
    (forall n s, n ∈ neighbours two_links_world -> lost [up_interface; down_interface] 50 n s ->
       state_of two_links_world (n_subscriber n) = Some s ->
       s_route_version s <= route_version two_links_world -> s_route_version s < route_version w').
Proof.
  apply clean_neighbours_correct.
  - cbn. repeat constructor; set_solver.
  - repeat constructor; vm_compute; eauto.
  - vm_compute. reflexivity.
  - vm_compute. discriminate.
Defined.

Example two_links_cleaned :
  ('(_, w) ← clean_neighbours [up_interface; down_interface] 50 two_links_world;
   Some ((fun n => (n_id n, nl_id <$> n_links n)) <$> neighbours w, route_version w)) = Some ([(10, [20])]%nat, 6).
Proof. vm_compute. reflexivity. Qed.

(** ** The best link of a neighbour *)

Lemma dangling_read ifaces t_now n k :
  NoDup (nl_id <$> n_links n) -> k ∈ n_links n -> ~ live ifaces t_now k ->
  find_nlink (nl_id k) (cleaned ifaces t_now n) = None.
Proof.
  intros Hnd Hk Hd. unfold find_nlink. apply fmap_None, list_find_None. apply Forall_forall.
  intros l [Hl Hin]%list_elem_of_filter E. apply liveb_spec in Hl. destruct Hd.
  apply list_elem_of_lookup in Hk as [i Hi]. apply list_elem_of_lookup in Hin as [j Hj].
  assert (i = j) as <- by (eapply (NoDup_lookup _ _ _ (nl_id k)); [done|..]; rewrite list_lookup_fmap;
    [by rewrite Hi|by rewrite Hj; cbn; f_equal]).
  by simplify_eq.
Qed.

(** When the link [best_link] points to is freed and the neighbour has another one that lives,
    [best_link] keeps pointing to the freed link: the next question which interfaces have a
    neighbour reads it. *)
Theorem best_link_dangles ifaces t_now w n R k iface :
  NoDup (n_id <$> neighbours w) -> Forall (fun n => on_interfaces ifaces (n_links n)) (neighbours w) ->
  INT_MIN < route_version w -> route_version w + Z.of_nat (length (neighbours w)) <= INT_MAX ->
  neighbours w = n :: R -> NoDup (nl_id <$> n_links n) -> survives ifaces t_now n ->
  k ∈ n_links n -> best_link n = Some (nl_id k) -> ~ live ifaces t_now k ->
  exists w', clean_neighbours ifaces t_now w = Some (tt, w') /\ link_state_interface_has_neighbour iface w' = None.
Proof.
  intros Hnd Hi Hv1 Hv2 Hw Hl Hs Hk Hb Hd.
  destruct (clean_neighbours_spec ifaces t_now w Hnd Hi Hv1 Hv2) as ([] & w' & Hr & Hn & _).
  exists w'. split; [done|]. rewrite Hw in Hn. unfold survivors in Hn.
  rewrite fmap_cons, filter_cons, decide_True in Hn by (by apply survives_spec).
  change (any_neighbour (interface_has_neighbour iface) (neighbours w') w' = None). rewrite Hn. cbn [any_neighbour].
  assert (E : interface_has_neighbour iface (cleaned ifaces t_now n) w' = None).
  { unfold interface_has_neighbour. change (best_link (cleaned ifaces t_now n)) with (best_link n).
    rewrite Hb. unfold get_nlink. by rewrite dangling_read. }
  unfold mbind, RM_bind. by rewrite E.
Qed.

Definition dangling_world : rworld :=
  set_neighbours demo_rworld [set_best_link (set_links (demo_nb 10 1 0) [demo_nlink 20 0; demo_nlink 21 1]) (Some 21%nat)].

(** While both interfaces are up, [neighbour_find_best_link] does choose the link 21, if its
    interface is the faster one. *)
Example dangling_world_reachable :
  ('(_, w) ← neighbour_find_best_link (fun _ => 50) [mk_interface INTERFACE_STATE_UP 3 500 0; up_interface] 10
     (set_neighbours demo_rworld [set_links (demo_nb 10 1 0) [demo_nlink 20 0; demo_nlink 21 1]]);
   Some (best_link <$> neighbours w)) = Some [Some 21%nat].
Proof. vm_compute. reflexivity. Qed.

Lemma best_link_dangles_witness :
  exists w', clean_neighbours [up_interface; down_interface] 50 dangling_world = Some (tt, w') /\
    link_state_interface_has_neighbour 0 w' = None.
Proof.
  eapply (best_link_dangles _ _ dangling_world _ _ (demo_nlink 21 1)); try reflexivity.
  - cbn. repeat constructor; set_solver.
  - repeat constructor; vm_compute; eauto.
  - vm_compute. discriminate.
  - cbn. repeat constructor; set_solver.
  - apply Exists_cons_hd, liveb_spec. reflexivity.
  - cbn. set_solver.
  - intros H%liveb_spec. done.
Defined.
