(* ===== verification/Limit.v ===== *)
(** Limit: overlay_link.c, update_limit_state to limit_init.

    How many packets an interface may send: at most [burst_size] before [next_interval],
    then a new burst of [burst_length] milliseconds.  The theorem bounds what is sent in any
    span of time. *)

From S2P Require Import Prelude.

Definition MIN_BURST_LENGTH : Z := 5000.

Record limit_state := mk_limit {
  burst_length : Z;
  burst_size : Z;
  sent : Z;
  next_interval : Z
}.

Definition update_limit_state (s : limit_state) (now : Z) : limit_state :=
  if (now <? next_interval s) || (burst_size s =? 0) then s
  else mk_limit (burst_length s) (burst_size s) 0
         (if now <? next_interval s + burst_length s then next_interval s + burst_length s else now + burst_length s).

(** [now] is what gettime_ms returns. *)
Definition limit_next_allowed (now : Z) (s : limit_state) : Z * limit_state :=
  let s := update_limit_state s now in
  (if sent s <? burst_size s then now else next_interval s, s).

Definition limit_is_allowed (now : Z) (s : limit_state) : Z * limit_state :=
  let s := update_limit_state s now in
  if burst_size s <=? sent s then (-1, s)
  else (0, mk_limit (burst_length s) (burst_size s) (sent s + 1) (next_interval s)).

(** The quotient by 1000.0 is exact enough to be cut off to the integer one. *)
Definition limit_init (s : limit_state) (rate_micro_seconds : Z) : option limit_state :=
  if rate_micro_seconds =? 0 then Some (mk_limit (burst_length s) 0 (sent s) (next_interval s))
  else
    let size := Z.quot MIN_BURST_LENGTH rate_micro_seconds + 1 in
    total ← ci (size * rate_micro_seconds);
    Some (mk_limit (Z.quot total 1000) size (sent s) (next_interval s)).

(** ** How much is sent *)

(** Calls at the times [ts]: how many are allowed, and the state after them. *)
Fixpoint allowed (ts : list Z) (s : limit_state) : Z * limit_state :=
  match ts with
  | [] => (0, s)
  | t :: ts =>
      let '(r, s) := limit_is_allowed t s in
      let '(n, s) := allowed ts s in
      (if r =? 0 then n + 1 else n, s)
  end.

(** Bursts are limited, and take time. *)
Record limit_wf (s : limit_state) : Prop := {
  lw_size : 0 <= sent s <= burst_size s;
  lw_length : 0 < burst_length s
}.

(** The bursts that can begin before [T], and what can be sent before [T]. *)
Definition bursts_before (s : limit_state) (T : Z) : Z :=
  if T <=? next_interval s then 0 else 1 + (T - 1 - next_interval s) / burst_length s.
Definition credit (s : limit_state) (T : Z) : Z := burst_size s - sent s + burst_size s * bursts_before s T.

Lemma bursts_nonneg s T : limit_wf s -> 0 <= bursts_before s T.
Proof.
  intros [_ Hl]. unfold bursts_before. destruct (T <=? next_interval s) eqn:E; [lia|].
  assert (0 <= (T - 1 - next_interval s) / burst_length s) by (apply Z.div_pos; lia). lia.
Qed.

Lemma update_wf s t : limit_wf s -> limit_wf (update_limit_state s t).
Proof. intros [H1 H2]. unfold update_limit_state. destruct (_ || _); split; cbn; lia. Qed.

Lemma update_next s t : limit_wf s -> burst_size s <> 0 -> t < next_interval (update_limit_state s t).
Proof.
  intros [H1 H2] Hb. unfold update_limit_state. destruct (t <? next_interval s) eqn:E1; [cbn; lia|].
  destruct (burst_size s =? 0) eqn:E2; [lia|]. cbn [orb next_interval]. destruct (t <? next_interval s + burst_length s) eqn:E3; lia.
Qed.

(** A new burst uses up one of those counted. *)
Lemma update_credit s t T : limit_wf s -> t < T -> credit (update_limit_state s t) T <= credit s T.
Proof.
  intros W HT. pose proof W as [H1 H2]. unfold update_limit_state.
  destruct (t <? next_interval s) eqn:E1; [cbn; lia|]. destruct (burst_size s =? 0) eqn:E2; [cbn; lia|].
  cbn [orb].
  set (n := if t <? next_interval s + burst_length s then next_interval s + burst_length s else t + burst_length s).
  assert (Hn : next_interval s + burst_length s <= n) by (unfold n; destruct (t <? next_interval s + burst_length s) eqn:?; lia).
  unfold credit, bursts_before. cbn [burst_size sent next_interval burst_length].
  destruct (T <=? next_interval s) eqn:E3; [lia|].
  assert (D : (T - 1 - next_interval s) / burst_length s = (T - 1 - (next_interval s + burst_length s)) / burst_length s + 1).
  { replace (T - 1 - next_interval s) with (T - 1 - (next_interval s + burst_length s) + 1 * burst_length s) by lia.
    by rewrite Z.div_add by lia. }
  assert (0 <= (T - 1 - next_interval s) / burst_length s) by (apply Z.div_pos; lia).
  destruct (T <=? n) eqn:E4; [nia|].
  assert ((T - 1 - n) / burst_length s <= (T - 1 - (next_interval s + burst_length s)) / burst_length s)
    by (apply Z.div_le_mono; lia).
  nia.
Qed.

Lemma is_allowed_credit s t T r s' : limit_wf s -> t < T -> limit_is_allowed t s = (r, s') ->
  limit_wf s' /\ burst_size s' = burst_size s /\ credit s' T + (if r =? 0 then 1 else 0) <= credit s T.
Proof.
  intros W HT. pose proof (update_credit s t T W HT) as Hc. pose proof (update_wf s t W) as W'.
  assert (Hb : burst_size (update_limit_state s t) = burst_size s) by (unfold update_limit_state; by destruct (_ || _)).
  unfold limit_is_allowed. destruct (burst_size _ <=? _) eqn:E; intros [= <- <-].
  - split; [done|]. split; [done|]. cbn. lia.
  - destruct W' as [H1 H2]. split; [split; cbn; lia|]. split; [done|]. cbn [Z.eqb].
    unfold credit, bursts_before in *. cbn [burst_size sent next_interval burst_length] in *. lia.
Qed.

Lemma allowed_credit ts : forall s T, limit_wf s -> Forall (fun t => t < T) ts ->
  fst (allowed ts s) <= credit s T /\ limit_wf (snd (allowed ts s)).
Proof.
  induction ts as [|t ts IH]; intros s T W Ht.
  { split; [|done]. pose proof (bursts_nonneg s T W). destruct W as [[] ?]. cbn. unfold credit. nia. }
  apply Forall_cons in Ht as [H1 Ht]. cbn [allowed]. destruct (limit_is_allowed t s) as [r s1] eqn:E.
  destruct (is_allowed_credit s t T r s1 W H1 E) as (W1 & _ & Hc).
  specialize (IH s1 T W1 Ht). destruct (allowed ts s1) as [n s2]. cbn [fst snd] in *. destruct (r =? 0); split; (lia || apply IH).
Qed.

Lemma allowed_nonneg ts : forall s, 0 <= fst (allowed ts s).
Proof.
  induction ts as [|t ts IH]; intros s; [done|]. cbn [allowed]. destruct (limit_is_allowed t s) as [r s1].
  specialize (IH s1). destruct (allowed ts s1) as [n s2]. cbn [fst] in *. destruct (r =? 0); lia.
Qed.

Lemma no_burst ts : forall s, limit_wf s -> burst_size s = 0 -> fst (allowed ts s) = 0.
Proof.
  induction ts as [|t ts IH]; intros s W Hb; [done|]. cbn [allowed].
  assert (E : limit_is_allowed t s = (-1, s)).
  { unfold limit_is_allowed, update_limit_state. rewrite Hb, orb_true_r. destruct W as [? _].
    by replace (burst_size s <=? sent s) with true by lia. }
  rewrite E. specialize (IH s W Hb). by destruct (allowed ts s).
Qed.

(** [C28] In a span of [k] times the length of a burst, whatever was sent before, at most [k + 1]
    bursts are sent: the interface keeps to its rate whenever packets are offered. *)
Theorem limit_rate s t0 k ts :
  limit_wf s -> 0 <= k -> Forall (fun t => t0 <= t < t0 + k * burst_length s) ts ->
  0 <= fst (allowed ts s) <= (k + 1) * burst_size s.
Proof.
  intros W Hk Ht. split; [apply allowed_nonneg|]. pose proof W as [Hs Hl].
  destruct ts as [|t ts]; [cbn; nia|]. set (T := t0 + k * burst_length s) in *.
  destruct (decide (burst_size s = 0)) as [Hb|Hb]; [rewrite (no_burst _ _ W Hb); nia|].
  (* the first call is like one in the state it brings up to date *)
  assert (E : allowed (t :: ts) s = allowed (t :: ts) (update_limit_state s t)).
  { cbn [allowed]. unfold limit_is_allowed. pose proof (update_next s t W Hb).
    replace (update_limit_state (update_limit_state s t) t) with (update_limit_state s t); [done|].
    unfold update_limit_state at 2. by replace (t <? next_interval (update_limit_state s t)) with true by lia. }
  rewrite E. pose proof (update_next s t W Hb) as Hn. pose proof (update_wf s t W) as W1.
  assert (Hb1 : burst_size (update_limit_state s t) = burst_size s /\ burst_length (update_limit_state s t) = burst_length s)
    by (unfold update_limit_state; by destruct (_ || _)).
  destruct Hb1 as [Hb1 Hl1]. set (s1 := update_limit_state s t) in *.
  assert (Hts : Forall (fun t => t < T) (t :: ts)) by (eapply Forall_impl; [exact Ht|]; cbn; lia).
  destruct (allowed_credit (t :: ts) s1 T W1 Hts) as [Hc _]. apply Forall_cons in Ht as [Ht _].
  assert (bursts_before s1 T <= k).
  { unfold bursts_before. destruct (T <=? next_interval s1) eqn:?; [lia|]. rewrite Hl1.
    assert ((T - 1 - next_interval s1) / burst_length s < k) by (apply Z.div_lt_upper_bound; nia). lia. }
  unfold credit in Hc. rewrite Hb1 in Hc. destruct W1 as [[] _]. nia.
Qed.

(** An interface with a packet every 1500 microseconds: bursts of 4 packets in 6 ms. *)
Definition demo_limit : limit_state := mk_limit 6 4 0 0.

Example demo_limit_init : limit_init (mk_limit 0 0 0 0) 1500 = Some demo_limit.
Proof. reflexivity. Qed.

Lemma limit_rate_witness : 0 <= fst (allowed (replicate 20 103 ++ replicate 20 105) demo_limit) <= (1 + 1) * 4.
Proof.
  apply (limit_rate demo_limit 100 1).
  - split; cbn; lia.
  - lia.
  - apply Forall_app. split; apply Forall_replicate; cbn; lia.
Defined.

(** Two bursts at the end of one interval and the start of the next do take place. *)
Example demo_limit_burst : fst (allowed (replicate 20 5 ++ replicate 20 6) (mk_limit 6 4 0 6)) = 8.
Proof. reflexivity. Qed.
