(* ===== verification/TxState.v ===== *)
(** TxState: what the transmit queues of overlay_queue.c work on, and the sending side of
    overlay_interface.c.

    Frames are cells of a heap, linked by the addresses of the frames before and after
    them; a frame that was freed is no longer in the heap.  The state of routing is that of
    [Route], and below it the directory, the memory and the clock of [OverlayAddress]. *)

From S2P Require Import Prelude CMem OverlayBuffer OverlayBufferCodec DataFormats Slip SubscriberTree OverlayAddress PacketFormats RouteLinks Route RouteOps Limit.

Definition OQ_ISOCHRONOUS_VOICE : Z := 0.
Definition OQ_ISOCHRONOUS_VIDEO : Z := 2.
Definition OQ_OPPORTUNISTIC : Z := 4.
Definition OQ_MAX : Z := 5.
Definition OVERLAY_MAX_INTERFACES : nat := 16.
Definition FRAME_NOT_SENT : Z := -1.
Definition FRAME_DONT_SEND : Z := -2.
Definition SOCK_STREAM : Z := 1.
Definition SOCK_DGRAM : Z := 2.
Definition SOCK_FILE : Z := 0xFF.
Definition INTERFACE_STATE_DOWN : Z := 2.
Definition TX_BUFFER_SIZE : Z := 2048.

(** ** Data *)

(** The fields of [struct overlay_interface] that sending uses; [ti_route] has those routing
    uses as well. *)
Record tx_interface := mk_tx {
  ti_route : overlay_interface;
  txbuffer : list Z;
  tx_bytes_pending : Z;
  socket_type : Z;
  ti_encapsulation : Z;
  send_broadcasts : bool;
  prefer_unicast : bool;
  default_route : bool;
  ti_last_tx : Z;
  sequence_number : Z;
  transfer_limit : limit_state;
  ti_address : Z;
  netmask : Z;
  mtu : Z
}.

Definition is_up (i : tx_interface) : bool := if_state (ti_route i) =? INTERFACE_STATE_UP.

Definition set_ti_state (i : tx_interface) (s : Z) : tx_interface :=
  let r := ti_route i in
  mk_tx (mk_interface s (if_type r) (tick_ms r) (broadcast_address r)) (txbuffer i) (tx_bytes_pending i)
    (socket_type i) (ti_encapsulation i) (send_broadcasts i) (prefer_unicast i) (default_route i) (ti_last_tx i)
    (sequence_number i) (transfer_limit i) (ti_address i) (netmask i) (mtu i).
Definition set_tx (i : tx_interface) (buffer : list Z) (pending : Z) : tx_interface :=
  mk_tx (ti_route i) buffer pending
    (socket_type i) (ti_encapsulation i) (send_broadcasts i) (prefer_unicast i) (default_route i) (ti_last_tx i)
    (sequence_number i) (transfer_limit i) (ti_address i) (netmask i) (mtu i).
Definition set_ti_last_tx (i : tx_interface) (t : Z) : tx_interface :=
  mk_tx (ti_route i) (txbuffer i) (tx_bytes_pending i)
    (socket_type i) (ti_encapsulation i) (send_broadcasts i) (prefer_unicast i) (default_route i) t
    (sequence_number i) (transfer_limit i) (ti_address i) (netmask i) (mtu i).
Definition set_sequence_number (i : tx_interface) (s : Z) : tx_interface :=
  mk_tx (ti_route i) (txbuffer i) (tx_bytes_pending i)
    (socket_type i) (ti_encapsulation i) (send_broadcasts i) (prefer_unicast i) (default_route i) (ti_last_tx i)
    s (transfer_limit i) (ti_address i) (netmask i) (mtu i).
Definition set_transfer_limit (i : tx_interface) (l : limit_state) : tx_interface :=
  mk_tx (ti_route i) (txbuffer i) (tx_bytes_pending i)
    (socket_type i) (ti_encapsulation i) (send_broadcasts i) (prefer_unicast i) (default_route i) (ti_last_tx i)
    (sequence_number i) l (ti_address i) (netmask i) (mtu i).

(** A frame of a queue: [struct overlay_frame] with the fields only the queue uses.
    [q_context] is [send_context], set when [send_hook] is neighbour_link_sent. *)
Record qframe := mk_qframe {
  q_prev : option nat;
  q_next : option nat;
  q_frame : overlay_frame;
  q_resend : Z;
  q_context : option nat;
  interface_sent_sequence : list Z;
  interface_dont_send_until : list Z;
  q_unicast : bool;
  dont_send_until : Z;
  enqueued_at : Z
}.

Definition set_prev (f : qframe) (p : option nat) : qframe :=
  mk_qframe p (q_next f) (q_frame f) (q_resend f) (q_context f) (interface_sent_sequence f)
    (interface_dont_send_until f) (q_unicast f) (dont_send_until f) (enqueued_at f).
Definition set_next (f : qframe) (n : option nat) : qframe :=
  mk_qframe (q_prev f) n (q_frame f) (q_resend f) (q_context f) (interface_sent_sequence f)
    (interface_dont_send_until f) (q_unicast f) (dont_send_until f) (enqueued_at f).
Definition set_q_frame (f : qframe) (o : overlay_frame) : qframe :=
  mk_qframe (q_prev f) (q_next f) o (q_resend f) (q_context f) (interface_sent_sequence f)
    (interface_dont_send_until f) (q_unicast f) (dont_send_until f) (enqueued_at f).
Definition set_q_resend (f : qframe) (r : Z) : qframe :=
  mk_qframe (q_prev f) (q_next f) (q_frame f) r (q_context f) (interface_sent_sequence f)
    (interface_dont_send_until f) (q_unicast f) (dont_send_until f) (enqueued_at f).
Definition set_sent_sequence (f : qframe) (l : list Z) : qframe :=
  mk_qframe (q_prev f) (q_next f) (q_frame f) (q_resend f) (q_context f) l
    (interface_dont_send_until f) (q_unicast f) (dont_send_until f) (enqueued_at f).
Definition set_interface_until (f : qframe) (l : list Z) : qframe :=
  mk_qframe (q_prev f) (q_next f) (q_frame f) (q_resend f) (q_context f) (interface_sent_sequence f)
    l (q_unicast f) (dont_send_until f) (enqueued_at f).
Definition set_q_unicast (f : qframe) : qframe :=
  mk_qframe (q_prev f) (q_next f) (q_frame f) (q_resend f) (q_context f) (interface_sent_sequence f)
    (interface_dont_send_until f) true (dont_send_until f) (enqueued_at f).
Definition set_dont_send_until (f : qframe) (t : Z) : qframe :=
  mk_qframe (q_prev f) (q_next f) (q_frame f) (q_resend f) (q_context f) (interface_sent_sequence f)
    (interface_dont_send_until f) (q_unicast f) t (enqueued_at f).
Definition set_enqueued_at (f : qframe) (t : Z) : qframe :=
  mk_qframe (q_prev f) (q_next f) (q_frame f) (q_resend f) (q_context f) (interface_sent_sequence f)
    (interface_dont_send_until f) (q_unicast f) (dont_send_until f) t.

(** The fields of the frame proper that the queue sets. *)
Definition set_frame_route (f : overlay_frame) (resolved : bool) (hop : option nat) (address : Z)
    (i : option Z) (version : Z) : overlay_frame :=
  mk_frame (payload f) (f_type f) (source f) (source_full f) (destination f) (ttl f) (broadcast_id f)
    resolved hop address i (queue f) (modifiers f) (mdp_sequence f) version.
Definition set_frame_sequence (f : overlay_frame) (s : Z) : overlay_frame :=
  mk_frame (payload f) (f_type f) (source f) (source_full f) (destination f) (ttl f) (broadcast_id f)
    (destination_resolved f) (next_hop f) (recvaddr f) (f_interface f) (queue f) (modifiers f) s (f_packet_version f).

Record overlay_txqueue := mk_txqueue {
  q_first : option nat;
  q_last : option nat;
  q_length : Z;
  maxLength : Z;
  small_packet_grace_interval : Z;
  latencyTarget : Z
}.

(** [struct outgoing_packet]; [pk_buffer] is None until a packet is begun. *)
Record outgoing_packet := mk_packet {
  pk_interface : option nat;
  pk_seq : Z;
  pk_version : Z;
  pk_i : nat;
  pk_unicast_subscriber : option nat;
  pk_dest : Z;
  pk_header_length : Z;
  pk_buffer : option overlay_buffer;
  pk_context : decode_context
}.

(** After bzero and [packet.seq = -1]. *)
Definition zero_packet : outgoing_packet := mk_packet None (-1) 0 0 None 0 0 None context_zero.

(** The fields of [struct subscriber] that only this code uses. *)
Record peer := mk_peer { max_packet_version : Z; peer_last_tx : Z; last_probe_response : Z; last_stun_request : Z }.

Inductive queue_event :=
| QUnschedule
| QSchedule (alarm deadline : Z)
| Olsr (header payload : list Z)
| VoiceTraffic
| Datagram (interface : nat) (dest : Z) (packet : list Z)
| FilePacket (interface : nat) (dest : Z) (packet : list Z)
| StreamWrite (interface : nat) (data : list Z)
| StreamWatch (interface : nat) (pollout : bool)
| InterfaceClosed (interface : nat).

Record qworld := mk_qworld {
  q_route : rworld;
  q_heap : gmap nat qframe;
  q_next_id : nat;
  overlay_tx : list overlay_txqueue;
  last_mdp_sequence : Z;
  next_alarm : Z;
  next_deadline : Z;
  interfaces : list tx_interface;
  q_peers : gmap nat peer;
  q_packet : outgoing_packet;
  q_events : list queue_event
}.

Definition set_route (w : qworld) (x : rworld) : qworld :=
  mk_qworld x (q_heap w) (q_next_id w) (overlay_tx w) (last_mdp_sequence w) (next_alarm w) (next_deadline w)
    (interfaces w) (q_peers w) (q_packet w) (q_events w).
Definition set_heap (w : qworld) (x : gmap nat qframe) : qworld :=
  mk_qworld (q_route w) x (q_next_id w) (overlay_tx w) (last_mdp_sequence w) (next_alarm w) (next_deadline w)
    (interfaces w) (q_peers w) (q_packet w) (q_events w).
Definition set_id (w : qworld) (x : nat) : qworld :=
  mk_qworld (q_route w) (q_heap w) x (overlay_tx w) (last_mdp_sequence w) (next_alarm w) (next_deadline w)
    (interfaces w) (q_peers w) (q_packet w) (q_events w).
Definition set_overlay_tx (w : qworld) (x : list overlay_txqueue) : qworld :=
  mk_qworld (q_route w) (q_heap w) (q_next_id w) x (last_mdp_sequence w) (next_alarm w) (next_deadline w)
    (interfaces w) (q_peers w) (q_packet w) (q_events w).
Definition set_last_mdp_sequence (w : qworld) (x : Z) : qworld :=
  mk_qworld (q_route w) (q_heap w) (q_next_id w) (overlay_tx w) x (next_alarm w) (next_deadline w)
    (interfaces w) (q_peers w) (q_packet w) (q_events w).
Definition set_next_packet (w : qworld) (a d : Z) : qworld :=
  mk_qworld (q_route w) (q_heap w) (q_next_id w) (overlay_tx w) (last_mdp_sequence w) a d
    (interfaces w) (q_peers w) (q_packet w) (q_events w).
Definition set_interfaces (w : qworld) (x : list tx_interface) : qworld :=
  mk_qworld (q_route w) (q_heap w) (q_next_id w) (overlay_tx w) (last_mdp_sequence w) (next_alarm w) (next_deadline w)
    x (q_peers w) (q_packet w) (q_events w).
Definition set_peers (w : qworld) (x : gmap nat peer) : qworld :=
  mk_qworld (q_route w) (q_heap w) (q_next_id w) (overlay_tx w) (last_mdp_sequence w) (next_alarm w) (next_deadline w)
    (interfaces w) x (q_packet w) (q_events w).
Definition set_packet (w : qworld) (x : outgoing_packet) : qworld :=
  mk_qworld (q_route w) (q_heap w) (q_next_id w) (overlay_tx w) (last_mdp_sequence w) (next_alarm w) (next_deadline w)
    (interfaces w) (q_peers w) x (q_events w).
Definition set_q_events (w : qworld) (x : list queue_event) : qworld :=
  mk_qworld (q_route w) (q_heap w) (q_next_id w) (overlay_tx w) (last_mdp_sequence w) (next_alarm w) (next_deadline w)
    (interfaces w) (q_peers w) (q_packet w) x.

(** ** The monad *)

Definition QM (A : Type) : Type := qworld -> option (A * qworld).

#[export] Instance QM_ret : MRet QM := fun A x w => Some (x, w).
#[export] Instance QM_bind : MBind QM := fun A B f m w =>
  match m w with Some (x, w) => f x w | None => None end.

Definition q_undefined {A} : QM A := fun _ => None.
Definition q_lift {A} (o : option A) : QM A := fun w => x ← o; Some (x, w).
Definition asks {A} (f : qworld -> A) : QM A := fun w => Some (f w, w).
Definition modify (f : qworld -> qworld) : QM unit := fun w => Some (tt, f w).
Definition event (e : queue_event) : QM unit := modify (fun w => set_q_events w (q_events w ++ [e])).
Definition routed {A} (m : RM A) : QM A := fun w => '(x, r) ← m (q_route w); Some (x, set_route w r).
Definition based {A} (m : M A) : QM A := routed (base m).

Definition get_frame (id : nat) : QM qframe := fun w => f ← q_heap w !! id; Some (f, w).
Definition put_frame (id : nat) (f : qframe) : QM unit := modify (fun w => set_heap w (<[id := f]> (q_heap w))).
(** Reads and writes a frame that has to exist. *)
Definition on_frame (id : nat) (g : qframe -> qframe) : QM unit := f ← get_frame id; put_frame id (g f).
Definition get_queue (k : nat) : QM overlay_txqueue := fun w => q ← overlay_tx w !! k; Some (q, w).
Definition put_queue (k : nat) (q : overlay_txqueue) : QM unit :=
  modify (fun w => set_overlay_tx w (<[k := q]> (overlay_tx w))).
Definition get_interface (i : nat) : QM tx_interface := fun w => x ← interfaces w !! i; Some (x, w).
Definition put_interface (i : nat) (x : tx_interface) : QM unit :=
  modify (fun w => set_interfaces w (<[i := x]> (interfaces w))).
Definition get_peer (i : nat) : QM peer := asks (fun w => default (mk_peer 0 0 0 0) (q_peers w !! i)).
Definition put_peer (i : nat) (p : peer) : QM unit := modify (fun w => set_peers w (<[i := p]> (q_peers w))).

(** The interfaces as routing sees them. *)
Definition route_interfaces (w : qworld) : list overlay_interface := ti_route <$> interfaces w.
Definition with_interfaces {A} (m : list overlay_interface -> RM A) : QM A :=
  l ← asks route_interfaces; routed (m l).

(** ** Socket addresses: an IPv4 address of 32 bits, a port of 16 and the family *)

Definition sin_addr (a : Z) : Z := a mod 2 ^ 32.
Definition sin_port (a : Z) : Z := (a / 2 ^ 32) mod 2 ^ 16.
Definition sin_family (a : Z) : Z := a / 2 ^ 48.

(** ** Sending *)

(** What sendto says, and whether the error closes the interface. *)
Inductive sendto_result := SendtoOk | SendtoFailed | SendtoNetDown.

Section tx_interface.
Context `{Allocator}.
Context (gettime_ms : nat -> Z) (directory_service : option nat).
(** The system calls: the bytes that write takes of a stream (-1 when it fails), whether a
    packet could be written to a file, and the result of sendto. *)
Context (write : nat -> list Z -> Z) (write_file : nat -> Z -> list Z -> Z).
Context (sendto : nat -> Z -> list Z -> sendto_result).

Definition q_now : QM Z := routed (Route.r_now gettime_ms).

Fixpoint find_interface (addr : Z) (return_default : bool) (l : list (nat * tx_interface)) (ret : option nat) : option nat :=
  match l with
  | [] => ret
  | (i, x) :: l =>
      if negb (is_up x) then find_interface addr return_default l ret
      else if Z.land (netmask x) addr =? Z.land (netmask x) (sin_addr (ti_address x)) then Some i
      else find_interface addr return_default l (if return_default && default_route x then Some i else ret)
  end.

Definition overlay_interface_find (addr : Z) (return_default : bool) : QM (option nat) :=
  asks (fun w => find_interface addr return_default (imap (fun i x => (i, x)) (interfaces w)) None).

Definition overlay_queue_schedule_next (next_allowed_packet : Z) : QM Z :=
  a ← asks next_alarm;
  if (a =? 0) || (next_allowed_packet <? a) then
    _ ← event QUnschedule;
    _ ← modify (fun w => set_next_packet w next_allowed_packet (next_allowed_packet + 15));
    _ ← event (QSchedule next_allowed_packet (next_allowed_packet + 15));
    mret 0
  else mret 0.

Definition write_stream_buffer (i : nat) : QM unit :=
  x ← get_interface i;
  _ ← (if 0 <? tx_bytes_pending x then
         data ← q_lift (zslice (txbuffer x) 0 (tx_bytes_pending x));
         _ ← event (StreamWrite i data);
         let written := write i data in
         if 0 <? written then
           let pending := tx_bytes_pending x - written in
           rest ← q_lift (zslice (txbuffer x) written pending);
           buffer ← q_lift (zblit (txbuffer x) 0 rest);
           put_interface i (set_tx x buffer pending)
         else mret tt
       else mret tt);
  x ← get_interface i;
  _ ← (if 0 <? tx_bytes_pending x then event (StreamWatch i true)
       else
         t ← q_now;
         _ ← overlay_queue_schedule_next t;
         event (StreamWatch i false));
  mret tt.

(** [mark_subscriber_down], for every subscriber. *)
Definition mark_subscriber_down (interface i : nat) : RM bool :=
  s ← base (get_sub i);
  r ← get_route i;
  _ ← (if has (reachable s) REACHABLE_DIRECT && bool_decide (sub_interface r = Some interface)
       then _ ← set_reachable directory_service i REACHABLE_NONE; mret tt
       else mret tt);
  mret false.

Definition mark_subscribers_down (interface : nat) : RM unit := fun w =>
  '(_, w) ← walk_tree (fun i w => mark_subscriber_down interface i w) TREE_DEPTH (root (w_dir (rw w))) 0 None SID_SIZE None 0 w;
  Some (tt, w).

(** The links are cleaned while the interface is still up. *)
Definition overlay_interface_close (i : nat) : QM unit :=
  _ ← with_interfaces (fun l => link_interface_down gettime_ms l);
  _ ← routed (mark_subscribers_down i);
  _ ← event (InterfaceClosed i);
  x ← get_interface i;
  put_interface i (set_ti_state x INTERFACE_STATE_DOWN).

Definition overlay_broadcast_ensemble (i : nat) (recipientaddr : Z) (packet : list Z) : QM Z :=
  t ← q_now;
  x ← get_interface i;
  let x := set_ti_last_tx x t in
  _ ← put_interface i x;
  if negb (is_up x) then mret (-1)
  else if socket_type x =? SOCK_STREAM then
    if 0 <? tx_bytes_pending x then mret (-1)
    else
      '(encoded, _, buffer) ← q_lift (slip_encode SLIP_FORMAT_UPPER7 packet (zlen packet) (txbuffer x) TX_BUFFER_SIZE);
      match encoded with
      | Fatal => q_undefined
      | Returned encoded =>
          if encoded <? 0 then _ ← put_interface i (set_tx x buffer (tx_bytes_pending x)); mret (-1)
          else
            _ ← put_interface i (set_tx x buffer encoded);
            _ ← write_stream_buffer i;
            mret 0
      end
  else if socket_type x =? SOCK_FILE then
    _ ← event (FilePacket i recipientaddr packet);
    mret (write_file i recipientaddr packet)
  else if socket_type x =? SOCK_DGRAM then
    _ ← event (Datagram i recipientaddr packet);
    match sendto i recipientaddr packet with
    | SendtoOk => mret 0
    | SendtoFailed => mret (-1)
    | SendtoNetDown => _ ← overlay_interface_close i; mret (-1)
    end
  else mret (-1).

(** The limit of an interface. *)
Definition interface_next_allowed (i : nat) : QM Z :=
  x ← get_interface i;
  t ← q_now;
  let '(r, l) := limit_next_allowed t (transfer_limit x) in
  _ ← put_interface i (set_transfer_limit x l);
  mret r.

Definition interface_is_allowed (i : nat) : QM Z :=
  x ← get_interface i;
  t ← q_now;
  let '(r, l) := limit_is_allowed t (transfer_limit x) in
  _ ← put_interface i (set_transfer_limit x l);
  mret r.
End tx_interface.
