(* ===== verification/OverlayQueue.v ===== *)
(** OverlayQueue: overlay_queue.c, the transmit queues, with op_free of overlay_payload.c,
    olsr_send of overlay_olsr.c and the probes of overlay_link.c that a queue sends.

    Payloads wait in five doubly-linked queues.  When the alarm of the queues goes off, as
    many of them as fit are put into one packet, in the order of the queues, and those that
    need no acknowledgement are removed. *)

From S2P Require Import Prelude CMem OverlayBuffer OverlayBufferCodec DataFormats Slip SubscriberTree OverlayAddress PacketFormats RouteLinks Route RouteOps Limit TxState.

Definition SMALL_PACKET_SIZE : Z := 400.
Definition MDP_PORT_ECHO : Z := 7.
Definition MDP_PORT_PROBE : Z := 6.
Definition OLSR_PACKET_FORMAT_NUMBER : Z := 123.

(** ** The queues *)

Definition init_queue (k : Z) : overlay_txqueue :=
  mk_txqueue None None 0
    (if k =? OQ_ISOCHRONOUS_VOICE then 20 else 100)
    (if k =? OQ_OPPORTUNISTIC then 20 else 5)
    (if (k =? OQ_ISOCHRONOUS_VOICE) || (k =? OQ_ISOCHRONOUS_VIDEO) then 200 else 1000).

Definition overlay_queue_init : QM Z :=
  _ ← modify (fun w => set_overlay_tx w (init_queue <$> seqZ 0 OQ_MAX));
  mret 0.

Definition set_first (q : overlay_txqueue) (p : option nat) : overlay_txqueue :=
  mk_txqueue p (q_last q) (q_length q) (maxLength q) (small_packet_grace_interval q) (latencyTarget q).
Definition set_last (q : overlay_txqueue) (p : option nat) : overlay_txqueue :=
  mk_txqueue (q_first q) p (q_length q) (maxLength q) (small_packet_grace_interval q) (latencyTarget q).
Definition set_q_length (q : overlay_txqueue) (n : Z) : overlay_txqueue :=
  mk_txqueue (q_first q) (q_last q) n (maxLength q) (small_packet_grace_interval q) (latencyTarget q).

(** A frame in which [p->prev->next == p] or [p->next->prev == p] is not freed. *)
Definition op_free (p : option nat) : QM Z :=
  match p with
  | None => mret (-1)
  | Some id =>
      f ← get_frame id;
      before ← (match q_prev f with
                | Some p => g ← get_frame p; mret (bool_decide (q_next g = Some id))
                | None => mret false
                end : QM bool);
      if before : bool then mret (-1)
      else
        after ← (match q_next f with
                 | Some n => g ← get_frame n; mret (bool_decide (q_prev g = Some id))
                 | None => mret false
                 end : QM bool);
        if after : bool then mret (-1)
        else
          _ ← (match payload (q_frame f) with
               | Some b => based (fun w => '(_, m) ← ob_free (Some b) (w_mem w); Some (tt, set_mem w m))
               | None => mret tt
               end);
          _ ← modify (fun w => set_heap w (delete id (q_heap w)));
          mret 0
  end.

(** Takes a frame out of queue [k], frees it and returns the one after it. *)
Definition overlay_queue_remove (k id : nat) : QM (option nat) :=
  f ← get_frame id;
  _ ← (match q_prev f with
       | Some p => on_frame p (fun g => set_next g (q_next f))
       | None => q ← get_queue k;
                 if bool_decide (q_first q = Some id) then put_queue k (set_first q (q_next f)) else mret tt
       end);
  _ ← (match q_next f with
       | Some n => on_frame n (fun g => set_prev g (q_prev f))
       | None => q ← get_queue k;
                 if bool_decide (q_last q = Some id) then put_queue k (set_last q (q_prev f)) else mret tt
       end);
  q ← get_queue k;
  n ← q_lift (ci (q_length q - 1));
  _ ← put_queue k (set_q_length q n);
  _ ← op_free (Some id);
  mret (q_next f).

Definition overlay_queue_remaining (k : Z) : QM Z :=
  if (k <? 0) || (OQ_MAX <=? k) then mret (-1)
  else q ← get_queue (Z.to_nat k); q_lift (ci (maxLength q - q_length q)).

Section overlay_queue.
Context `{Allocator}.
Context (gettime_ms : nat -> Z) (my_subscriber directory_service : option nat).
(** The system calls of [TxState], whether olsr is in use, and the bytes of a
    [struct probe_contents], whose layout is the compiler's. *)
Context (write : nat -> list Z -> Z) (write_file : nat -> Z -> list Z -> Z).
Context (sendto : nat -> Z -> list Z -> sendto_result).
Context (olsr : bool) (probe_contents : Z -> Z -> list Z).

Abbreviation q_now := (TxState.q_now gettime_ms).
Abbreviation interface_next_allowed := (TxState.interface_next_allowed gettime_ms).
Abbreviation interface_is_allowed := (TxState.interface_is_allowed gettime_ms).
Abbreviation overlay_broadcast_ensemble := (TxState.overlay_broadcast_ensemble gettime_ms directory_service write write_file sendto).

Definition is_reachable (i : option nat) : QM Z := with_interfaces (fun l => subscriber_is_reachable l i).
Definition has_neighbour (i : nat) : QM bool := routed (link_state_interface_has_neighbour i).

(** Whether there is a way to send a frame: it is resolved, a broadcast, or the destination
    or the directory service can be reached. *)
Definition has_route (f : overlay_frame) : QM bool :=
  if destination_resolved f then mret true
  else match destination f with
       | None => mret true
       | Some d =>
           r ← is_reachable (Some d);
           if has r REACHABLE then mret true
           else match directory_service with
                | None => mret false
                | Some s => r ← is_reachable (Some s); mret (has r REACHABLE)
                end
       end.

(** [frame->interface - overlay_interfaces], of a frame that has one. *)
Definition frame_interface (f : overlay_frame) : QM nat :=
  match f_interface f with
  | Some i => if (0 <=? i) && (i <? Z.of_nat OVERLAY_MAX_INTERFACES) then mret (Z.to_nat i) else q_undefined
  | None => q_undefined
  end.

Definition all_interfaces : list nat := seq 0 OVERLAY_MAX_INTERFACES.

(** [interface_sent_sequence[i]] and its update. *)
Definition sent_on (f : qframe) (i : nat) : QM Z := q_lift (interface_sent_sequence f !! i).
Definition put_sent_on (id i : nat) (s : Z) : QM unit :=
  f ← get_frame id; _ ← sent_on f i;
  on_frame id (fun f => set_sent_sequence f (<[i := s]> (interface_sent_sequence f))).

(** ** When to send next *)

(** The first time an interface may send the frame, 0 if none may. *)
Fixpoint next_on_interfaces (f : qframe) (l : list nat) (next : Z) : QM Z :=
  match l with
  | [] => mret next
  | i :: l =>
      x ← get_interface i;
      if negb (is_up x) then next_on_interfaces f l next
      else
        wanted ← (match destination (q_frame f) with
                  | Some _ => mret true
                  | None => s ← sent_on f i; if s =? FRAME_DONT_SEND then mret false else has_neighbour i
                  end : QM bool);
        if negb wanted then next_on_interfaces f l next
        else
          t ← interface_next_allowed i;
          u ← q_lift (interface_dont_send_until f !! i);
          let t := if t <? u then u else t in
          next_on_interfaces f l (if (next =? 0) || (t <? next) then t else next)
  end.

Definition overlay_calc_queue_time (id : nat) : QM Z :=
  f ← get_frame id;
  ok ← has_route (q_frame f);
  if negb ok then mret 0
  else
    next ← (if destination_resolved (q_frame f) && bool_decide (is_Some (f_interface (q_frame f))) then
              i ← frame_interface (q_frame f);
              x ← get_interface i;
              if 0 <? tx_bytes_pending x then mret None
              else t ← interface_next_allowed i; mret (Some t)
            else
              t ← next_on_interfaces f all_interfaces 0;
              mret (if t =? 0 then None else Some t) : QM (option Z));
    match next with
    | None => mret 0
    | Some t =>
        let t := if t <? dont_send_until f then dont_send_until f else t in
        b ← q_lift (payload (q_frame f));
        t ← (if ob_position b <? SMALL_PACKET_SIZE then
               q ← get_queue (Z.to_nat (queue (q_frame f)));
               let later := enqueued_at f + small_packet_grace_interval q in
               mret (if t <? later then later else t)
             else mret t : QM Z);
        overlay_queue_schedule_next t
    end.

(** ** Adding a frame *)

(** The bytes of a buffer from its start. *)
Definition read_buffer (b : overlay_buffer) (n : Z) : QM (list Z) :=
  p ← q_lift (bytes b); based (read_bytes p n).

(** The hook that floods broadcasts through olsr. *)
Definition olsr_send (f : overlay_frame) : QM unit :=
  if negb olsr || bool_decide (is_Some (destination f)) then mret tt
  else
    b ← q_lift ob_new;
    '(_, _, b) ← based ((ignore (append_byte OLSR_PACKET_FORMAT_NUMBER) ;? ignore (append_byte (ttl f)) ;?
                         ignore (append_address my_subscriber) ;? ignore (append_address (source f)) ;?
                         ignore (append_broadcast (Some (broadcast_id f))) ;?
                         ignore (append_byte (modifiers f)))%step context_zero b);
    header ← read_buffer b (ob_position b);
    p ← q_lift (payload f);
    data ← read_buffer p (sizeLimit p);
    _ ← event (Olsr header data);
    based (fun w => '(_, m) ← ob_free (Some b) (w_mem w); Some (tt, set_mem w m)).

(** The interfaces to broadcast a frame on; how many there are. *)
Fixpoint mark_broadcast (id : nat) (l : list nat) (copies : Z) : QM Z :=
  match l with
  | [] => mret copies
  | i :: l =>
      x ← get_interface i;
      if negb (is_up x) || negb (send_broadcasts x) then mark_broadcast id l copies
      else
        n ← has_neighbour i;
        if negb n then mark_broadcast id l copies
        else _ ← put_sent_on id i FRAME_NOT_SENT; mark_broadcast id l (copies + 1)
  end.

(** [if (p->resend == 0) p->resend = 1;] *)
Definition allow_resend (id : nat) : QM unit :=
  on_frame id (fun f => if q_resend f =? 0 then set_q_resend f 1 else f).

(** Where the frame is to be sent; false when a broadcast has nowhere to go. *)
Definition choose_interfaces (id : nat) : QM bool :=
  _ ← on_frame id (fun f => set_sent_sequence f (replicate OVERLAY_MAX_INTERFACES FRAME_DONT_SEND));
  f ← get_frame id;
  if destination_resolved (q_frame f) then
    i ← frame_interface (q_frame f);
    _ ← put_sent_on id i FRAME_NOT_SENT;
    mret true
  else match destination (q_frame f) with
       | Some _ => _ ← allow_resend id; mret true
       | None =>
           _ ← olsr_send (q_frame f);
           n ← mark_broadcast id all_interfaces 0;
           if n =? 0 then mret false else _ ← allow_resend id; mret true
       end.

(** Puts a frame at the end of queue [k]. *)
Definition link_frame_last (k id : nat) : QM unit :=
  q ← get_queue k;
  _ ← (match q_last q with Some l => on_frame l (fun g => set_next g (Some id)) | None => mret tt end);
  t ← q_now;
  _ ← on_frame id (fun f =>
        let o := set_frame_sequence (q_frame f) (-1) in
        let o := if f_packet_version o =? 0
                 then set_frame_route o (destination_resolved o) (next_hop o) (recvaddr o) (f_interface o) 1 else o in
        set_enqueued_at (set_next (set_prev (set_q_frame f o) (q_last q)) None) t);
  n ← q_lift (ci (q_length q + 1));
  put_queue k (set_q_length (set_first (set_last q (Some id))
                 (match q_first q with None => Some id | Some i => Some i end)) n).

(** The size of a payload whose limit was not set. *)
Definition limit_payload (id : nat) : QM unit :=
  f ← get_frame id;
  match payload (q_frame f) with
  | None => mret tt
  | Some b =>
      r ← q_lift (ob_remaining b);
      if r <? 0
      then on_frame id (fun f => set_q_frame f (set_payload (q_frame f) (snd (ob_limitsize (Some b) (ob_position b)))))
      else mret tt
  end.

(** [send_probe] is overlay_send_probe, which adds frames itself. *)
Definition enqueue_with (send_probe : option nat -> Z -> option nat -> Z -> QM Z) (p : option nat) : QM Z :=
  match p with
  | None => mret (-1)
  | Some id =>
      f ← get_frame id;
      ok ← has_route (q_frame f);
      if negb ok then mret (-1)
      else if OQ_MAX <=? queue (q_frame f) then mret (-1)
      else
        _ ← (match destination (q_frame f) with
             | None => mret tt
             | Some d =>
                 r ← routed (get_route d);
                 due ← (if last_probe r =? 0 then mret true
                        else t ← q_now; mret (5000 <? t - last_probe r) : QM bool);
                 if due : bool then _ ← send_probe (Some d) (sub_address r) (sub_interface r) OQ_MESH_MANAGEMENT; mret tt
                 else mret tt
             end);
        let k := Z.to_nat (queue (q_frame f)) in
        _ ← limit_payload id;
        q ← get_queue k;
        if maxLength q <=? q_length q then mret (-1)
        else
          ok ← choose_interfaces id;
          if negb ok then mret (-1)
          else
            _ ← link_frame_last k id;
            _ ← (if queue (q_frame f) =? OQ_ISOCHRONOUS_VOICE then event VoiceTraffic else mret tt);
            _ ← overlay_calc_queue_time id;
            mret 0
  end.

(** ** Probes *)

(** malloc of a frame. *)
Definition new_frame (f : qframe) : QM nat :=
  id ← asks q_next_id;
  _ ← modify (fun w => set_heap (set_id w (S id)) (<[id := f]> (q_heap w)));
  mret id.

Definition probe_frame (peer : option nat) (addr : Z) (interface : nat) (k : Z) (b : overlay_buffer) : qframe :=
  mk_qframe None None
    (mk_frame (Some b) OF_TYPE_DATA my_subscriber true peer 1 (replicate BROADCAST_LEN 0) true peer addr
      (Some (Z.of_nat interface)) k 0 0 0)
    0 None (replicate OVERLAY_MAX_INTERFACES 0) (replicate OVERLAY_MAX_INTERFACES 0) true 0 0.

(** Whether a probe may be sent to a peer over an interface that is up. *)
Definition may_probe (peer : option nat) (addr : Z) (interface : nat) : QM bool :=
  ok ← (match peer with
        | None => mret true
        | Some i =>
            s ← based (get_sub i);
            r ← routed (get_route i);
            mret (negb (has (reachable s) REACHABLE_INDIRECT) &&
                  negb (has (reachable s) REACHABLE_DIRECT && bool_decide (is_Some (sub_interface r)) &&
                        negb (bool_decide (sub_interface r = Some interface))))
        end : QM bool);
  mret (ok && negb (sin_addr addr =? 0) && negb (sin_port addr =? 0)).

(** Builds the probe and hands it to the queue. *)
Definition queue_probe (enqueue : option nat -> QM Z) (peer : option nat) (addr : Z) (interface : nat) (k : Z) : QM Z :=
  b ← q_lift ob_new;
  id ← new_frame (probe_frame peer addr interface (u8 k) b);
  _ ← (match peer with
       | None => mret tt
       | Some i =>
           t ← q_now;
           routed (r ← get_route i;
                   put_route i (mk_sub_route (sub_link_state r) (sub_next_hop r) (sub_interface r) (sub_address r) t (sas_valid r)))
       end);
  let put b := on_frame id (fun f => set_q_frame f (set_payload (q_frame f) (Some b))) in
  '(r, b) ← based (overlay_mdp_encode_ports b MDP_PORT_ECHO MDP_PORT_PROBE);
  _ ← put b;
  if negb (r =? 0) then _ ← op_free (Some id); mret (-1)
  else
    '(r, b) ← based (on_buffer (fun m => ob_append_bytes b m (probe_contents addr (Z.of_nat interface))
                                           (zlen (probe_contents addr (Z.of_nat interface)))));
    _ ← put b;
    if negb (r =? 0) then _ ← op_free (Some id); mret (-1)
    else
      r ← enqueue (Some id);
      if negb (r =? 0) then _ ← op_free (Some id); mret (-1) else mret 0.

Definition send_probe_with (enqueue : option nat -> QM Z) (peer : option nat) (addr : Z) (interface : option nat) (k : Z)
    : QM Z :=
  interface ← (match interface with
               | Some i => mret (Some i)
               | None => overlay_interface_find (sin_addr addr) true
               end : QM (option nat));
  match interface with
  | None => mret (-1)
  | Some i =>
      x ← get_interface i;
      if negb (is_up x) then mret (-1)
      else
        ok ← may_probe peer addr i;
        if negb ok then mret (-1)
        else if socket_type x =? SOCK_STREAM then mret 0
        else
          t ← q_now;
          recent ← (match peer with
                    | None => mret false
                    | Some i => r ← routed (get_route i); mret (t <? last_probe r + 1000)
                    end : QM bool);
          if recent : bool then mret (-1) else queue_probe enqueue peer addr i k
  end.

(** A probe is a frame itself; [fuel] bounds how often queueing one sends another. *)
Fixpoint enqueue_fuel (fuel : nat) : option nat -> QM Z :=
  match fuel with
  | O => fun _ => q_undefined
  | S fuel => enqueue_with (send_probe_with (enqueue_fuel fuel))
  end.

Definition overlay_payload_enqueue : option nat -> QM Z := enqueue_fuel 2.
Definition overlay_send_probe : option nat -> Z -> option nat -> Z -> QM Z := send_probe_with overlay_payload_enqueue.

(** What callers do with a frame they made: hand it over, and free it when it is refused. *)
Definition submit (f : qframe) : QM Z :=
  id ← new_frame f;
  r ← overlay_payload_enqueue (Some id);
  if negb (r =? 0) then _ ← op_free (Some id); mret (-1) else mret 0.

(** ** Filling a packet *)

(** What happens to a frame that was looked at: it is taken off the queue, or stays. *)
Inductive verdict := Remove | Skip.

(** A part of the loop body; [None] goes on with the next part. *)
Definition or_else (m : QM (option verdict)) (k : QM (option verdict)) : QM (option verdict) :=
  v ← m; match v with Some v => mret (Some v) | None => k end.
Definition stop_if (c : bool) (v : verdict) : QM (option verdict) := mret (if c then Some v else None).
Definition proceed : QM (option verdict) := mret None.

#[local] Infix ";>" := or_else (at level 60, right associativity).

Definition overlay_init_packet (dest : option nat) (is_unicast : bool) (version : Z) (i : nat) (addr : Z) : QM unit :=
  b ← q_lift ob_new;
  x ← get_interface i;
  p ← asks q_packet;
  seq ← (if is_unicast then mret (-1)
         else
           let seq := Z.land (sequence_number x + 1) 0xFFFF in
           _ ← put_interface i (set_sequence_number x seq);
           mret seq : QM Z);
  let b := default b (snd (ob_limitsize (Some b) (mtu x))) in
  '(_, c, b) ← based (overlay_packet_init_header my_subscriber version ENCAP_OVERLAY (Zb is_unicast) (Z.of_nat i) seq
                        (pk_context p) b);
  modify (fun w => set_packet w (mk_packet (Some i) seq version i
    (if is_unicast then dest else pk_unicast_subscriber p) addr (ob_position b) (Some b) c)).

(** Too late, too early, or too long for the packet. *)
Definition check_frame (latency t_now : Z) (id : nat) : QM (option verdict) :=
  f ← get_frame id;
  stop_if (enqueued_at f + latency <? t_now) Remove ;>
  stop_if (t_now <? dont_send_until f) Skip ;>
  (p ← asks q_packet;
   match pk_buffer p with
   | None => proceed
   | Some b =>
       pl ← q_lift (payload (q_frame f));
       room ← q_lift (ob_remaining b);
       stop_if (room <? ob_limit pl) Skip
   end).

(** The next hop to a destination, and how it is reached. *)
Definition find_hop (d : nat) : QM (option nat * Z) :=
  r ← is_reachable (Some d);
  '(hop, r) ← (match directory_service with
               | Some s =>
                   if (r =? REACHABLE_NONE) && negb (bool_decide (d = s))
                   then r ← is_reachable (Some s); mret (s, r) else mret (d, r)
               | None => mret (d, r)
               end : QM (nat * Z));
  if has r REACHABLE_INDIRECT then
    x ← routed (get_route hop);
    r ← is_reachable (sub_next_hop x);
    mret (sub_next_hop x, r)
  else mret (Some hop, r).

(** Both ways are open: the interface chooses. *)
Definition choose_way (r : Z) (x : tx_interface) : Z :=
  let both := Z.lor REACHABLE_UNICAST REACHABLE_BROADCAST in
  if Z.land r both =? both then if prefer_unicast x then REACHABLE_UNICAST else REACHABLE_BROADCAST else r.

(** A hop that is reachable directly has an interface: subscriber_is_reachable says that it is not
    reachable otherwise. *)
Definition resolve_destination (id d : nat) : QM (option verdict) :=
  '(hop, r) ← find_hop d;
  let set_hop := on_frame id (fun f =>
        let o := q_frame f in
        set_q_frame f (set_frame_route o (destination_resolved o) hop (recvaddr o) (f_interface o) (f_packet_version o))) in
  _ ← set_hop;
  if negb (has r REACHABLE_DIRECT) then mret (Some Skip)
  else
    h ← q_lift hop;
    x ← routed (get_route h);
    match sub_interface x with
    | None => q_undefined
    | Some i =>
        y ← get_interface i;
        let r := choose_way r y in
        pr ← get_peer h;
        _ ← on_frame id (fun f =>
              let o := q_frame f in
              let version := if max_packet_version pr <? f_packet_version o then max_packet_version pr else f_packet_version o in
              let f := set_q_frame f (set_frame_route o true hop
                         (if has r REACHABLE_UNICAST then sub_address x else broadcast_address (ti_route y))
                         (Some (Z.of_nat i)) version) in
              if has r REACHABLE_UNICAST then set_q_unicast f else f);
        proceed
    end.

(** The first interface a broadcast can be sent on now, and whether it is still to be sent
    on any. *)
Fixpoint find_broadcast (f : qframe) (t_now : Z) (l : list nat) (wanted : bool) : QM (bool * option nat) :=
  match l with
  | [] => mret (wanted, None)
  | i :: l =>
      x ← get_interface i;
      if negb (is_up x) then find_broadcast f t_now l wanted
      else
        s ← sent_on f i;
        if s =? FRAME_DONT_SEND then find_broadcast f t_now l wanted
        else
          n ← has_neighbour i;
          if negb n then find_broadcast f t_now l wanted
          else
            u ← q_lift (interface_dont_send_until f !! i);
            if t_now <? u then find_broadcast f t_now l true
            else
              t ← interface_next_allowed i;
              if t_now <? t then find_broadcast f t_now l true else mret (true, Some i)
  end.

(** [frame->interface = &overlay_interfaces[i]], with its broadcast address, or NULL. *)
Definition set_broadcast_interface (id : nat) (i : option nat) : QM unit :=
  match i with
  | None => on_frame id (fun f =>
      let o := q_frame f in
      set_q_frame f (set_frame_route o (destination_resolved o) (next_hop o) (recvaddr o) None (f_packet_version o)))
  | Some i =>
      x ← get_interface i;
      on_frame id (fun f =>
        let o := q_frame f in
        set_q_frame f (set_frame_route o (destination_resolved o) (next_hop o)
          (broadcast_address (ti_route x)) (Some (Z.of_nat i)) (f_packet_version o)))
  end.

Definition resolve_broadcast (t_now : Z) (id : nat) : QM (option verdict) :=
  _ ← on_frame id (fun f =>
        let o := q_frame f in
        set_q_frame f (set_frame_route o (destination_resolved o) None (recvaddr o) (f_interface o) (f_packet_version o)));
  f ← get_frame id;
  p ← asks q_packet;
  match pk_buffer p with
  | Some _ =>
      s ← sent_on f (pk_i p);
      u ← q_lift (interface_dont_send_until f !! pk_i p);
      if (s =? FRAME_DONT_SEND) || (t_now <? u) then mret (Some Skip)
      else
        i ← q_lift (pk_interface p);
        _ ← set_broadcast_interface id (Some i);
        proceed
  | None =>
      _ ← set_broadcast_interface id None;
      '(wanted, i) ← find_broadcast f t_now all_interfaces false;
      _ ← (match i with Some i => set_broadcast_interface id (Some i) | None => mret tt end);
      stop_if (negb wanted) Remove ;> stop_if (bool_decide (i = None)) Skip
  end.

Definition resolve_frame (t_now : Z) (id : nat) : QM (option verdict) :=
  f ← get_frame id;
  if destination_resolved (q_frame f) then proceed
  else match destination (q_frame f) with
       | Some d => resolve_destination id d
       | None => resolve_broadcast t_now id
       end.

(** Begins a packet for the frame, or checks that the frame goes the way of the packet. *)
Definition begin_or_join (id : nat) : QM (option verdict) :=
  f ← get_frame id;
  let o := q_frame f in
  p ← asks q_packet;
  match pk_buffer p with
  | None =>
      i ← frame_interface o;
      x ← get_interface i;
      if (socket_type x =? SOCK_STREAM) && (0 <? tx_bytes_pending x) then mret (Some Skip)
      else
        r ← interface_is_allowed i;
        if negb (r =? 0) then mret (Some Skip)
        else
          _ ← (if source_full o then
                 me ← q_lift my_subscriber;
                 based (s ← get_sub me; put_sub me (set_send_full s true))
               else mret tt);
          _ ← (if negb (ti_encapsulation x =? ENCAP_SINGLE)
               then overlay_init_packet (next_hop o) (q_unicast f) (f_packet_version o) i (recvaddr o)
               else mret tt);
          proceed
  | Some _ =>
      stop_if (negb (bool_decide (f_interface o = Z.of_nat <$> pk_interface p)) ||
               negb (f_packet_version o =? pk_version p) || negb (pk_dest p =? recvaddr o)) Skip
  end.

(** The hook that is told the number of the packet. *)
Definition call_hook (id : nat) : QM (option verdict) :=
  f ← get_frame id;
  match q_context f with
  | None => proceed
  | Some s =>
      p ← asks q_packet;
      r ← routed (neighbour_link_sent (pk_seq p) s);
      stop_if (negb (r =? 0)) Remove
  end.

(** The first time a frame is sent it gets a number; too many frames later it is not sent again. *)
Definition number_frame (id : nat) : QM (option verdict) :=
  f ← get_frame id;
  m ← asks last_mdp_sequence;
  if mdp_sequence (q_frame f) =? -1 then
    let m := Z.land (m + 1) 0xFFFF in
    _ ← modify (fun w => set_last_mdp_sequence w m);
    _ ← on_frame id (fun f => set_q_frame f (set_frame_sequence (q_frame f) m));
    proceed
  else stop_if (64 <=? Z.land (m - mdp_sequence (q_frame f)) 0xFFFF) Remove.

(** Sends the frame in a packet of its own, or appends it to the packet. *)
Definition write_frame (id : nat) : QM (option verdict) :=
  f ← get_frame id;
  let o := q_frame f in
  i ← frame_interface o;
  x ← get_interface i;
  if ti_encapsulation x =? ENCAP_SINGLE then
    b ← q_lift ob_new;
    next ← q_lift (ci (sequence_number x + 1));
    _ ← put_interface i (set_sequence_number x next);
    '(r, b) ← based (single_packet_encapsulation my_subscriber (Z.of_nat i) (sequence_number x) o b);
    r ← (if r =? 0 then data ← read_buffer b (ob_position b); overlay_broadcast_ensemble i (recvaddr o) data
         else mret r : QM Z);
    _ ← based (fun w => '(_, m) ← ob_free (Some b) (w_mem w); Some (tt, set_mem w m));
    stop_if (negb (r =? 0)) Skip
  else
    p ← asks q_packet;
    b ← q_lift (pk_buffer p);
    '(r, c, b) ← based (overlay_frame_append_payload o (pk_context p) b);
    _ ← modify (fun w => set_packet w (mk_packet (pk_interface p) (pk_seq p) (pk_version p) (pk_i p)
          (pk_unicast_subscriber p) (pk_dest p) (pk_header_length p) (Some b) c));
    stop_if (negb (r =? 0)) Skip.

Definition touch_peer (t_now : Z) (i : option nat) : QM unit :=
  match i with
  | None => mret tt
  | Some i => p ← get_peer i; put_peer i (mk_peer (max_packet_version p) t_now (last_probe_response p) (last_stun_request p))
  end.

(** Whether a broadcast is still to be sent on an interface. *)
Fixpoint still_wanted (f : qframe) (l : list nat) : QM bool :=
  match l with
  | [] => mret false
  | i :: l =>
      x ← get_interface i;
      if negb (is_up x) then still_wanted f l
      else
        n ← has_neighbour i;
        if negb n then still_wanted f l
        else s ← sent_on f i; if negb (s =? FRAME_DONT_SEND) then mret true else still_wanted f l
  end.

(** The frame was sent: does it stay, to be sent again? *)
Definition mark_sent (t_now : Z) (id : nat) : QM (option verdict) :=
  p ← asks q_packet;
  _ ← put_sent_on id (pk_i p) (pk_seq p);
  f ← get_frame id;
  _ ← q_lift (interface_dont_send_until f !! pk_i p);
  _ ← on_frame id (fun f => set_interface_until f (<[pk_i p := t_now + 200]> (interface_dont_send_until f)));
  f ← get_frame id;
  let o := q_frame f in
  _ ← touch_peer t_now (destination o);
  _ ← touch_peer t_now (next_hop o);
  if destination_resolved o then
    if (0 <? q_resend f) && (1 <=? f_packet_version o) && bool_decide (is_Some (next_hop o)) &&
       negb (pk_seq p =? -1) && negb (q_unicast f) then
      _ ← on_frame id (fun f =>
            let o := q_frame f in
            set_dont_send_until (set_q_frame f
              (set_frame_route o false (next_hop o) (recvaddr o) (f_interface o) (f_packet_version o))) (t_now + 200));
      mret (Some Skip)
    else mret (Some Remove)
  else
    _ ← (if (q_resend f <=? 0) || (f_packet_version o <? 1) || (pk_seq p =? -1) || q_unicast f
         then put_sent_on id (pk_i p) FRAME_DONT_SEND else mret tt);
    f ← get_frame id;
    more ← still_wanted f all_interfaces;
    mret (Some (if more : bool then Skip else Remove)).

(** The body of the loop of overlay_stuff_packet. *)
Definition stuff_frame (latency t_now : Z) (id : nat) : QM verdict :=
  v ← check_frame latency t_now id ;> resolve_frame t_now id ;> begin_or_join id ;> call_hook id ;> number_frame id ;>
      write_frame id ;> mark_sent t_now id;
  q_lift v.

(** One pass for each frame of the queue, of which there are at most [fuel]; [stuck] is what
    happens when there are more. *)
Fixpoint stuff_loop (stuck : QM unit) (fuel : nat) (k : nat) (t_now : Z) (frame : option nat) : QM unit :=
  match frame, fuel with
  | None, _ => mret tt
  | Some _, O => stuck
  | Some id, S fuel =>
      q ← get_queue k;
      v ← stuff_frame (latencyTarget q) t_now id;
      next ← (match v with
              | Remove => overlay_queue_remove k id
              | Skip => _ ← overlay_calc_queue_time id; f ← get_frame id; mret (q_next f)
              end : QM (option nat));
      stuff_loop stuck fuel k t_now next
  end.

Definition stuff_packet_with (stuck : QM unit) (t_now : Z) (k : nat) : QM unit :=
  q ← get_queue k;
  n ← asks (fun w => size (q_heap w));
  stuff_loop stuck n k t_now (q_first q).

Definition overlay_stuff_packet : Z -> nat -> QM unit := stuff_packet_with q_undefined.

Fixpoint stuff_queues (t_now : Z) (l : list nat) : QM unit :=
  match l with [] => mret tt | k :: l => _ ← overlay_stuff_packet t_now k; stuff_queues t_now l end.

Definition overlay_fill_send_packet (t_now : Z) : QM Z :=
  _ ← event QUnschedule;
  _ ← modify (fun w => set_next_packet w 0 0);
  _ ← stuff_queues t_now (seq 0 (Z.to_nat OQ_MAX));
  p ← asks q_packet;
  match pk_buffer p with
  | None => mret 0
  | Some b =>
      i ← q_lift (pk_interface p);
      data ← read_buffer b (ob_position b);
      r ← overlay_broadcast_ensemble i (pk_dest p) data;
      _ ← (if negb (r =? 0) then
             match pk_unicast_subscriber p with
             | Some s => _ ← routed (set_reachable directory_service s REACHABLE_NONE); mret tt
             | None => mret tt
             end
           else mret tt);
      _ ← based (fun w => '(_, m) ← ob_free (Some b) (w_mem w); Some (tt, set_mem w m));
      mret 1
  end.

(** The alarm of the queues. *)
Definition overlay_send_packet : QM unit :=
  _ ← modify (fun w => set_packet w zero_packet);
  t ← q_now;
  _ ← overlay_fill_send_packet t;
  mret tt.

Definition overlay_send_tick_packet (i : nat) : QM Z :=
  _ ← modify (fun w => set_packet w zero_packet);
  x ← get_interface i;
  _ ← overlay_init_packet None false 0 i (broadcast_address (ti_route x));
  t ← q_now;
  _ ← overlay_fill_send_packet t;
  mret 0.

(** ** Acknowledgements *)

(** Whether the acknowledgement covers the packet a frame was last sent in.  [1<<(seq_delta-1)] of
    32 before it is the sign bit of an int, which compilers make although C leaves it undefined. *)
Definition acked (ack_mask ack_seq frame_seq : Z) : bool :=
  let delta := Z.land (ack_seq - frame_seq) 0xFF in
  (delta =? 0) || ((delta <=? 32) && Z.testbit ack_mask (delta - 1)).

(** Like [still_wanted], with the sequence number looked at before the neighbours. *)
Fixpoint ack_wanted (f : qframe) (l : list nat) : QM bool :=
  match l with
  | [] => mret false
  | i :: l =>
      x ← get_interface i;
      if negb (is_up x) then ack_wanted f l
      else
        s ← sent_on f i;
        if s =? FRAME_DONT_SEND then ack_wanted f l
        else n ← has_neighbour i; if n : bool then mret true else ack_wanted f l
  end.

(** The check of one frame; [true] when it is to be removed. *)
Definition ack_frame (neighbour interface_id : nat) (ack_mask ack_seq t_now : Z) (id : nat) : QM bool :=
  f ← get_frame id;
  s ← sent_on f interface_id;
  let o := q_frame f in
  if (0 <=? s) && (bool_decide (next_hop o = Some neighbour) || bool_decide (destination o = None)) then
    let delta := Z.land (ack_seq - s) 0xFF in
    discard ← (if acked ack_mask ack_seq s then
                 _ ← put_sent_on id interface_id FRAME_DONT_SEND;
                 match destination o with
                 | Some _ => mret true
                 | None => f ← get_frame id; more ← ack_wanted f all_interfaces; mret (negb more)
                 end
               else mret false : QM bool);
    if discard : bool then mret true
    else
      _ ← (if (delta <? 128) && bool_decide (is_Some (destination o)) && (t_now <? dont_send_until f) then
             _ ← on_frame id (fun f => set_dont_send_until f t_now);
             overlay_calc_queue_time id
           else mret 0);
      mret false
  else mret false.

Fixpoint ack_loop (fuel : nat) (k neighbour interface_id : nat) (ack_mask ack_seq t_now : Z) (frame : option nat) : QM unit :=
  match frame, fuel with
  | None, _ => mret tt
  | Some _, O => q_undefined
  | Some id, S fuel =>
      gone ← ack_frame neighbour interface_id ack_mask ack_seq t_now id;
      next ← (if gone : bool then overlay_queue_remove k id else f ← get_frame id; mret (q_next f));
      ack_loop fuel k neighbour interface_id ack_mask ack_seq t_now next
  end.

Fixpoint ack_queues (neighbour interface_id : nat) (ack_mask ack_seq t_now : Z) (l : list nat) : QM unit :=
  match l with
  | [] => mret tt
  | k :: l =>
      q ← get_queue k;
      n ← asks (fun w => size (q_heap w));
      _ ← ack_loop n k neighbour interface_id ack_mask ack_seq t_now (q_first q);
      ack_queues neighbour interface_id ack_mask ack_seq t_now l
  end.

Definition overlay_queue_ack (neighbour interface_id : nat) (ack_mask ack_seq : Z) : QM Z :=
  t ← q_now;
  _ ← ack_queues neighbour interface_id ack_mask ack_seq t (seq 0 (Z.to_nat OQ_MAX));
  mret 0.
End overlay_queue.
