(* ===== verification/QueueInv.v ===== *)
(** QueueInv: the invariant of the transmit queues.

    The frames in memory are those of the queues, each queue is a well-formed
    doubly-linked list within its limit, and all operations keep it so.  Most parts of the
    operations change no link; [Keeps] says so, and the rest are adding, removing and
    freeing frames. *)

From S2P Require Import Prelude CMem OverlayBuffer OverlayBufferCodec DataFormats Slip SubscriberTree OverlayAddress PacketFormats RouteLinks Route RouteOps Limit TxState OverlayQueue.

(** ** Operations that change no link *)

(** A frame that keeps its place. *)
Record same_links (f g : qframe) : Prop := {
  sl_prev : q_prev g = q_prev f;
  sl_next : q_next g = q_next f;
  sl_queue : queue (q_frame g) = queue (q_frame f);
  sl_sent : length (interface_sent_sequence f) = OVERLAY_MAX_INTERFACES ->
            length (interface_sent_sequence g) = OVERLAY_MAX_INTERFACES;
  sl_until : length (interface_dont_send_until f) = OVERLAY_MAX_INTERFACES ->
             length (interface_dont_send_until g) = OVERLAY_MAX_INTERFACES
}.

#[export] Instance same_links_preorder : PreOrder same_links.
Proof. split; [by split|]. intros f g h [] []. split; (congruence || auto). Qed.

Definition same_cell : option qframe -> option qframe -> Prop := option_relation same_links (fun _ => False) (fun _ => False).

#[export] Instance same_cell_preorder : PreOrder same_cell.
Proof.
  split; [intros [f|]; cbn; [reflexivity|done]|].
  intros [f|] [g|] [h|]; cbn; try done. intros H1 H2. by etransitivity.
Qed.

Record kept (w w' : qworld) : Prop := {
  kp_tx : overlay_tx w' = overlay_tx w;
  kp_id : q_next_id w' = q_next_id w;
  kp_heap id : same_cell (q_heap w !! id) (q_heap w' !! id)
}.

#[export] Instance kept_preorder : PreOrder kept.
Proof.
  split; [intros w; split; done|]. intros w1 w2 w3 [T1 I1 H1] [T2 I2 H2]. split; [congruence|congruence|].
  intros id. by etransitivity; [apply H1|apply H2].
Qed.

Definition Keeps {A} (m : QM A) : Prop := forall w x w', m w = Some (x, w') -> kept w w'.

Create HintDb keeps.

Lemma qkeeps_ret {A} (x : A) : Keeps (mret x).
Proof. by intros w y w' [= _ <-]. Qed.

Lemma qkeeps_bind {A B} (m : QM A) (f : A -> QM B) : Keeps m -> (forall x, Keeps (f x)) -> Keeps (m ≫= f).
Proof.
  intros Hm Hf w y w'. unfold mbind, QM_bind. destruct (m w) as [[x w1]|] eqn:E; [|done]. intros Hy.
  etransitivity; [by eapply Hm|by eapply Hf].
Qed.

(** An operation on a part of the state other than the frames and the queues. *)
Lemma keeps_frames {A} (m : QM A) :
  (forall w x w', m w = Some (x, w') -> overlay_tx w' = overlay_tx w /\ q_next_id w' = q_next_id w /\ q_heap w' = q_heap w) ->
  Keeps m.
Proof. intros Hm w x w' E. apply Hm in E as (H1 & H2 & H3). split; [done|done|]. intros id. by rewrite H3. Qed.

Lemma keeps_undefined {A} : Keeps (q_undefined (A := A)).
Proof. done. Qed.
Lemma qkeeps_lift {A} (o : option A) : Keeps (q_lift o).
Proof. apply keeps_frames. intros w x w'. unfold q_lift. destruct o; [|done]. by intros [= _ <-]. Qed.
Lemma keeps_asks {A} (f : qworld -> A) : Keeps (asks f).
Proof. apply keeps_frames. by intros w x w' [= _ <-]. Qed.
Lemma keeps_event e : Keeps (event e).
Proof. apply keeps_frames. by intros w x w' [= _ <-]. Qed.
Lemma keeps_routed {A} (m : RM A) : Keeps (routed m).
Proof. apply keeps_frames. intros w x w'. unfold routed. destruct (m _) as [[y r]|]; [|done]. by intros [= _ <-]. Qed.
Lemma keeps_based {A} (m : M A) : Keeps (based m).
Proof. apply keeps_routed. Qed.
Lemma keeps_get_frame id : Keeps (get_frame id).
Proof. apply keeps_frames. intros w x w'. unfold get_frame. destruct (_ !! id); [|done]. by intros [= _ <-]. Qed.
Lemma keeps_get_queue k : Keeps (get_queue k).
Proof. apply keeps_frames. intros w x w'. unfold get_queue. destruct (_ !! k); [|done]. by intros [= _ <-]. Qed.
Lemma keeps_get_interface i : Keeps (get_interface i).
Proof. apply keeps_frames. intros w x w'. unfold get_interface. destruct (_ !! i); [|done]. by intros [= _ <-]. Qed.
Lemma keeps_put_interface i x : Keeps (put_interface i x).
Proof. apply keeps_frames. by intros w y w' [= _ <-]. Qed.
Lemma keeps_get_peer i : Keeps (get_peer i).
Proof. apply keeps_asks. Qed.
Lemma keeps_put_peer i p : Keeps (put_peer i p).
Proof. apply keeps_frames. by intros w y w' [= _ <-]. Qed.
Lemma keeps_set_packet g : Keeps (modify (fun w => set_packet w (g w))).
Proof. apply keeps_frames. by intros w y w' [= _ <-]. Qed.
Lemma keeps_set_next a d : Keeps (modify (fun w => set_next_packet w a d)).
Proof. apply keeps_frames. by intros w y w' [= _ <-]. Qed.
Lemma keeps_set_sequence m : Keeps (modify (fun w => set_last_mdp_sequence w m)).
Proof. apply keeps_frames. by intros w y w' [= _ <-]. Qed.

Lemma keeps_on_frame id g : (forall f, same_links f (g f)) -> Keeps (on_frame id g).
Proof.
  intros Hg w x w'. unfold on_frame, get_frame. unfold mbind, QM_bind. destruct (q_heap w !! id) as [f|] eqn:E; [|done].
  intros [= _ <-]. split; [done|done|]. intros j. cbn. destruct (decide (id = j)) as [<-|].
  - rewrite lookup_insert_eq, E. apply Hg.
  - by rewrite lookup_insert_ne.
Qed.

#[export] Hint Resolve qkeeps_ret keeps_undefined qkeeps_lift keeps_asks keeps_event keeps_routed keeps_based keeps_get_frame keeps_get_queue keeps_get_interface keeps_put_interface keeps_get_peer keeps_put_peer keeps_set_packet keeps_set_next keeps_set_sequence : keeps.

Lemma keeps_or_else m k : Keeps m -> Keeps k -> Keeps (or_else m k).
Proof. intros Hm Hk. apply qkeeps_bind; [done|]. intros [v|]; [apply qkeeps_ret|done]. Qed.
Lemma keeps_stop_if c v : Keeps (stop_if c v).
Proof. apply qkeeps_ret. Qed.
Lemma keeps_proceed : Keeps proceed.
Proof. apply qkeeps_ret. Qed.
#[export] Hint Resolve keeps_stop_if keeps_proceed : keeps.

(** Setters that leave the links alone. *)
Ltac same_links :=
  intros; cbv zeta; repeat (case_match || case_bool_decide);
  split; cbn; try done; rewrite ?length_insert, ?length_replicate; done.

Ltac keeps_step :=
  match goal with
  | |- Keeps (_ ≫= _) => apply qkeeps_bind; [|intros ?]
  | |- Keeps (or_else _ _) => apply keeps_or_else
  | |- Keeps (on_frame _ _) => apply keeps_on_frame; same_links
  | |- Keeps (if ?b then _ else _) => destruct b
  | |- Keeps (match ?x with _ => _ end) => destruct x
  | |- forall _, _ => intros ?
  | _ => solve [eauto with keeps]
  end.
Ltac keeps := repeat keeps_step.

Section keeps.
Context `{Allocator}.
Context (gettime_ms : nat -> Z) (my_subscriber directory_service : option nat).
Context (write : nat -> list Z -> Z) (write_file : nat -> Z -> list Z -> Z).
Context (sendto : nat -> Z -> list Z -> sendto_result).
Context (olsr : bool).

Lemma qkeeps_now : Keeps (q_now gettime_ms).
Proof. apply keeps_routed. Qed.
Hint Resolve qkeeps_now : keeps.

Lemma keeps_schedule t : Keeps (overlay_queue_schedule_next t).
Proof. unfold overlay_queue_schedule_next. keeps. Qed.
Hint Resolve keeps_schedule : keeps.

Lemma keeps_with_interfaces {A} (m : list overlay_interface -> RM A) : Keeps (with_interfaces m).
Proof. unfold with_interfaces. keeps. Qed.
Hint Resolve keeps_with_interfaces : keeps.

Lemma keeps_next_allowed i : Keeps (interface_next_allowed gettime_ms i).
Proof. unfold interface_next_allowed. keeps. Qed.
Lemma keeps_is_allowed i : Keeps (interface_is_allowed gettime_ms i).
Proof. unfold interface_is_allowed. keeps. Qed.
Hint Resolve keeps_next_allowed keeps_is_allowed : keeps.

Lemma keeps_write_stream i : Keeps (write_stream_buffer gettime_ms write i).
Proof. unfold write_stream_buffer. keeps. Qed.
Lemma keeps_close i : Keeps (overlay_interface_close gettime_ms directory_service i).
Proof. unfold overlay_interface_close. keeps. Qed.
Hint Resolve keeps_write_stream keeps_close : keeps.

Lemma keeps_ensemble i a d : Keeps (overlay_broadcast_ensemble gettime_ms directory_service write write_file sendto i a d).
Proof. unfold overlay_broadcast_ensemble. keeps. Qed.
Hint Resolve keeps_ensemble : keeps.

Lemma keeps_reachable i : Keeps (is_reachable i).
Proof. apply keeps_with_interfaces. Qed.
Lemma keeps_has_neighbour i : Keeps (has_neighbour i).
Proof. apply keeps_routed. Qed.
Lemma keeps_sent_on f i : Keeps (sent_on f i).
Proof. apply qkeeps_lift. Qed.
Hint Resolve keeps_reachable keeps_has_neighbour keeps_sent_on : keeps.

Lemma keeps_has_route f : Keeps (has_route directory_service f).
Proof. unfold has_route. keeps. Qed.
Lemma keeps_frame_interface f : Keeps (frame_interface f).
Proof. unfold frame_interface. keeps. Qed.
Lemma keeps_put_sent_on id i s : Keeps (put_sent_on id i s).
Proof. unfold put_sent_on. keeps. Qed.
Lemma keeps_allow_resend id : Keeps (allow_resend id).
Proof. unfold allow_resend. keeps. Qed.
Lemma keeps_read_buffer b n : Keeps (read_buffer b n).
Proof. unfold read_buffer. keeps. Qed.
Hint Resolve keeps_has_route keeps_frame_interface keeps_put_sent_on keeps_allow_resend keeps_read_buffer : keeps.

Lemma keeps_next_on f l : forall t, Keeps (next_on_interfaces gettime_ms f l t).
Proof. induction l; intros t; cbn [next_on_interfaces]; keeps. Qed.
Hint Resolve keeps_next_on : keeps.

Lemma keeps_calc id : Keeps (overlay_calc_queue_time gettime_ms directory_service id).
Proof. unfold overlay_calc_queue_time. keeps. Qed.
Hint Resolve keeps_calc : keeps.

Lemma keeps_olsr f : Keeps (olsr_send my_subscriber olsr f).
Proof. unfold olsr_send. keeps. Qed.
Lemma keeps_mark_broadcast id l : forall n, Keeps (mark_broadcast id l n).
Proof. induction l; intros n; cbn [mark_broadcast]; keeps. Qed.
Hint Resolve keeps_olsr keeps_mark_broadcast : keeps.

Lemma keeps_choose id : Keeps (choose_interfaces my_subscriber olsr id).
Proof. unfold choose_interfaces. keeps. Qed.
Lemma keeps_limit id : Keeps (limit_payload id).
Proof. unfold limit_payload. keeps. Qed.
Lemma keeps_may_probe p a i : Keeps (may_probe p a i).
Proof. unfold may_probe. keeps. Qed.
Hint Resolve keeps_choose keeps_limit keeps_may_probe : keeps.

(** *** Filling a packet *)

Lemma keeps_init_packet d u v i a : Keeps (overlay_init_packet my_subscriber d u v i a).
Proof. unfold overlay_init_packet. keeps. Qed.
Hint Resolve keeps_init_packet : keeps.
Lemma keeps_check l t id : Keeps (check_frame l t id).
Proof. unfold check_frame. keeps. Qed.
Lemma keeps_find_hop d : Keeps (find_hop directory_service d).
Proof. unfold find_hop. keeps. Qed.
Hint Resolve keeps_check keeps_find_hop : keeps.
Lemma keeps_resolve_destination id d : Keeps (resolve_destination directory_service id d).
Proof. unfold resolve_destination. keeps. Qed.
Lemma keeps_find_broadcast f t l : forall b, Keeps (find_broadcast gettime_ms f t l b).
Proof. induction l; intros b; cbn [find_broadcast]; keeps. Qed.
Lemma keeps_set_broadcast id i : Keeps (set_broadcast_interface id i).
Proof. unfold set_broadcast_interface. keeps. Qed.
Hint Resolve keeps_resolve_destination keeps_find_broadcast keeps_set_broadcast : keeps.
Lemma keeps_resolve_broadcast t id : Keeps (resolve_broadcast gettime_ms t id).
Proof. unfold resolve_broadcast. keeps. Qed.
Hint Resolve keeps_resolve_broadcast : keeps.
Lemma keeps_resolve t id : Keeps (resolve_frame gettime_ms directory_service t id).
Proof. unfold resolve_frame. keeps. Qed.
Lemma keeps_begin id : Keeps (begin_or_join gettime_ms my_subscriber id).
Proof. unfold begin_or_join. keeps. Qed.
Lemma keeps_hook id : Keeps (call_hook id).
Proof. unfold call_hook. keeps. Qed.
Lemma keeps_number id : Keeps (number_frame id).
Proof. unfold number_frame. keeps. Qed.
Lemma keeps_write id :
  Keeps (write_frame gettime_ms my_subscriber directory_service write write_file sendto id).
Proof. unfold write_frame. keeps. Qed.
Lemma keeps_touch t i : Keeps (touch_peer t i).
Proof. unfold touch_peer. keeps. Qed.
Lemma keeps_still_wanted f l : Keeps (still_wanted f l).
Proof. induction l; cbn [still_wanted]; keeps. Qed.
Hint Resolve keeps_resolve keeps_begin keeps_hook keeps_number keeps_write keeps_touch keeps_still_wanted : keeps.
Lemma keeps_mark_sent t id : Keeps (mark_sent t id).
Proof. unfold mark_sent. keeps. Qed.
Hint Resolve keeps_mark_sent : keeps.

Lemma keeps_stuff_frame l t id :
  Keeps (stuff_frame gettime_ms my_subscriber directory_service write write_file sendto l t id).
Proof. unfold stuff_frame. keeps. Qed.

Lemma keeps_ack_wanted f l : Keeps (ack_wanted f l).
Proof. induction l; cbn [ack_wanted]; keeps. Qed.
Hint Resolve keeps_ack_wanted : keeps.
Lemma keeps_ack_frame n i m s t id : Keeps (ack_frame gettime_ms directory_service n i m s t id).
Proof. unfold ack_frame. keeps. Qed.
End keeps.

(** ** The shape of a queue *)

Definition head_or (L : list nat) (n : option nat) : option nat := match L with [] => n | i :: _ => Some i end.
Definition last_or (p : option nat) (L : list nat) : option nat := match last L with Some i => Some i | None => p end.

(** The frames [L] are linked one after the other, between [p] and [n]. *)
Fixpoint seg (h : gmap nat qframe) (p : option nat) (L : list nat) (n : option nat) : Prop :=
  match L with
  | [] => True
  | id :: L => (exists f, h !! id = Some f /\ q_prev f = p /\ q_next f = head_or L n) /\ seg h (Some id) L n
  end.

Lemma last_or_cons p i L : last_or p (i :: L) = last_or (Some i) L.
Proof. unfold last_or. rewrite last_cons. by destruct (last L). Qed.

Lemma last_or_snoc p L i : last_or p (L ++ [i]) = Some i.
Proof. unfold last_or. by rewrite last_snoc. Qed.

Lemma head_or_app L1 L2 n : head_or (L1 ++ L2) n = head_or L1 (head_or L2 n).
Proof. by destruct L1. Qed.

Lemma qseg_app h L1 L2 : forall p n, seg h p (L1 ++ L2) n <-> seg h p L1 (head_or L2 n) /\ seg h (last_or p L1) L2 n.
Proof.
  induction L1 as [|i L1 IH]; intros p n; [cbn; tauto|].
  cbn [app seg]. rewrite IH, head_or_app, last_or_cons. tauto.
Qed.

Lemma seg_ext h h' L : forall p n,
  (forall id, id ∈ L -> same_cell (h !! id) (h' !! id)) -> seg h p L n -> seg h' p L n.
Proof.
  induction L as [|i L IH]; intros p n Hh; [done|]. cbn [seg]. intros [(f & Hf & Hp & Hn) HL]. split.
  - specialize (Hh i ltac:(set_solver)). rewrite Hf in Hh. destruct (h' !! i) as [g|]; [|done].
    exists g. destruct Hh. split_and!; congruence.
  - apply IH; [|done]. intros id Hid. apply Hh. set_solver.
Qed.

Lemma seg_elem h p L n id : seg h p L n -> id ∈ L -> is_Some (h !! id).
Proof.
  revert p. induction L as [|i L IH]; intros p; [set_solver|]. cbn. intros [(f & Hf & _) HL] [->|Hid]%elem_of_cons; [eauto|].
  by eapply IH.
Qed.

(** The heap after the frames around a removed one were joined. *)
Definition joined (p n : option nat) (h : gmap nat qframe) : gmap nat qframe :=
  let h := match p with Some i => alter (fun g => set_next g n) i h | None => h end in
  match n with Some i => alter (fun g => set_prev g p) i h | None => h end.

Lemma joined_other p n h id : p <> Some id -> n <> Some id -> joined p n h !! id = h !! id.
Proof.
  intros Hp Hn. unfold joined. destruct n as [j|].
  - rewrite lookup_alter_ne by congruence. destruct p; [|done]. by rewrite lookup_alter_ne by congruence.
  - destruct p; [|done]. by rewrite lookup_alter_ne by congruence.
Qed.

Lemma joined_seg_before h L1 id n :
  NoDup (L1 ++ [id]) -> (forall x, n = Some x -> x ∉ L1) ->
  seg h None L1 (Some id) -> seg (delete id (joined (last L1) n h)) None L1 n.
Proof.
  intros Hnd Hn HL. destruct L1 as [|a L1 _] using rev_ind; [done|].
  rewrite last_snoc. apply qseg_app in HL as [H1 H2]. apply qseg_app.
  apply NoDup_app in Hnd as (Hnd & Hid & _). apply NoDup_app in Hnd as (Hnd & Ha & _).
  cbn [head_or seg] in *. destruct H2 as [(f & Hf & Hp & Hx) _].
  assert (a <> id) by (intros ->; apply (Hid id); set_solver). assert (n <> Some a) by (intros E; apply (Hn a E); set_solver).
  split.
  - eapply seg_ext; [|exact H1]. intros j Hj. assert (j <> a) by (intros ->; by apply (Ha a); [|set_solver]).
    assert (j <> id) by (intros ->; apply (Hid id); set_solver).
    rewrite lookup_delete_ne, joined_other by (congruence || (intros E; apply (Hn j E); set_solver)). reflexivity.
  - split; [|done]. exists (set_next f n). split; [|done]. rewrite lookup_delete_ne by done.
    unfold joined. destruct n as [j|]; [rewrite lookup_alter_ne by congruence|]; by rewrite lookup_alter_eq, Hf.
Qed.

Lemma joined_seg_after h L2 id p :
  NoDup (id :: L2) -> (forall x, p = Some x -> x ∉ L2) ->
  seg h (Some id) L2 None -> seg (delete id (joined p (head L2) h)) p L2 None.
Proof.
  intros Hnd Hp HL. destruct L2 as [|b L2]; [done|]. cbn [head seg] in *.
  destruct HL as [(f & Hf & Hx & Hn) HL]. rewrite !NoDup_cons in Hnd. destruct Hnd as (Hid & Hb & Hnd).
  assert (b <> id) by set_solver. assert (p <> Some b) by (intros E; apply (Hp b E); set_solver). split.
  - exists (set_prev f p). split; [|done]. rewrite lookup_delete_ne by done. unfold joined. rewrite lookup_alter_eq.
    destruct p as [j|]; [rewrite lookup_alter_ne by congruence|]; by rewrite Hf.
  - eapply seg_ext; [|exact HL]. intros j Hj. assert (j <> b) by set_solver. assert (j <> id) by set_solver.
    rewrite lookup_delete_ne, joined_other by (congruence || (intros E; apply (Hp j E); set_solver)). reflexivity.
Qed.

Lemma joined_seg h L1 id L2 :
  NoDup (L1 ++ id :: L2) -> seg h None (L1 ++ id :: L2) None ->
  seg (delete id (joined (last L1) (head L2) h)) None (L1 ++ L2) None.
Proof.
  intros Hnd HL. apply qseg_app in HL as [H1 [_ H2]]. cbn [head_or] in H1. apply qseg_app.
  pose proof Hnd as (N1 & N12 & N2)%NoDup_app. split.
  - replace (head_or L2 None) with (head L2) by (by destruct L2). apply joined_seg_before; [|..|done].
    + apply NoDup_app. split; [done|]. split; [set_solver|apply NoDup_singleton].
    + intros x Hx Hin. apply head_Some_elem_of in Hx. apply (N12 x Hin). set_solver.
  - replace (last_or None L1) with (last L1) by (unfold last_or; by destruct (last L1)).
    apply joined_seg_after; [done| |done]. intros x Hx Hin. apply last_Some_elem_of in Hx.
    apply (N12 x Hx). set_solver.
Qed.

(** ** The invariant *)

Record queue_ok (q : overlay_txqueue) (L : list nat) : Prop := {
  qo_first : q_first q = head L;
  qo_last : q_last q = last L;
  qo_length : q_length q = Z.of_nat (length L);
  qo_max : q_length q <= maxLength q <= INT_MAX
}.

(** The queues hold the frames [Ls]; the frames [P] are held by callers. *)
Record queues_wf (P : list nat) (Ls : list (list nat)) (w : qworld) : Prop := {
  qw_count : length Ls = Z.to_nat OQ_MAX;
  qw_queues : Forall2 queue_ok (overlay_tx w) Ls;
  qw_seg k L : Ls !! k = Some L -> seg (q_heap w) None L None;
  qw_nodup : NoDup (P ++ concat Ls);
  qw_heap id : is_Some (q_heap w !! id) <-> id ∈ P ++ concat Ls;
  qw_queue k L id f : Ls !! k = Some L -> id ∈ L -> q_heap w !! id = Some f -> queue (q_frame f) = Z.of_nat k;
  qw_arrays id f : q_heap w !! id = Some f ->
    length (interface_sent_sequence f) = OVERLAY_MAX_INTERFACES /\
    length (interface_dont_send_until f) = OVERLAY_MAX_INTERFACES;
  qw_owned id f : id ∈ P -> q_heap w !! id = Some f -> q_prev f = None /\ q_next f = None;
  qw_fresh id : is_Some (q_heap w !! id) -> (id < q_next_id w)%nat
}.

Lemma kept_cell w w' id g : kept w w' -> q_heap w' !! id = Some g -> exists f, q_heap w !! id = Some f /\ same_links f g.
Proof. intros K Hg. pose proof (kp_heap _ _ K id) as H. rewrite Hg in H. destruct (q_heap w !! id) as [f|]; [eauto|done]. Qed.

Lemma kept_some w w' id : kept w w' -> is_Some (q_heap w' !! id) <-> is_Some (q_heap w !! id).
Proof.
  intros K. pose proof (kp_heap _ _ K id) as H. destruct (q_heap w !! id), (q_heap w' !! id); cbn in H; done.
Qed.

Lemma kept_wf P Ls w w' : kept w w' -> queues_wf P Ls w -> queues_wf P Ls w'.
Proof.
  intros K W. split.
  - apply W.
  - rewrite (kp_tx _ _ K). apply W.
  - intros k L HL. eapply seg_ext; [|by eapply qw_seg]. intros id _. apply K.
  - apply W.
  - intros id. rewrite (kept_some _ _ _ K). apply W.
  - intros k L id g HL Hid Hg. destruct (kept_cell _ _ _ _ K Hg) as (f & Hf & S).
    rewrite (sl_queue _ _ S). by eapply qw_queue.
  - intros id g Hg. destruct (kept_cell _ _ _ _ K Hg) as (f & Hf & S). apply (qw_arrays _ _ _ W) in Hf as [].
    split; by apply S.
  - intros id g Hid Hg. destruct (kept_cell _ _ _ _ K Hg) as (f & Hf & S). rewrite (sl_prev _ _ S), (sl_next _ _ S).
    by eapply qw_owned.
  - intros id Hid. rewrite (kp_id _ _ K). apply (qw_fresh _ _ _ W). by apply (kept_some _ _ _ K).
Qed.

(** The frames of one queue and of the others. *)
Lemma concat_split Ls k (L : list nat) : Ls !! k = Some L ->
  exists R : list nat, concat Ls ≡ₚ L ++ R /\ (forall L', concat (<[k := L']> Ls) ≡ₚ L' ++ R) /\
    (forall j L', j <> k -> Ls !! j = Some L' -> L' ⊆ R).
Proof.
  intros HL. exists (concat (take k Ls) ++ concat (drop (S k) Ls)). pose proof (lookup_lt_Some _ _ _ HL) as Hlt.
  assert (E : forall L', concat (<[k := L']> Ls) ≡ₚ L' ++ concat (take k Ls) ++ concat (drop (S k) Ls)).
  { intros L'. rewrite insert_take_drop, concat_app by done. cbn [concat]. rewrite Permutation_app_swap_app. done. }
  split; [|split; [done|]].
  - rewrite <-(list_insert_id Ls k L HL) at 1. apply E.
  - intros j L' Hj HL' x Hx. apply elem_of_app. destruct (decide (j < k)%nat).
    + left. apply list_elem_of_In, in_concat. exists L'. split; [|by apply list_elem_of_In].
      apply list_elem_of_In. eapply (list_elem_of_lookup_2 _ j). by rewrite lookup_take_lt by lia.
    + right. assert (S k + (j - S k) = j)%nat as Ej by lia. apply list_elem_of_In, in_concat. exists L'. split; [|by apply list_elem_of_In].
      apply list_elem_of_In. eapply (list_elem_of_lookup_2 _ (j - S k)). by rewrite lookup_drop, Ej.
Qed.

Lemma elem_of_queue Ls k (L : list nat) id : Ls !! k = Some L -> id ∈ L -> id ∈ concat Ls.
Proof. intros HL Hid. apply list_elem_of_In, in_concat. exists L. split; apply list_elem_of_In; [by eapply list_elem_of_lookup_2|done]. Qed.

Lemma wf_tx P Ls w k L : queues_wf P Ls w -> Ls !! k = Some L -> exists q, overlay_tx w !! k = Some q /\ queue_ok q L.
Proof. intros W HL. eapply Forall2_lookup_r; [apply W|done]. Qed.

Lemma wf_queue_nodup P Ls w k L : queues_wf P Ls w -> Ls !! k = Some L -> NoDup L.
Proof.
  intros W HL. destruct (concat_split _ _ _ HL) as (R & E & _). pose proof (qw_nodup _ _ _ W) as (_ & _ & N)%NoDup_app.
  rewrite E in N. by apply NoDup_app in N as [].
Qed.

(** *** Frames of callers *)

Lemma new_frame_wf P Ls w f id w' :
  queues_wf P Ls w -> q_prev f = None -> q_next f = None ->
  length (interface_sent_sequence f) = OVERLAY_MAX_INTERFACES ->
  length (interface_dont_send_until f) = OVERLAY_MAX_INTERFACES ->
  new_frame f w = Some (id, w') -> queues_wf (id :: P) Ls w' /\ q_heap w' !! id = Some f.
Proof.
  intros W Hp Hn Hs Hu [= <- <-]. cbn. set (id := q_next_id w).
  assert (Hid : q_heap w !! id = None).
  { destruct (q_heap w !! id) eqn:E; [|done]. pose proof (qw_fresh _ _ _ W id (mk_is_Some _ _ E)). unfold id in *. lia. }
  assert (Hnot : id ∉ P ++ concat Ls) by (rewrite <-(qw_heap _ _ _ W), Hid; by intros []).
  split; [|apply lookup_insert_eq]. split; cbn.
  - apply W.
  - apply W.
  - intros k L HL. eapply seg_ext; [|by eapply qw_seg]. intros j Hj. rewrite lookup_insert_ne; [done|].
    intros <-. apply Hnot, elem_of_app. right. by eapply elem_of_queue.
  - apply NoDup_cons. split; [done|apply W].
  - intros j. rewrite elem_of_cons, <-(qw_heap _ _ _ W), lookup_insert_is_Some'. naive_solver.
  - intros k L j g HL Hj. rewrite lookup_insert_ne; [by eapply qw_queue|].
    intros <-. apply Hnot, elem_of_app. right. by eapply elem_of_queue.
  - intros j g [[<- <-]|[Hne Hg]]%lookup_insert_Some; [done|by eapply qw_arrays].
  - intros j g Hj [[<- <-]|[Hne Hg]]%lookup_insert_Some; [done|]. eapply qw_owned; [done| |done]. set_solver.
  - intros j. rewrite lookup_insert_is_Some'. intros [<-|Hj]; [unfold id; lia|]. apply (qw_fresh _ _ _ W) in Hj. lia.
Qed.

Lemma qbind_inv {A B} (m : QM A) (f : A -> QM B) w y w' :
  (m ≫= f) w = Some (y, w') -> exists x w1, m w = Some (x, w1) /\ f x w1 = Some (y, w').
Proof. unfold mbind, QM_bind. destruct (m w) as [[x w1]|]; [eauto|done]. Qed.

Lemma qbind_run {A B} (m : QM A) (f : A -> QM B) w x w1 : m w = Some (x, w1) -> (m ≫= f) w = f x w1.
Proof. intros E. unfold mbind, QM_bind. by rewrite E. Qed.

Lemma qbind_ext {A B} (m : QM A) (f g : A -> QM B) w :
  (forall x w1, m w = Some (x, w1) -> f x w1 = g x w1) -> (m ≫= f) w = (m ≫= g) w.
Proof. intros Hfg. unfold mbind, QM_bind. destruct (m w) as [[x w1]|]; [by apply Hfg|done]. Qed.

Lemma get_frame_run id w f : q_heap w !! id = Some f -> get_frame id w = Some (f, w).
Proof. intros E. unfold get_frame. by rewrite E. Qed.
Lemma get_queue_run k w q : overlay_tx w !! k = Some q -> get_queue k w = Some (q, w).
Proof. intros E. unfold get_queue. by rewrite E. Qed.
Lemma q_lift_run {A} (x : A) w : q_lift (Some x) w = Some (x, w).
Proof. done. Qed.

Lemma get_frame_inv id w f w' : get_frame id w = Some (f, w') -> w' = w /\ q_heap w !! id = Some f.
Proof. unfold get_frame. destruct (_ !! id) eqn:E; [|done]. by intros [= <- <-]. Qed.

Lemma get_queue_inv k w q w' : get_queue k w = Some (q, w') -> w' = w /\ overlay_tx w !! k = Some q.
Proof. unfold get_queue. destruct (overlay_tx w !! k) eqn:E; [|done]. by intros [= <- <-]. Qed.

(** Freeing a frame that is in no list. *)
Lemma op_free_unlinked w id f r w' :
  q_heap w !! id = Some f ->
  (forall p g, q_prev f = Some p -> q_heap w !! p = Some g -> q_next g <> Some id) ->
  (forall n g, q_next f = Some n -> q_heap w !! n = Some g -> q_prev g <> Some id) ->
  op_free (Some id) w = Some (r, w') ->
  r = 0 /\ overlay_tx w' = overlay_tx w /\ q_next_id w' = q_next_id w /\ q_heap w' = delete id (q_heap w).
Proof.
  intros Hf Hp Hn E. unfold op_free in E.
  apply qbind_inv in E as (f' & w1 & [-> Hf']%get_frame_inv & E). simplify_eq.
  apply qbind_inv in E as (b & w1 & Eb & E).
  assert (w1 = w /\ b = false) as [-> ->].
  { destruct (q_prev f) as [p|] eqn:Ep; [|by injection Eb as <- <-].
    apply qbind_inv in Eb as (g & w2 & [-> Hg]%get_frame_inv & Eb). injection Eb as <- <-.
    split; [done|]. apply bool_decide_false. by eapply Hp. }
  apply qbind_inv in E as (b & w1 & Ec & E).
  assert (w1 = w /\ b = false) as [-> ->].
  { destruct (q_next f) as [p|] eqn:Ep; [|by injection Ec as <- <-].
    apply qbind_inv in Ec as (g & w2 & [-> Hg]%get_frame_inv & Ec). injection Ec as <- <-.
    split; [done|]. apply bool_decide_false. by eapply Hn. }
  apply qbind_inv in E as ([] & w1 & Em & E). injection E as <- <-. cbn.
  assert (overlay_tx w1 = overlay_tx w /\ q_next_id w1 = q_next_id w /\ q_heap w1 = q_heap w) as (-> & -> & ->); [|done].
  destruct (payload _); [|by injection Em as <-]. revert Em. unfold based, routed.
  destruct (base _ _) as [[[] r]|]; [|done]. by intros [= <-].
Qed.

Lemma op_free_wf P Ls w id r w' :
  queues_wf (id :: P) Ls w -> op_free (Some id) w = Some (r, w') ->
  r = 0 /\ queues_wf P Ls w' /\ q_heap w' = delete id (q_heap w).
Proof.
  intros W E. assert (Hid : is_Some (q_heap w !! id)) by (apply (qw_heap _ _ _ W); set_solver).
  destruct Hid as [f Hf]. destruct (qw_owned _ _ _ W id f ltac:(set_solver) Hf) as [Hp Hn].
  apply (op_free_unlinked w id f) in E as (-> & Ht & Hi & Hh); [|done|congruence|congruence].
  split; [done|]. split; [|done]. pose proof (qw_nodup _ _ _ W) as Hnd. cbn in Hnd. apply NoDup_cons in Hnd as [Hnot Hnd].
  split; rewrite ?Ht, ?Hi, ?Hh; try apply W; try done.
  - intros k L HL. eapply seg_ext; [|by eapply qw_seg]. intros j Hj. rewrite lookup_delete_ne; [done|].
    intros <-. apply Hnot, elem_of_app. right. by eapply elem_of_queue.
  - intros j. rewrite lookup_delete_is_Some, (qw_heap _ _ _ W). cbn. rewrite elem_of_cons. set_solver.
  - intros k L j g HL Hj [_ Hg]%lookup_delete_Some. by eapply qw_queue.
  - intros j g [_ Hg]%lookup_delete_Some. by eapply qw_arrays.
  - intros j g Hj [_ Hg]%lookup_delete_Some. eapply qw_owned; [done| |done]. set_solver.
  - intros j [_ Hj]%lookup_delete_is_Some. by apply (qw_fresh _ _ _ W).
Qed.

(** *** Removing *)

(** A frame with the same fields but the links. *)
Definition same_data (f g : qframe) : Prop := g = set_prev (set_next f (q_next g)) (q_prev g).

#[export] Instance same_data_preorder : PreOrder same_data.
Proof. split; [by intros []|]. intros [] [] [] H1 H2. unfold same_data, set_prev, set_next in *. cbn in *. injection H1. injection H2. intros. by subst. Qed.

Lemma on_frame_run id g x w :
  q_heap w !! id = Some x -> on_frame id g w = Some (tt, set_heap w (alter g id (q_heap w))).
Proof.
  intros Hx. unfold on_frame, get_frame. unfold mbind, QM_bind. rewrite Hx. unfold put_frame, modify.
  assert (E : <[id := g x]> (q_heap w) = alter g id (q_heap w)); [|cbn; by rewrite E].
  apply map_eq. intros j. destruct (decide (id = j)) as [<-|].
  - by rewrite lookup_insert_eq, lookup_alter_eq, Hx.
  - by rewrite lookup_insert_ne, lookup_alter_ne.
Qed.

Lemma joined_prev p n h x : h !! p = Some x -> n <> Some p -> joined (Some p) n h !! p = Some (set_next x n).
Proof.
  intros Hx Hn. unfold joined. destruct n as [j|]; [rewrite lookup_alter_ne by congruence|]; by rewrite lookup_alter_eq, Hx.
Qed.

Lemma joined_next p n h x : h !! n = Some x -> p <> Some n -> joined p (Some n) h !! n = Some (set_prev x p).
Proof.
  intros Hx Hp. unfold joined. rewrite lookup_alter_eq. destruct p as [j|]; [rewrite lookup_alter_ne by congruence|]; by rewrite Hx.
Qed.

Lemma joined_same p n h id : option_relation same_data (fun _ => False) (fun _ => False) (h !! id) (joined p n h !! id).
Proof.
  assert (R : forall o : option qframe, option_relation same_data (fun _ => False) (fun _ => False) o o) by (intros [[]|]; done).
  unfold joined. destruct n as [j|], p as [i|]; repeat (rewrite lookup_alter; case_decide); try done;
    subst; destruct (h !! _) as [[]|]; done.
Qed.

(** The queue after the removal of [id] from [L1 ++ id :: L2]. *)
Definition queue_without (q : overlay_txqueue) (L1 L2 : list nat) : overlay_txqueue :=
  let q := match L1 with [] => set_first q (head L2) | _ => q end in
  let q := match L2 with [] => set_last q (last L1) | _ => q end in
  set_q_length q (q_length q - 1).

Lemma queue_without_ok q L1 id L2 : queue_ok q (L1 ++ id :: L2) -> queue_ok (queue_without q L1 L2) (L1 ++ L2).
Proof.
  intros [Hf Hl Hn Hm]. rewrite length_app in Hn. cbn [length] in Hn.
  assert (E : q_length (queue_without q L1 L2) = q_length q - 1) by (by destruct L1, L2).
  assert (Em : maxLength (queue_without q L1 L2) = maxLength q) by (by destruct L1, L2).
  split.
  - destruct L1, L2; cbn in *; done.
  - destruct L2 as [|b L2]; [destruct L1; cbn; by rewrite ?app_nil_r|].
    rewrite last_app_cons. rewrite last_app_cons, last_cons_cons in Hl. by destruct L1.
  - rewrite E, length_app. lia.
  - rewrite E, Em. lia.
Qed.

(** The two ends that removal updates. *)
Lemma remove_prev P Ls w k L1 id L2 q :
  queues_wf P Ls w -> Ls !! k = Some (L1 ++ id :: L2) -> overlay_tx w !! k = Some q -> queue_ok q (L1 ++ id :: L2) ->
  (match last L1 with
   | Some p => on_frame p (fun g => set_next g (head L2))
   | None => q ← get_queue k; if bool_decide (q_first q = Some id) then put_queue k (set_first q (head L2)) else mret tt
   end) w = Some (tt, set_heap (set_overlay_tx w (<[k := match L1 with [] => set_first q (head L2) | _ => q end]> (overlay_tx w)))
                    (match last L1 with Some p => alter (fun g => set_next g (head L2)) p (q_heap w) | None => q_heap w end)).
Proof.
  intros W HL Hq Ok. destruct L1 as [|a L1 _] using rev_ind.
  - cbn [last]. unfold get_queue. unfold mbind, QM_bind. rewrite Hq. cbn.
    rewrite bool_decide_true by (by rewrite (qo_first _ _ Ok)). done.
  - rewrite last_snoc. pose proof (qw_seg _ _ _ W _ _ HL) as S. apply qseg_app in S as [S _]. apply qseg_app in S as [_ [(x & Hx & _) _]].
    rewrite (on_frame_run a _ x) by done. f_equal. f_equal. destruct w; cbn in *. unfold set_heap. cbn.
    f_equal. rewrite list_insert_id; [done|]. destruct L1; done.
Qed.

Lemma remove_next w k q (p : option nat) id L1 L2 L :
  overlay_tx w !! k = Some q -> q_last q = last L -> L = L1 ++ id :: L2 ->
  (forall b L2', L2 = b :: L2' -> is_Some (q_heap w !! b)) ->
  (match head L2 with
   | Some n => on_frame n (fun g => set_prev g p)
   | None => q ← get_queue k; if bool_decide (q_last q = Some id) then put_queue k (set_last q p) else mret tt
   end) w = Some (tt, set_heap (set_overlay_tx w (<[k := match L2 with [] => set_last q p | _ => q end]> (overlay_tx w)))
                    (match head L2 with Some n => alter (fun g => set_prev g p) n (q_heap w) | None => q_heap w end)).
Proof.
  intros Hq Hl -> Hb. destruct L2 as [|b L2]; cbn [head].
  - unfold get_queue. unfold mbind, QM_bind. rewrite Hq. cbn.
    rewrite bool_decide_true by (by rewrite Hl, last_snoc). done.
  - destruct (Hb b L2 eq_refl) as [x Hx]. rewrite (on_frame_run b _ x) by done. f_equal. f_equal.
    destruct w; cbn in *. unfold set_heap. cbn. f_equal. by rewrite list_insert_id.
Qed.

(** The state before the frame is freed. *)
Definition unlinked (k : nat) (q : overlay_txqueue) (L1 L2 : list nat) (w : qworld) : qworld :=
  set_heap (set_overlay_tx w (<[k := queue_without q L1 L2]> (overlay_tx w))) (joined (last L1) (head L2) (q_heap w)).

Lemma remove_run P Ls w k L1 id L2 q :
  queues_wf P Ls w -> Ls !! k = Some (L1 ++ id :: L2) -> overlay_tx w !! k = Some q -> queue_ok q (L1 ++ id :: L2) ->
  overlay_queue_remove k id w = (_ ← op_free (Some id); mret (head L2)) (unlinked k q L1 L2 w).
Proof.
  intros W HL Hq Ok. pose proof (qw_seg _ _ _ W _ _ HL) as S. apply qseg_app in S as [S1 [(f & Hf & Hp & Hn) S2]].
  assert (Hp' : q_prev f = last L1) by (rewrite Hp; unfold last_or; by destruct (last L1)).
  assert (Hn' : q_next f = head L2) by (rewrite Hn; by destruct L2).
  pose proof (remove_prev P Ls w k L1 id L2 q W HL Hq Ok) as E1.
  assert (Hlt : (k < length (overlay_tx w))%nat) by (by eapply lookup_lt_Some).
  pose proof (wf_queue_nodup _ _ _ _ _ W HL) as (_ & N & _)%NoDup_app.
  set (q1 := match L1 with [] => set_first q (head L2) | _ => q end) in *.
  set (w1 := set_heap _ _) in E1.
  assert (Hq1 : overlay_tx w1 !! k = Some q1) by (cbn; by rewrite list_lookup_insert_eq).
  assert (Hl1 : q_last q1 = last (L1 ++ id :: L2)) by (unfold q1; destruct L1; apply Ok).
  assert (Hb : forall b L2', L2 = b :: L2' -> is_Some (q_heap w1 !! b)).
  { intros b L2' ->. destruct S2 as [(x & Hx & _) _]. cbn. destruct (last L1); [|eauto]. rewrite lookup_alter_is_Some. eauto. }
  pose proof (remove_next w1 k q1 (last L1) id L1 L2 _ Hq1 Hl1 eq_refl Hb) as E2.
  set (q2 := match L2 with [] => set_last q1 (last L1) | _ => q1 end) in E2.
  assert (Hlen : q_length q2 = q_length q) by (unfold q2, q1; by destruct L1, L2).
  assert (Hc : ci (q_length q2 - 1) = Some (q_length q2 - 1)).
  { apply ci_Some. rewrite Hlen. pose proof (qo_length _ _ Ok) as E. rewrite length_app in E. cbn [length] in E.
    pose proof (qo_max _ _ Ok). unfold INT_MIN. lia. }
  unfold overlay_queue_remove. rewrite (qbind_run _ _ _ _ _ (get_frame_run _ _ _ Hf)). rewrite Hp', Hn'.
  set (w2 := set_heap (set_overlay_tx w1 _) _) in E2.
  assert (Hq2 : overlay_tx w2 !! k = Some q2) by (cbn; rewrite list_lookup_insert_eq; [done|by rewrite length_insert]).
  rewrite (qbind_run _ _ _ _ _ E1), (qbind_run _ _ _ _ _ E2), (qbind_run _ _ _ _ _ (get_queue_run _ _ _ Hq2)).
  rewrite Hc, (qbind_run _ _ _ _ _ (q_lift_run _ _)).
  unfold unlinked, queue_without. cbv zeta. fold q1 q2.
  change (put_queue k (set_q_length q2 (q_length q2 - 1)))
    with (modify (fun w => set_overlay_tx w (<[k := set_q_length q2 (q_length q2 - 1)]> (overlay_tx w)))).
  unfold modify, mbind at 1, QM_bind at 1, w2, w1. cbn [overlay_tx set_heap set_overlay_tx q_heap].
  rewrite !list_insert_insert_eq. done.
Qed.

Lemma unlinked_frame P Ls w k L1 id L2 q :
  queues_wf P Ls w -> Ls !! k = Some (L1 ++ id :: L2) ->
  exists f, q_heap w !! id = Some f /\ q_heap (unlinked k q L1 L2 w) !! id = Some f /\
    (forall p g, q_prev f = Some p -> q_heap (unlinked k q L1 L2 w) !! p = Some g -> q_next g <> Some id) /\
    (forall n g, q_next f = Some n -> q_heap (unlinked k q L1 L2 w) !! n = Some g -> q_prev g <> Some id).
Proof.
  intros W HL. pose proof (qw_seg _ _ _ W _ _ HL) as S. apply qseg_app in S as [S1 [(f & Hf & Hp & Hn) S2]].
  pose proof (wf_queue_nodup _ _ _ _ _ W HL) as Hnd. apply NoDup_app in Hnd as (_ & N & Hnd). apply NoDup_cons in Hnd as [Nid _].
  assert (Hl : forall x, last L1 = Some x -> x <> id /\ head L2 <> Some x).
  { intros x Hx%last_Some_elem_of. specialize (N x Hx). split; [set_solver|].
    intros Hh%head_Some_elem_of. set_solver. }
  assert (Hh : forall x, head L2 = Some x -> x <> id) by (intros x Hx%head_Some_elem_of ->; done).
  assert (Hp' : q_prev f = last L1) by (rewrite Hp; unfold last_or; by destruct (last L1)).
  assert (Hn' : q_next f = head L2) by (rewrite Hn; by destruct L2).
  exists f. split; [done|]. cbn [unlinked q_heap set_heap]. split; [|split].
  - rewrite joined_other; [done|intros E; by apply Hl in E as []|intros E; by apply Hh in E].
  - intros p g Ep. rewrite Hp' in Ep. destruct (Hl _ Ep) as [_ Hpn]. rewrite Ep. unfold joined.
    destruct (head L2) as [n|] eqn:En; [rewrite lookup_alter_ne by congruence|]; rewrite lookup_alter_eq;
      intros (x & Hx & ->)%fmap_Some; cbn; [|done]. intros [= ->]. by apply (Hh id).
  - intros n g En. rewrite Hn' in En. rewrite En. unfold joined. rewrite lookup_alter_eq.
    intros (x & Hx & ->)%fmap_Some. cbn. intros E. by apply Hl in E as [].
Qed.

Lemma remove_wf P Ls w k L1 id L2 r w' :
  queues_wf P Ls w -> Ls !! k = Some (L1 ++ id :: L2) -> overlay_queue_remove k id w = Some (r, w') ->
  r = head L2 /\ queues_wf P (<[k := L1 ++ L2]> Ls) w' /\ q_heap w' !! id = None /\
  (forall j g, q_heap w' !! j = Some g -> exists f, q_heap w !! j = Some f /\ same_data f g).
Proof.
  intros W HL E. destruct (wf_tx _ _ _ _ _ W HL) as (q & Hq & Ok).
  rewrite (remove_run P Ls w k L1 id L2 q) in E by done.
  destruct (unlinked_frame P Ls w k L1 id L2 q W HL) as (f & Hf & Hf' & Hpf & Hnf).
  apply qbind_inv in E as (? & w1 & E & [= <- <-]).
  apply (op_free_unlinked _ _ f) in E as (_ & Ht & Hi & Hh); [|done..].
  assert (Ht' : overlay_tx w1 = <[k := queue_without q L1 L2]> (overlay_tx w)) by (rewrite Ht; done).
  assert (Hi' : q_next_id w1 = q_next_id w) by (rewrite Hi; done).
  assert (Hh' : q_heap w1 = delete id (joined (last L1) (head L2) (q_heap w))) by (rewrite Hh; done). clear Ht Hi Hh.
  assert (Hsame : forall j g, q_heap w1 !! j = Some g -> j <> id /\ exists f, q_heap w !! j = Some f /\ same_data f g).
  { intros j g. rewrite Hh'. intros [Hj Hg]%lookup_delete_Some. split; [done|].
    pose proof (joined_same (last L1) (head L2) (q_heap w) j) as S. rewrite Hg in S. destruct (q_heap w !! j); [eauto|done]. }
  destruct (concat_split _ _ _ HL) as (R & E1 & E2 & E3). pose proof (wf_queue_nodup _ _ _ _ _ W HL) as Hnd.
  assert (Hall : P ++ concat Ls ≡ₚ id :: P ++ concat (<[k := L1 ++ L2]> Ls)).
  { rewrite E1, E2. rewrite <-!app_assoc. cbn. by rewrite <-!Permutation_middle. }
  pose proof (qw_nodup _ _ _ W) as Hnd'. rewrite Hall in Hnd'. apply NoDup_cons in Hnd' as [Hid Hnd'].
  split; [done|]. split; [|split; [by rewrite Hh', lookup_delete_eq|intros j g Hg; by apply Hsame in Hg as []]]. split.
  - rewrite length_insert. apply W.
  - rewrite Ht'. apply Forall2_insert; [apply W|by eapply queue_without_ok].
  - intros j L. rewrite Hh'. destruct (decide (j = k)) as [->|Hjk].
    + rewrite list_lookup_insert_eq by (by eapply lookup_lt_Some). intros [= <-].
      apply joined_seg; [done|by eapply qw_seg].
    + rewrite list_lookup_insert_ne by done. intros HLj. eapply seg_ext; [|by eapply qw_seg].
      intros y Hy. assert (y ∉ L1 ++ id :: L2).
      { pose proof (qw_nodup _ _ _ W) as (_ & _ & N)%NoDup_app. rewrite E1 in N. apply NoDup_app in N as (_ & N & _).
        intros Hin. apply (N y Hin). by eapply E3. }
      rewrite lookup_delete_ne, joined_other; [done|..].
      * intros E%last_Some_elem_of. set_solver.
      * intros E%head_Some_elem_of. set_solver.
      * set_solver.
  - done.
  - intros j. rewrite Hh', lookup_delete_is_Some. 
    assert (Hs : is_Some (joined (last L1) (head L2) (q_heap w) !! j) <-> is_Some (q_heap w !! j)).
    { pose proof (joined_same (last L1) (head L2) (q_heap w) j) as S. by destruct (q_heap w !! j), (joined _ _ _ !! j). }
    rewrite Hs, (qw_heap _ _ _ W), Hall, elem_of_cons. naive_solver.
  - intros j L y g HLj Hy Hg. destruct (Hsame _ _ Hg) as (Hxid & f0 & Hf0 & S). rewrite S. cbn.
    destruct (decide (j = k)) as [->|Hjk].
    + rewrite list_lookup_insert_eq in HLj by (by eapply lookup_lt_Some). injection HLj as <-.
      eapply qw_queue; [done|exact HL| |done]. set_solver.
    + rewrite list_lookup_insert_ne in HLj by done. by eapply qw_queue.
  - intros j g Hg. destruct (Hsame _ _ Hg) as (_ & f0 & Hf0 & S). rewrite S. cbn. by eapply qw_arrays.
  - intros j g Hj Hg. rewrite Hh' in Hg. apply lookup_delete_Some in Hg as [Hne Hg].
    assert (Hc : j ∉ concat Ls) by (pose proof (qw_nodup _ _ _ W) as (_ & N & _)%NoDup_app; by apply N).
    assert (Hc' : j ∉ L1 ++ id :: L2) by (intros Hin; apply Hc; by eapply elem_of_queue).
    rewrite joined_other in Hg; [by eapply qw_owned|..].
    + intros E%last_Some_elem_of. set_solver.
    + intros E%head_Some_elem_of. set_solver.
  - intros j [g Hg]. rewrite Hi'. apply (qw_fresh _ _ _ W). destruct (Hsame _ _ Hg) as (_ & f0 & -> & _). eauto.
Qed.

(** *** Adding *)

Definition set_last_next (L : list nat) (id : nat) (h : gmap nat qframe) : gmap nat qframe :=
  match last L with Some l => alter (fun g => set_next g (Some id)) l h | None => h end.

Lemma set_last_next_other L id h j : j ∉ L -> set_last_next L id h !! j = h !! j.
Proof.
  intros Hj. unfold set_last_next. destruct (last L) as [l|] eqn:E; [|done]. apply lookup_alter_ne. intros ->.
  by apply last_Some_elem_of in E.
Qed.

Lemma set_last_next_same L id h j :
  option_relation same_data (fun _ => False) (fun _ => False) (h !! j) (set_last_next L id h !! j).
Proof.
  unfold set_last_next. destruct (last L) as [l|]; [rewrite lookup_alter; case_decide; subst|]; by destruct (h !! _) as [[]|].
Qed.

Lemma linked_seg h L id (g : qframe -> qframe) :
  NoDup (L ++ [id]) -> seg h None L None -> is_Some (h !! id) ->
  (forall f, q_prev (g f) = last L /\ q_next (g f) = None) ->
  seg (alter g id (set_last_next L id h)) None (L ++ [id]) None.
Proof.
  intros Hnd HL [f Hf] Hg. apply NoDup_app in Hnd as (Hnd & Hid & _). apply qseg_app. cbn [head_or seg].
  assert (Hnot : id ∉ L) by set_solver. split; [|split; [|done]].
  - destruct L as [|a L _] using rev_ind; [done|]. apply qseg_app in HL as [H1 [(x & Hx & Hp & Hn) _]]. apply qseg_app.
    apply NoDup_app in Hnd as (_ & Ha & _). unfold set_last_next. rewrite last_snoc. split.
    + eapply seg_ext; [|exact H1]. intros j Hj. rewrite !lookup_alter_ne; [done|set_solver|set_solver].
    + split; [|done]. exists (set_next x (Some id)). rewrite lookup_alter_ne by set_solver. rewrite lookup_alter_eq, Hx. done.
  - exists (g f). rewrite lookup_alter_eq, set_last_next_other, Hf by done. destruct (Hg f) as [-> ->].
    split; [done|]. split; [|done]. unfold last_or. by destruct (last L).
Qed.

(** What adding writes to the frame. *)
Definition added_frame (prev : option nat) (t : Z) (f : qframe) : qframe :=
  let o := set_frame_sequence (q_frame f) (-1) in
  let o := if f_packet_version o =? 0
           then set_frame_route o (destination_resolved o) (next_hop o) (recvaddr o) (f_interface o) 1 else o in
  set_enqueued_at (set_next (set_prev (set_q_frame f o) prev) None) t.

Definition queue_with (q : overlay_txqueue) (id : nat) : overlay_txqueue :=
  set_q_length (set_first (set_last q (Some id)) (match q_first q with None => Some id | Some i => Some i end)) (q_length q + 1).

Lemma queue_with_ok q L id : queue_ok q L -> q_length q < maxLength q -> queue_ok (queue_with q id) (L ++ [id]).
Proof.
  intros [Hf Hl Hn Hm] Hlt. split; cbn.
  - rewrite Hf. by destruct L.
  - by rewrite last_snoc.
  - rewrite length_app. cbn. lia.
  - lia.
Qed.

Lemma link_last_run gettime_ms P Ls w k L id f q u w' :
  queues_wf (id :: P) Ls w -> Ls !! k = Some L -> q_heap w !! id = Some f ->
  overlay_tx w !! k = Some q -> queue_ok q L -> q_length q < maxLength q ->
  link_frame_last gettime_ms k id w = Some (u, w') ->
  overlay_tx w' = <[k := queue_with q id]> (overlay_tx w) /\ q_next_id w' = q_next_id w /\
  exists t, q_heap w' = alter (added_frame (last L) t) id (set_last_next L id (q_heap w)).
Proof.
  intros W HL Hf Hq Ok Hlt E. unfold link_frame_last in E.
  rewrite (qbind_run _ _ _ _ _ (get_queue_run _ _ _ Hq)) in E. rewrite (qo_last _ _ Ok) in E.
  apply qbind_inv in E as (? & w1 & E1 & E).
  assert (w1 = set_heap w (set_last_next L id (q_heap w))) as ->.
  { unfold set_last_next. destruct (last L) as [l|] eqn:El; [|injection E1 as _ <-; by destruct w].
    destruct (seg_elem _ _ _ _ l (qw_seg _ _ _ W _ _ HL) (last_Some_elem_of _ _ El)) as [x0 Hx].
    rewrite (on_frame_run l _ x0) in E1 by done. by injection E1 as _ <-. }
  apply qbind_inv in E as (t & w2 & E2 & E).
  assert (overlay_tx w2 = overlay_tx w /\ q_next_id w2 = q_next_id w /\ q_heap w2 = set_last_next L id (q_heap w)) as (Ht & Hi & Hh).
  { revert E2. unfold q_now, routed. destruct (Route.r_now _ _) as [[y r]|]; [|done]. by intros [= <- <-]. }
  assert (Hnot : id ∉ L).
  { pose proof (qw_nodup _ _ _ W) as N. cbn in N. apply NoDup_cons in N as [N _]. intros Hin. apply N, elem_of_app. right. by eapply elem_of_queue. }
  rewrite (qbind_run _ _ _ _ _ (on_frame_run id _ f w2 ltac:(by rewrite Hh, set_last_next_other))) in E.
  rewrite (ci_Some (q_length q + 1)) in E; cycle 1.
  { pose proof (qo_length _ _ Ok). pose proof (qo_max _ _ Ok). unfold INT_MIN. lia. }
  rewrite (qbind_run _ _ _ _ _ (q_lift_run _ _)) in E. injection E as _ <-. cbn. rewrite Ht, Hi, Hh.
  split; [done|]. split; [done|]. exists t. done.
Qed.

Lemma link_last_wf gettime_ms P Ls w k L id f q u w' :
  queues_wf (id :: P) Ls w -> Ls !! k = Some L -> q_heap w !! id = Some f -> queue (q_frame f) = Z.of_nat k ->
  overlay_tx w !! k = Some q -> q_length q < maxLength q ->
  link_frame_last gettime_ms k id w = Some (u, w') ->
  queues_wf P (<[k := L ++ [id]]> Ls) w'.
Proof.
  intros W HL Hf Hqf Hq Hlt E. destruct (wf_tx _ _ _ _ _ W HL) as (q' & Hq' & Ok). assert (q' = q) as -> by congruence.
  destruct (link_last_run _ P Ls w k L id f q u w' W HL Hf Hq Ok Hlt E) as (Ht & Hi & t & Hh).
  destruct (concat_split _ _ _ HL) as (R & E1 & E2 & E3).
  assert (Hall : (id :: P) ++ concat Ls ≡ₚ P ++ concat (<[k := L ++ [id]]> Ls)).
  { rewrite E1, E2. cbn. rewrite <-!app_assoc. cbn. rewrite !Permutation_middle. by rewrite <-Permutation_middle. }
  pose proof (qw_nodup _ _ _ W) as N. cbn in N. apply NoDup_cons in N as [Nid N].
  assert (Hnot : forall j L', Ls !! j = Some L' -> id ∉ L').
  { intros j L' HL' Hin. apply Nid, elem_of_app. right. by eapply elem_of_queue. }
  assert (Hsame : forall j g, j <> id -> q_heap w' !! j = Some g -> exists f, q_heap w !! j = Some f /\ same_data f g).
  { intros j g Hj. rewrite Hh, lookup_alter_ne by done. intros Hg.
    pose proof (set_last_next_same L id (q_heap w) j) as S. rewrite Hg in S. destruct (q_heap w !! j); [eauto|done]. }
  assert (Hnew : q_heap w' !! id = Some (added_frame (last L) t f)).
  { rewrite Hh, lookup_alter_eq, set_last_next_other, Hf; [done|by eapply Hnot]. }
  assert (Hns : NoDup (L ++ [id])).
  { apply NoDup_app. split; [by eapply wf_queue_nodup|]. split; [|apply NoDup_singleton].
    intros y Hy ->%list_elem_of_singleton. by eapply Hnot. }
  split.
  - rewrite length_insert. apply W.
  - rewrite Ht. apply Forall2_insert; [apply W|by apply queue_with_ok].
  - intros j L'. rewrite Hh. destruct (decide (j = k)) as [->|Hjk].
    + rewrite list_lookup_insert_eq by (by eapply lookup_lt_Some). intros [= <-].
      apply linked_seg; [done|by eapply qw_seg|eauto|done].
    + rewrite list_lookup_insert_ne by done. intros HLj. eapply seg_ext; [|by eapply qw_seg].
      intros y Hy. pose proof (Hnot _ _ HLj) as Hid. apply NoDup_app in N as (_ & _ & N). rewrite E1 in N. apply NoDup_app in N as (_ & N & _).
      rewrite lookup_alter_ne, set_last_next_other; [done| |set_solver]. intros Hin. apply (N y Hin). by eapply E3.
  - pose proof (qw_nodup _ _ _ W) as N'. by rewrite Hall in N'.
  - intros j. rewrite <-Hall, <-(qw_heap _ _ _ W), Hh, lookup_alter_is_Some.
    pose proof (set_last_next_same L id (q_heap w) j) as S. by destruct (q_heap w !! j), (set_last_next _ _ _ !! j).
  - intros j L' y g HLj Hy Hg. destruct (decide (y = id)) as [->|Hyid].
    + assert (j = k) as ->.
      { destruct (decide (j = k)); [done|]. rewrite list_lookup_insert_ne in HLj by done. by destruct (Hnot _ _ HLj). }
      rewrite Hnew in Hg. injection Hg as <-. unfold added_frame. cbn. by case_match.
    + destruct (Hsame _ _ Hyid Hg) as (f0 & Hf0 & ->). cbn. destruct (decide (j = k)) as [->|Hjk].
      * rewrite list_lookup_insert_eq in HLj by (by eapply lookup_lt_Some). injection HLj as <-.
        eapply qw_queue; [done|exact HL| |done]. set_solver.
      * rewrite list_lookup_insert_ne in HLj by done. by eapply qw_queue.
  - intros j g Hg. destruct (decide (j = id)) as [->|Hj].
    + rewrite Hnew in Hg. injection Hg as <-. exact (qw_arrays _ _ _ W _ _ Hf).
    + destruct (Hsame _ _ Hj Hg) as (f0 & Hf0 & ->). cbn. by eapply qw_arrays.
  - intros j g Hj Hg. assert (j <> id) by (intros ->; apply Nid; set_solver).
    rewrite Hh, lookup_alter_ne, set_last_next_other in Hg; [eapply qw_owned; [done| |done]; set_solver| |done].
    intros Hin. apply NoDup_app in N as (_ & N & _). apply (N j Hj). by eapply elem_of_queue.
  - intros j Hj. rewrite Hi. apply (qw_fresh _ _ _ W). revert Hj. rewrite Hh, lookup_alter_is_Some.
    pose proof (set_last_next_same L id (q_heap w) j) as S. by destruct (q_heap w !! j), (set_last_next _ _ _ !! j).
Qed.

(** The frames callers hold are not touched. *)
Lemma link_last_held gettime_ms P Ls w k L id f q u w' j :
  queues_wf (id :: P) Ls w -> Ls !! k = Some L -> q_heap w !! id = Some f ->
  overlay_tx w !! k = Some q -> q_length q < maxLength q ->
  link_frame_last gettime_ms k id w = Some (u, w') -> j ∈ P -> q_heap w' !! j = q_heap w !! j.
Proof.
  intros W HL Hf Hq Hlt E Hj. destruct (wf_tx _ _ _ _ _ W HL) as (q' & Hq' & Ok). assert (q' = q) as -> by congruence.
  destruct (link_last_run _ P Ls w k L id f q u w' W HL Hf Hq Ok Hlt E) as (_ & _ & t & ->).
  pose proof (qw_nodup _ _ _ W) as N. cbn in N. apply NoDup_cons in N as [Nid N]. apply NoDup_app in N as (_ & N & _).
  rewrite lookup_alter_ne, set_last_next_other; [done| |set_solver].
  intros Hin. apply (N j Hj). by eapply elem_of_queue.
Qed.
