(* ===== verification/QueueProps.v ===== *)
(** QueueProps: what the transmit queues guarantee, and where they go wrong. *)

From S2P Require Import Prelude CMem OverlayBuffer OverlayBufferCodec DataFormats Slip SubscriberTree OverlayAddress PacketFormats RouteLinks Route RouteBest RouteOps Limit TxState OverlayQueue QueueInv.

(** Queues to which frames were added at the end. *)
Definition longer : list (list nat) -> list (list nat) -> Prop := Forall2 (fun L L' => L `prefix_of` L').

#[export] Instance longer_preorder : PreOrder longer.
Proof.
  split; [intros Ls; unfold longer; by induction Ls; constructor|].
  intros L1 L2 L3 H12. unfold longer. revert L3. induction H12 as [|x y L1 L2 Hxy _ IH]; intros L3 H3; [done|].
  inversion H3; subst. constructor; [by etransitivity|by apply IH].
Qed.

(** Queues from which frames were removed. *)
Definition shorter : list (list nat) -> list (list nat) -> Prop := Forall2 (fun L L' => L' `sublist_of` L).

#[export] Instance shorter_preorder : PreOrder shorter.
Proof.
  split; [intros Ls; unfold shorter; by induction Ls; constructor|].
  intros L1 L2 L3 H12. unfold shorter. revert L3. induction H12 as [|x y L1 L2 Hxy _ IH]; intros L3 H3; [done|].
  inversion H3; subst. constructor; [by etransitivity|by apply IH].
Qed.

Lemma shorter_insert Ls k L L' : Ls !! k = Some L -> L' `sublist_of` L -> shorter Ls (<[k := L']> Ls).
Proof. intros HL HL'. rewrite <-(list_insert_id Ls k L HL) at 1. by apply Forall2_insert; [reflexivity|]. Qed.

(** From queues [Ls] to queues [Ls']; the frames callers hold keep their fields. *)
Record grown (P : list nat) (Ls Ls' : list (list nat)) (w w' : qworld) : Prop := {
  gr_wf : queues_wf P Ls' w';
  gr_longer : longer Ls Ls';
  gr_held id : id ∈ P -> same_cell (q_heap w !! id) (q_heap w' !! id)
}.

Lemma kept_grown P Ls w w' : kept w w' -> queues_wf P Ls w -> grown P Ls Ls w w'.
Proof. intros K W. split; [by eapply kept_wf|done|]. intros id _. apply K. Qed.

Lemma grown_trans P Ls1 Ls2 Ls3 w1 w2 w3 : grown P Ls1 Ls2 w1 w2 -> grown P Ls2 Ls3 w2 w3 -> grown P Ls1 Ls3 w1 w3.
Proof.
  intros [W1 L1 H1] [W2 L2 H2]. split; [done|by etransitivity|]. intros id Hid. by etransitivity; [apply H1|apply H2].
Qed.

(** Operations that add frames at most. *)
Definition Grows {A} (m : QM A) : Prop := forall P Ls w x w',
  queues_wf P Ls w -> m w = Some (x, w') -> exists Ls', grown P Ls Ls' w w'.

Create HintDb grows.

Lemma keeps_grows {A} (m : QM A) : Keeps m -> Grows m.
Proof. intros K P Ls w x w' W E. exists Ls. apply kept_grown; [by eapply K|done]. Qed.

Lemma grows_bind {A B} (m : QM A) (f : A -> QM B) : Grows m -> (forall x, Grows (f x)) -> Grows (m ≫= f).
Proof.
  intros Hm Hf P Ls w y w' W E. apply qbind_inv in E as (x & w1 & E1 & E2).
  destruct (Hm _ _ _ _ _ W E1) as (Ls1 & G1). destruct (Hf _ _ _ _ _ _ (gr_wf _ _ _ _ _ G1) E2) as (Ls2 & G2).
  exists Ls2. by eapply grown_trans.
Qed.

Ltac grows_step :=
  match goal with
  | |- Grows (_ ≫= _) => apply grows_bind; [|intros ?]
  | |- Grows (if ?b then _ else _) => destruct b
  | |- Grows (match ?x with _ => _ end) => destruct x
  | _ => solve [eauto with grows | apply keeps_grows; keeps]
  end.
Ltac grows := repeat grows_step.

Lemma longer_insert Ls k L id : Ls !! k = Some L -> longer Ls (<[k := L ++ [id]]> Ls).
Proof.
  intros HL. rewrite <-(list_insert_id Ls k L HL) at 1. apply Forall2_insert; [reflexivity|]. by apply prefix_app_r.
Qed.

Section props.
Context `{Allocator}.
Context (gettime_ms : nat -> Z) (my_subscriber directory_service : option nat).
Context (write : nat -> list Z -> Z) (write_file : nat -> Z -> list Z -> Z).
Context (sendto : nat -> Z -> list Z -> sendto_result).
Context (olsr : bool) (probe_contents : Z -> Z -> list Z).

(** ** Adding frames *)

(** The frame [f] at [id] was added to its queue, or is still its caller's. *)
Definition added (P : list nat) (id : nat) (f : qframe) (Ls : list (list nat)) (w w' : qworld) (r : Z) : Prop :=
  exists Ls', longer Ls Ls' /\ (forall j, j ∈ P -> same_cell (q_heap w !! j) (q_heap w' !! j)) /\
    if r =? 0 then queues_wf P Ls' w' /\ exists L, Ls' !! Z.to_nat (queue (q_frame f)) = Some (L ++ [id])
    else queues_wf (id :: P) Ls' w'.

(** What an enqueue operation does with a frame its caller holds. *)
Definition adds (enqueue : option nat -> QM Z) : Prop := forall P Ls w id f r w',
  queues_wf (id :: P) Ls w -> q_heap w !! id = Some f -> 0 <= queue (q_frame f) -> enqueue (Some id) w = Some (r, w') ->
  added P id f Ls w w' r.

(** What an operation that may send probes does. *)
Definition probes (send_probe : option nat -> Z -> option nat -> Z -> QM Z) : Prop := forall p a i k, Grows (send_probe p a i k).

(** Giving up a frame that was just allocated in [w]. *)
Lemma abandon_frame P Ls Ls' w w2 id (r x : Z) w' :
  queues_wf (id :: P) Ls' w2 -> longer Ls Ls' -> (forall j, j ∈ P -> same_cell (q_heap w !! j) (q_heap w2 !! j)) ->
  (_ ← op_free (Some id); mret r : QM Z) w2 = Some (x, w') -> grown P Ls Ls' w w'.
Proof.
  intros W2 HL Hh E. apply qbind_inv in E as (? & w3 & E & [= <- <-]).
  pose proof (qw_nodup _ _ _ W2) as N. cbn in N. apply NoDup_cons in N as [Nid _].
  destruct (op_free_wf _ _ _ _ _ _ W2 E) as (_ & W3 & Hd). split; [done|done|].
  intros j Hj. rewrite Hd, lookup_delete_ne; [by apply Hh|]. intros <-. apply Nid. set_solver.
Qed.

(** The time of the last probe. *)
Lemma keeps_peer_probed (p : option nat) (g : nat -> Z -> RM unit) :
  Keeps (match p with None => mret tt | Some i => t ← q_now gettime_ms; routed (g i t) end).
Proof. destruct p; [|apply qkeeps_ret]. apply qkeeps_bind; [apply qkeeps_now|]. intros t. apply keeps_routed. Qed.

Lemma kept_held (P : list nat) w w1 w2 : kept w1 w2 ->
  (forall j, j ∈ P -> same_cell (q_heap w !! j) (q_heap w1 !! j)) ->
  forall j, j ∈ P -> same_cell (q_heap w !! j) (q_heap w2 !! j).
Proof. intros K Hh j Hj. etransitivity; [by apply Hh|apply K]. Qed.

Lemma queue_probe_grows enqueue p a i k :
  adds enqueue -> Grows (queue_probe gettime_ms my_subscriber probe_contents enqueue p a i k).
Proof.
  intros He P Ls w r w' W E. unfold queue_probe in E.
  apply qbind_inv in E as (b & w1 & E1 & E). apply (qkeeps_lift ob_new) in E1. pose proof (kept_wf _ _ _ _ E1 W) as W1.
  apply qbind_inv in E as (id & w2 & E2 & E).
  destruct (new_frame_wf P Ls w1 (probe_frame my_subscriber p a i (u8 k) b) id w2 W1 eq_refl eq_refl eq_refl eq_refl E2) as [W2 Hid].
  pose proof (qw_nodup _ _ _ W2) as N. cbn in N. apply NoDup_cons in N as [Nid _].
  assert (Hh2 : forall j, j ∈ P -> same_cell (q_heap w !! j) (q_heap w2 !! j)).
  { intros j Hj. injection E2 as <- <-. cbn. rewrite lookup_insert_ne; [apply E1|]. intros <-. apply Nid. set_solver. }
  apply qbind_inv in E as (? & w3 & E3 & E). assert (K3 : kept w2 w3) by (eapply keeps_peer_probed; exact E3).
  apply qbind_inv in E as ([r4 b4] & w4 & E4 & E). apply keeps_based in E4.
  apply qbind_inv in E as (? & w5 & E5 & E). assert (K5 : kept w4 w5) by (eapply keeps_on_frame; [|exact E5]; same_links).
  assert (K : kept w2 w5) by (etransitivity; [exact K3|etransitivity; [exact E4|exact K5]]). clear E1 E2 E3 E4 E5 K3 K5.
  destruct (negb (r4 =? 0)).
  { exists Ls. eapply abandon_frame; [by eapply kept_wf|done|by eapply kept_held|exact E]. }
  apply qbind_inv in E as ([r6 b6] & w6 & E6 & E). apply keeps_based in E6.
  apply qbind_inv in E as (? & w7 & E7 & E). assert (K7 : kept w6 w7) by (eapply keeps_on_frame; [|exact E7]; same_links).
  assert (K' : kept w2 w7) by (etransitivity; [exact K|etransitivity; [exact E6|exact K7]]). clear E6 E7 K7 K.
  destruct (negb (r6 =? 0)).
  { exists Ls. eapply abandon_frame; [by eapply kept_wf|done|by eapply kept_held|exact E]. }
  apply qbind_inv in E as (r8 & w8 & E8 & E). pose proof (kept_wf _ _ _ _ K' W2) as W7.
  pose proof (kp_heap _ _ K' id) as Hc. rewrite Hid in Hc. destruct (q_heap w7 !! id) as [f|] eqn:Hf; [|done].
  destruct (He P Ls w7 id f r8 w8 W7 Hf) as (Ls' & HL & Hh & Hr); [|done|].
  { rewrite (sl_queue _ _ Hc). cbn. unfold u8. apply Z.mod_pos_bound. lia. }
  assert (Hh8 : forall j, j ∈ P -> same_cell (q_heap w !! j) (q_heap w8 !! j)).
  { intros j Hj. etransitivity; [by eapply (kept_held P w w2 w7)|by apply Hh]. }
  exists Ls'. destruct (r8 =? 0); cbn [negb] in E.
  - injection E as _ <-. split; [apply Hr|done|done].
  - by eapply abandon_frame.
Qed.
Hint Resolve qkeeps_now keeps_may_probe : keeps.

Lemma send_probe_grows enqueue : adds enqueue -> probes (send_probe_with gettime_ms my_subscriber probe_contents enqueue).
Proof.
  intros He p a i k. pose proof (queue_probe_grows enqueue p a) as Hq. unfold send_probe_with, overlay_interface_find. grows.
Qed.

(** A frame that was refused is still its caller's. *)
Lemma refused P id f Ls Ls' w w' : grown (id :: P) Ls Ls' w w' -> added P id f Ls w w' (-1).
Proof. intros [W HL Hh]. exists Ls'. split; [done|]. split; [|done]. intros j Hj. apply Hh. set_solver. Qed.

(** Once there is room and somewhere to send it, the frame is put into its queue. *)
Lemma link_adds P Ls Ls1 w w1 id f q r w' :
  grown (id :: P) Ls Ls1 w w1 -> q_heap w !! id = Some f -> 0 <= queue (q_frame f) < OQ_MAX ->
  overlay_tx w1 !! Z.to_nat (queue (q_frame f)) = Some q -> q_length q < maxLength q ->
  (_ ← link_frame_last gettime_ms (Z.to_nat (queue (q_frame f))) id;
   _ ← (if queue (q_frame f) =? OQ_ISOCHRONOUS_VOICE then event VoiceTraffic else mret tt);
   _ ← overlay_calc_queue_time gettime_ms directory_service id; mret 0 : QM Z) w1 = Some (r, w') ->
  added P id f Ls w w' r.
Proof.
  intros [W HL Hh] Hf Hq Hk Hlt E. set (k := Z.to_nat (queue (q_frame f))) in *.
  apply qbind_inv in E as (? & w2 & E2 & E). apply qbind_inv in E as (? & w3 & E3 & E).
  apply qbind_inv in E as (? & w4 & E4 & [= <- <-]).
  assert (K : kept w2 w4).
  { etransitivity; [|by eapply keeps_calc]. revert E3. case_match; [by apply keeps_event|by apply qkeeps_ret]. }
  destruct (lookup_lt_is_Some_2 Ls1 k) as [L HLk]; [rewrite (qw_count _ _ _ W); unfold k, OQ_MAX in *; lia|].
  pose proof (Hh id ltac:(set_solver)) as Hc. rewrite Hf in Hc. destruct (q_heap w1 !! id) as [g|] eqn:Hg; [|done].
  assert (W2 : queues_wf P (<[k := L ++ [id]]> Ls1) w2).
  { eapply link_last_wf; try done. rewrite (sl_queue _ _ Hc). unfold k. lia. }
  exists (<[k := L ++ [id]]> Ls1). split; [by etransitivity; [|by apply longer_insert]|]. split.
  - intros j Hj. etransitivity; [apply Hh; set_solver|]. etransitivity; [|apply K].
    erewrite <-(link_last_held gettime_ms P Ls1 w1 k L id g q); done.
  - split; [by eapply kept_wf|]. exists L. apply list_lookup_insert_eq. by eapply lookup_lt_Some.
Qed.

Lemma enqueue_adds send_probe :
  probes send_probe -> adds (enqueue_with gettime_ms my_subscriber directory_service olsr send_probe).
Proof.
  intros Hs P Ls w id f r w' W Hf H0 E. unfold enqueue_with in E.
  rewrite (qbind_run _ _ _ _ _ (get_frame_run _ _ _ Hf)) in E.
  apply qbind_inv in E as (ok & w1 & E1 & E). apply keeps_has_route in E1. pose proof (kept_grown _ _ _ _ E1 W) as G1.
  destruct (negb ok). { injection E as <- <-. by eapply refused. }
  destruct (OQ_MAX <=? queue (q_frame f)) eqn:Hq. { injection E as <- <-. by eapply refused. }
  apply qbind_inv in E as (? & w2 & E2 & E).
  assert (exists Ls2, grown (id :: P) Ls Ls2 w w2) as (Ls2 & G2).
  { revert E2. match goal with |- ?m _ = _ -> _ => assert (G : Grows m) by grows end.
    intros E2. destruct (G _ _ _ _ _ (gr_wf _ _ _ _ _ G1) E2) as (Ls2 & G2). exists Ls2. by eapply grown_trans. }
  apply qbind_inv in E as (? & w3 & E3 & E). apply keeps_limit in E3.
  apply qbind_inv in E as (q & w4 & [-> Hk]%get_queue_inv & E).
  assert (G3 : grown (id :: P) Ls Ls2 w w3) by (eapply grown_trans; [done|apply kept_grown; [done|apply G2]]).
  destruct (maxLength q <=? q_length q) eqn:Hm. { injection E as <- <-. by eapply refused. }
  apply qbind_inv in E as (ok5 & w5 & E5 & E). apply keeps_choose in E5.
  assert (G5 : grown (id :: P) Ls Ls2 w w5) by (eapply grown_trans; [done|apply kept_grown; [done|apply G3]]).
  destruct (negb ok5). { injection E as <- <-. by eapply refused. }
  eapply link_adds; [done|done|lia| | |exact E]; [by rewrite (kp_tx _ _ E5)|lia].
Qed.

Lemma enqueue_fuel_adds n : adds (enqueue_fuel gettime_ms my_subscriber directory_service olsr probe_contents n).
Proof. induction n as [|n IH]; [by intros ? ? ? ? ? ? ? ? ? ?|]. apply enqueue_adds, send_probe_grows, IH. Qed.

(** ** Sending *)

Abbreviation stuff_loop := (OverlayQueue.stuff_loop gettime_ms my_subscriber directory_service write write_file sendto).

Lemma next_frame P Ls w k D id R f :
  queues_wf P Ls w -> Ls !! k = Some (D ++ id :: R) -> q_heap w !! id = Some f -> q_next f = head R.
Proof.
  intros W HL Hf. pose proof (qw_seg _ _ _ W _ _ HL) as S. apply qseg_app in S as [_ [(g & Hg & _ & Hn) _]].
  assert (g = f) as -> by congruence. rewrite Hn. by destruct R.
Qed.

(** What a pass of the loop leaves. *)
Lemma stuff_pass P Ls w k D id R v t q w1 next w2 :
  queues_wf P Ls w -> Ls !! k = Some (D ++ id :: R) ->
  stuff_frame gettime_ms my_subscriber directory_service write write_file sendto q t id w = Some (v, w1) ->
  (match v with
   | Remove => overlay_queue_remove k id
   | Skip => _ ← overlay_calc_queue_time gettime_ms directory_service id; f ← get_frame id; mret (q_next f)
   end) w1 = Some (next, w2) ->
  next = head R /\ match v with
                   | Remove => queues_wf P (<[k := D ++ R]> Ls) w2
                   | Skip => queues_wf P Ls w2
                   end.
Proof.
  intros W HL E1 E2. apply keeps_stuff_frame in E1. pose proof (kept_wf _ _ _ _ E1 W) as W1. destruct v.
  - destruct (remove_wf _ _ _ _ _ _ _ _ _ W1 HL E2) as (-> & W2 & _). done.
  - apply qbind_inv in E2 as (? & w3 & E2 & E3). apply keeps_calc in E2. pose proof (kept_wf _ _ _ _ E2 W1) as W3.
    apply qbind_inv in E3 as (f & w4 & [-> Hf]%get_frame_inv & [= <- <-]). split; [by eapply next_frame|done].
Qed.

Lemma stuff_loop_wf k t fuel : forall P Ls w D R u w',
  queues_wf P Ls w -> Ls !! k = Some (D ++ R) -> stuff_loop q_undefined fuel k t (head R) w = Some (u, w') ->
  exists R', R' `sublist_of` R /\ queues_wf P (<[k := D ++ R']> Ls) w'.
Proof.
  induction fuel as [|fuel IH]; intros P Ls w D R u w' W HL E; destruct R as [|id R]; cbn [head OverlayQueue.stuff_loop] in E;
    try (injection E as _ <-; exists []; by rewrite list_insert_id); [done|].
  apply qbind_inv in E as (q & w0 & [-> Hq]%get_queue_inv & E). apply qbind_inv in E as (v & w1 & E1 & E).
  apply qbind_inv in E as (next & w2 & E2 & E).
  destruct (stuff_pass _ _ _ _ _ _ _ _ _ _ _ _ _ W HL E1 E2) as [-> W2]. destruct v.
  - apply (IH P (<[k := D ++ R]> Ls) _ D) in E as (R' & HR & W3); [|done|apply list_lookup_insert_eq; by eapply lookup_lt_Some].
    rewrite list_insert_insert_eq in W3. exists R'. split; [by constructor|done].
  - apply (IH P Ls _ (D ++ [id])) in E as (R' & HR & W3); [|done|by rewrite <-app_assoc].
    exists (id :: R'). split; [by constructor|]. by rewrite <-app_assoc in W3.
Qed.

(** The loop never runs out of fuel: what happens then does not matter. *)
Lemma stuff_loop_stuck k t stuck fuel : forall P Ls w D R,
  queues_wf P Ls w -> Ls !! k = Some (D ++ R) -> (length R <= fuel)%nat ->
  stuff_loop stuck fuel k t (head R) w = stuff_loop q_undefined fuel k t (head R) w.
Proof.
  induction fuel as [|fuel IH]; intros P Ls w D R W HL Hlen; destruct R as [|id R]; try done; [cbn in Hlen; lia|].
  cbn [head OverlayQueue.stuff_loop]. cbn [length] in Hlen.
  apply qbind_ext. intros q w0 [-> Hq]%get_queue_inv. apply qbind_ext. intros v w1 E1. apply qbind_ext. intros next w2 E2.
  destruct (stuff_pass _ _ _ _ _ _ _ _ _ _ _ _ _ W HL E1 E2) as [-> W2]. destruct v.
  - eapply (IH P _ _ D R); [done|apply list_lookup_insert_eq; by eapply lookup_lt_Some|lia].
  - eapply (IH P Ls _ (D ++ [id]) R); [done|by rewrite <-app_assoc|lia].
Qed.

Lemma queue_size P Ls w k L : queues_wf P Ls w -> Ls !! k = Some L -> (length L <= size (q_heap w))%nat.
Proof.
  intros W HL. pose proof (wf_queue_nodup _ _ _ _ _ W HL) as Hnd.
  rewrite <-(size_dom (D := gset nat)), <-(size_list_to_set (C := gset nat)) by done. apply subseteq_size.
  intros x Hx%elem_of_list_to_set. apply elem_of_dom, (qw_heap _ _ _ W), elem_of_app. right. by eapply elem_of_queue.
Qed.

Lemma stuff_packet_wf P Ls w t k L u w' :
  queues_wf P Ls w -> Ls !! k = Some L ->
  overlay_stuff_packet gettime_ms my_subscriber directory_service write write_file sendto t k w = Some (u, w') ->
  exists L', L' `sublist_of` L /\ queues_wf P (<[k := L']> Ls) w'.
Proof.
  intros W HL E. apply qbind_inv in E as (q & w0 & [-> Hq]%get_queue_inv & E).
  destruct (wf_tx _ _ _ _ _ W HL) as (q' & Hq' & Ok). assert (q' = q) as -> by congruence.
  rewrite (qo_first _ _ Ok) in E. by apply (stuff_loop_wf _ _ _ P Ls w [] L) in E.
Qed.

Lemma stuff_queues_wf P t l : forall Ls w u w', queues_wf P Ls w -> Forall (fun k => k < Z.to_nat OQ_MAX)%nat l ->
  stuff_queues gettime_ms my_subscriber directory_service write write_file sendto t l w = Some (u, w') ->
  exists Ls', shorter Ls Ls' /\ queues_wf P Ls' w'.
Proof.
  induction l as [|k l IH]; intros Ls w u w' W Hl E; [injection E as _ <-; by exists Ls|].
  apply Forall_cons in Hl as [Hk Hl]. cbn [stuff_queues] in E. apply qbind_inv in E as (? & w1 & E1 & E).
  destruct (lookup_lt_is_Some_2 Ls k) as [L HL]; [by rewrite (qw_count _ _ _ W)|].
  destruct (stuff_packet_wf _ _ _ _ _ _ _ _ W HL E1) as (L' & HL' & W1).
  destruct (IH _ _ _ _ W1 Hl E) as (Ls' & HLs & W'). exists Ls'. split; [|done].
  etransitivity; [|exact HLs]. by eapply shorter_insert.
Qed.

Hint Resolve qkeeps_now keeps_ensemble keeps_read_buffer keeps_init_packet : keeps.

Lemma fill_packet_wf P Ls w t r w' :
  queues_wf P Ls w ->
  overlay_fill_send_packet gettime_ms my_subscriber directory_service write write_file sendto t w = Some (r, w') ->
  exists Ls', shorter Ls Ls' /\ queues_wf P Ls' w'.
Proof.
  intros W E. unfold overlay_fill_send_packet in E.
  apply qbind_inv in E as (? & w1 & E1 & E). apply keeps_event in E1. apply qbind_inv in E as (? & w2 & E2 & E).
  apply keeps_set_next in E2. apply qbind_inv in E as (? & w3 & E3 & E).
  apply (stuff_queues_wf P _ _ Ls) in E3 as (Ls' & HL & W3);
    [|eapply kept_wf; [exact E2|by eapply kept_wf]|by apply Forall_forall; intros k [_ Hk]%elem_of_seq].
  exists Ls'. split; [done|]. eapply kept_wf; [|exact W3].
  revert E. match goal with |- ?m _ = _ -> _ => assert (K : Keeps m) by keeps end. apply K.
Qed.

Lemma send_packet_wf P Ls w u w' :
  queues_wf P Ls w ->
  overlay_send_packet gettime_ms my_subscriber directory_service write write_file sendto w = Some (u, w') ->
  exists Ls', shorter Ls Ls' /\ queues_wf P Ls' w'.
Proof.
  intros W E. unfold overlay_send_packet in E. apply qbind_inv in E as (? & w1 & E1 & E).
  apply keeps_set_packet in E1. apply qbind_inv in E as (t & w2 & E2 & E). apply qkeeps_now in E2.
  apply qbind_inv in E as (? & w3 & E3 & [= _ <-]). eapply fill_packet_wf; [|exact E3]. eapply kept_wf; [exact E2|by eapply kept_wf].
Qed.

Lemma tick_packet_wf P Ls w i r w' :
  queues_wf P Ls w ->
  overlay_send_tick_packet gettime_ms my_subscriber directory_service write write_file sendto i w = Some (r, w') ->
  exists Ls', shorter Ls Ls' /\ queues_wf P Ls' w'.
Proof.
  intros W E. unfold overlay_send_tick_packet in E.
  apply qbind_inv in E as (? & w1 & E1 & E). apply keeps_set_packet in E1.
  apply qbind_inv in E as (y & w2 & E2 & E). apply keeps_get_interface in E2.
  apply qbind_inv in E as (? & w3 & E3 & E). apply keeps_init_packet in E3.
  apply qbind_inv in E as (t & w4 & E4 & E). apply qkeeps_now in E4.
  apply qbind_inv in E as (? & w5 & E5 & [= _ <-]). eapply fill_packet_wf; [|exact E5].
  assert (K : kept w w4) by (etransitivity; [exact E1|etransitivity; [exact E2|etransitivity; [exact E3|exact E4]]]).
  by eapply kept_wf.
Qed.

(** ** Acknowledgements *)

Lemma ack_loop_wf k n i m s t fuel : forall P Ls w D R u w',
  queues_wf P Ls w -> Ls !! k = Some (D ++ R) ->
  ack_loop gettime_ms directory_service fuel k n i m s t (head R) w = Some (u, w') ->
  exists R', R' `sublist_of` R /\ queues_wf P (<[k := D ++ R']> Ls) w'.
Proof.
  induction fuel as [|fuel IH]; intros P Ls w D R u w' W HL E; destruct R as [|id R]; cbn [head ack_loop] in E;
    try (injection E as _ <-; exists []; by rewrite list_insert_id); [done|].
  apply qbind_inv in E as (gone & w1 & E1 & E). apply keeps_ack_frame in E1. pose proof (kept_wf _ _ _ _ E1 W) as W1.
  apply qbind_inv in E as (next & w2 & E2 & E). destruct gone.
  - destruct (remove_wf _ _ _ _ _ _ _ _ _ W1 HL E2) as (-> & W2 & _).
    apply (IH P (<[k := D ++ R]> Ls) _ D) in E as (R' & HR & W3); [|done|apply list_lookup_insert_eq; by eapply lookup_lt_Some].
    rewrite list_insert_insert_eq in W3. exists R'. split; [by constructor|done].
  - apply qbind_inv in E2 as (f & w3 & [-> Hf]%get_frame_inv & [= <- <-]). rewrite (next_frame P Ls w1 k D id R f) in E by done.
    apply (IH P Ls _ (D ++ [id])) in E as (R' & HR & W3); [|done|by rewrite <-app_assoc].
    exists (id :: R'). split; [by constructor|]. by rewrite <-app_assoc in W3.
Qed.

Lemma ack_queues_wf P n i m s t l : forall Ls w u w', queues_wf P Ls w -> Forall (fun k => k < Z.to_nat OQ_MAX)%nat l ->
  ack_queues gettime_ms directory_service n i m s t l w = Some (u, w') ->
  exists Ls', shorter Ls Ls' /\ queues_wf P Ls' w'.
Proof.
  induction l as [|k l IH]; intros Ls w u w' W Hl E; [injection E as _ <-; by exists Ls|].
  apply Forall_cons in Hl as [Hk Hl]. cbn [ack_queues] in E.
  apply qbind_inv in E as (q & w0 & [-> Hq]%get_queue_inv & E). apply qbind_inv in E as (sz & w0 & [= _ <-] & E).
  apply qbind_inv in E as (? & w1 & E1 & E).
  destruct (lookup_lt_is_Some_2 Ls k) as [L HL]; [by rewrite (qw_count _ _ _ W)|].
  destruct (wf_tx _ _ _ _ _ W HL) as (q' & Hq' & Ok). assert (q' = q) as -> by congruence. rewrite (qo_first _ _ Ok) in E1.
  destruct (ack_loop_wf _ _ _ _ _ _ _ P Ls w [] L _ _ W HL E1) as (L' & HL' & W1).
  destruct (IH _ _ _ _ W1 Hl E) as (Ls' & HLs & W'). exists Ls'. split; [|done].
  etransitivity; [|exact HLs]. by eapply shorter_insert.
Qed.

Lemma ack_wf P Ls w n i m s r w' :
  queues_wf P Ls w -> overlay_queue_ack gettime_ms directory_service n i m s w = Some (r, w') ->
  exists Ls', shorter Ls Ls' /\ queues_wf P Ls' w'.
Proof.
  intros W E. unfold overlay_queue_ack in E. apply qbind_inv in E as (t & w1 & E1 & E). apply qkeeps_now in E1.
  apply qbind_inv in E as (? & w2 & E2 & [= _ <-]).
  eapply (ack_queues_wf P n i m s t (seq 0 (Z.to_nat OQ_MAX))); [|by apply Forall_forall; intros k [_ Hk]%elem_of_seq|exact E2]. by eapply kept_wf.
Qed.

(** ** Runs *)

(** What callers do to the queues: hand over a frame they made, and free it when it is
    refused; send a probe; the alarm and the ticks; acknowledgements; and anything that
    changes routes and interfaces. *)
Inductive queue_op :=
| Submit (f : qframe)
| Probe (peer : option nat) (addr : Z) (interface : option nat) (k : Z)
| SendPacket
| Tick (interface : nat)
| Acked (neighbour interface : nat) (ack_mask ack_seq : Z)
| Elsewhere (routes : rworld -> rworld) (changed : list tx_interface -> list tx_interface).

Abbreviation submit := (OverlayQueue.submit gettime_ms my_subscriber directory_service olsr probe_contents).

Definition run_op (o : queue_op) : QM Z :=
  match o with
  | Submit f => submit f
  | Probe p a i k => overlay_send_probe gettime_ms my_subscriber directory_service olsr probe_contents p a i k
  | SendPacket =>
      _ ← overlay_send_packet gettime_ms my_subscriber directory_service write write_file sendto; mret 0
  | Tick i => overlay_send_tick_packet gettime_ms my_subscriber directory_service write write_file sendto i
  | Acked n i m s => overlay_queue_ack gettime_ms directory_service n i m s
  | Elsewhere g h => _ ← modify (fun w => set_interfaces (set_route w (g (q_route w))) (h (interfaces w))); mret 0
  end.

Fixpoint run_ops (l : list queue_op) : QM Z :=
  match l with [] => mret 0 | o :: l => _ ← run_op o; run_ops l end.

(** A frame as malloc and bzero leave it, with an unsigned queue number. *)
Definition new_frame_ok (f : qframe) : Prop :=
  q_prev f = None /\ q_next f = None /\ 0 <= queue (q_frame f) /\
  length (interface_sent_sequence f) = OVERLAY_MAX_INTERFACES /\
  length (interface_dont_send_until f) = OVERLAY_MAX_INTERFACES.

Definition op_ok (o : queue_op) : Prop := match o with Submit f => new_frame_ok f | _ => True end.

Lemma submit_wf Ls w f r w' :
  queues_wf [] Ls w -> new_frame_ok f -> submit f w = Some (r, w') -> exists Ls', longer Ls Ls' /\ queues_wf [] Ls' w'.
Proof.
  intros W (Hp & Hn & Hq & Hs & Hu) E. apply qbind_inv in E as (id & w1 & E1 & E).
  destruct (new_frame_wf [] Ls w f id w1 W Hp Hn Hs Hu E1) as [W1 Hf]. apply qbind_inv in E as (x & w2 & E2 & E).
  destruct (enqueue_fuel_adds 2 [] Ls w1 id f x w2 W1 Hf Hq E2) as (Ls' & HL & _ & Hr). exists Ls'. split; [done|].
  destruct (x =? 0); cbn [negb] in E; [injection E as _ <-; apply Hr|].
  apply qbind_inv in E as (? & w3 & E3 & [= _ <-]). by destruct (op_free_wf _ _ _ _ _ _ Hr E3) as (_ & W3 & _).
Qed.

Lemma run_op_wf o Ls w r w' : queues_wf [] Ls w -> op_ok o -> run_op o w = Some (r, w') -> exists Ls', queues_wf [] Ls' w'.
Proof.
  intros W Ho E. destruct o; cbn [run_op] in E.
  - destruct (submit_wf _ _ _ _ _ W Ho E) as (Ls' & _ & W'). eauto.
  - destruct (send_probe_grows _ (enqueue_fuel_adds 2) _ _ _ _ _ _ _ _ _ W E) as (Ls' & []). eauto.
  - apply qbind_inv in E as (? & w1 & E1 & [= _ <-]). destruct (send_packet_wf _ _ _ _ _ W E1) as (Ls' & _ & W'). eauto.
  - destruct (tick_packet_wf _ _ _ _ _ _ W E) as (Ls' & _ & W'). eauto.
  - destruct (ack_wf _ _ _ _ _ _ _ _ _ W E) as (Ls' & _ & W'). eauto.
  - injection E as _ <-. exists Ls. eapply kept_wf; [|exact W]. split; done.
Qed.

Lemma run_ops_wf l : forall Ls w r w', queues_wf [] Ls w -> Forall op_ok l -> run_ops l w = Some (r, w') ->
  exists Ls', queues_wf [] Ls' w'.
Proof.
  induction l as [|o l IH]; intros Ls w r w' W Hl E; [injection E as _ <-; eauto|].
  apply Forall_cons in Hl as [Ho Hl]. apply qbind_inv in E as (? & w1 & E1 & E).
  destruct (run_op_wf _ _ _ _ _ W Ho E1) as (Ls1 & W1). eauto.
Qed.

Lemma init_wf w r w' : q_heap w = ∅ -> overlay_queue_init w = Some (r, w') -> queues_wf [] (replicate 5 []) w'.
Proof.
  intros Hh [= _ <-]. split; cbn; try done.
  - repeat constructor; cbn; done.
  - intros k L HL%list_elem_of_lookup_2. assert (L = []) as -> by set_solver. done.
  - constructor.
  - intros id. rewrite Hh, lookup_empty. split; [by intros []|set_solver].
  - intros k L id f HL%list_elem_of_lookup_2. assert (L = []) as -> by set_solver. set_solver.
  - intros id f. by rewrite Hh, lookup_empty.
  - set_solver.
  - intros id. rewrite Hh, lookup_empty. by intros [].
Qed.
End props.

(** [C3] Whatever frames are submitted, probes and packets sent and acknowledgements received, in
    whatever order, and however routes and interfaces change in between: the queues stay
    well-formed doubly-linked lists, each within its limit and with the right count, and the
    frames in memory are exactly those of the queues, each in the one it names, so that no
    frame leaks.  (Runs in which another part of the code, such as a payload buffer, meets
    undefined behaviour do not return.) *)
Theorem queue_invariant `{Allocator} gettime_ms my_subscriber directory_service write write_file sendto olsr probe_contents ops w r w' :
  q_heap w = ∅ -> Forall op_ok ops ->
  (_ ← overlay_queue_init;
   run_ops gettime_ms my_subscriber directory_service write write_file sendto olsr probe_contents ops : QM Z) w = Some (r, w') ->
  exists Ls, queues_wf [] Ls w'.
Proof.
  intros Hh Ho E. apply qbind_inv in E as (? & w1 & E1 & E). eapply run_ops_wf; [|exact Ho|exact E]. by eapply init_wf.
Qed.

(** *** Five queues with an interface that is up, and a neighbour heard on it *)

Definition demo_interface (st encap : Z) : tx_interface :=
  mk_tx (mk_interface st 1 500 77) (replicate 2048 0) 0 SOCK_DGRAM encap true false true 0 0 (mk_limit 6 4 0 0) 5 255 1200.
Definition demo_interfaces (encap : Z) : list tx_interface :=
  demo_interface INTERFACE_STATE_UP encap :: replicate 15 (demo_interface 0 encap).
Definition demo_routes : rworld :=
  set_neighbours demo_rworld [set_best_link (set_links (demo_nb 10 1 0) [mk_nlink 20 0 0 100 0 (-1) 0]) (Some 20%nat)].
Definition demo_buffer : overlay_buffer := mk_ob (Some (mkptr 9 0)) 0 3 3 3 None 0.
(** A broadcast of the bytes 1, 2, 3 through queue [k]. *)
Definition demo_frame (k : Z) : qframe :=
  mk_qframe None None
    (mk_frame (Some demo_buffer) OF_TYPE_DATA (Some 0%nat) false None 1 (replicate BROADCAST_LEN 0) false None 0 None k 0 0 0)
    0 None (replicate 16 0) (replicate 16 0) false 0 0.
Definition demo_clock (n : nat) : Z := 50 + Z.of_nat n / 20.
Definition demo_memory (r : rworld) : rworld := set_rw r (set_mem (rw r) (<[9%positive := [1; 2; 3]]> (w_mem (rw r)))).
Definition demo_queues (encap : Z) : qworld :=
  mk_qworld (demo_memory demo_routes) ∅ 0 [] 0 0 0 (demo_interfaces encap) ∅ zero_packet [].

Abbreviation demo_run :=
  (run_ops demo_clock (Some 0%nat) None (fun _ d => zlen d) (fun _ _ _ => 0) (fun _ _ _ => SendtoOk) false (fun _ _ => replicate 20 0)).
Definition demo_ops : list queue_op := [Submit (demo_frame 1); Submit (demo_frame 3); SendPacket; Acked 1 0 0 1].

Lemma queue_invariant_witness :
  exists r w' Ls, (_ ← overlay_queue_init; demo_run demo_ops : QM Z) (demo_queues ENCAP_OVERLAY) = Some (r, w') /\ queues_wf [] Ls w'.
Proof.
  destruct ((_ ← overlay_queue_init; demo_run demo_ops : QM Z) (demo_queues ENCAP_OVERLAY)) as [[r w']|] eqn:E;
    [|vm_compute in E; discriminate].
  apply queue_invariant in E as [Ls W]; [|reflexivity|repeat constructor; cbn; lia].
  exists r, w', Ls. split; [reflexivity|exact W].
Defined.

(** Both broadcasts went out in one packet, and were acknowledged and removed. *)
Example demo_run_sent :
  ('(_, w) ← (_ ← overlay_queue_init; demo_run demo_ops : QM Z) (demo_queues ENCAP_OVERLAY);
   Some (size (q_heap w), List.last (q_events w) VoiceTraffic))
  = Some (0%nat, Datagram 0 77 [1; 1; 3; 16; 16; 16; 4; 1; 7; 1; 0; 3; 1; 2; 3; 7; 2; 0; 3; 1; 2; 3]).
Proof. vm_compute. reflexivity. Qed.
