(* ===== verification/QueueAck.v ===== *)
(** QueueAck: acknowledgements take exactly the frames off the queues that arrived.

    The state is [ready] when what frames and routes point to exists; then the code that
    acknowledgements run always returns.  What it changes besides the queues is [quiet]. *)

From S2P Require Import Prelude CMem OverlayBuffer OverlayBufferCodec DataFormats Slip SubscriberTree OverlayAddress PacketFormats RouteLinks Route RouteBest RouteOps Limit TxState OverlayQueue QueueInv QueueProps.

Definition subs (w : qworld) : list subscriber := subs_of (q_route w).
Definition memory (w : qworld) : mem := w_mem (rw (q_route w)).

(** The clock, limits and alarms may change, and nothing a frame depends on. *)
Record quiet (w w' : qworld) : Prop := {
  qt_heap : q_heap w' = q_heap w;
  qt_tx : overlay_tx w' = overlay_tx w;
  qt_id : q_next_id w' = q_next_id w;
  qt_interfaces : route_interfaces w' = route_interfaces w;
  qt_subs : subs w' = subs w;
  qt_routes : r_subs (q_route w') = r_subs (q_route w);
  qt_neighbours : neighbours (q_route w') = neighbours (q_route w);
  qt_memory : memory w' = memory w
}.

#[export] Instance quiet_preorder : PreOrder quiet.
Proof. split; [by split|]. intros w1 w2 w3 [] []. split; congruence. Qed.

Definition qruns {A} (m : QM A) (w : qworld) (Q : A -> qworld -> Prop) : Prop :=
  exists x w', m w = Some (x, w') /\ Q x w'.

Lemma qruns_ret {A} (x : A) w (Q : A -> qworld -> Prop) : Q x w -> qruns (mret x) w Q.
Proof. intros HQ. by exists x, w. Qed.

Lemma qruns_bind {A B} (m : QM A) (f : A -> QM B) w (Q : B -> qworld -> Prop) :
  qruns m w (fun x w' => qruns (f x) w' Q) -> qruns (m ≫= f) w Q.
Proof. intros (x & w' & E & HQ). unfold qruns. by rewrite (qbind_run _ _ _ _ _ E). Qed.

Lemma qruns_mono {A} (m : QM A) w (P Q : A -> qworld -> Prop) :
  qruns m w P -> (forall x w', P x w' -> Q x w') -> qruns m w Q.
Proof. intros (x & w' & E & HP) HPQ. exists x, w'. auto. Qed.

Lemma qruns_eq {A} (m : QM A) x w w' (Q : A -> qworld -> Prop) : m w = Some (x, w') -> Q x w' -> qruns m w Q.
Proof. intros E HQ. by exists x, w'. Qed.

(** ** A state in which nothing dangles *)

Section ready.
Context `{Allocator}.
Context (gettime_ms : nat -> Z) (directory_service : option nat).

(** The subscribers, the interface and the payload of a frame exist. *)
Record frame_ready (n : nat) (f : qframe) : Prop := {
  fr_payload : is_Some (payload (q_frame f));
  fr_destination d : destination (q_frame f) = Some d -> (d < n)%nat;
  fr_interface i : f_interface (q_frame f) = Some i -> 0 <= i < Z.of_nat OVERLAY_MAX_INTERFACES;
  fr_queue : 0 <= queue (q_frame f) < OQ_MAX
}.

(** The block of memory a payload owns. *)
Definition owned_block (f : qframe) : option ptr :=
  b ← payload (q_frame f); _ ← bytes b; allocated b.

(** A frame for everyone waits. *)
Definition has_broadcast (w : qworld) : Prop := exists id f, q_heap w !! id = Some f /\ destination (q_frame f) = None.

Record ready (w : qworld) : Prop := {
  rd_interfaces : length (interfaces w) = OVERLAY_MAX_INTERFACES;
  rd_queues : length (overlay_tx w) = Z.to_nat OQ_MAX;
  rd_links n b : has_broadcast w -> n ∈ neighbours (q_route w) -> best_link n = Some b -> is_Some (find_nlink b n);
  rd_next_hop i n : sub_next_hop (sub_of (q_route w) i) = Some n -> (n < length (subs w))%nat;
  rd_interface i n : sub_interface (sub_of (q_route w) i) = Some n -> (n < OVERLAY_MAX_INTERFACES)%nat;
  rd_directory d : directory_service = Some d -> (d < length (subs w))%nat;
  rd_frames id f : q_heap w !! id = Some f -> frame_ready (length (subs w)) f;
  rd_owned id f a : q_heap w !! id = Some f -> owned_block f = Some a -> p_off a = 0 /\ is_Some (memory w !! p_blk a);
  rd_apart i j f g a b : i <> j -> q_heap w !! i = Some f -> q_heap w !! j = Some g ->
    owned_block f = Some a -> owned_block g = Some b -> p_blk a <> p_blk b
}.

Lemma quiet_length w w' : quiet w w' -> length (interfaces w') = length (interfaces w).
Proof. intros K. pose proof (qt_interfaces _ _ K) as E. apply (f_equal length) in E. unfold route_interfaces in E.
  by rewrite !length_fmap in E. Qed.

Lemma quiet_ready w w' : quiet w w' -> ready w -> ready w'.
Proof.
  intros K R. pose proof (quiet_length _ _ K) as Hl. destruct K, R. split.
  - congruence.
  - congruence.
  - unfold has_broadcast. by rewrite qt_neighbours0, qt_heap0.
  - unfold sub_of. by rewrite qt_subs0, qt_routes0.
  - unfold sub_of. by rewrite qt_routes0.
  - by rewrite qt_subs0.
  - by rewrite qt_heap0, qt_subs0.
  - by rewrite qt_heap0, qt_memory0.
  - by rewrite qt_heap0.
Qed.

(** ** The parts always return *)

Lemma get_interface_total w i : ready w -> (i < OVERLAY_MAX_INTERFACES)%nat -> exists x, get_interface i w = Some (x, w).
Proof.
  intros R Hi. destruct (lookup_lt_is_Some_2 (interfaces w) i) as [x Hx]; [by rewrite (rd_interfaces _ R)|].
  exists x. unfold get_interface. by rewrite Hx.
Qed.

Lemma get_sub_total w i : (i < length (subs w))%nat -> exists s, base (get_sub i) (q_route w) = Some (s, q_route w).
Proof.
  intros Hi. destruct (lookup_lt_is_Some_2 _ _ Hi) as [s Hs]. exists s. unfold base, get_sub. unfold subs, subs_of in Hs.
  rewrite Hs. cbn. by destruct (q_route w).
Qed.

Lemma interface_at_total w i : ready w -> (i < OVERLAY_MAX_INTERFACES)%nat ->
  exists x, interface_at (route_interfaces w) i (q_route w) = Some (x, q_route w).
Proof.
  intros R Hi. destruct (lookup_lt_is_Some_2 (route_interfaces w) i) as [x Hx];
    [unfold route_interfaces; by rewrite length_fmap, (rd_interfaces _ R)|].
  exists x. unfold interface_at, r_lift. by rewrite Hx.
Qed.

Lemma rbind_run {A B} (m : RM A) (f : A -> RM B) w x w1 : m w = Some (x, w1) -> (m ≫= f) w = f x w1.
Proof. intros E. unfold mbind, RM_bind. by rewrite E. Qed.

(** The last part of [is_reachable]. *)
Lemma interface_up_total w i (ret : Z) : ready w ->
  exists r, (match sub_interface (sub_of (q_route w) i) with
             | None => mret REACHABLE_NONE
             | Some f => iface ← interface_at (route_interfaces w) f;
                         mret (if negb (if_state iface =? INTERFACE_STATE_UP) then REACHABLE_NONE else ret)
             end : RM Z) (q_route w) = Some (r, q_route w).
Proof.
  intros R. destruct (sub_interface _) as [f|] eqn:Ef; [|by eexists].
  destruct (interface_at_total w f R (rd_interface _ R _ _ Ef)) as [x Ex]. rewrite (rbind_run _ _ _ _ _ Ex). by eexists.
Qed.

Lemma reachable_direct_total w i s n : ready w -> subs w !! i = Some s -> reachable s <> REACHABLE_INDIRECT ->
  exists r, Route.is_reachable (route_interfaces w) (S n) (Some i) (q_route w) = Some (r, q_route w).
Proof.
  intros R Hs Hi. cbn [Route.is_reachable]. assert (Es : base (get_sub i) (q_route w) = Some (s, q_route w)).
  { unfold base, get_sub. unfold subs, subs_of in Hs. rewrite Hs. cbn. by destruct (q_route w). }
  rewrite (rbind_run _ _ _ _ _ Es). rewrite (rbind_run (get_route i) _ _ (sub_of (q_route w) i) (q_route w)) by done.
  rewrite (proj2 (Z.eqb_neq _ _) Hi). rewrite (rbind_run _ _ _ (reachable s) (q_route w)) by done.
  destruct (has (reachable s) REACHABLE_DIRECT); [by apply interface_up_total|by eexists].
Qed.

Lemma reachable_total w i : ready w -> (i < length (subs w))%nat ->
  exists r, subscriber_is_reachable (route_interfaces w) (Some i) (q_route w) = Some (r, q_route w).
Proof.
  intros R Hi. destruct (lookup_lt_is_Some_2 _ _ Hi) as [s Hs]. unfold subscriber_is_reachable.
  destruct (decide (reachable s = REACHABLE_INDIRECT)) as [E|E]; [|by eapply reachable_direct_total].
  cbn [Route.is_reachable]. destruct (get_sub_total w i Hi) as [s' Es].
  assert (s' = s) as ->.
  { revert Es. unfold base, get_sub. unfold subs, subs_of in Hs. rewrite Hs. cbn. by intros [= ->]. }
  rewrite (rbind_run _ _ _ _ _ Es). rewrite (rbind_run (get_route i) _ _ (sub_of (q_route w) i) (q_route w)) by done.
  rewrite E, Z.eqb_refl.
  assert (Hret : exists ret, (match sub_next_hop (sub_of (q_route w) i) with
            | None => mret REACHABLE_NONE
            | Some n =>
                sn ← base (get_sub n);
                if negb (has (reachable sn) REACHABLE_DIRECT) then mret REACHABLE_NONE
                else
                  x ← Route.is_reachable (route_interfaces w) 1 (Some n);
                  if has x REACHABLE_ASSUMED then mret REACHABLE_NONE
                  else if negb (has x REACHABLE_DIRECT) then mret REACHABLE_NONE
                  else mret REACHABLE_INDIRECT
            end : RM Z) (q_route w) = Some (ret, q_route w)).
  { destruct (sub_next_hop _) as [n|] eqn:En; [|by eexists].
    pose proof (rd_next_hop _ R _ _ En) as Hn. destruct (get_sub_total w n Hn) as [sn Esn].
    rewrite (rbind_run _ _ _ _ _ Esn). destruct (has (reachable sn) REACHABLE_DIRECT) eqn:Hd; cbn [negb]; [|by eexists].
    destruct (lookup_lt_is_Some_2 _ _ Hn) as [sn' Hsn].
    assert (sn' = sn) as ->.
    { revert Esn. unfold base, get_sub. unfold subs, subs_of in Hsn. rewrite Hsn. cbn. by intros [= ->]. }
    destruct (reachable_direct_total w n sn 0 R Hsn) as [x Ex]; [by intros Er; rewrite Er in Hd|].
    rewrite (rbind_run _ _ _ _ _ Ex). repeat case_match; by eexists. }
  destruct Hret as [ret Hret]. rewrite (rbind_run _ _ _ _ _ Hret).
  destruct (has ret REACHABLE_DIRECT); [by apply interface_up_total|by eexists].
Qed.

Lemma is_reachable_total w i : ready w -> (i < length (subs w))%nat -> exists r, is_reachable (Some i) w = Some (r, w).
Proof.
  intros R Hi. destruct (reachable_total w i R Hi) as [r E]. exists r. unfold is_reachable, with_interfaces.
  rewrite (qbind_run (asks route_interfaces) _ w (route_interfaces w) w) by done. unfold routed. rewrite E. cbn. by destruct w.
Qed.

Lemma any_neighbour_total i l w :
  (forall n b, n ∈ l -> best_link n = Some b -> is_Some (find_nlink b n)) ->
  exists r, any_neighbour (interface_has_neighbour i) l w = Some (r, w).
Proof.
  induction l as [|n l IH]; intros Hl; [by exists false|]. cbn [any_neighbour].
  assert (exists b, interface_has_neighbour i n w = Some (b, w)) as [b Eb].
  { unfold interface_has_neighbour. destruct (best_link n) as [b|] eqn:Eb; [|by eexists].
    destruct (Hl n b ltac:(set_solver) Eb) as [k Ek]. unfold get_nlink. rewrite Ek. by eexists. }
  rewrite (rbind_run _ _ _ _ _ Eb). destruct b; [by eexists|]. apply IH. set_solver.
Qed.

Lemma has_neighbour_total w i : ready w -> has_broadcast w -> exists r, has_neighbour i w = Some (r, w).
Proof.
  intros R B. destruct (any_neighbour_total i (neighbours (q_route w)) (q_route w)) as [r E].
  { intros n b. by apply R. }
  exists r. unfold has_neighbour, routed, link_state_interface_has_neighbour.
  rewrite (rbind_run (gets neighbours) _ _ (neighbours (q_route w)) (q_route w)) by done. rewrite E. cbn. by destruct w.
Qed.

Lemma now_quiet w : qruns (q_now gettime_ms) w (fun _ w' => quiet w w').
Proof. eexists _, _. split; [reflexivity|]. by split. Qed.

Lemma schedule_quiet t w : qruns (overlay_queue_schedule_next t) w (fun _ w' => quiet w w').
Proof.
  unfold overlay_queue_schedule_next. apply qruns_bind. eexists _, _. split; [reflexivity|].
  case_match; eexists _, _; (split; [reflexivity|by split]).
Qed.

Lemma next_allowed_quiet w i : ready w -> (i < OVERLAY_MAX_INTERFACES)%nat ->
  qruns (interface_next_allowed gettime_ms i) w (fun _ w' => quiet w w').
Proof.
  intros R Hi. unfold interface_next_allowed. destruct (lookup_lt_is_Some_2 (interfaces w) i) as [x Hx]; [by rewrite (rd_interfaces _ R)|].
  apply qruns_bind, (qruns_eq _ x w w); [unfold get_interface; by rewrite Hx|].
  apply qruns_bind. eapply qruns_eq; [reflexivity|]. destruct (limit_next_allowed _ _) as [r l].
  apply qruns_bind. eapply qruns_eq; [reflexivity|]. apply qruns_ret. split; try done.
  cbn. unfold route_interfaces. cbn. rewrite list_fmap_insert. cbn. rewrite list_insert_id; [done|].
  by rewrite list_lookup_fmap, Hx.
Qed.

Lemma has_route_total w f : ready w -> (forall d, destination f = Some d -> (d < length (subs w))%nat) ->
  exists b, has_route directory_service f w = Some (b, w).
Proof.
  intros R Hd. unfold has_route. destruct (destination_resolved f); [by eexists|]. destruct (destination f) as [d|]; [|by eexists].
  destruct (is_reachable_total w d R (Hd d eq_refl)) as [r E]. rewrite (qbind_run _ _ _ _ _ E).
  destruct (has r REACHABLE); [by eexists|]. destruct directory_service as [s|] eqn:Es; [|by eexists].
  destruct (is_reachable_total w s R (rd_directory _ R s Es)) as [r' E']. rewrite (qbind_run _ _ _ _ _ E'). by eexists.
Qed.

(** Arrays of one entry for each interface. *)
Definition arrays_ok (f : qframe) : Prop :=
  length (interface_sent_sequence f) = OVERLAY_MAX_INTERFACES /\ length (interface_dont_send_until f) = OVERLAY_MAX_INTERFACES.

Lemma sent_on_total f i w : arrays_ok f -> (i < OVERLAY_MAX_INTERFACES)%nat -> exists s, sent_on f i w = Some (s, w).
Proof.
  intros [Hs _] Hi. destruct (lookup_lt_is_Some_2 (interface_sent_sequence f) i) as [s E]; [by rewrite Hs|].
  exists s. unfold sent_on, q_lift. by rewrite E.
Qed.

Lemma next_on_quiet id f l : forall w t, ready w -> q_heap w !! id = Some f -> arrays_ok f -> Forall (fun i => i < OVERLAY_MAX_INTERFACES)%nat l ->
  qruns (next_on_interfaces gettime_ms f l t) w (fun _ w' => quiet w w').
Proof.
  induction l as [|i l IH]; intros w t R Hf Ha Hl; [by apply qruns_ret|]. apply Forall_cons in Hl as [Hi Hl].
  cbn [next_on_interfaces]. destruct (get_interface_total w i R Hi) as [x Ex]. apply qruns_bind, (qruns_eq _ _ _ _ _ Ex).
  destruct (negb (is_up x)); [by apply IH|].
  assert (exists b, (match destination (q_frame f) with
                     | Some _ => mret true
                     | None => s ← sent_on f i; if s =? FRAME_DONT_SEND then mret false else has_neighbour i
                     end : QM bool) w = Some (b, w)) as [b Eb].
  { destruct (destination _) eqn:Ed; [by eexists|]. destruct (sent_on_total f i w Ha Hi) as [s Es]. rewrite (qbind_run _ _ _ _ _ Es).
    case_match; [by eexists|]. apply has_neighbour_total; [done|by exists id, f]. }
  apply qruns_bind, (qruns_eq _ _ _ _ _ Eb). destruct b; cbn [negb]; [|by apply IH].
  apply qruns_bind. eapply qruns_mono; [by apply next_allowed_quiet|]. intros t1 w1 K1.
  destruct (lookup_lt_is_Some_2 (interface_dont_send_until f) i) as [u Hu]; [by rewrite (proj2 Ha)|].
  apply qruns_bind, (qruns_eq _ u w1 w1); [by rewrite Hu|]. eapply qruns_mono; [apply IH; [by apply (quiet_ready w)|by rewrite (qt_heap _ _ K1)|done|done]|].
  intros ? w2 K2. etransitivity; [exact K1|exact K2].
Qed.

Lemma all_interfaces_ok : Forall (fun i => i < OVERLAY_MAX_INTERFACES)%nat all_interfaces.
Proof. apply Forall_forall. by intros i [_ Hi]%elem_of_seq. Qed.

Lemma calc_quiet w id f : ready w -> q_heap w !! id = Some f -> arrays_ok f ->
  qruns (overlay_calc_queue_time gettime_ms directory_service id) w (fun _ w' => quiet w w').
Proof.
  intros R Hf Ha. pose proof (rd_frames _ R _ _ Hf) as F. unfold overlay_calc_queue_time.
  apply qruns_bind, (qruns_eq _ _ _ _ _ (get_frame_run _ _ _ Hf)).
  destruct (has_route_total w (q_frame f) R (fr_destination _ _ F)) as [ok Eok]. apply qruns_bind, (qruns_eq _ _ _ _ _ Eok).
  destruct (negb ok); [by apply qruns_ret|]. apply qruns_bind.
  match goal with |- qruns ?m _ _ => assert (Hm : qruns m w (fun _ w' => quiet w w')) end.
  { destruct (f_interface (q_frame f)) as [i|] eqn:Ei; [destruct (destination_resolved (q_frame f)); cbn [andb]|].
    - rewrite bool_decide_true by eauto. pose proof (fr_interface _ _ F i Ei) as Hi.
      unfold frame_interface. rewrite Ei. replace (0 <=? i) with true by lia. replace (i <? _) with true by lia. cbn [andb].
      apply qruns_bind, qruns_ret. destruct (get_interface_total w (Z.to_nat i) R) as [x Ex]; [lia|].
      apply qruns_bind, (qruns_eq _ _ _ _ _ Ex). case_match; [by apply qruns_ret|].
      apply qruns_bind. eapply qruns_mono; [apply next_allowed_quiet; [done|lia]|]. intros t w1 K1. by apply qruns_ret.
    - apply qruns_bind. eapply qruns_mono; [by apply (next_on_quiet id); [..|apply all_interfaces_ok]|]. intros t w1 K1. by apply qruns_ret.
    - rewrite bool_decide_false by apply is_Some_None. rewrite andb_false_r.
      apply qruns_bind. eapply qruns_mono; [by apply (next_on_quiet id); [..|apply all_interfaces_ok]|]. intros t w1 K1. by apply qruns_ret. }
  eapply qruns_mono; [exact Hm|]. intros [t|] w1 K1; [|by apply qruns_ret].
  destruct (fr_payload _ _ F) as [b Hb]. rewrite Hb. apply qruns_bind, qruns_ret. apply qruns_bind.
  assert (Hk : exists q, overlay_tx w1 !! Z.to_nat (queue (q_frame f)) = Some q).
  { apply lookup_lt_is_Some_2. rewrite (qt_tx _ _ K1), (rd_queues _ R). pose proof (fr_queue _ _ F). lia. }
  destruct Hk as [q Hq]. eapply (qruns_mono _ _ (fun _ w' => w' = w1)).
  { destruct (ob_position b <? SMALL_PACKET_SIZE); [|by apply qruns_ret]. apply qruns_bind, (qruns_eq _ _ _ _ _ (get_queue_run _ _ _ Hq)). by apply qruns_ret. }
  intros t' ? ->. eapply qruns_mono; [apply schedule_quiet|]. intros ? w2 K2. etransitivity; [exact K1|exact K2].
Qed.

(** ** Removing always works *)

(** The routes and interfaces are the same. *)
Record same_routes (w w' : qworld) : Prop := {
  sr_interfaces : route_interfaces w' = route_interfaces w;
  sr_subs : subs w' = subs w;
  sr_routes : r_subs (q_route w') = r_subs (q_route w);
  sr_neighbours : neighbours (q_route w') = neighbours (q_route w)
}.

#[export] Instance same_routes_preorder : PreOrder same_routes.
Proof. split; [by split|]. intros w1 w2 w3 [] []. split; congruence. Qed.

Lemma quiet_same_routes w w' : quiet w w' -> same_routes w w'.
Proof. by intros []. Qed.

(** The memory after the payload of a frame was freed. *)
Definition memory_without (f : qframe) (m : mem) : mem :=
  match owned_block f with Some a => delete (p_blk a) m | None => m end.

Lemma free_payload_run f m :
  (forall a, owned_block f = Some a -> p_off a = 0 /\ is_Some (m !! p_blk a)) ->
  match payload (q_frame f) with
  | Some b => snd <$> ob_free (Some b) m = Some (memory_without f m)
  | None => memory_without f m = m
  end.
Proof.
  unfold memory_without, owned_block. destruct (payload _) as [b|]; [|done]. cbn [mbind option_bind ob_free].
  destruct (bytes b), (allocated b) as [a|]; cbn; try done. intros Ha. destruct (Ha a eq_refl) as [Ho [x Hx]].
  unfold free. rewrite Hx, Ho. done.
Qed.

Lemma op_free_run w id f :
  q_heap w !! id = Some f ->
  (forall p, q_prev f = Some p -> exists g, q_heap w !! p = Some g /\ q_next g <> Some id) ->
  (forall n, q_next f = Some n -> exists g, q_heap w !! n = Some g /\ q_prev g <> Some id) ->
  (forall a, owned_block f = Some a -> p_off a = 0 /\ is_Some (memory w !! p_blk a)) ->
  exists w', op_free (Some id) w = Some (0, w') /\ q_heap w' = delete id (q_heap w) /\
    memory w' = memory_without f (memory w) /\ overlay_tx w' = overlay_tx w /\
    interfaces w' = interfaces w /\ same_routes w w'.
Proof.
  intros Hf Hp Hn Ha. unfold op_free. rewrite (qbind_run _ _ _ _ _ (get_frame_run _ _ _ Hf)).
  assert (E1 : (match q_prev f with
                | Some p => g ← get_frame p; mret (bool_decide (q_next g = Some id))
                | None => mret false end : QM bool) w = Some (false, w)).
  { destruct (q_prev f) as [p|]; [|done]. destruct (Hp p eq_refl) as (g & Hg & Hne).
    rewrite (qbind_run _ _ _ _ _ (get_frame_run _ _ _ Hg)). by rewrite bool_decide_false. }
  assert (E2 : (match q_next f with
                | Some n => g ← get_frame n; mret (bool_decide (q_prev g = Some id))
                | None => mret false end : QM bool) w = Some (false, w)).
  { destruct (q_next f) as [n|]; [|done]. destruct (Hn n eq_refl) as (g & Hg & Hne).
    rewrite (qbind_run _ _ _ _ _ (get_frame_run _ _ _ Hg)). by rewrite bool_decide_false. }
  rewrite (qbind_run _ _ _ _ _ E1), (qbind_run _ _ _ _ _ E2).
  pose proof (free_payload_run f (memory w) Ha) as Hm. destruct (payload (q_frame f)) as [b|].
  - destruct (ob_free (Some b) (memory w)) as [[z m]|] eqn:Eb; [|done]. cbn in Hm. injection Hm as ->.
    eexists. split; [unfold mbind at 1, QM_bind at 1, based, routed, base; unfold memory in Eb; rewrite Eb; reflexivity|].
    split_and!; done.
  - eexists. split; [reflexivity|]. cbn. by rewrite Hm.
Qed.

(** A state after a frame and its payload are gone. *)
Lemma freed_ready w w' id f :
  ready w -> q_heap w !! id = Some f -> memory w' = memory_without f (memory w) ->
  length (overlay_tx w') = length (overlay_tx w) -> length (interfaces w') = length (interfaces w) -> same_routes w w' ->
  (forall j g, q_heap w' !! j = Some g -> j <> id /\ exists f, q_heap w !! j = Some f /\ same_data f g) -> ready w'.
Proof.
  intros R Hf Hm Ht Hi S Hh. destruct S as [_ Ss Sr Sn]. split.
  - rewrite Hi. apply R.
  - rewrite Ht. apply R.
  - rewrite Sn. intros n b (j & g & Hg & Ed). apply R. destruct (Hh _ _ Hg) as (_ & f0 & Hf0 & E). exists j, f0.
    split; [done|]. by rewrite E in Ed.
  - unfold sub_of. rewrite Sr, Ss. apply R.
  - unfold sub_of. rewrite Sr. apply R.
  - rewrite Ss. apply R.
  - intros j g Hg. destruct (Hh _ _ Hg) as (_ & f0 & Hf0 & ->). rewrite Ss. destruct (rd_frames _ R _ _ Hf0). by split.
  - intros j g a Hg Ha. destruct (Hh _ _ Hg) as (Hj & f0 & Hf0 & E).
    assert (Ha0 : owned_block f0 = Some a) by (by rewrite E in Ha). destruct (rd_owned _ R _ _ _ Hf0 Ha0) as [Ho Hs].
    split; [done|]. rewrite Hm. unfold memory_without. destruct (owned_block f) as [b|] eqn:Hb; [|done].
    rewrite lookup_delete_ne; [done|]. intros Eb. by apply (rd_apart _ R j id f0 f a b).
  - intros j1 j2 g1 g2 a b Hj Hg1 Hg2 Ha Hb. destruct (Hh _ _ Hg1) as (_ & f1 & Hf1 & E1), (Hh _ _ Hg2) as (_ & f2 & Hf2 & E2).
    rewrite E1 in Ha. rewrite E2 in Hb. by apply (rd_apart _ R j1 j2 f1 f2).
Qed.

Lemma remove_total P Ls w k L1 id L2 :
  queues_wf P Ls w -> ready w -> Ls !! k = Some (L1 ++ id :: L2) ->
  exists w', overlay_queue_remove k id w = Some (head L2, w') /\ queues_wf P (<[k := L1 ++ L2]> Ls) w' /\ ready w' /\
    same_routes w w' /\ (forall j g, q_heap w' !! j = Some g -> exists f, q_heap w !! j = Some f /\ same_data f g).
Proof.
  intros W R HL. destruct (wf_tx _ _ _ _ _ W HL) as (q & Hq & Ok).
  destruct (unlinked_frame P Ls w k L1 id L2 q W HL) as (f & Hf & Hf' & Hpf & Hnf).
  set (w1 := unlinked k q L1 L2 w) in *.
  assert (Hex : forall j, j ∈ L1 ++ id :: L2 -> is_Some (q_heap w1 !! j)).
  { intros j Hj. pose proof (joined_same (last L1) (head L2) (q_heap w) j) as S. cbn.
    destruct (seg_elem _ _ _ _ j (qw_seg _ _ _ W _ _ HL) Hj) as [x Hx]. rewrite Hx in S. by destruct (joined _ _ _ !! j). }
  pose proof (qw_seg _ _ _ W _ _ HL) as S. apply qseg_app in S as [_ [(f0 & Hf0 & Hp & Hn) _]]. assert (f0 = f) as -> by congruence.
  destruct (op_free_run w1 id f Hf') as (w' & E & Hh & Hm & Ht & Hi & Sr).
  - intros p Ep. rewrite Hp in Ep. unfold last_or in Ep. destruct (last L1) as [l|] eqn:El; [|done]. injection Ep as ->.
    destruct (Hex p) as [g Hg]; [apply last_Some_elem_of in El; set_solver|]. exists g. split; [done|].
    eapply Hpf; [|done]. by rewrite Hp; unfold last_or; rewrite El.
  - intros n En. rewrite Hn in En. destruct L2 as [|b L2]; [done|]. injection En as ->.
    destruct (Hex n) as [g Hg]; [set_solver|]. exists g. split; [done|]. by eapply Hnf.
  - intros a Ha. by apply (rd_owned _ R id f).
  - assert (Er : overlay_queue_remove k id w = Some (head L2, w')).
    { rewrite (remove_run P Ls w k L1 id L2 q) by done. fold w1. by rewrite (qbind_run _ _ _ _ _ E). }
    destruct (remove_wf _ _ _ _ _ _ _ _ _ W HL Er) as (_ & W' & Hid & Hsame).
    exists w'. split; [done|]. split; [done|]. split; [|split; [|done]].
    + apply (freed_ready w w' id f); try done.
      * rewrite Ht. cbn. by rewrite length_insert.
      * by rewrite Hi.
      * by destruct Sr.
      * intros j g Hg. split; [congruence|by apply Hsame].
    + by destruct Sr.
Qed.

(** ** Which frames an acknowledgement removes *)

(** We hear a neighbour best on interface [i]. *)
Definition neighbour_on (i : nat) (n : neighbour) : bool :=
  match (b ← best_link n; find_nlink b n) with Some l => bool_decide (nl_interface l = i) | None => false end.

(** Interface [i] is up, has a neighbour, and the frame is still to be sent on it. *)
Definition wanted_on (w : qworld) (f : qframe) (i : nat) : bool :=
  match route_interfaces w !! i, interface_sent_sequence f !! i with
  | Some x, Some s => (if_state x =? INTERFACE_STATE_UP) && negb (s =? FRAME_DONT_SEND) && existsb (neighbour_on i) (neighbours (q_route w))
  | _, _ => false
  end.

(** The packet [s] is the acknowledged one, or up to 32 before it with its bit set. *)
Definition arrived (ack_mask ack_seq s : Z) : bool :=
  existsb (fun d => ((s + d) mod 256 =? ack_seq mod 256) && ((d =? 0) || Z.testbit ack_mask (d - 1))) (seqZ 0 33).

Lemma acked_arrived m a s : acked m a s = arrived m a s.
Proof.
  unfold acked, arrived. change 0xFF with (Z.ones 8). rewrite Z.land_ones by lia. change (2 ^ 8) with 256.
  set (D := (a - s) mod 256). assert (HD : 0 <= D < 256) by (apply Z.mod_pos_bound; lia).
  assert (Hd : forall d, 0 <= d <= 32 -> ((s + d) mod 256 =? a mod 256) = (D =? d)).
  { intros d Hd. unfold D. destruct (_ =? d) eqn:E2; [apply Z.eqb_eq in E2|apply Z.eqb_neq in E2];
      [apply Z.eqb_eq|apply Z.eqb_neq]; Z.div_mod_to_equations; lia. }
  apply eq_true_iff_eq. rewrite existsb_exists. split.
  - intros Hb. exists D. assert (0 <= D <= 32) by (apply orb_true_iff in Hb as [|[]%andb_true_iff]; lia).
    split; [apply list_elem_of_In, elem_of_seqZ; lia|]. rewrite Hd, Z.eqb_refl by done. cbn [andb].
    destruct (D =? 0); [done|]. by apply andb_true_iff in Hb as [_ Hb].
  - intros (d & Hin & Hb). apply list_elem_of_In, elem_of_seqZ in Hin. rewrite Hd in Hb by lia.
    apply andb_true_iff in Hb as [E Hb]. apply Z.eqb_eq in E. subst d. destruct (D =? 0); [done|]. cbn [orb] in *.
    by replace (D <=? 32) with true by lia.
Qed.

(** The frame was sent to the neighbour, or to everyone, in a packet that arrived; a
    broadcast is done with only if no other interface wants it. *)
Definition done_with (w : qworld) (neighbour i : nat) (ack_mask ack_seq : Z) (f : qframe) : bool :=
  match interface_sent_sequence f !! i with
  | None => false
  | Some s =>
      (0 <=? s) && (bool_decide (next_hop (q_frame f) = Some neighbour) || bool_decide (destination (q_frame f) = None)) &&
      arrived ack_mask ack_seq s &&
      (bool_decide (is_Some (destination (q_frame f))) ||
       negb (existsb (wanted_on w (set_sent_sequence f (<[i := FRAME_DONT_SEND]> (interface_sent_sequence f)))) all_interfaces))
  end.

Lemma any_neighbour_run i l w :
  (forall n b, n ∈ l -> best_link n = Some b -> is_Some (find_nlink b n)) ->
  any_neighbour (interface_has_neighbour i) l w = Some (existsb (neighbour_on i) l, w).
Proof.
  induction l as [|n l IH]; intros Hl; [done|]. cbn [any_neighbour existsb].
  rewrite (rbind_run (interface_has_neighbour i n) _ w (neighbour_on i n) w); cycle 1.
  { unfold interface_has_neighbour, neighbour_on. destruct (best_link n) as [b|] eqn:Eb; [|done].
    destruct (Hl n b ltac:(set_solver) Eb) as [k Ek]. unfold get_nlink. cbn. by rewrite Ek. }
  destruct (neighbour_on i n); [done|]. apply IH. set_solver.
Qed.

Lemma ack_wanted_run w f l : ready w -> has_broadcast w -> arrays_ok f -> Forall (fun i => i < OVERLAY_MAX_INTERFACES)%nat l ->
  ack_wanted f l w = Some (existsb (wanted_on w f) l, w).
Proof.
  intros R B Ha Hl. induction Hl as [|i l Hi Hl IH]; [done|]. cbn [ack_wanted existsb].
  destruct (lookup_lt_is_Some_2 (interfaces w) i) as [x Hx]; [by rewrite (rd_interfaces _ R)|].
  destruct (lookup_lt_is_Some_2 (interface_sent_sequence f) i) as [s Hs]; [by rewrite (proj1 Ha)|].
  unfold wanted_on at 1. unfold route_interfaces at 1. rewrite list_lookup_fmap, Hx, Hs. cbn [fmap option_fmap option_map].
  change (if_state (ti_route x) =? INTERFACE_STATE_UP) with (is_up x).
  rewrite (qbind_run (get_interface i) _ w x w) by (unfold get_interface; by rewrite Hx).
  destruct (is_up x); cbn [negb andb orb]; [|done].
  rewrite (qbind_run (sent_on f i) _ w s w) by (unfold sent_on; by rewrite Hs).
  destruct (s =? FRAME_DONT_SEND); cbn [negb andb orb]; [done|].
  rewrite (qbind_run (has_neighbour i) _ w (existsb (neighbour_on i) (neighbours (q_route w))) w); [by case_match|].
  unfold has_neighbour, routed, link_state_interface_has_neighbour.
  rewrite (rbind_run (gets neighbours) _ _ (neighbours (q_route w)) (q_route w)) by done.
  rewrite any_neighbour_run by (intros n b; by apply R). cbn. by destruct w.
Qed.

(** What a check leaves of a frame. *)
Definition checked (f g : qframe) : Prop :=
  q_frame g = q_frame f /\ q_prev g = q_prev f /\ q_next g = q_next f /\ arrays_ok g.

Lemma put_frame_ready w id f g : ready w -> q_heap w !! id = Some f -> q_frame g = q_frame f ->
  ready (set_heap w (<[id := g]> (q_heap w))).
Proof.
  intros R Hf Eg. assert (Ho : owned_block g = owned_block f) by (unfold owned_block; by rewrite Eg). split; try apply R; cbn.
  - intros n b (j & h & Hh & Ed). apply R. revert Hh. cbn. intros [[<- <-]|[_ Hh]]%lookup_insert_Some; [exists id, f; by rewrite <-Eg|by exists j, h].
  - intros j h [[<- <-]|[_ Hh]]%lookup_insert_Some; [|by apply (rd_frames _ R j)].
    destruct (rd_frames _ R _ _ Hf). split; by rewrite Eg.
  - intros j h a [[<- <-]|[_ Hh]]%lookup_insert_Some; [rewrite Ho; by apply (rd_owned _ R id)|by apply (rd_owned _ R j)].
  - intros j1 j2 g1 g2 a b Hj [[<- <-]|[_ H1]]%lookup_insert_Some [[<- <-]|[_ H2]]%lookup_insert_Some; rewrite ?Ho.
    + done.
    + by apply (rd_apart _ R id j2 f).
    + intros Ha Hb. by apply (rd_apart _ R j1 id g1 f).
    + by apply (rd_apart _ R j1 j2).
Qed.

Lemma done_with_routes w w' n i m s f : same_routes w w' -> done_with w' n i m s f = done_with w n i m s f.
Proof.
  intros S. assert (E : forall g l, existsb (wanted_on w' g) l = existsb (wanted_on w g) l).
  { intros g l. induction l as [|j l IH]; [done|]. cbn [existsb]. rewrite IH. f_equal.
    unfold wanted_on. by rewrite (sr_interfaces _ _ S), (sr_neighbours _ _ S). }
  unfold done_with. by rewrite E.
Qed.

Lemma done_with_data w n i m s f g : same_data f g -> done_with w n i m s g = done_with w n i m s f.
Proof. intros ->. done. Qed.

Lemma put_sent_run w id f i s : q_heap w !! id = Some f -> arrays_ok f -> (i < OVERLAY_MAX_INTERFACES)%nat ->
  put_sent_on id i s w = Some (tt, set_heap w (<[id := set_sent_sequence f (<[i := s]> (interface_sent_sequence f))]> (q_heap w))).
Proof.
  intros Hf Ha Hi. unfold put_sent_on. rewrite (qbind_run _ _ _ _ _ (get_frame_run _ _ _ Hf)).
  destruct (sent_on_total f i w Ha Hi) as [x E]. rewrite (qbind_run _ _ _ _ _ E).
  unfold on_frame. rewrite (qbind_run _ _ _ _ _ (get_frame_run _ _ _ Hf)). done.
Qed.

(** The frame [f] at [id] was checked: [gone] says whether it is to be removed. *)
Record frame_checked (w : qworld) (id : nat) (f : qframe) (w' : qworld) : Prop := {
  fc_ready : ready w';
  fc_routes : same_routes w w';
  fc_heap : exists g, q_heap w' = <[id := g]> (q_heap w) /\ q_frame g = q_frame f
}.

Lemma checked_put w id f g : ready w -> q_heap w !! id = Some f -> q_frame g = q_frame f ->
  frame_checked w id f (set_heap w (<[id := g]> (q_heap w))).
Proof. intros R Hf Eg. split; [by eapply put_frame_ready|by split|by exists g]. Qed.

Lemma checked_same w id f : ready w -> q_heap w !! id = Some f -> frame_checked w id f w.
Proof. intros R Hf. split; [done|done|]. exists f. by rewrite insert_id. Qed.

(** The frame is sent again right away, if it waited for the acknowledgement. *)
Lemma requeue_checked w id f (c : bool) t : ready w -> q_heap w !! id = Some f -> arrays_ok f ->
  qruns (if c then _ ← on_frame id (fun f => set_dont_send_until f t);
                   overlay_calc_queue_time gettime_ms directory_service id else mret 0) w (fun _ w' => frame_checked w id f w').
Proof.
  intros R Hf Ha. destruct c; [|apply qruns_ret; by apply checked_same].
  unfold on_frame. apply qruns_bind, qruns_bind, (qruns_eq _ _ _ _ _ (get_frame_run _ _ _ Hf)).
  eapply qruns_eq; [reflexivity|]. set (w1 := set_heap w _).
  pose proof (checked_put w id f (set_dont_send_until f t) R Hf eq_refl) as C. fold w1 in C.
  eapply qruns_mono; [apply (calc_quiet w1 id (set_dont_send_until f t)); [apply C|cbn; apply lookup_insert_eq|done]|].
  intros ? w2 K. destruct C as [R1 S1 (g & Hg & Eg)]. split.
  - by eapply (quiet_ready w1).
  - etransitivity; [exact S1|by apply quiet_same_routes].
  - exists g. by rewrite (qt_heap _ _ K).
Qed.

Lemma ack_frame_total w n i m s t id f :
  ready w -> q_heap w !! id = Some f -> arrays_ok f -> (i < OVERLAY_MAX_INTERFACES)%nat ->
  qruns (ack_frame gettime_ms directory_service n i m s t id) w
    (fun gone w' => gone = done_with w n i m s f /\ frame_checked w id f w').
Proof.
  intros R Hf Ha Hi. unfold ack_frame. apply qruns_bind, (qruns_eq _ _ _ _ _ (get_frame_run _ _ _ Hf)).
  destruct (lookup_lt_is_Some_2 (interface_sent_sequence f) i) as [x Hx]; [by rewrite (proj1 Ha)|].
  apply qruns_bind, (qruns_eq _ x w w); [unfold sent_on; by rewrite Hx|].
  unfold done_with. rewrite Hx. destruct ((0 <=? x) && _); cbn [andb]; [|apply qruns_ret; split; [done|by apply checked_same]].
  rewrite acked_arrived. destruct (arrived m s x); cbn [andb].
  - apply qruns_bind, qruns_bind, (qruns_eq _ _ _ _ _ (put_sent_run w id f i FRAME_DONT_SEND Hf Ha Hi)).
    set (g := set_sent_sequence f _). set (w1 := set_heap w _).
    pose proof (checked_put w id f g R Hf eq_refl) as C. fold w1 in C.
    assert (Hg : q_heap w1 !! id = Some g) by (cbn; apply lookup_insert_eq).
    assert (Hag : arrays_ok g) by (split; cbn; [rewrite length_insert|]; apply Ha).
    destruct (destination (q_frame f)) as [d|] eqn:Ed.
    + apply qruns_ret, qruns_ret. rewrite (bool_decide_true (is_Some _)) by eauto. done.
    + apply qruns_bind, (qruns_eq _ _ _ _ _ (get_frame_run _ _ _ Hg)). apply qruns_bind.
      eapply qruns_eq; [apply ack_wanted_run; [apply C|by exists id, g|done|apply all_interfaces_ok]|]. apply qruns_ret.
      rewrite (bool_decide_false (is_Some None)) by apply is_Some_None. cbn [orb].
      assert (Ew : existsb (wanted_on w1 g) all_interfaces = existsb (wanted_on w g) all_interfaces) by done.
      rewrite Ew. destruct (existsb (wanted_on w g) all_interfaces); cbn [negb]; [|by apply qruns_ret].
      rewrite andb_false_r. cbn [andb]. apply qruns_bind, qruns_ret, qruns_ret. done.
  - apply qruns_bind, qruns_ret, qruns_bind. eapply qruns_mono; [by apply requeue_checked|]. intros ? w1 C. by apply qruns_ret.
Qed.

(** *** All frames *)

(** The frame at [id] is done with. *)
Definition gone_at (w : qworld) (n i : nat) (m s : Z) (id : nat) : bool :=
  match q_heap w !! id with Some f => done_with w n i m s f | None => false end.
Definition remaining (w : qworld) (n i : nat) (m s : Z) (L : list nat) : list nat :=
  filter (fun id => gone_at w n i m s id = false) L.

(** How far the state [w'] got from [w]: the frames [todo] are yet to be checked. *)
Record progress (w w' : qworld) (todo : list nat) : Prop := {
  pg_ready : ready w';
  pg_routes : same_routes w w';
  pg_todo id g : id ∈ todo -> q_heap w' !! id = Some g -> exists f, q_heap w !! id = Some f /\ same_data f g
}.

Lemma progress_gone w w' todo n i m s id f :
  progress w w' todo -> id ∈ todo -> q_heap w' !! id = Some f -> done_with w' n i m s f = gone_at w n i m s id.
Proof.
  intros [_ S Hd] Hid Hf. destruct (Hd _ _ Hid Hf) as (f0 & Hf0 & E). unfold gone_at. rewrite Hf0.
  rewrite (done_with_routes w w') by done. by apply done_with_data.
Qed.

Lemma progress_checked w w1 w2 id f todo :
  progress w w1 (id :: todo) -> id ∉ todo -> frame_checked w1 id f w2 -> progress w w2 todo.
Proof.
  intros [R S Hd] Hid [R2 S2 (g & Hg & _)]. split; [done|by etransitivity|].
  intros j h Hj. rewrite Hg, lookup_insert_ne by (intros ->; done). intros Hh. apply Hd; [set_solver|done].
Qed.

Lemma progress_removed w w1 w2 todo :
  progress w w1 todo -> ready w2 -> same_routes w1 w2 ->
  (forall j g, q_heap w2 !! j = Some g -> exists f, q_heap w1 !! j = Some f /\ same_data f g) -> progress w w2 todo.
Proof.
  intros [R S Hd] R2 S2 Hh. split; [done|by etransitivity|]. intros j g Hj Hg.
  destruct (Hh _ _ Hg) as (f1 & Hf1 & E1). destruct (Hd _ _ Hj Hf1) as (f0 & Hf0 & E0).
  exists f0. split; [done|by etransitivity].
Qed.

Lemma ack_loop_total w0 k n i m s t (todo : list nat) : (i < OVERLAY_MAX_INTERFACES)%nat ->
  forall fuel P Ls w D R, queues_wf P Ls w -> Ls !! k = Some (D ++ R) -> progress w0 w (R ++ todo) ->
  NoDup (R ++ todo) -> (length R <= fuel)%nat ->
  exists w', ack_loop gettime_ms directory_service fuel k n i m s t (head R) w = Some (tt, w') /\
    queues_wf P (<[k := D ++ remaining w0 n i m s R]> Ls) w' /\ progress w0 w' todo.
Proof.
  intros Hi. induction fuel as [|fuel IH]; intros P Ls w D R W HL Pg Hnd Hlen; destruct R as [|id R]; cbn [length] in Hlen; try lia;
    try (exists w; split; [done|]; split; [by rewrite list_insert_id|done]).
  cbn [app] in Hnd. apply NoDup_cons in Hnd as [Nid Hnd]. cbn [head ack_loop].
  assert (Hid : is_Some (q_heap w !! id)).
  { apply (qw_heap _ _ _ W), elem_of_app. right. eapply elem_of_queue; [done|set_solver]. }
  destruct Hid as [f Hf]. destruct (ack_frame_total w n i m s t id f) as (gone & w1 & E1 & -> & C);
    [apply Pg|done|exact (qw_arrays _ _ _ W id f Hf)|done|].
  rewrite (qbind_run _ _ _ _ _ E1). rewrite (progress_gone w0 w (id :: R ++ todo) n i m s id f) by (done || set_solver).
  pose proof (kept_wf _ _ _ _ (keeps_ack_frame _ _ _ _ _ _ _ _ _ _ _ E1) W) as W1.
  assert (Pg1 : progress w0 w1 (R ++ todo)) by (by eapply progress_checked).
  unfold remaining. rewrite filter_cons. destruct (gone_at w0 n i m s id) eqn:Eg.
  - rewrite decide_False by done. destruct (remove_total P Ls w1 k D id R W1 (fc_ready _ _ _ _ C) HL) as (w2 & E2 & W2 & R2 & S2 & H2).
    rewrite (qbind_run _ _ _ _ _ E2).
    destruct (IH P (<[k := D ++ R]> Ls) w2 D R W2) as (w' & E' & W' & Pg'); [|by eapply progress_removed|done|lia|].
    { apply list_lookup_insert_eq. by eapply lookup_lt_Some. }
    rewrite list_insert_insert_eq in W'. by exists w'.
  - rewrite decide_True by done. assert (Hid1 : is_Some (q_heap w1 !! id)).
    { apply (qw_heap _ _ _ W1), elem_of_app. right. eapply elem_of_queue; [done|set_solver]. }
    destruct Hid1 as [g Hg]. erewrite (qbind_run _ _ w1 _ w1); cycle 1.
    { rewrite (qbind_run _ _ _ _ _ (get_frame_run _ _ _ Hg)). reflexivity. }
    rewrite (next_frame P Ls w1 k D id R g W1 HL Hg).
    destruct (IH P Ls w1 (D ++ [id]) R W1) as (w' & E' & W' & Pg'); [by rewrite <-app_assoc|done|done|lia|].
    exists w'. split; [done|]. by rewrite <-app_assoc in W'.
Qed.

Lemma ack_queues_total w0 P Ls n i m s t : (i < OVERLAY_MAX_INTERFACES)%nat -> NoDup (concat Ls) -> length Ls = Z.to_nat OQ_MAX ->
  let rem := remaining w0 n i m s in
  forall c k w, (k + c)%nat = Z.to_nat OQ_MAX -> queues_wf P ((rem <$> take k Ls) ++ drop k Ls) w ->
  progress w0 w (concat (drop k Ls)) ->
  exists w', ack_queues gettime_ms directory_service n i m s t (seq k c) w = Some (tt, w') /\ queues_wf P (rem <$> Ls) w'.
Proof.
  intros Hi Hnd Hlen rem. induction c as [|c IH]; intros k w Hk W Pg.
  { exists w. split; [done|]. rewrite take_ge, drop_ge, app_nil_r in W by lia. done. }
  destruct (lookup_lt_is_Some_2 Ls k) as [L HL]; [lia|].
  assert (Ed : drop k Ls = L :: drop (S k) Ls) by (by apply drop_S).
  assert (Elen : length (rem <$> take k Ls) = k) by (rewrite length_fmap, length_take; lia).
  rewrite Ed in W, Pg. cbn [concat] in Pg.
  assert (HLk : ((rem <$> take k Ls) ++ L :: drop (S k) Ls) !! k = Some ([] ++ L)).
  { rewrite lookup_app_r by lia. by rewrite Elen, Nat.sub_diag. }
  destruct (wf_tx _ _ _ _ _ W HLk) as (q & Hq & Ok).
  cbn [seq ack_queues]. rewrite (qbind_run _ _ _ _ _ (get_queue_run _ _ _ Hq)), (qo_first _ _ Ok).
  rewrite (qbind_run (asks _) _ w (size (q_heap w)) w) by done.
  assert (HndL : NoDup (L ++ concat (drop (S k) Ls))).
  { rewrite <-(take_drop k Ls), concat_app, Ed in Hnd. by apply NoDup_app in Hnd as (_ & _ & Hnd). }
  destruct (ack_loop_total w0 k n i m s t (concat (drop (S k) Ls)) Hi (size (q_heap w)) P _ w [] L W HLk Pg HndL) as (w1 & E1 & W1 & Pg1).
  { by eapply (queue_size P _ w k). }
  cbn [app] in E1. rewrite (qbind_run _ _ _ _ _ E1). apply IH; [lia| |done].
  rewrite insert_app_r_alt in W1 by lia. rewrite Elen, Nat.sub_diag in W1. cbn [app] in W1.
  rewrite (take_S_r _ _ L) by done. rewrite fmap_app. cbn [fmap list_fmap]. by rewrite <-app_assoc.
Qed.
End ready.

(** [C26] Provided nothing dangles ([ready]: the payloads, subscribers and interfaces of frames and
    routes exist, no two frames own the same memory, and, when a broadcast waits, the best link of
    every neighbour is one of its links), an acknowledgement from a neighbour for one of the 16 interfaces gets processed, and
    takes exactly those frames off the queues, and out of memory, that it covers: frames that were
    last sent to that neighbour (or, broadcasts, on the interface) in the acknowledged packet or
    one of the 32 before it whose bit is set, unless a broadcast still waits for another
    interface.  All other frames stay, in order.  The best link of a neighbour can dangle after
    clean_neighbours has dropped it; acknowledging a broadcast then reads freed memory. *)
Theorem ack_exact `{Allocator} gettime_ms directory_service w Ls n i ack_mask ack_seq :
  queues_wf [] Ls w -> ready directory_service w -> (i < OVERLAY_MAX_INTERFACES)%nat ->
  exists w', overlay_queue_ack gettime_ms directory_service n i ack_mask ack_seq w = Some (0, w') /\
    queues_wf [] ((fun L => filter (fun id => gone_at w n i ack_mask ack_seq id = false) L) <$> Ls) w'.
Proof.
  intros W R Hi. unfold overlay_queue_ack. destruct (now_quiet gettime_ms w) as (t & w1 & E1 & K).
  rewrite (qbind_run _ _ _ _ _ E1). pose proof (qw_nodup _ _ _ W) as Hnd.
  assert (W1 : queues_wf [] Ls w1) by (eapply kept_wf; [by eapply qkeeps_now|done]).
  destruct (ack_queues_total gettime_ms directory_service w [] Ls n i ack_mask ack_seq t Hi Hnd (qw_count _ _ _ W)
    (Z.to_nat OQ_MAX) 0 w1 eq_refl) as (w' & E & W').
  - by rewrite take_0, drop_0.
  - split; [by eapply (quiet_ready _ w)|by apply quiet_same_routes|]. intros id g _ Hg. exists g. rewrite <-(qt_heap _ _ K). done.
  - exists w'. split; [|done]. by rewrite (qbind_run _ _ _ _ _ E).
Qed.

(** *** A broadcast that was sent in packet 5 *)

Definition sent_frame : qframe :=
  mk_qframe None None
    (mk_frame (Some demo_buffer) OF_TYPE_DATA (Some 0%nat) false None 1 (replicate BROADCAST_LEN 0) false None 77 (Some 0) 1 0 3 1)
    1 None (5 :: replicate 15 FRAME_DONT_SEND) (replicate 16 0) false 0 0.
Definition sent_queues : qworld :=
  mk_qworld (demo_memory demo_routes) {[0%nat := sent_frame]} 1
    [init_queue 0; set_q_length (set_first (set_last (init_queue 1) (Some 0%nat)) (Some 0%nat)) 1; init_queue 2; init_queue 3; init_queue 4]
    3 0 0 (demo_interfaces ENCAP_OVERLAY) ∅ zero_packet [].

Lemma sent_queues_wf : queues_wf [] [[]; [0%nat]; []; []; []] sent_queues.
Proof.
  assert (HL : forall k (L : list nat), [[]; [0%nat]; []; []; []] !! k = Some L -> L = [] \/ (k = 1%nat /\ L = [0%nat])).
  { intros [|[|[|[|[|k]]]]] L; cbn; intros [= <-]; auto. }
  split; cbn [q_heap sent_queues app concat overlay_tx].
  - done.
  - repeat constructor; cbn; (done || lia).
  - intros k L [->|[-> ->]]%HL; [done|]. cbn. split; [|done]. exists sent_frame. by rewrite lookup_singleton_eq.
  - apply NoDup_singleton.
  - intros id. rewrite lookup_singleton_is_Some. set_solver.
  - intros k L id f [->|[-> ->]]%HL; [set_solver|]. intros ->%list_elem_of_singleton. rewrite lookup_singleton_eq. by intros [= <-].
  - intros id f [<- <-]%lookup_singleton_Some. done.
  - set_solver.
  - intros id. rewrite lookup_singleton_is_Some. intros <-. cbn. lia.
Qed.

Lemma sent_queues_ready : ready None sent_queues.
Proof.
  split; cbn [q_heap sent_queues overlay_tx].
  - done.
  - done.
  - intros n b _ Hn. assert (n = set_best_link (set_links (demo_nb 10 1 0) [mk_nlink 20 0 0 100 0 (-1) 0]) (Some 20%nat)) as -> by (cbn in Hn; set_solver).
    intros [= <-]. by eexists.
  - intros i n. by cbn.
  - intros i n. by cbn.
  - done.
  - intros id f [<- <-]%lookup_singleton_Some. split; cbn; [eauto|done| |done]. intros i [= <-]. done.
  - intros id f a [<- <-]%lookup_singleton_Some. done.
  - intros i j f g a b Hij [<- <-]%lookup_singleton_Some [<- <-]%lookup_singleton_Some. done.
Qed.

Lemma ack_exact_witness :
  exists w', overlay_queue_ack (fun _ => 60) None 1 0 1 6 sent_queues = Some (0, w') /\
    queues_wf [] ((fun L => filter (fun id => gone_at sent_queues 1 0 1 6 id = false) L) <$> [[]; [0%nat]; []; []; []]) w'.
Proof. apply ack_exact; [apply sent_queues_wf|apply sent_queues_ready|unfold OVERLAY_MAX_INTERFACES; lia]. Defined.

Example ack_removes : gone_at sent_queues 1 0 1 6 0 = true.
Proof. vm_compute. reflexivity. Qed.

(** The broadcast still waits for a second interface, and the best link of the neighbour is a link
    that was freed. *)
Definition dangling_queues : qworld :=
  mk_qworld (demo_memory (set_neighbours demo_routes ((fun n => set_best_link n (Some 21%nat)) <$> neighbours demo_routes)))
    {[0%nat := set_sent_sequence sent_frame (5 :: FRAME_NOT_SENT :: replicate 14 FRAME_DONT_SEND)]} 1 (overlay_tx sent_queues) 3 0 0
    (replicate 2 (demo_interface INTERFACE_STATE_UP ENCAP_OVERLAY) ++ replicate 14 (demo_interface 0 ENCAP_OVERLAY)) ∅ zero_packet [].

Example ack_dangles : overlay_queue_ack (fun _ => 60) None 1 0 1 6 dangling_queues = None.
Proof. vm_compute. reflexivity. Qed.
