(* ===== verification/QueueLimits.v ===== *)
(** QueueLimits: that the transmit queues come to an end, and where they go wrong. *)

From S2P Require Import Prelude CMem OverlayBuffer OverlayBufferCodec DataFormats Slip SubscriberTree OverlayAddress PacketFormats RouteLinks Route RouteBest RouteOps RouteReceive Limit TxState OverlayQueue QueueInv QueueProps QueueAck.

(** ** Filling a packet ends *)

(** Going through a queue always ends: it looks at each frame once, whatever it does with it,
    so that the loop never runs out of fuel, and would never go on for ever. *)
Theorem stuff_packet_terminates `{Allocator} gettime_ms my_subscriber directory_service write write_file sendto stuck t k P Ls w :
  queues_wf P Ls w -> (k < Z.to_nat OQ_MAX)%nat ->
  stuff_packet_with gettime_ms my_subscriber directory_service write write_file sendto stuck t k w =
  overlay_stuff_packet gettime_ms my_subscriber directory_service write write_file sendto t k w.
Proof.
  intros W Hk. unfold overlay_stuff_packet, stuff_packet_with. apply qbind_ext. intros q w0 [-> Hq]%get_queue_inv.
  apply qbind_ext. intros n w0 [= <- <-]. destruct (lookup_lt_is_Some_2 Ls k) as [L HL]; [by rewrite (qw_count _ _ _ W)|].
  destruct (wf_tx _ _ _ _ _ W HL) as (q' & Hq' & Ok). assert (q' = q) as -> by congruence. rewrite (qo_first _ _ Ok).
  eapply (stuff_loop_stuck _ _ _ _ _ _ _ _ _ _ P Ls w [] L); [done|done|by eapply queue_size].
Qed.

Lemma stuff_packet_terminates_witness :
  stuff_packet_with (fun _ => 60) (Some 0%nat) None (fun _ d => zlen d) (fun _ _ _ => 0) (fun _ _ _ => SendtoOk) (mret tt) 60 1 sent_queues =
  overlay_stuff_packet (fun _ => 60) (Some 0%nat) None (fun _ d => zlen d) (fun _ _ _ => 0) (fun _ _ _ => SendtoOk) 60 1 sent_queues.
Proof. eapply stuff_packet_terminates; [apply sent_queues_wf|unfold OQ_MAX; lia]. Defined.

(** ** Queueing ends *)

(** What building a probe leaves alone: the clock, the routes and where the frame goes. *)
Record probe_kept (id : nat) (w w' : qworld) : Prop := {
  pk_ticks : w_ticks (rw (q_route w')) = w_ticks (rw (q_route w));
  pk_routes : r_subs (q_route w') = r_subs (q_route w);
  pk_frame f : q_heap w !! id = Some f -> exists g, q_heap w' !! id = Some g /\
    destination (q_frame g) = destination (q_frame f) /\ destination_resolved (q_frame g) = destination_resolved (q_frame f)
}.

#[export] Instance probe_kept_preorder id : PreOrder (probe_kept id).
Proof.
  split; [intros w; split; eauto|]. intros w1 w2 w3 [T1 R1 F1] [T2 R2 F2]. split; [congruence|congruence|].
  intros f Hf. destruct (F1 f Hf) as (g & Hg & ? & ?). destruct (F2 g Hg) as (h & Hh & ? & ?). exists h. split_and!; congruence.
Qed.

Lemma on_buffer_kept {A} id (f : mem -> option (A * overlay_buffer * mem)) w x w' :
  based (on_buffer f) w = Some (x, w') -> probe_kept id w w'.
Proof.
  unfold based, routed, base, on_buffer. destruct (f _) as [[[a b] m]|]; [|done]. cbn. intros [= <- <-]. split; cbn; eauto.
Qed.

Lemma set_payload_kept id j b w x w' :
  on_frame j (fun f => set_q_frame f (set_payload (q_frame f) b)) w = Some (x, w') -> probe_kept id w w'.
Proof.
  unfold on_frame. intros E. apply qbind_inv in E as (f & w1 & [-> Hf]%get_frame_inv & [= _ <-]). split; cbn; try done.
  intros g Hg. destruct (decide (id = j)) as [->|]; [rewrite lookup_insert_eq|rewrite lookup_insert_ne by done; eauto].
  simplify_eq. by eexists.
Qed.

(** Operations that do not read the clock. *)
Definition ticks_kept {A} (m : M A) : Prop := forall w x w', m w = Some (x, w') -> w_ticks w' = w_ticks w.

Lemma ticks_ret {A} (x : A) : ticks_kept (mret x).
Proof. by intros w y w' [= _ <-]. Qed.
Lemma ticks_lift {A} (o : option A) : ticks_kept (lift o).
Proof. intros w y w'. unfold lift. destruct o; [|done]. by intros [= _ <-]. Qed.
Lemma ticks_on_buffer {A} (f : mem -> option (A * overlay_buffer * mem)) : ticks_kept (on_buffer f).
Proof. intros w y w'. unfold on_buffer. destruct (f _) as [[[a b] m]|]; [|done]. by intros [= _ <-]. Qed.
Lemma ticks_bind {A B} (m : M A) (f : A -> M B) : ticks_kept m -> (forall x, ticks_kept (f x)) -> ticks_kept (m ≫= f).
Proof.
  intros Hm Hf w y w'. unfold mbind, M_bind. destruct (m w) as [[x w1]|] eqn:E; [|done]. intros E2.
  rewrite (Hf _ _ _ _ E2). by apply Hm in E.
Qed.

Section ends.
Context `{Allocator}.
Context (gettime_ms : nat -> Z) (my_subscriber directory_service : option nat).
Context (olsr : bool) (probe_contents : Z -> Z -> list Z).
(** Time has begun, and no two readings in a row are more than 5 seconds apart. *)
Context (clock_ok : forall n, 0 < gettime_ms n /\ gettime_ms (S n) - gettime_ms n <= 5000).

Abbreviation enqueue_with := (OverlayQueue.enqueue_with gettime_ms my_subscriber directory_service olsr).
Abbreviation enqueue_fuel := (OverlayQueue.enqueue_fuel gettime_ms my_subscriber directory_service olsr probe_contents).

Lemma encode_ports_kept id b d s w x w' : based (overlay_mdp_encode_ports b d s) w = Some (x, w') -> probe_kept id w w'.
Proof.
  unfold based, routed, base. destruct (overlay_mdp_encode_ports b d s (rw (q_route w))) as [[y v]|] eqn:E; [|done].
  cbn. intros [= <- <-]. assert (Hv : w_ticks v = w_ticks (rw (q_route w))); [|split; cbn; eauto].
  revert E. generalize (rw (q_route w)) y v. change (ticks_kept (overlay_mdp_encode_ports b d s)).
  apply ticks_bind; [apply ticks_lift|]. intros port. apply ticks_bind; [apply ticks_on_buffer|]. intros [r b1].
  destruct (negb (r =? 0)); [apply ticks_ret|]. destruct (negb (d =? s)); [|apply ticks_ret].
  apply ticks_bind; [apply ticks_on_buffer|]. intros [r2 b2]. apply ticks_ret.
Qed.

Lemma qbind_eq {A B} (m1 m2 : QM A) (f : A -> QM B) w : m1 w = m2 w -> (m1 ≫= f) w = (m2 ≫= f) w.
Proof. intros E. unfold mbind, QM_bind. by rewrite E. Qed.

(** A probe that was just sent is not due, so that how probes are sent does not matter. *)
Lemma enqueue_probe send1 send2 w id f :
  q_heap w !! id = Some f -> destination_resolved (q_frame f) = true ->
  (forall d, destination (q_frame f) = Some d ->
     exists n, w_ticks (rw (q_route w)) = S n /\ last_probe (sub_of (q_route w) d) = gettime_ms n) ->
  enqueue_with send1 (Some id) w = enqueue_with send2 (Some id) w.
Proof.
  intros Hf Hr Hp. unfold OverlayQueue.enqueue_with. rewrite !(qbind_run _ _ _ _ _ (get_frame_run _ _ _ Hf)).
  apply qbind_ext. intros ok w1 E. assert (w1 = w) as -> by (unfold has_route in E; rewrite Hr in E; by injection E).
  destruct (negb ok); [done|]. destruct (OQ_MAX <=? _); [done|]. apply qbind_eq.
  destruct (destination (q_frame f)) as [d|]; [|done]. destruct (Hp d eq_refl) as (n & Hn & Hl).
  destruct (clock_ok n) as [Hpos Hstep].
  apply qbind_ext. intros r w1 E1. assert (w1 = w /\ r = sub_of (q_route w) d) as [-> ->].
  { injection E1 as <- <-. split; [by destruct w as [[]]|done]. }
  apply qbind_ext. intros due w1 E2. rewrite Hl in E2. replace (gettime_ms n =? 0) with false in E2 by lia.
  apply qbind_inv in E2 as (t & w2 & E2 & [= <- <-]).
  assert (t = gettime_ms (S n)) as ->.
  { revert E2. unfold q_now, routed, Route.r_now, base, now. cbn. intros [= <- _]. by rewrite Hn. }
  by replace (5000 <? gettime_ms (S n) - gettime_ms n) with false by lia.
Qed.

(** So the frame of a probe is queued without another probe. *)
Lemma queue_probe_ext send1 send2 p a i k w :
  queue_probe gettime_ms my_subscriber probe_contents (enqueue_with send1) p a i k w =
  queue_probe gettime_ms my_subscriber probe_contents (enqueue_with send2) p a i k w.
Proof.
  unfold queue_probe. apply qbind_ext. intros b w1 _. apply qbind_ext. intros id w2 [= <- <-]. set (id := q_next_id w1).
  set (w2 := set_heap _ _). apply qbind_ext. intros u w3 E3.
  assert (H3 : exists f, q_heap w3 !! id = Some f /\ destination_resolved (q_frame f) = true /\ destination (q_frame f) = p /\
            (forall d, p = Some d -> exists n, w_ticks (rw (q_route w3)) = S n /\ last_probe (sub_of (q_route w3) d) = gettime_ms n)).
  { exists (probe_frame my_subscriber p a i (u8 k) b). destruct p as [d|].
    - injection E3 as _ <-. cbn. split; [apply lookup_insert_eq|]. split; [done|]. split; [done|].
      intros d' [= <-]. exists (w_ticks (rw (q_route w1))). split; [done|]. unfold sub_of. cbn. by rewrite lookup_insert_eq.
    - injection E3 as _ <-. cbn. split; [apply lookup_insert_eq|]. done. }
  destruct H3 as (f & Hf & Hr & Hd & Hp). clearbody id. clear E3.
  apply qbind_ext. intros [r4 b4] w4 E4. apply (encode_ports_kept id) in E4. apply qbind_ext. intros ? w5 E5.
  apply (set_payload_kept id) in E5. destruct (negb (r4 =? 0)); [done|].
  apply qbind_ext. intros [r6 b6] w6 E6. apply (on_buffer_kept id) in E6. apply qbind_ext. intros ? w7 E7.
  apply (set_payload_kept id) in E7. destruct (negb (r6 =? 0)); [done|]. apply qbind_eq.
  assert (K : probe_kept id w3 w7) by (etransitivity; [exact E4|etransitivity; [exact E5|etransitivity; [exact E6|exact E7]]]).
  destruct (pk_frame _ _ _ K f Hf) as (g & Hg & Hgd & Hgr). eapply enqueue_probe; [done|congruence|].
  intros d Ed. destruct (Hp d) as (n & Hn & Hl); [congruence|]. exists n. rewrite (pk_ticks _ _ _ K). split; [done|].
  unfold sub_of in *. by rewrite (pk_routes _ _ _ K).
Qed.

Lemma enqueue_fuel_ext n p w : enqueue_fuel (S (S n)) p w = enqueue_fuel 2 p w.
Proof.
  destruct n as [|n]; [done|]. change (enqueue_fuel (S (S (S n)))) with (enqueue_with (send_probe_with gettime_ms my_subscriber
    probe_contents (enqueue_with (send_probe_with gettime_ms my_subscriber probe_contents (enqueue_fuel (S n)))))).
  change (enqueue_fuel 2) with (enqueue_with (send_probe_with gettime_ms my_subscriber probe_contents
    (enqueue_with (send_probe_with gettime_ms my_subscriber probe_contents (enqueue_fuel 0))))).
  generalize (enqueue_fuel (S n)) (enqueue_fuel 0). intros e1 e2.
  set (s1 := send_probe_with _ _ _ e1). set (s2 := send_probe_with _ _ _ e2). clearbody s1 s2.
  set (p1 := send_probe_with _ _ _ (enqueue_with s1)). set (p2 := send_probe_with _ _ _ (enqueue_with s2)).
  assert (Hp : forall d a i k w, p1 d a i k w = p2 d a i k w).
  { intros d a j k v. unfold p1, p2, send_probe_with.
    apply qbind_ext. intros [i|] w5 _; [|done]. apply qbind_ext. intros x w6 _. destruct (negb (is_up x)); [done|].
    apply qbind_ext. intros ok' w7 _. destruct (negb ok'); [done|]. destruct (socket_type x =? SOCK_STREAM); [done|].
    apply qbind_ext. intros t w8 _. apply qbind_ext. intros recent w9 _. destruct recent; [done|]. apply queue_probe_ext. }
  clearbody p1 p2. unfold OverlayQueue.enqueue_with. destruct p as [id|]; [|done].
  apply qbind_ext. intros f w1 _. apply qbind_ext. intros ok w2 _. destruct (negb ok); [done|]. destruct (OQ_MAX <=? _); [done|].
  apply qbind_eq. destruct (destination (q_frame f)) as [d|]; [|done]. apply qbind_ext. intros r w3 _.
  apply qbind_ext. intros due w4 _. destruct due; [|done]. apply qbind_eq, Hp.
Qed.
End ends.

(** Queueing a frame may send a probe, which is a frame to queue, which may send a probe.  The
    second probe never happens, so that queueing ends, unless the clock jumps: more fuel than
    [overlay_payload_enqueue] has changes nothing. *)
Theorem enqueue_terminates `{Allocator} gettime_ms my_subscriber directory_service olsr probe_contents n p w :
  (forall n, 0 < gettime_ms n /\ gettime_ms (S n) - gettime_ms n <= 5000) ->
  enqueue_fuel gettime_ms my_subscriber directory_service olsr probe_contents (2 + n) p w =
  overlay_payload_enqueue gettime_ms my_subscriber directory_service olsr probe_contents p w.
Proof.
  intros Hc. unfold overlay_payload_enqueue. change (2 + n)%nat with (S (S n)).
  exact (enqueue_fuel_ext gettime_ms my_subscriber directory_service olsr probe_contents Hc n p w).
Qed.

Lemma enqueue_terminates_witness :
  enqueue_fuel demo_clock (Some 0%nat) None false (fun _ _ => replicate 20 0) (2 + 5) (Some 0%nat) (demo_queues ENCAP_OVERLAY) =
  overlay_payload_enqueue demo_clock (Some 0%nat) None false (fun _ _ => replicate 20 0) (Some 0%nat) (demo_queues ENCAP_OVERLAY).
Proof. apply enqueue_terminates. intros n. unfold demo_clock. Z.div_mod_to_equations. lia. Defined.

(** ** Retransmissions *)

(** A frame is sent again as long as fewer than 64 others were numbered since, but the window
    of the receiver copes with 32: the queue lets a frame pass that is 33 to 63 behind, and a
    receiver that has seen the latest number shifts by more bits than an [int] has. *)
Theorem retransmission_undefined w id f d mask :
  q_heap w !! id = Some f -> 0 <= last_mdp_sequence w < 0x10000 -> 33 <= d <= 63 -> mdp_sequence (q_frame f) <> -1 ->
  mdp_sequence (q_frame f) = (last_mdp_sequence w - d) mod 0x10000 ->
  number_frame id w = Some (None, w) /\
  received_before (last_mdp_sequence w mod 256) mask (Z.land (mdp_sequence (q_frame f)) 0xFF) = None.
Proof.
  intros Hf HM Hd Hne Hseq. set (M := last_mdp_sequence w) in *.
  assert (HdM : (M - mdp_sequence (q_frame f)) mod 0x10000 = d) by (rewrite Hseq; Z.div_mod_to_equations; lia). split.
  - unfold number_frame. rewrite (qbind_run _ _ _ _ _ (get_frame_run _ _ _ Hf)).
    rewrite (qbind_run (asks last_mdp_sequence) _ w M w) by done. replace (_ =? -1) with false by lia.
    change 0xFFFF with (Z.ones 16). rewrite Z.land_ones by lia. change (2 ^ 16) with 0x10000. rewrite HdM.
    by replace (64 <=? d) with false by lia.
  - change 0xFF with (Z.ones 8). rewrite Z.land_ones by lia. change (2 ^ 8) with 256.
    set (n := mdp_sequence (q_frame f) mod 256).
    assert (Hn : (M mod 256 - 1 - n) mod 256 = d - 1) by (unfold n; rewrite Hseq; Z.div_mod_to_equations; lia).
    unfold received_before. replace (M mod 256 =? -1) with false by (Z.div_mod_to_equations; lia). cbn [negb].
    replace (M mod 256 =? n) with false by (unfold n; rewrite Hseq; Z.div_mod_to_equations; lia).
    change 0xFF with (Z.ones 8). rewrite Z.land_ones by lia. change (2 ^ 8) with 256. rewrite Hn.
    replace (d - 1 <? 64) with true by lia. unfold mask_bit, ishl. zdecide. done.
Qed.

Lemma retransmission_undefined_witness :
  number_frame 0 (set_last_mdp_sequence sent_queues 40) = Some (None, set_last_mdp_sequence sent_queues 40) /\
  received_before (40 mod 256) 0 (Z.land 3 0xFF) = None.
Proof. apply (retransmission_undefined (set_last_mdp_sequence sent_queues 40) 0 sent_frame 37 0); cbn; (done || lia). Defined.

(** ** Packets of one frame *)

(** The second interface is up and has the neighbour. *)
Definition single_interfaces : list tx_interface :=
  demo_interface 0 ENCAP_SINGLE :: demo_interface INTERFACE_STATE_UP ENCAP_SINGLE :: replicate 14 (demo_interface 0 ENCAP_SINGLE).
Definition single_routes : rworld :=
  demo_memory (set_neighbours demo_rworld [set_best_link (set_links (demo_nb 10 1 0) [mk_nlink 20 0 1 100 0 (-1) 0]) (Some 20%nat)]).
Definition single_queues : qworld := mk_qworld single_routes ∅ 0 [] 0 0 0 single_interfaces ∅ zero_packet [].

(** The packets among the events. *)
Definition packets (w : qworld) : list (list Z) :=
  omap (fun e => match e with Datagram _ _ p => Some p | _ => None end) (q_events w).

(** An interface that sends each frame in a packet of its own does not begin a packet, so that
    the number of the interface in it is always 0 and its sequence number -1: a broadcast on
    any other interface is not marked as sent there, stays in its queue and is sent again each
    time the queue is looked at, with no pause in between. *)
Theorem single_frame_repeats :
  exists w f p1 p2 p3, (_ ← overlay_queue_init; demo_run [Submit (demo_frame 1); SendPacket; SendPacket; SendPacket] : QM Z) single_queues = Some (0, w) /\
    q_heap w !! 0%nat = Some f /\ interface_sent_sequence f !! 1%nat = Some FRAME_NOT_SENT /\
    interface_dont_send_until f !! 1%nat = Some 0 /\
    packets w = [p1; p2; p3] /\ drop 9 p1 = [7; 1; 1; 2; 3] /\ drop 9 p2 = drop 9 p1 /\ drop 9 p3 = drop 9 p1.
Proof. eexists _, _, _, _, _. split; [vm_compute; reflexivity|]. vm_compute. auto 20. Qed.

(** ** Closing an interface *)

(** overlay_interface_close has the links cleaned before it marks the interface as down: its
    links are kept, and it still counts as one with a neighbour. *)
Theorem closed_interface_keeps_links :
  exists w n l, overlay_interface_close demo_clock None 0 (demo_queues ENCAP_OVERLAY) = Some (tt, w) /\
    is_up <$> interfaces w !! 0%nat = Some false /\ neighbours (q_route w) = [n] /\ n_links n = [l] /\ nl_interface l = 0%nat /\
    has_neighbour 0 w = Some (true, w).
Proof. eexists _, _, _. split; [vm_compute; reflexivity|]. vm_compute. auto 20. Qed.
