(* ===== verification/Nonce.v ===== *)
(** Nonce: nonce.c, the numbers used once of encrypted datagrams.

    A buffer of 128 random bytes is counted up as one little-endian number; a nonce is its
    first bytes. *)

From S2P Require Import Prelude.

Definition NONCE_BUFFER : nat := 128.

(** [nonce_initialised], [nonce_buffer], and how often random bytes were taken. *)
Record nonce_state := mk_nonce { nonce_initialised : bool; nonce_buffer : list Z; nonce_draws : nat }.

(** The loop that adds one: the bytes, and whether it ran off the end. *)
Fixpoint increment (l : list Z) : list Z * bool :=
  match l with
  | [] => ([], true)
  | x :: l =>
      let b := u8 (x + 1) in
      if negb (b =? 0) then (b :: l, false)
      else let '(l, over) := increment l in (b :: l, over)
  end.

Section nonce.
(** urandombytes(nonce_buffer, 128) *)
Context (urandombytes : nat -> option (list Z)).

(** The nonce, None for the result -1.  [fuel] bounds the jumps back to [start]. *)
Fixpoint nonce_start (fuel : nat) (bytes : Z) (s : nonce_state) : option (option (list Z) * nonce_state) :=
  match fuel with
  | O => None
  | S fuel =>
      let s' := if nonce_initialised s then Some s
                else l ← urandombytes (nonce_draws s); Some (mk_nonce true l (S (nonce_draws s))) in
      match s' with
      | None => Some (None, mk_nonce false (nonce_buffer s) (S (nonce_draws s)))
      | Some s =>
          let '(l, over) := increment (nonce_buffer s) in
          if over : bool then nonce_start fuel bytes (mk_nonce false l (nonce_draws s))
          else n ← zslice l 0 bytes; Some (Some n, mk_nonce true l (nonce_draws s))
      end
  end.

(** Two passes: the counter overflows at most once, unless the random bytes are all 255. *)
Definition generate_nonce (bytes : Z) (s : nonce_state) : option (option (list Z) * nonce_state) :=
  if (bytes <? 1) || (128 <? bytes) then Some (None, s) else nonce_start 2 bytes s.

(** The next [n] nonces. *)
Fixpoint generate_nonces (n : nat) (bytes : Z) (s : nonce_state) : option (list (list Z) * nonce_state) :=
  match n with
  | O => Some ([], s)
  | S n =>
      '(x, s) ← generate_nonce bytes s;
      x ← x;
      '(l, s) ← generate_nonces n bytes s;
      Some (x :: l, s)
  end.
End nonce.

(** [nonce[0] &= 0x7f], by which overlay_mdp_dispatch reserves a bit of the nonce it sends. *)
Definition reserve_bit (nonce : list Z) : list Z :=
  match nonce with [] => [] | x :: l => Z.land x 0x7f :: l end.

(** * The number in the buffer *)

Fixpoint le_val (l : list Z) : Z := match l with [] => 0 | x :: l => x + 256 * le_val l end.

Lemma le_val_range l : are_bytes l -> 0 <= le_val l < 256 ^ zlen l.
Proof.
  induction 1 as [|x l Hx _ IH]; [cbn; lia|]. cbn [le_val length]. unfold is_byte in Hx.
  rewrite Nat2Z.inj_succ, Z.pow_succ_r by lia. lia.
Qed.

Lemma le_val_inj l k : are_bytes l -> are_bytes k -> length l = length k -> le_val l = le_val k -> l = k.
Proof.
  intros Hl. revert k. induction Hl as [|x l Hx _ IH]; intros [|y k] Hk Hlen E; try done.
  apply Forall_cons in Hk as [Hy Hk]. cbn [le_val length] in *. unfold is_byte in *.
  assert (x = y) as -> by (apply (f_equal (fun z => z mod 256)) in E; rewrite !(Z.mul_comm 256), !Z_mod_plus_full, !Z.mod_small in E by lia; lia).
  f_equal. apply IH; [done|lia|lia].
Qed.

Lemma le_val_take l n : are_bytes l -> (n <= length l)%nat -> le_val (take n l) = le_val l mod 256 ^ Z.of_nat n.
Proof.
  intros Hl. revert n. induction Hl as [|x l Hx Hl IH]; intros [|n] Hn; cbn [take le_val length] in *;
    rewrite ?Z.mod_1_r; try (done || lia).
  rewrite IH by lia. rewrite Nat2Z.inj_succ, Z.pow_succ_r by lia. unfold is_byte in Hx.
  rewrite Z.mul_comm, (Z.mul_comm 256 (le_val l)).
  assert (0 < 256 ^ Z.of_nat n) by (apply Z.pow_pos_nonneg; lia).
  rewrite Z.rem_mul_r by lia. rewrite Z_mod_plus_full, (Z.mod_small x) by lia.
  rewrite Z.div_add by lia. rewrite (Z.div_small x) by lia. rewrite Z.add_0_l. lia.
Qed.

(** The lowest byte of a number and the rest of it. *)
Lemma le_val_cons_mod x l n v : is_byte x -> 1 <= n -> le_val (x :: l) = v mod 256 ^ n ->
  x = v mod 256 /\ le_val l = (v / 256) mod 256 ^ (n - 1).
Proof.
  intros Hx Hn E. cbn [le_val] in E. unfold is_byte in Hx. replace n with (Z.succ (n - 1)) in E by lia.
  rewrite Z.pow_succ_r, Z.rem_mul_r in E by lia. pose proof (Z.mod_pos_bound v 256). lia.
Qed.

Lemma increment_spec l l' over : are_bytes l -> increment l = (l', over) ->
  are_bytes l' /\ length l' = length l /\
  (if over then le_val l + 1 = 256 ^ zlen l else le_val l' = le_val l + 1).
Proof.
  intros Hl. revert l' over. induction Hl as [|x l Hx Hl IH]; intros l' over E; cbn [increment] in E; [by simplify_eq|].
  unfold is_byte in Hx. destruct (u8 (x + 1) =? 0) eqn:Ex; zify_bool; cbn [negb] in E.
  - destruct (increment l) as [k c] eqn:Ei. injection E as <- <-. destruct (IH _ _ eq_refl) as (Hk & Hlen & Hv).
    assert (x = 255) as -> by (unfold u8 in Ex; destruct (decide (x = 255)); [done|rewrite Z.mod_small in Ex; lia]).
    rewrite Ex. split; [constructor; [unfold is_byte; lia|done]|]. split; [cbn; lia|]. destruct c; cbn [le_val length].
    + rewrite Nat2Z.inj_succ, Z.pow_succ_r by lia. lia.
    + lia.
  - injection E as <- <-. assert (x < 255) by (destruct (decide (x = 255)) as [->|]; [by vm_compute in Ex|lia]).
    assert (u8 (x + 1) = x + 1) as -> by (unfold u8; apply Z.mod_small; lia).
    split; [constructor; [unfold is_byte; lia|done]|]. split; [done|]. cbn [le_val]. lia.
Qed.

(** A counter in use that does not overflow for the next [n] nonces. *)
Definition counting (n : Z) (s : nonce_state) : Prop :=
  nonce_initialised s = true /\ are_bytes (nonce_buffer s) /\ length (nonce_buffer s) = NONCE_BUFFER /\
  le_val (nonce_buffer s) + n < 256 ^ Z.of_nat NONCE_BUFFER.

Lemma generate_nonce_spec urandom bytes n s : 1 <= bytes <= 128 -> 1 <= n -> counting n s ->
  exists s', generate_nonce urandom bytes s = Some (Some (take (Z.to_nat bytes) (nonce_buffer s')), s') /\
    counting (n - 1) s' /\ le_val (nonce_buffer s') = le_val (nonce_buffer s) + 1.
Proof.
  intros Hb Hn (Hi & Hl & Hlen & Hv). unfold generate_nonce. zdecide. cbn [nonce_start]. rewrite Hi.
  destruct (increment (nonce_buffer s)) as [l over] eqn:E. destruct (increment_spec _ _ _ Hl E) as (Hk & Hklen & Hkv).
  rewrite Hlen in Hkv. destruct over; [lia|]. rewrite zslice_Some by (rewrite ?Hklen, ?Hlen; unfold NONCE_BUFFER; lia).
  cbn [mbind option_bind]. exists (mk_nonce true l (nonce_draws s)). split; [reflexivity|]. cbn [nonce_buffer]. split; [|done].
  split_and!; cbn; [done..|congruence|lia].
Qed.

(** The nonces are the first bytes of the numbers that follow. *)
Lemma generate_nonces_spec urandom bytes n : forall s, 1 <= bytes <= 128 -> counting (Z.of_nat n) s ->
  exists l s', generate_nonces urandom n bytes s = Some (l, s') /\ length l = n /\
    forall i x, l !! i = Some x -> are_bytes x /\ zlen x = bytes /\
      le_val x = (le_val (nonce_buffer s) + 1 + Z.of_nat i) mod 256 ^ bytes.
Proof.
  induction n as [|n IH]; intros s Hb Hc.
  { exists [], s. split_and!; [done..|]. by intros i x Hx. }
  destruct (generate_nonce_spec urandom bytes (Z.of_nat (S n)) s Hb ltac:(lia) Hc) as (s1 & E1 & Hc1 & Hv).
  destruct (IH s1 Hb) as (l & s' & E & Hlen & Hl); [by replace (Z.of_nat n) with (Z.of_nat (S n) - 1) by lia|].
  cbn [generate_nonces]. rewrite E1. cbn [mbind option_bind]. rewrite E. cbn [mbind option_bind].
  eexists _, _. split; [reflexivity|]. split; [cbn; lia|]. intros [|i] x Hx; cbn in Hx.
  - injection Hx as <-. destruct Hc1 as (_ & Hl1 & Hlen1 & _). split; [by apply Forall_take|].
    split; [rewrite length_take, Hlen1; unfold NONCE_BUFFER; lia|].
    rewrite le_val_take, Hv by (rewrite ?Hlen1; unfold NONCE_BUFFER; (done || lia)). f_equal; [lia|]. f_equal. lia.
  - destruct (Hl i x Hx) as (H1 & H2 & H3). split_and!; [done..|]. rewrite H3, Hv. f_equal. lia.
Qed.

(** * Theorems *)

(** Nonces do not repeat: as many nonces as their bytes can number are all different, as long
    as the counter of 128 bytes does not overflow. *)
Theorem nonces_distinct urandom bytes n s :
  1 <= bytes <= 128 -> Z.of_nat n <= 256 ^ bytes -> counting (Z.of_nat n) s ->
  exists l s', generate_nonces urandom n bytes s = Some (l, s') /\ length l = n /\ NoDup l.
Proof.
  intros Hb Hn Hc. destruct (generate_nonces_spec urandom bytes n s Hb Hc) as (l & s' & E & Hlen & Hl).
  exists l, s'. split_and!; [done..|]. apply NoDup_alt. intros i j x Hi Hj.
  destruct (Hl i x Hi) as (_ & _ & Vi). destruct (Hl j x Hj) as (_ & _ & Vj).
  apply lookup_lt_Some in Hi, Hj. rewrite Vi in Vj. assert (0 < 256 ^ bytes) by (apply Z.pow_pos_nonneg; lia).
  revert Vj. set (M := 256 ^ bytes) in *. set (v := le_val _). intros Vj.
  assert (Hd : (Z.of_nat i - Z.of_nat j) mod M = 0).
  { replace (Z.of_nat i - Z.of_nat j) with ((v + 1 + Z.of_nat i) - (v + 1 + Z.of_nat j)) by lia.
    rewrite Zminus_mod, Vj, Z.sub_diag. apply Z.mod_0_l. lia. }
  apply Z.mod_divide in Hd as [q Hq]; [|lia]. assert (q = 0) by nia. lia.
Qed.

(** A counter that starts at zero. *)
Definition demo_nonce : nonce_state := mk_nonce true (replicate 128 0) 1.

Lemma demo_nonce_counting n : 0 <= n < 1000 -> counting n demo_nonce.
Proof.
  intros Hn. split_and!; [done| |done|].
  - apply Forall_replicate. unfold is_byte. lia.
  - assert (le_val (nonce_buffer demo_nonce) = 0) as -> by (vm_compute; reflexivity).
    assert (1000 < 256 ^ Z.of_nat NONCE_BUFFER) by (vm_compute; reflexivity). lia.
Qed.

Lemma nonces_distinct_witness :
  exists l s', generate_nonces (fun _ => None) 300 24 demo_nonce = Some (l, s') /\ length l = 300%nat /\ NoDup l.
Proof.
  apply nonces_distinct; [lia|vm_compute; discriminate|apply demo_nonce_counting; lia].
Defined.

(** [C39] The nonces of datagrams repeat: the bit that is reserved in a nonce is cleared in the byte
    that counts fastest, so that of any 257 nonces in a row two that are sent, 128
    apart, are the same. *)
Theorem sent_nonces_repeat urandom bytes s :
  1 <= bytes <= 128 -> counting 257 s ->
  exists l s' i x y, generate_nonces urandom 257 bytes s = Some (l, s') /\
    l !! i = Some x /\ l !! (i + 128)%nat = Some y /\ reserve_bit x = reserve_bit y.
Proof.
  intros Hb Hc. destruct (generate_nonces_spec urandom bytes 257 s Hb Hc) as (l & s' & E & Hlen & Hl).
  set (v := le_val (nonce_buffer s) + 1) in *.
  (* the first nonce whose lowest byte is below 128 *)
  set (i := if v mod 256 <? 128 then 0%nat else Z.to_nat (256 - v mod 256)).
  assert (Hv : 0 <= v mod 256 < 256) by (apply Z.mod_pos_bound; lia).
  assert (Hi : (i <= 128)%nat) by (unfold i; destruct (v mod 256 <? 128) eqn:E0; zify_bool; lia).
  assert (Hlow : (v + Z.of_nat i) mod 256 < 128).
  { unfold i. destruct (v mod 256 <? 128) eqn:E0; zify_bool; [by rewrite Z.add_0_r|].
    rewrite <-Zplus_mod_idemp_l, Z2Nat.id by lia. replace (v mod 256 + (256 - v mod 256)) with 256 by lia. by vm_compute. }
  destruct (lookup_lt_is_Some_2 l i) as [x Hx]; [lia|]. destruct (lookup_lt_is_Some_2 l (i + 128)%nat) as [y Hy]; [lia|].
  exists l, s', i, x, y. split_and!; [done..|].
  destruct (Hl _ _ Hx) as (Bx & Lx & Vx). destruct (Hl _ _ Hy) as (By & Ly & Vy).
  destruct x as [|x0 x]; [cbn in Lx; lia|]. destruct y as [|y0 y]; [cbn in Ly; lia|].
  apply Forall_cons in Bx as [Bx0 Bx], By as [By0 By]. cbn [length] in Lx, Ly.
  apply le_val_cons_mod in Vx as [Vx0 Vx]; [|done|lia].
  apply le_val_cons_mod in Vy as [Vy0 Vy]; [|done|lia].
  rewrite Nat2Z.inj_add, Z.add_assoc in Vy0, Vy. revert Hlow Vx0 Vx Vy0 Vy. generalize (v + Z.of_nat i). intros n Hlow Vx0 Vx Vy0 Vy.
  assert (Hn : (n + 128) mod 256 = n mod 256 + 128 /\ (n + 128) / 256 = n / 256).
  { pose proof (Z.div_mod n 256) as D. pose proof (Z.mod_pos_bound n 256).
    replace (n + 128) with ((n mod 256 + 128) + (n / 256) * 256) by lia.
    rewrite Z_mod_plus_full, Z.div_add, Z.mod_small, Z.div_small by lia. lia. }
  destruct Hn as [Hn1 Hn2]. change (Z.of_nat 128) with 128 in *. rewrite Hn1 in Vy0. rewrite Hn2 in Vy.
  cbn [reserve_bit]. f_equal.
  - rewrite !land_127, Vy0, Vx0. by rewrite <-Zplus_mod_idemp_r, Z_mod_same_full, Z.add_0_r.
  - apply le_val_inj; [done..|lia|congruence].
Qed.

Lemma sent_nonces_repeat_witness :
  exists l s' i x y, generate_nonces (fun _ => None) 257 24 demo_nonce = Some (l, s') /\
    l !! i = Some x /\ l !! (i + 128)%nat = Some y /\ reserve_bit x = reserve_bit y.
Proof. apply sent_nonces_repeat; [lia|apply demo_nonce_counting; lia]. Defined.
