(* ===== verification/Crypto.v ===== *)
(** Crypto: crypto.c, signatures of messages, over the NaCl library.

    The library is an interface, [NaCl]: its functions and what their documentation
    promises.  A key that is not the one the message was made with is not part of the
    promise. *)

From S2P Require Import Prelude.

Definition SIGNATURE_BYTES : Z := 64.
Definition crypto_hash_sha512_BYTES : Z := 64.
Definition crypto_box_ZEROBYTES : Z := 32.
Definition crypto_box_BOXZEROBYTES : Z := 16.
Definition crypto_box_NONCEBYTES : Z := 24.

Definition zeros (n : Z) : list Z := replicate (Z.to_nat n) 0.

(** crypto_box_curve25519xsalsa20poly1305 after the keys were combined, its inverse,
    crypto_hash_sha512, and crypto_sign_edwards25519sha512batch.  [None] is the result -1;
    plain texts begin with 32 zero bytes and boxes with 16. *)
Class NaCl := {
  box_afternm : list Z -> list Z -> list Z -> option (list Z);
  box_open_afternm : list Z -> list Z -> list Z -> option (list Z);
  sha512 : list Z -> list Z;
  sign : list Z -> list Z -> list Z;
  sign_open : list Z -> list Z -> option (list Z);
  (** a secret key and its public key *)
  key_pair : list Z -> list Z -> Prop;
  box_succeeds m n k : crypto_box_ZEROBYTES <= zlen m -> is_Some (box_afternm m n k);
  box_shape m n k c : box_afternm m n k = Some c ->
    exists d, c = zeros crypto_box_BOXZEROBYTES ++ d /\ zlen c = zlen m /\ are_bytes d;
  box_opens m n k c : box_afternm (zeros crypto_box_ZEROBYTES ++ m) n k = Some c -> are_bytes m ->
    box_open_afternm c n k = Some (zeros crypto_box_ZEROBYTES ++ m);
  box_open_shape c n k m : box_open_afternm c n k = Some m -> crypto_box_ZEROBYTES <= zlen c /\ zlen m = zlen c;
  sha512_length m : zlen (sha512 m) = crypto_hash_sha512_BYTES;
  sha512_bytes m : are_bytes (sha512 m);
  sign_shape m sk : exists s, sign m sk = s ++ m /\ zlen s = SIGNATURE_BYTES /\ are_bytes s;
  sign_opens m sk pk : key_pair sk pk -> are_bytes m -> sign_open (sign m sk) pk = Some m
}.

Section crypto.
Context `{NaCl}.

Definition crypto_verify_signature (sas_key content signature_block : list Z) (signature_len : Z) : option Z :=
  if negb (signature_len =? SIGNATURE_BYTES) then Some (-1)
  else
    s ← zslice signature_block 0 signature_len;
    Some (match sign_open (s ++ content) sas_key with Some _ => 0 | None => -1 end).

(** The message is [len] bytes at the start of [message], the signature included; the result and the length without the
    signature.  A subscriber without a key on record is asked for it ([sas] is None). *)
Definition crypto_verify_message (sas : option (list Z)) (message : list Z) (len : Z) : option (Z * Z) :=
  match sas with
  | None => Some (-1, len)
  | Some sas_public =>
      let len := len - SIGNATURE_BYTES in
      body ← zslice message 0 len;
      s ← zslice message len SIGNATURE_BYTES;
      r ← crypto_verify_signature sas_public (sha512 body) s SIGNATURE_BYTES;
      Some (r, len)
  end.

(** The result, and the signature if there is one. *)
Definition crypto_create_signature (key content : list Z) (sig_length : Z) : Z * list Z :=
  if sig_length <? SIGNATURE_BYTES then (-1, [])
  else
    let sig := sign content key in
    if negb (zlen sig =? zlen content + SIGNATURE_BYTES) then (-1, [])
    else (0, take (Z.to_nat SIGNATURE_BYTES) sig).

(** [key] is what keyring_find_sas_private finds.  The result, the bytes written after the
    content and the new length of it. *)
Definition crypto_sign_message (key : option (list Z)) (content : list Z) (buffer_len content_len : Z)
    : option (Z * list Z * Z) :=
  n ← ci (content_len + SIGNATURE_BYTES);
  if buffer_len <? n then Some (-1, [], content_len)
  else
    match key with
    | None => Some (-1, [], content_len)
    | Some key =>
        body ← zslice content 0 content_len;
        let '(r, s) := crypto_create_signature key (sha512 body) SIGNATURE_BYTES in
        Some (r, s, n)
    end.
End crypto.

(** * Theorems *)

Lemma create_signature_opens `{NaCl} key pk content : key_pair key pk -> are_bytes content ->
  exists s, crypto_create_signature key content SIGNATURE_BYTES = (0, s) /\ zlen s = SIGNATURE_BYTES /\ are_bytes s /\
    crypto_verify_signature pk content s SIGNATURE_BYTES = Some 0.
Proof.
  intros Hk Hb. unfold crypto_create_signature. zdecide.
  destruct (sign_shape content key) as (s & Hs & Hlen & Hbs). rewrite Hs.
  rewrite length_app, (proj2 (Z.eqb_eq _ _)) by lia. cbn [negb].
  rewrite take_app_length' by (unfold SIGNATURE_BYTES in *; lia).
  exists s. split_and!; [done..|]. unfold crypto_verify_signature. zdecide. cbn [negb].
  rewrite <-Hlen, zslice_all. cbn [mbind option_bind].
  by rewrite <-Hs, (sign_opens content key pk).
Qed.

(** A message that was signed is verified with the public key, and comes out without its signature. *)
Lemma sign_verify `{NaCl} key pk content buffer_len : key_pair key pk ->
  zlen content + SIGNATURE_BYTES <= buffer_len <= INT_MAX ->
  exists s, crypto_sign_message (Some key) content buffer_len (zlen content) = Some (0, s, zlen content + SIGNATURE_BYTES) /\
    zlen s = SIGNATURE_BYTES /\ are_bytes s /\
    forall rest, crypto_verify_message (Some pk) (content ++ s ++ rest) (zlen content + SIGNATURE_BYTES) = Some (0, zlen content).
Proof.
  intros Hk Hl. unfold crypto_sign_message, SIGNATURE_BYTES in *. rewrite ci_Some by (unfold INT_MIN, INT_MAX in *; lia). cbn [mbind option_bind].
  zdecide. rewrite zslice_all. cbn [mbind option_bind].
  destruct (create_signature_opens key pk (sha512 content) Hk (sha512_bytes content)) as (s & Hs & Hlen & Hb & Hv).
  unfold SIGNATURE_BYTES in *. rewrite Hs. exists s. split_and!; [done..|]. intros rest. unfold crypto_verify_message, SIGNATURE_BYTES.
  replace (zlen content + 64 - 64) with (zlen content) by lia.
  rewrite zslice_prefix. cbn [mbind option_bind].
  rewrite zslice_Some by (rewrite ?length_app; lia). cbn [mbind option_bind].
  rewrite drop_app_length', take_app_length' by lia. rewrite Hv. done.
Qed.

(** A signed message that is shorter than a signature is undefined: its length without the
    signature is negative, and that many bytes are hashed. *)
Theorem verify_short_undefined `{NaCl} pk message len :
  len < SIGNATURE_BYTES -> crypto_verify_message (Some pk) message len = None.
Proof. intros Hl. unfold crypto_verify_message, zslice. cbn zeta. zdecide. done. Qed.

(** A library whose boxes carry a constant tag and whose signatures are constant. *)
Definition toy_tag : list Z := replicate 16 7.
Definition toy_box (m n k : list Z) : option (list Z) :=
  if zlen m <? 32 then None else Some (zeros 16 ++ toy_tag ++ ((fun x => x mod 256) <$> drop 32 m)).
Definition toy_open (c n k : list Z) : option (list Z) := if zlen c <? 32 then None else Some (zeros 32 ++ drop 32 c).
Definition toy_signature : list Z := replicate 64 9.

Lemma toy_box_shape m n k c : toy_box m n k = Some c ->
  exists d, c = zeros 16 ++ d /\ zlen c = zlen m /\ are_bytes d.
Proof.
  unfold toy_box. destruct (zlen m <? 32) eqn:E; [done|]. intros <-%(inj Some). zify_bool. eexists. split; [reflexivity|]. split.
  - rewrite !length_app, length_fmap, length_drop. change (length (zeros 16)) with 16%nat. change (length toy_tag) with 16%nat. lia.
  - apply Forall_app. split; [apply Forall_replicate; unfold is_byte; lia|]. apply Forall_fmap, Forall_forall. intros x _.
    unfold compose, is_byte. apply Z.mod_pos_bound. lia.
Qed.

Lemma toy_box_opens m n k c : toy_box (zeros 32 ++ m) n k = Some c -> are_bytes m -> toy_open c n k = Some (zeros 32 ++ m).
Proof.
  unfold toy_box, toy_open. destruct (zlen _ <? 32) eqn:E; [done|]. intros <-%(inj Some) Hm. rewrite drop_app_length' by done.
  rewrite (proj2 (Z.ltb_ge _ _)) by (rewrite !length_app; change (length (zeros 16)) with 16%nat; change (length toy_tag) with 16%nat; lia).
  do 2 f_equal. rewrite app_assoc, drop_app_length' by done.
  rewrite <-(list_fmap_id m) at 2. apply list_fmap_ext. intros i x Hx. pose proof (Forall_lookup_1 _ _ _ _ Hm Hx) as Hb.
  by apply Z.mod_small.
Qed.

#[export] Instance toy_nacl : NaCl.
Proof.
  refine {| box_afternm := toy_box; box_open_afternm := toy_open; sha512 m := replicate 64 1;
            sign m _ := toy_signature ++ m; sign_open sm _ := Some (drop 64 sm); key_pair _ _ := True |}.
  - intros m n k Hm. unfold toy_box. unfold crypto_box_ZEROBYTES in Hm. zdecide. eauto.
  - exact toy_box_shape.
  - exact toy_box_opens.
  - intros c n k m. unfold toy_open. destruct (zlen c <? 32) eqn:E; [done|]. intros <-%(inj Some). zify_bool.
    rewrite length_app, length_drop. change (length (zeros 32)) with 32%nat. unfold crypto_box_ZEROBYTES. lia.
  - done.
  - intros m. apply Forall_replicate. unfold is_byte. lia.
  - intros m sk. exists toy_signature. split_and!; [done..|]. apply Forall_replicate. unfold is_byte. lia.
  - intros m sk pk _ Hm. by rewrite drop_app_length'.
Defined.

Lemma verify_short_undefined_witness : crypto_verify_message (Some (replicate 32 0)) (replicate 1100 0) 10 = None.
Proof. apply verify_short_undefined. reflexivity. Defined.
