(* ===== verification/MdpBindings.v ===== *)
(** MdpBindings: overlay_mdp.c, the table of the ports that clients are bound to.

    A client is the name of its local socket.  The kernel reports a name as a [sockaddr_un]:
    two bytes of family and then the path, with a length that counts both. *)

From S2P Require Import Prelude.

Definition MDP_MAX_BINDINGS : nat := 100.
Definition MDP_MAX_SOCKET_NAME_LEN : Z := 110.
Definition MDP_FORCE : Z := 0x0100.

(** [struct mdp_binding]; a subscriber is an index of the directory, None is "any". *)
Record mdp_binding := mk_binding {
  b_subscriber : option nat;
  b_port : Z;
  socket_name : list Z;
  name_len : Z;
  binding_time : Z
}.

Definition set_b_port (b : mdp_binding) (p : Z) : mdp_binding :=
  mk_binding (b_subscriber b) p (socket_name b) (name_len b) (binding_time b).

(** The name a frame came from: the bytes from [sun_path] on, and the length reported. *)
Record client := mk_client { sun_path : list Z; addrlen : Z }.

(** The globals [mdp_bindings] and [mdp_bindings_initialised]. *)
Record mdp_table := mk_mtable { mdp_bindings : list mdp_binding; mdp_bindings_initialised : bool }.

Definition no_binding : mdp_binding :=
  mk_binding None 0 (replicate (Z.to_nat MDP_MAX_SOCKET_NAME_LEN) 0) 0 0.
Definition zero_table : mdp_table := mk_mtable (replicate MDP_MAX_BINDINGS no_binding) false.

(** [!memcmp(a, b, n)] *)
Definition same_bytes (a b : list Z) (n : Z) : option bool :=
  x ← zslice a 0 n; y ← zslice b 0 n; Some (bool_decide (x = y)).

(** ** Operations *)

Definition release_binding (c : client) (b : mdp_binding) : option mdp_binding :=
  if name_len b =? addrlen c then
    same ← same_bytes (socket_name b) (sun_path c) (addrlen c);
    Some (if same : bool then set_b_port b 0 else b)
  else Some b.

Definition overlay_mdp_releasebindings (c : client) (t : mdp_table) : option mdp_table :=
  l ← mapM (release_binding c) (mdp_bindings t);
  Some (mk_mtable l (mdp_bindings_initialised t)).

(** How the loop of a bind request ends. *)
Inductive bind_search := Identical | InUse | Slot (free : option nat).

Fixpoint search_binding (s : option nat) (port flags : Z) (c : client) (l : list mdp_binding) (i : nat) (free : option nat)
    : option bind_search :=
  match l with
  | [] => Some (Slot free)
  | b :: l =>
      if (b_port b =? port) && bool_decide (b_subscriber b = s) then
        same ← (if name_len b =? addrlen c then same_bytes (socket_name b) (sun_path c) (addrlen c) else Some false);
        if same : bool then Some Identical
        else if negb (Z.land flags MDP_FORCE =? 0) then Some (Slot (Some i))
        else Some InUse
      else search_binding s port flags c l (S i)
             (match free with None => if b_port b =? 0 then Some i else None | Some _ => free end)
  end.

(** Writes a binding: the name is copied without the two bytes of family. *)
Definition record_binding (i : nat) (s : option nat) (port : Z) (c : client) (t_now : Z) (t : mdp_table) : option mdp_table :=
  b ← mdp_bindings t !! i;
  let n := addrlen c - 2 in
  name ← zslice (sun_path c) 0 n;
  name ← zblit (socket_name b) 0 name;
  Some (mk_mtable (<[i := mk_binding s port name n t_now]> (mdp_bindings t)) (mdp_bindings_initialised t)).

(** The first bind request clears the table. *)
Definition initialise_bindings (t : mdp_table) : mdp_table :=
  if mdp_bindings_initialised t then t
  else mk_mtable ((fun b => set_b_port b 0) <$> mdp_bindings t) true.

(** [random] is what random() returns if it is called, [t_now] the time. *)
Definition overlay_mdp_process_bind_request (random t_now : Z) (s : option nat) (port flags : Z) (c : client) (t : mdp_table)
    : option (Z * mdp_table) :=
  if port <=? 0 then Some (-1, t)
  else
    let t := initialise_bindings t in
    r ← search_binding s port flags c (mdp_bindings t) 0 None;
    match r with
    | Identical => Some (0, t)
    | InUse => Some (-1, t)
    | Slot free =>
        let i := match free with Some i => i | None => Z.to_nat (Z.rem random (Z.of_nat MDP_MAX_BINDINGS)) end in
        t ← record_binding i s port c t_now t;
        Some (0, t)
    end.

(** May this client send from this address?  [port] is an [int]. *)
Fixpoint bound_to (s : option nat) (port : Z) (c : client) (l : list mdp_binding) : option bool :=
  match l with
  | [] => Some false
  | b :: l =>
      if negb (b_port b =? port) then bound_to s port c l
      else if bool_decide (b_subscriber b = None) || bool_decide (b_subscriber b = s) then
        same ← (if name_len b =? addrlen c - 2 then same_bytes (socket_name b) (sun_path c) (addrlen c - 2) else Some false);
        if same : bool then Some true else bound_to s port c l
      else bound_to s port c l
  end.

(** A frame of our own ([c] is None) may come from any address. *)
Definition overlay_mdp_check_binding (s : option nat) (port : Z) (c : option client) (t : mdp_table) : option Z :=
  match c with
  | None => Some 0
  | Some c => ok ← bound_to s port c (mdp_bindings t); Some (if ok : bool then 0 else -1)
  end.

(** The binding that a frame for [port], an unsigned number, is delivered to: the first that
    fits exactly, otherwise the last for any address. *)
Fixpoint find_match (dst : option nat) (port : Z) (l : list mdp_binding) (i : nat) (m : option nat) : option nat :=
  match l with
  | [] => m
  | b :: l =>
      if negb (u32 (b_port b) =? port) then find_match dst port l (S i) m
      else if bool_decide (dst = None) || bool_decide (b_subscriber b = dst) then Some i
      else find_match dst port l (S i) (if bool_decide (b_subscriber b = None) then Some i else m)
  end.

(** * The table is a map from addresses to names *)

(** The name a binding was made for. *)
Definition owner (b : mdp_binding) : list Z := take (Z.to_nat (name_len b)) (socket_name b).
Definition client_name (c : client) : list Z := take (Z.to_nat (addrlen c - 2)) (sun_path c).

Definition binding_ok (b : mdp_binding) : Prop :=
  0 <= b_port b <= INT_MAX /\ 0 <= name_len b <= 108 /\ zlen (socket_name b) = MDP_MAX_SOCKET_NAME_LEN.

(** The bindings in use, by address. *)
Definition entries (l : list mdp_binding) : list (Z * option nat * list Z) :=
  b ← l; if b_port b =? 0 then [] else [(b_port b, b_subscriber b, owner b)].

Abbreviation bindings_map := (gmap (Z * option nat) (list Z)).

Record table_repr (t : mdp_table) (m : bindings_map) : Prop := {
  tr_length : length (mdp_bindings t) = MDP_MAX_BINDINGS;
  tr_ok : Forall binding_ok (mdp_bindings t);
  tr_init : mdp_bindings_initialised t = false -> Forall (fun b => b_port b = 0) (mdp_bindings t);
  tr_nodup : NoDup (entries (mdp_bindings t)).*1;
  tr_map : m = list_to_map (entries (mdp_bindings t))
}.

(** A name the kernel can report, in the buffer it is received in. *)
Definition client_ok (c : client) : Prop := 2 <= addrlen c <= 110 /\ 1022 <= zlen (sun_path c).

(** A socket may also have no name, for which the kernel reports no bytes at all. *)
Definition peer_ok (c : client) : Prop := 0 <= addrlen c <= 110 /\ 1022 <= zlen (sun_path c).

Lemma client_peer c : client_ok c -> peer_ok c.
Proof. unfold client_ok, peer_ok. lia. Qed.

Lemma entries_cons b l : entries (b :: l) = entries [b] ++ entries l.
Proof. unfold entries. cbn. by rewrite app_nil_r. Qed.

Lemma entries_one b : entries [b] = if b_port b =? 0 then [] else [(b_port b, b_subscriber b, owner b)].
Proof. unfold entries. cbn. by rewrite app_nil_r. Qed.

Lemma entries_app l1 l2 : entries (l1 ++ l2) = entries l1 ++ entries l2.
Proof. apply bind_app. Qed.

Lemma elem_of_entries l k x :
  (k, x) ∈ entries l <-> exists i b, l !! i = Some b /\ b_port b <> 0 /\ k = (b_port b, b_subscriber b) /\ x = owner b.
Proof.
  unfold entries. rewrite list_elem_of_bind. split.
  - intros (b & Hb & [i Hi]%list_elem_of_lookup_1). destruct (b_port b =? 0) eqn:E; [set_solver|].
    zify_bool. apply list_elem_of_singleton in Hb. simplify_eq. eauto 8.
  - intros (i & b & Hi & Hp & -> & ->). exists b. split; [|by eapply list_elem_of_lookup_2].
    destruct (b_port b =? 0) eqn:E; zify_bool; [done|]. set_solver.
Qed.

Lemma repr_lookup t m k x : table_repr t m ->
  m !! k = Some x <->
  exists i b, mdp_bindings t !! i = Some b /\ b_port b <> 0 /\ k = (b_port b, b_subscriber b) /\ x = owner b.
Proof.
  intros R. rewrite (tr_map _ _ R), <-elem_of_list_to_map by apply R. apply elem_of_entries.
Qed.

(** The one binding of an address. *)
Lemma repr_unique t m i j b b' : table_repr t m ->
  mdp_bindings t !! i = Some b -> mdp_bindings t !! j = Some b' -> b_port b <> 0 ->
  b_port b' = b_port b -> b_subscriber b' = b_subscriber b -> i = j.
Proof.
  intros R. pose proof (tr_nodup _ _ R) as Hnd. revert i j Hnd.
  induction (mdp_bindings t) as [|a l IH]; intros i j Hnd Hi Hj H0 Hp Hs; [done|].
  rewrite entries_cons, fmap_app in Hnd. apply NoDup_app in Hnd as (_ & Hd & Hnd).
  assert (Hin : forall k c, l !! k = Some c -> b_port c <> 0 -> (b_port c, b_subscriber c) ∈ (entries l).*1).
  { intros k c Hk Hc. apply list_elem_of_fmap. exists (b_port c, b_subscriber c, owner c). split; [done|].
    apply elem_of_entries. eauto 8. }
  assert (Ha : b_port a <> 0 -> (b_port a, b_subscriber a) ∈ (entries [a]).*1).
  { intros Hc. unfold entries. cbn. destruct (b_port a =? 0) eqn:E; zify_bool; [done|]. set_solver. }
  destruct i as [|i], j as [|j]; cbn in *; simplify_eq; [done|..].
  - exfalso. apply (Hd (b_port b, b_subscriber b)); [by apply Ha|]. rewrite <-Hp, <-Hs. eapply Hin; [exact Hj|congruence].
  - exfalso. apply (Hd (b_port b', b_subscriber b')); [apply Ha; congruence|]. rewrite Hp, Hs. by eapply Hin.
  - f_equal. by eapply IH.
Qed.

(** One slot and the rest of the table. *)
Lemma repr_split t m i b : table_repr t m -> mdp_bindings t !! i = Some b ->
  exists R : list (Z * option nat * list Z),
    (forall b', entries (<[i := b']> (mdp_bindings t)) ≡ₚ entries [b'] ++ R) /\ NoDup R.*1 /\
    (list_to_map R : bindings_map) = (if b_port b =? 0 then m else delete (b_port b, b_subscriber b) m).
Proof.
  intros Rp Hi. pose proof (lookup_lt_Some _ _ _ Hi) as Hlt.
  exists (entries (take i (mdp_bindings t)) ++ entries (drop (S i) (mdp_bindings t))).
  assert (E : forall b', entries (<[i := b']> (mdp_bindings t)) ≡ₚ
    entries [b'] ++ entries (take i (mdp_bindings t)) ++ entries (drop (S i) (mdp_bindings t))).
  { intros b'. rewrite insert_take_drop, entries_app, (entries_cons b') by done. apply Permutation_app_swap_app. }
  pose proof (E b) as Eb. rewrite list_insert_id in Eb by done.
  pose proof (tr_nodup _ _ Rp) as Hnd. rewrite Eb, fmap_app in Hnd. apply NoDup_app in Hnd as (_ & Hd & Hnd).
  split_and!; [done..|]. rewrite (tr_map _ _ Rp), (list_to_map_proper _ _ (tr_nodup _ _ Rp) Eb).
  revert Hd. generalize (entries (take i (mdp_bindings t)) ++ entries (drop (S i) (mdp_bindings t))). intros R Hd.
  unfold entries in Hd |- *. cbn in Hd |- *. destruct (b_port b =? 0); [done|]. cbn in Hd |- *.
  rewrite delete_insert_id; [done|]. apply not_elem_of_list_to_map. apply Hd. set_solver.
Qed.

Lemma repr_size t m : table_repr t m -> size m = length (filter (fun b => b_port b <> 0) (mdp_bindings t)).
Proof.
  intros R. rewrite (tr_map _ _ R). rewrite <-(size_dom (D := gset (Z * option nat))), dom_list_to_map_L.
  rewrite size_list_to_set by apply R. rewrite length_fmap.
  induction (mdp_bindings t) as [|b l IH]; [done|]. rewrite entries_cons, length_app, IH, filter_cons. unfold entries. cbn.
  destruct (b_port b =? 0) eqn:E; zify_bool; case_decide; done.
Qed.

(** ** Comparing names *)

Lemma same_bytes_take a b n : 0 <= n <= zlen a -> n <= zlen b ->
  same_bytes a b n = Some (bool_decide (take (Z.to_nat n) a = take (Z.to_nat n) b)).
Proof. intros Ha Hb. unfold same_bytes. rewrite !zslice_Some by lia. done. Qed.

(** A name as the kernel reports it is compared with the name of a binding. *)
Lemma owner_is b c n : binding_ok b -> 0 <= n <= 110 -> n <= zlen (sun_path c) ->
  (if name_len b =? n then same_bytes (socket_name b) (sun_path c) n else Some false)
  = Some (bool_decide (owner b = take (Z.to_nat n) (sun_path c))).
Proof.
  intros (_ & Hn & Hl) Hb Hc. unfold MDP_MAX_SOCKET_NAME_LEN in *. destruct (name_len b =? n) eqn:E; zify_bool.
  - rewrite same_bytes_take by lia. unfold owner. by rewrite E.
  - f_equal. symmetry. apply bool_decide_eq_false. intros Ho. apply E.
    apply (f_equal length) in Ho. unfold owner in Ho. rewrite !length_take in Ho. lia.
Qed.

(** ** Bind requests *)

Definition binds (s : option nat) (port : Z) (b : mdp_binding) : bool := (b_port b =? port) && bool_decide (b_subscriber b = s).

(** The name that makes a request identical to a binding: that of the client and two
    bytes more. *)
Definition longer_name (c : client) : list Z := take (Z.to_nat (addrlen c)) (sun_path c).

Lemma search_found s port flags c l : forall i free k b,
  peer_ok c -> l !! k = Some b -> binding_ok b -> binds s port b = true ->
  (forall j b', (j < k)%nat -> l !! j = Some b' -> binds s port b' = false) ->
  search_binding s port flags c l i free =
    Some (if bool_decide (owner b = longer_name c) then Identical
          else if negb (Z.land flags MDP_FORCE =? 0) then Slot (Some (i + k)%nat) else InUse).
Proof.
  induction l as [|a l IH]; intros i free k b Hc Hk Hb Hm Hj; [done|]. cbn [search_binding]. fold (binds s port a).
  destruct k as [|k].
  - cbn in Hk. injection Hk as ->. rewrite Hm, owner_is by (done || (destruct Hc; lia)). cbn.
    fold (longer_name c). rewrite Nat.add_0_r. case_bool_decide; [done|]. by destruct (negb _).
  - rewrite (Hj 0%nat a) by (lia || done). rewrite (IH _ _ k b); try done.
    + by rewrite Nat.add_succ_comm.
    + intros j b' Hlt Hb'. apply (Hj (S j)); [lia|done].
Qed.

Lemma search_none s port flags c l : forall i free,
  Forall (fun b => binds s port b = false) l ->
  search_binding s port flags c l i free =
    Some (Slot (match free with Some x => Some x | None => (fun '(k, _) => i + k)%nat <$> list_find (fun b => b_port b = 0) l end)).
Proof.
  induction l as [|a l IH]; intros i free Hl; [by destruct free|]. apply Forall_cons in Hl as [Ha Hl].
  cbn [search_binding list_find]. fold (binds s port a). rewrite Ha, IH by done. do 2 f_equal. destruct free; [done|].
  case_decide as E.
  - rewrite E. cbn. f_equal. lia.
  - destruct (b_port a =? 0) eqn:E'; zify_bool; [done|]. destruct (list_find _ l) as [[k b]|]; cbn; [f_equal; lia|done].
Qed.

Lemma filter_used l : Forall (fun b => b_port b <> 0) l -> filter (fun b => b_port b <> 0) l = l.
Proof. induction 1 as [|b l Hb _ IH]; [done|]. by rewrite filter_cons_True, IH. Qed.

Lemma filter_free l i b : l !! i = Some b -> b_port b = 0 -> (length (filter (fun b => b_port b <> 0%Z) l) < length l)%nat.
Proof.
  intros Hi Hb. rewrite <-(take_drop_middle _ _ _ Hi), filter_app, filter_cons_False by tauto. rewrite !length_app. cbn [length].
  pose proof (length_filter (fun b => b_port b <> 0) (take i l)). pose proof (length_filter (fun b => b_port b <> 0) (drop (S i) l)). lia.
Qed.

Lemma initialise_repr t m : table_repr t m -> table_repr (initialise_bindings t) m /\ mdp_bindings (initialise_bindings t) = mdp_bindings t.
Proof.
  intros R. unfold initialise_bindings. destruct (mdp_bindings_initialised t) eqn:E; [done|].
  assert (Hl : (fun b => set_b_port b 0) <$> mdp_bindings t = mdp_bindings t).
  { rewrite <-(list_fmap_id (mdp_bindings t)) at 2. apply list_fmap_ext. intros i b Hi.
    pose proof (Forall_lookup_1 _ _ _ _ (tr_init _ _ R E) Hi) as H0. destruct b. cbn in H0. by rewrite H0. }
  rewrite Hl. split; [|done]. destruct R. by split.
Qed.

(** A slot is written. *)
Lemma record_refines t m i b s port c t_now :
  table_repr t m -> mdp_bindings_initialised t = true -> client_ok c -> 0 < port <= INT_MAX -> mdp_bindings t !! i = Some b ->
  (b_port b, b_subscriber b) = (port, s) \/ m !! (port, s) = None ->
  exists t', record_binding i s port c t_now t = Some t' /\ mdp_bindings_initialised t' = true /\
    table_repr t' (<[(port, s) := client_name c]> (if b_port b =? 0 then m else delete (b_port b, b_subscriber b) m)).
Proof.
  intros R Hin (Ha & Hs) Hp Hi Hk. destruct (Forall_lookup_1 _ _ _ _ (tr_ok _ _ R) Hi) as (Hb1 & Hb2 & Hb3).
  unfold MDP_MAX_SOCKET_NAME_LEN in *. unfold record_binding. rewrite Hi. cbn [mbind option_bind].
  rewrite zslice_Some by lia. cbn [mbind option_bind].
  rewrite zblit_Some by (rewrite ?length_take, ?length_drop; lia). cbn [mbind option_bind].
  set (b' := mk_binding _ _ _ _ _). eexists. split; [done|]. split; [done|].
  destruct (repr_split _ _ _ _ R Hi) as (E & HE & Hnd & Hm).
  assert (Ho : owner b' = client_name c).
  { unfold owner, client_name, b'. cbn [socket_name name_len]. rewrite drop_0.
    change (take (Z.to_nat 0) (socket_name b)) with (@nil Z). cbn [app].
    rewrite take_app_le, take_take by (rewrite length_take; lia). f_equal. lia. }
  assert (He : entries [b'] = [(port, s, client_name c)]).
  { unfold entries. cbn. rewrite Ho. destruct (port =? 0) eqn:Ep; zify_bool; [lia|done]. }
  assert (Hfresh : (port, s) ∉ E.*1).
  { apply not_elem_of_list_to_map. rewrite Hm. destruct (b_port b =? 0) eqn:E0; zify_bool.
    - destruct Hk as [[= Hk _]|Hk]; [lia|done].
    - destruct Hk as [Hk|Hk]; [rewrite Hk; apply lookup_delete_eq|by apply lookup_delete_None; right]. }
  pose proof (HE b') as HE'. rewrite He in HE'.
  assert (Hnd' : NoDup (entries (<[i:=b']> (mdp_bindings t))).*1) by (rewrite HE'; cbn; by constructor).
  split; cbn [mdp_bindings].
  - rewrite length_insert. apply R.
  - apply Forall_insert; [apply R|]. split_and!; cbn; [lia..|]. unfold MDP_MAX_SOCKET_NAME_LEN.
    rewrite !length_app, !length_take, !length_drop. lia.
  - by rewrite Hin.
  - done.
  - rewrite <-Hm. symmetry. exact (list_to_map_proper _ _ Hnd' HE').
Qed.

(** What a bind request does to the map of bindings: a name that is bound keeps its address
    unless the request forces its way; when the table is full, some binding is dropped.  The
    request counts as identical to a binding whose name is that of the client and the two bytes
    after it in the buffer, so never to one of the client itself. *)
Inductive bind_result (s : option nat) (port flags : Z) (c : client) (m : bindings_map) : Z -> bindings_map -> Prop :=
| bind_bad_port : port <= 0 -> bind_result s port flags c m (-1) m
| bind_identical : 0 < port -> m !! (port, s) = Some (longer_name c) -> bind_result s port flags c m 0 m
| bind_in_use x : 0 < port -> m !! (port, s) = Some x -> x <> longer_name c -> Z.land flags MDP_FORCE = 0 ->
    bind_result s port flags c m (-1) m
| bind_stolen x : 0 < port -> m !! (port, s) = Some x -> x <> longer_name c -> Z.land flags MDP_FORCE <> 0 ->
    bind_result s port flags c m 0 (<[(port, s) := client_name c]> m)
| bind_new : 0 < port -> m !! (port, s) = None -> (size m < MDP_MAX_BINDINGS)%nat ->
    bind_result s port flags c m 0 (<[(port, s) := client_name c]> m)
| bind_evicts k : 0 < port -> m !! (port, s) = None -> size m = MDP_MAX_BINDINGS -> is_Some (m !! k) ->
    bind_result s port flags c m 0 (<[(port, s) := client_name c]> (delete k m)).

Lemma bind_found t m s port flags c i b :
  table_repr t m -> mdp_bindings_initialised t = true -> peer_ok c -> 0 < port ->
  mdp_bindings t !! i = Some b -> b_port b = port -> b_subscriber b = s ->
  search_binding s port flags c (mdp_bindings t) 0 None =
    Some (if bool_decide (owner b = longer_name c) then Identical
          else if negb (Z.land flags MDP_FORCE =? 0) then Slot (Some i) else InUse) /\
  m !! (port, s) = Some (owner b).
Proof.
  intros R Hin Hc Hp Hi Hbp Hbs. split.
  - rewrite (search_found _ _ _ _ _ 0 None i b); try done.
    + by eapply Forall_lookup_1; [apply R|].
    + unfold binds. rewrite Hbp, Hbs, bool_decide_true, Z.eqb_refl by done. done.
    + intros j b' Hj Hb'. unfold binds. apply andb_false_iff. destruct (b_port b' =? port) eqn:E; [right|by left].
      zify_bool. apply bool_decide_eq_false. intros Hs. assert (i = j) as <-; [|lia].
      eapply (repr_unique t m i j b b'); [done..| | |]; (lia || congruence).
  - apply (repr_lookup t m); [done|]. exists i, b. split_and!; [done|lia|congruence|done].
Qed.

Lemma bind_absent t m s port flags c :
  table_repr t m -> 0 < port -> m !! (port, s) = None ->
  search_binding s port flags c (mdp_bindings t) 0 None =
    Some (Slot ((fun '(k, _) => k) <$> list_find (fun b => b_port b = 0) (mdp_bindings t))).
Proof.
  intros R Hp Hm. rewrite search_none; [done|]. apply Forall_lookup_2. intros i b Hi. unfold binds.
  apply andb_false_iff. destruct (b_port b =? port) eqn:E; [right|by left]. zify_bool. apply bool_decide_eq_false. intros Hs.
  assert (m !! (port, s) = Some (owner b)); [|congruence]. apply (repr_lookup t m); [done|].
  exists i, b. split_and!; [done|lia|congruence|done].
Qed.

Lemma bind_spec t m random t_now s port flags c :
  table_repr t m -> client_ok c -> 0 <= random -> port <= INT_MAX ->
  exists r t' m', overlay_mdp_process_bind_request random t_now s port flags c t = Some (r, t') /\
    table_repr t' m' /\ bind_result s port flags c m r m'.
Proof.
  intros R Hc Hr Hp. unfold overlay_mdp_process_bind_request. destruct (port <=? 0) eqn:Ep; zify_bool.
  { exists (-1), t, m. split_and!; [done..|]. by constructor. }
  assert (Hin : mdp_bindings_initialised (initialise_bindings t) = true).
  { unfold initialise_bindings. destruct (mdp_bindings_initialised t) eqn:E; done. }
  apply initialise_repr in R as [R _]. revert R Hin. generalize (initialise_bindings t). clear t. intros t R Hin.
  destruct (m !! (port, s)) as [x|] eqn:Hm.
  - apply (repr_lookup t m) in Hm as (i & b & Hi & Hb & [= -> ->] & ->); [|done].
    destruct (bind_found t m (b_subscriber b) (b_port b) flags c i b) as [-> Hm]; try done; [by apply client_peer|].
    cbn [mbind option_bind]. case_bool_decide as Ho.
    { exists 0, t, m. split_and!; [done..|]. constructor; [lia|congruence]. }
    destruct (Z.land flags MDP_FORCE =? 0) eqn:Ef; zify_bool; cbn [negb].
    { exists (-1), t, m. split_and!; [done..|]. by econstructor. }
    destruct (record_refines t m i b (b_subscriber b) (b_port b) c t_now) as (t' & -> & _ & R'); try done; [by left|].
    cbn [mbind option_bind]. exists 0, t', (<[(b_port b, b_subscriber b) := client_name c]> m). split_and!; [done| |by econstructor].
    revert R'. destruct (b_port b =? 0) eqn:E; zify_bool; [done|]. by rewrite insert_delete_eq.
  - rewrite (bind_absent t m) by done. cbn [mbind option_bind].
    destruct (list_find _ (mdp_bindings t)) as [[i b]|] eqn:Hf; cbn [fmap option_fmap option_map].
    + apply list_find_Some in Hf as (Hi & Hb & _).
      destruct (record_refines t m i b s port c t_now) as (t' & -> & _ & R'); try done; [by right|].
      cbn [mbind option_bind]. exists 0, t', (<[(port, s) := client_name c]> m). split_and!; [done| |].
      * by rewrite Hb in R'.
      * constructor; [done..|]. rewrite (repr_size t m R), <-(tr_length _ _ R). by eapply filter_free.
    + apply list_find_None in Hf. set (i := Z.to_nat _).
      assert (Hlt : (i < length (mdp_bindings t))%nat).
      { rewrite (tr_length _ _ R). unfold i, MDP_MAX_BINDINGS. pose proof (Z.rem_bound_pos random 100). lia. }
      destruct (lookup_lt_is_Some_2 _ _ Hlt) as [b Hi]. pose proof (Forall_lookup_1 _ _ _ _ Hf Hi) as Hb.
      destruct (record_refines t m i b s port c t_now) as (t' & -> & _ & R'); try done; [by right|].
      cbn [mbind option_bind]. exists 0, t', (<[(port, s) := client_name c]> (delete (b_port b, b_subscriber b) m)).
      split_and!; [done| |].
      * destruct (b_port b =? 0) eqn:E; zify_bool; [done|]. done.
      * constructor; [done..| |].
        -- by rewrite (repr_size t m R), filter_used, (tr_length _ _ R).
        -- exists (owner b). apply (repr_lookup t m); [done|]. by exists i, b.
Qed.

(** ** Release *)

Lemma release_spec t m c : table_repr t m -> 0 <= addrlen c <= 110 -> addrlen c <= zlen (sun_path c) ->
  exists t', overlay_mdp_releasebindings c t = Some t' /\ table_repr t' (filter (fun '(_, x) => x <> longer_name c) m).
Proof.
  intros R Ha Hs. unfold overlay_mdp_releasebindings.
  set (f := fun b => if bool_decide (owner b = longer_name c) then set_b_port b 0 else b).
  assert (E : mapM (release_binding c) (mdp_bindings t) = Some (f <$> mdp_bindings t)).
  { pose proof (tr_ok _ _ R) as Hok. induction Hok as [|b l Hb _ IH]; [done|]. cbn [mapM].
    assert (release_binding c b = Some (f b)) as ->.
    { unfold release_binding, f. pose proof (owner_is b c (addrlen c) Hb Ha Hs) as Ho. fold (longer_name c) in Ho.
      destruct (name_len b =? addrlen c); [rewrite Ho; cbn; by case_bool_decide|].
      injection Ho as Ho. by rewrite <-Ho. }
    cbn [mbind option_bind]. by rewrite IH. }
  rewrite E. cbn [mbind option_bind]. eexists. split; [reflexivity|].
  assert (He : entries (f <$> mdp_bindings t) = filter (fun '(_, x) => x <> longer_name c) (entries (mdp_bindings t))).
  { clear E. induction (mdp_bindings t) as [|b l IH]; [done|]. cbn [fmap list_fmap].
    rewrite entries_cons, (entries_cons b), filter_app, IH. f_equal.
    unfold f. rewrite !entries_one. case_bool_decide as Ho; cbn [b_port set_b_port]; destruct (b_port b =? 0); try done;
      [by rewrite filter_cons_False by (intros HF; apply HF, Ho)|by rewrite filter_cons_True]. }
  assert (Hnd : NoDup (filter (fun '(_, x) => x <> longer_name c) (entries (mdp_bindings t))).*1).
  { eapply sublist_NoDup; [apply (tr_nodup _ _ R)|]. apply fmap_sublist, sublist_filter. }
  split; cbn [mdp_bindings mdp_bindings_initialised].
  - rewrite length_fmap. apply R.
  - apply Forall_fmap. eapply Forall_impl; [apply R|]. intros b (H1 & H2 & H3). unfold compose, f.
    case_bool_decide; [|done]. split_and!; cbn; unfold INT_MAX in *; lia.
  - intros Hi. apply Forall_fmap. eapply Forall_impl; [exact (tr_init _ _ R Hi)|]. intros b Hb. unfold compose, f. by case_bool_decide.
  - rewrite He. exact Hnd.
  - rewrite He, (tr_map _ _ R), map_filter_alt. symmetry. apply list_to_map_proper; [exact Hnd|].
    apply filter_Permutation. symmetry. apply map_to_list_to_map, R.
Qed.

(** ** Who may send, and who receives *)

Lemma bound_to_spec s port c l : client_ok c -> Forall binding_ok l ->
  exists ok, bound_to s port c l = Some ok /\
    (ok = true <-> exists i b, l !! i = Some b /\ b_port b = port /\ (b_subscriber b = None \/ b_subscriber b = s) /\
                               owner b = client_name c).
Proof.
  intros Hc. induction 1 as [|b l Hb _ (ok & Hok & Hl)].
  { exists false. split; [done|]. split; [done|]. by intros (i & b & ? & _). }
  assert (Hcons : forall x : bool, (x = true <-> b_port b = port /\ (b_subscriber b = None \/ b_subscriber b = s) /\ owner b = client_name c) ->
    (x || ok = true <-> exists i b', (b :: l) !! i = Some b' /\ b_port b' = port /\
       (b_subscriber b' = None \/ b_subscriber b' = s) /\ owner b' = client_name c)).
  { intros x Hx. rewrite orb_true_iff, Hx, Hl. split.
    - intros [Hh|(i & b' & Hi & Hr)]; [by exists 0%nat, b|by exists (S i), b'].
    - intros ([|i] & b' & Hi & Hr); cbn in Hi; [left; by injection Hi as <-|right; eauto]. }
  cbn [bound_to]. destruct (b_port b =? port) eqn:Ep; zify_bool; cbn [negb].
  - destruct (bool_decide _ || bool_decide _) eqn:Es.
    + rewrite owner_is by (done || (destruct Hc; lia)). fold (client_name c). cbn [mbind option_bind].
      exists (bool_decide (owner b = client_name c) || ok). split; [destruct (bool_decide (owner b = client_name c)); [reflexivity|exact Hok]|]. apply Hcons.
      rewrite bool_decide_eq_true. apply orb_true_iff in Es. rewrite !bool_decide_eq_true in Es. tauto.
    + exists (false || ok). split; [exact Hok|]. apply Hcons. split; [done|]. intros (_ & Hs & _).
      apply orb_false_iff in Es as [E1%bool_decide_eq_false E2%bool_decide_eq_false]. tauto.
  - exists (false || ok). split; [exact Hok|]. apply Hcons. split; [done|]. by intros [? _].
Qed.

(** A socket without a name is bound to nothing. *)
Lemma bound_unnamed s port c l : addrlen c < 2 -> Forall binding_ok l -> bound_to s port c l = Some false.
Proof.
  intros Hc. induction 1 as [|b l (_ & Hn & _) _ IH]; [done|]. cbn [bound_to].
  destruct (negb _); [done|]. destruct (_ || _); [|done]. destruct (name_len b =? addrlen c - 2) eqn:E; zify_bool; [lia|done].
Qed.

(** The client [c] holds the address. *)
Definition holds (m : bindings_map) (c : client) (port : Z) (s : option nat) : Prop :=
  m !! (port, s) = Some (client_name c) \/ m !! (port, None) = Some (client_name c).

(** Port 0 marks the slots that are not in use; what is left in such a slot names the client. *)
Definition left_over (t : mdp_table) (c : client) (port : Z) (s : option nat) : Prop :=
  port = 0 /\ exists b, b ∈ mdp_bindings t /\ b_port b = 0 /\ (b_subscriber b = None \/ b_subscriber b = s) /\
    owner b = client_name c.

Lemma check_spec t m s port c : table_repr t m -> peer_ok c ->
  exists r, overlay_mdp_check_binding s port (Some c) t = Some r /\
    (r = 0 <-> 2 <= addrlen c /\ (holds m c port s \/ left_over t c port s)).
Proof.
  intros R Hc. cbn [overlay_mdp_check_binding]. destruct (Z.lt_ge_cases (addrlen c) 2) as [Hn|Hn].
  { rewrite bound_unnamed by (done || apply R). cbn. eexists. split; [done|]. split; [done|lia]. }
  assert (Hc' : client_ok c) by (unfold client_ok, peer_ok in *; lia).
  destruct (bound_to_spec s port c (mdp_bindings t) Hc' (tr_ok _ _ R)) as (ok & Hok & Hr).
  rewrite Hok. cbn [mbind option_bind]. eexists. split; [reflexivity|].
  transitivity (ok = true); [by destruct ok|]. unfold holds, left_over. rewrite !(repr_lookup t m), Hr by done. split.
  - intros (i & b & Hi & <- & Hs & Ho). split; [done|]. destruct (decide (b_port b = 0)) as [E|E].
    + right. split; [done|]. exists b. split; [by eapply list_elem_of_lookup_2|done].
    + left. destruct Hs as [Hs|Hs]; [right|left]; exists i, b; rewrite Hs; by split_and!.
  - intros [_ [[(i & b & Hi & H0 & [= -> ->] & ->)|(i & b & Hi & H0 & [= -> Hs] & ->)]|(-> & b & [i Hi]%list_elem_of_lookup & Hb)]];
      [by exists i, b; auto 10|by exists i, b; auto 10|exists i, b; tauto].
Qed.

Lemma find_match_any port l : forall i m,
  find_match None port l i m =
    match list_find (fun b => u32 (b_port b) = port) l with Some (k, _) => Some (i + k)%nat | None => m end.
Proof.
  induction l as [|b l IH]; intros i m; [done|]. cbn [find_match list_find].
  destruct (u32 (b_port b) =? port) eqn:E; zify_bool; cbn [negb].
  - rewrite decide_True by done. cbn. f_equal. lia.
  - rewrite decide_False, IH by done. destruct (list_find _ l) as [[k x]|]; cbn; [f_equal; lia|done].
Qed.

(** The result of a search that began with the binding [m] for any address. *)
Lemma find_match_exact d port l : forall i m, exists r, find_match (Some d) port l i m = r /\
  ((exists k b, r = Some (i + k)%nat /\ l !! k = Some b /\ u32 (b_port b) = port /\ b_subscriber b = Some d) \/
   (Forall (fun b => u32 (b_port b) = port -> b_subscriber b <> Some d) l /\
    ((exists k b, r = Some (i + k)%nat /\ l !! k = Some b /\ u32 (b_port b) = port /\ b_subscriber b = None) \/
     (r = m /\ Forall (fun b => u32 (b_port b) = port -> b_subscriber b <> None) l)))).
Proof.
  induction l as [|b l IH]; intros i m; eexists; (split; [reflexivity|]).
  { right. split; [constructor|]. right. by split; [|constructor]. }
  cbn [find_match]. destruct (u32 (b_port b) =? port) eqn:E; zify_bool; cbn [negb orb].
  - rewrite (bool_decide_false (Some d = None)) by done. cbn [orb]. case_bool_decide as Hs.
    { left. exists 0%nat, b. rewrite Nat.add_0_r. done. }
    destruct (IH (S i) (if bool_decide (b_subscriber b = None) then Some i else m)) as (r & -> & Hr).
    destruct Hr as [(k & b' & -> & Hk & Hb')|(Hl & [(k & b' & -> & Hk & Hb')|(-> & Hn)])].
    + left. exists (S k), b'. rewrite <-Nat.add_succ_comm. done.
    + right. split; [by constructor|]. left. exists (S k), b'. rewrite <-Nat.add_succ_comm. done.
    + right. split; [by constructor|]. case_bool_decide as Hb.
      * left. exists 0%nat, b. rewrite Nat.add_0_r. done.
      * right. split; [done|]. by constructor.
  - destruct (IH (S i) m) as (r & -> & Hr).
    destruct Hr as [(k & b' & -> & Hk & Hb')|(Hl & [(k & b' & -> & Hk & Hb')|(-> & Hn)])].
    + left. exists (S k), b'. rewrite <-Nat.add_succ_comm. done.
    + right. split; [by constructor|]. left. exists (S k), b'. rewrite <-Nat.add_succ_comm. done.
    + right. split; [by constructor|]. right. split; [done|]. by constructor.
Qed.

(** The names that a frame for [port] to [dst] may be delivered to. *)
Definition receives (m : bindings_map) (dst : option nat) (port : Z) (name : list Z) : Prop :=
  match dst with
  | None => exists s, m !! (port, s) = Some name
  | Some d => m !! (port, Some d) = Some name \/ (m !! (port, Some d) = None /\ m !! (port, None) = Some name)
  end.

Lemma delivery_spec t m dst port : table_repr t m -> 0 < port ->
  match find_match dst port (mdp_bindings t) 0 None with
  | Some i => exists b, mdp_bindings t !! i = Some b /\ receives m dst port (owner b)
  | None => forall name, ~ receives m dst port name
  end.
Proof.
  intros R Hp.
  assert (Hu : forall i b, mdp_bindings t !! i = Some b -> u32 (b_port b) = b_port b).
  { intros i b Hi. apply u32_id. destruct (Forall_lookup_1 _ _ _ _ (tr_ok _ _ R) Hi) as [Hb _]. unfold INT_MAX in Hb. lia. }
  assert (Hno : forall s, Forall (fun b => u32 (b_port b) = port -> b_subscriber b <> s) (mdp_bindings t) -> m !! (port, s) = None).
  { intros s Hl. destruct (m !! (port, s)) as [x|] eqn:E; [|done].
    apply (repr_lookup t m) in E as (i & b & Hi & _ & [= -> ->] & _); [|done].
    exfalso. apply (Forall_lookup_1 _ _ _ _ Hl Hi); [by eapply Hu|done]. }
  assert (Hyes : forall i b, mdp_bindings t !! i = Some b -> u32 (b_port b) = port -> m !! (port, b_subscriber b) = Some (owner b)).
  { intros i b Hi Hb. rewrite (Hu i b Hi) in Hb. apply (repr_lookup t m); [done|]. exists i, b. split_and!; (done || lia || congruence). }
  destruct dst as [d|].
  - destruct (find_match_exact d port (mdp_bindings t) 0 None) as (r & -> & Hr).
    destruct Hr as [(k & b & -> & Hk & Hb & Hs)|(Hl & [(k & b & -> & Hk & Hb & Hs)|(-> & Hn)])].
    + exists b. split; [done|]. left. rewrite <-Hs. by eapply Hyes.
    + exists b. split; [done|]. right. split; [by apply Hno|]. rewrite <-Hs. by eapply Hyes.
    + intros name [Hx|[_ Hx]]; [rewrite Hno in Hx by done|rewrite Hno in Hx by done]; done.
  - rewrite find_match_any. destruct (list_find _ (mdp_bindings t)) as [[k b]|] eqn:E.
    + apply list_find_Some in E as (Hk & Hb & _). exists b. split; [done|]. exists (b_subscriber b). by eapply Hyes.
    + apply list_find_None in E. intros name [s Hx]. rewrite Hno in Hx; [done|].
      eapply Forall_impl; [exact E|]. intros b Hb Hb'. done.
Qed.

Lemma no_binding_ok : binding_ok no_binding.
Proof. unfold binding_ok. vm_compute. intuition congruence. Qed.

Lemma zero_table_repr : table_repr zero_table ∅.
Proof.
  split; cbn [zero_table mdp_bindings mdp_bindings_initialised].
  - apply length_replicate.
  - apply Forall_replicate. exact no_binding_ok.
  - intros _. by apply Forall_replicate.
  - vm_compute. constructor.
  - reflexivity.
Qed.

(** * Theorems *)

Lemma longer_name_other c : client_ok c -> client_name c <> longer_name c.
Proof.
  intros (Ha & Hs) E%(f_equal length). unfold client_name, longer_name in E. rewrite !length_take in E. lia.
Qed.

(** A bind request of a socket without a name would write a binding. *)
Definition unnamed_binds (m : bindings_map) (s : option nat) (port flags : Z) : bool :=
  (0 <? port) &&
  match m !! (port, s) with Some x => bool_decide (x <> []) && negb (Z.land flags MDP_FORCE =? 0) | None => true end.

Lemma record_unnamed t i s port c t_now : addrlen c = 0 -> record_binding i s port c t_now t = None.
Proof.
  intros Hc. unfold record_binding. destruct (mdp_bindings t !! i); [|done]. cbn [mbind option_bind]. rewrite Hc.
  unfold zslice. zdecide. done.
Qed.

Lemma bind_unnamed_spec t m random t_now s port flags c :
  table_repr t m -> peer_ok c -> addrlen c = 0 ->
  if unnamed_binds m s port flags then overlay_mdp_process_bind_request random t_now s port flags c t = None
  else exists r t', overlay_mdp_process_bind_request random t_now s port flags c t = Some (r, t') /\
    table_repr t' m /\ bind_result s port flags c m r m.
Proof.
  intros R Hc H0. unfold overlay_mdp_process_bind_request, unnamed_binds. assert (Hn : longer_name c = []) by (unfold longer_name; by rewrite H0).
  destruct (Z.leb_spec port 0) as [Hp|Hp]; [rewrite (proj2 (Z.ltb_ge _ _)) by done; exists (-1), t; split_and!; [done..|by constructor]|].
  rewrite (proj2 (Z.ltb_lt _ _)) by done. cbn [andb].
  assert (Hin : mdp_bindings_initialised (initialise_bindings t) = true).
  { unfold initialise_bindings. destruct (mdp_bindings_initialised t) eqn:E; done. }
  apply initialise_repr in R as [R _]. revert R Hin. generalize (initialise_bindings t). clear t. intros t R Hin.
  destruct (m !! (port, s)) as [x|] eqn:Hm.
  - apply (repr_lookup t m) in Hm as (i & b & Hi & Hb & [= -> ->] & ->); [|done].
    destruct (bind_found t m (b_subscriber b) (b_port b) flags c i b) as [-> Hm]; try done.
    rewrite Hn. cbn [mbind option_bind]. destruct (decide (owner b = [])) as [Ho|Ho].
    { rewrite (bool_decide_false (_ <> _)), bool_decide_true by auto. exists 0, t. split_and!; [done..|]. constructor; [lia|congruence]. }
    rewrite (bool_decide_true (_ <> _)), bool_decide_false by done. destruct (Z.land flags MDP_FORCE =? 0) eqn:Ef; zify_bool; cbn [negb andb].
    { exists (-1), t. split_and!; [done..|]. econstructor; [done|done|congruence|done]. }
    cbn [mbind option_bind]. by rewrite record_unnamed.
  - rewrite (bind_absent t m) by done. cbn [mbind option_bind]. by rewrite record_unnamed.
Qed.

(** [C12] The table of port bindings implements a finite map from addresses (a port and an
    identity, or any identity) to client sockets.  A bind request of a named socket always
    returns: it refuses a port that is not positive, or that is bound already unless the request
    is forced, and enters the client in the map otherwise; only when the table is full does
    another binding go.  The names are compared with two bytes too many: a client that binds its
    own port again is told that it is in use, and only a binding of a name that goes on with the
    two bytes after the client's in the buffer counts as identical.  A request of a socket
    without a name is refused on the same grounds, and undefined when it would enter a binding,
    because a length of -2 is copied.  A name has at most 108 bytes and the port fits an
    [int]. *)
Theorem bind_request_refines t m random t_now s port flags c :
  table_repr t m -> peer_ok c -> 0 <= random -> port <= INT_MAX ->
  (2 <= addrlen c ->
     (exists r t' m', overlay_mdp_process_bind_request random t_now s port flags c t = Some (r, t') /\
        table_repr t' m' /\ bind_result s port flags c m r m') /\
     (0 < port -> m !! (port, s) = Some (client_name c) -> Z.land flags MDP_FORCE = 0 ->
        exists t', overlay_mdp_process_bind_request random t_now s port flags c t = Some (-1, t') /\ table_repr t' m)) /\
  (addrlen c = 0 ->
     if unnamed_binds m s port flags then overlay_mdp_process_bind_request random t_now s port flags c t = None
     else exists r t', overlay_mdp_process_bind_request random t_now s port flags c t = Some (r, t') /\
       table_repr t' m /\ bind_result s port flags c m r m).
Proof.
  intros R Hc Hr Hp. split; [|by apply bind_unnamed_spec]. intros Hn.
  assert (Hc' : client_ok c) by (unfold client_ok, peer_ok in *; lia).
  destruct (bind_spec t m random t_now s port flags c R Hc' Hr Hp) as (r & t' & m' & E & R' & B).
  split; [by exists r, t', m'|]. intros Hp0 Hm Hf. exists t'. rewrite E.
  pose proof (longer_name_other c Hc'). inversion B; simplify_eq; (done || lia).
Qed.

(** A client with the name "/a", as the kernel reports it. *)
Definition demo_client : client := mk_client ([47; 97] ++ replicate 1020 0) 5.

Lemma bind_request_refines_witness :
  exists r t' m', overlay_mdp_process_bind_request 7 1000 (Some 0%nat) 99 0 demo_client zero_table = Some (r, t') /\
    table_repr t' m' /\ bind_result (Some 0%nat) 99 0 demo_client ∅ r m'.
Proof.
  apply (bind_request_refines zero_table ∅ 7 1000 (Some 0%nat) 99 0 demo_client).
  - exact zero_table_repr.
  - split; cbn; lia.
  - lia.
  - unfold INT_MAX. lia.
  - cbn. lia.
Defined.

(** A client that says goodbye keeps its ports: the request compares the length of the
    name with that of the address, two bytes more, and releases nothing the client holds.  For the same
    reason the client is told that its own port is in use when it binds it again. *)
Theorem goodbye_releases_nothing t m c s port random t_now :
  table_repr t m -> client_ok c -> 0 < port <= INT_MAX -> 0 <= random -> m !! (port, s) = Some (client_name c) ->
  exists t' m', overlay_mdp_releasebindings c t = Some t' /\ table_repr t' m' /\
    (forall k, m !! k = Some (client_name c) -> m' !! k = Some (client_name c)) /\
    exists t'', overlay_mdp_process_bind_request random t_now s port 0 c t' = Some (-1, t'').
Proof.
  intros R Hc Hp Hr Hm. destruct (release_spec t m c R) as (t' & Ht' & R'); [destruct Hc; lia..|].
  set (m' := filter _ m) in R'. exists t', m'. split; [done|]. split; [done|].
  assert (Hk : forall k, m !! k = Some (client_name c) -> m' !! k = Some (client_name c)).
  { intros k Hk. apply map_lookup_filter_Some. split; [done|]. by apply longer_name_other. }
  split; [done|]. destruct (bind_spec t' m' random t_now s port 0 c R' Hc Hr) as (r & t'' & m'' & -> & _ & B); [lia|].
  exists t''. pose proof (Hk _ Hm) as Hm'. pose proof (longer_name_other c Hc). inversion B; simplify_eq; (done || lia).
Qed.

(** The table after [demo_client] was bound to port 99. *)
Definition demo_table : mdp_table :=
  mk_mtable (mk_binding (Some 0%nat) 99 ([47; 97; 0] ++ replicate 107 0) 3 1000 :: replicate 99 no_binding) true.

Lemma demo_table_repr : table_repr demo_table {[ (99, Some 0%nat) := [47; 97; 0] ]}.
Proof.
  split.
  - reflexivity.
  - constructor; [unfold binding_ok; vm_compute; intuition congruence|].
    apply Forall_replicate. exact no_binding_ok.
  - done.
  - vm_compute. constructor; [set_solver|constructor].
  - reflexivity.
Qed.

Lemma goodbye_releases_nothing_witness :
  exists t' m', overlay_mdp_releasebindings demo_client demo_table = Some t' /\ table_repr t' m' /\
    (forall k, ({[ (99, Some 0%nat) := [47; 97; 0] ]} : bindings_map) !! k = Some [47; 97; 0] -> m' !! k = Some [47; 97; 0]) /\
    exists t'', overlay_mdp_process_bind_request 7 2000 (Some 0%nat) 99 0 demo_client t' = Some (-1, t'').
Proof.
  apply (goodbye_releases_nothing demo_table {[ (99, Some 0%nat) := [47; 97; 0] ]} demo_client (Some 0%nat) 99 7 2000).
  - exact demo_table_repr.
  - split; cbn; lia.
  - unfold INT_MAX. lia.
  - lia.
  - reflexivity.
Defined.

(** A bind request from a socket that has no name, for which the kernel reports a length of 0,
    is undefined: the length of the name is stored as -2 and that many bytes are copied. *)
Theorem bind_unnamed_undefined t m random t_now s port flags path :
  table_repr t m -> 0 <= random -> 0 < port -> m !! (port, s) = None ->
  overlay_mdp_process_bind_request random t_now s port flags (mk_client path 0) t = None.
Proof.
  intros R Hr Hp Hm. unfold overlay_mdp_process_bind_request. zdecide.
  apply initialise_repr in R as [R _]. revert R. generalize (initialise_bindings t). clear t. intros t R.
  rewrite (bind_absent t m) by done. cbn [mbind option_bind]. unfold record_binding.
  match goal with |- context [mdp_bindings t !! ?i] => destruct (mdp_bindings t !! i); [|done] end.
  cbn [mbind option_bind addrlen]. unfold zslice. zdecide. done.
Qed.

Lemma bind_unnamed_undefined_witness :
  overlay_mdp_process_bind_request 7 1000 None 99 MDP_FORCE (mk_client (replicate 1022 0) 0) zero_table = None.
Proof. apply (bind_unnamed_undefined zero_table ∅); [exact zero_table_repr|lia|lia|reflexivity]. Defined.
