(* ===== verification/Effects.v ===== *)
(** Effects: the calls between the layers.

    The address code and routing record in their states what they hand to other parts: the
    frames for the transmit queues, the acknowledgements for them, and the subscribers that were explained, for
    routing.  Here those calls reach the parts they are for, in the order they were made,
    when the function that made them returns; none of their results changes what the
    function does. *)

From S2P Require Import Prelude CMem OverlayBuffer OverlayBufferCodec DataFormats Slip SubscriberTree OverlayAddress PacketFormats RouteLinks Route RouteWire RouteOps RouteReceive Limit TxState OverlayQueue.

(** A frame that another part made, as calloc and it left it; the number of its queue is
    an unsigned char. *)
Definition plain_qframe (f : overlay_frame) (context : option nat) (resend : Z) : qframe :=
  mk_qframe None None (set_ttl_queue f (ttl f) (u8 (queue f))) resend context
    (replicate TxState.OVERLAY_MAX_INTERFACES 0) (replicate TxState.OVERLAY_MAX_INTERFACES 0) false 0 0.

Fixpoint q_each {A} (f : A -> QM unit) (l : list A) : QM unit :=
  match l with [] => mret tt | x :: l => _ ← f x; q_each f l end.

Section effects.
Context `{Allocator}.
Context (gettime_ms : nat -> Z) (my_subscriber directory_service : option nat).
Context (olsr : bool) (probe_contents : Z -> Z -> list Z).

Abbreviation submit := (OverlayQueue.submit gettime_ms my_subscriber directory_service olsr probe_contents).
Abbreviation overlay_queue_ack := (OverlayQueue.overlay_queue_ack gettime_ms directory_service).

Definition perform (e : route_event) : QM unit :=
  match e with
  | Enqueued f => _ ← submit (plain_qframe (lf_frame f) (send_context f) (resend f)); mret tt
  | QueueAck n i mask seq => _ ← overlay_queue_ack n i mask seq; mret tt
  | _ => mret tt
  end.

Definition send_explanation (f : overlay_frame) : QM unit := _ ← submit (plain_qframe f None 0); mret tt.

(** Runs routing code, then what it asked for. *)
Definition carried {A} (m : RM A) : QM A :=
  links ← asks (fun w => length (w_links (rw (q_route w))));
  events ← asks (fun w => length (r_events (q_route w)));
  sent ← asks (fun w => length (w_sent (rw (q_route w))));
  x ← routed m;
  explained ← asks (fun w => drop links (w_links (rw (q_route w))));
  _ ← q_each (fun i => routed (RouteReceive.link_explained gettime_ms i)) explained;
  asked ← asks (fun w => drop events (r_events (q_route w)));
  _ ← q_each perform asked;
  frames ← asks (fun w => drop sent (w_sent (rw (q_route w))));
  _ ← q_each send_explanation frames;
  mret x.
End effects.
