(* ===== verification/MdpState.v ===== *)
(** MdpState: the datagrams of overlay_mdp.c, what is in them and how they are protected.

    A datagram is the [overlay_mdp_data_frame] of the union [overlay_mdp_frame].  On the wire
    it is the payload of a frame: the ports and then the data, in clear, signed, or encrypted and
    authenticated for one receiver. *)

From S2P Require Import Prelude CMem OverlayBuffer OverlayBufferCodec DataFormats Str Slip SubscriberTree OverlayAddress PacketFormats RouteLinks Route RouteWire RouteOps RouteReceive Limit TxState OverlayQueue Effects Nonce Crypto MdpBindings.

Definition MDP_TYPE_MASK : Z := 0xff.
Definition MDP_NOCRYPT : Z := 0x0200.
Definition MDP_NOSIGN : Z := 0x0400.
Definition MDP_TX : Z := 1.
Definition OQ_ORDINARY : Z := 3.
(** The length of the array [payload]: MDP_MTU-100. *)
Definition MDP_PAYLOAD : Z := MDP_MTU - 100.

(** [overlay_mdp_frame] with the member [in] or [out] of its union. *)
Record mdp_frame := mk_mdp {
  packetTypeAndFlags : Z;
  src_sid : list Z; src_port : Z;
  dst_sid : list Z; dst_port : Z;
  payload_length : Z;
  mdp_queue : Z;
  mdp_ttl : Z;
  mdp_payload : list Z
}.

Definition zero_mdp : mdp_frame :=
  mk_mdp 0 (replicate SID_SIZE 0) 0 (replicate SID_SIZE 0) 0 0 0 0 (replicate (Z.to_nat MDP_PAYLOAD) 0).

Definition set_mdp_type (f : mdp_frame) (t : Z) : mdp_frame :=
  mk_mdp t (src_sid f) (src_port f) (dst_sid f) (dst_port f) (payload_length f) (mdp_queue f) (mdp_ttl f) (mdp_payload f).
Definition set_src (f : mdp_frame) (s : list Z) (p : Z) : mdp_frame :=
  mk_mdp (packetTypeAndFlags f) s p (dst_sid f) (dst_port f) (payload_length f) (mdp_queue f) (mdp_ttl f) (mdp_payload f).
Definition set_dst (f : mdp_frame) (s : list Z) (p : Z) : mdp_frame :=
  mk_mdp (packetTypeAndFlags f) (src_sid f) (src_port f) s p (payload_length f) (mdp_queue f) (mdp_ttl f) (mdp_payload f).
Definition set_mdp_payload (f : mdp_frame) (n : Z) (d : list Z) : mdp_frame :=
  mk_mdp (packetTypeAndFlags f) (src_sid f) (src_port f) (dst_sid f) (dst_port f) n (mdp_queue f) (mdp_ttl f) d.
Definition set_queue_ttl (f : mdp_frame) (q t : Z) : mdp_frame :=
  mk_mdp (packetTypeAndFlags f) (src_sid f) (src_port f) (dst_sid f) (dst_port f) (payload_length f) q t (mdp_payload f).

(** is_sid_any and is_sid_broadcast *)
Definition is_sid_any (s : list Z) : option bool := is_all_matching s SID_SIZE 0.
Definition is_sid_broadcast (s : list Z) : option bool := is_all_matching s SID_SIZE 0xFF.

Definition overlay_mdp_swap_src_dst (f : mdp_frame) : mdp_frame :=
  set_dst (set_src f (dst_sid f) (dst_port f)) (src_sid f) (src_port f).

(** ** Ports and data in a buffer *)

Definition get_packed_ui32 (b : overlay_buffer) : M (Z * overlay_buffer) := fun w =>
  r ← ob_get_packed_ui32 b (w_mem w); Some (r, w).

(** The data, which are what is left of the buffer.  The array of the payload does not grow. *)
Definition decode_data (b : overlay_buffer) (f : mdp_frame) : M (Z * overlay_buffer * mdp_frame) :=
  len ← lift (ob_remaining b);
  if len <? 0 then mret (-1, b, f)
  else
    '(d, b) ← ((fun w => r ← ob_get_bytes b (w_mem w) len; Some (r, w)) : M (option (list Z) * overlay_buffer));
    match d with
    | None => mret (-1, b, set_mdp_payload f (u16 len) (mdp_payload f))
    | Some d =>
        p ← lift (zblit (mdp_payload f) 0 d);
        mret (0, b, set_mdp_payload f (u16 len) p)
    end.

(** [port >>= 1] on [int] is an arithmetic shift; the ports are unsigned. *)
Definition overlay_mdp_decode_header (b : overlay_buffer) (f : mdp_frame) : M (Z * overlay_buffer * mdp_frame) :=
  '(port, b) ← get_packed_ui32 b;
  let port := i32 port in
  let same := Z.odd port in
  let port := Z.shiftr port 1 in
  let f := set_dst f (dst_sid f) (u32 port) in
  '(port, b) ← (if same then mret (u32 port, b) else get_packed_ui32 b : M (Z * overlay_buffer));
  decode_data b (set_src f (src_sid f) port).

(** ** Memory of the stack *)

(** An array of a function, with these contents, for as long as [k] runs. *)
Definition with_array {A} (l : list Z) (k : ptr -> M A) : M A := fun w =>
  let blk := fresh (dom (w_mem w)) in
  '(x, w) ← k (mkptr blk 0) (set_mem w (<[blk := l]> (w_mem w)));
  Some (x, set_mem w (delete blk (w_mem w))).

(** ** Protection *)

Section protect.
Context `{Allocator} `{NaCl}.
(** What the keyring knows: the key that two identities share, the first being ours; our
    signing keys; the signing keys of others that are on record. *)
Context (keyring_get_nm_bytes : list Z -> list Z -> option (list Z)).
Context (keyring_find_sas_private : list Z -> option (list Z)) (sas_public : nat -> list Z).

(** Opens a box in the rest of the payload.  The sid is the first member of a subscriber, so
    that of NULL is NULL, and the keyring has no key for it. *)
Definition open_box (f : overlay_frame) (b : overlay_buffer) (mdp : mdp_frame) : M (Z * overlay_buffer * mdp_frame) :=
  key ← (match destination f, source f with
         | Some d, Some s =>
             d ← get_sub d; s ← get_sub s; mret (keyring_get_nm_bytes (sid d) (sid s))
         | _, _ => mret None
         end : M (option (list Z)));
  match key with
  | None => mret (-1, b, mdp)
  | Some k =>
      '(nonce, b) ← lift (ob_get_bytes_ptr b crypto_box_NONCEBYTES);
      match nonce with
      | None => mret (-1, b, mdp)
      | Some nonce =>
          cipher_len ← lift (ob_remaining b);
          '(cipher, b) ← lift (ob_get_bytes_ptr b cipher_len);
          match cipher with
          | None => mret (-1, b, mdp)
          | Some cipher =>
              nonce ← read_bytes nonce crypto_box_NONCEBYTES;
              cipher ← read_bytes cipher cipher_len;
              match box_open_afternm (zeros crypto_box_BOXZEROBYTES ++ cipher) nonce k with
              | None => mret (-1, b, mdp)
              | Some plain =>
                  let n := cipher_len + crypto_box_BOXZEROBYTES - crypto_box_ZEROBYTES in
                  '(r, mdp) ← with_array plain (fun p =>
                     t ← lift (ob_static (mkptr (p_blk p) crypto_box_ZEROBYTES) n);
                     let t := default t (snd (ob_limitsize (Some t) n)) in
                     '(r, _, mdp) ← overlay_mdp_decode_header t mdp;
                     mret (r, mdp));
                  mret (r, b, mdp)
              end
          end
      end
  end.

(** The result, the buffer of the payload and the datagram. *)
Definition overlay_mdp_decrypt (sas_known : bool) (f : overlay_frame) (mdp : mdp_frame) : M (Z * overlay_buffer * mdp_frame) :=
  b ← lift (payload f);
  let mdp := set_mdp_type mdp MDP_TX in
  let crypto := Z.land (modifiers f) (Z.lor PAYLOAD_FLAG_CIPHERED PAYLOAD_FLAG_SIGNED) in
  if crypto =? 0 then
    overlay_mdp_decode_header b (set_mdp_type mdp (Z.lor MDP_TX (Z.lor MDP_NOCRYPT MDP_NOSIGN)))
  else if crypto =? PAYLOAD_FLAG_CIPHERED then mret (-1, b, mdp)
  else if crypto =? PAYLOAD_FLAG_SIGNED then
    len ← lift (ob_remaining b);
    src ← lift (source f);
    message ← (if sas_known then p ← lift (bytes b); read_bytes p len else mret [] : M (list Z));
    '(r, len) ← lift (crypto_verify_message (if sas_known then Some (sas_public src) else None) message len);
    if negb (r =? 0) then mret (-1, b, mdp)
    else
      let b := default b (snd (ob_limitsize (Some b) (len + ob_position b))) in
      overlay_mdp_decode_header b (set_mdp_type mdp (Z.lor MDP_TX MDP_NOCRYPT))
  else open_box f b mdp.

Definition free_buffer (b : overlay_buffer) : M unit := fun w =>
  '(_, m) ← ob_free (Some b) (w_mem w); Some (tt, set_mem w m).

(** The text to be boxed, and a new payload with room for the nonce and the box, at [space]. *)
Definition prepare_box (plain : overlay_buffer) : M (list Z * overlay_buffer * option ptr) :=
  let cipher_len := ob_position plain in
  p ← lift (bytes plain);
  text ← read_bytes p cipher_len;
  _ ← free_buffer plain;
  b ← lift ob_new;
  '(space, b) ← on_buffer (fun m => ob_append_space b m (crypto_box_NONCEBYTES + (cipher_len + crypto_box_ZEROBYTES)));
  mret (zeros crypto_box_ZEROBYTES ++ text, b, space).

(** Writes the nonce and the box; the box is moved down over its zero bytes.  [nonce] is what
    generate_nonce gave. *)
Definition seal_box (mdp : mdp_frame) (text : list Z) (b : overlay_buffer) (space : ptr) (nonce : option (list Z))
    : M (option overlay_buffer) :=
  let fail : M (option overlay_buffer) := (_ ← free_buffer b; mret None) in
  match nonce with
  | None => fail
  | Some nonce =>
      let nonce := reserve_bit nonce in
      match keyring_get_nm_bytes (src_sid mdp) (dst_sid mdp) with
      | None => fail
      | Some k =>
          match box_afternm text nonce k with
          | None => fail
          | Some box =>
              let cz := Z.to_nat crypto_box_BOXZEROBYTES in
              let moved := drop cz box ++ drop (length box - cz) box in
              _ ← ((fun w => m ← storebytes (w_mem w) space 0 (nonce ++ moved); Some (tt, set_mem w m)) : M unit);
              mret (Some (set_position b (position b - crypto_box_BOXZEROBYTES)))
          end
      end
  end.

(** Signs the bytes of [plain] in place. *)
Definition sign_payload (source : list Z) (plain : overlay_buffer) : M (option overlay_buffer) :=
  '(_, b) ← on_buffer (fun m => ob_makespace plain m SIGNATURE_BYTES);
  p ← lift (bytes b);
  content ← read_bytes p (allocSize b);
  '(r, s, n) ← lift (crypto_sign_message (keyring_find_sas_private source) content (allocSize b) (position b));
  _ ← ((fun w => m ← storebytes (w_mem w) p (position b) s; Some (tt, set_mem w m)) : M unit);
  let b := set_position b n in
  if negb (r =? 0)
  then _ ← free_buffer b; mret None
  else mret (Some b).
End protect.
