(* ===== verification/Mdp.v ===== *)
(** Mdp: overlay_mdp.c, the datagram service of the mesh: delivering and sending.

    Clients bind ports ([MdpBindings]) and send datagrams; a datagram for one of our
    identities or for everyone goes to the client bound to its port, or to a service of
    the daemon; one for somebody else is protected ([MdpState]) and queued.  The services ([MdpServices])
    may send datagrams themselves. *)

From S2P Require Import Prelude CMem OverlayBuffer OverlayBufferCodec DataFormats Str Slip SubscriberTree OverlayAddress PacketFormats RouteLinks Route RouteWire RouteOps RouteReceive Limit TxState OverlayQueue Effects Nonce Crypto MdpBindings MdpState.

Definition MDP_PORT_KEYMAPREQUEST : Z := 1.
Definition MDP_PORT_STUNREQ : Z := 4.
Definition MDP_PORT_STUN : Z := 5.
Definition MDP_PORT_TRACE : Z := 8.
Definition MDP_PORT_DNALOOKUP : Z := 10.
Definition MDP_PORT_VOMP : Z := 12.
Definition MDP_PORT_RHIZOME_REQUEST : Z := 13.
Definition MDP_PORT_RHIZOME_RESPONSE : Z := 14.
Definition MDP_PORT_RHIZOME_MANIFEST_REQUEST : Z := 16.
Definition MDP_PORT_RHIZOME_SYNC : Z := 17.
Definition MDP_MAX_SID_REQUEST : Z := 59.
Definition MDP_ADDRLIST_MODE_ROUTABLE_PEERS : Z := 0.
Definition MDP_ADDRLIST_MODE_SELF : Z := 1.
Definition MDP_ADDRLIST_MODE_ALL_PEERS : Z := 2.
Definition PORT_DNA : Z := 4110.
Definition AF_INET : Z := 2.

(** ** State *)

(** [overlay_mdp_addrlist]; [sids] has the slots that are populated. *)
Record addrlist := mk_addrlist {
  al_mode : Z; server_sid_count : Z; first_sid : Z; last_sid : Z; frame_sid_count : Z; al_sids : list (list Z)
}.

(** [struct overlay_route_record]; the name of an interface is its number. *)
Record route_record := mk_route_record {
  rr_sid : list Z; rr_reachable : Z; rr_interface : option nat; rr_neighbour : option (list Z)
}.

Inductive mdp_reply :=
| MdpError (error : Z) (message : string)
| MdpAddrlist (l : addrlist)
| MdpRoute (r : route_record).

(** [struct scan_state] *)
Record scan_state := mk_scan { scan_interface : option nat; scan_current : Z; scan_last : Z }.
Definition zero_scan : scan_state := mk_scan None 0 0.

(** What leaves this part: datagrams and replies to clients, a request for a signing key, a
    datagram for a service of another part, the alarms of scans, and frames with
    advertisements of rhizome. *)
Inductive mdp_event :=
| Delivered (name : list Z) (f : mdp_frame)
| Replied (c : client) (r : mdp_reply)
| SasRequested (i : nat)
| Served (port : Z) (f : mdp_frame)
| ScanScheduled (i : nat) (t : Z)
| Advertised (f : overlay_frame).

Record mworld := mk_mworld {
  m_q : qworld;
  m_table : mdp_table;
  m_nonce : nonce_state;
  m_scans : list scan_state;
  m_events : list mdp_event
}.

Definition set_m_q (w : mworld) (x : qworld) : mworld := mk_mworld x (m_table w) (m_nonce w) (m_scans w) (m_events w).
Definition set_m_table (w : mworld) (x : mdp_table) : mworld := mk_mworld (m_q w) x (m_nonce w) (m_scans w) (m_events w).
Definition set_m_nonce (w : mworld) (x : nonce_state) : mworld := mk_mworld (m_q w) (m_table w) x (m_scans w) (m_events w).
Definition set_m_scans (w : mworld) (x : list scan_state) : mworld := mk_mworld (m_q w) (m_table w) (m_nonce w) x (m_events w).
Definition set_m_events (w : mworld) (x : list mdp_event) : mworld := mk_mworld (m_q w) (m_table w) (m_nonce w) (m_scans w) x.

Definition MM (A : Type) : Type := mworld -> option (A * mworld).

#[export] Instance MM_ret : MRet MM := fun A x w => Some (x, w).
#[export] Instance MM_bind : MBind MM := fun A B f m w =>
  match m w with Some (x, w) => f x w | None => None end.

Definition m_undefined {A} : MM A := fun _ => None.
Definition m_lift {A} (o : option A) : MM A := fun w => x ← o; Some (x, w).
Definition m_asks {A} (f : mworld -> A) : MM A := fun w => Some (f w, w).
Definition m_modify (f : mworld -> mworld) : MM unit := fun w => Some (tt, f w).
Definition tell (e : mdp_event) : MM unit := m_modify (fun w => set_m_events w (m_events w ++ [e])).
Definition queued {A} (m : QM A) : MM A := fun w => '(x, q) ← m (m_q w); Some (x, set_m_q w q).
Definition m_routed {A} (m : RM A) : MM A := queued (routed m).
Definition m_based {A} (m : M A) : MM A := queued (based m).
Definition on_table {A} (f : mdp_table -> option (A * mdp_table)) : MM A := fun w =>
  '(x, t) ← f (m_table w); Some (x, set_m_table w t).

(** What sendto to a client says: all bytes went, some did not, or there is no such socket. *)
Inductive client_result := ClientOk | ClientFailed | ClientGone.

Section mdp.
Context `{Allocator} `{NaCl}.
Context (gettime_ms random : nat -> Z) (char_signed : bool) (my_subscriber directory_service : option nat).
Context (olsr : bool) (probe_contents : Z -> Z -> list Z).
(** Reads a [struct probe_contents]: the address and the number of the interface; its size. *)
Context (probe_read : list Z -> Z * Z) (probe_size : Z).
Context (keyring_get_nm_bytes : list Z -> list Z -> option (list Z)).
Context (keyring_find_sas_private : list Z -> option (list Z)) (sas_public : nat -> list Z).
Context (urandombytes : nat -> option (list Z)).
Context (sendto_client : list Z -> client_result).
(** The services of other parts of the daemon: what they return, and the datagram, which
    they may change; whether rhizome serves blocks. *)
Context (service : Z -> mdp_frame -> Z * mdp_frame) (rhizome_mdp_server : bool).

Abbreviation carried := (Effects.carried gettime_ms my_subscriber directory_service olsr probe_contents).
Abbreviation submit := (OverlayQueue.submit gettime_ms my_subscriber directory_service olsr probe_contents).
Abbreviation overlay_send_probe := (OverlayQueue.overlay_send_probe gettime_ms my_subscriber directory_service olsr probe_contents).
Abbreviation address_parse := (OverlayAddress.overlay_address_parse gettime_ms my_subscriber).

Definition m_now : MM Z := queued (TxState.q_now gettime_ms).

(** random() *)
Definition random_int : M Z := fun w =>
  Some (random (w_random w),
        mk_world (w_dir w) (w_bpi w) (w_mem w) (w_ticks w) (S (w_random w)) (w_links w) (w_sent w)).

Definition m_generate_nonce (n : Z) : MM (option (list Z)) := fun w =>
  '(x, s) ← generate_nonce urandombytes n (m_nonce w); Some (x, set_m_nonce w s).

(** ** Replies to clients *)

Definition overlay_mdp_reply (c : option client) (r : mdp_reply) : MM Z :=
  match c with
  | None => mret (-1)
  | Some c =>
      _ ← tell (Replied c r);
      mret (match sendto_client (client_name c) with ClientOk => 0 | _ => -1 end)
  end.

Definition overlay_mdp_reply_error (c : option client) (error : Z) (message : string) : MM Z :=
  overlay_mdp_reply c (MdpError error message).

(** ** Delivery *)

(** The name of a binding is copied into a [sockaddr_un], whose path has 108 bytes. *)
Definition deliver_to_client (i : nat) (f : mdp_frame) : MM Z :=
  t ← m_asks m_table;
  b ← m_lift (mdp_bindings t !! i);
  name ← m_lift (zslice (socket_name b) 0 (name_len b));
  path ← m_lift (zblit (replicate 108 0) 0 name);
  _ ← tell (Delivered name f);
  match sendto_client name with
  | ClientOk => mret 0
  | ClientFailed => mret (-1)
  | ClientGone => _ ← on_table (fun t => t ← overlay_mdp_releasebindings (mk_client path (name_len b)) t; Some (tt, t)); mret (-1)
  end.

(** [services] is overlay_mdp_try_interal_services; [frame] the frame a datagram came in.
    The datagram is returned as the services leave it. *)
Definition saw_mdp_frame_with (services : mdp_frame -> MM (Z * mdp_frame)) (frame : option overlay_frame) (f : mdp_frame)
    : MM (Z * mdp_frame) :=
  if negb (Z.land (packetTypeAndFlags f) MDP_TYPE_MASK =? MDP_TX) then mret (-1, f)
  else
    dst ← (match frame with
           | Some fr => mret (destination fr)
           | None =>
               all ← m_lift (is_sid_broadcast (dst_sid f));
               if all : bool then mret None else m_based (find_sub (dst_sid f) SID_SIZE true)
           end : MM (option nat));
    t ← m_asks m_table;
    match find_match dst (dst_port f) (mdp_bindings t) 0 None with
    | Some i => r ← deliver_to_client i f; mret (r, f)
    | None => services f
    end.

(** ** Sending *)

(** Who a datagram is from: one of our identities; None with the reason when it is not. *)
Definition dispatch_source (f : mdp_frame) : MM (option (nat * mdp_frame)) :=
  any ← m_lift (is_sid_any (src_sid f));
  if any : bool then
    me ← m_lift my_subscriber;
    s ← m_based (get_sub me);
    mret (Some (me, set_src f (sid s) (src_port f)))
  else
    all ← m_lift (is_sid_broadcast (src_sid f));
    if all : bool then mret None
    else
      src ← m_based (find_sub (src_sid f) SID_SIZE false);
      match src with
      | None => mret None
      | Some i =>
          s ← m_based (get_sub i);
          mret (if negb (reachable s =? REACHABLE_SELF) then None else Some (i, f))
      end.

(** The ports and the data in a new buffer; None when they do not fit. *)
Definition dispatch_text (f : mdp_frame) : MM (option overlay_buffer) :=
  b ← m_lift ob_new;
  '(r, b) ← m_based (overlay_mdp_encode_ports b (i32 (dst_port f)) (i32 (src_port f)));
  if negb (r =? 0) then _ ← m_based (free_buffer b); mret None
  else
    '(r, b) ← m_based (on_buffer (fun m => ob_append_bytes b m (mdp_payload f) (payload_length f)));
    if negb (r =? 0) then _ ← m_based (free_buffer b); mret None
    else mret (Some b).

(** The protected payload and the modifiers of the frame; None when it cannot be made. *)
Definition dispatch_payload (source : nat) (f : mdp_frame) : MM (option (Z * overlay_buffer)) :=
  t ← dispatch_text f;
  match t with
  | None => mret None
  | Some b =>
      let mode := Z.land (packetTypeAndFlags f) (Z.lor MDP_NOCRYPT MDP_NOSIGN) in
      if mode =? 0 then
        '(text, b, space) ← m_based (prepare_box b);
        match space with
        | None => mret None
        | Some space =>
            nonce ← m_generate_nonce crypto_box_NONCEBYTES;
            b ← m_based (seal_box keyring_get_nm_bytes f text b space nonce);
            mret ((fun b => (Z.lor PAYLOAD_FLAG_SIGNED PAYLOAD_FLAG_CIPHERED, b)) <$> b)
        end
      else if mode =? MDP_NOCRYPT then
        s ← m_based (get_sub source);
        b ← m_based (sign_payload keyring_find_sas_private (sid s) b);
        mret ((fun b => (PAYLOAD_FLAG_SIGNED, b)) <$> b)
      else if mode =? Z.lor MDP_NOSIGN MDP_NOCRYPT then mret (Some (0, b))
      else mret None
  end.

(** The frame that carries the datagram. *)
Definition dispatch_frame (source : nat) (dst : option nat) (bid : list Z) (ttl modifiers : Z) (f : mdp_frame) (b : overlay_buffer)
    : overlay_frame :=
  let q := u8 (mdp_queue f) in
  mk_frame (Some b) OF_TYPE_DATA (Some source) false dst ttl bid false None 0 None
    (if q =? 0 then OQ_ORDINARY else q) modifiers 0 0.

(** [saw] is overlay_saw_mdp_frame without a frame; [c] is None for a datagram of the daemon
    itself.  The datagram is returned as the services leave it. *)
Definition dispatch_with (saw : mdp_frame -> MM (Z * mdp_frame)) (c : option client) (f : mdp_frame) : MM (Z * mdp_frame) :=
  src ← dispatch_source f;
  match src with
  | None => mret (-1, f)
  | Some (source, f) =>
      t ← m_asks m_table;
      ok ← m_lift (overlay_mdp_check_binding (Some source) (i32 (src_port f)) c t);
      if negb (ok =? 0) then
        r ← overlay_mdp_reply_error c 8 "Source address is invalid (you must bind to a source address before you can send packets";
        mret (r, f)
      else
        all ← m_lift (is_sid_broadcast (dst_sid f));
        if (all : bool) && (Z.land (packetTypeAndFlags f) MDP_NOCRYPT =? 0) then
          r ← overlay_mdp_reply_error c 5 "Broadcast packets cannot be encrypted ";
          mret (r, f)
        else
          '(dst, bid) ← (if all : bool then
                           bid ← m_based (overlay_broadcast_generate_address random); mret (None, bid)
                         else
                           d ← m_based (find_sub (dst_sid f) SID_SIZE true);
                           mret (d, replicate BROADCAST_LEN 0) : MM (option nat * list Z));
          let ttl := u8 (mdp_ttl f) in
          if PAYLOAD_TTL_MAX <? ttl then
            r ← overlay_mdp_reply_error c 9 "TTL out of range";
            mret (r, f)
          else
            let ttl := if ttl =? 0 then PAYLOAD_TTL_DEFAULT else ttl in
            own ← (match dst with
                   | None => mret false
                   | Some d => s ← m_based (get_sub d); mret (reachable s =? REACHABLE_SELF)
                   end : MM bool);
            f ← (if bool_decide (dst = None) || own then
                   _ ← m_now;
                   '(_, f) ← saw f;
                   mret f
                 else mret f : MM mdp_frame);
            if own : bool then mret (0, f)
            else
              p ← dispatch_payload source f;
              match p with
              | None => mret (-1, f)
              | Some (modifiers, b) =>
                  _ ← queued (submit (plain_qframe (dispatch_frame source dst bid ttl modifiers f b) None 0));
                  mret (0, f)
              end
  end.
End mdp.
