(* ===== verification/MdpServices.v ===== *)
(** MdpServices: the services of the daemon that answer datagrams (overlay_mdp_services.c,
    overlay_link.c), and dispatching with them.  VoMP, the keyring, the directory and rhizome are
    services too; here a datagram for them is an event, and what they return a parameter. *)

From S2P Require Import Prelude CMem OverlayBuffer OverlayBufferCodec DataFormats Str Slip SubscriberTree OverlayAddress PacketFormats RouteLinks Route RouteWire RouteOps RouteReceive Limit TxState OverlayQueue Effects Nonce Crypto MdpBindings MdpState Mdp.

(** A socket address from its parts. *)
Definition sockaddr (family port addr : Z) : Z := addr + port * 2 ^ 32 + family * 2 ^ 48.

(** htonl and ntohl of a little-endian machine. *)
Definition swap32 (x : Z) : Z :=
  Z.lor (Z.lor (Z.shiftl (Z.land x 255) 24) (Z.shiftl (Z.land (Z.shiftr x 8) 255) 16))
        (Z.lor (Z.shiftl (Z.land (Z.shiftr x 16) 255) 8) (Z.land (Z.shiftr x 24) 255)).
Definition swap16 (x : Z) : Z := Z.lor (Z.shiftl (Z.land x 255) 8) (Z.land (Z.shiftr x 8) 255).

(** An array of a function, as [with_array], for routing code. *)
Definition r_with_array {A} (l : list Z) (k : ptr -> RM A) : RM A := fun w =>
  let blk := fresh (dom (w_mem (rw w))) in
  '(x, w) ← k (mkptr blk 0) (set_rw w (set_mem (rw w) (<[blk := l]> (w_mem (rw w)))));
  Some (x, set_rw w (set_mem (rw w) (delete blk (w_mem (rw w))))).

Definition static_buffer `{Allocator} (p : ptr) (size limit : Z) : RM overlay_buffer :=
  b ← r_lift (ob_static p size);
  mret (default b (snd (ob_limitsize (Some b) limit))).

Section services.
Context `{Allocator} `{NaCl}.
Context (gettime_ms random : nat -> Z) (char_signed : bool) (my_subscriber directory_service : option nat).
Context (olsr : bool) (probe_contents : Z -> Z -> list Z).
Context (probe_read : list Z -> Z * Z) (probe_size : Z).
Context (keyring_get_nm_bytes : list Z -> list Z -> option (list Z)).
Context (keyring_find_sas_private : list Z -> option (list Z)) (sas_public : nat -> list Z).
Context (urandombytes : nat -> option (list Z)).
Context (sendto_client : list Z -> client_result).
Context (service : Z -> mdp_frame -> Z * mdp_frame) (rhizome_mdp_server : bool).

Abbreviation carried := (Effects.carried gettime_ms my_subscriber directory_service olsr probe_contents).
Abbreviation overlay_send_probe := (OverlayQueue.overlay_send_probe gettime_ms my_subscriber directory_service olsr probe_contents).
Abbreviation address_parse := (OverlayAddress.overlay_address_parse gettime_ms my_subscriber).
Abbreviation m_now := (Mdp.m_now gettime_ms).
Abbreviation overlay_mdp_reply := (Mdp.overlay_mdp_reply sendto_client).
Abbreviation overlay_mdp_reply_error := (Mdp.overlay_mdp_reply_error sendto_client).

(** ** Link states *)

Definition mdp_link_receive (f : mdp_frame) : MM Z :=
  queued (l ← asks route_interfaces;
    carried (r_with_array (mdp_payload f) (fun p =>
      link_receive gettime_ms random char_signed my_subscriber l (fun _ => 0) (src_sid f) p (payload_length f)))).

(** ** Echo *)

Definition overlay_mdp_service_echo (dispatch : mdp_frame -> MM (Z * mdp_frame)) (f : mdp_frame) : MM (Z * mdp_frame) :=
  let f := overlay_mdp_swap_src_dst f in
  let f := set_queue_ttl f (mdp_queue f) 0 in
  if dst_port f =? MDP_PORT_ECHO then mret (-1, f)
  else
    all ← m_lift (is_sid_broadcast (src_sid f));
    f ← (if all : bool then
           match my_subscriber with
           | Some me => s ← m_based (get_sub me); mret (set_src f (sid s) (src_port f))
           | None => mret (set_src f (replicate SID_SIZE 0) (src_port f))
           end
         else mret f : MM mdp_frame);
    let preserved := packetTypeAndFlags f in
    '(_, f) ← dispatch (set_mdp_type f (Z.land preserved (Z.lnot (Z.lor MDP_NOCRYPT MDP_NOSIGN))));
    mret (0, overlay_mdp_swap_src_dst (set_mdp_type f preserved)).

(** ** Trace *)

(** The way so far: the subscriber before us if we are on it, and the last one.  Every pass
    reads at least one byte. *)
Fixpoint trace_loop (fuel : nat) (c : decode_context) (b : overlay_buffer) (next last : option nat)
    : M (option (decode_context * overlay_buffer * option nat * option nat)) :=
  rest ← lift (ob_remaining b);
  if rest <=? 0 then mret (Some (c, b, next, last))
  else match fuel with
  | O => undefined
  | S fuel =>
      '(r, c, b, t) ← address_parse c b (Some None);
      if negb (r =? 0) || invalid_addresses c then mret None
      else
        i ← lift (default None t);
        s ← get_sub i;
        let next := if (reachable s =? REACHABLE_SELF) && bool_decide (next = None) then last else next in
        trace_loop fuel c b next (Some i)
  end.

(** The source and the destination of the trace, and the way. *)
Definition trace_parse (b : overlay_buffer)
    : M (option (nat * nat * decode_context * overlay_buffer * option nat * option nat)) :=
  '(r, c, b, src) ← address_parse context_zero b (Some None);
  if negb (r =? 0) then mret None
  else
    '(r, c, b, dst) ← address_parse c b (Some None);
    if negb (r =? 0) || invalid_addresses c then mret None
    else
      src ← lift (default None src);
      dst ← lift (default None dst);
      w ← trace_loop (Z.to_nat MDP_PAYLOAD) c b None None;
      mret ((fun '(c, b, next, last) => (src, dst, c, b, next, last)) <$> w).

(** Where a trace that is not on its way back goes. *)
Definition trace_next (src dst : nat) (last : option nat) : RM (option nat) :=
  d ← base (get_sub dst);
  r ← get_route dst;
  mret (if has (reachable d) REACHABLE_DIRECT then Some dst
        else if has (reachable d) REACHABLE_INDIRECT then sub_next_hop r
        else match last with Some l => Some l | None => Some src end).

(** Whether the trace is on its way back, the next node, and the payload with our address
    appended; None for a payload that cannot be read, or without room for the address. *)
Definition trace_step (f : mdp_frame) (p : ptr) : RM (option (bool * option (nat * Z * list Z))) :=
  b ← static_buffer p MDP_PAYLOAD (payload_length f);
  t ← base (trace_parse b);
  match t with
  | None => mret None
  | Some (src, dst, c, b, next, last) =>
      s ← base (get_sub src);
      let back := (reachable s =? REACHABLE_SELF) && bool_decide (is_Some last) in
      next ← (if back then mret (Some src)
              else match next with Some n => mret (Some n) | None => trace_next src dst last end : RM (option nat));
      next ← r_lift next;
      me ← r_lift my_subscriber;
      m ← base (get_sub me);
      _ ← base (put_sub me (set_send_full m true));
      let b := default b (snd (ob_unlimitsize (Some b))) in
      '(r, _, b) ← base (overlay_address_append (Some c) b (Some me));
      if negb (r =? 0) then mret (Some (back, None))
      else
        d ← base (read_bytes p MDP_PAYLOAD);
        mret (Some (back, Some (next, ob_position b, d)))
  end.

Definition overlay_mdp_service_trace (dispatch : mdp_frame -> MM (Z * mdp_frame)) (f : mdp_frame) : MM (Z * mdp_frame) :=
  t ← queued (carried (r_with_array (mdp_payload f) (trace_step f)));
  match t with
  | None => mret (-1, f)
  | Some (back, t) =>
      let f := if back : bool then set_src (set_dst f (dst_sid f) (src_port f)) (src_sid f) MDP_PORT_TRACE else f in
      match t with
      | None => mret (-1, f)
      | Some (next, n, d) =>
          me ← m_lift my_subscriber;
          s ← m_based (get_sub me);
          x ← m_based (get_sub next);
          dispatch (set_dst (set_src (set_mdp_payload f (u16 n) d) (sid s) (src_port f)) (sid x) (dst_port f))
      end
  end.

(** ** Probes *)

Definition reachable_unicast (i interface : nat) (addr port : Z) (node : bool) : RM Z :=
  s ← base (get_sub i);
  if has (reachable s) REACHABLE || node then mret (-1)
  else
    r ← get_route i;
    _ ← put_route i (mk_sub_route (sub_link_state r) (sub_next_hop r) (Some interface)
          (sockaddr AF_INET (swap16 (u16 port)) addr) (last_probe r) (sas_valid r));
    _ ← set_reachable directory_service i REACHABLE_UNICAST;
    mret 0.

(** The answer to a probe of ours; the interface is an index of [overlay_interfaces]. *)
Definition overlay_mdp_service_probe (f : mdp_frame) : MM Z :=
  if negb (src_port f =? MDP_PORT_ECHO) || negb (payload_length f =? probe_size) then mret (-1)
  else
    peer ← m_based (find_sub (src_sid f) SID_SIZE false);
    i ← m_lift peer;
    s ← m_based (get_sub i);
    if reachable s =? REACHABLE_SELF then mret 0
    else
      probe ← m_lift (zslice (mdp_payload f) 0 probe_size);
      let '(addr, interface) := probe_read probe in
      if negb (sin_family addr =? AF_INET) then mret (-1)
      else if (interface <? 0) || (Z.of_nat TxState.OVERLAY_MAX_INTERFACES <? interface) then m_undefined
      else
        let interface := Z.to_nat interface in
        r ← m_routed (get_route i);
        if has (reachable s) REACHABLE_INDIRECT then mret 0
        else if has (reachable s) REACHABLE_DIRECT && bool_decide (is_Some (sub_interface r)) &&
                negb (bool_decide (sub_interface r = Some interface)) then mret 0
        else
          t ← m_now;
          _ ← queued (p ← get_peer i; put_peer i (mk_peer (max_packet_version p) (peer_last_tx p) t (last_stun_request p)));
          _ ← m_routed (put_route i (mk_sub_route (sub_link_state r) (sub_next_hop r) (Some interface)
                (sockaddr AF_INET (sin_port addr) (sin_addr addr)) (last_probe r) (sas_valid r)));
          _ ← m_routed (set_reachable directory_service i
                (if has (reachable s) REACHABLE_ASSUMED then REACHABLE_UNICAST
                 else Z.lor REACHABLE_UNICAST (Z.land (reachable s) REACHABLE_DIRECT)));
          mret 0.

(** ** Addresses of peers *)

(** overlay_address_parse without a context: what it would note there is undefined. *)
Definition address_parse_null (b : overlay_buffer) : M (Z * option nat * overlay_buffer) :=
  '(len, b) ← get_byte b;
  if len <? 0 then mret (-1, None, b)
  else if (len =? OA_CODE_SELF) || (len =? OA_CODE_PREVIOUS) then undefined
  else if (len <=? 0) || (Z.of_nat SID_SIZE <? len) then mret (-1, None, b)
  else
    '(id, b) ← lift (ob_get_bytes_ptr b len);
    match id with
    | None => mret (-1, None, b)
    | Some p =>
        id ← read_bytes p len;
        r ← find_sub id (Z.to_nat len) true;
        match r with
        | Some i => mret (0, Some i, b)
        | None => undefined
        end
    end.

Definition append_ui32 (b : overlay_buffer) (v : Z) : M (Z * overlay_buffer) := on_buffer (fun m => ob_append_ui32 b m v).
Definition append_ui16 (b : overlay_buffer) (v : Z) : M (Z * overlay_buffer) := on_buffer (fun m => ob_append_ui16 b m v).

Definition overlay_append_unicast_address (i : nat) (b : overlay_buffer) : RM (Z * overlay_buffer) :=
  s ← base (get_sub i);
  if has (reachable s) REACHABLE_ASSUMED || negb (has (reachable s) REACHABLE_UNICAST) then mret (0, b)
  else
    '(r, _, b) ← base (overlay_address_append None b (Some i));
    if negb (r =? 0) then mret (-1, b)
    else
      x ← get_route i;
      '(r, b) ← base (append_ui32 b (sin_addr (sub_address x)));
      if negb (r =? 0) then mret (-1, b)
      else
        '(r, b) ← base (append_ui16 b (sin_port (sub_address x)));
        if negb (r =? 0) then mret (-1, b)
        else mret (0, default b (snd (ob_checkpoint (Some b)))).

(** Every pass reads at least one byte. *)
Fixpoint stun_req_loop (fuel : nat) (b reply : overlay_buffer) : RM overlay_buffer :=
  rest ← r_lift (ob_remaining b);
  if rest <=? 0 then mret reply
  else match fuel with
  | O => r_undefined
  | S fuel =>
      '(r, i, b) ← base (address_parse_null b);
      if negb (r =? 0) then mret reply
      else match i with
      | None => stun_req_loop fuel b reply
      | Some i =>
          '(r, reply) ← overlay_append_unicast_address i reply;
          if negb (r =? 0) then mret reply else stun_req_loop fuel b reply
      end
  end.

Definition overlay_mdp_service_stun_req (dispatch : mdp_frame -> MM (Z * mdp_frame)) (f : mdp_frame) : MM Z :=
  '(n, d) ← m_routed (
     r_with_array (mdp_payload f) (fun p =>
     r_with_array (mdp_payload zero_mdp) (fun q =>
       b ← static_buffer p (payload_length f) (payload_length f);
       reply ← r_lift (ob_static q MDP_PAYLOAD);
       let reply := default reply (snd (ob_checkpoint (Some reply))) in
       reply ← stun_req_loop (Z.to_nat (payload_length f)) b reply;
       let reply := default reply (snd (ob_rewind (Some reply))) in
       d ← base (read_bytes q MDP_PAYLOAD);
       mret (ob_position reply, d))));
  _ ← (if negb (n =? 0) then
         _ ← dispatch (mk_mdp MDP_TX (dst_sid f) MDP_PORT_STUNREQ (src_sid f) MDP_PORT_STUN (u16 n) OQ_MESH_MANAGEMENT 0 d);
         mret tt
       else mret tt);
  mret 0.

(** The addresses to probe.  Every pass reads at least one byte. *)
Fixpoint stun_loop (fuel : nat) (b : overlay_buffer) : QM unit :=
  rest ← q_lift (ob_remaining b);
  if rest <=? 0 then mret tt
  else match fuel with
  | O => q_undefined
  | S fuel =>
      '(r, i, b) ← based (address_parse_null b);
      if negb (r =? 0) then mret tt
      else
        '(a, b) ← based (get_ui32 b);
        '(port, b) ← based ((fun w => r ← ob_get_ui16 b (w_mem w); Some (r, w)) : M (Z * overlay_buffer));
        _ ← (match i with
             | None => mret tt
             | Some i =>
                 s ← based (get_sub i);
                 if negb (reachable s =? REACHABLE_NONE) then mret tt
                 else _ ← overlay_send_probe (Some i) (sockaddr AF_INET port a) None OQ_MESH_MANAGEMENT; mret tt
             end);
        stun_loop fuel b
  end.

Definition overlay_mdp_service_stun (f : mdp_frame) : MM Z :=
  queued (fun w =>
    let m := w_mem (rw (q_route w)) in
    let blk := fresh (dom m) in
    let on_mem g w := set_route w (set_rw (q_route w) (set_mem (rw (q_route w)) (g (w_mem (rw (q_route w)))))) in
    '(_, w) ← (b ← routed (static_buffer (mkptr blk 0) (payload_length f) (payload_length f));
               stun_loop (Z.to_nat (payload_length f)) b : QM unit) (on_mem (insert blk (mdp_payload f)) w);
    Some (0, on_mem (delete blk) w)).

Definition overlay_send_stun_request (dispatch : mdp_frame -> MM (Z * mdp_frame)) (server request : option nat) : MM Z :=
  match server, request with
  | Some srv, Some req =>
      r ← queued (OverlayQueue.is_reachable (Some srv));
      if negb (has r REACHABLE) then mret (-1)
      else
        r ← queued (OverlayQueue.is_reachable (Some req));
        if has r REACHABLE_DIRECT then mret (-1)
        else
          t ← m_now;
          p ← queued (get_peer req);
          if t <? last_stun_request p + 1000 then mret (-1)
          else
            _ ← queued (put_peer req (mk_peer (max_packet_version p) (peer_last_tx p) (last_probe_response p) t));
            me ← m_lift my_subscriber;
            m ← m_based (get_sub me);
            s ← m_based (get_sub srv);
            '(n, d) ← m_routed (r_with_array (mdp_payload zero_mdp) (fun q =>
               b ← r_lift (ob_static q MDP_PAYLOAD);
               '(_, _, b) ← base (overlay_address_append None b (Some req));
               d ← base (read_bytes q MDP_PAYLOAD);
               mret (ob_position b, d)));
            _ ← dispatch (mk_mdp MDP_TX (sid m) MDP_PORT_STUN (sid s) MDP_PORT_STUNREQ (u16 n) OQ_MESH_MANAGEMENT 0 d);
            mret 0
  | _, _ => mret (-1)
  end.

(** ** The services by port *)

Definition keep_frame (f : mdp_frame) (m : MM Z) : MM (Z * mdp_frame) := r ← m; mret (r, f).
Definition other_service (f : mdp_frame) : MM (Z * mdp_frame) := _ ← tell (Served (dst_port f) f); mret (service (dst_port f) f).

Definition overlay_mdp_try_interal_services (dispatch : mdp_frame -> MM (Z * mdp_frame)) (f : mdp_frame) : MM (Z * mdp_frame) :=
  let port := dst_port f in
  if port =? MDP_PORT_LINKSTATE then keep_frame f (mdp_link_receive f)
  else if port =? MDP_PORT_VOMP then other_service f
  else if port =? MDP_PORT_KEYMAPREQUEST then other_service f
  else if port =? MDP_PORT_DNALOOKUP then other_service f
  else if port =? MDP_PORT_ECHO then overlay_mdp_service_echo dispatch f
  else if port =? MDP_PORT_TRACE then overlay_mdp_service_trace dispatch f
  else if port =? MDP_PORT_PROBE then keep_frame f (overlay_mdp_service_probe f)
  else if port =? MDP_PORT_STUNREQ then keep_frame f (overlay_mdp_service_stun_req dispatch f)
  else if port =? MDP_PORT_STUN then keep_frame f (overlay_mdp_service_stun f)
  else if port =? MDP_PORT_RHIZOME_REQUEST then
    if rhizome_mdp_server then other_service f else mret (-1, f)
  else if port =? MDP_PORT_RHIZOME_RESPONSE then other_service f
  else if port =? MDP_PORT_RHIZOME_MANIFEST_REQUEST then other_service f
  else if port =? MDP_PORT_RHIZOME_SYNC then other_service f
  else mret (-1, f).

Abbreviation dispatch_once := (Mdp.dispatch_with gettime_ms random my_subscriber directory_service olsr probe_contents
  keyring_get_nm_bytes keyring_find_sas_private urandombytes sendto_client).
Abbreviation saw_once := (Mdp.saw_mdp_frame_with sendto_client).

(** A datagram to ourselves may be answered, and the answer too; [fuel] bounds how often, and
    [stuck] is what would happen after that. *)
Fixpoint dispatch_fuel (stuck : mdp_frame -> MM (Z * mdp_frame)) (fuel : nat) (c : option client) (f : mdp_frame)
    : MM (Z * mdp_frame) :=
  match fuel with
  | O => stuck f
  | S fuel => dispatch_once (saw_once (overlay_mdp_try_interal_services (dispatch_fuel stuck fuel None)) None) c f
  end.
End services.
