(* ===== verification/MdpClients.v ===== *)
(** MdpClients: overlay_mdp.c, datagrams that arrive in frames, and the requests of
    clients (overlay_mdp_poll): ports, datagrams, lists of addresses and routes, and scans
    for neighbours. *)

From S2P Require Import Prelude CMem OverlayBuffer OverlayBufferCodec DataFormats Str Slip SubscriberTree OverlayAddress PacketFormats RouteLinks Route RouteWire RouteOps RouteReceive Limit TxState OverlayQueue Effects Nonce Crypto MdpBindings MdpState Mdp MdpServices.

(** Every answer of the daemon to itself is a trace, which makes the payload longer, or comes
    after one; the payload has at most 1100 bytes. *)
Definition DISPATCH_FUEL : nat := 2206.

(** What a client asks for; the members of the union that a request has. *)
Inductive mdp_request :=
| MdpGoodbye
| MdpRoutingTable
| MdpGetaddrs (l : addrlist)
| MdpTx (f : mdp_frame)
| MdpBind (sid : list Z) (port flags : Z)
| MdpScan (addr : Z)
| MdpIllegal.

(** ** Lists of addresses *)

Definition listed (mode : Z) (s : subscriber) : bool :=
  negb ((mode =? MDP_ADDRLIST_MODE_SELF) && negb (reachable s =? REACHABLE_SELF)) &&
  negb ((mode =? MDP_ADDRLIST_MODE_ROUTABLE_PEERS) && negb (has (reachable s) REACHABLE)) &&
  negb ((mode =? MDP_ADDRLIST_MODE_ALL_PEERS) && (reachable s =? REACHABLE_SELF)).

Definition search_subscribers (s : subscriber) (l : addrlist) : addrlist :=
  if negb (listed (al_mode l) s) then l
  else
    let take := (first_sid l <=? server_sid_count l) && (frame_sid_count l <? MDP_MAX_SID_REQUEST) in
    mk_addrlist (al_mode l) (u32 (server_sid_count l + 1)) (first_sid l) (last_sid l)
      (if take then frame_sid_count l + 1 else frame_sid_count l)
      (if take then al_sids l ++ [sid s] else al_sids l).

(** The reply; its other fields are zero before. *)
Definition overlay_mdp_address_list (d : directory) (request : addrlist) : option addrlist :=
  '(_, l) ← walk_tree (fun i l => s ← subscribers d !! i; Some (false, search_subscribers s l))
              TREE_DEPTH (root d) 0 None SID_SIZE None 0
              (mk_addrlist (al_mode request) 0 (first_sid request) 0 0 []);
  Some (mk_addrlist (al_mode l) (server_sid_count l) (first_sid l) (u32 (first_sid l + frame_sid_count l - 1))
          (frame_sid_count l) (al_sids l)).

Section clients.
Context `{Allocator} `{NaCl}.
Context (gettime_ms random : nat -> Z) (char_signed : bool) (my_subscriber directory_service : option nat).
Context (olsr : bool) (probe_contents : Z -> Z -> list Z).
Context (probe_read : list Z -> Z * Z) (probe_size : Z).
Context (keyring_get_nm_bytes : list Z -> list Z -> option (list Z)).
Context (keyring_find_sas_private : list Z -> option (list Z)) (sas_public : nat -> list Z).
Context (urandombytes : nat -> option (list Z)).
Context (sendto_client : list Z -> client_result).
Context (service : Z -> mdp_frame -> Z * mdp_frame) (rhizome_mdp_server : bool).

Abbreviation overlay_send_probe := (OverlayQueue.overlay_send_probe gettime_ms my_subscriber directory_service olsr probe_contents).
Abbreviation m_now := (Mdp.m_now gettime_ms).
Abbreviation overlay_mdp_reply := (Mdp.overlay_mdp_reply sendto_client).
Abbreviation overlay_mdp_reply_error := (Mdp.overlay_mdp_reply_error sendto_client).
Abbreviation dispatch_fuel := (MdpServices.dispatch_fuel gettime_ms random char_signed my_subscriber directory_service olsr
  probe_contents probe_read probe_size keyring_get_nm_bytes keyring_find_sas_private urandombytes sendto_client service
  rhizome_mdp_server).
Abbreviation try_services := (MdpServices.overlay_mdp_try_interal_services gettime_ms random char_signed my_subscriber
  directory_service olsr probe_contents probe_read probe_size service rhizome_mdp_server).

Definition overlay_mdp_dispatch (c : option client) (f : mdp_frame) : MM (Z * mdp_frame) :=
  dispatch_fuel (fun _ => m_undefined) DISPATCH_FUEL c f.

Definition overlay_saw_mdp_frame (frame : option overlay_frame) (f : mdp_frame) : MM (Z * mdp_frame) :=
  saw_mdp_frame_with sendto_client (try_services (overlay_mdp_dispatch None)) frame f.

(** ** Datagrams in frames *)

Definition overlay_saw_mdp_containing_frame (fr : overlay_frame) : MM Z :=
  dst ← (match destination fr with
         | Some d => s ← m_based (get_sub d); mret (sid s)
         | None => mret (replicate SID_SIZE 0xFF)
         end : MM (list Z));
  src ← m_lift (source fr);
  s ← m_based (get_sub src);
  r ← m_routed (get_route src);
  let f := mk_mdp 0 (sid s) 0 dst 0 0 (queue fr) (ttl fr) (mdp_payload zero_mdp) in
  _ ← (if (Z.land (modifiers fr) (Z.lor PAYLOAD_FLAG_CIPHERED PAYLOAD_FLAG_SIGNED) =? PAYLOAD_FLAG_SIGNED) && negb (sas_valid r)
       then tell (SasRequested src) else mret tt);
  '(x, _, f) ← m_based (overlay_mdp_decrypt keyring_get_nm_bytes sas_public (sas_valid r) fr f);
  if negb (x =? 0) then mret (-1)
  else '(x, _) ← overlay_saw_mdp_frame (Some fr) f; mret x.

(** ** Routes *)

Definition routing_record (w : rworld) (i : nat) (s : subscriber) : option route_record :=
  let r := sub_of w i in
  hop ← (if reachable s =? REACHABLE_INDIRECT
         then match sub_next_hop r with
              | Some n => x ← subs_of w !! n; Some (Some (sid x))
              | None => Some None
              end
         else Some None);
  Some (mk_route_record (sid s) (reachable s)
          (if has (reachable s) REACHABLE_DIRECT then sub_interface r else None) hop).

Definition routing_table (c : client) (i : nat) (w : mworld) : option (bool * mworld) :=
  s ← subs_of (q_route (m_q w)) !! i;
  r ← routing_record (q_route (m_q w)) i s;
  '(_, w) ← overlay_mdp_reply (Some c) (MdpRoute r) w;
  Some (false, w).

Definition send_routing_table (c : client) : MM unit := fun w =>
  '(_, w) ← walk_tree (routing_table c) TREE_DEPTH (root (w_dir (rw (q_route (m_q w))))) 0 None SID_SIZE None 0 w;
  Some (tt, w).

(** ** Scans *)

Definition put_scan (i : nat) (s : scan_state) : MM unit := m_modify (fun w => set_m_scans w (<[i := s]> (m_scans w))).

(** The probes of one alarm; false when one could not be sent.  There are at most 26 addresses,
    and a few more when the last one wraps around to 0.0.0.0. *)
Fixpoint scan_loop (fuel i : nat) (stop current : Z) : MM Z :=
  if stop <? current then mret current
  else match fuel with
  | O => m_undefined
  | S fuel =>
      x ← queued (get_interface i);
      r ← (if negb (swap32 current =? sin_addr (ti_address x))
           then queued (overlay_send_probe None (sockaddr AF_INET (swap16 PORT_DNA) (swap32 current)) (Some i) OQ_ORDINARY)
           else mret 0 : MM Z);
      if negb (r =? 0) then mret current else scan_loop fuel i stop (u32 (current + 1))
  end.

Definition overlay_mdp_scan (i : nat) : MM unit :=
  scans ← m_asks m_scans;
  s ← m_lift (scans !! i);
  interface ← m_lift (scan_interface s);
  let stop := if 25 <? u32 (scan_last s - scan_current s) then u32 (scan_current s + 25) else scan_last s in
  current ← scan_loop 200 interface stop (scan_current s);
  if current <=? scan_last s then
    _ ← put_scan i (mk_scan (scan_interface s) current (scan_last s));
    t ← m_now;
    tell (ScanScheduled i (t + 500))
  else put_scan i zero_scan.

(** Begins a scan of the network of every interface that is up and not being scanned. *)
Fixpoint scan_all (l : list nat) (start : Z) : MM unit :=
  match l with
  | [] => mret tt
  | i :: l =>
      scans ← m_asks m_scans;
      s ← m_lift (scans !! i);
      match scan_interface s with
      | Some _ => scan_all l start
      | None =>
          x ← queued (get_interface i);
          if negb (is_up x) then scan_all l start
          else
            let current := u32 (swap32 (Z.land (sin_addr (ti_address x)) (netmask x)) + 1) in
            let last := u32 (swap32 (sin_addr (broadcast_address (ti_route x))) - 1) in
            _ ← put_scan i (mk_scan (Some i) current last);
            if 0x10000 <? u32 (last - current) then scan_all l start
            else
              _ ← tell (ScanScheduled i start);
              scan_all l (start + 100)
      end
  end.

Definition start_scan (c : client) (addr : Z) : MM unit :=
  start ← m_now;
  if addr =? 0 then
    _ ← scan_all all_interfaces start;
    _ ← overlay_mdp_reply_error (Some c) 0 "Scan initiated";
    mret tt
  else
    i ← queued (overlay_interface_find addr true);
    match i with
    | None => _ ← overlay_mdp_reply_error (Some c) 1 "Unable to find matching interface"; mret tt
    | Some i =>
        scans ← m_asks m_scans;
        s ← m_lift (scans !! i);
        _ ← (match scan_interface s with
             | Some _ => mret tt
             | None =>
                 _ ← put_scan i (mk_scan (Some i) (swap32 addr) (swap32 addr));
                 tell (ScanScheduled i start)
             end);
        _ ← overlay_mdp_reply_error (Some c) 0 "Scan initiated";
        mret tt
    end.

(** ** Requests *)

(** The identity a client binds to; the inner None is any. *)
Definition bind_subscriber (sid : list Z) : MM (option (option nat)) :=
  any ← m_lift (is_sid_any sid);
  if any : bool then mret (Some None)
  else
    r ← m_based (find_sub sid SID_SIZE false);
    match r with
    | None => mret None
    | Some i => s ← m_based (get_sub i); mret (if reachable s =? REACHABLE_SELF then Some (Some i) else None)
    end.

(** random() is called when no slot is free, the clock read when one is written. *)
Definition process_bind (s : option nat) (port flags : Z) (c : client) : MM Z :=
  t ← m_asks (fun w => initialise_bindings (m_table w));
  '(rnd, now) ← (match (if 0 <? port then search_binding s port flags c (mdp_bindings t) 0 None else None) with
                 | Some (Slot free) =>
                     rnd ← (match free with None => m_based (random_int random) | Some _ => mret 0 end : MM Z);
                     now ← m_now;
                     mret (rnd, now)
                 | _ => mret (0, 0)
                 end : MM (Z * Z));
  on_table (overlay_mdp_process_bind_request rnd now s port flags c).

Definition overlay_mdp_poll (c : client) (q : mdp_request) : MM unit :=
  match q with
  | MdpGoodbye => on_table (fun t => t ← overlay_mdp_releasebindings c t; Some (tt, t))
  | MdpRoutingTable => send_routing_table c
  | MdpGetaddrs l =>
      d ← m_asks (fun w => w_dir (rw (q_route (m_q w))));
      r ← m_lift (overlay_mdp_address_list d l);
      _ ← overlay_mdp_reply (Some c) (MdpAddrlist r);
      mret tt
  | MdpTx f =>
      let f := if mdp_queue f <=? OQ_MESH_MANAGEMENT then set_queue_ttl f OQ_ORDINARY (mdp_ttl f) else f in
      _ ← overlay_mdp_dispatch (Some c) f;
      mret tt
  | MdpBind sid port flags =>
      s ← bind_subscriber sid;
      match s with
      | None =>
          _ ← overlay_mdp_reply_error (Some c) 7 "Bind address is not valid (must be a local MDP address, or all zeroes).";
          mret tt
      | Some s =>
          r ← process_bind s (i32 port) flags c;
          _ ← (if negb (r =? 0) then overlay_mdp_reply_error (Some c) 3 "Port already in use"
               else overlay_mdp_reply_error (Some c) 0 "Port bound");
          mret tt
      end
  | MdpScan addr => start_scan c addr
  | MdpIllegal =>
      _ ← overlay_mdp_reply_error (Some c) 2 "Illegal request type.  Clients may use only MDP_TX or MDP_BIND.";
      mret tt
  end.
End clients.
