(* ===== verification/Receive.v ===== *)
(** Receive: overlay_packetformats.c, the whole way of a received packet, with op_dup of
    overlay_payload.c.

    The header of the packet tells routing who was heard ([parseEnvelopeHeader]); then the
    frames in it are parsed ([PacketFormats]), forwarded through the transmit queues and
    handed to their services ([process_incoming_frame]). *)

From S2P Require Import Prelude CMem OverlayBuffer OverlayBufferCodec DataFormats Str Slip SubscriberTree OverlayAddress PacketFormats RouteLinks Route RouteWire RouteOps RouteReceive Limit TxState OverlayQueue Effects Nonce Crypto MdpBindings MdpState Mdp MdpServices MdpClients.

Definition OF_TYPE_DATA_VOICE : Z := 0x40.
Definition OF_TYPE_RHIZOME_ADVERT : Z := 0x50.

(** A copy of a frame, with a payload of its own. *)
Definition op_dup `{Allocator} (f : qframe) : QM qframe :=
  match payload (q_frame f) with
  | None => mret f
  | Some b =>
      b ← based ((fun w => '(b, m) ← ob_dup b (w_mem w); Some (b, set_mem w m)) : M overlay_buffer);
      mret (set_q_frame f (set_payload (q_frame f) (Some b)))
  end.

(** Fields of the context. *)
Definition set_envelope (c : decode_context) (version encap : Z) : decode_context :=
  mk_context (interface c) (sender_interface c) version encap (addr c) (invalid_addresses c) (please_explain c) (sender c) (previous c).
Definition set_c_sender (c : decode_context) (s : option nat) : decode_context :=
  mk_context (interface c) (sender_interface c) (packet_version c) (encapsulation c) (addr c) (invalid_addresses c) (please_explain c) s (previous c).
Definition set_c_interface (c : decode_context) (i : option Z) (si : Z) : decode_context :=
  mk_context i si (packet_version c) (encapsulation c) (addr c) (invalid_addresses c) (please_explain c) (sender c) (previous c).
Definition set_c_addr (c : decode_context) (a : Z) : decode_context :=
  mk_context (interface c) (sender_interface c) (packet_version c) (encapsulation c) a (invalid_addresses c) (please_explain c) (sender c) (previous c).
Definition clear_invalid (c : decode_context) : decode_context :=
  mk_context (interface c) (sender_interface c) (packet_version c) (encapsulation c) (addr c) false (please_explain c) (sender c) (previous c).

Section receive.
Context `{Allocator} `{NaCl}.
Context (gettime_ms random : nat -> Z) (char_signed : bool) (my_subscriber directory_service : option nat).
Context (olsr : bool) (probe_contents : Z -> Z -> list Z).
Context (probe_read : list Z -> Z * Z) (probe_size : Z).
Context (keyring_get_nm_bytes : list Z -> list Z -> option (list Z)).
Context (keyring_find_sas_private : list Z -> option (list Z)) (sas_public : nat -> list Z).
Context (urandombytes : nat -> option (list Z)).
Context (sendto_client : list Z -> client_result).
Context (service : Z -> mdp_frame -> Z * mdp_frame) (rhizome_mdp_server : bool).

Abbreviation carried := (Effects.carried gettime_ms my_subscriber directory_service olsr probe_contents).
Abbreviation submit := (OverlayQueue.submit gettime_ms my_subscriber directory_service olsr probe_contents).
Abbreviation overlay_send_probe := (OverlayQueue.overlay_send_probe gettime_ms my_subscriber directory_service olsr probe_contents).
Abbreviation q_now := (TxState.q_now gettime_ms).
Abbreviation saw_containing_frame := (MdpClients.overlay_saw_mdp_containing_frame gettime_ms random char_signed my_subscriber
  directory_service olsr probe_contents probe_read probe_size keyring_get_nm_bytes keyring_find_sas_private sas_public
  urandombytes sendto_client service rhizome_mdp_server).

(** ** Frames *)

Definition process_incoming_frame (t_now : Z) (f : overlay_frame) : MM Z :=
  let type := f_type f in
  _ ← (if type =? OF_TYPE_SELFANNOUNCE_ACK then
         src ← m_lift (source f);
         b ← m_lift (payload f);
         _ ← queued (l ← asks route_interfaces; carried (link_state_legacy_ack char_signed my_subscriber l src b t_now));
         mret tt
       else if type =? OF_TYPE_RHIZOME_ADVERT then tell (Advertised f)
       else if (type =? OF_TYPE_DATA) || (type =? OF_TYPE_DATA_VOICE) then _ ← saw_containing_frame f; mret tt
       else if type =? OF_TYPE_PLEASEEXPLAIN then
         b ← m_lift (payload f);
         _ ← queued (carried (base (process_explain gettime_ms random my_subscriber (fun _ => 0) (source f) (destination f) b)));
         mret tt
       else mret tt);
  mret 0.

Definition overlay_forward_payload (f : overlay_frame) : QM Z :=
  if ttl f =? 0 then mret 0
  else qf ← op_dup (plain_qframe f None 0); submit qf.

(** ** The packet *)

(** What is known of a node that is heard and has no route. *)
Definition assume_reachable (i interface : nat) (address : option Z) (unicast : bool) : QM unit :=
  s ← based (get_sub i);
  if reachable s =? REACHABLE_NONE then
    _ ← routed (r ← get_route i;
                put_route i (mk_sub_route (sub_link_state r) (sub_next_hop r) (Some interface) (default 0 address) 0 (sas_valid r)));
    _ ← routed (set_reachable directory_service i
                  (Z.lor (if unicast then REACHABLE_UNICAST else REACHABLE_BROADCAST) REACHABLE_ASSUMED));
    mret tt
  else mret tt.

(** The packet is from a node we know; true when it is our own. *)
Definition heard_sender (t_now : Z) (i interface : nat) (address : option Z) (packet_flags : Z) (seq : Z) (c : decode_context)
    : QM bool :=
  s ← based (get_sub i);
  if reachable s =? REACHABLE_SELF then mret true
  else
    p ← get_peer i;
    _ ← (if max_packet_version p <? packet_version c
         then put_peer i (mk_peer (packet_version c) (peer_last_tx p) (last_probe_response p) (last_stun_request p)) else mret tt);
    _ ← assume_reachable i interface address (has packet_flags PACKET_UNICAST);
    r ← routed (get_route i);
    x ← get_interface interface;
    _ ← (match address with
         | Some a =>
             if (last_probe r =? 0) || (u32 (tick_ms (ti_route x) * 10) <? t_now - last_probe r)
             then _ ← overlay_send_probe (Some i) a (Some interface) OQ_MESH_MANAGEMENT; mret tt
             else mret tt
         | None => mret tt
         end);
    l ← asks route_interfaces;
    _ ← carried (link_received_packet gettime_ms char_signed my_subscriber l (fun _ => 0) i interface (sender_interface c) seq
                   (Z.land packet_flags PACKET_UNICAST));
    mret false.

(** The result, the context and the buffer. *)
Definition parseEnvelopeHeader (c : decode_context) (interface : nat) (address : option Z) (b : overlay_buffer)
    : QM (Z * decode_context * overlay_buffer) :=
  t_now ← q_now;
  '(version, b) ← based (get_byte b);
  let c := set_envelope c version (encapsulation c) in
  if (version <? 0) || (SUPPORTED_PACKET_VERSION <? version) then mret (-1, c, b)
  else
    '(encap, b) ← based (get_byte b);
    let c := set_envelope c version encap in
    if negb (encap =? ENCAP_OVERLAY) && negb (encap =? ENCAP_SINGLE) then mret (-1, c, b)
    else
      '(r, c, b, s) ← carried (base (overlay_address_parse gettime_ms my_subscriber c b (Some (sender c))));
      let c := set_c_sender c (default None s) in
      if negb (r =? 0) then mret (-1, c, b)
      else
        '(packet_flags, b) ← based (get_byte b);
        '(si, b) ← (if has packet_flags PACKET_INTERFACE then based (get_byte b) else mret (0, b) : QM (Z * overlay_buffer));
        let c := set_c_interface c (Some (Z.of_nat interface)) si in
        '(seq, b) ← (if has packet_flags PACKET_SEQ then '(x, b) ← based (get_byte b); mret (Z.land x 0xFF, b)
                     else mret (-1, b) : QM (Z * overlay_buffer));
        own ← (match sender c with
               | Some i => heard_sender t_now i interface address packet_flags seq c
               | None =>
                   _ ← (match address with
                        | Some a => _ ← overlay_send_probe None a (Some interface) OQ_MESH_MANAGEMENT; mret tt
                        | None => mret tt
                        end);
                   mret false
               end : QM bool);
        if own : bool then mret (1, c, b)
        else
          x ← get_interface interface;
          mret (0, match address with
                   | Some a => set_c_addr c (if has packet_flags PACKET_UNICAST then a else broadcast_address (ti_route x))
                   | None => c
                   end, b).

(** The header of a frame, with what routing says of it.  The sequence number, which is the last
    byte of the header, is then noted as received. *)
Definition relays (r : rworld) (s : option nat) : bool :=
  match s with
  | None => true
  | Some i => match link_state_should_forward_broadcast gettime_ms i r with Some (x, _) => negb (x =? 0) | None => true end
  end.

Definition duplicate (r : rworld) (s : option nat) (seq : Z) : bool :=
  match s with
  | None => false
  | Some i => match RouteReceive.link_received_duplicate i seq r with Some (x, _) => negb (x =? 0) | None => false end
  end.

Definition note_sequence (h : header) : QM unit :=
  let flags := modifiers (h_frame h) in
  if (1 <=? packet_version (h_context h)) && (has flags PAYLOAD_FLAG_ONE_HOP || negb (has flags PAYLOAD_FLAG_TO_BROADCAST)) then
    match sender (h_context h) with
    | None => mret tt
    | Some i =>
        p ← q_lift (bytes (h_buffer h));
        seq ← based ((fun w => x ← load (w_mem w) p (position (h_buffer h) - 1); Some (x, w)) : M Z);
        _ ← routed (RouteReceive.link_received_duplicate i seq);
        mret tt
    end
  else mret tt.

Definition parse_frame_header (c : decode_context) (f : overlay_frame) (b : overlay_buffer) : QM (Z * header) :=
  r ← asks q_route;
  '(x, h) ← carried (base (parseMdpPacketHeader gettime_ms my_subscriber (relays r) (fun s _ _ seq => duplicate r s seq) c f b None));
  _ ← (if 0 <=? x then note_sequence h else mret tt);
  mret (x, h).

(** The length of the payload; None when the packet is too short for it. *)
Definition payload_size (c : decode_context) (b : overlay_buffer) : QM (option Z * overlay_buffer) :=
  if encapsulation c =? ENCAP_SINGLE then n ← q_lift (ob_remaining b); mret (Some (u32 n), b)
  else
    '(n, b) ← based ((fun w => r ← ob_get_ui16 b (w_mem w); Some (r, w)) : M (Z * overlay_buffer));
    rest ← q_lift (ob_remaining b);
    mret (if u32 rest <? n then None else Some n, b).

(** Forwards and processes a frame whose payload was found. *)
Definition handle_frame (t_now : Z) (valid : Z) (c : decode_context) (f : overlay_frame) : MM unit :=
  _ ← (if has valid HEADER_FORWARD then _ ← queued (overlay_forward_payload f); mret tt else mret tt);
  _ ← (if has valid HEADER_PROCESS then _ ← process_incoming_frame t_now f; mret tt else mret tt);
  if bool_decide (next_hop f = my_subscriber) || bool_decide (destination f = my_subscriber) then
    match sender c with
    | Some i => _ ← m_routed (link_state_ack_soon gettime_ms i); mret tt
    | None => mret tt
    end
  else mret tt.

(** The loop over the frames.  Every pass reads at least the flags of a frame, so there are at
    most as many as the packet has bytes; [stuck] is what would happen after [fuel] passes. *)
Fixpoint frames_loop (stuck : MM (Z * decode_context)) (fuel : nat) (t_now : Z) (c : decode_context) (f : overlay_frame) (b : overlay_buffer)
    : MM (Z * decode_context) :=
  rest ← m_lift (ob_remaining b);
  if rest <=? 0 then mret (0, c)
  else match fuel with
  | O => stuck
  | S fuel =>
      '(valid, h) ← queued (parse_frame_header (clear_invalid c) (set_broadcast_id f (replicate BROADCAST_LEN 0)) b);
      let c := h_context h in
      let f := h_frame h in
      if valid <? 0 then mret (-1, c)
      else
        '(len, b) ← queued (payload_size c (h_buffer h));
        match len with
        | None => mret (-1, c)
        | Some len =>
            next ← m_lift (ci (ob_position b + len));
            slice ← (if negb (valid =? 0) then
                       s ← m_lift (ob_slice b (position b) len);
                       match s with
                       | None => mret (Some None)
                       | Some s => mret (Some (Some (default s (snd (ob_limitsize (Some s) len)))))
                       end
                     else mret None : MM (option (option overlay_buffer)));
            match slice with
            | Some None => mret (0, c)
            | Some (Some s) =>
                _ ← handle_frame t_now valid c (set_payload f (Some s));
                frames_loop stuck fuel t_now c f (set_position b next)
            | None => frames_loop stuck fuel t_now c f (set_position b next)
            end
        end
  end.

(** [p] is the packet in memory, [address] where it came from. *)
Definition packet_ok_with (stuck : MM (Z * decode_context)) (interface : nat) (p : ptr) (len : Z) (address : option Z) : MM Z :=
  if match address with Some a => negb (sin_family a =? AF_INET) | None => false end then mret (-1)
  else
    t_now ← queued q_now;
    b ← m_lift (ob_static p len);
    let b := default b (snd (ob_limitsize (Some b) len)) in
    let f := mk_frame None 0 None false None 0 (replicate BROADCAST_LEN 0) false None (default 0 address)
               (Some (Z.of_nat interface)) 0 0 0 0 in
    let c := set_c_interface context_zero (Some (Z.of_nat interface)) 0 in
    '(ret, c, b) ← queued (parseEnvelopeHeader c interface address b);
    if negb (ret =? 0) then mret ret
    else
      '(ret, c) ← frames_loop stuck (Z.to_nat len) t_now c f b;
      _ ← queued (carried (base (send_please_explain random my_subscriber (fun _ => 0) c my_subscriber (sender c))));
      mret ret.

Definition packetOkOverlay : nat -> ptr -> Z -> option Z -> MM Z := packet_ok_with m_undefined.
End receive.
