(* ===== verification/SystemInv.v ===== *)
(** SystemInv: the invariant of the daemon.

    Received packets, requests of clients, alarms and acknowledgements, in any order, keep
    the transmit queues well-formed ([QueueInv]) and the table of ports a map
    ([MdpBindings]). *)

From S2P Require Import Prelude CMem OverlayBuffer OverlayBufferCodec DataFormats Str Slip SubscriberTree OverlayAddress PacketFormats PacketSafety RouteLinks Route RouteWire RouteOps RouteReceive Limit TxState OverlayQueue QueueInv QueueProps Effects Nonce Crypto MdpBindings MdpState Mdp MdpServices MdpClients Receive.

(** ** The queues *)

Definition queues_ok (w : qworld) : Prop := exists Ls, queues_wf [] Ls w.
Definition QSafe {A} (m : QM A) : Prop := forall w x w', queues_ok w -> m w = Some (x, w') -> queues_ok w'.

Create HintDb safe.

Lemma keeps_safe {A} (m : QM A) : Keeps m -> QSafe m.
Proof. intros K w x w' [Ls W] E. exists Ls. by eapply kept_wf; [eapply K|]. Qed.

Lemma grows_safe {A} (m : QM A) : Grows m -> QSafe m.
Proof. intros G w x w' [Ls W] E. destruct (G _ _ _ _ _ W E) as (Ls' & []). by exists Ls'. Qed.

Lemma qsafe_bind {A B} (m : QM A) (f : A -> QM B) : QSafe m -> (forall x, QSafe (f x)) -> QSafe (m ≫= f).
Proof. intros Hm Hf w y w' W E. apply qbind_inv in E as (x & w1 & E1 & E). by eapply Hf; [eapply Hm|]. Qed.

Ltac qsafe_step :=
  match goal with
  | |- QSafe (_ ≫= _) => apply qsafe_bind; [|intros ?]
  | |- QSafe (if ?b then _ else _) => destruct b
  | |- QSafe (match ?x with _ => _ end) => destruct x
  | _ => solve [eauto with safe | apply keeps_safe; keeps]
  end.
Ltac qsafe := repeat qsafe_step.

(** ** The daemon *)

Record daemon_ok (w : mworld) : Prop := {
  do_queues : queues_ok (m_q w);
  do_table : exists m, table_repr (m_table w) m
}.

Definition MSafe {A} (m : MM A) : Prop := forall w x w', daemon_ok w -> m w = Some (x, w') -> daemon_ok w'.

Lemma mbind_inv {A B} (m : MM A) (f : A -> MM B) w y w' :
  (m ≫= f) w = Some (y, w') -> exists x w1, m w = Some (x, w1) /\ f x w1 = Some (y, w').
Proof. unfold mbind, MM_bind. destruct (m w) as [[x w1]|]; [eauto|done]. Qed.

Lemma msafe_bind {A B} (m : MM A) (f : A -> MM B) : MSafe m -> (forall x, MSafe (f x)) -> MSafe (m ≫= f).
Proof. intros Hm Hf w y w' W E. apply mbind_inv in E as (x & w1 & E1 & E). by eapply Hf; [eapply Hm|]. Qed.

Lemma msafe_ret {A} (x : A) : MSafe (mret x).
Proof. by intros w y w' W [= _ <-]. Qed.
Lemma msafe_undefined {A} : MSafe (m_undefined (A := A)).
Proof. done. Qed.
Lemma msafe_lift {A} (o : option A) : MSafe (m_lift o).
Proof. intros w y w' W. unfold m_lift. destruct o; [|done]. by intros [= _ <-]. Qed.
Lemma msafe_asks {A} (f : mworld -> A) : MSafe (m_asks f).
Proof. by intros w y w' W [= _ <-]. Qed.
Lemma msafe_tell e : MSafe (tell e).
Proof. intros w y w' [] [= _ <-]. by split. Qed.
Lemma msafe_queued {A} (m : QM A) : QSafe m -> MSafe (queued m).
Proof.
  intros Hm w y w' [Q T]. unfold queued. destruct (m (m_q w)) as [[x q]|] eqn:E; [|done]. intros [= _ <-].
  split; [by eapply Hm|done].
Qed.
Lemma msafe_routed {A} (m : RM A) : MSafe (m_routed m).
Proof. apply msafe_queued, keeps_safe, keeps_routed. Qed.
Lemma msafe_based {A} (m : M A) : MSafe (m_based m).
Proof. apply msafe_queued, keeps_safe, keeps_based. Qed.
Lemma msafe_scan i s : MSafe (put_scan i s).
Proof. intros w y w' [] [= _ <-]. by split. Qed.

#[export] Hint Resolve msafe_ret msafe_undefined msafe_lift msafe_asks msafe_tell msafe_routed msafe_based msafe_scan : safe.

Ltac msafe_step :=
  match goal with
  | |- MSafe (_ ≫= _) => apply msafe_bind; [|intros ?]
  | |- MSafe (if ?b then _ else _) => destruct b
  | |- MSafe (match ?x with _ => _ end) => destruct x
  | |- MSafe (queued _) => apply msafe_queued; qsafe
  | |- forall _, _ => intros ?
  | _ => solve [eauto with safe]
  end.
Ltac msafe := repeat msafe_step.

Section daemon.
Context `{Allocator} `{NaCl}.
Context (gettime_ms random : nat -> Z) (char_signed : bool) (my_subscriber directory_service : option nat).
Context (write : nat -> list Z -> Z) (write_file : nat -> Z -> list Z -> Z).
Context (sendto : nat -> Z -> list Z -> sendto_result).
Context (olsr : bool) (probe_contents : Z -> Z -> list Z).
Context (probe_read : list Z -> Z * Z) (probe_size : Z).
Context (keyring_get_nm_bytes : list Z -> list Z -> option (list Z)).
Context (keyring_find_sas_private : list Z -> option (list Z)) (sas_public : nat -> list Z).
Context (urandombytes : nat -> option (list Z)).
Context (sendto_client : list Z -> client_result).
Context (service : Z -> mdp_frame -> Z * mdp_frame) (rhizome_mdp_server : bool).

Abbreviation carried := (Effects.carried gettime_ms my_subscriber directory_service olsr probe_contents).
Abbreviation submit := (OverlayQueue.submit gettime_ms my_subscriber directory_service olsr probe_contents).

Hint Resolve qkeeps_now keeps_with_interfaces keeps_reachable : keeps.

Abbreviation run_op := (QueueProps.run_op gettime_ms my_subscriber directory_service write write_file sendto olsr probe_contents).

Lemma run_op_safe o : op_ok o -> QSafe (run_op o).
Proof. intros Ho w x w' [Ls W] E. exact (run_op_wf _ _ _ _ _ _ _ _ _ _ _ _ _ W Ho E). Qed.

Lemma submit_safe f : new_frame_ok f -> QSafe (submit f).
Proof. intros Hf. exact (run_op_safe (Submit f) Hf). Qed.

Lemma plain_ok f c r : new_frame_ok (plain_qframe f c r).
Proof. split_and!; [done..| |done|done]. cbn. apply u8_byte. Qed.

Lemma submit_plain f c r : QSafe (submit (plain_qframe f c r)).
Proof. apply submit_safe, plain_ok. Qed.
Hint Resolve submit_plain : safe.

Lemma probe_safe p a i k : QSafe (overlay_send_probe gettime_ms my_subscriber directory_service olsr probe_contents p a i k).
Proof. exact (run_op_safe (Probe p a i k) I). Qed.

Lemma ack_safe n i m s : QSafe (overlay_queue_ack gettime_ms directory_service n i m s).
Proof. exact (run_op_safe (Acked n i m s) I). Qed.
Hint Resolve probe_safe ack_safe : safe.

Lemma each_safe {A} (f : A -> QM unit) l : (forall x, QSafe (f x)) -> QSafe (q_each f l).
Proof. intros Hf. induction l; cbn [q_each]; qsafe. Qed.

Lemma perform_safe e : QSafe (perform gettime_ms my_subscriber directory_service olsr probe_contents e).
Proof. destruct e; cbn [perform]; qsafe. Qed.

Lemma explanation_safe f : QSafe (send_explanation gettime_ms my_subscriber directory_service olsr probe_contents f).
Proof. unfold send_explanation. qsafe. Qed.

Lemma explained_safe l : QSafe (q_each (fun i => routed (RouteReceive.link_explained gettime_ms i)) l).
Proof. apply each_safe. intros i. apply keeps_safe, keeps_routed. Qed.
Lemma performed_safe l : QSafe (q_each (perform gettime_ms my_subscriber directory_service olsr probe_contents) l).
Proof. apply each_safe, perform_safe. Qed.
Lemma sent_safe l : QSafe (q_each (send_explanation gettime_ms my_subscriber directory_service olsr probe_contents) l).
Proof. apply each_safe, explanation_safe. Qed.
Hint Resolve explained_safe performed_safe sent_safe : safe.

Lemma carried_safe {A} (m : RM A) : QSafe (carried m).
Proof. unfold Effects.carried. qsafe. Qed.
Hint Resolve carried_safe : safe.

(** ** Datagrams *)

Lemma now_safe : MSafe (m_now gettime_ms).
Proof. apply msafe_queued, keeps_safe, qkeeps_now. Qed.
Hint Resolve now_safe : safe.

Lemma nonce_safe n : MSafe (m_generate_nonce urandombytes n).
Proof.
  intros w y w' []. unfold m_generate_nonce. destruct (generate_nonce _ _ _) as [[x s]|]; [|done]. intros [= _ <-]. by split.
Qed.
Lemma reply_safe c r : MSafe (overlay_mdp_reply sendto_client c r).
Proof. unfold overlay_mdp_reply. msafe. Qed.
Hint Resolve nonce_safe reply_safe : safe.
Lemma reply_error_safe c e m : MSafe (overlay_mdp_reply_error sendto_client c e m).
Proof. apply reply_safe. Qed.
Hint Resolve reply_error_safe : safe.

Lemma release_safe c : 0 <= addrlen c <= 108 -> addrlen c <= zlen (sun_path c) ->
  MSafe (on_table (fun t => t ← overlay_mdp_releasebindings c t; Some (tt, t))).
Proof.
  intros Ha Hs w y w' [Q [m T]]. unfold on_table. destruct (release_spec _ _ c T) as (t' & -> & R'); [lia..|].
  intros [= _ <-]. split; [done|]. by eexists.
Qed.

Lemma m_lift_inv {A} (o : option A) w x w' : m_lift o w = Some (x, w') -> w' = w /\ o = Some x.
Proof. unfold m_lift. destruct o; [|done]. by intros [= -> ->]. Qed.

Lemma deliver_safe i f : MSafe (deliver_to_client sendto_client i f).
Proof.
  intros w y w' W E. unfold deliver_to_client in E. apply mbind_inv in E as (t & w1 & [= <- <-] & E).
  apply mbind_inv in E as (b & w1 & [-> Hb]%m_lift_inv & E). apply mbind_inv in E as (name & w1 & [-> Hn]%m_lift_inv & E).
  apply mbind_inv in E as (path & w1 & [-> Hp]%m_lift_inv & E).
  destruct (do_table _ W) as [m R]. destruct (Forall_lookup_1 _ _ _ _ (tr_ok _ _ R) Hb) as (_ & Hlen & _).
  assert (Hr : MSafe (on_table (fun t => t ← overlay_mdp_releasebindings (mk_client path (name_len b)) t; Some (tt, t)))).
  { apply release_safe; cbn; [lia|]. apply zblit_length in Hp. rewrite Hp. change (length (replicate 108 0)) with 108%nat. lia. }
  revert E. match goal with |- ?k w = _ -> _ => assert (Hk : MSafe k) by msafe end. by apply Hk.
Qed.
Hint Resolve deliver_safe : safe.

Lemma saw_safe services frame f : (forall f, MSafe (services f)) -> MSafe (saw_mdp_frame_with sendto_client services frame f).
Proof. intros Hs. unfold saw_mdp_frame_with. msafe. Qed.

Lemma source_safe f : MSafe (dispatch_source my_subscriber f).
Proof. unfold dispatch_source. msafe. Qed.
Lemma payload_safe i f :
  MSafe (dispatch_payload keyring_get_nm_bytes keyring_find_sas_private urandombytes i f).
Proof. unfold dispatch_payload, dispatch_text. msafe. Qed.
Hint Resolve source_safe payload_safe : safe.

Lemma dispatch_safe saw c f : (forall f, MSafe (saw f)) ->
  MSafe (dispatch_with gettime_ms random my_subscriber directory_service olsr probe_contents keyring_get_nm_bytes
           keyring_find_sas_private urandombytes sendto_client saw c f).
Proof. intros Hs. unfold dispatch_with. msafe. Qed.

(** ** Services *)

Lemma link_receive_safe f :
  MSafe (mdp_link_receive gettime_ms random char_signed my_subscriber directory_service olsr probe_contents f).
Proof. unfold mdp_link_receive. msafe. Qed.
Lemma service_probe_safe f : MSafe (overlay_mdp_service_probe gettime_ms directory_service probe_read probe_size f).
Proof. unfold overlay_mdp_service_probe. msafe. Qed.

Lemma stun_loop_safe fuel : forall b,
  QSafe (stun_loop gettime_ms my_subscriber directory_service olsr probe_contents fuel b).
Proof. induction fuel as [|fuel IH]; intros b; cbn [stun_loop]; qsafe. Qed.
Hint Resolve stun_loop_safe : safe.

Lemma service_stun_safe f :
  MSafe (overlay_mdp_service_stun gettime_ms my_subscriber directory_service olsr probe_contents f).
Proof.
  apply msafe_queued. intros w x w' [Ls W]. cbv beta zeta.
  match goal with |- (?m ?w1 ≫= _) = _ -> _ =>
    assert (Hm : QSafe m) by qsafe; assert (W1 : queues_ok w1) by (exists Ls; eapply kept_wf; [|exact W]; done);
    destruct (m w1) as [[y w2]|] eqn:E; [|done] end.
  intros [= _ <-]. apply Hm in E as [Ls' W2]; [|done]. exists Ls'. eapply kept_wf; [|exact W2]. done.
Qed.
Hint Resolve link_receive_safe service_probe_safe service_stun_safe : safe.

Section answers.
Context (dispatch : mdp_frame -> MM (Z * mdp_frame)) (Hd : forall f, MSafe (dispatch f)).
Hint Resolve Hd : safe.

Lemma service_echo_safe f : MSafe (overlay_mdp_service_echo my_subscriber dispatch f).
Proof. unfold overlay_mdp_service_echo. msafe. Qed.
Lemma service_trace_safe f :
  MSafe (overlay_mdp_service_trace gettime_ms my_subscriber directory_service olsr probe_contents dispatch f).
Proof. unfold overlay_mdp_service_trace. msafe. Qed.
Lemma service_stun_req_safe f : MSafe (overlay_mdp_service_stun_req dispatch f).
Proof. unfold overlay_mdp_service_stun_req. msafe. Qed.
Lemma stun_request_safe srv req : MSafe (overlay_send_stun_request gettime_ms my_subscriber dispatch srv req).
Proof. unfold overlay_send_stun_request. msafe. Qed.
Hint Resolve service_echo_safe service_trace_safe service_stun_req_safe : safe.

Lemma services_safe f :
  MSafe (overlay_mdp_try_interal_services gettime_ms random char_signed my_subscriber directory_service olsr probe_contents
           probe_read probe_size service rhizome_mdp_server dispatch f).
Proof. unfold overlay_mdp_try_interal_services, keep_frame, other_service. msafe. Qed.
End answers.

Lemma dispatch_fuel_safe stuck fuel : (forall f, MSafe (stuck f)) -> forall c f,
  MSafe (dispatch_fuel gettime_ms random char_signed my_subscriber directory_service olsr probe_contents probe_read probe_size
           keyring_get_nm_bytes keyring_find_sas_private urandombytes sendto_client service rhizome_mdp_server stuck fuel c f).
Proof.
  intros Hs. induction fuel as [|fuel IH]; intros c f; cbn [dispatch_fuel]; [apply Hs|].
  apply dispatch_safe. intros g. apply saw_safe, services_safe, IH.
Qed.

Lemma mdp_dispatch_safe c f :
  MSafe (overlay_mdp_dispatch gettime_ms random char_signed my_subscriber directory_service olsr probe_contents probe_read
           probe_size keyring_get_nm_bytes keyring_find_sas_private urandombytes sendto_client service rhizome_mdp_server c f).
Proof. apply dispatch_fuel_safe. intros g. apply msafe_undefined. Qed.
Hint Resolve mdp_dispatch_safe : safe.

Lemma saw_frame_safe fr f :
  MSafe (overlay_saw_mdp_frame gettime_ms random char_signed my_subscriber directory_service olsr probe_contents probe_read
           probe_size keyring_get_nm_bytes keyring_find_sas_private urandombytes sendto_client service rhizome_mdp_server fr f).
Proof. apply saw_safe, services_safe. intros g. apply mdp_dispatch_safe. Qed.
Hint Resolve saw_frame_safe : safe.

Lemma containing_frame_safe fr :
  MSafe (overlay_saw_mdp_containing_frame gettime_ms random char_signed my_subscriber directory_service olsr probe_contents
           probe_read probe_size keyring_get_nm_bytes keyring_find_sas_private sas_public urandombytes sendto_client service
           rhizome_mdp_server fr).
Proof. unfold overlay_saw_mdp_containing_frame. msafe. Qed.
Hint Resolve containing_frame_safe : safe.

(** ** Clients *)

Lemma routing_table_safe c : MSafe (send_routing_table sendto_client c).
Proof.
  intros w x w' W. unfold send_routing_table. destruct (walk_tree _ _ _ _ _ _ _ _ _) as [[b w1]|] eqn:E; [|done].
  intros [= _ <-]. revert E W. apply walk_tree_inv. clear. intros i w stop w'. unfold routing_table.
  destruct (subs_of _ !! i) as [s|]; [|done]. cbn [mbind option_bind]. destruct (routing_record _ _ _) as [r|]; [|done].
  cbn [mbind option_bind]. destruct (overlay_mdp_reply _ _ _ _) as [[y w1]|] eqn:E; [|done]. intros [= _ <-] W. by apply reply_safe in E.
Qed.
Hint Resolve routing_table_safe : safe.

Lemma scan_loop_safe fuel : forall i stop current,
  MSafe (scan_loop gettime_ms my_subscriber directory_service olsr probe_contents fuel i stop current).
Proof. induction fuel as [|fuel IH]; intros i stop current; cbn [scan_loop]; msafe. Qed.
Hint Resolve scan_loop_safe : safe.
Lemma scan_safe i : MSafe (overlay_mdp_scan gettime_ms my_subscriber directory_service olsr probe_contents i).
Proof. unfold overlay_mdp_scan. msafe. Qed.
Lemma scan_all_safe l : forall start, MSafe (scan_all l start).
Proof. induction l as [|i l IH]; intros start; cbn [scan_all]; msafe. Qed.
Hint Resolve scan_all_safe : safe.
Lemma start_scan_safe c a : MSafe (start_scan gettime_ms sendto_client c a).
Proof. unfold start_scan. msafe. Qed.
Lemma bind_subscriber_safe s : MSafe (bind_subscriber s).
Proof. unfold bind_subscriber. msafe. Qed.
Hint Resolve start_scan_safe bind_subscriber_safe : safe.

Context (random_nonneg : forall n, 0 <= random n).

Lemma bind_request_safe rnd now s port flags c : client_ok c -> 0 <= rnd -> port <= INT_MAX ->
  MSafe (on_table (overlay_mdp_process_bind_request rnd now s port flags c)).
Proof.
  intros Hc Hr Hp w y w' [Q [m T]]. unfold on_table.
  destruct (bind_spec _ _ rnd now s port flags c T Hc Hr Hp) as (r & t' & m' & -> & R' & _).
  intros [= _ <-]. split; [done|]. by exists m'.
Qed.

Lemma process_bind_safe s port flags c : client_ok c -> port <= INT_MAX ->
  MSafe (process_bind gettime_ms random s port flags c).
Proof.
  intros Hc Hp w y w' W E. unfold process_bind in E. apply mbind_inv in E as (t & w1 & [= <- <-] & E).
  apply mbind_inv in E as ([rnd now] & w1 & E1 & E).
  assert (H01 : 0 <= rnd /\ daemon_ok w1).
  { destruct (if 0 <? port then _ else None) as [[| |free]|];
      [by injection E1 as <- <- <-..| |by injection E1 as <- <- <-].
    apply mbind_inv in E1 as (r & w2 & E1 & E2). apply mbind_inv in E2 as (n & w3 & E2 & [= <- <- <-]).
    apply now_safe in E2; [split; [|exact E2]|]; destruct free.
    - by injection E1 as <- <-.
    - unfold m_based, queued, based, routed in E1. cbn in E1. injection E1 as <- <-. apply random_nonneg.
    - by injection E1 as <- <-.
    - by apply msafe_based in E1. }
  revert E. apply bind_request_safe; tauto.
Qed.

Lemma poll_safe c q : client_ok c ->
  MSafe (overlay_mdp_poll gettime_ms random char_signed my_subscriber directory_service olsr probe_contents probe_read
           probe_size keyring_get_nm_bytes keyring_find_sas_private urandombytes sendto_client service rhizome_mdp_server c q).
Proof.
  intros Hc. assert (Hb : forall s port flags, MSafe (process_bind gettime_ms random s (i32 port) flags c)).
  { intros s port flags. apply process_bind_safe; [done|]. unfold i32, INT_MAX. pose proof (Z.mod_pos_bound (port + 2 ^ 31) (2 ^ 32)). lia. }
  destruct q; cbn [overlay_mdp_poll]; [|msafe..].
  destruct Hc. intros w y w' [Q [m T]]. unfold on_table. destruct (release_spec _ _ c T) as (t' & -> & R'); [lia..|].
  intros [= _ <-]. split; [done|]. by eexists.
Qed.

(** ** Packets *)

Lemma forward_safe f :
  QSafe (overlay_forward_payload gettime_ms my_subscriber directory_service olsr probe_contents f).
Proof.
  unfold overlay_forward_payload. destruct (ttl f =? 0); [qsafe|]. intros w r w' W E. apply qbind_inv in E as (g & w1 & E1 & E).
  assert (Hg : new_frame_ok g /\ queues_ok w1).
  { pose proof (plain_ok f None 0) as Hf. unfold op_dup in E1. destruct (payload _); [|by injection E1 as <- <-].
    apply qbind_inv in E1 as (b & w2 & E1 & [= <- <-]). split; [|by apply (keeps_safe _ (keeps_based _)) in E1].
    destruct Hf as (? & ? & ? & ? & ?). by split_and!. }
  destruct Hg as [Hg W1]. by apply (submit_safe g) in E.
Qed.
Hint Resolve forward_safe : safe.

Lemma process_safe t f :
  MSafe (process_incoming_frame gettime_ms random char_signed my_subscriber directory_service olsr probe_contents
           probe_read probe_size keyring_get_nm_bytes keyring_find_sas_private sas_public urandombytes sendto_client service
           rhizome_mdp_server t f).
Proof. unfold process_incoming_frame. msafe. Qed.
Hint Resolve process_safe : safe.

Lemma heard_safe t i x a pf seq c :
  QSafe (heard_sender gettime_ms char_signed my_subscriber directory_service olsr probe_contents t i x a pf seq c).
Proof. unfold heard_sender, assume_reachable. qsafe. Qed.
Hint Resolve heard_safe : safe.

Lemma envelope_safe c i a b :
  QSafe (parseEnvelopeHeader gettime_ms char_signed my_subscriber directory_service olsr probe_contents c i a b).
Proof. unfold parseEnvelopeHeader. qsafe. Qed.
Lemma frame_header_safe c f b :
  QSafe (parse_frame_header gettime_ms my_subscriber directory_service olsr probe_contents c f b).
Proof. unfold parse_frame_header, note_sequence. qsafe. Qed.
Lemma payload_size_safe c b : QSafe (payload_size c b).
Proof. unfold payload_size. qsafe. Qed.
Hint Resolve envelope_safe frame_header_safe payload_size_safe : safe.

Lemma handle_safe t v c f :
  MSafe (handle_frame gettime_ms random char_signed my_subscriber directory_service olsr probe_contents
           probe_read probe_size keyring_get_nm_bytes keyring_find_sas_private sas_public urandombytes sendto_client service
           rhizome_mdp_server t v c f).
Proof. unfold handle_frame. msafe. Qed.
Hint Resolve handle_safe : safe.

Lemma frames_safe fuel t : forall c f b,
  MSafe (frames_loop gettime_ms random char_signed my_subscriber directory_service olsr probe_contents
           probe_read probe_size keyring_get_nm_bytes keyring_find_sas_private sas_public urandombytes sendto_client service
           rhizome_mdp_server m_undefined fuel t c f b).
Proof. induction fuel as [|fuel IH]; intros c f b; cbn [frames_loop]; msafe. Qed.
Hint Resolve frames_safe : safe.

Lemma packet_safe i p n a :
  MSafe (packetOkOverlay gettime_ms random char_signed my_subscriber directory_service olsr probe_contents
           probe_read probe_size keyring_get_nm_bytes keyring_find_sas_private sas_public urandombytes sendto_client service
           rhizome_mdp_server i p n a).
Proof. unfold packetOkOverlay, packet_ok_with. msafe. Qed.

(** ** Everything that happens to the daemon *)

(** A packet that arrives, a request of a client, the alarm of a scan, and what happens to the
    queues: frames of other parts, alarms, ticks, and changes to routes and interfaces. *)
Inductive daemon_op :=
| Packet (interface : nat) (data : list Z) (address : option Z)
| Request (c : client) (q : mdp_request)
| ScanAlarm (i : nat)
| Queues (o : queue_op).

Abbreviation packetOkOverlay := (Receive.packetOkOverlay gettime_ms random char_signed my_subscriber directory_service olsr
  probe_contents probe_read probe_size keyring_get_nm_bytes keyring_find_sas_private sas_public urandombytes sendto_client
  service rhizome_mdp_server).

(** The packet is in an array of the function that received it. *)
Definition on_memory (g : mem -> mem) (w : mworld) : mworld :=
  let r := q_route (m_q w) in set_m_q w (set_route (m_q w) (set_rw r (set_mem (rw r) (g (w_mem (rw r)))))).

Definition receive_packet (interface : nat) (data : list Z) (address : option Z) : MM Z := fun w =>
  let blk := fresh (dom (w_mem (rw (q_route (m_q w))))) in
  '(r, w) ← packetOkOverlay interface (mkptr blk 0) (zlen data) address (on_memory (insert blk data) w);
  Some (r, on_memory (delete blk) w).

Definition daemon_step (o : daemon_op) : MM unit :=
  match o with
  | Packet i d a => _ ← receive_packet i d a; mret tt
  | Request c q =>
      overlay_mdp_poll gettime_ms random char_signed my_subscriber directory_service olsr probe_contents probe_read
        probe_size keyring_get_nm_bytes keyring_find_sas_private urandombytes sendto_client service rhizome_mdp_server c q
  | ScanAlarm i => overlay_mdp_scan gettime_ms my_subscriber directory_service olsr probe_contents i
  | Queues o => _ ← queued (run_op o); mret tt
  end.

Fixpoint daemon_run (l : list daemon_op) : MM unit :=
  match l with [] => mret tt | o :: l => _ ← daemon_step o; daemon_run l end.

(** Clients have names the kernel can report, and frames are made as the code makes them. *)
Definition daemon_op_ok (o : daemon_op) : Prop :=
  match o with Request c _ => client_ok c | Queues o => op_ok o | _ => True end.

Lemma memory_ok g w : daemon_ok w -> daemon_ok (on_memory g w).
Proof. intros [[Ls Q] T]. split; [|done]. exists Ls. eapply kept_wf; [|exact Q]. done. Qed.

Lemma receive_safe i d a : MSafe (receive_packet i d a).
Proof.
  intros w x w' W. unfold receive_packet. cbv zeta. set (w1 := on_memory _ w).
  destruct (Receive.packetOkOverlay _ _ _ _ _ _ _ _ _ _ _ _ _ _ _ _ _ _ _ _ w1) as [[y w2]|] eqn:E; [|done].
  intros [= _ <-]. apply memory_ok. eapply packet_safe; [|exact E]. by apply memory_ok.
Qed.

Lemma step_safe o : daemon_op_ok o -> MSafe (daemon_step o).
Proof.
  intros Ho. destruct o; cbn [daemon_step].
  - apply msafe_bind; [apply receive_safe|intros; apply msafe_ret].
  - by apply poll_safe.
  - apply scan_safe.
  - apply msafe_bind; [by apply msafe_queued, run_op_safe|intros; apply msafe_ret].
Qed.

Lemma daemon_run_safe l : Forall daemon_op_ok l -> MSafe (daemon_run l).
Proof. induction 1; cbn [daemon_run]; [apply msafe_ret|]. apply msafe_bind; [by apply step_safe|done]. Qed.
End daemon.

(** [C1] In every run of the daemon from its start, with packets, requests of clients, alarms
    of scans, alarms of the queues, ticks and acknowledgements in any order, the transmit
    queues stay well-formed (linked both ways, counted, every frame in one queue) and the table
    of bindings is a map from addresses to socket names. *)
Theorem daemon_invariant `{Allocator} `{NaCl} (gettime_ms random : nat -> Z) (char_signed : bool)
    (my_subscriber directory_service : option nat) (write : nat -> list Z -> Z) (write_file : nat -> Z -> list Z -> Z)
    (sendto : nat -> Z -> list Z -> sendto_result) (olsr : bool) (probe_contents : Z -> Z -> list Z)
    (probe_read : list Z -> Z * Z) (probe_size : Z) (keyring_get_nm_bytes : list Z -> list Z -> option (list Z))
    (keyring_find_sas_private : list Z -> option (list Z)) (sas_public : nat -> list Z)
    (urandombytes : nat -> option (list Z)) (sendto_client : list Z -> client_result)
    (service : Z -> mdp_frame -> Z * mdp_frame) (rhizome_mdp_server : bool) (ops : list daemon_op) w u w' :
  (forall n, 0 <= random n) -> q_heap (m_q w) = ∅ -> m_table w = zero_table -> Forall daemon_op_ok ops ->
  (_ ← queued overlay_queue_init;
   daemon_run gettime_ms random char_signed my_subscriber directory_service write write_file sendto olsr probe_contents
     probe_read probe_size keyring_get_nm_bytes keyring_find_sas_private sas_public urandombytes sendto_client service
     rhizome_mdp_server ops : MM unit) w = Some (u, w') ->
  (exists Ls, queues_wf [] Ls (m_q w')) /\ (exists m, table_repr (m_table w') m).
Proof.
  intros Hr Hh Ht Ho E. apply mbind_inv in E as (x & w1 & E1 & E). unfold queued in E1.
  destruct (overlay_queue_init (m_q w)) as [[y q]|] eqn:Eq; [|done]. injection E1 as _ <-.
  apply daemon_run_safe in E as [Q T]; [done..|]. split; cbn.
  - eexists. by eapply init_wf.
  - exists ∅. rewrite Ht. apply zero_table_repr.
Qed.

(** *** A daemon with one neighbour *)

Definition demo_reach (r : Z) (s : subscriber) : subscriber := mk_subscriber (sid s) (abbreviate_len s) false r 0.
Definition demo_directory : directory :=
  mk_directory (root two_subscribers)
    (zip_with demo_reach [REACHABLE_SELF; REACHABLE_NONE] (subscribers two_subscribers)).
Definition demo_daemon_with (d : directory) (t : mdp_table) : mworld :=
  mk_mworld (mk_qworld (mk_rworld (set_dir world0 d) ∅ [] 5 12 0 0 []) ∅ 0 [] 0 0 0 (demo_interfaces ENCAP_OVERLAY) ∅ zero_packet [])
    t (mk_nonce false [] 0) (replicate 16 zero_scan) [].
Definition demo_daemon : mworld := demo_daemon_with demo_directory zero_table.
Definition demo_client : client := mk_client ([47; 97] ++ replicate 1022 0) 5.
Definition demo_datagram (src dst : list Z) (port : Z) : mdp_frame :=
  mk_mdp (Z.lor MDP_TX (Z.lor MDP_NOCRYPT MDP_NOSIGN)) src 99 dst port 3 OQ_ORDINARY 0 ([1; 2; 3] ++ replicate 1097 0).
(** A neighbour is heard, in the packet there is a datagram for our port 99; we answer it. *)
Definition demo_daemon_ops : list daemon_op :=
  [Request demo_client (MdpBind (replicate 32 0) 99 0);
   Packet 0 ([1; 1; 32] ++ sid_b ++ [4; 7; 7; 1; 0; 4; 199; 1; 5; 6]) None;
   Request demo_client (MdpTx (demo_datagram sid_a sid_b 7));
   Queues SendPacket].
Abbreviation demo_daemon_run :=
  (daemon_run demo_clock (fun _ => 0) true (Some 0%nat) None (fun _ d => zlen d) (fun _ _ _ => 0) (fun _ _ _ => SendtoOk) false
     (fun _ _ => replicate 20 0) (fun _ => (0, 0)) 20 (fun _ _ => Some (replicate 32 0)) (fun _ => None) (fun _ => []) (fun _ => None)
     (fun _ => ClientOk) (fun _ f => (0, f)) false).

Lemma daemon_invariant_witness :
  exists u w', (_ ← queued overlay_queue_init; demo_daemon_run demo_daemon_ops : MM unit) demo_daemon = Some (u, w') /\
    (exists Ls, queues_wf [] Ls (m_q w')) /\ (exists m, table_repr (m_table w') m).
Proof.
  destruct ((_ ← queued overlay_queue_init; demo_daemon_run demo_daemon_ops : MM unit) demo_daemon) as [[u w']|] eqn:E;
    [|vm_compute in E; discriminate].
  exists u, w'. split; [reflexivity|]. apply daemon_invariant in E; [exact E|done|reflexivity|reflexivity|].
  repeat constructor; cbn; lia.
Defined.

(** The datagram was delivered to the client, and its answer went out. *)
Example demo_daemon_answers :
  ('(_, w) ← (_ ← queued overlay_queue_init; demo_daemon_run demo_daemon_ops : MM unit) demo_daemon;
   Some (match m_events w with
         | [_; Delivered name f] => Some (name, src_port f, dst_port f, take (Z.to_nat (payload_length f)) (mdp_payload f))
         | _ => None
         end, List.last (q_events (m_q w)) VoiceTraffic))
  = Some (Some ([47; 97; 0], 99, 99, [5; 6]),
          Datagram 0 77 [1; 1; 3; 18; 0; 0; 4; 1; 5; 2; 19; 0; 1; 0; 5; 14; 99; 1; 2; 3]).
Proof. vm_compute. reflexivity. Qed.
