(* ===== verification/ReceiveProps.v ===== *)
(** ReceiveProps: what [Receive] guarantees for every packet. *)

From S2P Require Import Prelude CMem OverlayBuffer OverlayBufferCodec DataFormats Str Slip SubscriberTree OverlayAddress PacketFormats RouteLinks Route RouteWire RouteOps RouteReceive RouteProps Limit TxState OverlayQueue QueueInv QueueProps Effects Nonce Crypto MdpBindings MdpState Mdp MdpServices MdpClients Receive SystemInv.

(** ** Headers move forward *)

(** What every result of a computation on the queues satisfies. *)
Definition qyields {A} (m : QM A) (P : A -> Prop) : Prop := forall w x w', m w = Some (x, w') -> P x.

Lemma qyields_ret {A} (x : A) (P : A -> Prop) : P x -> qyields (mret x) P.
Proof. intros HP w y w' [= <- _]. done. Qed.

Lemma qyields_bind {A B} (m : QM A) (f : A -> QM B) (P : A -> Prop) (Q : B -> Prop) :
  qyields m P -> (forall x, P x -> qyields (f x) Q) -> qyields (m ≫= f) Q.
Proof. intros Hm Hf w y w' E. apply qbind_inv in E as (x & w1 & E1 & E). by eapply Hf; [eapply Hm|]. Qed.

Lemma qyields_any {A B} (m : QM A) (f : A -> QM B) (Q : B -> Prop) :
  (forall x, qyields (f x) Q) -> qyields (m ≫= f) Q.
Proof. intros Hf. apply (qyields_bind _ _ (fun _ => True)); [done|auto]. Qed.

Lemma qyields_based {A} (m : M A) (P : A -> Prop) : yields m P -> qyields (based m) P.
Proof.
  intros Hm w x w'. unfold based, routed, base. destruct (m (rw (q_route w))) as [[y z]|] eqn:E; [|done]. cbn.
  intros [= <- _]. by eapply Hm.
Qed.

(** The same for routing code. *)
Definition ryields {A} (m : RM A) (P : A -> Prop) : Prop := forall w x w', m w = Some (x, w') -> P x.

Lemma ryields_ret {A} (x : A) (P : A -> Prop) : P x -> ryields (mret x) P.
Proof. intros HP w y w' [= <- _]. done. Qed.
Lemma ryields_bind {A B} (m : RM A) (f : A -> RM B) (P : A -> Prop) (Q : B -> Prop) :
  ryields m P -> (forall x, P x -> ryields (f x) Q) -> ryields (m ≫= f) Q.
Proof.
  intros Hm Hf w y w'. unfold mbind, RM_bind. destruct (m w) as [[x w1]|] eqn:E; [|done]. intros Hy. by eapply Hf; [eapply Hm|].
Qed.
Lemma ryields_any {A B} (m : RM A) (f : A -> RM B) (Q : B -> Prop) : (forall x, ryields (f x) Q) -> ryields (m ≫= f) Q.
Proof. intros Hf. apply (ryields_bind _ _ (fun _ => True)); [done|auto]. Qed.
Lemma ryields_base {A} (m : M A) (P : A -> Prop) : yields m P -> ryields (base m) P.
Proof. intros Hm w x w'. unfold base. destruct (m (rw w)) as [[y z]|] eqn:E; [|done]. intros [= <- _]. by eapply Hm. Qed.
Lemma ryields_array {A} l (k : ptr -> RM A) (P : A -> Prop) : (forall p, ryields (k p) P) -> ryields (r_with_array l k) P.
Proof.
  intros Hk w x w'. unfold r_with_array. destruct (k _ _) as [[y z]|] eqn:E; [|done]. intros [= <- _]. by eapply Hk.
Qed.

Lemma qyields_carried `{Allocator} {A} gettime_ms my_subscriber directory_service olsr probe_contents (m : RM A) (P : A -> Prop) :
  ryields m P -> qyields (carried gettime_ms my_subscriber directory_service olsr probe_contents m) P.
Proof.
  intros Hm. unfold carried. do 3 (apply qyields_any; intros ?). eapply (qyields_bind _ _ P).
  { intros w r w'. unfold routed. destruct (m (q_route w)) as [[y z]|] eqn:E; [|done]. intros [= <- _]. by eapply Hm. }
  intros y Hy. do 6 (apply qyields_any; intros ?). by apply qyields_ret.
Qed.

(** A part of the parser leaves the buffer further on. *)
Definition advances (p : part) : Prop := forall h, yields (p h) (fun '(_, h') => forward (h_buffer h) (h_buffer h')).

Lemma advances_then p q : advances p -> advances q -> advances (and_then p q).
Proof.
  intros Hp Hq h. unfold and_then. eapply yields_bind; [apply Hp|]. intros [failed h1] F.
  destruct failed; [by apply yields_ret|]. intros w [x h2] w' E%Hq. by etransitivity.
Qed.

Section parts.
Context `{Allocator}.
Context (gettime_ms : nat -> Z) (my_subscriber : option nat).
Context (relay : option nat -> bool) (dup : option nat -> option Z -> Z -> Z -> bool).

Lemma next_byte_forward h : yields (next_byte h) (fun '(x, h') => forward (h_buffer h) (h_buffer h') /\
  (0 <= x -> position (h_buffer h) < position (h_buffer h'))).
Proof. unfold next_byte. eapply yields_bind; [apply get_byte_forward|]. intros [x b] F. by apply yields_ret. Qed.

Lemma parse_address_forward h v :
  yields (parse_address gettime_ms my_subscriber h v) (fun '(_, _, h') => forward (h_buffer h) (h_buffer h')).
Proof.
  unfold parse_address. eapply yields_bind; [apply overlay_address_parse_forward|].
  intros [[[r c] b] s] F. by apply yields_ret.
Qed.

Lemma source_advances flags : advances (parse_source gettime_ms my_subscriber flags).
Proof.
  intros h. unfold parse_source. destruct (has _ _); [apply yields_ret; by destruct (sender _)|].
  eapply yields_bind; [apply parse_address_forward|]. intros [[r s] h1] F. cbn zeta.
  destruct (r <? 0); [by apply yields_ret|]. apply yields_any. intros self. by apply yields_ret.
Qed.

Lemma broadcast_parse_forward b : yields (overlay_broadcast_parse b) (fun '(_, b') => forward b b').
Proof.
  intros w [x b'] w'. unfold overlay_broadcast_parse, ob_get_bytes. destruct (test_offset _ _ _) as [t|]; [|done]. cbn.
  destruct (negb (t =? 0)); cbn; [by intros [= _ <- _]|]. destruct (bytes_at _ _ _ _); [|done]. cbn.
  intros [= _ <- _]. split; cbn; [lia|done].
Qed.

Lemma broadcast_advances flags : advances (parse_broadcast relay flags).
Proof.
  intros h. unfold parse_broadcast. destruct (has _ _); [by apply yields_ret|].
  eapply yields_bind; [apply broadcast_parse_forward|]. intros [id b] F. cbn zeta.
  destruct id; [|by apply yields_ret]. apply yields_any. intros seen. by apply yields_ret.
Qed.

Lemma destination_advances flags : advances (parse_destination gettime_ms my_subscriber flags).
Proof.
  intros h. unfold parse_destination. eapply yields_bind; [apply parse_address_forward|]. intros [[r d] h1] F. cbn zeta.
  destruct (r <? 0); [by apply yields_ret|]. apply yields_any. intros self. destruct (has _ _); [by apply yields_ret|].
  eapply yields_bind; [apply parse_address_forward|]. intros [[r' n] h2] F'. cbn zeta in *.
  assert (F2 : forward (h_buffer h) (h_buffer h2)) by (etransitivity; [exact F|exact F']).
  destruct (r' <? 0); [by apply yields_ret|]. apply yields_any. intros ?. by apply yields_ret.
Qed.

Lemma ttl_advances flags : advances (parse_ttl flags).
Proof.
  intros h. unfold parse_ttl. eapply (yields_bind _ _ (fun '(_, h1) => forward (h_buffer h) (h_buffer h1))).
  - destruct (has _ _); [by apply yields_ret|]. eapply yields_bind; [apply next_byte_forward|]. intros [x h1] [F _].
    destruct (x <? 0); by apply yields_ret.
  - intros [failed h1] F. destruct failed; by apply yields_ret.
Qed.

Lemma type_advances flags : advances (parse_type flags).
Proof.
  intros h. unfold parse_type. destruct (has _ _); [|by apply yields_ret].
  eapply yields_bind; [apply next_byte_forward|]. intros [x h1] [F _]. destruct (x =? -1); by apply yields_ret.
Qed.

Lemma sequence_advances flags : advances (parse_sequence dup flags).
Proof.
  intros h. unfold parse_sequence. destruct (1 <=? _); [|by apply yields_ret].
  eapply yields_bind; [apply next_byte_forward|]. intros [x h1] [F _]. destruct (x =? -1); by apply yields_ret.
Qed.

Lemma header_forward c f b n :
  yields (parseMdpPacketHeader gettime_ms my_subscriber relay dup c f b n)
    (fun '(x, h) => 0 <= x -> position b < position (h_buffer h) /\ sizeLimit (h_buffer h) = sizeLimit b).
Proof.
  unfold parseMdpPacketHeader. eapply yields_bind; [apply next_byte_forward|]. intros [flags h] [F P].
  destruct (flags <? 0) eqn:E; [apply yields_ret; lia|]. zify_bool.
  eapply yields_bind.
  { apply advances_then; [apply source_advances|]. apply advances_then.
    { destruct (has _ _); [apply broadcast_advances|apply destination_advances]. }
    apply advances_then; [apply ttl_advances|]. apply advances_then; [apply type_advances|apply sequence_advances]. }
  intros [failed h1] F1. destruct failed; apply yields_ret; [lia|]. intros _. cbn. destruct F, F1. cbn in *. split; [lia|congruence].
Qed.
End parts.

(** ** The loop over the frames ends *)

Lemma mbind_ext {A B} (m : MM A) (f g : A -> MM B) w :
  (forall x w1, m w = Some (x, w1) -> f x w1 = g x w1) -> (m ≫= f) w = (m ≫= g) w.
Proof. intros Hfg. unfold mbind, MM_bind. destruct (m w) as [[x w1]|]; [by apply Hfg|done]. Qed.

Lemma mbind_same {A B} (m m' : MM A) (f : A -> MM B) w : m w = m' w -> (m ≫= f) w = (m' ≫= f) w.
Proof. unfold mbind, MM_bind. by intros ->. Qed.

(** A packet in a buffer. *)
Lemma limited_static `{Allocator} p len b : ob_static p len = Some b ->
  let b' := default b (snd (ob_limitsize (Some b) len)) in sizeLimit b' - position b' <= Z.of_nat (Z.to_nat len).
Proof.
  unfold ob_static. destruct calloc_ok; [|done]. cbn. intros <-%(inj Some). cbn.
  repeat match goal with |- context [if ?c then _ else _] => destruct c; cbn end; lia.
Qed.

Lemma queued_yields {A} (m : QM A) (P : A -> Prop) w x w' : qyields m P -> queued m w = Some (x, w') -> P x.
Proof. intros Hm. unfold queued. destruct (m (m_q w)) as [[y q]|] eqn:E; [|done]. intros [= <- _]. by eapply Hm. Qed.

Lemma payload_size_forward c b :
  qyields (payload_size c b) (fun '(len, b') => forward b b' /\ forall n, len = Some n -> 0 <= n).
Proof.
  unfold payload_size. destruct (_ =? _).
  - apply qyields_any. intros n. apply qyields_ret. split; [done|]. intros x [= <-]. by apply Z.mod_pos_bound.
  - eapply (qyields_bind _ _ (fun '(n, b') => 0 <= n /\ forward b b')).
    + apply qyields_based. intros w [n b'] w'. unfold ob_get_ui16. destruct (test_offset _ _ _) as [t|]; [|done]. cbn.
      destruct (negb (t =? 0)); cbn; [intros [= <- <- _]; split; [lia|done]|]. destruct (bytes b) as [p|]; [|done]. cbn.
      destruct (load _ p (position b)); [|done]. cbn. destruct (load _ p (position b + 1)); [|done]. cbn.
      intros [= <- <- _]. split; [by apply Z.mod_pos_bound|]. split; cbn; [lia|done].
    + intros [n b'] [Hn F]. apply qyields_any. intros rest. apply qyields_ret. split; [done|]. intros x.
      destruct (_ <? _); [done|]. by intros [= <-].
Qed.

Section packets.
Context `{Allocator} `{NaCl}.
Context (gettime_ms random : nat -> Z) (char_signed : bool) (my_subscriber directory_service : option nat).
Context (olsr : bool) (probe_contents : Z -> Z -> list Z).
Context (probe_read : list Z -> Z * Z) (probe_size : Z).
Context (keyring_get_nm_bytes : list Z -> list Z -> option (list Z)).
Context (keyring_find_sas_private : list Z -> option (list Z)) (sas_public : nat -> list Z).
Context (urandombytes : nat -> option (list Z)).
Context (sendto_client : list Z -> client_result).
Context (service : Z -> mdp_frame -> Z * mdp_frame) (rhizome_mdp_server : bool).

Abbreviation frames_loop := (Receive.frames_loop gettime_ms random char_signed my_subscriber directory_service olsr probe_contents
           probe_read probe_size keyring_get_nm_bytes keyring_find_sas_private sas_public urandombytes sendto_client service
           rhizome_mdp_server).

Lemma parse_frame_forward c f b :
  qyields (parse_frame_header gettime_ms my_subscriber directory_service olsr probe_contents c f b)
    (fun '(x, h) => 0 <= x -> position b < position (h_buffer h) /\ sizeLimit (h_buffer h) = sizeLimit b).
Proof.
  unfold parse_frame_header. apply qyields_any. intros r. eapply qyields_bind; [apply qyields_carried, ryields_base, header_forward|].
  intros [x h] F. apply qyields_any. intros ?. by apply qyields_ret.
Qed.

Lemma frames_loop_stuck stuck stuck' fuel t : forall c f b w, sizeLimit b - position b <= Z.of_nat fuel ->
  frames_loop stuck fuel t c f b w = frames_loop stuck' fuel t c f b w.
Proof.
  induction fuel as [|fuel IH]; intros c f b w Hb; cbn [Receive.frames_loop];
    apply mbind_ext; intros rest w1 [-> Hrest]%m_lift_inv; unfold ob_remaining in Hrest; apply ci_inv in Hrest as [-> _];
    (destruct (_ <=? 0) eqn:E; [done|]); zify_bool; [lia|].
  apply mbind_ext. intros [valid h] w2 E1. apply (queued_yields _ _ _ _ _ (parse_frame_forward _ _ _)) in E1.
  destruct (valid <? 0) eqn:Ev; [done|]. zify_bool. destruct (E1 Ev) as [Hp Hl].
  apply mbind_ext. intros [len b2] w3 E2. apply (queued_yields _ _ _ _ _ (payload_size_forward _ _)) in E2 as [[F1 F2] Hn].
  destruct len as [len|]; [|done]. specialize (Hn len eq_refl).
  apply mbind_ext. intros next w4 [-> Hnext]%m_lift_inv. apply ci_inv in Hnext as [-> _]. unfold ob_position in *.
  assert (Hb2 : sizeLimit (set_position b2 (position b2 + len)) - position (set_position b2 (position b2 + len)) <= Z.of_nat fuel)
    by (cbn; lia).
  apply mbind_ext. intros [[s|]|] w5 E5; [|done|by apply IH]. apply mbind_ext. intros u w6 E6. by apply IH.
Qed.

Lemma byte_forward b : qyields (based (get_byte b)) (fun '(_, b') => forward b b').
Proof. apply qyields_based. intros w [x b'] w' E. by apply get_byte_forward in E as [E _]. Qed.

Lemma envelope_forward c i a b :
  qyields (parseEnvelopeHeader gettime_ms char_signed my_subscriber directory_service olsr probe_contents c i a b)
    (fun '(_, _, b') => forward b b').
Proof.
  unfold parseEnvelopeHeader. apply qyields_any. intros t.
  eapply qyields_bind; [apply byte_forward|]. intros [version b1] F1. destruct (_ || _); [by apply qyields_ret|].
  eapply qyields_bind; [apply byte_forward|]. intros [encap b2] F2.
  assert (F : forward b b2) by (by etransitivity). clear F1 F2. destruct (_ && _); [by apply qyields_ret|].
  eapply qyields_bind; [apply qyields_carried, ryields_base, overlay_address_parse_forward|]. intros [[[r c3] b3] s] F3.
  assert (F' : forward b b3) by (by etransitivity). clear F F3. destruct (negb _); [by apply qyields_ret|].
  eapply qyields_bind; [apply byte_forward|]. intros [flags b4] F4.
  assert (F : forward b b4) by (by etransitivity). clear F' F4.
  eapply (qyields_bind _ _ (fun '(_, b') => forward b b')).
  { destruct (has _ _); [|by apply qyields_ret]. intros w [x b'] w' E. apply byte_forward in E. by etransitivity. }
  intros [si b5] F5. eapply (qyields_bind _ _ (fun '(_, b') => forward b b')).
  { destruct (has _ _); [|by apply qyields_ret]. eapply qyields_bind; [apply byte_forward|]. intros [x b6] F6.
    apply qyields_ret. by etransitivity. }
  intros [seq b6] F6. apply qyields_any. intros own. destruct own; [by apply qyields_ret|].
  apply qyields_any. intros x. by apply qyields_ret.
Qed.
End packets.

(** [C13] The loop over the frames of a packet ends: every frame that is read takes at least a
    byte, so the number of passes allowed for, one for each byte, is never reached, and what
    would happen then does not matter. *)
Theorem packet_terminates `{Allocator} `{NaCl} (gettime_ms random : nat -> Z) (char_signed : bool)
    (my_subscriber directory_service : option nat) (olsr : bool) (probe_contents : Z -> Z -> list Z)
    (probe_read : list Z -> Z * Z) (probe_size : Z) (keyring_get_nm_bytes : list Z -> list Z -> option (list Z))
    (keyring_find_sas_private : list Z -> option (list Z)) (sas_public : nat -> list Z)
    (urandombytes : nat -> option (list Z)) (sendto_client : list Z -> client_result)
    (service : Z -> mdp_frame -> Z * mdp_frame) (rhizome_mdp_server : bool) stuck interface p len address w :
  packet_ok_with gettime_ms random char_signed my_subscriber directory_service olsr probe_contents probe_read probe_size
    keyring_get_nm_bytes keyring_find_sas_private sas_public urandombytes sendto_client service rhizome_mdp_server
    stuck interface p len address w =
  packetOkOverlay gettime_ms random char_signed my_subscriber directory_service olsr probe_contents probe_read probe_size
    keyring_get_nm_bytes keyring_find_sas_private sas_public urandombytes sendto_client service rhizome_mdp_server
    interface p len address w.
Proof.
  unfold packetOkOverlay, packet_ok_with. destruct (match address with Some _ => _ | None => _ end); [done|].
  apply mbind_ext. intros t w1 _. apply mbind_ext. intros b w2 [-> Hb]%m_lift_inv. cbn zeta.
  apply mbind_ext. intros [[ret c] b'] w3 E. apply (queued_yields _ _ _ _ _ (envelope_forward _ _ _ _ _ _ _ _ _ _)) in E as [Fp Fl].
  destruct (negb _); [done|]. apply mbind_same, frames_loop_stuck. pose proof (limited_static _ _ _ Hb) as Hl. cbn zeta in Hl.
  rewrite Fl. lia.
Qed.
