(* ===== verification/MdpAnswers.v ===== *)
(** MdpAnswers: the daemon does not answer itself for ever.

    A datagram to one of our own identities is handed to the service at its port at once, and
    the service may send another one.  An echo goes on to a port that is not that of the echo,
    and a trace makes its payload longer. *)

From S2P Require Import Prelude CMem OverlayBuffer OverlayBufferCodec DataFormats Str Slip SubscriberTree OverlayAddress PacketFormats RouteLinks Route RouteWire RouteOps RouteReceive RouteProps Limit TxState OverlayQueue QueueInv QueueProps Effects Nonce Crypto MdpBindings MdpState Mdp MdpServices MdpClients Receive SystemInv ReceiveProps.

(** ** Buffers on an array *)

(** The buffer moved forward on the same memory. *)
Record walks (b b' : overlay_buffer) : Prop := {
  wk_forward : forward b b';
  wk_bytes : bytes b' = bytes b;
  wk_allocated : allocated b' = allocated b;
  wk_size : allocSize b' = allocSize b
}.

#[export] Instance walks_preorder : PreOrder walks.
Proof.
  split; [by split|]. intros b1 b2 b3 [F1 ? ? ?] [F2 ? ? ?]. split; [by transitivity b2|congruence..].
Qed.

Lemma walks_position b x : position b <= x -> walks b (set_position b x).
Proof. by split; [split|..]. Qed.

Lemma get_byte_walks b : yields (get_byte b) (fun '(_, b') => walks b b').
Proof.
  intros w [x b'] w'. unfold get_byte, ob_get. destruct (test_offset _ _ _) as [t|]; [|done]. cbn.
  destruct (negb (t =? 0)); cbn; [by intros [= _ <- _]|].
  destruct (bytes b) as [p|]; [|done]. cbn. destruct (load _ p _) as [v|]; [|done]. cbn.
  intros [= _ <- _]. apply walks_position. lia.
Qed.

Lemma get_bytes_ptr_walks b n : 0 <= n -> yields (lift (ob_get_bytes_ptr b n)) (fun '(_, b') => walks b b').
Proof.
  intros Hn w [x b'] w'. unfold lift, ob_get_bytes_ptr. destruct (test_offset _ _ _) as [t|]; [|done]. cbn.
  destruct (negb (t =? 0)); cbn; intros [= _ <- _]; [done|]. apply walks_position. lia.
Qed.

Lemma yields_lift {A B} (o : option A) (f : A -> M B) (Q : B -> Prop) :
  (forall x, o = Some x -> yields (f x) Q) -> yields (lift o ≫= f) Q.
Proof.
  intros Hf w y w'. unfold mbind, M_bind, lift. destruct o as [x|]; [|done]. cbn. by apply Hf.
Qed.

Section parsing.
Context `{Allocator}.
Context (gettime_ms : nat -> Z) (my_subscriber : option nat).

Lemma find_subscr_buffer_walks c b len v :
  yields (find_subscr_buffer gettime_ms my_subscriber c b len v) (fun '(_, _, b', _) => walks b b').
Proof.
  unfold find_subscr_buffer. destruct (_ || _) eqn:E; [by apply yields_ret|]. apply orb_false_iff in E as [E _]. zify_bool.
  eapply yields_bind; [apply get_bytes_ptr_walks; lia|]. intros [id b'] Hf.
  destruct id as [p|]; [|by apply yields_ret]. destruct v as [v|]; [|by apply yields_ret].
  apply yields_any. intros id. apply yields_any. intros [i|]; [by apply yields_ret|].
  apply yields_any. intros c1. apply yields_any. intros [? c2]. apply yields_any. intros [? c3]. by apply yields_ret.
Qed.

Lemma address_parse_walks c b v :
  yields (overlay_address_parse gettime_ms my_subscriber c b v) (fun '(_, _, b', _) => walks b b').
Proof.
  unfold overlay_address_parse. eapply yields_bind; [apply get_byte_walks|]. intros [len b1] Hf.
  destruct (len <? 0); [by apply yields_ret|].
  destruct (len =? OA_CODE_SELF).
  { destruct (sender c); [|by apply yields_ret]. destruct v; [by apply yields_ret|done]. }
  destruct (len =? OA_CODE_PREVIOUS).
  { destruct (previous c); [|by apply yields_ret]. destruct v; [by apply yields_ret|done]. }
  intros w [[[r c'] b'] v'] w' E. apply find_subscr_buffer_walks in E. by etransitivity.
Qed.

(** The way so far is read to the end of the payload. *)
Lemma trace_loop_walks fuel : forall c b next last,
  yields (trace_loop gettime_ms my_subscriber fuel c b next last)
    (fun t => forall c' b' n l, t = Some (c', b', n, l) -> walks b b' /\ sizeLimit b' <= position b').
Proof.
  induction fuel as [|fuel IH]; intros c b next last; cbn [trace_loop];
    apply yields_lift; intros rest Hr; unfold ob_remaining in Hr; apply ci_inv in Hr as [-> _]; destruct (_ <=? 0) eqn:Ez; zify_bool.
  1, 3: apply yields_ret; intros c' b' n l [= <- <- <- <-]; split; [done|lia].
  { done. }
  eapply yields_bind; [apply address_parse_walks|]. intros [[[r c1] b1] t] F. destruct (_ || _); [by apply yields_ret|].
  apply yields_any. intros i. apply yields_any. intros s. cbn zeta. intros w t' w' E c' b' n l Ht.
  destruct (IH _ _ _ _ _ _ _ E _ _ _ _ Ht) as [F' Hl]. split; [by etransitivity|done].
Qed.

Lemma trace_parse_walks b :
  yields (trace_parse gettime_ms my_subscriber b)
    (fun t => forall s d c b' n l, t = Some (s, d, c, b', n, l) -> walks b b' /\ sizeLimit b' <= position b').
Proof.
  unfold trace_parse. eapply yields_bind; [apply address_parse_walks|]. intros [[[r c1] b1] t] F1. destruct (negb _); [by apply yields_ret|].
  eapply yields_bind; [apply address_parse_walks|]. intros [[[r2 c2] b2] t2] F2. destruct (_ || _); [by apply yields_ret|].
  apply yields_any. intros src. apply yields_any. intros dst. eapply yields_bind; [apply trace_loop_walks|].
  intros x Hx. apply yields_ret. intros s d c b' n l. destruct x as [[[[c3 b3] n3] l3]|]; [|done]. intros [= _ _ <- <- <- <-].
  destruct (Hx _ _ _ _ eq_refl) as [F3 Hl]. split; [|done]. etransitivity; [exact F1|]. by etransitivity.
Qed.

(** An array does not grow. *)
Lemma append_from_fixed b m rd n r b' m' :
  is_Some (bytes b) -> allocated b = None -> 0 <= n -> ob_append_from b m rd n = Some (r, b', m') ->
  walks b b' /\ (r = 0 -> position b' = position b + n /\ position b' <= allocSize b).
Proof.
  intros Hb Ha Hn. unfold ob_append_from, ob_makespace. destruct (ci _) as [need|] eqn:En; [|done]. cbn [mbind option_bind].
  apply ci_inv in En as [-> _].
  assert (Hfail : Some (-1, b, m) = Some (r, b', m') -> walks b b' /\ (r = 0 -> position b' = position b + n /\ position b' <= allocSize b)).
  { intros [= <- <- _]. split; [done|lia]. }
  destruct (_ && _); [done|]. destruct (_ <=? _) eqn:E; zify_bool.
  - cbn. destruct (rd m); [|done]. cbn. destruct (set_at _ _ _ _); [|done]. cbn. destruct (ci _) as [x|] eqn:Ex; [|done].
    apply ci_inv in Ex as [-> _]. cbn. intros [= <- <- _]. split; [apply walks_position; lia|]. cbn. lia.
  - rewrite Ha. rewrite bool_decide_eq_true_2 by done. done.
Qed.

Definition fixed (b : overlay_buffer) : Prop := is_Some (bytes b) /\ allocated b = None.

Lemma walks_fixed b b' : walks b b' -> fixed b -> fixed b'.
Proof. intros [_ E1 E2 _]. unfold fixed. by rewrite E1, E2. Qed.

Lemma append_fixed b rd n : fixed b -> 0 <= n ->
  yields (on_buffer (fun m => ob_append_from b m rd n))
    (fun '(r, b') => walks b b' /\ (r = 0 -> position b' = position b + n /\ position b' <= allocSize b)).
Proof.
  intros [Hb Ha] Hn w [r b'] w'. unfold on_buffer. destruct (ob_append_from _ _ _ _) as [[[x b1] m]|] eqn:E; [|done].
  intros [= <- <- _]. by eapply append_from_fixed.
Qed.

Lemma address_append_fixed c b i : fixed b ->
  yields (overlay_address_append c b (Some i))
    (fun '(r, _, b') => walks b b' /\ (r = 0 -> position b < position b' /\ position b' <= allocSize b)).
Proof.
  intros Hf. unfold overlay_address_append.
  eapply (yields_bind _ _ (fun '(r, b') => walks b b' /\ (r = 0 -> position b < position b' /\ position b' <= allocSize b))).
  2: { intros [r b'] [W Hr]. destruct (negb _) eqn:E; zify_bool; apply yields_ret; (split; [done|]); [lia|by intros _; apply Hr]. }
  assert (Hone : forall x, yields (on_buffer (fun m => ob_append_byte b m x))
    (fun '(r, b') => walks b b' /\ (r = 0 -> position b < position b' /\ position b' <= allocSize b))).
  { intros x w [r b'] w' E. apply (append_fixed b _ 1 Hf) in E as [W Hr]; [|lia]. split; [done|]. intros H0. specialize (Hr H0). lia. }
  destruct (is_subscriber _ i); [apply Hone|]. destruct (is_subscriber _ i); [apply Hone|].
  apply yields_any. intros s. destruct (address_len s) as [len s']. apply yields_any. intros _.
  eapply yields_bind; [apply Hone|]. intros [r b1] [W Hr]. destruct (negb _) eqn:E; zify_bool; [by apply yields_ret|].
  intros w [r' b'] w' E'. apply append_fixed in E' as [W' Hr']; [|by eapply walks_fixed|lia].
  split; [by etransitivity|]. intros H0. destruct W as [_ _ _ Es]. specialize (Hr E). specialize (Hr' H0). rewrite Es in Hr'. lia.
Qed.

(** ** A trace makes its payload longer *)

(** The room that is left in a payload; one that is longer than the array counts as empty. *)
Definition room (n : Z) : Z := if (0 <=? n) && (n <=? MDP_PAYLOAD) then MDP_PAYLOAD - n else MDP_PAYLOAD + 1.

Lemma trace_buffer p n b : ob_static p MDP_PAYLOAD = Some b ->
  let b := default b (snd (ob_limitsize (Some b) n)) in
  fixed b /\ allocSize b = MDP_PAYLOAD /\ 0 <= position b /\ (0 <= n <= MDP_PAYLOAD -> sizeLimit b = n).
Proof.
  unfold ob_static. destruct calloc_ok; [|done]. cbn. intros <-%(inj Some). cbn.
  repeat match goal with |- context [if ?c then _ else _] => destruct c eqn:?; cbn end; zify_bool;
    (split; [by split|]); repeat split; try lia.
Qed.

Lemma static_buffer_ok p n :
  ryields (static_buffer p MDP_PAYLOAD n)
    (fun b => fixed b /\ allocSize b = MDP_PAYLOAD /\ 0 <= position b /\ (0 <= n <= MDP_PAYLOAD -> sizeLimit b = n)).
Proof.
  unfold static_buffer. intros w x w'. unfold mbind, RM_bind, r_lift. destruct (ob_static p MDP_PAYLOAD) as [b|] eqn:E; [|done].
  cbn [mbind option_bind]. intros [= <- _]. by apply (trace_buffer p n b).
Qed.

Lemma unlimited_walks b : fixed b ->
  let b' := default b (snd (ob_unlimitsize (Some b))) in fixed b' /\ allocSize b' = allocSize b /\ position b' = position b.
Proof. done. Qed.

Lemma trace_step_grows f p :
  ryields (trace_step gettime_ms my_subscriber f p)
    (fun t => forall back next n d, t = Some (back, Some (next, n, d)) ->
      0 <= n <= MDP_PAYLOAD /\ room n < room (payload_length f)).
Proof.
  unfold trace_step. eapply ryields_bind; [apply static_buffer_ok|]. intros b (Hf & Ha & Hp & Hn).
  eapply ryields_bind; [apply ryields_base, trace_parse_walks|].
  intros [[[[[[src dst] c] b1] nx] last]|] Ht; [|by apply ryields_ret]. destruct (Ht _ _ _ _ _ _ eq_refl) as [[[W1 W2] W3 W4 W5] Hl]. clear Ht.
  apply ryields_any. intros s. cbn zeta. do 5 (apply ryields_any; intros ?).
  destruct (unlimited_walks b1) as (Hf2 & Ha2 & Hp2); [by split; [rewrite W3; apply Hf|rewrite W4; apply Hf]|].
  eapply ryields_bind; [by apply ryields_base, address_append_fixed|]. intros [[r ctx] b2] [[[V1 V2] V3 V4 V5] Hr]. cbn zeta.
  destruct (negb _) eqn:E; zify_bool; [by apply ryields_ret|]. specialize (Hr E). apply ryields_any. intros d.
  apply ryields_ret. intros back next n d' [= _ _ <- _]. unfold room, ob_position, MDP_PAYLOAD, MDP_MTU in *.
  destruct (_ && _) eqn:E1, (0 <=? payload_length f) eqn:E2, (payload_length f <=? _) eqn:E3; cbn [andb]; zify_bool; lia.
Qed.
End parsing.

(** ** Answers *)

(** How long a datagram can keep the daemon busy with itself. *)
Definition rank (f : mdp_frame) : Z :=
  if dst_port f =? MDP_PORT_ECHO then 2 * room (payload_length f) + 3
  else if dst_port f =? MDP_PORT_TRACE then 2 * room (payload_length f) + 2
  else if dst_port f =? MDP_PORT_STUNREQ then 1 else 0.

Lemma room_bounds n : 0 <= room n <= 1101.
Proof. unfold room, MDP_PAYLOAD, MDP_MTU. destruct (0 <=? n) eqn:E1, (n <=? _) eqn:E2; cbn [andb]; zify_bool; lia. Qed.

Lemma rank_bounds f : 0 <= rank f < Z.of_nat DISPATCH_FUEL.
Proof.
  unfold rank, DISPATCH_FUEL. pose proof (room_bounds (payload_length f)).
  repeat match goal with |- context [if ?c then _ else _] => destruct c end; lia.
Qed.

Lemma rank_other f : dst_port f <> MDP_PORT_ECHO -> rank f <= 2 * room (payload_length f) + 2.
Proof.
  intros He. unfold rank. pose proof (room_bounds (payload_length f)).
  repeat match goal with |- context [if ?c then _ else _] => destruct c eqn:? end; zify_bool; lia.
Qed.

Lemma rank_trace f : dst_port f = MDP_PORT_TRACE -> rank f = 2 * room (payload_length f) + 2.
Proof. unfold rank. by intros ->. Qed.

Lemma rank_any f : rank f <= 2 * room (payload_length f) + 3.
Proof.
  unfold rank. pose proof (room_bounds (payload_length f)).
  repeat match goal with |- context [if ?c then _ else _] => destruct c end; lia.
Qed.

Section answers.
Context `{Allocator} `{NaCl}.
Context (gettime_ms random : nat -> Z) (char_signed : bool) (my_subscriber directory_service : option nat).
Context (olsr : bool) (probe_contents : Z -> Z -> list Z).
Context (probe_read : list Z -> Z * Z) (probe_size : Z).
Context (keyring_get_nm_bytes : list Z -> list Z -> option (list Z)).
Context (keyring_find_sas_private : list Z -> option (list Z)).
Context (urandombytes : nat -> option (list Z)).
Context (sendto_client : list Z -> client_result).
Context (service : Z -> mdp_frame -> Z * mdp_frame) (rhizome_mdp_server : bool).

Abbreviation services := (overlay_mdp_try_interal_services gettime_ms random char_signed my_subscriber directory_service olsr
  probe_contents probe_read probe_size service rhizome_mdp_server).

(** Two ways to go on that agree on the datagrams that are over sooner. *)
Definition agree (n : Z) (d d' : mdp_frame -> MM (Z * mdp_frame)) : Prop := forall f w, rank f < n -> d f w = d' f w.

Lemma echo_agree d d' f : dst_port f = MDP_PORT_ECHO -> agree (rank f) d d' ->
  forall w, overlay_mdp_service_echo my_subscriber d f w = overlay_mdp_service_echo my_subscriber d' f w.
Proof.
  intros Hf Ha w. unfold overlay_mdp_service_echo. cbn zeta. destruct (_ =? MDP_PORT_ECHO) eqn:E; [done|]. zify_bool.
  apply mbind_ext. intros all w1 _. apply mbind_ext. intros g w2 Eg. apply mbind_same, Ha.
  assert (Hg : dst_port g = src_port f /\ payload_length g = payload_length f).
  { revert Eg. destruct all; [|by intros [= <- _]]. destruct my_subscriber as [me|]; [|by intros [= <- _]].
    intros (s & w3 & _ & [= <- _])%mbind_inv. done. }
  destruct Hg as [Hd Hl].
  match goal with |- rank ?x < _ => pose proof (rank_other x) as Hr; cbn [dst_port payload_length set_mdp_type] in Hr end.
  rewrite Hd, Hl in Hr. unfold rank at 2. rewrite Hf. cbn in E. rewrite Z.eqb_refl. specialize (Hr E). lia.
Qed.

Lemma queued_carried {A} (m : RM A) (P : A -> Prop) w x w' : ryields m P ->
  queued (carried gettime_ms my_subscriber directory_service olsr probe_contents m) w = Some (x, w') -> P x.
Proof. intros Hm. by apply queued_yields, qyields_carried. Qed.

Lemma trace_agree d d' f : dst_port f = MDP_PORT_TRACE -> agree (rank f) d d' ->
  forall w, overlay_mdp_service_trace gettime_ms my_subscriber directory_service olsr probe_contents d f w =
    overlay_mdp_service_trace gettime_ms my_subscriber directory_service olsr probe_contents d' f w.
Proof.
  intros Hf Ha w. unfold overlay_mdp_service_trace. apply mbind_ext. intros t w1 E.
  pose proof (queued_carried _ _ _ _ _ (ryields_array _ _ _ (trace_step_grows _ _ f)) E) as Ht.
  destruct t as [[back [[[next n] bytes]|]]|]; [|done..]. destruct (Ht _ _ _ _ eq_refl) as [Hn Hr]. cbn zeta.
  do 3 (apply mbind_ext; intros ? ? _). apply Ha.
  eapply Z.le_lt_trans; [apply rank_any|]. cbn [payload_length set_dst set_src set_mdp_payload].
  rewrite (rank_trace _ Hf). unfold u16. rewrite Z.mod_small by (unfold MDP_PAYLOAD, MDP_MTU in Hn; lia). lia.
Qed.

Lemma stun_req_agree d d' f : dst_port f = MDP_PORT_STUNREQ -> agree (rank f) d d' ->
  forall w, overlay_mdp_service_stun_req d f w = overlay_mdp_service_stun_req d' f w.
Proof.
  intros Hf Ha w. unfold overlay_mdp_service_stun_req. apply mbind_ext. intros [n bytes] w1 _. apply mbind_same.
  destruct (negb _); [|done]. apply mbind_same, Ha. unfold rank. rewrite Hf. cbn. lia.
Qed.

Lemma services_agree d d' f w : agree (rank f) d d' -> services d f w = services d' f w.
Proof.
  intros Ha. unfold overlay_mdp_try_interal_services.
  repeat match goal with |- (if ?c then _ else _) _ = _ => destruct c eqn:?; [try done|] end; zify_bool; try done.
  - by apply echo_agree.
  - by apply trace_agree.
  - by apply mbind_same, stun_req_agree.
Qed.

Lemma dispatch_agree saw saw' c f w :
  (forall g w, dst_port g = dst_port f -> payload_length g = payload_length f -> saw g w = saw' g w) ->
  dispatch_with gettime_ms random my_subscriber directory_service olsr probe_contents keyring_get_nm_bytes
    keyring_find_sas_private urandombytes sendto_client saw c f w =
  dispatch_with gettime_ms random my_subscriber directory_service olsr probe_contents keyring_get_nm_bytes
    keyring_find_sas_private urandombytes sendto_client saw' c f w.
Proof.
  intros Hs. unfold dispatch_with. apply mbind_ext. intros src w1 E.
  assert (Hg : forall i g, src = Some (i, g) -> dst_port g = dst_port f /\ payload_length g = payload_length f).
  { intros i g ->. unfold dispatch_source in E. apply mbind_inv in E as (any & w2 & _ & E). destruct any.
    - apply mbind_inv in E as (me & w3 & _ & E). apply mbind_inv in E as (s & w4 & _ & [= _ <- _]). done.
    - apply mbind_inv in E as (all & w3 & _ & E). destruct all; [done|].
      apply mbind_inv in E as (j & w4 & _ & E). destruct j; [|done]. apply mbind_inv in E as (s & w5 & _ & E).
      destruct (negb _); [done|]. by injection E as _ <- _. }
  destruct src as [[i g]|]; [|done]. destruct (Hg _ _ eq_refl) as [H1 H2].
  apply mbind_ext. intros t w2 _. apply mbind_ext. intros ok w3 _. destruct (negb _); [done|].
  apply mbind_ext. intros all w4 _. destruct (_ && _); [done|]. apply mbind_ext. intros [dst bid] w5 _. cbn zeta.
  destruct (_ <? _); [done|]. apply mbind_ext. intros own w6 _. apply mbind_same.
  destruct (_ || _); [|done]. apply mbind_ext. intros now w7 _. by apply mbind_same, Hs.
Qed.

Lemma saw_agree d d' f w : agree (rank f) d d' ->
  saw_mdp_frame_with sendto_client (services d) None f w = saw_mdp_frame_with sendto_client (services d') None f w.
Proof.
  intros Ha. unfold saw_mdp_frame_with. destruct (negb _); [done|]. apply mbind_ext. intros dst w1 _.
  apply mbind_ext. intros t w2 _. destruct (find_match _ _ _ _ _); [done|]. by apply services_agree.
Qed.

Abbreviation dispatch_fuel := (MdpServices.dispatch_fuel gettime_ms random char_signed my_subscriber directory_service olsr
  probe_contents probe_read probe_size keyring_get_nm_bytes keyring_find_sas_private urandombytes sendto_client service
  rhizome_mdp_server).

Lemma dispatch_fuel_agree stuck stuck' fuel : forall c f w, rank f < Z.of_nat fuel ->
  dispatch_fuel stuck fuel c f w = dispatch_fuel stuck' fuel c f w.
Proof.
  induction fuel as [|fuel IH]; intros c f w Hf; [pose proof (rank_bounds f); lia|]. cbn [MdpServices.dispatch_fuel].
  apply dispatch_agree. intros g w1 Hp Hl. apply saw_agree. intros h w2 Hh. apply IH.
  assert (rank g = rank f) by (unfold rank; by rewrite Hp, Hl). lia.
Qed.
End answers.

(** [C14] The services of overlay_mdp_services.c do not keep the daemon answering itself: a
    datagram for one of our identities may be answered with an echo, a trace or a list of
    addresses, and that answer again, but a trace takes room in the payload and an echo does not
    follow an echo, so at most 2205 answers follow each other and the depth allowed for is never
    reached, whatever the datagram, its client and the state of the daemon are.  VoMP, the key
    mapping, the DNA lookup and Rhizome are not among these services: a datagram for one of
    them counts as taken, and what they send in their turn is not followed. *)
Theorem own_answers_end `{Allocator} `{NaCl} (gettime_ms random : nat -> Z) (char_signed : bool)
    (my_subscriber directory_service : option nat) (olsr : bool) (probe_contents : Z -> Z -> list Z)
    (probe_read : list Z -> Z * Z) (probe_size : Z) (keyring_get_nm_bytes : list Z -> list Z -> option (list Z))
    (keyring_find_sas_private : list Z -> option (list Z)) (urandombytes : nat -> option (list Z))
    (sendto_client : list Z -> client_result) (service : Z -> mdp_frame -> Z * mdp_frame) (rhizome_mdp_server : bool) stuck c f w :
  dispatch_fuel gettime_ms random char_signed my_subscriber directory_service olsr probe_contents probe_read probe_size
    keyring_get_nm_bytes keyring_find_sas_private urandombytes sendto_client service rhizome_mdp_server stuck DISPATCH_FUEL c f w =
  overlay_mdp_dispatch gettime_ms random char_signed my_subscriber directory_service olsr probe_contents probe_read probe_size
    keyring_get_nm_bytes keyring_find_sas_private urandombytes sendto_client service rhizome_mdp_server c f w.
Proof. apply dispatch_fuel_agree, rank_bounds. Qed.
