(* ===== verification/MdpProps.v ===== *)
(** MdpProps: what the datagram service guarantees to its clients and to other nodes, and
    where it goes wrong. *)

From S2P Require Import Prelude CMem OverlayBuffer OverlayBufferCodec DataFormats Str Slip SubscriberTree OverlayAddress PacketFormats RouteLinks Route RouteWire RouteOps RouteReceive Limit TxState OverlayQueue QueueInv QueueProps Effects Nonce Crypto MdpBindings MdpState Mdp MdpServices MdpClients Receive SystemInv.

(** ** Clients send from their own addresses *)

Definition directory_of (w : mworld) : directory := w_dir (rw (q_route (m_q w))).

(** The identities a datagram may be from: the one it names, if that is ours, or ours if it
    names none. *)
Definition speaks_for (my_subscriber : option nat) (w : mworld) (f : mdp_frame) (i : nat) : Prop :=
  (is_sid_any (src_sid f) = Some true /\ my_subscriber = Some i) \/
  exists s, subscribers (directory_of w) !! i = Some s /\ sid s = src_sid f /\ reachable s = REACHABLE_SELF.

Lemma find_sub_exact w id r w' : directory_wf (directory_of w) -> are_bytes id -> length id = SID_SIZE ->
  m_based (find_sub id SID_SIZE false) w = Some (r, w') ->
  w' = w /\ forall i, r = Some i -> exists s, subscribers (directory_of w) !! i = Some s /\ sid s = id.
Proof.
  intros Hd Hb Hl. unfold m_based, queued, based, routed, base, find_sub. fold (directory_of w).
  destruct (find_abbrev_spec (directory_of w) id SID_SIZE false) as (x & Ex & Hx); [done..|rewrite Hl; unfold SID_SIZE; lia|done|done|].
  rewrite Ex. cbn. intros [= -> <-]. split.
  - destruct w as [[[[] ? ? ? ? ? ? ?] ? ? ? ? ? ? ? ? ? ?] ? ? ? ?]. done.
  - intros i Hi. apply Hx in Hi as [(s & Hs & Ht) _]. exists s. split; [done|].
    destruct (directory_member _ _ _ Hd Hs) as (Hlen & _ & _). rewrite !take_ge in Ht by (rewrite ?Hlen, ?Hl; lia). done.
Qed.

Section dispatch.
Context `{Allocator} `{NaCl}.
Context (gettime_ms random : nat -> Z) (char_signed : bool) (my_subscriber directory_service : option nat).
Context (olsr : bool) (probe_contents : Z -> Z -> list Z).
Context (keyring_get_nm_bytes : list Z -> list Z -> option (list Z)).
Context (keyring_find_sas_private : list Z -> option (list Z)).
Context (urandombytes : nat -> option (list Z)).
Context (sendto_client : list Z -> client_result).

Lemma based_get_sub i w s w' : m_based (get_sub i) w = Some (s, w') -> w' = w /\ subscribers (directory_of w) !! i = Some s.
Proof.
  unfold m_based, queued, based, routed, base, get_sub, directory_of. destruct (_ !! i) as [x|]; [|done]. cbn. intros [= -> <-].
  split; [|done]. by destruct w as [[[] ? ? ? ? ? ? ? ? ? ?] ? ? ? ?].
Qed.

Lemma dispatch_source_spec w f r w' : directory_wf (directory_of w) -> are_bytes (src_sid f) -> length (src_sid f) = SID_SIZE ->
  dispatch_source my_subscriber f w = Some (r, w') ->
  w' = w /\ forall i g, r = Some (i, g) -> speaks_for my_subscriber w f i /\ src_port g = src_port f.
Proof.
  intros Hd Hb Hl E. unfold dispatch_source in E. apply mbind_inv in E as (any & w1 & [-> Ha]%m_lift_inv & E). destruct any.
  - apply mbind_inv in E as (me & w1 & [-> Hm]%m_lift_inv & E).
    apply mbind_inv in E as (s & w1 & [-> Hs]%based_get_sub & [= <- <-]). split; [done|]. intros i g [= <- <-]. split; [by left|done].
  - apply mbind_inv in E as (all & w1 & [-> _]%m_lift_inv & E). destruct all; [by injection E as <- <-|].
    apply mbind_inv in E as (j & w1 & E1 & E). destruct (find_sub_exact _ _ _ _ Hd Hb Hl E1) as [-> Hj].
    destruct j as [j|]; [|by injection E as <- <-]. destruct (Hj _ eq_refl) as (s & Hs & Hsid).
    apply mbind_inv in E as (s' & w1 & [-> Hs']%based_get_sub & [= <- <-]). split; [done|]. intros i g.
    destruct (negb _) eqn:Er; [done|]. intros [= <- <-]. zify_bool. split; [|done]. right. exists s. simplify_eq. done.
Qed.

Lemma dispatch_once_spec saw w m c f r w' :
  directory_wf (directory_of w) -> are_bytes (src_sid f) -> length (src_sid f) = SID_SIZE -> table_repr (m_table w) m ->
  peer_ok c ->
  dispatch_with gettime_ms random my_subscriber directory_service olsr probe_contents keyring_get_nm_bytes
    keyring_find_sas_private urandombytes sendto_client saw (Some c) f w = Some (r, w') ->
  (exists i, speaks_for my_subscriber w f i /\ 2 <= addrlen c /\
     (holds m c (i32 (src_port f)) (Some i) \/ left_over (m_table w) c (i32 (src_port f)) (Some i))) \/
  w' = w \/ exists message, w' = set_m_events w (m_events w ++ [Replied c (MdpError 8 message)]).
Proof.
  intros Hd Hb Hl R Hc E. unfold dispatch_with in E. apply mbind_inv in E as (src & w1 & E1 & E).
  destruct (dispatch_source_spec _ _ _ _ Hd Hb Hl E1) as [-> Hs]. destruct src as [[i g]|]; [|right; left; by injection E as _ <-].
  destruct (Hs _ _ eq_refl) as [Hi Hg]. apply mbind_inv in E as (t & w1 & [= <- <-] & E).
  apply mbind_inv in E as (ok & w1 & [-> Hok]%m_lift_inv & E). rewrite Hg in Hok.
  destruct (check_spec _ _ (Some i) (i32 (src_port f)) c R Hc) as (x & Hx & Hr). simplify_eq. destruct (negb _) eqn:E0; zify_bool.
  - right. right. apply mbind_inv in E as (y & w1 & E & [= _ <-]). unfold overlay_mdp_reply_error, overlay_mdp_reply in E.
    apply mbind_inv in E as (u & w2 & [= _ <-] & [= _ <-]). by eexists.
  - left. exists i. split; [done|]. by apply Hr.
Qed.
End dispatch.

(** [C11] A client sends only from an address that it holds: when it is not bound to the port
    the datagram names, at one of our identities that the datagram names or at any, nothing is
    queued, delivered, answered by a service or used up; at most the client is told so.  The one
    exception is port 0, which marks the free slots of the table: a client passes for bound to it
    when what is left in a free slot names it, and an empty name does so in a slot that was never
    used.  A socket that has no name at all never sends.  The directory and the table of bindings
    are in order, as every operation of the daemon keeps them. *)
Theorem no_spoofing `{Allocator} `{NaCl} (gettime_ms random : nat -> Z) (char_signed : bool)
    (my_subscriber directory_service : option nat) (olsr : bool) (probe_contents : Z -> Z -> list Z)
    (probe_read : list Z -> Z * Z) (probe_size : Z) (keyring_get_nm_bytes : list Z -> list Z -> option (list Z))
    (keyring_find_sas_private : list Z -> option (list Z)) (urandombytes : nat -> option (list Z))
    (sendto_client : list Z -> client_result) (service : Z -> mdp_frame -> Z * mdp_frame) (rhizome_mdp_server : bool) m c f w r w' :
  directory_wf (directory_of w) -> are_bytes (src_sid f) -> length (src_sid f) = SID_SIZE -> table_repr (m_table w) m ->
  peer_ok c ->
  overlay_mdp_dispatch gettime_ms random char_signed my_subscriber directory_service olsr probe_contents probe_read probe_size
    keyring_get_nm_bytes keyring_find_sas_private urandombytes sendto_client service rhizome_mdp_server (Some c) f w = Some (r, w') ->
  (exists i, speaks_for my_subscriber w f i /\ 2 <= addrlen c /\
     (holds m c (i32 (src_port f)) (Some i) \/ left_over (m_table w) c (i32 (src_port f)) (Some i))) \/
  w' = w \/ exists message, w' = set_m_events w (m_events w ++ [Replied c (MdpError 8 message)]).
Proof.
  intros Hd Hb Hl R Hc E. unfold overlay_mdp_dispatch in E. destruct DISPATCH_FUEL; [done|]. cbn [dispatch_fuel] in E.
  by eapply dispatch_once_spec in E.
Qed.

Abbreviation demo_dispatch :=
  (overlay_mdp_dispatch demo_clock (fun _ => 0) true (Some 0%nat) None false
     (fun _ _ => replicate 20 0) (fun _ => (0, 0)) 20 (fun _ _ => Some (replicate 32 0)) (fun _ => None) (fun _ => None)
     (fun _ => ClientOk) (fun _ f => (0, f)) false).

Lemma no_spoofing_witness :
  exists r w', demo_dispatch (Some demo_client) (demo_datagram (replicate 32 0) sid_b 7) (demo_daemon_with two_subscribers zero_table) = Some (r, w') /\
    exists message, w' = set_m_events (demo_daemon_with two_subscribers zero_table) [Replied demo_client (MdpError 8 message)].
Proof.
  destruct (demo_dispatch (Some demo_client) (demo_datagram (replicate 32 0) sid_b 7) (demo_daemon_with two_subscribers zero_table))
    as [[r w']|] eqn:E; [|vm_compute in E; discriminate].
  exists r, w'. split; [reflexivity|].
  apply (no_spoofing demo_clock) with (m := ∅) in E as D;
    [|exact two_subscribers_wf|repeat constructor; lia|reflexivity|exact zero_table_repr|split; cbn; lia].
  destruct D as [(i & _ & _ & [[Hh|Hh]|[Hh _]])|[->|Hm]].
  - rewrite lookup_empty in Hh. discriminate.
  - rewrite lookup_empty in Hh. discriminate.
  - vm_compute in Hh. discriminate.
  - vm_compute in E. discriminate.
  - exact Hm.
Defined.

(** A client with an empty name, bound to nothing, passes for bound to port 0. *)
Example port_zero_unbound :
  overlay_mdp_check_binding (Some 0%nat) 0 (Some (mk_client (replicate 1022 0) 2)) zero_table = Some 0.
Proof. vm_compute. reflexivity. Qed.
