(* ===== verification/MdpWire.v ===== *)
(** MdpWire: a datagram on its way: what [dispatch_payload] writes, [overlay_mdp_decrypt]
    reads. *)

From S2P Require Import Prelude CMem OverlayBuffer OverlayBufferCodec DataFormats Str Slip SubscriberTree OverlayAddress PacketFormats RouteLinks Route RouteWire RouteOps RouteReceive Limit TxState OverlayQueue QueueInv QueueProps Effects Nonce Crypto MdpBindings MdpState Mdp MdpServices MdpClients Receive SystemInv.

(** ** Running the code step by step *)

Lemma M_step {A B} (m : M A) (f : A -> M B) w x w1 : m w = Some (x, w1) -> (m ≫= f) w = f x w1.
Proof. unfold mbind, M_bind. by intros ->. Qed.

Lemma M_lift_step {A B} (o : option A) (f : A -> M B) w x : o = Some x -> (lift o ≫= f) w = f x w.
Proof. intros ->. done. Qed.

(** The base of the daemon's state, below routing. *)
Definition base_of (w : mworld) : world := rw (q_route (m_q w)).
Definition set_base (w : mworld) (x : world) : mworld := set_m_q w (set_route (m_q w) (set_rw (q_route (m_q w)) x)).

Lemma based_step {A B} (m : M A) (f : A -> MM B) w x w1 :
  m (base_of w) = Some (x, w1) -> (m_based m ≫= f) w = f x (set_base w w1).
Proof. unfold mbind, MM_bind, m_based, queued, based, routed, base, base_of. by intros ->. Qed.

Lemma mbind_run {A B} (m : MM A) (f : A -> MM B) w x w1 : m w = Some (x, w1) -> (m ≫= f) w = f x w1.
Proof. unfold mbind, MM_bind. by intros ->. Qed.

Lemma lift_step {A B} (o : option A) (f : A -> MM B) w x : o = Some x -> (m_lift o ≫= f) w = f x w.
Proof. intros ->. done. Qed.

Lemma on_buffer_step {A B} (g : mem -> option (A * overlay_buffer * mem)) (f : A * overlay_buffer -> M B) w a b m :
  g (w_mem w) = Some (a, b, m) -> (on_buffer g ≫= f) w = f (a, b) (set_mem w m).
Proof. unfold mbind, M_bind, on_buffer. by intros ->. Qed.

(** ** A buffer that grows *)

Record growing (m : mem) (b : overlay_buffer) (d : list Z) : Prop := {
  gr_wf : ob_wf m b;
  gr_limit : sizeLimit b = -1;
  gr_static : ob_is_static b = false;
  gr_data : ob_data m b = Some d
}.

Lemma growing_position m b d : growing m b d -> position b = zlen d.
Proof. intros [W _ _ D]. destruct (ob_wf_data _ _ W) as (d' & D' & Hl & _). assert (d' = d) as -> by congruence. done. Qed.

Lemma growing_bytes m b d : growing m b d -> are_bytes d.
Proof. intros [W _ _ D]. destruct (ob_wf_data _ _ W) as (d' & D' & _ & Hb). assert (d' = d) as -> by congruence. done. Qed.

Lemma growing_room m b d n : growing m b d -> ob_room b n = true.
Proof. intros G. apply ob_room_spec. split; [left|right]; apply G. Qed.

Lemma growing_new `{Allocator} m : calloc_ok = true -> exists b, ob_new = Some b /\ growing m b [].
Proof.
  intros Hc. destruct ob_new as [b|] eqn:E; [|unfold ob_new in E; by rewrite Hc in E]. exists b. split; [done|].
  destruct (ob_new_abs b m E) as [W D _ _]. unfold ob_new in E. rewrite Hc in E. injection E as <-. split; try done.
Qed.

Section appending.
Context `{Allocator} (never : never_refuses).

Lemma grow_append m b d0 rd n d : growing m b d0 -> are_bytes d -> zlen d = n -> zlen d0 + n <= OB_MAX ->
  (forall b' m', made_space b b' m m' n -> rd m' = Some d) ->
  exists b' m', ob_append_from b m rd n = Some (0, b', m') /\ growing m' b' (d0 ++ d).
Proof.
  intros G Hd Hn HM Hrd. pose proof (growing_position _ _ _ G) as Hp.
  pose proof (ob_append_from_spec b m rd n d never (gr_wf _ _ _ G) Hd Hn ltac:(lia) Hrd) as HS.
  rewrite (growing_room _ _ _ _ G) in HS. destruct HS as (b' & m' & E & W' & _ & L' & _ & S' & _ & _ & D' & _).
  exists b', m'. split; [done|]. split; [done|rewrite L'; apply G|rewrite S'; apply G|]. apply D', G.
Qed.

Lemma grow_packed fuel : forall m b d0 v, growing m b d0 -> 0 <= v < 2 ^ (7 * Z.of_nat fuel) -> (0 < fuel)%nat ->
  zlen d0 + Z.of_nat fuel <= OB_MAX ->
  exists b' m', append_packed fuel b m v = Some (0, b', m') /\ growing m' b' (d0 ++ packed fuel v).
Proof.
  induction fuel as [|f IH]; intros m b d0 v G Hv Hf HM; [lia|]. cbn [append_packed]. unfold packed; fold packed.
  set (x := Z.lor (Z.land v 127) (if 127 <? v then 128 else 0)). assert (Hx : is_byte x) by (apply packed_byte_is; lia).
  destruct (grow_append m b d0 (fun _ => Some [u8 x]) 1 [x] G) as (b1 & m1 & E & G1);
    [by apply Forall_singleton|done|lia|by rewrite u8_id|].
  unfold ob_append_byte. rewrite E. cbn. destruct (Z.shiftr v 7 =? 0) eqn:Ez; [by exists b1, m1|]. zify_bool.
  destruct f as [|f]; [exfalso; apply Ez; rewrite Z.shiftr_div_pow2 by lia; apply Z.div_small; cbn in Hv; lia|].
  destruct (IH m1 b1 (d0 ++ [x]) (Z.shiftr v 7) G1) as (b' & m' & E' & G');
    [by apply shiftr7_lt|lia|rewrite length_app; cbn [length]; lia|].
  exists b', m'. split; [done|]. by rewrite <-app_assoc in G'.
Qed.

(** The ports as they are written: the first is doubled, and loses its top bit by that. *)
Definition ports_wire (dst src : Z) : list Z :=
  if dst =? src then packed 10 (u32 (2 * dst) + 1) else packed 10 (u32 (2 * dst)) ++ packed 10 src.

(** What the doubled port is taken for: its low 31 bits as a signed number, in 32 bits. *)
Definition port_received (p : Z) : Z := u32 ((p + 2 ^ 30) mod 2 ^ 31 - 2 ^ 30).

Lemma port_received_id p : 0 <= p < 2 ^ 30 -> port_received p = p.
Proof. intros Hp. unfold port_received. rewrite Z.mod_small by lia. rewrite Z.add_simpl_r. apply u32_id. lia. Qed.

Lemma ports_wire_length dst src : zlen (ports_wire dst src) <= 20.
Proof.
  unfold ports_wire. pose proof (packed_length 10 (u32 (2 * dst) + 1)). pose proof (packed_length 10 (u32 (2 * dst))). pose proof (packed_length 10 src).
  destruct (dst =? src); rewrite ?length_app; lia.
Qed.

Lemma u32_small_packed v : 0 <= v < 2 ^ 32 -> 0 <= v < 2 ^ (7 * Z.of_nat 10).
Proof. intros. split; [lia|]. apply Z.lt_trans with (2 ^ 32); [lia|reflexivity]. Qed.

Lemma u32_even p : u32 (2 * p) = 2 * (p mod 2 ^ 31).
Proof. unfold u32. change (2 ^ 32) with (2 * 2 ^ 31). apply Z.mul_mod_distr_l; lia. Qed.

Lemma u32_i32_inj a b : 0 <= a < 2 ^ 32 -> 0 <= b < 2 ^ 32 -> (i32 a =? i32 b) = (a =? b).
Proof.
  intros Ha Hb. destruct (Z.eqb_spec a b) as [->|Hne]; [apply Z.eqb_refl|]. apply Z.eqb_neq. intros E. apply Hne.
  rewrite <-(u32_id a), <-(u32_id b), <-(u32_i32 a), <-(u32_i32 b), E by done. done.
Qed.

Lemma encode_ports_spec w b d0 dst src : growing (w_mem w) b d0 -> 0 <= dst < 2 ^ 32 -> 0 <= src < 2 ^ 32 -> zlen d0 <= 2 ^ 20 ->
  exists b' m', overlay_mdp_encode_ports b (i32 dst) (i32 src) w = Some ((0, b'), set_mem w m') /\
    growing m' b' (d0 ++ ports_wire dst src).
Proof.
  intros G Hd Hs HM. unfold overlay_mdp_encode_ports. pose proof (u32_i32_inj dst src Hd Hs) as Eq.
  set (port := i32 (Z.shiftl (i32 dst) 1)).
  assert (Hi : ishl (i32 dst) 1 = Some port) by (unfold ishl; by zdecide).
  assert (Hport : u32 port = u32 (2 * dst)).
  { unfold port. rewrite u32_i32, Z.shiftl_mul_pow2, Z.mul_comm by lia. unfold u32. rewrite Z.mul_mod by lia.
    fold (u32 (i32 dst)). rewrite u32_i32. unfold u32. by rewrite <-Z.mul_mod by lia. }
  assert (Hlor : u32 (Z.lor port 1) = u32 (2 * dst) + 1).
  { rewrite u32_lor, Hport, (u32_id 1), u32_even by lia. pose proof (Z.mod_pos_bound dst (2 ^ 31)).
    destruct (dst mod 2 ^ 31); [done|done|lia]. }
  rewrite (M_lift_step _ _ _ _ Hi), Eq. unfold OB_MAX, ports_wire in *.
  assert (Hone : forall w b d0 v, growing (w_mem w) b d0 -> 0 <= u32 v < 2 ^ 32 -> zlen d0 <= 2 ^ 21 ->
    exists b' m', ob_append_packed_ui32 b (w_mem w) v = Some (0, b', m') /\ growing m' b' (d0 ++ packed 10 (u32 v))).
  { intros w' b' d' v G' Hv Hm. apply grow_packed; [done|by apply u32_small_packed|lia|unfold OB_MAX; lia]. }
  assert (Hu : forall v, 0 <= u32 v < 2 ^ 32) by (intros v; by apply Z.mod_pos_bound).
  destruct (dst =? src) eqn:E; zify_bool.
  - destruct (Hone w b d0 (Z.lor port 1) G (Hu _)) as (b1 & m1 & E1 & G1); [lia|]. rewrite Hlor in G1.
    rewrite (on_buffer_step _ _ _ _ _ _ E1). cbn. by exists b1, m1.
  - destruct (Hone w b d0 port G (Hu _)) as (b1 & m1 & E1 & G1); [lia|]. rewrite Hport in G1.
    rewrite (on_buffer_step _ _ _ _ _ _ E1). cbn. pose proof (packed_length 10 (u32 (2 * dst))) as Hl.
    destruct (Hone (set_mem w m1) b1 (d0 ++ packed 10 (u32 (2 * dst))) (i32 src) G1 (Hu _)) as (b2 & m2 & E2 & G2);
      [rewrite length_app; lia|]. rewrite u32_i32, (u32_id src) in G2 by lia.
    rewrite (on_buffer_step _ _ _ _ _ _ E2). cbn. exists b2, m2. split; [done|]. by rewrite app_assoc.
Qed.

(** ** The text of a datagram *)

Record datagram_ok (f : mdp_frame) : Prop := {
  dg_dst : 0 <= dst_port f < 2 ^ 32;
  dg_src : 0 <= src_port f < 2 ^ 32;
  dg_bytes : are_bytes (mdp_payload f);
  dg_size : zlen (mdp_payload f) = MDP_PAYLOAD;
  dg_length : 0 <= payload_length f <= MDP_PAYLOAD
}.

Definition data_of (f : mdp_frame) : list Z := take (Z.to_nat (payload_length f)) (mdp_payload f).
Definition text_of (f : mdp_frame) : list Z := ports_wire (dst_port f) (src_port f) ++ data_of f.

Lemma data_length f : datagram_ok f -> zlen (data_of f) = payload_length f.
Proof. intros []. unfold data_of. rewrite length_take. lia. Qed.

Lemma text_length f : datagram_ok f -> zlen (text_of f) <= 1120.
Proof.
  intros D. unfold text_of. rewrite length_app. pose proof (data_length _ D). pose proof (ports_wire_length (dst_port f) (src_port f)).
  destruct D. unfold MDP_PAYLOAD, MDP_MTU in *. lia.
Qed.

Lemma packed_nonempty v : packed 10 v <> [].
Proof. unfold packed. done. Qed.

Lemma text_nonempty f : text_of f <> [].
Proof.
  unfold text_of, ports_wire. destruct (_ =? _); pose proof (packed_nonempty (u32 (2 * dst_port f) + 1)); pose proof (packed_nonempty (u32 (2 * dst_port f)));
    destruct (packed 10 _); done.
Qed.

Lemma packed_bytes n : forall v, 0 <= v -> are_bytes (packed n v).
Proof.
  induction n as [|n IH]; intros v Hv; unfold packed; fold packed; [constructor|].
  constructor; [by apply packed_byte_is|]. destruct (_ =? 0); [constructor|]. apply IH. by apply Z.shiftr_nonneg.
Qed.

Lemma text_bytes f : datagram_ok f -> are_bytes (text_of f).
Proof.
  intros []. apply Forall_app. split; [|by apply Forall_take]. unfold ports_wire.
  assert (0 <= u32 (2 * dst_port f)) by (by apply Z.mod_pos_bound).
  destruct (_ =? _); [apply packed_bytes; lia|]. apply Forall_app. split; apply packed_bytes; lia.
Qed.

Lemma dispatch_text_spec w f : calloc_ok = true -> datagram_ok f ->
  exists b m, dispatch_text f w = Some (Some b, set_base w (set_mem (base_of w) m)) /\ growing m b (text_of f).
Proof.
  intros Hc D. unfold dispatch_text. destruct (growing_new (w_mem (base_of w)) Hc) as (b0 & E0 & G0).
  rewrite (lift_step _ _ _ _ E0). pose proof (ports_wire_length (dst_port f) (src_port f)) as Hl.
  destruct (encode_ports_spec (base_of w) b0 [] (dst_port f) (src_port f) G0) as (b1 & m1 & E1 & G1); [apply D|apply D|cbn; lia|].
  rewrite (based_step _ _ _ _ _ E1). cbn beta iota. change (negb (0 =? 0)) with false. cbn iota.
  destruct (grow_append m1 b1 _ (fun _ => zslice (mdp_payload f) 0 (payload_length f)) (payload_length f) (data_of f) G1)
    as (b2 & m2 & E2 & G2).
  - apply Forall_take, D.
  - by apply data_length.
  - destruct D. unfold OB_MAX, MDP_PAYLOAD, MDP_MTU in *. cbn [app]. lia.
  - intros _ _ _. destruct D. rewrite zslice_Some by lia. done.
  - erewrite based_step by (unfold on_buffer; cbn [base_of set_base]; unfold ob_append_bytes; cbn; rewrite E2; reflexivity).
    cbn beta iota. change (negb (0 =? 0)) with false. cbn iota. by exists b2, m2.
Qed.
End appending.

(** ** Reading the ports and the data *)

(** A buffer that ends where its limit is, with these bytes still to be read. *)
Record receiving (m : mem) (b : overlay_buffer) (d : list Z) : Prop := {
  rc_wf : ob_wf m b;
  rc_limit : 0 <= sizeLimit b <= allocSize b;
  rc_rest : ob_rest m b = Some d
}.

Lemma receiving_remaining m b d : receiving m b d -> ob_remaining b = Some (zlen d) /\ position b + zlen d <= INT_MAX.
Proof.
  intros [W L R]. destruct (ob_wf_rest _ _ W) as (d' & D' & Hl & _). assert (d' = d) as -> by congruence.
  unfold ob_read_end in Hl. rewrite (proj2 (Z.leb_le _ _)), Z.min_l in Hl by lia.
  pose proof (wf_allocSize _ _ W). pose proof (wf_position _ _ W). pose proof (wf_limit _ _ W).
  unfold ob_remaining. rewrite ci_Some by (unfold INT_MIN, INT_MAX in *; lia). split; [f_equal; lia|unfold INT_MAX in *; lia].
Qed.

Lemma receiving_bytes m b d1 d2 : receiving m b (d1 ++ d2) ->
  ob_get_bytes b m (zlen d1) = Some (Some d1, set_position b (position b + zlen d1)) /\
  receiving m (set_position b (position b + zlen d1)) d2.
Proof.
  intros G. pose proof (receiving_remaining _ _ _ G) as [_ HM]. rewrite length_app in HM.
  pose proof (ob_get_bytes_spec m b (zlen d1) (d1 ++ d2) (rc_wf _ _ _ G) (rc_rest _ _ _ G) ltac:(lia) ltac:(lia)) as HS.
  rewrite length_app, (proj2 (Z.leb_le _ _)) in HS by lia. rewrite Nat2Z.id, take_app_length, drop_app_length in HS.
  destruct HS as (E & R & W). split; [done|]. split; [done|apply G|done].
Qed.

Lemma receiving_packed m b v d : receiving m b (packed 10 v ++ d) -> 0 <= v < 2 ^ 32 ->
  exists b', ob_get_packed_ui32 b m = Some (v, b') /\ receiving m b' d.
Proof.
  intros G Hv. pose proof (receiving_remaining _ _ _ G) as [_ HM]. rewrite length_app in HM.
  assert (Hlen : zlen (packed 10 v) <= 5).
  { apply (packed_length_bits 5); [|lia]. split; [lia|]. apply Z.lt_trans with (2 ^ 32); [lia|reflexivity]. }
  destruct (receiving_bytes _ _ _ _ G) as [_ G']. eexists. split; [|exact G'].
  pose proof (rc_wf _ _ _ G). pose proof (rc_rest _ _ _ G). pose proof (u32_small_packed v Hv).
  unfold ob_get_packed_ui32. rewrite (get_packed_spec u32 (2 ^ 32)) with (n := 10%nat) (v := v) (r := d); auto; try lia.
  intros x Hx. rewrite u32_i32. by apply u32_id.
Qed.

Lemma odd_port n : Z.odd (2 * n + 1) = true.
Proof. by rewrite Z.add_comm, Z.odd_add_mul_2. Qed.
Lemma even_port n : Z.odd (2 * n + 0) = false.
Proof. by rewrite Z.add_comm, Z.odd_add_mul_2. Qed.
Lemma shift_port n r : 0 <= r < 2 -> Z.shiftr (2 * n + r) 1 = n.
Proof. intros Hr. rewrite Z.shiftr_div_pow2 by lia. change (2 ^ 1) with 2. pose proof (Z.div_mod (2 * n + r) 2). pose proof (Z.mod_pos_bound (2 * n + r) 2). lia. Qed.

(** The member [payload] after [d] was copied into it. *)
Definition filled (f : mdp_frame) (d : list Z) : list Z := d ++ drop (length d) (mdp_payload f).

(** The ports that are read. *)
Definition src_received (dst src : Z) : Z := if dst =? src then port_received dst else src.

Lemma src_received_id dst src : 0 <= dst < 2 ^ 30 -> src_received dst src = src.
Proof. intros Hd. unfold src_received. destruct (Z.eqb_spec dst src) as [<-|_]; [by apply port_received_id|done]. Qed.

Lemma i32_doubled p r : 0 <= r < 2 -> i32 (u32 (2 * p) + r) = 2 * ((p + 2 ^ 30) mod 2 ^ 31 - 2 ^ 30) + r.
Proof.
  intros Hr. rewrite u32_even. unfold i32. replace (2 * (p mod 2 ^ 31) + r + 2 ^ 31) with (2 * (p mod 2 ^ 31 + 2 ^ 30) + r) by lia.
  pose proof (Z.mod_pos_bound p (2 ^ 31)). pose proof (Z.div_mod p (2 ^ 31)).
  pose proof (Z.mod_pos_bound (p + 2 ^ 30) (2 ^ 31)). pose proof (Z.div_mod (p + 2 ^ 30) (2 ^ 31)).
  pose proof (Z.mod_pos_bound (2 * (p mod 2 ^ 31 + 2 ^ 30) + r) (2 ^ 32)). pose proof (Z.div_mod (2 * (p mod 2 ^ 31 + 2 ^ 30) + r) (2 ^ 32)).
  lia.
Qed.

Lemma decode_ports w b f dst src d : receiving (w_mem w) b (ports_wire dst src ++ d) -> 0 <= src < 2 ^ 32 ->
  exists b1, receiving (w_mem w) b1 d /\
    overlay_mdp_decode_header b f w =
      decode_data b1 (set_src (set_dst f (dst_sid f) (port_received dst)) (src_sid f) (src_received dst src)) w.
Proof.
  intros G Hsrc. unfold overlay_mdp_decode_header, get_packed_ui32, ports_wire, src_received in *.
  assert (Hu : 0 <= u32 (2 * dst) /\ u32 (2 * dst) + 1 < 2 ^ 32) by (rewrite u32_even; pose proof (Z.mod_pos_bound dst (2 ^ 31)); lia).
  destruct (dst =? src) eqn:E; zify_bool.
  - destruct (receiving_packed _ _ _ _ G) as (b1 & E1 & G1); [lia|]. exists b1. split; [done|].
    erewrite M_step by (cbn beta; rewrite E1; reflexivity). cbn beta iota zeta. rewrite i32_doubled by lia.
    rewrite odd_port, shift_port by lia. erewrite M_step by reflexivity. reflexivity.
  - rewrite <-app_assoc in G. destruct (receiving_packed _ _ _ _ G) as (b1 & E1 & G1); [lia|].
    destruct (receiving_packed _ _ _ _ G1) as (b2 & E2 & G2); [lia|]. exists b2. split; [done|].
    erewrite M_step by (cbn beta; rewrite E1; reflexivity). cbn beta iota zeta.
    rewrite <-(Z.add_0_r (u32 (2 * dst))), i32_doubled, even_port, shift_port by lia.
    erewrite M_step by (cbn beta; rewrite E2; reflexivity). reflexivity.
Qed.

(** The data are copied if they fit into the array. *)
Lemma decode_data_spec w b f d : receiving (w_mem w) b d -> zlen (mdp_payload f) = MDP_PAYLOAD ->
  if zlen d <=? MDP_PAYLOAD
  then exists b', decode_data b f w = Some ((0, b', set_mdp_payload f (zlen d) (filled f d)), w)
  else decode_data b f w = None.
Proof.
  intros G Hf. destruct (receiving_remaining _ _ _ G) as [Hr _]. rewrite <-(app_nil_r d) in G.
  destruct (receiving_bytes _ _ _ _ G) as [E _]. unfold decode_data.
  rewrite (M_lift_step _ _ _ _ Hr), (proj2 (Z.ltb_ge _ _)) by lia.
  erewrite M_step by (cbn beta; rewrite E; reflexivity). cbn beta iota. unfold MDP_PAYLOAD, MDP_MTU in *.
  destruct (_ <=? _) eqn:El; zify_bool.
  - exists (set_position b (position b + zlen d)). erewrite M_lift_step by (rewrite zblit_Some by lia; reflexivity).
    unfold u16. by rewrite Z.mod_small by lia.
  - unfold zblit. zdecide. done.
Qed.

(** ** Protecting the text *)

Lemma growing_owned m b d : growing m b d -> d <> [] ->
  exists p, bytes b = Some p /\ allocated b = Some p /\ p_off p = 0 /\ is_Some (m !! p_blk p) /\ loadbytes m p 0 (zlen d) = Some d.
Proof.
  intros G Hd. pose proof (growing_position _ _ _ G) as Hp. destruct G as [W _ S D].
  pose proof (wf_bytes _ _ W) as Hb. pose proof (wf_position _ _ W). destruct (bytes b) as [p|] eqn:E.
  2: { destruct d; [done|]. cbn [length] in Hp. lia. }
  exists p. unfold ob_is_static in S. rewrite E in S. destruct (allocated b) as [a|] eqn:Ea; [|by cbn in S].
  destruct (wf_owned _ _ W a Ea) as [Ha Ho]. rewrite E in Ha. injection Ha as <-. split_and!; try done.
  - destruct Hb as (l & Hl & _). by exists l.
  - unfold ob_data in D. rewrite E in D. by rewrite Hp in D.
Qed.

Section protecting.
Context `{Allocator} `{NaCl} (never : never_refuses) (calloc : calloc_ok = true).
Context (keyring_get_nm_bytes : list Z -> list Z -> option (list Z)).
Context (keyring_find_sas_private : list Z -> option (list Z)).

Lemma prepare_box_spec w b t : growing (w_mem w) b t -> t <> [] -> zlen t <= 2 ^ 20 ->
  exists b1 m1 p, prepare_box b w = Some ((zeros crypto_box_ZEROBYTES ++ t, b1, Some p), set_mem w m1) /\
    bytes b1 = Some p /\ valid_ptr m1 p (position b1) /\ position b1 = zlen t + 56.
Proof.
  intros G Ht Hl. unfold prepare_box. pose proof (growing_position _ _ _ G) as Hp.
  destruct (growing_owned _ _ _ G Ht) as (p & Eb & Ea & Eo & [l El] & Ed). unfold ob_position.
  rewrite (M_lift_step _ _ _ _ Eb). erewrite M_step by (unfold read_bytes; rewrite Hp, Ed; reflexivity).
  erewrite M_step by (unfold free_buffer, ob_free; rewrite Eb, Ea; unfold free; rewrite El, (proj2 (Z.eqb_eq _ _) Eo); reflexivity).
  destruct (growing_new (delete (p_blk p) (w_mem w)) calloc) as (b0 & E0 & G0). rewrite (M_lift_step _ _ _ _ E0).
  pose proof (growing_position _ _ _ G0) as Hp0. change (position b0 = 0) in Hp0. unfold crypto_box_NONCEBYTES, crypto_box_ZEROBYTES.
  pose proof (ob_makespace_spec b0 _ (24 + (position b + 32)) never (gr_wf _ _ _ G0) ltac:(lia) ltac:(unfold OB_MAX; lia)) as HS.
  rewrite (growing_room _ _ _ _ G0) in HS. destruct HS as (b1 & m1 & E1 & MS).
  pose proof (ms_wf _ _ _ _ _ MS) as W1. pose proof (ms_position _ _ _ _ _ MS) as P1. pose proof (ms_room _ _ _ _ _ MS) as R1.
  pose proof (wf_allocSize _ _ W1). pose proof (wf_bytes _ _ W1) as Hb1.
  destruct (bytes b1) as [q|] eqn:Eq; [|lia].
  exists (set_position b1 (zlen t + 56)), m1, q.
  erewrite on_buffer_step by (unfold ob_append_space; cbn [w_mem set_mem]; rewrite E1; cbn; rewrite ci_Some by (unfold INT_MIN, INT_MAX in *; lia); cbn; rewrite Eq; reflexivity).
  cbn beta iota. split; [|split; [done|split; [|done]]].
  - rewrite P1, Hp0, Hp. replace (0 + (24 + (zlen t + 32))) with (zlen t + 56) by lia.
    cbn [fmap option_fmap option_map]. rewrite Z.add_0_r. by destruct q.
  - cbn. eapply valid_ptr_le; [|exact Hb1]. lia.
Qed.

Lemma nonce_spec urandombytes w : counting 1 (m_nonce w) ->
  exists n s, m_generate_nonce urandombytes crypto_box_NONCEBYTES w = Some (Some n, set_m_nonce w s) /\
    zlen (reserve_bit n) = crypto_box_NONCEBYTES /\ are_bytes (reserve_bit n).
Proof.
  intros Hc. destruct (generate_nonce_spec urandombytes crypto_box_NONCEBYTES 1 (m_nonce w)) as (s & E & (_ & Hb & Hl & _) & _);
    [unfold crypto_box_NONCEBYTES; lia|lia|done|].
  eexists _, s. unfold m_generate_nonce. rewrite E. split; [done|]. unfold reserve_bit.
  destruct (nonce_buffer s) as [|x l] eqn:En; [done|]. apply Forall_cons in Hb as [Hx Hb]. unfold NONCE_BUFFER in Hl. cbn [length] in Hl.
  change (Z.to_nat crypto_box_NONCEBYTES) with 24%nat. cbn [take]. split.
  - cbn [length]. rewrite length_take. unfold crypto_box_NONCEBYTES. lia.
  - constructor; [|by apply Forall_take]. rewrite land_127. unfold is_byte. pose proof (Z.mod_pos_bound x 128). lia.
Qed.

(** The nonce, and the box without the zero bytes at its start. *)
Lemma seal_box_spec w f t b p n k : keyring_get_nm_bytes (src_sid f) (dst_sid f) = Some k ->
  bytes b = Some p -> valid_ptr (w_mem w) p (position b) -> position b = zlen t + 56 ->
  zlen (reserve_bit n) = crypto_box_NONCEBYTES -> are_bytes (reserve_bit n) ->
  exists c b' m', box_afternm (zeros crypto_box_ZEROBYTES ++ t) (reserve_bit n) k = Some (zeros crypto_box_BOXZEROBYTES ++ c) /\
    zlen c = zlen t + 16 /\ are_bytes c /\
    seal_box keyring_get_nm_bytes f (zeros crypto_box_ZEROBYTES ++ t) b p (Some n) w = Some (Some b', set_mem w m') /\
    ob_data m' b' = Some (reserve_bit n ++ c) /\ position b' = zlen t + 40.
Proof.
  intros Hk Eb Hv Hp Hn Hnb. assert (Hz : zlen (zeros crypto_box_ZEROBYTES ++ t) = zlen t + 32) by (rewrite length_app; change (length (zeros crypto_box_ZEROBYTES)) with 32%nat; lia).
  destruct (box_succeeds (zeros crypto_box_ZEROBYTES ++ t) (reserve_bit n) k) as [box Hbox]; [rewrite Hz; unfold crypto_box_ZEROBYTES; lia|].
  destruct (box_shape _ _ _ _ Hbox) as (c & -> & Hc & Hcb). rewrite Hz, length_app in Hc.
  change (length (zeros crypto_box_BOXZEROBYTES)) with 16%nat in Hc. assert (Hcl : zlen c = zlen t + 16) by lia.
  set (moved := drop 16 (zeros crypto_box_BOXZEROBYTES ++ c) ++ drop (length (zeros crypto_box_BOXZEROBYTES ++ c) - 16) (zeros crypto_box_BOXZEROBYTES ++ c)).
  assert (Hm : exists x, moved = c ++ x /\ zlen x = 16 /\ are_bytes x).
  { eexists. split; [reflexivity|]. rewrite length_drop, length_app. cbn [length zeros crypto_box_BOXZEROBYTES Z.to_nat]. split.
    - change (length (zeros crypto_box_BOXZEROBYTES)) with 16%nat. lia.
    - apply Forall_drop, Forall_app. split; [|done]. apply Forall_replicate. unfold is_byte. lia. }
  destruct Hm as (x & Hmx & Hx & Hxb). exists c. unfold crypto_box_NONCEBYTES in Hn.
  destruct (storebytes_valid (w_mem w) p (position b) 0 (reserve_bit n ++ c ++ x) Hv) as (m' & Em & _);
    [by repeat apply Forall_app_2|lia|rewrite !length_app; lia|].
  exists (set_position b (position b - crypto_box_BOXZEROBYTES)), m'. split_and!; try done.
  - unfold seal_box. rewrite Hk, Hbox. change (Z.to_nat crypto_box_BOXZEROBYTES) with 16%nat. fold moved. rewrite Hmx.
    erewrite M_step by (cbn beta; rewrite Em; reflexivity). done.
  - unfold ob_data, bytes_at. cbn [bytes set_position position]. rewrite Eb.
    assert (E0 : loadbytes (w_mem w) p 0 0 = Some []).
    { destruct Hv as (l & Hl & _ & ? & ?). unfold loadbytes. rewrite Hl. cbn. rewrite zslice_Some by lia. done. }
    pose proof (loadbytes_storebytes _ _ 0 _ _ _ (Z.le_refl 0) E0 Em) as Ed. rewrite app_nil_l, Z.add_0_l in Ed.
    rewrite (loadbytes_sub _ _ _ 0 _ _ Ed) by (rewrite ?length_app; unfold crypto_box_BOXZEROBYTES; lia).
    replace (position b - crypto_box_BOXZEROBYTES) with (zlen (reserve_bit n ++ c)) by (rewrite length_app; unfold crypto_box_BOXZEROBYTES; lia).
    by rewrite app_assoc, zslice_prefix.
  - cbn. unfold crypto_box_BOXZEROBYTES. lia.
Qed.

Lemma sign_prefix key c c' n len : zslice c 0 len = zslice c' 0 len -> crypto_sign_message key c n len = crypto_sign_message key c' n len.
Proof. intros E. unfold crypto_sign_message. by rewrite E. Qed.

Lemma sign_payload_spec w b t source key pk : keyring_find_sas_private source = Some key -> key_pair key pk ->
  growing (w_mem w) b t -> zlen t <= 2 ^ 20 ->
  exists s b' m', sign_payload keyring_find_sas_private source b w = Some (Some b', set_mem w m') /\
    ob_data m' b' = Some (t ++ s) /\ position b' = zlen t + 64 /\ are_bytes s /\ zlen s = 64 /\
    crypto_verify_message (Some pk) (t ++ s) (zlen t + 64) = Some (0, zlen t).
Proof.
  intros Hk Hp G Hl. pose proof (growing_position _ _ _ G) as Hpos.
  pose proof (ob_makespace_spec b (w_mem w) 64 never (gr_wf _ _ _ G) ltac:(lia) ltac:(unfold OB_MAX; lia)) as HS.
  rewrite (growing_room _ _ _ _ G) in HS. destruct HS as (b1 & m1 & E1 & [W1 R1 P1 _ L1 _ _ _ D1 _ _]).
  rewrite (gr_data _ _ _ G) in D1. rewrite (gr_limit _ _ _ G) in L1. pose proof (wf_allocSize _ _ W1). pose proof (wf_bytes _ _ W1) as Hb.
  destruct (bytes b1) as [p|] eqn:Eb; [|lia].
  destruct (loadbytes_valid m1 p (allocSize b1) 0 (allocSize b1) Hb) as (content & Ec & Hcl & _); [lia..|].
  assert (Et : zslice content 0 (zlen t) = zslice t 0 (zlen t)).
  { rewrite zslice_all, <-(loadbytes_sub _ _ _ 0 (zlen t) _ Ec) by lia. unfold ob_data in D1. rewrite Eb, P1, Hpos in D1. exact D1. }
  destruct (sign_verify key pk t (allocSize b1) Hp) as (s & Es & Hsl & Hsb & Hv); [unfold SIGNATURE_BYTES; lia|].
  unfold SIGNATURE_BYTES in *. specialize (Hv []). rewrite app_nil_r in Hv.
  destruct (set_at_end m1 b1 64 s W1 Hsb Hsl) as (m2 & Em & W2 & D2 & _); [lia|lia|by left|].
  exists s, (set_position b1 (zlen t + 64)), m2. split_and!; try done.
  - unfold sign_payload, SIGNATURE_BYTES. rewrite (on_buffer_step _ _ _ _ _ _ E1). cbn beta iota. rewrite (M_lift_step _ _ _ _ Eb).
    erewrite M_step by (unfold read_bytes; cbn [w_mem set_mem]; rewrite Ec; reflexivity).
    rewrite Hk, P1, Hpos. erewrite M_lift_step by (rewrite (sign_prefix _ _ _ _ _ Et), Es; reflexivity). cbn beta iota.
    unfold set_at in Em. rewrite Eb, P1, Hpos in Em. erewrite M_step by (cbn [w_mem set_mem]; rewrite Em; reflexivity). done.
  - specialize (D2 _ D1). by rewrite P1, Hpos in D2.
Qed.
End protecting.

(** ** Opening what was received *)

(** The payload of a received frame: a slice of the packet that is all of these bytes. *)
Record packet_buffer (m : mem) (b : overlay_buffer) (d : list Z) : Prop := {
  pb_receiving : receiving m b d;
  pb_position : position b = 0;
  pb_checkpoint : checkpointLength b = 0;
  pb_bytes : is_Some (bytes b)
}.

Lemma receiving_ptr m b d1 d2 : is_Some (bytes b) -> receiving m b (d1 ++ d2) ->
  exists p b', ob_get_bytes_ptr b (zlen d1) = Some (Some p, b') /\ loadbytes m p 0 (zlen d1) = Some d1 /\
    receiving m b' d2 /\ is_Some (bytes b').
Proof.
  intros [p Ep] G. destruct (receiving_bytes _ _ _ _ G) as [E G']. unfold ob_get_bytes in E. unfold ob_get_bytes_ptr.
  destruct (test_offset _ _ _) as [t|]; [|done]. cbn [mbind option_bind] in E |- *. destruct (negb (t =? 0)); [done|].
  rewrite Ep in E |- *. eexists _, _. split; [reflexivity|]. split; [|by split; [exact G'|rewrite Ep || cbn; eauto]].
  unfold bytes_at in E. destruct (loadbytes m p (position b) (zlen d1)) as [d|] eqn:El; [|done]. cbn in E.
  assert (d = d1) as -> by congruence. unfold loadbytes in El |- *. cbn. by rewrite Z.add_0_r.
Qed.

(** What a receiver makes of the datagram [f]; [g] has the addresses of the frame. *)
Definition received (f g : mdp_frame) (type : Z) : mdp_frame :=
  set_mdp_payload (set_src (set_dst (set_mdp_type g type) (dst_sid g) (port_received (dst_port f))) (src_sid g)
      (src_received (dst_port f) (src_port f)))
    (payload_length f) (filled g (data_of f)).

Lemma decode_received w b f g type : datagram_ok f -> zlen (mdp_payload g) = MDP_PAYLOAD ->
  receiving (w_mem w) b (text_of f) ->
  exists b', overlay_mdp_decode_header b (set_mdp_type g type) w = Some ((0, b', received f g type), w).
Proof.
  intros D Hg G. destruct (decode_ports w b (set_mdp_type g type) _ _ _ G (dg_src _ D)) as (b1 & G1 & ->).
  match goal with |- context [decode_data b1 ?h w] => pose proof (decode_data_spec w b1 h _ G1 Hg) as Hs end.
  rewrite (data_length _ D), (proj2 (Z.leb_le _ _)) in Hs by apply D. exact Hs.
Qed.

Lemma packet_data m b d : packet_buffer m b d -> exists p, bytes b = Some p /\ loadbytes m p 0 (zlen d) = Some d /\ sizeLimit b = zlen d.
Proof.
  intros [G P _ [p Ep]]. exists p. split; [done|]. destruct (receiving_remaining _ _ _ G) as [Hr _].
  unfold ob_remaining in Hr. apply ci_inv in Hr as [Hr _]. rewrite P in Hr. pose proof (rc_rest _ _ _ G) as R. pose proof (rc_limit _ _ _ G).
  unfold ob_rest, bytes_at, ob_read_end in R. rewrite Ep, P, (proj2 (Z.leb_le _ _)), Z.min_l in R by lia.
  replace (sizeLimit b - 0) with (zlen d) in R by lia. split; [done|lia].
Qed.

(** A packet whose limit is moved to the end of its first part. *)
Lemma limit_prefix m b d1 d2 : packet_buffer m b (d1 ++ d2) ->
  receiving m (default b (snd (ob_limitsize (Some b) (zlen d1)))) d1.
Proof.
  intros PB. destruct (packet_data _ _ _ PB) as (p & Ep & El & Es). destruct PB as [G P C _]. destruct G as [W L R].
  pose proof (wf_allocSize _ _ W). rewrite length_app in Es.
  assert (E : ob_limitsize (Some b) (zlen d1) = (0, Some (set_sizeLimit b (zlen d1)))).
  { unfold ob_limitsize. rewrite P, C, (proj2 (Z.ltb_ge _ 0)) by lia.
    rewrite (proj2 (Z.ltb_ge (allocSize b) _)) by lia. by rewrite andb_false_r. }
  rewrite E. cbn [snd default]. split.
  - destruct W. split; cbn; try done. right. rewrite P, C. unfold INT_MAX in *. lia.
  - cbn. lia.
  - unfold ob_rest, ob_read_end, bytes_at. cbn. rewrite Ep, P, (proj2 (Z.leb_le _ _)), Z.min_l by lia.
    rewrite Z.sub_0_r, (loadbytes_sub _ _ _ 0 (zlen d1) _ El) by (rewrite ?length_app; lia). apply zslice_prefix.
Qed.

Section opening.
Context `{Allocator} `{NaCl} (calloc : calloc_ok = true).
Context (keyring_get_nm_bytes : list Z -> list Z -> option (list Z)) (sas_public : nat -> list Z).

(** The text of a box, in an array. *)
Lemma array_receiving m blk t b : are_bytes t -> zlen t <= INT_MAX ->
  ob_static (mkptr blk crypto_box_ZEROBYTES) (zlen t) = Some b ->
  receiving (<[blk := zeros crypto_box_ZEROBYTES ++ t]> m) (default b (snd (ob_limitsize (Some b) (zlen t)))) t.
Proof using calloc.
  intros Hb Hl. unfold ob_static. rewrite calloc. cbn. intros <-%(inj Some). cbn.
  rewrite (proj2 (Z.ltb_ge _ 0)), (proj2 (Z.ltb_ge (zlen t) (zlen t))) by lia. cbn. split.
  - split; cbn; try lia; try done.
    eexists. rewrite lookup_insert_eq. split; [reflexivity|]. cbn. split; [|rewrite length_app; change (length (zeros crypto_box_ZEROBYTES)) with 32%nat; unfold crypto_box_ZEROBYTES; lia].
    apply Forall_app. split; [apply Forall_replicate; unfold is_byte; lia|done].
  - cbn. lia.
  - unfold ob_rest, ob_read_end, bytes_at, loadbytes. cbn. rewrite (proj2 (Z.leb_le _ _)), Z.min_l, lookup_insert_eq by lia. cbn.
    change (crypto_box_ZEROBYTES + 0) with 32. rewrite zslice_Some by (rewrite ?length_app; change (length (zeros crypto_box_ZEROBYTES)) with 32%nat; lia).
    change (Z.to_nat 32) with (length (zeros crypto_box_ZEROBYTES)). rewrite drop_app_length, take_ge by lia. done.
Qed.

Lemma decrypt_clear w fr b f g : datagram_ok f -> zlen (mdp_payload g) = MDP_PAYLOAD ->
  payload fr = Some b -> packet_buffer (w_mem w) b (text_of f) ->
  Z.land (modifiers fr) (Z.lor PAYLOAD_FLAG_CIPHERED PAYLOAD_FLAG_SIGNED) = 0 ->
  exists b', overlay_mdp_decrypt keyring_get_nm_bytes sas_public true fr g w =
    Some ((0, b', received f g (Z.lor MDP_TX (Z.lor MDP_NOCRYPT MDP_NOSIGN))), w).
Proof.
  intros D Hg Eb PB Hm. unfold overlay_mdp_decrypt. rewrite (M_lift_step _ _ _ _ Eb), Hm. cbn zeta.
  cbn [Z.eqb].
  change (set_mdp_type (set_mdp_type g MDP_TX) ?x) with (set_mdp_type g x). apply decode_received; [done..|]. apply PB.
Qed.

Lemma decrypt_signed w fr b f g s src : datagram_ok f -> zlen (mdp_payload g) = MDP_PAYLOAD ->
  payload fr = Some b -> packet_buffer (w_mem w) b (text_of f ++ s) -> zlen s = 64 ->
  Z.land (modifiers fr) (Z.lor PAYLOAD_FLAG_CIPHERED PAYLOAD_FLAG_SIGNED) = PAYLOAD_FLAG_SIGNED -> source fr = Some src ->
  crypto_verify_message (Some (sas_public src)) (text_of f ++ s) (zlen (text_of f) + 64) = Some (0, zlen (text_of f)) ->
  exists b', overlay_mdp_decrypt keyring_get_nm_bytes sas_public true fr g w =
    Some ((0, b', received f g (Z.lor MDP_TX MDP_NOCRYPT)), w).
Proof.
  intros D Hg Eb PB Hs Hm Hsrc Hv. unfold overlay_mdp_decrypt. rewrite (M_lift_step _ _ _ _ Eb), Hm. cbn zeta.
  change (PAYLOAD_FLAG_SIGNED =? 0) with false. change (PAYLOAD_FLAG_SIGNED =? PAYLOAD_FLAG_CIPHERED) with false.
  rewrite Z.eqb_refl. cbn iota. destruct (receiving_remaining _ _ _ (pb_receiving _ _ _ PB)) as [Hr _].
  destruct (packet_data _ _ _ PB) as (p & Ep & El & _). rewrite (M_lift_step _ _ _ _ Hr), (M_lift_step _ _ _ _ Hsrc).
  erewrite M_step by (rewrite (M_lift_step _ _ _ _ Ep); unfold read_bytes; rewrite El; reflexivity).
  rewrite length_app, Nat2Z.inj_add, Hs in *. rewrite (M_lift_step _ _ _ _ Hv). cbn beta iota zeta. change (negb (0 =? 0)) with false. cbn iota.
  unfold ob_position. rewrite (pb_position _ _ _ PB), Z.add_0_r.
  change (set_mdp_type (set_mdp_type g MDP_TX) ?x) with (set_mdp_type g x). apply decode_received; [done..|]. by eapply limit_prefix.
Qed.

Lemma decrypt_boxed w fr b f g n c k d s sd ss : datagram_ok f -> zlen (mdp_payload g) = MDP_PAYLOAD ->
  payload fr = Some b -> packet_buffer (w_mem w) b (n ++ c) -> zlen n = crypto_box_NONCEBYTES -> zlen c = zlen (text_of f) + 16 ->
  Z.land (modifiers fr) (Z.lor PAYLOAD_FLAG_CIPHERED PAYLOAD_FLAG_SIGNED) = Z.lor PAYLOAD_FLAG_SIGNED PAYLOAD_FLAG_CIPHERED -> destination fr = Some d -> source fr = Some s ->
  subscribers (w_dir w) !! d = Some sd -> subscribers (w_dir w) !! s = Some ss -> keyring_get_nm_bytes (sid sd) (sid ss) = Some k ->
  are_bytes (text_of f) -> box_afternm (zeros crypto_box_ZEROBYTES ++ text_of f) n k = Some (zeros crypto_box_BOXZEROBYTES ++ c) ->
  exists b' w', overlay_mdp_decrypt keyring_get_nm_bytes sas_public true fr g w = Some ((0, b', received f g MDP_TX), w').
Proof using calloc.
  intros D Hg Eb PB Hn Hc Hm Hd Hs Hsd Hss Hk Ht Hbox. unfold overlay_mdp_decrypt. rewrite (M_lift_step _ _ _ _ Eb), Hm. cbn zeta.
  change (Z.lor PAYLOAD_FLAG_SIGNED PAYLOAD_FLAG_CIPHERED) with 48. change (48 =? 0) with false. change (48 =? PAYLOAD_FLAG_CIPHERED) with false.
  change (48 =? PAYLOAD_FLAG_SIGNED) with false. cbn iota. unfold open_box. rewrite Hd, Hs.
  erewrite M_step by (erewrite M_step by (unfold get_sub; rewrite Hsd; reflexivity); erewrite M_step by (unfold get_sub; rewrite Hss; reflexivity); rewrite Hk; reflexivity).
  cbn iota. destruct (receiving_ptr _ _ _ _ (pb_bytes _ _ _ PB) (pb_receiving _ _ _ PB)) as (p1 & b1 & E1 & L1 & G1 & B1).
  rewrite Hn in E1, L1. rewrite (M_lift_step _ _ _ _ E1). cbn beta iota. destruct (receiving_remaining _ _ _ G1) as [Hr HM].
  rewrite (M_lift_step _ _ _ _ Hr). rewrite <-(app_nil_r c) in G1. destruct (receiving_ptr _ _ _ _ B1 G1) as (p2 & b2 & E2 & L2 & _ & _).
  rewrite (M_lift_step _ _ _ _ E2). cbn beta iota.
  erewrite M_step by (unfold read_bytes; rewrite L1; reflexivity). erewrite M_step by (unfold read_bytes; rewrite L2; reflexivity).
  rewrite (box_opens _ _ _ _ Hbox Ht). cbn zeta.
  replace (zlen c + crypto_box_BOXZEROBYTES - crypto_box_ZEROBYTES) with (zlen (text_of f)) by (unfold crypto_box_BOXZEROBYTES, crypto_box_ZEROBYTES; lia).
  set (blk := fresh (dom (w_mem w))).
  assert (Hst : exists t, ob_static (mkptr blk crypto_box_ZEROBYTES) (zlen (text_of f)) = Some t) by (unfold ob_static; rewrite calloc; eauto).
  destruct Hst as [t Est]. pose proof (text_length _ D) as Hl.
  pose proof (array_receiving (w_mem w) blk (text_of f) t Ht ltac:(unfold INT_MAX; lia) Est) as G2.
  destruct (decode_received (set_mem w (<[blk := zeros crypto_box_ZEROBYTES ++ text_of f]> (w_mem w))) _ f g MDP_TX D Hg G2) as (b3 & E3).
  eexists b2, _. unfold with_array. fold blk.
  erewrite M_step by (cbn [p_blk]; rewrite (M_lift_step _ _ _ _ Est); erewrite M_step by exact E3; reflexivity). cbn beta iota. reflexivity.
Qed.
End opening.

(** ** There and back *)

Definition mode_of (f : mdp_frame) : Z := Z.land (packetTypeAndFlags f) (Z.lor MDP_NOCRYPT MDP_NOSIGN).

Section sending.
Context `{Allocator} `{NaCl} (never : never_refuses) (calloc : calloc_ok = true).
Context (keyring_get_nm_bytes : list Z -> list Z -> option (list Z)) (keyring_find_sas_private : list Z -> option (list Z)).
Context (urandombytes : nat -> option (list Z)).
Context (w : mworld) (i : nat) (f : mdp_frame) (D : datagram_ok f).

Abbreviation payload_made := (dispatch_payload keyring_get_nm_bytes keyring_find_sas_private urandombytes i f w).

Lemma send_clear : mode_of f = Z.lor MDP_NOSIGN MDP_NOCRYPT ->
  exists b w', payload_made = Some (Some (0, b), w') /\ ob_data (w_mem (base_of w')) b = Some (text_of f).
Proof using never calloc D.
  intros Hm. destruct (dispatch_text_spec never w f calloc D) as (b & m & E & G). unfold dispatch_payload.
  erewrite mbind_run by exact E. cbn iota zeta. fold (mode_of f). rewrite Hm. eexists b, _. split; [reflexivity|]. apply G.
Qed.

Lemma send_signed s key pk : mode_of f = MDP_NOCRYPT -> subscribers (w_dir (base_of w)) !! i = Some s ->
  keyring_find_sas_private (sid s) = Some key -> key_pair key pk ->
  exists b w' sig, payload_made = Some (Some (PAYLOAD_FLAG_SIGNED, b), w') /\
    ob_data (w_mem (base_of w')) b = Some (text_of f ++ sig) /\ zlen sig = 64 /\
    crypto_verify_message (Some pk) (text_of f ++ sig) (zlen (text_of f) + 64) = Some (0, zlen (text_of f)).
Proof using never calloc D.
  intros Hm Hs Hk Hp. destruct (dispatch_text_spec never w f calloc D) as (b & m & E & G). unfold dispatch_payload.
  erewrite mbind_run by exact E. cbn iota zeta. fold (mode_of f). rewrite Hm. change (MDP_NOCRYPT =? 0) with false. rewrite Z.eqb_refl. cbn iota.
  pose proof (text_length _ D) as Hl.
  destruct (sign_payload_spec never keyring_find_sas_private (set_mem (base_of w) m) b (text_of f) (sid s) key pk Hk Hp G ltac:(lia))
    as (sig & b' & m' & E' & Hd & _ & _ & Hsl & Hv).
  assert (Hg : get_sub i (set_mem (base_of w) m) = Some (s, set_mem (base_of w) m)).
  { unfold get_sub. change (w_dir (set_mem (base_of w) m)) with (w_dir (base_of w)). by rewrite Hs. }
  erewrite based_step by exact Hg.
  erewrite based_step by exact E'. exists b'. eexists. exists sig. split; [reflexivity|]. by split_and!.
Qed.

Lemma send_boxed k : mode_of f = 0 -> counting 1 (m_nonce w) -> keyring_get_nm_bytes (src_sid f) (dst_sid f) = Some k ->
  exists b w' n c, payload_made = Some (Some (Z.lor PAYLOAD_FLAG_SIGNED PAYLOAD_FLAG_CIPHERED, b), w') /\
    ob_data (w_mem (base_of w')) b = Some (n ++ c) /\ zlen n = crypto_box_NONCEBYTES /\ zlen c = zlen (text_of f) + 16 /\
    box_afternm (zeros crypto_box_ZEROBYTES ++ text_of f) n k = Some (zeros crypto_box_BOXZEROBYTES ++ c).
Proof using never calloc D.
  intros Hm Hc Hk. destruct (dispatch_text_spec never w f calloc D) as (b & m & E & G). unfold dispatch_payload.
  erewrite mbind_run by exact E. cbn iota zeta. fold (mode_of f). rewrite Hm. change (0 =? 0) with true. cbn iota.
  pose proof (text_length _ D) as Hl.
  destruct (prepare_box_spec never calloc (set_mem (base_of w) m) b (text_of f) G (text_nonempty f) ltac:(lia)) as (b1 & m1 & p & E1 & Eb & Hv & Hp).
  erewrite based_step by exact E1. cbn beta iota.
  destruct (nonce_spec urandombytes (set_base w (set_mem (base_of w) m1)) Hc) as (n & s & En & Hn & Hnb).
  erewrite mbind_run by exact En.
  destruct (seal_box_spec keyring_get_nm_bytes (set_mem (base_of w) m1) f (text_of f) b1 p n k Hk Eb Hv Hp Hn Hnb)
    as (c & b2 & m2 & Hbox & Hcl & _ & Es & Hd & _).
  erewrite based_step by exact Es. exists b2. eexists. exists (reserve_bit n), c. split; [reflexivity|]. by split_and!.
Qed.
End sending.

(** What a sender needs: for a box a nonce and the key shared with the receiver, for a
    signature the signing key, and its public key is [pk]. *)
Definition can_send `{NaCl} (keyring_get_nm_bytes : list Z -> list Z -> option (list Z)) (keyring_find_sas_private : list Z -> option (list Z))
    (w : mworld) (i : nat) (f : mdp_frame) (k pk : list Z) : Prop :=
  (mode_of f = 0 /\ counting 1 (m_nonce w) /\ keyring_get_nm_bytes (src_sid f) (dst_sid f) = Some k) \/
  (mode_of f = MDP_NOCRYPT /\ exists s key, subscribers (w_dir (base_of w)) !! i = Some s /\
     keyring_find_sas_private (sid s) = Some key /\ key_pair key pk) \/
  mode_of f = Z.lor MDP_NOSIGN MDP_NOCRYPT.

(** What a receiver needs: for a box the same shared key, for a signature the public key of the
    source on record. *)
Definition can_receive (keyring_get_nm_bytes : list Z -> list Z -> option (list Z)) (sas_public : nat -> list Z)
    (w : world) (fr : overlay_frame) (mode : Z) (k pk : list Z) : Prop :=
  exists s, source fr = Some s /\
    (mode = 0 -> exists d sd ss, destination fr = Some d /\ subscribers (w_dir w) !! d = Some sd /\
       subscribers (w_dir w) !! s = Some ss /\ keyring_get_nm_bytes (sid sd) (sid ss) = Some k) /\
    (mode = MDP_NOCRYPT -> sas_public s = pk).

Lemma received_data f g type : datagram_ok f ->
  payload_length (received f g type) = payload_length f /\ data_of (received f g type) = data_of f.
Proof.
  intros D. split; [done|]. unfold data_of at 1, received, filled. cbn [payload_length mdp_payload set_mdp_payload].
  rewrite take_app_length'; [done|]. pose proof (data_length _ D). lia.
Qed.

Lemma received_ports f g type : 0 <= dst_port f -> dst_port f < 2 ^ 30 ->
  dst_port (received f g type) = dst_port f /\ src_port (received f g type) = src_port f.
Proof. intros H0 H1. split; [by apply port_received_id|by apply src_received_id]. Qed.

(** [C10] A datagram of up to 1100 bytes arrives as it was sent: whether it is in clear, signed
    or boxed, the payload made for it is opened by a receiver that has the keys, and gives the
    same data, the same protection and, if the destination port is below 2^30, the same ports.
    A larger destination port arrives as its low 31 bits, extended by their sign, and the source
    port with it when the two are equal; another source port arrives unchanged.  Making the
    payload never fails while memory lasts and the sender has a nonce and the keys; the box and
    signature functions are taken to open what they made. *)
Theorem mdp_roundtrip `{Allocator} `{NaCl} keyring_get_nm_bytes keyring_find_sas_private urandombytes (w : mworld) (i : nat) (f : mdp_frame) k pk :
  never_refuses -> calloc_ok = true -> datagram_ok f -> can_send keyring_get_nm_bytes keyring_find_sas_private w i f k pk ->
  exists modifiers_made b w' data,
    dispatch_payload keyring_get_nm_bytes keyring_find_sas_private urandombytes i f w = Some (Some (modifiers_made, b), w') /\
    ob_data (w_mem (base_of w')) b = Some data /\
    forall keyring_get_nm_bytes' sas_public (wr : world) (fr : overlay_frame) br g,
      can_receive keyring_get_nm_bytes' sas_public wr fr (mode_of f) k pk ->
      Z.land (modifiers fr) (Z.lor PAYLOAD_FLAG_CIPHERED PAYLOAD_FLAG_SIGNED) = modifiers_made ->
      payload fr = Some br -> packet_buffer (w_mem wr) br data -> zlen (mdp_payload g) = MDP_PAYLOAD ->
      exists b' g' wr', overlay_mdp_decrypt keyring_get_nm_bytes' sas_public true fr g wr = Some ((0, b', g'), wr') /\
        (dst_port f < 2 ^ 30 -> dst_port g' = dst_port f /\ src_port g' = src_port f) /\
        dst_port g' = port_received (dst_port f) /\
        src_port g' = (if dst_port f =? src_port f then port_received (dst_port f) else src_port f) /\
        payload_length g' = payload_length f /\ data_of g' = data_of f /\ mode_of g' = mode_of f.
Proof.
  intros never calloc D [(Hm & Hc & Hk)|[(Hm & s & key & Hs & Hk & Hp)|Hm]]; rewrite Hm.
  - destruct (send_boxed never calloc keyring_get_nm_bytes keyring_find_sas_private urandombytes w i f D k Hm Hc Hk)
      as (b & w' & n & c & E & Hd & Hn & Hcl & Hbox).
    eexists _, b, w', _. split; [exact E|]. split; [exact Hd|]. intros kr sas wr fr br g (s & Hs & Hr & _) Hmod Hb PB Hg.
    destruct (Hr eq_refl) as (d & sd & ss & Hdst & Hsd & Hss & Hkr).
    destruct (decrypt_boxed calloc kr sas wr fr br f g n c k d s sd ss D Hg Hb PB Hn Hcl Hmod Hdst Hs Hsd Hss Hkr (text_bytes f D) Hbox)
      as (b' & wr' & E').
    eexists b', _, wr'. split; [exact E'|]. destruct (received_data f g MDP_TX D) as [-> ->].
    split; [by apply received_ports, D|]. done.
  - destruct (send_signed never calloc keyring_get_nm_bytes keyring_find_sas_private urandombytes w i f D s key pk Hm Hs Hk Hp)
      as (b & w' & sig & E & Hd & Hsl & Hv).
    eexists _, b, w', _. split; [exact E|]. split; [exact Hd|]. intros kr sas wr fr br g (src & Hsrc & _ & Hr) Hmod Hb PB Hg.
    rewrite <-(Hr eq_refl) in Hv.
    destruct (decrypt_signed kr sas wr fr br f g sig src D Hg Hb PB Hsl Hmod Hsrc Hv) as (b' & E').
    eexists b', _, wr. split; [exact E'|]. destruct (received_data f g (Z.lor MDP_TX MDP_NOCRYPT) D) as [-> ->].
    split; [by apply received_ports, D|]. done.
  - destruct (send_clear never calloc keyring_get_nm_bytes keyring_find_sas_private urandombytes w i f D Hm) as (b & w' & E & Hd).
    eexists _, b, w', _. split; [exact E|]. split; [exact Hd|]. intros kr sas wr fr br g _ Hmod Hb PB Hg.
    destruct (decrypt_clear kr sas wr fr br f g D Hg Hb PB Hmod) as (b' & E').
    eexists b', _, wr. split; [exact E'|]. destruct (received_data f g (Z.lor MDP_TX (Z.lor MDP_NOCRYPT MDP_NOSIGN)) D) as [-> ->].
    split; [by apply received_ports, D|]. done.
Qed.

(** *** A boxed datagram from the first of two subscribers to the second *)

Definition boxed_datagram : mdp_frame := mk_mdp MDP_TX sid_a 99 sid_b 7 3 OQ_ORDINARY 0 ([1; 2; 3] ++ replicate 1097 0).
Definition boxed_sender : mworld := set_m_nonce demo_daemon (mk_nonce true (replicate 128 5) 0).
Definition boxed_wire : list Z := (6 :: replicate 23 5) ++ replicate 16 7 ++ [14; 99; 1; 2; 3].
Definition boxed_receiver : world := set_mem world0 {[1%positive := boxed_wire]}.
Definition boxed_frame : overlay_frame :=
  mk_frame (Some (mk_ob (Some (mkptr 1 0)) 0 0 45 45 None 0)) OF_TYPE_DATA (Some 0%nat) false (Some 1%nat) 1 (replicate BROADCAST_LEN 0)
    false None 0 None OQ_ORDINARY (Z.lor PAYLOAD_FLAG_SIGNED PAYLOAD_FLAG_CIPHERED) 0 0.

Lemma boxed_datagram_ok : datagram_ok boxed_datagram.
Proof.
  split; [cbn; lia|cbn; lia| |reflexivity|unfold MDP_PAYLOAD, MDP_MTU; cbn; lia].
  apply Forall_app. split; [repeat constructor; lia|]. apply Forall_replicate. unfold is_byte. lia.
Qed.

Lemma boxed_packet : packet_buffer (w_mem boxed_receiver) (mk_ob (Some (mkptr 1 0)) 0 0 45 45 None 0) boxed_wire.
Proof.
  split; [|done|done|by eexists]. split; [|cbn; lia|reflexivity].
  split; cbn; unfold INT_MAX; try lia; try done.
  exists boxed_wire. split; [reflexivity|]. split; [|by vm_compute]. unfold boxed_wire. repeat (constructor; [unfold is_byte; lia|]). constructor.
Qed.

Lemma mdp_roundtrip_witness :
  exists b' g' wr', overlay_mdp_decrypt (fun _ _ => Some (replicate 32 0)) (fun _ => []) true boxed_frame zero_mdp boxed_receiver = Some ((0, b', g'), wr') /\
    (7 < 2 ^ 30 -> dst_port g' = 7 /\ src_port g' = 99) /\ dst_port g' = port_received 7 /\
    src_port g' = (if 7 =? 99 then port_received 7 else 99) /\ payload_length g' = 3 /\ data_of g' = [1; 2; 3] /\ mode_of g' = 0.
Proof.
  destruct (mdp_roundtrip (fun _ _ => Some (replicate 32 0)) (fun _ => None) (fun _ => None) boxed_sender 0 boxed_datagram (replicate 32 0) []
    zero_allocator_never_refuses eq_refl boxed_datagram_ok) as (mods & b & w' & data & E & Hd & Hr).
  { left. split; [reflexivity|]. split; [|reflexivity]. split_and!; [reflexivity|apply Forall_replicate; unfold is_byte; lia|reflexivity|by vm_compute]. }
  assert (Hm : mods = Z.lor PAYLOAD_FLAG_SIGNED PAYLOAD_FLAG_CIPHERED /\ data = boxed_wire).
  { vm_compute in E. injection E as <- <- <-. vm_compute in Hd. injection Hd as <-. split; reflexivity. }
  destruct Hm as [-> ->].
  apply (Hr (fun _ _ => Some (replicate 32 0)) (fun _ => []) boxed_receiver boxed_frame (mk_ob (Some (mkptr 1 0)) 0 0 45 45 None 0) zero_mdp);
    [|reflexivity|reflexivity|exact boxed_packet|reflexivity].
  exists 0%nat. split; [reflexivity|]. split; [|discriminate].
  intros _. exists 1%nat. do 2 eexists. split; [reflexivity|]. split; [reflexivity|]. split; reflexivity.
Defined.

(** ** Too long a datagram *)

(** [C40] A received datagram with more data than the 1100 bytes of the array it is copied into
    overruns that array: decoding it is undefined. *)
Theorem received_overflow `{Allocator} w b f dst src d : receiving (w_mem w) b (ports_wire dst src ++ d) ->
  0 <= dst < 2 ^ 30 -> 0 <= src < 2 ^ 32 -> zlen (mdp_payload f) = MDP_PAYLOAD -> MDP_PAYLOAD < zlen d ->
  overlay_mdp_decode_header b f w = None.
Proof.
  intros G Hdst Hsrc Hf Hd. destruct (decode_ports w b f _ _ _ G Hsrc) as (b1 & G1 & ->).
  match goal with |- decode_data b1 ?h w = _ => pose proof (decode_data_spec w b1 h _ G1 Hf) as Hs end.
  by rewrite (proj2 (Z.leb_gt _ _) Hd) in Hs.
Qed.

Definition long_wire : list Z := 15 :: replicate 1200 1.
Definition long_buffer : overlay_buffer := mk_ob (Some (mkptr 1 0)) 0 0 1201 1201 None 0.
Definition long_world : world := set_mem world0 {[1%positive := long_wire]}.

Lemma long_receiving : receiving (w_mem long_world) long_buffer (ports_wire 7 7 ++ replicate 1200 1).
Proof.
  split; [|cbn; lia|vm_compute; reflexivity]. split; cbn; unfold INT_MAX; try lia; try done.
  exists long_wire. split; [reflexivity|]. split; [|by vm_compute]. constructor; [unfold is_byte; lia|].
  apply Forall_replicate. unfold is_byte. lia.
Qed.

Lemma received_overflow_witness : overlay_mdp_decode_header long_buffer zero_mdp long_world = None.
Proof. apply (received_overflow _ _ _ 7 7 (replicate 1200 1)); [exact long_receiving|lia|lia|reflexivity|reflexivity]. Defined.
