(* ===== verification/ConfOm.v ===== *)
(** ConfOm: conf_om.c, the configuration object model: a tree of options made from the lines of
    the configuration file or from commands.

    A pointer to a node is [NULL] or the node with all below it: no node is reached in two
    ways.  The text of a key or an option is the memory it is in, with its NUL.  What is freed
    is not tracked.  Allocations may fail: the state is the number of allocations so far, and
    the parameter [can_alloc] says which succeed. *)

From S2P Require Import Prelude Str.

Definition CFERROR : Z := -1.
Definition CFOK : Z := 0.
Definition CFEMPTY : Z := 1.
Definition CFDUPLICATE : Z := 2.
Definition CFINVALID : Z := 64.

Definition isalnum (c : Z) : bool := isalpha c || isdigit c.

(** ** Data *)

(** [struct cf_om_node *]; [key] is the offset of the key in [fullkey]. *)
Inductive cf_om_node : Type :=
| NULL
| Node (source : option (list Z)) (line_number : Z) (fullkey : option (list Z)) (key : nat)
    (text : option (list Z)) (nodv : list cf_om_node).

Definition node_zero : cf_om_node := Node None 0 None 0 None [].

Definition nodv (p : cf_om_node) : option (list cf_om_node) :=
  match p with NULL => None | Node _ _ _ _ _ v => Some v end.
Definition set_nodv (p : cf_om_node) (v : list cf_om_node) : option cf_om_node :=
  match p with NULL => None | Node src ln fk k t _ => Some (Node src ln fk k t v) end.

(** [child->key], from there to the end of its memory. *)
Definition node_key (p : cf_om_node) : option (list Z) :=
  match p with Node _ _ (Some fk) k _ _ => Some (drop k fk) | _ => None end.

(** ** Option names *)

(** The functions below get the characters from [key] up to [fullkeyend], and return how far
    the end of the key is. *)
Definition key_first (c : Z) : bool := isalpha c || (c =? 95).
Definition key_char (c : Z) : bool := isalnum c || (c =? 95).

Fixpoint key_span (s : list Z) : nat :=
  match s with
  | c :: s => if key_char c then S (key_span s) else O
  | [] => O
  end.

(** [!(s < fullkeyend && *s != '.')] at [s]. *)
Definition at_key_end (s : list Z) (n : nat) : bool :=
  match s !! n with Some c => c =? 46 | None => true end.

Definition cf_find_keyend (s : list Z) : option nat :=
  let n0 := match s with c :: _ => if key_first c then 1%nat else O | [] => O end in
  let n := (n0 + key_span (drop n0 s))%nat in
  if (n =? 0)%nat || negb (at_key_end s n) then None else Some n.

Definition cf_find_keypattern_end (s : list Z) : option nat :=
  match cf_find_keyend s with
  | Some n => Some n
  | None =>
      let n := if bool_decide (s !! O = Some 42) then 1%nat else O in
      let n := if (n + 1 =? length s)%nat && bool_decide (s !! n = Some 42) then S n else n in
      if (n =? 0)%nat || negb (at_key_end s n) then None else Some n
  end.

(** The loop of is_configvarname and is_configvarpattern: [None] when [key] is past the end. *)
Fixpoint names_loop (find : list Z -> option nat) (fuel : nat) (s : list Z) : option bool :=
  match fuel with
  | O => None
  | S fuel =>
      match find s with
      | None => Some false
      | Some n => if (n <? length s)%nat then names_loop find fuel (drop (S n) s) else Some true
      end
  end.

Definition is_configvarname (text : list Z) : option bool :=
  n ← strlen text;
  names_loop cf_find_keyend (S (length text)) (take (Z.to_nat n) text).
Definition is_configvarpattern (text : list Z) : option bool :=
  n ← strlen text;
  names_loop cf_find_keypattern_end (S (length text)) (take (Z.to_nat n) text).

(** ** Memory *)

Definition CM (A : Type) : Type := nat -> option (A * nat).
#[export] Instance CM_ret : MRet CM := fun A x k => Some (x, k).
#[export] Instance CM_bind : MBind CM := fun A B f m k =>
  match m k with Some (x, k) => f x k | None => None end.
Definition cm_lift {A} (o : option A) : CM A := fun k => match o with Some x => Some (x, k) | None => None end.
Definition cm_undefined {A} : CM A := fun _ => None.

Section conf_om.
Context (can_alloc : nat -> bool).

Definition emalloc : CM bool := fun k => Some (can_alloc k, S k).

(** What strncpy and the NUL leave in the new memory. *)
Fixpoint strncpy_cells (str : list Z) (len : nat) {struct len} : option (list Z) :=
  match len with
  | O => Some []
  | S len =>
      match str with
      | [] => None
      | c :: str => if c =? 0 then Some (replicate (S len) 0)
                    else r ← strncpy_cells str len; Some (c :: r)
      end
  end.

Definition strn_edup (str : list Z) (len : nat) : CM (option (list Z)) :=
  ok ← emalloc;
  if (ok : bool) then cells ← cm_lift (strncpy_cells str len); mret (Some (cells ++ [0]))
  else mret None.

Definition str_edup (str : list Z) : CM (option (list Z)) :=
  n ← cm_lift (strlen str);
  strn_edup str (Z.to_nat n).

(** ** Children *)

(** The binary search: the index, and whether a child with the key is there. *)
Fixpoint search_loop (fuel : nat) (v : list cf_om_node) (key : list Z) (keylen : nat) (m n : Z)
    : option (Z * bool) :=
  match fuel with
  | O => None
  | S fuel =>
      let i := (m + n) / 2 in
      child ← zget v i;
      ckey ← node_key child;
      c ← strncmp key ckey keylen;
      c ← (if c =? 0 then x ← ckey !! keylen; Some (if negb (x =? 0) then -1 else 0) else Some c);
      if c =? 0 then Some (i, true)
      else
        let '(i, m, n) := if 0 <? c then (i + 1, i + 1, n) else (i, m, i - 1) in
        if m <=? n then search_loop fuel v key keylen m n else Some (i, false)
  end.

(** [for (; j > i; --j) nodv[j] = nodv[j-1]], in [k] passes. *)
Fixpoint shift_up (k : nat) (j : Z) (v : list cf_om_node) : option (list cf_om_node) :=
  match k with
  | O => Some v
  | S k => x ← zget v (j - 1); v ← zset v j x; shift_up k (j - 1) v
  end.

(** Grow the children by one: only more than ten need a larger node, and the result of
    realloc is used without a test. *)
Definition grow_nodv (v : list cf_om_node) : CM (list cf_om_node) :=
  if (10 <? S (length v))%nat
  then ok ← emalloc; if (ok : bool) then mret (v ++ [NULL]) else cm_undefined
  else mret (v ++ [NULL]).

(** [s] is the memory from [fullkey]; [key] and [keyend] are offsets in it. *)
Definition cf_om_make_child (parent : cf_om_node) (s : list Z) (key keyend : nat)
    : CM (cf_om_node * Z) :=
  parent ← (match parent with
            | NULL => ok ← emalloc; mret (if (ok : bool) then node_zero else NULL)
            | _ => mret parent
            end);
  match parent with
  | NULL => mret (NULL, -1)
  | Node src ln fk k t v =>
      let keylen := (keyend - key)%nat in
      '(i, found) ← cm_lift (if (length v =? 0)%nat then Some (0, false)
                             else search_loop (length v) v (drop key s) keylen 0 (zlen v - 1));
      if (found : bool) then mret (parent, i)
      else if negb ((0 <=? i) && (i <=? zlen v)) then cm_undefined
      else
        ok ← emalloc;
        if negb (ok : bool) then mret (parent, -1)
        else
          fullkey ← strn_edup s keyend;
          match fullkey with
          | None => mret (parent, -1)
          | Some fullkey =>
              let child := Node None 0 (Some fullkey) key None [] in
              w ← grow_nodv v;
              w ← cm_lift (shift_up (Z.to_nat (zlen v - i)) (zlen v) w);
              w ← cm_lift (zset w i child);
              mret (Node src ln fk k t w, i)
          end
  end.

(** [key] has its NUL; [junk] is in the byte of the array that is not written for children
    of the root. *)
Definition cf_om_add_child (junk : Z) (parent : cf_om_node) (key : list Z) : CM (cf_om_node * Z) :=
  keylen ← cm_lift (strlen key);
  let k := take (Z.to_nat keylen) key in
  match parent with
  | Node _ _ (Some fk) _ _ _ =>
      n ← cm_lift (strlen fk);
      if n =? 0 then cf_om_make_child parent (k ++ [0; junk]) 0 (S (length k))
      else
        let p := take (Z.to_nat n) fk in
        cf_om_make_child parent (p ++ 46 :: k ++ [0]) (S (length p)) (length p + 1 + length k)
  | _ => cf_om_make_child parent (k ++ [0; junk]) 0 (S (length k))
  end.

(** [memcmp(a, b, n) == 0], byte by byte. *)
Fixpoint mem_equal (a b : list Z) (n : nat) {struct n} : option bool :=
  match n with
  | O => Some true
  | S n => match a, b with
           | x :: a, y :: b => if x =? y then mem_equal a b n else Some false
           | _, _ => None
           end
  end.

Fixpoint get_child_loop (v : list cf_om_node) (key : list Z) (keylen : nat) (i : Z) : option Z :=
  match v with
  | [] => Some (-1)
  | child :: v =>
      ckey ← node_key child;
      same ← mem_equal ckey key keylen;
      hit ← (if (same : bool) then x ← ckey !! keylen; Some (x =? 0) else Some false);
      if (hit : bool) then Some i else get_child_loop v key keylen (i + 1)
  end.

Definition cf_om_get_child (parent : cf_om_node) (key : list Z) (keylen : option nat) : option Z :=
  n ← (match keylen with Some n => Some n | None => n ← strlen key; Some (Z.to_nat n) end);
  v ← nodv parent;
  get_child_loop v key n 0.

(** [for (; n < nodc; ++n) nodv[n] = nodv[n+1]], in [k] passes. *)
Fixpoint shift_down_nodv (k : nat) (n : Z) (v : list cf_om_node) : option (list cf_om_node) :=
  match k with
  | O => Some v
  | S k => x ← zget v (n + 1); v ← zset v n x; shift_down_nodv k (n + 1) v
  end.

Definition cf_om_remove_child (parent : cf_om_node) (n : nat) : option cf_om_node :=
  v ← nodv parent;
  if negb (n <? length v)%nat then None
  else
    v ← zset v (Z.of_nat n) NULL;
    w ← shift_down_nodv (length v - 1 - n) (Z.of_nat n) v;
    set_nodv parent (take (length v - 1) w).

Definition cf_om_remove_null_child (parent : cf_om_node) (n : nat) : option (cf_om_node * Z) :=
  v ← nodv parent;
  if negb (n <? length v)%nat then None
  else match v !! n with
       | Some NULL => parent ← cf_om_remove_child parent n; Some (parent, 1)
       | _ => Some (parent, 0)
       end.

Definition cf_om_remove_empty_child (parent : cf_om_node) (n : nat) : option (cf_om_node * Z) :=
  v ← nodv parent;
  if negb (n <? length v)%nat then None
  else match v !! n with
       | Some (Node _ _ _ _ None []) => parent ← cf_om_remove_child parent n; Some (parent, 1)
       | _ => Some (parent, 0)
       end.

(** ** Reaching an option *)

(** The loop of cf_om_parse and cf_om_set that makes the nodes on the way to an option.
    [s] is the memory from [fullkey], [e] the offset of [fullkeyend].  [fin] is what
    follows the loop, at the node that was reached: it gets whether [keyend] is NULL and
    whether [nodi] is -1. *)
Fixpoint make_path {A} (fuel : nat) (at_ : cf_om_node) (s : list Z) (key e : nat)
    (fin : bool -> bool -> cf_om_node -> CM (cf_om_node * A)) : CM (cf_om_node * A) :=
  match fuel with
  | O => cm_undefined
  | S fuel =>
      if (key <=? e)%nat then
        match cf_find_keyend (take (e - key) (drop key s)) with
        | None => fin true false at_
        | Some n =>
            '(at_, i) ← cf_om_make_child at_ s key (key + n);
            if i =? -1 then fin false true at_
            else
              v ← cm_lift (nodv at_);
              child ← cm_lift (zget v i);
              '(child, r) ← make_path fuel child s (key + n + 1) e fin;
              v ← cm_lift (zset v i child);
              at_ ← cm_lift (set_nodv at_ v);
              mret (at_, r)
        end
      else fin false false at_
  end.

Definition set_text (p : cf_om_node) (t : option (list Z)) : option cf_om_node :=
  match p with NULL => None | Node src ln fk k _ v => Some (Node src ln fk k t v) end.

Definition cf_om_set (root : cf_om_node) (fullkey : list Z) (text : option (list Z))
    : CM (cf_om_node * Z) :=
  e ← cm_lift (strlen fullkey);
  make_path (S (S (Z.to_nat e))) root fullkey 0 (Z.to_nat e) (fun no_keyend no_node node =>
    if no_keyend then mret (node, CFINVALID)
    else if no_node then mret (node, CFERROR)
    else
      match text with
      | None => node ← cm_lift (set_text node None); mret (node, CFOK)
      | Some text =>
          t ← str_edup text;
          node ← cm_lift (set_text node t);
          mret (node, match t with Some _ => CFOK | None => CFERROR end)
      end).

(** ** The configuration file *)

Fixpoint find_char (c : Z) (s : list Z) : nat :=
  match s with x :: s => if x =? c then O else S (find_char c s) | [] => O end.

(** A line with an option: [rest] is the memory from the line, [p] the offset of the equals
    sign and [lend] that of the end of the line.  The result is [None] where cf_om_parse
    returns CFERROR, otherwise the flags after the line. *)
Definition parse_option (source : list Z) (rest : list Z) (p lend : nat) (lineno result : Z)
    (root : cf_om_node) : CM (cf_om_node * option Z) :=
  make_path (S (S p)) root rest 0 p (fun no_keyend no_node node =>
    if no_keyend then mret (node, Some (Z.lor result CFINVALID))
    else if no_node then mret (node, None)
    else
      match node with
      | NULL => cm_undefined
      | Node _ _ _ _ (Some _) _ => mret (node, Some (Z.lor result CFDUPLICATE))
      | Node src ln fk k None v =>
          t ← strn_edup (drop (S p) rest) (lend - S p);
          match t with
          | None => mret (node, None)
          | Some t => mret (Node (Some source) lineno fk k (Some t) v,
                            Some (Z.land result (Z.lnot CFEMPTY)))
          end
      end).

Definition parse_line (source : list Z) (rest : list Z) (lineno result : Z) (root : cf_om_node)
    : CM (cf_om_node * option Z) :=
  let l := find_char 10 rest in
  let lend := if (0 <? l)%nat && bool_decide (rest !! (l - 1)%nat = Some 13) then (l - 1)%nat else l in
  let line := take lend rest in
  if bool_decide (rest !! O = Some 35) then mret (root, Some result)
  else if forallb isspace line then mret (root, Some result)
  else
    let p := find_char 61 line in
    if (p =? 0)%nat || (p =? lend)%nat then mret (root, Some (Z.lor result CFINVALID))
    else parse_option source rest p lend lineno result root.

Fixpoint parse_loop (fuel : nat) (source : list Z) (rest : list Z) (lineno result : Z)
    (root : cf_om_node) : CM (cf_om_node * Z) :=
  match rest with
  | [] => mret (root, result)
  | _ =>
      match fuel with
      | O => cm_undefined
      | S fuel =>
          '(root, r) ← parse_line source rest lineno result root;
          match r with
          | None => mret (root, CFERROR)
          | Some result =>
              parse_loop fuel source (drop (S (find_char 10 rest)) rest) (u32 (lineno + 1)) result root
          end
      end
  end.

Definition cf_om_parse (source buf : list Z) (root : cf_om_node) : CM (cf_om_node * Z) :=
  parse_loop (length buf) source buf 1 CFEMPTY root.
End conf_om.

(** ** Reading options *)

Fixpoint get_path (fuel : nat) (node : cf_om_node) (s : list Z) (key e : nat)
    : option (option (list Z)) :=
  match fuel with
  | O => None
  | S fuel =>
      if (key <=? e)%nat then
        match cf_find_keyend (take (e - key) (drop key s)) with
        | None => Some None
        | Some n =>
            i ← cf_om_get_child node (drop key s) (Some n);
            if i =? -1 then Some None
            else v ← nodv node; child ← zget v i; get_path fuel child s (key + n + 1) e
        end
      else match node with NULL => None | Node _ _ _ _ t _ => Some t end
  end.

Definition cf_om_get (node : cf_om_node) (fullkey : list Z) : option (option (list Z)) :=
  match node with
  | NULL => Some None
  | _ => e ← strlen fullkey; get_path (S (S (Z.to_nat e))) node fullkey 0 (Z.to_nat e)
  end.

(** How many characters agree: the inner loop of cf_om_match. *)
Fixpoint agree (p k : list Z) : nat :=
  match p, k with
  | x :: p, y :: k => if x =? y then S (agree p k) else O
  | _, _ => O
  end.

(** [if ( *s ) ++s] at offset [n]. *)
Definition skip_one (s : list Z) (n : nat) : nat := if (n <? length s)%nat then S n else n.

(** [pattern] and [fullkey] up to their NUL; [pat] and [key] are offsets. *)
Fixpoint match_loop (fuel : nat) (pattern fullkey : list Z) (pat key : nat)
    (keyend patend : option nat) : option Z :=
  match fuel with
  | O => None
  | S fuel =>
      let out (keyend patend : option nat) := Some (match patend with
        | None => -1
        | Some _ => Zb (bool_decide (keyend = Some (length fullkey)) && (pat =? length pattern)%nat)
        end) in
      if (pat <? length pattern)%nat && (key <=? length fullkey)%nat then
        match cf_find_keyend (drop key fullkey) with
        | None => out None patend
        | Some kn =>
            let keyend := (key + kn)%nat in
            match cf_find_keypattern_end (drop pat pattern) with
            | None => out (Some keyend) None
            | Some pn =>
                let patend := (pat + pn)%nat in
                if bool_decide (pattern !! pat = Some 42) then
                  if bool_decide (pattern !! S pat = Some 42) then Some 1
                  else match_loop fuel pattern fullkey (skip_one pattern patend)
                         (skip_one fullkey keyend) (Some keyend) (Some patend)
                else
                  let n := agree (take pn (drop pat pattern)) (drop key fullkey) in
                  if negb (pat + n =? patend)%nat || negb (key + n =? keyend)%nat then Some 0
                  else match_loop fuel pattern fullkey (skip_one pattern (pat + n))
                         (skip_one fullkey (key + n)) (Some keyend) (Some patend)
            end
        end
      else out keyend patend
  end.

Definition cf_om_match (pattern : list Z) (node : cf_om_node) : option Z :=
  match node with
  | Node _ _ (Some fk) _ _ _ =>
      n ← strlen pattern;
      if n =? 0 then Some (-1)
      else
        e ← strlen fk;
        match_loop (S (Z.to_nat n)) (take (Z.to_nat n) pattern) (take (Z.to_nat e) fk) 0 0 None (Some O)
  | _ => Some 0
  end.

(** ** Going through all nodes *)

(** [struct cf_om_iterator]. *)
Record cf_om_iterator := mk_it {
  it_node : cf_om_node;
  it_sp : Z;
  it_stack : list (cf_om_node * Z)
}.

Definition STACK : nat := 20.

Definition cf_om_iter_start (root : cf_om_node) : cf_om_iterator :=
  mk_it root 0 ((root, 0) :: replicate (STACK - 1) (NULL, 0)).

(** A pass of the loop of cf_om_iter_next: [None] when it goes on. *)
Definition iter_pass (it : cf_om_iterator) : option (cf_om_iterator * option Z) :=
  '(parent, i) ← zget (it_stack it) (it_sp it);
  stack ← zset (it_stack it) (it_sp it) (parent, u32 (i + 1));
  v ← nodv parent;
  if i <? zlen v then
    node ← zget v i;
    match node with
    | NULL => Some (mk_it NULL (it_sp it) stack, Some (-1))
    | _ =>
        if Z.of_nat STACK <=? it_sp it then Some (mk_it node (it_sp it) stack, Some (-1))
        else
          stack ← zset stack (it_sp it + 1) (node, 0);
          Some (mk_it node (it_sp it + 1) stack, Some 0)
    end
  else if negb (it_sp it =? 0) then Some (mk_it (it_node it) (it_sp it - 1) stack, None)
  else Some (mk_it NULL (it_sp it) stack, Some 0).

Fixpoint iter_loop (fuel : nat) (it : cf_om_iterator) : option (cf_om_iterator * Z) :=
  match fuel with
  | O => None
  | S fuel =>
      '(it, r) ← iter_pass it;
      match r with Some r => Some (it, r) | None => iter_loop fuel it end
  end.

Definition cf_om_iter_next (it : cf_om_iterator) : option (cf_om_iterator * Z) :=
  match it_node it with
  | NULL => Some (it, 0)
  | _ => iter_loop (S (Z.to_nat (it_sp it))) it
  end.
