(* ===== verification/ConfKeys.v ===== *)
(** ConfKeys: the names of options and the order of the children of a node (conf_om.c). *)

From S2P Require Import Prelude Str ConfOm.

(** ** Names *)

(** A name is keys separated by dots. *)
Definition valid_key (k : list Z) : bool := negb (bool_decide (k = [])) && forallb key_char k.
Definition valid_name (s : list Z) : bool := forallb valid_key (split_fields 46 s).

Fixpoint join_dots (ks : list (list Z)) : list Z :=
  match ks with
  | [] => []
  | [k] => k
  | k :: ks => k ++ 46 :: join_dots ks
  end.

Definition no_dot (k : list Z) : Prop := Forall (fun c => c <> 46) k.

Lemma key_char_no_dot c : key_char c = true -> c <> 46 /\ c <> 0 /\ c <> 61 /\ c <> 10 /\ c <> 35 /\ c <> 13 /\ 0 < c < 256 /\ isspace c = false.
Proof.
  unfold key_char, isalnum, isalpha, isupper, islower, isdigit, isspace. intros H.
  assert (0 < c < 128 /\ c <> 46 /\ c <> 61 /\ c <> 10 /\ c <> 35 /\ c <> 13 /\ c <> 32 /\ ~ (9 <= c <= 13)).
  { repeat rewrite orb_true_iff in H. rewrite !andb_true_iff, !Z.leb_le, Z.eqb_eq in H. lia. }
  destruct H0 as (?&?&?&?&?&?&?&?). repeat split; try lia; zcases; try lia; done.
Qed.

Lemma valid_key_spec k : valid_key k = true <-> k <> [] /\ Forall (fun c => key_char c = true) k.
Proof.
  unfold valid_key. rewrite andb_true_iff, negb_true_iff, bool_decide_eq_false, forallb_forall.
  by rewrite Forall_forall; setoid_rewrite list_elem_of_In.
Qed.

Lemma valid_key_no_dot k : valid_key k = true -> no_dot k.
Proof.
  intros [_ H]%valid_key_spec. eapply Forall_impl; [exact H|]. simpl. intros c Hc.
  apply key_char_no_dot in Hc. tauto.
Qed.

Lemma split_fields_no_dot k rest :
  no_dot k -> split_fields 46 (k ++ 46 :: rest) = k :: split_fields 46 rest.
Proof.
  induction 1 as [|c k Hc _ IH]; [done|]. cbn [app split_fields]. rewrite IH.
  by rewrite (proj2 (Z.eqb_neq c 46)).
Qed.

Lemma split_fields_whole k : no_dot k -> split_fields 46 k = [k].
Proof.
  induction 1 as [|c k Hc _ IH]; [done|]. cbn [split_fields]. rewrite IH.
  by rewrite (proj2 (Z.eqb_neq c 46)).
Qed.

(** The first key of a name, and what follows its dot. *)
Lemma split_first s :
  (no_dot s /\ split_fields 46 s = [s]) \/
  (exists k rest, no_dot k /\ s = k ++ 46 :: rest /\ split_fields 46 s = k :: split_fields 46 rest).
Proof.
  induction s as [|c s IH]; [left; split; [constructor|done]|].
  destruct (decide (c = 46)) as [->|Hc].
  { right. exists [], s. repeat split; constructor. }
  destruct IH as [[Hs E]|(k & rest & Hk & -> & E)].
  - left. assert (no_dot (c :: s)) by (constructor; done). split; [done|by apply split_fields_whole].
  - right. exists (c :: k), rest. assert (no_dot (c :: k)) by (constructor; done).
    repeat split; [done|]. by apply (split_fields_no_dot (c :: k)).
Qed.

Lemma split_fields_join ks : Forall no_dot ks -> ks <> [] -> split_fields 46 (join_dots ks) = ks.
Proof.
  induction 1 as [|k ks Hk Hks IH]; [done|]. intros _. destruct ks as [|k' ks].
  - by apply split_fields_whole.
  - change (join_dots (k :: k' :: ks)) with (k ++ 46 :: join_dots (k' :: ks)).
    rewrite split_fields_no_dot by done. by rewrite IH.
Qed.

Lemma join_split s : join_dots (split_fields 46 s) = s.
Proof.
  induction s as [s IH] using (induction_ltof1 _ length); unfold ltof in IH.
  destruct (split_first s) as [[_ ->]|(k & rest & _ & -> & ->)]; [done|].
  destruct (split_fields_cons 46 rest) as (f & fs & E). 
  specialize (IH rest). rewrite E in *. change (join_dots (k :: f :: fs)) with (k ++ 46 :: join_dots (f :: fs)).
  rewrite IH; [done|]. rewrite length_app. simpl. lia.
Qed.

Lemma valid_name_first k s :
  no_dot k -> valid_name (k ++ 46 :: s) = valid_key k && valid_name s.
Proof. intros. unfold valid_name. by rewrite split_fields_no_dot by done. Qed.
Lemma valid_name_whole k : no_dot k -> valid_name k = valid_key k.
Proof. intros. unfold valid_name. rewrite split_fields_whole by done. simpl. apply andb_true_r. Qed.

(** cf_find_keyend finds the end of a first key that is well formed. *)
Lemma key_span_app k rest :
  Forall (fun c => key_char c = true) k ->
  key_span (k ++ rest) = (length k + key_span rest)%nat.
Proof. induction 1 as [|c k Hc _ IH]; [done|]. cbn. by rewrite Hc, IH. Qed.

Lemma key_span_prefix s : Forall (fun c => key_char c = true) (take (key_span s) s).
Proof.
  induction s as [|c s IH]; [constructor|]. cbn. destruct (key_char c) eqn:E; [|constructor].
  by constructor.
Qed.

Lemma key_span_stop s c : s !! key_span s = Some c -> key_char c = false.
Proof.
  induction s as [|x s IH]; [done|]. cbn. destruct (key_char x) eqn:E; [exact IH|].
  cbn. by intros [= ->].
Qed.

Lemma key_span_le s : (key_span s <= length s)%nat.
Proof. induction s as [|c s IH]; [done|]. cbn. destruct (key_char c); lia. Qed.

Lemma key_first_char c : key_first c = true -> key_char c = true.
Proof. unfold key_first, key_char, isalnum. destruct (isalpha c), (c =? 95); auto with bool. Qed.

Lemma keyend_span s :
  cf_find_keyend s
  = let n := key_span s in if (n =? 0)%nat || negb (at_key_end s n) then None else Some n.
Proof.
  unfold cf_find_keyend. destruct s as [|c s]; [done|].
  destruct (key_first c) eqn:E; [|done].
  cbn [drop Nat.add]. cbn [key_span]. by rewrite (key_first_char _ E).
Qed.

Lemma keyend_first k rest :
  no_dot k -> rest = [] \/ head rest = Some 46 ->
  cf_find_keyend (k ++ rest) = if valid_key k then Some (length k) else None.
Proof.
  intros Hk Hr. rewrite keyend_span. cbn zeta.
  assert (Hrest : key_span rest = O).
  { destruct Hr as [->|Hr]; [done|]. destruct rest as [|c rest]; [done|]. simpl in Hr. by simplify_eq. }
  destruct (decide (Forall (fun c => key_char c = true) k)) as [Hall|Hall].
  - rewrite (key_span_app _ _ Hall), Hrest, Nat.add_0_r.
    assert (at_key_end (k ++ rest) (length k) = true) as ->.
    { unfold at_key_end. rewrite lookup_app_r, Nat.sub_diag by lia.
      destruct Hr as [->|Hr]; [done|]. destruct rest; simpl in *; by simplify_eq. }
    rewrite orb_false_r. destruct (valid_key k) eqn:Ev.
    + apply valid_key_spec in Ev as [Hne _]. by destruct k.
    + destruct k; [done|]. by rewrite (proj2 (valid_key_spec (z :: k))) in Ev.
  - assert (valid_key k = false) as ->.
    { apply not_true_is_false. intros [_ ?]%valid_key_spec. done. }
    assert (Hlt : (key_span k < length k)%nat).
    { pose proof (key_span_le k). destruct (decide (key_span k = length k)) as [E|]; [|lia].
      pose proof (key_span_prefix k) as Hp. by rewrite E, firstn_all in Hp. }
    assert (Hks : key_span (k ++ rest) = key_span k).
    { clear -Hlt. induction k as [|c k IH]; simpl in *; [lia|]. destruct (key_char c); [|done].
      rewrite IH; lia. }
    rewrite Hks. destruct (lookup_lt_is_Some_2 _ _ Hlt) as [c Hc].
    assert (at_key_end (k ++ rest) (key_span k) = false) as ->; [|by rewrite orb_true_r].
    unfold at_key_end. rewrite lookup_app_l, Hc by done. apply Z.eqb_neq.
    by apply (Forall_lookup_1 _ _ _ _ Hk) in Hc.
Qed.

(** The names that is_configvarname accepts. *)
Lemma names_loop_valid s : forall fuel,
  (length s < fuel)%nat -> names_loop cf_find_keyend fuel s = Some (valid_name s).
Proof.
  induction s as [s IH] using (induction_ltof1 _ length); unfold ltof in IH.
  intros [|fuel] Hf; [lia|]. cbn [names_loop].
  destruct (split_first s) as [[Hs E]|(k & rest & Hk & -> & E)].
  - pose proof (keyend_first s [] Hs (or_introl eq_refl)) as Hkf. rewrite app_nil_r in Hkf.
    rewrite Hkf, valid_name_whole by done.
    destruct (valid_key s); [|done]. by rewrite Nat.ltb_irrefl.
  - rewrite (keyend_first k (46 :: rest) Hk) by (by right).
    rewrite valid_name_first by done. destruct (valid_key k); [|done].
    rewrite length_app in *. simpl length in *.
    rewrite (proj2 (Nat.ltb_lt (length k) (length k + S (length rest)))) by lia.
    replace (drop (S (length k)) (k ++ 46 :: rest)) with rest.
    { simpl. apply IH; rewrite ?length_app; simpl; lia. }
    rewrite drop_app, (drop_ge k) by lia. by replace (S (length k) - length k)%nat with 1%nat by lia.
Qed.

Lemma is_configvarname_spec t r :
  text t -> is_configvarname (t ++ 0 :: r) = Some (valid_name t).
Proof.
  intros Ht. unfold is_configvarname. rewrite strlen_text by done. cbn [mbind option_bind].
  rewrite Nat2Z.id, take_app_length. apply names_loop_valid. rewrite length_app. simpl. lia.
Qed.

(** ** The order of keys *)

Fixpoint key_compare (a b : list Z) : comparison :=
  match a, b with
  | [], [] => Eq
  | [], _ :: _ => Lt
  | _ :: _, [] => Gt
  | x :: a, y :: b => match x ?= y with Eq => key_compare a b | c => c end
  end.
Definition key_lt (a b : list Z) : Prop := key_compare a b = Lt.

Lemma key_compare_refl a : key_compare a a = Eq.
Proof. induction a as [|x a IH]; [done|]. cbn. by rewrite Z.compare_refl. Qed.

Lemma key_compare_eq a b : key_compare a b = Eq -> a = b.
Proof.
  revert b. induction a as [|x a IH]; intros [|y b]; try done. cbn.
  destruct (x ?= y) eqn:E; try done. apply Z.compare_eq in E as ->. intros H. f_equal. auto.
Qed.

Lemma key_compare_antisym a b : key_compare b a = CompOpp (key_compare a b).
Proof.
  revert b. induction a as [|x a IH]; intros [|y b]; try done. cbn.
  rewrite (Z.compare_antisym x y). destruct (x ?= y); simpl; auto.
Qed.

#[export] Instance key_lt_trans : Transitive key_lt.
Proof.
  unfold key_lt. intros a. induction a as [|x a IH]; intros [|y b] [|z c]; try done. cbn.
  destruct (Z.compare_spec x y), (Z.compare_spec y z); try done; subst; intros H1 H2.
  - rewrite Z.compare_refl. eauto.
  - by rewrite (proj2 (Z.compare_lt_iff y z)).
  - by rewrite (proj2 (Z.compare_lt_iff x z)).
  - rewrite (proj2 (Z.compare_lt_iff x z)) by lia. done.
Qed.

Lemma key_lt_irrefl a : ~ key_lt a a.
Proof. unfold key_lt. by rewrite key_compare_refl. Qed.

(** A key of the memory, without NUL. *)
Definition key_text (k : list Z) : Prop := Forall (fun c => 0 < c) k.

Lemma valid_key_text k : valid_key k = true -> key_text k.
Proof.
  intros [_ H]%valid_key_spec. eapply Forall_impl; [exact H|]. simpl. intros c Hc.
  apply key_char_no_dot in Hc. lia.
Qed.

(** What a step of the search compares. *)
Definition child_cmp (key ckey : list Z) (keylen : nat) : option Z :=
  c ← strncmp key ckey keylen;
  if c =? 0 then x ← ckey !! keylen; Some (if negb (x =? 0) then -1 else 0) else Some c.

Lemma child_cmp_spec k x c y :
  key_text k -> key_text c ->
  child_cmp (k ++ x) (c ++ 0 :: y) (length k)
  = Some (match key_compare k c with Eq => 0 | Lt => -1 | Gt => 1 end).
Proof.
  intros Hk. revert c. induction Hk as [|a k Ha Hk IH]; intros c Hc.
  - unfold child_cmp. cbn. destruct Hc as [|b c Hb]; [done|]. cbn.
    by rewrite (proj2 (Z.eqb_neq b 0)) by lia.
  - destruct Hc as [|b c Hb Hc].
    + unfold child_cmp, strncmp. cbn. by rewrite (proj2 (Z.ltb_ge a 0)), (proj2 (Z.ltb_lt 0 a)) by lia.
    + specialize (IH c Hc). unfold child_cmp, strncmp in *. cbn [app length strncmp_with id] in *.
      cbn [key_compare]. unfold id in *.
      destruct (Z.compare_spec a b) as [->|?|?].
      * rewrite Z.ltb_irrefl, (proj2 (Z.eqb_neq b 0)) by lia. exact IH.
      * by rewrite (proj2 (Z.ltb_lt a b)).
      * by rewrite (proj2 (Z.ltb_ge a b)), (proj2 (Z.ltb_lt b a)) by lia.
Qed.
