(* ===== verification/ConfTree.v ===== *)
(** ConfTree: the shape of the tree of options, and what its operations do to it (conf_om.c). *)

From Stdlib Require Import Sorted.
From S2P Require Import Prelude Str Strlcpy ConfOm ConfKeys.

(** ** Shape *)

(** A node with its key [n] at the end of the name [pre ++ n]: the names of its children
    are sorted, and so on below. *)
Inductive om_ok : list Z -> list Z -> cf_om_node -> Prop :=
| om_ok_node pre n src ln t v names y :
    valid_key n = true ->
    StronglySorted key_lt names ->
    Forall2 (om_ok (pre ++ n ++ [46])) names v ->
    Forall (fun t => 0 ∈ t) (option_list t) ->
    om_ok pre n (Node src ln (Some (pre ++ n ++ 0 :: y)) (length pre) t v).

Definition children_ok (pre : list Z) (names : list (list Z)) (v : list cf_om_node) : Prop :=
  StronglySorted key_lt names /\ Forall2 (om_ok pre) names v.

(** The root has no key and no text. *)
Inductive root_ok : cf_om_node -> Prop :=
| root_null : root_ok NULL
| root_node src ln k names v : children_ok [] names v -> root_ok (Node src ln None k None v).

Lemma om_ok_key pre n p : om_ok pre n p -> exists y, node_key p = Some (n ++ 0 :: y).
Proof. destruct 1. eexists. cbn. f_equal. apply drop_app_length. Qed.

Lemma om_ok_valid pre n p : om_ok pre n p -> valid_key n = true.
Proof. by destruct 1. Qed.

Lemma children_valid pre names v : children_ok pre names v -> Forall (fun n => valid_key n = true) names.
Proof.
  intros [_ H]. clear -H. induction H; constructor; eauto using om_ok_valid.
Qed.

Lemma sorted_lookup_lt names i j a b :
  StronglySorted key_lt names -> names !! i = Some a -> names !! j = Some b ->
  (i < j)%nat -> key_lt a b.
Proof.
  intros Hs. revert i j. induction Hs as [|n names Hs IH Hn]; intros i j Ha Hb Hij; [done|].
  destruct j as [|j]; [lia|]. simpl in Hb. destruct i as [|i]; simpl in Ha.
  - simplify_eq. by apply (Forall_lookup_1 _ _ _ _ Hn) in Hb.
  - eapply IH; eauto. lia.
Qed.

(** ** The binary search *)

Section search.
Context (pre : list Z) (names : list (list Z)) (v : list cf_om_node) (k x : list Z).
Hypothesis Hok : children_ok pre names v.
Hypothesis Hk : valid_key k = true.

Definition below (i : Z) : Prop :=
  forall j n, names !! j = Some n -> Z.of_nat j < i -> key_lt n k.
Definition above (i : Z) : Prop :=
  forall j n, names !! j = Some n -> i <= Z.of_nat j -> key_lt k n.

Lemma search_loop_spec : forall fuel m n,
  0 <= m <= n -> n < zlen v -> n - m < Z.of_nat fuel -> below m -> above (n + 1) ->
  exists i b, search_loop fuel v (k ++ x) (length k) m n = Some (i, b) /\ 0 <= i <= zlen v /\
    if (b : bool) then names !! Z.to_nat i = Some k else below i /\ above i.
Proof.
  destruct Hok as [Hs Hv].
  induction fuel as [|fuel IH]; intros m n Hm Hn Hf Hb Ha; [lia|]. cbn [search_loop].
  set (i := (m + n) / 2). assert (Hi : m <= i <= n) by (subst i; split;
    [apply Z.div_le_lower_bound|apply Z.div_le_upper_bound]; lia).
  destruct (zget_is_Some v i) as [c Hc]; [lia|]. rewrite Hc. cbn [mbind option_bind].
  assert (Hci : v !! Z.to_nat i = Some c) by (revert Hc; unfold zget; by zdecide).
  destruct (Forall2_lookup_r _ _ _ _ _ Hv Hci) as (cn & Hcn & Hco).
  destruct (om_ok_key _ _ _ Hco) as [y ->]. cbn [mbind option_bind].
  pose proof (child_cmp_spec k x cn y (valid_key_text _ Hk) (valid_key_text _ (om_ok_valid _ _ _ Hco)))
    as Hcmp. unfold child_cmp in Hcmp. cbn [mbind option_bind] in Hcmp.
  destruct (strncmp (k ++ x) (cn ++ 0 :: y) (length k)) as [c0|]; [|done].
  cbn [mbind option_bind] in Hcmp |- *. rewrite Hcmp. cbn [mbind option_bind]. clear Hcmp.
  destruct (key_compare k cn) eqn:Ecmp; cbn [Z.eqb Z.ltb Z.compare].
  - apply key_compare_eq in Ecmp as ->. exists i, true. repeat split; try lia. done.
  - assert (Ha' : above (i - 1 + 1)).
    { intros j nn Hj Hle. destruct (decide (j = Z.to_nat i)) as [->|]; [by simplify_eq|].
      transitivity cn; [done|]. eapply sorted_lookup_lt; eauto. lia. }
    destruct (Z.leb_spec m (i - 1)).
    + apply IH; try done; lia.
    + exists i, false. repeat split; try lia.
      * replace i with m by lia. done.
      * by replace (i - 1 + 1) with i in Ha' by lia.
  - assert (Hb' : below (i + 1)).
    { assert (Hgt : key_lt cn k) by (unfold key_lt; by rewrite key_compare_antisym, Ecmp).
      intros j nn Hj Hle. destruct (decide (j = Z.to_nat i)) as [->|]; [by simplify_eq|].
      transitivity cn; [|done]. eapply sorted_lookup_lt; eauto. lia. }
    destruct (Z.leb_spec (i + 1) n).
    + apply IH; try done; lia.
    + exists (i + 1), false. repeat split; try lia; [done|]. by replace (i + 1) with (n + 1) by lia.
Qed.

Lemma search_spec :
  exists i b, (if (length v =? 0)%nat then Some (0, false)
               else search_loop (length v) v (k ++ x) (length k) 0 (zlen v - 1)) = Some (i, b) /\
    0 <= i <= zlen v /\ if (b : bool) then names !! Z.to_nat i = Some k else below i /\ above i.
Proof.
  destruct Hok as [Hs Hv]. pose proof (Forall2_length _ _ _ Hv) as Hl.
  destruct (Nat.eqb_spec (length v) 0) as [E|E].
  - exists 0, false. repeat split; try lia; intros j nn Hj%lookup_lt_Some; lia.
  - apply search_loop_spec; try lia; intros j nn Hj%lookup_lt_Some; lia.
Qed.
End search.

(** ** Inserting a child *)

Lemma shift_up_spec (v : list cf_om_node) : forall (k : nat) x (i j : nat),
  (i + k = j)%nat -> (j <= length v)%nat ->
  exists y, shift_up k (Z.of_nat j) (take j v ++ x :: drop j v) = Some (take i v ++ y :: drop i v).
Proof.
  induction k as [|k IH]; intros x i j Hij Hj; cbn [shift_up].
  - replace j with i by lia. by eexists.
  - destruct j as [|j]; [lia|].
    destruct (lookup_lt_is_Some_2 v j) as [c Hc]; [lia|].
    rewrite (take_S_r _ _ _ Hc), <- app_assoc. cbn [app].
    assert (Hlt : length (take j v) = j) by (rewrite length_take; lia).
    unfold zget. zdecide. replace (Z.to_nat (Z.of_nat (S j) - 1)) with j by lia.
    rewrite lookup_app_r, Hlt, Nat.sub_diag by lia. cbn [lookup list_lookup mbind option_bind].
    rewrite zset_Some; [|rewrite length_app; simpl; rewrite Hlt; lia].
    cbn [mbind option_bind]. rewrite Nat2Z.id, insert_app_r_alt, Hlt by lia.
    replace (S j - j)%nat with 1%nat by lia. cbn [insert list_insert].
    rewrite <- (drop_S v c j) by done. replace (Z.of_nat (S j) - 1) with (Z.of_nat j) by lia.
    apply IH; lia.
Qed.

Lemma insert_child_spec (v : list cf_om_node) (i : nat) c :
  (i <= length v)%nat ->
  (w ← shift_up (length v - i) (zlen v) (v ++ [NULL]); zset w (Z.of_nat i) c)
  = Some (take i v ++ c :: drop i v).
Proof.
  intros Hi. destruct (shift_up_spec v (length v - i) NULL i (length v)) as [y Hy]; [lia..|].
  rewrite firstn_all, drop_all in Hy. rewrite Hy. cbn [mbind option_bind].
  assert (Hlt : length (take i v) = i) by (rewrite length_take; lia).
  rewrite zset_Some by (rewrite length_app; simpl; lia). rewrite Nat2Z.id.
  rewrite insert_app_r_alt, Hlt, Nat.sub_diag by lia. done.
Qed.

Lemma names_sorted_insert (names : list (list Z)) (i : nat) k :
  StronglySorted key_lt names -> below names k (Z.of_nat i) -> above names k (Z.of_nat i) ->
  StronglySorted key_lt (take i names ++ k :: drop i names).
Proof.
  intros Hs. revert i. induction Hs as [|n names Hs IH Hn]; intros i Hb Ha.
  { rewrite take_nil, drop_nil. repeat constructor. }
  destruct i as [|i]; cbn [take drop app].
  - constructor; [by constructor|]. apply Forall_lookup_2. intros j m Hj. apply (Ha j m Hj). lia.
  - constructor.
    + apply IH; intros j m Hj ?.
      * apply (Hb (S j) m Hj). lia.
      * apply (Ha (S j) m Hj). lia.
    + apply Forall_app. split; [by apply Forall_take|]. constructor; [|by apply Forall_drop].
      apply (Hb O n); [done|lia].
Qed.

Lemma strncpy_cells_text t x : text t -> strncpy_cells (t ++ x) (length t) = Some t.
Proof.
  induction 1 as [|c t Hc _ IH]; [done|]. cbn. rewrite (proj2 (Z.eqb_neq c 0)) by done.
  by rewrite IH.
Qed.

(** What is copied up to [len]: the text before a NUL, and NULs for the rest. *)
Lemma strncpy_cells_any s n :
  (n <= length s)%nat -> exists z, strncpy_cells s n = Some (c_text (take n s) ++ replicate z 0).
Proof.
  revert s. induction n as [|n IH]; intros [|c s] Hn; cbn in *; try lia; try by exists O.
  destruct (c =? 0) eqn:E.
  - exists (S n). done.
  - destruct (IH s) as [z ->]; [lia|]. by exists z.
Qed.

Lemma c_text_text s : text (c_text s).
Proof.
  induction s as [|c s IH]; [constructor|]. simpl. destruct (Z.eqb_spec c 0); by constructor.
Qed.

Lemma c_text_zeros t z : text t -> c_text (t ++ replicate z 0 ++ [0]) = t.
Proof. intros. destruct z; by apply c_text_app. Qed.

(** ** What a tree says *)

Definition node_name (p : cf_om_node) : list Z := default [] (c_text <$> node_key p).
Definition node_text (p : cf_om_node) : option (list Z) :=
  match p with NULL => None | Node _ _ _ _ t _ => c_text <$> t end.
Definition children (p : cf_om_node) : list cf_om_node := default [] (nodv p).

Fixpoint child_named (k : list Z) (v : list cf_om_node) : option cf_om_node :=
  match v with
  | [] => None
  | c :: v => if bool_decide (node_name c = k) then Some c else child_named k v
  end.

(** The text of the option whose name has the given keys. *)
Fixpoint om_lookup (ks : list (list Z)) (p : cf_om_node) : option (list Z) :=
  match ks with
  | [] => node_text p
  | k :: ks => c ← child_named k (children p); om_lookup ks c
  end.

Lemma om_ok_name pre n p : om_ok pre n p -> node_name p = n.
Proof.
  intros H. unfold node_name. destruct (om_ok_key _ _ _ H) as [y ->]. cbn. apply c_text_app.
  eapply Forall_impl; [apply valid_key_text; by eapply om_ok_valid|]. simpl. lia.
Qed.

Lemma children_names pre names v : Forall2 (om_ok pre) names v -> node_name <$> v = names.
Proof. induction 1; [done|]. cbn. f_equal; [by eapply om_ok_name|done]. Qed.

Lemma child_named_None k v : k ∉ node_name <$> v -> child_named k v = None.
Proof.
  induction v as [|c v IH]; [done|]. cbn. intros [? ?]%not_elem_of_cons.
  rewrite bool_decide_eq_false_2 by congruence. auto.
Qed.

Lemma child_named_Some k v i c :
  NoDup (node_name <$> v) -> v !! i = Some c -> node_name c = k -> child_named k v = Some c.
Proof.
  revert i. induction v as [|d v IH]; intros i Hnd Hi Hc; [done|]. cbn in *.
  apply NoDup_cons in Hnd as [Hd Hnd]. destruct i as [|i]; cbn in Hi.
  - simplify_eq. by rewrite bool_decide_eq_true_2.
  - rewrite bool_decide_eq_false_2; [eauto|]. intros E. apply Hd. rewrite E, <- Hc.
    apply list_elem_of_fmap_2. by eapply list_elem_of_lookup_2.
Qed.

Lemma child_named_insert k v i c c' :
  v !! i = Some c -> node_name c' = node_name c -> node_name c <> k ->
  child_named k (<[i:=c']> v) = child_named k v.
Proof.
  revert i. induction v as [|d v IH]; intros i Hi Hn Hk; [done|].
  destruct i as [|i]; cbn in *.
  - simplify_eq. by rewrite Hn, !bool_decide_eq_false_2.
  - case_bool_decide; [done|]. by apply IH.
Qed.

Lemma child_named_skip k v w c :
  node_name c <> k -> child_named k (v ++ c :: w) = child_named k (v ++ w).
Proof.
  intros. induction v as [|d v IH]; cbn; [by rewrite bool_decide_eq_false_2|]. by rewrite IH.
Qed.

Lemma sorted_NoDup names : StronglySorted key_lt names -> NoDup names.
Proof.
  induction 1 as [|n names _ IH Hn]; constructor; [|done]. intros Hin.
  rewrite Forall_forall in Hn. by apply (key_lt_irrefl n), Hn.
Qed.

Lemma children_NoDup pre names v : children_ok pre names v -> NoDup (node_name <$> v).
Proof. intros [Hs Hv]. rewrite (children_names _ _ _ Hv). by apply sorted_NoDup. Qed.

Lemma search_absent names k i : below names k i -> above names k i -> k ∉ names.
Proof.
  intros Hb Ha [j Hj]%list_elem_of_lookup. apply (key_lt_irrefl k).
  destruct (Z.ltb_spec (Z.of_nat j) i); eauto.
Qed.

(** An empty node more changes nothing. *)
Lemma om_lookup_new src ln fk kk t v w c q :
  node_text c = None -> children c = [] -> node_name c ∉ node_name <$> (v ++ w) ->
  om_lookup q (Node src ln fk kk t (v ++ c :: w)) = om_lookup q (Node src ln fk kk t (v ++ w)).
Proof.
  intros Ht Hc Hn. destruct q as [|k q]; [done|]. cbn [om_lookup children nodv default from_option id].
  destruct (decide (node_name c = k)) as [<-|Hk]; [|by rewrite child_named_skip].
  rewrite (child_named_None _ (v ++ w)) by done.
  assert (child_named (node_name c) (v ++ c :: w) = Some c) as ->.
  { clear -Hn. induction v as [|d v IH]; cbn in *.
    - by rewrite bool_decide_eq_true_2.
    - apply not_elem_of_cons in Hn as [? ?]. rewrite bool_decide_eq_false_2 by congruence. auto. }
  cbn. destruct q as [|k' q]; [done|]. cbn. by rewrite Hc.
Qed.

(** A change below one child. *)
Lemma om_lookup_child src ln fk kk t v i c c' q :
  NoDup (node_name <$> v) -> v !! i = Some c -> node_name c' = node_name c ->
  om_lookup q (Node src ln fk kk t (<[i:=c']> v))
  = match q with
    | [] => c_text <$> t
    | k :: q' => if bool_decide (k = node_name c) then om_lookup q' c'
                 else om_lookup q (Node src ln fk kk t v)
    end.
Proof.
  intros Hnd Hi Hn. destruct q as [|k q]; [done|]. cbn [om_lookup children nodv default from_option id].
  case_bool_decide as E.
  - rewrite (child_named_Some k _ i c'); [done| |apply list_lookup_insert_eq; by eapply lookup_lt_Some|congruence].
    rewrite list_fmap_insert, Hn, list_insert_id; [done|]. by rewrite list_lookup_fmap, Hi.
  - by rewrite (child_named_insert _ _ _ c) by congruence.
Qed.

(** ** Making a child *)

Section make.
Context (can_alloc : nat -> bool).
Hypothesis Halloc : forall n, can_alloc n = true.

Lemma strn_edup_text t x kc :
  text t -> strn_edup can_alloc (t ++ x) (length t) kc = Some (Some (t ++ [0]), S kc).
Proof.
  intros Ht. unfold strn_edup, emalloc, mbind, CM_bind. rewrite Halloc. unfold cm_lift.
  by rewrite strncpy_cells_text.
Qed.

Lemma grow_nodv_spec v kc : exists kc', grow_nodv can_alloc v kc = Some (v ++ [NULL], kc').
Proof.
  unfold grow_nodv. destruct (10 <? S (length v))%nat; [|by eexists].
  unfold emalloc, mbind, CM_bind. rewrite Halloc. by eexists.
Qed.

Lemma make_child_spec pre names src ln fk kk t v k x kc :
  children_ok pre names v -> valid_key k = true -> text pre ->
  exists v' i c names' kc',
    cf_om_make_child can_alloc (Node src ln fk kk t v) (pre ++ k ++ x) (length pre)
      (length pre + length k) kc = Some ((Node src ln fk kk t v', Z.of_nat i), kc') /\
    children_ok pre names' v' /\ v' !! i = Some c /\ om_ok pre k c /\
    forall q, om_lookup q (Node src ln fk kk t v') = om_lookup q (Node src ln fk kk t v).
Proof.
  intros Hok Hk Hpre. unfold cf_om_make_child, mbind, CM_bind, mret, CM_ret.
  replace (length pre + length k - length pre)%nat with (length k) by lia.
  rewrite drop_app_length.
  destruct (search_spec pre names v k x Hok Hk) as (i & b & Hsrch & Hi & Hb).
  unfold cm_lift at 1. rewrite Hsrch. pose proof Hok as [Hs Hv].
  pose proof (Forall2_length _ _ _ Hv) as Hl.
  destruct b.
  - destruct (Forall2_lookup_l _ _ _ _ _ Hv Hb) as (c & Hc & Hco).
    exists v, (Z.to_nat i), c, names, kc. rewrite Z2Nat.id by lia. auto.
  - destruct Hb as [Hb Ha]. zdecide. unfold emalloc at 1. rewrite Halloc. cbn [negb].
    assert (Hpk : text (pre ++ k)).
    { apply Forall_app. split; [done|]. eapply Forall_impl; [by apply valid_key_text|]. simpl. lia. }
    pose proof (strn_edup_text (pre ++ k) x (S kc) Hpk) as Hdup.
    rewrite <- app_assoc, length_app in Hdup. rewrite Hdup.
    destruct (grow_nodv_spec v (S (S kc))) as [kc' ->].
    set (c := Node None 0 (Some ((pre ++ k) ++ [0])) (length pre) None []).
    pose proof (insert_child_spec v (Z.to_nat i) c) as Hins.
    replace (Z.to_nat (zlen v - i)) with (length v - Z.to_nat i)%nat by lia.
    destruct (shift_up (length v - Z.to_nat i) (zlen v) (v ++ [NULL])) as [w|];
      cbn [mbind option_bind] in Hins; [|by specialize (Hins ltac:(lia))].
    rewrite Z2Nat.id in Hins by lia. unfold cm_lift. rewrite Hins by lia.
    assert (Hco : om_ok pre k c).
    { unfold c. rewrite <- app_assoc. econstructor; [done|constructor|constructor|constructor]. }
    exists (take (Z.to_nat i) v ++ c :: drop (Z.to_nat i) v), (Z.to_nat i), c,
      (take (Z.to_nat i) names ++ k :: drop (Z.to_nat i) names), kc'.
    rewrite Z2Nat.id by lia. split; [done|]. split; [split|split; [|split; [done|]]].
    + apply names_sorted_insert; rewrite ?Z2Nat.id by lia; done.
    + apply Forall2_app; [by apply Forall2_take|]. constructor; [done|by apply Forall2_drop].
    + rewrite lookup_app_r, length_take by (rewrite length_take; lia).
      replace (Z.to_nat i - _)%nat with O by lia. done.
    + intros q. rewrite om_lookup_new, take_drop; [done|done|done|].
      rewrite take_drop, (children_names _ _ _ Hv), (om_ok_name _ _ _ Hco).
      by eapply search_absent.
Qed.

(** ** Reaching an option *)

Definition dot_tail (ks : list (list Z)) : list Z :=
  match ks with [] => [] | _ => 46 :: join_dots ks end.

Lemma join_dots_cons k ks : join_dots (k :: ks) = k ++ dot_tail ks.
Proof. destruct ks; [by rewrite app_nil_r|done]. Qed.

Lemma keyend_join k ks :
  no_dot k -> cf_find_keyend (join_dots (k :: ks)) = if valid_key k then Some (length k) else None.
Proof.
  intros. rewrite join_dots_cons. apply keyend_first; [done|]. destruct ks; [by left|by right].
Qed.

Lemma path_window (pre name x : list Z) :
  take (length pre + length name - length pre) (drop (length pre) (pre ++ name ++ x)) = name.
Proof.
  rewrite drop_app_length. replace (_ + _ - _)%nat with (length name) by lia. apply take_app_length.
Qed.

(** One round of the loop, for a well-formed key. *)
Lemma make_path_step {A} fuel src ln fk kk t v names pre k ks x kc
    (fin : bool -> bool -> cf_om_node -> CM (cf_om_node * A)) :
  children_ok pre names v -> valid_key k = true -> text pre ->
  exists v1 names1 i c kc1,
    children_ok pre names1 v1 /\ v1 !! i = Some c /\ om_ok pre k c /\
    (forall q, om_lookup q (Node src ln fk kk t v1) = om_lookup q (Node src ln fk kk t v)) /\
    make_path can_alloc (S fuel) (Node src ln fk kk t v) (pre ++ join_dots (k :: ks) ++ x)
      (length pre) (length pre + length (join_dots (k :: ks))) fin kc
    = match make_path can_alloc fuel c (pre ++ join_dots (k :: ks) ++ x) (length pre + length k + 1)
              (length pre + length (join_dots (k :: ks))) fin kc1 with
      | Some ((c', r), kc2) => Some ((Node src ln fk kk t (<[i:=c']> v1), r), kc2)
      | None => None
      end.
Proof.
  intros Hok Hk Hpre.
  destruct (make_child_spec pre names src ln fk kk t v k (dot_tail ks ++ x) kc Hok Hk Hpre)
    as (v1 & i & c & names1 & kc1 & Hm & Hok1 & Hi & Hc & Hq).
  exists v1, names1, i, c, kc1. do 4 (split; [done|]). cbn [make_path].
  rewrite path_window, keyend_join, Hk by (by apply valid_key_no_dot).
  rewrite (proj2 (Nat.leb_le _ _)) by lia.
  rewrite (join_dots_cons k ks), <- app_assoc. unfold mbind, CM_bind. rewrite Hm.
  rewrite (proj2 (Z.eqb_neq (Z.of_nat i) (-1))) by lia. unfold cm_lift at 1. cbn [nodv].
  unfold cm_lift at 1. unfold zget. zdecide. rewrite Nat2Z.id, Hi.
  destruct (make_path can_alloc fuel c _ _ _ fin kc1) as [[[c' r] kc2]|]; [|done].
  unfold cm_lift. rewrite zset_Some by (apply lookup_lt_Some in Hi; lia). by rewrite Nat2Z.id.
Qed.

Lemma om_ok_parts pre n p :
  om_ok pre n p ->
  exists src ln fk kk t v names, p = Node src ln fk kk t v /\ children_ok (pre ++ n ++ [46]) names v /\
    forall v' names', children_ok (pre ++ n ++ [46]) names' v' -> om_ok pre n (Node src ln fk kk t v').
Proof.
  destruct 1 as [pre n src ln t v names y Hn Hs Hv Ht].
  do 7 eexists. split; [done|]. split; [done|].
  intros v' names' [Hs' Hv']. by econstructor.
Qed.

Lemma children_insert pre names v i k c c' :
  children_ok pre names v -> v !! i = Some c -> om_ok pre k c -> om_ok pre k c' ->
  children_ok pre names (<[i:=c']> v).
Proof.
  intros [Hs Hv] Hi Hc Hc'. split; [done|].
  destruct (Forall2_lookup_r _ _ _ _ _ Hv Hi) as (n & Hn & Hnc).
  assert (n = k) as -> by (rewrite <- (om_ok_name _ _ _ Hnc); by apply om_ok_name in Hc).
  rewrite <- (list_insert_id names i k) by done. by apply Forall2_insert.
Qed.

Lemma join_next (pre k : list Z) k' ks x :
  pre ++ join_dots (k :: k' :: ks) ++ x = (pre ++ k ++ [46]) ++ join_dots (k' :: ks) ++ x.
Proof. rewrite join_dots_cons. unfold dot_tail. by rewrite <- !app_assoc. Qed.

Lemma join_next_length (pre k : list Z) k' ks :
  (length pre + length (join_dots (k :: k' :: ks)) = length (pre ++ k ++ [46%Z]) + length (join_dots (k' :: ks)))%nat.
Proof. rewrite join_dots_cons. unfold dot_tail. rewrite !length_app. simpl. lia. Qed.

Lemma path_length (pre k : list Z) : length (pre ++ k ++ [46]) = (length pre + length k + 1)%nat.
Proof. rewrite !length_app. simpl. lia. Qed.

Lemma path_text (pre k : list Z) : text pre -> valid_key k = true -> text (pre ++ k ++ [46]).
Proof.
  intros ? Hk%valid_key_text. rewrite !Forall_app. repeat split; [done| |by constructor].
  eapply Forall_impl; [exact Hk|]. simpl. lia.
Qed.

Section fin.
Context {A : Type} (fin : bool -> bool -> cf_om_node -> CM (cf_om_node * A)).
Context (Q : option (list Z) -> option (list Z) -> A -> Prop).
Hypothesis Hfin : forall pre n node kc, om_ok pre n node ->
  exists node' r kc', fin false false node kc = Some ((node', r), kc') /\ om_ok pre n node' /\
    children node' = children node /\ Q (node_text node) (node_text node') r.

Lemma make_path_spec : forall ks fuel pre names src ln fk kk t v x kc,
  ks <> [] -> Forall (fun k => valid_key k = true) ks -> text pre -> (length ks < fuel)%nat ->
  children_ok pre names v ->
  exists v' names' r kc',
    make_path can_alloc fuel (Node src ln fk kk t v) (pre ++ join_dots ks ++ x) (length pre)
      (length pre + length (join_dots ks)) fin kc = Some ((Node src ln fk kk t v', r), kc') /\
    children_ok pre names' v' /\
    Q (om_lookup ks (Node src ln fk kk t v)) (om_lookup ks (Node src ln fk kk t v')) r /\
    forall q, q <> ks -> om_lookup q (Node src ln fk kk t v') = om_lookup q (Node src ln fk kk t v).
Proof.
  induction ks as [|k ks IH]; intros fuel pre names src ln fk kk t v x kc Hne Hks Hpre Hf Hok; [done|].
  apply Forall_cons in Hks as [Hk Hks]. destruct fuel as [|fuel]; [simpl in Hf; lia|].
  destruct (make_path_step fuel src ln fk kk t v names pre k ks x kc fin Hok Hk Hpre)
    as (v1 & names1 & i & c & kc1 & Hok1 & Hi & Hc & Hq1 & ->).
  pose proof (om_ok_name _ _ _ Hc) as Hcn. pose proof (children_NoDup _ _ _ Hok1) as Hnd.
  (* what the rest does to the child *)
  assert (Hrest : exists c' r kc2,
    make_path can_alloc fuel c (pre ++ join_dots (k :: ks) ++ x) (length pre + length k + 1)
      (length pre + length (join_dots (k :: ks))) fin kc1 = Some ((c', r), kc2) /\
    om_ok pre k c' /\ Q (om_lookup ks c) (om_lookup ks c') r /\
    forall q, q <> ks -> om_lookup q c' = om_lookup q c).
  { destruct ks as [|k' ks].
    - destruct fuel as [|fuel]; [simpl in Hf; lia|]. cbn [make_path join_dots].
      rewrite (proj2 (Nat.leb_gt _ _)) by lia.
      destruct (Hfin pre k c kc1 Hc) as (c' & r & kc2 & -> & Hc' & Hch & HQ).
      exists c', r, kc2. do 3 (split; [done|]). intros [|k' q] Hq; [done|]. cbn. by rewrite Hch.
    - destruct (om_ok_parts _ _ _ Hc) as (src' & ln' & fk' & kk' & t' & v' & names' & -> & Hok' & Hput).
      destruct (IH fuel (pre ++ k ++ [46]) names' src' ln' fk' kk' t' v' x kc1)
        as (v2 & names2 & r & kc2 & Hm & Hok2 & HQ & Hq2); try done.
      { by apply path_text. } { simpl in *. lia. }
      rewrite <- join_next, <- join_next_length in Hm. rewrite path_length in Hm.
      rewrite Hm. eexists _, r, kc2. split; [done|].
      split; [by eapply Hput|]. by split. }
  destruct Hrest as (c' & r & kc2 & -> & Hc' & HQ & Hq2).
  exists (<[i:=c']> v1), names1, r, kc2. split; [done|].
  assert (Hn' : node_name c' = node_name c) by (rewrite Hcn; by apply om_ok_name in Hc').
  split; [by eapply children_insert|]. split.
  - rewrite <- Hq1, (om_lookup_child _ _ _ _ _ _ _ c c') by done.
    rewrite bool_decide_eq_true_2 by done. cbn [om_lookup children nodv default from_option id].
    by rewrite (child_named_Some k _ i c) by done.
  - intros q Hq. rewrite <- Hq1, (om_lookup_child _ _ _ _ _ _ _ c c') by done.
    destruct q as [|k' q]; [done|]. case_bool_decide as Ek; [|done].
    rewrite Hcn in Ek. subst k'. rewrite Hq2 by congruence. cbn [om_lookup children nodv default from_option id].
    by rewrite (child_named_Some k _ i c) by done.
Qed.
End fin.

(** A name that is not well formed makes at most empty nodes. *)
Lemma make_path_invalid {A} (fin : bool -> bool -> cf_om_node -> CM (cf_om_node * A)) (r : A) :
  (forall node kc, fin true false node kc = Some ((node, r), kc)) ->
  forall ks fuel pre names src ln fk kk t v x kc,
  ks <> [] -> Forall no_dot ks -> forallb valid_key ks = false -> text pre -> (length ks < fuel)%nat ->
  children_ok pre names v ->
  exists v' names' kc',
    make_path can_alloc fuel (Node src ln fk kk t v) (pre ++ join_dots ks ++ x) (length pre)
      (length pre + length (join_dots ks)) fin kc = Some ((Node src ln fk kk t v', r), kc') /\
    children_ok pre names' v' /\
    forall q, om_lookup q (Node src ln fk kk t v') = om_lookup q (Node src ln fk kk t v).
Proof.
  intros Hfin ks. induction ks as [|k ks IH];
    intros fuel pre names src ln fk kk t v x kc Hne Hnd Hinv Hpre Hf Hok; [done|].
  apply Forall_cons in Hnd as [Hk Hnd]. destruct fuel as [|fuel]; [simpl in Hf; lia|].
  cbn [forallb] in Hinv. destruct (valid_key k) eqn:Ek.
  - cbn [andb] in Hinv. destruct ks as [|k' ks]; [done|].
    destruct (make_path_step fuel src ln fk kk t v names pre k (k' :: ks) x kc fin Hok Ek Hpre)
      as (v1 & names1 & i & c & kc1 & Hok1 & Hi & Hc & Hq1 & ->).
    pose proof (om_ok_name _ _ _ Hc) as Hcn.
    destruct (om_ok_parts _ _ _ Hc) as (src' & ln' & fk' & kk' & t' & v' & names' & -> & Hok' & Hput).
    destruct (IH fuel (pre ++ k ++ [46]) names' src' ln' fk' kk' t' v' x kc1)
      as (v2 & names2 & kc2 & Hm & Hok2 & Hq2); try done.
    { by apply path_text. } { simpl in *. lia. }
    rewrite <- join_next, <- join_next_length in Hm. rewrite path_length in Hm.
    rewrite Hm.
    pose proof (om_ok_name _ _ _ (Hput _ _ Hok2)) as Hn'.
    exists (<[i:=Node src' ln' fk' kk' t' v2]> v1), names1, kc2. split; [done|]. split.
    + eapply children_insert; eauto.
    + intros q. rewrite <- Hq1, (om_lookup_child _ _ _ _ _ _ _ _ _ _ (children_NoDup _ _ _ Hok1) Hi) by congruence.
      destruct q as [|k2 q]; [done|]. case_bool_decide as Ek2; [|done]. subst k2.
      rewrite Hq2. cbn [om_lookup children nodv default from_option id].
      by rewrite (child_named_Some _ _ i _ (children_NoDup _ _ _ Hok1) Hi).
  - cbn [make_path]. rewrite (proj2 (Nat.leb_le _ _)) by lia.
    rewrite path_window, keyend_join, Ek, Hfin by done. exists v, names, kc. auto.
Qed.
End make.
