(* ===== verification/ConfRefine.v ===== *)
(** ConfRefine: the tree of options implements a map from names to texts (conf_om.c). *)

From S2P Require Import Prelude Str Strlcpy ConfOm ConfKeys ConfTree.

Abbreviation options := (gmap (list Z) (list Z)).

(** A tree stands for a map: it is well formed and says of every well-formed name what the
    map says. *)
Definition represents (root : cf_om_node) (m : options) : Prop :=
  root_ok root /\
  forall ks, ks <> [] -> Forall (fun k => valid_key k = true) ks -> om_lookup ks root = m !! join_dots ks.

Lemma represents_empty : represents NULL ∅.
Proof. split; [constructor|]. intros [|k ks] ? ?; by rewrite lookup_empty. Qed.

(** ** Names and paths *)

Lemma split_no_dot s : Forall no_dot (split_fields 46 s).
Proof.
  induction s as [s IH] using (induction_ltof1 _ length); unfold ltof in IH.
  destruct (split_first s) as [[Hs ->]|(k & rest & Hk & -> & ->)]; [by repeat constructor|].
  constructor; [done|]. apply IH. rewrite length_app. simpl. lia.
Qed.

Lemma split_length s : (length (split_fields 46 s) <= S (length s))%nat.
Proof.
  induction s as [|c s IH]; [done|]. cbn. destruct (split_fields_cons 46 s) as (f & fs & E).
  rewrite E in *. destruct (c =? 46); simpl in *; lia.
Qed.

Lemma split_ne s : split_fields 46 s <> [].
Proof. destruct (split_fields_cons 46 s) as (f & fs & ->). done. Qed.

Lemma forallb_true {A} (f : A -> bool) l : forallb f l = true <-> Forall (fun x => f x = true) l.
Proof. rewrite forallb_forall, Forall_forall. by setoid_rewrite list_elem_of_In. Qed.

Lemma valid_name_split s :
  valid_name s = true <-> Forall (fun k => valid_key k = true) (split_fields 46 s).
Proof. apply forallb_true. Qed.

Lemma valid_split_join ks :
  ks <> [] -> Forall (fun k => valid_key k = true) ks -> split_fields 46 (join_dots ks) = ks.
Proof.
  intros Hne Hks. apply split_fields_join; [|done]. eapply Forall_impl; [exact Hks|].
  intros k. apply valid_key_no_dot.
Qed.

Lemma represents_name root m s :
  represents root m -> valid_name s = true -> om_lookup (split_fields 46 s) root = m !! s.
Proof.
  intros [_ H] Hs. rewrite H; [by rewrite join_split|apply split_ne|by apply valid_name_split].
Qed.

(** ** Making the way to an option *)

Section ops.
Context (can_alloc : nat -> bool).
Hypothesis Halloc : forall n, can_alloc n = true.

Lemma make_path_null {A} fuel s e kc (fin : bool -> bool -> cf_om_node -> CM (cf_om_node * A)) :
  cf_find_keyend (take e s) <> None ->
  make_path can_alloc (S fuel) NULL s 0 e fin kc = make_path can_alloc (S fuel) node_zero s 0 e fin (S kc).
Proof.
  intros Hk. cbn [make_path]. rewrite Nat.sub_0_r, drop_0. cbn [Nat.leb].
  destruct (cf_find_keyend (take e s)) as [n|]; [|done].
  assert (E : cf_om_make_child can_alloc NULL s 0 (0 + n) kc = cf_om_make_child can_alloc node_zero s 0 (0 + n) (S kc)).
  { unfold cf_om_make_child, mbind, CM_bind, emalloc. by rewrite Halloc. }
  unfold mbind, CM_bind. by rewrite E.
Qed.

Lemma root_zero q : om_lookup q node_zero = om_lookup q NULL.
Proof. by destruct q. Qed.

Lemma root_zero_ok : children_ok [] [] [].
Proof. split; constructor. Qed.

Lemma root_path_spec {A} (fin : bool -> bool -> cf_om_node -> CM (cf_om_node * A)) Q root name x kc :
  (forall pre n node kc, om_ok pre n node ->
    exists node' r kc', fin false false node kc = Some ((node', r), kc') /\ om_ok pre n node' /\
      children node' = children node /\ Q (node_text node) (node_text node') r) ->
  root_ok root -> valid_name name = true ->
  exists root' r kc',
    make_path can_alloc (S (S (length name))) root (name ++ x) 0 (length name) fin kc
    = Some ((root', r), kc') /\ root_ok root' /\
    Q (om_lookup (split_fields 46 name) root) (om_lookup (split_fields 46 name) root') r /\
    forall q, q <> split_fields 46 name -> om_lookup q root' = om_lookup q root.
Proof.
  intros Hfin Hroot Hname. pose proof (split_length name) as Hlen.
  pose proof (split_ne name) as Hne. apply valid_name_split in Hname.
  set (ks := split_fields 46 name) in *. assert (Hj : name = join_dots ks) by (symmetry; apply join_split).
  assert (Hgo : forall src ln k names v kc, children_ok [] names v ->
    exists root' r kc',
      make_path can_alloc (S (S (length name))) (Node src ln None k None v) (name ++ x) 0 (length name) fin kc
      = Some ((root', r), kc') /\ root_ok root' /\
      Q (om_lookup ks (Node src ln None k None v)) (om_lookup ks root') r /\
      forall q, q <> ks -> om_lookup q root' = om_lookup q (Node src ln None k None v)).
  { intros src ln k names v kc0 Hok.
    destruct (make_path_spec can_alloc Halloc fin Q Hfin ks (S (S (length name))) [] names src ln None k None v x kc0)
      as (v' & names' & r & kc' & Hm & Hok' & HQ & Hq); try done; [lia|].
    rewrite <- Hj in Hm. exists (Node src ln None k None v'), r, kc'.
    split; [exact Hm|]. split; [by econstructor|]. done. }
  destruct Hroot as [|src ln k names v Hok]; [|by eapply Hgo].
  rewrite make_path_null.
  - destruct (Hgo None 0 O [] [] (S kc) root_zero_ok) as (root' & r & kc' & Hm & Hok & HQ & Hq).
    exists root', r, kc'. split; [exact Hm|]. split; [done|].
    split; [by rewrite <- root_zero|]. intros q ?. rewrite <- root_zero. auto.
  - rewrite take_app_length, Hj. destruct ks as [|k ks']; [done|].
    apply Forall_cons in Hname as [Hk _]. by rewrite keyend_join, Hk by (by apply valid_key_no_dot).
Qed.

Lemma root_path_invalid {A} (fin : bool -> bool -> cf_om_node -> CM (cf_om_node * A)) r root name x kc :
  (forall node kc, fin true false node kc = Some ((node, r), kc)) ->
  root_ok root -> valid_name name = false ->
  exists root' kc',
    make_path can_alloc (S (S (length name))) root (name ++ x) 0 (length name) fin kc
    = Some ((root', r), kc') /\ root_ok root' /\ forall q, om_lookup q root' = om_lookup q root.
Proof.
  intros Hfin Hroot Hname. pose proof (split_length name) as Hlen.
  pose proof (split_ne name) as Hne. pose proof (split_no_dot name) as Hnd. unfold valid_name in Hname.
  set (ks := split_fields 46 name) in *. assert (Hj : name = join_dots ks) by (symmetry; apply join_split).
  assert (Hgo : forall src ln k names v kc, children_ok [] names v ->
    exists root' kc',
      make_path can_alloc (S (S (length name))) (Node src ln None k None v) (name ++ x) 0 (length name) fin kc
      = Some ((root', r), kc') /\ root_ok root' /\
      forall q, om_lookup q root' = om_lookup q (Node src ln None k None v)).
  { intros src ln k names v kc0 Hok.
    destruct (make_path_invalid can_alloc Halloc fin r Hfin ks (S (S (length name))) [] names src ln None k None v x kc0)
      as (v' & names' & kc' & Hm & Hok' & Hq); try done; [lia|].
    rewrite <- Hj in Hm. exists (Node src ln None k None v'), kc'.
    split; [exact Hm|]. split; [by econstructor|]. done. }
  destruct Hroot as [|src ln k names v Hok]; [|by eapply Hgo].
  destruct (cf_find_keyend name) eqn:Ek.
  - rewrite make_path_null by (by rewrite take_app_length, Ek).
    destruct (Hgo None 0 O [] [] (S kc) root_zero_ok) as (root' & kc' & Hm & Hok & Hq).
    exists root', kc'. split; [exact Hm|]. split; [done|]. intros q. rewrite <- root_zero. auto.
  - exists NULL, kc. cbn [make_path]. rewrite Nat.sub_0_r, drop_0, take_app_length, Ek. cbn [Nat.leb].
    rewrite Hfin. split; [done|]. split; [constructor|done].
Qed.

(** ** Setting an option *)

Lemma str_edup_text t r kc :
  text t -> str_edup can_alloc (t ++ 0 :: r) kc = Some (Some (t ++ [0]), S kc).
Proof.
  intros Ht. unfold str_edup, mbind, CM_bind, cm_lift. rewrite strlen_text by done.
  rewrite Nat2Z.id. by apply strn_edup_text.
Qed.

(** The memory of a text argument. *)
Definition c_string (t : list Z) : list Z := t ++ [0].

Lemma om_ok_set_text pre n node t :
  om_ok pre n node -> Forall (fun t => 0 ∈ t) (option_list t) ->
  exists node', set_text node t = Some node' /\ om_ok pre n node' /\
    children node' = children node /\ node_text node' = c_text <$> t.
Proof. destruct 1. intros Ht. eexists. split; [done|]. split; [by econstructor|done]. Qed.

Lemma represents_update root root' m s f :
  represents root m -> valid_name s = true -> root_ok root' ->
  om_lookup (split_fields 46 s) root' = f (m !! s) ->
  (forall q, q <> split_fields 46 s -> om_lookup q root' = om_lookup q root) ->
  represents root' (partial_alter f s m).
Proof.
  intros [Hok Hm] Hs Hok' Hat Hq. split; [done|]. intros ks Hne Hks.
  destruct (decide (join_dots ks = s)) as [<-|Hns].
  - rewrite valid_split_join in Hat by done. by rewrite lookup_partial_alter_eq.
  - rewrite lookup_partial_alter_ne by done. rewrite Hq; [by apply Hm|].
    intros ->. by rewrite join_split in Hns.
Qed.

Lemma cf_om_set_spec root m name value kc :
  represents root m -> text name -> Forall (fun c => c <> 0) (default [] value) ->
  exists root' kc',
    cf_om_set can_alloc root (c_string name) (c_string <$> value) kc
    = Some ((root', if valid_name name then CFOK else CFINVALID), kc') /\
    represents root' (if valid_name name then partial_alter (fun _ => value) name m else m).
Proof.
  intros Hrep Hname Hval. unfold cf_om_set. change (c_string name) with (name ++ [0]).
  rewrite strlen_text by done. unfold mbind at 1, CM_bind at 1, cm_lift at 1. rewrite Nat2Z.id.
  pose proof (proj1 Hrep) as Hroot.
  destruct (valid_name name) eqn:Ev.
  - edestruct (root_path_spec (A := Z)) with (root := root) (name := name) (x := [0]) (kc := kc)
      (Q := fun (_ new : option (list Z)) (r : Z) => new = value /\ r = CFOK)
      as (root' & r & kc' & Hm & Hok & [Ht ->] & Hq); [|done|done|].
    2:{ exists root', kc'. split; [exact Hm|]. by eapply represents_update. }
    intros pre n node kc0 Hn. cbn beta iota. destruct value as [t|]; cbn [fmap option_fmap option_map].
    + unfold mbind, CM_bind. unfold c_string. rewrite str_edup_text by done. unfold cm_lift.
      destruct (om_ok_set_text pre n node (Some (t ++ [0])) Hn) as (node' & -> & Hok & Hch & Ht).
      { simpl. constructor; [|constructor]. apply elem_of_app. right. by left. }
      exists node', CFOK, (S kc0). rewrite Ht. cbn. rewrite c_text_app by done. auto.
    + unfold mbind, CM_bind, cm_lift.
      destruct (om_ok_set_text pre n node None Hn) as (node' & -> & Hok & Hch & Ht); [constructor|].
      exists node', CFOK, kc0. auto.
  - edestruct (root_path_invalid (A := Z)) with (root := root) (name := name) (x := [0]) (kc := kc)
      as (root' & kc' & Hm & Hok & Hq); [|done|done|].
    2:{ exists root', kc'. split; [exact Hm|]. split; [done|]. intros ks Hne Hks. rewrite Hq.
        by apply (proj2 Hrep). }
    done.
Qed.
End ops.

(** ** Getting an option *)

Lemma mem_equal_key k x n y :
  key_text k -> key_text n ->
  (same ← mem_equal (n ++ 0 :: y) (k ++ x) (length k);
   if (same : bool) then z ← (n ++ 0 :: y) !! length k; Some (z =? 0) else Some false)
  = Some (bool_decide (n = k)).
Proof.
  intros Hk. revert n. induction Hk as [|a k Ha _ IH]; intros n Hn.
  - destruct Hn as [|b n Hb]; cbn; [done|]. by rewrite (proj2 (Z.eqb_neq b 0)) by lia.
  - destruct Hn as [|b n Hb Hn]; cbn [app length mem_equal].
    + by rewrite (proj2 (Z.eqb_neq 0 a)) by lia.
    + destruct (Z.eqb_spec b a) as [->|Hne].
      * etransitivity; [exact (IH n Hn)|]. f_equal.
        apply bool_decide_ext. by split; [intros ->|intros [= ->]].
      * cbn. f_equal. symmetry. apply bool_decide_eq_false. by intros [= ??].
Qed.

Lemma get_child_loop_spec pre names v k x : forall i,
  Forall2 (om_ok pre) names v -> valid_key k = true ->
  match child_named k v with
  | Some c => exists j, get_child_loop v (k ++ x) (length k) i = Some (i + Z.of_nat j) /\ v !! j = Some c
  | None => get_child_loop v (k ++ x) (length k) i = Some (-1)
  end.
Proof.
  intros i Hv Hk. revert i. induction Hv as [|n c names v Hc _ IH]; intros i; [done|].
  cbn [child_named get_child_loop]. destruct (om_ok_key _ _ _ Hc) as [y Hy]. rewrite Hy.
  cbn [mbind option_bind]. rewrite (om_ok_name _ _ _ Hc).
  pose proof (mem_equal_key k x n y (valid_key_text _ Hk) (valid_key_text _ (om_ok_valid _ _ _ Hc))) as E.
  destruct (mem_equal (n ++ 0 :: y) (k ++ x) (length k)) as [same|]; [|done].
  cbn [mbind option_bind] in *. rewrite E. cbn [mbind option_bind]. case_bool_decide as En.
  - exists O. split; [f_equal; lia|done].
  - specialize (IH (i + 1)). destruct (child_named k v) as [d|]; [|done].
    destruct IH as (j & -> & Hj). exists (S j). split; [f_equal; lia|done].
Qed.

Lemma child_named_name k v c : child_named k v = Some c -> node_name c = k.
Proof.
  induction v as [|d v IH]; [done|]. cbn. case_bool_decide; [|exact IH]. by intros [= <-].
Qed.

Lemma get_path_spec : forall ks fuel pre names src ln fk kk t v x,
  ks <> [] -> Forall no_dot ks -> (length ks < fuel)%nat -> children_ok pre names v ->
  exists o, get_path fuel (Node src ln fk kk t v) (pre ++ join_dots ks ++ x) (length pre)
              (length pre + length (join_dots ks)) = Some o /\
    c_text <$> o = if forallb valid_key ks then om_lookup ks (Node src ln fk kk t v) else None.
Proof.
  induction ks as [|k ks IH]; intros fuel pre names src ln fk kk t v x Hne Hnd Hf Hok; [done|].
  apply Forall_cons in Hnd as [Hk Hnd]. destruct fuel as [|fuel]; [simpl in Hf; lia|].
  cbn [get_path forallb]. rewrite (proj2 (Nat.leb_le _ _)) by lia.
  rewrite path_window, keyend_join by done.
  destruct (valid_key k) eqn:Ek; [|by exists None]. cbn [andb].
  unfold cf_om_get_child. cbn [mbind option_bind nodv om_lookup children default from_option id].
  rewrite drop_app_length, (join_dots_cons k ks), <- (app_assoc k). destruct Hok as [Hs Hv].
  pose proof (get_child_loop_spec pre names v k (dot_tail ks ++ x) 0 Hv Ek) as Hg.
  destruct (child_named k v) as [c|] eqn:Ec.
  - apply child_named_name in Ec as Hck. destruct Hg as (j & -> & Hj). cbn [mbind option_bind]. zdecide.
    unfold zget. zdecide. replace (Z.to_nat (0 + Z.of_nat j)) with j by lia. rewrite Hj.
    cbn [mbind option_bind]. destruct (Forall2_lookup_r _ _ _ _ _ Hv Hj) as (n & Hn & Hc).
    destruct ks as [|k' ks].
    + cbn [dot_tail]. rewrite app_nil_r. destruct fuel as [|fuel]; [simpl in Hf; lia|].
      cbn [get_path]. rewrite (proj2 (Nat.leb_gt _ _)) by lia. destruct Hc. by eexists.
    + rewrite (om_ok_name _ _ _ Hc) in Hck. subst n.
      destruct (om_ok_parts _ _ _ Hc) as (src' & ln' & fk' & kk' & t' & v' & names' & -> & Hok' & _).
      destruct (IH fuel (pre ++ k ++ [46]) names' src' ln' fk' kk' t' v' x) as (o & Hm & Ho); try done.
      { simpl in *. lia. }
      rewrite <- join_next, <- join_next_length, path_length, join_dots_cons, <- app_assoc in Hm.
      exists o. split; [exact Hm|exact Ho].
  - rewrite Hg. cbn [mbind option_bind]. by exists None; destruct (forallb valid_key ks).
Qed.

Lemma cf_om_get_spec root m name :
  represents root m -> text name ->
  exists o, cf_om_get root (c_string name) = Some o /\
    c_text <$> o = if valid_name name then m !! name else None.
Proof.
  intros Hrep Hname. destruct Hrep as [Hroot Hm]. pose proof (split_length name) as Hlen.
  assert (Hsome : valid_name name = true -> om_lookup (split_fields 46 name) root = m !! name)
    by (by apply represents_name).
  destruct Hroot as [|src ln kk names v Hok].
  - exists None. split; [done|]. destruct (valid_name name); [|done].
    rewrite <- Hsome by done. by destruct (split_fields_cons 46 name) as (f & fs & ->).
  - unfold cf_om_get. change (c_string name) with (name ++ [0]). rewrite strlen_text by done. cbn [mbind option_bind].
    rewrite Nat2Z.id.
    destruct (get_path_spec (split_fields 46 name) (S (S (length name))) [] names src ln None kk None v [0])
      as (o & Hg & Ho); [apply split_ne|apply split_no_dot|lia|done|].
    rewrite join_split in Hg. exists o. split; [exact Hg|]. rewrite Ho. fold (valid_name name).
    destruct (valid_name name); [by apply Hsome|done].
Qed.

(** ** The configuration file *)

Definition strip_cr (l : list Z) : list Z := if bool_decide (last l = Some 13) then removelast l else l.

(** What is before and after the first [c]. *)
Fixpoint cut (c : Z) (l : list Z) : option (list Z * list Z) :=
  match l with
  | [] => None
  | x :: l => if x =? c then Some ([], l) else '(a, b) ← cut c l; Some (x :: a, b)
  end.

(** What a line means, given the options and the flags of the lines before it. *)
Definition conf_line (st : options * Z) (l : list Z) : options * Z :=
  let '(m, flags) := st in
  let body := strip_cr l in
  if bool_decide (head l = Some 35) || forallb isspace body then st
  else match cut 61 body with
       | None => (m, Z.lor flags CFINVALID)
       | Some (name, value) =>
           if valid_name name then
             match m !! name with
             | Some _ => (m, Z.lor flags CFDUPLICATE)
             | None => (<[name := c_text value]> m, Z.land flags (Z.lnot CFEMPTY))
             end
           else (m, Z.lor flags CFINVALID)
       end.

Definition conf_lines (buf : list Z) : list (list Z) := drop_last_empty (split_fields 10 buf).
Definition conf_meaning (m : options) (buf : list Z) : options * Z := foldl conf_line (m, CFEMPTY) (conf_lines buf).

Lemma find_char_app c l x : Forall (fun z => z <> c) l -> find_char c (l ++ c :: x) = length l.
Proof.
  induction 1 as [|z l Hz _ IH]; cbn; [by rewrite Z.eqb_refl|]. rewrite IH.
  by rewrite (proj2 (Z.eqb_neq z c)).
Qed.
Lemma find_char_none c l : Forall (fun z => z <> c) l -> find_char c l = length l.
Proof. induction 1 as [|z l Hz _ IH]; cbn; [done|]. by rewrite (proj2 (Z.eqb_neq z c)), IH. Qed.

Lemma cut_find c l :
  cut c l = if (find_char c l =? length l)%nat then None
            else Some (take (find_char c l) l, drop (S (find_char c l)) l).
Proof.
  induction l as [|x l IH]; [done|]. cbn [cut find_char length]. destruct (x =? c) eqn:E; [done|].
  rewrite IH. change (S (find_char c l) =? S (length l))%nat with (find_char c l =? length l)%nat.
  by destruct (find_char c l =? length l)%nat.
Qed.

Lemma find_char_le c l : (find_char c l <= length l)%nat.
Proof. induction l as [|x l IH]; cbn; [done|]. destruct (x =? c); lia. Qed.

Lemma find_char_at c l : (find_char c l < length l)%nat -> l !! find_char c l = Some c.
Proof.
  induction l as [|x l IH]; cbn; [lia|]. destruct (Z.eqb_spec x c) as [->|]; [done|].
  intros. apply IH. lia.
Qed.

Lemma strip_cr_prefix l : exists k, l = strip_cr l ++ k.
Proof.
  unfold strip_cr. case_bool_decide as E; [|exists []; by rewrite app_nil_r].
  exists [13]. destruct l as [|x l] using rev_ind; [done|]. rewrite last_snoc in E. simplify_eq.
  by rewrite removelast_last.
Qed.

Lemma strip_cr_lend l x :
  Forall (fun z => z <> 10) l ->
  (if (0 <? length l)%nat && bool_decide ((l ++ x) !! (length l - 1)%nat = Some 13)
   then (length l - 1)%nat else length l) = length (strip_cr l).
Proof.
  intros _. unfold strip_cr. destruct l as [|z l _] using rev_ind; [done|].
  rewrite last_snoc, length_app. cbn [length]. rewrite (proj2 (Nat.ltb_lt _ _)) by lia. cbn [andb].
  replace (length l + 1 - 1)%nat with (length l) by lia. rewrite <- app_assoc.
  rewrite lookup_app_r, Nat.sub_diag by lia. cbn.
  destruct (bool_decide (Some z = Some 13)); [by rewrite removelast_last|by rewrite ?length_app].
Qed.

Section parse.
Context (can_alloc : nat -> bool).
Hypothesis Halloc : forall n, can_alloc n = true.
Context (source : list Z).

Lemma parse_line_spec root m flags l x lineno kc :
  represents root m -> Forall (fun z => z <> 10) l -> x = [] \/ head x = Some 10 ->
  exists root' kc',
    parse_line can_alloc source (l ++ x) lineno flags root kc
    = Some ((root', Some (conf_line (m, flags) l).2), kc') /\
    represents root' (conf_line (m, flags) l).1.
Proof.
  intros Hrep Hl Hx. unfold parse_line, conf_line.
  assert (Hfind : find_char 10 (l ++ x) = length l).
  { destruct x as [|c x]; [rewrite app_nil_r; by apply find_char_none|].
    destruct Hx as [|Hx]; [done|]. cbn in Hx. simplify_eq. by apply find_char_app. }
  rewrite Hfind, strip_cr_lend by done.
  destruct (strip_cr_prefix l) as [k Hk]. set (body := strip_cr l) in *.
  assert (Htake : take (length body) (l ++ x) = body) by (rewrite Hk, <- app_assoc; apply take_app_length).
  rewrite Htake.
  assert (Hhead : bool_decide ((l ++ x) !! O = Some 35) = bool_decide (head l = Some 35)).
  { apply bool_decide_ext. destruct l as [|c l]; [|done]. destruct x as [|c x]; [done|].
    destruct Hx as [|Hx]; [done|]. cbn in *. simplify_eq. done. }
  rewrite Hhead. destruct (bool_decide (head l = Some 35)); cbn [orb]; [by exists root, kc|].
  destruct (forallb isspace body); [by exists root, kc|].
  rewrite cut_find. pose proof (find_char_le 61 body) as Hple. set (p := find_char 61 body) in *.
  destruct (Nat.eqb_spec p (length body)) as [Ep|Ep]; rewrite ?orb_true_r; [by exists root, kc|].
  rewrite orb_false_r.
  set (name := take p body). assert (Hnl : length name = p) by (subst name; rewrite length_take; lia).
  destruct (Nat.eqb_spec p 0) as [E0|E0].
  { subst name. rewrite E0. cbn [take valid_name split_fields forallb valid_key]. by exists root, kc. }
  assert (Hmem : l ++ x = name ++ drop p body ++ k ++ x).
  { rewrite Hk at 1. rewrite <- app_assoc. subst name. by rewrite (app_assoc (take p body)), take_drop. }
  unfold parse_option. rewrite Hmem, <- Hnl.
  destruct (valid_name name) eqn:Ev.
  - edestruct (root_path_spec can_alloc Halloc (A := option Z)) with (root := root) (name := name)
      (x := drop (length name) body ++ k ++ x) (kc := kc)
      (Q := fun (old new : option (list Z)) (r : option Z) =>
        match old with
        | Some _ => new = old /\ r = Some (Z.lor flags CFDUPLICATE)
        | None => new = Some (c_text (drop (S p) body)) /\ r = Some (Z.land flags (Z.lnot CFEMPTY))
        end)
      as (root' & r & kc' & Hm & Hok & HQ & Hq); [|apply Hrep|done|].
    2:{ exists root', kc'. rewrite (represents_name _ _ _ Hrep Ev) in HQ.
        destruct (m !! name) as [old|] eqn:Eold; destruct HQ as [Hnew ->].
        - split; [exact Hm|]. cbn. rewrite <- (partial_alter_self m name).
          eapply represents_update; try done. by rewrite Hnew.
        - split; [exact Hm|]. cbn. rewrite Hnl. by apply (represents_update root root' m name (fun _ => Some (c_text (drop (S p) body)))). }
    intros pre n node kc0 Hn. cbn beta iota. destruct Hn as [pre n src ln t v names y Hn1 Hn2 Hn3 Hn4].
    destruct t as [t|]; cbn [node_text fmap option_fmap option_map].
    + eexists _, _, _. split; [done|]. split; [by econstructor|]. done.
    + assert (Hdrop : drop (S (length name)) (name ++ drop (length name) body ++ k ++ x)
                      = drop (S p) body ++ k ++ x).
      { rewrite <- Hnl. rewrite drop_app, (drop_ge name) by lia.
        replace (S (length name) - length name)%nat with 1%nat by lia.
        rewrite drop_app_le by (rewrite length_drop; lia). by rewrite drop_drop, Nat.add_1_r. }
      rewrite Hdrop. unfold strn_edup, mbind, CM_bind, emalloc. rewrite Halloc. unfold cm_lift.
      rewrite Hnl. destruct (strncpy_cells_any (drop (S p) body ++ k ++ x) (length body - S p)) as [z ->].
      { rewrite length_app, length_drop. lia. }
      replace (length body - S p)%nat with (length (drop (S p) body)) by (rewrite length_drop; lia).
      rewrite take_app_length. eexists _, _, _. split; [done|]. rewrite <- app_assoc. split; [|split; [done|split; [|done]]].
      * econstructor; [done|done|done|]. simpl. constructor; [|constructor].
        rewrite !elem_of_app. right. right. by left.
      * cbn. f_equal. apply c_text_zeros, c_text_text.
  - edestruct (root_path_invalid can_alloc Halloc (A := option Z)) with (root := root) (name := name)
      (x := drop (length name) body ++ k ++ x) (kc := kc)
      as (root' & kc' & Hm & Hok & Hq); [|apply Hrep|done|].
    2:{ exists root', kc'. split; [exact Hm|]. split; [done|]. intros ks Hne Hks. rewrite Hq.
        by apply (proj2 Hrep). }
    done.
Qed.

Lemma conf_lines_nil : conf_lines [] = [].
Proof. done. Qed.

Lemma split_char_first c s :
  (Forall (fun z => z <> c) s /\ split_fields c s = [s]) \/
  (exists l rest, Forall (fun z => z <> c) l /\ s = l ++ c :: rest /\ split_fields c s = l :: split_fields c rest).
Proof.
  induction s as [|x s IH]; [by left|]. cbn [split_fields]. destruct (Z.eqb_spec x c) as [->|Hc].
  { right. exists [], s. repeat split; constructor. }
  destruct IH as [[Hs ->]|(k & rest & Hk & -> & ->)].
  - left. split; [by constructor|done].
  - right. exists (x :: k), rest. repeat split. by constructor.
Qed.

Lemma conf_lines_cons l rest :
  Forall (fun z => z <> 10) l -> conf_lines (l ++ 10 :: rest) = l :: conf_lines rest.
Proof.
  intros Hl. unfold conf_lines.
  assert (split_fields 10 (l ++ 10 :: rest) = l :: split_fields 10 rest) as ->.
  { induction Hl as [|c l Hc _ IH]; [done|]. cbn [app split_fields]. rewrite IH.
    by rewrite (proj2 (Z.eqb_neq c 10)). }
  by destruct (split_fields_cons 10 rest) as (f & fs & ->).
Qed.

Lemma parse_loop_spec : forall fuel rest lineno flags root m kc,
  represents root m -> (length rest <= fuel)%nat ->
  exists root' kc',
    parse_loop can_alloc fuel source rest lineno flags root kc
    = Some ((root', (foldl conf_line (m, flags) (conf_lines rest)).2), kc') /\
    represents root' (foldl conf_line (m, flags) (conf_lines rest)).1.
Proof.
  induction fuel as [|fuel IH]; intros rest lineno flags root m kc Hrep Hf.
  { destruct rest; [|simpl in Hf; lia]. by exists root, kc. }
  destruct rest as [|z rest0] eqn:Er; [by exists root, kc|]. rewrite <- Er in *.
  assert (Hloop : parse_loop can_alloc (S fuel) source rest lineno flags root kc
    = match parse_line can_alloc source rest lineno flags root kc with
      | Some ((root, r), kc) => match r with
          | None => Some ((root, CFERROR), kc)
          | Some result => parse_loop can_alloc fuel source (drop (S (find_char 10 rest)) rest)
                             (u32 (lineno + 1)) result root kc
          end
      | None => None
      end).
  { rewrite Er. cbn [parse_loop]. unfold mbind, CM_bind.
    destruct (parse_line can_alloc source (z :: rest0) lineno flags root kc) as [[[? [?|]] ?]|]; done. }
  rewrite Hloop. clear Hloop. destruct (split_char_first 10 rest) as [[Hl E]|(l & rest' & Hl & E & _)].
  - destruct (parse_line_spec root m flags rest [] lineno kc Hrep Hl) as (root1 & kc1 & Hp & Hrep1); [by left|].
    rewrite app_nil_r in Hp. rewrite Hp, drop_ge by (rewrite find_char_none by done; lia).
    assert (conf_lines rest = [rest]) as ->.
    { unfold conf_lines. rewrite E. rewrite Er. done. }
    exists root1, kc1. by destruct fuel.
  - rewrite E in *. rewrite conf_lines_cons, find_char_app by done.
    destruct (parse_line_spec root m flags l (10 :: rest') lineno kc Hrep Hl) as (root1 & kc1 & -> & Hrep1); [by right|].
    replace (drop (S (length l)) (l ++ 10 :: rest')) with rest'.
    2:{ rewrite drop_app, (drop_ge l) by lia. by replace (S (length l) - length l)%nat with 1%nat by lia. }
    cbn [foldl]. destruct (conf_line (m, flags) l) as [m1 f1]. apply IH; [done|].
    rewrite length_app in Hf. simpl in Hf. lia.
Qed.

Lemma cf_om_parse_spec root m buf kc :
  represents root m ->
  exists root' kc', cf_om_parse can_alloc source buf root kc = Some ((root', (conf_meaning m buf).2), kc') /\
    represents root' (conf_meaning m buf).1.
Proof. intros. by apply parse_loop_spec. Qed.
End parse.
