(* ===== verification/Conf.v ===== *)
(** Conf: conf.c, the configuration file: loading it, saving it, and what of it is put in
    force.

    The file is its contents and its time; system calls may fail, which a record of [outcomes]
    per call says.  The schema of the configuration is a parameter: the functions that fill
    the structure with defaults and from the tree of options, which macros generate. *)

From S2P Require Import Prelude Str ConfOm.

Definition CONFIG_FILE_MAX_SIZE : Z := 32 * 1024.

(** [struct file_meta]. *)
Record file_meta := mk_meta { mtime : Z; fsize : Z }.
Definition FILE_META_UNKNOWN : file_meta := mk_meta (-1) (-1).

Definition cmp_meta (a b : file_meta) : Z :=
  if mtime a <? mtime b then -1 else if mtime b <? mtime a then 1
  else if fsize a <? fsize b then -1 else if fsize b <? fsize a then 1 else 0.

(** What the system answers during a call: stat succeeds or finds no file; fopen, malloc,
    fread and fclose of reload all succeed; the path of the temporary file fits; fopen, fclose and
    rename of cf_om_save succeed; the time of the file that is written. *)
Record outcomes := mk_outcomes {
  stat_ok : bool;
  read_ok : bool;
  temp_ok : bool;
  open_ok : bool;
  close_ok : bool;
  rename_ok : bool;
  now : Z
}.

Section conf.
Context {config : Type} (zero : config).
Context (cf_dfl_config_main : config -> config * Z).
Context (cf_opt_config_main : config -> cf_om_node -> config * Z).
Context (can_alloc : nat -> bool) (path : list Z).

Record conf := mk_conf {
  cf_om_root : cf_om_node;
  conffile_meta : file_meta;
  cf_limbo : bool;
  the_config : config;
  config_meta : file_meta;
  file : option (list Z * Z);
  allocs : nat
}.

Definition set_conffile (s : conf) (m : file_meta) : conf :=
  mk_conf (cf_om_root s) m (cf_limbo s) (the_config s) (config_meta s) (file s) (allocs s).
Definition set_root (s : conf) (r : cf_om_node) (k : nat) : conf :=
  mk_conf r (conffile_meta s) (cf_limbo s) (the_config s) (config_meta s) (file s) k.
Definition set_config (s : conf) (c : config) : conf :=
  mk_conf (cf_om_root s) (conffile_meta s) (cf_limbo s) c (config_meta s) (file s) (allocs s).
Definition set_config_meta (s : conf) (m : file_meta) : conf :=
  mk_conf (cf_om_root s) (conffile_meta s) (cf_limbo s) (the_config s) m (file s) (allocs s).
Definition set_limbo (s : conf) (b : bool) : conf :=
  mk_conf (cf_om_root s) (conffile_meta s) b (the_config s) (config_meta s) (file s) (allocs s).
Definition set_file (s : conf) (f : option (list Z * Z)) : conf :=
  mk_conf (cf_om_root s) (conffile_meta s) (cf_limbo s) (the_config s) (config_meta s) f (allocs s).

(** [None] is the error return. *)
Definition get_meta (o : outcomes) (s : conf) : option file_meta :=
  if negb (stat_ok o) then None
  else Some (match file s with
             | None => mk_meta (-1) 0
             | Some (bytes, t) => mk_meta t (zlen bytes)
             end).

(** Returns the state, the value and the flags, which are set only when the file was read.  The
    caller's [result] is the flags before.  The time -1 stands for no file: of a file with that
    time, a buffer that was not made would be read. *)
Definition reload (o : outcomes) (s : conf) (result : Z) : option (conf * Z * Z) :=
  match get_meta o s with
  | None => Some (s, -1, result)
  | Some meta =>
      if cmp_meta meta (conffile_meta s) =? 0 then Some (s, 0, result)
      else
        let buf := if mtime meta =? -1 then Some (if fsize meta =? 0 then Some [] else None)
                   else if CONFIG_FILE_MAX_SIZE <? fsize meta then None
                   else if fsize meta <=? 0 then Some (Some [])
                   else if read_ok o then Some (fst <$> file s) else None in
        match buf with
        | None => Some (s, -1, result)
        | Some buf =>
            buf ← buf;
            let s := set_conffile s meta in
            '(new_root, r, k) ← (cf_om_parse can_alloc path buf NULL (allocs s));
            if r =? CFERROR then Some (set_root s (cf_om_root s) k, -1, r)
            else Some (set_root s new_root k, 1, r)
        end
  end.

Definition cf_om_reload (o : outcomes) (s : conf) : option (conf * Z) :=
  '(s, r, _) ← reload o s 0; Some (s, r).

Definition cf_om_load (o : outcomes) (s : conf) : option (conf * Z) :=
  cf_om_reload o (set_conffile s FILE_META_UNKNOWN).

(** What fprintf writes for a node. *)
Definition print_node (node : cf_om_node) : option (list Z) :=
  match node with
  | NULL => None
  | Node _ _ _ _ None _ => Some []
  | Node _ _ None _ (Some _) _ => None
  | Node _ _ (Some fk) _ (Some t) _ =>
      n ← strlen fk; l ← strlen t;
      Some (take (Z.to_nat n) fk ++ 61 :: take (Z.to_nat l) t ++ [10])
  end.

Fixpoint save_loop (fuel : nat) (it : cf_om_iterator) (out : list Z) : option (list Z) :=
  match it_node it with
  | NULL => Some out
  | _ =>
      match fuel with
      | O => None
      | S fuel =>
          l ← print_node (it_node it);
          '(it, _) ← cf_om_iter_next it;
          save_loop fuel it (out ++ l)
      end
  end.

(** The number of nodes, the fuel of going through them. *)
Fixpoint nodes (p : cf_om_node) : nat :=
  match p with NULL => O | Node _ _ _ _ _ v => S (list_sum (map nodes v)) end.

Definition cf_om_save (o : outcomes) (s : conf) : option (conf * Z) :=
  match cf_om_root s with
  | NULL => Some (s, 0)
  | root =>
      if negb (temp_ok o) then Some (s, -1)
      else if negb (open_ok o) then Some (s, -1)
      else
        out ← save_loop (nodes root) (cf_om_iter_start root) [];
        if negb (close_ok o) then Some (s, -1)
        else if negb (rename_ok o) then Some (s, -1)
        else
          let s := set_file s (Some (out, now o)) in
          match get_meta o s with
          | None => Some (s, -1)
          | Some meta => Some (set_conffile s meta, 0)
          end
  end.

Definition cf_init (s : conf) : conf * Z :=
  let '(c, r) := cf_dfl_config_main zero in
  (mk_conf (cf_om_root s) FILE_META_UNKNOWN true c FILE_META_UNKNOWN (file s) (allocs s),
   if r =? CFERROR then -1 else 0).

Definition is_fine (result : Z) : bool := (result =? CFOK) || (result =? CFEMPTY).

(** The part of reload_and_parse that puts the new tree in force. *)
Definition put_in_force (s : conf) (result : Z) (strict : bool) : conf * Z :=
  if is_fine result then
    let '(new_config, result) := cf_dfl_config_main zero in
    if is_fine result then
      let '(new_config, result) :=
        match cf_om_root s with
        | NULL => (new_config, CFEMPTY)
        | root => cf_opt_config_main new_config root
        end in
      if is_fine result then (set_config s new_config, CFOK)
      else if negb (result =? CFERROR) && negb strict
      then (set_config s new_config, Z.land result (Z.lnot CFEMPTY))
      else (s, result)
    else (s, result)
  else (s, result).

Definition finish (s : conf) (result : Z) (permissive strict : bool) : conf * Z :=
  let ret := if result =? CFOK then 1
             else if strict then -1
             else if negb permissive then -1 else 1 in
  (set_limbo s false, ret).

Definition reload_and_parse (o : outcomes) (permissive strict : bool) (s : conf) : option (conf * Z) :=
  let '(s, result) :=
    if cf_limbo s then let '(c, r) := cf_dfl_config_main (the_config s) in (set_config s c, r)
    else (s, CFOK) in
  if is_fine result then
    '(s, r, result) ← reload o s result;
    if r =? -1 then Some (finish s CFERROR permissive strict)
    else if negb (cf_limbo s) && (cmp_meta (conffile_meta s) (config_meta s) =? 0) then Some (s, 0)
    else
      let '(s, result) := put_in_force (set_config_meta s (conffile_meta s)) result strict in
      Some (finish s result permissive strict)
  else Some (finish s result permissive strict).

Definition forget_meta (s : conf) : conf :=
  set_config_meta (set_conffile s FILE_META_UNKNOWN) FILE_META_UNKNOWN.

Definition cf_load (o : outcomes) (s : conf) : option (conf * Z) := reload_and_parse o false false (forget_meta s).
Definition cf_load_strict (o : outcomes) (s : conf) : option (conf * Z) := reload_and_parse o false true (forget_meta s).
Definition cf_load_permissive (o : outcomes) (s : conf) : option (conf * Z) := reload_and_parse o true false (forget_meta s).
Definition cf_reload (o : outcomes) (s : conf) : option (conf * Z) := reload_and_parse o false false s.
Definition cf_reload_strict (o : outcomes) (s : conf) : option (conf * Z) := reload_and_parse o false true s.
Definition cf_reload_permissive (o : outcomes) (s : conf) : option (conf * Z) := reload_and_parse o true false s.
End conf.
