(* ===== verification/ConfIter.v ===== *)
(** ConfIter: going through the tree of options (conf_om.c) reaches every node once, parents
    first and children in order, as long as the tree is no deeper than the stack allows. *)

From S2P Require Import Prelude Str Strlcpy ConfOm ConfKeys ConfTree ConfRefine Conf.

(** Induction over a tree and the trees below it. *)
Lemma om_ind (P : cf_om_node -> Prop) :
  P NULL -> (forall src ln fk k t v, Forall P v -> P (Node src ln fk k t v)) -> forall p, P p.
Proof.
  intros H0 HN. fix IH 1. intros [|src ln fk k t v]; [exact H0|]. apply HN.
  induction v as [|c v IHv]; constructor; [apply IH|exact IHv].
Qed.

(** The nodes of a tree, parents first. *)
Fixpoint preorder (p : cf_om_node) : list cf_om_node :=
  match p with NULL => [] | Node _ _ _ _ _ v => p :: flat_map preorder v end.

Lemma nodes_preorder p : nodes p = length (preorder p).
Proof.
  induction p as [|src ln fk k t v IH] using om_ind; [done|]. cbn [nodes preorder length]. f_equal.
  induction IH as [|c v Hc _ IHv]; [done|]. cbn [map flat_map]. rewrite length_app, <- Hc, <- IHv. done.
Qed.

(** At most [n] levels below, no missing child, and fewer children than an unsigned
    index counts. *)
Fixpoint fits (n : nat) (p : cf_om_node) : Prop :=
  match p with
  | NULL => False
  | Node _ _ _ _ _ v =>
      zlen v < 2 ^ 32 - 1 /\ match n with O => v = [] | S n => Forall (fits n) v end
  end.

(** ** The stack *)

(** The entries of the stack, the top first: nodes with the index of the next child. *)
Definition stack_ok (fs : list (cf_om_node * nat)) (it : cf_om_iterator) : Prop :=
  exists junk, it_stack it = ((fun f => (f.1, Z.of_nat f.2)) <$> rev fs) ++ junk /\
    length (it_stack it) = STACK /\ it_sp it + 1 = zlen fs.

Fixpoint frames_ok (fs : list (cf_om_node * nat)) : Prop :=
  match fs with
  | [] => True
  | f :: fs => fits (STACK - length (f :: fs)) f.1 /\ (length (f :: fs) <= STACK)%nat /\
               (f.2 <= length (children f.1))%nat /\ frames_ok fs
  end.

(** What is still to come. *)
Definition to_come (fs : list (cf_om_node * nat)) : list cf_om_node :=
  flat_map (fun f => flat_map preorder (drop f.2 (children f.1))) fs.

Lemma stack_top f fs it :
  stack_ok (f :: fs) it -> zget (it_stack it) (it_sp it) = Some (f.1, Z.of_nat f.2).
Proof.
  intros (junk & -> & _ & Hsp). cbn [rev]. rewrite fmap_app, <- app_assoc. unfold zget.
  simpl length in Hsp. zdecide. rewrite lookup_app_r by (rewrite length_fmap, length_rev; lia).
  rewrite length_fmap, length_rev. by replace (Z.to_nat (it_sp it) - length fs)%nat with O by lia.
Qed.

Lemma stack_set f fs it i stack :
  stack_ok (f :: fs) it -> zset (it_stack it) (it_sp it) (f.1, Z.of_nat i) = Some stack ->
  forall node, stack_ok ((f.1, i) :: fs) (mk_it node (it_sp it) stack).
Proof.
  intros (junk & E & Hl & Hsp) Hz node. pose proof (zset_length _ _ _ _ Hz) as Hlen.
  apply zset_inv in Hz as [_ ->]. exists junk. cbn [it_stack it_sp]. split_and!; [|congruence|done].
  rewrite E. cbn [rev]. rewrite !fmap_app, <- !app_assoc. simpl length in Hsp.
  rewrite insert_app_r_alt by (rewrite length_fmap, length_rev; lia).
  rewrite length_fmap, length_rev. by replace (Z.to_nat (it_sp it) - length fs)%nat with O by lia.
Qed.

Lemma stack_push fs it c stack :
  stack_ok fs it -> zset (it_stack it) (it_sp it + 1) (c, 0) = Some stack ->
  stack_ok ((c, O) :: fs) (mk_it c (it_sp it + 1) stack).
Proof.
  intros (junk & E & Hl & Hsp) Hz. pose proof (zset_length _ _ _ _ Hz) as Hlen.
  apply zset_inv in Hz as [Hr ->]. rewrite E in *. rewrite length_app, length_fmap, length_rev in Hr.
  destruct junk as [|j junk]; [simpl in Hr; lia|]. exists junk. cbn [it_stack it_sp].
  split_and!; [|congruence|simpl; lia].
  rewrite insert_app_r_alt by (rewrite length_fmap, length_rev; lia).
  rewrite length_fmap, length_rev. replace (Z.to_nat (it_sp it + 1) - length fs)%nat with O by lia.
  cbn [rev insert list_insert]. by rewrite fmap_app, <- app_assoc.
Qed.

Lemma stack_pop f fs it node :
  stack_ok (f :: fs) it -> stack_ok fs (mk_it node (it_sp it - 1) (it_stack it)).
Proof.
  intros (junk & E & Hl & Hsp). exists ((f.1, Z.of_nat f.2) :: junk). cbn [it_stack it_sp].
  split_and!; [|done|simpl in Hsp; lia]. rewrite E. cbn [rev]. by rewrite fmap_app, <- app_assoc.
Qed.

Lemma stack_set_ok f fs it (i : nat) :
  stack_ok (f :: fs) it -> (length (f :: fs) <= STACK)%nat ->
  exists stack, zset (it_stack it) (it_sp it) (f.1, Z.of_nat i) = Some stack.
Proof.
  intros (junk & E & Hl & Hsp) Hle. unfold STACK in *. simpl length in *. rewrite zset_Some by lia. by eexists.
Qed.

(** ** Steps *)

Lemma iter_pass_pop f f' fs it :
  stack_ok (f :: f' :: fs) it -> frames_ok (f :: f' :: fs) -> f.2 = length (children f.1) ->
  exists it', iter_pass it = Some (it', None) /\ stack_ok (f' :: fs) it' /\ it_sp it' = it_sp it - 1 /\
    it_node it' = it_node it.
Proof.
  intros Hs (Hfit & Hlen & _ & _) Hi. unfold iter_pass. rewrite (stack_top _ _ _ Hs). cbn [mbind option_bind].
  destruct f as [p i]. cbn [fst snd] in *. destruct p as [|src ln fk k t v]; [by destruct (STACK - _)%nat|].
  assert (Hv : zlen v < 2 ^ 32 - 1) by (destruct (STACK - _)%nat; apply Hfit).
  cbn in Hi. subst i. unfold u32. rewrite Z.mod_small by lia.
  replace (zlen v + 1) with (Z.of_nat (S (length v))) by lia.
  destruct (stack_set_ok _ _ _ (S (length v)) Hs Hlen) as [stack Hst]. cbn [fst] in Hst. rewrite Hst.
  cbn [mbind option_bind nodv]. rewrite Z.ltb_irrefl.
  assert (it_sp it <> 0) by (destruct Hs as (? & _ & _ & Hsp); simpl length in Hsp; lia).
  rewrite (proj2 (Z.eqb_neq (it_sp it) 0)) by done. cbn [negb].
  eexists. split; [done|]. split; [|done].
  exact (stack_pop _ _ _ _ (stack_set _ _ _ _ _ Hs Hst NULL)).
Qed.

Lemma iter_pass_end f it :
  stack_ok [f] it -> frames_ok [f] -> f.2 = length (children f.1) ->
  exists it', iter_pass it = Some (it', Some 0) /\ it_node it' = NULL.
Proof.
  intros Hs (Hfit & Hlen & _ & _) Hi. unfold iter_pass. rewrite (stack_top _ _ _ Hs). cbn [mbind option_bind].
  destruct f as [p i]. cbn [fst snd] in *. destruct p as [|src ln fk k t v]; [done|].
  assert (Hv : zlen v < 2 ^ 32 - 1) by apply Hfit.
  cbn in Hi. subst i. unfold u32. rewrite Z.mod_small by lia.
  replace (zlen v + 1) with (Z.of_nat (S (length v))) by lia.
  destruct (stack_set_ok _ _ _ (S (length v)) Hs Hlen) as [stack Hst]. cbn [fst] in Hst. rewrite Hst.
  cbn [mbind option_bind nodv]. rewrite Z.ltb_irrefl.
  assert (it_sp it = 0) as -> by (destruct Hs as (? & _ & _ & Hsp); simpl length in Hsp; lia).
  cbn. by eexists.
Qed.

Lemma iter_pass_child p i c fs it :
  stack_ok ((p, i) :: fs) it -> frames_ok ((p, i) :: fs) -> children p !! i = Some c ->
  exists it', iter_pass it = Some (it', Some 0) /\ it_node it' = c /\
    stack_ok ((c, O) :: (p, S i) :: fs) it' /\ frames_ok ((c, O) :: (p, S i) :: fs) /\
    c <> NULL.
Proof.
  intros Hs Hfr Hc. pose proof Hfr as (Hfit & Hlen & _ & Hrest). unfold iter_pass.
  rewrite (stack_top _ _ _ Hs). cbn [mbind option_bind fst snd] in *.
  destruct p as [|src ln fk k t v]; [by destruct (STACK - _)%nat|]. cbn in Hc.
  pose proof (lookup_lt_Some _ _ _ Hc) as Hi.
  set (n := (STACK - length ((Node src ln fk k t v, i) :: fs))%nat) in *.
  assert (Hv : zlen v < 2 ^ 32 - 1) by (destruct n; apply Hfit).
  assert (Hn : exists m, n = S m /\ fits m c).
  { destruct n as [|m]; destruct Hfit as [_ Hf]; [by rewrite Hf in Hc|]. exists m. split; [done|].
    by apply (Forall_lookup_1 _ _ _ _ Hf) in Hc. }
  destruct Hn as (m & En & Hcm). assert (Hcn : c <> NULL) by (by destruct c, m).
  unfold u32. rewrite Z.mod_small by lia. replace (Z.of_nat i + 1) with (Z.of_nat (S i)) by lia.
  destruct (stack_set_ok _ _ _ (S i) Hs Hlen) as [stack Hst]. cbn [fst] in Hst. rewrite Hst.
  cbn [mbind option_bind nodv]. rewrite (proj2 (Z.ltb_lt _ _)) by lia.
  unfold zget. zdecide. rewrite Nat2Z.id, Hc. cbn [mbind option_bind].
  pose proof (stack_set _ _ _ _ _ Hs Hst c) as Hs2. cbn [fst] in Hs2.
  assert (Hsp : it_sp it + 1 = zlen ((Node src ln fk k t v, i) :: fs)) by (by destruct Hs as (? & _ & _ & ?)).
  subst n. unfold STACK in *. simpl length in *.
  destruct c as [|src' ln' fk' k' t' v'] eqn:Ec; [done|]. rewrite <- Ec in *. zdecide.
  assert (Hlst : zlen stack = 20).
  { apply zset_length in Hst. destruct Hs as (? & _ & Hl & _). unfold STACK in Hl. lia. }
  destruct (zset stack (it_sp it + 1) (c, 0)) as [stack2|] eqn:Hst2; [|by rewrite zset_Some in Hst2 by lia].
  cbn [mbind option_bind]. eexists. split; [done|]. cbn [it_node].
  split; [done|]. split; [exact (stack_push _ _ _ _ Hs2 Hst2)|]. split; [|done].
  cbn [frames_ok fst snd length]. unfold STACK.
  replace (20 - S (S (length fs)))%nat with m by lia. rewrite Ec.
  replace (20 - S (length fs))%nat with (S m) by lia.
  split_and!; try done; try lia; rewrite <- ?Ec; try done.
  by rewrite En in Hfit.
Qed.

Lemma to_come_child p i c fs :
  c <> NULL -> children p !! i = Some c -> to_come ((p, i) :: fs) = c :: to_come ((c, O) :: (p, S i) :: fs).
Proof.
  intros Hn Hc. unfold to_come. cbn [flat_map fst snd]. rewrite (drop_S _ _ _ Hc). cbn [flat_map].
  destruct c as [|src ln fk k t v]; [done|]. cbn [preorder children nodv default from_option id drop app].
  by rewrite <- app_assoc.
Qed.

Lemma iter_loop_spec : forall fs fuel it,
  fs <> [] -> stack_ok fs it -> frames_ok fs -> (length fs <= fuel)%nat ->
  match to_come fs with
  | [] => exists it', iter_loop fuel it = Some (it', 0) /\ it_node it' = NULL
  | c :: rest => exists it' fs', iter_loop fuel it = Some (it', 0) /\ it_node it' = c /\ c <> NULL /\
      fs' <> [] /\ stack_ok fs' it' /\ frames_ok fs' /\ to_come fs' = rest
  end.
Proof.
  induction fs as [|[p i] fs IH]; intros fuel it Hne Hs Hfr Hf; [done|].
  destruct fuel as [|fuel]; [simpl in Hf; lia|]. cbn [iter_loop].
  pose proof Hfr as (_ & _ & Hi & Hfr'). cbn [fst snd] in Hi.
  destruct (decide (i = length (children p))) as [Ei|Ei].
  - assert (Hnone : to_come ((p, i) :: fs) = to_come fs).
    { unfold to_come. cbn [flat_map fst snd]. by rewrite drop_ge by lia. }
    rewrite Hnone. destruct fs as [|f fs].
    + destruct (iter_pass_end (p, i) it Hs Hfr Ei) as (it' & -> & Hn). by exists it'.
    + destruct (iter_pass_pop (p, i) f fs it Hs Hfr Ei) as (it' & -> & Hs' & _ & _).
      cbn [mbind option_bind]. apply IH; try done. simpl in *. lia.
  - destruct (lookup_lt_is_Some_2 (children p) i) as [c Hc]; [lia|].
    destruct (iter_pass_child p i c fs it Hs Hfr Hc) as (it' & -> & Hn & Hs' & Hfr2 & Hcn).
    rewrite (to_come_child _ _ _ _ Hcn Hc). cbn [mbind option_bind].
    exists it', ((c, O) :: (p, S i) :: fs). done.
Qed.

Lemma cf_om_iter_next_spec fs it :
  fs <> [] -> it_node it <> NULL -> stack_ok fs it -> frames_ok fs ->
  match to_come fs with
  | [] => exists it', cf_om_iter_next it = Some (it', 0) /\ it_node it' = NULL
  | c :: rest => exists it' fs', cf_om_iter_next it = Some (it', 0) /\ it_node it' = c /\ c <> NULL /\
      fs' <> [] /\ stack_ok fs' it' /\ frames_ok fs' /\ to_come fs' = rest
  end.
Proof.
  intros Hne Hn Hs Hfr. unfold cf_om_iter_next. destruct (it_node it) eqn:E; [done|].
  apply iter_loop_spec; try done. destruct Hs as (? & _ & _ & Hsp). lia.
Qed.

Lemma iter_start_ok root :
  fits 19 root -> stack_ok [(root, O)] (cf_om_iter_start root) /\ frames_ok [(root, O)].
Proof.
  intros Hf. split.
  - by exists (replicate (STACK - 1) (NULL, 0)).
  - cbn. unfold STACK. split_and!; try done; lia.
Qed.

(** ** The file that is saved *)

Lemma save_loop_spec : forall rest fs it out l0 ls,
  it_node it <> NULL -> fs <> [] -> stack_ok fs it -> frames_ok fs -> to_come fs = rest ->
  print_node (it_node it) = Some l0 -> Forall2 (fun q l => print_node q = Some l) rest ls ->
  save_loop (S (length rest)) it out = Some (out ++ l0 ++ concat ls).
Proof.
  induction rest as [|c rest IH]; intros fs it out l0 ls Hn Hne Hs Hfr Htc Hl0 Hls.
  - pose proof (cf_om_iter_next_spec fs it Hne Hn Hs Hfr) as H. rewrite Htc in H.
    destruct H as (it' & Hnx & Hend). cbn [save_loop length]. destruct (it_node it) eqn:E; [done|].
    rewrite Hl0, Hnx. cbn [mbind option_bind]. rewrite Hend. inversion Hls. simpl. by rewrite app_nil_r.
  - pose proof (cf_om_iter_next_spec fs it Hne Hn Hs Hfr) as H. rewrite Htc in H.
    destruct H as (it' & fs' & Hnx & Hc & Hcn & Hne' & Hs' & Hfr' & Htc').
    apply Forall2_cons_inv_l in Hls as (l & ls' & Hl & Hls & ->).
    change (length (c :: rest)) with (S (length rest)).
    remember (S (length rest)) as fuel eqn:Ef. cbn [save_loop].
    destruct (it_node it) eqn:E; [done|]. rewrite Hl0, Hnx. cbn [mbind option_bind]. subst fuel.
    rewrite (IH fs' it' (out ++ l0) l ls'); try done; try (by rewrite Hc).
    cbn [concat]. by rewrite <- !app_assoc.
Qed.

(** Going through a whole tree prints its nodes, parents first. *)
Lemma save_preorder root ls :
  fits 19 root -> Forall2 (fun q l => print_node q = Some l) (preorder root) ls ->
  save_loop (nodes root) (cf_om_iter_start root) [] = Some (concat ls).
Proof.
  intros Hf Hls. destruct (iter_start_ok root Hf) as [Hs Hfr].
  destruct root as [|src ln fk k t v] eqn:Er; [done|]. rewrite <- Er in *.
  assert (Hpre : preorder root = root :: flat_map preorder v) by (by rewrite Er).
  rewrite Hpre in Hls. apply Forall2_cons_inv_l in Hls as (l & ls' & Hl & Hls & ->).
  rewrite nodes_preorder, Hpre. cbn [length].
  rewrite (save_loop_spec (flat_map preorder v) [(root, O)] _ [] l ls'); try done.
  - by rewrite Er.
  - unfold to_come. cbn [flat_map fst snd]. rewrite drop_0, app_nil_r. by rewrite Er.
Qed.
