(* ===== verification/ConfMatch.v ===== *)
(** ConfMatch: patterns of option names (conf_om.c): cf_om_match decides what the grammar of
    patterns says. *)

From S2P Require Import Prelude Str ConfOm ConfKeys ConfTree ConfRefine.

Definition STAR : list Z := [42].
Definition STARS : list Z := [42; 42].

(** Keys and stars separated by dots; two stars only at the end. *)
Definition valid_part (p : list Z) : bool := valid_key p || bool_decide (p = STAR).
Fixpoint valid_pattern (ps : list (list Z)) : bool :=
  match ps with
  | [] => false
  | [p] => valid_part p || bool_decide (p = STARS)
  | p :: ps => valid_part p && valid_pattern ps
  end.

(** A star stands for one key, two stars for one or more. *)
Fixpoint pattern_matches (ps ks : list (list Z)) : bool :=
  match ps, ks with
  | [], [] => true
  | p :: ps, k :: ks =>
      (bool_decide (p = STARS)) ||
      ((bool_decide (p = STAR) || bool_decide (p = k)) && pattern_matches ps ks)
  | _, _ => false
  end.

Lemma valid_pattern_cons p ps :
  valid_pattern (p :: ps) = true ->
  (valid_part p = true /\ (ps <> [] -> valid_pattern ps = true)) \/ (p = STARS /\ ps = []).
Proof.
  destruct ps as [|p' ps]; cbn [valid_pattern].
  - intros [?|?%bool_decide_eq_true]%orb_true_iff; [left|right]; done.
  - intros [? ?]%andb_true_iff. by left.
Qed.

Lemma valid_part_no_dot p : valid_part p = true -> no_dot p.
Proof.
  intros [?|E]%orb_true_iff; [by apply valid_key_no_dot|]. apply bool_decide_eq_true in E as ->. by repeat constructor.
Qed.

Lemma keypattern_key p ps :
  valid_key p = true -> cf_find_keypattern_end (join_dots (p :: ps)) = Some (length p).
Proof. intros Hp. unfold cf_find_keypattern_end. by rewrite keyend_join, Hp by (by apply valid_key_no_dot). Qed.

Lemma keypattern_star ps : cf_find_keypattern_end (join_dots (STAR :: ps)) = Some 1%nat.
Proof.
  unfold cf_find_keypattern_end. rewrite keyend_join by (by repeat constructor). cbn [valid_key].
  rewrite join_dots_cons. destruct ps as [|p ps]; [done|].
  unfold dot_tail. generalize (join_dots (p :: ps)). intros j. cbn [app STAR].
  change ((42 :: 46 :: j) !! O) with (Some 42). rewrite (bool_decide_eq_true_2 (Some 42 = Some 42)) by done.
  change ((42 :: 46 :: j) !! 1%nat) with (Some 46). rewrite (bool_decide_eq_false_2 (Some 46 = Some 42)) by done.
  by rewrite andb_false_r.
Qed.

Lemma keypattern_stars : cf_find_keypattern_end STARS = Some 2%nat.
Proof. reflexivity. Qed.

Lemma agree_prefix p k x :
  (agree p (k ++ x) <= length p)%nat /\
  (agree p (k ++ x) = length p -> length p = length k -> p = k).
Proof.
  revert k. induction p as [|a p IH]; intros k; cbn.
  - split; [done|]. intros _ H. by destruct k.
  - destruct k as [|b k]; cbn.
    + destruct x as [|b x]; [split; [lia|done]|]. destruct (a =? b); split; try lia; try done.
      assert (agree p x <= length p)%nat.
      { clear. revert x. induction p as [|a p IH]; intros [|b x]; cbn; try lia. destruct (a =? b); [|lia].
        specialize (IH x). lia. }
      lia.
    + destruct (Z.eqb_spec a b) as [->|]; [|split; [lia|done]]. destruct (IH k) as [H1 H2].
      split; [lia|]. intros [= E1] [= E2]. f_equal. auto.
Qed.

Lemma agree_same k x : agree k (k ++ x) = length k.
Proof. induction k as [|a k IH]; [done|]. cbn. by rewrite Z.eqb_refl, IH. Qed.

Lemma skip_one_next (pre k : list Z) ks :
  skip_one (pre ++ join_dots (k :: ks)) (length pre + length k)
  = match ks with [] => (length pre + length k)%nat | _ => (length pre + length k + 1)%nat end.
Proof.
  unfold skip_one. rewrite join_dots_cons, !length_app. destruct ks as [|k' ks]; cbn [dot_tail length].
  - by rewrite (proj2 (Nat.ltb_ge _ _)) by lia.
  - rewrite (proj2 (Nat.ltb_lt _ _)) by lia. lia.
Qed.

Lemma at_end_iff (pre k : list Z) ks :
  valid_key k = true ->
  bool_decide (Some (length pre + length k)%nat = Some (length (pre ++ join_dots (k :: ks))))
  = bool_decide (ks = []).
Proof.
  intros _. apply bool_decide_ext. rewrite join_dots_cons, !length_app.
  destruct ks as [|k' ks]; cbn [dot_tail length]; (split; [|done || (intros; f_equal; lia)]); [done|].
  intros [= ?]. lia.
Qed.

Lemma join_next_end (pre k k' : list Z) ks :
  pre ++ join_dots (k :: k' :: ks) = (pre ++ k ++ [46]) ++ join_dots (k' :: ks).
Proof. rewrite join_dots_cons. unfold dot_tail. by rewrite <- !app_assoc. Qed.

Lemma pattern_more (pp p p' : list Z) ps :
  p' <> [] -> (length pp + length p + 1 < length (pp ++ join_dots (p :: p' :: ps)))%nat.
Proof.
  intros Hne. rewrite join_dots_cons, !length_app. unfold dot_tail. cbn [length].
  rewrite join_dots_cons, length_app. destruct p'; [done|]. simpl. lia.
Qed.

(** What a round of the loop does when the part and the key agree. *)
Lemma match_loop_spec : forall ps fuel pp kk ks keyend patend,
  ps <> [] -> ks <> [] -> valid_pattern ps = true -> Forall (fun k => valid_key k = true) ks ->
  (length ps < fuel)%nat ->
  match_loop fuel (pp ++ join_dots ps) (kk ++ join_dots ks) (length pp) (length kk) keyend patend
  = Some (Zb (pattern_matches ps ks)).
Proof.
  induction ps as [|p ps IH]; intros fuel pp kk ks keyend patend Hps Hks Hvp Hvk Hf; [done|].
  destruct ks as [|k ks]; [done|]. apply Forall_cons in Hvk as [Hk Hvk].
  destruct fuel as [|fuel]; [simpl in Hf; lia|]. cbn [match_loop].
  assert (Hpne : p <> []) by (intros ->; destruct (valid_pattern_cons _ _ Hvp) as [[? _]|[? _]]; done).
  rewrite (proj2 (Nat.ltb_lt (length pp) _))
    by (rewrite length_app, join_dots_cons, length_app; destruct p; [done|simpl; lia]).
  rewrite (proj2 (Nat.leb_le (length kk) _)) by (rewrite length_app; lia). cbn [andb].
  rewrite !drop_app_length, keyend_join, Hk by (by apply valid_key_no_dot).
  (* the rest, when this key is accepted *)
  assert (Hnext : (ps <> [] -> valid_pattern ps = true) ->
    match_loop fuel (pp ++ join_dots (p :: ps)) (kk ++ join_dots (k :: ks))
      (skip_one (pp ++ join_dots (p :: ps)) (length pp + length p))
      (skip_one (kk ++ join_dots (k :: ks)) (length kk + length k))
      (Some (length kk + length k)%nat) (Some (length pp + length p)%nat)
    = Some (Zb (pattern_matches ps ks))).
  { intros Hvps. rewrite !skip_one_next. destruct fuel as [|fuel]; [simpl in Hf; lia|].
    destruct ps as [|p' ps].
    - cbn [match_loop]. rewrite at_end_iff by done.
      assert (Hlp : length (pp ++ join_dots [p]) = (length pp + length p)%nat) by (cbn; by rewrite length_app).
      rewrite Hlp, Nat.ltb_irrefl, Nat.eqb_refl. cbn [andb]. rewrite andb_true_r.
      by destruct ks.
    - destruct ks as [|k' ks].
      + cbn [match_loop]. rewrite (proj2 (Nat.ltb_lt _ _))
          by (apply pattern_more; intros ->;
              by destruct (valid_pattern_cons _ _ (Hvps ltac:(done))) as [[? _]|[? _]]).
        cbn. rewrite (proj2 (Nat.leb_le _ _)) by (rewrite length_app; lia). cbn.
        rewrite drop_ge by (rewrite length_app; lia). done.
      + rewrite !join_next_end, <- !path_length. apply IH; try done; [by apply Hvps|simpl in *; lia]. }
  destruct (valid_pattern_cons _ _ Hvp) as [[Hpart Hvps]|[-> ->]].
  - apply orb_true_iff in Hpart as [Hkey|Hstar].
    + rewrite keypattern_key by done.
      assert (Hnostar : bool_decide ((pp ++ join_dots (p :: ps)) !! length pp = Some 42) = false).
      { apply bool_decide_eq_false. rewrite lookup_app_r, Nat.sub_diag, join_dots_cons by lia.
        apply valid_key_spec in Hkey as [_ Hch]. destruct p as [|c p]; [done|]. cbn. intros [= ->].
        by apply Forall_cons in Hch as [? _]. }
      rewrite Hnostar.
      assert (Htp : take (length p) (join_dots (p :: ps)) = p) by (rewrite join_dots_cons; apply take_app_length).
      rewrite Htp. rewrite (join_dots_cons k ks). destruct (agree_prefix p k (dot_tail ks)) as [Hle Hag].
      assert (Hns : p <> STARS /\ p <> STAR).
      { apply valid_key_spec in Hkey as [_ Hch]. split; intros ->; by apply Forall_cons in Hch as [? _]. }
      cbn [pattern_matches]. rewrite (bool_decide_eq_false_2 (p = STARS)), (bool_decide_eq_false_2 (p = STAR)) by tauto.
      cbn [orb]. destruct (decide (p = k)) as [<-|Hpk].
      * rewrite agree_same, !Nat.eqb_refl. cbn [negb orb]. rewrite bool_decide_eq_true_2 by done.
        cbn [andb]. rewrite <- join_dots_cons. by apply Hnext.
      * rewrite (bool_decide_eq_false_2 (p = k)) by done. cbn [andb].
        destruct (Nat.eqb_spec (length pp + agree p (k ++ dot_tail ks)) (length pp + length p)); [|done].
        destruct (Nat.eqb_spec (length kk + agree p (k ++ dot_tail ks)) (length kk + length k)); [|done].
        exfalso. apply Hpk, Hag; lia.
    + apply bool_decide_eq_true in Hstar as ->. rewrite keypattern_star.
      rewrite lookup_app_r, Nat.sub_diag by lia. rewrite bool_decide_eq_true_2 by (by rewrite join_dots_cons).
      rewrite lookup_app_r by lia. replace (S (length pp) - length pp)%nat with 1%nat by lia.
      rewrite bool_decide_eq_false_2 by (rewrite join_dots_cons; by destruct ps).
      cbn [pattern_matches]. rewrite bool_decide_eq_false_2, bool_decide_eq_true_2 by done.
      cbn [orb andb]. by apply Hnext.
  - cbn [join_dots]. rewrite keypattern_stars.
    rewrite !lookup_app_r by lia. replace (S (length pp) - length pp)%nat with 1%nat by lia.
    by rewrite Nat.sub_diag.
Qed.

(** [C18] A pattern of well-formed parts matches a node exactly when its parts match the keys
    of the name of the node: a key matches itself, a star one key, two stars at the end one or
    more keys. *)
Theorem cf_om_match_correct ps ks src ln y kk t v :
  valid_pattern ps = true -> ks <> [] -> Forall (fun k => valid_key k = true) ks ->
  cf_om_match (c_string (join_dots ps)) (Node src ln (Some (join_dots ks ++ 0 :: y)) kk t v)
  = Some (Zb (pattern_matches ps ks)).
Proof.
  intros Hps Hne Hks. unfold cf_om_match, c_string.
  assert (Hpne : ps <> []) by (by intros ->).
  assert (Htx : forall l, Forall (fun c => c <> 0) (concat l) -> text (join_dots l)).
  { induction l as [|a l IH]; [constructor|]. intros Ha. cbn [concat] in Ha. apply Forall_app in Ha as [Ha Hl].
    rewrite join_dots_cons. apply Forall_app. split; [done|]. destruct l; [constructor|].
    constructor; [done|by apply IH]. }
  assert (Hpt : text (join_dots ps)).
  { apply Htx. clear -Hps. induction ps as [|p ps IH]; [constructor|]. cbn [concat]. apply Forall_app.
    destruct (valid_pattern_cons _ _ Hps) as [[Hpart Hrest]|[-> ->]];
      [apply orb_true_iff in Hpart as [Hp|Hp]; [|apply bool_decide_eq_true in Hp as ->]|].
    - split; [eapply Forall_impl; [by apply valid_key_text|]; simpl; lia|]. destruct ps; [constructor|by apply IH, Hrest].
    - split; [by repeat constructor|]. destruct ps; [constructor|by apply IH, Hrest].
    - split; by repeat constructor. }
  assert (Hkt : text (join_dots ks)).
  { apply Htx. clear -Hks. induction Hks as [|k ks Hk _ IH]; [constructor|]. cbn [concat]. apply Forall_app.
    split; [eapply Forall_impl; [by apply valid_key_text|]; simpl; lia|done]. }
  rewrite strlen_text by done. cbn [mbind option_bind].
  assert (Hlen : (length ps <= length (join_dots ps))%nat).
  { clear -Hps. induction ps as [|p ps IH]; [done|]. rewrite join_dots_cons, length_app.
    destruct (valid_pattern_cons _ _ Hps) as [[Hp Hrest]|[-> ->]]; [|simpl; lia].
    assert (p <> []) by (by intros ->). destruct p; [done|]. destruct ps; [simpl; lia|].
    cbn [length dot_tail] in *. specialize (IH (Hrest ltac:(done))). lia. }
  assert (Hz : (zlen (join_dots ps) =? 0) = false) by (apply Z.eqb_neq; destruct ps; [done|simpl in *; lia]).
  rewrite !strlen_text by done. cbn [mbind option_bind]. rewrite !Nat2Z.id, !take_app_length.
  rewrite Hz.
  apply (match_loop_spec ps _ [] [] ks None (Some O)); try done. lia.
Qed.

Lemma cf_om_match_correct_witness :
  cf_om_match (c_string (join_dots [bytes_of_string "interfaces"; STAR; STARS]))
    (Node None 0 (Some (join_dots [bytes_of_string "interfaces"; bytes_of_string "0"; bytes_of_string "type"] ++ [0])) 13 None [])
  = Some 1.
Proof.
  apply (cf_om_match_correct [bytes_of_string "interfaces"; STAR; STARS]
    [bytes_of_string "interfaces"; bytes_of_string "0"; bytes_of_string "type"] None 0 [] 13 None []).
  - reflexivity.
  - discriminate.
  - repeat constructor.
Defined.
