(* ===== verification/ConfProps.v ===== *)
(** ConfProps: what the configuration guarantees: its commands implement a map, a saved
    configuration is loaded again, patterns match what their grammar says, and where the
    code falls short. *)

From S2P Require Import Prelude Str Strlcpy ConfOm ConfKeys ConfTree ConfRefine Conf ConfIter.

(** ** Commands *)

Inductive conf_op :=
| OpParse (buf : list Z)
| OpSet (name : list Z) (value : option (list Z))
| OpGet (name : list Z).

(** Flags, or the text of an option. *)
Inductive conf_out :=
| OutFlags (flags : Z)
| OutText (value : option (list Z)).

(** Arguments are C strings. *)
Definition op_ok (op : conf_op) : Prop :=
  match op with
  | OpParse _ => True
  | OpSet name value => text name /\ text (default [] value)
  | OpGet name => text name
  end.

Definition om_step (can_alloc : nat -> bool) (source : list Z) (st : cf_om_node * nat) (op : conf_op)
    : option ((cf_om_node * nat) * conf_out) :=
  let '(root, k) := st in
  match op with
  | OpParse buf =>
      '(root, flags, k) ← cf_om_parse can_alloc source buf root k; Some ((root, k), OutFlags flags)
  | OpSet name value =>
      '(root, flags, k) ← cf_om_set can_alloc root (c_string name) (c_string <$> value) k;
      Some ((root, k), OutFlags flags)
  | OpGet name => o ← cf_om_get root (c_string name); Some ((root, k), OutText (c_text <$> o))
  end.

Fixpoint om_run (can_alloc : nat -> bool) (source : list Z) (st : cf_om_node * nat) (ops : list conf_op)
    : option (list conf_out) :=
  match ops with
  | [] => Some []
  | op :: ops =>
      '(st, o) ← om_step can_alloc source st op;
      os ← om_run can_alloc source st ops; Some (o :: os)
  end.

(** The same on a map. *)
Definition map_step (m : options) (op : conf_op) : options * conf_out :=
  match op with
  | OpParse buf => let '(m, flags) := conf_meaning m buf in (m, OutFlags flags)
  | OpSet name value =>
      if valid_name name then (partial_alter (fun _ => value) name m, OutFlags CFOK)
      else (m, OutFlags CFINVALID)
  | OpGet name => (m, OutText (if valid_name name then m !! name else None))
  end.

Fixpoint map_run (m : options) (ops : list conf_op) : list conf_out :=
  match ops with
  | [] => []
  | op :: ops => let '(m, o) := map_step m op in o :: map_run m ops
  end.

Lemma om_step_refines can_alloc source root m op k :
  (forall n, can_alloc n = true) -> represents root m -> op_ok op ->
  exists root' k', om_step can_alloc source (root, k) op = Some ((root', k'), (map_step m op).2) /\
    represents root' (map_step m op).1.
Proof.
  intros Halloc Hrep Hop. destruct op as [buf|name value|name]; cbn [om_step map_step op_ok] in *.
  - destruct (cf_om_parse_spec can_alloc Halloc source root m buf k Hrep) as (root' & k' & -> & Hrep').
    exists root', k'. by destruct (conf_meaning m buf).
  - destruct Hop as [Hname Hval].
    destruct (cf_om_set_spec can_alloc Halloc root m name value k Hrep Hname Hval) as (root' & k' & -> & Hrep').
    exists root', k'. by destruct (valid_name name).
  - destruct (cf_om_get_spec root m name Hrep Hop) as (o & -> & Ho). exists root, k. cbn. by rewrite Ho.
Qed.

(** [C15] Reading configuration files and setting and getting options implements a map from option
    names to texts, whatever the order: well-formed names are keys separated by dots, a file
    adds the options of its lines that were not set, malformed lines and names change nothing,
    and every result and flag is that of the map. *)
Theorem config_refines can_alloc source ops k :
  (forall n, can_alloc n = true) -> Forall op_ok ops ->
  om_run can_alloc source (NULL, k) ops = Some (map_run ∅ ops).
Proof.
  intros Halloc Hops. generalize represents_empty. generalize NULL as root, (∅ : options) as m. revert k.
  induction Hops as [|op ops Hop _ IH]; intros k root m Hrep; [done|]. cbn [om_run map_run].
  destruct (om_step_refines can_alloc source root m op k Halloc Hrep Hop) as (root' & k' & -> & Hrep').
  cbn [mbind option_bind]. rewrite (IH k' root' _ Hrep'). by destruct (map_step m op).
Qed.

Definition always : nat -> bool := fun _ => true.

Lemma config_refines_witness :
  om_run always (bytes_of_string "serval.conf") (NULL, O)
    [OpParse (bytes_of_string "# names" ++ 10 :: bytes_of_string "log.file=x" ++ 13 :: 10 :: bytes_of_string "log.file=y");
     OpSet (bytes_of_string "debug.io") (Some (bytes_of_string "1")); OpSet (bytes_of_string "debug.") None;
     OpGet (bytes_of_string "log.file"); OpGet (bytes_of_string "debug.io"); OpGet (bytes_of_string "debug")]
  = Some [OutFlags CFDUPLICATE; OutFlags CFOK; OutFlags CFINVALID; OutText (Some (bytes_of_string "x"));
          OutText (Some (bytes_of_string "1")); OutText None].
Proof.
  rewrite (config_refines always); [vm_compute; reflexivity|reflexivity|].
  repeat (constructor; [repeat split; repeat constructor; discriminate|]). constructor.
Defined.

(** ** The options of a tree *)

(** Every node with the keys that lead to it. *)
Fixpoint om_paths (p : cf_om_node) : list (list (list Z) * cf_om_node) :=
  match p with
  | NULL => []
  | Node _ _ _ _ _ v =>
      ([], p) :: flat_map (fun c => map (fun e => (node_name c :: e.1, e.2)) (om_paths c)) v
  end.

Lemma paths_preorder p : preorder p = map snd (om_paths p).
Proof.
  induction p as [|src ln fk k t v IH] using om_ind; [done|]. cbn [preorder om_paths map snd]. f_equal.
  induction IH as [|c v Hc _ IHv]; [done|]. cbn [flat_map]. rewrite map_app, map_map, <- IHv, Hc. done.
Qed.

Lemma in_children_paths ks q v :
  (ks, q) ∈ flat_map (fun c => map (fun e => (node_name c :: e.1, e.2)) (om_paths c)) v <->
  exists c ks', c ∈ v /\ ks = node_name c :: ks' /\ (ks', q) ∈ om_paths c.
Proof.
  rewrite list_elem_of_In, in_flat_map. split.
  - intros (c & Hc%list_elem_of_In & He). apply in_map_iff in He as ([ks' q'] & [= <- <-] & Hin).
    exists c, ks'. split_and!; [done|done|by apply list_elem_of_In].
  - intros (c & ks' & Hc & -> & Hin). exists c. split; [by apply list_elem_of_In|].
    apply in_map_iff. exists (ks', q). split; [done|by apply list_elem_of_In].
Qed.

(** The keys of an option are its name in the tree, and its text the one found by name. *)
Definition path_ok (pre : list Z) (p : cf_om_node) (ks : list (list Z)) (q : cf_om_node) : Prop :=
  Forall (fun k => valid_key k = true) ks /\ om_lookup ks p = node_text q /\
  exists src ln kk t v y, q = Node src ln (Some (pre ++ dot_tail ks ++ 0 :: y)) kk t v /\
    Forall (fun t => 0 ∈ t) (option_list t).

Lemma dot_tail_cons k ks : dot_tail (k :: ks) = 46 :: k ++ dot_tail ks.
Proof. unfold dot_tail at 1. by rewrite join_dots_cons. Qed.

Lemma om_lookup_at src ln fk kk t v c ks names pre :
  children_ok pre names v -> c ∈ v ->
  om_lookup (node_name c :: ks) (Node src ln fk kk t v) = om_lookup ks c.
Proof.
  intros Hok [i Hi]%list_elem_of_lookup. cbn.
  by rewrite (child_named_Some _ _ i c (children_NoDup _ _ _ Hok) Hi).
Qed.

Lemma om_paths_ok p : forall pre n, om_ok pre n p ->
  forall ks q, (ks, q) ∈ om_paths p -> path_ok (pre ++ n) p ks q.
Proof.
  induction p as [|src ln fk k t v IH] using om_ind; intros pre n Hok ks q Hin; [by inversion Hok|].
  inversion Hok as [? ? ? ? ? ? names y Hn Hs Hv Ht]; subst. cbn [om_paths] in Hin.
  apply elem_of_cons in Hin as [[= -> ->]|Hin].
  - split; [constructor|]. split; [done|]. do 6 eexists. split; [|exact Ht]. cbn [dot_tail app].
    by rewrite <- app_assoc.
  - apply in_children_paths in Hin as (c & ks' & Hc & -> & Hin).
    pose proof Hc as [i Hi]%list_elem_of_lookup.
    destruct (Forall2_lookup_r _ _ _ _ _ Hv Hi) as (m & Hm & Hco).
    pose proof (om_ok_name _ _ _ Hco) as Hcn.
    rewrite Forall_forall in IH.
    destruct (IH c Hc _ _ Hco ks' q Hin) as (Hks & Hlk & src' & ln' & kk' & t' & v' & y' & Eq & Ht').
    split; [constructor; [rewrite Hcn; by eapply om_ok_valid|done]|]. split.
    + rewrite (om_lookup_at _ _ _ _ _ _ _ _ names (pre ++ n ++ [46])) by done. exact Hlk.
    + do 6 eexists. split; [|exact Ht']. rewrite Eq, Hcn, dot_tail_cons.
      rewrite <- !app_assoc. cbn [app]. by rewrite <- !app_assoc.
Qed.

Lemma om_paths_complete p : forall ks t, om_lookup ks p = Some t ->
  exists q, (ks, q) ∈ om_paths p /\ node_text q = Some t.
Proof.
  induction p as [|src ln fk k t v IH] using om_ind; intros ks t0 Hl; [by destruct ks|].
  destruct ks as [|k0 ks]; [exists (Node src ln fk k t v); split; [by left|done]|].
  cbn in Hl. destruct (child_named k0 v) as [c|] eqn:Ec; [|done]. cbn in Hl.
  pose proof (child_named_name _ _ _ Ec) as <-.
  assert (Hc : c ∈ v).
  { clear -Ec. revert Ec. generalize (node_name c) as k1. intros k1. induction v as [|d v IHv]; [done|]. cbn.
    case_bool_decide; [intros [= <-]; by left|]. intros. right. auto. }
  rewrite Forall_forall in IH. destruct (IH c Hc ks t0 Hl) as (q & Hq & Ht). exists q. split; [|done].
  right. apply in_children_paths. by exists c, ks.
Qed.

Lemma children_paths_NoDup v :
  Forall (fun c => NoDup (map fst (om_paths c))) v -> NoDup (node_name <$> v) ->
  NoDup (map fst (flat_map (fun c => map (fun e => (node_name c :: e.1, e.2)) (om_paths c)) v)).
Proof.
  induction 1 as [|c v Hc _ IH]; intros Hnd; [constructor|]. cbn in Hnd. apply NoDup_cons in Hnd as [Hcv Hnd].
  cbn [flat_map]. rewrite map_app, map_map. apply NoDup_app. split_and!; [| |by apply IH].
  - cbn [fst]. rewrite <- (map_map fst (cons (node_name c))). by apply (NoDup_fmap_2 (cons (node_name c))).
  - intros ks Hks1 Hks2. apply list_elem_of_In, in_map_iff in Hks1 as ([ks1 q1] & <- & _).
    apply list_elem_of_In, in_map_iff in Hks2 as ([ks2 q2] & E & Hin2). cbn [fst] in E. subst ks2.
    apply list_elem_of_In, in_children_paths in Hin2 as (d & ks' & Hd & [= E ->] & _).
    apply Hcv. rewrite E. by apply list_elem_of_fmap_2.
Qed.

Lemma om_paths_NoDup p : forall pre n, om_ok pre n p -> NoDup (map fst (om_paths p)).
Proof.
  induction p as [|src ln fk k t v IH] using om_ind; intros pre n Hok; [constructor|].
  inversion Hok as [? ? ? ? ? ? names y Hn Hs Hv Ht]; subst. cbn [om_paths map fst].
  apply NoDup_cons. split.
  - intros Hin. apply list_elem_of_In, in_map_iff in Hin as ([ks q] & E & Hin). cbn in E. subst ks.
    apply list_elem_of_In, in_children_paths in Hin as (c & ks' & _ & [=] & _).
  - apply children_paths_NoDup; [|by eapply children_NoDup].
    apply Forall_forall. intros c Hc. rewrite Forall_forall in IH.
    pose proof Hc as [i Hi]%list_elem_of_lookup. destruct (Forall2_lookup_r _ _ _ _ _ Hv Hi) as (m & _ & Hco).
    by eapply IH.
Qed.

(** ** Saving and loading *)

(** The options with a text, by name, as they are printed. *)
Definition entry_of (e : list (list Z) * cf_om_node) : option (list Z * list Z) :=
  t ← node_text e.2; Some (join_dots e.1, t).
Definition entries (p : cf_om_node) : list (list Z * list Z) := omap entry_of (om_paths p).
Definition print_entry (e : list Z * list Z) : list Z := e.1 ++ 61 :: e.2 ++ [10].

Section entries.
Context (src : option (list Z)) (ln : Z) (k : nat) (names : list (list Z)) (v : list cf_om_node).
Hypothesis Hok : children_ok [] names v.
Let root := Node src ln None k None v.

Lemma root_paths_ok ks q :
  (ks, q) ∈ om_paths root -> q <> root ->
  ks <> [] /\ Forall (fun k => valid_key k = true) ks /\ om_lookup ks root = node_text q /\
  exists src ln kk t v y, q = Node src ln (Some (join_dots ks ++ 0 :: y)) kk t v /\
    Forall (fun t => 0 ∈ t) (option_list t).
Proof.
  intros Hin Hne. cbn [om_paths root] in Hin. apply elem_of_cons in Hin as [[= -> ->]|Hin]; [done|].
  apply in_children_paths in Hin as (c & ks' & Hc & -> & Hin). split; [done|].
  pose proof Hc as [i Hi]%list_elem_of_lookup.
  destruct (Forall2_lookup_r _ _ _ _ _ (proj2 Hok) Hi) as (m & Hm & Hco).
  pose proof (om_ok_name _ _ _ Hco) as Hcn.
  destruct (om_paths_ok c _ _ Hco ks' q Hin) as (Hks & Hlk & src' & ln' & kk' & t' & v' & y' & Eq & Ht').
  split_and!.
  - constructor; [rewrite Hcn; by eapply om_ok_valid|done].
  - subst root. by rewrite (om_lookup_at _ _ _ _ _ _ _ _ names []).
  - do 6 eexists. split; [|exact Ht']. rewrite Eq, Hcn, join_dots_cons. cbn [app]. by rewrite <- app_assoc.
Qed.

Lemma root_paths_NoDup : NoDup (map fst (om_paths root)).
Proof.
  cbn [om_paths root map fst]. apply NoDup_cons. split.
  - intros Hin. apply list_elem_of_In, in_map_iff in Hin as ([ks q] & E & Hin). cbn in E. subst ks.
    apply list_elem_of_In, in_children_paths in Hin as (c & ks' & _ & [=] & _).
  - apply children_paths_NoDup; [|by eapply children_NoDup].
    apply Forall_forall. intros c [i Hi]%list_elem_of_lookup.
    destruct (Forall2_lookup_r _ _ _ _ _ (proj2 Hok) Hi) as (m & _ & Hco). by eapply om_paths_NoDup.
Qed.

Lemma entries_in n t :
  (n, t) ∈ entries root <->
  exists ks, ks <> [] /\ Forall (fun k => valid_key k = true) ks /\ n = join_dots ks /\ om_lookup ks root = Some t.
Proof.
  unfold entries. rewrite list_elem_of_omap. split.
  - intros ([ks q] & Hin & He). unfold entry_of in He. cbn [fst snd] in He.
    destruct (node_text q) as [t'|] eqn:Et; [|done]. cbn in He. simplify_eq.
    destruct (root_paths_ok ks q Hin) as (Hne & Hks & Hlk & _); [by intros ->|].
    exists ks. by rewrite Hlk.
  - intros (ks & Hne & Hks & -> & Hlk). destruct (om_paths_complete root ks t Hlk) as (q & Hq & Ht).
    exists (ks, q). split; [done|]. unfold entry_of. cbn [fst snd]. by rewrite Ht.
Qed.

Lemma entries_NoDup : NoDup (map fst (entries root)).
Proof.
  unfold entries. pose proof root_paths_NoDup as Hnd. pose proof root_paths_ok as Hpo.
  induction (om_paths root) as [|[ks q] l IH]; [constructor|].
  cbn [map fst] in Hnd. apply NoDup_cons in Hnd as [Hks Hnd].
  assert (IH' := IH Hnd (fun ks q Hin => Hpo ks q (list_elem_of_further _ _ _ Hin))). clear IH.
  cbn [omap list_omap]. destruct (entry_of (ks, q)) as [[n t]|] eqn:Ee; [|done].
  cbn [map fst]. apply NoDup_cons. split; [|done].
  intros Hin. apply list_elem_of_In, in_map_iff in Hin as ([n' t'] & E & Hin). cbn in E. subst n'.
  apply list_elem_of_In, list_elem_of_omap in Hin as ([ks' q'] & Hin' & Ee').
  unfold entry_of in Ee, Ee'. cbn [fst snd] in *.
  destruct (node_text q) as [tq|] eqn:Etq; [|done]. destruct (node_text q') as [tq'|] eqn:Etq'; [|done].
  cbn in Ee, Ee'. simplify_eq.
  destruct (Hpo ks q) as (Hne1 & Hv1 & _); [by left|by intros ->|].
  destruct (Hpo ks' q') as (Hne2 & Hv2 & _); [by right|by intros ->|].
  assert (ks = ks') as <-; [|apply Hks; apply list_elem_of_In, in_map_iff; exists (ks, q'); split; [done|by apply list_elem_of_In]].
  rewrite <- (valid_split_join ks), <- (valid_split_join ks') by done. congruence.
Qed.

Lemma c_text_strlen t : 0 ∈ t -> strlen t = Some (zlen (c_text t)) /\ take (length (c_text t)) t = c_text t.
Proof.
  induction t as [|c t IH]; [by intros ?%elem_of_nil|]. cbn. destruct (Z.eqb_spec c 0) as [->|Hc]; [done|].
  intros [?|Hin]%elem_of_cons; [done|]. destruct (IH Hin) as [-> Ht]. cbn. split; [f_equal; lia|by rewrite Ht].
Qed.

Lemma print_paths :
  Forall2 (fun q l => print_node q = Some l) (preorder root)
    (map (fun e => match entry_of e with Some e => print_entry e | None => [] end) (om_paths root)).
Proof.
  rewrite paths_preorder. pose proof root_paths_ok as Hpo.
  induction (om_paths root) as [|[ks q] l IH]; [constructor|]. cbn [map snd]. constructor.
  2:{ apply IH. intros ks' q' Hin. apply Hpo. by right. }
  destruct (node_text q) as [t|] eqn:Et.
  - destruct (Hpo ks q) as (Hne & Hks & _ & src' & ln' & kk' & t' & v' & y & -> & Ht'); [by left|by intros ->|].
    cbn in Et. destruct t' as [t'|]; [|done]. cbn in Et. simplify_eq.
    unfold entry_of, print_node. cbn. cbn in Ht'. apply Forall_cons in Ht' as [Ht' _].
    assert (text (join_dots ks)) as Htx.
    { clear -Hks. induction Hks as [|k ks Hk _ IH]; [constructor|]. rewrite join_dots_cons.
      apply Forall_app. split; [eapply Forall_impl; [by apply valid_key_text|]; simpl; lia|].
      destruct ks; [constructor|]. by constructor. }
    rewrite strlen_text by done. destruct (c_text_strlen t' Ht') as [-> Hc]. cbn [mbind option_bind].
    rewrite !Nat2Z.id, take_app_length, Hc. done.
  - unfold entry_of. cbn [snd]. rewrite Et. cbn.
    destruct q as [|src' ln' fk' kk' t' v']; [|cbn in Et; by destruct t', fk'].
    destruct (Hpo ks NULL) as (_ & _ & _ & src' & ln' & kk' & t' & v' & y & [=] & _); [by left|done].
Qed.

Lemma concat_entries l :
  concat (map (fun e => match entry_of e with Some e => print_entry e | None => [] end) l)
  = concat (map print_entry (omap entry_of l)).
Proof.
  induction l as [|e l IH]; [done|]. cbn [map concat omap list_omap]. rewrite IH.
  by destruct (entry_of e).
Qed.

Lemma save_entries :
  fits 19 root ->
  save_loop (nodes root) (cf_om_iter_start root) [] = Some (concat (map print_entry (entries root))).
Proof.
  intros Hf. rewrite (save_preorder root _ Hf print_paths). by rewrite concat_entries.
Qed.
End entries.

(** A text that a line of the file can hold. *)
Definition printable (t : list Z) : Prop := text t /\ Forall (fun c => c <> 10) t /\ last t <> Some 13.

Lemma valid_name_chars n :
  valid_name n = true -> n <> [] /\ Forall (fun c => c = 46 \/ key_char c = true) n.
Proof.
  intros Hv%valid_name_split. rewrite <- (join_split n). revert Hv.
  generalize (split_ne n). generalize (split_fields 46 n). clear. intros ks Hne.
  assert (H : forall ks, Forall (fun k => valid_key k = true) ks ->
    (ks <> [] -> join_dots ks <> []) /\ Forall (fun c => c = 46 \/ key_char c = true) (join_dots ks)).
  { clear. induction 1 as [|k ks Hk _ [IH1 IH2]]; [by split; [|constructor]|]. rewrite join_dots_cons.
    apply valid_key_spec in Hk as [Hne Hk]. split; [by destruct k|].
    apply Forall_app. split; [eapply Forall_impl; [exact Hk|]; auto|].
    destruct ks; [constructor|]. constructor; [by left|done]. }
  intros Hv. split; by apply H.
Qed.

Lemma conf_line_entry m flags n t :
  valid_name n = true -> printable t -> m !! n = None ->
  conf_line (m, flags) (n ++ 61 :: t) = (<[n := t]> m, Z.land flags (Z.lnot CFEMPTY)).
Proof.
  intros Hn (Ht & _ & Hcr) Hm. destruct (valid_name_chars n Hn) as [Hne Hch]. unfold conf_line.
  assert (strip_cr (n ++ 61 :: t) = n ++ 61 :: t) as ->.
  { unfold strip_cr. rewrite bool_decide_eq_false_2; [done|]. rewrite last_app_cons.
    destruct t; [done|]. by rewrite last_cons_cons. }
  destruct n as [|c n]; [done|]. apply Forall_cons in Hch as [Hc Hch].
  assert (Hc' : c <> 35 /\ c <> 61 /\ isspace c = false).
  { destruct Hc as [->|Hc]; [done|]. apply key_char_no_dot in Hc. tauto. }
  rewrite bool_decide_eq_false_2 by (cbn; intros [= ->]; tauto).
  cbn [orb app forallb]. rewrite (proj2 (proj2 Hc')). cbn [andb].
  change (c :: n ++ 61 :: t) with ((c :: n) ++ 61 :: t).
  assert (Hno : Forall (fun z => z <> 61) (c :: n)).
  { constructor; [tauto|]. eapply Forall_impl; [exact Hch|]. intros z [->|Hz]; [done|].
    apply key_char_no_dot in Hz. tauto. }
  rewrite cut_find, find_char_app by done. rewrite length_app. cbn [length].
  rewrite (proj2 (Nat.eqb_neq _ _)) by lia. rewrite take_app_length' by done.
  rewrite Hn, Hm. rewrite drop_app, drop_ge by (simpl; lia).
  replace (S (S (length n)) - length (c :: n))%nat with 1%nat by (simpl; lia). cbn [app drop]. rewrite drop_0.
  do 2 f_equal. clear -Ht. induction Ht as [|z t Hz _ IH]; [done|]. cbn. by rewrite (proj2 (Z.eqb_neq z 0)), IH.
Qed.

(** What lines with different names mean. *)
Lemma fold_entries es : forall m flags,
  NoDup (map fst es) -> Forall (fun e => valid_name e.1 = true /\ printable e.2) es ->
  Forall (fun e => m !! e.1 = None) es ->
  exists m', foldl conf_line (m, flags) (map (fun e => e.1 ++ 61 :: e.2) es)
             = (m', match es with [] => flags | _ => Z.land flags (Z.lnot CFEMPTY) end) /\
    (forall n t, (n, t) ∈ es -> m' !! n = Some t) /\
    (forall n, n ∉ map fst es -> m' !! n = m !! n).
Proof.
  induction es as [|[n t] es IH]; intros m flags Hnd Hes Hm.
  { exists m. split; [done|]. split; [by intros ?? ?%elem_of_nil|done]. }
  cbn [map fst] in Hnd. apply NoDup_cons in Hnd as [Hn Hnd]. apply Forall_cons in Hes as [[Hv Hp] Hes].
  apply Forall_cons in Hm as [Hmn Hm]. cbn [fst snd] in *. cbn [map foldl fst snd].
  rewrite conf_line_entry by done.
  destruct (IH (<[n:=t]> m) (Z.land flags (Z.lnot CFEMPTY)) Hnd Hes) as (m' & -> & Hin & Hout).
  { apply Forall_forall. intros [n' t'] Hin. rewrite Forall_forall in Hm. cbn.
    rewrite lookup_insert_ne; [by apply (Hm (n', t'))|]. intros ->. apply Hn.
    apply list_elem_of_In, in_map_iff. exists (n', t'). split; [done|by apply list_elem_of_In]. }
  exists m'. split_and!.
  - f_equal. destruct es; [done|]. by rewrite <- Z.land_assoc, Z.land_diag.
  - intros n' t' [[= -> ->]|Hin']%elem_of_cons; [|by apply Hin].
    rewrite Hout by done. apply lookup_insert_eq.
  - intros n' [Hne Hn']%not_elem_of_cons. rewrite Hout by done. by apply lookup_insert_ne.
Qed.

Lemma conf_lines_entries es :
  Forall (fun e => valid_name e.1 = true /\ printable e.2) es ->
  conf_lines (concat (map print_entry es)) = map (fun e => e.1 ++ 61 :: e.2) es.
Proof.
  induction 1 as [|[n t] es [Hv Hp] _ IH]; [done|]. cbn [map concat fst snd] in *. unfold print_entry at 1. cbn [fst snd].
  rewrite <- app_assoc. cbn [app]. rewrite <- app_assoc. cbn [app].
  replace (n ++ 61 :: t ++ 10 :: concat (map print_entry es))
    with ((n ++ 61 :: t) ++ 10 :: concat (map print_entry es)) by (by rewrite <- app_assoc).
  rewrite conf_lines_cons; [by rewrite IH|].
  apply Forall_app. split.
  - eapply Forall_impl; [by apply valid_name_chars|]. intros z [->|Hz]; [done|]. apply key_char_no_dot in Hz. tauto.
  - constructor; [done|]. apply Hp.
Qed.

(** Every option of the map is one that a line can hold. *)
Definition all_printable (m : options) : Prop :=
  forall n t, valid_name n = true -> m !! n = Some t -> printable t.

Lemma represents_same root m m' :
  represents root m' -> (forall n, valid_name n = true -> m' !! n = m !! n) -> represents root m.
Proof.
  intros [Hok Hm] H. split; [done|]. intros ks Hne Hks. rewrite Hm by done. apply H.
  apply valid_name_split. by rewrite valid_split_join.
Qed.

(** The meaning of the saved file is the map the tree stands for. *)
Lemma saved_meaning root m :
  represents root m -> root <> NULL -> fits 19 root -> all_printable m ->
  exists out m', save_loop (nodes root) (cf_om_iter_start root) [] = Some out /\
    conf_meaning ∅ out = (m', match out with [] => CFEMPTY | _ => CFOK end) /\
    (forall n, valid_name n = true -> m' !! n = m !! n).
Proof.
  intros Hrep Hnn Hf Hp. pose proof Hrep as [Hok Hm]. destruct Hok as [|src ln k names v Hok]; [done|].
  set (root := Node src ln None k None v) in *. set (es := entries root).
  assert (Hin : forall n t, (n, t) ∈ es <-> valid_name n = true /\ m !! n = Some t).
  { intros n t. unfold es, root. rewrite (entries_in src ln k names v Hok). split.
    - intros (ks & Hne & Hks & -> & Hlk). rewrite <- Hm by done. split; [|done].
      apply valid_name_split. by rewrite valid_split_join.
    - intros [Hv Hl]. exists (split_fields 46 n). split_and!; [apply split_ne|by apply valid_name_split| |].
      + by rewrite join_split.
      + rewrite <- Hl. by apply (represents_name root). }
  assert (Hes : Forall (fun e => valid_name e.1 = true /\ printable e.2) es).
  { apply Forall_forall. intros [n t] [Hv Hl]%Hin. split; [done|]. by eapply Hp. }
  destruct (fold_entries es ∅ CFEMPTY) as (m' & Hfold & Hin' & Hout');
    [exact (entries_NoDup src ln k names v Hok)|done|by apply Forall_forall; intros; apply lookup_empty|].
  exists (concat (map print_entry es)), m'. split_and!.
  - by apply save_entries with (names := names).
  - unfold conf_meaning. rewrite conf_lines_entries by done. rewrite Hfold. f_equal.
    destruct es as [|[[|c n] t] es']; done.
  - intros n Hv. destruct (m !! n) as [t|] eqn:El; [by apply Hin', Hin|].
    rewrite Hout', lookup_empty; [done|]. intros H. apply list_elem_of_In, in_map_iff in H as ([n' t'] & E & H).
    cbn in E. subst n'. apply list_elem_of_In, Hin in H as [_ H]. congruence.
Qed.

Definition all_well (o : outcomes) : Prop :=
  stat_ok o = true /\ read_ok o = true /\ temp_ok o = true /\ open_ok o = true /\ close_ok o = true /\
  rename_ok o = true /\ now o <> -1.

(** [C16] A configuration that was saved is loaded again: if every text fits on a line and
    no option has more than nineteen keys, saving the tree of options and loading the file, when it is
    not too large, gives a tree with the same options and texts. *)
Theorem config_roundtrip {config} can_alloc path (s : @conf config) m o :
  (forall n, can_alloc n = true) -> represents (cf_om_root s) m -> cf_om_root s <> NULL ->
  fits 19 (cf_om_root s) -> all_printable m -> all_well o ->
  exists s1 out, cf_om_save o s = Some (s1, 0) /\ file s1 = Some (out, now o) /\
    (zlen out <= CONFIG_FILE_MAX_SIZE ->
     exists s2, cf_om_load can_alloc path o s1 = Some (s2, 1) /\ represents (cf_om_root s2) m).
Proof.
  intros Halloc Hrep Hnn Hf Hp (Hst & Hrd & Htmp & Hopen & Hclose & Hren & Hnow).
  destruct (saved_meaning _ _ Hrep Hnn Hf Hp) as (out & m' & Hsave & Hmean & Hm').
  unfold cf_om_save. destruct (cf_om_root s) as [|src ln fk kk t v] eqn:Er; [done|].
  rewrite Htmp, Hopen, Hsave. cbn [negb mbind option_bind]. rewrite Hclose, Hren. cbn [negb].
  unfold get_meta. rewrite Hst. cbn [negb set_file file].
  eexists _, out. split; [done|]. split; [done|]. intros Hsize.
  unfold cf_om_load, cf_om_reload, reload, get_meta. rewrite Hst.
  cbn [negb set_conffile set_file file conffile_meta].
  assert ((cmp_meta (mk_meta (now o) (zlen out)) FILE_META_UNKNOWN =? 0) = false) as ->.
  { unfold cmp_meta. cbn. zcases; lia. }
  cbn [mtime fsize]. rewrite (proj2 (Z.eqb_neq _ _) Hnow), (proj2 (Z.ltb_ge _ _)) by done.
  destruct (cf_om_parse_spec can_alloc Halloc path NULL ∅ out (allocs s) represents_empty)
    as (root' & k' & Hparse & Hrep').
  assert (Hbuf : (if zlen out <=? 0 then Some (Some []) else if read_ok o then Some (fst <$> Some (out, now o)) else None)
                 = Some (Some out)).
  { rewrite Hrd. destruct (Z.leb_spec (zlen out) 0); [|done]. destruct out; [done|simpl in *; lia]. }
  rewrite Hbuf. cbn [mbind option_bind allocs]. rewrite Hmean in Hparse, Hrep'. cbn [set_conffile set_file allocs]. rewrite Hparse. cbn [mbind option_bind fst snd] in *.
  assert (((match out with [] => CFEMPTY | _ => CFOK end) =? CFERROR) = false) as -> by (by destruct out).
  eexists. split; [done|]. cbn. by eapply represents_same.
Qed.

(** A tree with one option. *)
Definition one_option : cf_om_node :=
  Node None 0 None 0 None
    [Node None 0 (Some (bytes_of_string "log" ++ [0])) 0 None
       [Node None 0 (Some (bytes_of_string "log.file" ++ [0])) 4 (Some (bytes_of_string "x=1" ++ [0])) []]].

Lemma one_option_represents :
  represents one_option {[ bytes_of_string "log.file" := bytes_of_string "x=1" ]}.
Proof.
  destruct (cf_om_set_spec always (fun _ => eq_refl) NULL ∅ (bytes_of_string "log.file")
    (Some (bytes_of_string "x=1")) O represents_empty) as (root' & k' & E & Hrep);
    [repeat constructor; discriminate|repeat constructor; discriminate|].
  vm_compute in E. injection E as <- _. exact Hrep.
Qed.

Lemma one_option_printable :
  all_printable {[ bytes_of_string "log.file" := bytes_of_string "x=1" ]}.
Proof.
  intros n t _ [<- <-]%lookup_singleton_Some.
  split; [repeat constructor; discriminate|]. split; [repeat constructor; discriminate|discriminate].
Qed.

Lemma config_roundtrip_witness :
  exists s1 out,
    cf_om_save (mk_outcomes true true true true true true 7)
      (mk_conf one_option FILE_META_UNKNOWN false tt FILE_META_UNKNOWN None O) = Some (s1, 0) /\
    file s1 = Some (out, 7) /\
    (zlen out <= CONFIG_FILE_MAX_SIZE ->
     exists s2, cf_om_load always [] (mk_outcomes true true true true true true 7) s1 = Some (s2, 1) /\
       represents (cf_om_root s2) {[ bytes_of_string "log.file" := bytes_of_string "x=1" ]}).
Proof.
  apply (config_roundtrip always []
    (mk_conf one_option FILE_META_UNKNOWN false tt FILE_META_UNKNOWN None O) _
    (mk_outcomes true true true true true true 7)).
  - reflexivity.
  - exact one_option_represents.
  - discriminate.
  - repeat constructor.
  - exact one_option_printable.
  - repeat split; discriminate.
Defined.

(** ** Putting a configuration in force *)

Section force.
Context {config : Type} (zero : config) (cf_dfl_config_main : config -> config * Z).
Context (cf_opt_config_main : config -> cf_om_node -> config * Z) (can_alloc : nat -> bool) (path : list Z).

(** What the tree of options means for the schema, with its flags. *)
Definition schema_result (root : cf_om_node) : config * Z :=
  let c := (cf_dfl_config_main zero).1 in
  match root with NULL => (c, CFEMPTY) | _ => cf_opt_config_main c root end.

Lemma reload_config o (s : @conf config) result s' r f :
  reload can_alloc path o s result = Some (s', r, f) ->
  the_config s' = the_config s /\ cf_limbo s' = cf_limbo s /\ config_meta s' = config_meta s.
Proof.
  unfold reload. destruct (get_meta o s) as [meta|]; [|by intros [= <- _ _]].
  destruct (cmp_meta _ _ =? 0); [by intros [= <- _ _]|].
  match goal with |- context [match ?b with Some _ => _ | None => _ end] => destruct b as [buf|] end; [|by intros [= <- _ _]].
  destruct buf as [buf|]; [|done]. cbn [mbind option_bind].
  destruct (cf_om_parse _ _ _ _ _) as [[[root fl] k]|]; [|done]. cbn [mbind option_bind].
  destruct (fl =? CFERROR); by intros [= <- _ _].
Qed.

(** The text of the file, when it can be read; there is none in a file that does not exist. *)
Definition file_text (o : outcomes) (s : @conf config) : option (list Z) :=
  if negb (stat_ok o) then None
  else match file s with
  | None => Some []
  | Some (text, t) =>
      if CONFIG_FILE_MAX_SIZE <? zlen text then None
      else if zlen text <=? 0 then Some []
      else if read_ok o then Some text else None
  end.

(** The time -1 stands for a file that does not exist. *)
Definition timed (s : @conf config) : Prop := forall text t, file s = Some (text, t) -> t <> -1.

(** The options in the file, if every line of it is in order. *)
Definition file_tree (o : outcomes) (s : @conf config) : option cf_om_node :=
  text ← file_text o s;
  '(root, flags, _) ← cf_om_parse can_alloc path text NULL (allocs s);
  if is_fine flags then Some root else None.

(** The options to put in force: none when the version of the file is the one in force, those in
    memory when it is the one that was read last, and those in the file otherwise. *)
Definition new_tree (o : outcomes) (s : @conf config) : option cf_om_node :=
  m ← get_meta o s;
  if negb (cf_limbo s) && (cmp_meta m (config_meta s) =? 0) then None
  else if cmp_meta m (conffile_meta s) =? 0 then Some (cf_om_root s)
  else file_tree o s.

(** The configuration they give, if the schema has nothing against it. *)
Definition new_config (o : outcomes) (s : @conf config) : option config :=
  root ← new_tree o s;
  if (negb (cf_limbo s) || is_fine (cf_dfl_config_main (the_config s)).2) && is_fine (cf_dfl_config_main zero).2 &&
     is_fine (schema_result root).2
  then Some (schema_result root).1 else None.

(** The configuration that stays otherwise; before the first load it is filled with defaults. *)
Definition old_config (s : @conf config) : config :=
  if cf_limbo s then (cf_dfl_config_main (the_config s)).1 else the_config s.

Lemma cmp_meta_eq a b : cmp_meta a b = 0 -> a = b.
Proof.
  destruct a as [t n], b as [t' n']. unfold cmp_meta. cbn.
  repeat match goal with |- context [?x <? ?y] => destruct (Z.ltb_spec x y) end; try done. intros _. f_equal; lia.
Qed.

(** Reading the file: the flags are those of its lines. *)
Lemma reload_spec o (s : @conf config) result :
  (forall n, can_alloc n = true) -> timed s ->
  match get_meta o s with
  | None => reload can_alloc path o s result = Some (s, -1, result)
  | Some m =>
      if cmp_meta m (conffile_meta s) =? 0 then reload can_alloc path o s result = Some (s, 0, result)
      else match file_text o s with
      | None => reload can_alloc path o s result = Some (s, -1, result)
      | Some text => exists root flags k s',
          cf_om_parse can_alloc path text NULL (allocs s) = Some (root, flags, k) /\
          reload can_alloc path o s result = Some (s', if flags =? CFERROR then -1 else 1, flags) /\
          conffile_meta s' = m /\ (flags <> CFERROR -> cf_om_root s' = root)
      end
  end.
Proof.
  intros Halloc Ht. unfold reload. destruct (get_meta o s) as [m|] eqn:Em; [|done].
  destruct (cmp_meta _ _ =? 0); [done|].
  assert (Hgo : forall text, exists root flags k s',
    cf_om_parse can_alloc path text NULL (allocs s) = Some (root, flags, k) /\
    ('(root, r, k) ← cf_om_parse can_alloc path text NULL (allocs s);
     if r =? CFERROR then Some (set_root (set_conffile s m) (cf_om_root (set_conffile s m)) k, -1, r)
     else Some (set_root (set_conffile s m) root k, 1, r)) = Some (s', if flags =? CFERROR then -1 else 1, flags) /\
    conffile_meta s' = m /\ (flags <> CFERROR -> cf_om_root s' = root)).
  { intros text. destruct (cf_om_parse_spec can_alloc Halloc path NULL ∅ text (allocs s) represents_empty) as (root & k & -> & _).
    exists root, (conf_meaning ∅ text).2, k. cbn [mbind option_bind].
    destruct (Z.eqb_spec (conf_meaning ∅ text).2 CFERROR) as [E|Hne]; eexists; (split; [done|]); (split; [done|]); by split. }
  revert Em. unfold get_meta, file_text. destruct (negb (stat_ok o)); [done|].
  destruct (file s) as [[text t]|] eqn:Ef; intros [= <-]; cbn [mtime fsize]; [|exact (Hgo [])].
  rewrite (proj2 (Z.eqb_neq _ _) (Ht _ _ Ef)). destruct (CONFIG_FILE_MAX_SIZE <? zlen text); [done|].
  destruct (zlen text <=? 0); [exact (Hgo [])|]. destruct (read_ok o); [exact (Hgo text)|done].
Qed.

Lemma put_in_force_exact (s : @conf config) result :
  is_fine result = true ->
  exists s' r, put_in_force zero cf_dfl_config_main cf_opt_config_main s result true = (s', r) /\
    if is_fine (cf_dfl_config_main zero).2 && is_fine (schema_result (cf_om_root s)).2
    then r = CFOK /\ the_config s' = (schema_result (cf_om_root s)).1
    else r <> CFOK /\ the_config s' = the_config s.
Proof.
  intros Hf. unfold put_in_force, schema_result. rewrite Hf. destruct (cf_dfl_config_main zero) as [c0 r0]. cbn [fst snd].
  destruct (is_fine r0) eqn:E1; cbn [andb]; [|eexists _, _; split; [done|]; by split; [intros ->|]].
  destruct (cf_om_root s) as [|src ln fk kk t v]; [by eexists _, _|].
  destruct (cf_opt_config_main c0 _) as [c1 r1]. cbn [fst snd]. destruct (is_fine r1) eqn:E2; [by eexists _, _|].
  rewrite andb_false_r. eexists _, _. split; [done|]. by split; [intros ->|].
Qed.

(** How a strict load ends. *)
Definition strict_ends (o : outcomes) (s : @conf config) (s' : @conf config) (r : Z) : Prop :=
  match new_config o s with
  | Some c => r = 1 /\ the_config s' = c
  | None => r <> 1 /\ the_config s' = old_config s
  end.

Lemma finish_strict (s : @conf config) result : finish s result false true = (set_limbo s false, if result =? CFOK then 1 else -1).
Proof. done. Qed.

(** A load once the file was read, or found to be the version that is in memory. *)
Lemma loaded_strict (s : @conf config) result :
  exists s' r, finish (put_in_force zero cf_dfl_config_main cf_opt_config_main (set_config_meta s (conffile_meta s)) result true).1
      (put_in_force zero cf_dfl_config_main cf_opt_config_main (set_config_meta s (conffile_meta s)) result true).2 false true = (s', r) /\
    if is_fine result && (is_fine (cf_dfl_config_main zero).2 && is_fine (schema_result (cf_om_root s)).2)
    then r = 1 /\ the_config s' = (schema_result (cf_om_root s)).1
    else r <> 1 /\ the_config s' = the_config s.
Proof.
  destruct (is_fine result) eqn:Ef; cbn [andb].
  - destruct (put_in_force_exact (set_config_meta s (conffile_meta s)) result Ef) as (s' & r & -> & H).
    cbn [fst snd]. rewrite finish_strict. eexists _, _. split; [done|]. cbn [cf_om_root set_config_meta] in H.
    destruct (_ && _); destruct H as [Hr Hc]; [by subst|]. by rewrite (proj2 (Z.eqb_neq _ _) Hr).
  - unfold put_in_force. rewrite Ef. cbn [fst snd]. rewrite finish_strict. eexists _, _. split; [done|].
    destruct (Z.eqb_spec result CFOK) as [->|_]; done.
Qed.

Lemma strict_load_spec o (s : @conf config) :
  (forall n, can_alloc n = true) -> timed s ->
  exists s' r, reload_and_parse zero cf_dfl_config_main cf_opt_config_main can_alloc path o false true s = Some (s', r) /\
    strict_ends o s s' r.
Proof.
  intros Halloc Hti. unfold reload_and_parse.
  set (s0 := if cf_limbo s then _ else _).
  assert (Hs0 : exists s1 r1, s0 = (s1, r1) /\ the_config s1 = old_config s /\ cf_limbo s1 = cf_limbo s /\
    is_fine r1 = (negb (cf_limbo s) || is_fine (cf_dfl_config_main (the_config s)).2) /\
    get_meta o s1 = get_meta o s /\ file_text o s1 = file_text o s /\ conffile_meta s1 = conffile_meta s /\
    config_meta s1 = config_meta s /\ cf_om_root s1 = cf_om_root s /\ allocs s1 = allocs s /\ timed s1).
  { unfold s0, old_config. destruct (cf_limbo s) eqn:El; [destruct (cf_dfl_config_main (the_config s)) as [c r]|]; by eexists _, _. }
  clearbody s0. destruct Hs0 as (s1 & r1 & -> & Hc & Hl & Hr & Hm & Ht & Hcm & Hgm & Hroot & Ha & Hti1).
  unfold strict_ends, new_config, new_tree. rewrite <-Hm, <-Hr, <-Hl.
  destruct (is_fine r1) eqn:Ef.
  2:{ eexists _, _. split; [done|].
      assert (Hn : forall x : option cf_om_node, (root ← x; if false && is_fine (cf_dfl_config_main zero).2 && is_fine (schema_result root).2
        then Some (schema_result root).1 else None) = None) by (by intros []).
      rewrite Hn. cbn. rewrite Hc. destruct (Z.eqb_spec r1 CFOK) as [->|_]; done. }
  pose proof (reload_spec o s1 r1 Halloc Hti1) as Hre. destruct (get_meta o s1) as [m|] eqn:Em.
  2:{ rewrite Hre. cbn [mbind option_bind Z.eqb]. eexists _, _. split; [done|]. cbn. by rewrite Hc. }
  cbn [mbind option_bind]. rewrite <-Hcm, <-Hgm, <-Hroot. destruct (cmp_meta m (conffile_meta s1) =? 0) eqn:Ec.
  - rewrite Hre. cbn [mbind option_bind Z.eqb]. zify_bool. apply cmp_meta_eq in Ec. rewrite <-Ec.
    destruct (negb (cf_limbo s1) && _); [by eexists _, _|].
    destruct (loaded_strict s1 r1) as (s' & r & E & H). rewrite Ec.
    destruct (put_in_force _ _ _ _ _ _) as [s2 r2]. cbn [fst snd] in E. rewrite E. eexists _, _. split; [done|].
    rewrite Ef in H. cbn [mbind option_bind andb] in H |- *. rewrite <-Hc. by destruct (_ && _).
  - unfold file_tree. rewrite <-Ht. destruct (file_text o s1) as [text|].
    2:{ rewrite Hre. cbn [mbind option_bind Z.eqb]. eexists _, _. split; [done|]. destruct (negb _ && _); cbn; by rewrite Hc. }
    destruct Hre as (root & flags & k & s2 & Ep & Hre & Hm2 & Hroot2). rewrite Hre.
    pose proof (reload_config _ _ _ _ _ _ Hre) as (Hc2 & Hl2 & Hg2). cbn [mbind option_bind]. rewrite <-Ha, Ep. cbn [mbind option_bind].
    destruct (Z.eqb_spec flags CFERROR) as [->|Hne].
    { eexists _, _. split; [done|]. destruct (negb _ && _); cbn; by rewrite Hc2, Hc. }
    cbn [Z.eqb]. rewrite Hl2, Hg2, Hm2. destruct (negb (cf_limbo s1) && _); [eexists _, _; split; [done|]; cbn; by rewrite Hc2, Hc|].
    destruct (loaded_strict s2 flags) as (s' & r & E & H). rewrite Hm2 in E.
    destruct (put_in_force _ _ _ _ _ _) as [s3 r3]. cbn [fst snd] in E. rewrite E. eexists _, _. split; [done|].
    rewrite Hroot2, Hc2, Hc in H by done. destruct (is_fine flags); cbn [mbind option_bind andb] in H |- *; [|done].
    by destruct (_ && _).
Qed.

(** [C17] Loading in strict mode is all or nothing, and exact.  The result is 1, and the
    configuration in force the one that the schema makes of the options, when the file is not
    the version in force already, it can be read, every line of it is in order and the schema
    has nothing against them; otherwise the result is another and the configuration stays as it
    was (before the first load: the defaults).  The options are those that the lines of the file
    say, except that a version which was read before is not read again: then the options in
    memory count.  Memory for the tree does not run out, the time of the file is not -1, which
    stands for no file, and the schema is arbitrary. *)
Theorem strict_all_or_nothing o (s : @conf config) :
  (forall n, can_alloc n = true) -> timed s ->
  (exists s' r, cf_reload_strict zero cf_dfl_config_main cf_opt_config_main can_alloc path o s = Some (s', r) /\
     strict_ends o s s' r) /\
  (exists s' r, cf_load_strict zero cf_dfl_config_main cf_opt_config_main can_alloc path o s = Some (s', r) /\
     strict_ends o (forget_meta s) s' r /\ new_tree o (forget_meta s) = file_tree o s) /\
  (forall root, file_tree o s = Some root -> exists text, file_text o s = Some text /\
     represents root (conf_meaning ∅ text).1 /\ is_fine (conf_meaning ∅ text).2 = true).
Proof.
  intros Halloc Hti. split_and!.
  - by apply strict_load_spec.
  - destruct (strict_load_spec o (forget_meta s) Halloc Hti) as (s' & r & E & H). exists s', r. split_and!; [done..|].
    assert (Hm : forall m, get_meta o s = Some m -> cmp_meta m FILE_META_UNKNOWN <> 0).
    { unfold get_meta. destruct (negb _); [done|]. destruct (file s) as [[text t]|]; intros m [= <-] E'%cmp_meta_eq; by injection E'; lia. }
    unfold new_tree, file_tree. change (get_meta o (forget_meta s)) with (get_meta o s). change (file_text o (forget_meta s)) with (file_text o s).
    destruct (get_meta o s) as [m|] eqn:Em; cbn [mbind option_bind].
    + cbn. rewrite !(proj2 (Z.eqb_neq _ 0) (Hm m eq_refl)), andb_false_r. done.
    + unfold get_meta in Em. unfold file_text. by destruct (negb _).
  - intros root. unfold file_tree. destruct (file_text o s) as [text|]; [|done]. cbn [mbind option_bind].
    destruct (cf_om_parse_spec can_alloc Halloc path NULL ∅ text (allocs s) represents_empty) as (root' & k & -> & Hrep).
    cbn [mbind option_bind]. destruct (is_fine _) eqn:Ef; [|done]. intros [= <-]. by exists text.
Qed.

(** A malformed or repeated line keeps the whole file out of force, also when loading is
    not strict: the configuration stays as it was, although the result and the message are
    those of a file that was loaded despite defects. *)
Theorem defective_file_not_loaded o permissive (s s1 : @conf config) flags :
  cf_limbo s = false -> reload can_alloc path o s 0 = Some (s1, 1, flags) -> is_fine flags = false ->
  cmp_meta (conffile_meta s1) (config_meta s1) <> 0 ->
  exists s', reload_and_parse zero cf_dfl_config_main cf_opt_config_main can_alloc path o permissive false s
             = Some (s', if permissive then 1 else -1) /\
    the_config s' = the_config s /\ cf_om_root s' = cf_om_root s1.
Proof.
  intros Hlimbo Hre Hflags Hmeta. pose proof (reload_config _ _ _ _ _ _ Hre) as (Hc1 & Hl1 & _).
  unfold reload_and_parse. rewrite Hlimbo. cbn [is_fine CFOK Z.eqb orb]. change CFOK with 0. rewrite Hre.
  cbn [mbind option_bind Z.eqb]. rewrite (proj2 (Z.eqb_neq _ 0) Hmeta), andb_false_r.
  unfold put_in_force. rewrite Hflags. unfold finish.
  assert ((flags =? CFOK) = false) as -> by (unfold is_fine in Hflags; by apply orb_false_iff in Hflags as [? _]).
  eexists. split; [by destruct permissive|]. cbn. by rewrite Hc1.
Qed.
End force.

(** A schema of one number, the option count of the root. *)
Definition demo_dfl (c : Z) : Z * Z := (5, CFOK).
Definition demo_opt (c : Z) (root : cf_om_node) : Z * Z := (zlen (children root), CFOK).
Definition demo_state (contents : list Z) : @conf Z :=
  mk_conf NULL FILE_META_UNKNOWN false 3 FILE_META_UNKNOWN (Some (contents, 7)) O.
Definition demo_well : outcomes := mk_outcomes true true true true true true 7.

Lemma strict_all_or_nothing_witness :
  exists s' r,
    cf_reload_strict 0 demo_dfl demo_opt always [] demo_well (demo_state (bytes_of_string "a=1")) = Some (s', r) /\
    r = 1 /\ the_config s' = 1.
Proof.
  destruct (strict_all_or_nothing 0 demo_dfl demo_opt always [] demo_well (demo_state (bytes_of_string "a=1"))
    (fun _ => eq_refl)) as [H _].
  - intros text t [= _ <-]. discriminate.
  - exact H.
Defined.

Lemma defective_file_not_loaded_witness :
  exists s', reload_and_parse 0 demo_dfl demo_opt always [] demo_well true false
               (demo_state (bytes_of_string "a=1" ++ 10 :: bytes_of_string "oops")) = Some (s', 1) /\
    the_config s' = 3 /\
    cf_om_root s' = Node None 0 None 0 None
      [Node (Some []) 1 (Some (bytes_of_string "a" ++ [0])) 0 (Some (bytes_of_string "1" ++ [0])) []].
Proof.
  refine (defective_file_not_loaded 0 demo_dfl demo_opt always [] demo_well true
    (demo_state (bytes_of_string "a=1" ++ 10 :: bytes_of_string "oops"))
    (mk_conf (Node None 0 None 0 None
      [Node (Some []) 1 (Some (bytes_of_string "a" ++ [0])) 0 (Some (bytes_of_string "1" ++ [0])) []])
      (mk_meta 7 8) false 3 FILE_META_UNKNOWN (Some (bytes_of_string "a=1" ++ 10 :: bytes_of_string "oops", 7)) 4)
    CFINVALID _ _ _ _).
  - reflexivity.
  - vm_compute. reflexivity.
  - reflexivity.
  - discriminate.
Defined.

(** ** Removing children *)

Lemma shift_down_nodv_spec : forall (k : nat) (n : nat) v,
  (n + k < length v)%nat ->
  exists x, shift_down_nodv k (Z.of_nat n) v
            = Some (take n v ++ take k (drop (S n) v) ++ x :: drop (S (n + k)) v).
Proof.
  induction k as [|k IH]; intros n v Hn; cbn [shift_down_nodv].
  - destruct (lookup_lt_is_Some_2 v n) as [x Hx]; [lia|]. exists x.
    rewrite Nat.add_0_r. cbn [take app]. rewrite <- (drop_S v x n) by done. change (take 0 (drop (S n) v)) with (@nil cf_om_node). by rewrite app_nil_l, take_drop.
  - destruct (lookup_lt_is_Some_2 v (S n)) as [x Hx]; [lia|].
    unfold zget. zdecide. replace (Z.to_nat (Z.of_nat n + 1)) with (S n) by lia. rewrite Hx. cbn [mbind option_bind].
    rewrite zset_Some by lia. cbn [mbind option_bind]. rewrite Nat2Z.id.
    replace (Z.of_nat n + 1) with (Z.of_nat (S n)) by lia.
    destruct (IH (S n) (<[n:=x]> v)) as [y ->]; [rewrite length_insert; lia|]. exists y.
    rewrite (take_S_r _ _ x) by (apply list_lookup_insert_eq; lia).
    rewrite take_insert_ge, !drop_insert_lt by lia. rewrite (drop_S v x (S n)) by done.
    cbn [take]. rewrite <- app_assoc. cbn [app]. by replace (S n + k)%nat with (n + S k)%nat by lia.
Qed.

(** Removing a child removes exactly that child and keeps the order of the others. *)
Lemma cf_om_remove_child_spec src ln fk kk t v n :
  (n < length v)%nat ->
  cf_om_remove_child (Node src ln fk kk t v) n = Some (Node src ln fk kk t (take n v ++ drop (S n) v)).
Proof.
  intros Hn. unfold cf_om_remove_child. cbn [nodv mbind option_bind].
  rewrite (proj2 (Nat.ltb_lt _ _) Hn). cbn [negb]. rewrite zset_Some by lia. cbn [mbind option_bind].
  rewrite Nat2Z.id, length_insert.
  destruct (shift_down_nodv_spec (length v - 1 - n) n (<[n:=NULL]> v)) as [x ->]; [rewrite length_insert; lia|].
  cbn [mbind option_bind set_nodv]. rewrite take_insert_ge, drop_insert_lt by lia.
  rewrite (take_ge (drop (S n) v)) by (rewrite length_drop; lia). rewrite app_assoc, take_app_length'; [done|].
  rewrite length_app, length_take, length_drop. lia.
Qed.

(** ** Where the configuration falls short *)

(** An option of [n] keys, each of one letter. *)
Definition deep_name (n : nat) : list Z := join_dots (replicate n (bytes_of_string "a")).
Definition deep_root (n : nat) : cf_om_node :=
  match cf_om_set always NULL (c_string (deep_name n)) (Some (c_string (bytes_of_string "1"))) O with
  | Some ((root, _), _) => root
  | None => NULL
  end.

(** An option whose name has twenty keys overruns the stack of the iterator when the configuration is
    saved: the test of the depth is made before the stack grows, and lets one entry too many through;
    with nineteen keys the file is written. *)
Theorem deep_option_overflow {config} (s : @conf config) o :
  temp_ok o = true -> open_ok o = true ->
  (cf_om_root s = deep_root 20 -> cf_om_save o s = None) /\
  (cf_om_root s = deep_root 19 -> cf_om_save o s <> None).
Proof.
  intros Ht Ho. unfold cf_om_save. split; intros ->.
  - assert (E : save_loop (nodes (deep_root 20)) (cf_om_iter_start (deep_root 20)) [] = None) by (by vm_compute).
    destruct (deep_root 20) eqn:Er; [by vm_compute in Er|]. rewrite <- Er in *. rewrite Ht, Ho, E. done.
  - assert (E : save_loop (nodes (deep_root 19)) (cf_om_iter_start (deep_root 19)) []
                = Some (deep_name 19 ++ bytes_of_string "=1" ++ [10])) by (by vm_compute).
    destruct (deep_root 19) eqn:Er; [by vm_compute in Er|]. rewrite <- Er in *. rewrite Ht, Ho, E. cbn.
    destruct (close_ok o); [|done]. destruct (rename_ok o); [|done]. cbn.
    unfold get_meta. by destruct (stat_ok o).
Qed.

Lemma deep_option_overflow_witness :
  cf_om_save demo_well (mk_conf (deep_root 20) FILE_META_UNKNOWN false 0 FILE_META_UNKNOWN None O) = None.
Proof.
  apply (deep_option_overflow (mk_conf (deep_root 20) FILE_META_UNKNOWN false 0 FILE_META_UNKNOWN None O) demo_well
    eq_refl eq_refl). reflexivity.
Defined.

(** A text with a newline becomes two options when the file is loaded. *)
Lemma newline_makes_option :
  let s := mk_conf (match cf_om_set always NULL (c_string (bytes_of_string "a"))
                            (Some (bytes_of_string "x" ++ 10 :: bytes_of_string "b=y" ++ [0])) O with
                    | Some ((root, _), _) => root | None => NULL end)
             FILE_META_UNKNOWN false tt FILE_META_UNKNOWN None O in
  exists s1 s2, cf_om_save demo_well s = Some (s1, 0) /\ cf_om_load always [] demo_well s1 = Some (s2, 1) /\
    cf_om_get (cf_om_root s) (c_string (bytes_of_string "b")) = Some None /\
    cf_om_get (cf_om_root s2) (c_string (bytes_of_string "b")) = Some (Some (c_string (bytes_of_string "y"))).
Proof. eexists _, _. split; [vm_compute; reflexivity|]. by split; [vm_compute; reflexivity|]. Qed.

(** Names whose keys begin with a digit are accepted. *)
Lemma digit_names_accepted :
  is_configvarname (c_string (bytes_of_string "1foo")) = Some true /\
  is_configvarname (c_string (bytes_of_string "12")) = Some true /\
  is_configvarname (c_string (bytes_of_string "1.2.3")) = Some true /\
  is_configvarname (c_string (bytes_of_string "foo.")) = Some false.
Proof. repeat split. Qed.

(** cf_om_add_child counts a dot that a child of the root does not have: with a child that was made
    from a name it reads past the end of the key. *)
Lemma add_child_reads_past :
  cf_om_add_child always 0 (Node None 0 None 0 None
    [Node None 0 (Some (c_string (bytes_of_string "log"))) 0 None []]) (c_string (bytes_of_string "log")) O = None.
Proof. reflexivity. Qed.

(** A pattern that ends in a dot is not well formed, and still matches. *)
Lemma trailing_dot_matches :
  is_configvarpattern (c_string (bytes_of_string "log.")) = Some false /\
  cf_om_match (c_string (bytes_of_string "log."))
    (Node None 0 (Some (c_string (bytes_of_string "log"))) 0 None []) = Some 1.
Proof. done. Qed.
