(* ===== verification/Strbuf.v ===== *)
(** Strbuf: strbuf.c and strbuf.h, assembling text in a buffer of fixed size.

    Pointers into the backing buffer are offsets from its start.  Without a buffer ([sb_start] is
    false) they are addresses from NULL on, so that [end] is NULL exactly when its address is
    zero, and an address below NULL is a large one.  The text that a format of printf makes is an
    argument, [None] when printf fails, which then has written nothing. *)

From S2P Require Import Prelude Str Strlcpy.

(** [struct strbuf] with the memory of the backing buffer. *)
Record strbuf := mk_sb {
  sb_start : bool;
  sb_mem : list Z;
  sb_end : option Z;
  sb_current : Z
}.

Definition set_mem (sb : strbuf) (m : list Z) : strbuf := mk_sb (sb_start sb) m (sb_end sb) (sb_current sb).
Definition set_current (sb : strbuf) (c : Z) : strbuf := mk_sb (sb_start sb) (sb_mem sb) (sb_end sb) c.

(** Write a character at an offset of the backing buffer. *)
Definition poke (sb : strbuf) (i c : Z) : option strbuf := m ← zset (sb_mem sb) i c; Some (set_mem sb m).

Definition strbuf_reset (sb : strbuf) : option strbuf :=
  let sb := set_current sb 0 in
  if sb_start sb then poke sb 0 0 else Some sb.

(** [buffer] is [None] for NULL. *)
Definition strbuf_init (buffer : option (list Z)) (size : Z) : option strbuf :=
  let e := if 0 <=? size
           then match buffer with
                | Some _ => Some (size - 1)
                | None => if size =? 1 then None else Some (u64 (size - 1))
                end
           else None in
  strbuf_reset (mk_sb (bool_decide (buffer <> None)) (default [] buffer) e 0).

(** [sb->start && (!sb->end || sb->current < sb->end)]. *)
Definition has_room (sb : strbuf) : bool :=
  sb_start sb && match sb_end sb with None => true | Some e => sb_current sb <? e end.

(** [for (; n && ( *c = *text); --n, ++c, ++text)]: the memory and where [c] stops. *)
Fixpoint ncat_loop (n : nat) (m : list Z) (c : Z) (text : list Z) : option (list Z * Z) :=
  match n with
  | O => Some (m, c)
  | S n =>
      match text with
      | [] => None
      | x :: text => m ← zset m c x; if x =? 0 then Some (m, c) else ncat_loop n m (c + 1) text
      end
  end.

Definition strbuf_ncat (sb : strbuf) (text : list Z) (len : nat) : option strbuf :=
  sb ← (if has_room sb then
          let n := match sb_end sb with Some e => Nat.min (Z.to_nat (e - sb_current sb)) len | None => len end in
          '(m, c) ← ncat_loop n (sb_mem sb) (sb_current sb) text;
          m ← zset m c 0;
          Some (set_mem sb m)
        else Some sb);
  Some (set_current sb (sb_current sb + Z.of_nat len)).

(** The loops of strbuf_puts; [n] is the limit, if there is one. *)
Fixpoint puts_loop (text : list Z) (n : option nat) (m : list Z) (c : Z) : option (list Z * Z * list Z) :=
  match n with
  | Some O => Some (m, c, text)
  | _ =>
      match text with
      | [] => None
      | x :: t =>
          m ← zset m c x;
          if x =? 0 then Some (m, c, text) else puts_loop t (Nat.pred <$> n) m (c + 1)
      end
  end.

Definition strbuf_puts (sb : strbuf) (text : list Z) : option strbuf :=
  '(sb, text) ← (if has_room sb then
      match sb_end sb with
      | None => '(m, c, t) ← puts_loop text None (sb_mem sb) (sb_current sb);
                Some (set_current (set_mem sb m) c, t)
      | Some e => '(m, c, t) ← puts_loop text (Some (Z.to_nat (e - sb_current sb))) (sb_mem sb) (sb_current sb);
                  m ← zset m c 0;
                  Some (set_current (set_mem sb m) c, t)
      end
    else Some (sb, text));
  n ← strlen text;
  Some (set_current sb (sb_current sb + n)).

Fixpoint tohex_loop (fuel : nat) (m : list Z) (p e : Z) (data : list Z) : option (list Z) :=
  if p <? e then
    match fuel, data with
    | S fuel, d :: data =>
        m ← zset m p (hexdig (Z.shiftr d 4));
        m ← zset m (p + 1) (hexdig (Z.land d 15));
        tohex_loop fuel m (p + 2) e data
    | _, _ => None
    end
  else Some m.

Definition strbuf_tohex (sb : strbuf) (data : list Z) (len : nat) : option strbuf :=
  let p := sb_current sb in
  let sb := set_current sb (p + 2 * Z.of_nat len) in
  if sb_start sb then
    let e := match sb_end sb with
             | Some e => if e <? sb_current sb then e else sb_current sb
             | None => sb_current sb
             end in
    m ← tohex_loop len (sb_mem sb) p e data;
    m ← zset m e 0;
    Some (set_mem sb m)
  else Some sb.

Definition strbuf_putc (sb : strbuf) (ch : Z) : option strbuf :=
  sb ← (if has_room sb then sb ← poke sb (sb_current sb) ch; poke sb (sb_current sb + 1) 0 else Some sb);
  Some (set_current sb (sb_current sb + 1)).

(** [out] is the text of the format; the result of printf is its length, or -1. *)
Definition strbuf_vsprintf (sb : strbuf) (out : option (list Z)) : option (strbuf * Z) :=
  match out with
  | None => Some (sb, -1)
  | Some out =>
      n ← ci (zlen out);
      sb ← (match sb_start sb, sb_end sb with
            | true, None => m ← zblit (sb_mem sb) (sb_current sb) (out ++ [0]); Some (set_mem sb m)
            | true, Some e =>
                if sb_current sb <? e then
                  let space := i32 (e - sb_current sb + 1) in
                  sb ← (if 0 <? space then
                          m ← zblit (sb_mem sb) (sb_current sb) (take (Z.to_nat (space - 1)) out ++ [0]);
                          Some (set_mem sb m)
                        else if space =? 0 then Some sb else None);
                  if space <=? n then poke sb e 0 else Some sb
                else Some sb
            | false, _ => Some sb
            end);
      Some (set_current sb (sb_current sb + n), n)
  end.

Definition strbuf_end (sb : strbuf) : Z :=
  match sb_end sb with Some e => if e <? sb_current sb then e else sb_current sb | None => sb_current sb end.

(** [None] for NULL. *)
Definition strbuf_substr (sb : strbuf) (offset : Z) : option Z :=
  if negb (sb_start sb) then None
  else if offset <? 0 then
    let s := strbuf_end sb + offset in Some (if s <? 0 then 0 else s)
  else Some (match sb_end sb with Some e => if e <? offset then e else offset | None => offset end).

Definition strbuf_trunc (sb : strbuf) (offset : Z) : option strbuf :=
  let sb := if offset <? 0 then
              let e := strbuf_end sb in
              set_current sb (if offset <=? - e then 0 else e + offset)
            else if offset <? sb_current sb then set_current sb offset else sb in
  if has_room sb then poke sb (sb_current sb) 0 else Some sb.

Definition strbuf_is_empty (sb : strbuf) : bool :=
  negb (sb_start sb) && bool_decide (sb_end sb = None) && (sb_current sb =? 0).
Definition strbuf_size (sb : strbuf) : Z := match sb_end sb with Some e => i64 (e + 1) | None => -1 end.
Definition strbuf_len (sb : strbuf) : Z := strbuf_end sb.
Definition strbuf_remaining (sb : strbuf) : Z :=
  match sb_end sb with Some e => u64 (e - strbuf_end sb) | None => 2 ^ 64 - 1 end.
Definition strbuf_count (sb : strbuf) : Z := sb_current sb.
Definition strbuf_overrun (sb : strbuf) : bool :=
  match sb_end sb with Some e => e <? sb_current sb | None => false end.

(** ** The text that is assembled *)

(** A strbuf of size [n] into which the text [s] was appended: the buffer has as much of it
    as there is room for, and its NUL. *)
Definition holds (n : nat) (sb : strbuf) (s : list Z) : Prop :=
  sb_start sb = true /\ sb_end sb = Some (Z.of_nat n - 1) /\ sb_current sb = zlen s /\ text s /\
  (1 <= n <= length (sb_mem sb))%nat /\
  sb_mem sb = take (n - 1) s ++ 0 :: drop (S (length (take (n - 1) s))) (sb_mem sb).

(** What appending [t] to [s] makes of the memory. *)
Definition appended (n : nat) (s t m : list Z) : list Z :=
  take (n - 1) (s ++ t) ++ 0 :: drop (S (length (take (n - 1) (s ++ t)))) m.

Lemma holds_appended n sb s t m c :
  holds n sb s -> text t -> m = appended n s t (sb_mem sb) -> c = zlen (s ++ t) ->
  holds n (mk_sb (sb_start sb) m (sb_end sb) c) (s ++ t) /\ drop n m = drop n (sb_mem sb).
Proof.
  intros (Hst & He & Hc & Hs & Hn & Hm) Ht -> ->. unfold appended, holds. cbn [sb_start sb_end sb_mem sb_current].
  set (w := take (n - 1) (s ++ t)). assert (Hw : (length w <= n - 1)%nat) by (subst w; rewrite length_take; lia).
  assert (Hdrop : drop (S (length w)) (w ++ 0 :: drop (S (length w)) (sb_mem sb)) = drop (S (length w)) (sb_mem sb)).
  { rewrite drop_app, drop_ge by lia. cbn [app]. by replace (S (length w) - length w)%nat with 1%nat by lia. }
  split.
  - split_and!; try done.
    + by apply Forall_app.
    + lia.
    + rewrite length_app. simpl. rewrite length_drop. lia.
    + by rewrite Hdrop.
  - assert (Hd : forall x : list Z, drop n x = drop (n - S (length w)) (drop (S (length w)) x)).
    { intros x. rewrite drop_drop. f_equal. lia. }
    by rewrite !Hd, Hdrop.
Qed.

(** Nothing is appended when there is no room. *)
Lemma appended_full n sb s t :
  holds n sb s -> (n - 1 <= length s)%nat -> appended n s t (sb_mem sb) = sb_mem sb.
Proof.
  intros (_ & _ & _ & _ & _ & Hm) Hl. unfold appended. rewrite take_app_le by done. by rewrite <- Hm.
Qed.

(** With room the text is whole in memory. *)
Lemma holds_room n sb s :
  holds n sb s -> (length s < n - 1)%nat -> sb_mem sb = s ++ 0 :: drop (S (length s)) (sb_mem sb).
Proof. intros (_ & _ & _ & _ & _ & Hm) Hl. rewrite Hm at 1. by rewrite (take_ge s) by lia. Qed.

Lemma has_room_spec n sb s : holds n sb s -> has_room sb = (length s <? n - 1)%nat.
Proof.
  intros (Hst & He & Hc & _ & Hn & _). unfold has_room. rewrite Hst, He, Hc. cbn [andb].
  destruct (Nat.ltb_spec (length s) (n - 1)), (Z.ltb_spec (zlen s) (Z.of_nat n - 1)); try done; lia.
Qed.

(** ** Appending *)

(** What a write past the text leaves behind it. *)
Lemma zset_end (w r : list Z) x y : zset (w ++ y :: r) (zlen w) x = Some (w ++ x :: r).
Proof.
  rewrite zset_Some by (rewrite length_app; simpl; lia).
  rewrite Nat2Z.id, insert_app_r_alt, Nat.sub_diag by lia. done.
Qed.

Lemma drop_cons_lt (m : list Z) i : (i < length m)%nat -> exists y, drop i m = y :: drop (S i) m.
Proof.
  intros Hi. destruct (lookup_lt_is_Some_2 m i Hi) as [y Hy]. exists y. by apply drop_S.
Qed.

(** The state of a copying loop that has written [w]: the memory, up to [w], and behind it the
    old contents. *)
Definition after (w m : list Z) : list Z := w ++ drop (length w) m.

Lemma zset_after w m x :
  (length w < length m)%nat -> zset (after w m) (zlen w) x = Some (after (w ++ [x]) m).
Proof.
  intros Hl. unfold after. destruct (drop_cons_lt m (length w) Hl) as [y ->]. rewrite zset_end.
  rewrite length_app. simpl. rewrite Nat.add_1_r, <- app_assoc. done.
Qed.

Lemma after_start n sb s :
  holds n sb s -> (length s < n - 1)%nat -> sb_mem sb = after s (sb_mem sb).
Proof.
  intros H Hl. pose proof (holds_room n sb s H Hl) as Hm. unfold after.
  rewrite Hm at 1. f_equal. rewrite Hm at 2. by rewrite drop_app_length.
Qed.

Lemma after_appended n s t m k :
  (length s < n - 1)%nat -> k = Nat.min (n - 1 - length s) (length t) ->
  after (s ++ take k t ++ [0]) m = appended n s t m.
Proof.
  intros Hl ->. unfold after, appended.
  assert (Hw : take (n - 1) (s ++ t) = s ++ take (Nat.min (n - 1 - length s) (length t)) t).
  { rewrite take_app, (take_ge s) by lia. f_equal.
    destruct (Nat.min_spec (n - 1 - length s) (length t)) as [[? ->]|[? ->]]; [done|].
    by rewrite firstn_all, take_ge by lia. }
  rewrite Hw. set (w := take _ t). rewrite !(app_assoc s w), <- (app_assoc (s ++ w)). cbn [app].
  rewrite (length_app (s ++ w)). simpl length. by rewrite Nat.add_1_r.
Qed.

Lemma puts_loop_spec t r : forall w k m,
  text t -> (length w + Nat.min k (length t) < length m)%nat ->
  puts_loop (t ++ 0 :: r) (Some k) (after w m) (zlen w)
  = Some (after (if (length t <? k)%nat then w ++ t ++ [0] else w ++ take k t) m,
          zlen (w ++ take k t), drop k t ++ 0 :: r).
Proof.
  induction t as [|c t IH]; intros w k m Ht Hl.
  - destruct k as [|k]; cbn [app puts_loop length Nat.ltb Nat.leb take drop].
    + by rewrite !app_nil_r.
    + rewrite zset_after by (simpl in Hl; lia). cbn [mbind option_bind Z.eqb]. by rewrite app_nil_r.
  - apply Forall_cons in Ht as [Hc Ht]. destruct k as [|k]; cbn [app puts_loop length].
    { cbn. by rewrite !app_nil_r. }
    rewrite zset_after by (simpl in Hl; lia). cbn [mbind option_bind fmap option_fmap option_map Nat.pred].
    rewrite (proj2 (Z.eqb_neq c 0) Hc). replace (zlen w + 1) with (zlen (w ++ [c])) by (rewrite length_app; simpl; lia).
    rewrite IH; [|done|rewrite length_app; simpl in *; lia].
    change (S (length t) <? S k)%nat with (length t <? k)%nat. cbn [take drop].
    by destruct (length t <? k)%nat; rewrite <- ?app_assoc.
Qed.

(** A copying loop that stops at the NUL or at the limit, and the NUL that is written after it. *)
Lemma puts_loop_appended n sb s t r k :
  holds n sb s -> (length s < n - 1)%nat -> text t ->
  Nat.min k (length t) = Nat.min (n - 1 - length s) (length t) ->
  exists m, puts_loop (t ++ 0 :: r) (Some k) (sb_mem sb) (zlen s) = Some (m, zlen (s ++ take k t), drop k t ++ 0 :: r) /\
    zset m (zlen (s ++ take k t)) 0 = Some (appended n s t (sb_mem sb)).
Proof.
  intros Hh Hl Ht Hk. pose proof Hh as (_ & _ & _ & _ & Hn & _).
  assert (Hp := puts_loop_spec t r s k (sb_mem sb) Ht ltac:(lia)).
  rewrite <- (after_start _ _ _ Hh Hl) in Hp. eexists. split; [exact Hp|].
  destruct (Nat.ltb_spec (length t) k) as [Hlt|Hge].
  - rewrite (take_ge t) by lia. unfold after. rewrite (app_assoc s t), <- (app_assoc (s ++ t)). cbn [app].
    rewrite zset_end. f_equal. rewrite <- (after_appended n s t _ (length t)) by (done || lia).
    unfold after. rewrite firstn_all, !(app_assoc s t), <- (app_assoc (s ++ t)). done.
  - rewrite zset_after by (rewrite length_app, length_take; lia). f_equal.
    rewrite <- app_assoc. apply after_appended; [done|lia].
Qed.

Lemma strbuf_puts_spec n sb s t r :
  holds n sb s -> text t ->
  exists sb', strbuf_puts sb (t ++ 0 :: r) = Some sb' /\ holds n sb' (s ++ t) /\
    drop n (sb_mem sb') = drop n (sb_mem sb).
Proof.
  intros Hh Ht. pose proof Hh as (Hst & He & Hc & Hs & Hn & Hm). unfold strbuf_puts.
  rewrite (has_room_spec _ _ _ Hh). destruct (Nat.ltb_spec (length s) (n - 1)) as [Hl|Hl].
  - rewrite He, Hc. replace (Z.to_nat (Z.of_nat n - 1 - zlen s)) with (n - 1 - length s)%nat by lia.
    destruct (puts_loop_appended n sb s t r (n - 1 - length s) Hh Hl Ht eq_refl) as (m & -> & Hz).
    cbn [mbind option_bind]. rewrite Hz. cbn [mbind option_bind]. rewrite strlen_text by (by apply Forall_drop).
    cbn [mbind option_bind]. eexists. split; [done|]. apply (holds_appended n sb s t); try done.
    cbn. rewrite !length_app, length_take, length_drop. lia.
  - cbn [mbind option_bind]. rewrite strlen_text by done. cbn [mbind option_bind].
    eexists. split; [done|]. apply (holds_appended n sb s t); try done.
    + by rewrite appended_full.
    + rewrite length_app. lia.
Qed.

Lemma ncat_loop_spec t : forall k w m,
  text (take k t) -> (k <= length t)%nat -> (length w + k <= length m)%nat ->
  ncat_loop k (after w m) (zlen w) t = Some (after (w ++ take k t) m, zlen (w ++ take k t)).
Proof.
  induction t as [|c t IH]; intros k w m Ht Hk Hl.
  - destruct k; [|simpl in Hk; lia]. cbn. by rewrite app_nil_r.
  - destruct k as [|k]; [cbn; by rewrite app_nil_r|]. cbn [take] in Ht. apply Forall_cons in Ht as [Hc Ht]. cbn [ncat_loop].
    rewrite zset_after by lia. cbn [mbind option_bind]. rewrite (proj2 (Z.eqb_neq c 0) Hc).
    replace (zlen w + 1) with (zlen (w ++ [c])) by (rewrite length_app; simpl; lia).
    rewrite IH; [|done|simpl in Hk; lia|rewrite length_app; simpl; lia]. cbn [take]. by rewrite <- !app_assoc.
Qed.

Lemma strbuf_ncat_spec n sb s t (len : nat) :
  holds n sb s -> text (take len t) -> (len <= length t)%nat ->
  exists sb', strbuf_ncat sb t len = Some sb' /\ holds n sb' (s ++ take len t) /\
    drop n (sb_mem sb') = drop n (sb_mem sb).
Proof.
  intros Hh Htl Hlen. pose proof Hh as (Hst & He & Hc & Hs & Hn & Hm). unfold strbuf_ncat.
  rewrite (has_room_spec _ _ _ Hh). destruct (Nat.ltb_spec (length s) (n - 1)) as [Hl|Hl].
  - rewrite He, Hc. set (k := Nat.min (n - 1 - length s) len).
    replace (Nat.min (Z.to_nat (Z.of_nat n - 1 - zlen s)) len) with k by lia.
    assert (Ht : text (take k t)).
    { replace k with (Nat.min k len) by lia. rewrite <- take_take. by apply Forall_take. }
    assert (Hp := ncat_loop_spec t k s (sb_mem sb) Ht ltac:(lia) ltac:(lia)).
    rewrite <- (after_start _ _ _ Hh Hl) in Hp. rewrite Hp. cbn [mbind option_bind].
    rewrite zset_after by (rewrite length_app, length_take; lia). cbn [mbind option_bind].
    eexists. split; [done|]. apply (holds_appended n sb s (take len t)); try done.
    + cbn. rewrite <- app_assoc. replace (take k t) with (take k (take len t)) by (rewrite take_take; f_equal; lia).
      apply after_appended; [done|]. rewrite length_take. lia.
    + cbn. rewrite length_app, length_take. lia.
  - cbn [mbind option_bind]. eexists. split; [done|]. apply (holds_appended n sb s (take len t)); try done.
    + by rewrite appended_full.
    + rewrite length_app, length_take. lia.
Qed.

Lemma ncat_puts_loop t : forall k m c, ncat_loop k m c t = fst <$> puts_loop t (Some k) m c.
Proof.
  induction t as [|x t IH]; intros k m c; destruct k as [|k]; cbn [ncat_loop puts_loop]; try done.
  destruct (zset m c x) as [m'|]; [|done]. cbn [mbind option_bind]. destruct (x =? 0); [done|]. apply IH.
Qed.

(** Given a length past the end of the text, strbuf_ncat puts the text and its NUL and counts
    the length. *)
Lemma strbuf_ncat_long n sb s t r (len : nat) :
  holds n sb s -> text t -> (length t < len)%nat ->
  strbuf_ncat sb (t ++ 0 :: r) len
  = Some (mk_sb (sb_start sb) (appended n s t (sb_mem sb)) (sb_end sb) (zlen s + Z.of_nat len)).
Proof.
  intros Hh Ht Hlen. pose proof Hh as (Hst & He & Hc & Hs & Hn & Hm). unfold strbuf_ncat.
  rewrite (has_room_spec _ _ _ Hh). destruct (Nat.ltb_spec (length s) (n - 1)) as [Hl|Hl].
  - rewrite He, Hc, ncat_puts_loop.
    destruct (puts_loop_appended n sb s t r (Nat.min (Z.to_nat (Z.of_nat n - 1 - zlen s)) len) Hh Hl Ht) as (m & -> & Hz);
      [lia|].
    cbn [fmap option_fmap option_map fst mbind option_bind]. rewrite Hz. cbn [mbind option_bind]. unfold set_mem, set_current. cbn [sb_current sb_start sb_end sb_mem]. by rewrite Hc, He.
  - cbn [mbind option_bind]. rewrite (appended_full _ _ _ _ Hh Hl). unfold set_current. by rewrite Hc.
Qed.

Lemma strbuf_putc_spec n sb s c :
  holds n sb s -> c <> 0 ->
  exists sb', strbuf_putc sb c = Some sb' /\ holds n sb' (s ++ [c]) /\
    drop n (sb_mem sb') = drop n (sb_mem sb).
Proof.
  intros Hh Hc0. pose proof Hh as (Hst & He & Hc & Hs & Hn & Hm). unfold strbuf_putc.
  rewrite (has_room_spec _ _ _ Hh). destruct (Nat.ltb_spec (length s) (n - 1)) as [Hl|Hl].
  - assert (Hp : poke sb (sb_current sb) c = Some (set_mem sb (after (s ++ [c]) (sb_mem sb)))).
    { unfold poke. pose proof (zset_after s (sb_mem sb) c ltac:(lia)) as Hz.
      rewrite <- (after_start _ _ _ Hh Hl) in Hz. by rewrite Hc, Hz. }
    rewrite Hp. cbn [mbind option_bind]. unfold poke. cbn [set_mem sb_mem sb_current]. rewrite Hc.
    replace (zlen s + 1) with (zlen (s ++ [c])) by (rewrite length_app; simpl; lia).
    rewrite zset_after by (rewrite length_app; simpl; lia). cbn [mbind option_bind].
    eexists. split; [done|].
    apply (holds_appended n sb s [c]); try done; [by repeat constructor| |cbn; rewrite Hc, length_app; simpl; lia].
    rewrite <- app_assoc. apply (after_appended n s [c] _ 1); [done|simpl; lia].
  - cbn [mbind option_bind]. eexists. split; [done|].
    apply (holds_appended n sb s [c]); try done; [by repeat constructor| |rewrite length_app; simpl; lia].
    by rewrite appended_full.
Qed.

Lemma strbuf_vsprintf_spec n sb s t :
  holds n sb s -> text t -> zlen t <= INT_MAX -> Z.of_nat n <= INT_MAX ->
  exists sb', strbuf_vsprintf sb (Some t) = Some (sb', zlen t) /\ holds n sb' (s ++ t) /\
    drop n (sb_mem sb') = drop n (sb_mem sb).
Proof.
  intros Hh Ht Hmax Hnmax. pose proof Hh as (Hst & He & Hc & Hs & Hn & Hm). unfold strbuf_vsprintf.
  unfold INT_MAX in *. rewrite ci_Some by (unfold INT_MIN, INT_MAX; lia). cbn [mbind option_bind].
  rewrite Hst, He, Hc. destruct (Z.ltb_spec (zlen s) (Z.of_nat n - 1)) as [Hl|Hl].
  - rewrite i32_id by (unfold INT_MIN, INT_MAX; lia). rewrite (proj2 (Z.ltb_lt _ _)) by lia.
    set (k := (n - 1 - length s)%nat). replace (Z.to_nat (Z.of_nat n - 1 - zlen s + 1 - 1)) with k by lia.
    assert (Hl' : (length s < n - 1)%nat) by lia.
    assert (Hw : zblit (sb_mem sb) (zlen s) (take k t ++ [0]) = Some (appended n s t (sb_mem sb))).
    { rewrite zblit_Some by (rewrite ?length_app, ?length_take; simpl; lia). f_equal.
      rewrite Nat2Z.id. rewrite <- (after_appended n s t _ (Nat.min k (length t))) by (done || lia).
      assert (take (length s) (sb_mem sb) = s) as ->.
      { rewrite (holds_room _ _ _ Hh Hl'). apply take_app_length. }
      assert (take k t = take (Nat.min k (length t)) t) as ->.
      { destruct (Nat.min_spec k (length t)) as [[? ->]|[? ->]]; [done|]. by rewrite firstn_all, take_ge by lia. }
      unfold after. rewrite <- !app_assoc. do 4 f_equal. rewrite !length_app. lia. }
    rewrite Hw. cbn [mbind option_bind].
    assert (Hpoke : (if Z.of_nat n - 1 - zlen s + 1 <=? zlen t
                     then poke (set_mem sb (appended n s t (sb_mem sb))) (Z.of_nat n - 1) 0
                     else Some (set_mem sb (appended n s t (sb_mem sb))))
                    = Some (set_mem sb (appended n s t (sb_mem sb)))).
    { destruct (Z.leb_spec (Z.of_nat n - 1 - zlen s + 1) (zlen t)); [|done].
      unfold poke, appended. cbn [set_mem sb_mem].
      assert (Z.of_nat n - 1 = zlen (take (n - 1) (s ++ t))) as -> by (rewrite length_take, length_app; lia).
      by rewrite zset_end. }
    rewrite Hpoke. cbn [mbind option_bind]. eexists. split; [done|].
    apply (holds_appended n sb s t); try done. cbn. rewrite Hc, length_app. lia.
  - cbn [mbind option_bind]. eexists. split; [done|]. apply (holds_appended n sb s t); try done.
    + by rewrite appended_full by (done || lia).
    + rewrite length_app. lia.
Qed.

Lemma hex_chars_cons d data : hex_chars (d :: data) = [hexdig (Z.shiftr d 4); hexdig (Z.land d 15)] ++ hex_chars data.
Proof. done. Qed.

Lemma hexdig_nonzero v : hexdig v <> 0 \/ ~ (0 <= v < 16).
Proof.
  destruct (decide (0 <= v < 16)) as [H|]; [left|by right]. unfold hexdig.
  assert (Hn : (Z.to_nat v < 16)%nat) by lia. revert Hn. generalize (Z.to_nat v). intros k Hk.
  do 16 (destruct k as [|k]; [discriminate|]). lia.
Qed.

Lemma hex_chars_text data : are_bytes data -> text (hex_chars data).
Proof.
  induction 1 as [|d data Hd _ IH]; [constructor|]. rewrite hex_chars_cons. unfold is_byte in Hd.
  constructor; [|constructor; [|exact IH]].
  - destruct (hexdig_nonzero (Z.shiftr d 4)) as [|H]; [done|]. exfalso. apply H.
    rewrite Z.shiftr_div_pow2 by lia. change (2 ^ 4) with 16. split; [apply Z.div_pos; lia|].
    apply Z.div_lt_upper_bound; lia.
  - destruct (hexdig_nonzero (Z.land d 15)) as [|H]; [done|]. exfalso. apply H.
    change 15 with (Z.ones 4). rewrite Z.land_ones by lia. apply Z.mod_pos_bound. lia.
Qed.

(** The loop writes up to [e], or one character further when [e] cuts a byte in two. *)
Lemma tohex_loop_spec data : forall w m e,
  zlen w <= e -> e <= zlen w + 2 * zlen data -> e + 1 <= zlen m ->
  exists j, tohex_loop (length data) (after w m) (zlen w) e data = Some (after (w ++ take j (hex_chars data)) m) /\
    (Z.of_nat j = e - zlen w \/ Z.of_nat j = e - zlen w + 1) /\ (j <= 2 * length data)%nat.
Proof.
  induction data as [|d data IH]; intros w m e Hw He Hm.
  - cbn [length tohex_loop]. simpl length in He. rewrite (proj2 (Z.ltb_ge _ _)) by lia.
    exists O. cbn [take]. rewrite app_nil_r. split; [done|]. split; [left; lia|lia].
  - cbn [length tohex_loop]. simpl length in He. destruct (Z.ltb_spec (zlen w) e) as [Hlt|Hge].
    + rewrite zset_after by lia. cbn [mbind option_bind].
      replace (zlen w + 1) with (zlen (w ++ [hexdig (Z.shiftr d 4)])) by (rewrite length_app; simpl; lia).
      rewrite zset_after by (rewrite length_app; simpl; lia). cbn [mbind option_bind].
      set (w' := (w ++ [hexdig (Z.shiftr d 4)]) ++ [hexdig (Z.land d 15)]).
      assert (Hw' : zlen w' = zlen w + 2) by (subst w'; rewrite !length_app; simpl; lia).
      rewrite <- Hw'. destruct (Z.le_gt_cases (zlen w') e) as [Hc|Hc].
      * destruct (IH w' m e) as (j & -> & Hj & Hjl); [lia|lia|done|]. exists (S (S j)).
        rewrite hex_chars_cons. cbn [app take]. subst w'. rewrite <- !app_assoc. split; [done|].
        split; [|lia]. rewrite !length_app in Hj. simpl in Hj. lia.
      * (* the byte is cut in two *)
        exists 2%nat. rewrite hex_chars_cons. cbn [app firstn]. split; [|split; [right; lia|lia]].
        rewrite take_0. replace (w ++ [hexdig (Z.shiftr d 4); hexdig (Z.land d 15)]) with w'
          by (subst w'; by rewrite <- app_assoc).
        destruct data; cbn [length tohex_loop]; by rewrite (proj2 (Z.ltb_ge _ _)) by lia.
    + exists O. cbn [take]. rewrite app_nil_r. split; [done|]. split; [left; lia|lia].
Qed.

Lemma zset_after_last w m x y :
  (length w < length m)%nat -> zset (after (w ++ [y]) m) (zlen w) x = Some (after (w ++ [x]) m).
Proof. intros Hl. unfold after. rewrite <- !app_assoc. cbn [app]. rewrite zset_end. by rewrite !length_app. Qed.

Lemma strbuf_tohex_spec n sb s data :
  holds n sb s -> are_bytes data ->
  exists sb', strbuf_tohex sb data (length data) = Some sb' /\ holds n sb' (s ++ hex_chars data) /\
    drop n (sb_mem sb') = drop n (sb_mem sb).
Proof.
  intros Hh Hd. pose proof Hh as (Hst & He & Hc & Hs & Hn & Hm). unfold strbuf_tohex.
  pose proof (hex_chars_text _ Hd) as Ht. pose proof (hex_chars_length data) as Hlen.
  cbn [set_current sb_start sb_end sb_current sb_mem]. rewrite Hst, He, Hc.
  set (cur := zlen s + 2 * zlen data).
  set (e := if Z.of_nat n - 1 <? cur then Z.of_nat n - 1 else cur).
  assert (Hgo : (m ← tohex_loop (length data) (sb_mem sb) (zlen s) e data; zset m e 0)
                = Some (appended n s (hex_chars data) (sb_mem sb))).
  { destruct (Nat.ltb_spec (length s) (n - 1)) as [Hl|Hl].
    - destruct (tohex_loop_spec data s (sb_mem sb) e) as (j & Hloop & Hj & Hjl);
        [subst e cur; destruct (Z.ltb_spec (Z.of_nat n - 1) (zlen s + 2 * zlen data)); lia..|].
      rewrite <- (after_start _ _ _ Hh Hl) in Hloop. rewrite Hloop. cbn [mbind option_bind].
      set (k := Nat.min (n - 1 - length s) (length (hex_chars data))).
      assert (Hk : e = zlen (s ++ take k (hex_chars data))).
      { rewrite length_app, length_take. subst e cur k.
        destruct (Z.ltb_spec (Z.of_nat n - 1) (zlen s + 2 * zlen data)); lia. }
      rewrite <- (after_appended n s (hex_chars data) _ k Hl) by done.
      rewrite length_app, length_take in Hk.
      assert (Hjk : j = k \/ j = S k) by lia. rewrite (app_assoc s).
      assert (He' : e = zlen (s ++ take k (hex_chars data))) by (rewrite length_app, length_take; lia).
      assert (Hroom : (length (s ++ take k (hex_chars data)) < length (sb_mem sb))%nat)
        by (rewrite length_app, length_take; lia).
      rewrite He'. destruct Hjk as [->| ->].
      + by apply zset_after.
      + destruct (lookup_lt_is_Some_2 (hex_chars data) k) as [y Hy]; [lia|].
        rewrite (take_S_r _ _ _ Hy), (app_assoc s). by apply zset_after_last.
    - assert (Hee : e = Z.of_nat n - 1).
      { subst e cur. destruct (Z.ltb_spec (Z.of_nat n - 1) (zlen s + 2 * zlen data)); lia. }
      assert (Hloop : tohex_loop (length data) (sb_mem sb) (zlen s) e data = Some (sb_mem sb)).
      { destruct (length data) eqn:El, data; cbn [tohex_loop]; by rewrite (proj2 (Z.ltb_ge _ _)) by lia. }
      rewrite Hloop. cbn [mbind option_bind]. rewrite (appended_full _ _ _ _ Hh) by lia.
      rewrite Hm at 1. assert (e = zlen (take (n - 1) s)) as -> by (rewrite length_take; lia).
      rewrite zset_end. by rewrite <- Hm. }
  destruct (tohex_loop (length data) (sb_mem sb) (zlen s) e data) as [m|]; [|done].
  cbn [mbind option_bind] in *. rewrite Hgo. cbn [mbind option_bind].
  eexists. split; [done|]. apply (holds_appended n sb s (hex_chars data)); try done.
  cbn. subst cur. rewrite length_app. lia.
Qed.

(** ** Starting over and truncating *)

Lemma holds_nil n m :
  (1 <= n <= S (length m))%nat -> holds n (mk_sb true (0 :: m) (Some (Z.of_nat n - 1)) 0) [].
Proof.
  intros Hn. unfold holds. cbn [sb_start sb_end sb_current sb_mem]. rewrite take_nil.
  split_and!; try done; simpl length; lia.
Qed.

Lemma poke_start (m : list Z) : (1 <= length m)%nat -> zset m 0 0 = Some (0 :: drop 1 m).
Proof. intros. destruct m as [|x m]; [simpl in *; lia|]. rewrite zset_Some by (simpl; lia). done. Qed.

Lemma drop_start n (m : list Z) : (1 <= n)%nat -> drop n (0 :: drop 1 m) = drop n m.
Proof. intros. destruct n as [|n]; [lia|]. cbn [drop]. rewrite drop_drop. done. Qed.

Lemma strbuf_reset_spec n sb s :
  holds n sb s ->
  exists sb', strbuf_reset sb = Some sb' /\ holds n sb' [] /\ drop n (sb_mem sb') = drop n (sb_mem sb).
Proof.
  intros (Hst & He & Hc & Hs & Hn & Hm). unfold strbuf_reset. cbn [set_current sb_start]. rewrite Hst.
  unfold poke. cbn [set_current sb_mem]. rewrite poke_start by lia. cbn [mbind option_bind].
  eexists. split; [done|]. unfold set_mem, set_current. cbn [sb_start sb_end sb_current sb_mem]. rewrite Hst, He.
  split; [apply holds_nil; rewrite length_drop; lia|apply drop_start; lia].
Qed.

Lemma strbuf_init_spec m n :
  (1 <= n <= length m)%nat ->
  exists sb, strbuf_init (Some m) (Z.of_nat n) = Some sb /\ holds n sb [] /\ drop n (sb_mem sb) = drop n m.
Proof.
  intros Hn. unfold strbuf_init. rewrite (proj2 (Z.leb_le _ _)) by lia.
  unfold strbuf_reset. rewrite bool_decide_eq_true_2 by done. cbn [set_current sb_start default from_option id].
  unfold poke. cbn [set_current sb_mem]. rewrite poke_start by lia. cbn [mbind option_bind].
  eexists. split; [done|]. unfold set_mem, set_current. cbn [sb_start sb_end sb_current sb_mem].
  split; [apply holds_nil; rewrite length_drop; lia|apply drop_start; lia].
Qed.

Lemma strbuf_init_length m size sb : strbuf_init (Some m) size = Some sb -> length (sb_mem sb) = length m.
Proof.
  unfold strbuf_init, strbuf_reset, poke. rewrite bool_decide_eq_true_2 by done. cbn [set_current sb_start sb_mem default from_option id].
  destruct (zset m 0 0) as [m'|] eqn:E; [|done]. intros [= <-]. cbn [set_mem sb_mem]. by eapply zset_length.
Qed.

Lemma strbuf_end_spec n sb s : holds n sb s -> strbuf_end sb = zlen (take (n - 1) s).
Proof.
  intros (_ & He & Hc & _ & Hn & _). unfold strbuf_end. rewrite He, Hc, length_take.
  destruct (Z.ltb_spec (Z.of_nat n - 1) (zlen s)); lia.
Qed.

(** What is left of the text. *)
Definition truncated (n : nat) (s : list Z) (offset : Z) : list Z :=
  if offset <? 0 then take (Z.to_nat (zlen (take (n - 1) s) + offset)) s else take (Z.to_nat offset) s.

Lemma holds_take n sb s (k : nat) :
  holds n sb s -> (k <= length s)%nat ->
  exists m, (if (k <? n - 1)%nat then zset (sb_mem sb) (Z.of_nat k) 0 else Some (sb_mem sb)) = Some m /\
    holds n (mk_sb (sb_start sb) m (sb_end sb) (Z.of_nat k)) (take k s) /\ drop n m = drop n (sb_mem sb).
Proof.
  intros (Hst & He & Hc & Hs & Hn & Hm) Hk.
  assert (Hts : text (take k s)) by (by apply Forall_take).
  assert (Hlk : length (take k s) = k) by (rewrite length_take; lia).
  destruct (Nat.ltb_spec k (n - 1)) as [Hl|Hl].
  - exists (take k (sb_mem sb) ++ 0 :: drop (S k) (sb_mem sb)).
    assert (Htm : take k (sb_mem sb) = take k s).
    { rewrite Hm, take_app_le, take_take by (rewrite length_take; lia). f_equal. lia. }
    split; [|split].
    + rewrite zset_Some by lia. f_equal. rewrite Nat2Z.id. apply insert_take_drop. lia.
    + unfold holds. cbn [sb_start sb_end sb_mem sb_current]. rewrite (take_ge (take k s)) by lia.
      split_and!; [done|done|by rewrite Hlk|done|lia| |].
      * rewrite length_app. simpl. rewrite length_take, length_drop. lia.
      * rewrite Htm, Hlk. f_equal. f_equal. rewrite drop_app, (drop_ge (take k s)) by lia. rewrite Hlk.
        by replace (S k - k)%nat with 1%nat by lia.
    + rewrite drop_app, drop_ge by (rewrite length_take; lia). rewrite length_take. cbn [app].
      replace (n - Nat.min k (length (sb_mem sb)))%nat with (S (n - S k)) by lia. cbn [drop].
      rewrite drop_drop. f_equal. lia.
  - exists (sb_mem sb). split; [done|]. split; [|done]. unfold holds. cbn [sb_start sb_end sb_mem sb_current].
    rewrite take_take, (Nat.min_l (n - 1) k) by lia. split_and!; try done; try lia.
Qed.

Lemma strbuf_trunc_spec n sb s offset :
  holds n sb s ->
  exists sb', strbuf_trunc sb offset = Some sb' /\ holds n sb' (truncated n s offset) /\
    drop n (sb_mem sb') = drop n (sb_mem sb).
Proof.
  intros Hh. pose proof Hh as (Hst & He & Hc & Hs & Hn & Hm).
  pose proof (strbuf_end_spec _ _ _ Hh) as Hend. unfold strbuf_trunc, truncated.
  set (k := if offset <? 0 then Z.to_nat (zlen (take (n - 1) s) + offset)
            else Nat.min (Z.to_nat offset) (length s)).
  assert (Hk : (k <= length s)%nat).
  { subst k. destruct (Z.ltb_spec offset 0); [rewrite length_take|]; lia. }
  assert (Hcur : (if offset <? 0 then set_current sb (if offset <=? - strbuf_end sb then 0 else strbuf_end sb + offset)
                  else if offset <? sb_current sb then set_current sb offset else sb)
                 = set_current sb (Z.of_nat k)).
  { subst k. destruct (Z.ltb_spec offset 0).
    - f_equal. rewrite Hend. destruct (Z.leb_spec offset (- zlen (take (n - 1) s))); lia.
    - rewrite Hc. destruct (Z.ltb_spec offset (zlen s)); [f_equal; lia|].
      rewrite Nat.min_r by lia. destruct sb. cbn in *. by rewrite Hc. }
  rewrite Hcur. destruct (holds_take n sb s k Hh Hk) as (m & Hz & Hh' & Hd).
  assert (Hres : (if offset <? 0 then take (Z.to_nat (zlen (take (n - 1) s) + offset)) s
                  else take (Z.to_nat offset) s) = take k s).
  { subst k. destruct (offset <? 0); [done|]. destruct (Nat.min_spec (Z.to_nat offset) (length s)) as [[? ->]|[? ->]]; [done|].
    by rewrite firstn_all, take_ge by lia. }
  rewrite Hres. unfold has_room. cbn [set_current sb_start sb_end sb_current]. rewrite Hst, He. cbn [andb].
  exists (mk_sb (sb_start sb) m (sb_end sb) (Z.of_nat k)). split; [|by split].
  destruct (Nat.ltb_spec k (n - 1)).
  - rewrite (proj2 (Z.ltb_lt _ _)) by lia. unfold poke. cbn [set_current sb_mem sb_current]. by rewrite Hz.
  - rewrite (proj2 (Z.ltb_ge _ _)) by lia. injection Hz as <-. by destruct sb.
Qed.

(** ** Whatever is appended *)

Inductive sb_op :=
| Puts (t : list Z)
| Ncat (t : list Z) (len : nat)
| Putc (c : Z)
| Tohex (data : list Z)
| Sprintf (t : list Z)
| SprintfFails
| Trunc (offset : Z)
| Reset.

(** What a caller can pass: strings end with a NUL (which [Puts] adds), strbuf_ncat is given a
    string or at least [len] characters, and printf returns an int. *)
Definition sb_call (op : sb_op) : Prop :=
  match op with
  | Puts t => text t
  | Ncat t len => 0 ∈ t \/ (len <= length t)%nat
  | Sprintf t => zlen t <= INT_MAX
  | _ => True
  end.

(** Calls that append characters only, as many as they count: strbuf_ncat is not given a length
    past the end of the text, strbuf_putc and printf put no NUL. *)
Definition sb_op_ok (op : sb_op) : Prop :=
  match op with
  | Puts t => text t
  | Ncat t len => text (take len t) /\ (len <= length t)%nat
  | Putc c => c <> 0
  | Tohex data => are_bytes data
  | Sprintf t => text t /\ zlen t <= INT_MAX
  | SprintfFails | Trunc _ | Reset => True
  end.

Definition sb_step (sb : strbuf) (op : sb_op) : option strbuf :=
  match op with
  | Puts t => strbuf_puts sb (t ++ [0])
  | Ncat t len => strbuf_ncat sb t len
  | Putc c => strbuf_putc sb c
  | Tohex data => strbuf_tohex sb data (length data)
  | Sprintf t => fst <$> strbuf_vsprintf sb (Some t)
  | SprintfFails => fst <$> strbuf_vsprintf sb None
  | Trunc offset => strbuf_trunc sb offset
  | Reset => strbuf_reset sb
  end.

(** The same on a text without a limit. *)
Definition text_step (n : nat) (s : list Z) (op : sb_op) : list Z :=
  match op with
  | Puts t | Sprintf t => s ++ t
  | Ncat t len => s ++ take len t
  | Putc c => s ++ [c]
  | Tohex data => s ++ hex_chars data
  | SprintfFails => s
  | Trunc offset => truncated n s offset
  | Reset => []
  end.

Fixpoint sb_run (sb : strbuf) (ops : list sb_op) : option strbuf :=
  match ops with [] => Some sb | op :: ops => sb ← sb_step sb op; sb_run sb ops end.

Lemma sb_step_spec n sb s op :
  holds n sb s -> Z.of_nat n <= INT_MAX -> sb_op_ok op ->
  exists sb', sb_step sb op = Some sb' /\ holds n sb' (text_step n s op) /\
    drop n (sb_mem sb') = drop n (sb_mem sb).
Proof.
  intros Hh Hn Hop. destruct op as [t|t len|c|data|t| |offset|]; cbn [sb_step text_step sb_op_ok] in *.
  - by apply strbuf_puts_spec.
  - apply strbuf_ncat_spec; tauto.
  - by apply strbuf_putc_spec.
  - by apply strbuf_tohex_spec.
  - destruct Hop as [Ht Hl]. destruct (strbuf_vsprintf_spec n sb s t Hh Ht Hl Hn) as (sb' & -> & H). by exists sb'.
  - by exists sb.
  - by apply strbuf_trunc_spec.
  - by eapply strbuf_reset_spec.
Qed.

Lemma sb_run_spec n ops : forall sb s,
  holds n sb s -> Z.of_nat n <= INT_MAX -> Forall sb_op_ok ops ->
  exists sb', sb_run sb ops = Some sb' /\ holds n sb' (foldl (text_step n) s ops) /\
    drop n (sb_mem sb') = drop n (sb_mem sb).
Proof.
  induction ops as [|op ops IH]; intros sb s Hh Hn Hops; [by exists sb|]. cbn [sb_run foldl].
  apply Forall_cons in Hops as [Hop Hops].
  destruct (sb_step_spec n sb s op Hh Hn Hop) as (sb1 & -> & Hh1 & Hd1). cbn [mbind option_bind].
  destruct (IH sb1 _ Hh1 Hn Hops) as (sb2 & -> & Hh2 & Hd2). exists sb2. by rewrite Hd2.
Qed.

(** What a reader of the buffer sees. *)
Lemma holds_observed n sb s :
  holds n sb s ->
  c_text (sb_mem sb) = take (n - 1) s /\ strbuf_len sb = zlen (take (n - 1) s) /\
  strbuf_count sb = zlen s /\ strbuf_overrun sb = (n - 1 <? length s)%nat.
Proof.
  intros Hh. pose proof Hh as (Hst & He & Hc & Hs & Hn & Hm). split_and!.
  - rewrite Hm. apply c_text_app. by apply Forall_take.
  - by apply strbuf_end_spec.
  - done.
  - unfold strbuf_overrun. rewrite He, Hc.
    destruct (Nat.ltb_spec (n - 1) (length s)), (Z.ltb_spec (Z.of_nat n - 1) (zlen s)); try done; lia.
Qed.

(** ** Calls of any kind

    With a NUL among the characters or a length past the end of the text, what is assembled is not
    a text; the operations still stay within the buffer and leave a NUL in it. *)

(** Only the first [n] bytes of [m] were written. *)
Definition within (n : nat) (m m' : list Z) : Prop := length m' = length m /\ drop n m' = drop n m.

Lemma within_trans n m1 m2 m3 : within n m1 m2 -> within n m2 m3 -> within n m1 m3.
Proof. unfold within. intros [] []. split; congruence. Qed.

Lemma zset_within n m i x :
  0 <= i < Z.of_nat n -> (n <= length m)%nat -> exists m', zset m i x = Some m' /\ within n m m'.
Proof.
  intros Hi Hn. rewrite zset_Some by lia. eexists. split; [done|]. split; [by rewrite length_insert|].
  apply drop_insert_lt. lia.
Qed.

Lemma nul_within n m i :
  0 <= i < Z.of_nat n -> (n <= length m)%nat -> exists m', zset m i 0 = Some m' /\ within n m m' /\ 0 ∈ take n m'.
Proof.
  intros Hi Hn. destruct (zset_within n m i 0 Hi Hn) as (m' & Hz & Hw). exists m'. split; [done|]. split; [done|].
  rewrite zset_Some in Hz by lia. simplify_eq. apply list_elem_of_lookup. exists (Z.to_nat i).
  rewrite lookup_take_lt by lia. apply list_lookup_insert_eq. lia.
Qed.

Lemma ncat_loop_within n t : forall k m c,
  0 ∈ t \/ (k <= length t)%nat -> 0 <= c -> c + Z.of_nat k < Z.of_nat n -> (n <= length m)%nat ->
  exists m' c', ncat_loop k m c t = Some (m', c') /\ within n m m' /\ 0 <= c' < Z.of_nat n.
Proof.
  induction t as [|x t IH]; intros k m c Ht Hc Hk Hn.
  - destruct k; [exists m, c; cbn; split_and!; done || lia|]. destruct Ht as [Ht|Ht]; [by apply elem_of_nil in Ht|simpl in Ht; lia].
  - destruct k as [|k]; [exists m, c; cbn; split_and!; done || lia|]. cbn [ncat_loop].
    destruct (zset_within n m c x ltac:(lia) Hn) as (m1 & -> & Hw). cbn [mbind option_bind].
    destruct (Z.eqb_spec x 0) as [->|Hx]; [exists m1, c; split_and!; done || lia|].
    destruct (IH k m1 (c + 1)) as (m2 & c2 & -> & Hw2 & Hc2); [|lia|lia|by rewrite (proj1 Hw)|].
    { destruct Ht as [Ht|Ht]; [|right; simpl in Ht; lia]. apply elem_of_cons in Ht as [?|Ht]; [congruence|by left]. }
    exists m2, c2. split; [done|]. split; [by eapply within_trans|done].
Qed.

Lemma puts_loop_within n t : forall k m c,
  text t -> 0 <= c -> c + Z.of_nat k < Z.of_nat n -> (n <= length m)%nat ->
  exists m' (j : nat), puts_loop (t ++ [0]) (Some k) m c = Some (m', c + Z.of_nat j, drop j t ++ [0]) /\
    within n m m' /\ (j <= k)%nat /\ (j <= length t)%nat.
Proof.
  induction t as [|x t IH]; intros k m c Ht Hc Hk Hn; (destruct k as [|k]; [exists m, O; cbn; rewrite Z.add_0_r; split_and!; done || lia|]);
    cbn [app puts_loop].
  - destruct (zset_within n m c 0 ltac:(lia) Hn) as (m1 & -> & Hw). exists m1, O. cbn. rewrite Z.add_0_r. split_and!; done || lia.
  - apply Forall_cons in Ht as [Hx Ht]. destruct (zset_within n m c x ltac:(lia) Hn) as (m1 & -> & Hw).
    cbn [mbind option_bind fmap option_fmap option_map Nat.pred]. rewrite (proj2 (Z.eqb_neq x 0) Hx).
    destruct (IH k m1 (c + 1)) as (m2 & j & -> & Hw2 & Hj & Hjt); [done|lia|lia|by rewrite (proj1 Hw)|].
    exists m2, (S j). cbn [drop length]. replace (c + 1 + Z.of_nat j) with (c + Z.of_nat (S j)) by lia.
    split; [done|]. split; [by eapply within_trans|lia].
Qed.

Lemma tohex_loop_within n e data : forall m p,
  0 <= p -> e < Z.of_nat n -> e <= p + 2 * zlen data -> (n <= length m)%nat ->
  exists m', tohex_loop (length data) m p e data = Some m' /\ within n m m'.
Proof.
  induction data as [|d data IH]; intros m p Hp He Hl Hn; cbn [length tohex_loop]; destruct (Z.ltb_spec p e).
  - simpl in Hl. lia.
  - by exists m.
  - destruct (zset_within n m p (hexdig (Z.shiftr d 4)) ltac:(lia) Hn) as (m1 & -> & Hw1). cbn [mbind option_bind].
    destruct (zset_within n m1 (p + 1) (hexdig (Z.land d 15))) as (m2 & -> & Hw2); [lia|by rewrite (proj1 Hw1)|].
    cbn [mbind option_bind]. pose proof (within_trans _ _ _ _ Hw1 Hw2) as Hw.
    destruct (IH m2 (p + 2)) as (m3 & -> & Hw3); [lia|lia|simpl length in Hl; lia|by rewrite (proj1 Hw)|].
    exists m3. split; [done|]. by eapply within_trans.
  - by exists m.
Qed.

(** A strbuf of size [n] in the memory [m] that has counted [c] characters. *)
Definition bounded (n : nat) (m : list Z) (sb : strbuf) (c : Z) : Prop :=
  sb_start sb = true /\ sb_end sb = Some (Z.of_nat n - 1) /\ sb_current sb = c /\ 0 <= c /\
  (1 <= n <= length m)%nat /\ within n m (sb_mem sb) /\ 0 ∈ take n (sb_mem sb).

(** The count after a call. *)
Definition count_step (n : nat) (c : Z) (op : sb_op) : Z :=
  match op with
  | Puts t | Sprintf t => c + zlen t
  | Ncat _ len => c + Z.of_nat len
  | Putc _ => c + 1
  | Tohex data => c + 2 * zlen data
  | SprintfFails => c
  | Trunc offset => if offset <? 0 then Z.max 0 (Z.min c (Z.of_nat n - 1) + offset) else Z.min c offset
  | Reset => 0
  end.

Lemma bounded_written n m sb c m' c' :
  bounded n m sb c -> 0 <= c' -> within n (sb_mem sb) m' -> 0 ∈ take n m' ->
  bounded n m (mk_sb (sb_start sb) m' (sb_end sb) c') c'.
Proof. intros (? & ? & ? & ? & ? & ? & ?) ???. unfold bounded. cbn [sb_start sb_mem sb_end sb_current].
  split_and!; try done; [lia..|by eapply within_trans]. Qed.

Lemma bounded_counted n m sb c c' :
  bounded n m sb c -> 0 <= c' -> bounded n m (set_current sb c') c'.
Proof. intros (? & ? & ? & ? & ? & ? & ?) ?. unfold bounded. cbn [set_current sb_start sb_mem sb_end sb_current]. split_and!; done || lia. Qed.

Section bounded.
Context (n : nat) (m : list Z).

Lemma bounded_mem sb c : bounded n m sb c -> (n <= length (sb_mem sb))%nat /\ (1 <= n)%nat.
Proof. intros (_ & _ & _ & _ & ? & [-> _] & _). lia. Qed.

Lemma bounded_room sb c : bounded n m sb c -> has_room sb = (c <? Z.of_nat n - 1).
Proof. intros (Hst & He & Hc & _). unfold has_room. by rewrite Hst, He, Hc. Qed.

Lemma strbuf_puts_bounded sb c t :
  bounded n m sb c -> text t -> exists sb', strbuf_puts sb (t ++ [0]) = Some sb' /\ bounded n m sb' (c + zlen t).
Proof.
  intros Hb Ht. pose proof (bounded_mem _ _ Hb) as [Hl Hn]. pose proof Hb as (Hst & He & Hc & Hc0 & _).
  unfold strbuf_puts. rewrite (bounded_room _ _ Hb). destruct (Z.ltb_spec c (Z.of_nat n - 1)) as [Hr|Hr].
  - rewrite He, Hc.
    destruct (puts_loop_within n t (Z.to_nat (Z.of_nat n - 1 - c)) (sb_mem sb) c) as (m1 & j & -> & Hw & Hj & Hjt); [done|lia|lia|done|].
    cbn [mbind option_bind]. destruct (nul_within n m1 (c + Z.of_nat j)) as (m2 & -> & Hw2 & H0); [lia|by rewrite (proj1 Hw)|].
    cbn [mbind option_bind]. rewrite strlen_text by (by apply Forall_drop). cbn [mbind option_bind].
    eexists. split; [done|]. cbn [set_current set_mem sb_current sb_start sb_end sb_mem]. rewrite length_drop.
    replace (c + Z.of_nat j + Z.of_nat (length t - j)) with (c + zlen t) by lia.
    apply (bounded_written _ _ sb c); [done|lia|by eapply within_trans|done].
  - cbn [mbind option_bind]. rewrite strlen_text by done. cbn [mbind option_bind]. eexists. split; [done|].
    rewrite Hc. apply (bounded_counted _ _ sb c); [done|lia].
Qed.

Lemma strbuf_ncat_bounded sb c t len :
  bounded n m sb c -> 0 ∈ t \/ (len <= length t)%nat ->
  exists sb', strbuf_ncat sb t len = Some sb' /\ bounded n m sb' (c + Z.of_nat len).
Proof.
  intros Hb Ht. pose proof (bounded_mem _ _ Hb) as [Hl Hn]. pose proof Hb as (Hst & He & Hc & Hc0 & _).
  unfold strbuf_ncat. rewrite (bounded_room _ _ Hb). destruct (Z.ltb_spec c (Z.of_nat n - 1)) as [Hr|Hr].
  - rewrite He, Hc.
    destruct (ncat_loop_within n t (Nat.min (Z.to_nat (Z.of_nat n - 1 - c)) len) (sb_mem sb) c)
      as (m1 & c1 & -> & Hw & Hc1); [destruct Ht; [by left|right; lia]|lia|lia|done|].
    cbn [mbind option_bind]. destruct (nul_within n m1 c1) as (m2 & -> & Hw2 & H0); [lia|by rewrite (proj1 Hw)|].
    eexists. split; [done|]. cbn [set_current set_mem sb_current sb_start sb_end sb_mem]. rewrite Hc.
    apply (bounded_written _ _ sb c); [done|lia|by eapply within_trans|done].
  - eexists. split; [done|]. rewrite Hc. apply (bounded_counted _ _ sb c); [done|lia].
Qed.

Lemma strbuf_putc_bounded sb c ch :
  bounded n m sb c -> exists sb', strbuf_putc sb ch = Some sb' /\ bounded n m sb' (c + 1).
Proof.
  intros Hb. pose proof (bounded_mem _ _ Hb) as [Hl Hn]. pose proof Hb as (Hst & He & Hc & Hc0 & _).
  unfold strbuf_putc. rewrite (bounded_room _ _ Hb). destruct (Z.ltb_spec c (Z.of_nat n - 1)) as [Hr|Hr].
  - unfold poke. rewrite Hc. destruct (zset_within n (sb_mem sb) c ch) as (m1 & -> & Hw); [lia|done|].
    cbn [mbind option_bind set_mem sb_mem sb_current]. rewrite Hc.
    destruct (nul_within n m1 (c + 1)) as (m2 & -> & Hw2 & H0); [lia|by rewrite (proj1 Hw)|].
    eexists. split; [done|]. cbn. rewrite Hc. apply (bounded_written _ _ sb c); [done|lia|by eapply within_trans|done].
  - eexists. split; [done|]. rewrite Hc. apply (bounded_counted _ _ sb c); [done|lia].
Qed.

Lemma strbuf_tohex_bounded sb c data :
  bounded n m sb c -> exists sb', strbuf_tohex sb data (length data) = Some sb' /\ bounded n m sb' (c + 2 * zlen data).
Proof.
  intros Hb. pose proof (bounded_mem _ _ Hb) as [Hl Hn]. pose proof Hb as (Hst & He & Hc & Hc0 & _).
  unfold strbuf_tohex. cbn [set_current sb_start sb_end sb_current sb_mem]. rewrite Hst, He, Hc.
  set (e := if Z.of_nat n - 1 <? c + 2 * zlen data then Z.of_nat n - 1 else c + 2 * zlen data).
  assert (Hee : 0 <= e < Z.of_nat n /\ e <= c + 2 * zlen data)
    by (subst e; destruct (Z.ltb_spec (Z.of_nat n - 1) (c + 2 * zlen data)); lia).
  destruct (tohex_loop_within n e data (sb_mem sb) c) as (m1 & -> & Hw); [lia|lia|lia|done|]. cbn [mbind option_bind].
  destruct (nul_within n m1 e) as (m2 & -> & Hw2 & H0); [lia|by rewrite (proj1 Hw)|].
  eexists. split; [done|]. cbn [set_mem sb_start sb_end sb_current sb_mem].
  apply (bounded_written _ _ sb c); [done|lia|by eapply within_trans|done].
Qed.

Lemma zblit_within m1 i src :
  0 <= i -> i + zlen src < Z.of_nat n -> (n <= length m1)%nat ->
  exists m2, zblit m1 i (src ++ [0]) = Some m2 /\ within n m1 m2 /\ 0 ∈ take n m2.
Proof.
  intros Hi Hl Hn. destruct (zblit m1 i (src ++ [0])) as [m2|] eqn:E.
  2: { rewrite zblit_Some in E by (rewrite ?length_app; simpl; lia). done. }
  exists m2. split; [done|]. pose proof (zblit_length _ _ _ _ E) as Hlen. pose proof (zblit_take _ _ _ _ E) as Htk.
  apply zblit_inv in E as (_ & _ & E). rewrite length_app in *. simpl in *. split; [split; [done|]|].
  - rewrite E, drop_app, drop_ge by (rewrite length_take; lia). cbn [app]. rewrite length_take, drop_app, drop_ge by (rewrite length_app; simpl; lia).
    cbn [app]. rewrite drop_drop, length_app. simpl. f_equal. lia.
  - replace n with (n `min` n)%nat by lia.
    assert (Hin : 0 ∈ take (Z.to_nat i + (length src + 1)) m2) by (rewrite Htk; set_solver).
    replace (Z.to_nat i + (length src + 1))%nat with ((Z.to_nat i + (length src + 1)) `min` n)%nat in Hin by lia.
    rewrite <- take_take in Hin. rewrite Nat.min_id.
    apply list_elem_of_lookup in Hin as [a Ha]. apply lookup_take_Some in Ha as [Ha _]. by eapply list_elem_of_lookup_2.
Qed.

Lemma strbuf_vsprintf_bounded sb c t :
  bounded n m sb c -> Z.of_nat n <= INT_MAX -> zlen t <= INT_MAX ->
  exists sb' r, strbuf_vsprintf sb (Some t) = Some (sb', r) /\ bounded n m sb' (c + zlen t).
Proof.
  intros Hb Hmax Ht. pose proof (bounded_mem _ _ Hb) as [Hl Hn]. pose proof Hb as (Hst & He & Hc & Hc0 & _).
  unfold strbuf_vsprintf, INT_MAX in *. rewrite ci_Some by (unfold INT_MIN, INT_MAX; lia). cbn [mbind option_bind].
  rewrite Hst, He, Hc. destruct (Z.ltb_spec c (Z.of_nat n - 1)) as [Hr|Hr].
  - rewrite i32_id by (unfold INT_MIN, INT_MAX; lia). rewrite (proj2 (Z.ltb_lt _ _)) by lia.
    destruct (zblit_within (sb_mem sb) c (take (Z.to_nat (Z.of_nat n - 1 - c + 1 - 1)) t)) as (m1 & -> & Hw & H0);
      [lia|rewrite length_take; lia|done|].
    cbn [mbind option_bind].
    assert (Hpoke : exists m2, (if Z.of_nat n - 1 - c + 1 <=? zlen t then poke (set_mem sb m1) (Z.of_nat n - 1) 0
        else Some (set_mem sb m1)) = Some (set_mem sb m2) /\ within n (sb_mem sb) m2 /\ 0 ∈ take n m2).
    { destruct (Z.leb_spec (Z.of_nat n - 1 - c + 1) (zlen t)); [|by exists m1].
      destruct (nul_within n m1 (Z.of_nat n - 1)) as (m2 & Hz & Hw2 & H2); [lia|by rewrite (proj1 Hw)|].
      exists m2. unfold poke. cbn [set_mem sb_mem]. rewrite Hz. split; [done|]. split; [by eapply within_trans|done]. }
    destruct Hpoke as (m2 & -> & Hw2 & H2). cbn [mbind option_bind]. do 2 eexists. split; [done|].
    cbn [set_current set_mem sb_start sb_end sb_current sb_mem]. rewrite Hc. apply (bounded_written _ _ sb c); [done|lia|done|done].
  - cbn [mbind option_bind]. do 2 eexists. split; [done|]. rewrite Hc. apply (bounded_counted _ _ sb c); [done|lia].
Qed.

Lemma strbuf_trunc_bounded sb c offset :
  bounded n m sb c ->
  exists sb', strbuf_trunc sb offset = Some sb' /\ bounded n m sb' (count_step n c (Trunc offset)).
Proof.
  intros Hb. pose proof (bounded_mem _ _ Hb) as [Hl Hn]. pose proof Hb as (Hst & He & Hc & Hc0 & _).
  unfold strbuf_trunc. set (c' := count_step n c (Trunc offset)).
  assert (Hc' : 0 <= c') by (subst c'; cbn [count_step]; destruct (Z.ltb_spec offset 0); lia).
  assert (Hcur : (if offset <? 0 then set_current sb (if offset <=? - strbuf_end sb then 0 else strbuf_end sb + offset)
                  else if offset <? sb_current sb then set_current sb offset else sb) = set_current sb c').
  { subst c'. cbn [count_step]. destruct (Z.ltb_spec offset 0).
    - f_equal. unfold strbuf_end. rewrite He, Hc. destruct (Z.ltb_spec (Z.of_nat n - 1) c);
        case_match eqn:E; apply Z.leb_le in E || apply Z.leb_gt in E; lia.
    - rewrite Hc. destruct (Z.ltb_spec offset c); [f_equal; lia|]. rewrite Z.min_l by lia. destruct sb. cbn in *. by rewrite Hc. }
  rewrite Hcur. pose proof (bounded_counted _ _ _ _ _ Hb Hc') as Hb'. rewrite (bounded_room _ _ Hb').
  destruct (Z.ltb_spec c' (Z.of_nat n - 1)); [|by eexists].
  unfold poke. cbn [set_current sb_mem sb_current].
  destruct (nul_within n (sb_mem sb) c') as (m1 & -> & Hw & H0); [lia|done|]. eexists. split; [done|].
  cbn. by apply (bounded_written _ _ sb c).
Qed.

Lemma strbuf_reset_bounded sb c :
  bounded n m sb c -> exists sb', strbuf_reset sb = Some sb' /\ bounded n m sb' 0.
Proof.
  intros Hb. pose proof (bounded_mem _ _ Hb) as [Hl Hn]. pose proof Hb as (Hst & _).
  unfold strbuf_reset, poke. cbn [set_current sb_start sb_mem]. rewrite Hst.
  destruct (nul_within n (sb_mem sb) 0) as (m1 & -> & Hw & H0); [lia|done|]. eexists. split; [done|].
  unfold set_mem, set_current. cbn [sb_start sb_end sb_mem sb_current]. by apply (bounded_written _ _ sb c).
Qed.

Lemma sb_step_bounded sb c op :
  bounded n m sb c -> Z.of_nat n <= INT_MAX -> sb_call op ->
  exists sb', sb_step sb op = Some sb' /\ bounded n m sb' (count_step n c op).
Proof.
  intros Hb Hmax Hop. destruct op as [t|t len|ch|data|t| |offset|]; cbn [sb_step sb_call] in *.
  - by apply strbuf_puts_bounded.
  - by apply strbuf_ncat_bounded.
  - by apply strbuf_putc_bounded.
  - by apply strbuf_tohex_bounded.
  - destruct (strbuf_vsprintf_bounded sb c t Hb Hmax Hop) as (sb' & r & -> & H). by exists sb'.
  - by exists sb.
  - by apply strbuf_trunc_bounded.
  - by eapply strbuf_reset_bounded.
Qed.

Lemma sb_run_bounded ops : forall sb c,
  bounded n m sb c -> Z.of_nat n <= INT_MAX -> Forall sb_call ops ->
  exists sb', sb_run sb ops = Some sb' /\ bounded n m sb' (foldl (count_step n) c ops).
Proof.
  induction ops as [|op ops IH]; intros sb c Hb Hmax Hops; [by exists sb|]. cbn [sb_run foldl].
  apply Forall_cons in Hops as [Hop Hops].
  destruct (sb_step_bounded sb c op Hb Hmax Hop) as (sb1 & -> & Hb1). by apply IH.
Qed.
End bounded.

Lemma sb_run_app ops1 ops2 : forall sb, sb_run sb (ops1 ++ ops2) = (sb ← sb_run sb ops1; sb_run sb ops2).
Proof.
  induction ops1 as [|op ops1 IH]; intros sb; [done|]. cbn [app sb_run].
  destruct (sb_step sb op) as [sb1|]; [apply IH|done].
Qed.

Lemma holds_bounded n m sb s :
  holds n sb s -> length (sb_mem sb) = length m -> drop n (sb_mem sb) = drop n m -> bounded n m sb (zlen s).
Proof.
  intros (Hst & He & Hc & Hs & Hn & Hm) Hl Hd. unfold bounded. split_and!; try done; [lia..|].
  rewrite Hm, take_app, take_ge by (rewrite length_take; lia). rewrite length_take.
  destruct (n - Nat.min (n - 1) (length s))%nat eqn:E; [lia|]. cbn [take]. set_solver.
Qed.

Lemma strbuf_init_zero x m :
  strbuf_init (Some (x :: m)) 0 = Some (mk_sb true (0 :: m) (Some (-1)) 0).
Proof. unfold strbuf_init, strbuf_reset, poke. rewrite bool_decide_eq_true_2 by done. cbn. by rewrite zset_Some by (simpl; lia). Qed.

(** [C22] A strbuf of a size [n] from 1 to INT_MAX on a buffer of at least that size.  Whatever
    is called - with strings that end, lengths past their end or not, NULs among the characters,
    formats that fail - is defined, writes only the first [n] bytes and leaves a NUL among
    them; strbuf_count is the sum of what each call counts, cut by truncation and reset, and
    strbuf_overrun says whether it exceeds [n - 1].  When the calls append characters other than NUL and no
    strbuf_ncat is given a length past the end of its text, the buffer holds, with its NUL, as much
    of the text assembled without a limit as fits, strbuf_len is the length of that and
    strbuf_count the length of the whole text.  When a strbuf_ncat with a length past the end of
    its text follows such calls, the buffer holds what fits of the text with that text appended, but
    the length is what is counted, and not the minimum that strbuf.h gives.  With size zero the
    first byte of the buffer is overwritten all the same, although strbuf.h says nothing is written. *)
Theorem strbuf_refines m n :
  (n <= length m)%nat -> Z.of_nat n <= INT_MAX ->
  match n with
  | O => match m with
         | [] => strbuf_init (Some m) 0 = None
         | _ :: m' => strbuf_init (Some m) 0 = Some (mk_sb true (0 :: m') (Some (-1)) 0)
         end
  | _ => exists sb0, strbuf_init (Some m) (Z.of_nat n) = Some sb0 /\
      forall ops, Forall sb_call ops ->
      exists sb, sb_run sb0 ops = Some sb /\ length (sb_mem sb) = length m /\ drop n (sb_mem sb) = drop n m /\
        0 ∈ take n (sb_mem sb) /\ strbuf_count sb = foldl (count_step n) 0 ops /\
        strbuf_overrun sb = (Z.of_nat n - 1 <? strbuf_count sb) /\
        (Forall sb_op_ok ops ->
         let s := foldl (text_step n) [] ops in
         c_text (sb_mem sb) = take (n - 1) s /\ strbuf_len sb = zlen (take (n - 1) s) /\ strbuf_count sb = zlen s /\
         forall t r (len : nat), text t -> (length t < len)%nat ->
         exists sb', sb_step sb (Ncat (t ++ 0 :: r) len) = Some sb' /\
           c_text (sb_mem sb') = take (n - 1) (s ++ t) /\ strbuf_count sb' = zlen s + Z.of_nat len)
  end.
Proof.
  intros Hn Hmax. destruct n as [|n']; [destruct m; [done|apply strbuf_init_zero]|].
  set (n := S n') in *. destruct (strbuf_init_spec m n) as (sb0 & Hi & Hh & Hd); [lia|].
  exists sb0. split; [done|]. intros ops Hops.
  assert (Hb : bounded n m sb0 0) by (apply (holds_bounded n m sb0 []); [done|by eapply strbuf_init_length|done]).
  destruct (sb_run_bounded n m ops sb0 0 Hb Hmax Hops) as (sb & Hr & (_ & He & Hc & _ & _ & [Hl Hdr] & H0)).
  exists sb. split_and!; [done|done|done|done|done|by unfold strbuf_overrun, strbuf_count; rewrite He|].
  intros Hok. cbn zeta. destruct (sb_run_spec n ops sb0 [] Hh Hmax Hok) as (sb1 & Hr1 & Hh1 & _).
  rewrite Hr in Hr1. injection Hr1 as <-.
  destruct (holds_observed n sb _ Hh1) as (H1 & H2 & H3 & _). split_and!; [done|done|done|].
  intros t r len Ht Hlen. cbn [sb_step]. rewrite (strbuf_ncat_long n sb _ t r len Hh1 Ht Hlen).
  eexists. split; [done|]. split; [|done]. apply c_text_app. apply Forall_take, Forall_app. split; [|done]. apply Hh1.
Qed.

Lemma strbuf_refines_witness :
  exists sb0 sb, strbuf_init (Some (replicate 8 255)) 6 = Some sb0 /\
    sb_run sb0 [Puts (bytes_of_string "ab"); Tohex [16; 171]; Trunc (-2); Putc 46] = Some sb /\
    c_text (sb_mem sb) = bytes_of_string "ab1." /\ drop 6 (sb_mem sb) = [255; 255] /\
    exists sb', strbuf_ncat sb (bytes_of_string "xy" ++ [0]) 5 = Some sb' /\
      c_text (sb_mem sb') = bytes_of_string "ab1.x" /\ strbuf_count sb' = 9.
Proof.
  destruct (strbuf_refines (replicate 8 255) 6) as (sb0 & H0 & H).
  - simpl. lia.
  - discriminate.
  - destruct (H [Puts (bytes_of_string "ab"); Tohex [16; 171]; Trunc (-2); Putc 46]) as (sb & H1 & _ & H2 & _ & _ & _ & H3).
    { repeat constructor; discriminate. }
    destruct H3 as (H4 & _ & _ & H5).
    { repeat constructor; discriminate. }
    destruct (H5 (bytes_of_string "xy") [] 5%nat) as (sb' & H6 & H7 & H8).
    { repeat constructor; discriminate. }
    { simpl. lia. }
    exists sb0, sb. split; [exact H0|]. split; [exact H1|]. split; [exact H4|]. split; [exact H2|].
    exists sb'. split; [exact H6|]. split; [exact H7|exact H8].
Defined.

(** ** Where the code and its documentation part *)

(** A buffer of size zero is written to. *)
Lemma strbuf_size_zero_writes m : strbuf_init (Some m) 0 = None <-> m = [].
Proof.
  unfold strbuf_init, strbuf_reset. rewrite bool_decide_eq_true_2 by done.
  cbn. unfold poke. cbn. destruct m as [|x m]; [done|]. rewrite zset_Some by (simpl; lia). done.
Qed.

(** strbuf_ncat counts [len] characters also when the text is shorter, and what is appended next
    is behind the NUL. *)
Lemma strbuf_ncat_counts_len :
  (sb ← strbuf_init (Some (replicate 8 255)) 8; sb ← strbuf_ncat sb (bytes_of_string "a" ++ [0]) 3;
   sb ← strbuf_puts sb (bytes_of_string "b" ++ [0]); Some (strbuf_count sb, c_text (sb_mem sb)))
  = Some (4, bytes_of_string "a").
Proof. reflexivity. Qed.

(** strbuf_substr gives a place past the NUL for an offset past the end of the text. *)
Lemma strbuf_substr_past_end :
  (sb ← strbuf_init (Some (replicate 8 255)) 8; sb ← strbuf_puts sb (bytes_of_string "a" ++ [0]);
   Some (strbuf_len sb, strbuf_substr sb 5)) = Some (1, Some 5).
Proof. reflexivity. Qed.

(** strbuf_init with NULL and zero does not make the strbuf that strbuf_is_empty looks for. *)
Lemma strbuf_null_not_empty : strbuf_is_empty <$> strbuf_init None 0 = Some false.
Proof. reflexivity. Qed.

(** strbuf_remaining does not count the NUL. *)
Lemma strbuf_remaining_less :
  (sb ← strbuf_init (Some (replicate 8 255)) 8; Some (strbuf_remaining sb, strbuf_size sb - strbuf_len sb)) = Some (7, 8).
Proof. reflexivity. Qed.
