(* ===== verification/StrbufHelpers.v ===== *)
(** StrbufHelpers: strbuf_helpers.c and the printing functions of str.c: text and bytes made
    printable, quoted words, joined paths. *)

From S2P Require Import Prelude Str Strlcpy Strbuf.

Definition str (s : string) : list Z := bytes_of_string s.
Definition c_str (s : string) : list Z := bytes_of_string s ++ [0].

(** ** The functions *)

(** The text of the format %02x. *)
Definition lower_hexdig (v : Z) : Z := nth (Z.to_nat v) (str "0123456789abcdef") 0.
Definition format_02x (c : Z) : list Z := [lower_hexdig (Z.shiftr c 4); lower_hexdig (Z.land c 15)].

(** A character is a byte; those from 128 on are printed in hexadecimal whether or not char is
    signed. *)
Definition _toprint (sb : strbuf) (c : Z) : option strbuf :=
  if c =? 0 then strbuf_puts sb [92; 48; 0]
  else if c =? 10 then strbuf_puts sb [92; 110; 0]
  else if c =? 13 then strbuf_puts sb [92; 114; 0]
  else if c =? 9 then strbuf_puts sb [92; 116; 0]
  else if c =? 92 then strbuf_puts sb [92; 92; 0]
  else if (32 <=? c) && (c <=? 126) then strbuf_putc sb c
  else fst <$> strbuf_vsprintf sb (Some ([92; 120] ++ format_02x c)).

Definition DOTS : list Z := str "...".

Definition _overrun (sb : strbuf) (suffix : list Z) : option strbuf :=
  if strbuf_overrun sb then
    sb ← strbuf_trunc sb (- zlen suffix);
    strbuf_puts sb (suffix ++ [0])
  else Some sb.

Definition _overrun_quote (sb : strbuf) (quote : Z) (suffix : list Z) : option strbuf :=
  if strbuf_overrun sb then
    sb ← strbuf_trunc sb (- zlen suffix - (if quote =? 0 then 0 else 1));
    sb ← (if quote =? 0 then Some sb else strbuf_putc sb quote);
    strbuf_puts sb (suffix ++ [0])
  else Some sb.

(** A loop over the characters of [buf] that stops at an overrun. *)
Fixpoint print_loop (f : strbuf -> Z -> option strbuf) (sb : strbuf) (buf : list Z) : option strbuf :=
  match buf with
  | [] => Some sb
  | c :: buf => if strbuf_overrun sb then Some sb else sb ← f sb c; print_loop f sb buf
  end.

(** [buf] has the [len] bytes. *)
Definition strbuf_toprint_len (sb : strbuf) (buf : list Z) : option strbuf :=
  sb ← print_loop _toprint sb buf;
  _overrun sb DOTS.

(** [quotes] is [None] for NULL. *)
Definition quoted_char (quotes : option (Z * Z)) (sb : strbuf) (c : Z) : option strbuf :=
  if match quotes with Some q => c =? q.2 | None => false end
  then sb ← strbuf_putc sb 92; strbuf_putc sb c
  else _toprint sb c.

Definition put_quote (sb : strbuf) (q : Z) : option strbuf := if q =? 0 then Some sb else strbuf_putc sb q.

Definition strbuf_toprint_quoted_len (sb : strbuf) (quotes : option (Z * Z)) (buf : list Z) : option strbuf :=
  sb ← put_quote sb (default 0 (fst <$> quotes));
  sb ← print_loop (quoted_char quotes) sb buf;
  sb ← put_quote sb (default 0 (snd <$> quotes));
  _overrun_quote sb (default 0 (snd <$> quotes)) DOTS.

(** The characters of a C string up to its NUL. *)
Definition c_chars (str : list Z) : option (list Z) := n ← strlen str; Some (take (Z.to_nat n) str).

Definition strbuf_toprint (sb : strbuf) (str : list Z) : option strbuf :=
  t ← c_chars str; strbuf_toprint_len sb t.
Definition strbuf_toprint_quoted (sb : strbuf) (quotes : option (Z * Z)) (str : list Z) : option strbuf :=
  t ← c_chars str; strbuf_toprint_quoted_len sb quotes t.

Fixpoint strbuf_path_join (sb : strbuf) (segments : list (list Z)) : option strbuf :=
  match segments with
  | [] => Some sb
  | segment :: segments =>
      first ← segment !! O;
      sb ← (if first =? 47 then strbuf_reset sb
            else if negb (strbuf_len sb =? 0) then
              p ← strbuf_substr sb (-1);
              c ← zget (sb_mem sb) p;
              if negb (c =? 47) then strbuf_putc sb 47 else Some sb
            else Some sb);
      sb ← strbuf_puts sb segment;
      strbuf_path_join sb segments
  end.

Definition is_shellmeta (c : Z) : bool :=
  negb (isalpha c || isdigit c || (c =? 46) || (c =? 45) || (c =? 47) || (c =? 58) || (c =? 43) || (c =? 95) || (c =? 44)).

Fixpoint quote_loop (sb : strbuf) (word : list Z) : option strbuf :=
  match word with
  | [] => Some sb
  | c :: word =>
      sb ← (if c =? 39 then strbuf_puts sb [39; 92; 39; 39; 0] else strbuf_putc sb c);
      quote_loop sb word
  end.

Definition strbuf_append_shell_quote (sb : strbuf) (word : list Z) : option strbuf :=
  t ← c_chars word;
  sb ← strbuf_putc sb 39;
  sb ← quote_loop sb t;
  strbuf_putc sb 39.

Definition strbuf_append_shell_quotemeta (sb : strbuf) (word : list Z) : option strbuf :=
  t ← c_chars word;
  if bool_decide (t = []) || existsb is_shellmeta t then strbuf_append_shell_quote sb word
  else strbuf_puts sb word.

(** [None] in [argv] is NULL. *)
Fixpoint append_argv_loop (sb : strbuf) (first : bool) (argv : list (option (list Z))) : option strbuf :=
  match argv with
  | [] => Some sb
  | a :: argv =>
      sb ← (if first then Some sb else strbuf_putc sb 32);
      sb ← (match a with
            | Some w => strbuf_toprint_quoted sb (Some (34, 34)) w
            | None => strbuf_puts sb (c_str "NULL")
            end);
      append_argv_loop sb false argv
  end.
Definition strbuf_append_argv (sb : strbuf) (argv : list (option (list Z))) : option strbuf :=
  append_argv_loop sb true argv.

(** str.c; [dstStr] is the memory of the destination. *)
Definition toprint (dstStr : list Z) (dstBufSiz : Z) (srcBuf : list Z) (quotes : option (Z * Z)) : option (list Z) :=
  b ← strbuf_init (Some dstStr) dstBufSiz;
  b ← strbuf_toprint_quoted_len b quotes srcBuf;
  Some (sb_mem b).

Definition toprint_len (srcBuf : list Z) (quotes : option (Z * Z)) : option Z :=
  b ← strbuf_init None 0;
  b ← strbuf_toprint_quoted_len b quotes srcBuf;
  Some (strbuf_count b).

Definition toprint_str (dstStr : list Z) (dstBufSiz : Z) (srcStr : option (list Z)) (quotes : option (Z * Z))
    : option (list Z) :=
  b ← strbuf_init (Some dstStr) dstBufSiz;
  b ← (match srcStr with Some s => strbuf_toprint_quoted b quotes s | None => strbuf_puts b (c_str "NULL") end);
  Some (sb_mem b).

Definition toprint_str_len (srcStr : option (list Z)) (quotes : option (Z * Z)) : option Z :=
  match srcStr with
  | Some s => b ← strbuf_init None 0; b ← strbuf_toprint_quoted b quotes s; Some (strbuf_count b)
  | None => Some 4
  end.

(** ** What is printed *)

(** The printed form of a byte. *)
Definition print_op (c : Z) : sb_op :=
  if c =? 0 then Puts [92; 48]
  else if c =? 10 then Puts [92; 110]
  else if c =? 13 then Puts [92; 114]
  else if c =? 9 then Puts [92; 116]
  else if c =? 92 then Puts [92; 92]
  else if (32 <=? c) && (c <=? 126) then Putc c
  else Sprintf ([92; 120] ++ format_02x c).

Definition op_text (op : sb_op) : list Z := text_step 0 [] op.
Definition printed_char (quotes : option (Z * Z)) (c : Z) : list Z :=
  if match quotes with Some q => c =? q.2 | None => false end then [92; c] else op_text (print_op c).
Definition quote_text (q : Z) : list Z := if q =? 0 then [] else [q].
Definition opening (quotes : option (Z * Z)) : list Z := quote_text (default 0 (fst <$> quotes)).
Definition closing (quotes : option (Z * Z)) : list Z := quote_text (default 0 (snd <$> quotes)).
Definition printed_body (quotes : option (Z * Z)) (buf : list Z) : list Z := flat_map (printed_char quotes) buf.
Definition printed (quotes : option (Z * Z)) (buf : list Z) : list Z :=
  opening quotes ++ printed_body quotes buf ++ closing quotes.

Lemma toprint_step sb c : _toprint sb c = sb_step sb (print_op c).
Proof.
  unfold _toprint, print_op. repeat (match goal with |- context [if ?b then _ else _] => destruct b end; [done|]).
  done.
Qed.

Lemma lower_hexdig_ok v : 0 <= v < 16 -> lower_hexdig v <> 0 /\ isxdigit (lower_hexdig v) = true /\
  hexvalue (lower_hexdig v) = v.
Proof.
  intros Hv. assert (Hn : (Z.to_nat v < 16)%nat) by lia.
  replace v with (Z.of_nat (Z.to_nat v)) by lia. revert Hn. generalize (Z.to_nat v). intros k Hk.
  do 16 (destruct k as [|k]; [by vm_compute|]). lia.
Qed.

Lemma nibbles c : is_byte c -> 0 <= Z.shiftr c 4 < 16 /\ 0 <= Z.land c 15 < 16.
Proof.
  unfold is_byte. intros H. rewrite Z.shiftr_div_pow2 by lia. change (2 ^ 4) with 16. split.
  - split; [apply Z.div_pos; lia|apply Z.div_lt_upper_bound; lia].
  - change 15 with (Z.ones 4). rewrite Z.land_ones by lia. apply Z.mod_pos_bound. lia.
Qed.

Lemma print_op_ok c : is_byte c -> sb_op_ok (print_op c) /\ text (op_text (print_op c)) /\ op_text (print_op c) <> [] /\
  (length (op_text (print_op c)) <= 4)%nat.
Proof.
  intros Hc. destruct (nibbles c Hc) as [H1 H2].
  assert (Hx : text ([92; 120] ++ format_02x c)).
  { repeat constructor; try done; by apply lower_hexdig_ok. }
  unfold print_op, op_text. destruct (Z.eqb_spec c 0); [subst; by split_and!; repeat constructor|].
  repeat (match goal with |- context [if ?b then _ else _] => destruct b end;
          [by split_and!; try (repeat constructor; done); simpl; lia|]).
  split_and!; try done; simpl; lia.
Qed.

Lemma op_text_app n s c : text_step n s (print_op c) = s ++ op_text (print_op c).
Proof.
  unfold print_op, op_text. repeat (match goal with |- context [if ?b then _ else _] => destruct b end; [done|]). done.
Qed.

Definition quotes_ok (quotes : option (Z * Z)) : Prop :=
  match quotes with Some (a, b) => a <> 0 /\ b <> 0 | None => True end.

Lemma printed_char_text quotes c : quotes_ok quotes -> is_byte c -> text (printed_char quotes c).
Proof.
  intros Hq Hc. unfold printed_char. destruct quotes as [[a b]|]; [|by apply print_op_ok]. cbn [snd].
  destruct (Z.eqb_spec c b) as [->|]; [|by apply print_op_ok]. destruct Hq. by repeat constructor.
Qed.

(** ** In a buffer *)

Section buffer.
Context (n : nat) (quotes : option (Z * Z)).
Hypothesis Hn : Z.of_nat n <= INT_MAX.
Hypothesis Hq : quotes_ok quotes.

Lemma quoted_char_spec sb s c :
  holds n sb s -> is_byte c ->
  exists sb', quoted_char quotes sb c = Some sb' /\ holds n sb' (s ++ printed_char quotes c) /\
    drop n (sb_mem sb') = drop n (sb_mem sb).
Proof.
  intros Hh Hc. unfold quoted_char, printed_char.
  assert (Hplain : exists sb', _toprint sb c = Some sb' /\ holds n sb' (s ++ op_text (print_op c)) /\
    drop n (sb_mem sb') = drop n (sb_mem sb)).
  { rewrite toprint_step, <- op_text_app with (n := n). apply sb_step_spec; try done. by apply print_op_ok. }
  destruct quotes as [[a b]|]; [|done]. cbn [snd] in *. destruct (Z.eqb_spec c b) as [->|]; [|done].
  destruct (strbuf_putc_spec n sb s 92 Hh) as (sb1 & -> & Hh1 & Hd1); [done|]. cbn [mbind option_bind].
  destruct (strbuf_putc_spec n sb1 _ b Hh1) as (sb2 & -> & Hh2 & Hd2); [apply Hq|].
  exists sb2. rewrite <- app_assoc in Hh2. split; [done|]. split; [done|congruence].
Qed.

Lemma put_quote_spec sb s q :
  holds n sb s ->
  exists sb', put_quote sb q = Some sb' /\ holds n sb' (s ++ quote_text q) /\
    drop n (sb_mem sb') = drop n (sb_mem sb).
Proof.
  intros Hh. unfold put_quote, quote_text. destruct (Z.eqb_spec q 0).
  - exists sb. by rewrite app_nil_r.
  - by apply strbuf_putc_spec.
Qed.

(** The loop prints all, or stops after an overrun. *)
Lemma print_loop_spec buf : forall sb s,
  holds n sb s -> are_bytes buf ->
  exists sb' k, print_loop (quoted_char quotes) sb buf = Some sb' /\
    holds n sb' (s ++ printed_body quotes (take k buf)) /\ drop n (sb_mem sb') = drop n (sb_mem sb) /\
    (take k buf = buf \/ (n - 1 < length (s ++ printed_body quotes (take k buf)))%nat).
Proof.
  induction buf as [|c buf IH]; intros sb s Hh Hb.
  { exists sb, O. cbn. rewrite app_nil_r. auto. }
  apply Forall_cons in Hb as [Hc Hb]. cbn [print_loop].
  destruct (holds_observed _ _ _ Hh) as (_ & _ & _ & Ho). rewrite Ho.
  destruct (Nat.ltb_spec (n - 1) (length s)) as [Hov|Hov].
  - exists sb, O. cbn. rewrite app_nil_r. auto.
  - destruct (quoted_char_spec sb s c Hh Hc) as (sb1 & -> & Hh1 & Hd1). cbn [mbind option_bind].
    destruct (IH sb1 _ Hh1 Hb) as (sb2 & k & -> & Hh2 & Hd2 & Hk). exists sb2, (S k).
    cbn [firstn printed_body flat_map]. rewrite <- app_assoc in Hh2, Hk. rewrite Hd2.
    split; [done|]. split; [done|]. split; [done|]. destruct Hk as [->|Hk]; [by left|by right].
Qed.

(** What is left when the text [t] does not fit. *)
Definition with_dots (t : list Z) : list Z :=
  take (n - 1 - (3 + length (closing quotes))) t ++ closing quotes ++ DOTS.

Lemma overrun_quote_spec sb s :
  holds n sb s ->
  exists sb', _overrun_quote sb (default 0 (snd <$> quotes)) DOTS = Some sb' /\
    holds n sb' (if (n - 1 <? length s)%nat then with_dots s else s) /\ drop n (sb_mem sb') = drop n (sb_mem sb).
Proof.
  intros Hh. unfold _overrun_quote. destruct (holds_observed _ _ _ Hh) as (_ & _ & _ & Ho). rewrite Ho.
  destruct (Nat.ltb_spec (n - 1) (length s)) as [Hov|Hov]; [|by exists sb].
  set (q := default 0 (snd <$> quotes)).
  destruct (strbuf_trunc_spec n sb s (- zlen DOTS - (if q =? 0 then 0 else 1)) Hh) as (sb1 & -> & Hh1 & Hd1).
  cbn [mbind option_bind].
  assert (Htr : truncated n s (- zlen DOTS - (if q =? 0 then 0 else 1)) = take (n - 1 - (3 + length (closing quotes))) s).
  { unfold truncated, closing, quote_text. fold q. change (zlen DOTS) with 3.
    rewrite (proj2 (Z.ltb_lt _ _)) by (destruct (q =? 0); lia). f_equal. rewrite length_take.
    destruct (q =? 0); simpl length; lia. }
  rewrite Htr in Hh1.
  destruct (put_quote_spec sb1 _ q Hh1) as (sb2 & Hp2 & Hh2 & Hd2). unfold put_quote in Hp2. rewrite Hp2.
  cbn [mbind option_bind].
  destruct (strbuf_puts_spec n sb2 _ DOTS [] Hh2) as (sb3 & -> & Hh3 & Hd3); [by repeat constructor|].
  exists sb3. unfold with_dots. rewrite <- app_assoc in Hh3. split; [done|]. split; [done|congruence].
Qed.

Lemma toprint_quoted_spec sb buf :
  holds n sb [] -> are_bytes buf ->
  exists sb', strbuf_toprint_quoted_len sb quotes buf = Some sb' /\
    holds n sb' (if (n - 1 <? length (printed quotes buf))%nat then with_dots (printed quotes buf) else printed quotes buf) /\
    drop n (sb_mem sb') = drop n (sb_mem sb).
Proof.
  intros Hh Hb. unfold strbuf_toprint_quoted_len.
  destruct (put_quote_spec sb [] (default 0 (fst <$> quotes)) Hh) as (sb1 & -> & Hh1 & Hd1).
  cbn [mbind option_bind app] in *. fold (opening quotes) in Hh1.
  destruct (print_loop_spec buf sb1 _ Hh1 Hb) as (sb2 & k & -> & Hh2 & Hd2 & Hk). cbn [mbind option_bind].
  destruct (put_quote_spec sb2 _ (default 0 (snd <$> quotes)) Hh2) as (sb3 & -> & Hh3 & Hd3).
  cbn [mbind option_bind]. fold (closing quotes) in Hh3. rewrite <- app_assoc in Hh3.
  set (A := opening quotes ++ printed_body quotes (take k buf) ++ closing quotes) in *.
  destruct (overrun_quote_spec sb3 A Hh3) as (sb4 & -> & Hh4 & Hd4). exists sb4. split; [done|].
  split; [|congruence].
  destruct Hk as [Hall|Hk].
  { subst A. rewrite Hall in Hh4. done. }
  (* the loop stopped early: what is kept is the same *)
  assert (Hpre : exists x, printed quotes buf = (opening quotes ++ printed_body quotes (take k buf)) ++ x).
  { exists (printed_body quotes (drop k buf) ++ closing quotes). unfold printed, printed_body.
    rewrite <- (take_drop k buf) at 1. rewrite flat_map_app, <- !app_assoc. done. }
  destruct Hpre as [x Hx].
  rewrite (proj2 (Nat.ltb_lt _ _)) in Hh4 by (subst A; rewrite app_assoc, (length_app (_ ++ _)); lia).
  rewrite (proj2 (Nat.ltb_lt _ _)) by (rewrite Hx, (length_app (_ ++ _)); lia).
  assert (Hw : with_dots A = with_dots (printed quotes buf)); [|by rewrite <- Hw].
  unfold with_dots. f_equal. rewrite Hx. subst A. rewrite app_assoc.
  set (B := opening quotes ++ printed_body quotes (take k buf)) in *. rewrite !(take_app_le B) by lia. done.
Qed.
End buffer.

(** ** Without a buffer *)

(** Counting only: [end] is the address below NULL. *)
Definition counts (sb : strbuf) (s : list Z) : Prop :=
  sb_start sb = false /\ sb_end sb = Some (2 ^ 64 - 1) /\ sb_current sb = zlen s.

Lemma counts_overrun sb s : counts sb s -> zlen s < 2 ^ 64 -> strbuf_overrun sb = false.
Proof. intros (_ & He & Hc) Hs. unfold strbuf_overrun. rewrite He, Hc. apply Z.ltb_ge. lia. Qed.

Lemma counts_putc sb s c : counts sb s -> exists sb', strbuf_putc sb c = Some sb' /\ counts sb' (s ++ [c]).
Proof.
  intros (Hst & He & Hc). unfold strbuf_putc, has_room. rewrite Hst. cbn [andb mbind option_bind].
  eexists. split; [done|]. unfold counts. cbn. rewrite Hc, length_app. simpl. split_and!; [done|done|lia].
Qed.

Lemma counts_puts sb s t : counts sb s -> text t -> exists sb', strbuf_puts sb (t ++ [0]) = Some sb' /\ counts sb' (s ++ t).
Proof.
  intros (Hst & He & Hc) Ht. unfold strbuf_puts, has_room. rewrite Hst. cbn [andb mbind option_bind].
  rewrite strlen_text by done. cbn [mbind option_bind].
  eexists. split; [done|]. unfold counts. cbn. rewrite Hc, length_app. split_and!; [done|done|lia].
Qed.

Lemma counts_print sb s c : counts sb s -> is_byte c -> exists sb', _toprint sb c = Some sb' /\ counts sb' (s ++ op_text (print_op c)).
Proof.
  intros Hc Hb. destruct (print_op_ok c Hb) as (_ & Ht & _). rewrite toprint_step. revert Ht. unfold print_op, op_text.
  repeat (match goal with |- context [if ?b then _ else _] => destruct b end; [intros; by (apply counts_puts || apply counts_putc)|]).
  cbn [text_step sb_step app]. intros Ht. destruct Hc as (Hst & He & Hc). unfold strbuf_vsprintf.
  rewrite ci_Some by (unfold INT_MIN, INT_MAX; simpl; lia). cbn [mbind option_bind]. rewrite Hst. cbn.
  eexists. split; [done|]. unfold counts. cbn. rewrite Hc, length_app. simpl. split_and!; [done|done|lia].
Qed.

Section count.
Context (quotes : option (Z * Z)).
Hypothesis Hq : quotes_ok quotes.

Lemma counts_quote sb s q : counts sb s -> exists sb', put_quote sb q = Some sb' /\ counts sb' (s ++ quote_text q).
Proof.
  intros Hc. unfold put_quote, quote_text. destruct (q =? 0); [exists sb; by rewrite app_nil_r|by apply counts_putc].
Qed.

Lemma counts_char sb s c :
  counts sb s -> is_byte c -> exists sb', quoted_char quotes sb c = Some sb' /\ counts sb' (s ++ printed_char quotes c).
Proof.
  intros Hc Hb. unfold quoted_char, printed_char. destruct quotes as [[a b]|]; [|by apply counts_print]. cbn [snd] in *.
  destruct (Z.eqb_spec c b) as [->|]; [|by apply counts_print].
  destruct (counts_putc sb s 92 Hc) as (sb1 & -> & Hc1). cbn [mbind option_bind].
  destruct (counts_putc sb1 _ b Hc1) as (sb2 & -> & Hc2). exists sb2. by rewrite <- app_assoc in Hc2.
Qed.

Lemma counts_loop buf : forall sb s,
  counts sb s -> are_bytes buf -> zlen (s ++ printed_body quotes buf) < 2 ^ 64 ->
  exists sb', print_loop (quoted_char quotes) sb buf = Some sb' /\ counts sb' (s ++ printed_body quotes buf).
Proof.
  induction buf as [|c buf IH]; intros sb s Hc Hb Hl; [exists sb; by rewrite app_nil_r|].
  apply Forall_cons in Hb as [Hbc Hb]. cbn [print_loop].
  rewrite (counts_overrun sb s Hc) by (rewrite length_app in Hl; lia).
  destruct (counts_char sb s c Hc Hbc) as (sb1 & -> & Hc1). cbn [mbind option_bind].
  unfold printed_body in *. cbn [flat_map] in *. rewrite app_assoc in Hl |- *. by apply IH.
Qed.

Lemma toprint_len_spec buf :
  are_bytes buf -> zlen (printed quotes buf) < 2 ^ 64 -> toprint_len buf quotes = Some (zlen (printed quotes buf)).
Proof.
  intros Hb Hl. unfold toprint_len, strbuf_toprint_quoted_len.
  change (strbuf_init None 0) with (Some (mk_sb false [] (Some (2 ^ 64 - 1)) 0)). cbn [mbind option_bind].
  destruct (counts_quote (mk_sb false [] (Some (2 ^ 64 - 1)) 0) [] (default 0 (fst <$> quotes))) as (sb1 & -> & Hc1); [done|].
  cbn [mbind option_bind app] in *. fold (opening quotes) in Hc1.
  destruct (counts_loop buf sb1 _ Hc1 Hb) as (sb2 & -> & Hc2).
  { unfold printed in Hl. rewrite !length_app in *. lia. }
  cbn [mbind option_bind].
  destruct (counts_quote sb2 _ (default 0 (snd <$> quotes)) Hc2) as (sb3 & -> & Hc3). cbn [mbind option_bind].
  fold (closing quotes) in Hc3. rewrite <- app_assoc in Hc3. unfold _overrun_quote.
  rewrite (counts_overrun sb3 _ Hc3 Hl). cbn [mbind option_bind]. unfold strbuf_count. by rewrite (proj2 (proj2 Hc3)).
Qed.
End count.

(** toprint makes any bytes printable within the size of its destination: the text is the
    printed form, in quotes, or what fits of it followed by the closing quote and three dots,
    cut to the size; nothing past the size is written; and toprint_len is the length of the printed form,
    so that a destination of one byte more holds all of it. *)
Theorem toprint_correct dst n buf quotes :
  (1 <= n <= length dst)%nat -> Z.of_nat n <= INT_MAX -> quotes_ok quotes -> are_bytes buf ->
  zlen (printed quotes buf) < 2 ^ 64 ->
  toprint_len buf quotes = Some (zlen (printed quotes buf)) /\
  exists mem, toprint dst (Z.of_nat n) buf quotes = Some mem /\ drop n mem = drop n dst /\
    c_text mem = if (n - 1 <? length (printed quotes buf))%nat
                 then take (n - 1) (with_dots n quotes (printed quotes buf)) else printed quotes buf.
Proof.
  intros Hn Hmax Hq Hb Hl. split; [by apply toprint_len_spec|]. unfold toprint.
  destruct (strbuf_init_spec dst n Hn) as (sb0 & -> & Hh & Hd). cbn [mbind option_bind].
  destruct (toprint_quoted_spec n quotes Hmax Hq sb0 buf Hh Hb) as (sb & -> & Hh' & Hd'). cbn [mbind option_bind].
  exists (sb_mem sb). split; [done|]. split; [congruence|].
  destruct (holds_observed n sb _ Hh') as (-> & _).
  destruct (Nat.ltb_spec (n - 1) (length (printed quotes buf))); [done|]. by apply take_ge.
Qed.

Lemma toprint_correct_witness :
  toprint_len [65; 10; 34] (Some (34, 34)) = Some 7 /\
  exists mem, toprint (replicate 9 255) 7 [65; 10; 34] (Some (34, 34)) = Some mem /\ drop 7 mem = [255; 255] /\
    c_text mem = [34; 65; 34; 46; 46; 46].
Proof.
  apply (toprint_correct (replicate 9 255) 7 [65; 10; 34] (Some (34, 34))).
  - simpl. lia.
  - discriminate.
  - by split.
  - repeat constructor; lia.
  - reflexivity.
Defined.

(** ** Reading back what was printed *)

Lemma fromhex_format c : is_byte c -> fromhex (format_02x c) 1 = Some (1, [c]).
Proof.
  unfold is_byte. intros Hc. assert (Hk : (Z.to_nat c < 256)%nat) by lia.
  assert (Hall : forallb (fun k => bool_decide (fromhex (format_02x (Z.of_nat k)) 1 = Some (1, [Z.of_nat k]))) (seq 0 256) = true)
    by (by vm_compute).
  rewrite forallb_forall in Hall. specialize (Hall (Z.to_nat c)).
  rewrite in_seq, bool_decide_eq_true, Z2Nat.id in Hall by lia. apply Hall. lia.
Qed.

Lemma fromprint_char fuel c rest :
  is_byte c ->
  str_fromprint (S fuel) (op_text (print_op c) ++ rest) = cons c <$> str_fromprint fuel rest.
Proof.
  intros Hc. destruct (nibbles c Hc) as [H1 H2]. unfold print_op, op_text.
  destruct (Z.eqb_spec c 0) as [->|H0]; [done|]. destruct (Z.eqb_spec c 10) as [->|H10]; [done|].
  destruct (Z.eqb_spec c 13) as [->|H13]; [done|]. destruct (Z.eqb_spec c 9) as [->|H9]; [done|].
  destruct (Z.eqb_spec c 92) as [->|H92]; [done|].
  destruct ((32 <=? c) && (c <=? 126)).
  - cbn [text_step app str_fromprint]. by rewrite (proj2 (Z.eqb_neq c 0)), (proj2 (Z.eqb_neq c 92)).
  - destruct (lower_hexdig_ok _ H1) as (_ & X1 & V1). destruct (lower_hexdig_ok _ H2) as (_ & X2 & V2).
    cbn [text_step app format_02x str_fromprint]. cbn [Z.eqb Pos.eqb]. rewrite X1, X2. cbn [negb].
    pose proof (fromhex_format c Hc) as Hfh. unfold format_02x in Hfh. rewrite Hfh. done.
Qed.

(** Quotes that str_fromprint reads as themselves: the first is not a backslash, and the last,
    which is escaped within the text, is not a character that has a meaning after a backslash. *)
Definition plain_quotes (quotes : option (Z * Z)) : Prop :=
  match quotes with Some (a, b) => a <> 0 /\ a <> 92 /\ b ∉ [0; 48; 110; 114; 116; 120] | None => True end.

Lemma plain_quotes_ok quotes : plain_quotes quotes -> quotes_ok quotes.
Proof. destruct quotes as [[a b]|]; [|done]. intros (? & _ & Hb). split; [done|]. intros ->. set_solver. Qed.

Lemma fromprint_quoted fuel quotes c rest :
  plain_quotes quotes -> is_byte c ->
  str_fromprint (S fuel) (printed_char quotes c ++ rest) = cons c <$> str_fromprint fuel rest.
Proof.
  intros Hq Hc. unfold printed_char. destruct quotes as [[a b]|]; [|by apply fromprint_char]. cbn [snd].
  destruct (Z.eqb_spec c b) as [->|]; [|by apply fromprint_char]. destruct Hq as (_ & _ & Hb).
  cbn [app str_fromprint Z.eqb Pos.eqb].
  repeat match goal with |- context [b =? ?k] => rewrite (proj2 (Z.eqb_neq b k)) by (intros ->; set_solver) end. done.
Qed.

Lemma fromprint_body quotes buf : forall fuel rest,
  plain_quotes quotes -> are_bytes buf ->
  str_fromprint (length buf + fuel) (printed_body quotes buf ++ rest) = app buf <$> str_fromprint fuel rest.
Proof.
  induction buf as [|c buf IH]; intros fuel rest Hq Hb; [cbn [length Nat.add printed_body flat_map app]; by destruct (str_fromprint fuel rest)|].
  apply Forall_cons in Hb as [Hc Hb]. unfold printed_body. cbn [flat_map length Nat.add].
  rewrite <- app_assoc, fromprint_quoted by done. fold (printed_body quotes buf). rewrite IH by done.
  by destruct (str_fromprint fuel rest).
Qed.

Lemma printed_body_length quotes buf : are_bytes buf -> (length buf <= length (printed_body quotes buf))%nat.
Proof.
  induction 1 as [|c buf Hc _ IH]; [done|]. unfold printed_body in *. cbn [flat_map length]. rewrite length_app.
  assert (1 <= length (printed_char quotes c))%nat; [|lia].
  unfold printed_char. case_match; [simpl; lia|]. destruct (print_op_ok c Hc) as (_ & _ & Hne & _).
  destruct (op_text (print_op c)); [done|simpl; lia].
Qed.

(** The quotes are read as characters of the text. *)
Lemma fromprint_printed quotes buf r fuel :
  plain_quotes quotes -> are_bytes buf -> (length (printed quotes buf) < fuel)%nat ->
  str_fromprint fuel (printed quotes buf ++ 0 :: r) = Some (opening quotes ++ buf ++ closing quotes).
Proof.
  intros Hq Hb Hf. pose proof (printed_body_length quotes buf Hb) as Hl. unfold printed in *.
  rewrite !length_app in Hf. destruct quotes as [[a b]|].
  - destruct Hq as (Ha & Ha' & Hbq). assert (Hb0 : b <> 0) by (intros ->; set_solver).
    unfold opening, closing, quote_text in *. cbn [fmap option_fmap option_map fst snd default from_option id] in *.
    rewrite (proj2 (Z.eqb_neq a 0)), (proj2 (Z.eqb_neq b 0)) in * by done. simpl length in Hf.
    replace fuel with (S (length buf + (S (S (fuel - length buf - 3))))) by lia.
    cbn [app]. rewrite <- app_assoc. cbn [app str_fromprint].
    rewrite (proj2 (Z.eqb_neq a 0)), (proj2 (Z.eqb_neq a 92)) by done. rewrite fromprint_body by done.
    cbn [str_fromprint Z.eqb]. rewrite (proj2 (Z.eqb_neq b 0)) by done.
    by destruct (Z.eqb_spec b 92) as [->|].
  - cbn in Hf. replace fuel with (length buf + S (fuel - length buf - 1))%nat by lia.
    change (opening None) with (@nil Z). change (closing None) with (@nil Z). rewrite !app_nil_r. cbn [app].
    rewrite fromprint_body by done. cbn [str_fromprint Z.eqb fmap option_fmap option_map]. by rewrite app_nil_r.
Qed.

(** [C23] toprint, with or without quotes, into a destination of [n] bytes, at most INT_MAX, that
    has room for the printed form and its NUL (which is one byte more than toprint_len gives):
    nothing behind the [n] bytes is written, and str_fromprint reads from them the bytes that were
    printed, whatever they are, between the quotes as characters.  The opening quote must not be a
    backslash and the closing one not one of 0 n r t x, which str_fromprint takes as escapes. *)
Theorem toprint_roundtrip dst n buf quotes :
  (n <= length dst)%nat -> Z.of_nat n <= INT_MAX -> are_bytes buf -> plain_quotes quotes ->
  (length (printed quotes buf) < n)%nat ->
  toprint_len buf quotes = Some (zlen (printed quotes buf)) /\
  exists mem, toprint dst (Z.of_nat n) buf quotes = Some mem /\ drop n mem = drop n dst /\
    str_fromprint n mem = Some (opening quotes ++ buf ++ closing quotes).
Proof.
  intros Hn Hmax Hb Hq Hfit. pose proof (plain_quotes_ok _ Hq) as Hqo.
  split; [apply toprint_len_spec; [done|done|unfold INT_MAX in Hmax; lia]|].
  destruct (strbuf_init_spec dst n ltac:(lia)) as (sb0 & Hi & Hh & Hd).
  destruct (toprint_quoted_spec n quotes Hmax Hqo sb0 buf Hh Hb) as (sb & Hp & Hh' & Hd').
  unfold toprint. rewrite Hi. cbn [mbind option_bind]. rewrite Hp. cbn [mbind option_bind].
  exists (sb_mem sb). split; [done|]. split; [congruence|].
  rewrite (proj2 (Nat.ltb_ge _ _)) in Hh' by lia.
  destruct Hh' as (_ & _ & _ & _ & _ & Hm). rewrite (take_ge (printed quotes buf)) in Hm by lia.
  rewrite Hm. by apply fromprint_printed.
Qed.

Lemma toprint_roundtrip_witness :
  toprint_len [0; 34; 92; 200; 10] (Some (34, 34)) = Some 14 /\
  exists mem, toprint (replicate 16 255) 15 [0; 34; 92; 200; 10] (Some (34, 34)) = Some mem /\ drop 15 mem = [255] /\
    str_fromprint 15 mem = Some [34; 0; 34; 92; 200; 10; 34].
Proof.
  apply (toprint_roundtrip (replicate 16 255) 15 [0; 34; 92; 200; 10] (Some (34, 34))).
  - simpl. lia.
  - discriminate.
  - repeat constructor; lia.
  - split; [discriminate|]. split; [discriminate|]. apply (bool_decide_unpack (34 ∉ [0; 48; 110; 114; 116; 120])). reflexivity.
  - vm_compute. lia.
Defined.

(** Without quotes the two printing functions are the same. *)
Lemma toprint_unquoted sb buf : strbuf_toprint_len sb buf = strbuf_toprint_quoted_len sb None buf.
Proof.
  assert (Hl : forall sb, print_loop _toprint sb buf = print_loop (quoted_char None) sb buf).
  { induction buf as [|c buf IH]; intros sb'; [done|]. cbn. destruct (strbuf_overrun sb'); [done|].
    destruct (_toprint sb' c); [apply IH|done]. }
  unfold strbuf_toprint_len, strbuf_toprint_quoted_len. rewrite Hl. cbn.
  by destruct (print_loop (quoted_char None) sb buf).
Qed.

(** ** Words for the shell *)

(** The characters that mean something to the shell outside of quotes. *)
Definition shell_special : list Z := str "|&;<>()$`\*?[]#~=%{}!^ " ++ [9; 10; 34; 39].

(** How the shell reads one word: quotes, escapes and plain characters. *)
Fixpoint shell_read (quoted : bool) (s : list Z) : option (list Z) :=
  match s with
  | [] => if quoted then None else Some []
  | c :: s =>
      if quoted then if c =? 39 then shell_read false s else cons c <$> shell_read true s
      else if c =? 39 then shell_read true s
      else if c =? 92 then match s with [] => None | d :: s => cons d <$> shell_read false s end
      else if bool_decide (c ∈ shell_special) then None
      else cons c <$> shell_read false s
  end.

Definition quoted_text (word : list Z) : list Z :=
  39 :: flat_map (fun c => if c =? 39 then [39; 92; 39; 39] else [c]) word ++ [39].
Definition shell_text (word : list Z) : list Z :=
  if bool_decide (word = []) || existsb is_shellmeta word then quoted_text word else word.

Lemma shell_read_quoted word :
  shell_read true (flat_map (fun c => if c =? 39 then [39; 92; 39; 39] else [c]) word ++ [39]) = Some word.
Proof.
  induction word as [|c word IH]; [done|]. cbn [flat_map]. destruct (Z.eqb_spec c 39) as [->|Hc].
  - cbn [app shell_read Z.eqb Pos.eqb]. by rewrite IH.
  - cbn [app shell_read]. rewrite (proj2 (Z.eqb_neq c 39)) by done. by rewrite IH.
Qed.

Lemma plain_not_special c : is_shellmeta c = false -> c <> 39 /\ c <> 92 /\ ~ c ∈ shell_special.
Proof.
  intros H. split_and!; [by intros ->|by intros ->|].
  intros Hin. unfold shell_special in Hin. repeat (apply elem_of_cons in Hin as [->|Hin]; [done|]).
  by apply elem_of_nil in Hin.
Qed.

Lemma shell_read_plain word : existsb is_shellmeta word = false -> shell_read false word = Some word.
Proof.
  induction word as [|c word IH]; [done|]. cbn [existsb shell_read]. intros [Hc Hw]%orb_false_iff.
  destruct (plain_not_special c Hc) as (H1 & H2 & H3).
  rewrite (proj2 (Z.eqb_neq c 39)), (proj2 (Z.eqb_neq c 92)) by done.
  rewrite bool_decide_eq_false_2 by done. by rewrite IH.
Qed.

Lemma shell_read_text word : shell_read false (shell_text word) = Some word.
Proof.
  unfold shell_text. destruct (bool_decide (word = []) || existsb is_shellmeta word) eqn:E.
  - apply shell_read_quoted.
  - apply orb_false_iff in E as [_ E]. by apply shell_read_plain.
Qed.

Lemma quote_loop_spec n word : forall sb s,
  holds n sb s -> text word ->
  exists sb', quote_loop sb word = Some sb' /\
    holds n sb' (s ++ flat_map (fun c => if c =? 39 then [39; 92; 39; 39] else [c]) word) /\
    drop n (sb_mem sb') = drop n (sb_mem sb).
Proof.
  induction word as [|c word IH]; intros sb s Hh Ht.
  { exists sb. cbn. by rewrite app_nil_r. }
  apply Forall_cons in Ht as [Hc Ht]. cbn [quote_loop flat_map].
  assert (Hstep : exists sb', (if c =? 39 then strbuf_puts sb [39; 92; 39; 39; 0] else strbuf_putc sb c) = Some sb' /\
    holds n sb' (s ++ (if c =? 39 then [39; 92; 39; 39] else [c])) /\ drop n (sb_mem sb') = drop n (sb_mem sb)).
  { destruct (c =? 39); [|by apply strbuf_putc_spec].
    apply (strbuf_puts_spec n sb s [39; 92; 39; 39] [] Hh). by repeat constructor. }
  destruct Hstep as (sb1 & -> & Hh1 & Hd1). cbn [mbind option_bind].
  destruct (IH sb1 _ Hh1 Ht) as (sb2 & -> & Hh2 & Hd2). exists sb2. rewrite <- app_assoc in Hh2.
  split; [done|]. split; [done|congruence].
Qed.

Lemma c_chars_text t r : text t -> c_chars (t ++ 0 :: r) = Some t.
Proof. intros. unfold c_chars. rewrite strlen_text by done. cbn. by rewrite Nat2Z.id, take_app_length. Qed.

Lemma shell_quotemeta_spec n sb s word r :
  holds n sb s -> text word ->
  exists sb', strbuf_append_shell_quotemeta sb (word ++ 0 :: r) = Some sb' /\ holds n sb' (s ++ shell_text word) /\
    drop n (sb_mem sb') = drop n (sb_mem sb).
Proof.
  intros Hh Ht. unfold strbuf_append_shell_quotemeta, shell_text. rewrite c_chars_text by done. cbn [mbind option_bind].
  destruct (bool_decide (word = []) || existsb is_shellmeta word); [|by apply strbuf_puts_spec].
  unfold strbuf_append_shell_quote. rewrite c_chars_text by done. cbn [mbind option_bind].
  destruct (strbuf_putc_spec n sb s 39 Hh) as (sb1 & -> & Hh1 & Hd1); [done|]. cbn [mbind option_bind].
  destruct (quote_loop_spec n word sb1 _ Hh1 Ht) as (sb2 & -> & Hh2 & Hd2). cbn [mbind option_bind].
  destruct (strbuf_putc_spec n sb2 _ 39 Hh2) as (sb3 & -> & Hh3 & Hd3); [done|].
  exists sb3. unfold quoted_text. rewrite <- !app_assoc in Hh3. split; [done|]. split; [done|congruence].
Qed.

(** A word quoted for the shell, in a buffer that is large enough, is read by the shell as that word. *)
Theorem shell_quote_roundtrip dst n word :
  (1 <= n <= length dst)%nat -> text word -> (length (shell_text word) < n)%nat ->
  exists sb0 sb, strbuf_init (Some dst) (Z.of_nat n) = Some sb0 /\
    strbuf_append_shell_quotemeta sb0 (word ++ [0]) = Some sb /\
    shell_read false (c_text (sb_mem sb)) = Some word.
Proof.
  intros Hn Ht Hfit. destruct (strbuf_init_spec dst n Hn) as (sb0 & Hi & Hh & _).
  destruct (shell_quotemeta_spec n sb0 [] word [] Hh Ht) as (sb & Hp & Hh' & _).
  exists sb0, sb. split; [done|]. split; [done|]. destruct (holds_observed n sb _ Hh') as (-> & _).
  cbn [app]. rewrite take_ge by lia. apply shell_read_text.
Qed.

Lemma shell_quote_roundtrip_witness :
  exists sb0 sb, strbuf_init (Some (replicate 20 255)) 20 = Some sb0 /\
    strbuf_append_shell_quotemeta sb0 (str "it's $x" ++ [0]) = Some sb /\
    shell_read false (c_text (sb_mem sb)) = Some (str "it's $x").
Proof.
  apply (shell_quote_roundtrip (replicate 20 255) 20 (str "it's $x")).
  - simpl. lia.
  - repeat constructor; discriminate.
  - simpl. lia.
Defined.

(** ** Paths *)

Definition join_path (s : list Z) (segment : list Z) : list Z :=
  if bool_decide (head segment = Some 47) then segment
  else if bool_decide (s = []) || bool_decide (last s = Some 47) then s ++ segment
  else s ++ 47 :: segment.

(** Joining segments that fit, each not empty: an absolute segment starts over, others are
    separated by one slash. *)
Lemma path_join_spec n segments : forall sb s,
  holds n sb s -> Forall (fun g => text g /\ g <> []) segments ->
  (forall k, (length (foldl join_path s (take k segments)) < n)%nat) ->
  exists sb', strbuf_path_join sb ((fun g => g ++ [0]) <$> segments) = Some sb' /\
    holds n sb' (foldl join_path s segments).
Proof.
  induction segments as [|g segments IH]; intros sb s Hh Hg Hfit; [by exists sb|].
  apply Forall_cons in Hg as [[Ht Hne] Hg]. cbn [fmap list_fmap strbuf_path_join foldl].
  destruct g as [|c g]; [done|]. cbn [app lookup list_lookup mbind option_bind].
  pose proof (Hfit O) as Hs. cbn in Hs. pose proof Hh as (Hst & He & Hc & Hts & Hn & Hm).
  assert (Hpre : exists sb1, (if c =? 47 then strbuf_reset sb
      else if negb (strbuf_len sb =? 0) then
        p ← strbuf_substr sb (-1); x ← zget (sb_mem sb) p; if negb (x =? 47) then strbuf_putc sb 47 else Some sb
      else Some sb) = Some sb1 /\
    holds n sb1 (if bool_decide (c = 47) then []
                 else if bool_decide (s = []) || bool_decide (last s = Some 47) then s else s ++ [47])).
  { destruct (Z.eqb_spec c 47) as [->|Hc47].
    - destruct (strbuf_reset_spec n sb s Hh) as (sb1 & -> & Hh1 & _). exists sb1. by rewrite bool_decide_eq_true_2.
    - rewrite (bool_decide_eq_false_2 (c = 47)) by done. unfold strbuf_len. rewrite (strbuf_end_spec _ _ _ Hh).
      rewrite (take_ge s) by lia. destruct s as [|a s' _] using rev_ind; [by exists sb|].
      rewrite (bool_decide_eq_false_2 (s' ++ [a] = [])) by (by destruct s'). cbn [orb].
      rewrite (proj2 (Z.eqb_neq (zlen (s' ++ [a])) 0)) by (rewrite length_app; simpl; lia). cbn [negb].
      unfold strbuf_substr. rewrite Hst, (strbuf_end_spec _ _ _ Hh), (take_ge (s' ++ [a])) by lia.
      cbn [negb Z.ltb Z.compare mbind option_bind]. rewrite length_app in *. simpl length in *.
      rewrite (proj2 (Z.ltb_ge _ _)) by lia. replace (Z.of_nat (length s' + 1) + -1) with (zlen s') by lia.
      assert (Hz : zget (sb_mem sb) (zlen s') = Some a).
      { rewrite Hm, (take_ge (s' ++ [a])) by (rewrite length_app; simpl; lia). unfold zget. zdecide.
        rewrite Nat2Z.id, <- app_assoc, lookup_app_r, Nat.sub_diag by lia. done. }
      rewrite Hz. cbn [mbind option_bind]. rewrite last_snoc.
      destruct (Z.eqb_spec a 47) as [->|Ha]; cbn [negb].
      + exists sb. by rewrite bool_decide_eq_true_2.
      + rewrite bool_decide_eq_false_2 by congruence.
        destruct (strbuf_putc_spec n sb _ 47 Hh) as (sb1 & -> & Hh1 & _); [done|]. by exists sb1. }
  destruct Hpre as (sb1 & -> & Hh1). cbn [mbind option_bind].
  destruct (strbuf_puts_spec n sb1 _ (c :: g) [] Hh1 Ht) as (sb2 & Hp2 & Hh2 & _). cbn [app] in Hp2. rewrite Hp2.
  cbn [mbind option_bind]. apply IH; [|done|intros k; apply (Hfit (S k))].
  unfold join_path. cbn [head]. revert Hh2.
  destruct (decide (c = 47)) as [->|Hc47].
  - rewrite !bool_decide_eq_true_2 by done. done.
  - rewrite (bool_decide_eq_false_2 (c = 47)), (bool_decide_eq_false_2 (Some c = Some 47)) by congruence.
    destruct (bool_decide (s = []) || bool_decide (last s = Some 47)); [done|]. by rewrite <- app_assoc.
Qed.
