(* ===== verification/Cli.v ===== *)
(** Cli: cli.c, matching the arguments of a command line with the patterns of the commands.

    Patterns and arguments are C strings, with their NUL.  The array of commands ends at the
    first without a function, and the array of its words at the first NULL, so both are
    lists here. *)

From S2P Require Import Prelude Str Strlcpy DataFormats Strbuf StrbufHelpers.

Definition COMMAND_LINE_MAX_LABELS : nat := 32.

(** [struct labelv]: [label] is the memory from the label on, [len] its length. *)
Record labelv := mk_labelv { label : list Z; len : Z; lv_text : list Z }.

(** [struct cli_parsed], without the arguments, which are those of the call. *)
Record cli_parsed := mk_parsed { cmdi : nat; labels : list labelv; varargi : Z }.

Definition is_char (c : option Z) (x : Z) : bool := match c with Some c => c =? x | None => false end.

(** strchr(3): the offset, or [None] for NULL; undefined without a NUL. *)
Fixpoint strchr (s : list Z) (c : Z) : option (option nat) :=
  match s with
  | [] => None
  | x :: s => if x =? c then Some (Some O) else if x =? 0 then Some None
              else match strchr s c with Some o => Some (S <$> o) | None => None end
  end.

(** A conversion to a signed char. *)
Definition i8 (z : Z) : Z := (z + 128) mod 256 - 128.

(** The variables of the loop over alternatives. *)
Record alts := mk_alts {
  a_arg : nat;
  a_text : option (list Z);
  a_label : list Z;
  a_labellen : Z;
  a_simple : bool;
  a_alt : Z
}.

Definition next_alt (s : alts) : alts := mk_alts (a_arg s) (a_text s) (a_label s) (a_labellen s) (a_simple s) (a_alt s + 1).

(** A plain word: the branch without a caret. *)
Definition match_simple (args : list (list Z)) (word : list Z) (wordlen : nat) (s : alts) : option alts :=
  match args !! a_arg s with
  | None => Some s
  | Some a =>
      n ← strlen a;
      same ← (if n =? Z.of_nat wordlen then c ← strncmp a word wordlen; Some (c =? 0) else Some false);
      Some (if (same : bool) then mk_alts (S (a_arg s)) (Some a) word (Z.of_nat wordlen) true (a_alt s) else s)
  end.

(** One alternative: [word] is the memory from the word, [wordlen] its length. *)
Definition match_alt (args : list (list Z)) (word : list Z) (wordlen : nat) (s : alts) : option alts :=
  let arg := a_arg s in
  caret ← strchr word 60;
  match caret with
  | Some prefixlen =>
      if (2 <? wordlen)%nat && is_char (word !! (wordlen - 1)%nat) 62 then
        let prefixarglen := i8 (Z.of_nat prefixlen) in
        if negb (prefixarglen =? 0) then
          let sep := word !! (prefixlen - 1)%nat in
          let prefixarglen := if (1 <? prefixlen)%nat && (is_char sep 61 || is_char sep 32)
                              then i8 (prefixarglen - 1) else prefixarglen in
          let s := mk_alts arg (a_text s) word (u32 prefixarglen) (a_simple s) (a_alt s) in
          match args !! arg with
          | None => Some s
          | Some a =>
              arglen ← strlen a;
              same ← (if Z.of_nat prefixlen <=? arglen then c ← strncmp a word prefixlen; Some (c =? 0) else Some false);
              if (same : bool)
              then Some (mk_alts (S arg) (Some (drop prefixlen a)) (a_label s) (a_labellen s) (a_simple s) (a_alt s))
              else
                match args !! S arg with
                | None => Some s
                | Some b =>
                    same ← (if arglen =? u32 prefixarglen
                            then c ← strncmp a word (Z.to_nat (u64 prefixarglen)); Some (c =? 0) else Some false);
                    if (same : bool)
                    then Some (mk_alts (S (S arg)) (Some b) (a_label s) (a_labellen s) (a_simple s) (a_alt s))
                    else Some s
                end
          end
        else
          let s := mk_alts arg (a_text s) (drop 1 word) (Z.of_nat wordlen - 2) (a_simple s) (a_alt s) in
          match args !! arg with
          | None => Some s
          | Some a => Some (mk_alts (S arg) (Some a) (a_label s) (a_labellen s) (a_simple s) (a_alt s))
          end
      else match_simple args word wordlen s
  | None => match_simple args word wordlen s
  end.

(** [wordlen] of the word at the start of [word], which ends before [rest] characters. *)
Fixpoint word_span (word : list Z) (rest : nat) : option nat :=
  match rest with
  | O => Some O
  | S rest => match word with
              | [] => None
              | c :: word => if c =? 124 then Some O else n ← word_span word rest; Some (S n)
              end
  end.

(** The loop over the alternatives of a pattern; [None] inside is the internal error. *)
Fixpoint alt_loop (fuel : nat) (args : list (list Z)) (pattern : list Z) (patlen word : nat) (s : alts)
    : option (option alts) :=
  if (word <? patlen)%nat then
    match fuel with
    | O => None
    | S fuel =>
        let w := drop word pattern in
        c ← w !! O;
        if c =? 124 then Some None
        else
          n ← word_span (drop 1 w) (patlen - word - 1);
          let wordlen := S n in
          s ← (match a_text s with Some _ => Some s | None => match_alt args w wordlen s end);
          alt_loop fuel args pattern patlen (word + wordlen + 1) (next_alt s)
    end
  else Some (Some s).

(** What one word of a command does: an internal error, no match, or the next argument and the labels, and
    whether the word is used again. *)
Inductive word_result :=
| WordError
| WordBreak
| WordNext (arg : nat) (ls : list labelv) (again : bool).

Definition ends_with_dots (pattern : list Z) (patlen : nat) : bool :=
  (5 <? patlen)%nat && is_char (pattern !! O) 91 && is_char (pattern !! (patlen - 4)%nat) 93 &&
  is_char (pattern !! (patlen - 3)%nat) 46 && is_char (pattern !! (patlen - 2)%nat) 46 &&
  is_char (pattern !! (patlen - 1)%nat) 46.

Definition parse_word (args : list (list Z)) (pattern : list Z) (patlen : nat) (arg : nat) (ls : list labelv)
    : option word_result :=
  let repeating := ends_with_dots pattern patlen in
  let bracketed := (2 <? patlen)%nat && is_char (pattern !! O) 91 && is_char (pattern !! (patlen - 1)%nat) 93 in
  let optional := repeating || bracketed in
  let '(pattern, patlen) := if repeating then (drop 1 pattern, (patlen - 5)%nat)
                            else if bracketed then (drop 1 pattern, (patlen - 2)%nat)
                            else (pattern, patlen) in
  let bar := negb (patlen =? 0)%nat && is_char (pattern !! O) 124 in
  if (patlen =? 0)%nat then Some WordError
  else
    r ← alt_loop (S patlen) args pattern patlen (if bar then 1 else 0)
          (mk_alts arg None [] 0 false (if bar then 1 else 0));
    match r with
    | None => Some WordError
    | Some s =>
        if a_alt s =? 0 then None (* assert *)
        else if (a_arg s =? arg)%nat && negb optional then Some WordBreak
        else
          match a_text s with
          | Some t =>
              if negb (a_labellen s =? 0) && (optional || negb (a_simple s) || (1 <? a_alt s)) then
                if (COMMAND_LINE_MAX_LABELS <=? length ls)%nat then Some WordError
                else Some (WordNext (a_arg s) (ls ++ [mk_labelv (a_label s) (a_labellen s) t]) repeating)
              else Some (WordNext (a_arg s) ls false)
          | None => Some (WordNext (a_arg s) ls false)
          end
    end.

(** What a command makes of the arguments: an internal error, or the parsed arguments if it
    matches. *)
Inductive cmd_result :=
| CmdError
| CmdNo
| CmdMatch (p : cli_parsed).

Fixpoint words_loop (fuel : nat) (cmd : nat) (args words : list (list Z)) (arg : nat) (ls : list labelv) (varargi : Z)
    : option cmd_result :=
  match words with
  | [] => Some (if (arg =? length args)%nat then CmdMatch (mk_parsed cmd ls varargi) else CmdNo)
  | pattern :: rest =>
      match fuel with
      | O => None
      | S fuel =>
          patlen ← strlen pattern;
          let patlen := Z.to_nat patlen in
          if negb (varargi =? -1) then Some CmdError
          else if (patlen =? 3)%nat && is_char (pattern !! 0%nat) 46 && is_char (pattern !! 1%nat) 46 && is_char (pattern !! 2%nat) 46
          then words_loop fuel cmd args rest (length args) ls (Z.of_nat arg)
          else
            r ← parse_word args pattern patlen arg ls;
            match r with
            | WordError => Some CmdError
            | WordBreak => Some CmdNo
            | WordNext arg ls again => words_loop fuel cmd args (if (again : bool) then words else rest) arg ls varargi
            end
      end
  end.

(** The loop over commands: the result of cli_parse, and the parsed arguments of the last command that
    matched. *)
Fixpoint commands_loop (args : list (list Z)) (commands : list (list (list Z))) (cmd : nat)
    (matched : option cli_parsed) (ambiguous : Z) : option (Z * option cli_parsed) :=
  match commands with
  | [] => Some (if negb (ambiguous =? 0) then 2 else match matched with None => 1 | Some _ => 0 end, matched)
  | words :: commands =>
      r ← words_loop (length words + length args + COMMAND_LINE_MAX_LABELS + 2) cmd args words 0 [] (-1);
      match r with
      | CmdError => Some (-1, matched)
      | CmdNo => commands_loop args commands (S cmd) matched ambiguous
      | CmdMatch p =>
          commands_loop args commands (S cmd) (Some p)
            (match matched with Some _ => ambiguous + 1 | None => ambiguous end)
      end
  end.

Definition cli_parse (args : list (list Z)) (commands : list (list (list Z))) : option (Z * option cli_parsed) :=
  commands_loop args commands 0 None 0.

(** _cli_arg: the return value, and the text if there is one ([None] keeps the default). *)
Fixpoint arg_loop (ls : list labelv) (name : list Z) (namelen : Z) (validator : option (list Z -> option bool))
    : option (Z * option (list Z)) :=
  match ls with
  | [] => Some (1, None)
  | l :: ls =>
      same ← (if len l =? namelen then c ← strncasecmp name (label l) (Z.to_nat namelen); Some (c =? 0) else Some false);
      if (same : bool) then
        valid ← (match validator with Some v => v (lv_text l) | None => Some true end);
        Some (if (valid : bool) then (0, Some (lv_text l)) else (-1, None))
      else arg_loop ls name namelen validator
  end.
Definition _cli_arg (parsed : cli_parsed) (name : list Z) (validator : option (list Z -> option bool)) : option (Z * option (list Z)) :=
  namelen ← strlen name; arg_loop (labels parsed) name namelen validator.

(** ** The usage message *)

Record cli_schema := mk_schema { words : list (list Z); description : option (list Z) }.

(** The words that there are arguments for start with them. *)
Fixpoint usage_matches (words args : list (list Z)) : option bool :=
  match args, words with
  | a :: args, w :: words =>
      n ← strlen a;
      c ← strncmp w a (Z.to_nat n);
      if c =? 0 then usage_matches words args else Some false
  | _, _ => Some true
  end.
Fixpoint usage_words (words : list (list Z)) : option (list Z) :=
  match words with
  | [] => Some []
  | w :: words =>
      t ← c_chars (if is_char (w !! 0%nat) 124 then drop 1 w else w);
      rest ← usage_words words;
      Some (32 :: t ++ rest)
  end.
(** What is printed for the commands, and whether there is one. *)
Fixpoint usage_loop (args : list (list Z)) (commands : list cli_schema) : option (list Z * bool) :=
  match commands with
  | [] => Some ([], false)
  | c :: commands =>
      matched ← usage_matches (words c) args;
      rest ← usage_loop args commands;
      if (matched : bool) then
        ws ← usage_words (words c);
        d ← (match description c with
             | Some d => t ← c_chars d; Some (if bool_decide (t = []) then [] else str "   " ++ t ++ [10])
             | None => Some []
             end);
        Some (ws ++ [10] ++ d ++ rest.1, true)
      else Some rest
  end.
(** [mem] is the memory of the strbuf on the stack. *)
Definition cli_usage_args (mem : list Z) (args : list (list Z)) (commands : list cli_schema) : option (list Z) :=
  out ← usage_loop args commands;
  if negb out.2 && negb (length args =? 0)%nat then
    b ← strbuf_init (Some mem) 160;
    b ← strbuf_append_argv b (Some <$> args);
    t ← c_chars (sb_mem b);
    Some (out.1 ++ str " No commands matching " ++ t ++ [10])
  else Some out.1.
Definition cli_usage (mem : list Z) (commands : list cli_schema) : option (list Z) := cli_usage_args mem [] commands.
Definition cli_usage_parsed (mem : list Z) (parsed : cli_parsed) (args : list (list Z)) (commands : list cli_schema) : option (list Z) :=
  if varargi parsed =? -1 then cli_usage mem commands
  else cli_usage_args mem (drop (Z.to_nat (varargi parsed)) args) commands.

(** Validators. *)
Definition cli_path_regular (arg : list Z) : option bool :=
  n ← strlen arg;
  if n =? 0 then Some false else c ← zget arg (n - 1); Some (negb (c =? 47)).
Definition cli_absolute_path (arg : list Z) : option bool :=
  c ← arg !! 0%nat;
  if c =? 47 then d ← arg !! 1%nat; Some (negb (d =? 0)) else Some false.
Fixpoint digits_then_end (s : list Z) (any : bool) : option bool :=
  match s with
  | [] => None
  | c :: s => if isdigit c then digits_then_end s true else Some (any && (c =? 0))
  end.
Definition cli_uint (arg : list Z) : option bool := digits_then_end arg false.
Definition cli_lookup_did (text : list Z) : option bool :=
  c ← text !! 0%nat;
  if c =? 0 then Some true
  else
    star ← (if c =? 42 then d ← text !! 1%nat; Some (d =? 0) else Some false);
    if (star : bool) then Some true else str_is_did text.
Definition or_empty (f : list Z -> option bool) (arg : list Z) : option bool :=
  c ← arg !! 0%nat; if c =? 0 then Some true else f arg.
Definition cli_optional_sid : list Z -> option bool := or_empty str_is_subscriber_id.
Definition cli_optional_bundle_key : list Z -> option bool := or_empty rhizome_str_is_bundle_key.
Definition cli_manifestid : list Z -> option bool := rhizome_str_is_manifest_id.
Definition cli_fileid : list Z -> option bool := rhizome_str_is_file_hash.
Definition cli_optional_bundle_crypt_key : list Z -> option bool := or_empty rhizome_str_is_bundle_crypt_key.
Definition cli_interval_ms (arg : list Z) : option bool :=
  match str_to_uint64_interval_ms arg false with
  | Some (Some _) => Some true
  | Some None => Some false
  | None => None
  end.
Definition cli_optional_did : list Z -> option bool := or_empty str_is_did.
