(* ===== verification/CliProps.v ===== *)
(** CliProps: cli_parse decides which commands the arguments match by the rules its comment gives. *)

From S2P Require Import Prelude Str Strlcpy DataFormats Cli.

(** ** The rules *)

(** An alternative: a word, [<label>], or [prefix<any>]. *)
Inductive alt :=
| Lit (w : list Z)
| Any (l : list Z)
| Pre (p l : list Z).

(** A word of a command: alternatives, perhaps after a bar; the same in brackets; in brackets and
    repeated; or all the rest. *)
Inductive form :=
| Req (bar : bool) (alts : list alt)
| Opt (alts : list alt)
| Rep (alts : list alt)
| Rest.

#[global] Instance alt_eq_dec : EqDecision alt.
Proof. solve_decision. Defined.
#[global] Instance form_eq_dec : EqDecision form.
Proof. solve_decision. Defined.

Definition plain_char (c : Z) : bool := negb (bool_decide (c ∈ [0; 124; 60; 62; 91; 93])).
Definition plain (w : list Z) : bool := negb (bool_decide (w = [])) && forallb plain_char w.

Definition alt_ok (a : alt) : bool :=
  match a with
  | Lit w => plain w && negb (bool_decide (w = [46; 46; 46]))
  | Any l => plain l
  | Pre p l => plain p && plain l && (length p <? 128)%nat
  end.
Definition form_ok (f : form) : bool :=
  match f with
  | Req _ l | Opt l | Rep l => negb (bool_decide (length l = 0%nat)) && forallb alt_ok l
  | Rest => true
  end.

(** How they are written in the table of commands. *)
Definition print_alt (a : alt) : list Z :=
  match a with Lit w => w | Any l => 60 :: l ++ [62] | Pre p l => p ++ 60 :: l ++ [62] end.
Fixpoint join_bars (l : list (list Z)) : list Z :=
  match l with
  | [] => []
  | [x] => x
  | x :: l => x ++ 124 :: join_bars l
  end.
Definition print_alts (l : list alt) : list Z := join_bars (print_alt <$> l).
Definition print_form (f : form) : list Z :=
  match f with
  | Req bar l => (if bar then [124] else []) ++ print_alts l
  | Opt l => 91 :: print_alts l ++ [93]
  | Rep l => 91 :: print_alts l ++ [93; 46; 46; 46]
  | Rest => [46; 46; 46]
  end.

(** The prefix without a separator at its end. *)
Definition argument_of (p : list Z) : list Z :=
  if (1 <? length p)%nat && (is_char (last p) 61 || is_char (last p) 32) then removelast p else p.

(** What an alternative makes of the arguments to come: a label, a text, how many arguments
    it takes, and whether it is a plain word. *)
Definition alt_match (a : alt) (args : list (list Z)) : option (list Z * list Z * nat * bool) :=
  match args with
  | [] => None
  | x :: rest =>
      match a with
      | Lit w => if bool_decide (x = w) then Some (w, x, 1%nat, true) else None
      | Any l => Some (l, x, 1%nat, false)
      | Pre p l =>
          if bool_decide (p `prefix_of` x) then Some (argument_of p, drop (length p) x, 1%nat, false)
          else match rest with
               | y :: _ => if bool_decide (x = argument_of p) then Some (argument_of p, y, 2%nat, false) else None
               | [] => None
               end
      end
  end.

(** The first alternative that matches. *)
Fixpoint alts_match (l : list alt) (args : list (list Z)) : option (list Z * list Z * nat * bool) :=
  match l with
  | [] => None
  | a :: l => match alt_match a args with Some r => Some r | None => alts_match l args end
  end.

(** The labels with their texts and the number of the first of the rest, if all words match and no
    argument is left; [None] otherwise. *)
Fixpoint form_match (fuel : nat) (forms : list form) (args : list (list Z)) (pos : nat) (ls : list (list Z * list Z))
    : option (list (list Z * list Z) * Z) :=
  match fuel with
  | O => None
  | S fuel =>
      match forms with
      | [] => match args with [] => Some (ls, -1) | _ => None end
      | Rest :: _ => Some (ls, Z.of_nat pos)
      | Req bar l :: rest =>
          match alts_match l args with
          | None => None
          | Some (label, t, k, simple) =>
              form_match fuel rest (drop k args) (pos + k)
                (if negb simple || bar || (1 <? length l)%nat then ls ++ [(label, t)] else ls)
          end
      | Opt l :: rest =>
          match alts_match l args with
          | None => form_match fuel rest args pos ls
          | Some (label, t, k, _) => form_match fuel rest (drop k args) (pos + k) (ls ++ [(label, t)])
          end
      | Rep l :: rest =>
          match alts_match l args with
          | None => form_match fuel rest args pos ls
          | Some (label, t, k, _) => form_match fuel forms (drop k args) (pos + k) (ls ++ [(label, t)])
          end
      end
  end.

(** ... is the last word of a command. *)
Fixpoint rest_last (forms : list form) : bool :=
  match forms with
  | [] => true
  | Rest :: l => bool_decide (length l = 0%nat)
  | _ :: l => rest_last l
  end.

(** ** Texts and memory *)

Definition mem_of (t : list Z) : list Z := t ++ [0].

Lemma plain_spec w : plain w = true <-> w <> [] /\ Forall (fun c => plain_char c = true) w.
Proof.
  unfold plain. rewrite andb_true_iff, negb_true_iff, bool_decide_eq_false, forallb_forall, Forall_forall.
  by setoid_rewrite list_elem_of_In.
Qed.

Lemma plain_char_ne c x : plain_char c = true -> x ∈ [0; 124; 60; 62; 91; 93] -> c <> x.
Proof. unfold plain_char. intros Hc Hx ->. by rewrite bool_decide_eq_true_2 in Hc. Qed.

Lemma plain_avoids w x : plain w = true -> x ∈ [0; 124; 60; 62; 91; 93] -> Forall (fun c => c <> x) w.
Proof.
  intros [_ Hw]%plain_spec Hx. eapply Forall_impl; [exact Hw|]. intros c Hc. by apply (plain_char_ne c x).
Qed.
Ltac in_list := repeat (first [by left | right]).

Lemma strchr_found p c r : text p -> Forall (fun x => x <> c) p -> strchr (p ++ c :: r) c = Some (Some (length p)).
Proof.
  induction 1 as [|x p Hx _ IH]; intros Hc; cbn.
  - by rewrite Z.eqb_refl.
  - apply Forall_cons in Hc as [Hxc Hc]. rewrite (proj2 (Z.eqb_neq x c)), (proj2 (Z.eqb_neq x 0)), IH by done. done.
Qed.

Lemma strchr_defined s r c : text s -> exists o, strchr (s ++ 0 :: r) c = Some o.
Proof.
  induction 1 as [|x s Hx _ [o IH]]; cbn [app strchr].
  - destruct (0 =? c); eexists; reflexivity.
  - destruct (x =? c); [eexists; reflexivity|]. rewrite (proj2 (Z.eqb_neq x 0)), IH by done. eexists; reflexivity.
Qed.

(** ** One alternative *)

(** What the state of the loop says about a match. *)
Definition records (s s' : alts) (r : option (list Z * list Z * nat * bool)) : Prop :=
  match r with
  | None => a_arg s' = a_arg s /\ a_text s' = None /\ a_simple s' = a_simple s
  | Some (l, t, k, simple) =>
      a_arg s' = (a_arg s + k)%nat /\ (exists m, a_text s' = Some m /\ c_text m = t) /\
      a_labellen s' = zlen l /\ take (length l) (a_label s') = l /\ l <> [] /\
      a_simple s' = (simple || a_simple s)
  end.

Section match_args.
Context (ats : list (list Z)).
Hypothesis Hats : Forall (fun t => text t) ats.
Let args := mem_of <$> ats.

Lemma args_at i : args !! i = mem_of <$> (ats !! i).
Proof. apply list_lookup_fmap. Qed.

Lemma drop_at i : drop i ats = match ats !! i with Some x => x :: drop (S i) ats | None => [] end.
Proof.
  destruct (ats !! i) as [x|] eqn:E; [by apply drop_S|]. apply lookup_ge_None in E. by apply drop_ge.
Qed.

Lemma at_text i x : ats !! i = Some x -> text x.
Proof. intros Hx. by apply (Forall_lookup_1 _ _ _ _ Hats Hx). Qed.

(** Comparing an argument with the start of a word. *)
Lemma compare_arg x p z : text x -> text p ->
  (if zlen x =? zlen p then c ← strncmp (mem_of x) (p ++ z) (length p); Some (c =? 0) else Some false)
  = Some (bool_decide (x = p)).
Proof.
  intros Hx Hp. destruct (Z.eqb_spec (zlen x) (zlen p)) as [E|E].
  - destruct (strncmp_prefix p x [] z Hp Hx) as (c & Hc & Hiff). unfold mem_of. rewrite Hc. cbn. f_equal.
    assert (Hl : length x = length p) by lia.
    destruct (Z.eqb_spec c 0) as [->|Hc0].
    + symmetry. apply bool_decide_eq_true. destruct Hiff as [Hpre _]. destruct (Hpre eq_refl) as [k ->].
      rewrite length_app in Hl. destruct k; [by rewrite app_nil_r|simpl in Hl; lia].
    + symmetry. apply bool_decide_eq_false. intros ->. by apply Hc0, Hiff.
  - symmetry. f_equal. apply bool_decide_eq_false. by intros ->.
Qed.

Lemma match_simple_spec w z s :
  text w -> w <> [] -> a_text s = None ->
  exists s', match_simple args (w ++ z) (length w) s = Some s' /\ a_alt s' = a_alt s /\
             records s s' (alt_match (Lit w) (drop (a_arg s) ats)).
Proof.
  intros Hw Hne Ht. unfold match_simple. rewrite args_at, drop_at.
  destruct (ats !! a_arg s) as [x|] eqn:Ex; cbn [fmap option_fmap option_map].
  - pose proof (at_text _ _ Ex) as Hx. change (mem_of x) with (x ++ [0]). rewrite strlen_text by done. change (x ++ [0]) with (mem_of x). cbn [mbind option_bind].
    rewrite (compare_arg x w z Hx Hw). cbn [mbind option_bind alt_match]. case_bool_decide as E.
    + subst x. eexists. split; [done|]. split; [done|]. cbn. split_and!; try done; [lia|..].
      * eexists. split; [done|]. by apply c_text_app.
      * apply take_app_length.
    + eexists. split; [done|]. by split.
  - eexists. split; [done|]. by split.
Qed.

Lemma plain_text w : plain w = true -> text w.
Proof. intros Hw. apply (plain_avoids w 0 Hw). in_list. Qed.

Lemma match_lit_spec w z s :
  plain w = true -> text z -> a_text s = None ->
  exists s', match_alt args (w ++ z ++ [0]) (length w) s = Some s' /\ a_alt s' = a_alt s /\
             records s s' (alt_match (Lit w) (drop (a_arg s) ats)).
Proof.
  intros Hw Hz Ht. pose proof (plain_text w Hw) as Htw. pose proof (proj1 (proj1 (plain_spec w) Hw)) as Hne.
  destruct (match_simple_spec w (z ++ [0]) s Htw Hne Ht) as (s' & Hs' & Hr). exists s'. split; [|done].
  unfold match_alt. destruct (strchr_defined (w ++ z) [] 60) as [o Ho]; [by apply Forall_app|].
  rewrite <- app_assoc in Ho. rewrite Ho. cbn [mbind option_bind]. destruct o as [n|]; [|done].
  rewrite lookup_app_l by (destruct w; [done|simpl; lia]).
  destruct (w !! (length w - 1)%nat) as [c|] eqn:Ec; cbn [is_char].
  - assert (Hc : c <> 62).
    { apply (Forall_lookup_1 _ _ _ _ (plain_avoids w 62 Hw ltac:(in_list)) Ec). }
    rewrite (proj2 (Z.eqb_neq c 62)), andb_false_r by done. done.
  - by rewrite andb_false_r.
Qed.

Lemma match_any_spec l z s :
  plain l = true -> a_text s = None ->
  exists s', match_alt args ((60 :: l ++ [62]) ++ z) (length (60 :: l ++ [62])) s = Some s' /\ a_alt s' = a_alt s /\
             records s s' (alt_match (Any l) (drop (a_arg s) ats)).
Proof.
  intros Hl Ht. pose proof (proj1 (proj1 (plain_spec l) Hl)) as Hne.
  unfold match_alt. cbn [app strchr]. rewrite Z.eqb_refl. cbn [mbind option_bind].
  assert (Hlen : length (60 :: l ++ [62]) = (length l + 2)%nat) by (simpl; rewrite length_app; simpl; lia).
  assert (Hlast : (60 :: (l ++ [62]) ++ z) !! (length (60%Z :: l ++ [62%Z]) - 1)%nat = Some 62).
  { rewrite Hlen. replace (length l + 2 - 1)%nat with (S (length l)) by lia. transitivity (((l ++ [62]) ++ z) !! length l); [done|].
    rewrite <- app_assoc. by apply list_lookup_middle. }
  rewrite Hlast, Hlen. cbn [is_char]. rewrite Z.eqb_refl.
  rewrite (proj2 (Nat.ltb_lt 2 (length l + 2))) by (destruct l; [done|simpl; lia]). cbn [andb].
  change (i8 (Z.of_nat 0)) with 0. cbn [Z.eqb negb]. rewrite args_at, drop_at.
  destruct (ats !! a_arg s) as [x|] eqn:Ex; cbn [fmap option_fmap option_map].
  - eexists. split; [done|]. split; [done|]. cbn. split_and!; try done; [lia|..].
    + eexists. split; [done|]. apply c_text_app. by apply (at_text _ _ Ex).
    + lia.
    + rewrite <- app_assoc. apply take_app_length.
  - eexists. split; [done|]. by split.
Qed.

(** The length of the prefix as an argument. *)
Lemma prefix_argument p y : plain p = true -> (length p < 128)%nat ->
  (let pl := i8 (zlen p) in
   if (1 <? length p)%nat && (is_char ((p ++ y) !! (length p - 1)%nat) 61 || is_char ((p ++ y) !! (length p - 1)%nat) 32)
   then i8 (pl - 1) else pl) = zlen (argument_of p).
Proof.
  intros Hp Hlen. pose proof (proj1 (proj1 (plain_spec p) Hp)) as Hne.
  rewrite lookup_app_l by (destruct p; [done|simpl; lia]).
  replace (p !! (length p - 1)%nat) with (last p) by (rewrite last_lookup; f_equal; lia).
  cbv zeta. unfold argument_of, i8. rewrite (Z.mod_small (zlen p + 128)) by lia.
  destruct (_ && _) eqn:E.
  - apply andb_true_iff in E as [E _]. apply Nat.ltb_lt in E. rewrite removelast_firstn_len, length_take.
    rewrite Z.mod_small by lia. lia.
  - lia.
Qed.

Lemma argument_of_prefix p : exists k, p = argument_of p ++ k.
Proof.
  unfold argument_of. destruct (_ && _) eqn:E.
  - exists [List.last p 0]. apply app_removelast_last. intros ->. done.
  - exists []. by rewrite app_nil_r.
Qed.

Lemma argument_of_ne p : p <> [] -> argument_of p <> [].
Proof.
  intros Hp. unfold argument_of. destruct (_ && _) eqn:E; [|done].
  apply andb_true_iff in E as [E _]. apply Nat.ltb_lt in E. destruct p as [|a [|b p]]; simpl in *; [done|lia|done].
Qed.

Lemma compare_prefix x p y : text x -> text p ->
  (if zlen p <=? zlen x then c ← strncmp (mem_of x) (p ++ y) (length p); Some (c =? 0) else Some false)
  = Some (bool_decide (p `prefix_of` x)).
Proof.
  intros Hx Hp. destruct (strncmp_prefix p x [] y Hp Hx) as (c & Hc & Hiff). unfold mem_of. rewrite Hc. cbn.
  destruct (Z.leb_spec (zlen p) (zlen x)) as [E|E]; f_equal.
  - destruct (Z.eqb_spec c 0) as [H0|H0]; symmetry; [apply bool_decide_eq_true|apply bool_decide_eq_false]; tauto.
  - symmetry. apply bool_decide_eq_false. intros [k ->]. rewrite length_app in E. lia.
Qed.

Lemma match_pre_spec p l z s :
  plain p = true -> plain l = true -> (length p < 128)%nat -> a_text s = None ->
  exists s', match_alt args ((p ++ 60 :: l ++ [62]) ++ z) (length (p ++ 60 :: l ++ [62])) s = Some s' /\ a_alt s' = a_alt s /\
             records s s' (alt_match (Pre p l) (drop (a_arg s) ats)).
Proof.
  intros Hp Hl Hlen Ht. pose proof (proj1 (proj1 (plain_spec p) Hp)) as Hne.
  pose proof (plain_text p Hp) as Hpt. pose proof (argument_of_ne p Hne) as Hane.
  destruct (argument_of_prefix p) as [k Hk].
  assert (Hat : text (argument_of p)) by (rewrite Hk in Hpt; by apply Forall_app in Hpt as [? _]).
  assert (Hlast : ((p ++ 60 :: l ++ [62]) ++ z) !! (length (p ++ 60%Z :: l ++ [62%Z]) - 1)%nat = Some 62).
  { assert (E : (p ++ 60 :: l ++ [62]) ++ z = (p ++ 60 :: l) ++ 62 :: z) by (by rewrite <- !app_assoc, <- app_comm_cons, <- app_assoc).
    rewrite E. apply list_lookup_middle. rewrite !length_app. simpl. rewrite length_app. simpl. lia. }
  assert (H2 : (2 < length (p ++ 60%Z :: l ++ [62%Z]))%nat).
  { rewrite length_app. simpl. rewrite length_app. simpl. destruct p; [done|]. simpl. lia. }
  unfold match_alt. rewrite Hlast. cbn [is_char]. rewrite Z.eqb_refl, (proj2 (Nat.ltb_lt _ _) H2). cbn [andb].
  rewrite <- (app_assoc p). rewrite <- app_comm_cons.
  rewrite strchr_found; [|done|by apply plain_avoids; [done|in_list]]. cbn [mbind option_bind].
  pose proof (prefix_argument p (60 :: (l ++ [62]) ++ z) Hp Hlen) as Hpa. cbv zeta in Hpa. rewrite Hpa.
  assert (Hi : i8 (zlen p) = zlen p) by (unfold i8; rewrite Z.mod_small by lia; lia).
  rewrite Hi, (proj2 (Z.eqb_neq (zlen p) 0)) by (destruct p; [done|simpl; lia]). cbn [negb].
  assert (Hal : (length (argument_of p) <= length p)%nat) by (rewrite Hk at 2; rewrite length_app; lia).
  unfold u32, u64. rewrite !Z.mod_small by lia. rewrite Nat2Z.id.
  rewrite !args_at, (drop_at (a_arg s)). cbn [a_text a_label a_labellen a_simple a_alt].
  destruct (ats !! a_arg s) as [x|] eqn:Ex; cbn [fmap option_fmap option_map]; [|eexists; split; [done|]; by split].
  pose proof (at_text _ _ Ex) as Hx. change (mem_of x) with (x ++ [0]). rewrite strlen_text by done.
  change (x ++ [0]) with (mem_of x). cbn [mbind option_bind]. rewrite (compare_prefix x p _ Hx Hpt).
  cbn [mbind option_bind alt_match]. case_bool_decide as E.
  - destruct E as [y ->]. apply Forall_app in Hx as [_ Hy]. eexists. split; [done|]. split; [done|].
    cbn. split_and!; try done; [lia|..].
    + eexists. split; [done|]. unfold mem_of. rewrite <- app_assoc, !drop_app_length. by apply c_text_app.
    + rewrite Hk at 2. rewrite <- app_assoc. apply take_app_length.
  - rewrite (drop_at (S (a_arg s))). destruct (ats !! S (a_arg s)) as [y|] eqn:Ey; cbn [fmap option_fmap option_map];
      [|eexists; split; [done|]; by split].
    pose proof (compare_arg x (argument_of p) (k ++ 60 :: (l ++ [62]) ++ z) Hx Hat) as Hc.
    rewrite app_assoc, <- Hk in Hc. rewrite Hc.
    cbn [mbind option_bind]. case_bool_decide as E2; [|eexists; split; [done|]; by split].
    eexists. split; [done|]. split; [done|]. cbn. split_and!; try done; [lia|..].
    + eexists. split; [done|]. apply c_text_app. by apply (at_text _ _ Ey).
    + rewrite Hk at 2. rewrite <- app_assoc. apply take_app_length.
Qed.

Lemma match_alt_spec a z s :
  alt_ok a = true -> text z -> a_text s = None ->
  exists s', match_alt args (print_alt a ++ z ++ [0]) (length (print_alt a)) s = Some s' /\ a_alt s' = a_alt s /\
             records s s' (alt_match a (drop (a_arg s) ats)).
Proof.
  intros Ha Hz Ht. destruct a as [w|l|p l]; cbn [alt_ok print_alt] in *; rewrite ?andb_true_iff in Ha.
  - destruct Ha. by apply match_lit_spec.
  - by apply match_any_spec.
  - destruct Ha as [[Hp Hl] Hlen]. apply match_pre_spec; [done..|by apply Nat.ltb_lt|done].
Qed.

(** ** The alternatives of a word *)

(** An alternative is printed without NUL, bar or bracket at its start. *)
Lemma print_alt_chars a : alt_ok a = true ->
  print_alt a <> [] /\ Forall (fun c => c <> 0 /\ c <> 124) (print_alt a) /\ (exists c t, print_alt a = c :: t /\ c <> 91).
Proof.
  assert (H : forall w, plain w = true -> Forall (fun c => c <> 0 /\ c <> 124) w).
  { intros w Hw. apply Forall_and. split; apply plain_avoids; done || in_list. }
  assert (H1 : forall w, plain w = true -> exists c t, w = c :: t /\ c <> 91).
  { intros w Hw. pose proof (plain_avoids w 91 Hw ltac:(in_list)) as H91. apply plain_spec in Hw as [Hne _].
    destruct w as [|c t]; [done|]. apply Forall_cons in H91 as [? _]. by exists c, t. }
  intros Ha. destruct a as [w|l|p l]; cbn [alt_ok print_alt] in *; rewrite ?andb_true_iff in Ha.
  - destruct Ha as [Ha _]. destruct (H1 w Ha) as (c & t & E & Hc). split_and!; [by rewrite E|by apply H|by exists c, t].
  - split_and!; [done| |by exists 60, (l ++ [62])]. constructor; [done|]. apply Forall_app. split; [by apply H|by repeat constructor].
  - destruct Ha as [[Hp Hl] _]. destruct (H1 p Hp) as (c & t & E & Hc). split_and!.
    + by rewrite E.
    + apply Forall_app. split; [by apply H|]. constructor; [done|]. apply Forall_app. split; [by apply H|by repeat constructor].
    + rewrite E. by exists c, (t ++ 60 :: l ++ [62]).
Qed.

Lemma print_alts_cons a b l : print_alts (a :: b :: l) = print_alt a ++ 124 :: print_alts (b :: l).
Proof. done. Qed.

Lemma print_alts_text l : forallb alt_ok l = true -> text (print_alts l).
Proof.
  assert (H : forall a, alt_ok a = true -> text (print_alt a)).
  { intros a Ha. eapply Forall_impl; [apply (print_alt_chars a Ha)|]. by intros c [? _]. }
  induction l as [|a l IH]; intros Hl; [by constructor|]. cbn in Hl. apply andb_true_iff in Hl as [Ha Hl].
  destruct l as [|b l]; [by apply H|]. rewrite print_alts_cons. apply Forall_app. split; [by apply H|]. constructor; [done|]. by apply IH.
Qed.

Lemma print_alts_length l : forallb alt_ok l = true -> (length l <= length (print_alts l))%nat.
Proof.
  induction l as [|a l IH]; intros Hl; [done|]. cbn in Hl. apply andb_true_iff in Hl as [Ha Hl].
  destruct (print_alt_chars a Ha) as (Hne & _ & _). destruct l as [|b l].
  - change (print_alts [a]) with (print_alt a). destruct (print_alt a); [done|simpl; lia].
  - rewrite print_alts_cons, length_app. specialize (IH Hl). simpl in *. lia.
Qed.

(** [word_span] stops at the end of the alternative. *)
Lemma word_span_bar w r n : Forall (fun c => c <> 0 /\ c <> 124) w -> (length w < n)%nat ->
  word_span (w ++ 124 :: r) n = Some (length w).
Proof.
  intros Hw. revert n. induction Hw as [|c w [_ Hc] _ IH]; intros [|n] Hn; simpl in *; try lia; [done|].
  rewrite (proj2 (Z.eqb_neq c 124) Hc), IH by lia. done.
Qed.
Lemma word_span_end w r : Forall (fun c => c <> 0 /\ c <> 124) w -> word_span (w ++ r) (length w) = Some (length w).
Proof.
  induction 1 as [|c w [_ Hc] _ IH]; simpl; [by destruct r|]. by rewrite (proj2 (Z.eqb_neq c 124) Hc), IH.
Qed.

Definition skip_alts (s : alts) (n : Z) : alts :=
  mk_alts (a_arg s) (a_text s) (a_label s) (a_labellen s) (a_simple s) (a_alt s + n).

Lemma records_alt s s' n r : records s s' r -> records s (skip_alts s' n) r.
Proof. done. Qed.

(** What the loop leaves after the alternatives [l]. *)
Definition loop_result (l : list alt) (s s' : alts) : Prop :=
  a_alt s' = a_alt s + zlen l /\
  match a_text s with
  | Some _ => s' = skip_alts s (zlen l)
  | None => records s s' (alts_match l (drop (a_arg s) ats))
  end.

(** One alternative, and the loop goes on with the next. *)
Lemma alt_step a z s :
  alt_ok a = true -> text z ->
  exists s1, (match a_text s with Some _ => Some s | None => match_alt args (print_alt a ++ z ++ [0]) (length (print_alt a)) s end) = Some s1 /\
    forall l s', (forall s2, s2 = next_alt s1 -> loop_result l s2 s') -> loop_result (a :: l) s s'.
Proof.
  intros Ha Hz. unfold loop_result. destruct (a_text s) as [t|] eqn:Et.
  - exists s. split; [done|]. intros l s' H. specialize (H _ eq_refl). unfold next_alt in H. cbn in H. rewrite Et in H.
    destruct H as [H ->]. cbn [length]. split; [cbn; lia|]. unfold skip_alts. cbn. f_equal; [done|lia].
  - destruct (match_alt_spec a z s Ha Hz Et) as (s1 & Hs1 & Halt & Hr). exists s1. split; [done|]. intros l s' H.
    specialize (H _ eq_refl). unfold next_alt in H. cbn [a_alt a_text a_arg a_label a_labellen a_simple] in H. destruct H as [H1 H2].
    cbn [length alts_match]. split; [lia|]. destruct (alt_match a (drop (a_arg s) ats)) as [[[[lb t] k] si]|] eqn:Em.
    + cbn [records] in Hr. destruct Hr as (Harg & (m & Hm & Hmt) & Hr). rewrite Hm in H2. subst s'. unfold skip_alts. cbn.
      split; [done|]. split; [by exists m|done].
    + cbn [records] in Hr. destruct Hr as (Harg & Htx & Hsi). rewrite Htx in H2. rewrite Harg in H2.
      destruct (alts_match l (drop (a_arg s) ats)) as [[[[lb t] k] si]|]; cbn [records a_arg a_text a_simple] in *;
        rewrite ?Harg, ?Hsi in H2; done.
Qed.

Lemma alt_loop_spec pattern patlen z : text z -> forall l fuel word s,
  l <> [] -> forallb alt_ok l = true -> drop word pattern = print_alts l ++ z ++ [0] ->
  patlen = (word + length (print_alts l))%nat -> (length l <= fuel)%nat ->
  exists s', alt_loop fuel args pattern patlen word s = Some (Some s') /\ loop_result l s s'.
Proof.
  intros Hz. induction l as [|a l IH]; intros fuel word s Hne Hok Hd Hlen Hf; [done|]. cbn in Hok.
  apply andb_true_iff in Hok as [Ha Hok]. destruct (print_alt_chars a Ha) as (Hane & Hch & (c & t & Ec & _)).
  destruct fuel as [|fuel]; [simpl in Hf; lia|]. pose proof (print_alts_length (a :: l) ltac:(cbn; by rewrite Ha)) as Hpl.
  cbn [alt_loop]. rewrite (proj2 (Nat.ltb_lt word patlen)) by (simpl in Hpl; lia). cbv zeta. rewrite Hd.
  assert (Hc : c <> 124 /\ Forall (fun c => c <> 0 /\ c <> 124) t) by (rewrite Ec in Hch; apply Forall_cons in Hch as [[_ ?] ?]; done).
  destruct Hc as [Hc Ht].
  assert (Hhd : forall r, (print_alt a ++ r) !! 0%nat = Some c /\ drop 1 (print_alt a ++ r) = t ++ r) by (by rewrite Ec).
  destruct l as [|b l].
  - change (print_alts [a]) with (print_alt a) in *. rewrite (proj1 (Hhd _)), (proj2 (Hhd _)). cbn [mbind option_bind].
    rewrite (proj2 (Z.eqb_neq c 124) Hc).
    replace (patlen - word - 1)%nat with (length t) by (rewrite Hlen, Ec; simpl; lia).
    rewrite (word_span_end t _ Ht). cbn [mbind option_bind]. replace (S (length t)) with (length (print_alt a)) by (by rewrite Ec).
    destruct (alt_step a z s Ha Hz) as (s1 & Hs1 & Hgo). rewrite Hs1. cbn [mbind option_bind].
    exists (next_alt s1). split.
    + destruct fuel; cbn [alt_loop]; by rewrite (proj2 (Nat.ltb_ge _ _)) by lia.
    + apply Hgo. intros s2 ->. unfold loop_result, skip_alts, records. cbn [alts_match length].
      split; [lia|]. destruct (next_alt s1) as [x [y|] u v w q]; cbn; [f_equal; lia|done].
  - rewrite print_alts_cons in *. assert (Hz' : text (124 :: print_alts (b :: l) ++ z)).
    { constructor; [done|]. apply Forall_app. split; [by apply print_alts_text|done]. }
    assert (Hsh : (print_alt a ++ 124 :: print_alts (b :: l)) ++ z ++ [0] = print_alt a ++ (124 :: print_alts (b :: l) ++ z) ++ [0]).
    { by rewrite <- !app_assoc, <- !app_comm_cons, <- !app_assoc. }
    rewrite Hsh in *. rewrite (proj1 (Hhd _)), (proj2 (Hhd _)). cbn [mbind option_bind].
    rewrite (proj2 (Z.eqb_neq c 124) Hc).
    rewrite length_app in Hlen. assert (Hal : length (print_alt a) = S (length t)) by (by rewrite Ec). simpl in Hlen.
    rewrite <- app_comm_cons, (word_span_bar t _ _ Ht) by lia. cbn [mbind option_bind].
    replace (S (length t)) with (length (print_alt a)) by (by rewrite Ec).
    destruct (alt_step a (124 :: print_alts (b :: l) ++ z) s Ha Hz') as (s1 & Hs1 & Hgo).
    cbn [app] in Hs1. rewrite Hs1. cbn [mbind option_bind].
    destruct (IH fuel (word + length (print_alt a) + 1)%nat (next_alt s1)) as (s' & Hs' & Hr); [done|done|..].
    + replace (word + length (print_alt a) + 1)%nat with (word + S (length (print_alt a)))%nat by lia.
      rewrite <- drop_drop, Hd, drop_app_ge by lia.
      replace (S (length (print_alt a)) - length (print_alt a))%nat with 1%nat by lia. cbn [app drop]. by rewrite app_assoc.
    + rewrite Hlen, Ec. simpl. lia.
    + simpl in *. lia.
    + exists s'. split; [done|]. apply Hgo. by intros s2 ->.
Qed.

(** ** A word of a command *)

(** What is recorded for a label and a text. *)
Definition lab_ok (lv : labelv) (r : list Z * list Z) : Prop :=
  len lv = zlen r.1 /\ take (length r.1) (label lv) = r.1 /\ c_text (lv_text lv) = r.2.

Lemma alts_match_takes l xs lb t k simple : alts_match l xs = Some (lb, t, k, simple) -> (1 <= k <= length xs)%nat.
Proof.
  induction l as [|a l IH]; cbn; [done|]. destruct (alt_match a xs) as [r|] eqn:E; [|done]. intros [= ->].
  destruct xs as [|x xs]; [done|]. destruct a as [w|w|p w]; cbn in E.
  - case_bool_decide; simplify_eq. simpl. lia.
  - simplify_eq. simpl. lia.
  - case_bool_decide; simplify_eq; [simpl; lia|]. destruct xs; [done|]. case_bool_decide; simplify_eq. simpl. lia.
Qed.

(** The rest of [parse_word], once the brackets are off. *)
Definition word_tail (optional repeating : bool) (pattern : list Z) (patlen arg : nat) (ls : list labelv) : option word_result :=
  let bar := negb (patlen =? 0)%nat && is_char (pattern !! O) 124 in
  if (patlen =? 0)%nat then Some WordError
  else
    r ← alt_loop (S patlen) args pattern patlen (if bar then 1 else 0)
          (mk_alts arg None [] 0 false (if bar then 1 else 0));
    match r with
    | None => Some WordError
    | Some s =>
        if a_alt s =? 0 then None
        else if (a_arg s =? arg)%nat && negb optional then Some WordBreak
        else
          match a_text s with
          | Some t =>
              if negb (a_labellen s =? 0) && (optional || negb (a_simple s) || (1 <? a_alt s)) then
                if (COMMAND_LINE_MAX_LABELS <=? length ls)%nat then Some WordError
                else Some (WordNext (a_arg s) (ls ++ [mk_labelv (a_label s) (a_labellen s) t]) repeating)
              else Some (WordNext (a_arg s) ls false)
          | None => Some (WordNext (a_arg s) ls false)
          end
    end.

(** What a word does, by the rules. *)
Definition word_outcome (optional repeating bar : bool) (l : list alt) (arg : nat) (ls : list labelv) (r : word_result) : Prop :=
  match alts_match l (drop arg ats) with
  | None => r = if optional then WordNext arg ls false else WordBreak
  | Some (lb, t, k, simple) =>
      if optional || negb simple || bar || (1 <? length l)%nat
      then exists lv, lab_ok lv (lb, t) /\ r = WordNext (arg + k) (ls ++ [lv]) repeating
      else r = WordNext (arg + k) ls false
  end.

Lemma word_tail_spec optional repeating (bar : bool) l z arg ls :
  l <> [] -> forallb alt_ok l = true -> text z -> (length ls < COMMAND_LINE_MAX_LABELS \/ drop arg ats = [])%nat ->
  exists r, word_tail optional repeating ((if bar then [124] else []) ++ print_alts l ++ z ++ [0])
              (length ((if bar then [124] else []) ++ print_alts l)) arg ls = Some r /\
            word_outcome optional repeating bar l arg ls r.
Proof.
  intros Hne Hok Hz Hls. set (pattern := _ ++ print_alts l ++ z ++ [0]). set (patlen := length _).
  pose proof (print_alts_length l Hok) as Hpl.
  assert (Hpos : (0 < length (print_alts l))%nat) by (destruct l; [done|simpl in *; lia]).
  assert (Hlen : patlen = ((if bar then 1 else 0) + length (print_alts l))%nat).
  { unfold patlen. rewrite length_app. by destruct bar. }
  assert (Hbar : negb (patlen =? 0)%nat && is_char (pattern !! O) 124 = bar).
  { rewrite (proj2 (Nat.eqb_neq patlen 0)) by lia. unfold pattern. destruct bar; [done|]. cbn [app negb andb].
    destruct l as [|a l]; [done|]. cbn in Hok. apply andb_true_iff in Hok as [Ha _].
    destruct (print_alt_chars a Ha) as (_ & Hch & (c & t & E & _)). rewrite E in Hch. apply Forall_cons in Hch as [[_ Hc] _].
    assert (exists t', print_alts (a :: l) = c :: t') as [t' ->].
    { destruct l; [exists t; apply E|]. rewrite print_alts_cons, E. by eexists. }
    cbn. by apply Z.eqb_neq. }
  unfold word_tail. rewrite Hbar. cbv zeta. rewrite (proj2 (Nat.eqb_neq patlen 0)) by lia.
  destruct (alt_loop_spec pattern patlen z Hz l (S patlen) (if bar then 1 else 0)%nat
              (mk_alts arg None [] 0 false (if bar then 1 else 0)) Hne Hok) as (s' & Hs' & Halt & Hr);
    [by destruct bar|done|lia|].
  rewrite Hs'. cbn [mbind option_bind a_alt a_text a_arg] in *.
  assert (Hl1 : (1 <= length l)%nat) by (destruct l; [done|simpl; lia]).
  rewrite (proj2 (Z.eqb_neq (a_alt s') 0)) by (destruct bar; lia). unfold word_outcome.
  destruct (alts_match l (drop arg ats)) as [[[[lb t] k] si]|] eqn:Em; cbn [records a_arg a_simple] in Hr.
  - destruct (alts_match_takes _ _ _ _ _ _ Em) as [Hk Hk2]. destruct Hr as (Harg & (m & Hm & Hmt) & Hll & Htk & Hlb & Hsi).
    rewrite (proj2 (Nat.eqb_neq (a_arg s') arg)) by lia. cbn [andb]. rewrite Hm.
    rewrite (proj2 (Z.eqb_neq (a_labellen s') 0)) by (destruct lb; [done|simpl in Hll; lia]). cbn [negb andb].
    rewrite Hsi, orb_false_r.
    replace (1 <? a_alt s') with (bar || (1 <? length l)%nat).
    2: { destruct bar; cbn [orb]; [symmetry; apply Z.ltb_lt; lia|]. destruct (Nat.ltb_spec 1 (length l)); symmetry;
           [apply Z.ltb_lt; lia|apply Z.ltb_ge; lia]. }
    rewrite <- !orb_assoc. rewrite Harg. destruct (optional || _).
    + destruct Hls as [Hls|Hls]; [|rewrite Hls in Hk2; simpl in Hk2; lia]. rewrite (proj2 (Nat.leb_gt _ _)) by done.
      eexists. split; [done|]. eexists. split; [|done]. by split.
    + eexists. by split.
  - destruct Hr as (-> & -> & _). rewrite Nat.eqb_refl. destruct optional; eexists; by split.
Qed.

Definition form_alts (f : form) : list alt := match f with Req _ l | Opt l | Rep l => l | Rest => [] end.
Definition form_optional (f : form) : bool := match f with Opt _ | Rep _ => true | _ => false end.
Definition form_repeating (f : form) : bool := match f with Rep _ => true | _ => false end.
Definition form_bar (f : form) : bool := match f with Req b _ => b | _ => false end.

Lemma form_ok_alts f : form_ok f = true -> f <> Rest -> form_alts f <> [] /\ forallb alt_ok (form_alts f) = true.
Proof.
  destruct f as [b l|l|l|]; cbn; intros H Hne; try done; apply andb_true_iff in H as [H1 H2]; split; try done;
    intros ->; by rewrite bool_decide_eq_true_2 in H1.
Qed.

Lemma print_alts_head l r : l <> [] -> forallb alt_ok l = true -> is_char ((print_alts l ++ r) !! O) 91 = false.
Proof.
  intros Hne Hok. destruct l as [|a l]; [done|]. cbn in Hok. apply andb_true_iff in Hok as [Ha _].
  destruct (print_alt_chars a Ha) as (_ & _ & (c & t & E & Hc)).
  assert (exists t', print_alts (a :: l) = c :: t') as [t' ->].
  { destruct l; [exists t; apply E|]. rewrite print_alts_cons, E. by eexists. }
  cbn. by apply Z.eqb_neq.
Qed.

(** Brackets are recognised, and nothing else is taken for them. *)
Lemma parse_word_req bar l arg ls : l <> [] -> forallb alt_ok l = true ->
  parse_word args (mem_of (print_form (Req bar l))) (length (print_form (Req bar l))) arg ls
  = word_tail false false ((if bar then [124] else []) ++ print_alts l ++ [] ++ [0])
      (length ((if bar then [124] else []) ++ print_alts l)) arg ls.
Proof.
  intros Hne Hok. unfold parse_word, ends_with_dots, mem_of. cbn [print_form].
  assert (Hh : is_char ((((if bar then [124] else []) ++ print_alts l) ++ [0]) !! O) 91 = false).
  { destruct bar; [done|]. by apply print_alts_head. }
  rewrite Hh, !andb_false_r. cbn [andb orb app]. by rewrite <- app_assoc.
Qed.

Lemma parse_word_opt l arg ls : l <> [] -> forallb alt_ok l = true ->
  parse_word args (mem_of (print_form (Opt l))) (length (print_form (Opt l))) arg ls
  = word_tail true false (print_alts l ++ [93] ++ [0]) (length (print_alts l)) arg ls.
Proof.
  intros Hne Hok. pose proof (print_alts_length l Hok) as Hpl.
  assert (Hpos : (0 < length (print_alts l))%nat) by (destruct l; [done|simpl in *; lia]).
  unfold parse_word, ends_with_dots, mem_of. cbn [print_form].
  assert (Hlen : length (91 :: print_alts l ++ [93]) = (length (print_alts l) + 2)%nat) by (simpl; rewrite length_app; simpl; lia).
  rewrite Hlen.
  assert (Hz : ((91 :: print_alts l ++ [93]) ++ [0]) !! (length (print_alts l) + 2 - 1)%nat = Some 93).
  { replace (length (print_alts l) + 2 - 1)%nat with (S (length (print_alts l))) by lia.
    transitivity (((print_alts l ++ [93]) ++ [0]) !! length (print_alts l)); [done|]. rewrite <- app_assoc. by apply list_lookup_middle. }
  rewrite Hz. cbn [is_char]. change (93 =? 46) with false. rewrite !andb_false_r. rewrite (proj2 (Nat.ltb_lt 2 _)) by lia.
  cbn [app lookup list_lookup is_char Z.eqb Pos.eqb andb orb drop negb].
  replace (length (print_alts l) + 2 - 2)%nat with (length (print_alts l)) by lia. by rewrite <- app_assoc.
Qed.

Lemma parse_word_rep l arg ls : l <> [] -> forallb alt_ok l = true ->
  parse_word args (mem_of (print_form (Rep l))) (length (print_form (Rep l))) arg ls
  = word_tail true true (print_alts l ++ [93; 46; 46; 46] ++ [0]) (length (print_alts l)) arg ls.
Proof.
  intros Hne Hok. pose proof (print_alts_length l Hok) as Hpl.
  assert (Hpos : (0 < length (print_alts l))%nat) by (destruct l; [done|simpl in *; lia]).
  unfold parse_word, ends_with_dots, mem_of. cbn [print_form].
  assert (Hlen : length (91 :: print_alts l ++ [93; 46; 46; 46]) = (length (print_alts l) + 5)%nat) by (simpl; rewrite length_app; simpl; lia).
  rewrite Hlen.
  assert (Hat : forall i, ((91 :: print_alts l ++ [93; 46; 46; 46]) ++ [0]) !! (S (length (print_alts l) + i)) = [93; 46; 46; 46; 0] !! i).
  { intros i. transitivity (((print_alts l ++ [93; 46; 46; 46]) ++ [0]) !! (length (print_alts l) + i)%nat); [done|].
    rewrite <- app_assoc. rewrite lookup_app_r by lia. cbn [app]. f_equal. lia. }
  replace (length (print_alts l) + 5 - 4)%nat with (S (length (print_alts l) + 0)) by lia.
  replace (length (print_alts l) + 5 - 3)%nat with (S (length (print_alts l) + 1)) by lia.
  replace (length (print_alts l) + 5 - 2)%nat with (S (length (print_alts l) + 2)) by lia.
  replace (length (print_alts l) + 5 - 1)%nat with (S (length (print_alts l) + 3)) by lia.
  rewrite !Hat. rewrite (proj2 (Nat.ltb_lt 5 _)) by lia.
  cbn [app lookup list_lookup is_char Z.eqb Pos.eqb andb orb drop negb].
  replace (length (print_alts l) + 5 - 5)%nat with (length (print_alts l)) by lia. by rewrite <- app_assoc.
Qed.

Lemma parse_word_spec f arg ls :
  form_ok f = true -> f <> Rest -> (length ls < COMMAND_LINE_MAX_LABELS \/ drop arg ats = [])%nat ->
  exists r, parse_word args (mem_of (print_form f)) (length (print_form f)) arg ls = Some r /\
            word_outcome (form_optional f) (form_repeating f) (form_bar f) (form_alts f) arg ls r.
Proof.
  intros Hok Hne Hls. destruct (form_ok_alts f Hok Hne) as [H1 H2].
  destruct f as [b l|l|l|]; [| | |done]; cbn [form_alts form_optional form_repeating form_bar] in *.
  - rewrite parse_word_req by done. by apply (word_tail_spec false false b l []).
  - rewrite parse_word_opt by done. apply (word_tail_spec true false false l [93]); try done. by repeat constructor.
  - rewrite parse_word_rep by done. apply (word_tail_spec true true false l [93; 46; 46; 46]); try done. by repeat constructor.
Qed.

Lemma print_form_text f : form_ok f = true -> text (print_form f).
Proof.
  intros Hf. destruct f as [b l|l|l|]; [..|by repeat constructor]; pose proof Hf as [_ Hl]%form_ok_alts; try done;
    apply print_alts_text in Hl; cbn [print_form form_alts] in *.
  - apply Forall_app. split; [destruct b; by repeat constructor|done].
  - constructor; [done|]. apply Forall_app. split; [done|by repeat constructor].
  - constructor; [done|]. apply Forall_app. split; [done|by repeat constructor].
Qed.

(** Only ... is printed as three dots. *)
Lemma print_form_dots f : form_ok f = true -> print_form f = [46; 46; 46] -> f = Rest.
Proof.
  intros Hf Hp. assert (Hno : forall c, c <> 46 -> c ∈ print_form f -> False).
  { intros c Hc Hin. rewrite Hp in Hin. set_solver. }
  destruct f as [b l|l|l|]; [|done..]. exfalso. destruct (form_ok_alts _ Hf) as [Hne Hl]; [done|]. cbn [form_alts] in *.
  destruct b; [by discriminate Hp|]. cbn [print_form app] in *. destruct l as [|a [|b l]]; [done| |].
  - cbn [forallb] in Hl. change (print_alts [a]) with (print_alt a) in *. destruct a as [w|w|p w]; cbn in Hl, Hp.
    + rewrite Hp in Hl. by vm_compute in Hl.
    + done.
    + apply (Hno 60); [done|]. cbn. set_solver.
  - apply (Hno 124); [done|]. rewrite print_alts_cons. set_solver.
Qed.

Lemma dots_word f : form_ok f = true ->
  (length (print_form f) =? 3)%nat && is_char (mem_of (print_form f) !! 0%nat) 46 && is_char (mem_of (print_form f) !! 1%nat) 46 &&
  is_char (mem_of (print_form f) !! 2%nat) 46 = match f with Rest => true | _ => false end.
Proof.
  intros Hf. destruct (_ && _) eqn:E.
  - apply andb_true_iff in E as [[[E0 E1]%andb_true_iff E2]%andb_true_iff E3]. apply Nat.eqb_eq in E0. unfold mem_of in *.
    destruct (print_form f) as [|x [|y [|z [|? ?]]]] eqn:Ep; try done. cbn in E1, E2, E3.
    apply Z.eqb_eq in E1, E2, E3. subst. by rewrite (print_form_dots f Hf Ep).
  - by destruct f.
Qed.

(** ** A command *)

Definition word_of (f : form) : list Z := mem_of (print_form f).
Definition words_of (forms : list form) : list (list Z) := word_of <$> forms.

(** The result of a command against the rules: [None] for no match. *)
Definition cmd_says (cmd : nat) (r : option (list (list Z * list Z) * Z)) (c : cmd_result) : Prop :=
  match r with
  | None => c = CmdNo
  | Some (ls, v) => exists ls', c = CmdMatch (mk_parsed cmd ls' v) /\ Forall2 lab_ok ls' ls
  end.

Lemma drop_nil_iff i : (i <= length ats)%nat -> (i =? length args)%nat = match drop i ats with [] => true | _ => false end.
Proof.
  intros Hi. unfold args. rewrite length_fmap. destruct (drop i ats) as [|x r] eqn:E;
    apply (f_equal length) in E; rewrite length_drop in E; simpl in E; [apply Nat.eqb_eq|apply Nat.eqb_neq]; lia.
Qed.

Lemma words_loop_nil fuel cmd pos ls v : (pos <= length ats)%nat ->
  words_loop fuel cmd args [] pos ls v = Some (match drop pos ats with [] => CmdMatch (mk_parsed cmd ls v) | _ => CmdNo end).
Proof. intros Hp. destruct fuel; cbn [words_loop]; rewrite drop_nil_iff by done; by destruct (drop pos ats). Qed.

Lemma words_loop_step fuel cmd f forms pos ls : form_ok f = true ->
  words_loop (S fuel) cmd args (word_of <$> f :: forms) pos ls (-1) =
  if match f with Rest => true | _ => false end
  then words_loop fuel cmd args (word_of <$> forms) (length args) ls (Z.of_nat pos)
  else r ← parse_word args (word_of f) (length (print_form f)) pos ls;
       match r with
       | WordError => Some CmdError
       | WordBreak => Some CmdNo
       | WordNext arg ls again => words_loop fuel cmd args (word_of <$> (if (again : bool) then f :: forms else forms)) arg ls (-1)
       end.
Proof.
  intros Hf. cbn [fmap list_fmap words_loop]. pose proof (strlen_text (print_form f) [] (print_form_text f Hf)) as Hlen.
  change (print_form f ++ [0]) with (mem_of (print_form f)) in Hlen.
  change (word_of f) with (mem_of (print_form f)). rewrite Hlen. cbn [mbind option_bind]. rewrite Nat2Z.id, (dots_word f Hf).
  change (negb (-1 =? -1)) with false. destruct f; [| | |done];
    (destruct (parse_word _ _ _ _ _) as [[| |? ? []]|]; done).
Qed.

(** The loop goes on as the rules do, if it did. *)
Definition goes_on (fuel fuel' cmd : nat) (forms : list form) (pos : nat) : Prop :=
  forall ls rls, (length ls <= pos)%nat -> Forall2 lab_ok ls rls ->
  exists c, words_loop fuel cmd args (word_of <$> forms) pos ls (-1) = Some c /\
            cmd_says cmd (form_match fuel' forms (drop pos ats) pos rls) c.

Lemma words_loop_spec fuel : forall fuel' cmd forms pos,
  Forall (fun f => form_ok f = true) forms -> rest_last forms = true -> (length ats <= COMMAND_LINE_MAX_LABELS)%nat ->
  (pos <= length ats)%nat ->
  (length forms + (length ats - pos) < fuel)%nat -> (length forms + (length ats - pos) < fuel')%nat ->
  goes_on fuel fuel' cmd forms pos.
Proof.
  induction fuel as [|fuel IH]; intros fuel' cmd forms pos Hok Hrl H32 Hpos Hf Hf' ls rls Hls Hlab; [lia|].
  destruct fuel' as [|fuel']; [lia|]. destruct forms as [|f forms].
  { cbn [fmap list_fmap]. rewrite words_loop_nil by done. eexists. split; [done|]. cbn [form_match].
    destruct (drop pos ats); [|done]. exists ls. by split. }
  pose proof Hok as [Hfo Hok']%Forall_cons. rewrite words_loop_step by done. destruct (decide (f = Rest)) as [->|Hne].
  { cbn [rest_last] in Hrl. apply bool_decide_eq_true in Hrl. apply nil_length_inv in Hrl. subst forms. cbn [fmap list_fmap].
    rewrite words_loop_nil by (unfold args; by rewrite length_fmap).
    rewrite drop_ge by (unfold args; by rewrite length_fmap). eexists. split; [done|]. cbn [form_match]. exists ls. by split. }
  destruct (parse_word_spec f pos ls Hfo Hne) as (r & Hr & Ho).
  { destruct (decide (pos = length ats)) as [->|Hp]; [right; by apply drop_ge|left; lia]. }
  replace (match f with Rest => true | _ => false end) with false by (by destruct f).
  change (mem_of (print_form f)) with (word_of f) in Hr. rewrite Hr. cbn [mbind option_bind]. clear Hr. unfold word_outcome in Ho. simpl in Hf, Hf'.
  assert (Hnext : forall k, (pos + k <= length ats)%nat -> goes_on fuel fuel' cmd forms (pos + k)).
  { intros k Hk. apply IH; try done; try lia. by destruct f. }
  assert (Hagain : forall k, (1 <= k)%nat -> (pos + k <= length ats)%nat -> goes_on fuel fuel' cmd (f :: forms) (pos + k)).
  { intros k H1 Hk. apply IH; try done; simpl; lia. }
  assert (Hl : forall lv r k, lab_ok lv r -> (1 <= k)%nat -> (length (ls ++ [lv]) <= pos + k)%nat /\ Forall2 lab_ok (ls ++ [lv]) (rls ++ [r])).
  { intros lv q k Hq H1. split; [rewrite length_app; simpl; lia|]. apply Forall2_app; [done|by constructor]. }
  destruct (alts_match (form_alts f) (drop pos ats)) as [[[[lb t] k] si]|] eqn:Em.
  - destruct (alts_match_takes _ _ _ _ _ _ Em) as [Hk1 Hk2]. rewrite length_drop in Hk2.
    destruct f as [b l|l|l|]; cbn [form_match form_alts form_optional form_bar form_repeating orb] in *; [| | |done];
      rewrite Em, drop_drop.
    + destruct (_ || _).
      * destruct Ho as (lv & Hlv & ->). destruct (Hl lv (lb, t) k Hlv Hk1). apply Hnext; done || lia.
      * rewrite Ho. apply Hnext; done || lia.
    + destruct Ho as (lv & Hlv & ->). destruct (Hl lv (lb, t) k Hlv Hk1). apply Hnext; done || lia.
    + destruct Ho as (lv & Hlv & ->). destruct (Hl lv (lb, t) k Hlv Hk1). apply Hagain; done || lia.
  - specialize (Hnext 0%nat). rewrite Nat.add_0_r in Hnext.
    destruct f as [b l|l|l|]; cbn [form_match form_alts form_optional] in *; [| | |done]; rewrite Em, Ho.
    + by eexists.
    + by apply Hnext.
    + by apply Hnext.
Qed.

(** ** All commands *)

(** The commands that match, with their labels. *)
Fixpoint matching (commands : list (list form)) (cmd : nat) : list (nat * (list (list Z * list Z) * Z)) :=
  match commands with
  | [] => []
  | forms :: commands =>
      match form_match (length forms + length ats + 1) forms ats 0 [] with
      | Some r => (cmd, r) :: matching commands (S cmd)
      | None => matching commands (S cmd)
      end
  end.

Definition verdict {A} (l : list A) : Z := match l with [] => 1 | [_] => 0 | _ => 2 end.

(** What is recorded of a match. *)
Definition parsed_says (p : cli_parsed) (m : nat * (list (list Z * list Z) * Z)) : Prop :=
  cmdi p = m.1 /\ varargi p = m.2.2 /\ Forall2 lab_ok (labels p) m.2.1.

Definition command_ok (forms : list form) : Prop := Forall (fun f => form_ok f = true) forms /\ rest_last forms = true.

(** The variables of the loop over the commands, after the matches [ms]. *)
Definition loop_says (matched : option cli_parsed) (ambiguous : Z) (ms : list (nat * (list (list Z * list Z) * Z))) : Prop :=
  ambiguous = Z.max 0 (zlen ms - 1) /\
  match matched with None => ms = [] | Some p => exists ms' m, ms = ms' ++ [m] /\ parsed_says p m end.

Lemma loop_says_next matched ambiguous ms cmd ls' ls v : loop_says matched ambiguous ms -> Forall2 lab_ok ls' ls ->
  loop_says (Some (mk_parsed cmd ls' v)) (match matched with Some _ => ambiguous + 1 | None => ambiguous end) (ms ++ [(cmd, (ls, v))]).
Proof.
  intros [Ha Hm] Hl. split; [|by exists ms, (cmd, (ls, v))]. rewrite length_app. cbn [length].
  destruct matched as [p|]; [destruct Hm as (ms' & m & -> & _); rewrite length_app in *; cbn [length] in *; lia|subst ms; simpl in *; lia].
Qed.

Lemma commands_loop_spec commands : (length ats <= COMMAND_LINE_MAX_LABELS)%nat -> Forall command_ok commands ->
  forall cmd matched ambiguous ms, loop_says matched ambiguous ms ->
  exists p amb, commands_loop args (words_of <$> commands) cmd matched ambiguous
                = Some (verdict (ms ++ matching commands cmd), p) /\ loop_says p amb (ms ++ matching commands cmd).
Proof.
  intros H32. induction 1 as [|forms commands [Hok Hrl] _ IH]; intros cmd matched ambiguous ms Hs.
  - cbn [fmap list_fmap commands_loop matching]. rewrite app_nil_r. exists matched, ambiguous. split; [|done]. f_equal. f_equal.
    destruct Hs as [-> Hm]. destruct ms as [|m [|m' ms]]; cbn [length verdict].
    + destruct matched as [p|]; [|done]. by destruct Hm as ([] & ? & ? & _).
    + by destruct matched.
    + by rewrite (proj2 (Z.eqb_neq _ 0)) by lia.
  - cbn [fmap list_fmap commands_loop matching].
    destruct (words_loop_spec (length (word_of <$> forms) + length args + COMMAND_LINE_MAX_LABELS + 2)
                (length forms + length ats + 1) cmd forms 0 Hok Hrl H32 ltac:(lia)) with (ls := @nil labelv) (rls := @nil (list Z * list Z))
      as (c & Hc & Hsays); [unfold args; rewrite !length_fmap; lia|lia|done|done|].
    change (word_of <$> forms) with (words_of forms) in Hc. rewrite Hc. cbn [mbind option_bind]. rewrite drop_0 in Hsays.
    destruct (form_match _ forms ats 0 []) as [[ls v]|]; cbn [cmd_says] in Hsays.
    + destruct Hsays as (ls' & -> & Hl).
      destruct (IH (S cmd) (Some (mk_parsed cmd ls' v)) _ _ (loop_says_next _ _ _ cmd ls' ls v Hs Hl)) as (p & amb & Hp & Hps).
      rewrite <- app_assoc in Hp, Hps. by exists p, amb.
    + subst c. by apply (IH (S cmd) matched ambiguous ms).
Qed.
End match_args.

(** [C21] Parsing a command line.  For commands written by the rules in the comment of cli_parse (words,
    alternatives, labels, prefixes, optional and repeated words, and dots at the end) and at most 32 arguments, cli_parse returns
    0, 1 or 2 as exactly one, none or several commands match by these rules (never -1, and it does end); and after one match it
    holds the number of that command, the labels with their texts, in order, and the place of the other arguments. *)
Theorem cli_parse_correct ats commands :
  Forall (fun t => text t) ats -> (length ats <= COMMAND_LINE_MAX_LABELS)%nat -> Forall command_ok commands ->
  exists p, cli_parse (mem_of <$> ats) (words_of <$> commands) = Some (verdict (matching ats commands 0), p) /\
            forall m, matching ats commands 0 = [m] -> exists q, p = Some q /\ parsed_says q m.
Proof.
  intros Ht H32 Hok. destruct (commands_loop_spec ats Ht commands H32 Hok 0 None 0 []) as (p & amb & Hp & [_ Hs]); [done|].
  exists p. split; [done|]. intros m Hm. cbn [app] in Hs. rewrite Hm in Hs. destruct p as [q|]; [|done].
  destruct Hs as (ms & m' & E & Hq). exists q. split; [done|]. by apply (app_inj_tail [] ms) in E as [_ ->].
Qed.

(** Two commands, [start [in=<path>]] and [config set|sync <name> ...], and arguments of the first. *)
Lemma cli_parse_correct_witness :
  let ats := [[115; 116; 97; 114; 116]; [105; 110]; [120]] in
  let commands := [[Req false [Lit [115; 116; 97; 114; 116]]; Opt [Pre [105; 110; 61] [112]]];
                   [Req false [Lit [99; 111; 110]]; Req false [Lit [115; 101; 116]; Lit [115; 121]]; Req false [Any [110]]; Rest]] in
  exists p, cli_parse (mem_of <$> ats) (words_of <$> commands) = Some (0, p) /\
            exists q, p = Some q /\ parsed_says q (0%nat, ([([105; 110], [120])], -1)).
Proof.
  intros ats commands. destruct (cli_parse_correct ats commands) as (p & Hp & Hq).
  - repeat constructor; discriminate.
  - vm_compute. lia.
  - repeat constructor.
  - exists p. split; [exact Hp|]. apply Hq. vm_compute. reflexivity.
Defined.
