(* ===== verification/Keyring.v ===== *)
(** Keyring: keyring.c, identities with their keys in a file of encrypted slots.

    The open keyring, its file and the calls made so far are the state of a monad.  Every call of
    malloc, the stream functions and urandombytes may fail; which do is a parameter, as are the
    random bytes.  A failed write leaves the file as it was.  Pins are texts without their NUL;
    a copy that could not be allocated is [None], and using it is undefined.  Subscribers of
    identities are known by their public key. *)

From S2P Require Import Prelude Str Crypto RotBuf.

Definition KEYRING_PAGE_SIZE : Z := 4096.
Definition KEYRING_BAM_BYTES : Z := 2048.
Definition KEYRING_BAM_BITS : Z := Z.shiftl KEYRING_BAM_BYTES 3.
Definition KEYRING_SLAB_SIZE : Z := KEYRING_PAGE_SIZE * KEYRING_BAM_BITS.
Definition KEYRING_MAX_CONTEXTS : nat := 256.
Definition KEYRING_MAX_IDENTITIES : Z := 65536.
Definition PKR_MAX_KEYPAIRS : nat := 64.
Definition PKR_SALT_BYTES : nat := 32.
Definition PKR_MAC_BYTES : nat := 64.
Definition KEYTYPE_CRYPTOBOX : Z := 1.
Definition KEYTYPE_CRYPTOSIGN : Z := 2.
Definition KEYTYPE_RHIZOME : Z := 3.
Definition KEYTYPE_DID : Z := 4.

(** The lengths of the keys are those of the lists. *)
Record keypair := mk_keypair { kp_type : Z; private_key : list Z; public_key : list Z }.
Record keyring_identity := mk_identity { PKRPin : option (list Z); slot : Z; keypairs : list keypair }.
Record keyring_context := mk_context {
  KeyRingPin : option (list Z);
  KeyRingSalt : list Z;
  identities : list keyring_identity
}.
Record keyring_bam := mk_bam { file_offset : Z; bitmap : list Z }.
Record keyring_file := mk_keyring { bam : list keyring_bam; contexts : list keyring_context; file_size : Z }.

#[global] Instance keypair_eq_dec : EqDecision keypair.
Proof. solve_decision. Defined.

(** The stream cipher and the public key of a secret one; [sha512] is in [NaCl]. *)
Class KeyringNaCl := {
  stream_xor : list Z -> list Z -> list Z -> list Z;
  scalarmult_base : list Z -> list Z;
  stream_xor_length m n k : length (stream_xor m n k) = length m;
  stream_xor_bytes m n k : are_bytes m -> are_bytes (stream_xor m n k);
  stream_xor_twice m n k : are_bytes m -> stream_xor (stream_xor m n k) n k = m;
  scalarmult_base_length k : length (scalarmult_base k) = 32%nat
}.

(** ** Key types *)

Section keyring.
Context `{NaCl} `{KeyringNaCl}.

(** Whether the n-th call succeeds, the bytes it gives, the key pairs (public and secret) that NaCl makes, and what
    memory that was not initialised holds. *)
Context (sys : nat -> bool) (entropy : nat -> nat -> list Z).
Context (box_keypair sign_keypair : nat -> list Z * list Z) (junk : list Z).

Definition strnchr_nul (s : list Z) (n : Z) : option bool :=
  d ← zslice s 0 n; Some (existsb (Z.eqb 0) d).

Definition packer_fun : Type := Z -> Z -> keypair -> list Z -> rotbuf -> option (Z * list Z * rotbuf).
Definition unpacker_fun : Type := Z -> Z -> list Z -> rotbuf -> option (Z * list Z * list Z * rotbuf).

Record keytype := mk_keytype {
  public_key_size : Z;
  private_key_size : Z;
  packed_size : Z;
  packer : option packer_fun;
  unpacker : option unpacker_fun
}.

Definition pack_private_only : packer_fun := fun priv pub kp buf rb =>
  d ← zslice (private_key kp) 0 priv;
  '(buf, rb) ← rotbuf_putbuf buf rb d;
  Some (0, buf, rb).

Definition pack_private_public : packer_fun := fun priv pub kp buf rb =>
  d ← zslice (private_key kp) 0 priv;
  '(buf, rb) ← rotbuf_putbuf buf rb d;
  e ← zslice (public_key kp) 0 pub;
  '(buf, rb) ← rotbuf_putbuf buf rb e;
  Some (0, buf, rb).

Definition pack_did_name : packer_fun := fun priv pub kp buf rb =>
  nul ← strnchr_nul (public_key kp) pub;
  if negb nul then Some (-1, buf, rb) else pack_private_public priv pub kp buf rb.

Definition unpack_private_public : unpacker_fun := fun priv pub buf rb =>
  '(d, rb) ← rotbuf_getbuf buf rb (Z.to_nat priv);
  '(e, rb) ← rotbuf_getbuf buf rb (Z.to_nat pub);
  Some (0, d, e, rb).

Definition unpack_private_only : unpacker_fun := fun priv pub buf rb =>
  '(d, rb) ← rotbuf_getbuf buf rb (Z.to_nat priv);
  Some (0, d, take (Z.to_nat pub) junk, rb).

Definition unpack_private_derive_scalarmult_public : unpacker_fun := fun priv pub buf rb =>
  '(d, rb) ← rotbuf_getbuf buf rb (Z.to_nat priv);
  Some (0, d, (if wrap rb =? 0 then scalarmult_base d else take (Z.to_nat pub) junk), rb).

Definition unpack_did_name : unpacker_fun := fun priv pub buf rb =>
  '(r, d, e, rb) ← unpack_private_public priv pub buf rb;
  if r =? -1 then Some (-1, d, e, rb)
  else nul ← strnchr_nul e pub; Some (if (nul : bool) then 0 else -1, d, e, rb).

(** The first entry, which the initialiser leaves out, is zero. *)
Definition keytypes : list keytype := [
  mk_keytype 0 0 0 None None;
  mk_keytype 32 32 32 (Some pack_private_only) (Some unpack_private_derive_scalarmult_public);
  mk_keytype 32 64 (64 + 32) (Some pack_private_public) (Some unpack_private_public);
  mk_keytype 0 32 32 (Some pack_private_only) (Some unpack_private_only);
  mk_keytype 64 32 (32 + 64) (Some pack_did_name) (Some unpack_did_name)].

(** The types whose entries have no length. *)
Definition original_type (t : Z) : bool := (t =? 1) || (t =? 2) || (t =? 3) || (t =? 4).

(** ** The state *)

Record kworld := mk_kworld {
  calls : nat;
  file : list Z;
  ring : keyring_file;
  own_sids : list (list Z)
}.

Definition KM (A : Type) : Type := kworld -> option (A * kworld).
#[global] Instance KM_ret : MRet KM := fun A x w => Some (x, w).
#[global] Instance KM_bind : MBind KM := fun A B f m w => match m w with Some (x, w) => f x w | None => None end.

Definition klift {A} (o : option A) : KM A := fun w => x ← o; Some (x, w).
Definition tick (w : kworld) : kworld := mk_kworld (S (calls w)) (file w) (ring w) (own_sids w).
(** One call that may fail. *)
Definition syscall : KM bool := fun w => Some (sys (calls w), tick w).
Definition urandombytes (n : nat) : KM (option (list Z)) :=
  fun w => Some (if sys (calls w) then Some (entropy (calls w) n) else None, tick w).
Definition get_ring : KM keyring_file := fun w => Some (ring w, w).
Definition put_ring (k : keyring_file) : KM () := fun w => Some ((), mk_kworld (calls w) (file w) k (own_sids w)).
(** find_subscriber and set_reachable for the key of an identity. *)
Definition add_own (sid : list Z) : KM () := fun w => Some ((), mk_kworld (calls w) (file w) (ring w) (own_sids w ++ [sid])).

(** Writing at a place of the file; what lies between its end and that place is zero. *)
Definition file_write (f : list Z) (off : nat) (d : list Z) : list Z :=
  take off f ++ replicate (off - length f) 0 ++ d ++ drop (off + length d) f.
Definition fwrite (off : Z) (d : list Z) : KM bool := fun w =>
  let ok := sys (calls w) in
  Some (ok, mk_kworld (S (calls w)) (if ok then file_write (file w) (Z.to_nat off) d else file w) (ring w) (own_sids w)).
Definition fread (off n : Z) : KM (option (list Z)) := fun w =>
  Some (if sys (calls w) then zslice (file w) off n else None, tick w).
Definition str_edup (s : list Z) : KM (option (list Z)) := ok ← syscall; mret (if (ok : bool) then Some s else None).

(** ** Encryption *)

(** APPEND to the work area; [None] is the input that is too long. *)
Definition append_work (work d : list Z) : option (list Z) :=
  let l := u32 (zlen d) in
  if 65536 - zlen work <? l then None else Some (work ++ take (Z.to_nat l) d).

(** The hashes for the key and the nonce. *)
Definition munge_hashes (pkrsalt salt krpin pkrpin : list Z) : option (list Z * list Z) :=
  w ← append_work [] pkrsalt;
  w ← append_work w pkrpin;
  w ← append_work w pkrsalt;
  w ← append_work w krpin;
  v ← append_work [] krpin;
  v ← append_work v salt;
  v ← append_work v krpin;
  v ← append_work v pkrpin;
  Some (sha512 w, sha512 v).

(** The result and the block. *)
Definition keyring_munge_block (block salt krpin pkrpin : list Z) : Z * list Z :=
  if zlen block <? 96 then (-1, block)
  else
    match munge_hashes (take PKR_SALT_BYTES block) salt krpin pkrpin with
    | None => (1, block)
    | Some (hashKey, hashNonce) =>
        (0, take 96 block ++ stream_xor (drop 96 block) (take 24 hashNonce) (take 32 hashKey))
    end.

(** The result and the code. *)
Definition keyring_identity_mac (id : keyring_identity) (pkrsalt : list Z) : option (Z * list Z) :=
  kp ← head (keypairs id);
  pin ← PKRPin id;
  Some (match (w ← append_work [] (take 32 pkrsalt);
               w ← append_work w (private_key kp);
               w ← append_work w (public_key kp);
               append_work w pin) with
        | Some w => (0, sha512 w)
        | None => (-1, [])
        end).

(** ** Packing *)

Inductive packing :=
| Scram
| Packed (buf : list Z) (rb : rotbuf) (all : bool).

Fixpoint pack_loop (kps : list keypair) (buf : list Z) (rb : rotbuf) : option packing :=
  match kps with
  | [] => Some (Packed buf rb true)
  | kp :: kps =>
      if negb (wrap rb =? 0) then Some (Packed buf rb false)
      else
        let ktype := u32 (kp_type kp) in
        if (ktype =? 0) || (zlen keytypes <=? ktype) then Some Scram
        else
          kt ← keytypes !! Z.to_nat ktype;
          match packer kt with
          | None => pack_loop kps buf rb
          | Some pack =>
              '(buf, rb) ← rotbuf_putc buf rb ktype;
              '(buf, rb) ← (if original_type ktype then Some (buf, rb)
                            else '(buf, rb) ← rotbuf_putc buf rb (Z.land (Z.shiftr (packed_size kt) 8) 255);
                                 rotbuf_putc buf rb (Z.land (packed_size kt) 255));
              '(r, buf, rb') ← pack (private_key_size kt) (public_key_size kt) kp buf rb;
              if negb (r =? 0) then Some (Packed buf rb' false)
              else
                n ← rotbuf_delta rb rb';
                if negb (u32 n =? packed_size kt) then Some Scram else pack_loop kps buf rb'
          end
  end.

(** Random bytes for what is left of the slot; there are at most two chunks. *)
Fixpoint fill_loop (fuel : nat) (buf : list Z) (rb : rotbuf) : KM (option (list Z)) :=
  match rotbuf_next_chunk rb with
  | (None, _) => mret (Some buf)
  | (Some (o, n), rb) =>
      match fuel with
      | O => klift None
      | S fuel =>
          r ← urandombytes (Z.to_nat n);
          match r with
          | None => mret None
          | Some d => buf ← klift (zblit buf o d); fill_loop fuel buf rb
          end
      end
  end.

(** [packed] is the memory of the slot before; [None] is the result -1. *)
Definition keyring_pack_identity (packed : list Z) (id : keyring_identity) : KM (option (list Z)) :=
  r ← urandombytes PKR_SALT_BYTES;
  match r with
  | None => mret None
  | Some salt =>
      mac ← klift (keyring_identity_mac id salt);
      let mac := if mac.1 =? 0 then mac.2 else take PKR_MAC_BYTES (drop PKR_SALT_BYTES packed) in
      r ← urandombytes 2;
      match r with
      | None => mret None
      | Some rot =>
          lo ← klift (rot !! 0%nat);
          hi ← klift (rot !! 1%nat);
          let rotation := lo + 256 * hi in
          let head := salt ++ mac ++ [Z.shiftr rotation 8; Z.land rotation 255] in
          let body := drop (PKR_SALT_BYTES + PKR_MAC_BYTES + 2) packed in
          rb ← klift (rotbuf_init (zlen body) rotation);
          r ← klift (pack_loop (keypairs id) body rb);
          let scram := _ ← urandombytes (Z.to_nat KEYRING_PAGE_SIZE); mret None in
          match r with
          | Scram => scram
          | Packed body rb all =>
              '(body, rb) ← klift (rotbuf_putc body rb 0);
              if (1 <? wrap rb) || negb all then scram
              else
                r ← fill_loop 2 body rb;
                mret (match r with Some body => Some (head ++ body) | None => None end)
          end
      end
  end.

(** ** Unpacking *)

(** The sign of memcmp on two areas of a length. *)
Fixpoint memcmp (a b : list Z) : Z :=
  match a, b with
  | x :: a, y :: b => if x <? y then -1 else if y <? x then 1 else memcmp a b
  | _, _ => 0
  end.

(** [None] is a failed assertion. *)
Definition cmp_keypair (a b : keypair) : option Z :=
  let c := if kp_type a <? kp_type b then -1 else if kp_type b <? kp_type a then 1 else 0 in
  c ← (if (c =? 0) && negb (length (public_key a) =? 0)%nat
       then if (length (public_key a) =? length (public_key b))%nat then Some (memcmp (public_key a) (public_key b)) else None
       else Some c);
  if (c =? 0) && negb (length (private_key a) =? 0)%nat
  then if (length (private_key a) =? length (private_key b))%nat then Some (memcmp (private_key a) (private_key b)) else None
  else Some c.

(** Where a new key pair goes: before the first greater one; an equal one is dropped. *)
Fixpoint place_keypair (l : list keypair) (kp : keypair) : option (list keypair) :=
  match l with
  | [] => Some [kp]
  | x :: l =>
      c ← cmp_keypair x kp;
      if c <? 0 then r ← place_keypair l kp; Some (x :: r)
      else if c =? 0 then Some (x :: l) else Some (kp :: x :: l)
  end.

(** Room for a key pair. *)
Definition alloc_keypair (kt : keytype) : KM bool :=
  ok ← syscall;
  if negb ok then mret false
  else
    ok ← (if private_key_size kt =? 0 then mret true else syscall);
    if negb ok then mret false
    else if public_key_size kt =? 0 then mret true else syscall.

Inductive unpacking :=
| Invalid
| Unpacked (kps : list keypair) (rb : rotbuf).

(** Every pass takes at least one byte, so the size of the buffer and one is fuel enough. *)
Fixpoint unpack_loop (fuel : nat) (buf : list Z) (rb : rotbuf) (kps : list keypair) : KM unpacking :=
  if negb (wrap rb =? 0) then mret (Unpacked kps rb)
  else
    match fuel with
    | O => klift None
    | S fuel =>
        if (PKR_MAX_KEYPAIRS <=? length kps)%nat then mret Invalid
        else
          '(c, rb) ← klift (rotbuf_getc buf rb);
          let ktype := u8 c in
          if negb (wrap rb =? 0) || (ktype =? 0) then mret (Unpacked kps rb)
          else
            '(keypair_len, rb) ← klift (if original_type ktype then kt ← keytypes !! Z.to_nat ktype; Some (packed_size kt, rb)
                                   else '(a, rb) ← rotbuf_getc buf rb;
                                        '(b, rb) ← rotbuf_getc buf rb;
                                        Some (Z.lor (u64 (i32 (Z.shiftl a 8))) (u64 b), rb));
            if negb (wrap rb =? 0) then mret (Unpacked kps rb)
            else
              match (if ktype <? zlen keytypes then kt ← keytypes !! Z.to_nat ktype; u ← unpacker kt; Some (kt, u) else None) with
              | Some (kt, unpack) =>
                  ok ← alloc_keypair kt;
                  if negb ok then mret Invalid
                  else
                    '(r, d, e, rb') ← klift (unpack (private_key_size kt) (public_key_size kt) buf rb);
                    if negb (r =? 0) then mret Invalid
                    else
                      n ← klift (rotbuf_delta rb rb');
                      if negb (u64 n =? keypair_len) then mret Invalid
                      else
                        kps ← klift (place_keypair kps (mk_keypair ktype d e));
                        unpack_loop fuel buf rb' kps
              | None => unpack_loop fuel buf (rotbuf_advance rb keypair_len) kps
              end
    end.

(** [None] is NULL. *)
Definition keyring_unpack_identity (s pin : list Z) : KM (option keyring_identity) :=
  ok ← syscall;
  if negb ok then mret None
  else
    p ← str_edup pin;
    hi ← klift (s !! (PKR_SALT_BYTES + PKR_MAC_BYTES)%nat);
    lo ← klift (s !! (PKR_SALT_BYTES + PKR_MAC_BYTES + 1)%nat);
    let rotation := u16 (Z.lor (Z.shiftl hi 8) lo) in
    let body := drop (PKR_SALT_BYTES + PKR_MAC_BYTES + 2) s in
    rb ← klift (rotbuf_init (zlen body) rotation);
    r ← unpack_loop (S (length body)) body rb [];
    mret (match r with
          | Invalid => None
          | Unpacked kps rb => if 1 <? wrap rb then None else Some (mk_identity p 0 kps)
          end).
End keyring.
