(* ===== verification/KeyringFile.v ===== *)
(** KeyringFile: keyring.c, the keyring file: opening it, entering pins, creating identities, writing it, and finding keys. *)

From S2P Require Import Prelude Str Crypto RotBuf Keyring.

Section file.
Context `{NaCl} `{KeyringNaCl}.
Context (sys : nat -> bool) (entropy : nat -> nat -> list Z).
Context (box_keypair sign_keypair : nat -> list Z * list Z) (junk : list Z).

Abbreviation syscall := (syscall sys).
Abbreviation urandombytes := (urandombytes sys entropy).
Abbreviation fwrite := (fwrite sys).
Abbreviation fread := (fread sys).
Abbreviation str_edup := (str_edup sys).

(** ** Opening *)

(** The bitmaps of the slabs and the salt after the first one; [None] is an error. *)
Fixpoint read_slabs (fuel : nat) (offset size : Z) : KM (option (list keyring_bam * list keyring_context)) :=
  if offset <? size then
    match fuel with
    | O => klift None
    | S fuel =>
        seek ← syscall;
        if negb seek then mret None
        else
          ok ← syscall;
          if negb ok then mret None
          else
            r ← fread offset KEYRING_BAM_BYTES;
            match r with
            | None => mret None
            | Some bits =>
                cs ← (if offset =? 0 then
                        ok ← syscall;
                        if negb ok then mret None
                        else
                          pin ← str_edup [];
                          ok ← syscall;
                          if negb ok then mret None
                          else
                            r ← fread KEYRING_BAM_BYTES (KEYRING_PAGE_SIZE - KEYRING_BAM_BYTES);
                            mret (match r with Some salt => Some [mk_context pin salt []] | None => None end)
                      else mret (Some []));
                match cs with
                | None => mret None
                | Some cs =>
                    r ← read_slabs fuel (offset + KEYRING_PAGE_SIZE * Z.shiftl KEYRING_BAM_BYTES 3) size;
                    mret (match r with Some (bams, cs') => Some (mk_bam offset bits :: bams, cs ++ cs') | None => None end)
                end
            end
    end
  else mret (Some ([], [])).

Definition truncate : KM () := fun w => Some ((), mk_kworld (calls w) [] (ring w) (own_sids w)).
Definition ftello : KM Z := fun w => Some (zlen (file w), w).

(** Whether the file is open. *)
Definition open_stream : KM bool :=
  rw ← syscall;
  if (rw : bool) then mret true
  else
    r ← syscall;
    if (r : bool) then mret true
    else w ← syscall; if (w : bool) then _ ← truncate; mret true else mret false.

(** An empty bitmap and a random salt, for a file too short to have them; false is an error. *)
Definition initialise_file : KM bool :=
  seek ← syscall;
  if negb seek then mret false
  else
    ok ← fwrite 0 (replicate 2048 0);
    if negb ok then mret false
    else
      r ← urandombytes (Z.to_nat (KEYRING_PAGE_SIZE - KEYRING_BAM_BYTES));
      match r with
      | None => mret false
      | Some salt => fwrite 2048 salt
      end.

(** Whether it succeeded; the keyring is then in the state. *)
Definition keyring_open : KM bool :=
  ok ← syscall;
  if negb ok then mret false
  else
    ok ← open_stream;
    if negb ok then mret false
    else
      seek ← syscall;
      if negb seek then mret false
      else
        size ← ftello;
        init ← (if size <? KEYRING_PAGE_SIZE then initialise_file else mret true);
        if negb init then mret false
        else
          let size := if size <? KEYRING_PAGE_SIZE then KEYRING_PAGE_SIZE else size in
          r ← read_slabs (S (Z.to_nat (size / KEYRING_SLAB_SIZE))) 0 size;
          match r with
          | None => mret false
          | Some (bams, cs) => _ ← put_ring (mk_keyring bams cs size); mret true
          end.

(** ** Pins *)

Definition set_contexts (k : keyring_file) (cs : list keyring_context) : keyring_file := mk_keyring (bam k) cs (file_size k).
Definition set_identities (c : keyring_context) (l : list keyring_identity) : keyring_context :=
  mk_context (KeyRingPin c) (KeyRingSalt c) l.

(** strcmp with the pins of the contexts; an absent pin is dereferenced. *)
Fixpoint pin_known (cs : list keyring_context) (pin : list Z) : option bool :=
  match cs with
  | [] => Some false
  | c :: cs => p ← KeyRingPin c; if bool_decide (p = pin) then Some true else pin_known cs pin
  end.

(** [None] for a pin that is NULL. *)
Definition keyring_enter_keyringpin (pin : option (list Z)) : KM Z :=
  k ← get_ring;
  if (KEYRING_MAX_CONTEXTS <=? length (contexts k))%nat then mret (-1)
  else
    match contexts k with
    | [] => mret (-1)
    | c0 :: _ =>
        pin ← klift pin;
        known ← klift (pin_known (contexts k) pin);
        if (known : bool) then mret 1
        else
          ok ← syscall;
          if negb ok then mret (-1)
          else
            p ← str_edup pin;
            ok ← syscall;
            if negb ok then mret (-1)
            else
              _ ← put_ring (set_contexts k (contexts k ++ [mk_context p (KeyRingSalt c0) []]));
              mret 0
    end.

(** The subscriber of the first key pair that is for boxes. *)
Fixpoint own_sid (kps : list keypair) : option (list Z) :=
  match kps with
  | [] => None
  | kp :: kps => if kp_type kp =? KEYTYPE_CRYPTOBOX then Some (public_key kp) else own_sid kps
  end.

Definition add_identity (cn : nat) (id : keyring_identity) : KM () :=
  k ← get_ring;
  c ← klift (contexts k !! cn);
  if KEYRING_MAX_IDENTITIES <=? zlen (identities c) then klift None
  else put_ring (set_contexts k (<[cn := set_identities c (identities c ++ [id])]> (contexts k))).

(** [cn] is the number of the context [c]. *)
Definition keyring_decrypt_pkr (cn : nat) (pin : list Z) (slot_number : Z) : KM Z :=
  k ← get_ring;
  c0 ← klift (contexts k !! 0%nat);
  c ← klift (contexts k !! cn);
  seek ← syscall;
  if negb seek then mret (-1)
  else
    r ← fread (slot_number * KEYRING_PAGE_SIZE) KEYRING_PAGE_SIZE;
    match r with
    | None => mret (-1)
    | Some block =>
        krpin ← klift (KeyRingPin c);
        let '(err, s) := keyring_munge_block block (KeyRingSalt c0) krpin pin in
        if negb (err =? 0) then mret 1
        else
          r ← keyring_unpack_identity sys junk s pin;
          match r with
          | None => mret 1
          | Some id =>
              if (length (keypairs id) <? 1)%nat then mret 1
              else
                let id := mk_identity (PKRPin id) slot_number (keypairs id) in
                mac ← klift (keyring_identity_mac id s);
                if negb (mac.1 =? 0) then mret 1
                else
                  stored ← klift (zslice s 32 64);
                  if negb (memcmp mac.2 stored =? 0) then mret 1
                  else
                    _ ← (match own_sid (keypairs id) with Some sid => add_own sid | None => mret () end);
                    _ ← add_identity cn id;
                    mret 0
          end
    end.

Fixpoint find_bam (bams : list keyring_bam) (offset : Z) : option keyring_bam :=
  match bams with
  | [] => None
  | b :: bams => if file_offset b + KEYRING_SLAB_SIZE <=? offset then find_bam bams offset else Some b
  end.

(** The bit of a slot in its bitmap. *)
Definition slot_bit (bits : list Z) (s : Z) : option bool :=
  let position := Z.land s (KEYRING_BAM_BITS - 1) in
  b ← zget bits (Z.shiftr position 3);
  Some (negb (Z.land b (Z.shiftl 1 (Z.land position 7)) =? 0)).

(** The contexts from [cn] on. *)
Fixpoint enter_contexts (n cn : nat) (pin : list Z) (s : Z) : KM Z :=
  match n with
  | O => mret 0
  | S n =>
      r ← keyring_decrypt_pkr cn pin s;
      found ← enter_contexts n (S cn) pin s;
      mret ((if r =? 0 then 1 else 0) + found)
  end.

Fixpoint enter_slots (n : nat) (s : Z) (pin : list Z) : KM Z :=
  match n with
  | O => mret 0
  | S n =>
      k ← get_ring;
      found ← (if Z.land s (KEYRING_BAM_BITS - 1) =? 0 then mret 0
               else
                 match find_bam (bam k) (s * KEYRING_PAGE_SIZE) with
                 | None => mret 0
                 | Some b =>
                     used ← klift (slot_bit (bitmap b) s);
                     if (used : bool) then enter_contexts (length (contexts k)) 0 pin s else mret 0
                 end);
      rest ← enter_slots n (s + 1) pin;
      mret (found + rest)
  end.

Definition keyring_enter_pin (pin : option (list Z)) : KM Z :=
  k ← get_ring;
  enter_slots (Z.to_nat (file_size k / KEYRING_PAGE_SIZE)) 0 (default [] pin).

(** ** New identities *)

(** The first slot from [s] on that is free, or the number of slots. *)
Fixpoint free_slot (n : nat) (s : Z) (bits : list Z) : option Z :=
  match n with
  | O => Some s
  | S n => used ← slot_bit bits s; if (used : bool) then free_slot n (s + 1) bits else Some s
  end.

Definition set_slot_bit (bits : list Z) (s : Z) : option (list Z) :=
  let position := Z.land s (KEYRING_BAM_BITS - 1) in
  b ← zget bits (Z.shiftr position 3);
  zset bits (Z.shiftr position 3) (Z.lor b (Z.shiftl 1 (Z.land position 7))).

(** Key pairs until one has a public key that is not reserved; [n] bounds the attempts. *)
Fixpoint new_box_keypair (n : nat) (i : nat) : option (list Z * list Z) :=
  match n with
  | O => None
  | S n =>
      b ← (box_keypair i).1 !! 0%nat;
      if b <? 16 then new_box_keypair n (S i) else Some (box_keypair i)
  end.

(** Three calls for a key pair with both keys; false is a failure. *)
Definition alloc3 : KM bool :=
  a ← syscall;
  if negb a then mret false else b ← syscall; if negb b then mret false else syscall.

(** The number of the identity in the context; [attempts] bounds the key pairs tried. *)
Definition keyring_create_identity (attempts : nat) (cn : nat) (pin : option (list Z)) : KM (option nat) :=
  k ← get_ring;
  match bam k with
  | [] => mret None
  | b :: bams =>
      c ← klift (contexts k !! cn);
      if KEYRING_MAX_IDENTITIES <=? zlen (identities c) then mret None
      else
        ok ← syscall;
        if negb ok then mret None
        else
          p ← str_edup (default [] pin);
          match p with
          | None => mret None
          | Some p =>
              s ← klift (free_slot (Z.to_nat (KEYRING_BAM_BITS - 1)) 1 (bitmap b));
              if KEYRING_BAM_BITS <=? s then mret None
              else
                ok ← alloc3;
                if negb ok then mret None
                else
                  n ← (fun w => Some (calls w, w));
                  box ← klift (new_box_keypair attempts n);
                  ok ← alloc3;
                  if negb ok then mret None
                  else
                    let sig := sign_keypair n in
                    ok ← syscall;
                    if negb ok then mret None
                    else
                      ok ← syscall;
                      if negb ok then mret None
                      else
                        r ← urandombytes 32;
                        let secret := match r with Some d => d | None => take 32 junk end in
                        bits ← klift (set_slot_bit (bitmap b) s);
                        let id := mk_identity (Some p) s
                                    [mk_keypair KEYTYPE_CRYPTOBOX box.2 box.1; mk_keypair KEYTYPE_CRYPTOSIGN sig.2 sig.1;
                                     mk_keypair KEYTYPE_RHIZOME secret []] in
                        _ ← put_ring (mk_keyring (mk_bam (file_offset b) bits :: bams) (contexts k) (file_size k));
                        _ ← add_identity cn id;
                        _ ← add_own box.1;
                        mret (Some (length (identities c)))
          end
  end.

(** A text of at most [n - 1] characters in an area of [n] bytes. *)
Definition pad (t : list Z) (n : nat) : list Z := take (n - 1) t ++ replicate (n - Nat.min (length t) (n - 1)) 0.

Fixpoint set_did_in (kps : list keypair) (kp : keypair) : option (list keypair) :=
  match kps with
  | [] => None
  | x :: kps => if kp_type x =? KEYTYPE_DID then Some (kp :: kps) else l ← set_did_in kps kp; Some (x :: l)
  end.

Definition MR_SMITH : list Z := bytes_of_string "Mr. Smith".

(** The identity after it, and the result. *)
Definition keyring_set_did (id : keyring_identity) (did name : option (list Z)) : KM (Z * keyring_identity) :=
  match did with
  | None => mret (-1, id)
  | Some did =>
      let kp := mk_keypair KEYTYPE_DID (pad did 32) (pad (default MR_SMITH name) 64) in
      match set_did_in (keypairs id) kp with
      | Some kps => mret (0, mk_identity (PKRPin id) (slot id) kps)
      | None =>
          if (PKR_MAX_KEYPAIRS <=? length (keypairs id))%nat then mret (-1, id)
          else
            ok ← alloc3;
            if negb ok then mret (-1, id)
            else mret (0, mk_identity (PKRPin id) (slot id) (keypairs id ++ [kp]))
      end
  end.

(** ** Writing *)

Fixpoint write_bams (bams : list keyring_bam) (salt : list Z) : KM Z :=
  match bams with
  | [] => mret 0
  | b :: bams =>
      seek ← syscall;
      e ← (if negb seek then mret 1
           else
             ok ← fwrite (file_offset b) (bitmap b);
             if negb ok then mret 1
             else ok ← fwrite (file_offset b + zlen (bitmap b)) salt; mret (if (ok : bool) then 0 else 1));
      rest ← write_bams bams salt;
      mret (e + rest)
  end.

(** The errors of writing one identity; [pkr] is the memory of the slot before. *)
Definition write_identity (pkr : list Z) (c : keyring_context) (id : keyring_identity) : KM Z :=
  r ← keyring_pack_identity sys entropy junk pkr id;
  match r with
  | None => mret 1
  | Some block =>
      krpin ← klift (KeyRingPin c);
      pin ← klift (PKRPin id);
      let '(err, s) := keyring_munge_block block (KeyRingSalt c) krpin pin in
      if negb (err =? 0) then mret 1
      else if KEYRING_PAGE_SIZE * slot id =? 0 then mret 0
      else
        seek ← syscall;
        if negb seek then mret 1
        else ok ← fwrite (KEYRING_PAGE_SIZE * slot id) s; mret (if (ok : bool) then 0 else 1)
  end.
Fixpoint write_identities (pkr : list Z) (c : keyring_context) (ids : list keyring_identity) : KM Z :=
  match ids with
  | [] => mret 0
  | id :: ids => e ← write_identity pkr c id; rest ← write_identities pkr c ids; mret (e + rest)
  end.
Fixpoint write_contexts (pkr : list Z) (cs : list keyring_context) : KM Z :=
  match cs with
  | [] => mret 0
  | c :: cs => e ← write_identities pkr c (identities c); rest ← write_contexts pkr cs; mret (e + rest)
  end.
Definition keyring_commit (pkr : list Z) : KM Z :=
  k ← get_ring;
  match contexts k with
  | [] => mret (-1)
  | c0 :: _ =>
      a ← write_bams (bam k) (KeyRingSalt c0);
      b ← write_contexts pkr (contexts k);
      flush ← syscall;
      let errorCount := a + b + (if (flush : bool) then 0 else 1) in
      mret (if errorCount =? 0 then 0 else -1)
  end.

(** ** Finding keys *)

Record position := mk_pos { cn : nat; idn : nat; kpn : nat }.

(** [None] is a NULL context or identity that is dereferenced. *)
Definition keyring_sanitise_position (k : keyring_file) (p : position) : option (bool * position) :=
  let count := length (contexts k) in
  if (count <=? cn p)%nat then Some (true, p)
  else
    c ← contexts k !! cn p;
    let p := if (length (identities c) <=? idn p)%nat then mk_pos (S (cn p)) 0 (kpn p) else p in
    if (count <=? cn p)%nat then Some (true, p)
    else
      c ← contexts k !! cn p;
      id ← identities c !! idn p;
      if (length (keypairs id) <=? kpn p)%nat then
        let p := mk_pos (cn p) (S (idn p)) 0 in
        if (length (identities c) <=? idn p)%nat then
          let p := mk_pos (S (cn p)) 0 0 in
          Some ((count <=? cn p)%nat, p)
        else Some (false, p)
      else Some (false, p).

(** The key pair at a position. *)
Definition keypair_at (k : keyring_file) (p : position) : option keypair :=
  c ← contexts k !! cn p; id ← identities c !! idn p; keypairs id !! kpn p.
Definition next_pos (p : position) : position := mk_pos (cn p) (idn p) (S (kpn p)).

(** The loops that look for a key pair from a position on; whether one was found, and where. *)
Fixpoint find_from (fuel : nat) (k : keyring_file) (test : keypair -> option bool) (p : position) : option (bool * position) :=
  match fuel with
  | O => None
  | S fuel =>
      '(done, p) ← keyring_sanitise_position k p;
      if (done : bool) then Some (false, p)
      else
        kp ← keypair_at k p;
        found ← test kp;
        if (found : bool) then Some (true, p) else find_from fuel k test (next_pos p)
  end.

(** Every pass goes to another key pair. *)
Definition find_fuel (k : keyring_file) : nat :=
  S (list_sum (map (fun c => S (list_sum (map (fun id => S (length (keypairs id))) (identities c)))) (contexts k))).

Definition keyring_next_keytype (k : keyring_file) (p : position) (t : Z) : option (bool * position) :=
  find_from (find_fuel k) k (fun kp => Some (kp_type kp =? t)) p.
Definition keyring_next_identity (k : keyring_file) (p : position) : option (bool * position) :=
  keyring_next_keytype k p KEYTYPE_CRYPTOBOX.
Definition keyring_find_sid (k : keyring_file) (p : position) (sid : list Z) : option (bool * position) :=
  find_from (find_fuel k) k
    (fun kp => if kp_type kp =? KEYTYPE_CRYPTOBOX
               then a ← zslice sid 0 32; b ← zslice (public_key kp) 0 32; Some (memcmp a b =? 0) else Some false) p.
Definition keyring_find_did (k : keyring_file) (p : position) (did : list Z) : option (bool * position) :=
  find_from (find_fuel k) k
    (fun kp => if kp_type kp =? KEYTYPE_DID then
                 c ← did !! 0%nat;
                 if c =? 0 then Some true
                 else
                   star ← (if c =? 42 then d ← did !! 1%nat; Some (d =? 0) else Some false);
                   if (star : bool) then Some true
                   else r ← strncasecmp did (private_key kp) (length did); Some (r =? 0)
               else Some false) p.

(** The first key pair of a type, or -1.  keyring_identity_find_keytype looks in the global keyring, whatever it is given. *)
Fixpoint find_keytype (kps : list keypair) (t i : Z) : Z :=
  match kps with [] => -1 | kp :: kps => if kp_type kp =? t then i else find_keytype kps t (i + 1) end.
Definition keyring_identity_find_keytype (k : keyring_file) (cn idn : nat) (t : Z) : option Z :=
  c ← contexts k !! cn; id ← identities c !! idn; Some (find_keytype (keypairs id) t 0).

(** What keyring_identity_extract gives for all three: the last key for boxes before it is done, and the first number and name. *)
Fixpoint extract_loop (kps : list keypair) (todo : Z) (sid did name : option (list Z)) : option (list Z) * option (list Z) * option (list Z) :=
  match kps with
  | [] => (sid, did, name)
  | kp :: kps =>
      if todo =? 0 then (sid, did, name)
      else if kp_type kp =? KEYTYPE_CRYPTOBOX then extract_loop kps (Z.land todo 6) (Some (public_key kp)) did name
      else if kp_type kp =? KEYTYPE_DID then extract_loop kps (Z.land todo 1) sid (Some (private_key kp)) (Some (public_key kp))
      else extract_loop kps todo sid did name
  end.
Definition keyring_identity_extract (id : keyring_identity) : option (list Z) * option (list Z) * option (list Z) :=
  extract_loop (keypairs id) 7 None None None.

(** ** The first identity *)

Definition seed_digits (d : list Z) : list Z :=
  match d with [] => [] | x :: d => (50 + x mod 8) :: ((fun y => 48 + y mod 10) <$> d) end.

Definition put_identity (cn idn : nat) (id : keyring_identity) : KM () :=
  k ← get_ring;
  c ← klift (contexts k !! cn);
  put_ring (set_contexts k (<[cn := set_identities c (<[idn := id]> (identities c))]> (contexts k))).

Definition keyring_seed (attempts : nat) (pkr : list Z) : KM Z :=
  k ← get_ring;
  c0 ← klift (contexts k !! 0%nat);
  if negb (length (identities c0) =? 0)%nat then mret 0
  else
    r ← urandombytes 11;
    let did := seed_digits (match r with Some d => d | None => take 11 junk end) in
    r ← keyring_create_identity attempts 0 (Some []);
    match r with
    | None => mret (-1)
    | Some i =>
        k ← get_ring;
        c0 ← klift (contexts k !! 0%nat);
        id ← klift (identities c0 !! i);
        '(r, id) ← keyring_set_did id (Some did) (Some []);
        if negb (r =? 0) then mret (-1)
        else
          _ ← put_identity 0 i id;
          r ← keyring_commit pkr;
          if negb (r =? 0) then mret (-1) else mret 0
    end.
End file.
