(* ===== verification/KeyringSlot.v ===== *)
(** KeyringSlot: an identity that is packed, encrypted, decrypted and unpacked is the one it was. *)

From Stdlib Require Import Sorted.
From S2P Require Import Prelude Str Crypto RotBuf Keyring.

(** ** Writing into a rotated buffer *)

Definition splice (v : list Z) (c : nat) (d : list Z) : list Z := take c v ++ d ++ drop (c + length d) v.

Lemma splice_length v c d : (c + length d <= length v)%nat -> length (splice v c d) = length v.
Proof. intros Hc. unfold splice. rewrite !length_app, length_take, length_drop. lia. Qed.

Lemma splice_splice v c d e : (c + length d + length e <= length v)%nat ->
  splice (splice v c d) (c + length d) e = splice v c (d ++ e).
Proof.
  intros Hc. unfold splice. rewrite length_app.
  assert (Hl : length (take c v) = c) by (rewrite length_take; lia).
  rewrite (app_assoc (take c v) d). rewrite (take_app_length' (take c v ++ d)) by (rewrite length_app; lia).
  rewrite drop_app_ge by (rewrite length_app; lia). rewrite drop_drop, length_app, Hl.
  rewrite <- !app_assoc. do 3 f_equal. f_equal. lia.
Qed.

Lemma splice_nil v c : (c <= length v)%nat -> splice v c [] = v.
Proof. intros Hc. unfold splice. cbn [app length]. by rewrite Nat.add_0_r, take_drop. Qed.

Lemma rb_ok_le N s c : 0 < N < 2 ^ 31 -> 0 <= s < N -> 0 <= c <= N -> rb_ok N s c.
Proof. unfold rb_ok. lia. Qed.

Section rotated.
Context (N : nat) (s : Z).
Hypothesis HN : 0 < Z.of_nat N < 2 ^ 31.
Hypothesis Hs : 0 <= s < Z.of_nat N.

(** The buffer with the cursor [c] bytes on. *)
Definition at_ (c : nat) : rotbuf := rb_at (Z.of_nat N) s (Z.of_nat c).

Lemma at_ok c : (c <= N)%nat -> rb_ok (Z.of_nat N) s (Z.of_nat c).
Proof. intros. apply rb_ok_le; lia. Qed.

Lemma at_wrap c : (c < N)%nat -> wrap (at_ c) = 0.
Proof. intros Hc. unfold at_, rb_at. by zdecide. Qed.

Lemma put_at d buf c : length buf = N -> (c + length d <= N)%nat ->
  exists buf', rotbuf_putbuf buf (at_ c) d = Some (buf', at_ (c + length d)) /\
    length buf' = N /\ rb_view s buf' = splice (rb_view s buf) c d.
Proof.
  intros Hb Hc. pose proof (at_ok c ltac:(lia)) as H0. pose proof (at_ok (c + length d) ltac:(lia)) as H1.
  rewrite Nat2Z.inj_add in H1. rewrite <- Hb in H0, H1.
  destruct (rotbuf_putbuf_at d buf s (Z.of_nat c) H0 H1) as (buf' & E & L & V). exists buf'.
  unfold at_. rewrite <- Hb, Nat2Z.inj_add. split; [done|]. split; [lia|]. rewrite V. unfold splice. rewrite Nat2Z.id.
  by rewrite (take_ge d) by lia.
Qed.

Lemma putc_at x buf c : length buf = N -> (c < N)%nat ->
  exists buf', rotbuf_putc buf (at_ c) x = Some (buf', at_ (c + 1)) /\
    length buf' = N /\ rb_view s buf' = splice (rb_view s buf) c [x].
Proof.
  intros Hb Hc. destruct (put_at [x] buf c Hb) as (buf' & E & HL); [simpl; lia|]. exists buf'. split; [|done].
  cbn [rotbuf_putbuf] in E. destruct (rotbuf_putc buf (at_ c) x) as [[b rb]|]; [|done]. by cbn in E.
Qed.

Lemma delta_at c e : (c <= e)%nat -> (e < N)%nat -> rotbuf_delta (at_ c) (at_ e) = Some (Z.of_nat e - Z.of_nat c).
Proof. intros Hc He. apply rotbuf_delta_at; try apply at_ok; lia. Qed.

Lemma getc_at buf c x : are_bytes buf -> length buf = N -> (c < N)%nat -> rb_view s buf !! c = Some x ->
  rotbuf_getc buf (at_ c) = Some (x, at_ (c + 1)).
Proof.
  intros Hbs Hb Hc Hx. pose proof (at_ok c ltac:(lia)) as H0. pose proof (at_ok (c + 1) ltac:(lia)) as H1.
  rewrite Nat2Z.inj_add in H1. unfold at_. rewrite <- Hb in *. rewrite (rotbuf_getc_at buf s (Z.of_nat c) H0 H1).
  rewrite zget_of_nat, Hx. cbn. do 3 f_equal. lia.
Qed.

Lemma get_at buf c d r : are_bytes buf -> length buf = N -> (c + length d <= N)%nat -> drop c (rb_view s buf) = d ++ r ->
  rotbuf_getbuf buf (at_ c) (length d) = Some (d, at_ (c + length d)).
Proof.
  intros Hbs Hb Hc Hd. pose proof (at_ok c ltac:(lia)) as H0. pose proof (at_ok (c + length d) ltac:(lia)) as H1.
  rewrite Nat2Z.inj_add in H1. unfold at_. rewrite <- Hb in *. rewrite (rotbuf_getbuf_at buf s (Z.of_nat c) _ Hbs H0 H1).
  rewrite Nat2Z.id, Hd. rewrite <- app_assoc, take_app_length. do 3 f_equal. lia.
Qed.
(** A chunk is behind the cursor. *)
Lemma chunk_keeps buf c o n d buf' : length buf = N -> (c < N)%nat ->
  zlen d = n -> zblit buf o d = Some buf' ->
  o = (s + Z.of_nat c) mod Z.of_nat N -> n = (if s + Z.of_nat c <? Z.of_nat N then Z.of_nat N - (s + Z.of_nat c) else Z.of_nat N - Z.of_nat c) ->
  take c (rb_view s buf') = take c (rb_view s buf).
Proof.
  intros Hb Hc Hd (H1 & H2 & ->)%zblit_inv Ho Hn. set (buf' := _ ++ d ++ _).
  assert (Hb' : length buf' = N) by (unfold buf'; rewrite !length_app, length_take, length_drop; lia).
  apply list_eq. intros i. destruct (Nat.lt_ge_cases i c) as [Hi|Hi];
    [|rewrite !lookup_ge_None_2; [done| |]; rewrite length_take; lia].
  rewrite !lookup_take_lt by lia. rewrite !rb_view_lookup by lia. rewrite Hb, Hb'. unfold buf'.
  rewrite mod_once in Ho by lia. rewrite mod_once by lia.
  destruct (Z.ltb_spec (s + Z.of_nat c) (Z.of_nat N)), (Z.ltb_spec (s + Z.of_nat i) (Z.of_nat N)); try lia.
  - rewrite lookup_app_l by (rewrite length_take; lia). by rewrite lookup_take_lt by lia.
  - rewrite lookup_app_r by (rewrite length_take; lia). rewrite length_take, lookup_app_r by lia. rewrite lookup_drop. f_equal. lia.
  - rewrite lookup_app_l by (rewrite length_take; lia). by rewrite lookup_take_lt by lia.
Qed.
End rotated.

Lemma putbuf_app d e : forall buf rb,
  rotbuf_putbuf buf rb (d ++ e) = ('(buf, rb) ← rotbuf_putbuf buf rb d; rotbuf_putbuf buf rb e).
Proof.
  induction d as [|x d IH]; intros buf rb; [done|]. cbn [app rotbuf_putbuf].
  destruct (rotbuf_putc buf rb x) as [[b r]|]; cbn [mbind option_bind]; [apply IH|done].
Qed.

(** ** Key pairs *)

Section slots.
Context `{NaCl} `{KeyringNaCl}.

(** Key pairs as they are made. *)
Inductive keypair_ok : keypair -> Prop :=
| box_ok d : length d = 32%nat -> are_bytes d -> keypair_ok (mk_keypair KEYTYPE_CRYPTOBOX d (scalarmult_base d))
| sign_ok d e : length d = 64%nat -> length e = 32%nat -> are_bytes d -> are_bytes e -> keypair_ok (mk_keypair KEYTYPE_CRYPTOSIGN d e)
| rhizome_ok d : length d = 32%nat -> are_bytes d -> keypair_ok (mk_keypair KEYTYPE_RHIZOME d [])
| did_ok d e : length d = 32%nat -> length e = 64%nat -> are_bytes d -> are_bytes e -> 0 ∈ e -> keypair_ok (mk_keypair KEYTYPE_DID d e).

(** What is stored of a key pair. *)
Definition stored (kp : keypair) : list Z :=
  private_key kp ++ (if (kp_type kp =? KEYTYPE_CRYPTOSIGN) || (kp_type kp =? KEYTYPE_DID) then public_key kp else []).
Definition entry (kp : keypair) : list Z := kp_type kp :: stored kp.
Definition entries (kps : list keypair) : list Z := flat_map entry kps.

Lemma entry_bytes kp : keypair_ok kp -> are_bytes (entry kp).
Proof.
  intros Hk. destruct Hk; unfold entry, stored; cbn; (constructor; [unfold is_byte, KEYTYPE_CRYPTOBOX, KEYTYPE_CRYPTOSIGN, KEYTYPE_RHIZOME, KEYTYPE_DID; lia|]); rewrite ?app_nil_r;
    repeat (apply Forall_app; split); done.
Qed.

Lemma zslice_exact (d : list Z) n : length d = Z.to_nat n -> 0 <= n -> zslice d 0 n = Some d.
Proof. intros Hd Hn. replace n with (zlen d) by lia. apply zslice_all. Qed.

Lemma existsb_nul e : 0 ∈ e -> existsb (Z.eqb 0) e = true.
Proof. intros He. apply existsb_exists. exists 0. split; [by apply list_elem_of_In|done]. Qed.

Context (junk : list Z).

(** The entry of a key type. *)
Lemma keytypes_at (t : Z) kt : keytypes junk !! Z.to_nat t = Some kt -> 0 < t ->
  (u32 t =? 0) || (zlen (keytypes junk) <=? u32 t) = false /\ u32 t = t /\ original_type t = true /\ t < 5.
Proof.
  intros Hk Ht. apply lookup_lt_Some in Hk. cbn in Hk. unfold u32. rewrite Z.mod_small by lia. change (zlen (keytypes junk)) with 5.
  zdecide. split; [done|]. split; [done|]. unfold original_type. split; [|lia].
  assert (t = 1 \/ t = 2 \/ t = 3 \/ t = 4) as [-> | [-> | [-> | ->]]] by lia; done.
Qed.

Lemma pack_one N s : 0 < Z.of_nat N < 2 ^ 31 -> 0 <= s < Z.of_nat N -> forall kp kps buf c,
  keypair_ok kp -> length buf = N -> (c + length (entry kp) < N)%nat ->
  exists buf', pack_loop junk (kp :: kps) buf (at_ N s c) = pack_loop junk kps buf' (at_ N s (c + length (entry kp))) /\
    length buf' = N /\ rb_view s buf' = splice (rb_view s buf) c (entry kp).
Proof.
  intros HN Hs kp kps buf c Hk Hb Hc.
  assert (Hv : length (rb_view s buf) = N) by (by rewrite rb_view_length).
  destruct (putc_at N s HN Hs (kp_type kp) buf c Hb) as (b1 & E1 & L1 & V1); [unfold entry in Hc; simpl in Hc; lia|].
  assert (HL : length (entry kp) = S (length (stored kp))) by done.
  assert (Hn : forall n, u32 (Z.of_nat (c + length (entry kp)) - Z.of_nat (c + 1)) = n <-> zlen (stored kp) = n).
  { intros n. unfold u32. rewrite Z.mod_small by lia. lia. }
  assert (Hspl : splice (splice (rb_view s buf) c [kp_type kp]) (c + 1) (stored kp) = splice (rb_view s buf) c (entry kp)).
  { change 1%nat with (length [kp_type kp]). rewrite splice_splice; [done|]. rewrite Hv. cbn [length]. lia. }
  assert (Hfin : forall b2, length b2 = N -> rb_view s b2 = splice (rb_view s b1) (c + 1) (stored kp) ->
    length b2 = N /\ rb_view s b2 = splice (rb_view s buf) c (entry kp)).
  { intros b2 L2 V2. split; [done|]. by rewrite V2, V1, Hspl. }
  assert (Hstep : forall kt pack b2, keytypes junk !! Z.to_nat (kp_type kp) = Some kt -> 0 < kp_type kp -> packer kt = Some pack ->
    pack (private_key_size kt) (public_key_size kt) kp b1 (at_ N s (c + 1)) = Some (0, b2, at_ N s (c + length (entry kp))) ->
    packed_size kt = zlen (stored kp) ->
    pack_loop junk (kp :: kps) buf (at_ N s c) = pack_loop junk kps b2 (at_ N s (c + length (entry kp)))).
  { intros kt pack b2 Hkt Hpos Hp Hr Hsz. destruct (keytypes_at _ _ Hkt Hpos) as (T1 & T2 & T3 & _).
    cbn [pack_loop]. rewrite at_wrap by lia. change (negb (0 =? 0)) with false. cbn iota zeta. rewrite T1, T2, Hkt. cbn [mbind option_bind].
    rewrite Hp, E1, T3. cbn [mbind option_bind]. rewrite Hr. cbn [mbind option_bind]. change (negb (0 =? 0)) with false. cbn iota.
    rewrite delta_at by lia. cbn [mbind option_bind]. rewrite (proj2 (Z.eqb_eq _ _)) by (apply Hn; done). done. }
  destruct (put_at N s HN Hs (stored kp) b1 (c + 1) L1) as (b2 & E2 & L2 & V2); [lia|].
  replace (c + 1 + length (stored kp))%nat with (c + length (entry kp))%nat in E2 by lia. exists b2. split; [|by apply Hfin].
  destruct Hk as [d Hd Hdb|d e Hd He Hdb Heb|d Hd Hdb|d e Hd He Hdb Heb Hnul]; eapply Hstep; try reflexivity.
  - unfold pack_private_only. cbn [private_key private_key_size]. rewrite zslice_exact by (lia || done). cbn [mbind option_bind].
    change (stored _) with (d ++ []) in E2. rewrite app_nil_r in E2. by rewrite E2.
  - change (stored _) with (d ++ []). rewrite app_nil_r. cbn [packed_size]. lia.
  - unfold pack_private_public. cbn [private_key private_key_size public_key public_key_size].
    rewrite (zslice_exact d) by (lia || done). cbn [mbind option_bind].
    change (stored _) with (d ++ e) in E2. rewrite putbuf_app in E2. destruct (rotbuf_putbuf b1 _ d) as [[b3 r3]|]; [|done]. cbn [mbind option_bind] in *.
    rewrite (zslice_exact e) by (lia || done). cbn [mbind option_bind]. by rewrite E2.
  - change (stored _) with (d ++ e). rewrite length_app. cbn [packed_size]. lia.
  - unfold pack_private_only. cbn [private_key private_key_size]. rewrite zslice_exact by (lia || done). cbn [mbind option_bind].
    change (stored _) with (d ++ []) in E2. rewrite app_nil_r in E2. by rewrite E2.
  - change (stored _) with (d ++ []). rewrite app_nil_r. cbn [packed_size]. lia.
  - unfold pack_did_name, strnchr_nul, pack_private_public. cbn [private_key private_key_size public_key public_key_size].
    rewrite (zslice_exact e) by (lia || done). cbn [mbind option_bind]. rewrite existsb_nul by done. cbn [negb].
    rewrite (zslice_exact d) by (lia || done). cbn [mbind option_bind].
    change (stored _) with (d ++ e) in E2. rewrite putbuf_app in E2. destruct (rotbuf_putbuf b1 _ d) as [[b3 r3]|]; [|done]. cbn [mbind option_bind] in *.
    by rewrite E2.
  - change (stored _) with (d ++ e). rewrite length_app. cbn [packed_size]. lia.
Qed.

Lemma pack_all N s : 0 < Z.of_nat N < 2 ^ 31 -> 0 <= s < Z.of_nat N -> forall kps buf c,
  Forall keypair_ok kps -> length buf = N -> (c + length (entries kps) < N)%nat ->
  exists buf', pack_loop junk kps buf (at_ N s c) = Some (Packed buf' (at_ N s (c + length (entries kps))) true) /\
    length buf' = N /\ rb_view s buf' = splice (rb_view s buf) c (entries kps).
Proof.
  intros HN Hs kps. induction kps as [|kp kps IH]; intros buf c Hk Hb Hc.
  - exists buf. cbn [entries flat_map length] in *. rewrite Nat.add_0_r, splice_nil by (rewrite rb_view_length; lia). done.
  - apply Forall_cons in Hk as [Hk Hks]. cbn [entries flat_map] in *. rewrite length_app in *.
    destruct (pack_one N s HN Hs kp kps buf c Hk Hb) as (b1 & E1 & L1 & V1); [lia|].
    destruct (IH b1 (c + length (entry kp))%nat Hks L1) as (b2 & E2 & L2 & V2); [unfold entries; lia|].
    exists b2. rewrite E1, E2. split; [by rewrite Nat.add_assoc|]. split; [done|]. rewrite V2, V1. apply splice_splice.
    rewrite rb_view_length. unfold entries. lia.
Qed.

(** ** A slot *)

Context (sys : nat -> bool) (entropy : nat -> nat -> list Z).
Hypothesis entropy_length : forall i n, length (entropy i n) = n.
Hypothesis entropy_bytes : forall i n, are_bytes (entropy i n).

Lemma fill_keeps N s : 0 < Z.of_nat N < 2 ^ 31 -> 0 <= s < Z.of_nat N -> forall fuel buf c w buf' w',
  length buf = N -> are_bytes buf -> (c <= N)%nat -> fill_loop sys entropy fuel buf (at_ N s c) w = Some (Some buf', w') ->
  length buf' = N /\ are_bytes buf' /\ take c (rb_view s buf') = take c (rb_view s buf).
Proof.
  intros HN Hs fuel. induction fuel as [|fuel IH]; intros buf c w buf' w' Hb Hbs Hc Hf.
  - unfold fill_loop in Hf. destruct (rotbuf_next_chunk (at_ N s c)) as [[[o n]|] rb]; [done|]. unfold mret, KM_ret in Hf. by simplify_eq.
  - cbn [fill_loop] in Hf. destruct (Nat.lt_ge_cases c N) as [Hlt|Hge].
    + destruct (rotbuf_next_chunk_at (Z.of_nat N) s (Z.of_nat c) (at_ok N s HN Hs c Hc) ltac:(lia)) as [E Hn].
      unfold at_ in Hf at 1. rewrite E in Hf. set (n := if _ <? _ then _ else _) in *.
      unfold urandombytes, mbind, KM_bind in Hf. destruct (sys (calls w)); [|by unfold mret, KM_ret in Hf; simplify_eq].
      set (o := (s + Z.of_nat c) mod Z.of_nat N) in *. set (d := entropy _ _) in *.
      assert (Hd : zlen d = n) by (unfold d; rewrite entropy_length; lia).
      unfold klift, mbind, option_bind in Hf. destruct (zblit buf o d) as [b1|] eqn:Ez; [|done].
      assert (Hb1 : length b1 = N) by (by rewrite (zblit_length _ _ _ _ Ez)).
      assert (Hbs1 : are_bytes b1) by (eapply zblit_Forall; [exact Hbs|apply entropy_bytes|exact Ez]).
      assert (Hk : take c (rb_view s b1) = take c (rb_view s buf)) by exact (chunk_keeps N s HN Hs buf c o n d b1 Hb Hlt Hd Ez eq_refl eq_refl).
      replace (rb_at (Z.of_nat N) s (Z.of_nat c + n)) with (at_ N s (c + Z.to_nat n)) in Hf by (unfold at_; f_equal; lia).
      assert (Hle : (c + Z.to_nat n <= N)%nat) by lia. destruct (IH b1 _ _ _ _ Hb1 Hbs1 Hle Hf) as (L & B & T). split_and!; try done.
      rewrite <- Hk. apply (f_equal (take c)) in T. by rewrite !take_take, !Nat.min_l in T by lia.
    + assert (E : rotbuf_next_chunk (at_ N s c) = (None, at_ N s c)).
      { unfold rotbuf_next_chunk, at_, rb_at. zdecide. cbn [wrap]. by zdecide. }
      rewrite E in Hf. unfold mret, KM_ret in Hf. by simplify_eq.
Qed.

(** What a slot holds: salt, code, rotation, and the entries with a zero after them. *)
Definition slot_holds (block : list Z) (id : keyring_identity) : Prop :=
  exists salt mac hi lo body rest,
    block = salt ++ mac ++ [hi; lo] ++ body /\
    length salt = 32%nat /\ length mac = 64%nat /\ zlen body = 3998 /\ are_bytes block /\
    keyring_identity_mac id salt = Some (0, mac) /\
    rb_view ((256 * hi + lo) mod 3998) body = entries (keypairs id) ++ 0 :: rest.

(** Identities as they are made: few enough key pairs in order, with room for them and the pin. *)
Definition identity_ok (id : keyring_identity) : Prop :=
  Forall keypair_ok (keypairs id) /\ (1 <= length (keypairs id) < PKR_MAX_KEYPAIRS)%nat /\
  zlen (entries (keypairs id)) < 3997 /\
  StronglySorted (fun a b => exists c, cmp_keypair a b = Some c /\ c < 0) (keypairs id) /\
  exists pin, PKRPin id = Some pin /\ zlen pin <= 60000.

(** The work area is large enough. *)
Lemma append_work_fits work d : zlen work + zlen d <= 65536 -> append_work work d = Some (work ++ d).
Proof.
  intros Hl. unfold append_work, u32. rewrite Z.mod_small by lia. zdecide. by rewrite take_ge by lia.
Qed.

Lemma keypair_ok_lengths kp : keypair_ok kp -> zlen (private_key kp) <= 64 /\ zlen (public_key kp) <= 64.
Proof. intros Hk. destruct Hk; cbn [private_key public_key]; rewrite ?scalarmult_base_length; cbn [length]; lia. Qed.

Lemma mac_ok id salt : identity_ok id -> length salt = 32%nat ->
  exists mac, keyring_identity_mac id salt = Some (0, mac) /\ length mac = 64%nat /\ are_bytes mac.
Proof.
  intros (Hk & Hn & _ & _ & pin & Hp & Hpl) Hs. unfold keyring_identity_mac. destruct (keypairs id) as [|kp kps]; [simpl in Hn; lia|].
  apply Forall_cons in Hk as [Hk _]. apply keypair_ok_lengths in Hk as [H1 H2]. cbn [head mbind option_bind]. rewrite Hp. cbn [mbind option_bind].
  rewrite take_ge by lia.
  rewrite append_work_fits by (simpl; lia). cbn [mbind option_bind app]. rewrite append_work_fits by lia. cbn [mbind option_bind].
  rewrite append_work_fits by (rewrite length_app; lia). cbn [mbind option_bind]. rewrite append_work_fits by (rewrite !length_app; lia).
  eexists. split; [done|]. split; [|apply sha512_bytes]. apply Nat2Z.inj. rewrite sha512_length. done.
Qed.

Lemma bytes_of_view s buf : are_bytes (rb_view s buf) -> are_bytes buf.
Proof.
  unfold rb_view. intros [H1 H2]%Forall_app. rewrite <- (take_drop (Z.to_nat s) buf). by apply Forall_app.
Qed.
Lemma view_bytes s buf : are_bytes buf -> are_bytes (rb_view s buf).
Proof. intros Hb. apply Forall_app. split; [by apply Forall_drop|by apply Forall_take]. Qed.

Lemma entries_bytes kps : Forall keypair_ok kps -> are_bytes (entries kps).
Proof.
  induction 1 as [|kp kps Hk _ IH]; [by constructor|]. cbn [entries flat_map]. apply Forall_app. split; [by apply entry_bytes|exact IH].
Qed.

(** The buffer that is packed, before and after random bytes fill it up. *)
Lemma pack_body N body id s : Z.of_nat N = 3998 -> identity_ok id -> length body = N -> are_bytes body -> 0 <= s < 3998 ->
  exists b1 b2, pack_loop junk (keypairs id) body (at_ N s 0) = Some (Packed b1 (at_ N s (length (entries (keypairs id)))) true) /\
    rotbuf_putc b1 (at_ N s (length (entries (keypairs id)))) 0 = Some (b2, at_ N s (length (entries (keypairs id)) + 1)) /\
    length b2 = N /\ are_bytes b2 /\
    take (length (entries (keypairs id)) + 1) (rb_view s b2) = entries (keypairs id) ++ [0].
Proof.
  intros HN (Hk & _ & Hlen & _) Hb Hbs Hs. set (es := entries (keypairs id)) in *.
  destruct (pack_all N s ltac:(lia) ltac:(lia) (keypairs id) body 0 Hk Hb) as (b1 & E1 & L1 & V1); [fold es; lia|].
  fold es in E1, V1. cbn [Nat.add] in E1.
  destruct (putc_at N s ltac:(lia) ltac:(lia) 0 b1 (length es) L1) as (b2 & E2 & L2 & V2); [lia|].
  exists b1, b2. split; [exact E1|]. split; [exact E2|]. split; [exact L2|].
  assert (V : rb_view s b2 = splice (rb_view s body) 0 (es ++ [0])).
  { rewrite V2, V1. apply (splice_splice (rb_view s body) 0 es [0]). rewrite rb_view_length. simpl. lia. }
  split.
  - apply (bytes_of_view s). rewrite V. unfold splice. rewrite take_0. cbn [app]. apply Forall_app. split.
    + apply Forall_app. split; [by apply entries_bytes|by repeat constructor].
    + apply Forall_drop. by apply view_bytes.
  - rewrite V. unfold splice. rewrite take_0. cbn [app]. rewrite take_app_length'; [done|]. rewrite length_app. done.
Qed.

Lemma rotation_bytes lo hi : is_byte lo -> is_byte hi ->
  Z.shiftr (lo + 256 * hi) 8 = hi /\ Z.land (lo + 256 * hi) 255 = lo.
Proof.
  unfold is_byte. intros Hl Hh. rewrite Z.shiftr_div_pow2 by lia. change 255 with (Z.ones 8). rewrite Z.land_ones by lia.
  change (2 ^ 8) with 256. split; symmetry; [apply (Z.div_unique _ _ _ lo)|apply (Z.mod_unique _ _ hi)]; lia.
Qed.

(** The head of a slot and its body. *)
Lemma slot_holds_intro id salt mac lo hi body es rest :
  identity_ok id -> length salt = 32%nat -> are_bytes salt -> is_byte lo -> is_byte hi -> zlen body = 3998 -> are_bytes body ->
  keyring_identity_mac id salt = Some (0, mac) -> length mac = 64%nat -> are_bytes mac ->
  es = entries (keypairs id) -> rb_view ((lo + 256 * hi) mod 3998) body = es ++ 0 :: rest ->
  slot_holds (salt ++ mac ++ [hi; lo] ++ body) id.
Proof.
  intros Hid Hs Hsb Hl Hh Hb Hbb Hm Hml Hmb -> Hv. exists salt, mac, hi, lo, body, rest. split_and!; try done.
  - apply Forall_app. split; [done|]. apply Forall_app. split; [done|]. repeat (constructor; [done|]). done.
  - by replace (256 * hi + lo) with (lo + 256 * hi) by lia.
Qed.

Lemma pack_spec packed id w block w' :
  identity_ok id -> zlen packed = 4096 -> are_bytes packed ->
  keyring_pack_identity sys entropy junk packed id w = Some (Some block, w') -> slot_holds block id.
Proof.
  intros Hid Hlen Hbs Hp. unfold keyring_pack_identity, urandombytes, mbind, KM_bind in Hp. cbn [calls tick] in Hp.
  destruct (sys (calls w)); [|by unfold mret, KM_ret in Hp; simplify_eq]. set (salt := entropy _ _) in *.
  destruct (mac_ok id salt Hid) as (mac & Hm & Hml & Hmb); [apply entropy_length|].
  unfold klift at 1, mbind, option_bind in Hp. rewrite Hm in Hp. cbn [fst snd] in Hp. change (0 =? 0) with true in Hp. cbn iota in Hp.
  destruct (sys (calls (tick w))); [|by unfold mret, KM_ret in Hp; simplify_eq]. set (rot := entropy _ 2%nat) in *.
  destruct rot as [|lo [|hi [|? ?]]] eqn:Er; try (apply (f_equal length) in Er; unfold rot in Er; rewrite entropy_length in Er; done).
  assert (Hlo : is_byte lo /\ is_byte hi).
  { pose proof (entropy_bytes (calls (tick w)) 2) as He. fold rot in He. rewrite Er in He. apply Forall_cons in He as [? He]. by apply Forall_cons in He as [? _]. }
  destruct Hlo as [Hlo Hhi]. destruct (rotation_bytes lo hi Hlo Hhi) as [R1 R2]. cbv beta iota zeta delta [klift mbind option_bind] in Hp.
  cbn [lookup list_lookup] in Hp. rewrite R1, R2 in Hp.
  set (body := drop _ packed) in *. assert (Hb : zlen body = 3998) by (unfold body; rewrite length_drop; cbn; lia).
  assert (Hbb : are_bytes body) by (by apply Forall_drop).
  rewrite Hb, rotbuf_init_at in Hp by lia. set (s := (lo + 256 * hi) mod 3998) in *.
  assert (Hs : 0 <= s < 3998) by (apply Z.mod_pos_bound; lia).
  assert (Hn : Z.of_nat (length body) = 3998) by done.
  destruct (pack_body (length body) body id s Hn Hid eq_refl Hbb Hs) as (b1 & b2 & E1 & E2 & L2 & B2 & T2).
  change (rb_at 3998 s 0) with (rb_at 3998 s (Z.of_nat 0)) in Hp. rewrite <- Hn in Hp at 1. fold (at_ (length body) s 0) in Hp. rewrite E1 in Hp.
  rewrite E2 in Hp.
  pose proof Hid as (_ & _ & Hfit & _). rewrite at_wrap in Hp by lia. change ((1 <? 0) || negb true) with false in Hp. cbn iota in Hp.
  cbn beta in Hp. destruct (fill_loop sys entropy 2 b2 _ _) as [[r w1]|] eqn:Ef; [|done]. unfold mret, KM_ret in Hp. destruct r as [b3|]; simplify_eq.
  assert (Hle : (length (entries (keypairs id)) + 1 <= length body)%nat) by lia.
  destruct (fill_keeps (length body) s ltac:(lia) ltac:(lia) _ _ _ _ _ _ L2 B2 Hle Ef) as (L3 & B3 & T3). rewrite T2 in T3.
  rewrite <- (app_assoc salt), <- (app_assoc mac).
  apply (slot_holds_intro id salt mac lo hi b3 (entries (keypairs id)) (drop (length (entries (keypairs id)) + 1) (rb_view s b3))); try done.
  - apply entropy_length.
  - apply entropy_bytes.
  - lia.
  - fold s. pose proof (take_drop (length (entries (keypairs id)) + 1) (rb_view s b3)) as Hv. rewrite T3, <- app_assoc in Hv. by symmetry.
Qed.

(** ** Encryption *)

Lemma munge_block block salt krpin pin s : keyring_munge_block block salt krpin pin = (0, s) -> are_bytes block ->
  length s = length block /\ keyring_munge_block s salt krpin pin = (0, block).
Proof.
  unfold keyring_munge_block. destruct (Z.ltb_spec (zlen block) 96) as [|Hl]; [done|].
  destruct (munge_hashes _ _ _ _) as [[key nonce]|] eqn:Eh; [|done]. intros [= <-] Hb.
  assert (Ht : length (take 96 block) = 96%nat) by (rewrite length_take; lia).
  assert (Hlen : length (take 96 block ++ stream_xor (drop 96 block) (take 24 nonce) (take 32 key)) = length block).
  { rewrite length_app, stream_xor_length, Ht, length_drop. lia. }
  split; [done|]. rewrite Hlen. zdecide. rewrite take_app_le by (rewrite Ht; unfold PKR_SALT_BYTES; lia).
  rewrite take_take, Nat.min_l by (unfold PKR_SALT_BYTES; lia). rewrite Eh. f_equal.
  rewrite (take_app_length' (take 96 block)), (drop_app_length' (take 96 block)) by done.
  rewrite stream_xor_twice by (by apply Forall_drop). apply take_drop.
Qed.

(** ** Unpacking *)

Lemma memcmp_refl a : memcmp a a = 0.
Proof. induction a as [|x a IH]; [done|]. cbn. by zdecide. Qed.

(** A key pair that is greater than all others goes to the end. *)
Lemma place_last l kp : Forall (fun x => exists c, cmp_keypair x kp = Some c /\ c < 0) l -> place_keypair l kp = Some (l ++ [kp]).
Proof.
  induction 1 as [|x l (c & Hc & Hneg) _ IH]; [done|]. cbn [place_keypair]. rewrite Hc. cbn [mbind option_bind]. zdecide. by rewrite IH.
Qed.

Lemma kbind_lift {A B} (x : A) (f : A -> KM B) w : (klift (Some x) ≫= f) w = f x w.
Proof. done. Qed.
Lemma kbind_eq {A B} (m : KM A) (f : A -> KM B) w x w' : m w = Some (x, w') -> (m ≫= f) w = f x w'.
Proof. intros Hm. unfold mbind, KM_bind. by rewrite Hm. Qed.

(** Calls that come from now on succeed. *)
Definition works (w : kworld) : Prop := forall n, (calls w <= n)%nat -> sys n = true.

(** The calls made. *)
Definition after_calls (n : nat) (w : kworld) : kworld := mk_kworld (n + calls w) (file w) (ring w) (own_sids w).

Lemma works_after n w : works w -> works (after_calls n w).
Proof. intros Hw m Hm. apply Hw. cbn in Hm. lia. Qed.

Lemma alloc_works kt w : works w -> exists n, alloc_keypair sys kt w = Some (true, after_calls n w).
Proof.
  intros Hw. unfold alloc_keypair, syscall, mbind, KM_bind, mret, KM_ret.
  assert (Hc : forall m, (calls w <= m)%nat -> sys m = true) by exact Hw. rewrite Hc by lia. cbn [negb].
  destruct (private_key_size kt =? 0), (public_key_size kt =? 0); cbn [calls tick negb]; rewrite ?Hc by (cbn; lia); cbn [negb];
    rewrite ?Hc by (cbn; lia).
  - by exists 1%nat.
  - by exists 2%nat.
  - by exists 2%nat.
  - by exists 3%nat.
Qed.

(** One entry is read as the key pair it was made from. *)
Lemma unpack_one N s : 0 < Z.of_nat N < 2 ^ 31 -> 0 <= s < Z.of_nat N -> forall kp fuel buf c l w r,
  keypair_ok kp -> length buf = N -> are_bytes buf -> works w -> (length l < PKR_MAX_KEYPAIRS)%nat ->
  (c + length (entry kp) < N)%nat -> drop c (rb_view s buf) = entry kp ++ r ->
  Forall (fun x => exists c, cmp_keypair x kp = Some c /\ c < 0) l ->
  exists n, unpack_loop sys junk (S fuel) buf (at_ N s c) l w
            = unpack_loop sys junk fuel buf (at_ N s (c + length (entry kp))) (l ++ [kp]) (after_calls n w).
Proof.
  intros HN Hs kp fuel buf c l w r Hk Hb Hbs Hw Hl Hc Hd Hlt.
  assert (HL : length (entry kp) = S (length (stored kp))) by done.
  assert (Hx : rb_view s buf !! c = Some (kp_type kp)).
  { rewrite <- (Nat.add_0_r c), <- lookup_drop, Hd. done. }
  assert (Hd1 : drop (c + 1) (rb_view s buf) = stored kp ++ r).
  { rewrite <- drop_drop, Hd. done. }
  pose proof (getc_at N s HN Hs buf c _ Hbs Hb ltac:(lia) Hx) as Eg.
  assert (Hstep : forall kt unpack, keytypes junk !! Z.to_nat (kp_type kp) = Some kt -> 0 < kp_type kp -> unpacker kt = Some unpack ->
    unpack (private_key_size kt) (public_key_size kt) buf (at_ N s (c + 1))
      = Some (0, private_key kp, public_key kp, at_ N s (c + length (entry kp))) ->
    packed_size kt = zlen (stored kp) ->
    exists n, unpack_loop sys junk (S fuel) buf (at_ N s c) l w
            = unpack_loop sys junk fuel buf (at_ N s (c + length (entry kp))) (l ++ [kp]) (after_calls n w)).
  { intros kt unpack Hkt Hpos Hu Hr Hsz. destruct (keytypes_at _ _ Hkt Hpos) as (_ & _ & T3 & T4).
    destruct (alloc_works kt w Hw) as [n Ha]. exists n.
    assert (Hu8 : u8 (kp_type kp) = kp_type kp) by (unfold u8; apply Z.mod_small; lia).
    cbn [unpack_loop]. rewrite at_wrap by lia. change (negb (0 =? 0)) with false. cbn iota.
    rewrite (proj2 (Nat.leb_gt _ _) Hl). rewrite Eg, kbind_lift. cbn beta iota zeta.
    rewrite Hu8, at_wrap by lia. change (negb (0 =? 0)) with false. cbn [orb]. rewrite (proj2 (Z.eqb_neq (kp_type kp) 0)) by lia.
    rewrite T3, Hkt. cbn [mbind option_bind]. rewrite (kbind_lift (packed_size kt, _)). cbn beta iota. rewrite at_wrap by lia.
    change (negb (0 =? 0)) with false. cbn iota. change (zlen (keytypes junk)) with 5. zdecide. rewrite Hu. cbn [mbind option_bind].
    rewrite (kbind_eq _ _ _ _ _ Ha). cbn [negb]. rewrite Hr, kbind_lift. cbn beta iota.
    change (negb (0 =? 0)) with false. cbn iota. rewrite delta_at, kbind_lift by lia.
    rewrite (proj2 (Z.eqb_eq _ _)) by (rewrite Hsz; unfold u64; rewrite Z.mod_small by lia; lia). cbn [negb].
    replace (mk_keypair (kp_type kp) (private_key kp) (public_key kp)) with kp by (by destruct kp). by rewrite place_last, kbind_lift. }
  assert (Hget : forall d z k, length d = Z.to_nat z -> stored kp = d ++ k ->
    rotbuf_getbuf buf (at_ N s (c + 1)) (Z.to_nat z) = Some (d, at_ N s (c + 1 + length d)) /\
    drop (c + 1 + length d) (rb_view s buf) = k ++ r).
  { intros d z k Hz Hk'. rewrite <- Hz. rewrite Hk' in Hd1, HL. rewrite <- app_assoc in Hd1. rewrite length_app in HL.
    split; [apply (get_at N s HN Hs buf (c + 1) d (k ++ r)); done || lia|]. rewrite <- drop_drop, Hd1. by rewrite drop_app_length. }
  assert (Hget2 : forall d e z, length e = Z.to_nat z -> stored kp = d ++ e -> drop (c + 1 + length d) (rb_view s buf) = e ++ r ->
    rotbuf_getbuf buf (at_ N s (c + 1 + length d)) (Z.to_nat z) = Some (e, at_ N s (c + length (entry kp)))).
  { intros d e z Hz Hk' Hd2. rewrite <- Hz. rewrite Hk', length_app in HL.
    rewrite (get_at N s HN Hs buf (c + 1 + length d) e r) by (done || lia). do 3 f_equal. lia. }
  destruct Hk as [d Hdl Hdb|d e Hdl Hel Hdb Heb|d Hdl Hdb|d e Hdl Hel Hdb Heb Hnul]; eapply Hstep; try reflexivity.
  - destruct (Hget d 32 []) as [E _]; [done|done|]. unfold unpack_private_derive_scalarmult_public. cbn [private_key_size public_key_size].
    rewrite E. cbn [mbind option_bind]. change (stored _) with (d ++ []) in HL. rewrite app_nil_r in HL. rewrite at_wrap by lia.
    change (0 =? 0) with true. cbn iota. do 3 f_equal. lia.
  - change (stored _) with (d ++ []). rewrite app_nil_r. cbn [packed_size]. lia.
  - destruct (Hget d 64 e) as [E D]; [done|done|]. unfold unpack_private_public. cbn [private_key_size public_key_size].
    rewrite E. cbn [mbind option_bind]. rewrite (Hget2 d e 32) by done. done.
  - change (stored _) with (d ++ e). rewrite length_app. cbn [packed_size]. lia.
  - destruct (Hget d 32 []) as [E _]; [done|done|]. unfold unpack_private_only. cbn [private_key_size public_key_size].
    rewrite E. cbn [mbind option_bind]. change (stored _) with (d ++ []) in HL. rewrite app_nil_r in HL. change (Z.to_nat 0) with 0%nat. rewrite take_0.
    cbn [public_key private_key]. do 3 f_equal. lia.
  - change (stored _) with (d ++ []). rewrite app_nil_r. cbn [packed_size]. lia.
  - destruct (Hget d 32 e) as [E D]; [done|done|]. unfold unpack_did_name, unpack_private_public, strnchr_nul. cbn [private_key_size public_key_size].
    rewrite E. cbn [mbind option_bind]. rewrite (Hget2 d e 64) by done. cbn [mbind option_bind]. change (0 =? -1) with false. cbn iota.
    rewrite (zslice_exact e) by (done || lia). cbn [mbind option_bind]. by rewrite existsb_nul.
  - change (stored _) with (d ++ e). rewrite length_app. cbn [packed_size]. lia.
Qed.

Lemma after_calls_add m n w : after_calls m (after_calls n w) = after_calls (m + n) w.
Proof. unfold after_calls. cbn. by rewrite Nat.add_assoc. Qed.

(** All entries are read, up to the zero. *)
Lemma unpack_all N s : 0 < Z.of_nat N < 2 ^ 31 -> 0 <= s < Z.of_nat N -> forall kps fuel buf c l w rest,
  Forall keypair_ok kps -> length buf = N -> are_bytes buf -> works w -> (length l + length kps < PKR_MAX_KEYPAIRS)%nat ->
  (c + length (entries kps) + 1 < N)%nat -> drop c (rb_view s buf) = entries kps ++ 0 :: rest ->
  StronglySorted (fun a b => exists c, cmp_keypair a b = Some c /\ c < 0) (l ++ kps) -> (length kps < fuel)%nat ->
  exists n, unpack_loop sys junk fuel buf (at_ N s c) l w
            = Some (Unpacked (l ++ kps) (at_ N s (c + length (entries kps) + 1)), after_calls n w).
Proof.
  intros HN Hs kps. induction kps as [|kp kps IH]; intros fuel buf c l w rest Hk Hb Hbs Hw Hl Hc Hd Hst Hf;
    (destruct fuel as [|fuel]; [simpl in Hf; lia|]).
  - exists 0%nat. cbn [entries flat_map length app] in *. rewrite app_nil_r in *. rewrite Nat.add_0_r in *.
    assert (Hx : rb_view s buf !! c = Some 0) by (rewrite <- (Nat.add_0_r c), <- lookup_drop, Hd; done).
    cbn [unpack_loop]. rewrite at_wrap by lia. change (negb (0 =? 0)) with false. cbn iota.
    rewrite (proj2 (Nat.leb_gt _ _)) by lia. rewrite (getc_at N s HN Hs buf c 0 Hbs Hb ltac:(lia) Hx), kbind_lift. cbn beta iota zeta.
    rewrite at_wrap by lia. change (negb (0 =? 0) || (u8 0 =? 0)) with true. cbn iota. unfold mret, KM_ret. by destruct w.
  - apply Forall_cons in Hk as [Hk Hks]. cbn [entries flat_map] in Hd, Hc |- *. rewrite length_app in *. rewrite <- app_assoc in Hd.
    assert (Hlt : Forall (fun x => exists c, cmp_keypair x kp = Some c /\ c < 0) l).
    { clear -Hst. induction l as [|x l IHl]; [by constructor|]. cbn [app] in Hst. apply StronglySorted_inv in Hst as [Hs1 Hx].
      constructor; [|by apply IHl]. apply Forall_app in Hx as [_ Hx]. by apply Forall_cons in Hx as [Hx _]. }
    destruct (unpack_one N s HN Hs kp fuel buf c l w _ Hk Hb Hbs Hw ltac:(simpl in Hl; lia) ltac:(lia) Hd Hlt) as [n E].
    destruct (IH fuel buf (c + length (entry kp))%nat (l ++ [kp]) (after_calls n w) rest Hks Hb Hbs (works_after n w Hw)) as [m E2].
    + rewrite length_app. simpl in *. lia.
    + unfold entries in *. lia.
    + rewrite <- drop_drop, Hd. by rewrite drop_app_length.
    + by rewrite <- app_assoc.
    + simpl in Hf. lia.
    + exists (m + n)%nat. rewrite E, E2, after_calls_add, <- app_assoc. cbn [app]. do 3 f_equal. unfold entries. f_equal. lia.
Qed.

Lemma entries_length kps : (length kps <= length (entries kps))%nat.
Proof.
  induction kps as [|kp kps IH]; [done|]. change (entries (kp :: kps)) with (entry kp ++ entries kps). rewrite length_app. simpl. lia.
Qed.

Lemma syscall_works w : works w -> syscall sys w = Some (true, after_calls 1 w).
Proof. intros Hw. unfold syscall. by rewrite (Hw (calls w)) by lia. Qed.

Lemma unpack_slot block id pin w : slot_holds block id -> identity_ok id -> works w ->
  exists n, keyring_unpack_identity sys junk block pin w = Some (Some (mk_identity (Some pin) 0 (keypairs id)), after_calls n w).
Proof.
  intros (salt & mac & hi & lo & body & rest & -> & Hsl & Hml & Hbl & Hbs & _ & Hv) (Hk & Hn & Hlen & Hst & _) Hw.
  assert (Hhl : is_byte hi /\ is_byte lo /\ are_bytes body).
  { apply Forall_app in Hbs as [_ Hbs]. apply Forall_app in Hbs as [_ Hbs]. cbn [app] in Hbs.
    apply Forall_cons in Hbs as [? Hbs]. by apply Forall_cons in Hbs as [? ?]. }
  destruct Hhl as (Hhi & Hlo & Hbb). unfold is_byte in *.
  assert (Hr : u16 (Z.lor (Z.shiftl hi 8) lo) = 256 * hi + lo).
  { rewrite lor_shiftl_add by lia. unfold u16. rewrite Z.mod_small by lia. lia. }
  set (block := salt ++ _). assert (Hdrop : drop (PKR_SALT_BYTES + PKR_MAC_BYTES) block = hi :: lo :: body).
  { unfold block. rewrite app_assoc. apply drop_app_length'. rewrite length_app, Hsl, Hml. done. }
  assert (H1 : block !! (PKR_SALT_BYTES + PKR_MAC_BYTES)%nat = Some hi).
  { rewrite <- (Nat.add_0_r (PKR_SALT_BYTES + PKR_MAC_BYTES)), <- lookup_drop, Hdrop. done. }
  assert (H2 : block !! (PKR_SALT_BYTES + PKR_MAC_BYTES + 1)%nat = Some lo) by (rewrite <- lookup_drop, Hdrop; done).
  assert (H3 : drop (PKR_SALT_BYTES + PKR_MAC_BYTES + 2) block = body) by (rewrite <- drop_drop, Hdrop; done).
  set (s := (256 * hi + lo) mod 3998) in *. assert (Hs : 0 <= s < 3998) by (apply Z.mod_pos_bound; lia).
  destruct (unpack_all (length body) s ltac:(lia) ltac:(lia) (keypairs id) (S (length body)) body 0 [] (after_calls 2 w) rest Hk eq_refl Hbb)
    as [n E]; try done.
  - by apply works_after.
  - simpl. lia.
  - lia.
  - pose proof (entries_length (keypairs id)). lia.
  - exists (n + 2)%nat. unfold keyring_unpack_identity. rewrite (kbind_eq _ _ _ _ _ (syscall_works w Hw)). cbn [negb].
    assert (Hed : str_edup sys pin (after_calls 1 w) = Some (Some pin, after_calls 2 w)).
    { unfold str_edup. by rewrite (kbind_eq _ _ _ _ _ (syscall_works _ (works_after 1 w Hw))). }
    rewrite (kbind_eq _ _ _ _ _ Hed), H1, kbind_lift, H2, kbind_lift, Hr, H3. cbv zeta. rewrite Hbl, rotbuf_init_at, kbind_lift by lia. fold s.
    unfold at_ in E at 1. rewrite Hbl in E. cbn [Nat.add] in E. change (Z.of_nat 0) with 0 in E. rewrite (kbind_eq _ _ _ _ _ E).
    cbn [app]. rewrite at_wrap by lia. change (1 <? 0) with false. by rewrite after_calls_add.
Qed.
End slots.

(** ** An instance of the interface *)

Lemma lxor_byte b : is_byte b -> is_byte (Z.lxor b 85).
Proof.
  unfold is_byte. intros Hb. assert (0 <= Z.lxor b 85) by (apply Z.lxor_nonneg; lia). split; [done|].
  destruct (decide (Z.lxor b 85 = 0)) as [->|Hne]; [lia|]. apply Z.log2_lt_cancel. change (Z.log2 256) with 8.
  pose proof (Z.log2_lxor b 85 ltac:(lia) ltac:(lia)) as Hl. assert (Z.log2 b < 8) by (destruct (decide (b = 0)) as [->|]; [done|apply Z.log2_lt_pow2; lia]).
  change (Z.log2 85) with 6 in Hl. lia.
Qed.

#[export] Instance toy_keyring : KeyringNaCl.
Proof.
  refine {| stream_xor m n k := (fun b => Z.lxor b 85) <$> m; scalarmult_base k := take 32 (k ++ replicate 32 0) |}.
  - intros. apply length_fmap.
  - intros m _ _ Hm. apply Forall_fmap. eapply Forall_impl; [exact Hm|]. intros b Hb. by apply lxor_byte.
  - intros m _ _ _. rewrite <- list_fmap_compose. rewrite <- (list_fmap_id m) at 2. apply list_fmap_ext. intros i b _. cbn.
    by rewrite Z.lxor_assoc, Z.lxor_nilpotent, Z.lxor_0_r.
  - intros k. rewrite length_take, length_app, length_replicate. lia.
Defined.
