(* ===== verification/KeyringProps.v ===== *)
(** KeyringProps: what a commit wrote can be unlocked again; identities as they are made and changed; looking for keys. *)

From Stdlib Require Import Sorted.
From S2P Require Import Prelude Str Crypto RotBuf Keyring KeyringFile KeyringSlot.

(** ** The file *)

Lemma file_write_slice f off d : zslice (file_write f off d) (Z.of_nat off) (zlen d) = Some d.
Proof.
  unfold file_write. assert (Hl : length (take off f ++ replicate (off - length f) 0) = off).
  { rewrite length_app, length_take, length_replicate. lia. }
  rewrite app_assoc. set (p := take off f ++ _) in *.
  rewrite zslice_Some by (rewrite ?length_app; lia). rewrite !Nat2Z.id, drop_app_length' by done. by rewrite take_app_length.
Qed.

Lemma file_write_other f off d i n s : zslice f i n = Some s -> i + n <= Z.of_nat off \/ Z.of_nat off + zlen d <= i ->
  zslice (file_write f off d) i n = Some s.
Proof.
  intros (H1 & H2 & H3 & ->)%zslice_inv Hd. unfold file_write.
  assert (Hl : length (take off f ++ replicate (off - length f) 0) = off).
  { rewrite length_app, length_take, length_replicate. lia. }
  rewrite zslice_Some by (rewrite ?length_app, ?length_take, ?length_replicate, ?length_drop; lia). f_equal. rewrite app_assoc.
  destruct Hd as [Hd|Hd].
  - rewrite drop_app_le by lia. rewrite take_app_le by (rewrite length_drop; lia).
    rewrite drop_app_le by (rewrite length_take; lia). rewrite take_app_le by (rewrite length_drop, length_take; lia).
    rewrite skipn_firstn_comm, take_take. f_equal. lia.
  - rewrite drop_app_ge by lia. rewrite Hl, drop_app_ge by lia. rewrite drop_drop. do 2 f_equal. lia.
Qed.

Section props.
Context `{NaCl} `{KeyringNaCl}.
Context (sys : nat -> bool) (entropy : nat -> nat -> list Z) (junk : list Z).
Hypothesis entropy_length : forall i n, length (entropy i n) = n.
Hypothesis entropy_bytes : forall i n, are_bytes (entropy i n).

(** The file holds the identity in its slot, under the pins. *)
Definition holds_in (f : list Z) (c : keyring_context) (id : keyring_identity) : Prop :=
  exists block s kr pin, KeyRingPin c = Some kr /\ PKRPin id = Some pin /\ slot_holds block id /\
    keyring_munge_block s (KeyRingSalt c) kr pin = (0, block) /\ zslice f (slot id * KEYRING_PAGE_SIZE) KEYRING_PAGE_SIZE = Some s.

Lemma holds_in_write f c id off d : holds_in f c id -> zlen d = KEYRING_PAGE_SIZE -> 0 <= off -> off <> slot id ->
  holds_in (file_write f (Z.to_nat (KEYRING_PAGE_SIZE * off)) d) c id.
Proof.
  intros (block & s & kr & pin & H1 & H2 & H3 & H4 & H5) Hd Hoff Hne. exists block, s, kr, pin. split_and!; try done.
  apply file_write_other; [done|]. unfold KEYRING_PAGE_SIZE in *. lia.
Qed.

Lemma slot_holds_length block id : slot_holds block id -> zlen block = KEYRING_PAGE_SIZE /\ are_bytes block.
Proof.
  intros (salt & mac & hi & lo & body & rest & -> & H1 & H2 & H3 & H4 & _). split; [|done].
  rewrite !length_app. cbn [length]. unfold KEYRING_PAGE_SIZE. lia.
Qed.

(** A file position that is in use. *)
Definition slot_ok (id : keyring_identity) : Prop := 0 < slot id < KEYRING_BAM_BITS.

(** ** What operations do not touch *)

Definition keeps {A B} (f : kworld -> B) (m : KM A) : Prop := forall w x w', m w = Some (x, w') -> f w' = f w.

Section keeps.
Context {B : Type} (f : kworld -> B) (Htick : forall w, f (tick w) = f w).

Lemma kkeeps_ret {A} (x : A) : keeps f (mret x).
Proof. intros w y w' [= <- <-]. done. Qed.
Lemma kkeeps_bind {A C} (m : KM A) (g : A -> KM C) : keeps f m -> (forall x, keeps f (g x)) -> keeps f (m ≫= g).
Proof.
  intros Hm Hg w y w' E. unfold mbind, KM_bind in E. destruct (m w) as [[x w1]|] eqn:Em; [|done].
  by rewrite (Hg x _ _ _ E), (Hm _ _ _ Em).
Qed.
Lemma kkeeps_lift {A} (o : option A) : keeps f (klift o).
Proof. intros w x w' E. unfold klift in E. destruct o; [|done]. cbn in E. by simplify_eq. Qed.
Lemma keeps_get : keeps f get_ring.
Proof. intros w y w' [= <- <-]. done. Qed.
Lemma keeps_urandom n : keeps f (urandombytes sys entropy n).
Proof. intros w x w' [= <- <-]. apply Htick. Qed.
Lemma keeps_syscall : keeps f (syscall sys).
Proof. intros w x w' [= <- <-]. apply Htick. Qed.
Hint Resolve kkeeps_ret kkeeps_lift keeps_urandom keeps_syscall keeps_get : core.

Lemma keeps_fill fuel : forall buf rb, keeps f (fill_loop sys entropy fuel buf rb).
Proof.
  induction fuel as [|fuel IH]; intros buf rb; cbn [fill_loop]; destruct (rotbuf_next_chunk rb) as [[[o n]|] rb']; auto.
  apply kkeeps_bind; [auto|]. intros [d|]; [|auto]. apply kkeeps_bind; auto.
Qed.
Hint Resolve keeps_fill : core.

Lemma keeps_pack pkr id : keeps f (keyring_pack_identity sys entropy junk pkr id).
Proof.
  unfold keyring_pack_identity. apply kkeeps_bind; [auto|]. intros [salt|]; [|auto]. apply kkeeps_bind; [auto|]. intros mac.
  apply kkeeps_bind; [auto|]. intros [rot|]; [|auto]. apply kkeeps_bind; [auto|]. intros lo. apply kkeeps_bind; [auto|]. intros hi.
  apply kkeeps_bind; [auto|]. intros rb. apply kkeeps_bind; [auto|]. intros [|body rb' all]; [apply kkeeps_bind; auto|].
  apply kkeeps_bind; [auto|]. intros [body2 rb2]. destruct (_ || _); [apply kkeeps_bind; auto|]. apply kkeeps_bind; auto.
Qed.
End keeps.

(** ** Writing *)

Lemma write_identity_spec pkr c id w e w' :
  zlen pkr = KEYRING_PAGE_SIZE -> are_bytes pkr -> identity_ok id -> slot_ok id ->
  write_identity sys entropy junk pkr c id w = Some (e, w') ->
  0 <= e /\ (e = 0 -> exists s, zlen s = KEYRING_PAGE_SIZE /\
                      file w' = file_write (file w) (Z.to_nat (KEYRING_PAGE_SIZE * slot id)) s /\ holds_in (file w') c id).
Proof.
  intros Hl Hb Hid Hs Hw. unfold write_identity, mbind, KM_bind in Hw.
  destruct (keyring_pack_identity _ _ _ _ _ _) as [[r w1]|] eqn:Ep; [|done]. pose proof (keeps_pack file ltac:(done) _ _ _ _ _ Ep) as Hf1.
  destruct r as [block|]; [|unfold mret, KM_ret in Hw; simplify_eq; lia].
  assert (Hh : slot_holds block id) by (eapply (pack_spec junk sys entropy); eauto).
  unfold klift, mbind, option_bind in Hw. destruct (KeyRingPin c) as [kr|] eqn:Ek; [|done]. destruct (PKRPin id) as [pin|] eqn:Epin; [|done].
  destruct (keyring_munge_block block _ kr pin) as [err s] eqn:Em.
  destruct (Z.eqb_spec err 0) as [->|]; cbn [negb] in Hw; [|unfold mret, KM_ret in Hw; simplify_eq; lia].
  destruct (slot_holds_length _ _ Hh) as [Hbl Hbb]. destruct (munge_block _ _ _ _ _ Em Hbb) as [Hsl Hback].
  unfold slot_ok in Hs. rewrite (proj2 (Z.eqb_neq _ _)) in Hw by (unfold KEYRING_PAGE_SIZE; lia).
  unfold syscall, fwrite, mret, KM_ret in Hw. destruct (sys (calls w1)); cbn [negb] in Hw; [|simplify_eq; lia].
  cbn [calls tick file] in Hw. destruct (sys (S (calls w1))); simplify_eq; [|lia]. split; [lia|]. intros _. cbn [file]. rewrite Hf1.
  exists s. split; [lia|]. split; [done|]. exists block, s, kr, pin. split_and!; try done.
  pose proof (file_write_slice (file w) (Z.to_nat (KEYRING_PAGE_SIZE * slot id)) s) as Hsl2.
  rewrite Z2Nat.id in Hsl2 by (unfold KEYRING_PAGE_SIZE in *; lia).
  replace (slot id * KEYRING_PAGE_SIZE) with (KEYRING_PAGE_SIZE * slot id) by lia. rewrite <- Hsl2. f_equal. lia.
Qed.

(** The last one of these identities that has its slot. *)
Definition last_in_slot (ids : list (keyring_context * keyring_identity)) (c : keyring_context) (id : keyring_identity) : Prop :=
  exists before after, ids = before ++ (c, id) :: after /\ slot id ∉ (slot ∘ snd <$> after).

Lemma last_in_slot_app l1 l2 c id : last_in_slot (l1 ++ l2) c id ->
  (last_in_slot l1 c id /\ slot id ∉ (slot ∘ snd <$> l2)) \/ last_in_slot l2 c id.
Proof.
  intros (p & q & E & Hno). apply app_eq_inv in E as [(k & -> & E)|(k & -> & ->)]; [|right; by exists k, q].
  destruct k as [|x k]; cbn in E; [right; by exists [], q|]. injection E as <- ->. rewrite fmap_app in Hno.
  left. split; [exists p, k; split; [done|]|]; set_solver.
Qed.

(** What a series of writes leaves: the identities written, the last one where several have the same slot, and those in
    other slots. *)
Definition wrote (f f' : list Z) (ids : list (keyring_context * keyring_identity)) : Prop :=
  (forall c id, last_in_slot ids c id -> holds_in f' c id) /\
  (forall c id, holds_in f c id -> (slot id ∉ (slot ∘ snd <$> ids)) -> holds_in f' c id).

Lemma wrote_nil f : wrote f f [].
Proof. split; [|done]. intros c id (p & q & E & _). by destruct p. Qed.

Lemma wrote_app f f1 f2 l1 l2 : wrote f f1 l1 -> wrote f1 f2 l2 -> wrote f f2 (l1 ++ l2).
Proof.
  intros [A1 B1] [A2 B2]. split.
  - intros c id [[Hl Hno]|Hl]%last_in_slot_app; [|by apply A2]. apply B2; [by apply A1|done].
  - intros c id Hh Hno. rewrite fmap_app in Hno. apply B2; [apply B1; [done|]|]; set_solver.
Qed.

Lemma write_identities_spec pkr c ids : zlen pkr = KEYRING_PAGE_SIZE -> are_bytes pkr ->
  Forall (fun id => identity_ok id /\ slot_ok id) ids -> forall w e w',
  write_identities sys entropy junk pkr c ids w = Some (e, w') ->
  0 <= e /\ (e = 0 -> wrote (file w) (file w') (pair c <$> ids)).
Proof.
  intros Hl Hb. induction 1 as [|id ids [Hid Hs] _ IH]; intros w e w' Hw.
  - unfold write_identities, mret, KM_ret in Hw. simplify_eq. split; [lia|]. intros _. apply wrote_nil.
  - cbn [write_identities] in Hw. unfold mbind, KM_bind in Hw.
    destruct (write_identity _ _ _ _ _ _ _) as [[e1 w1]|] eqn:E1; [|done].
    destruct (write_identities _ _ _ _ _ _ _) as [[e2 w2]|] eqn:E2; [|done]. unfold mret, KM_ret in Hw. simplify_eq.
    destruct (write_identity_spec _ _ _ _ _ _ Hl Hb Hid Hs E1) as [P1 Q1]. 
    destruct (IH _ _ _ E2) as [P2 Q2]. split; [lia|]. intros He. destruct Q1 as (s & Hsl & Hf & Hh); [lia|].
    change (pair c <$> id :: ids) with ([(c, id)] ++ (pair c <$> ids)). eapply wrote_app; [|apply Q2; lia]. split.
    + intros c' id' (p & q & E & _). destruct p as [|? [|? ?]]; simplify_eq/=. exact Hh.
    + intros c' id' Hh' Hno. rewrite Hf. unfold slot_ok in Hs. apply holds_in_write; try done; [lia|]. cbn in Hno. set_solver.
Qed.

(** All identities with their contexts. *)
Definition all_identities (cs : list keyring_context) : list (keyring_context * keyring_identity) :=
  flat_map (fun c => pair c <$> identities c) cs.

Lemma write_contexts_spec pkr cs : zlen pkr = KEYRING_PAGE_SIZE -> are_bytes pkr ->
  Forall (fun c => Forall (fun id => identity_ok id /\ slot_ok id) (identities c)) cs -> forall w e w',
  write_contexts sys entropy junk pkr cs w = Some (e, w') ->
  0 <= e /\ (e = 0 -> wrote (file w) (file w') (all_identities cs)).
Proof.
  intros Hl Hb. induction 1 as [|c cs Hc _ IH]; intros w e w' Hw.
  - unfold write_contexts, mret, KM_ret in Hw. simplify_eq. split; [lia|]. intros _. apply wrote_nil.
  - cbn [write_contexts] in Hw. unfold mbind, KM_bind in Hw.
    destruct (write_identities _ _ _ _ _ _ _) as [[e1 w1]|] eqn:E1; [|done].
    destruct (write_contexts _ _ _ _ _ _) as [[e2 w2]|] eqn:E2; [|done]. unfold mret, KM_ret in Hw. simplify_eq.
    change (all_identities (c :: cs)) with ((pair c <$> identities c) ++ all_identities cs) in *.
    destruct (write_identities_spec pkr c _ Hl Hb Hc _ _ _ E1) as [P1 Q1].
    destruct (IH _ _ _ E2) as [P2 Q2]. split; [lia|]. intros He. eapply wrote_app; [apply Q1; lia|apply Q2; lia].
Qed.

Lemma write_bams_count bams salt : forall w e w', write_bams sys bams salt w = Some (e, w') -> 0 <= e.
Proof.
  induction bams as [|b bams IH]; intros w e w' Hw; [unfold write_bams, mret, KM_ret in Hw; simplify_eq; lia|].
  cbn [write_bams] in Hw. unfold syscall, fwrite, mbind, KM_bind, mret, KM_ret in Hw.
  destruct (sys (calls w)); cbn [negb] in Hw; [destruct (sys (calls (tick w))); cbn [negb] in Hw|];
    (destruct (write_bams sys bams salt _) as [[e2 w2]|] eqn:E2; [|done]); apply IH in E2; simplify_eq; case_match || idtac; lia.
Qed.

(** A keyring whose identities are as they are made, in slots of the first slab. *)
Definition keyring_ok (k : keyring_file) : Prop :=
  Forall (fun c => Forall (fun id => identity_ok id /\ slot_ok id) (identities c)) (contexts k).

Lemma commit_spec pkr w w' : zlen pkr = KEYRING_PAGE_SIZE -> are_bytes pkr -> keyring_ok (ring w) ->
  keyring_commit sys entropy junk pkr w = Some (0, w') ->
  forall c id, last_in_slot (all_identities (contexts (ring w))) c id -> holds_in (file w') c id.
Proof.
  intros Hl Hb Hok Hw c id Hlast. unfold keyring_commit, get_ring, mbind, KM_bind in Hw.
  destruct (contexts (ring w)) as [|c0 cs] eqn:Ec; [by unfold mret, KM_ret in Hw|]. rewrite <- Ec in *. clear Ec.
  destruct (write_bams _ _ _ _) as [[a w1]|] eqn:E1; [|done]. destruct (write_contexts _ _ _ _ _ _) as [[b w2]|] eqn:E2; [|done].
  unfold syscall, mret, KM_ret in Hw. apply write_bams_count in E1.
  destruct (write_contexts_spec pkr _ Hl Hb Hok _ _ _ E2) as [P Q].
  assert (Hb0 : b = 0 /\ file w' = file w2).
  { destruct (sys (calls w2)); [destruct (Z.eqb_spec (a + b + 0) 0)|destruct (Z.eqb_spec (a + b + 1) 0)]; simplify_eq; try lia.
    split; [lia|done]. }
  destruct Hb0 as [Hb0 ->]. by apply (proj1 (Q Hb0)).
Qed.
End props.

(** ** Unlocking *)

Section unlock.
Context `{NaCl} `{KeyringNaCl}.
Context (sys : nat -> bool) (junk : list Z).

Lemma decrypt_spec cn c0 c id pin w :
  works sys w -> contexts (ring w) !! 0%nat = Some c0 -> contexts (ring w) !! cn = Some c -> zlen (identities c) < KEYRING_MAX_IDENTITIES ->
  KeyRingSalt c0 = KeyRingSalt c -> identity_ok id -> PKRPin id = Some pin -> holds_in (file w) c id ->
  exists w', keyring_decrypt_pkr sys junk cn pin (slot id) w = Some (0, w') /\ file w' = file w /\
    ring w' = set_contexts (ring w) (<[cn := set_identities c (identities c ++ [id])]> (contexts (ring w))).
Proof.
  intros Hw Hc0 Hcn Hmax Hsalt Hid Hpin (block & s & kr & pin' & Hkr & Hp' & Hh & Hm & Hf). rewrite Hpin in Hp'. simplify_eq.
  unfold keyring_decrypt_pkr. rewrite (kbind_eq get_ring _ w (ring w) w) by done. rewrite Hc0, kbind_lift, Hcn, kbind_lift.
  rewrite (kbind_eq _ _ _ _ _ (syscall_works sys w Hw)). cbn [negb].
  assert (Hr : fread sys (slot id * KEYRING_PAGE_SIZE) KEYRING_PAGE_SIZE (after_calls 1 w) = Some (Some s, after_calls 2 w)).
  { unfold fread. rewrite (works_after sys 1 w Hw) by lia. cbn [file after_calls]. by rewrite Hf. }
  rewrite (kbind_eq _ _ _ _ _ Hr), Hkr, kbind_lift, Hsalt, Hm. change (negb (0 =? 0)) with false. cbn iota.
  destruct (unpack_slot junk sys block id pin' (after_calls 2 w) Hh Hid (works_after sys 2 w Hw)) as [n Hu].
  rewrite (kbind_eq _ _ _ _ _ Hu). cbn [keypairs PKRPin]. pose proof Hid as (_ & Hn & _).
  rewrite (proj2 (Nat.ltb_ge _ _)) by lia. replace (mk_identity (Some pin') (slot id) (keypairs id)) with id by (rewrite <- Hpin; by destruct id).
  destruct Hh as (salt & mac & hi & lo & body & rest & -> & Hsl & Hml & Hbl & _ & Hmac & _).
  assert (Hmac2 : keyring_identity_mac id (salt ++ mac ++ [hi; lo] ++ body) = Some (0, mac)).
  { rewrite <- Hmac. unfold keyring_identity_mac. by rewrite take_app_length', take_ge by lia. }
  rewrite Hmac2, kbind_lift. cbn [fst snd]. change (negb (0 =? 0)) with false. cbn iota.
  assert (Hst : zslice (salt ++ mac ++ [hi; lo] ++ body) 32 64 = Some mac).
  { rewrite zslice_Some by (rewrite ?length_app; lia). rewrite drop_app_length' by (rewrite Hsl; done). by rewrite take_app_length' by (rewrite Hml; done). }
  rewrite Hst, kbind_lift, memcmp_refl. change (negb (0 =? 0)) with false. cbn iota.
  assert (Hadd : forall w1, ring w1 = ring w -> add_identity cn id w1 = Some ((), mk_kworld (calls w1) (file w1)
    (set_contexts (ring w) (<[cn := set_identities c (identities c ++ [id])]> (contexts (ring w)))) (own_sids w1))).
  { intros w1 Hw1. unfold add_identity. rewrite (kbind_eq get_ring _ w1 (ring w) w1) by (unfold get_ring; by rewrite Hw1).
    rewrite Hcn, kbind_lift. rewrite (proj2 (Z.leb_gt _ _)) by done. done. }
  destruct (own_sid (keypairs id)) as [sid|].
  - rewrite (kbind_eq (add_own sid) _ _ () _ eq_refl). match goal with |- context [(add_identity cn id ≫= _) ?w1] => rewrite (kbind_eq _ _ _ _ _ (Hadd w1 eq_refl)) end. eexists. split; [reflexivity|]. done.
  - rewrite (kbind_eq (mret ()) _ _ () _ eq_refl). match goal with |- context [(add_identity cn id ≫= _) ?w1] => rewrite (kbind_eq _ _ _ _ _ (Hadd w1 eq_refl)) end. eexists. split; [reflexivity|]. done.
Qed.
End unlock.

Lemma last_in_slot_ok `{NaCl} `{KeyringNaCl} k c id : keyring_ok k -> last_in_slot (all_identities (contexts k)) c id ->
  identity_ok id /\ slot_ok id.
Proof.
  intros Hok (p & q & E & _). assert (Hin : (c, id) ∈ all_identities (contexts k)) by (rewrite E; set_solver).
  apply list_elem_of_In, in_flat_map in Hin as (c' & Hc & Hin). apply list_elem_of_In in Hc, Hin.
  apply list_elem_of_fmap in Hin as (id' & [= -> ->] & Hin). unfold keyring_ok in Hok. rewrite Forall_forall in Hok.
  specialize (Hok _ Hc). rewrite Forall_forall in Hok. by apply Hok.
Qed.

(** [C19] A keyring that was committed without error can be unlocked again: whatever the salts, the rotation and the
    random filling were, reading the slot of any of its identities with the pins of the keyring and of the identity
    loads exactly that identity, with the same keys. Where an identity is in memory more than once, as when a pin is
    entered twice, the last copy is the one that is loaded again, so changes to an earlier copy are lost.
    The identities are well formed: fewer than 64 key pairs in order that fit the slot, pins of at most 60000 bytes, slots
    of the first slab. All calls succeed while the slot is read, and there is room for the identity; the stream cipher
    inverts itself. *)
Theorem commit_unlocks `{NaCl} `{KeyringNaCl} sys entropy junk sys2 junk2 pkr w w' w2 cn2 c d0 d id pin :
  (forall i n, length (entropy i n) = n) -> (forall i n, are_bytes (entropy i n)) ->
  zlen pkr = KEYRING_PAGE_SIZE -> are_bytes pkr -> keyring_ok (ring w) ->
  keyring_commit sys entropy junk pkr w = Some (0, w') ->
  last_in_slot (all_identities (contexts (ring w))) c id -> PKRPin id = Some pin ->
  (forall n, sys2 n = true) -> file w2 = file w' ->
  contexts (ring w2) !! 0%nat = Some d0 -> contexts (ring w2) !! cn2 = Some d -> zlen (identities d) < KEYRING_MAX_IDENTITIES ->
  KeyRingPin d = KeyRingPin c -> KeyRingSalt d = KeyRingSalt c -> KeyRingSalt d0 = KeyRingSalt c ->
  exists w3, keyring_decrypt_pkr sys2 junk2 cn2 pin (slot id) w2 = Some (0, w3) /\
    ring w3 = set_contexts (ring w2) (<[cn2 := set_identities d (identities d ++ [id])]> (contexts (ring w2))).
Proof.
  intros Hel Heb Hl Hb Hok Hc Hlast Hpin Hsys Hf Hd0 Hd Hmax Hkp Hks Hks0.
  pose proof (commit_spec sys entropy junk Hel Heb pkr w w' Hl Hb Hok Hc c id Hlast) as (block & s & kr & pin' & P1 & P2 & P3 & P4 & P5).
  destruct (last_in_slot_ok _ _ _ Hok Hlast) as [Hido _].
  destruct (decrypt_spec sys2 junk2 cn2 d0 d id pin w2) as (w3 & E & _ & Hr); try done.
  - intros n _. apply Hsys.
  - congruence.
  - exists block, s, kr, pin'. rewrite Hf, Hkp, Hks. done.
  - by exists w3.
Qed.

(** One context with an identity of two key pairs, in slot 3 under a pin. *)
Definition sample_identity : keyring_identity :=
  mk_identity (Some [49; 50]) 3 [mk_keypair KEYTYPE_CRYPTOBOX (replicate 32 7) (scalarmult_base (replicate 32 7));
                                 mk_keypair KEYTYPE_RHIZOME (replicate 32 9) []].
Definition sample_ring (ids : list keyring_identity) : keyring_file :=
  mk_keyring [mk_bam 0 (8 :: replicate 2047 0)] [mk_context (Some [51]) [1; 2; 3] ids] 4096.

Lemma sample_ok : identity_ok sample_identity /\ slot_ok sample_identity.
Proof.
  split; [|split; reflexivity]. split.
  - constructor; [|constructor; [|constructor]]; constructor; try reflexivity; apply Forall_replicate; unfold is_byte; lia.
  - split; [unfold PKR_MAX_KEYPAIRS; cbn [length keypairs sample_identity]; lia|]. split; [reflexivity|]. split.
    + constructor; [constructor; [constructor|constructor]|]. constructor; [|constructor]. exists (-1). split; [reflexivity|lia].
    + exists [49; 50]. split; [reflexivity|]. cbn. lia.
Qed.

Lemma commit_unlocks_witness :
  exists w' w3,
    keyring_commit (fun _ => true) (fun i n => replicate n (Z.of_nat i mod 256)) [] (replicate (Z.to_nat KEYRING_PAGE_SIZE) 0)
      (mk_kworld 0 [] (sample_ring [sample_identity]) []) = Some (0, w') /\
    keyring_decrypt_pkr (fun _ => true) [] 0 [49; 50] 3 (mk_kworld 0 (file w') (sample_ring []) []) = Some (0, w3) /\
    ring w3 = sample_ring [sample_identity].
Proof.
  set (entropy := fun i n => replicate n (Z.of_nat i mod 256)).
  assert (Hb : forall i n, are_bytes (entropy i n)).
  { intros i n. apply Forall_replicate. unfold is_byte. apply Z.mod_pos_bound. lia. }
  set (w := mk_kworld 0 [] (sample_ring [sample_identity]) []).
  set (pkr := replicate (Z.to_nat KEYRING_PAGE_SIZE) 0).
  assert (H0 : fst <$> keyring_commit (fun _ => true) entropy [] pkr w = Some 0) by (vm_compute; reflexivity).
  destruct (keyring_commit (fun _ => true) entropy [] pkr w) as [[e w']|] eqn:E; [|discriminate]. injection H0 as ->.
  exists w'. set (w2 := mk_kworld 0 (file w') (sample_ring []) []).
  destruct (commit_unlocks (fun _ => true) entropy [] (fun _ => true) [] pkr w w' w2 0
              (mk_context (Some [51]) [1; 2; 3] [sample_identity]) (mk_context (Some [51]) [1; 2; 3] [])
              (mk_context (Some [51]) [1; 2; 3] []) sample_identity [49; 50]) as (w3 & H1 & H2); try reflexivity.
  - intros i n. apply length_replicate.
  - exact Hb.
  - apply Forall_replicate. unfold is_byte. lia.
  - constructor; [|constructor]. constructor; [exact sample_ok|constructor].
  - exact E.
  - exists [], []. split; [reflexivity|]. intros Hin. inversion Hin.
  - exists w3. split; [reflexivity|]. split; [exact H1|]. exact H2.
Defined.

(** ** Identities as they are made *)

(** The bit of a slot of the first slab. *)
Lemma slot_bit_spec bits s b : 0 <= s < KEYRING_BAM_BITS -> zget bits (s / 8) = Some b -> slot_bit bits s = Some (Z.testbit b (s mod 8)).
Proof.
  intros Hs Hb. unfold slot_bit. change (KEYRING_BAM_BITS - 1) with (Z.ones 14). rewrite Z.land_ones by lia.
  change (2 ^ 14) with KEYRING_BAM_BITS. rewrite Z.mod_small by done. rewrite Z.shiftr_div_pow2 by lia. change (2 ^ 3) with 8. rewrite Hb.
  cbn [mbind option_bind]. change 7 with (Z.ones 3). rewrite Z.land_ones by lia. change (2 ^ 3) with 8. f_equal.
  pose proof (Z.mod_pos_bound s 8 ltac:(lia)) as Hm. set (k := s mod 8) in *. rewrite Z.shiftl_1_l.
  destruct (Z.testbit b k) eqn:E.
  - apply negb_true_iff, Z.eqb_neq. intros H0. apply (f_equal (fun z => Z.testbit z k)) in H0.
    rewrite Z.land_spec, E, Z.pow2_bits_true, Z.bits_0 in H0 by lia. done.
  - apply negb_false_iff, Z.eqb_eq. apply Z.bits_inj_0. intros n. rewrite Z.land_spec.
    destruct (decide (n = k)) as [->|Hne]; [by rewrite E|]. rewrite Z.pow2_bits_false by done. apply andb_false_r.
Qed.

Lemma set_slot_bit_spec bits s : 0 <= s < KEYRING_BAM_BITS -> zlen bits = KEYRING_BAM_BYTES ->
  exists bits', set_slot_bit bits s = Some bits' /\ zlen bits' = KEYRING_BAM_BYTES /\ slot_bit bits' s = Some true /\
    forall t, 0 <= t < KEYRING_BAM_BITS -> slot_bit bits t = Some true -> slot_bit bits' t = Some true.
Proof.
  intros Hs Hl. unfold set_slot_bit. change (KEYRING_BAM_BITS - 1) with (Z.ones 14). rewrite Z.land_ones by lia.
  change (2 ^ 14) with KEYRING_BAM_BITS. rewrite Z.mod_small by done. rewrite Z.shiftr_div_pow2 by lia. change (2 ^ 3) with 8.
  change 7 with (Z.ones 3). rewrite Z.land_ones by lia. change (2 ^ 3) with 8.
  assert (Hq : forall t, 0 <= t < KEYRING_BAM_BITS -> 0 <= t / 8 < zlen bits).
  { intros t Ht. rewrite Hl. change KEYRING_BAM_BITS with (KEYRING_BAM_BYTES * 8) in Ht. split; [apply Z.div_pos; lia|apply Z.div_lt_upper_bound; lia]. }
  destruct (zget_is_Some bits (s / 8) (Hq s Hs)) as [b Hb]. rewrite Hb. cbn [mbind option_bind].
  rewrite zset_Some by (by apply Hq). set (b' := Z.lor _ _). eexists. split; [done|].
  assert (Hset : zset bits (s / 8) b' = Some (<[Z.to_nat (s / 8) := b']> bits)) by (apply zset_Some; by apply Hq).
  pose proof (Z.mod_pos_bound s 8 ltac:(lia)) as Hm. split; [by rewrite length_insert|].
  assert (Hbit : Z.testbit b' (s mod 8) = true).
  { unfold b'. rewrite Z.lor_spec, Z.shiftl_1_l, Z.pow2_bits_true by lia. apply orb_true_r. }
  split.
  - rewrite (slot_bit_spec _ _ b') by (done || by apply (zget_zset_eq _ _ _ _ Hset)). by rewrite Hbit.
  - intros t Ht Hbt. destruct (zget_is_Some bits (t / 8) (Hq t Ht)) as [x Hx]. rewrite (slot_bit_spec _ _ x Ht Hx) in Hbt.
    destruct (decide (t / 8 = s / 8)) as [Heq|Hne].
    + rewrite Heq in Hx. rewrite Hb in Hx. simplify_eq. rewrite (slot_bit_spec _ _ b'); [|done|by rewrite Heq; apply (zget_zset_eq _ _ _ _ Hset)].
      unfold b'. rewrite Z.lor_spec. by rewrite Hbt.
    + rewrite (slot_bit_spec _ _ x); [by rewrite <- Hbt|done|]. rewrite (zget_zset_ne bits (s / 8) (t / 8) b'); done.
Qed.
