(* ===== verification/KeyringInv.v ===== *)
(** KeyringInv: opening a keyring, entering pins, creating identities and naming them keeps what committing needs. *)

From Stdlib Require Import Sorted.
From S2P Require Import Prelude Str Crypto RotBuf Keyring KeyringFile KeyringSlot KeyringProps.

(** ** Identities as they are made *)

Section inv.
Context `{NaCl} `{KeyringNaCl}.

(** Key pairs of different types in order, and a pin. *)
Definition made (id : keyring_identity) : Prop :=
  Forall keypair_ok (keypairs id) /\ StronglySorted Z.lt (kp_type <$> keypairs id) /\ keypairs id <> [] /\
  exists pin, PKRPin id = Some pin /\ zlen pin <= 60000.

Lemma keypair_ok_type kp : keypair_ok kp -> 0 < kp_type kp <= 4 /\ zlen (entry kp) <= 97.
Proof.
  intros Hk. unfold entry, stored. destruct Hk as [d Hd _|d e Hd He _ _|d Hd _|d e Hd He _ _ _];
    cbn [kp_type private_key public_key]; (split; [done|]).
  - change (length _) with (S (length (d ++ []))). rewrite app_nil_r. lia.
  - change (length _) with (S (length (d ++ e))). rewrite length_app. lia.
  - change (length _) with (S (length (d ++ []))). rewrite app_nil_r. lia.
  - change (length _) with (S (length (d ++ e))). rewrite length_app. lia.
Qed.

Lemma strictly_bounded l m : StronglySorted Z.lt l -> forall a, Forall (fun x => a < x <= m) l -> a <= m -> zlen l <= m - a.
Proof.
  induction 1 as [|x l Hs IH Hx]; intros a Hl Ham; [simpl; lia|]. apply Forall_cons in Hl as [Hxa Hl].
  assert (Hb : Forall (fun y => x < y <= m) l).
  { rewrite Forall_forall in *. intros y Hy. specialize (Hl y Hy). specialize (Hx y Hy). lia. }
  specialize (IH x Hb ltac:(lia)). simpl. lia.
Qed.

Lemma made_identity_ok id : made id -> identity_ok id.
Proof.
  intros (Hk & Hst & Hne & Hpin).
  assert (Hlen : zlen (keypairs id) <= 4).
  { pose proof (strictly_bounded _ 4 Hst 0) as Hb. rewrite length_fmap in Hb. apply Hb; [|lia]. apply Forall_fmap.
    eapply Forall_impl; [exact Hk|]. intros kp Hkp. by apply keypair_ok_type. }
  split; [done|]. split; [destruct (keypairs id); [done|simpl in *; unfold PKR_MAX_KEYPAIRS; lia]|]. split; [|split; [|done]].
  - assert (Hb : zlen (entries (keypairs id)) <= 97 * zlen (keypairs id)).
    { clear -Hk. induction Hk as [|kp kps Hkp _ IH]; [simpl; lia|]. change (entries (kp :: kps)) with (entry kp ++ entries kps).
      rewrite length_app. apply keypair_ok_type in Hkp. cbn [length]. lia. }
    lia.
  - clear -Hst. induction (keypairs id) as [|kp kps IH]; [constructor|]. cbn [fmap list_fmap] in Hst. apply StronglySorted_inv in Hst as [Hs Hx].
    constructor; [by apply IH|]. apply (Forall_fmap kp_type) in Hx. eapply Forall_impl; [exact Hx|]. intros y Hy. cbn in Hy.
    exists (-1). split; [|lia]. unfold cmp_keypair. by rewrite (proj2 (Z.ltb_lt _ _) Hy).
Qed.

(** ** The keyring *)

Definition slots (cs : list keyring_context) : list Z := flat_map (fun c => slot <$> identities c) cs.

Lemma slots_all cs : slot ∘ snd <$> all_identities cs = slots cs.
Proof.
  induction cs as [|c cs IH]; [done|]. change (all_identities (c :: cs)) with ((pair c <$> identities c) ++ all_identities cs).
  rewrite fmap_app, IH. cbn [slots flat_map]. f_equal. by rewrite <- list_fmap_compose.
Qed.

(** *** Identities as they are loaded *)

(** Keys of the lengths that belong to their type. *)
Definition keypair_shaped (kp : keypair) : Prop :=
  0 < kp_type kp <= 4 /\ exists kt : keytype, keytypes [] !! Z.to_nat (kp_type kp) = Some kt /\
    zlen (private_key kp) = private_key_size kt /\ zlen (public_key kp) = public_key_size kt.

(** One to 64 such key pairs, and a pin. *)
Definition shaped (id : keyring_identity) : Prop :=
  Forall keypair_shaped (keypairs id) /\ (1 <= length (keypairs id) <= PKR_MAX_KEYPAIRS)%nat /\ is_Some (PKRPin id).

Lemma keypair_ok_shaped kp : keypair_ok kp -> keypair_shaped kp.
Proof.
  intros [d H1|d e H1 H2|d H1|d e H1 H2]; (split; [done|]); eexists; (split; [reflexivity|]); cbn;
    rewrite ?scalarmult_base_length; lia.
Qed.

Lemma made_shaped id : made id -> shaped id.
Proof.
  intros Hm. pose proof (made_identity_ok _ Hm) as (_ & Hn & _). destruct Hm as (Hk & _ & _ & pin & Hp & _). split; [|split; [lia|by exists pin]].
  eapply Forall_impl; [exact Hk|]. intros kp. apply keypair_ok_shaped.
Qed.

(** The slot is marked as used in the bitmap of its slab. *)
Definition placed (bams : list keyring_bam) (t : Z) : Prop :=
  0 < t /\ exists b, find_bam bams (t * KEYRING_PAGE_SIZE) = Some b /\ slot_bit (bitmap b) t = Some true.

(** [D] says that the identities are those that were made since the keyring was opened. *)
Definition in_place (D : Prop) (bams : list keyring_bam) (id : keyring_identity) : Prop :=
  shaped id /\ placed bams (slot id) /\ (D -> made id /\ slot_ok id).

(** Identities are well formed, in slots that are marked as used; those that were made since the keyring was opened are as
    they are made, in slots of their own. *)
Definition ring_inv (D : Prop) (k : keyring_file) : Prop :=
  exists b bams, bam k = b :: bams /\ file_offset b = 0 /\ zlen (bitmap b) = KEYRING_BAM_BYTES /\
    Forall (fun c => Forall (in_place D (bam k)) (identities c)) (contexts k) /\ (D -> NoDup (slots (contexts k))).

Lemma ring_inv_ok k : ring_inv True k -> keyring_ok k.
Proof.
  intros (b & bams & _ & _ & _ & Hok & Hnd). eapply Forall_impl; [exact Hok|]. intros c Hc.
  eapply Forall_impl; [exact Hc|]. intros id (_ & _ & Hm). destruct (Hm I). split; [by apply made_identity_ok|done].
Qed.

(** Slots of the first slab are in the first bitmap. *)
Lemma placed_first b bams t : file_offset b = 0 -> 0 < t < KEYRING_BAM_BITS ->
  placed (b :: bams) t <-> slot_bit (bitmap b) t = Some true.
Proof.
  intros Hb Ht. unfold placed. cbn [find_bam]. rewrite Hb, (proj2 (Z.leb_gt _ _)).
  2:{ unfold KEYRING_SLAB_SIZE, KEYRING_PAGE_SIZE in *. lia. }
  split; [by intros (_ & b' & [= <-] & Hbit)|]. intros Hbit. split; [lia|]. by exists b.
Qed.

Lemma placed_more b bams bits t : file_offset b = 0 ->
  (forall t, 0 <= t < KEYRING_BAM_BITS -> slot_bit (bitmap b) t = Some true -> slot_bit bits t = Some true) ->
  placed (b :: bams) t -> placed (mk_bam (file_offset b) bits :: bams) t.
Proof.
  intros Hb Hbits Hp. destruct (Z.lt_ge_cases t KEYRING_BAM_BITS) as [Hlt|Hge].
  - pose proof Hp as [Hpos _]. apply placed_first in Hp; [|done|lia]. apply placed_first; [done|lia|]. cbn [bitmap]. apply Hbits; [lia|done].
  - destruct Hp as (Hpos & b' & Hf & Hbit). split; [done|]. exists b'. split; [|done]. revert Hf. cbn [find_bam file_offset]. rewrite Hb.
    rewrite (proj2 (Z.leb_le _ _)); [done|]. unfold KEYRING_SLAB_SIZE, KEYRING_PAGE_SIZE in *. lia.
Qed.

(** Another list of identities in one of the contexts. *)
Lemma slots_insert cs cn c ids : cs !! cn = Some c ->
  exists rest, slots cs ≡ₚ (slot <$> identities c) ++ rest /\ slots (<[cn := set_identities c ids]> cs) ≡ₚ (slot <$> ids) ++ rest.
Proof.
  revert cn. induction cs as [|x cs IH]; intros [|cn] Hc; [done|done| |].
  - cbn in Hc. simplify_eq. by exists (slots cs).
  - cbn in Hc. destruct (IH cn Hc) as (rest & H1 & H2). exists ((slot <$> identities x) ++ rest). cbn [slots flat_map insert list_insert].
    fold (slots cs) (slots (<[cn:=set_identities c ids]> cs)). rewrite H1, H2. split; solve_Permutation.
Qed.

Lemma ring_inv_slots (D : Prop) k b bams : D -> bam k = b :: bams -> ring_inv D k ->
  Forall (fun t => 0 < t < KEYRING_BAM_BITS /\ slot_bit (bitmap b) t = Some true) (slots (contexts k)).
Proof.
  intros HD Hb (b' & bams' & Hb' & Ho & _ & Hok & _). rewrite Hb in Hb', Hok. injection Hb' as <- <-. clear Hb.
  induction Hok as [|x cs Hx _ IH]; [by constructor|]. cbn [slots flat_map]. apply Forall_app. split; [|exact IH].
  apply Forall_fmap. eapply Forall_impl; [exact Hx|]. intros id (_ & Hp & Hm). destruct (Hm HD) as [_ Hs]. split; [apply Hs|].
  by apply (placed_first b bams) in Hp.
Qed.

Lemma ring_inv_insert D k cn c ids b bams bits : bam k = b :: bams -> ring_inv D k -> contexts k !! cn = Some c -> zlen bits = KEYRING_BAM_BYTES ->
  (forall t, 0 <= t < KEYRING_BAM_BITS -> slot_bit (bitmap b) t = Some true -> slot_bit bits t = Some true) ->
  Forall (in_place D (mk_bam (file_offset b) bits :: bams)) ids ->
  (D -> forall rest, NoDup ((slot <$> identities c) ++ rest) ->
     Forall (fun t => 0 < t < KEYRING_BAM_BITS /\ slot_bit (bitmap b) t = Some true) rest -> NoDup ((slot <$> ids) ++ rest)) ->
  forall fs, ring_inv D (mk_keyring (mk_bam (file_offset b) bits :: bams) (<[cn := set_identities c ids]> (contexts k)) fs).
Proof.
  intros Hb Hinv Hc Hbl Hbits Hids Hslots fs. pose proof Hinv as (b' & bams' & Hb' & Ho & Hl & Hok & Hnd).
  rewrite Hb in Hb', Hok. injection Hb' as <- <-.
  exists (mk_bam (file_offset b) bits), bams. cbn [bam bitmap contexts file_offset]. split; [done|]. split; [done|]. split; [done|].
  destruct (slots_insert (contexts k) cn c ids Hc) as (rest & P1 & P2). split.
  - apply Forall_insert; [|by cbn]. eapply Forall_impl; [exact Hok|]. intros x Hx. eapply Forall_impl; [exact Hx|].
    intros id (Hs & Hp & Hm). split; [done|]. split; [by apply placed_more|done].
  - intros HD. rewrite P2. apply (Hslots HD); [rewrite <- P1; by apply Hnd|].
    pose proof (ring_inv_slots D k b bams HD Hb Hinv) as Hall. rewrite P1 in Hall. by apply Forall_app in Hall as [_ Hall].
Qed.

(** ** Operations *)

Context (sys : nat -> bool) (entropy : nat -> nat -> list Z) (box_keypair sign_keypair : nat -> list Z * list Z) (junk : list Z).
Hypothesis entropy_length : forall i n, length (entropy i n) = n.
Hypothesis entropy_bytes : forall i n, are_bytes (entropy i n).
(** What NaCl promises of new key pairs: the public key and the secret one. *)
Hypothesis box_keypair_ok : forall i, length (box_keypair i).2 = 32%nat /\ are_bytes (box_keypair i).2 /\ (box_keypair i).1 = scalarmult_base (box_keypair i).2.
Hypothesis sign_keypair_ok : forall i, length (sign_keypair i).2 = 64%nat /\ length (sign_keypair i).1 = 32%nat /\
  are_bytes (sign_keypair i).2 /\ are_bytes (sign_keypair i).1.
Hypothesis junk_bytes : are_bytes junk.
Hypothesis junk_length : (32 <= length junk)%nat.

Lemma kbind_inv {A B} (m : KM A) (f : A -> KM B) w y w' : (m ≫= f) w = Some (y, w') -> exists x w1, m w = Some (x, w1) /\ f x w1 = Some (y, w').
Proof. unfold mbind, KM_bind. destruct (m w) as [[x w1]|]; [|done]. intros E. by exists x, w1. Qed.

Lemma ring_tick w : ring (tick w) = ring w.
Proof. done. Qed.

Lemma keeps_alloc3 : keeps ring (alloc3 sys).
Proof.
  unfold alloc3. pose proof (keeps_syscall sys ring ring_tick) as Hs. apply kkeeps_bind; [done|]. intros [|]; [|apply kkeeps_ret].
  apply kkeeps_bind; [done|]. intros [|]; [done|apply kkeeps_ret].
Qed.
Lemma keeps_edup t : keeps ring (str_edup sys t).
Proof. unfold str_edup. apply kkeeps_bind; [apply (keeps_syscall sys ring ring_tick)|]. intros. apply kkeeps_ret. Qed.

Lemma new_box_keypair_inv n : forall i p, new_box_keypair box_keypair n i = Some p -> exists j, p = box_keypair j.
Proof.
  induction n as [|n IH]; intros i p Hp; [done|]. cbn [new_box_keypair] in Hp.
  destruct ((box_keypair i).1 !! 0%nat) as [b|]; [|done]. cbn [mbind option_bind] in Hp.
  destruct (b <? 16); [by apply IH in Hp|]. simplify_eq. by exists i.
Qed.

Lemma free_slot_inv n bits : forall s t, free_slot n s bits = Some t -> t < s + Z.of_nat n -> s <= t /\ slot_bit bits t = Some false.
Proof.
  induction n as [|n IH]; intros s t Ht Hlt; [simpl in *; simplify_eq; lia|]. cbn [free_slot] in Ht.
  destruct (slot_bit bits s) as [[|]|] eqn:E; cbn [mbind option_bind] in Ht; simplify_eq; [|done].
  apply IH in Ht; [|lia]. split; [lia|apply Ht].
Qed.

(** The three key pairs of a new identity. *)
Lemma new_identity_shaped pin s i j secret : length secret = 32%nat ->
  shaped (mk_identity (Some pin) s [mk_keypair KEYTYPE_CRYPTOBOX (box_keypair i).2 (box_keypair i).1;
    mk_keypair KEYTYPE_CRYPTOSIGN (sign_keypair j).2 (sign_keypair j).1; mk_keypair KEYTYPE_RHIZOME secret []]).
Proof.
  intros Hl. destruct (box_keypair_ok i) as (B1 & B2 & ->). destruct (sign_keypair_ok j) as (S1 & S2 & S3 & S4).
  split; [|split; [cbn; unfold PKR_MAX_KEYPAIRS; lia|by eexists]].
  repeat apply Forall_cons_2; try apply Forall_nil_2; (split; [done|]); eexists; (split; [reflexivity|]); cbn;
    rewrite ?scalarmult_base_length; lia.
Qed.

Lemma new_identity_made pin s i j secret : zlen pin <= 60000 -> length secret = 32%nat -> are_bytes secret ->
  made (mk_identity (Some pin) s [mk_keypair KEYTYPE_CRYPTOBOX (box_keypair i).2 (box_keypair i).1;
    mk_keypair KEYTYPE_CRYPTOSIGN (sign_keypair j).2 (sign_keypair j).1; mk_keypair KEYTYPE_RHIZOME secret []]).
Proof.
  intros Hp Hl Hb. destruct (box_keypair_ok i) as (B1 & B2 & ->). destruct (sign_keypair_ok j) as (S1 & S2 & S3 & S4).
  split; [|split; [|split; [done|by exists pin]]].
  - repeat (constructor; [by constructor|]). constructor.
  - cbn. repeat constructor.
Qed.

(** The identity that was made is in the context, in a slot that no identity in memory has. *)
Definition made_apart (cn : nat) (k : keyring_file) (r : option nat) (k' : keyring_file) : Prop :=
  forall i, r = Some i -> exists c id, contexts k' !! cn = Some c /\ identities c !! i = Some id /\ slot id ∉ slots (contexts k).

Lemma slots_placed D k t : ring_inv D k -> t ∈ slots (contexts k) -> placed (bam k) t.
Proof.
  intros (b & bams & _ & _ & _ & Hok & _) Ht. induction Hok as [|c cs Hc _ IH]; [set_solver|]. cbn [slots flat_map] in Ht.
  apply elem_of_app in Ht as [(id & -> & Hid)%list_elem_of_fmap|Ht]; [|by apply IH]. rewrite Forall_forall in Hc. apply (Hc id Hid).
Qed.

Lemma create_inv D attempts cn pin w r w' : ring_inv D (ring w) -> (D -> zlen (default [] pin) <= 60000) ->
  keyring_create_identity sys entropy box_keypair sign_keypair junk attempts cn pin w = Some (r, w') ->
  ring_inv D (ring w') /\ made_apart cn (ring w) r (ring w').
Proof.
  intros Hinv Hpin Hw. pose proof Hinv as (b & bams & Hb & Ho & Hbl & Hall & _).
  unfold keyring_create_identity in Hw. apply kbind_inv in Hw as (k & w0 & [= <- <-] & Hw). rewrite Hb in Hw.
  apply kbind_inv in Hw as (c & w1 & Ec & Hw). unfold klift in Ec. destruct (contexts (ring w) !! cn) as [c1|] eqn:Hcn; [|done]. cbn in Ec. injection Ec as <- <-.
  assert (Hret : forall w1 : kworld, ring w1 = ring w -> (mret None : KM (option nat)) w1 = Some (r, w') ->
    ring_inv D (ring w') /\ made_apart cn (ring w) r (ring w')).
  { intros w1 Hr [= <- <-]. rewrite Hr. by split. }
  destruct (_ <=? _); [exact (Hret _ eq_refl Hw)|]. apply kbind_inv in Hw as (ok & w2 & E2 & Hw). apply (keeps_syscall sys ring ring_tick) in E2.
  destruct ok; [|eapply Hret; [|exact Hw]; congruence]. cbn [negb] in Hw. apply kbind_inv in Hw as (p & w3 & E3 & Hw). pose proof (keeps_edup _ _ _ _ E3) as R3.
  destruct p as [p|]; [|eapply Hret; [|exact Hw]; congruence].
  assert (p = default [] pin) as ->.
  { unfold str_edup in E3. apply kbind_inv in E3 as (ok & w4 & _ & E3). destruct ok; unfold mret, KM_ret in E3; by simplify_eq. }
  apply kbind_inv in Hw as (s & w4 & E4 & Hw). unfold klift in E4. destruct (free_slot _ _ _) as [s'|] eqn:Es; [|done]. cbn in E4. injection E4 as <- <-.
  rename s' into s. destruct (Z.leb_spec KEYRING_BAM_BITS s) as [|Hs]; [eapply Hret; [|exact Hw]; congruence|].
  apply free_slot_inv in Es as [Hs1 Hfree]; [|change KEYRING_BAM_BITS with 16384 in *; lia].
  apply kbind_inv in Hw as (ok & w5 & E5 & Hw). apply keeps_alloc3 in E5. destruct ok; [|eapply Hret; [|exact Hw]; congruence]. cbn [negb] in Hw.
  apply kbind_inv in Hw as (n & w6 & [= <- <-] & Hw). apply kbind_inv in Hw as (box & w6 & E6 & Hw).
  unfold klift in E6. destruct (new_box_keypair _ _ _) as [bk|] eqn:Eb; [|done]. cbn in E6. injection E6 as <- <-. apply new_box_keypair_inv in Eb as [j ->].
  apply kbind_inv in Hw as (ok & w7 & E7 & Hw). apply keeps_alloc3 in E7. destruct ok; [|eapply Hret; [|exact Hw]; congruence]. cbn [negb] in Hw.
  apply kbind_inv in Hw as (ok & w8 & E8 & Hw). apply (keeps_syscall sys ring ring_tick) in E8.
  destruct ok; [|eapply Hret; [|exact Hw]; congruence]. cbn [negb] in Hw.
  apply kbind_inv in Hw as (ok & w9 & E9 & Hw). apply (keeps_syscall sys ring ring_tick) in E9.
  destruct ok; [|eapply Hret; [|exact Hw]; congruence]. cbn [negb] in Hw.
  apply kbind_inv in Hw as (rnd & w10 & E10 & Hw). pose proof (keeps_urandom sys entropy ring ring_tick _ _ _ _ E10) as R10.
  set (secret := match rnd with Some d => d | None => take 32 junk end) in *.
  assert (Hsec : length secret = 32%nat /\ are_bytes secret).
  { unfold secret. unfold urandombytes in E10. injection E10 as <- _. destruct (sys _); [by split|].
    split; [rewrite length_take; lia|by apply Forall_take]. }
  destruct Hsec as [Hsec1 Hsec2].
  apply kbind_inv in Hw as (bits & w11 & E11 & Hw). unfold klift in E11.
  destruct (set_slot_bit_spec (bitmap b) s ltac:(lia) Hbl) as (bits' & Eb & Hbl' & Hbs & Hbt). rewrite Eb in E11. cbn in E11. injection E11 as <- <-.
  apply kbind_inv in Hw as ([] & w12 & [= <-] & Hw). apply kbind_inv in Hw as ([] & w13 & E13 & Hw).
  apply kbind_inv in Hw as ([] & w14 & [= <-] & Hw). unfold mret, KM_ret in Hw. injection Hw as <- <-. cbn [ring].
  unfold add_identity in E13. apply kbind_inv in E13 as (k & w14 & [= <- <-] & E13). cbn [ring contexts] in E13.
  apply kbind_inv in E13 as (c2 & w14 & E14 & E13). unfold klift in E14. rewrite Hcn in E14. cbn in E14. injection E14 as <- <-.
  destruct (_ <=? _); [done|]. unfold put_ring in E13. injection E13 as <-. cbn [ring].
  assert (Hapart : s ∉ slots (contexts (ring w))).
  { intros Hin. pose proof (slots_placed _ _ _ Hinv Hin) as Hp. rewrite Hb in Hp. apply placed_first in Hp; [congruence|done|lia]. }
  split.
  - apply (ring_inv_insert D (ring w) cn c1 _ b bams bits' Hb Hinv Hcn Hbl' Hbt).
    + apply Forall_app. split.
      * rewrite Hb in Hall. eapply Forall_impl; [apply (Forall_lookup_1 _ _ _ _ Hall Hcn)|]. intros id (Hm & Hp & Hs').
        split; [done|]. split; [by apply placed_more|done].
      * constructor; [|constructor]. split; [by apply new_identity_shaped|]. split; [apply placed_first; [done|cbn [slot]; lia|done]|].
        intros HD. split; [apply new_identity_made; auto|unfold slot_ok; cbn [slot]; lia].
    + intros HD rest Hnd Hrest. rewrite fmap_app, <- app_assoc. cbn [fmap list_fmap app slot].
      apply NoDup_app in Hnd as (N1 & N2 & N3). apply NoDup_app. split; [done|]. split.
      * intros t Ht. apply not_elem_of_cons. split; [|by apply N2]. intros ->. apply Hapart.
        destruct (slots_insert (contexts (ring w)) cn c1 [] Hcn) as (rest' & P & _). rewrite P. set_solver.
      * apply NoDup_cons. split; [|done]. intros Hin. rewrite Forall_forall in Hrest. destruct (Hrest s Hin) as [_ Hbit]. congruence.
  - intros i [= <-]. eexists _, _. unfold set_contexts. cbn [contexts bam file_size ring]. rewrite list_lookup_insert_eq by (by eapply lookup_lt_Some).
    split; [done|]. cbn [identities set_identities]. rewrite lookup_app_r, Nat.sub_diag by done. done.
Qed.

(** *** Naming *)

Lemma pad_ok t n : (0 < n)%nat -> are_bytes t -> length (pad t n) = n /\ are_bytes (pad t n) /\ 0 ∈ pad t n.
Proof.
  intros Hn Ht. unfold pad. split; [rewrite length_app, length_take, length_replicate; lia|]. split.
  - apply Forall_app. split; [by apply Forall_take|]. apply Forall_replicate. unfold is_byte. lia.
  - apply elem_of_app. right. apply elem_of_replicate. split; [done|]. lia.
Qed.

Lemma set_did_in_spec kp kps : keypair_ok kp -> kp_type kp = KEYTYPE_DID -> Forall keypair_ok kps ->
  match set_did_in kps kp with
  | Some kps' => Forall keypair_ok kps' /\ kp_type <$> kps' = kp_type <$> kps
  | None => Forall (fun x => kp_type x < KEYTYPE_DID) kps
  end.
Proof.
  intros Hk Ht. induction 1 as [|x kps Hx Hkps IH]; [by constructor|]. cbn [set_did_in].
  destruct (Z.eqb_spec (kp_type x) KEYTYPE_DID) as [E|E].
  - split; [by constructor|]. cbn. by rewrite Ht, E.
  - destruct (set_did_in kps kp) as [l|]; cbn [mbind option_bind].
    + destruct IH as [I1 I2]. split; [by constructor|]. cbn. f_equal. exact I2.
    + constructor; [|done]. apply keypair_ok_type in Hx as [Hx _]. unfold KEYTYPE_DID in *. lia.
Qed.

Lemma sorted_app_last l x : StronglySorted Z.lt l -> Forall (fun y => y < x) l -> StronglySorted Z.lt (l ++ [x]).
Proof.
  induction 1 as [|y l Hs IH Hy]; intros Hx; cbn [app]; [by repeat constructor|]. apply Forall_cons in Hx as [Hxy Hx].
  constructor; [by apply IH|]. apply Forall_app. split; [done|by constructor].
Qed.

Lemma set_did_made id did name w r id' w' : made id -> are_bytes (default [] did) -> are_bytes (default MR_SMITH name) ->
  keyring_set_did sys id did name w = Some ((r, id'), w') -> made id' /\ slot id' = slot id /\ ring w' = ring w.
Proof.
  intros Hm Hd Hn Hw. unfold keyring_set_did in Hw. destruct did as [did|]; [|unfold mret, KM_ret in Hw; by simplify_eq].
  cbn [default] in Hd. set (kp := mk_keypair _ _ _) in *. pose proof Hm as (Hk & Hst & Hne & Hpin).
  assert (Hkp : keypair_ok kp).
  { destruct (pad_ok did 32 ltac:(lia) Hd) as (L1 & B1 & _). destruct (pad_ok (default MR_SMITH name) 64 ltac:(lia) Hn) as (L2 & B2 & Z2).
    by constructor. }
  pose proof (set_did_in_spec kp (keypairs id) Hkp eq_refl Hk) as Hs. destruct (set_did_in (keypairs id) kp) as [kps|].
  - unfold mret, KM_ret in Hw. simplify_eq. destruct Hs as [S1 S2]. split; [|done]. split; [done|]. cbn [keypairs PKRPin]. rewrite S2.
    split; [done|]. split; [|done]. intros ->. by destruct (keypairs id).
  - destruct (_ <=? _)%nat; [unfold mret, KM_ret in Hw; by simplify_eq|]. apply kbind_inv in Hw as (ok & w1 & E & Hw). apply keeps_alloc3 in E.
    destruct ok; cbn [negb] in Hw; unfold mret, KM_ret in Hw; simplify_eq; cbn [slot]; [|done]. split; [|done]. split; [|split; [|split; [|done]]].
    + cbn [keypairs]. apply Forall_app. split; [done|by constructor].
    + cbn [keypairs]. rewrite fmap_app. apply sorted_app_last; [done|]. by apply Forall_fmap.
    + cbn [keypairs]. by destruct (keypairs id).
Qed.

Lemma set_did_in_shaped kp kps : keypair_shaped kp -> Forall keypair_shaped kps ->
  forall kps', set_did_in kps kp = Some kps' -> Forall keypair_shaped kps' /\ length kps' = length kps.
Proof.
  intros Hk. induction 1 as [|x kps Hx Hkps IH]; intros kps' E; [done|]. cbn [set_did_in] in E.
  destruct (_ =? _); [injection E as <-; split; [by constructor|done]|].
  destruct (set_did_in kps kp) as [l|]; [|done]. cbn in E. injection E as <-. destruct (IH l eq_refl) as [I1 I2].
  split; [by constructor|]. cbn. by f_equal.
Qed.

Lemma set_did_shaped id did name w r id' w' : shaped id ->
  keyring_set_did sys id did name w = Some ((r, id'), w') -> shaped id' /\ slot id' = slot id /\ ring w' = ring w.
Proof.
  intros Hm Hw. unfold keyring_set_did in Hw. destruct did as [did|]; [|unfold mret, KM_ret in Hw; by simplify_eq].
  set (kp := mk_keypair _ _ _) in *. pose proof Hm as (Hk & Hn & Hpin).
  assert (Hkp : keypair_shaped kp).
  { split; [done|]. eexists. split; [reflexivity|]. cbn. unfold pad. rewrite !length_app, !length_take, !length_replicate. lia. }
  pose proof (set_did_in_shaped kp (keypairs id) Hkp Hk) as Hs. destruct (set_did_in (keypairs id) kp) as [kps|].
  - unfold mret, KM_ret in Hw. simplify_eq. destruct (Hs _ eq_refl) as [S1 S2]. split; [|done]. split; [done|]. cbn [keypairs PKRPin]. by rewrite S2.
  - destruct (Nat.leb_spec PKR_MAX_KEYPAIRS (length (keypairs id))) as [|Hlt]; [unfold mret, KM_ret in Hw; by simplify_eq|].
    apply kbind_inv in Hw as (ok & w1 & E & Hw). apply keeps_alloc3 in E.
    destruct ok; cbn [negb] in Hw; unfold mret, KM_ret in Hw; simplify_eq; cbn [slot]; [|done]. split; [|done].
    split; [|split; [|done]]; cbn [keypairs]; [apply Forall_app; split; [done|by constructor]|rewrite length_app; cbn [length]; lia].
Qed.

Lemma put_identity_inv D k cn c idn id id' fs : ring_inv D k -> contexts k !! cn = Some c -> identities c !! idn = Some id ->
  shaped id' -> (D -> made id') ->
  slot id' = slot id -> ring_inv D (mk_keyring (bam k) (<[cn := set_identities c (<[idn := id']> (identities c))]> (contexts k)) fs).
Proof.
  intros Hinv Hcn Hid Hsh Hm Hs. pose proof Hinv as (b & bams & Hb & Ho & Hbl & Hok & _). rewrite Hb in *.
  assert (Eb : b :: bams = mk_bam (file_offset b) (bitmap b) :: bams) by (by destruct b). rewrite Eb in Hok |- *.
  pose proof (Forall_lookup_1 _ _ _ _ Hok Hcn) as Hc. apply (ring_inv_insert D k cn c _ b bams (bitmap b) Hb Hinv Hcn Hbl); [done| |].
  - apply Forall_insert; [done|]. destruct (Forall_lookup_1 _ _ _ _ Hc Hid) as (_ & H1 & H2). split; [done|]. rewrite Hs. split; [done|].
    intros HD. unfold slot_ok. rewrite Hs. split; [by apply Hm|]. by apply H2.
  - intros _ rest Hnd _. rewrite list_fmap_insert, Hs, list_insert_id; [done|]. by rewrite list_lookup_fmap, Hid.
Qed.

(** *** Committing, opening and pins *)

Hint Resolve kkeeps_ret kkeeps_lift keeps_get : core.
Lemma keeps_fwrite off d : keeps ring (fwrite sys off d).
Proof. intros w x w' [= <- <-]. done. Qed.
Lemma keeps_sys : keeps ring (syscall sys).
Proof. apply (keeps_syscall sys ring ring_tick). Qed.
Lemma keeps_packing pkr id : keeps ring (keyring_pack_identity sys entropy junk pkr id).
Proof. apply (keeps_pack sys entropy junk ring ring_tick). Qed.
Hint Resolve keeps_fwrite keeps_sys keeps_packing : core.

Lemma keeps_bams bams salt : keeps ring (write_bams sys bams salt).
Proof.
  induction bams as [|b bams IH]; cbn [write_bams]; [auto|]. apply kkeeps_bind; [auto|]. intros [|]; cbn [negb].
  - apply kkeeps_bind; [|intros e; apply kkeeps_bind; auto]. apply kkeeps_bind; [auto|]. intros [|]; cbn [negb]; [|auto]. apply kkeeps_bind; auto.
  - apply kkeeps_bind; [auto|]. intros e. apply kkeeps_bind; auto.
Qed.

Lemma keeps_write_identity pkr c id : keeps ring (write_identity sys entropy junk pkr c id).
Proof.
  unfold write_identity. apply kkeeps_bind; [auto|]. intros [block|]; [|auto]. apply kkeeps_bind; [auto|]. intros kr. apply kkeeps_bind; [auto|]. intros pin.
  destruct (keyring_munge_block _ _ _ _) as [err s]. destruct (negb _); [auto|]. destruct (_ =? 0); [auto|].
  apply kkeeps_bind; [auto|]. intros [|]; cbn [negb]; [|auto]. apply kkeeps_bind; auto.
Qed.

Lemma keeps_commit pkr : keeps ring (keyring_commit sys entropy junk pkr).
Proof.
  assert (Hids : forall c ids, keeps ring (write_identities sys entropy junk pkr c ids)).
  { intros c. induction ids as [|id ids IH]; cbn [write_identities]; [auto|]. apply kkeeps_bind; [apply keeps_write_identity|].
    intros e. apply kkeeps_bind; auto. }
  assert (Hcs : forall cs, keeps ring (write_contexts sys entropy junk pkr cs)).
  { induction cs as [|c cs IH]; cbn [write_contexts]; [auto|]. apply kkeeps_bind; [auto|]. intros e. apply kkeeps_bind; auto. }
  unfold keyring_commit. apply kkeeps_bind; [auto|]. intros k. destruct (contexts k); [auto|]. apply kkeeps_bind; [apply keeps_bams|]. intros a.
  apply kkeeps_bind; [auto|]. intros b. apply kkeeps_bind; auto.
Qed.

Lemma read_slabs_inv fuel : forall offset size w bams cs w', read_slabs sys fuel offset size w = Some (Some (bams, cs), w') ->
  Forall (fun c => identities c = []) cs /\ Forall (fun b => zlen (bitmap b) = KEYRING_BAM_BYTES) bams /\
  (offset < size -> exists b bams', bams = b :: bams' /\ file_offset b = offset).
Proof.
  induction fuel as [|fuel IH]; intros offset size w bams cs w' Hw; cbn [read_slabs] in Hw;
    (destruct (Z.ltb_spec offset size) as [Hlt|]; [|unfold mret, KM_ret in Hw; simplify_eq; split_and!; (done || constructor || lia)]); [done|].
  apply kbind_inv in Hw as (ok & w1 & _ & Hw). destruct ok; cbn [negb] in Hw; [|done].
  apply kbind_inv in Hw as (ok & w2 & _ & Hw). destruct ok; cbn [negb] in Hw; [|done].
  apply kbind_inv in Hw as (r & w3 & Er & Hw). destruct r as [bits|]; [|done]. apply kbind_inv in Hw as (cs0 & w4 & Ecs & Hw).
  destruct cs0 as [cs0|]; [|done]. apply kbind_inv in Hw as (r & w5 & Erec & Hw). destruct r as [[bams' cs']|]; [|done].
  unfold mret, KM_ret in Hw. simplify_eq. apply IH in Erec as (I1 & I2 & _). split_and!; [|constructor; [|done]|intros _; by eexists _, _].
  - apply Forall_app. split; [|done]. destruct (offset =? 0); [|unfold mret, KM_ret in Ecs; by simplify_eq].
    apply kbind_inv in Ecs as (ok & u1 & _ & Ecs). destruct ok; cbn [negb] in Ecs; [|done].
    apply kbind_inv in Ecs as (p & u2 & _ & Ecs). apply kbind_inv in Ecs as (ok & u3 & _ & Ecs). destruct ok; cbn [negb] in Ecs; [|done].
    apply kbind_inv in Ecs as (r & u4 & _ & Ecs). unfold mret, KM_ret in Ecs. destruct r; simplify_eq. by repeat constructor.
  - unfold fread in Er. destruct (sys _); [|done]. cbn [bitmap]. injection Er as Er _. apply zslice_inv in Er as (? & ? & ? & ->).
    rewrite length_take, length_drop. lia.
Qed.

Lemma open_inv D w w' : keyring_open sys entropy w = Some (true, w') -> ring_inv D (ring w').
Proof.
  intros Hw. unfold keyring_open in Hw. apply kbind_inv in Hw as (ok & w1 & _ & Hw). destruct ok; cbn [negb] in Hw; [|done].
  apply kbind_inv in Hw as (ok & w2 & _ & Hw). destruct ok; cbn [negb] in Hw; [|done].
  apply kbind_inv in Hw as (ok & w3 & _ & Hw). destruct ok; cbn [negb] in Hw; [|done].
  apply kbind_inv in Hw as (size & w4 & _ & Hw). apply kbind_inv in Hw as (ok & w5 & _ & Hw). destruct ok; cbn [negb] in Hw; [|done].
  cbv zeta in Hw. apply kbind_inv in Hw as (r & w6 & Er & Hw). destruct r as [[bams cs]|]; [|done].
  apply kbind_inv in Hw as ([] & w7 & [= <-] & Hw). unfold mret, KM_ret in Hw. injection Hw as <-. cbn [ring].
  apply read_slabs_inv in Er as (Hcs & Hb & Hne).
  destruct Hne as (b & bams' & -> & Ho); [destruct (Z.ltb_spec size KEYRING_PAGE_SIZE); unfold KEYRING_PAGE_SIZE in *; lia|].
  apply Forall_cons in Hb as [Hb _]. exists b, bams'. cbn [bam contexts]. split; [done|]. split; [done|]. split; [done|]. split.
  - eapply Forall_impl; [exact Hcs|]. intros c ->. by constructor.
  - intros _. replace (slots cs) with (@nil Z); [constructor|]. symmetry. induction Hcs as [|c cs Hc _ IH]; [done|]. cbn [slots flat_map]. rewrite Hc. exact IH.
Qed.

Lemma keyringpin_inv D pin w r w' : ring_inv D (ring w) -> keyring_enter_keyringpin sys pin w = Some (r, w') -> ring_inv D (ring w').
Proof.
  intros Hinv Hw. unfold keyring_enter_keyringpin in Hw. apply kbind_inv in Hw as (k & w1 & [= <- <-] & Hw).
  assert (Hret : forall (x : Z) (w1 : kworld), ring w1 = ring w -> (mret x : KM _) w1 = Some (r, w') -> ring_inv D (ring w')).
  { intros x w1 Hr [= <- <-]. by rewrite Hr. }
  destruct (_ <=? _)%nat; [by eapply (Hret _ w)|]. destruct (contexts (ring w)) as [|c0 cs] eqn:Ec; [by eapply (Hret _ w)|]. rewrite <- Ec in Hw.
  apply kbind_inv in Hw as (p & w1 & E1 & Hw). pose proof (kkeeps_lift ring _ _ _ _ E1) as R1.
  apply kbind_inv in Hw as (known & w2 & E2 & Hw). pose proof (kkeeps_lift ring _ _ _ _ E2) as R2.
  destruct known; [eapply Hret; [|exact Hw]; congruence|]. apply kbind_inv in Hw as (ok & w3 & E3 & Hw). apply keeps_sys in E3.
  destruct ok; cbn [negb] in Hw; [|eapply Hret; [|exact Hw]; congruence]. apply kbind_inv in Hw as (q & w4 & E4 & Hw). apply keeps_edup in E4.
  apply kbind_inv in Hw as (ok & w5 & E5 & Hw). apply keeps_sys in E5. destruct ok; cbn [negb] in Hw; [|eapply Hret; [|exact Hw]; congruence].
  apply kbind_inv in Hw as ([] & w6 & [= <-] & Hw). unfold mret, KM_ret in Hw. injection Hw as _ <-. cbn [ring].
  destruct Hinv as (b & bams & Hb & Ho & Hbl & Hok & Hnd). exists b, bams. unfold set_contexts. cbn [bam contexts].
  split; [done|]. split; [done|]. split; [done|]. split.
  - apply Forall_app. split; [done|]. constructor; [by constructor|constructor].
  - intros HD. specialize (Hnd HD). unfold slots. rewrite flat_map_app. cbn [flat_map identities fmap list_fmap]. by rewrite !app_nil_r.
Qed.

(** *** Loading *)

Lemma place_shaped kp l : forall l', keypair_shaped kp -> Forall keypair_shaped l -> place_keypair l kp = Some l' ->
  Forall keypair_shaped l' /\ (length l' <= S (length l))%nat.
Proof.
  intros l' Hk Hl. revert l'. induction Hl as [|x l Hx Hl IH]; intros l' E; cbn [place_keypair] in E.
  { injection E as <-. split; [by constructor|done]. }
  destruct (cmp_keypair x kp) as [c|]; [|done]. cbn [mbind option_bind] in E. destruct (c <? 0).
  - destruct (place_keypair l kp) as [r|]; [|done]. cbn in E. injection E as <-. destruct (IH _ eq_refl) as [I1 I2].
    split; [by constructor|cbn; lia].
  - destruct (c =? 0); injection E as <-; (split; [repeat (apply Forall_cons_2; [done|]); done|cbn; lia]).
Qed.

Lemma getbuf_length buf n : forall rb d rb', rotbuf_getbuf buf rb n = Some (d, rb') -> length d = n.
Proof.
  induction n as [|n IH]; intros rb d rb' E; cbn [rotbuf_getbuf] in E; [by injection E as <- _|].
  destruct (rotbuf_getc buf rb) as [[c rb1]|]; [|done]. cbn [mbind option_bind] in E.
  destruct (rotbuf_getbuf buf rb1 n) as [[d' rb2]|] eqn:E2; [|done]. cbn in E. injection E as <- _. cbn. f_equal. by eapply IH.
Qed.

Lemma unpack_both_length priv pub buf rb r d e rb' : unpack_private_public priv pub buf rb = Some (r, d, e, rb') ->
  length d = Z.to_nat priv /\ length e = Z.to_nat pub.
Proof.
  unfold unpack_private_public. destruct (rotbuf_getbuf buf rb _) as [[d' rb1]|] eqn:E1; [|done]. cbn [mbind option_bind].
  destruct (rotbuf_getbuf buf rb1 _) as [[e' rb2]|] eqn:E2; [|done]. intros [= _ <- <- _]. by apply getbuf_length in E1, E2.
Qed.

(** What is unpacked has the lengths of its type. *)
Lemma unpacked_shaped t kt unpack buf rb r d e rb' : 0 < t -> keytypes junk !! Z.to_nat t = Some kt -> unpacker kt = Some unpack ->
  unpack (private_key_size kt) (public_key_size kt) buf rb = Some (r, d, e, rb') -> keypair_shaped (mk_keypair t d e).
Proof.
  intros Ht Hkt Hu E. unfold keypair_shaped. cbn [kp_type private_key public_key].
  assert (Hlt : (Z.to_nat t < 5)%nat) by (apply lookup_lt_Some in Hkt; exact Hkt). split; [lia|].
  assert (t = 1 \/ t = 2 \/ t = 3 \/ t = 4) as Hor by lia.
  assert (Hlen : length d = Z.to_nat (private_key_size kt) /\ length e = Z.to_nat (public_key_size kt)).
  { destruct Hor as [-> |[-> |[-> | ->]]]; cbn in Hkt; injection Hkt as <-; cbn [unpacker] in Hu; injection Hu as <-;
      cbn [private_key_size public_key_size] in *; revert E.
    - unfold unpack_private_derive_scalarmult_public. destruct (rotbuf_getbuf buf rb _) as [[d' rb1]|] eqn:E1; [|done].
      intros [= _ <- <- _]. apply getbuf_length in E1. split; [done|]. destruct (_ =? 0); [by rewrite scalarmult_base_length|].
      rewrite length_take. lia.
    - apply unpack_both_length.
    - unfold unpack_private_only. destruct (rotbuf_getbuf buf rb _) as [[d' rb1]|] eqn:E1; [|done].
      intros [= _ <- <- _]. apply getbuf_length in E1. split; [done|]. rewrite length_take. lia.
    - unfold unpack_did_name. destruct (unpack_private_public 32 64 buf rb) as [[[[r' d'] e'] rb1]|] eqn:E1; [|done]. cbn [mbind option_bind].
      apply unpack_both_length in E1. destruct (r' =? -1); [by intros [= _ <- <- _]|]. destruct (strnchr_nul _ _); [|done].
      by intros [= _ <- <- _]. }
  destruct Hlen as [H1 H2]. destruct Hor as [-> |[-> |[-> | ->]]]; cbn in Hkt; injection Hkt as <-; eexists; (split; [reflexivity|]);
    cbn [private_key_size public_key_size] in *; lia.
Qed.

Lemma lift_inv {A} (o : option A) w x w' : klift o w = Some (x, w') -> o = Some x /\ w' = w.
Proof. unfold klift. destruct o; [|done]. intros [= <- <-]. done. Qed.

Lemma keeps_alloc_keypair kt : keeps ring (alloc_keypair sys kt).
Proof.
  unfold alloc_keypair. apply kkeeps_bind; [auto|]. intros [|]; cbn [negb]; [|auto]. apply kkeeps_bind; [destruct (_ =? 0); auto|].
  intros [|]; cbn [negb]; [|auto]. destruct (_ =? 0); auto.
Qed.
Hint Resolve keeps_alloc_keypair : core.

Lemma unpack_loop_shaped fuel : forall buf rb kps w r w', Forall keypair_shaped kps -> (length kps <= PKR_MAX_KEYPAIRS)%nat ->
  unpack_loop sys junk fuel buf rb kps w = Some (r, w') ->
  ring w' = ring w /\ forall kps' rb', r = Unpacked kps' rb' -> Forall keypair_shaped kps' /\ (length kps' <= PKR_MAX_KEYPAIRS)%nat.
Proof.
  induction fuel as [|fuel IH]; intros buf rb kps w r w' Hk Hn Hw; cbn [unpack_loop] in Hw.
  { destruct (negb _); [|done]. unfold mret, KM_ret in Hw. injection Hw as <- <-. split; [done|]. by intros ? ? [= <- <-]. }
  assert (Hret : forall w1 rb1, ring w1 = ring w -> (mret (Unpacked kps rb1) : KM _) w1 = Some (r, w') ->
    ring w' = ring w /\ forall kps' rb', r = Unpacked kps' rb' -> Forall keypair_shaped kps' /\ (length kps' <= PKR_MAX_KEYPAIRS)%nat).
  { intros w1 rb1 Hr [= <- <-]. split; [done|]. by intros ? ? [= <- <-]. }
  assert (Hinv : forall w1, ring w1 = ring w -> (mret Invalid : KM _) w1 = Some (r, w') ->
    ring w' = ring w /\ forall kps' rb', r = Unpacked kps' rb' -> Forall keypair_shaped kps' /\ (length kps' <= PKR_MAX_KEYPAIRS)%nat).
  { intros w1 Hr [= <- <-]. by split. }
  destruct (negb _); [by apply (Hret w rb)|].
  destruct (Nat.leb_spec PKR_MAX_KEYPAIRS (length kps)) as [|Hlt]; [by apply (Hinv w)|].
  apply kbind_inv in Hw as ([c rb1] & w1 & E1 & Hw). apply lift_inv in E1 as [_ ->]. cbv zeta in Hw.
  destruct (negb _ || _) eqn:Ez; [by apply (Hret w rb1)|]. apply orb_false_iff in Ez as [_ Ez]. zify_bool.
  apply kbind_inv in Hw as ([len rb2] & w1 & E2 & Hw). apply lift_inv in E2 as [_ ->].
  destruct (negb _); [by apply (Hret w rb2)|].
  assert (Hpos : 0 < u8 c).
  { assert (0 <= u8 c) by (by apply Z.mod_pos_bound). lia. }
  match type of Hw with context [match ?m with Some _ => _ | None => _ end] => destruct m as [[kt unpack]|] eqn:Ek end;
    [|by apply (IH _ _ _ _ _ _ Hk Hn Hw)].
  assert (Hkt : keytypes junk !! Z.to_nat (u8 c) = Some kt /\ unpacker kt = Some unpack).
  { destruct (_ <? _); [|done]. destruct (keytypes junk !! _) as [kt'|]; [|done]. cbn [mbind option_bind] in Ek.
    destruct (unpacker kt') as [u|] eqn:Eu; [|done]. cbn in Ek. by injection Ek as -> ->. }
  apply kbind_inv in Hw as (ok & w1 & E3 & Hw). apply keeps_alloc_keypair in E3. destruct ok; cbn [negb] in Hw; [|by apply (Hinv w1)].
  apply kbind_inv in Hw as ([[[q d] e] rb3] & w2 & E4 & Hw). apply lift_inv in E4 as [E4 ->].
  destruct (negb _); [by apply (Hinv w1)|]. apply kbind_inv in Hw as (n & w2 & E5 & Hw). apply lift_inv in E5 as [_ ->].
  destruct (negb _); [by apply (Hinv w1)|]. apply kbind_inv in Hw as (kps2 & w2 & E6 & Hw). apply lift_inv in E6 as [E6 ->].
  destruct Hkt as [Hkt Hu]. pose proof (unpacked_shaped _ _ _ _ _ _ _ _ _ Hpos Hkt Hu E4) as Hkp.
  apply place_shaped in E6 as [P1 P2]; [|done|done].
  apply IH in Hw as [Hr Hs]; [|done|lia]. split; [congruence|done].
Qed.

Lemma unpack_shaped s pin w r w' : keyring_unpack_identity sys junk s pin w = Some (r, w') ->
  ring w' = ring w /\ forall id, r = Some id -> Forall keypair_shaped (keypairs id) /\ (length (keypairs id) <= PKR_MAX_KEYPAIRS)%nat.
Proof.
  intros Hw. unfold keyring_unpack_identity in Hw. apply kbind_inv in Hw as (ok & w1 & E & Hw). apply keeps_sys in E.
  destruct ok; cbn [negb] in Hw; [|unfold mret, KM_ret in Hw; injection Hw as <- <-; by split].
  apply kbind_inv in Hw as (p & w2 & E2 & Hw). apply keeps_edup in E2.
  do 2 (apply kbind_inv in Hw as (? & ? & E3 & Hw); apply lift_inv in E3 as [_ ->]). cbv zeta in Hw.
  apply kbind_inv in Hw as (rb & w3 & E3 & Hw). apply lift_inv in E3 as [_ ->]. apply kbind_inv in Hw as (u & w3 & E3 & Hw).
  apply unpack_loop_shaped in E3 as [Hr Hs]; [|constructor|cbn; unfold PKR_MAX_KEYPAIRS; lia]. unfold mret, KM_ret in Hw. injection Hw as <- <-.
  split; [congruence|]. intros id. destruct u as [|kps rb']; [done|]. destruct (_ <? _); [done|]. intros [= <-]. by apply (Hs kps rb').
Qed.

(** An identity is loaded into a slot that is marked as used; this is not one that was made since. *)
Lemma decrypt_inv cn pin t w r w' : ring_inv False (ring w) -> placed (bam (ring w)) t ->
  keyring_decrypt_pkr sys junk cn pin t w = Some (r, w') ->
  ring_inv False (ring w') /\ bam (ring w') = bam (ring w) /\ length (contexts (ring w')) = length (contexts (ring w)).
Proof.
  intros Hinv Hp Hw. unfold keyring_decrypt_pkr in Hw. apply kbind_inv in Hw as (k & w0 & [= <- <-] & Hw).
  assert (Hret : forall (x : Z) (w1 : kworld), ring w1 = ring w -> (mret x : KM _) w1 = Some (r, w') ->
    ring_inv False (ring w') /\ bam (ring w') = bam (ring w) /\ length (contexts (ring w')) = length (contexts (ring w))).
  { intros x w1 Hr [= <- <-]. rewrite Hr. by split. }
  apply kbind_inv in Hw as (c0 & w1 & E & Hw). apply lift_inv in E as [_ ->].
  apply kbind_inv in Hw as (c & w1 & E & Hw). apply lift_inv in E as [Hc ->].
  apply kbind_inv in Hw as (ok & w1 & E1 & Hw). apply keeps_sys in E1. destruct ok; cbn [negb] in Hw; [|eapply Hret; [|exact Hw]; congruence].
  apply kbind_inv in Hw as (blk & w2 & E2 & Hw). assert (R2 : ring w2 = ring w) by (unfold fread in E2; injection E2 as _ <-; done).
  destruct blk as [blk|]; [|eapply Hret; [|exact Hw]; congruence]. apply kbind_inv in Hw as (kr & w3 & E3 & Hw). apply lift_inv in E3 as [_ ->].
  destruct (keyring_munge_block _ _ _ _) as [err s]. destruct (negb _); [eapply Hret; [|exact Hw]; congruence|].
  apply kbind_inv in Hw as (u & w3 & E3 & Hw). apply unpack_shaped in E3 as [R3 Hsh]. rewrite R2 in R3.
  destruct u as [id|]; [|eapply Hret; [|exact Hw]; congruence]. destruct (Hsh id eq_refl) as [Hk Hn].
  destruct (Nat.ltb_spec (length (keypairs id)) 1) as [|Hne]; [eapply Hret; [|exact Hw]; congruence|]. cbv zeta in Hw.
  apply kbind_inv in Hw as (mac & w4 & E4 & Hw). apply lift_inv in E4 as [Hmac ->].
  destruct (negb _); [eapply Hret; [|exact Hw]; congruence|]. apply kbind_inv in Hw as (st & w4 & E4 & Hw). apply lift_inv in E4 as [_ ->].
  destruct (negb _); [eapply Hret; [|exact Hw]; congruence|]. apply kbind_inv in Hw as ([] & w4 & E4 & Hw).
  assert (R4 : ring w4 = ring w).
  { destruct (own_sid _); [|unfold mret, KM_ret in E4; congruence]. unfold add_own in E4. injection E4 as <-. done. }
  apply kbind_inv in Hw as ([] & w5 & E5 & Hw). unfold mret, KM_ret in Hw. injection Hw as _ <-.
  unfold add_identity in E5. apply kbind_inv in E5 as (k & w6 & [= <- <-] & E5). rewrite R4 in E5.
  apply kbind_inv in E5 as (c2 & w6 & E6 & E5). apply lift_inv in E6 as [E6 ->]. rewrite Hc in E6. injection E6 as <-.
  destruct (_ <=? _); [done|]. unfold put_ring in E5. injection E5 as <-. cbn [ring]. split; [|split; [done|apply length_insert]].
  pose proof Hinv as (b & bams & Hb & Ho & Hbl & Hok & _). unfold set_contexts. rewrite Hb in *.
  assert (Eb : b :: bams = mk_bam (file_offset b) (bitmap b) :: bams) by (by destruct b). rewrite Eb in Hok, Hp |- *.
  apply (ring_inv_insert False (ring w) cn c _ b bams (bitmap b) Hb Hinv Hc Hbl); [done| |done].
  apply Forall_app. split; [apply (Forall_lookup_1 _ _ _ _ Hok Hc)|]. constructor; [|constructor]. split; [|by split].
  split; [done|]. cbn [keypairs PKRPin]. split; [lia|]. unfold keyring_identity_mac in Hmac. cbn [PKRPin keypairs] in Hmac.
  destruct (head (keypairs id)); [|done]. cbn [mbind option_bind] in Hmac. destruct (PKRPin id); [done|by cbn in Hmac].
Qed.

Lemma enter_contexts_inv n pin t : forall cn w r w', ring_inv False (ring w) -> placed (bam (ring w)) t ->
  enter_contexts sys junk n cn pin t w = Some (r, w') -> ring_inv False (ring w').
Proof.
  induction n as [|n IH]; intros cn w r w' Hinv Hp Hw; cbn [enter_contexts] in Hw; [unfold mret, KM_ret in Hw; by injection Hw as _ <-|].
  apply kbind_inv in Hw as (x & w1 & E1 & Hw). apply decrypt_inv in E1 as (I1 & Hb & _); [|done|done].
  apply kbind_inv in Hw as (y & w2 & E2 & Hw). apply IH in E2; [|done|by rewrite Hb]. unfold mret, KM_ret in Hw. by injection Hw as _ <-.
Qed.

Lemma enter_slots_inv n pin : forall t w r w', 0 <= t -> ring_inv False (ring w) ->
  enter_slots sys junk n t pin w = Some (r, w') -> ring_inv False (ring w').
Proof.
  induction n as [|n IH]; intros t w r w' Ht Hinv Hw; cbn [enter_slots] in Hw; [unfold mret, KM_ret in Hw; by injection Hw as _ <-|].
  apply kbind_inv in Hw as (k & w0 & [= <- <-] & Hw). apply kbind_inv in Hw as (x & w1 & E1 & Hw).
  assert (I1 : ring_inv False (ring w1)).
  { destruct (Z.eqb_spec (Z.land t (KEYRING_BAM_BITS - 1)) 0) as [|Hne]; [unfold mret, KM_ret in E1; by injection E1 as _ <-|].
    destruct (find_bam _ _) as [b|] eqn:Ef; [|unfold mret, KM_ret in E1; by injection E1 as _ <-].
    apply kbind_inv in E1 as (used & w2 & E2 & E1). apply lift_inv in E2 as [Hbit ->].
    destruct used; [|unfold mret, KM_ret in E1; by injection E1 as _ <-]. apply enter_contexts_inv in E1; [done|done|].
    split; [|by exists b]. destruct (decide (t = 0)) as [->|]; [done|lia]. }
  apply kbind_inv in Hw as (y & w2 & E2 & Hw). apply IH in E2; [|lia|done]. unfold mret, KM_ret in Hw. by injection Hw as _ <-.
Qed.

Lemma enter_pin_inv pin w r w' : ring_inv False (ring w) -> keyring_enter_pin sys junk pin w = Some (r, w') -> ring_inv False (ring w').
Proof.
  intros Hinv Hw. unfold keyring_enter_pin in Hw. apply kbind_inv in Hw as (k & w0 & [= <- <-] & Hw). by apply enter_slots_inv in Hw.
Qed.

(** ** Runs *)

Inductive kop :=
| KeyringPinOp (pin : option (list Z))
| EnterPinOp (pin : option (list Z))
| CreateOp (cn : nat) (pin : option (list Z))
| SetDidOp (cn idn : nat) (did name : option (list Z))
| CommitOp
| SeedOp.

(** Nothing is loaded from the file, texts are bytes, and pins are not longer than 60000 bytes. *)
Definition kop_ok (op : kop) : Prop :=
  match op with
  | EnterPinOp _ => False
  | CreateOp _ pin => zlen (default [] pin) <= 60000
  | SetDidOp _ _ did name => are_bytes (default [] did) /\ are_bytes (default MR_SMITH name)
  | _ => True
  end.

Definition kstep (attempts : nat) (pkr : list Z) (op : kop) : KM Z :=
  match op with
  | KeyringPinOp pin => keyring_enter_keyringpin sys pin
  | EnterPinOp pin => keyring_enter_pin sys junk pin
  | CreateOp cn pin =>
      r ← keyring_create_identity sys entropy box_keypair sign_keypair junk attempts cn pin;
      mret (match r with Some _ => 0 | None => -1 end)
  | SetDidOp cn idn did name =>
      k ← get_ring;
      c ← klift (contexts k !! cn);
      id ← klift (identities c !! idn);
      '(r, id) ← keyring_set_did sys id did name;
      _ ← put_identity cn idn id;
      mret r
  | CommitOp => keyring_commit sys entropy junk pkr
  | SeedOp => keyring_seed sys entropy box_keypair sign_keypair junk attempts pkr
  end.
Fixpoint kruns (attempts : nat) (pkr : list Z) (ops : list kop) : KM () :=
  match ops with [] => mret () | op :: ops => _ ← kstep attempts pkr op; kruns attempts pkr ops end.

(** Naming an identity and putting it back. *)
Lemma named_inv D w w1 w2 cn idn c id id' u : ring_inv D (ring w) -> contexts (ring w) !! cn = Some c -> identities c !! idn = Some id ->
  shaped id' /\ slot id' = slot id /\ ring w1 = ring w -> (D -> made id') -> put_identity cn idn id' w1 = Some (u, w2) -> ring_inv D (ring w2).
Proof.
  intros Hinv Hcn Hid (Hsh & Hs & Hr) Hm Hp. unfold put_identity in Hp. apply kbind_inv in Hp as (k & w3 & [= <- <-] & Hp).
  apply kbind_inv in Hp as (c' & w3 & E & Hp). apply lift_inv in E as [E ->]. rewrite Hr, Hcn in E. injection E as <-.
  unfold put_ring in Hp. injection Hp as _ <-. cbn [ring]. rewrite Hr. by apply (put_identity_inv D _ _ _ _ id).
Qed.

Lemma in_place_at D k cn c idn id : ring_inv D k -> contexts k !! cn = Some c -> identities c !! idn = Some id -> shaped id /\ (D -> made id).
Proof.
  intros (b & bams & _ & _ & _ & Hok & _) Hcn Hid. destruct (Forall_lookup_1 _ _ _ _ (Forall_lookup_1 _ _ _ _ Hok Hcn) Hid) as (H1 & _ & H2).
  split; [done|]. intros HD. by apply H2.
Qed.

Lemma seed_digits_bytes d : are_bytes (seed_digits d).
Proof.
  destruct d as [|x d]; [by constructor|]. cbn [seed_digits]. constructor.
  - pose proof (Z.mod_pos_bound x 8). unfold is_byte. lia.
  - apply Forall_fmap. apply Forall_forall. intros y _. cbn. pose proof (Z.mod_pos_bound y 10). unfold is_byte. lia.
Qed.

Lemma seed_inv D attempts pkr w r w' : ring_inv D (ring w) ->
  keyring_seed sys entropy box_keypair sign_keypair junk attempts pkr w = Some (r, w') -> ring_inv D (ring w').
Proof.
  intros Hinv Hw. unfold keyring_seed in Hw. apply kbind_inv in Hw as (k & w0 & [= <- <-] & Hw).
  apply kbind_inv in Hw as (c0 & w1 & E & Hw). apply lift_inv in E as [Hc0 ->].
  destruct (negb _); [unfold mret, KM_ret in Hw; by injection Hw as _ <-|].
  apply kbind_inv in Hw as (rnd & w2 & E2 & Hw). apply (keeps_urandom sys entropy ring ring_tick) in E2. cbv zeta in Hw.
  apply kbind_inv in Hw as (i & w3 & E3 & Hw). apply (create_inv D) in E3 as [E3 _]; [|by rewrite E2|cbn; lia].
  destruct i as [i|]; [|unfold mret, KM_ret in Hw; by injection Hw as _ <-]. apply kbind_inv in Hw as (k & w4 & [= <- <-] & Hw).
  apply kbind_inv in Hw as (c & w4 & E4 & Hw). apply lift_inv in E4 as [Hcn ->]. apply kbind_inv in Hw as (id & w4 & E4 & Hw). apply lift_inv in E4 as [Hid ->].
  apply kbind_inv in Hw as ([q id'] & w5 & E5 & Hw).
  destruct (in_place_at _ _ _ _ _ _ E3 Hcn Hid) as [Hsh Hmade].
  assert (Hm5 : D -> made id') by (intros HD; apply set_did_made in E5; [apply E5|by apply Hmade|apply seed_digits_bytes|by constructor]).
  apply set_did_shaped in E5; [|done].
  destruct (negb _); [unfold mret, KM_ret in Hw; injection Hw as _ <-; destruct E5 as (_ & _ & ->); done|].
  apply kbind_inv in Hw as (u & w6 & E6 & Hw). pose proof (named_inv _ _ _ _ _ _ _ _ _ _ E3 Hcn Hid E5 Hm5 E6) as H6.
  apply kbind_inv in Hw as (e & w7 & E7 & Hw). apply keeps_commit in E7. destruct (negb _); unfold mret, KM_ret in Hw; injection Hw as _ <-; by rewrite E7.
Qed.

Lemma kstep_inv (D : Prop) attempts pkr op w r w' : (D -> kop_ok op) -> (D \/ D = False) -> ring_inv D (ring w) ->
  kstep attempts pkr op w = Some (r, w') -> ring_inv D (ring w').
Proof.
  intros Hop HD Hinv Hw. destruct op as [pin|pin|cn pin|cn idn did name| |]; cbn [kstep kop_ok] in *.
  - by apply (keyringpin_inv D) in Hw.
  - destruct HD as [HD| ->]; [by destruct (Hop HD)|]. by apply enter_pin_inv in Hw.
  - apply kbind_inv in Hw as (x & w1 & E & Hw). apply (create_inv D) in E as [E _]; [|done|done]. unfold mret, KM_ret in Hw. by injection Hw as _ <-.
  - apply kbind_inv in Hw as (k & w0 & [= <- <-] & Hw).
    apply kbind_inv in Hw as (c & w1 & E & Hw). apply lift_inv in E as [Hcn ->]. apply kbind_inv in Hw as (id & w1 & E & Hw). apply lift_inv in E as [Hid ->].
    apply kbind_inv in Hw as ([q id'] & w1 & E & Hw). destruct (in_place_at _ _ _ _ _ _ Hinv Hcn Hid) as [Hsh Hmade].
    assert (Hm : D -> made id') by (intros HD'; destruct (Hop HD') as [Hd Hn]; apply set_did_made in E; [apply E|by apply Hmade|done|done]).
    apply set_did_shaped in E; [|done].
    apply kbind_inv in Hw as (u & w2 & E2 & Hw). unfold mret, KM_ret in Hw. injection Hw as _ <-. by apply (named_inv _ _ _ _ _ _ _ _ _ _ Hinv Hcn Hid E Hm E2).
  - apply keeps_commit in Hw. by rewrite Hw.
  - by apply (seed_inv D) in Hw.
Qed.

Lemma kruns_inv (D : Prop) attempts pkr ops : (D \/ D = False) -> (D -> Forall kop_ok ops) -> forall w u w', ring_inv D (ring w) ->
  kruns attempts pkr ops w = Some (u, w') -> ring_inv D (ring w').
Proof.
  intros HD. induction ops as [|op ops IH]; intros Hops w u w' Hinv Hw; cbn [kruns] in Hw; [unfold mret, KM_ret in Hw; by injection Hw as _ <-|].
  apply kbind_inv in Hw as (r & w1 & E & Hw). apply (kstep_inv D) in E; [|intros HD'; by apply Forall_cons in Hops as [? _]|done|done].
  eapply IH; [|exact E|exact Hw]. intros HD'. by apply Forall_cons in Hops as [_ ?].
Qed.
End inv.

(** [C20] From opening a keyring on, whatever calls fail, and whatever keyring pins and pins are entered, identities
    created, named and seeded and commits made in between: every identity, also one that was loaded from a file with any
    contents, has a pin and 1 to 64 key pairs whose keys have the lengths of their types, in a slot that the bitmap of its
    slab marks as used; and a new identity gets a slot that no identity in memory has. Until a pin is entered, which may
    load an identity that is in memory already, each identity is also in a slot of its own and its key pairs are well
    formed and in order, which is what committing and unlocking rely on; that part takes pins of at most 60000 bytes and
    texts of bytes. The key pairs that NaCl makes have their lengths. *)
Theorem keyring_invariant `{NaCl} `{KeyringNaCl} sys entropy box_keypair sign_keypair junk attempts pkr ops w w1 u w2 :
  (forall i n, length (entropy i n) = n) -> (forall i n, are_bytes (entropy i n)) ->
  (forall i, length (box_keypair i).2 = 32%nat /\ are_bytes (box_keypair i).2 /\ (box_keypair i).1 = scalarmult_base (box_keypair i).2) ->
  (forall i, length (sign_keypair i).2 = 64%nat /\ length (sign_keypair i).1 = 32%nat /\ are_bytes (sign_keypair i).2 /\ are_bytes (sign_keypair i).1) ->
  are_bytes junk -> (32 <= length junk)%nat ->
  keyring_open sys entropy w = Some (true, w1) ->
  kruns sys entropy box_keypair sign_keypair junk attempts pkr ops w1 = Some (u, w2) ->
  ring_inv False (ring w2) /\
  (forall cn pin r w3, keyring_create_identity sys entropy box_keypair sign_keypair junk attempts cn pin w2 = Some (r, w3) ->
     made_apart cn (ring w2) r (ring w3)) /\
  (Forall kop_ok ops -> ring_inv True (ring w2) /\ keyring_ok (ring w2)).
Proof.
  intros Hel Heb Hbox Hsign Hj Hjl Ho Hr.
  assert (H1 : forall D, ring_inv D (ring w1)) by (intros D; eapply open_inv; eauto).
  pose proof (fun D HD Hops => kruns_inv sys entropy box_keypair sign_keypair junk Hel Heb Hbox Hsign Hj Hjl D attempts pkr ops HD Hops _ _ _ (H1 D) Hr) as Hrun.
  assert (Hi : ring_inv False (ring w2)) by (apply Hrun; [by right|done]).
  split; [done|]. split.
  - intros cn pin r w3 Hc. apply (create_inv sys entropy box_keypair sign_keypair junk Hel Heb Hbox Hsign Hj Hjl False) in Hc; [apply Hc|done|done].
  - intros Hops. assert (Ht : ring_inv True (ring w2)) by (apply Hrun; [by left|done]).
    split; [done|by apply ring_inv_ok].
Qed.

(** A new file: it is seeded, gets a second identity that is named, and is committed. *)
Lemma keyring_invariant_witness :
  exists w1 u w2,
    keyring_open (fun _ => true) (fun i n => replicate n (Z.of_nat i mod 256)) (mk_kworld 0 [] (mk_keyring [] [] 0) []) = Some (true, w1) /\
    kruns (fun _ => true) (fun i n => replicate n (Z.of_nat i mod 256)) (fun _ => (replicate 32 17, replicate 32 17))
      (fun _ => (replicate 32 5, replicate 64 6)) (replicate 32 0) 1 (replicate (Z.to_nat KEYRING_PAGE_SIZE) 0)
      [SeedOp; CreateOp 0 (Some [49]); SetDidOp 0 1 (Some [53; 53]) None; CommitOp] w1 = Some (u, w2) /\
    slots (contexts (ring w2)) = [1; 2] /\ ring_inv True (ring w2) /\ keyring_ok (ring w2).
Proof.
  set (entropy := fun i n => replicate n (Z.of_nat i mod 256)).
  assert (Hb : forall i n, are_bytes (entropy i n)).
  { intros i n. apply Forall_replicate. unfold is_byte. apply Z.mod_pos_bound. lia. }
  set (run := fun w1 => kruns (fun _ => true) entropy (fun _ => (replicate 32 17, replicate 32 17))
      (fun _ => (replicate 32 5, replicate 64 6)) (replicate 32 0) 1 (replicate (Z.to_nat KEYRING_PAGE_SIZE) 0)
      [SeedOp; CreateOp 0 (Some [49]); SetDidOp 0 1 (Some [53; 53]) None; CommitOp] w1).
  set (w := mk_kworld 0 [] (mk_keyring [] [] 0) []).
  assert (H0 : match keyring_open (fun _ => true) entropy w with
               | Some (true, w1) => match run w1 with Some (_, w2) => slots (contexts (ring w2)) = [1; 2] | None => False end
               | _ => False end) by (vm_compute; reflexivity).
  destruct (keyring_open (fun _ => true) entropy w) as [[[] w1]|] eqn:Eo; try contradiction.
  destruct (run w1) as [[u w2]|] eqn:Er; [|contradiction]. exists w1, u, w2. split; [reflexivity|]. split; [exact Er|]. split; [exact H0|].
  apply (keyring_invariant (fun _ => true) entropy (fun _ => (replicate 32 17, replicate 32 17)) (fun _ => (replicate 32 5, replicate 64 6))
           (replicate 32 0) 1 (replicate (Z.to_nat KEYRING_PAGE_SIZE) 0)
           [SeedOp; CreateOp 0 (Some [49]); SetDidOp 0 1 (Some [53; 53]) None; CommitOp] w w1 u w2).
  - intros i n. apply length_replicate.
  - exact Hb.
  - intros i. split; [reflexivity|]. split; [|reflexivity]. apply Forall_replicate. unfold is_byte. lia.
  - intros i. split; [reflexivity|]. split; [reflexivity|]. split; apply Forall_replicate; unfold is_byte; lia.
  - apply Forall_replicate. unfold is_byte. lia.
  - rewrite length_replicate. lia.
  - exact Eo.
  - exact Er.
  - constructor; [exact I|]. constructor; [discriminate|]. constructor; [|constructor; [exact I|constructor]].
    split; vm_compute; repeat (constructor; [split; [discriminate|reflexivity]|]); constructor.
Defined.

(** After a commit the empty pin, entered again, loads the first identity a second time; a new one goes elsewhere. *)
Example pin_entered_twice :
  ('(ok, w1) ← keyring_open (fun _ => true) (fun i n => replicate n (Z.of_nat i mod 256)) (mk_kworld 0 [] (mk_keyring [] [] 12288) []);
   '(_, w2) ← kruns (fun _ => true) (fun i n => replicate n (Z.of_nat i mod 256)) (fun _ => (replicate 32 17, replicate 32 17))
      (fun _ => (replicate 32 5, replicate 64 6)) (replicate 32 0) 1 (replicate (Z.to_nat KEYRING_PAGE_SIZE) 0)
      [SeedOp] w1;
   '(_, w3) ← keyring_open (fun _ => true) (fun i n => replicate n (Z.of_nat i mod 256)) w2;
   '(_, w4) ← kruns (fun _ => true) (fun i n => replicate n (Z.of_nat i mod 256)) (fun _ => (replicate 32 17, replicate 32 17))
      (fun _ => (replicate 32 5, replicate 64 6)) (replicate 32 0) 1 (replicate (Z.to_nat KEYRING_PAGE_SIZE) 0)
      [EnterPinOp None; EnterPinOp (Some []); CreateOp 0 None] w3;
   Some (slots (contexts (ring w4)))) = Some [1; 1; 2].
Proof. vm_compute. reflexivity. Qed.
