(* ===== verification/KeyringFind.v ===== *)
(** KeyringFind: looking for keys in a keyring, and the cache of what NaCl computes from two keys. *)

From S2P Require Import Prelude Str Crypto RotBuf Keyring KeyringFile.

(** ** The key pairs in order, with their positions *)

Fixpoint kp_positions (cn idn j : nat) (kps : list keypair) : list (position * keypair) :=
  match kps with [] => [] | kp :: kps => (mk_pos cn idn j, kp) :: kp_positions cn idn (S j) kps end.
Fixpoint id_positions (cn i : nat) (ids : list keyring_identity) : list (position * keypair) :=
  match ids with [] => [] | id :: ids => kp_positions cn i 0 (keypairs id) ++ id_positions cn (S i) ids end.
Fixpoint ctx_positions (n : nat) (cs : list keyring_context) : list (position * keypair) :=
  match cs with [] => [] | c :: cs => id_positions n 0 (identities c) ++ ctx_positions (S n) cs end.

(** Every context has an identity, and every identity a key pair. *)
Definition full (k : keyring_file) : Prop :=
  contexts k <> [] /\ Forall (fun c => identities c <> [] /\ Forall (fun id => keypairs id <> []) (identities c)) (contexts k).

(** The positions from [p] on. *)
Definition remaining (k : keyring_file) (p : position) : list (position * keypair) :=
  match contexts k !! cn p with
  | None => []
  | Some c =>
      match identities c !! idn p with
      | None => []
      | Some id => kp_positions (cn p) (idn p) (kpn p) (drop (kpn p) (keypairs id)) ++
                   id_positions (cn p) (S (idn p)) (drop (S (idn p)) (identities c)) ++
                   ctx_positions (S (cn p)) (drop (S (cn p)) (contexts k))
      end
  end.

Definition valid (k : keyring_file) (p : position) : Prop :=
  exists c id, contexts k !! cn p = Some c /\ identities c !! idn p = Some id /\ (kpn p <= length (keypairs id))%nat.

Lemma drop_lookup {A} (l : list A) i x : l !! i = Some x -> drop i l = x :: drop (S i) l.
Proof. apply drop_S. Qed.

(** The first position of an identity, and of a context. *)
Lemma remaining_start k cn idn c id : contexts k !! cn = Some c -> identities c !! idn = Some id ->
  remaining k (mk_pos cn idn 0) = id_positions cn idn (drop idn (identities c)) ++ ctx_positions (S cn) (drop (S cn) (contexts k)).
Proof.
  intros Hc Hi. unfold remaining. cbn [KeyringFile.cn KeyringFile.idn kpn]. rewrite Hc, Hi. rewrite (drop_lookup _ _ _ Hi), drop_0.
  cbn [id_positions]. by rewrite <- app_assoc.
Qed.
Lemma remaining_context k cn c : contexts k !! cn = Some c -> identities c <> [] ->
  remaining k (mk_pos cn 0 0) = ctx_positions cn (drop cn (contexts k)).
Proof.
  intros Hc Hne. destruct (identities c) as [|id ids] eqn:E; [done|]. rewrite (remaining_start k cn 0 c id) by (done || by rewrite E).
  rewrite (drop_lookup _ _ _ Hc). cbn [ctx_positions]. by rewrite drop_0.
Qed.

(** A position with a key pair. *)
Lemma remaining_cons k cn idn kpn c id kp : contexts k !! cn = Some c -> identities c !! idn = Some id -> keypairs id !! kpn = Some kp ->
  remaining k (mk_pos cn idn kpn) = (mk_pos cn idn kpn, kp) :: remaining k (mk_pos cn idn (S kpn)).
Proof.
  intros Hc Hi Hk. unfold remaining. cbn [KeyringFile.cn KeyringFile.idn KeyringFile.kpn]. rewrite Hc, Hi. by rewrite (drop_lookup _ _ _ Hk).
Qed.

(** Where a position points after sanitising: to the first of the positions that remain. *)
Definition points (k : keyring_file) (l : list (position * keypair)) (r : option (bool * position)) : Prop :=
  match l with
  | [] => exists q, r = Some (true, q)
  | (p, kp) :: rest => r = Some (false, p) /\ keypair_at k p = Some kp /\ remaining k (next_pos p) = rest /\ valid k (next_pos p)
  end.

Lemma points_at k cn idn kpn c id kp : contexts k !! cn = Some c -> identities c !! idn = Some id -> keypairs id !! kpn = Some kp ->
  points k (remaining k (mk_pos cn idn kpn)) (Some (false, mk_pos cn idn kpn)).
Proof.
  intros Hc Hi Hk. rewrite (remaining_cons k cn idn kpn c id kp Hc Hi Hk). split; [done|]. split; [|split; [done|]].
  - unfold keypair_at. cbn. rewrite Hc. cbn. rewrite Hi. done.
  - exists c, id. split; [done|]. split; [done|]. apply lookup_lt_Some in Hk. cbn. lia.
Qed.

Lemma sanitise_spec k p : full k -> valid k p -> points k (remaining k p) (keyring_sanitise_position k p).
Proof.
  intros [_ Hfull] (c & id & Hc & Hi & Hk). destruct p as [cn idn kpn]. cbn [KeyringFile.cn KeyringFile.idn KeyringFile.kpn] in *.
  pose proof (lookup_lt_Some _ _ _ Hc) as Hlc. pose proof (lookup_lt_Some _ _ _ Hi) as Hli.
  unfold keyring_sanitise_position. cbn [KeyringFile.cn KeyringFile.idn KeyringFile.kpn].
  rewrite (proj2 (Nat.leb_gt _ _) Hlc), Hc. cbn [mbind option_bind]. rewrite (proj2 (Nat.leb_gt _ _) Hli).
  cbn [KeyringFile.cn KeyringFile.idn KeyringFile.kpn]. rewrite (proj2 (Nat.leb_gt _ _) Hlc), Hc. cbn [mbind option_bind]. rewrite Hi. cbn [mbind option_bind].
  pose proof (Forall_lookup_1 _ _ _ _ Hfull Hc) as [_ Hids].
  destruct (Nat.leb_spec (length (keypairs id)) kpn) as [Hge|Hlt].
  2: { destruct (lookup_lt_is_Some_2 _ _ Hlt) as [kp Hkp]. by apply (points_at k cn idn kpn c id kp). }
  assert (Hrem : remaining k (mk_pos cn idn kpn) = id_positions cn (S idn) (drop (S idn) (identities c)) ++ ctx_positions (S cn) (drop (S cn) (contexts k))).
  { unfold remaining. cbn [KeyringFile.cn KeyringFile.idn KeyringFile.kpn]. rewrite Hc, Hi, (drop_ge (keypairs id)) by lia. done. }
  destruct (Nat.leb_spec (length (identities c)) (S idn)) as [Hlast|Hmore].
  - rewrite Hrem, (drop_ge (identities c)) by lia. cbn [id_positions app].
    destruct (Nat.leb_spec (length (contexts k)) (S cn)) as [Hend|Hnext].
    + rewrite drop_ge by lia. cbn. by eexists.
    + destruct (lookup_lt_is_Some_2 _ _ Hnext) as [c' Hc']. pose proof (Forall_lookup_1 _ _ _ _ Hfull Hc') as [Hne Hids'].
      rewrite <- (remaining_context k (S cn) c' Hc' Hne). destruct (identities c') as [|id' ids'] eqn:Ei; [done|]. apply Forall_cons in Hids' as [Hkne _].
      destruct (keypairs id') as [|kp' kps'] eqn:Ek; [done|]. apply (points_at k (S cn) 0 0 c' id' kp'); [done|by rewrite Ei|by rewrite Ek].
  - destruct (lookup_lt_is_Some_2 _ _ Hmore) as [id' Hi']. rewrite Hrem, <- (remaining_start k cn (S idn) c id' Hc Hi').
    pose proof (Forall_lookup_1 _ _ _ _ Hids Hi') as Hkne. destruct (keypairs id') as [|kp' kps'] eqn:Ek; [done|].
    apply (points_at k cn (S idn) 0 c id' kp'); [done|done|by rewrite Ek].
Qed.

(** ** Looking *)

(** The first of the positions whose key pair passes. *)
Fixpoint first_passing (test : keypair -> bool) (l : list (position * keypair)) : option (position * keypair) :=
  match l with [] => None | (p, kp) :: l => if test kp then Some (p, kp) else first_passing test l end.

Definition found_as (r : option (bool * position)) (o : option (position * keypair)) : Prop :=
  match o with
  | Some (p, _) => r = Some (true, p)
  | None => exists q, r = Some (false, q)
  end.

Lemma find_from_spec k (test : keypair -> option bool) (b : keypair -> bool) : full k -> forall l fuel p,
  (forall q kp, (q, kp) ∈ l -> test kp = Some (b kp)) -> valid k p -> remaining k p = l -> (length l < fuel)%nat ->
  found_as (find_from fuel k test p) (first_passing b l).
Proof.
  intros Hfull l. induction l as [|[q kp] l IH]; intros fuel p Ht Hv Hr Hf; (destruct fuel as [|fuel]; [lia|]);
    pose proof (sanitise_spec k p Hfull Hv) as Hp; rewrite Hr in Hp; cbn [points] in Hp; cbn [find_from].
  - destruct Hp as [q ->]. cbn. by eexists.
  - destruct Hp as (-> & Hat & Hrest & Hv'). cbn [mbind option_bind]. rewrite Hat. cbn [mbind option_bind].
    rewrite (Ht q kp) by left. cbn [mbind option_bind first_passing]. destruct (b kp); [done|].
    apply IH; [|done|done|simpl in Hf; lia]. intros q' kp' Hin. apply (Ht q'). by right.
Qed.

Lemma kp_positions_length cn idn kps : forall j, length (kp_positions cn idn j kps) = length kps.
Proof. induction kps as [|kp kps IH]; intros j; [done|]. cbn. by rewrite IH. Qed.
Lemma id_positions_length cn ids : forall i,
  (length (id_positions cn i ids) <= list_sum (map (fun id => S (length (keypairs id))) ids))%nat.
Proof.
  induction ids as [|id ids IH]; intros i; [done|]. cbn [id_positions map]. rewrite length_app, kp_positions_length. specialize (IH (S i)).
  cbn [list_sum fold_right]. unfold list_sum in IH. lia.
Qed.
Lemma ctx_positions_length cs : forall n, (length (ctx_positions n cs) <=
  list_sum (map (fun c => S (list_sum (map (fun id => S (length (keypairs id))) (identities c)))) cs))%nat.
Proof.
  induction cs as [|c cs IH]; intros n; [done|]. cbn [ctx_positions map]. rewrite length_app. specialize (IH (S n)).
  pose proof (id_positions_length n (identities c) 0) as Hi. cbn [list_sum fold_right]. unfold list_sum in *. lia.
Qed.

Lemma memcmp_eq a : forall b, length a = length b -> (memcmp a b =? 0) = bool_decide (a = b).
Proof.
  induction a as [|x a IH]; intros [|y b] Hl; try done. cbn [memcmp].
  destruct (Z.ltb_spec x y); [symmetry; apply bool_decide_eq_false; intros [= -> _]; lia|].
  destruct (Z.ltb_spec y x); [symmetry; apply bool_decide_eq_false; intros [= -> _]; lia|].
  rewrite IH by (simpl in Hl; lia). apply bool_decide_ext. assert (x = y) as -> by lia. split; [by intros ->|by intros [= ->]].
Qed.

(** Keys for boxes have the length of identifiers. *)
Definition box_keys_ok (k : keyring_file) : Prop :=
  forall p kp, (p, kp) ∈ ctx_positions 0 (contexts k) -> kp_type kp = KEYTYPE_CRYPTOBOX -> length (public_key kp) = 32%nat.

Definition is_sid (sid : list Z) (kp : keypair) : bool := (kp_type kp =? KEYTYPE_CRYPTOBOX) && bool_decide (public_key kp = sid).

Lemma find_first k (test : keypair -> option bool) b : full k ->
  (forall q kp, (q, kp) ∈ ctx_positions 0 (contexts k) -> test kp = Some (b kp)) ->
  found_as (find_from (find_fuel k) k test (mk_pos 0 0 0)) (first_passing b (ctx_positions 0 (contexts k))).
Proof.
  intros Hfull Ht. pose proof Hfull as [Hne Hall]. destruct (contexts k) as [|c cs] eqn:Ec; [done|]. apply Forall_cons in Hall as [[Hi _] _].
  apply find_from_spec; [done|done|..].
  - destruct (identities c) as [|id ids] eqn:Ei; [done|]. exists c, id. cbn. rewrite Ec, Ei. split; [done|]. split; [done|lia].
  - rewrite (remaining_context k 0 c) by (done || by rewrite Ec). by rewrite Ec, drop_0.
  - unfold find_fuel. rewrite Ec. pose proof (ctx_positions_length (c :: cs) 0). lia.
Qed.

Lemma find_sid_first k sid : full k -> box_keys_ok k -> length sid = 32%nat ->
  found_as (keyring_find_sid k (mk_pos 0 0 0) sid) (first_passing (is_sid sid) (ctx_positions 0 (contexts k))).
Proof.
  intros Hfull Hbox Hs. apply find_first; [done|]. intros q kp Hin. unfold is_sid.
  destruct (Z.eqb_spec (kp_type kp) KEYTYPE_CRYPTOBOX) as [E|]; [|done]. pose proof (Hbox q kp Hin E) as Hl.
  replace 32 with (zlen sid) by lia. rewrite zslice_all. replace (zlen sid) with (zlen (public_key kp)) by lia. rewrite zslice_all.
  cbn [mbind option_bind andb]. rewrite memcmp_eq by lia. f_equal. by apply bool_decide_ext.
Qed.

(** Looking for a subscriber in a keyring all of whose contexts and identities have something in them always ends, and finds
    the first key pair for boxes with that public key, in the order of contexts, identities and key pairs, or nothing if there is none. *)
Theorem find_sid_correct k sid :
  full k -> box_keys_ok k -> length sid = 32%nat ->
  found_as (keyring_find_sid k (mk_pos 0 0 0) sid) (first_passing (is_sid sid) (ctx_positions 0 (contexts k))).
Proof. apply find_sid_first. Qed.

Lemma find_sid_correct_witness :
  let id := mk_identity (Some []) 1 [mk_keypair KEYTYPE_CRYPTOBOX (replicate 32 1) (replicate 32 2); mk_keypair KEYTYPE_RHIZOME (replicate 32 3) []] in
  let id2 := mk_identity (Some []) 2 [mk_keypair KEYTYPE_CRYPTOBOX (replicate 32 4) (replicate 32 5)] in
  let k := mk_keyring [] [mk_context (Some []) [] [id]; mk_context (Some [49]) [] [id2]] 4096 in
  keyring_find_sid k (mk_pos 0 0 0) (replicate 32 5) = Some (true, mk_pos 1 0 0).
Proof.
  intros id id2 k. apply (find_sid_correct k (replicate 32 5)).
  - split; [discriminate|]. repeat constructor; discriminate.
  - intros p kp Hin Ht. apply list_elem_of_In in Hin. cbn in Hin.
    destruct Hin as [E|[E|[E|[]]]]; injection E as <- <-; [reflexivity|discriminate|reflexivity].
  - reflexivity.
Defined.

(** A context without identities after one that has some is dereferenced: with a pin of the keyring that unlocks nothing, a
    search that reaches it is undefined. *)
Lemma empty_context_undefined :
  let id := mk_identity (Some []) 1 [mk_keypair KEYTYPE_CRYPTOBOX (replicate 32 1) (replicate 32 2)] in
  keyring_find_sid (mk_keyring [] [mk_context (Some []) [] [id]; mk_context (Some [49]) [] []] 4096) (mk_pos 0 0 0) (replicate 32 5) = None.
Proof. reflexivity. Qed.

(** Without pins of the keyring there is one context, and the search is defined. *)
Lemma single_context_defined :
  let id := mk_identity (Some []) 1 [mk_keypair KEYTYPE_CRYPTOBOX (replicate 32 1) (replicate 32 2)] in
  keyring_find_sid (mk_keyring [] [mk_context (Some []) [] [id]] 4096) (mk_pos 0 0 0) (replicate 32 5) = Some (false, mk_pos 1 0 0).
Proof. reflexivity. Qed.

(** ** What NaCl computes from two keys *)

Record nm_record := mk_nm { known_key : list Z; unknown_key : list Z; nm_bytes : list Z }.
Definition NM_CACHE_SLOTS : nat := 512.

Fixpoint nm_lookup (cache : list nm_record) (known unknown : list Z) : option nm_record :=
  match cache with
  | [] => None
  | r :: cache =>
      if negb (memcmp (known_key r) known =? 0) then nm_lookup cache known unknown
      else if negb (memcmp (unknown_key r) unknown =? 0) then nm_lookup cache known unknown
      else Some r
  end.

(** The bytes, or NULL, and the cache; [rnd] is what random() returns. *)
Definition keyring_get_nm_bytes (beforenm : list Z -> list Z -> list Z) (k : keyring_file) (rnd : nat) (cache : list nm_record)
    (known unknown : list Z) : option (option (list Z) * list nm_record) :=
  match nm_lookup cache known unknown with
  | Some r => Some (Some (nm_bytes r), cache)
  | None =>
      '(found, p) ← keyring_find_sid k (mk_pos 0 0 0) known;
      if negb found then Some (None, cache)
      else
        kp ← keypair_at k p;
        let r := mk_nm known unknown (beforenm unknown (private_key kp)) in
        Some (Some (nm_bytes r),
              if (length cache <? NM_CACHE_SLOTS)%nat then cache ++ [r] else <[(rnd mod NM_CACHE_SLOTS)%nat := r]> cache)
  end.

Section cache.
Context (beforenm : list Z -> list Z -> list Z) (k : keyring_file).
Hypothesis Hfull : full k.
Hypothesis Hbox : box_keys_ok k.

(** The bytes are those of a key of the keyring. *)
Definition nm_of (known unknown nm : list Z) : Prop :=
  exists p kp, (p, kp) ∈ ctx_positions 0 (contexts k) /\ is_sid known kp = true /\ nm = beforenm unknown (private_key kp).

Definition record_ok (r : nm_record) : Prop :=
  length (known_key r) = 32%nat /\ length (unknown_key r) = 32%nat /\ nm_of (known_key r) (unknown_key r) (nm_bytes r).
Definition cache_ok (cache : list nm_record) : Prop := (length cache <= NM_CACHE_SLOTS)%nat /\ Forall record_ok cache.

Lemma nm_lookup_spec cache known unknown r : length known = 32%nat -> length unknown = 32%nat -> Forall record_ok cache ->
  nm_lookup cache known unknown = Some r -> nm_of known unknown (nm_bytes r).
Proof.
  intros Hk Hu. induction 1 as [|x cache (H1 & H2 & H3) _ IH]; [done|]. cbn [nm_lookup].
  rewrite !memcmp_eq by lia. case_bool_decide as E1; cbn [negb]; [|done]. case_bool_decide as E2; cbn [negb]; [|done].
  intros [= ->]. by rewrite E1, E2 in H3.
Qed.

Lemma first_passing_in b l p kp : first_passing b l = Some (p, kp) -> (p, kp) ∈ l /\ b kp = true.
Proof.
  induction l as [|[q x] l IH]; [done|]. cbn. destruct (b x) eqn:E; [intros [= -> ->]; split; [left|done]|].
  intros [H1 H2]%IH. split; [by right|done].
Qed.

Lemma positions_at : forall p kp, (p, kp) ∈ ctx_positions 0 (contexts k) -> keypair_at k p = Some kp.
Proof.
  assert (Hkps : forall cn idn j kps p kp, (p, kp) ∈ kp_positions cn idn j kps ->
    KeyringFile.cn p = cn /\ KeyringFile.idn p = idn /\ (j <= kpn p)%nat /\ kps !! (kpn p - j)%nat = Some kp).
  { intros cn idn j kps. revert j. induction kps as [|x kps IH]; intros j p kp Hin; [by apply elem_of_nil in Hin|].
    cbn [kp_positions] in Hin. apply elem_of_cons in Hin as [[= -> ->]|Hin].
    - cbn. rewrite Nat.sub_diag. split_and!; done || lia.
    - apply IH in Hin as (A & B & C & D). split_and!; try done; [lia|]. replace (kpn p - j)%nat with (S (kpn p - S j)) by lia. done. }
  assert (Hids : forall cn i ids p kp, (p, kp) ∈ id_positions cn i ids ->
    KeyringFile.cn p = cn /\ (i <= KeyringFile.idn p)%nat /\ exists id, ids !! (KeyringFile.idn p - i)%nat = Some id /\ keypairs id !! kpn p = Some kp).
  { intros cn i ids. revert i. induction ids as [|x ids IH]; intros i p kp Hin; [by apply elem_of_nil in Hin|].
    cbn [id_positions] in Hin. apply elem_of_app in Hin as [Hin|Hin].
    - apply Hkps in Hin as (A & B & _ & D). rewrite B, Nat.sub_diag. split; [done|]. split; [lia|]. exists x. split; [done|]. by rewrite Nat.sub_0_r in D.
    - apply IH in Hin as (A & B & id & D & E). split; [done|]. split; [lia|]. exists id. split; [|done].
      by replace (KeyringFile.idn p - i)%nat with (S (KeyringFile.idn p - S i)) by lia. }
  assert (Hcs : forall n cs p kp, (p, kp) ∈ ctx_positions n cs ->
    (n <= KeyringFile.cn p)%nat /\ exists c id, cs !! (KeyringFile.cn p - n)%nat = Some c /\ identities c !! KeyringFile.idn p = Some id /\ keypairs id !! kpn p = Some kp).
  { intros n cs. revert n. induction cs as [|x cs IH]; intros n p kp Hin; [by apply elem_of_nil in Hin|].
    cbn [ctx_positions] in Hin. apply elem_of_app in Hin as [Hin|Hin].
    - apply Hids in Hin as (A & _ & id & D & E). rewrite A, Nat.sub_diag. split; [lia|]. exists x, id. rewrite Nat.sub_0_r in D. done.
    - apply IH in Hin as (A & c & id & D & E). split; [lia|]. exists c, id.
      by replace (KeyringFile.cn p - n)%nat with (S (KeyringFile.cn p - S n)) by lia. }
  intros p kp Hin. apply Hcs in Hin as (_ & c & id & D & E & F). rewrite Nat.sub_0_r in D. unfold keypair_at. rewrite D. cbn. rewrite E. done.
Qed.

Lemma get_nm_bytes_spec rnd cache known unknown : length known = 32%nat -> length unknown = 32%nat -> cache_ok cache ->
  exists o cache', keyring_get_nm_bytes beforenm k rnd cache known unknown = Some (o, cache') /\ cache_ok cache' /\
    (forall nm, o = Some nm -> nm_of known unknown nm) /\
    (o = None -> first_passing (is_sid known) (ctx_positions 0 (contexts k)) = None).
Proof.
  intros Hk Hu [Hl Hc]. unfold keyring_get_nm_bytes. destruct (nm_lookup cache known unknown) as [r|] eqn:E.
  - eexists _, _. split; [done|]. split; [done|]. split; [|done]. intros nm [= <-]. by apply (nm_lookup_spec cache).
  - pose proof (find_sid_first k known Hfull Hbox Hk) as Hf.
    destruct (first_passing (is_sid known) _) as [[p kp]|] eqn:Ep; cbn [found_as] in Hf.
    + rewrite Hf. cbn [mbind option_bind negb]. apply first_passing_in in Ep as [Hin Hb]. rewrite (positions_at p kp Hin). cbn [mbind option_bind nm_bytes].
      assert (Hok : record_ok (mk_nm known unknown (beforenm unknown (private_key kp)))).
      { split; [done|]. split; [done|]. by exists p, kp. }
      eexists _, _. split; [done|]. split; [|split; [|done]].
      * destruct (Nat.ltb_spec (length cache) NM_CACHE_SLOTS); split.
        -- rewrite length_app. simpl. lia.
        -- apply Forall_app. split; [done|by constructor].
        -- by rewrite length_insert.
        -- by apply Forall_insert.
      * intros nm [= <-]. by exists p, kp.
    + destruct Hf as [q ->]. cbn [mbind option_bind negb]. eexists _, _. split; [done|]. split; [done|]. split; done.
Qed.
End cache.
